(* ===== verification/_CoqProject ===== *)
-Q . S2P
Prelude.v
Constants.v
Alg.v
Crypto.v
ConcreteCrypto.v
Records.v
Envelope.v
Store.v
StoreProofs.v
PinRetry.v
Token.v
Cbor.v
ConcreteCbor.v
CborProofs.v
CredentialKey.v
Signing.v
Request.v
Presence.v
Engine.v
EngineProofs.v
ClientPin.v
ClientPinProofs.v
Scenario.v
ClientPinTheorems.v
Reset.v
AuthConfig.v
LargeBlobs.v
Frames.v
CredMgmt.v
CredMgmtProofs.v
SealedId.v
Ceremony.v
CeremonyProofs.v
MakeCredential.v
GetAssertion.v
U2f.v
Dispatch.v
Footprint.v
RegistrationProofs.v
AssertionProofs.v
Session.v
PinSession.v
U2fProofs.v
Ctaphid.v
HidHost.v
HidHostInv.v
HidHostProofs.v
HidClient.v
Seat.v
Transport.v
Uhid.v
HidWire.v
Codec.v
CodecProofs.v
FileSystem.v
Manifest.v
StoreKeys.v
FileStore.v
FsProofs.v
FileStoreProofs.v
FileStoreLaws.v
CredentialSet.v
CredentialTransactions.v
CredentialEffects.v
FileClear.v
FileStoreTheorems.v
Repair.v
RepairProofs.v
RepairTheorems.v
CborWire.v
ManagementClient.v
ClientEngine.v
Text.v
SeatWatch.v
SeatWatchProofs.v
Notification.v
PinInput.v
KeyCommands.v
KeyCommandsProofs.v
Daemon.v
