(* ===== verification/Prelude.v ===== *)
(** * SoftwareAuthenticator: a verification library

    SoftwareAuthenticator is a FIDO2 security key in software.  The crate
    [pqkey-ctap] (under [crates/pqkey-ctap/src]) is the authenticator: an
    engine that answers CTAP2 requests and U2F messages, over a credential
    store.  The crate [pqkey] is the program around it: the USB HID transport,
    user-presence prompts, the client, the command line and the service.  This
    library models the engine whole, the store's contract, the in-memory store,
    the file store with its encodings, its crash behaviour and its repair, the
    CTAPHID protocol at both ends, the management client and the commands that
    use it, the reading of PINs,
    the approval prompts and the watch on whose seat the key may serve, and
    proves what makes them correct.

    ** The parts and how they interact

    A request enters [CtapApp::call] (or [call_u2f]).  The engine forgets what
    the command may not continue, dispatches to a handler, and the handler
    works on three things: the engine's volatile state (token, enumerations,
    staged large blobs, remembered assertions), the credential store, and the
    world outside (clock, randomness, the user).  Handlers share the request
    scanners, the PIN state and its persistence, the token, and the
    registration and assertion ceremonies.  The store keeps records that were
    validated, and can fail at any call.  The file store does its work in
    system calls, any of which may fail or be the last before a crash.  CTAPHID
    carries a request to the engine in packets over channels; the management
    client of [pqkey]'s commands sends its requests that way, with PINs it read
    from a terminal or a pipe.  The daemon asks the user through notifications,
    and keeps the key's device only while the records of [logind] give the seat
    to its owner.

    ** How the code is modelled

    A fallible function returns [result] (Rust's [Result]); an engine operation
    is a state-passing function in the monad [M (CtapApp S) A Z], whose errors
    are CTAP status bytes and which keeps the state changes made before an
    error, as the code does.  Bytes and machine integers are [Z], with
    saturation, checked addition and truncation written out where the source
    has them.  The store is the class [CredentialStore S], one field per method
    of the trait; what the theorems assume of a store is in law classes
    ([PinStoreLaws], [PinResetLaws], [CredentialSetLaws], [BlobStoreLaws],
    [CounterStoreLaws], [SealStoreLaws]), which the in-memory store discharges.
    The file store discharges all but two: its list leaves out records it
    cannot read, so it has no [CredentialSetLaws], and a reset that fails may
    leave a new root key, so it has no [PinResetLaws]; what it does instead is
    stated of it directly ([FileStoreTheorems.v]).  A store call may fail and
    may still have changed the store.  The outside is [World]: streams
    of clock readings, random draws, answers of the user and operating-system
    entropy, read in order; theorems hold for every world.

    The file system is a tree of files, and a list of faults decides which
    system calls fail.  A call that fails has no effect, except that a failed
    write may leave part of its contents; a crash is a run in which every later
    call fails.  So a theorem for every list of faults is a theorem about every
    crash.  What a later run reads is [usable_now]: the credentials the tree holds under the current key.

    Signals, the steps of [logind] and of other processes are explicit
    sequences: a run of the seat watch interleaves its own steps with
    [logind]'s writes, and each system call on the terminal may be preceded by a
    signal and may fail.

    Third-party code is a parameter: hashes, AES, key agreement and AEAD
    ([Crypto]), curves and key expansion ([KeyCrypto]), signatures and key
    generation ([SigningCrypto]), the CBOR codec ([Ciborium]), X.509
    certificates ([Certificates]), Unicode normalization ([Normalization]), the
    desktop's notification server ([NotificationServer]), lower-casing
    ([Lowercase]), the daemon a reset restarts ([KeyHost]).  Their laws ([HashLengths], [HmacBytes],
    [AesLaws], [CipherBytes], [EcdhLaws], [AeadLaws], [KeyCryptoLaws],
    [SigningLaws], [CiboriumLaws]) state documented facts, such as digest
    lengths, that decryption inverts encryption, that both sides of a key
    agreement get the same point, and that [ciborium] writes canonical integers
    and lengths and reads back what it wrote; [ConcreteCrypto.v]
    and [ConcreteCbor.v] instantiate them with functions that run, so every
    witness evaluates whole handlers.

    ** The files

    Shared: [Prelude.v] (results, the state monad and its rules, bytes, machine
    integers, tactics, the hint database [ctap]), [Constants.v]
    ([ctap/constants.rs]), [Alg.v] ([crypto/alg.rs]), [Crypto.v]
    ([crypto/hkdf.rs], [crypto/pin_uv.rs]).

    Stored data: [Records.v] ([credential_id.rs], [store/record.rs],
    [store/mod.rs], [store/large_blobs.rs]), [Envelope.v] ([store/envelope.rs]), [Store.v] and [StoreProofs.v] (trait
    [CredentialStore] of [store/mod.rs], [store/memory.rs]).

    Keys: [CredentialKey.v] and [Signing.v] ([crypto/credential_key.rs], the
    algorithm files of [crypto/], [store/record.rs]).

    Requests: [Cbor.v] and [CborProofs.v] ([ctap/cbor.rs], [cbor.rs]),
    [Request.v] ([ctap/request.rs]), [Presence.v] ([ctap/presence.rs]).

    PIN: [PinRetry.v] and [Token.v] ([ctap/pin/state.rs],
    [ctap/pin/token.rs]), [ClientPin.v], [ClientPinProofs.v],
    [ClientPinTheorems.v] ([ctap/pin/client_pin.rs],
    [ctap/pin/permissions.rs]).

    The engine: [Engine.v] and [EngineProofs.v] ([CtapApp] of [ctap.rs],
    [ctap/storage.rs], [ctap/pin/protocol.rs]), [Frames.v] (what operations
    leave alone), [Reset.v] ([ctap/reset.rs], [ctap/selection.rs]),
    [AuthConfig.v] ([ctap/authenticator_config.rs]), [LargeBlobs.v]
    ([ctap/large_blobs.rs]), [CredMgmt.v] and [CredMgmtProofs.v]
    ([ctap/credential_management.rs]), [SealedId.v] ([ctap/credential_id.rs]),
    [Ceremony.v] and [CeremonyProofs.v] ([ctap/hmac_secret.rs] and what both
    ceremonies share), [MakeCredential.v] and [RegistrationProofs.v]
    ([ctap/make_credential.rs]), [GetAssertion.v] and [AssertionProofs.v]
    ([ctap/get_assertion.rs]), [U2f.v] and [U2fProofs.v] ([ctap/u2f.rs]),
    [Dispatch.v] ([ctap/get_info.rs] and [CtapApp::call] of [ctap.rs]).

    The file store: [Codec.v] and [CodecProofs.v] ([store/codec.rs]),
    [FileSystem.v] and [FsProofs.v] ([store/fsio.rs]), [Manifest.v]
    ([store/manifest.rs]), [StoreKeys.v] ([store/keys.rs]), [FileStore.v] and
    [FileStoreProofs.v] ([store/file.rs], [store/damage.rs]), [FileStoreLaws.v]
    (the interface's laws), [CredentialSet.v] (the members of the set and what
    reading finds), [CredentialTransactions.v] and [CredentialEffects.v] (what
    inserting, replacing, updating and deleting do under faults),
    [FileClear.v] (reset), [FileStoreTheorems.v]; [Repair.v],
    [RepairProofs.v] and [RepairTheorems.v] ([store/repair.rs]).

    CTAPHID: [Ctaphid.v], [HidHost.v], [HidHostInv.v] and [HidHostProofs.v]
    ([transport/ctaphid_host.rs]), [HidClient.v] ([client/ctaphid.rs]),
    [Transport.v] ([transport/mod.rs], [transport/identification.rs] and
    [shutdown.rs]: the loop and its worker threads, which run between any two of
    its steps), [Uhid.v] ([platform/linux/uhid.rs], the device the transport
    serves), [HidWire.v] (client and host joined by a wire).

    The client: [ManagementClient.v] ([client/ctap2.rs], [platform.rs]),
    [CborWire.v] (what the canonical scanner makes of what [ciborium] writes),
    [ClientEngine.v] (client and engine together).

    Around the key: [Text.v] (UTF-8 and the text helpers), [Seat.v]
    ([seat.rs], [transport/device.rs]), [SeatWatch.v] and [SeatWatchProofs.v]
    ([platform/linux/seat.rs]), [Notification.v] ([presence/notification.rs],
    [presence/mod.rs]), [PinInput.v] ([pin_input.rs]), [KeyCommands.v] and
    [KeyCommandsProofs.v] ([cli/key.rs]), [Daemon.v] ([service.rs],
    [attestation.rs]: provisioning and the loop over devices, which joins
    [Seat.v] and [Transport.v]).

    Whole runs: [Footprint.v] (what each command may write), [Session.v]
    (sequences of requests, U2F messages, settings and restarts),
    [PinSession.v] (the PIN budget over them).  [Scenario.v] is the concrete
    authenticator of the witnesses.

    ** What the theorems show

    PIN: an attacker gets at most the remaining retries, over any sequence of
    guesses, power cuts, requests and store failures; a retry is published
    before the PIN is compared; only the current PIN yields a token, a change
    of PIN or a restored budget; the live state is what a restart would read.

    Token: it ends by its timers, is bound to one relying party, carries only
    granted permissions and is spent by user presence; configuration, large
    blobs, credential management, registration and assertions that a token
    authorizes carried the MAC of the token in use.

    Requests: on canonical CBOR the scanners agree, and the bytes
    authenticated are the bytes sent.

    Credentials: the in-memory store keeps its invariant over any history;
    a registration is all or nothing; the credential that answers is the newest
    eligible one; its counter is persisted before the signature leaves; the
    enumerations are complete and ordered; a credential sealed into its ID and
    a U2F key handle keep working, with the same key, until a reset.

    The file store: for every sequence of failing system calls, a registration
    is on disk whole or not at all, and after success it is found again, also
    by a fresh start; an update or a deletion touches the one credential; a
    failed reset never lets an old credential be used under a new key;
    decoding accepts exactly the documented record format, and a manifest has
    one encoding.  A repair keeps every usable credential, and its quarantine is
    named by the Gregorian date.

    CTAPHID: the host keeps its invariant over any packets, timeouts and
    answers; an answer reaches the request it is for; packets of one channel do
    not disturb a transaction on another; deadlines are acted on; a client's
    request arrives whole and the engine's answer comes back whole.  For every
    interleaving of the transport with the app's thread, a cancellation reaches
    the request it is for and no other, and is not lost; every answer is to the
    request handed over last.  The virtual device reads an event only once it has
    settled, makes a frame of exactly the well-formed output reports, and answers
    every request the kernel waits for.

    The client: a client that obtains a token knew the PIN, and holds the very
    token the engine put in use, for the permission asked for.

    Around the key: for every interleaving with [logind], a report is handled
    only while the record of the device's seat allows its owner; an approval is
    the user's answer to the very prompt that was shown; the prompt's text is
    bounded and carries no markup of the relying party; a PIN the client's rules
    accept is the PIN the engine decodes; [pqkey passkeys delete] deletes the one
    passkey named, with consent, and a PIN that could not be the key's costs no
    retry; a reset is asked for again when a restart gave the PIN back; the table
    of passkeys carries no control characters; reading a PIN leaves the terminal's
    settings and signal actions as they were.  The daemon serves one device after
    another, each created only under a record that lets the user have it; the
    certificate it provisions names its own AAGUID, and is found again.

    Whole runs: which command may change what; and an invariant of every
    reachable state over a store that may fail anywhere.

    ** Bounds and fuel

    The CBOR scanners recurse on nesting, which the source limits to
    [MAX_NESTING] levels, and loop over items with the number of input bytes
    plus one as fuel: every item takes a byte, and [CborProofs.v] proves the
    fuel is never what stops them.  Drawing a fresh secret or key agreement key
    is tried 8 times, as the source bounds it.  Truncating UTF-8 text looks for
    a character boundary at most the length of the text; splitting into blocks
    has the length as fuel.  Enumerations and remembered assertions shrink with
    every answer.  Allocating a CTAPHID channel is tried as often as the source
    does ([CHANNEL_GENERATION_RETRY_LIMIT], 64 draws); a CTAPHID message has at
    most 129 packets, so 130 steps receive one, and the transaction theorem
    holds for every larger fuel.  The transport's loops take a turn of its
    schedule each time round, and the schedule's length is fuel enough
    ([serve_fuel] of [Transport.v]).
    Waiting for an answer to a prompt takes one clock reading a turn, so the
    readings of the world are its fuel; reading a terminal takes the calls to
    come as its fuel, and no call to come is the end of input.

    The seat watch assumes what the kernel documents: an inode is reused only
    when nothing holds it open, a notification arrives after the change it
    tells of, and the end of a watch is not lost to an overflow.  The devices of
    a seat are one snapshot of [udev]'s records.

    ** What is not modelled

    The text of log lines, of damage reports and of errors, stack scrubbing and
    zeroing of memory (no effect on results); symbolic links, and what a power
    failure undoes of directory entries that were never flushed; signature
    verification ([crypto/verify.rs], dispatch over third-party crates used by
    tests and the client); the ML-DSA wrapper crate; and of the crate [pqkey]
    the waking of its sleeping loop, panics of its worker threads, the rest of
    the command line ([cli]), the state lock, the system service, the search
    for [hidraw] nodes, D-Bus and the encoding of certificates; tests and fuzz
    targets. *)

From Stdlib Require Export ZArith Lia Bool.
From Stdlib Require Ascii String.
From Hammer Require Export Tactics.
From stdpp Require Export base numbers option decidable list.

#[global] Open Scope Z_scope.

(** ** Rust's [Result] and [?]

    [result A E] is [Result<A, E>]; the error type varies (a CTAP status byte,
    a store error, a transport error). *)

Inductive result (A E : Type) : Type :=
| Ok (a : A)
| Err (e : E).

Arguments Ok {A E} a.
Arguments Err {A E} e.

#[export] Instance result_eq_dec {A E} `{EqDecision A, EqDecision E} : EqDecision (result A E).
Proof. solve_decision. Defined.

Definition is_ok {A E} (r : result A E) : bool :=
  match r with Ok _ => true | Err _ => false end.

Definition map_err {A E F} (f : E -> F) (r : result A E) : result A F :=
  match r with Ok a => Ok a | Err e => Err (f e) end.

Definition ok_or {A E} (o : option A) (e : E) : result A E :=
  match o with Some a => Ok a | None => Err e end.

Definition is_some_and {A} (o : option A) (p : A -> bool) : bool :=
  match o with Some a => p a | None => false end.

Definition is_none_or {A} (o : option A) (p : A -> bool) : bool :=
  match o with Some a => p a | None => true end.

Definition is_some {A} (o : option A) : bool :=
  match o with Some _ => true | None => false end.

Definition bind {A B E} (r : result A E) (k : A -> result B E) : result B E :=
  match r with Ok a => k a | Err e => Err e end.

(** ** State passing with early return

    A method [fn f(&mut self, ..) -> Result<A, E>] is a function from the
    state to the state it leaves behind and its result: a failed call keeps
    the mutations made before the failure, exactly as [&mut self] does. *)

Definition M (S A E : Type) : Type := S -> S * result A E.

Definition ret {S A E} (a : A) : M S A E := fun s => (s, Ok a).

Definition fail {S A E} (e : E) : M S A E := fun s => (s, Err e).

Definition mbind_st {S A B E} (m : M S A E) (k : A -> M S B E) : M S B E :=
  fun s => match m s with
           | (s', Ok a) => k a s'
           | (s', Err e) => (s', Err e)
           end.

Definition lift {S A E} (r : result A E) : M S A E := fun s => (s, r).

Definition gets {S A E} (f : S -> A) : M S A E := fun s => (s, Ok (f s)).

Definition modify {S E} (f : S -> S) : M S unit E := fun s => (f s, Ok tt).

Definition guard {S E} (b : bool) (e : E) : M S unit E :=
  if b then ret tt else fail e.

Declare Scope rust_scope.
Delimit Scope rust_scope with rust.

Notation "'let?' x ':=' r 'in' k" := (bind r (fun x => k))
  (at level 10, x name, r at level 100, k at level 200) : rust_scope.
Notation "'let*' x ':=' m 'in' k" := (mbind_st m (fun x => k))
  (at level 10, x name, m at level 100, k at level 200) : rust_scope.
Notation "'let*' ' p ':=' m 'in' k" := (mbind_st m (fun x => match x with p => k end))
  (at level 10, p strict pattern, m at level 100, k at level 200) : rust_scope.
Notation "m ';;*' k" := (mbind_st m (fun _ => k))
  (at level 199, right associativity) : rust_scope.

#[global] Open Scope rust_scope.

(** ** Machine integers

    An unsigned w-bit integer is a [Z] in [0 .. 2^w); the source's wrapping
    and saturating operations are written out. *)

Definition u8_max : Z := 255.

Definition u64_modulus : Z := 2 ^ 64.

Definition u8_saturating_add (a b : Z) : Z := Z.min u8_max (a + b).

Definition u64_wrapping_add (a b : Z) : Z := (a + b) mod u64_modulus.

(** [u32::checked_add]: [None] when the sum does not fit. *)
Definition u32_checked_add (a b : Z) : option Z :=
  if a + b <? 2 ^ 32 then Some (a + b) else None.

Definition u64_checked_add (a b : Z) : option Z :=
  if a + b <? 2 ^ 64 then Some (a + b) else None.

(** [u64::try_from] of a signed number. *)
Definition u64_try_from (n : Z) : option Z :=
  if (0 <=? n) && (n <? u64_modulus) then Some n else None.

(** [saturating_sub] of unsigned numbers and of [Duration]s. *)
Definition saturating_sub (a b : Z) : Z := Z.max 0 (a - b).

(** ** Bytes

    A byte string ([Vec<u8>], [&[u8]], and the UTF-8 text of a [String]) is a
    list of [Z]; [bytes_ok] says every element is a byte. *)

Abbreviation bytes := (list Z) (only parsing).

(** The bytes of a literal; every literal of the source is ASCII. *)
Fixpoint ascii_bytes (s : String.string) : bytes :=
  match s with
  | String.EmptyString => []
  | String.String c s' => Z.of_N (Ascii.N_of_ascii c) :: ascii_bytes s'
  end.

Definition is_byte (b : Z) : Prop := 0 <= b < 256.

Definition bytes_ok (l : bytes) : Prop := Forall is_byte l.

#[export] Instance is_byte_dec b : Decision (is_byte b).
Proof. unfold is_byte. apply _. Defined.

#[export] Instance bytes_ok_dec l : Decision (bytes_ok l).
Proof. unfold bytes_ok. apply _. Defined.

Definition zlen {A} (l : list A) : Z := Z.of_nat (length l).

Definition bytes_eqb (a b : bytes) : bool := bool_decide (a = b).

(** Rust's lexicographic order on byte slices. *)
Fixpoint bytes_cmp (a b : bytes) : comparison :=
  match a, b with
  | [], [] => Eq
  | [], _ :: _ => Lt
  | _ :: _, [] => Gt
  | x :: a', y :: b' =>
      match Z.compare x y with Eq => bytes_cmp a' b' | c => c end
  end.

(** [&l[start..end]] for [start <= end <= len]. *)
Definition slice {A} (l : list A) (start stop : nat) : list A :=
  take (stop - start) (drop start l).

(** [to_be_bytes] over [n] bytes, and its inverse. *)
Fixpoint be_bytes (n : nat) (v : Z) : bytes :=
  match n with
  | O => []
  | S n' => be_bytes n' (v / 256) ++ [v mod 256]
  end.

Definition be_value (l : bytes) : Z := fold_left (fun acc b => acc * 256 + b) l 0.

(** [to_le_bytes], and its inverse. *)
Definition le_bytes (n : nat) (v : Z) : bytes := rev (be_bytes n v).

Definition le_value (l : bytes) : Z := be_value (rev l).

(** [fill_bytes] of an [n]-byte buffer from a generator's draw. *)
Definition fill_bytes (draw : nat -> Z) (n : nat) : bytes :=
  map (fun i => draw i mod 256) (seq 0 n).

(** ** Generic lemmas *)

Section Bytes.

Lemma be_bytes_length n v : length (be_bytes n v) = n.
Proof.
  revert v. induction n as [|n IH]; intros v; simpl; [done|].
  rewrite length_app, IH. simpl. lia.
Qed.

Lemma be_bytes_ok n v : bytes_ok (be_bytes n v).
Proof.
  revert v. induction n as [|n IH]; intros v; [constructor|].
  simpl. apply Forall_app. split; [apply IH|].
  constructor; [|constructor]. unfold is_byte. apply Z.mod_pos_bound. lia.
Qed.

Lemma be_value_snoc l b : be_value (l ++ [b]) = be_value l * 256 + b.
Proof. unfold be_value. by rewrite fold_left_app. Qed.

Lemma be_value_bytes n v : 0 <= v < 256 ^ Z.of_nat n -> be_value (be_bytes n v) = v.
Proof.
  revert v. induction n as [|n IH]; intros v Hv.
  - change (256 ^ Z.of_nat 0) with 1 in Hv. change (be_value (be_bytes 0 v)) with 0. lia.
  - simpl be_bytes. rewrite be_value_snoc, IH.
    + pose proof (Z.div_mod v 256). lia.
    + rewrite Nat2Z.inj_succ, Z.pow_succ_r in Hv by lia.
      split; [apply Z.div_pos; lia|]. apply Z.div_lt_upper_bound; lia.
Qed.

Lemma le_bytes_length n v : length (le_bytes n v) = n.
Proof. unfold le_bytes. by rewrite length_rev, be_bytes_length. Qed.

Lemma le_value_bytes n v : 0 <= v < 256 ^ Z.of_nat n -> le_value (le_bytes n v) = v.
Proof. intros. unfold le_value, le_bytes. rewrite rev_involutive. by apply be_value_bytes. Qed.

Lemma bytes_ok_snoc l b : bytes_ok (l ++ [b]) <-> bytes_ok l /\ is_byte b.
Proof. unfold bytes_ok. rewrite Forall_app, Forall_singleton. tauto. Qed.

Lemma be_value_range l : bytes_ok l -> 0 <= be_value l < 256 ^ zlen l.
Proof.
  unfold zlen. induction l as [|b l IH] using rev_ind; intros H.
  - unfold be_value. simpl. lia.
  - apply bytes_ok_snoc in H as [Hl Hb].
    rewrite be_value_snoc, length_app. specialize (IH Hl). unfold is_byte in Hb.
    change (length [b]) with 1%nat.
    rewrite Nat2Z.inj_add, Z.pow_add_r by lia. change (256 ^ Z.of_nat 1) with 256.
    lia.
Qed.

Lemma be_bytes_value l : bytes_ok l -> be_bytes (length l) (be_value l) = l.
Proof.
  induction l as [|b l IH] using rev_ind; intros H; [done|].
  apply bytes_ok_snoc in H as [Hl Hb].
  rewrite length_app. simpl. rewrite Nat.add_1_r. simpl.
  rewrite be_value_snoc. unfold is_byte in Hb.
  rewrite Z.div_add_l, (Z.div_small b 256), Z.add_0_r by lia.
  rewrite IH by done. f_equal. f_equal.
  rewrite Z.add_comm, Z.mod_add, Z.mod_small by lia. done.
Qed.

Lemma fill_bytes_length draw n : length (fill_bytes draw n) = n.
Proof. unfold fill_bytes. by rewrite length_map, length_seq. Qed.

Lemma fill_bytes_ok draw n : bytes_ok (fill_bytes draw n).
Proof.
  apply Forall_forall. intros b Hb. apply list_elem_of_In, in_map_iff in Hb as (i & <- & _).
  apply Z.mod_pos_bound. lia.
Qed.

Lemma bytes_cmp_refl l : bytes_cmp l l = Eq.
Proof. induction l as [|x l IH]; simpl; [done|]. by rewrite Z.compare_refl. Qed.

Lemma bytes_cmp_eq a b : bytes_cmp a b = Eq <-> a = b.
Proof.
  split; [|intros ->; apply bytes_cmp_refl].
  revert b. induction a as [|x a IH]; intros [|y b]; simpl; try done.
  destruct (Z.compare_spec x y); try done. intros H'. subst. f_equal. auto.
Qed.

Lemma bytes_cmp_antisym a b : bytes_cmp b a = CompOpp (bytes_cmp a b).
Proof.
  revert b. induction a as [|x a IH]; intros [|y b]; simpl; try done.
  rewrite (Z.compare_antisym x y). destruct (Z.compare x y); simpl; auto.
Qed.

Lemma bytes_cmp_lt_trans a b c :
  bytes_cmp a b = Lt -> bytes_cmp b c = Lt -> bytes_cmp a c = Lt.
Proof.
  revert b c. induction a as [|x a IH]; intros [|y b] [|z c]; simpl; try done.
  destruct (Z.compare_spec x y), (Z.compare_spec y z); try done; intros;
    destruct (Z.compare_spec x z); try done; try lia; subst; eauto.
Qed.

Lemma bytes_eqb_spec a b : bytes_eqb a b = true <-> a = b.
Proof. unfold bytes_eqb. by rewrite bool_decide_eq_true. Qed.

Lemma slice_length {A} (l : list A) a b :
  (a <= b)%nat -> (b <= length l)%nat -> length (slice l a b) = (b - a)%nat.
Proof. intros. unfold slice. rewrite length_take, length_drop. lia. Qed.

End Bytes.

(** ** Inversion of a sequenced call *)

Lemma mbind_ok {S A B E} (m : M S A E) (k : A -> M S B E) s s' b :
  mbind_st m k s = (s', Ok b) -> exists s1 a, m s = (s1, Ok a) /\ k a s1 = (s', Ok b).
Proof. unfold mbind_st. destruct (m s) as [s1 [a|e]]; [eauto|done]. Qed.

Lemma lift_ok {S A E} (r : result A E) (s s' : S) a :
  lift r s = (s', Ok a) -> s' = s /\ r = Ok a.
Proof. by intros [= <- ->]. Qed.

Lemma mbind_err {S A B E} (m : M S A E) (k : A -> M S B E) s s' e :
  mbind_st m k s = (s', Err e) ->
  m s = (s', Err e) \/ exists s1 a, m s = (s1, Ok a) /\ k a s1 = (s', Err e).
Proof. unfold mbind_st. destruct (m s) as [s1 [a|e']]; [eauto|]. intros [= <- <-]. by left. Qed.

(** The outcome of a run whose result is known. *)
Lemma run_result {A B} (x : A * B) r : snd x = r -> x = (fst x, r).
Proof. destruct x. simpl. by intros ->. Qed.

Lemma is_ok_exists {A E} (r : result A E) : is_ok r = true -> exists a, r = Ok a.
Proof. destruct r; [eauto|done]. Qed.

(** ** Automation

    [simp_st] opens the state-passing combinators; [inv_st] additionally
    splits every match in the goal and in the hypotheses on the way. *)

Create HintDb ctap.
Create Rewrite HintDb ctap.

#[export] Hint Resolve be_bytes_length be_bytes_ok fill_bytes_length fill_bytes_ok bytes_cmp_refl : ctap.
#[export] Hint Rewrite be_bytes_length @length_app @length_take @length_drop : ctap.

Ltac simp_st :=
  unfold mbind_st, ret, fail, lift, gets, modify, guard, bind, map_err, ok_or in *;
  simpl in *.

Ltac case_goal :=
  match goal with
  | |- context [match ?x with _ => _ end] => destruct x eqn:?
  end.

Ltac case_hyp :=
  match goal with
  | H : context [match ?x with _ => _ end] |- _ => destruct x eqn:?
  end.

Ltac bool_hyps :=
  repeat match goal with
  | H : _ && _ = true |- _ => apply andb_true_iff in H as [? ?]
  | H : _ && _ = false |- _ => apply andb_false_iff in H as [?|?]
  | H : _ || _ = true |- _ => apply orb_true_iff in H as [?|?]
  | H : _ || _ = false |- _ => apply orb_false_iff in H as [? ?]
  | H : negb _ = true |- _ => apply negb_true_iff in H
  | H : negb _ = false |- _ => apply negb_false_iff in H
  | H : (_ <? _) = true |- _ => apply Z.ltb_lt in H
  | H : (_ <? _) = false |- _ => apply Z.ltb_ge in H
  | H : (_ <=? _) = true |- _ => apply Z.leb_le in H
  | H : (_ <=? _) = false |- _ => apply Z.leb_gt in H
  | H : (_ =? _) = true |- _ => apply Z.eqb_eq in H
  | H : (_ =? _) = false |- _ => apply Z.eqb_neq in H
  | H : bool_decide _ = true |- _ => apply bool_decide_eq_true in H
  | H : bool_decide _ = false |- _ => apply bool_decide_eq_false in H
  | H : bytes_eqb _ _ = true |- _ => apply bytes_eqb_spec in H
  end.

(** Split every match of hypothesis [H], closing the contradictory branches. *)
Ltac inv_step H :=
  match type of H with
  | context [match ?x with _ => _ end] => destruct x eqn:?; simplify_eq/=
  end.

(** Peel the first call off a successful sequence. *)
Ltac peel H s x Hm := apply mbind_ok in H as (s & x & Hm & H).

(** Peel a pure step [lift r] off: [Hm] says what [r] is. *)
Ltac peel_lift H x Hm :=
  let s := fresh "s" in
  apply mbind_ok in H as (s & x & Hm & H); apply lift_ok in Hm as [-> Hm].

Ltac inv_all H := repeat inv_step H.
