(* ===== verification/Constants.v ===== *)
(** * CTAP command codes and status codes

    The numbers of [ctap/constants.rs], under the names the source gives
    them.  Status codes are the error values of every handler. *)

From S2P Require Import Prelude.

(** ** Command codes (CTAP 2.3 section 6) *)

Definition CTAP_CMD_MAKE_CREDENTIAL : Z := 0x1.
Definition CTAP_CMD_GET_ASSERTION : Z := 0x2.
Definition CTAP_CMD_GET_INFO : Z := 0x4.
Definition CTAP_CMD_CLIENT_PIN : Z := 0x6.
Definition CTAP_CMD_RESET : Z := 0x7.
Definition CTAP_CMD_GET_NEXT_ASSERTION : Z := 0x8.
Definition CTAP_CMD_BIO_ENROLLMENT : Z := 0x9.
Definition CTAP_CMD_CREDENTIAL_MANAGEMENT : Z := 0xa.
Definition CTAP_CMD_SELECTION : Z := 0xb.
Definition CTAP_CMD_LARGE_BLOBS : Z := 0xc.
Definition CTAP_CMD_AUTHENTICATOR_CONFIG : Z := 0xd.
Definition CTAP_CMD_BIO_ENROLLMENT_PROTOTYPE : Z := 0x40.
Definition CTAP_CMD_CREDENTIAL_MANAGEMENT_PROTOTYPE : Z := 0x41.

(** The largest CTAPHID message: 64 - 7 + 128 * (64 - 5). *)
Definition MAX_RESPONSE_SIZE : Z := 7609.

(** ** Status codes (CTAP 2.3 section 8.2) *)

Definition CTAP2_OK : Z := 0x0.
Definition CTAP1_ERR_INVALID_COMMAND : Z := 0x1.
Definition CTAP1_ERR_INVALID_PARAMETER : Z := 0x2.
Definition CTAP1_ERR_INVALID_LENGTH : Z := 0x3.
Definition CTAP1_ERR_INVALID_SEQ : Z := 0x4.
Definition CTAP1_ERR_TIMEOUT : Z := 0x5.
Definition CTAP1_ERR_CHANNEL_BUSY : Z := 0x6.
Definition CTAP2_ERR_CBOR_UNEXPECTED_TYPE : Z := 0x11.
Definition CTAP2_ERR_INVALID_CBOR : Z := 0x12.
Definition CTAP2_ERR_MISSING_PARAMETER : Z := 0x14.
Definition CTAP2_ERR_LIMIT_EXCEEDED : Z := 0x15.
Definition CTAP2_ERR_LARGE_BLOB_STORAGE_FULL : Z := 0x18.
Definition CTAP2_ERR_CREDENTIAL_EXCLUDED : Z := 0x19.
Definition CTAP2_ERR_PROCESSING : Z := 0x21.
Definition CTAP2_ERR_INVALID_CREDENTIAL : Z := 0x22.
Definition CTAP2_ERR_USER_ACTION_PENDING : Z := 0x23.
Definition CTAP2_ERR_UNSUPPORTED_ALGORITHM : Z := 0x26.
Definition CTAP2_ERR_OPERATION_DENIED : Z := 0x27.
Definition CTAP2_ERR_KEY_STORE_FULL : Z := 0x28.
Definition CTAP2_ERR_UNSUPPORTED_OPTION : Z := 0x2b.
Definition CTAP2_ERR_INVALID_OPTION : Z := 0x2c.
Definition CTAP2_ERR_KEEPALIVE_CANCEL : Z := 0x2d.
Definition CTAP2_ERR_NO_CREDENTIALS : Z := 0x2e.
Definition CTAP2_ERR_USER_ACTION_TIMEOUT : Z := 0x2f.
Definition CTAP2_ERR_NOT_ALLOWED : Z := 0x30.
Definition CTAP2_ERR_PIN_INVALID : Z := 0x31.
Definition CTAP2_ERR_PIN_BLOCKED : Z := 0x32.
Definition CTAP2_ERR_PIN_AUTH_INVALID : Z := 0x33.
Definition CTAP2_ERR_PIN_AUTH_BLOCKED : Z := 0x34.
Definition CTAP2_ERR_PIN_NOT_SET : Z := 0x35.
Definition CTAP2_ERR_PUAT_REQUIRED : Z := 0x36.
Definition CTAP2_ERR_PIN_POLICY_VIOLATION : Z := 0x37.
Definition CTAP2_ERR_REQUEST_TOO_LARGE : Z := 0x39.
Definition CTAP2_ERR_ACTION_TIMEOUT : Z := 0x3a.
Definition CTAP2_ERR_UP_REQUIRED : Z := 0x3b.
Definition CTAP2_ERR_INTEGRITY_FAILURE : Z := 0x3d.
Definition CTAP2_ERR_INVALID_SUBCOMMAND : Z := 0x3e.
Definition CTAP2_ERR_UNAUTHORIZED_PERMISSION : Z := 0x40.
Definition CTAP1_ERR_OTHER : Z := 0x7f.

(** Every status code of the file, in its order. *)
Definition status_codes : list Z :=
  [ CTAP2_OK;
    CTAP1_ERR_INVALID_COMMAND;
    CTAP1_ERR_INVALID_PARAMETER;
    CTAP1_ERR_INVALID_LENGTH;
    CTAP1_ERR_INVALID_SEQ;
    CTAP1_ERR_TIMEOUT;
    CTAP1_ERR_CHANNEL_BUSY;
    CTAP2_ERR_CBOR_UNEXPECTED_TYPE;
    CTAP2_ERR_INVALID_CBOR;
    CTAP2_ERR_MISSING_PARAMETER;
    CTAP2_ERR_LIMIT_EXCEEDED;
    CTAP2_ERR_LARGE_BLOB_STORAGE_FULL;
    CTAP2_ERR_CREDENTIAL_EXCLUDED;
    CTAP2_ERR_PROCESSING;
    CTAP2_ERR_INVALID_CREDENTIAL;
    CTAP2_ERR_USER_ACTION_PENDING;
    CTAP2_ERR_UNSUPPORTED_ALGORITHM;
    CTAP2_ERR_OPERATION_DENIED;
    CTAP2_ERR_KEY_STORE_FULL;
    CTAP2_ERR_UNSUPPORTED_OPTION;
    CTAP2_ERR_INVALID_OPTION;
    CTAP2_ERR_KEEPALIVE_CANCEL;
    CTAP2_ERR_NO_CREDENTIALS;
    CTAP2_ERR_USER_ACTION_TIMEOUT;
    CTAP2_ERR_NOT_ALLOWED;
    CTAP2_ERR_PIN_INVALID;
    CTAP2_ERR_PIN_BLOCKED;
    CTAP2_ERR_PIN_AUTH_INVALID;
    CTAP2_ERR_PIN_AUTH_BLOCKED;
    CTAP2_ERR_PIN_NOT_SET;
    CTAP2_ERR_PUAT_REQUIRED;
    CTAP2_ERR_PIN_POLICY_VIOLATION;
    CTAP2_ERR_REQUEST_TOO_LARGE;
    CTAP2_ERR_ACTION_TIMEOUT;
    CTAP2_ERR_UP_REQUIRED;
    CTAP2_ERR_INTEGRITY_FAILURE;
    CTAP2_ERR_INVALID_SUBCOMMAND;
    CTAP2_ERR_UNAUTHORIZED_PERMISSION;
    CTAP1_ERR_OTHER ].
