(* ===== verification/Alg.v ===== *)
(** * COSE algorithms and key kinds ([crypto/alg.rs])

    The table of supported algorithms: identifiers, signature schemes, the
    kind of private key each keeps, and which fit a sealed credential ID. *)

From S2P Require Import Prelude.

Inductive CoseAlg : Type :=
| ES256 | MLDSA44 | MLDSA65 | MLDSA87 | ESP256 | ES384 | ESP384 | ES512
| ESP512 | ES256K | EdDSA | Ed25519 | Ed448 | RS256 | RS384 | RS512
| PS256 | PS384 | PS512 | ESB256 | ESB384.

Inductive KeyKind : Type := KP256Scalar | KSeed | KRsaPrimes.

Inductive Curve : Type := P256 | P384 | P521 | Secp256k1 | BrainpoolP256r1 | BrainpoolP384r1.

Inductive EdwardsCurve : Type := CEd25519 | CEd448.

Inductive ParamSet : Type := PMLDSA44 | PMLDSA65 | PMLDSA87.

Inductive Padding : Type := Pkcs1v15 | Pss.

Inductive Hash : Type := Sha256 | Sha384 | Sha512.

Inductive Scheme : Type :=
| SEcdsa (c : Curve)
| SEdDsa (c : EdwardsCurve)
| SMlDsa (p : ParamSet)
| SRsa (p : Padding) (h : Hash).

#[export] Instance CoseAlg_eq_dec : EqDecision CoseAlg.
Proof. solve_decision. Defined.

#[export] Instance KeyKind_eq_dec : EqDecision KeyKind.
Proof. solve_decision. Defined.

#[export] Instance Curve_eq_dec : EqDecision Curve.
Proof. solve_decision. Defined.

#[export] Instance EdwardsCurve_eq_dec : EqDecision EdwardsCurve.
Proof. solve_decision. Defined.

#[export] Instance ParamSet_eq_dec : EqDecision ParamSet.
Proof. solve_decision. Defined.

#[export] Instance Padding_eq_dec : EqDecision Padding.
Proof. solve_decision. Defined.

#[export] Instance Hash_eq_dec : EqDecision Hash.
Proof. solve_decision. Defined.

#[export] Instance Scheme_eq_dec : EqDecision Scheme.
Proof. solve_decision. Defined.

Definition fits_sealed_key_field (k : KeyKind) : bool :=
  match k with KP256Scalar | KSeed => true | KRsaPrimes => false end.

Definition scheme_key_kind (s : Scheme) : KeyKind :=
  match s with
  | SEcdsa P256 => KP256Scalar
  | SEcdsa (P384 | P521 | Secp256k1 | BrainpoolP256r1 | BrainpoolP384r1) => KSeed
  | SEdDsa (CEd25519 | CEd448) => KSeed
  | SMlDsa _ => KSeed
  | SRsa _ _ => KRsaPrimes
  end.

(** [CoseAlg::ALL], in the order authenticatorGetInfo lists them. *)
Definition ALL : list CoseAlg :=
  [ES256; MLDSA44; MLDSA65; MLDSA87; ESP256; ES384; ESP384; ES512; ESP512;
   ES256K; EdDSA; Ed25519; Ed448; RS256; RS384; RS512; PS256; PS384; PS512;
   ESB256; ESB384].

(** The [scheme] column of [CoseAlg::properties]. *)
Definition scheme (a : CoseAlg) : Scheme :=
  match a with
  | ES256 => SEcdsa P256
  | MLDSA44 => SMlDsa PMLDSA44
  | MLDSA65 => SMlDsa PMLDSA65
  | MLDSA87 => SMlDsa PMLDSA87
  | ESP256 => SEcdsa P256
  | ES384 => SEcdsa P384
  | ESP384 => SEcdsa P384
  | ES512 => SEcdsa P521
  | ESP512 => SEcdsa P521
  | ES256K => SEcdsa Secp256k1
  | EdDSA => SEdDsa CEd25519
  | Ed25519 => SEdDsa CEd25519
  | Ed448 => SEdDsa CEd448
  | RS256 => SRsa Pkcs1v15 Sha256
  | RS384 => SRsa Pkcs1v15 Sha384
  | RS512 => SRsa Pkcs1v15 Sha512
  | PS256 => SRsa Pss Sha256
  | PS384 => SRsa Pss Sha384
  | ESB256 => SEcdsa BrainpoolP256r1
  | ESB384 => SEcdsa BrainpoolP384r1
  | PS512 => SRsa Pss Sha512
  end.

(** The enum's discriminants. *)
Definition identifier (a : CoseAlg) : Z :=
  match a with
  | ES256 => -7 | MLDSA44 => -48 | MLDSA65 => -49 | MLDSA87 => -50
  | ESP256 => -9 | ES384 => -35 | ESP384 => -51 | ES512 => -36
  | ESP512 => -52 | ES256K => -47 | EdDSA => -8 | Ed25519 => -19
  | Ed448 => -53 | RS256 => -257 | RS384 => -258 | RS512 => -259
  | PS256 => -37 | PS384 => -38 | PS512 => -39 | ESB256 => -265
  | ESB384 => -267
  end.

Definition key_kind (a : CoseAlg) : KeyKind := scheme_key_kind (scheme a).

Definition is_sealable (a : CoseAlg) : bool :=
  fits_sealed_key_field (key_kind a) && (-128 <=? identifier a) && (identifier a <=? 127).

(** [TryFrom<i32> for CoseAlg]; the error carries the identifier. *)
Definition alg_try_from (value : Z) : result CoseAlg Z :=
  ok_or (find (fun a => identifier a =? value) ALL) value.

(** ** The table is consistent *)

Lemma ALL_complete (a : CoseAlg) : In a ALL.
Proof. destruct a; simpl; tauto. Qed.

Lemma identifier_inj (a b : CoseAlg) : identifier a = identifier b -> a = b.
Proof. destruct a, b; simpl; intros; first [reflexivity | lia]. Qed.

Lemma alg_try_from_identifier (a : CoseAlg) : alg_try_from (identifier a) = Ok a.
Proof. destruct a; reflexivity. Qed.

Lemma alg_try_from_ok (v : Z) (a : CoseAlg) : alg_try_from v = Ok a <-> identifier a = v.
Proof.
  split; [|intros <-; apply alg_try_from_identifier].
  unfold alg_try_from, ok_or. destruct (find _ _) eqn:Hf; [|done].
  intros [= <-]. apply find_some in Hf as [_ Hf]. by apply Z.eqb_eq in Hf.
Qed.

#[export] Hint Resolve alg_try_from_identifier ALL_complete : ctap.
