(* ===== verification/Crypto.v ===== *)
(** * Cryptography

    The primitives come from third-party crates (sha2, hmac, aes/cbc, p256,
    chacha20poly1305, the operating system's generator) and are parameters:
    class [Crypto], with the documented facts the theorems rely on in the
    law classes below it.  What the repository itself builds from them
    ([crypto/hkdf.rs], [crypto/pin_uv.rs] and the protocol plumbing of
    [ctap/pin/protocol.rs]) is defined on top. *)

From S2P Require Import Prelude Constants.

(** ** Primitives *)

Class Crypto : Type := {
  sha256 : bytes -> bytes;
  hmac_sha256 : bytes -> bytes -> bytes;
  (** AES-256-CBC without padding: key, IV, input of whole blocks. *)
  aes256_cbc_encrypt : bytes -> bytes -> bytes -> bytes;
  aes256_cbc_decrypt : bytes -> bytes -> bytes -> option bytes;
  (** XChaCha20-Poly1305: key, nonce, associated data, text; the detached tag. *)
  xchacha_encrypt : bytes -> bytes -> bytes -> bytes -> option (bytes * bytes);
  xchacha_decrypt : bytes -> bytes -> bytes -> bytes -> bytes -> option bytes;
  (** P-256: scalar range check, public point of a scalar (x, y), SEC1 point
      decoding, and the x-coordinate of the shared point. *)
  p256_scalar_valid : bytes -> bool;
  p256_public : bytes -> bytes * bytes;
  p256_point : bytes -> option bytes;
  p256_ecdh : bytes -> bytes -> bytes;
  (** RSA: the modulus of the key with primes p and q and exponent 65537, or
      [None] if the numbers form no key. *)
  rsa_from_p_q : bytes -> bytes -> option bytes
}.

(** ** Documented facts *)

Class HashLengths `{Crypto} : Prop := {
  sha256_length m : length (sha256 m) = 32%nat;
  hmac_sha256_length k m : length (hmac_sha256 k m) = 32%nat
}.

(** An HMAC is a [[u8; 32]]. *)
Class HmacBytes `{Crypto} : Prop := {
  hmac_sha256_bytes k m : bytes_ok (hmac_sha256 k m)
}.

Class AesLaws `{Crypto} : Prop := {
  aes_roundtrip k iv p :
    length k = 32%nat -> length iv = 16%nat -> (length p mod 16 = 0)%nat ->
    aes256_cbc_decrypt k iv (aes256_cbc_encrypt k iv p) = Some p;
  aes_length k iv p :
    length k = 32%nat -> length iv = 16%nat -> (length p mod 16 = 0)%nat ->
    length (aes256_cbc_encrypt k iv p) = length p
}.

Class AeadLaws `{Crypto} : Prop := {
  aead_roundtrip k n ad p c t :
    xchacha_encrypt k n ad p = Some (c, t) -> xchacha_decrypt k n ad c t = Some p;
  aead_lengths k n ad p c t :
    xchacha_encrypt k n ad p = Some (c, t) -> length c = length p /\ length t = 16%nat
}.

(** ** [crypto/hkdf.rs] *)

Section Derived.

Context `{Crypto}.

(** [HMAC(HMAC(0^32, ikm), info || 0x01)]; HMAC takes keys of any length, so
    the [Result] is always [Ok]. *)
Definition hkdf_sha256 (ikm info : bytes) : bytes :=
  let prk := hmac_sha256 (repeat 0 32) ikm in
  hmac_sha256 prk (info ++ [1]).

(** ** [crypto/pin_uv.rs] *)

Inductive PinProtocol : Type := V1 | V2.

#[export] Instance PinProtocol_eq_dec : EqDecision PinProtocol.
Proof. solve_decision. Defined.

Definition protocol_identifier (p : PinProtocol) : Z :=
  match p with V1 => 1 | V2 => 2 end.

(** The payload of [CryptoError::MlDsa] is left out. *)
Inductive CryptoError : Type :=
| KeyTypeMismatch | InvalidKey | InvalidPublicKey | CborEncoding | KeyDerivation
| SigningFailed | InvalidPinBlock | MlDsaFailed | Randomness.

Record PinUvSessionKeys : Type := { encryption_key : bytes; auth_key : bytes }.

(** ASCII of "CTAP2 AES key" and "CTAP2 HMAC key". *)
Definition info_aes_key : bytes := [67; 84; 65; 80; 50; 32; 65; 69; 83; 32; 107; 101; 121].

Definition info_hmac_key : bytes :=
  [67; 84; 65; 80; 50; 32; 72; 77; 65; 67; 32; 107; 101; 121].

Definition try_derive_classic_pin_uv_session_keys
    (protocol : PinProtocol) (shared_secret : bytes) : PinUvSessionKeys :=
  match protocol with
  | V1 =>
      let hash := sha256 shared_secret in
      {| encryption_key := hash; auth_key := hash |}
  | V2 =>
      {| encryption_key := hkdf_sha256 shared_secret info_aes_key;
         auth_key := hkdf_sha256 shared_secret info_hmac_key |}
  end.

Definition zero_iv : bytes := repeat 0 16.

Definition encrypt_classic_pin_block (protocol : PinProtocol) (keys : PinUvSessionKeys)
    (iv : option bytes) (plaintext : bytes) : result bytes CryptoError :=
  match protocol with
  | V1 =>
      if negb (length plaintext mod 16 =? 0)%nat then Err InvalidPinBlock
      else Ok (aes256_cbc_encrypt (encryption_key keys) zero_iv plaintext)
  | V2 =>
      let? iv := ok_or iv InvalidPinBlock in
      if negb (length plaintext mod 16 =? 0)%nat then Err InvalidPinBlock
      else Ok (iv ++ aes256_cbc_encrypt (encryption_key keys) iv plaintext)
  end.

Definition decrypt_classic_pin_block (protocol : PinProtocol) (keys : PinUvSessionKeys)
    (ciphertext : bytes) : result bytes CryptoError :=
  match protocol with
  | V1 =>
      if negb (length ciphertext mod 16 =? 0)%nat then Err InvalidPinBlock
      else ok_or (aes256_cbc_decrypt (encryption_key keys) zero_iv ciphertext) InvalidPinBlock
  | V2 =>
      if (length ciphertext <? 16)%nat then Err InvalidPinBlock
      else
        let iv := take 16 ciphertext in
        let body := drop 16 ciphertext in
        if negb (length body mod 16 =? 0)%nat then Err InvalidPinBlock
        else ok_or (aes256_cbc_decrypt (encryption_key keys) iv body) InvalidPinBlock
  end.

Definition authenticate (protocol : PinProtocol) (key message : bytes) : bytes :=
  let tag := hmac_sha256 key message in
  match protocol with V1 => take 16 tag | V2 => tag end.

Definition pin_hash_of (pin : bytes) : bytes := take 16 (sha256 pin).

(** ** [crypto/rsa.rs]: keys kept as their primes *)

(** [n.bits()] of a positive number. *)
Definition bit_length (n : Z) : Z := Z.log2 n + 1.

(** p and q, if p || q has the shape of an RSA-2048 key. *)
Definition rsa_primes (b : bytes) : result (bytes * bytes) CryptoError :=
  if negb (length b =? 256)%nat then Err InvalidKey
  else
    let p := take 128 b in
    let q := drop 128 b in
    if (Z.land (nth 0 p 0) 0x80 =? 0) || (Z.land (nth 0 q 0) 0x80 =? 0)
       || (Z.land (nth 127 p 0) 1 =? 0) || (Z.land (nth 127 q 0) 1 =? 0)
       || bytes_eqb p q
    then Err InvalidKey
    else if negb (bit_length (be_value p * be_value q) =? 2048) then Err InvalidKey
    else Ok (p, q).

(** The reconstructed key: its primes and its modulus. *)
Definition rsa_signing_key (b : bytes) : result ((bytes * bytes) * bytes) CryptoError :=
  let? pq := rsa_primes b in
  match rsa_from_p_q (fst pq) (snd pq) with
  | Some n => Ok (pq, n)
  | None => Err InvalidKey
  end.

(** ** [ctap/pin/protocol.rs]: decrypt and verify *)

Definition decrypt (protocol : PinProtocol) (keys : PinUvSessionKeys) (ciphertext : bytes)
    : option bytes :=
  match decrypt_classic_pin_block protocol keys ciphertext with
  | Ok p => Some p
  | Err _ => None
  end.

Definition verify (protocol : PinProtocol) (key message signature : bytes) : result unit Z :=
  if bytes_eqb (authenticate protocol key message) signature then Ok tt
  else Err CTAP2_ERR_PIN_AUTH_INVALID.

(** ** Facts *)

(** Accepting a MAC is equality with the recomputed one, at the protocol's
    own length. *)
Lemma verify_ok_iff protocol key message signature :
  verify protocol key message signature = Ok tt <-> signature = authenticate protocol key message.
Proof.
  unfold verify. destruct (bytes_eqb _ _) eqn:E.
  - apply bytes_eqb_spec in E. by split; intros.
  - split; [done|]. intros ->. unfold bytes_eqb in E.
    by apply bool_decide_eq_false in E.
Qed.

Lemma authenticate_length `{!HashLengths} protocol key message :
  length (authenticate protocol key message) = match protocol with V1 => 16 | V2 => 32 end%nat.
Proof.
  destruct protocol; simpl; [|apply hmac_sha256_length].
  rewrite length_take, hmac_sha256_length. reflexivity.
Qed.

Lemma session_key_length `{!HashLengths} protocol secret :
  length (encryption_key (try_derive_classic_pin_uv_session_keys protocol secret)) = 32%nat.
Proof. destruct protocol; [apply sha256_length|apply hmac_sha256_length]. Qed.

Lemma pin_block_roundtrip `{!AesLaws} protocol keys iv plaintext c :
  encrypt_classic_pin_block protocol keys iv plaintext = Ok c ->
  length (encryption_key keys) = 32%nat ->
  (forall v, iv = Some v -> length v = 16%nat) ->
  decrypt protocol keys c = Some plaintext.
Proof.
  unfold decrypt, encrypt_classic_pin_block, decrypt_classic_pin_block.
  intros Henc Hk Hiv. destruct protocol; simp_st.
  - destruct (negb _) eqn:E; [done|]. injection Henc as <-.
    apply negb_false_iff, Nat.eqb_eq in E.
    by rewrite aes_length, E, aes_roundtrip.
  - destruct iv as [v|]; [|done]. specialize (Hiv v eq_refl).
    destruct (negb _) eqn:E; [done|]. injection Henc as <-.
    apply negb_false_iff, Nat.eqb_eq in E.
    rewrite length_app, Hiv.
    replace (16 + _ <? 16)%nat with false by (symmetry; apply Nat.ltb_ge; lia).
    rewrite drop_app_length', take_app_length' by done.
    by rewrite aes_length, E, aes_roundtrip.
Qed.

End Derived.

#[export] Hint Resolve authenticate_length : ctap.
