(* ===== verification/ConcreteCrypto.v ===== *)
(** * A concrete instance of the cryptographic parameters

    Runs the model on concrete inputs and shows the laws of [Crypto.v] can
    hold together.  Every primitive is a stand-in that satisfies the laws and
    is cheap to evaluate; none of them is secure, and no theorem depends on
    which instance is used. *)

From S2P Require Import Prelude Crypto.

(** The stand-in hash: a rolling sum of the input, spread over 32 bytes. *)
Module StandIn.

Definition rolling (m : list Z) : Z :=
  fold_left (fun acc b => (acc * 257 + b + 1) mod 65521) m 1.

Definition digest (m : list Z) : list Z :=
  let h := rolling m in
  be_bytes 2 h ++ repeat (h mod 251) 30.

Definition hmac (k m : list Z) : list Z := digest (k ++ [255] ++ m).

End StandIn.

(** The stand-in ciphers: XOR with the first key byte, and a MAC of
    everything as the tag. *)
Definition xor_cipher (k p : list Z) : list Z := map (fun b => Z.lxor b (hd 0 k)) p.

Definition concrete_tag (k n ad p : list Z) : list Z := take 16 (StandIn.hmac k (n ++ ad ++ p)).

#[export] Instance concrete_crypto : Crypto := {|
  sha256 := StandIn.digest;
  hmac_sha256 := StandIn.hmac;
  aes256_cbc_encrypt := fun k _ p => xor_cipher k p;
  aes256_cbc_decrypt := fun k _ c => Some (xor_cipher k c);
  xchacha_encrypt := fun k n ad p => Some (xor_cipher k p, concrete_tag k n ad p);
  xchacha_decrypt := fun k n ad c t =>
    if bytes_eqb (concrete_tag k n ad (xor_cipher k c)) t then Some (xor_cipher k c) else None;
  p256_scalar_valid := fun s => (length s =? 32)%nat && ((1 <=? be_value s) && (be_value s <? 2 ^ 256));
  p256_public := fun s => (s, rev s);
  p256_point := fun e => if (length e =? 65)%nat then Some (slice e 1 33) else None;
  p256_ecdh := fun s p => zip_with Z.lxor s p;
  rsa_from_p_q := fun p q => Some (be_bytes 256 (be_value p * be_value q))
|}.

Lemma xor_cipher_involutive k p : xor_cipher k (xor_cipher k p) = p.
Proof.
  unfold xor_cipher. rewrite map_map. transitivity (map (fun b => b) p); [|apply map_id].
  apply map_ext. intros b. rewrite Z.lxor_assoc, Z.lxor_nilpotent. apply Z.lxor_0_r.
Qed.

Lemma digest_length m : length (StandIn.digest m) = 32%nat.
Proof. unfold StandIn.digest. by rewrite length_app, be_bytes_length, repeat_length. Qed.

Lemma hmac_length k m : length (StandIn.hmac k m) = 32%nat.
Proof. unfold StandIn.hmac. apply digest_length. Qed.

#[export] Instance concrete_hash_lengths : HashLengths.
Proof. exact (Build_HashLengths _ digest_length hmac_length). Qed.

Lemma digest_bytes m : bytes_ok (StandIn.digest m).
Proof.
  unfold StandIn.digest. apply Forall_app. split; [apply be_bytes_ok|].
  apply List.Forall_forall. intros x Hx%repeat_spec. subst x. unfold is_byte.
  match goal with |- context [?h mod 251] => pose proof (Z.mod_pos_bound h 251 ltac:(lia)) end. lia.
Qed.

#[export] Instance concrete_hmac_bytes : HmacBytes.
Proof. constructor. intros k m. apply digest_bytes. Qed.

#[export] Instance concrete_aes_laws : AesLaws.
Proof.
  split; intros; simpl; [by rewrite xor_cipher_involutive|].
  unfold xor_cipher. by rewrite length_map.
Qed.

Lemma concrete_tag_length k n ad p : length (concrete_tag k n ad p) = 16%nat.
Proof. unfold concrete_tag. rewrite length_take, hmac_length. lia. Qed.

#[export] Instance concrete_aead_laws : AeadLaws.
Proof.
  split; simpl; intros k n ad p c t [= <- <-].
  - rewrite xor_cipher_involutive.
    by rewrite (proj2 (bytes_eqb_spec _ _) eq_refl).
  - rewrite concrete_tag_length. unfold xor_cipher. by rewrite length_map.
Qed.
