(* ===== verification/Records.v ===== *)
(** * Credential IDs, stored records and their validation ([credential_id.rs],
    [store/record.rs], [store/mod.rs])

    A credential ID is either sealed (it carries the credential), or names a
    stored record that its first byte marks discoverable or not.  The records a
    credential store keeps, the errors it reports, and the checks every write
    goes through. *)

From Stdlib Require Import Sorted.
From stdpp Require Import strings sorting.
From S2P Require Import Prelude Constants Alg Crypto.

(** ** The forms of a credential ID *)

(** [store::envelope::SEALED_ID_OVERHEAD]: a 24-byte nonce and a 16-byte tag. *)
Definition SEALED_ID_OVERHEAD : nat := 40.

Definition CREDENTIAL_ID_LENGTH : nat := 33.

Definition DISCOVERABLE_MARKER : Z := 0x01.

Definition NON_DISCOVERABLE_MARKER : Z := 0x00.

Definition SEALED_MARKER : Z := 0x02.

Definition SEALED_KEY_LENGTH : nat := 32.

Definition SEALED_PLAINTEXT_LENGTH : nat := 2 + SEALED_KEY_LENGTH + 32.

Definition SEALED_ID_LENGTH : nat := 1 + SEALED_ID_OVERHEAD + SEALED_PLAINTEXT_LENGTH.

Definition first_byte_is (marker : Z) (l : bytes) : bool :=
  match l with b :: _ => b =? marker | [] => false end.

(** Indexing [credential_id[0]] is guarded by the length test. *)
Definition is_sealed (credential_id : bytes) : bool :=
  (length credential_id =? SEALED_ID_LENGTH)%nat && first_byte_is SEALED_MARKER credential_id.

Definition is_discoverable (credential_id : bytes) : bool :=
  negb (is_sealed credential_id
        || ((length credential_id =? CREDENTIAL_ID_LENGTH)%nat
            && first_byte_is NON_DISCOVERABLE_MARKER credential_id)).

(** The stored IDs the engine mints: a marker byte and 32 random bytes. *)
Definition new_credential_id (discoverable : bool) (random : bytes) : bytes :=
  (if discoverable then DISCOVERABLE_MARKER else NON_DISCOVERABLE_MARKER) :: random.

(** ** Data *)

Inductive PrivateKeyMaterial : Type :=
| P256Scalar (scalar : bytes)
| Seed (seed : bytes)
| RsaPrimes (primes : bytes).

Record CredentialRecord : Type := {
  cr_credential_id : bytes;
  cr_rp_id : bytes;
  cr_user_id : bytes;
  cr_user_name : option bytes;
  cr_user_display_name : option bytes;
  cr_alg : CoseAlg;
  cr_private_key : PrivateKeyMaterial;
  cr_cred_random_with_uv : bytes;
  cr_cred_random_without_uv : bytes;
  cr_cred_blob : option bytes;
  cr_large_blob_key : option bytes;
  cr_third_party_payment : bool;
  cr_cred_protect : Z;
  cr_sign_count : Z;
  cr_created_at : Z
}.

Record PersistentTokenRecord : Type := { pt_secret : bytes; pt_granted : bool }.

(** [[Option<PersistentTokenRecord>; 2]]: protocol one's authority, then
    protocol two's. *)
Definition PersistentTokens : Type := option PersistentTokenRecord * option PersistentTokenRecord.

Record PinStateRecord : Type := {
  psr_pin_hash : option bytes;
  psr_pin_retries : Z;
  psr_consecutive_failures : Z;
  psr_pin_auth_blocked : bool;
  psr_min_pin_length : Z;
  psr_min_pin_length_rp_ids : list bytes;
  psr_force_pin_change : bool;
  psr_pin_code_point_length : Z;
  psr_always_uv : bool;
  psr_pin_complexity_policy : bool;
  psr_persistent_tokens : PersistentTokens
}.

Record AttestationRecord : Type := {
  at_private_key : bytes;
  at_certificate_chain : list bytes
}.

#[export] Instance PrivateKeyMaterial_eq_dec : EqDecision PrivateKeyMaterial.
Proof. solve_decision. Defined.

#[export] Instance CredentialRecord_eq_dec : EqDecision CredentialRecord.
Proof. solve_decision. Defined.

#[export] Instance PersistentTokenRecord_eq_dec : EqDecision PersistentTokenRecord.
Proof. solve_decision. Defined.

#[export] Instance PinStateRecord_eq_dec : EqDecision PinStateRecord.
Proof. solve_decision. Defined.

Definition MAX_PIN_RETRIES : Z := 8.

Definition DEFAULT_MIN_PIN_LENGTH : Z := 4.

Definition MAX_PIN_LENGTH : Z := 63.

Definition MAX_MIN_PIN_LENGTH_RP_IDS : Z := 8.

Definition MAX_RP_ID_LENGTH : Z := 253.

Definition MAX_CRED_BLOB_LENGTH : Z := 32.

Definition DEFAULT_MAX_CREDENTIALS : Z := 1000.

(** [PinStateRecord::default]. *)
Definition PinStateRecord_default : PinStateRecord := {|
  psr_pin_hash := None;
  psr_pin_retries := MAX_PIN_RETRIES;
  psr_consecutive_failures := 0;
  psr_pin_auth_blocked := false;
  psr_min_pin_length := DEFAULT_MIN_PIN_LENGTH;
  psr_min_pin_length_rp_ids := [];
  psr_force_pin_change := false;
  psr_pin_code_point_length := DEFAULT_MIN_PIN_LENGTH;
  psr_always_uv := false;
  psr_pin_complexity_policy := false;
  psr_persistent_tokens := (None, None)
|}.

Definition private_key_kind (k : PrivateKeyMaterial) : KeyKind :=
  match k with
  | P256Scalar _ => KP256Scalar
  | Seed _ => KSeed
  | RsaPrimes _ => KRsaPrimes
  end.

(** [PrivateKeyMaterial::from_bytes]: the array conversions fix the length. *)
Definition private_key_from_bytes (kind : KeyKind) (b : bytes)
    : result PrivateKeyMaterial CryptoError :=
  match kind with
  | KP256Scalar => if (length b =? 32)%nat then Ok (P256Scalar b) else Err InvalidKey
  | KSeed => if (length b =? 32)%nat then Ok (Seed b) else Err InvalidKey
  | KRsaPrimes => if (length b =? 256)%nat then Ok (RsaPrimes b) else Err InvalidKey
  end.

Definition private_key_bytes (k : PrivateKeyMaterial) : bytes :=
  match k with P256Scalar b | Seed b | RsaPrimes b => b end.

(** [PrivateKeyMaterial::sealable]. *)
Definition sealable (k : PrivateKeyMaterial) : option bytes :=
  match k with
  | P256Scalar scalar => Some scalar
  | Seed seed => Some seed
  | RsaPrimes _ => None
  end.

(** ** Outcomes and errors *)

Inductive CommitDurability : Type := Volatile | Flushed | Unconfirmed.

#[export] Instance CommitDurability_eq_dec : EqDecision CommitDurability.
Proof. solve_decision. Defined.

Inductive Corruption : Type :=
| CLength | CHeader | CAuthentication | CEncoding | CInconsistent.

Inductive KeyDomain : Type := Device | Credential.

(** Paths, OS errors and messages that only reach the log are left out;
    [InvalidRecord] keeps its reason. *)
Inductive StoreError : Type :=
| CredentialSetUnavailable
| Io
| Corrupt (reason : Corruption)
| KeyUnavailable (domain : KeyDomain)
| Full (max : Z)
| InvalidRecord (reason : string)
| Random.

Inductive DirectoryFlush : Type :=
| Supported
| Unsupported (err : StoreError)
| Failed (err : StoreError).

Record CredentialCommit : Type := { durability : CommitDurability; cleanup_pending : bool }.

(** ** Validation *)

(** [iter().flatten()] over the two token slots. *)
Definition tokens_list (t : PersistentTokens) : list PersistentTokenRecord :=
  match t with
  | (a, b) => option_list a ++ option_list b
  end.

Definition in_range (lo hi v : Z) : bool := (lo <=? v) && (v <=? hi).

Definition validate_pin_state (state : PinStateRecord) : result unit StoreError :=
  if negb (in_range DEFAULT_MIN_PIN_LENGTH MAX_PIN_LENGTH (psr_min_pin_length state)) then
    Err (InvalidRecord "minimum PIN length out of range")
  else if negb (in_range DEFAULT_MIN_PIN_LENGTH MAX_PIN_LENGTH (psr_pin_code_point_length state)) then
    Err (InvalidRecord "PIN code-point length out of range")
  else if MAX_MIN_PIN_LENGTH_RP_IDS <? zlen (psr_min_pin_length_rp_ids state) then
    Err (InvalidRecord "too many minimum PIN length RP IDs")
  else if existsb (fun rp => MAX_RP_ID_LENGTH <? zlen rp) (psr_min_pin_length_rp_ids state) then
    Err (InvalidRecord "minimum PIN length RP ID too long")
  else if existsb (fun t =>
             forallb (fun b => b =? 0) (pt_secret t)
             || (pt_granted t
                 && (negb (is_some (psr_pin_hash state)) || psr_force_pin_change state)))
           (tokens_list (psr_persistent_tokens state)) then
    Err (InvalidRecord "invalid persistent management authority")
  else Ok tt.

Section Validate.

Context `{Crypto}.

Definition check_credential (record : CredentialRecord) (rebuild_rsa_key : bool)
    : result unit StoreError :=
  if (length (cr_credential_id record) =? 0)%nat then
    Err (InvalidRecord "credential ID is empty")
  else if is_sealed (cr_credential_id record) && negb (is_sealable (cr_alg record)) then
    Err (InvalidRecord "algorithm requires a stored credential")
  else if cr_third_party_payment record && is_sealed (cr_credential_id record) then
    Err (InvalidRecord "third-party payment metadata requires a stored credential")
  else if negb (bool_decide (private_key_kind (cr_private_key record) = key_kind (cr_alg record))) then
    Err (InvalidRecord "alg does not match the private key material")
  else
    let? _ :=
      match cr_private_key record with
      | P256Scalar scalar =>
          if negb (p256_scalar_valid scalar)
          then Err (InvalidRecord "the private key is not a valid P-256 scalar") else Ok tt
      | RsaPrimes primes =>
          let valid := if rebuild_rsa_key then is_ok (rsa_signing_key primes)
                       else is_ok (rsa_primes primes) in
          if negb valid
          then Err (InvalidRecord "the private key is not valid RSA-2048 material") else Ok tt
      | Seed _ => Ok tt
      end in
    if is_some_and (cr_cred_blob record) (fun blob => MAX_CRED_BLOB_LENGTH <? zlen blob) then
      Err (InvalidRecord "credential blob exceeds 32 bytes")
    else if is_some (cr_large_blob_key record) && negb (is_discoverable (cr_credential_id record)) then
      Err (InvalidRecord "large-blob key requires a discoverable credential")
    else if negb (in_range 1 3 (cr_cred_protect record)) then
      Err (InvalidRecord "credProtect level must be 1, 2 or 3")
    else Ok tt.

Definition validate_credential (record : CredentialRecord) : result unit StoreError :=
  check_credential record true.

Definition validate_decoded_credential (record : CredentialRecord) : result unit StoreError :=
  check_credential record false.

Definition validate_attestation (record : AttestationRecord) : result unit StoreError :=
  if negb (p256_scalar_valid (at_private_key record)) then
    Err (InvalidRecord "attestation private key is not a valid P-256 scalar")
  else if (length (at_certificate_chain record) =? 0)%nat then
    Err (InvalidRecord "attestation certificate chain is empty")
  else if existsb (fun c => (length c =? 0)%nat) (at_certificate_chain record) then
    Err (InvalidRecord "attestation certificate is empty")
  else Ok tt.

End Validate.

(** ** [store/large_blobs.rs] *)

Definition MAX_SERIALIZED_LARGE_BLOB_ARRAY : Z := 16384.

Definition INITIAL_LARGE_BLOB_ARRAY : bytes :=
  [0x80; 0x76; 0xbe; 0x8b; 0x52; 0x8d; 0x00; 0x75; 0xf7; 0xaa; 0xe9; 0x8d; 0x6f; 0xa5;
   0x7a; 0x6d; 0x3c].

Definition validate_large_blob_array `{Crypto} (array : bytes) : result unit StoreError :=
  if negb (in_range 17 MAX_SERIALIZED_LARGE_BLOB_ARRAY (zlen array)) then
    Err (InvalidRecord "serialized large-blob array length out of range")
  else
    let split := (length array - 16)%nat in
    if negb (bytes_eqb (take 16 (sha256 (take split array))) (drop split array)) then
      Err (InvalidRecord "serialized large-blob array hash is invalid")
    else Ok tt.

(** ** Creation order *)

Definition u64_max : Z := 2 ^ 64 - 1.

(** The comparator of [sort_newest_first]: newest first, then by ID. *)
Definition newest_first (a b : CredentialRecord) : comparison :=
  match Z.compare (cr_created_at b) (cr_created_at a) with
  | Eq => bytes_cmp (cr_credential_id a) (cr_credential_id b)
  | c => c
  end.

Definition newest_le (a b : CredentialRecord) : Prop := newest_first a b <> Gt.

#[export] Instance newest_le_dec : RelDecision newest_le.
Proof. intros a b. unfold newest_le. apply _. Defined.

(** Insertion is in place in the source; any comparison sort gives the same
    list ([sort_newest_first_unique]). *)
Fixpoint insert_newest (r : CredentialRecord) (l : list CredentialRecord)
    : list CredentialRecord :=
  match l with
  | [] => [r]
  | x :: l' => if bool_decide (newest_le r x) then r :: x :: l' else x :: insert_newest r l'
  end.

Definition sort_newest_first (l : list CredentialRecord) : list CredentialRecord :=
  fold_right insert_newest [] l.

Definition max_created_at (existing : list CredentialRecord) : option Z :=
  fold_right (fun r acc =>
    match acc with
    | None => Some (cr_created_at r)
    | Some m => Some (Z.max (cr_created_at r) m)
    end) None existing.

Definition next_created_at (existing : list CredentialRecord) : Z :=
  match max_created_at existing with
  | None => 1
  | Some newest => Z.min u64_max (newest + 1)
  end.

(** ** Facts about validation *)

(** What an accepted PIN state satisfies. *)
Definition pin_state_wf (s : PinStateRecord) : Prop :=
  DEFAULT_MIN_PIN_LENGTH <= psr_min_pin_length s <= MAX_PIN_LENGTH /\
  DEFAULT_MIN_PIN_LENGTH <= psr_pin_code_point_length s <= MAX_PIN_LENGTH /\
  zlen (psr_min_pin_length_rp_ids s) <= MAX_MIN_PIN_LENGTH_RP_IDS /\
  Forall (fun rp => zlen rp <= MAX_RP_ID_LENGTH) (psr_min_pin_length_rp_ids s) /\
  Forall (fun t => Exists (fun b => b <> 0) (pt_secret t) /\
                   (pt_granted t = true ->
                    is_Some (psr_pin_hash s) /\ psr_force_pin_change s = false))
         (tokens_list (psr_persistent_tokens s)).

Lemma in_range_spec lo hi v : in_range lo hi v = true <-> lo <= v <= hi.
Proof. unfold in_range. rewrite andb_true_iff, !Z.leb_le. tauto. Qed.

Lemma existsb_false_Forall {A} (p : A -> bool) (l : list A) :
  existsb p l = false <-> Forall (fun x => p x = false) l.
Proof.
  induction l as [|x l IH]; simpl; [by split|].
  rewrite orb_false_iff, Forall_cons. tauto.
Qed.

Lemma forallb_false_Exists {A} (p : A -> bool) (l : list A) :
  forallb p l = false <-> Exists (fun x => p x = false) l.
Proof.
  induction l as [|x l IH]; simpl.
  - split; [done|]. intros H. inversion H.
  - rewrite andb_false_iff, Exists_cons. tauto.
Qed.

Lemma token_check (b z : bool) (s : PinStateRecord) t :
  (z || (b && (negb (is_some (psr_pin_hash s)) || psr_force_pin_change s)) = false) ->
  z = forallb (fun x => x =? 0) (pt_secret t) ->
  Exists (fun x => x <> 0) (pt_secret t) /\
  (b = true -> is_Some (psr_pin_hash s) /\ psr_force_pin_change s = false).
Proof.
  intros H ->. apply orb_false_iff in H as [H1 H2]. split.
  - apply forallb_false_Exists in H1. eapply Exists_impl; [exact H1|].
    simpl. intros x Hx. by apply Z.eqb_neq in Hx.
  - intros ->. simpl in H2. apply orb_false_iff in H2 as [H2 H3].
    destruct (psr_pin_hash s); [by split; eauto | done].
Qed.

Lemma validate_pin_state_wf s : validate_pin_state s = Ok tt -> pin_state_wf s.
Proof.
  unfold validate_pin_state, pin_state_wf. intros H.
  destruct (in_range _ _ (psr_min_pin_length s)) eqn:E1; simpl in H; [|done].
  destruct (in_range _ _ (psr_pin_code_point_length s)) eqn:E2; simpl in H; [|done].
  destruct (_ <? zlen _) eqn:E3; [done|].
  destruct (existsb _ (psr_min_pin_length_rp_ids s)) eqn:E4; [done|].
  destruct (existsb _ (tokens_list _)) eqn:E5; [done|].
  apply in_range_spec in E1, E2. apply Z.ltb_ge in E3.
  apply existsb_false_Forall in E4, E5.
  repeat split; try lia.
  - eapply Forall_impl; [exact E4|]. simpl. intros x Hx. by apply Z.ltb_ge in Hx.
  - eapply Forall_impl; [exact E5|]. simpl. intros t Ht. by eapply token_check.
Qed.

Lemma validate_pin_state_default : validate_pin_state PinStateRecord_default = Ok tt.
Proof. reflexivity. Qed.

Lemma validate_large_blob_array_wf `{Crypto} array :
  validate_large_blob_array array = Ok tt ->
  17 <= zlen array <= MAX_SERIALIZED_LARGE_BLOB_ARRAY /\
  drop (length array - 16) array = take 16 (sha256 (take (length array - 16) array)).
Proof.
  unfold validate_large_blob_array.
  destruct (in_range _ _ _) eqn:E; simpl; [|done].
  destruct (bytes_eqb _ _) eqn:E2; simpl; [|done]. intros _.
  apply in_range_spec in E. apply bytes_eqb_spec in E2. done.
Qed.

(** ** Facts about creation order *)

Lemma newest_first_antisym a b : newest_first b a = CompOpp (newest_first a b).
Proof.
  unfold newest_first. rewrite (Z.compare_antisym (cr_created_at b)).
  destruct (Z.compare _ _); simpl; try done. apply bytes_cmp_antisym.
Qed.

#[export] Instance newest_le_total : Total newest_le.
Proof.
  intros a b. unfold newest_le. rewrite (newest_first_antisym a b).
  destruct (newest_first a b); simpl; [left|left|right]; done.
Qed.

#[export] Instance newest_le_trans : Transitive newest_le.
Proof.
  intros a b c. unfold newest_le, newest_first.
  destruct (Z.compare_spec (cr_created_at b) (cr_created_at a)),
    (Z.compare_spec (cr_created_at c) (cr_created_at b)),
    (Z.compare_spec (cr_created_at c) (cr_created_at a)); try lia; try done.
  intros Hab Hbc Hac.
  assert (Hlt : forall x y, bytes_cmp x y <> Gt -> bytes_cmp x y = Lt \/ x = y).
  { intros x y Hxy. destruct (bytes_cmp x y) eqn:E; [right; by apply bytes_cmp_eq| by left | done]. }
  destruct (Hlt _ _ Hab) as [Hab'|Hab'], (Hlt _ _ Hbc) as [Hbc'|Hbc'].
  - by rewrite (bytes_cmp_lt_trans _ _ _ Hab' Hbc') in Hac.
  - rewrite Hbc' in Hab'. congruence.
  - rewrite <- Hab' in Hbc'. congruence.
  - rewrite Hab', Hbc', bytes_cmp_refl in Hac. done.
Qed.

Lemma insert_newest_perm r l : insert_newest r l ≡ₚ r :: l.
Proof.
  induction l as [|x l IH]; simpl; [done|].
  case_bool_decide; [done|]. rewrite IH. apply Permutation_swap.
Qed.

Lemma sort_newest_first_perm l : sort_newest_first l ≡ₚ l.
Proof.
  induction l as [|x l IH]; simpl; [done|]. rewrite insert_newest_perm. by constructor.
Qed.

Lemma insert_newest_sorted r l :
  StronglySorted newest_le l -> StronglySorted newest_le (insert_newest r l).
Proof.
  induction l as [|x l IH]; intros Hs; simpl; [repeat constructor|].
  apply StronglySorted_inv in Hs as [Hs Hx]. case_bool_decide as Hr.
  - constructor; [by constructor|]. constructor; [done|].
    eapply Forall_impl; [exact Hx|]. intros y Hy. by etrans.
  - constructor; [by apply IH|]. rewrite insert_newest_perm. constructor; [|done].
    by destruct (total newest_le r x).
Qed.

Lemma sort_newest_first_sorted l : StronglySorted newest_le (sort_newest_first l).
Proof. induction l; simpl; [constructor|]. by apply insert_newest_sorted. Qed.

Lemma newest_le_antisym_id a b :
  newest_le a b -> newest_le b a -> cr_credential_id a = cr_credential_id b.
Proof.
  unfold newest_le. rewrite (newest_first_antisym a b). unfold newest_first.
  destruct (Z.compare _ _); simpl; try done.
  destruct (bytes_cmp _ _) eqn:E; simpl; try done. intros _ _. by apply bytes_cmp_eq.
Qed.

Lemma sorted_perm_unique (l1 l2 : list CredentialRecord) :
  NoDup (map cr_credential_id l1) ->
  StronglySorted newest_le l1 -> StronglySorted newest_le l2 -> l1 ≡ₚ l2 -> l1 = l2.
Proof.
  revert l2. induction l1 as [|x l1 IH]; intros l2 Hnd H1 H2 Hp.
  { by apply Permutation_nil_l in Hp. }
  destruct l2 as [|y l2]; [by apply Permutation_nil_r in Hp|].
  apply StronglySorted_inv in H1 as [H1 Hx], H2 as [H2 Hy].
  assert (Hxy : x = y).
  { assert (Hin : y ∈ x :: l1) by (rewrite Hp; left).
    assert (Hin' : x ∈ y :: l2) by (rewrite <- Hp; left).
    apply elem_of_cons in Hin as [->|Hin]; [done|].
    apply elem_of_cons in Hin' as [->|Hin']; [done|].
    rewrite Forall_forall in Hx, Hy.
    pose proof (newest_le_antisym_id x y (Hx _ Hin) (Hy _ Hin')) as Heq.
    simpl in Hnd. apply NoDup_cons in Hnd as [Hnin _].
    exfalso. apply Hnin. rewrite Heq. by apply list_elem_of_fmap_2. }
  subst y. f_equal. apply IH; try done.
  - simpl in Hnd. by apply NoDup_cons in Hnd as [_ ?].
  - by apply Permutation_cons_inv in Hp.
Qed.

Lemma max_created_at_spec l :
  match max_created_at l with
  | None => l = []
  | Some m => Forall (fun r => cr_created_at r <= m) l /\ Exists (fun r => cr_created_at r = m) l
  end.
Proof.
  induction l as [|x l IH]; simpl; [done|].
  destruct (max_created_at l) as [m|] eqn:E.
  - destruct IH as [Hle Hex]. split.
    + constructor; [lia|]. eapply Forall_impl; [exact Hle|]. simpl. lia.
    + rewrite Exists_cons. destruct (Z.max_spec (cr_created_at x) m) as [[? ->]|[? ->]]; auto.
  - subst l. split; [repeat constructor|left]; lia.
Qed.

(** The order assigned to an insert is above every stored one, until the
    counter saturates. *)
Lemma next_created_at_fresh l :
  Forall (fun r => 0 <= cr_created_at r < u64_max) l ->
  Forall (fun r => cr_created_at r < next_created_at l) l /\
  1 <= next_created_at l <= u64_max.
Proof.
  intros Hl. unfold next_created_at. pose proof (max_created_at_spec l) as Hm.
  destruct (max_created_at l) as [m|].
  - destruct Hm as [Hle Hex]. apply Exists_exists in Hex as (r & Hr & <-).
    rewrite Forall_forall in Hl. specialize (Hl r Hr). simpl in Hl.
    rewrite Z.min_r by lia. split; [|lia]. eapply Forall_impl; [exact Hle|]. simpl. lia.
  - subst l. split; [constructor|]. unfold u64_max. lia.
Qed.

#[export] Hint Resolve validate_pin_state_default sort_newest_first_sorted : ctap.

(** ** The forms are disjoint *)

Lemma sealed_not_discoverable id : is_sealed id = true -> is_discoverable id = false.
Proof. unfold is_discoverable. by intros ->. Qed.

(** A minted ID is never taken for a sealed one and keeps the marker it was
    made with. *)
Lemma new_credential_id_class discoverable random :
  length random = 32%nat ->
  is_sealed (new_credential_id discoverable random) = false /\
  is_discoverable (new_credential_id discoverable random) = discoverable.
Proof.
  intros Hl. unfold is_discoverable, is_sealed, new_credential_id. simpl. rewrite Hl.
  by destruct discoverable.
Qed.

#[export] Hint Resolve sealed_not_discoverable : ctap.
