(* ===== verification/Envelope.v ===== *)
(** * The authenticated encryption envelope ([store/envelope.rs])

    Every stored object is an envelope (magic, version, record type, nonce,
    ciphertext, tag) whose associated data binds it to its type and name; a
    sealed credential ID is the same without the header. *)

From stdpp Require Import strings.
From S2P Require Import Prelude Crypto Records.

(** "FTSA". *)
Definition ENVELOPE_MAGIC : bytes := [70; 84; 83; 65].

Definition ENVELOPE_VERSION : Z := 1.

Definition NONCE_LEN : nat := 24.

Definition TAG_LEN : nat := 16.

Definition HEADER_LEN : nat := 4 + 2 + NONCE_LEN.

Definition OVERHEAD : nat := HEADER_LEN + TAG_LEN.

(** 1 MiB. *)
Definition MAX_ENVELOPE_LEN : Z := 1048576.

Inductive RecordType : Type :=
| RCredential | RPinState | RAttestation | RSignatureCounter | RLargeBlobArray
| RCredentialSet | RCredentialFormat.

Definition record_type_byte (t : RecordType) : Z :=
  match t with
  | RCredential => 1 | RPinState => 2 | RAttestation => 3 | RSignatureCounter => 4
  | RLargeBlobArray => 5 | RCredentialSet => 6 | RCredentialFormat => 7
  end.

Section Envelope.

Context `{Crypto}.

(** [u16::try_from(name.len()).unwrap_or(u16::MAX)]. *)
Definition associated_data (record_type : RecordType) (name : bytes) : bytes :=
  let name_len := if zlen name <? 65536 then zlen name else 65535 in
  ENVELOPE_MAGIC ++ [ENVELOPE_VERSION; record_type_byte record_type]
    ++ be_bytes 2 name_len ++ name.

Definition seal_with_nonce (key : bytes) (record_type : RecordType) (name nonce plaintext : bytes)
    : result bytes StoreError :=
  if MAX_ENVELOPE_LEN - Z.of_nat OVERHEAD <? zlen plaintext then
    Err (InvalidRecord "record is larger than the store accepts")
  else
    match xchacha_encrypt key nonce (associated_data record_type name) plaintext with
    | Some (ciphertext, tag) =>
        Ok (ENVELOPE_MAGIC ++ [ENVELOPE_VERSION; record_type_byte record_type]
            ++ nonce ++ ciphertext ++ tag)
    | None => Err (InvalidRecord "record could not be encrypted")
    end.

Definition open (key : bytes) (record_type : RecordType) (name envelope : bytes)
    : result bytes Corruption :=
  if (length envelope <? OVERHEAD)%nat || (MAX_ENVELOPE_LEN <? zlen envelope) then Err CLength
  else
    let header := take HEADER_LEN envelope in
    let body := drop HEADER_LEN envelope in
    if negb (bytes_eqb (take 4 header) ENVELOPE_MAGIC)
       || negb (bytes_eqb (slice header 4 5) [ENVELOPE_VERSION])
       || negb (bytes_eqb (slice header 5 6) [record_type_byte record_type])
    then Err CHeader
    else
      let nonce := drop 6 header in
      let split := (length body - TAG_LEN)%nat in
      ok_or (xchacha_decrypt key nonce (associated_data record_type name)
               (take split body) (drop split body)) CAuthentication.

Definition seal_credential_id_with_nonce (key nonce plaintext associated_data : bytes)
    : result bytes StoreError :=
  match xchacha_encrypt key nonce associated_data plaintext with
  | Some (ciphertext, tag) => Ok (nonce ++ ciphertext ++ tag)
  | None => Err (InvalidRecord "credential ID could not be encrypted")
  end.

Definition open_credential_id (key sealed associated_data : bytes) : option bytes :=
  if (length sealed <? SEALED_ID_OVERHEAD)%nat then None
  else
    let nonce := take NONCE_LEN sealed in
    let rest := drop NONCE_LEN sealed in
    let split := (length rest - TAG_LEN)%nat in
    xchacha_decrypt key nonce associated_data (take split rest) (drop split rest).

(** ** Round trips and framing *)

Context `{!AeadLaws}.

Lemma seal_length key ty name nonce p e :
  length nonce = NONCE_LEN ->
  seal_with_nonce key ty name nonce p = Ok e -> length e = (OVERHEAD + length p)%nat.
Proof.
  unfold seal_with_nonce. intros Hn He. inv_all He.
  match goal with H' : xchacha_encrypt _ _ _ _ = Some _ |- _ =>
    apply aead_lengths in H' as [? ?] end.
  unfold OVERHEAD, HEADER_LEN, NONCE_LEN, TAG_LEN in *. simpl.
  rewrite !length_app. lia.
Qed.

Lemma split_tail {A} (n : nat) (c t : list A) :
  length t = n -> take (length (c ++ t) - n) (c ++ t) = c /\ drop (length (c ++ t) - n) (c ++ t) = t.
Proof.
  intros <-. rewrite length_app. replace (length c + length t - length t)%nat with (length c) by lia.
  by rewrite take_app_length, drop_app_length.
Qed.

Lemma envelope_roundtrip key ty name nonce p e :
  length nonce = NONCE_LEN ->
  seal_with_nonce key ty name nonce p = Ok e -> open key ty name e = Ok p.
Proof.
  intros Hn He. pose proof (seal_length _ _ _ _ _ _ Hn He) as Hlen.
  unfold seal_with_nonce in He.
  destruct (_ <? zlen p) eqn:Emax; [done|].
  destruct (xchacha_encrypt _ _ _ _) as [[c t]|] eqn:Henc; [|done].
  apply (f_equal (fun r => match r with Ok x => x | Err _ => [] end)) in He. cbv beta iota in He. subst e.
  pose proof (aead_lengths _ _ _ _ _ _ Henc) as [Hc Ht].
  unfold open. rewrite Hlen.
  replace (_ <? OVERHEAD)%nat with false by (symmetry; apply Nat.ltb_ge; lia).
  replace (MAX_ENVELOPE_LEN <? _) with false
    by (symmetry; apply Z.ltb_ge; unfold zlen in *; rewrite Hlen; apply Z.ltb_ge in Emax; lia).
  assert (Hsplit : forall body,
    take HEADER_LEN (ENVELOPE_MAGIC ++ [ENVELOPE_VERSION; record_type_byte ty] ++ nonce ++ body)
      = ENVELOPE_MAGIC ++ [ENVELOPE_VERSION; record_type_byte ty] ++ nonce /\
    drop HEADER_LEN (ENVELOPE_MAGIC ++ [ENVELOPE_VERSION; record_type_byte ty] ++ nonce ++ body)
      = body).
  { intros body. rewrite !(app_assoc _ nonce), !(app_assoc _ _ body).
    rewrite take_app_length', drop_app_length'; [done| |];
      rewrite !length_app, Hn; reflexivity. }
  destruct (Hsplit (c ++ t)) as [-> ->]. simpl.
  replace (bytes_eqb (slice _ 5 6) _) with true by (symmetry; by apply bytes_eqb_spec).
  simpl. destruct (split_tail TAG_LEN c t Ht) as [-> ->].
  rewrite drop_0. by rewrite (aead_roundtrip _ _ _ _ _ _ Henc).
Qed.

Lemma sealed_id_roundtrip key nonce p ad s :
  length nonce = NONCE_LEN ->
  seal_credential_id_with_nonce key nonce p ad = Ok s ->
  open_credential_id key s ad = Some p /\ length s = (SEALED_ID_OVERHEAD + length p)%nat.
Proof.
  unfold seal_credential_id_with_nonce, open_credential_id. intros Hn Hs. inv_all Hs.
  match goal with H' : xchacha_encrypt _ _ _ _ = Some (?c', ?t') |- _ =>
    pose proof (aead_lengths _ _ _ _ _ _ H') as [Hc Ht];
    apply aead_roundtrip in H' as Hd; rename c' into c; rename t' into t end.
  assert (Hlen : length (nonce ++ c ++ t) = (SEALED_ID_OVERHEAD + length p)%nat)
    by (rewrite !length_app; unfold SEALED_ID_OVERHEAD, NONCE_LEN in *; lia).
  rewrite Hlen. split; [|done].
  replace (_ <? SEALED_ID_OVERHEAD)%nat with false by (symmetry; apply Nat.ltb_ge; lia).
  rewrite take_app_length', drop_app_length' by done.
  by destruct (split_tail TAG_LEN c t Ht) as [-> ->].
Qed.

End Envelope.
