(* ===== verification/Store.v ===== *)
(** * The credential store interface and the in-memory store
    ([store/mod.rs] trait [CredentialStore], [store/memory.rs])

    [CredentialStore S] is the trait: every method is a state-passing
    function, the [&self] reads included, because a read reaches storage that
    can fail now and work later.  [PinStoreLaws], [PinResetLaws], [BlobStoreLaws],
    [CredentialSetLaws], [CounterStoreLaws] and [SealStoreLaws] are the parts of the trait's documented contract the
    engine's theorems rely on; [MemoryStore] implements the trait and
    discharges them. *)

From Stdlib Require Import Sorted.
From stdpp Require Import gmap strings.
From S2P Require Import Prelude Constants Alg Crypto Records Envelope.

Class CredentialStore (S : Type) : Type := {
  st_get : bytes -> M S (option CredentialRecord) StoreError;
  st_put : CredentialRecord -> M S unit StoreError;
  st_insert_or_replace_discoverable : CredentialRecord -> M S CredentialCommit StoreError;
  st_delete : bytes -> M S bool StoreError;
  st_list : M S (list CredentialRecord) StoreError;
  st_count : M S Z StoreError;
  st_max_credentials : S -> Z;
  st_clear : M S CommitDurability StoreError;
  st_pin_state : M S (option PinStateRecord) StoreError;
  st_set_pin_state : PinStateRecord -> M S CommitDurability StoreError;
  st_directory_flush : S -> S * DirectoryFlush;
  st_signature_counter : M S Z StoreError;
  st_set_signature_counter : Z -> M S unit StoreError;
  st_large_blob_array : M S bytes StoreError;
  st_set_large_blob_array : bytes -> M S unit StoreError;
  st_attestation : M S (option AttestationRecord) StoreError;
  st_set_attestation : AttestationRecord -> M S unit StoreError;
  st_seal_credential_id : bytes -> bytes -> M S bytes StoreError;
  st_open_credential_id : bytes -> bytes -> M S (option bytes) StoreError
}.

(** [m] leaves [view] as it was, whatever it returns. *)
Definition preserves {S A E V} (view : S -> V) (m : M S A E) : Prop :=
  forall s, view (fst (m s)) = view s.

(** The calls an engine makes, as what they do to the store. *)
Inductive StoreCall : Type :=
| SGet (id : bytes) | SPut (r : CredentialRecord) | SInsert (r : CredentialRecord)
| SDelete (id : bytes) | SList | SCount | SClear | SPinState | SSetPinState (r : PinStateRecord)
| SFlush | SCounter | SSetCounter (v : Z) | SBlobs | SSetBlobs (b : bytes) | SAttestation
| SSeal (p ad : bytes) | SOpen (b ad : bytes).

Definition run_call {S} `{CredentialStore S} (c : StoreCall) (s : S) : S :=
  match c with
  | SGet id => fst (st_get id s)
  | SPut r => fst (st_put r s)
  | SInsert r => fst (st_insert_or_replace_discoverable r s)
  | SDelete id => fst (st_delete id s)
  | SList => fst (st_list s)
  | SCount => fst (st_count s)
  | SClear => fst (st_clear s)
  | SPinState => fst (st_pin_state s)
  | SSetPinState r => fst (st_set_pin_state r s)
  | SFlush => fst (st_directory_flush s)
  | SCounter => fst (st_signature_counter s)
  | SSetCounter v => fst (st_set_signature_counter v s)
  | SBlobs => fst (st_large_blob_array s)
  | SSetBlobs b => fst (st_set_large_blob_array b s)
  | SAttestation => fst (st_attestation s)
  | SSeal p ad => fst (st_seal_credential_id p ad s)
  | SOpen b ad => fst (st_open_credential_id b ad s)
  end.

Definition run_calls {S} `{CredentialStore S} (calls : list StoreCall) (s : S) : S :=
  fold_left (fun s c => run_call c s) calls s.

(** The parts of the state a request can write: four of the store's, and the
    assertions an engine remembers. *)
Inductive Region : Type := RCreds | RPin | RCounter | RBlobs | RPending.

#[export] Instance Region_eq_dec : EqDecision Region.
Proof. solve_decision. Defined.

(** What the documentation lets a call write. *)
Definition touches (R : Region) (c : StoreCall) : bool :=
  match c with
  | SClear => negb (bool_decide (R = RPending))
  | SPut _ | SInsert _ | SDelete _ => bool_decide (R = RCreds)
  | SSetPinState _ => bool_decide (R = RPin)
  | SSetCounter _ => bool_decide (R = RCounter)
  | SSetBlobs _ => bool_decide (R = RBlobs)
  | _ => false
  end.

(** The published PIN state and who may change it.  "Every successful outcome
    means the candidate is visible; an error means it was not published." *)
Class PinStoreLaws (S : Type) `{CredentialStore S} : Type := {
  pin_view : S -> option PinStateRecord;
  pin_read s s' r : st_pin_state s = (s', r) ->
    pin_view s' = pin_view s /\ (forall o, r = Ok o -> o = pin_view s);
  pin_write s s' record r : st_set_pin_state record s = (s', r) ->
    match r with
    | Ok _ => pin_view s' = Some record /\ validate_pin_state record = Ok tt
    | Err _ => pin_view s' = pin_view s
    end;
  pin_get id : preserves pin_view (st_get id);
  pin_put r : preserves pin_view (st_put r);
  pin_insert r : preserves pin_view (st_insert_or_replace_discoverable r);
  pin_delete id : preserves pin_view (st_delete id);
  pin_list : preserves pin_view st_list;
  pin_count : preserves pin_view st_count;
  pin_flush s : pin_view (fst (st_directory_flush s)) = pin_view s;
  pin_counter : preserves pin_view st_signature_counter;
  pin_set_counter v : preserves pin_view (st_set_signature_counter v);
  pin_blob : preserves pin_view st_large_blob_array;
  pin_set_blob a : preserves pin_view (st_set_large_blob_array a);
  pin_attestation : preserves pin_view st_attestation;
  pin_open s ad : preserves pin_view (st_open_credential_id s ad);
  pin_seal p ad s s' r : st_seal_credential_id p ad s = (s', r) ->
    pin_view s' = pin_view s \/ (pin_view s = None /\ pin_view s' = Some PinStateRecord_default)
}.

(** What a reset leaves of it.  A failed reset "can have published a new key
    or the default PIN state". *)
Class PinResetLaws (S : Type) `{CredentialStore S} `{!PinStoreLaws S} : Type := {
  pin_clear s s' r : st_clear s = (s', r) ->
    match r with
    | Ok _ => pin_view s' = Some PinStateRecord_default
    | Err _ => pin_view s' = pin_view s \/ pin_view s' = Some PinStateRecord_default
    end
}.

(** The committed large-blob array: "Failure before replacement preserves the
    preceding array". *)
Class BlobStoreLaws (S : Type) `{CredentialStore S} : Type := {
  blob_view : S -> bytes;
  blob_read s s' r : st_large_blob_array s = (s', r) ->
    blob_view s' = blob_view s /\ (forall x, r = Ok x -> x = blob_view s);
  blob_write s s' array r : st_set_large_blob_array array s = (s', r) ->
    match r with
    | Ok _ => blob_view s' = array
    | Err _ => blob_view s' = blob_view s
    end;
  blob_frame c s : touches RBlobs c = false -> blob_view (run_call c s) = blob_view s
}.

Definition set_created_at (r : CredentialRecord) (v : Z) : CredentialRecord := {|
  cr_credential_id := cr_credential_id r; cr_rp_id := cr_rp_id r;
  cr_user_id := cr_user_id r; cr_user_name := cr_user_name r;
  cr_user_display_name := cr_user_display_name r; cr_alg := cr_alg r;
  cr_private_key := cr_private_key r;
  cr_cred_random_with_uv := cr_cred_random_with_uv r;
  cr_cred_random_without_uv := cr_cred_random_without_uv r;
  cr_cred_blob := cr_cred_blob r; cr_large_blob_key := cr_large_blob_key r;
  cr_third_party_payment := cr_third_party_payment r;
  cr_cred_protect := cr_cred_protect r; cr_sign_count := cr_sign_count r;
  cr_created_at := v |}.

(** The accounts an insert replaces: discoverable, same RP ID and user handle. *)
Definition matching (record existing : CredentialRecord) : bool :=
  is_discoverable (cr_credential_id existing)
  && bytes_eqb (cr_rp_id existing) (cr_rp_id record)
  && bytes_eqb (cr_user_id existing) (cr_user_id record).

(** The credentials that can be read, by ID.  A corrupt one is not among them:
    [get] reports it and [list] skips it. *)
Class CredentialSetLaws (S : Type) `{Crypto} `{CredentialStore S} : Type := {
  creds : S -> gmap bytes CredentialRecord;
  creds_get id s s' r : st_get id s = (s', r) ->
    creds s' = creds s /\
    match r with
    | Ok o => o = creds s !! id
    | Err (Corrupt _) => creds s !! id = None
    | Err _ => True
    end;
  creds_list s s' r : st_list s = (s', r) ->
    creds s' = creds s /\
    forall l, r = Ok l -> StronglySorted newest_le l /\ l ≡ₚ (map_to_list (creds s)).*2;
  creds_delete id s s' r : st_delete id s = (s', r) ->
    match r with
    | Ok b => creds s' = delete id (creds s) /\ (creds s !! id <> None -> b = true)
    | Err _ => creds s' = creds s \/ creds s' = delete id (creds s)
    end;
  (** A replacement keeps the stored creation order. *)
  creds_put r s s' res : st_put r s = (s', res) ->
    let written v := creds s' = <[cr_credential_id r := set_created_at r v]> (creds s) in
    match res with
    | Ok _ => validate_credential r = Ok tt /\
              match creds s !! cr_credential_id r with
              | Some old => written (cr_created_at old)
              | None => exists v, written v
              end
    | Err _ => creds s' = creds s \/
               exists old, creds s !! cr_credential_id r = Some old /\ written (cr_created_at old)
    end;
  (** "An error preserves the preceding usable credentials." *)
  creds_insert r s s' res : st_insert_or_replace_discoverable r s = (s', res) ->
    match res with
    | Ok _ => validate_credential r = Ok tt /\ is_discoverable (cr_credential_id r) = true /\
              creds s !! cr_credential_id r = None /\
              exists v, creds s' = <[cr_credential_id r := set_created_at r v]>
                          (filter (fun p => matching r (snd p) = false) (creds s))
    | Err _ => creds s' = creds s
    end;
  creds_count : preserves creds st_count;
  creds_counter : preserves creds st_signature_counter;
  creds_set_counter v : preserves creds (st_set_signature_counter v);
  creds_attestation : preserves creds st_attestation;
  creds_seal p ad : preserves creds (st_seal_credential_id p ad);
  creds_open b ad : preserves creds (st_open_credential_id b ad);
  creds_pin_state : preserves creds st_pin_state;
  creds_set_pin_state p : preserves creds (st_set_pin_state p);
  creds_flush s : creds (fst (st_directory_flush s)) = creds s;
  creds_blob : preserves creds st_large_blob_array;
  creds_set_blob b : preserves creds (st_set_large_blob_array b);
  (** A successful reset leaves no credential; a failed one adds none. *)
  creds_clear s s' r : st_clear s = (s', r) ->
    match r with Ok _ => creds s' = ∅ | Err _ => creds s' ⊆ creds s end
}.

(** The global signature counter.  "Atomically replace": a failed write leaves
    the old count or the new one. *)
Class CounterStoreLaws (S : Type) `{CredentialStore S} : Type := {
  counter_view : S -> Z;
  counter_read s s' r : st_signature_counter s = (s', r) ->
    counter_view s' = counter_view s /\ (forall v, r = Ok v -> v = counter_view s);
  counter_write v s s' r : st_set_signature_counter v s = (s', r) ->
    match r with
    | Ok _ => counter_view s' = v
    | Err _ => counter_view s' = counter_view s \/ counter_view s' = v
    end;
  counter_frame c s : touches RCounter c = false -> counter_view (run_call c s) = counter_view s
}.

(** What is sealed opens again with the same associated data, until a reset and
    unless the key cannot be read, and is [SEALED_ID_OVERHEAD] bytes longer. *)
Class SealStoreLaws (S : Type) `{CredentialStore S} : Type := {
  seal_opens p ad s s' sealed : st_seal_credential_id p ad s = (s', Ok sealed) ->
    length sealed = (SEALED_ID_OVERHEAD + length p)%nat /\
    forall calls s'' r, Forall (fun c => c <> SClear) calls ->
      st_open_credential_id sealed ad (run_calls calls s') = (s'', r) ->
      match r with Ok o => o = Some p | Err _ => True end
}.

(** ** [MemoryStore] *)

Section Memory.

Context `{Crypto}.

(** [ms_os_random] is what the operating system's generator returns from here
    on, one entry per draw ([None]: the draw fails). *)
Record MemoryStore : Type := {
  ms_credentials : gmap bytes CredentialRecord;
  ms_pin_state : option PinStateRecord;
  ms_signature_counter : Z;
  ms_large_blob_array : bytes;
  ms_attestation : option AttestationRecord;
  ms_max_credentials : Z;
  ms_credential_key : option bytes;
  ms_os_random : list (option (nat -> Z))
}.

Definition ms_new (os_random : list (option (nat -> Z))) : MemoryStore := {|
  ms_credentials := ∅;
  ms_pin_state := None;
  ms_signature_counter := 0;
  ms_large_blob_array := INITIAL_LARGE_BLOB_ARRAY;
  ms_attestation := None;
  ms_max_credentials := DEFAULT_MAX_CREDENTIALS;
  ms_credential_key := None;
  ms_os_random := os_random
|}.

Definition ms_with_credentials (s : MemoryStore) (c : gmap bytes CredentialRecord) : MemoryStore :=
  {| ms_credentials := c; ms_pin_state := ms_pin_state s;
     ms_signature_counter := ms_signature_counter s;
     ms_large_blob_array := ms_large_blob_array s; ms_attestation := ms_attestation s;
     ms_max_credentials := ms_max_credentials s; ms_credential_key := ms_credential_key s;
     ms_os_random := ms_os_random s |}.

Definition ms_with_max_credentials (s : MemoryStore) (max : Z) : MemoryStore :=
  {| ms_credentials := ms_credentials s; ms_pin_state := ms_pin_state s;
     ms_signature_counter := ms_signature_counter s;
     ms_large_blob_array := ms_large_blob_array s; ms_attestation := ms_attestation s;
     ms_max_credentials := max; ms_credential_key := ms_credential_key s;
     ms_os_random := ms_os_random s |}.

Definition ms_with_pin_state (s : MemoryStore) (p : option PinStateRecord) : MemoryStore :=
  {| ms_credentials := ms_credentials s; ms_pin_state := p;
     ms_signature_counter := ms_signature_counter s;
     ms_large_blob_array := ms_large_blob_array s; ms_attestation := ms_attestation s;
     ms_max_credentials := ms_max_credentials s; ms_credential_key := ms_credential_key s;
     ms_os_random := ms_os_random s |}.

Definition ms_with_signature_counter (s : MemoryStore) (v : Z) : MemoryStore :=
  {| ms_credentials := ms_credentials s; ms_pin_state := ms_pin_state s;
     ms_signature_counter := v;
     ms_large_blob_array := ms_large_blob_array s; ms_attestation := ms_attestation s;
     ms_max_credentials := ms_max_credentials s; ms_credential_key := ms_credential_key s;
     ms_os_random := ms_os_random s |}.

Definition ms_with_large_blob_array (s : MemoryStore) (a : bytes) : MemoryStore :=
  {| ms_credentials := ms_credentials s; ms_pin_state := ms_pin_state s;
     ms_signature_counter := ms_signature_counter s;
     ms_large_blob_array := a; ms_attestation := ms_attestation s;
     ms_max_credentials := ms_max_credentials s; ms_credential_key := ms_credential_key s;
     ms_os_random := ms_os_random s |}.

Definition ms_with_attestation (s : MemoryStore) (a : option AttestationRecord) : MemoryStore :=
  {| ms_credentials := ms_credentials s; ms_pin_state := ms_pin_state s;
     ms_signature_counter := ms_signature_counter s;
     ms_large_blob_array := ms_large_blob_array s; ms_attestation := a;
     ms_max_credentials := ms_max_credentials s; ms_credential_key := ms_credential_key s;
     ms_os_random := ms_os_random s |}.

Definition ms_with_credential_key (s : MemoryStore) (k : option bytes) : MemoryStore :=
  {| ms_credentials := ms_credentials s; ms_pin_state := ms_pin_state s;
     ms_signature_counter := ms_signature_counter s;
     ms_large_blob_array := ms_large_blob_array s; ms_attestation := ms_attestation s;
     ms_max_credentials := ms_max_credentials s; ms_credential_key := k;
     ms_os_random := ms_os_random s |}.

Definition ms_with_os_random (s : MemoryStore) (r : list (option (nat -> Z))) : MemoryStore :=
  {| ms_credentials := ms_credentials s; ms_pin_state := ms_pin_state s;
     ms_signature_counter := ms_signature_counter s;
     ms_large_blob_array := ms_large_blob_array s; ms_attestation := ms_attestation s;
     ms_max_credentials := ms_max_credentials s; ms_credential_key := ms_credential_key s;
     ms_os_random := r |}.

(** [BTreeMap::values]; nothing that uses it depends on the order. *)
Definition ms_values (c : gmap bytes CredentialRecord) : list CredentialRecord :=
  (map_to_list c).*2.

Definition ms_get (credential_id : bytes) : M MemoryStore (option CredentialRecord) StoreError :=
  gets (fun s => ms_credentials s !! credential_id).

Definition ms_put (record : CredentialRecord) : M MemoryStore unit StoreError := fun s =>
  match validate_credential record with
  | Err e => (s, Err e)
  | Ok _ =>
      let created_at :=
        match ms_credentials s !! cr_credential_id record with
        | Some existing => Ok (cr_created_at existing)
        | None =>
            if ms_max_credentials s <=? Z.of_nat (size (ms_credentials s))
            then Err (Full (ms_max_credentials s))
            else Ok (next_created_at (ms_values (ms_credentials s)))
        end in
      match created_at with
      | Err e => (s, Err e)
      | Ok created_at =>
          let stored := set_created_at record created_at in
          (ms_with_credentials s (<[cr_credential_id stored := stored]> (ms_credentials s)), Ok tt)
      end
  end.

Definition ms_delete (credential_id : bytes) : M MemoryStore bool StoreError := fun s =>
  (ms_with_credentials s (delete credential_id (ms_credentials s)),
   Ok (is_some (ms_credentials s !! credential_id))).

Definition ms_insert_or_replace_discoverable (record : CredentialRecord)
    : M MemoryStore CredentialCommit StoreError := fun s =>
  match validate_credential record with
  | Err e => (s, Err e)
  | Ok _ =>
      if negb (is_discoverable (cr_credential_id record)) then
        (s, Err (InvalidRecord "replacement requires a discoverable credential"))
      else if is_some (ms_credentials s !! cr_credential_id record) then
        (s, Err (InvalidRecord "credential ID is occupied"))
      else if negb (existsb (matching record) (ms_values (ms_credentials s)))
              && (ms_max_credentials s <=? Z.of_nat (size (ms_credentials s))) then
        (s, Err (Full (ms_max_credentials s)))
      else
        let stored := set_created_at record (next_created_at (ms_values (ms_credentials s))) in
        let candidate :=
          filter (fun p => matching record (snd p) = false) (ms_credentials s) in
        (ms_with_credentials s (<[cr_credential_id stored := stored]> candidate),
         Ok {| durability := Volatile; cleanup_pending := false |})
  end.

Definition ms_list : M MemoryStore (list CredentialRecord) StoreError :=
  gets (fun s => sort_newest_first (ms_values (ms_credentials s))).

Definition ms_count : M MemoryStore Z StoreError :=
  gets (fun s => Z.of_nat (size (ms_credentials s))).

Definition ms_clear : M MemoryStore CommitDurability StoreError := fun s =>
  ({| ms_credentials := ∅;
      ms_pin_state := Some PinStateRecord_default;
      ms_signature_counter := 0;
      ms_large_blob_array := INITIAL_LARGE_BLOB_ARRAY;
      ms_attestation := ms_attestation s;
      ms_max_credentials := ms_max_credentials s;
      ms_credential_key := None;
      ms_os_random := ms_os_random s |}, Ok Volatile).

Definition ms_set_pin_state (state : PinStateRecord) : M MemoryStore CommitDurability StoreError :=
  fun s => match validate_pin_state state with
           | Err e => (s, Err e)
           | Ok _ => (ms_with_pin_state s (Some state), Ok Volatile)
           end.

Definition ms_set_large_blob_array (array : bytes) : M MemoryStore unit StoreError :=
  fun s => match validate_large_blob_array array with
           | Err e => (s, Err e)
           | Ok _ => (ms_with_large_blob_array s array, Ok tt)
           end.

Definition ms_set_attestation (record : AttestationRecord) : M MemoryStore unit StoreError :=
  fun s => match validate_attestation record with
           | Err e => (s, Err e)
           | Ok _ => (ms_with_attestation s (Some record), Ok tt)
           end.

(** [SysRng::try_fill_bytes] of an [n]-byte buffer. *)
Definition os_random (n : nat) : M MemoryStore bytes StoreError := fun s =>
  match ms_os_random s with
  | Some draw :: rest => (ms_with_os_random s rest, Ok (fill_bytes draw n))
  | None :: rest => (ms_with_os_random s rest, Err Random)
  | [] => (s, Err Random)
  end.

(** "ftsa-store/v1/credential/id-encryption". *)
Definition INFO_CREDENTIAL_ID : bytes :=
  [102; 116; 115; 97; 45; 115; 116; 111; 114; 101; 47; 118; 49; 47; 99; 114; 101; 100; 101;
   110; 116; 105; 97; 108; 47; 105; 100; 45; 101; 110; 99; 114; 121; 112; 116; 105; 111; 110].

(** The [id] subkey of [CredentialKeys::derive]. *)
Definition credential_id_key (root : bytes) : bytes := hkdf_sha256 root INFO_CREDENTIAL_ID.

Definition ms_root_key : M MemoryStore bytes StoreError := fun s =>
  match ms_credential_key s with
  | Some root => (s, Ok root)
  | None => (let* root := os_random 32 in
             modify (fun s => ms_with_credential_key s (Some root)) ;;* ret root) s
  end.

Definition ms_seal_credential_id (plaintext associated_data : bytes)
    : M MemoryStore bytes StoreError :=
  let* root := ms_root_key in
  modify (fun s => match ms_pin_state s with
                   | Some _ => s
                   | None => ms_with_pin_state s (Some PinStateRecord_default)
                   end) ;;*
  let* nonce := os_random NONCE_LEN in
  lift (seal_credential_id_with_nonce (credential_id_key root) nonce plaintext associated_data).

Definition ms_open_credential_id (sealed associated_data : bytes)
    : M MemoryStore (option bytes) StoreError :=
  gets (fun s => match ms_credential_key s with
                 | None => None
                 | Some root => open_credential_id (credential_id_key root) sealed associated_data
                 end).

#[export] Instance MemoryCredentialStore : CredentialStore MemoryStore := {|
  st_get := ms_get;
  st_put := ms_put;
  st_insert_or_replace_discoverable := ms_insert_or_replace_discoverable;
  st_delete := ms_delete;
  st_list := ms_list;
  st_count := ms_count;
  st_max_credentials := ms_max_credentials;
  st_clear := ms_clear;
  st_pin_state := gets ms_pin_state;
  st_set_pin_state := ms_set_pin_state;
  st_directory_flush := fun s => (s, Supported);
  st_signature_counter := gets ms_signature_counter;
  st_set_signature_counter := fun v => modify (fun s => ms_with_signature_counter s v);
  st_large_blob_array := gets ms_large_blob_array;
  st_set_large_blob_array := ms_set_large_blob_array;
  st_attestation := gets ms_attestation;
  st_set_attestation := ms_set_attestation;
  st_seal_credential_id := ms_seal_credential_id;
  st_open_credential_id := ms_open_credential_id
|}.

End Memory.
