(* ===== verification/StoreProofs.v ===== *)
(** * What the in-memory store guarantees

    The invariant every operation of [MemoryStore] keeps, what each write
    does to later reads, and the discharge of [PinStoreLaws]. *)

From Stdlib Require Import Sorted.
From stdpp Require Import gmap strings.
From S2P Require Import Prelude Constants Alg Crypto ConcreteCrypto Records Envelope Store.

Section Laws.

Context `{Crypto}.

#[local] Ltac view_solver :=
  unfold preserves; intros; simpl;
  unfold ms_put, ms_insert_or_replace_discoverable, ms_set_large_blob_array;
  repeat case_goal; reflexivity.

(** ** Invariant *)

(** Every record sits under its own ID, passed validation when written and has
    a positive creation order; two records share an order only once the
    counter has saturated; and there are never more than the limit. *)
Record credentials_inv (c : gmap bytes CredentialRecord) : Prop := {
  ci_ids : map_Forall (fun id r => cr_credential_id r = id) c;
  ci_valid : map_Forall (fun _ r => validate_credential r = Ok tt) c;
  ci_order : map_Forall (fun _ r => 1 <= cr_created_at r <= u64_max) c;
  ci_unique : forall i j r1 r2, c !! i = Some r1 -> c !! j = Some r2 ->
    cr_created_at r1 = cr_created_at r2 -> i = j \/ cr_created_at r1 = u64_max
}.

Record mem_inv (s : MemoryStore) : Prop := {
  mi_credentials : credentials_inv (ms_credentials s);
  mi_size : Z.of_nat (size (ms_credentials s)) <= Z.max 0 (ms_max_credentials s);
  mi_pin : forall p, ms_pin_state s = Some p -> validate_pin_state p = Ok tt
}.

Lemma ms_values_elem (c : gmap bytes CredentialRecord) r :
  r ∈ ms_values c <-> exists id, c !! id = Some r.
Proof.
  unfold ms_values. rewrite list_elem_of_fmap. split.
  - intros ([id r'] & -> & Hin). exists id. by apply elem_of_map_to_list in Hin.
  - intros [id Hid]. exists (id, r). split; [done|]. by apply elem_of_map_to_list.
Qed.

Lemma ms_values_Forall (c : gmap bytes CredentialRecord) P :
  Forall P (ms_values c) <-> map_Forall (fun _ r => P r) c.
Proof.
  rewrite Forall_forall. unfold map_Forall. split.
  - intros Hall id r Hr. apply Hall, ms_values_elem. eauto.
  - intros Hall r Hr. apply ms_values_elem in Hr as [id Hr]. eauto.
Qed.

Lemma set_created_at_id r v : cr_credential_id (set_created_at r v) = cr_credential_id r.
Proof. reflexivity. Qed.

(** The creation order plays no part in validation. *)
Lemma validate_set_created_at r v :
  validate_credential (set_created_at r v) = validate_credential r.
Proof. reflexivity. Qed.

Lemma next_created_at_bound (c : gmap bytes CredentialRecord) :
  map_Forall (fun _ r => 1 <= cr_created_at r <= u64_max) c ->
  1 <= next_created_at (ms_values c) <= u64_max /\
  forall id r, c !! id = Some r ->
    cr_created_at r < next_created_at (ms_values c) \/
    next_created_at (ms_values c) = u64_max.
Proof.
  intros Ho. unfold next_created_at. pose proof (max_created_at_spec (ms_values c)) as Hm.
  destruct (max_created_at _) as [m|].
  - destruct Hm as [Hle Hex]. apply Exists_exists in Hex as (r0 & Hr0 & <-).
    apply ms_values_elem in Hr0 as [i0 Hi0]. pose proof (Ho _ _ Hi0) as Hb. simpl in Hb.
    split; [lia|]. intros id r Hr. rewrite Forall_forall in Hle.
    assert (Hin : r ∈ ms_values c) by (apply ms_values_elem; eauto).
    specialize (Hle _ Hin). simpl in Hle. lia.
  - split; [unfold u64_max; lia|]. intros id r Hr.
    assert (Hin : r ∈ ms_values c) by (apply ms_values_elem; eauto).
    rewrite Hm in Hin. by apply elem_of_nil in Hin.
Qed.

Lemma credentials_inv_empty : credentials_inv ∅.
Proof. split; [apply map_Forall_empty..|]. intros i j r1 r2 H1. by rewrite lookup_empty in H1. Qed.

Lemma credentials_inv_subseteq c c' : c' ⊆ c -> credentials_inv c -> credentials_inv c'.
Proof.
  intros Hsub [Hi Hv Ho Hu].
  split; try (intros i r Hr; eapply lookup_weaken in Hr; [|exact Hsub]; eauto).
  intros i j r1 r2 H1 H2. eapply lookup_weaken in H1, H2; eauto.
Qed.

(** Adding a validated record whose order is fresh, or replacing one under its
    own order, keeps the invariant. *)
Lemma credentials_inv_insert c r :
  credentials_inv c -> validate_credential r = Ok tt -> 1 <= cr_created_at r <= u64_max ->
  (forall j r2, c !! j = Some r2 -> j <> cr_credential_id r ->
     cr_created_at r2 = cr_created_at r -> cr_created_at r = u64_max) ->
  credentials_inv (<[cr_credential_id r := r]> c).
Proof.
  intros [Hi Hv Ho Hu] Hval Hr Hfresh. split.
  - by apply map_Forall_insert_2.
  - by apply map_Forall_insert_2.
  - by apply map_Forall_insert_2.
  - intros i j r1 r2 H1 H2 Heq.
    destruct (decide (i = cr_credential_id r)) as [->|Hne1],
      (decide (j = cr_credential_id r)) as [->|Hne2]; [by left| | |].
    + rewrite lookup_insert_eq in H1. rewrite lookup_insert_ne in H2 by done. simplify_eq.
      right. by apply (Hfresh j r2).
    + rewrite lookup_insert_eq in H2. rewrite lookup_insert_ne in H1 by done. simplify_eq.
      right. rewrite Heq. by apply (Hfresh i r1).
    + rewrite lookup_insert_ne in H1, H2 by done. eauto.
Qed.

Lemma mem_inv_new os : mem_inv (ms_new os).
Proof. split; simpl; [apply credentials_inv_empty | rewrite map_size_empty; lia | done]. Qed.

Lemma mem_inv_put r s s' res : mem_inv s -> ms_put r s = (s', res) -> mem_inv s'.
Proof.
  intros [Hc Hs Hp] Hput. unfold ms_put in Hput.
  destruct (validate_credential r) as [[]|e] eqn:Hv; [|by simplify_eq].
  pose proof (next_created_at_bound _ (ci_order _ Hc)) as [Hnb Hnf].
  destruct (ms_credentials s !! cr_credential_id r) as [old|] eqn:Hold.
  - simplify_eq. split; simpl; [| |done].
    + apply (credentials_inv_insert _ (set_created_at r (cr_created_at old))); auto.
      * by apply (ci_order _ Hc) in Hold.
      * simpl. intros j r2 Hj Hne Heq.
        destruct (ci_unique _ Hc _ _ _ _ Hold Hj) as [?|?]; congruence.
    + rewrite map_size_insert_Some; [done|eauto].
  - destruct (_ <=? _) eqn:Hfull; simplify_eq; [done|]. apply Z.leb_gt in Hfull.
    split; simpl; [| |done].
    + apply (credentials_inv_insert _ (set_created_at r _)); auto.
      simpl. intros j r2 Hj _ Heq. destruct (Hnf _ _ Hj); [lia|congruence].
    + rewrite map_size_insert_None by done. lia.
Qed.

Lemma map_size_filter_lt c r id old :
  c !! id = Some old -> matching r old = true ->
  (size (filter (fun p => matching r (snd p) = false) c : gmap bytes CredentialRecord) < size c)%nat.
Proof.
  intros Hid Hm. apply map_subset_size. split; [apply map_filter_subseteq|].
  intros Hsub. eapply lookup_weaken in Hid; [|exact Hsub].
  apply map_lookup_filter_Some in Hid as [_ Hf]. simpl in Hf. congruence.
Qed.

Lemma mem_inv_insert r s s' res :
  mem_inv s -> ms_insert_or_replace_discoverable r s = (s', res) -> mem_inv s'.
Proof.
  intros Hinv Hi. unfold ms_insert_or_replace_discoverable in Hi. destruct Hinv as [Hc Hs Hp].
  destruct (validate_credential r) as [[]|e] eqn:Hv; [|by simplify_eq].
  destruct (negb _); [by simplify_eq|]. destruct (is_some _) eqn:Hocc; [by simplify_eq|].
  destruct (_ && _) eqn:Hfull; simplify_eq; [done|].
  pose proof (next_created_at_bound _ (ci_order _ Hc)) as [Hnb Hnf].
  pose (F := filter (fun p => matching r (snd p) = false) (ms_credentials s)).
  assert (Hsub : F ⊆ ms_credentials s) by apply map_filter_subseteq.
  assert (Hnone : F !! cr_credential_id r = None).
  { destruct (F !! _) eqn:E; [|done]. eapply lookup_weaken in E; [|exact Hsub].
    by rewrite E in Hocc. }
  split; simpl; [| |done]; fold F.
  - apply (credentials_inv_insert F (set_created_at r _)); auto.
    + by eapply credentials_inv_subseteq.
    + simpl. intros j r2 Hj _ Heq. eapply lookup_weaken in Hj; [|exact Hsub].
      destruct (Hnf _ _ Hj); [lia|congruence].
  - rewrite map_size_insert_None by done. apply andb_false_iff in Hfull as [Hm|Hm].
    + apply negb_false_iff, existsb_exists in Hm as (old & Hin & Hmatch).
      apply list_elem_of_In, ms_values_elem in Hin as [id Hid].
      pose proof (map_size_filter_lt _ _ _ _ Hid Hmatch) as Hlt. fold F in Hlt. lia.
    + apply Z.leb_gt in Hm. apply map_subseteq_size in Hsub. lia.
Qed.

Lemma mem_inv_delete id s s' res : mem_inv s -> ms_delete id s = (s', res) -> mem_inv s'.
Proof.
  intros [Hc Hs Hp] [= <- <-]. split; simpl; [| |done].
  - eapply credentials_inv_subseteq; [apply delete_subseteq|done].
  - pose proof (map_subseteq_size _ _ (delete_subseteq (ms_credentials s) id)). lia.
Qed.

(** ** Histories *)

(** One call of a mutating method; its result is left to the caller. *)
Inductive mem_step : MemoryStore -> MemoryStore -> Prop :=
| step_put r s s' res : ms_put r s = (s', res) -> mem_step s s'
| step_insert r s s' res : ms_insert_or_replace_discoverable r s = (s', res) -> mem_step s s'
| step_delete id s s' res : ms_delete id s = (s', res) -> mem_step s s'
| step_clear s s' res : ms_clear s = (s', res) -> mem_step s s'
| step_set_pin p s s' res : ms_set_pin_state p s = (s', res) -> mem_step s s'
| step_set_counter v s : mem_step s (ms_with_signature_counter s v)
| step_set_blob a s s' res : ms_set_large_blob_array a s = (s', res) -> mem_step s s'
| step_set_attestation r s s' res : ms_set_attestation r s = (s', res) -> mem_step s s'
| step_seal p ad s s' res : ms_seal_credential_id p ad s = (s', res) -> mem_step s s'.

Lemma mem_inv_ext s s' :
  ms_credentials s' = ms_credentials s -> ms_max_credentials s' = ms_max_credentials s ->
  (forall p, ms_pin_state s' = Some p ->
     ms_pin_state s = Some p \/ validate_pin_state p = Ok tt) ->
  mem_inv s -> mem_inv s'.
Proof.
  intros Hc Hm Hp [Hi Hs Hv]. split; rewrite ?Hc, ?Hm; auto.
  intros p Hp'. destruct (Hp p Hp'); auto.
Qed.

Lemma os_random_frame n s s' res : os_random n s = (s', res) ->
  ms_credentials s' = ms_credentials s /\ ms_max_credentials s' = ms_max_credentials s /\
  ms_pin_state s' = ms_pin_state s /\ ms_credential_key s' = ms_credential_key s.
Proof. unfold os_random. intros Hr. by inv_all Hr. Qed.

Lemma os_random_length n s s' b : os_random n s = (s', Ok b) -> length b = n.
Proof. unfold os_random. intros Hr. inv_all Hr. apply fill_bytes_length. Qed.

Lemma root_key_frame s s' res : ms_root_key s = (s', res) ->
  ms_credentials s' = ms_credentials s /\ ms_max_credentials s' = ms_max_credentials s /\
  ms_pin_state s' = ms_pin_state s /\
  (forall root, res = Ok root -> ms_credential_key s' = Some root).
Proof.
  unfold ms_root_key. simp_st. intros Hr.
  destruct (ms_credential_key s) as [k|] eqn:Hk; simplify_eq/=.
  { split_and!; try done. congruence. }
  destruct (os_random 32 s) as [s1 [k|e]] eqn:Ho; simplify_eq/=;
    apply os_random_frame in Ho as (? & ? & ? & ?); split_and!; congruence.
Qed.

Lemma seal_frame p ad s s' res : ms_seal_credential_id p ad s = (s', res) ->
  ms_credentials s' = ms_credentials s /\ ms_max_credentials s' = ms_max_credentials s /\
  (forall q, ms_pin_state s' = Some q ->
     ms_pin_state s = Some q \/ validate_pin_state q = Ok tt).
Proof.
  unfold ms_seal_credential_id. simp_st. intros Hr.
  destruct (ms_root_key s) as [s1 [root|e]] eqn:Hk; apply root_key_frame in Hk as (Hc & Hm & Hp & _);
    [|simplify_eq; rewrite Hp; auto].
  destruct (os_random _ _) as [s2 [nonce|e]] eqn:Ho in Hr; apply os_random_frame in Ho as (Hc2 & Hm2 & Hp2 & _);
    simplify_eq; rewrite Hc2, Hm2, Hp2;
    (destruct (ms_pin_state s1) as [q1|] eqn:Hq1; simpl;
      (split_and!; [done|done|]; intros q; rewrite ?Hq1; intros [= <-]; rewrite <- ?Hp; auto)).
Qed.

Lemma seal_pin_view p ad s s' res : ms_seal_credential_id p ad s = (s', res) ->
  ms_pin_state s' = ms_pin_state s \/
  (ms_pin_state s = None /\ ms_pin_state s' = Some PinStateRecord_default).
Proof.
  unfold ms_seal_credential_id. simp_st. intros Hr.
  destruct (ms_root_key s) as [s1 [root|e]] eqn:Hk; apply root_key_frame in Hk as (_ & _ & Hp & _);
    [|simplify_eq; auto].
  destruct (os_random _ _) as [s2 [nonce|e]] eqn:Ho in Hr; apply os_random_frame in Ho as (_ & _ & Hp2 & _);
    simplify_eq; rewrite Hp2, <- Hp;
    destruct (ms_pin_state s1) as [q1|] eqn:Hq1; auto.
Qed.

#[export, refine] Instance MemoryPinStoreLaws : PinStoreLaws MemoryStore := {|
  pin_view := ms_pin_state
|}.
Proof.
  all: try view_solver.
  - intros s s' r [= <- <-]. split; [done|]. by intros o [= <-].
  - intros s s' record r. simpl. unfold ms_set_pin_state.
    destruct (validate_pin_state record) as [[]|e] eqn:E; intros [= <- <-]; simpl; auto.
  - intros p ad s s' r Hs. simpl in *. by apply seal_pin_view in Hs.
Defined.

#[export] Instance MemoryPinResetLaws : PinResetLaws MemoryStore.
Proof. constructor. intros s s' r [= <- <-]. reflexivity. Defined.

(** Sealing writes neither the array nor the counter. *)
Lemma seal_rest p ad s s' res : ms_seal_credential_id p ad s = (s', res) ->
  ms_large_blob_array s' = ms_large_blob_array s /\ ms_signature_counter s' = ms_signature_counter s.
Proof.
  unfold ms_seal_credential_id. simp_st. intros Hr.
  assert (Hk : forall r x, ms_root_key s = (r, x) -> ms_large_blob_array r = ms_large_blob_array s /\
    ms_signature_counter r = ms_signature_counter s).
  { unfold ms_root_key, os_random. simp_st. intros r x Hx.
    by (repeat case_match; simplify_eq). }
  destruct (ms_root_key s) as [s1 [root|e]] eqn:Ek; destruct (Hk _ _ eq_refl) as [<- <-];
    [|by injection Hr as <- <-].
  unfold os_random in Hr. by (repeat case_match; simplify_eq).
Qed.

#[local] Ltac frame_solver c Hc :=
  destruct c; try done; simpl in *;
  try (unfold ms_put, ms_insert_or_replace_discoverable, ms_set_pin_state, ms_set_large_blob_array;
       repeat case_goal; reflexivity);
  match goal with |- context [ms_seal_credential_id ?p ?ad ?s] =>
    destruct (ms_seal_credential_id p ad s) as [? ?] eqn:E; by apply seal_rest in E as [] end.

#[export, refine] Instance MemoryBlobStoreLaws : BlobStoreLaws MemoryStore := {|
  blob_view := ms_large_blob_array
|}.
Proof.
  - intros s s' r [= <- <-]. split; [done|]. by intros x [= <-].
  - intros s s' array r. simpl. unfold ms_set_large_blob_array.
    destruct (validate_large_blob_array array); intros [= <- <-]; done.
  - intros c s Hc. frame_solver c Hc.
Defined.

(** ** The effect of a successful insert *)

Lemma insert_or_replace_ok r s s' commit :
  ms_insert_or_replace_discoverable r s = (s', Ok commit) ->
  validate_credential r = Ok tt /\ is_discoverable (cr_credential_id r) = true /\
  ms_credentials s !! cr_credential_id r = None /\
  let stored := set_created_at r (next_created_at (ms_values (ms_credentials s))) in
  ms_credentials s' =
    <[cr_credential_id r := stored]>
      (filter (fun p => matching r (snd p) = false) (ms_credentials s)).
Proof.
  unfold ms_insert_or_replace_discoverable. intros Hi.
  destruct (validate_credential r) as [[]|] eqn:Hv; [|done].
  destruct (is_discoverable _) eqn:Hd; simpl in Hi; [|done].
  destruct (ms_credentials s !! _) eqn:Hl; simpl in Hi; [done|].
  destruct (_ && _); simplify_eq. done.
Qed.

(** What is sealed opens again, and the PIN state exists from then on. *)
Lemma ms_seal_opens `{!AeadLaws} (p ad sealed : bytes) (s s' : MemoryStore) :
  ms_seal_credential_id p ad s = (s', Ok sealed) ->
  ms_open_credential_id sealed ad s' = (s', Ok (Some p)) /\
  length sealed = (SEALED_ID_OVERHEAD + length p)%nat /\
  is_Some (ms_pin_state s').
Proof.
  unfold ms_seal_credential_id, ms_open_credential_id. simp_st. intros Hs.
  destruct (ms_root_key s) as [s1 [root|e]] eqn:Hk; [|done].
  apply root_key_frame in Hk as (_ & _ & _ & Hkey). specialize (Hkey root eq_refl).
  destruct (os_random _ _) as [s2 [nonce|e]] eqn:Ho in Hs; [|done].
  pose proof (os_random_length _ _ _ _ Ho) as Hn.
  apply os_random_frame in Ho as (_ & _ & Hp & Hk2). simplify_eq.
  match goal with H' : seal_credential_id_with_nonce _ _ _ _ = _ |- _ =>
    apply sealed_id_roundtrip in H' as [Hopen Hlen]; [|done] end.
  destruct (ms_pin_state s1) as [q|] eqn:Hq; simpl in *; rewrite Hk2, Hp, Hkey, Hopen; eauto.
Qed.

#[export, refine] Instance MemoryCredentialSetLaws : CredentialSetLaws MemoryStore := {|
  creds := ms_credentials
|}.
Proof.
  all: try (unfold preserves; intros; simpl; unfold ms_set_pin_state, ms_set_large_blob_array;
            repeat case_goal; reflexivity).
  - intros id s s' r [= <- <-]. done.
  - intros s s' r [= <- <-]. split; [done|]. intros l [= <-].
    split; [apply sort_newest_first_sorted|apply sort_newest_first_perm].
  - intros id s s' r [= <- <-]. split; [done|]. by destruct (ms_credentials s !! id).
  - intros r s s' res. simpl. unfold ms_put.
    destruct (validate_credential r) as [[]|e] eqn:Hv; [|intros [= <- <-]; by left].
    destruct (ms_credentials s !! cr_credential_id r) as [old|] eqn:Hold.
    + intros [= <- <-]. by split.
    + destruct (_ <=? _); intros [= <- <-]; [by left|]. split; [done|]. simpl. eauto.
  - intros r s s' [c|e] Hi; simpl in Hi.
    + apply insert_or_replace_ok in Hi as (? & ? & ? & Hc). split_and!; [done..|]. by eexists.
    + unfold ms_insert_or_replace_discoverable in Hi. by inv_all Hi.
  - intros p ad s. simpl. destruct (ms_seal_credential_id p ad s) as [s' r] eqn:E.
    by apply seal_frame in E as [E _].
  - intros s s' r [= <- <-]. reflexivity.
Defined.

#[export, refine] Instance MemoryCounterStoreLaws : CounterStoreLaws MemoryStore := {|
  counter_view := ms_signature_counter
|}.
Proof.
  all: try (unfold preserves; intros; reflexivity).
  - intros s s' r [= <- <-]. split; [done|]. by intros v [= <-].
  - intros v s s' r [= <- <-]. reflexivity.
  - intros c s Hc. frame_solver c Hc.
Defined.

(** Only a reset replaces the root key once there is one. *)
Lemma run_call_root c s root :
  c <> SClear -> ms_credential_key s = Some root -> ms_credential_key (run_call c s) = Some root.
Proof.
  intros Hc Hk. destruct c; try done; simpl;
    try (unfold ms_put, ms_insert_or_replace_discoverable, ms_set_pin_state, ms_set_large_blob_array;
         repeat case_goal; done).
  unfold ms_seal_credential_id, ms_root_key, os_random. simp_st. rewrite Hk. simpl.
  repeat case_match; by simplify_eq/=.
Qed.

Lemma run_calls_root calls s root :
  Forall (fun c => c <> SClear) calls -> ms_credential_key s = Some root ->
  ms_credential_key (run_calls calls s) = Some root.
Proof.
  intros Hc. revert s. induction Hc as [|c calls Hc _ IH]; intros s Hk; [done|].
  simpl. by apply IH, run_call_root.
Qed.

#[export] Instance MemorySealStoreLaws `{!AeadLaws} : SealStoreLaws MemoryStore.
Proof.
  split. intros p ad s s' sealed Hs. pose proof Hs as Hs'. apply ms_seal_opens in Hs as (Ho & Hl & _).
  split; [done|]. intros calls s'' r Hc. simpl. unfold ms_open_credential_id in *. simp_st. simpl in *.
  destruct (ms_credential_key s') as [root|] eqn:Hk; [|done].
  rewrite (run_calls_root calls s' root Hc Hk). intros [= _ <-]. by injection Ho.
Defined.

Lemma mem_inv_step s s' : mem_step s s' -> mem_inv s -> mem_inv s'.
Proof.
  intros Hstep Hinv. destruct Hstep as [r s s' res E|r s s' res E|id s s' res E|s s' res E
    |p s s' res E|v s|a s s' res E|r s s' res E|p ad s s' res E].
  - by eapply mem_inv_put.
  - by eapply mem_inv_insert.
  - by eapply mem_inv_delete.
  - injection E as <- <-. split; simpl; [apply credentials_inv_empty|rewrite map_size_empty; lia|].
    intros p [= <-]. apply validate_pin_state_default.
  - unfold ms_set_pin_state in E. destruct (validate_pin_state p) as [[]|] eqn:Hv; simplify_eq; [|done].
    eapply mem_inv_ext; [..|exact Hinv]; simpl; auto. intros q [= <-]. auto.
  - eapply mem_inv_ext; [..|exact Hinv]; simpl; auto.
  - unfold ms_set_large_blob_array in E. inv_all E; [|done].
    eapply mem_inv_ext; [..|exact Hinv]; simpl; auto.
  - unfold ms_set_attestation in E. inv_all E; [|done].
    eapply mem_inv_ext; [..|exact Hinv]; simpl; auto.
  - apply seal_frame in E as (Hc & Hm & Hp). by eapply mem_inv_ext.
Qed.

(** A store as opened, with its limit, and any history of calls on it. *)
Definition mem_reachable (s : MemoryStore) : Prop :=
  exists os max, rtc mem_step (ms_with_max_credentials (ms_new os) max) s.

Lemma mem_reachable_inv s : mem_reachable s -> mem_inv s.
Proof.
  intros (os & max & Hs). apply (rtc_ind_r mem_inv _) in Hs; auto.
  - destruct (mem_inv_new os) as [Hc _ Hp]. split; auto. simpl. rewrite map_size_empty. lia.
  - intros y z _ Hstep Hy. by eapply mem_inv_step.
Qed.

(** ** Listing *)

Lemma ms_list_spec (s s' : MemoryStore) l :
  ms_list s = (s', Ok l) ->
  s' = s /\ StronglySorted newest_le l /\ l ≡ₚ ms_values (ms_credentials s).
Proof.
  intros [= <- <-]. split_and!; [done|apply sort_newest_first_sorted|apply sort_newest_first_perm].
Qed.

Lemma ms_values_ids_nodup c : credentials_inv c -> NoDup (map cr_credential_id (ms_values c)).
Proof.
  intros Hc. unfold ms_values.
  assert (Heq : map cr_credential_id (map_to_list c).*2 = (map_to_list c).*1).
  { assert (Hall : Forall (fun p => cr_credential_id (snd p) = fst p) (map_to_list c)).
    { apply Forall_forall. intros [i r] Hin. apply elem_of_map_to_list in Hin.
      by apply (ci_ids _ Hc) in Hin. }
    induction Hall as [|[i r] l Hr _ IH]; [done|]. simpl in *. by f_equal. }
  rewrite Heq. apply NoDup_fst_map_to_list.
Qed.

(** A credential whose creation order is above every other's is listed first. *)
Lemma list_newest_head c r :
  credentials_inv c -> r ∈ ms_values c ->
  (forall r2, r2 ∈ ms_values c -> r2 <> r -> cr_created_at r2 < cr_created_at r) ->
  head (sort_newest_first (ms_values c)) = Some r.
Proof.
  intros Hc Hin Hmax.
  pose proof (sort_newest_first_perm (ms_values c)) as Hp.
  pose proof (sort_newest_first_sorted (ms_values c)) as Hs.
  destruct (sort_newest_first _) as [|x l] eqn:E.
  { rewrite <- Hp in Hin. by apply elem_of_nil in Hin. }
  simpl. f_equal. apply StronglySorted_inv in Hs as [_ Hall].
  rewrite <- Hp in Hin. apply elem_of_cons in Hin as [->|Hin]; [done|].
  rewrite Forall_forall in Hall. specialize (Hall r Hin).
  destruct (decide (x = r)) as [|Hne]; [done|exfalso].
  assert (Hx : x ∈ ms_values c) by (rewrite <- Hp; left).
  specialize (Hmax x Hx Hne). unfold newest_le, newest_first in Hall.
  destruct (Z.compare_spec (cr_created_at r) (cr_created_at x)); done || lia.
Qed.

(** ** Properties *)

(** After any history of calls on an in-memory store (inserts, updates,
    replacements, deletions, factory resets, PIN-state, counter, large-blob and
    attestation writes, sealing), whatever each returned: the credential count is
    within the limit, every credential is stored under its own ID and is valid,
    the stored PIN state is valid, and a listing is exactly the stored
    credentials, each ID once, newest first. *)
Theorem memory_store_history (s : MemoryStore) :
  mem_reachable s ->
  Z.of_nat (size (ms_credentials s)) <= Z.max 0 (ms_max_credentials s) /\
  (forall id r, ms_credentials s !! id = Some r ->
     cr_credential_id r = id /\ validate_credential r = Ok tt) /\
  (forall p, ms_pin_state s = Some p -> pin_state_wf p) /\
  (forall s' l, ms_list s = (s', Ok l) ->
     StronglySorted newest_le l /\ NoDup (map cr_credential_id l) /\
     forall r, r ∈ l <-> exists id, ms_credentials s !! id = Some r).
Proof.
  intros Hr. apply mem_reachable_inv in Hr as [Hc Hs Hp]. split_and!; [done| | |].
  - intros id r Hid. split; [by apply (ci_ids _ Hc) in Hid | by apply (ci_valid _ Hc) in Hid].
  - intros p Hpp. by apply validate_pin_state_wf, Hp.
  - intros s' l Hl. apply ms_list_spec in Hl as (_ & Hsort & Hperm). split_and!; [done| |].
    + rewrite Hperm. by apply ms_values_ids_nodup.
    + intros r. rewrite Hperm. apply ms_values_elem.
Qed.

(** Registering a discoverable credential replaces the account and nothing
    else: on success the new ID resolves to the new record, every credential
    of the same RP ID and user handle that is discoverable is gone, every
    other credential is exactly as before, and (until the 64-bit creation
    counter saturates) the new credential heads the listing. *)
Theorem insert_or_replace_account (r : CredentialRecord) (s s' : MemoryStore) commit :
  mem_reachable s ->
  ms_insert_or_replace_discoverable r s = (s', Ok commit) ->
  let stored := set_created_at r (next_created_at (ms_values (ms_credentials s))) in
  ms_credentials s' !! cr_credential_id r = Some stored /\
  (forall id c, id <> cr_credential_id r ->
     ms_credentials s' !! id = Some c <->
     ms_credentials s !! id = Some c /\ matching r c = false) /\
  (cr_created_at stored < u64_max ->
   head (sort_newest_first (ms_values (ms_credentials s'))) = Some stored).
Proof.
  intros Hr Hi stored. pose proof (mem_reachable_inv _ Hr) as Hinv.
  pose proof (mem_inv_insert _ _ _ _ Hinv Hi) as Hinv'.
  apply insert_or_replace_ok in Hi as (_ & _ & Hnone & Hs'). fold stored in Hs'.
  assert (Hother : forall id c, id <> cr_credential_id r ->
     ms_credentials s' !! id = Some c <->
     ms_credentials s !! id = Some c /\ matching r c = false).
  { intros id c Hne. rewrite Hs', lookup_insert_ne by done. apply map_lookup_filter_Some. }
  assert (Hnew : ms_credentials s' !! cr_credential_id r = Some stored)
    by (rewrite Hs'; apply lookup_insert_eq).
  split_and!; [done|done|]. intros Hsat.
  pose proof (next_created_at_bound _ (ci_order _ (mi_credentials _ Hinv))) as [_ Hnb].
  apply list_newest_head; [apply Hinv'|apply ms_values_elem; eauto|].
  intros r2 Hr2 Hne. apply ms_values_elem in Hr2 as [id2 Hid2].
  destruct (decide (id2 = cr_credential_id r)) as [->|Hne2]; [congruence|].
  apply Hother in Hid2 as [Hid2 _]; [|done]. destruct (Hnb _ _ Hid2) as [|Heq]; [done|].
  unfold stored in Hsat. simpl in Hsat. lia.
Qed.

(** A factory reset erases every credential, restores the default PIN state,
    a zero signature counter and the initial large-blob array, keeps the
    attestation record, and ends every sealed credential: until the store seals
    again, no credential ID opens, whatever relying party it is tried for. *)
Theorem factory_reset_erases (s s' : MemoryStore) res :
  ms_clear s = (s', res) ->
  res = Ok Volatile /\
  (forall id, ms_get id s' = (s', Ok None)) /\
  ms_list s' = (s', Ok []) /\
  st_pin_state s' = (s', Ok (Some PinStateRecord_default)) /\
  st_signature_counter s' = (s', Ok 0) /\
  st_large_blob_array s' = (s', Ok INITIAL_LARGE_BLOB_ARRAY) /\
  ms_attestation s' = ms_attestation s /\
  (forall sealed ad, ms_open_credential_id sealed ad s' = (s', Ok None)).
Proof.
  intros [= <- <-]. split_and!; try reflexivity; intros; unfold ms_get; simp_st; f_equal.
Qed.

End Laws.

(** ** Concrete runs *)

Module StoreWitness.

Definition sample (id_byte user created : Z) : CredentialRecord := {|
  cr_credential_id := 1 :: repeat id_byte 32; cr_rp_id := [97; 46; 98]; cr_user_id := [user];
  cr_user_name := None; cr_user_display_name := None; cr_alg := ES256;
  cr_private_key := P256Scalar (repeat 7 32);
  cr_cred_random_with_uv := repeat 1 32; cr_cred_random_without_uv := repeat 2 32;
  cr_cred_blob := None; cr_large_blob_key := None; cr_third_party_payment := false;
  cr_cred_protect := 1; cr_sign_count := 0; cr_created_at := created |}.

Definition empty : MemoryStore := ms_with_max_credentials (ms_new []) 2.

Definition one : MemoryStore := fst (ms_insert_or_replace_discoverable (sample 10 5 0) empty).

Lemma one_reachable : mem_reachable one.
Proof.
  exists [], 2. apply rtc_once. eapply (step_insert (sample 10 5 0)). reflexivity.
Qed.

Lemma memory_store_history_witness :
  Z.of_nat (size (ms_credentials one)) <= 2 /\
  head (sort_newest_first (ms_values (ms_credentials one))) = Some (sample 10 5 1).
Proof.
  split.
  - exact (proj1 (memory_store_history one one_reachable)).
  - vm_compute. reflexivity.
Defined.

(** The second registration of the same account replaces the first. *)
Lemma insert_or_replace_account_witness :
  let s' := fst (ms_insert_or_replace_discoverable (sample 11 5 0) one) in
  head (sort_newest_first (ms_values (ms_credentials s'))) = Some (sample 11 5 2) /\
  ms_credentials s' !! (1 :: repeat 10 32) = None.
Proof.
  intros s'. split; [|vm_compute; reflexivity].
  refine (proj2 (proj2 (insert_or_replace_account (sample 11 5 0) one s'
    {| durability := Volatile; cleanup_pending := false |} one_reachable _)) _);
    vm_compute; reflexivity.
Defined.

Lemma factory_reset_erases_witness :
  ms_list (fst (ms_clear one)) = (fst (ms_clear one), Ok []).
Proof. apply (factory_reset_erases one (fst (ms_clear one)) (Ok Volatile)). reflexivity. Defined.

Definition entropic : MemoryStore :=
  ms_new [Some (fun i => Z.of_nat i); Some (fun i => Z.of_nat (2 * i))].

End StoreWitness.
