(* ===== verification/PinRetry.v ===== *)
(** * The PIN retry state machine ([ctap/pin/state.rs], [PinRetryState])

    The persistent PIN state, the volatile mismatch counter, and the two-step
    PIN check: consume a retry, then compare. *)

From S2P Require Import Prelude Constants Records.

Definition MAX_CONSECUTIVE_PIN_MISMATCHES : Z := 3.

Record PersistentPinState : Type := {
  pp_pin_hash : option bytes;
  pp_pin_retries : Z;
  pp_min_pin_length : Z;
  pp_min_pin_length_rp_ids : list bytes;
  pp_force_pin_change : bool;
  pp_pin_code_point_length : Z;
  pp_always_uv : bool;
  pp_pin_complexity_policy : bool;
  pp_persistent_tokens : PersistentTokens
}.

#[export] Instance PersistentPinState_eq_dec : EqDecision PersistentPinState.
Proof. solve_decision. Defined.

(** [PersistentPinState::default]. *)
Definition PersistentPinState_default : PersistentPinState := {|
  pp_pin_hash := None;
  pp_pin_retries := MAX_PIN_RETRIES;
  pp_min_pin_length := DEFAULT_MIN_PIN_LENGTH;
  pp_min_pin_length_rp_ids := [];
  pp_force_pin_change := false;
  pp_pin_code_point_length := DEFAULT_MIN_PIN_LENGTH;
  pp_always_uv := false;
  pp_pin_complexity_policy := false;
  pp_persistent_tokens := (None, None)
|}.

(** ** Field updates *)

Definition set_pp_pin_hash (p : PersistentPinState) (v : option bytes) : PersistentPinState := {|
  pp_pin_hash := v; pp_pin_retries := pp_pin_retries p;
  pp_min_pin_length := pp_min_pin_length p;
  pp_min_pin_length_rp_ids := pp_min_pin_length_rp_ids p;
  pp_force_pin_change := pp_force_pin_change p;
  pp_pin_code_point_length := pp_pin_code_point_length p; pp_always_uv := pp_always_uv p;
  pp_pin_complexity_policy := pp_pin_complexity_policy p;
  pp_persistent_tokens := pp_persistent_tokens p |}.

Definition set_pp_pin_retries (p : PersistentPinState) (v : Z) : PersistentPinState := {|
  pp_pin_hash := pp_pin_hash p; pp_pin_retries := v;
  pp_min_pin_length := pp_min_pin_length p;
  pp_min_pin_length_rp_ids := pp_min_pin_length_rp_ids p;
  pp_force_pin_change := pp_force_pin_change p;
  pp_pin_code_point_length := pp_pin_code_point_length p; pp_always_uv := pp_always_uv p;
  pp_pin_complexity_policy := pp_pin_complexity_policy p;
  pp_persistent_tokens := pp_persistent_tokens p |}.

Definition set_pp_always_uv (p : PersistentPinState) (v : bool) : PersistentPinState := {|
  pp_pin_hash := pp_pin_hash p; pp_pin_retries := pp_pin_retries p;
  pp_min_pin_length := pp_min_pin_length p;
  pp_min_pin_length_rp_ids := pp_min_pin_length_rp_ids p;
  pp_force_pin_change := pp_force_pin_change p;
  pp_pin_code_point_length := pp_pin_code_point_length p; pp_always_uv := v;
  pp_pin_complexity_policy := pp_pin_complexity_policy p;
  pp_persistent_tokens := pp_persistent_tokens p |}.

Definition set_pp_persistent_tokens (p : PersistentPinState) (v : PersistentTokens)
    : PersistentPinState := {|
  pp_pin_hash := pp_pin_hash p; pp_pin_retries := pp_pin_retries p;
  pp_min_pin_length := pp_min_pin_length p;
  pp_min_pin_length_rp_ids := pp_min_pin_length_rp_ids p;
  pp_force_pin_change := pp_force_pin_change p;
  pp_pin_code_point_length := pp_pin_code_point_length p; pp_always_uv := pp_always_uv p;
  pp_pin_complexity_policy := pp_pin_complexity_policy p;
  pp_persistent_tokens := v |}.

(** ** The state machine *)

Record PinRetryState : Type := {
  prs_persistent : PersistentPinState;
  prs_consecutive_mismatches : Z
}.

#[export] Instance PinRetryState_eq_dec : EqDecision PinRetryState.
Proof. solve_decision. Defined.

Definition power_up (persistent : PersistentPinState) : PinRetryState := {|
  prs_persistent :=
    set_pp_pin_retries persistent (Z.min (pp_pin_retries persistent) MAX_PIN_RETRIES);
  prs_consecutive_mismatches := 0
|}.

Definition PinRetryState_default : PinRetryState := power_up PersistentPinState_default.

Definition is_set (s : PinRetryState) : bool := is_some (pp_pin_hash (prs_persistent s)).

Definition retries (s : PinRetryState) : Z := pp_pin_retries (prs_persistent s).

Definition power_cycle_required (s : PinRetryState) : bool :=
  MAX_CONSECUTIVE_PIN_MISMATCHES <=? prs_consecutive_mismatches s.

Definition retry_set_pin (s : PinRetryState) (pin_hash : bytes) : PinRetryState := {|
  prs_persistent :=
    set_pp_pin_retries (set_pp_pin_hash (prs_persistent s) (Some pin_hash)) MAX_PIN_RETRIES;
  prs_consecutive_mismatches := 0
|}.

Definition check_attempt_allowed (s : PinRetryState) : result unit Z :=
  if negb (is_set s) then Err CTAP2_ERR_PIN_NOT_SET
  else if retries s =? 0 then Err CTAP2_ERR_PIN_BLOCKED
  else if power_cycle_required s then Err CTAP2_ERR_PIN_AUTH_BLOCKED
  else Ok tt.

(** The returned [PinAttempt] token is the [Ok tt]; the subtraction is on
    [u8] and guarded by the check. *)
Definition begin_attempt : M PinRetryState unit Z := fun s =>
  match check_attempt_allowed s with
  | Err e => (s, Err e)
  | Ok _ =>
      ({| prs_persistent := set_pp_pin_retries (prs_persistent s) (retries s - 1);
          prs_consecutive_mismatches := prs_consecutive_mismatches s |}, Ok tt)
  end.

Definition pin_matches (s : PinRetryState) (candidate : option bytes) : bool :=
  match pp_pin_hash (prs_persistent s), candidate with
  | Some stored, Some c => bytes_eqb stored c
  | _, _ => false
  end.

Definition finish_attempt (candidate : option bytes) : M PinRetryState unit Z := fun s =>
  if pin_matches s candidate then
    ({| prs_persistent := set_pp_pin_retries (prs_persistent s) MAX_PIN_RETRIES;
        prs_consecutive_mismatches := 0 |}, Ok tt)
  else
    let s' := {| prs_persistent := prs_persistent s;
                 prs_consecutive_mismatches :=
                   u8_saturating_add (prs_consecutive_mismatches s) 1 |} in
    (s', if retries s' =? 0 then Err CTAP2_ERR_PIN_BLOCKED
         else if power_cycle_required s' then Err CTAP2_ERR_PIN_AUTH_BLOCKED
         else Err CTAP2_ERR_PIN_INVALID).

(** A whole check, as a caller that persists in between runs it. *)
Definition attempt (candidate : option bytes) : M PinRetryState unit Z :=
  begin_attempt ;;* finish_attempt candidate.

(** ** Invariant *)

Record retry_inv (s : PinRetryState) : Prop := {
  ri_retries : 0 <= retries s <= MAX_PIN_RETRIES;
  ri_mismatches : 0 <= prs_consecutive_mismatches s <= MAX_CONSECUTIVE_PIN_MISMATCHES
}.

Lemma retry_inv_power_up p : 0 <= pp_pin_retries p -> retry_inv (power_up p).
Proof. split; unfold retries, MAX_PIN_RETRIES, MAX_CONSECUTIVE_PIN_MISMATCHES; simpl; unfold MAX_PIN_RETRIES; lia. Qed.

Lemma retry_inv_set_pin s h : retry_inv (retry_set_pin s h).
Proof. split; vm_compute; split; discriminate. Qed.

Lemma check_attempt_allowed_ok s :
  check_attempt_allowed s = Ok tt <->
  is_set s = true /\ retries s <> 0 /\ prs_consecutive_mismatches s < MAX_CONSECUTIVE_PIN_MISMATCHES.
Proof.
  unfold check_attempt_allowed, power_cycle_required.
  destruct (is_set s); simpl; [|split; [done|by intros []]].
  destruct (Z.eqb_spec (retries s) 0); [split; [done|by intros (_ & ? & _)]|].
  destruct (Z.leb_spec MAX_CONSECUTIVE_PIN_MISMATCHES (prs_consecutive_mismatches s)).
  - split; [done|]. intros (_ & _ & ?). lia.
  - done.
Qed.

(** One check: refused without any effect, or a retry is spent and the
    candidate compared. *)
Lemma attempt_spec s c s' r :
  retry_inv s -> attempt c s = (s', r) ->
  (check_attempt_allowed s <> Ok tt /\ s' = s /\ r = match check_attempt_allowed s with
                                                     | Ok _ => Ok tt | Err e => Err e end) \/
  (check_attempt_allowed s = Ok tt /\ pin_matches s c = true /\ r = Ok tt /\
   retries s' = MAX_PIN_RETRIES /\ prs_consecutive_mismatches s' = 0 /\
   pp_pin_hash (prs_persistent s') = pp_pin_hash (prs_persistent s)) \/
  (check_attempt_allowed s = Ok tt /\ pin_matches s c = false /\
   retries s' = retries s - 1 /\
   prs_consecutive_mismatches s' = prs_consecutive_mismatches s + 1 /\
   pp_pin_hash (prs_persistent s') = pp_pin_hash (prs_persistent s) /\
   r = Err (if retries s' =? 0 then CTAP2_ERR_PIN_BLOCKED
            else if prs_consecutive_mismatches s' =? 3 then CTAP2_ERR_PIN_AUTH_BLOCKED
            else CTAP2_ERR_PIN_INVALID)).
Proof.
  intros [Hr Hm]. unfold attempt, mbind_st, begin_attempt.
  destruct (check_attempt_allowed s) as [[]|e] eqn:Hc; [|intros [= <- <-]; left; done].
  apply check_attempt_allowed_ok in Hc as (Hset & Hnz & Hlt).
  unfold finish_attempt.
  match goal with |- context [pin_matches ?t c] => change (pin_matches t c) with (pin_matches s c) end.
  destruct (pin_matches s c) eqn:Hpm.
  - intros [= <- <-]. right. left. done.
  - unfold u8_saturating_add, u8_max, power_cycle_required, MAX_CONSECUTIVE_PIN_MISMATCHES in *.
    unfold retries at 1. simpl. rewrite Z.min_r by lia. intros [= <- <-]. right. right.
    split_and!; try done. unfold retries. simpl.
    destruct (_ =? 0); [done|].
    destruct (Z.leb_spec 3 (prs_consecutive_mismatches s + 1)),
      (Z.eqb_spec (prs_consecutive_mismatches s + 1) 3); done || lia.
Qed.

Lemma attempt_inv s c s' r : retry_inv s -> attempt c s = (s', r) -> retry_inv s'.
Proof.
  intros Hi Ha. pose proof Hi as [Hr Hm].
  destruct (attempt_spec _ _ _ _ Hi Ha) as
    [(_ & -> & _)|[(_ & _ & _ & Hr' & Hm' & _)|(Hc & _ & Hr' & Hm' & _ & _)]]; [done| |].
  - split; [rewrite Hr'|rewrite Hm']; unfold MAX_PIN_RETRIES, MAX_CONSECUTIVE_PIN_MISMATCHES; lia.
  - apply check_attempt_allowed_ok in Hc as (_ & Hnz & Hlt).
    split; [rewrite Hr'|rewrite Hm']; unfold MAX_PIN_RETRIES in *; lia.
Qed.

(** ** Attack traces

    What someone without the PIN can do: offer candidates and cut the power.
    [run] counts how many candidates were actually compared. *)

Inductive pin_event : Type :=
| EAttempt (candidate : option bytes)
| EPowerCycle.

Definition compared (s : PinRetryState) : nat :=
  match check_attempt_allowed s with Ok _ => 1 | Err _ => 0 end.

Fixpoint run (s : PinRetryState) (events : list pin_event) : PinRetryState * nat :=
  match events with
  | [] => (s, 0%nat)
  | EAttempt c :: rest =>
      let (s', n) := run (fst (attempt c s)) rest in (s', (compared s + n)%nat)
  | EPowerCycle :: rest => run (power_up (prs_persistent s)) rest
  end.

Definition wrong_guess (stored : bytes) (e : pin_event) : Prop :=
  match e with EAttempt c => c <> Some stored | EPowerCycle => True end.

Lemma wrong_guess_mismatch s stored c :
  pp_pin_hash (prs_persistent s) = Some stored -> c <> Some stored -> pin_matches s c = false.
Proof.
  intros Hs Hc. unfold pin_matches. rewrite Hs. destruct c as [c|]; [|done].
  unfold bytes_eqb. apply bool_decide_eq_false. congruence.
Qed.

(** One wrong guess costs exactly what was compared. *)
Lemma wrong_attempt_cost s stored c :
  retry_inv s -> pp_pin_hash (prs_persistent s) = Some stored -> c <> Some stored ->
  let s' := fst (attempt c s) in
  retry_inv s' /\ pp_pin_hash (prs_persistent s') = Some stored /\
  retries s' = retries s - Z.of_nat (compared s) /\
  prs_consecutive_mismatches s' = prs_consecutive_mismatches s + Z.of_nat (compared s).
Proof.
  intros Hi Hs Hc. destruct (attempt c s) as [s' r] eqn:Ha. simpl.
  pose proof (attempt_inv _ _ _ _ Hi Ha) as Hi'. unfold compared.
  pose proof (wrong_guess_mismatch _ _ _ Hs Hc) as Hpm.
  destruct (attempt_spec _ _ _ _ Hi Ha) as
    [(Hn & -> & _)|[(_ & Hm & _)|(Hok & _ & Hr' & Hm' & Hh & _)]]; [|congruence|].
  - destruct (check_attempt_allowed s) as [[]|]; [done|]. split_and!; try done; lia.
  - rewrite Hok. split_and!; try done; congruence || lia.
Qed.

Lemma power_cycle_keeps s :
  retry_inv s -> retry_inv (power_up (prs_persistent s)) /\
  retries (power_up (prs_persistent s)) = retries s /\
  pp_pin_hash (prs_persistent (power_up (prs_persistent s))) = pp_pin_hash (prs_persistent s).
Proof.
  intros [Hr Hm]. split_and!; [apply retry_inv_power_up; apply Hr| |done].
  unfold retries in *. simpl. lia.
Qed.

Lemma run_wrong_guesses s stored events :
  retry_inv s -> pp_pin_hash (prs_persistent s) = Some stored ->
  Forall (wrong_guess stored) events ->
  retry_inv (fst (run s events)) /\
  retries (fst (run s events)) = retries s - Z.of_nat (snd (run s events)).
Proof.
  intros Hi Hs Hall. revert s Hi Hs. induction Hall as [|e events He _ IH]; intros s Hi Hs.
  - simpl. split; [done|lia].
  - destruct e as [c|]; simpl in *.
    + destruct (wrong_attempt_cost _ _ _ Hi Hs He) as (Hi' & Hs' & Hr' & _).
      specialize (IH _ Hi' Hs'). destruct (run (fst (attempt c s)) events) as [s'' n]. simpl in *.
      split; [apply IH|]. lia.
    + destruct (power_cycle_keeps _ Hi) as (Hi' & Hr' & Hh').
      rewrite Hs in Hh'. rewrite <- Hr'. by apply IH.
Qed.

Lemma run_no_power_cycle s stored events :
  retry_inv s -> pp_pin_hash (prs_persistent s) = Some stored ->
  Forall (fun e => wrong_guess stored e /\ e <> EPowerCycle) events ->
  retry_inv (fst (run s events)) /\
  prs_consecutive_mismatches (fst (run s events)) =
    prs_consecutive_mismatches s + Z.of_nat (snd (run s events)).
Proof.
  intros Hi Hs Hall. revert s Hi Hs. induction Hall as [|e events [He Hp] _ IH]; intros s Hi Hs.
  - simpl. split; [done|lia].
  - destruct e as [c|]; simpl in *; [|done].
    destruct (wrong_attempt_cost _ _ _ Hi Hs He) as (Hi' & Hs' & _ & Hm').
    specialize (IH _ Hi' Hs'). destruct (run (fst (attempt c s)) events) as [s'' n]. simpl in *.
    split; [apply IH|]. lia.
Qed.

#[export] Hint Resolve retry_inv_set_pin attempt_inv : ctap.

(** ** Properties *)



(** A blocked PIN stays blocked: once pinRetries is 0, every check is
    refused with PIN_BLOCKED without being compared, the correct PIN included,
    and neither further checks nor power cycles change the state; only setting
    a PIN (after a reset) restores the retries. *)
Theorem blocked_pin_stays_blocked (s : PinRetryState) (events : list pin_event) :
  is_set s = true -> retries s = 0 ->
  let (s', n) := run s events in
  n = 0%nat /\ prs_persistent s' = prs_persistent s /\
  (forall c, attempt c s' = (s', Err CTAP2_ERR_PIN_BLOCKED)) /\
  (forall h, retries (retry_set_pin s' h) = MAX_PIN_RETRIES).
Proof.
  intros Hset Hr.
  assert (Hblk : forall t, is_set t = true -> retries t = 0 ->
            check_attempt_allowed t = Err CTAP2_ERR_PIN_BLOCKED).
  { intros t Ht Hrt. unfold check_attempt_allowed. by rewrite Ht, Hrt. }
  revert s Hset Hr. induction events as [|e events IH]; intros s Hset Hr.
  - simpl. split_and!; try done. intros c. unfold attempt, mbind_st, begin_attempt.
    by rewrite (Hblk s Hset Hr).
  - destruct e as [c|]; simpl.
    + unfold attempt at 1, mbind_st, begin_attempt, compared. rewrite (Hblk s Hset Hr). simpl.
      specialize (IH s Hset Hr). by destruct (run s events).
    + assert (Hp : prs_persistent (power_up (prs_persistent s)) = prs_persistent s).
      { unfold power_up. simpl. unfold retries in Hr. rewrite Hr.
        destruct (prs_persistent s). simpl in *. by subst. }
      specialize (IH (power_up (prs_persistent s))). unfold is_set, retries in IH.
      rewrite Hp in IH. specialize (IH Hset Hr). by destruct (run _ events).
Qed.

Lemma blocked_pin_stays_blocked_witness :
  let p := set_pp_pin_retries (set_pp_pin_hash PersistentPinState_default (Some [1])) 0 in
  snd (run (power_up p) [EAttempt (Some [1]); EPowerCycle; EAttempt (Some [1])]) = 0%nat.
Proof.
  intros p.
  exact (proj1 (blocked_pin_stays_blocked (power_up p)
    [EAttempt (Some [1]); EPowerCycle; EAttempt (Some [1])]
    eq_refl eq_refl)).
Defined.
