(* ===== verification/Token.v ===== *)
(** * The pinUvAuthToken ([ctap/pin/token.rs]) and the PIN state around it
    ([ctap/pin/state.rs], [PinState])

    One token at most is in use.  Its usage timer is evaluated whenever the
    token is looked at; every operation takes the clock reading [now] its
    source takes from the engine's clock. *)

From S2P Require Import Prelude Constants Crypto ConcreteCrypto Records PinRetry.

(** [Duration]s are nanoseconds. *)
Definition from_secs (n : Z) : Z := n * 1000000000.

Definition INITIAL_USAGE_TIME_LIMIT : Z := from_secs 30.

Definition USER_PRESENT_TIME_LIMIT : Z := from_secs 30.

Definition MAX_USAGE_TIME_PERIOD : Z := from_secs 600.

(** [ctap/pin/permissions.rs]. *)
Definition PIN_PERMISSION_MC : Z := 0x01.

Definition PIN_PERMISSION_GA : Z := 0x02.

Definition PIN_PERMISSION_CM : Z := 0x04.

Definition PIN_PERMISSION_LBW : Z := 0x10.

Definition PIN_PERMISSION_ACFG : Z := 0x20.

Definition PIN_PERMISSION_PCMR : Z := 0x40.

Inductive TokenOrigin : Type := LegacyGetPinToken | PermissionBearing.

#[export] Instance TokenOrigin_eq_dec : EqDecision TokenOrigin.
Proof. solve_decision. Defined.

Record TokenGrant : Type := {
  grant_origin : TokenOrigin;
  grant_permissions : Z;
  grant_rp_id : option bytes
}.

Record InUseToken : Type := {
  tk_value : bytes;
  tk_protocol : PinProtocol;
  tk_origin : option TokenOrigin;
  tk_permissions : Z;
  tk_permissions_rp_id : option bytes;
  tk_started_at : Z;
  tk_id : Z;
  tk_used : bool;
  tk_user_present : bool;
  tk_user_verified : bool
}.

Record PinUvAuthTokenState : Type := {
  tks_in_use : option InUseToken;
  tks_issued : Z
}.

#[export] Instance InUseToken_eq_dec : EqDecision InUseToken.
Proof. solve_decision. Defined.

#[export] Instance PinUvAuthTokenState_eq_dec : EqDecision PinUvAuthTokenState.
Proof. solve_decision. Defined.

Definition token_default : PinUvAuthTokenState := {| tks_in_use := None; tks_issued := 0 |}.

Definition with_in_use (s : PinUvAuthTokenState) (t : option InUseToken) : PinUvAuthTokenState :=
  {| tks_in_use := t; tks_issued := tks_issued s |}.

Section Operations.

Context `{Crypto}.

Definition begin_using (now : Z) (protocol : PinProtocol) (value : bytes) (user_is_present : bool)
    (grant : TokenGrant) (s : PinUvAuthTokenState) : PinUvAuthTokenState :=
  let issued := u64_wrapping_add (tks_issued s) 1 in
  {| tks_issued := issued;
     tks_in_use := Some {|
       tk_value := value; tk_protocol := protocol; tk_origin := Some (grant_origin grant);
       tk_permissions := grant_permissions grant; tk_permissions_rp_id := grant_rp_id grant;
       tk_started_at := now; tk_id := issued; tk_used := false;
       tk_user_present := user_is_present; tk_user_verified := true |} |}.

Definition secret_matches (candidate : bytes) (s : PinUvAuthTokenState) : bool :=
  is_some_and (tks_in_use s) (fun t => bytes_eqb (tk_value t) candidate).

Definition stop_using (s : PinUvAuthTokenState) : PinUvAuthTokenState := with_in_use s None.

Definition clear_user_present (t : InUseToken) : InUseToken := {|
  tk_value := tk_value t; tk_protocol := tk_protocol t; tk_origin := tk_origin t;
  tk_permissions := tk_permissions t; tk_permissions_rp_id := tk_permissions_rp_id t;
  tk_started_at := tk_started_at t; tk_id := tk_id t; tk_used := tk_used t;
  tk_user_present := false; tk_user_verified := tk_user_verified t |}.

Definition mark_used (t : InUseToken) : InUseToken := {|
  tk_value := tk_value t; tk_protocol := tk_protocol t; tk_origin := tk_origin t;
  tk_permissions := tk_permissions t; tk_permissions_rp_id := tk_permissions_rp_id t;
  tk_started_at := tk_started_at t; tk_id := tk_id t; tk_used := true;
  tk_user_present := tk_user_present t; tk_user_verified := tk_user_verified t |}.

(** [pinUvAuthTokenUsageTimerObserver()]. *)
Definition observe (now : Z) (s : PinUvAuthTokenState) : PinUvAuthTokenState :=
  match tks_in_use s with
  | None => s
  | Some token =>
      let elapsed := saturating_sub now (tk_started_at token) in
      if (MAX_USAGE_TIME_PERIOD <=? elapsed)
         || (negb (tk_used token) && (INITIAL_USAGE_TIME_LIMIT <=? elapsed))
      then stop_using s
      else if USER_PRESENT_TIME_LIMIT <=? elapsed
           then with_in_use s (Some (clear_user_present token))
           else s
  end.

Definition token_verify (now : Z) (protocol : PinProtocol) (message signature : bytes)
    : M PinUvAuthTokenState unit Z := fun s0 =>
  let s := observe now s0 in
  match tks_in_use s with
  | None => (s, Err CTAP2_ERR_PIN_AUTH_INVALID)
  | Some token =>
      if negb (bool_decide (tk_protocol token = protocol)) then
        (s, Err CTAP2_ERR_PIN_AUTH_INVALID)
      else
        match verify protocol (tk_value token) message signature with
        | Err e => (s, Err e)
        | Ok _ => (with_in_use s (Some (mark_used token)), Ok tt)
        end
  end.

(** The getters observe the timer first, and so can change the state. *)
Definition user_present_flag (now : Z) (s0 : PinUvAuthTokenState) : PinUvAuthTokenState * bool :=
  let s := observe now s0 in (s, is_some_and (tks_in_use s) tk_user_present).

Definition in_use_id (now : Z) (s0 : PinUvAuthTokenState) : PinUvAuthTokenState * option Z :=
  let s := observe now s0 in (s, option_map tk_id (tks_in_use s)).

Definition user_verified_flag (now : Z) (s0 : PinUvAuthTokenState) : PinUvAuthTokenState * bool :=
  let s := observe now s0 in (s, is_some_and (tks_in_use s) tk_user_verified).

Definition consume_token (t : InUseToken) : InUseToken := {|
  tk_value := tk_value t; tk_protocol := tk_protocol t; tk_origin := None;
  tk_permissions := Z.land (tk_permissions t) PIN_PERMISSION_LBW;
  tk_permissions_rp_id := tk_permissions_rp_id t;
  tk_started_at := tk_started_at t; tk_id := tk_id t; tk_used := tk_used t;
  tk_user_present := false; tk_user_verified := false |}.

Definition consume_after_user_presence (now : Z) (s0 : PinUvAuthTokenState)
    : PinUvAuthTokenState :=
  let s := observe now s0 in with_in_use s (option_map consume_token (tks_in_use s)).

Definition token_origin_of (now : Z) (s0 : PinUvAuthTokenState)
    : PinUvAuthTokenState * option TokenOrigin :=
  let s := observe now s0 in
  (s, match tks_in_use s with Some t => tk_origin t | None => None end).

Definition has_permission (now permission : Z) (s0 : PinUvAuthTokenState)
    : PinUvAuthTokenState * bool :=
  let s := observe now s0 in
  (s, is_some_and (tks_in_use s) (fun t => negb (Z.land (tk_permissions t) permission =? 0))).

Definition permissions_rp_id (now : Z) (s0 : PinUvAuthTokenState)
    : PinUvAuthTokenState * option bytes :=
  let s := observe now s0 in
  (s, match tks_in_use s with Some t => tk_permissions_rp_id t | None => None end).

Definition bind_rp (rp_id : bytes) (t : InUseToken) : InUseToken := {|
  tk_value := tk_value t; tk_protocol := tk_protocol t; tk_origin := tk_origin t;
  tk_permissions := tk_permissions t; tk_permissions_rp_id := Some rp_id;
  tk_started_at := tk_started_at t; tk_id := tk_id t; tk_used := tk_used t;
  tk_user_present := tk_user_present t; tk_user_verified := tk_user_verified t |}.

Definition bind_permissions_rp_id (now : Z) (rp_id : bytes) (s0 : PinUvAuthTokenState)
    : PinUvAuthTokenState :=
  let s := observe now s0 in
  match tks_in_use s with
  | Some t => match tk_permissions_rp_id t with
              | None => with_in_use s (Some (bind_rp rp_id t))
              | Some _ => s
              end
  | None => s
  end.

(** [PinState::authorize_rp_operation], one clock reading for the whole
    check. *)
Definition authorize_rp_operation (now permission : Z) (rp_id : bytes)
    : M PinUvAuthTokenState unit Z := fun s0 =>
  let (s1, permitted) := has_permission now permission s0 in
  if negb permitted then (s1, Err CTAP2_ERR_PIN_AUTH_INVALID)
  else
    let (s2, bound) := permissions_rp_id now s1 in
    if is_some_and bound (fun b => negb (bytes_eqb b rp_id)) then
      (s2, Err CTAP2_ERR_PIN_AUTH_INVALID)
    else
      let (s3, verified) := user_verified_flag now s2 in
      if negb verified then (s3, Err CTAP2_ERR_PIN_AUTH_INVALID)
      else (bind_permissions_rp_id now rp_id s3, Ok tt).

End Operations.

(** ** Facts about the timer *)

Lemma observe_cases now s :
  (tks_in_use s = None /\ observe now s = s) \/
  exists t, tks_in_use s = Some t /\
    let e := saturating_sub now (tk_started_at t) in
    ((MAX_USAGE_TIME_PERIOD <= e \/ (tk_used t = false /\ INITIAL_USAGE_TIME_LIMIT <= e)) /\
       observe now s = stop_using s \/
     (e < MAX_USAGE_TIME_PERIOD /\ (tk_used t = true \/ e < INITIAL_USAGE_TIME_LIMIT)) /\
       (USER_PRESENT_TIME_LIMIT <= e /\ observe now s = with_in_use s (Some (clear_user_present t)) \/
        e < USER_PRESENT_TIME_LIMIT /\ observe now s = s)).
Proof.
  unfold observe. destruct (tks_in_use s) as [t|]; [right|by left].
  exists t. split; [done|].
  destruct (Z.leb_spec MAX_USAGE_TIME_PERIOD (saturating_sub now (tk_started_at t))); simpl;
    [left; auto|].
  destruct (tk_used t); simpl;
    destruct (Z.leb_spec INITIAL_USAGE_TIME_LIMIT (saturating_sub now (tk_started_at t))); simpl;
    destruct (Z.leb_spec USER_PRESENT_TIME_LIMIT (saturating_sub now (tk_started_at t)));
    first [left; split; [auto|reflexivity] | right; split; [auto|]; auto].
Qed.

(** What a token in use at [now] looks like after the timer is evaluated. *)
Lemma observe_in_use now s t' :
  tks_in_use (observe now s) = Some t' ->
  exists t, tks_in_use s = Some t /\ (t' = t \/ t' = clear_user_present t) /\
    saturating_sub now (tk_started_at t) < MAX_USAGE_TIME_PERIOD /\
    (tk_used t = true \/ saturating_sub now (tk_started_at t) < INITIAL_USAGE_TIME_LIMIT).
Proof.
  intros Ho. destruct (observe_cases now s) as [[Hn He]|(t & Ht & [[_ He]|[[Hm Hu] [[_ He]|[_ He]]]])];
    rewrite He in Ho; simpl in Ho.
  - congruence.
  - done.
  - injection Ho as <-. eauto 7.
  - assert (t' = t) as -> by congruence. eauto 7.
Qed.

Lemma observe_idempotent now s : observe now (observe now s) = observe now s.
Proof.
  destruct (observe_cases now s) as [[Hn ->]|(t & Ht & [[_ ->]|[[Hm Hu] [[Hp He]|[_ He]]]])].
  - unfold observe. by rewrite Hn.
  - done.
  - rewrite He. unfold observe. simpl.
    destruct (Z.leb_spec MAX_USAGE_TIME_PERIOD (saturating_sub now (tk_started_at t))); [lia|].
    simpl. replace (negb (tk_used t) && _) with false.
    2:{ symmetry. destruct Hu as [->|Hu]; [done|]. apply andb_false_iff. right. by apply Z.leb_gt. }
    by destruct (_ <=? _).
  - by rewrite He.
Qed.

Lemma observe_issued now s : tks_issued (observe now s) = tks_issued s.
Proof.
  by destruct (observe_cases now s) as [[Hn ->]|(t & Ht & [[_ ->]|[[Hm Hu] [[Hp ->]|[_ ->]]]])].
Qed.

(** ** Histories of one token *)

Section Traces.

Context `{Crypto}.

(** Everything that can happen to the token state short of issuing a new
    token. *)
Inductive token_op : Type :=
| TVerify (protocol : PinProtocol) (message signature : bytes)
| TAuthorize (permission : Z) (rp_id : bytes)
| TConsume
| TLook
| TBind (rp_id : bytes)
| TStop.

Definition token_step (now : Z) (op : token_op) (s : PinUvAuthTokenState) : PinUvAuthTokenState :=
  match op with
  | TVerify protocol message signature => fst (token_verify now protocol message signature s)
  | TAuthorize permission rp_id => fst (authorize_rp_operation now permission rp_id s)
  | TConsume => consume_after_user_presence now s
  | TLook => observe now s
  | TBind rp_id => bind_permissions_rp_id now rp_id s
  | TStop => stop_using s
  end.

Definition token_run (s : PinUvAuthTokenState) (ops : list (Z * token_op)) : PinUvAuthTokenState :=
  fold_left (fun s p => token_step (fst p) (snd p) s) ops s.

(** [t'] is a later state of the same issuance as [t]: same secret, protocol
    and start, no permission gained, a binding never changed, a cleared
    userVerified flag or origin never set again. *)
Record descends (t t' : InUseToken) : Prop := {
  de_value : tk_value t' = tk_value t;
  de_protocol : tk_protocol t' = tk_protocol t;
  de_started : tk_started_at t' = tk_started_at t;
  de_id : tk_id t' = tk_id t;
  de_permissions : forall p, Z.land (tk_permissions t') p <> 0 -> Z.land (tk_permissions t) p <> 0;
  de_rp : forall r, tk_permissions_rp_id t = Some r -> tk_permissions_rp_id t' = Some r;
  de_verified : tk_user_verified t = false -> tk_user_verified t' = false;
  de_present : tk_user_present t = false -> tk_user_present t' = false;
  de_origin : tk_origin t = None -> tk_origin t' = None;
  de_origin_kept : forall o, tk_origin t' = Some o -> tk_origin t = Some o
}.

#[export] Instance descends_preorder : PreOrder descends.
Proof.
  split.
  - intros t. by split.
  - intros a b c [] []. split; try congruence; eauto.
Qed.

Lemma descends_clear_user_present t : descends t (clear_user_present t).
Proof. by split. Qed.

Lemma descends_mark_used t : descends t (mark_used t).
Proof. by split. Qed.

Lemma land_submask a b p : Z.land (Z.land a b) p <> 0 -> Z.land a p <> 0.
Proof.
  intros Hn Hz. apply Hn. rewrite <- Z.land_assoc, (Z.land_comm b p), Z.land_assoc, Hz.
  apply Z.land_0_l.
Qed.

Lemma descends_consume t : descends t (consume_token t).
Proof. split; try done. intros p. apply land_submask. Qed.

Lemma descends_bind rp t : tk_permissions_rp_id t = None -> descends t (bind_rp rp t).
Proof. intros Hn. split; try done. intros r. congruence. Qed.

#[local] Hint Resolve descends_clear_user_present descends_mark_used descends_consume descends_bind : core.

(** [s'] holds nothing, or a later state of the token [s] holds. *)
Definition state_descends (s s' : PinUvAuthTokenState) : Prop :=
  forall t', tks_in_use s' = Some t' -> exists t, tks_in_use s = Some t /\ descends t t'.

#[export] Instance state_descends_preorder : PreOrder state_descends.
Proof.
  split.
  - intros s t Ht. exists t. split; [done|reflexivity].
  - intros a b c Hab Hbc t Ht. destruct (Hbc t Ht) as (t1 & H1 & D1).
    destruct (Hab t1 H1) as (t2 & H2 & D2). exists t2. split; [done|]. by etrans.
Qed.

Lemma state_descends_observe now s : state_descends s (observe now s).
Proof.
  intros t' Ht'. destruct (observe_in_use _ _ _ Ht') as (t & Ht & [->| ->] & _); exists t; auto.
  split; [done|reflexivity].
Qed.

Lemma state_descends_set s t t' :
  tks_in_use s = Some t -> descends t t' -> state_descends s (with_in_use s (Some t')).
Proof. intros Ht Hd u [= <-]. eauto. Qed.

Lemma state_descends_bind now rp s : state_descends s (bind_permissions_rp_id now rp s).
Proof.
  unfold bind_permissions_rp_id. transitivity (observe now s); [apply state_descends_observe|].
  destruct (tks_in_use (observe now s)) as [t|] eqn:Ht; [|reflexivity].
  destruct (tk_permissions_rp_id t) eqn:Hr; [reflexivity|]. eapply state_descends_set; eauto.
Qed.

Lemma state_descends_authorize now p rp s :
  state_descends s (fst (authorize_rp_operation now p rp s)).
Proof.
  unfold authorize_rp_operation, has_permission, permissions_rp_id, user_verified_flag.
  rewrite !observe_idempotent.
  repeat case_goal; simpl; try apply state_descends_observe.
  etrans; [apply state_descends_observe|]. apply state_descends_bind.
Qed.

Lemma token_step_descends now op s : state_descends s (token_step now op s).
Proof.
  destruct op as [protocol m sig|p rp| | |rp|]; simpl.
  - unfold token_verify. transitivity (observe now s); [apply state_descends_observe|].
    destruct (tks_in_use (observe now s)) as [t|] eqn:Ht; [|reflexivity].
    repeat case_goal; simpl; try reflexivity. eapply state_descends_set; eauto.
  - apply state_descends_authorize.
  - unfold consume_after_user_presence. transitivity (observe now s); [apply state_descends_observe|].
    destruct (tks_in_use (observe now s)) as [t|] eqn:Ht; simpl; [|by intros t].
    eapply state_descends_set; eauto.
  - apply state_descends_observe.
  - apply state_descends_bind.
  - by intros t.
Qed.

Lemma token_run_descends s ops : state_descends s (token_run s ops).
Proof.
  revert s. induction ops as [|[now op] ops IH]; intros s; [reflexivity|].
  etrans; [apply (token_step_descends now op)|apply IH].
Qed.

(** The token issued at [start] has verified nothing yet. *)
Definition unused_since (start : Z) (s : PinUvAuthTokenState) : Prop :=
  forall t, tks_in_use s = Some t -> tk_used t = false /\ tk_started_at t = start.

Lemma unused_since_observe start now s :
  unused_since start s -> unused_since start (observe now s).
Proof.
  intros Hu t' Ht'. destruct (observe_in_use _ _ _ Ht') as (t & Ht & [->| ->] & _); exact (Hu t Ht).
Qed.

(** ** What a successful verification and authorization need *)

Lemma token_verify_ok now protocol m sig s s' :
  token_verify now protocol m sig s = (s', Ok tt) ->
  exists t, tks_in_use s = Some t /\ tk_protocol t = protocol /\
    sig = authenticate protocol (tk_value t) m /\
    saturating_sub now (tk_started_at t) < MAX_USAGE_TIME_PERIOD /\
    (tk_used t = true \/ saturating_sub now (tk_started_at t) < INITIAL_USAGE_TIME_LIMIT) /\
    exists t', tks_in_use s' = Some t' /\ descends t t' /\ tk_used t' = true.
Proof.
  unfold token_verify. destruct (tks_in_use (observe now s)) as [t1|] eqn:Ht1; [|done].
  destruct (observe_in_use _ _ _ Ht1) as (t & Ht & Heq & Hmax & Hused).
  case_bool_decide as Hp; simpl; [|done].
  destruct (verify _ _ _ _) as [[]|] eqn:Hv; [|done]. intros [= <-].
  apply verify_ok_iff in Hv. exists t.
  assert (Hd : descends t t1) by (destruct Heq as [->| ->]; [reflexivity|auto]).
  rewrite <- (de_value _ _ Hd), <- (de_protocol _ _ Hd).
  split_and!; try done. simpl. eexists. split; [done|]. split; [|done].
  etrans; [exact Hd|auto].
Qed.

Lemma authorize_ok now permission rp s s' :
  authorize_rp_operation now permission rp s = (s', Ok tt) ->
  exists t, tks_in_use s = Some t /\ Z.land (tk_permissions t) permission <> 0 /\
    tk_user_verified t = true /\
    (tk_permissions_rp_id t = None \/ tk_permissions_rp_id t = Some rp) /\
    exists t', tks_in_use s' = Some t' /\ descends t t' /\ tk_permissions_rp_id t' = Some rp.
Proof.
  unfold authorize_rp_operation, has_permission, permissions_rp_id, user_verified_flag,
    bind_permissions_rp_id.
  rewrite !observe_idempotent.
  destruct (tks_in_use (observe now s)) as [t1|] eqn:Ht1; [|done]. simpl.
  destruct (observe_in_use _ _ _ Ht1) as (t & Ht & Heq & _).
  assert (Hd : descends t t1) by (destruct Heq as [->| ->]; [reflexivity|auto]).
  assert (Hsame : tk_permissions t1 = tk_permissions t /\ tk_user_verified t1 = tk_user_verified t /\
                  tk_permissions_rp_id t1 = tk_permissions_rp_id t)
    by (by destruct Heq as [->| ->]).
  destruct Hsame as (Hperm & Huvq & Hrp).
  destruct (Z.eqb_spec (Z.land (tk_permissions t1) permission) 0); [done|]. simpl.
  destruct (tk_permissions_rp_id t1) as [b|] eqn:Hb; simpl.
  - destruct (bytes_eqb b rp) eqn:Hbr; [|done]. apply bytes_eqb_spec in Hbr as ->. simpl.
    destruct (tk_user_verified t1) eqn:Huv; [|done]. simpl. intros [= <-].
    exists t. rewrite <- Hperm, <- Huvq, <- Hrp. split_and!; auto. exists t1. auto.
  - destruct (tk_user_verified t1) eqn:Huv; [|done]. simpl. intros [= <-].
    exists t. rewrite <- Hperm, <- Huvq, <- Hrp. split_and!; auto.
    eexists. split; [done|]. split; [|done]. etrans; [exact Hd|auto].
Qed.

(** ** The first use of a token *)

Lemma unused_since_bind start now rp s :
  unused_since start s -> unused_since start (bind_permissions_rp_id now rp s).
Proof.
  intros Ho%(unused_since_observe start now s).
  unfold bind_permissions_rp_id. destruct (tks_in_use (observe now s)) as [t|] eqn:Ht; [|done].
  destruct (tk_permissions_rp_id t); [done|]. intros u [= <-]. exact (Ho t Ht).
Qed.

(** Only a verification that succeeds uses a token. *)
Lemma token_step_unused start now op s :
  unused_since start s ->
  unused_since start (token_step now op s) \/
  exists protocol m sig, op = TVerify protocol m sig /\ snd (token_verify now protocol m sig s) = Ok tt.
Proof.
  intros Hu. pose proof (unused_since_observe start now s Hu) as Ho.
  destruct op as [protocol m sig|p rp| | |rp|]; simpl.
  - destruct (token_verify now protocol m sig s) as [s' [[]|e]] eqn:Hv; simpl; [right; exists protocol, m, sig; by rewrite Hv|left].
    unfold token_verify in Hv. revert Hv. repeat case_goal; by intros [= <- _].
  - left. unfold authorize_rp_operation, has_permission, permissions_rp_id, user_verified_flag.
    rewrite !observe_idempotent. repeat case_goal; simpl; try done. by apply unused_since_bind.
  - left. unfold consume_after_user_presence. intros t Ht. simpl in Ht.
    destruct (tks_in_use (observe now s)) as [t1|] eqn:Ht1; [|done]. injection Ht as <-.
    exact (Ho t1 Ht1).
  - by left.
  - left. by apply unused_since_bind.
  - left. by intros t.
Qed.

(** A token in use that was used, was used by a verification of the run that
    succeeded on the token as yet unused. *)
Lemma token_run_used start s ops t :
  unused_since start s -> tks_in_use (token_run s ops) = Some t -> tk_used t = true ->
  exists before n protocol m sig after, ops = before ++ (n, TVerify protocol m sig) :: after /\
    unused_since start (token_run s before) /\
    snd (token_verify n protocol m sig (token_run s before)) = Ok tt.
Proof.
  revert s. induction ops as [|[n op] ops IH]; intros s Hu Ht Hused.
  - destruct (Hu t Ht) as [Hf _]. congruence.
  - destruct (token_step_unused start n op s Hu) as [Hu'|(protocol & m & sig & -> & Hok)].
    + destruct (IH _ Hu' Ht Hused) as (before & n' & protocol & m & sig & after & -> & Hub & Hok).
      by exists ((n, op) :: before), n', protocol, m, sig, after.
    + by exists [], n, protocol, m, sig, ops.
Qed.

(** ** Properties *)

(** C9: A pinUvAuthToken issued at time [start] authenticates nothing from ten
    minutes on, and nothing at all from 30 seconds on unless one of the
    operations since it was issued was a verification of it that succeeded before
    those 30 seconds were over, with the MAC of its secret: whatever operations
    ran in between (failed verifications included), a verification that succeeds
    happened before those limits, under the protocol the token was issued over
    and with the MAC of its secret. *)
Theorem token_lifetime (start now : Z) protocol value present grant s0
    (ops : list (Z * token_op)) protocol' m sig s' :
  let issued := begin_using start protocol value present grant s0 in
  token_verify now protocol' m sig (token_run issued ops) = (s', Ok tt) ->
  now - start < MAX_USAGE_TIME_PERIOD /\
  protocol' = protocol /\ sig = authenticate protocol value m /\
  (now - start < INITIAL_USAGE_TIME_LIMIT \/
   exists before n m1 after,
     ops = before ++ (n, TVerify protocol m1 (authenticate protocol value m1)) :: after /\
     n - start < INITIAL_USAGE_TIME_LIMIT /\
     snd (token_verify n protocol m1 (authenticate protocol value m1) (token_run issued before)) = Ok tt).
Proof.
  intros issued Hv. apply token_verify_ok in Hv as (t & Ht & Hp & Hs & Hmax & Hused & _).
  assert (Hof : forall pre u, tks_in_use (token_run issued pre) = Some u ->
            tk_value u = value /\ tk_protocol u = protocol /\ tk_started_at u = start).
  { intros pre u Hu. destruct (token_run_descends _ pre _ Hu) as (t0 & [= <-] & [Hv' Hp' Hst' _ _ _ _ _ _ _]). done. }
  destruct (Hof _ _ Ht) as (Hval & Hpr & Hst). rewrite Hst in *. rewrite Hval in Hs.
  rewrite Hpr in Hp. subst protocol'. unfold saturating_sub in *.
  split; [lia|]. split; [done|]. split; [done|].
  destruct Hused as [Hused|]; [right|left; lia].
  assert (Hunused : unused_since start issued) by (by intros u [= <-]).
  destruct (token_run_used _ _ _ _ Hunused Ht Hused) as (before & n & p1 & m1 & sig1 & after & Hops & Hub & Hok).
  assert (exists s1, token_verify n p1 m1 sig1 (token_run issued before) = (s1, Ok tt)) as [s1 Hv1]
    by (revert Hok; destruct (token_verify n p1 m1 sig1 _) as [s1 r1]; intros Hr; exists s1; by f_equal).
  apply token_verify_ok in Hv1 as (u & Hu & Hp1 & Hs1 & _ & Hlim & _).
  destruct (Hof _ _ Hu) as (Hval1 & Hpr1 & Hst1). destruct (Hub _ Hu) as [Hf _].
  rewrite Hval1 in Hs1. rewrite Hpr1 in Hp1. subst p1 sig1. rewrite Hst1 in Hlim.
  exists before, n, m1, after. split; [done|]. split; [|done].
  destruct Hlim; [congruence|unfold saturating_sub in *; lia].
Qed.

(** Once user presence consumed a token, no sequence of operations makes it
    authorize a registration or sign-in again, for any relying party, nor
    carries any permission other than large-blob writes: only a newly issued
    token does. *)
Theorem consumed_token_authorizes_nothing (t0 now : Z) (s : PinUvAuthTokenState)
    (ops : list (Z * token_op)) permission rp :
  let s1 := token_run (consume_after_user_presence t0 s) ops in
  snd (authorize_rp_operation now permission rp s1) = Err CTAP2_ERR_PIN_AUTH_INVALID /\
  (Z.land permission PIN_PERMISSION_LBW = 0 -> snd (has_permission now permission s1) = false) /\
  snd (token_origin_of now s1) = None.
Proof.
  intros s1.
  assert (Hs1 : forall t, tks_in_use s1 = Some t ->
    tk_user_verified t = false /\ tk_origin t = None /\
    (Z.land permission PIN_PERMISSION_LBW = 0 -> Z.land (tk_permissions t) permission = 0)).
  { intros t Ht. apply token_run_descends in Ht as (tc & Htc & Hd).
    unfold consume_after_user_presence in Htc. simpl in Htc.
    destruct (tks_in_use (observe t0 s)) as [t1|]; [|done]. simpl in Htc. injection Htc as <-.
    split_and!; [by apply (de_verified _ _ Hd)|by apply (de_origin _ _ Hd)|].
    intros Hz. destruct (decide (Z.land (tk_permissions t) permission = 0)) as [|Hn]; [done|].
    apply (de_permissions _ _ Hd) in Hn. simpl in Hn. exfalso. apply Hn.
    rewrite <- Z.land_assoc, (Z.land_comm PIN_PERMISSION_LBW), Hz. apply Z.land_0_r. }
  assert (Hobs : forall t', tks_in_use (observe now s1) = Some t' ->
    exists t, tks_in_use s1 = Some t /\ descends t t' /\ tk_permissions t' = tk_permissions t).
  { intros t' Ht'. destruct (observe_in_use _ _ _ Ht') as (t & Ht & [->| ->] & _);
      exists t; split_and!; auto; reflexivity. }
  split_and!.
  - destruct (authorize_rp_operation now permission rp s1) as [s' [[]|e]] eqn:Ha; simpl.
    + apply authorize_ok in Ha as (t & Ht & _ & Hu & _). apply Hs1 in Ht as [Hf _]. congruence.
    + revert Ha. unfold authorize_rp_operation. repeat case_goal; by intros [= <- <-].
  - intros Hz. unfold has_permission. simpl.
    destruct (tks_in_use (observe now s1)) as [t'|] eqn:Ht'; [|done]. simpl.
    destruct (Hobs t' eq_refl) as (t & Ht & _ & ->). destruct (Hs1 t Ht) as (_ & _ & Hp).
    by rewrite Hp.
  - unfold token_origin_of. simpl.
    destruct (tks_in_use (observe now s1)) as [t'|] eqn:Ht'; [|done].
    destruct (Hobs t' eq_refl) as (t & Ht & Hd & _). destruct (Hs1 t Ht) as (_ & Ho & _).
    by apply (de_origin _ _ Hd).
Qed.

(** A token is bound to the first relying party it authorizes: after a
    successful authorization for [rp], and whatever operations follow, an
    authorization for another relying party fails until a new token is
    issued. *)
Theorem token_bound_to_rp (now now' permission permission' : Z) (rp rp' : bytes)
    (s s1 s2 : PinUvAuthTokenState) (ops : list (Z * token_op)) :
  authorize_rp_operation now permission rp s = (s1, Ok tt) ->
  authorize_rp_operation now' permission' rp' (token_run s1 ops) = (s2, Ok tt) ->
  rp' = rp.
Proof.
  intros H1 H2. apply authorize_ok in H1 as (_ & _ & _ & _ & _ & t1 & Ht1 & _ & Hrp).
  apply authorize_ok in H2 as (t & Ht & _ & _ & Hb & _).
  apply token_run_descends in Ht as (t1' & Ht1' & Hd).
  rewrite Ht1 in Ht1'. injection Ht1' as <-.
  rewrite (de_rp _ _ Hd _ Hrp) in Hb. destruct Hb as [|Hb]; congruence.
Qed.

End Traces.

(** ** Concrete runs *)

Module TokenWitness.

Definition grant : TokenGrant :=
  {| grant_origin := PermissionBearing; grant_permissions := 3; grant_rp_id := None |}.

Definition issued : PinUvAuthTokenState :=
  begin_using (from_secs 5) V2 (repeat 7 32) false grant token_default.

Definition mac : bytes := authenticate V2 (repeat 7 32) [1; 2].

(** Verified at 20 s, the token is still good at 55 s; with only a wrong MAC at
    20 s it is not. *)
Definition used_early : list (Z * token_op) :=
  [(from_secs 15, TVerify V2 [1; 2] []); (from_secs 20, TVerify V2 [1; 2] mac)].

Lemma token_lifetime_witness :
  from_secs 55 - from_secs 5 < MAX_USAGE_TIME_PERIOD /\
  snd (token_verify (from_secs 55) V2 [1; 2] mac
         (token_run issued [(from_secs 20, TVerify V2 [1; 2] [])])) = Err CTAP2_ERR_PIN_AUTH_INVALID.
Proof.
  split; [|vm_compute; reflexivity].
  refine (proj1 (token_lifetime (from_secs 5) (from_secs 55) V2 (repeat 7 32) false
    grant token_default used_early V2 [1; 2] mac
    (fst (token_verify (from_secs 55) V2 [1; 2] mac (token_run issued used_early))) _)).
  vm_compute. reflexivity.
Defined.

Lemma token_bound_to_rp_witness :
  let s1 := fst (authorize_rp_operation (from_secs 6) PIN_PERMISSION_GA [65] issued) in
  snd (authorize_rp_operation (from_secs 7) PIN_PERMISSION_GA [66] s1)
    = Err CTAP2_ERR_PIN_AUTH_INVALID /\ [65] = [65].
Proof.
  intros s1. split; [vm_compute; reflexivity|].
  apply (token_bound_to_rp (from_secs 6) (from_secs 7) PIN_PERMISSION_GA PIN_PERMISSION_GA [65] [65]
    issued s1 (fst (authorize_rp_operation (from_secs 7) PIN_PERMISSION_GA [65] s1))
    [(from_secs 7, TLook)]); vm_compute; reflexivity.
Defined.

End TokenWitness.
