(* ===== verification/Cbor.v ===== *)
(** * CBOR: wire scanning and request parameters
    ([ctap/cbor.rs], [ctap/request.rs], [cbor.rs])

    The scanners work on the received bytes and decide which requests are in
    the CTAP2 canonical form; the accessors read decoded values.  ciborium's
    reader and writer are parameters (class [Ciborium]). *)

From S2P Require Import Prelude Constants Alg.

(** ** Decoded values (ciborium's [Value]) *)

(** A float is its 64 bits; text is UTF-8 bytes. *)
Inductive Value : Type :=
| VInteger (n : Z)
| VBytes (b : bytes)
| VFloat (bits : Z)
| VText (t : bytes)
| VBool (b : bool)
| VNull
| VTag (tag : Z) (v : Value)
| VArray (items : list Value)
| VMap (entries : list (Value * Value)).

Definition Entries : Type := list (Value * Value).

Class Ciborium : Type := {
  into_writer : Value -> bytes;
  from_reader : bytes -> option Value
}.

Definition float_is_nan (bits : Z) : bool :=
  (Z.land bits 0x7FF0000000000000 =? 0x7FF0000000000000)
  && negb (Z.land bits 0x000FFFFFFFFFFFFF =? 0).

Definition float_is_zero (bits : Z) : bool := Z.land bits 0x7FFFFFFFFFFFFFFF =? 0.

(** [f64 == f64]. *)
Definition float_eqb (a b : Z) : bool :=
  negb (float_is_nan a) && negb (float_is_nan b)
  && ((a =? b) || (float_is_zero a && float_is_zero b)).

(** [Value: PartialEq]. *)
Fixpoint value_eqb (a b : Value) : bool :=
  match a, b with
  | VInteger x, VInteger y => x =? y
  | VBytes x, VBytes y => bytes_eqb x y
  | VFloat x, VFloat y => float_eqb x y
  | VText x, VText y => bytes_eqb x y
  | VBool x, VBool y => Bool.eqb x y
  | VNull, VNull => true
  | VTag t x, VTag u y => (t =? u) && value_eqb x y
  | VArray xs, VArray ys =>
      (fix go xs ys := match xs, ys with
        | [], [] => true
        | x :: xs', y :: ys' => value_eqb x y && go xs' ys'
        | _, _ => false
        end) xs ys
  | VMap xs, VMap ys =>
      (fix go xs ys := match xs, ys with
        | [], [] => true
        | (k, v) :: xs', (l, w) :: ys' => value_eqb k l && value_eqb v w && go xs' ys'
        | _, _ => false
        end) xs ys
  | _, _ => false
  end.

Definition map_get (map : Entries) (key : Value) : option Value :=
  option_map snd (find (fun e => value_eqb (fst e) key) map).

Definition int_key (n : Z) : Value := VInteger n.

Definition required (map : Entries) (key : Value) : result Value Z :=
  ok_or (map_get map key) CTAP2_ERR_MISSING_PARAMETER.

Definition required_bytes (map : Entries) (key : Value) : result bytes Z :=
  let? v := required map key in
  match v with VBytes b => Ok b | _ => Err CTAP2_ERR_CBOR_UNEXPECTED_TYPE end.

Definition required_map (map : Entries) (key : Value) : result Entries Z :=
  let? v := required map key in
  match v with VMap e => Ok e | _ => Err CTAP2_ERR_CBOR_UNEXPECTED_TYPE end.

Definition structure_member (structure : Entries) (name : bytes) : result Value Z :=
  ok_or (map_get structure (VText name)) CTAP2_ERR_CBOR_UNEXPECTED_TYPE.

Definition structure_text (structure : Entries) (name : bytes) : result bytes Z :=
  let? v := structure_member structure name in
  match v with VText t => Ok t | _ => Err CTAP2_ERR_CBOR_UNEXPECTED_TYPE end.

Definition structure_bytes (structure : Entries) (name : bytes) : result bytes Z :=
  let? v := structure_member structure name in
  match v with VBytes b => Ok b | _ => Err CTAP2_ERR_CBOR_UNEXPECTED_TYPE end.

Definition optional_structure_text (structure : Entries) (name : bytes) : result (option bytes) Z :=
  match map_get structure (VText name) with
  | None => Ok None
  | Some (VText t) => Ok (Some t)
  | Some _ => Err CTAP2_ERR_CBOR_UNEXPECTED_TYPE
  end.

(** ** Scanning *)

Definition MAX_NESTING : nat := 16.

(** [(acc << 8) | byte] over at most eight bytes. *)
Definition fold_argument (raw : bytes) : Z :=
  fold_left (fun acc b => Z.lor (Z.shiftl acc 8) b) raw 0.

(** [bytes.get(start..stop)]. *)
Definition get_slice (l : bytes) (start stop : nat) : option bytes :=
  if (start <=? stop)%nat && (stop <=? length l)%nat then Some (slice l start stop) else None.

(** Major type, argument, position after the header. *)
Definition header (bs : bytes) (pos : nat) : option (Z * Z * nat) :=
  match bs !! pos with
  | None => None
  | Some initial =>
      let major := Z.shiftr initial 5 in
      let info := Z.land initial 0x1f in
      if info <=? 23 then Some (major, info, (pos + 1)%nat)
      else if info <=? 27 then
        let size := Z.to_nat (Z.shiftl 1 (info - 24)) in
        match get_slice bs (pos + 1) (pos + 1 + size) with
        | None => None
        | Some raw => Some (major, fold_argument raw, (pos + 1 + size)%nat)
        end
      else None
  end.

(** The end of a string of [argument] bytes that starts at [stop]. *)
Definition string_end (bs : bytes) (stop : nat) (argument : Z) : option nat :=
  let e := Z.of_nat stop + argument in
  if 2 ^ 64 <=? e then None
  else if zlen bs <? e then None
  else Some (Z.to_nat e).

(** [for _ in 0..items { end = item(end)?; }].  Every item takes at least one
    byte, so the length of the input bounds the iterations; [loop_items_fuel]
    shows that a larger bound changes nothing. *)
Fixpoint loop_items (fuel : nat) (item : nat -> option nat) (items : Z) (pos : nat) : option nat :=
  if items <=? 0 then Some pos
  else match fuel with
       | O => None
       | S fuel' => match item pos with
                    | None => None
                    | Some e => loop_items fuel' item (items - 1) e
                    end
       end.

(** [argument] or [argument.checked_mul(2)]. *)
Definition child_count (major argument : Z) : option Z :=
  if major =? 4 then Some argument
  else if argument * 2 <? 2 ^ 64 then Some (argument * 2) else None.

(** [levels] is [MAX_NESTING + 1 - depth]: zero is [depth > MAX_NESTING]. *)
Fixpoint item_end (levels : nat) (bs : bytes) (pos : nat) : option nat :=
  match levels with
  | O => None
  | S levels' =>
      match header bs pos with
      | None => None
      | Some (major, argument, stop) =>
          if (major =? 0) || (major =? 1) || (major =? 7) then Some stop
          else if (major =? 2) || (major =? 3) then string_end bs stop argument
          else if (major =? 4) || (major =? 5) then
            match child_count major argument with
            | None => None
            | Some items => loop_items (S (length bs)) (item_end levels' bs) items stop
            end
          else item_end levels' bs stop
      end
  end.

(** The loop of [raw_map_value]: [found] is the first value under [key]. *)
Fixpoint raw_entries (fuel : nat) (bs : bytes) (key entries : Z) (pos : nat)
    (found : option bytes) : option (option bytes * nat) :=
  if entries <=? 0 then Some (found, pos)
  else match fuel with
       | O => None
       | S fuel' =>
           match item_end MAX_NESTING bs pos with
           | None => None
           | Some key_end =>
               match item_end MAX_NESTING bs key_end with
               | None => None
               | Some value_end =>
                   let is_key :=
                     match header bs pos with
                     | Some (major, argument, e) =>
                         (major =? 0) && (argument =? key) && (e =? key_end)%nat
                     | None => false
                     end in
                   let found' := if is_key && negb (is_some found)
                                 then Some (slice bs key_end value_end) else found in
                   raw_entries fuel' bs key (entries - 1) value_end found'
               end
           end
       end.

Definition raw_map_value (bs : bytes) (key : Z) : result (option bytes) unit :=
  match header bs 0 with
  | None => Err tt
  | Some (major, entries, pos) =>
      if negb (major =? 5) then Err tt
      else match raw_entries (S (length bs)) bs key entries pos None with
           | None => Err tt
           | Some (found, pos') => if (pos' =? length bs)%nat then Ok found else Err tt
           end
  end.

(** ** The canonical form *)

Definition first_major (l : bytes) : Z := Z.shiftr (hd 0 l) 5.

Definition canonical_key_order (left right : bytes) : comparison :=
  match Z.compare (first_major left) (first_major right) with
  | Eq => match Nat.compare (length left) (length right) with
          | Eq => bytes_cmp left right
          | c => c
          end
  | c => c
  end.

Definition is_ge (c : comparison) : bool := match c with Lt => false | _ => true end.

(** Whether the header's argument is in its shortest form. *)
Definition shortest (major info argument : Z) : bool :=
  if info =? 24 then (if major =? 7 then 32 <=? argument else 24 <=? argument)
  else if info =? 25 then 0xff <? argument
  else if info =? 26 then 0xffff <? argument
  else if info =? 27 then 0xffffffff <? argument
  else true.

(** The entry loop of a map; [item] scans one nested item. *)
Fixpoint loop_entries (fuel : nat) (bs : bytes) (item : nat -> option nat) (entries : Z)
    (previous_key : option bytes) (pos : nat) : option nat :=
  if entries <=? 0 then Some pos
  else match fuel with
       | O => None
       | S fuel' =>
           match item pos with
           | None => None
           | Some key_end =>
               let key := slice bs pos key_end in
               if is_some_and previous_key (fun p => is_ge (canonical_key_order p key)) then None
               else match item key_end with
                    | None => None
                    | Some e => loop_entries fuel' bs item (entries - 1) (Some key) e
                    end
           end
       end.

(** [levels] is [MAX_NESTING - depth]: containers need one more. *)
Fixpoint canonical_item_end (levels : nat) (bs : bytes) (pos : nat) : option nat :=
  match bs !! pos with
  | None => None
  | Some initial =>
      let major := Z.shiftr initial 5 in
      let info := Z.land initial 0x1f in
      if (major =? 7) && (25 <=? info) && (info <=? 27) then
        let e := (pos + 1 + Z.to_nat (Z.shiftl 1 (info - 24)))%nat in
        if (e <=? length bs)%nat then Some e else None
      else
        match header bs pos with
        | None => None
        | Some (_, argument, stop) =>
            if negb (shortest major info argument) then None
            else if (major =? 0) || (major =? 1) || (major =? 7) then Some stop
            else if (major =? 2) || (major =? 3) then string_end bs stop argument
            else if major =? 4 then
              match levels with
              | O => None
              | S l => loop_items (S (length bs)) (canonical_item_end l bs) argument stop
              end
            else if major =? 5 then
              match levels with
              | O => None
              | S l => loop_entries (S (length bs)) bs (canonical_item_end l bs) argument None stop
              end
            else None
        end
  end.

Definition UNDEFINED : Z := 0xF7.

(** The copy loop over the children of an array or map. *)
Fixpoint loop_copy (fuel : nat) (item : nat -> option (nat * bytes)) (items : Z) (pos : nat)
    : option (nat * bytes) :=
  if items <=? 0 then Some (pos, [])
  else match fuel with
       | O => None
       | S fuel' =>
           match item pos with
           | None => None
           | Some (e, out) =>
               match loop_copy fuel' item (items - 1) e with
               | None => None
               | Some (e', out') => Some (e', out ++ out')
               end
           end
       end.

(** What is appended to [out] is returned with the end position.  [levels]
    bounds the recursion; input that passed [canonical_item_end] at [levels]
    never reaches the bound ([canonical_copy]). *)
Fixpoint copy_undefined (levels : nat) (bs : bytes) (pos : nat) : option (nat * bytes) :=
  match header bs pos with
  | None => None
  | Some (major, argument, header_end) =>
      let info := Z.land (nth pos bs 0) 0x1f in
      if (major =? 7) && ((info <? 20) || (info =? 24)) then Some (header_end, [UNDEFINED])
      else if (major =? 4) || (major =? 5) then
        match child_count major argument, levels with
        | Some items, S l =>
            match loop_copy (S (length bs)) (copy_undefined l bs) items header_end with
            | None => None
            | Some (e, out) => Some (e, slice bs pos header_end ++ out)
            end
        | _, _ => None
        end
      else
        match item_end (S MAX_NESTING) bs pos with
        | None => None
        | Some e => Some (e, slice bs pos e)
        end
  end.

Section Decode.

Context `{Ciborium}.

Definition request_parameters (payload : bytes) : result Entries Z :=
  if negb (bool_decide (canonical_item_end MAX_NESTING payload 0 = Some (length payload))) then
    Err CTAP2_ERR_INVALID_CBOR
  else
    match copy_undefined MAX_NESTING payload 0 with
    | Some (e, decodable) =>
        if negb (e =? length payload)%nat then Err CTAP2_ERR_INVALID_CBOR
        else match from_reader decodable with
             | Some (VMap entries) => Ok entries
             | _ => Err CTAP2_ERR_INVALID_CBOR
             end
    | None => Err CTAP2_ERR_INVALID_CBOR
    end.

Definition encode_key (key : Value) : bytes := into_writer key.

Definition canonical_key_cmp (left right : Value) : comparison :=
  canonical_key_order (encode_key left) (encode_key right).

(** [sort_by] is stable: a new entry goes before the first strictly greater
    one, inserted from the right. *)
Fixpoint insert_entry (e : Value * Value) (l : Entries) : Entries :=
  match l with
  | [] => [e]
  | x :: l' => match canonical_key_cmp (fst e) (fst x) with
               | Gt => x :: insert_entry e l'
               | _ => e :: x :: l'
               end
  end.

Definition canonical_sort (entries : Entries) : Entries := fold_right insert_entry [] entries.

Definition canonical_map (entries : Entries) : Value := VMap (canonical_sort entries).

Definition encode_extensions (entries : Entries) : result (option bytes) Z :=
  match entries with
  | [] => Ok None
  | _ => Ok (Some (into_writer (canonical_map entries)))
  end.

End Decode.

(** [cbor.rs], [encoded_len_bound]. *)
Fixpoint encoded_len_bound (v : Value) : Z :=
  9 + match v with
      | VBytes b => zlen b
      | VText t => zlen t
      | VArray items => fold_right (fun i acc => encoded_len_bound i + acc) 0 items
      | VMap entries =>
          fold_right (fun e acc => encoded_len_bound (fst e) + encoded_len_bound (snd e) + acc)
            0 entries
      | VTag _ inner => encoded_len_bound inner
      | _ => 0
      end.
