(* ===== verification/ConcreteCbor.v ===== *)
(** * A concrete CBOR codec for the witnesses

    [ciborium] is a parameter of the model; this instance encodes and decodes
    the item kinds CTAP uses (definite lengths, no floats), so that witnesses
    can run whole handlers on encoded requests. *)

From S2P Require Import Prelude Cbor.

Definition head_bytes (major n : Z) : bytes :=
  let m := Z.shiftl major 5 in
  if n <? 24 then [Z.lor m n]
  else if n <? 2 ^ 8 then Z.lor m 24 :: be_bytes 1 n
  else if n <? 2 ^ 16 then Z.lor m 25 :: be_bytes 2 n
  else if n <? 2 ^ 32 then Z.lor m 26 :: be_bytes 4 n
  else Z.lor m 27 :: be_bytes 8 n.

Fixpoint write_value (v : Value) : bytes :=
  match v with
  | VInteger n => if 0 <=? n then head_bytes 0 n else head_bytes 1 (- n - 1)
  | VBytes b => head_bytes 2 (zlen b) ++ b
  | VText t => head_bytes 3 (zlen t) ++ t
  | VArray l => head_bytes 4 (zlen l) ++ concat (map write_value l)
  | VMap l => head_bytes 5 (zlen l)
                ++ concat (map (fun kv : Value * Value => let (k, x) := kv in write_value k ++ write_value x) l)
  | VTag t x => head_bytes 6 t ++ write_value x
  | VBool b => [if b then 0xF5 else 0xF4]
  | VNull => [0xF6]
  | VFloat bits => 0xFB :: be_bytes 8 bits
  end.

Fixpoint read_many {A} (n : nat) (item : bytes -> option (A * bytes)) (l : bytes)
    : option (list A * bytes) :=
  match n with
  | O => Some ([], l)
  | S n' =>
      match item l with
      | None => None
      | Some (x, r) =>
          match read_many n' item r with
          | None => None
          | Some (xs, r') => Some (x :: xs, r')
          end
      end
  end.

Definition read_pair (item : bytes -> option (Value * bytes)) (l : bytes)
    : option ((Value * Value) * bytes) :=
  match item l with
  | None => None
  | Some (k, r) => match item r with None => None | Some (v, r') => Some ((k, v), r') end
  end.

Fixpoint read_value (levels : nat) (l : bytes) : option (Value * bytes) :=
  match levels with
  | O => None
  | S levels' =>
      match header l 0 with
      | None => None
      | Some (major, n, stop) =>
          let r := drop stop l in
          let k := Z.to_nat n in
          if major =? 0 then Some (VInteger n, r)
          else if major =? 1 then Some (VInteger (- n - 1), r)
          else if major =? 2 then
            if (length r <? k)%nat then None else Some (VBytes (take k r), drop k r)
          else if major =? 3 then
            if (length r <? k)%nat then None else Some (VText (take k r), drop k r)
          else if major =? 4 then
            if (length r <? k)%nat then None
            else option_map (fun p => (VArray (fst p), snd p)) (read_many k (read_value levels') r)
          else if major =? 5 then
            if (length r <? k)%nat then None
            else option_map (fun p => (VMap (fst p), snd p))
                   (read_many k (read_pair (read_value levels')) r)
          else match l with
               | 0xF5 :: r' => Some (VBool true, r')
               | 0xF4 :: r' => Some (VBool false, r')
               | 0xF6 :: r' | 0xF7 :: r' => Some (VNull, r')
               | _ => None
               end
      end
  end.

#[export] Instance concrete_ciborium : Ciborium := {|
  into_writer := write_value;
  from_reader := fun b => match read_value 17 b with Some (v, []) => Some v | _ => None end
|}.

(** It reads back a request it wrote. *)
Example codec_example :
  from_reader (into_writer (VMap [(VInteger 1, VInteger 300); (VInteger 2, VBytes [1; 2]);
    (VInteger 9, VArray [VText [97]; VBool true])])) =
  Some (VMap [(VInteger 1, VInteger 300); (VInteger 2, VBytes [1; 2]);
    (VInteger 9, VArray [VText [97]; VBool true])]).
Proof. vm_compute. reflexivity. Qed.
