(* ===== verification/CborProofs.v ===== *)
(** * Facts about the CBOR scanners

    Every scanner moves forward and stays inside the input, the iteration
    bounds are never what stops them, and on a canonical request the three
    scanners of [ctap/cbor.rs] agree. *)

From Stdlib Require Import Sorted.
From S2P Require Import Prelude Constants Cbor.

(** ** Headers *)

Lemma shiftr5_byte b : is_byte b -> 0 <= Z.shiftr b 5 <= 7.
Proof.
  intros Hb. unfold is_byte in Hb. rewrite Z.shiftr_div_pow2 by lia. change (2 ^ 5) with 32.
  split; [apply Z.div_pos; lia|]. assert (b / 32 < 8) by (apply Z.div_lt_upper_bound; lia). lia.
Qed.

Lemma header_spec bs pos m a stop :
  header bs pos = Some (m, a, stop) ->
  (pos < stop <= length bs)%nat /\
  (exists b, bs !! pos = Some b /\ m = Z.shiftr b 5 /\
     (Z.land b 0x1f <= 23 /\ a = Z.land b 0x1f /\ stop = (pos + 1)%nat \/
      24 <= Z.land b 0x1f <= 27)).
Proof.
  unfold header. destruct (bs !! pos) as [b|] eqn:Hb; [|done].
  pose proof (lookup_lt_Some _ _ _ Hb) as Hlt.
  destruct (Z.leb_spec (Z.land b 0x1f) 23).
  { intros [= <- <- <-]. split; [lia|]. exists b. split_and!; auto. }
  destruct (Z.leb_spec (Z.land b 0x1f) 27); [|done].
  unfold get_slice. destruct (_ && _) eqn:Hs; [|done].
  apply andb_true_iff in Hs as [_ Hs]. apply Nat.leb_le in Hs.
  intros [= <- <- <-]. split; [lia|]. exists b. split_and!; auto. right. lia.
Qed.

Lemma header_major bs pos m a stop :
  bytes_ok bs -> header bs pos = Some (m, a, stop) -> 0 <= m <= 7.
Proof.
  intros Hok Hh. apply header_spec in Hh as (_ & b & Hb & -> & _).
  apply shiftr5_byte. unfold bytes_ok in Hok. rewrite Forall_lookup in Hok. eauto.
Qed.

Lemma string_end_spec bs stop a e :
  0 <= a -> string_end bs stop a = Some e -> (stop <= e <= length bs)%nat.
Proof.
  unfold string_end, zlen. intros Ha. destruct (2 ^ 64 <=? _); [done|].
  destruct (Z.ltb_spec (Z.of_nat (length bs)) (Z.of_nat stop + a)); [done|].
  intros [= <-]. lia.
Qed.

Lemma fold_argument_nonneg raw : bytes_ok raw -> 0 <= fold_argument raw.
Proof.
  unfold fold_argument. assert (Hgen : forall acc, 0 <= acc -> bytes_ok raw ->
    0 <= fold_left (fun acc b => Z.lor (Z.shiftl acc 8) b) raw acc); [|intros; by apply Hgen].
  induction raw as [|b raw IH]; intros acc Hacc Hok; [done|].
  apply Forall_cons in Hok as [Hb Hok]. simpl. apply IH; [|done].
  apply Z.lor_nonneg. unfold is_byte in Hb. split; [by apply Z.shiftl_nonneg|lia].
Qed.

Lemma header_argument bs pos m a stop :
  bytes_ok bs -> header bs pos = Some (m, a, stop) -> 0 <= a.
Proof.
  intros Hok. unfold header. destruct (bs !! pos) as [b|] eqn:Hb; [|done].
  unfold bytes_ok in Hok. rewrite Forall_lookup in Hok.
  destruct (_ <=? 23).
  { intros [= <- <- <-]. apply Z.land_nonneg. right. lia. }
  destruct (_ <=? 27); [|done]. destruct (get_slice _ _ _) as [raw|] eqn:Hs; [|done].
  intros [= <- <- <-]. apply fold_argument_nonneg. unfold get_slice in Hs.
  destruct (_ && _); [|done]. injection Hs as <-. unfold slice.
  apply Forall_take, Forall_drop, Forall_lookup. done.
Qed.

(** ** Loops *)

(** A run of [n] items from [pos] to [stop]. *)
Inductive items_run (item : nat -> option nat) : Z -> nat -> nat -> Prop :=
| run_done n pos : n <= 0 -> items_run item n pos pos
| run_next n pos e stop :
    0 < n -> item pos = Some e -> items_run item (n - 1) e stop -> items_run item n pos stop.

(** [item] moves forward inside an input of [len] bytes. *)
Definition progress (len : nat) (item : nat -> option nat) : Prop :=
  forall pos e, item pos = Some e -> (pos < e <= len)%nat.

Lemma loop_items_run fuel item n pos e :
  loop_items fuel item n pos = Some e -> items_run item n pos e.
Proof.
  revert n pos. induction fuel as [|fuel IH]; intros n pos; simpl;
    destruct (Z.leb_spec n 0); try done; try (intros [= <-]; by constructor).
  destruct (item pos) as [e1|] eqn:Hi; [|done]. intros Hl.
  eapply run_next; eauto.
Qed.

Lemma items_run_loop len item n pos e fuel :
  progress len item -> items_run item n pos e -> (len - pos < fuel)%nat ->
  loop_items fuel item n pos = Some e.
Proof.
  intros Hp Hr. revert fuel. induction Hr as [n pos Hn|n pos e1 stop Hn Hi Hr IH]; intros fuel Hf.
  - destruct fuel; simpl; by rewrite (proj2 (Z.leb_le n 0) Hn).
  - destruct fuel as [|fuel]; [lia|]. simpl. rewrite (proj2 (Z.leb_gt n 0) Hn), Hi.
    apply Hp in Hi. apply IH. lia.
Qed.

(** The iteration bound is immaterial: any two bounds above the bytes left
    give the same answer. *)
Lemma loop_items_fuel len item n pos fuel1 fuel2 :
  progress len item -> (len - pos < fuel1)%nat -> (len - pos < fuel2)%nat ->
  loop_items fuel1 item n pos = loop_items fuel2 item n pos.
Proof.
  intros Hp H1 H2.
  destruct (loop_items fuel1 item n pos) as [e|] eqn:E1.
  - apply loop_items_run in E1. by erewrite (items_run_loop len).
  - destruct (loop_items fuel2 item n pos) as [e|] eqn:E2; [|done].
    apply loop_items_run in E2. by erewrite (items_run_loop len) in E1.
Qed.

Lemma items_run_bounds len item n pos e :
  progress len item -> items_run item n pos e -> (pos <= len)%nat ->
  (pos <= e <= len)%nat /\ (0 <= n -> n <= Z.of_nat e - Z.of_nat pos).
Proof.
  intros Hp Hr. induction Hr as [n pos Hn|n pos e1 stop Hn Hi Hr IH]; intros Hle; [lia|].
  apply Hp in Hi. destruct IH as [Hb Hc]; [lia|]. lia.
Qed.

(** Items that one scanner accepts, another that agrees with it accepts too. *)
Lemma items_run_mono (item item' : nat -> option nat) n pos e :
  (forall p q, item p = Some q -> item' p = Some q) ->
  items_run item n pos e -> items_run item' n pos e.
Proof. intros Hm Hr. induction Hr; [by constructor|]. eapply run_next; eauto. Qed.

#[local] Arguments loop_items : simpl never.

Lemma item_end_progress levels bs : bytes_ok bs -> progress (length bs) (item_end levels bs).
Proof.
  intros Hok. induction levels as [|l IH]; intros pos e; simpl; [done|].
  destruct (header bs pos) as [[[m a] stop]|] eqn:Hh; [|done].
  pose proof (header_argument _ _ _ _ _ Hok Hh) as Ha.
  apply header_spec in Hh as (Hstop & _).
  destruct (_ || _ || _); [intros [= <-]; lia|].
  destruct (_ || _). { intros Hs. apply string_end_spec in Hs; lia. }
  destruct (_ || _).
  - destruct (child_count m a) as [items|]; [|done]. intros Hl.
    apply loop_items_run in Hl. apply (items_run_bounds (length bs)) in Hl; [lia|done|lia].
  - intros He. apply IH in He. lia.
Qed.

(** ** The canonical scanner *)

(** The entries of a map: each encoded key with its encoded value, the keys
    strictly ascending. *)
Inductive entries_run (bs : bytes) (item : nat -> option nat)
    : Z -> option bytes -> nat -> nat -> list (bytes * bytes) -> Prop :=
| erun_done n prev pos : n <= 0 -> entries_run bs item n prev pos pos []
| erun_next n prev pos key_end e stop entries :
    0 < n -> item pos = Some key_end ->
    (forall p, prev = Some p -> canonical_key_order p (slice bs pos key_end) = Lt) ->
    item key_end = Some e ->
    entries_run bs item (n - 1) (Some (slice bs pos key_end)) e stop entries ->
    entries_run bs item n prev pos stop ((slice bs pos key_end, slice bs key_end e) :: entries).

Lemma loop_entries_run fuel bs item n prev pos e :
  loop_entries fuel bs item n prev pos = Some e ->
  exists keys, entries_run bs item n prev pos e keys.
Proof.
  revert n prev pos. induction fuel as [|fuel IH]; intros n prev pos; simpl;
    destruct (Z.leb_spec n 0); try done; try (intros [= <-]; eexists; by constructor).
  destruct (item pos) as [key_end|] eqn:Hk; [|done].
  destruct (is_some_and prev _) eqn:Hprev; [done|].
  destruct (item key_end) as [e1|] eqn:Hv; [|done]. intros Hl.
  destruct (IH _ _ _ Hl) as [keys Hr]. eexists. eapply erun_next; eauto.
  intros p ->. simpl in Hprev. by destruct (canonical_key_order p _).
Qed.

Lemma entries_run_items bs item n prev pos e keys :
  entries_run bs item n prev pos e keys -> 0 <= n -> items_run item (n * 2) pos e.
Proof.
  intros Hr Hn. induction Hr as [n prev pos Hle|n prev pos k e1 stop keys Hlt Hk _ Hv _ IH].
  - constructor. lia.
  - eapply run_next; [lia|exact Hk|]. eapply run_next; [lia|exact Hv|].
    replace (n * 2 - 1 - 1) with ((n - 1) * 2) by lia. apply IH. lia.
Qed.

#[local] Arguments loop_entries : simpl never.

Lemma canonical_progress levels bs :
  bytes_ok bs -> progress (length bs) (canonical_item_end levels bs).
Proof.
  intros Hok. induction levels as [|l IH]; intros pos e; simpl;
    destruct (bs !! pos) as [b|] eqn:Hb; try done;
    destruct (_ && _ && _);
    try (destruct (Nat.leb_spec (pos + 1 + Z.to_nat (Z.shiftl 1 (Z.land b 31 - 24))) (length bs));
         [intros [= <-]; lia|done]);
    destruct (header bs pos) as [[[m a] stop]|] eqn:Hh; try done;
    pose proof (header_argument _ _ _ _ _ Hok Hh) as Ha;
    apply header_spec in Hh as (Hstop & _);
    (destruct (negb _); [done|]); (destruct (_ || _ || _); [intros [= <-]; lia|]);
    (destruct (_ || _); [intros Hs; apply string_end_spec in Hs; lia|]);
    (destruct (_ =? 4); [|destruct (_ =? 5); [|done]]); try done.
  - intros Hl. apply loop_items_run in Hl.
    apply (items_run_bounds (length bs)) in Hl; [lia|done|lia].
  - intros Hl. apply loop_entries_run in Hl as [keys Hl]. apply entries_run_items in Hl; [|done].
    apply (items_run_bounds (length bs)) in Hl; [lia|done|lia].
Qed.

#[export] Hint Resolve item_end_progress canonical_progress : ctap.

(** ** The scanners agree *)

(** A float's header is its whole item. *)
Lemma float_header bs pos b :
  bs !! pos = Some b ->
  (Z.shiftr b 5 =? 7) && (25 <=? Z.land b 0x1f) && (Z.land b 0x1f <=? 27) = true ->
  (pos + 1 + Z.to_nat (Z.shiftl 1 (Z.land b 0x1f - 24)) <= length bs)%nat ->
  exists a, header bs pos =
    Some (7, a, (pos + 1 + Z.to_nat (Z.shiftl 1 (Z.land b 0x1f - 24)))%nat).
Proof.
  intros Hb Hfl Hle. bool_hyps. unfold header. rewrite Hb.
  destruct (Z.leb_spec (Z.land b 0x1f) 23); [lia|].
  destruct (Z.leb_spec (Z.land b 0x1f) 27); [|lia].
  unfold get_slice. rewrite (proj2 (Nat.leb_le _ _)), (proj2 (Nat.leb_le _ _)) by lia.
  simpl. rewrite H. eauto.
Qed.

(** What acceptance means, item kind by item kind. *)
Lemma canonical_cases levels bs pos e :
  bytes_ok bs -> canonical_item_end levels bs pos = Some e ->
  exists m a stop, header bs pos = Some (m, a, stop) /\ 0 <= a /\ (stop <= length bs)%nat /\
    ((m = 0 \/ m = 1 \/ m = 7) /\ e = stop \/
     (m = 2 \/ m = 3) /\ string_end bs stop a = Some e \/
     m = 4 /\ (exists l, levels = S l /\ items_run (canonical_item_end l bs) a stop e) \/
     m = 5 /\ (exists l keys, levels = S l /\
                 entries_run bs (canonical_item_end l bs) a None stop e keys)).
Proof.
  intros Hok Hc.
  assert (Hb : exists b, bs !! pos = Some b)
    by (destruct levels; simpl in Hc; destruct (bs !! pos); eauto; done).
  destruct Hb as [b Hb].
  destruct ((Z.shiftr b 5 =? 7) && (25 <=? Z.land b 0x1f) && (Z.land b 0x1f <=? 27)) eqn:Hfl.
  - assert (Hle : (pos + 1 + Z.to_nat (Z.shiftl 1 (Z.land b 0x1f - 24)) <= length bs)%nat /\
      e = (pos + 1 + Z.to_nat (Z.shiftl 1 (Z.land b 0x1f - 24)))%nat).
    { destruct levels; simpl in Hc; rewrite Hb, Hfl in Hc;
        destruct (Nat.leb_spec (pos + 1 + Z.to_nat (Z.shiftl 1 (Z.land b 0x1f - 24))) (length bs));
        try done; by injection Hc as <-. }
    destruct Hle as [Hle ->]. destruct (float_header bs pos b Hb Hfl Hle) as (a & Hh).
    exists 7, a. eexists. split; [exact Hh|]. split; [by eapply header_argument|].
    split; [lia|]. left. auto.
  - destruct (header bs pos) as [[[m a] stop]|] eqn:Hh;
      [|destruct levels; simpl in Hc; by rewrite Hb, Hfl, Hh in Hc].
    exists m, a, stop. split; [done|]. split; [by eapply header_argument|].
    pose proof (header_spec _ _ _ _ _ Hh) as (Hstop & b' & Hb' & Hm & _).
    assert (b' = b) as -> by congruence. split; [lia|].
    destruct levels as [|l]; simpl in Hc; rewrite Hb, Hfl, Hh, <- Hm in Hc;
      (destruct (negb (shortest _ _ _)); [done|]);
      (destruct ((m =? 0) || (m =? 1) || (m =? 7)) eqn:E1;
        [left; split; [bool_hyps; auto|congruence]|]);
      (destruct ((m =? 2) || (m =? 3)) eqn:E2; [right; left; split; [bool_hyps; auto|done]|]);
      right; right; (destruct (Z.eqb_spec m 4) as [->|]);
      [done|by destruct (m =? 5)| |].
    + left. split; [done|]. exists l. split; [done|]. by eapply loop_items_run.
    + destruct (Z.eqb_spec m 5) as [->|]; [|done]. right. split; [done|].
      apply loop_entries_run in Hc as [keys Hr]. eauto.
Qed.

Lemma items_in_bounds bs l a stop e :
  bytes_ok bs -> (stop <= length bs)%nat -> 0 <= a ->
  items_run (canonical_item_end l bs) a stop e -> a <= zlen bs.
Proof.
  intros Hok Hs Ha Hr. apply (items_run_bounds (length bs)) in Hr; auto with ctap.
  unfold zlen. lia.
Qed.

(** An input as Rust can hold it: fewer than [2^63] bytes. *)
Definition addressable (bs : bytes) : Prop := zlen bs < 2 ^ 63.

Lemma canonical_item_end_agrees levels bs pos e :
  bytes_ok bs -> addressable bs ->
  canonical_item_end levels bs pos = Some e -> item_end (S levels) bs pos = Some e.
Proof.
  intros Hok Hadr. revert pos e. induction levels as [|l IH]; intros pos e Hc;
    destruct (canonical_cases _ _ _ _ Hok Hc) as (m & a & stop & Hh & Ha & Hstop & Hcase);
    cbn [item_end]; rewrite Hh;
    destruct Hcase as [[Hm ->]|[[Hm Hs]|[[-> (l' & Hl & Hr)]|[-> (l' & keys & Hl & Hr)]]]];
    try (by destruct Hm as [->|[->| ->]]); try (by destruct Hm as [->| ->]); try done;
    injection Hl as <-.
  - apply (items_run_mono _ _ _ _ _ IH) in Hr.
    apply (items_run_loop (length bs) _ _ _ _ _ (item_end_progress (S l) bs Hok) Hr). lia.
  - apply entries_run_items in Hr; [|done].
    pose proof (items_in_bounds bs l (a * 2) stop e Hok Hstop ltac:(lia) Hr) as Hb.
    assert (Hcc : child_count 5 a = Some (a * 2)).
    { unfold child_count, addressable in *. simpl. by rewrite (proj2 (Z.ltb_lt _ _)) by lia. }
    rewrite Hcc. apply (items_run_mono _ _ _ _ _ IH) in Hr.
    apply (items_run_loop (length bs) _ _ _ _ _ (item_end_progress (S l) bs Hok) Hr). lia.
Qed.

Lemma item_end_mono levels bs pos e :
  bytes_ok bs -> item_end levels bs pos = Some e -> item_end (S levels) bs pos = Some e.
Proof.
  intros Hok. revert pos e. induction levels as [|l IH]; intros pos e Hi; [done|].
  cbn [item_end] in Hi |- *.
  destruct (header bs pos) as [[[m a] stop]|] eqn:Hh; [|done].
  apply header_spec in Hh as (Hstop & _).
  destruct (_ || _ || _); [done|]. destruct (_ || _); [done|]. destruct (_ || _).
  - destruct (child_count m a) as [items|]; [|done].
    apply loop_items_run in Hi. apply (items_run_mono _ _ _ _ _ IH) in Hi.
    apply (items_run_loop (length bs)); auto; [|lia]. apply (item_end_progress (S l) bs Hok).
  - by apply IH.
Qed.

Lemma item_end_mono_le l1 l2 bs pos e :
  bytes_ok bs -> (l1 <= l2)%nat -> item_end l1 bs pos = Some e -> item_end l2 bs pos = Some e.
Proof. intros Hok Hle Hi. induction Hle; [done|]. by apply item_end_mono. Qed.

(** ** Copying *)

Lemma loop_copy_run len item copy n pos e fuel :
  progress len item ->
  (forall p q, item p = Some q -> exists out, copy p = Some (q, out)) ->
  items_run item n pos e -> (len - pos < fuel)%nat ->
  exists out, loop_copy fuel copy n pos = Some (e, out).
Proof.
  intros Hp Hag Hr. revert fuel. induction Hr as [n pos Hn|n pos e1 stop Hn Hi Hr IH]; intros fuel Hf.
  - exists []. destruct fuel; simpl; by rewrite (proj2 (Z.leb_le n 0) Hn).
  - destruct fuel as [|fuel]; [lia|]. simpl. rewrite (proj2 (Z.leb_gt n 0) Hn).
    destruct (Hag _ _ Hi) as [out ->]. apply Hp in Hi.
    destruct (IH fuel) as [out' ->]; [lia|]. eauto.
Qed.

#[local] Arguments loop_copy : simpl never.

(** A leaf is copied as it is, or replaced by [undefined]. *)
Lemma copy_leaf levels bs pos e m a stop :
  header bs pos = Some (m, a, stop) -> item_end (S MAX_NESTING) bs pos = Some e ->
  m <> 4 -> m <> 5 -> (m = 7 -> e = stop) ->
  exists out, copy_undefined levels bs pos = Some (e, out).
Proof.
  intros Hh Hitem H4 H5 H7.
  assert (Hu : copy_undefined levels bs pos =
    if (m =? 7) && ((Z.land (nth pos bs 0) 0x1f <? 20) || (Z.land (nth pos bs 0) 0x1f =? 24))
    then Some (stop, [UNDEFINED]) else Some (e, slice bs pos e)).
  { destruct levels; cbn [copy_undefined]; rewrite Hh, Hitem;
      by rewrite (proj2 (Z.eqb_neq m 4) H4), (proj2 (Z.eqb_neq m 5) H5). }
  rewrite Hu. destruct (Z.eqb_spec m 7) as [E|E]; cbn [andb]; [|by eauto].
  rewrite (H7 E). destruct (_ || _); by eauto.
Qed.

(** The copy never gives up on canonical input, and ends where the scan did. *)
Lemma canonical_copy levels bs pos e :
  bytes_ok bs -> addressable bs -> (levels <= MAX_NESTING)%nat ->
  canonical_item_end levels bs pos = Some e ->
  exists out, copy_undefined levels bs pos = Some (e, out).
Proof.
  intros Hok Hadr. revert pos e. induction levels as [levels IH] using lt_wf_ind. intros pos e Hlev Hc.
  pose proof (canonical_item_end_agrees _ _ _ _ Hok Hadr Hc) as Hitem.
  apply (item_end_mono_le _ (S MAX_NESTING)) in Hitem; [|done|lia].
  destruct (canonical_cases _ _ _ _ Hok Hc) as (m & a & stop & Hh & Ha & Hstop & Hcase).
  assert (Hgo : forall l n, levels = S l -> items_run (canonical_item_end l bs) n stop e ->
    exists out, loop_copy (S (length bs)) (copy_undefined l bs) n stop = Some (e, out)).
  { intros l n -> Hr.
    apply (loop_copy_run (length bs) _ _ _ _ _ _ (canonical_progress l bs Hok)); [|done|lia].
    intros p q. apply IH; lia. }
  destruct Hcase as [[Hm ->]|[[Hm Hs]|[[-> (l & Hl & Hr)]|[-> (l & keys & Hl & Hr)]]]].
  - eapply copy_leaf; eauto; lia.
  - eapply copy_leaf; eauto; lia.
  - subst levels. destruct (Hgo l a eq_refl Hr) as [out Hout].
    cbn [copy_undefined]. rewrite Hh.
    change (child_count 4 a) with (Some a). cbv zeta beta iota. cbn [Z.eqb Pos.eqb andb orb].
    rewrite Hout. eauto.
  - subst levels. apply entries_run_items in Hr; [|done].
    destruct (Hgo l _ eq_refl Hr) as [out Hout].
    pose proof (items_in_bounds bs l (a * 2) stop e Hok Hstop ltac:(lia) Hr) as Hb.
    assert (Hcc : child_count 5 a = Some (a * 2)).
    { unfold child_count, addressable in *. simpl. by rewrite (proj2 (Z.ltb_lt _ _)) by lia. }
    cbn [copy_undefined]. rewrite Hh, Hcc. cbv zeta beta iota. cbn [Z.eqb Pos.eqb andb orb].
    rewrite Hout. eauto.
Qed.

(** ** Reading an entry as received *)

Lemma lookup_slice {A} (l : list A) a b i :
  (a + i < b)%nat -> slice l a b !! i = l !! (a + i)%nat.
Proof.
  intros Hi. unfold slice. rewrite lookup_take_lt by lia. apply lookup_drop.
Qed.

Lemma slice_slice {A} (l : list A) a b i j :
  (a + j <= b)%nat -> slice (slice l a b) i j = slice l (a + i) (a + j).
Proof.
  intros Hj. unfold slice. rewrite skipn_firstn_comm, drop_drop, take_take.
  f_equal; lia.
Qed.

Lemma header_slice bs pos stop m a e :
  (stop <= length bs)%nat -> (e <= stop)%nat ->
  header bs pos = Some (m, a, e) -> header (slice bs pos stop) 0 = Some (m, a, (e - pos)%nat).
Proof.
  intros Hstop He Hh. pose proof (header_spec _ _ _ _ _ Hh) as (Hlt & b & Hb & _).
  revert Hh. unfold header. rewrite lookup_slice, Nat.add_0_r, Hb by lia.
  destruct (_ <=? 23). { intros [= <- <- <-]. do 2 f_equal. lia. }
  destruct (_ <=? 27); [|done]. unfold get_slice.
  set (size := Z.to_nat (Z.shiftl 1 (Z.land b 31 - 24))).
  destruct ((pos + 1 <=? pos + 1 + size)%nat && (pos + 1 + size <=? length bs)%nat) eqn:E; [|done].
  intros [= <- <- <-]. rewrite slice_length by lia.
  rewrite (proj2 (Nat.leb_le (0 + 1) (0 + 1 + size))), (proj2 (Nat.leb_le (0 + 1 + size) _)) by lia.
  simpl. rewrite slice_slice by lia. do 3 f_equal; [f_equal; f_equal|]; lia.
Qed.

(** An encoded key is the unsigned integer [key]. *)
Definition is_uint (key : Z) (k : bytes) : bool :=
  match header k 0 with
  | Some (major, argument, e) => (major =? 0) && (argument =? key) && (e =? length k)%nat
  | None => false
  end.

Definition lookup_uint (key : Z) (entries : list (bytes * bytes)) : option bytes :=
  option_map snd (find (fun e => is_uint key (fst e)) entries).

Lemma is_uint_slice bs pos key_end key :
  (pos < key_end <= length bs)%nat ->
  (forall m a e, header bs pos = Some (m, a, e) -> (e <= key_end)%nat) ->
  match header bs pos with
  | Some (major, argument, e) => (major =? 0) && (argument =? key) && (e =? key_end)%nat
  | None => false
  end = is_uint key (slice bs pos key_end) \/ header bs pos = None.
Proof.
  intros Hle Hin. unfold is_uint. destruct (header bs pos) as [[[m a] e]|] eqn:Hh; [left|by right].
  pose proof (Hin _ _ _ eq_refl) as He. pose proof (header_spec _ _ _ _ _ Hh) as (Hs & _).
  rewrite (header_slice bs pos key_end m a e ltac:(lia) He Hh), slice_length by lia.
  f_equal. destruct (Nat.eqb_spec e key_end), (Nat.eqb_spec (e - pos) (key_end - pos)); done || lia.
Qed.

Lemma canonical_header_end levels bs pos e m a stop :
  bytes_ok bs -> canonical_item_end levels bs pos = Some e ->
  header bs pos = Some (m, a, stop) -> (stop <= e)%nat.
Proof.
  intros Hok Hc Hh. destruct (canonical_cases _ _ _ _ Hok Hc) as (m' & a' & stop' & Hh' & Ha & Hs & Hcase).
  rewrite Hh in Hh'. injection Hh' as <- <- <-.
  destruct Hcase as [[_ ->]|[[_ Hr]|[(_ & l & _ & Hr)|(_ & l & keys & _ & Hr)]]]; [done| | |].
  - apply string_end_spec in Hr; lia.
  - apply (items_run_bounds (length bs)) in Hr; auto with ctap. lia.
  - apply entries_run_items in Hr; [|done].
    apply (items_run_bounds (length bs)) in Hr; auto with ctap. lia.
Qed.

Lemma raw_entries_run l bs key n prev pos stop entries found fuel :
  bytes_ok bs -> addressable bs -> (S l <= MAX_NESTING)%nat ->
  entries_run bs (canonical_item_end l bs) n prev pos stop entries ->
  (length bs - pos < fuel)%nat ->
  raw_entries fuel bs key n pos found =
    Some (match found with Some f => Some f | None => lookup_uint key entries end, stop).
Proof.
  intros Hok Hadr Hl Hr. revert found fuel.
  induction Hr as [n prev pos Hn|n prev pos key_end e stop entries Hn Hk _ Hv _ IH];
    intros found fuel Hf.
  - destruct fuel; cbn [raw_entries]; rewrite (proj2 (Z.leb_le n 0) Hn); by destruct found.
  - destruct fuel as [|fuel]; [lia|]. cbn [raw_entries]. rewrite (proj2 (Z.leb_gt n 0) Hn).
    pose proof (canonical_progress l bs Hok _ _ Hk) as Hpk.
    pose proof (canonical_progress l bs Hok _ _ Hv) as Hpv.
    rewrite (item_end_mono_le (S l) MAX_NESTING _ _ key_end Hok Hl)
      by (by apply canonical_item_end_agrees).
    rewrite (item_end_mono_le (S l) MAX_NESTING _ _ e Hok Hl)
      by (by apply canonical_item_end_agrees).
    destruct (is_uint_slice bs pos key_end key Hpk) as [->|Hnone].
    { intros m a h Hh. by eapply canonical_header_end. }
    2:{ destruct (canonical_cases _ _ _ _ Hok Hk) as (? & ? & ? & Hh & _). congruence. }
    rewrite IH by lia. unfold lookup_uint. simpl.
    destruct found; [by destruct (is_uint _ _)|]. by destruct (is_uint _ _).
Qed.

(** ** Key order *)

Lemma canonical_key_order_eq a b : canonical_key_order a b = Eq <-> a = b.
Proof.
  unfold canonical_key_order. split.
  - destruct (Z.compare _ _); try done. destruct (Nat.compare _ _); try done. apply bytes_cmp_eq.
  - intros ->. by rewrite Z.compare_refl, Nat.compare_refl, bytes_cmp_refl.
Qed.

Lemma canonical_key_order_antisym a b :
  canonical_key_order b a = CompOpp (canonical_key_order a b).
Proof.
  unfold canonical_key_order.
  rewrite (Z.compare_antisym (first_major a)), (Nat.compare_antisym (length a)), (bytes_cmp_antisym a).
  by destruct (Z.compare _ _), (Nat.compare _ _).
Qed.

Lemma canonical_key_order_trans a b c :
  canonical_key_order a b = Lt -> canonical_key_order b c = Lt -> canonical_key_order a c = Lt.
Proof.
  unfold canonical_key_order.
  destruct (Z.compare_spec (first_major a) (first_major b)),
    (Z.compare_spec (first_major b) (first_major c)),
    (Z.compare_spec (first_major a) (first_major c)); try lia; try done.
  destruct (Nat.compare_spec (length a) (length b)),
    (Nat.compare_spec (length b) (length c)),
    (Nat.compare_spec (length a) (length c)); try lia; try done.
  apply bytes_cmp_lt_trans.
Qed.

Definition key_lt (a b : bytes) : Prop := canonical_key_order a b = Lt.

Lemma entries_run_sorted bs item n prev pos stop entries :
  entries_run bs item n prev pos stop entries ->
  StronglySorted key_lt (map fst entries) /\
  (forall p, prev = Some p -> Forall (key_lt p) (map fst entries)).
Proof.
  induction 1 as [|n prev pos key_end e stop entries Hn Hk Hprev Hv Hr [IHs IHp]]; simpl.
  - split; [constructor|]. by intros; constructor.
  - specialize (IHp _ eq_refl). split; [by constructor|]. intros p Hp. specialize (Hprev p Hp).
    constructor; [done|]. eapply Forall_impl; [exact IHp|]. intros k Hk'.
    by eapply canonical_key_order_trans.
Qed.

Lemma sorted_keys_nodup (l : list bytes) : StronglySorted key_lt l -> NoDup l.
Proof.
  induction 1 as [|k l _ IH Hall]; constructor; [|done]. intros Hin.
  rewrite Forall_forall in Hall. specialize (Hall k Hin). unfold key_lt in Hall.
  by rewrite (proj2 (canonical_key_order_eq k k) eq_refl) in Hall.
Qed.

Lemma slice_join {A} (l : list A) a b c :
  (a <= b <= c)%nat -> slice l a b ++ slice l b c = slice l a c.
Proof.
  intros Hle. unfold slice. replace (c - a)%nat with ((b - a) + (c - b))%nat by lia.
  rewrite <- take_take_drop. f_equal. rewrite drop_drop. do 2 f_equal. lia.
Qed.

Lemma entries_run_concat bs item n prev pos stop entries :
  progress (length bs) item -> 0 <= n ->
  entries_run bs item n prev pos stop entries ->
  (pos <= stop)%nat /\ zlen entries = n /\
  slice bs pos stop = concat (map (fun kv => fst kv ++ snd kv) entries).
Proof.
  intros Hp Hn0 Hr. revert Hn0.
  induction Hr as [|n prev pos key_end e stop entries Hn Hk Hprev Hv Hr IH]; intros Hn0.
  - split_and!; [done|unfold zlen; simpl; lia|]. unfold slice. by rewrite Nat.sub_diag.
  - apply Hp in Hk, Hv. destruct IH as (Hle & Hlen & Hcat); [lia|].
    split_and!; [lia|unfold zlen in *; simpl; lia|]. simpl. rewrite <- Hcat, !slice_join by lia. done.
Qed.

(** ** Properties *)

(** C4: On a request the canonical-form check accepts, the other scanners of
    the same bytes agree with it: the plain scanner used for authenticated
    parameters ends at the same place, the copy that replaces unassigned simple
    values always succeeds and consumes exactly the request, and so the request
    is refused only if the decoder does not find a map. *)
Theorem canonical_request_scanned_once `{Ciborium} (payload : bytes) :
  bytes_ok payload -> addressable payload ->
  canonical_item_end MAX_NESTING payload 0 = Some (length payload) ->
  item_end (S MAX_NESTING) payload 0 = Some (length payload) /\
  exists decodable, copy_undefined MAX_NESTING payload 0 = Some (length payload, decodable) /\
    request_parameters payload =
      match from_reader decodable with
      | Some (VMap entries) => Ok entries
      | _ => Err CTAP2_ERR_INVALID_CBOR
      end.
Proof.
  intros Hok Hadr Hc. split; [by apply canonical_item_end_agrees|].
  destruct (canonical_copy _ _ _ _ Hok Hadr (Nat.le_refl _) Hc) as [out Hout].
  exists out. split; [done|]. unfold request_parameters.
  rewrite bool_decide_true by done. simpl negb. cbv iota. rewrite Hout.
  by rewrite Nat.eqb_refl.
Qed.

(** In a canonical map, the raw value looked up for authentication is
    exactly the bytes the platform sent under that key: the request is its
    header followed by its entries, the entries' encoded keys ascend strictly
    (so none repeats), and looking up an unsigned integer key returns the
    encoded value of the one entry with that key, or nothing. *)
Theorem raw_map_value_exact (payload : bytes) (n : Z) (start : nat) :
  bytes_ok payload -> addressable payload ->
  canonical_item_end MAX_NESTING payload 0 = Some (length payload) ->
  header payload 0 = Some (5, n, start) ->
  exists entries : list (bytes * bytes),
    zlen entries = n /\
    payload = take start payload ++ concat (map (fun kv => fst kv ++ snd kv) entries) /\
    StronglySorted key_lt (map fst entries) /\ NoDup (map fst entries) /\
    forall key, raw_map_value payload key = Ok (lookup_uint key entries).
Proof.
  intros Hok Hadr Hc Hh.
  destruct (canonical_cases _ _ _ _ Hok Hc) as (m & a & stop & Hh' & Ha & Hstop & Hcase).
  rewrite Hh in Hh'. injection Hh' as <- <- <-.
  destruct Hcase as [[Hm _]|[[Hm _]|[[Hm _]|(_ & l & entries & Hl & Hr)]]]; try lia.
  injection Hl as <-. exists entries.
  destruct (entries_run_concat _ _ _ _ _ _ _ (canonical_progress _ _ Hok) Ha Hr) as (Hle & Hlen & Hcat).
  destruct (entries_run_sorted _ _ _ _ _ _ _ Hr) as [Hs _].
  split_and!; [done| |done|by apply sorted_keys_nodup|].
  - rewrite <- Hcat. unfold slice. rewrite (take_ge (drop start payload)) by (rewrite length_drop; lia).
    by rewrite take_drop.
  - intros key. unfold raw_map_value. rewrite Hh. change (5 =? 5) with true.
    cbn [negb]. rewrite (raw_entries_run 15 _ _ _ _ _ _ _ _ _ Hok Hadr (Nat.le_refl _) Hr) by lia.
    by rewrite Nat.eqb_refl.
Qed.

(** ** Concrete runs *)

Module CborWitness.

(** A reader that answers one request. *)
#[local] Instance toy_ciborium : Ciborium := {|
  into_writer := fun _ => [];
  from_reader := fun b => match b with [] => None | _ => Some (VMap [(VInteger 1, VInteger 2)]) end
|}.

(** [{1: 2, 2: h'0102', 24: [true]}]. *)
Definition request : bytes := [0xA3; 1; 2; 2; 0x42; 1; 2; 0x18; 24; 0x81; 0xF5].

Lemma canonical_request_scanned_once_witness :
  item_end 17 request 0 = Some 11%nat.
Proof.
  exact (proj1 (canonical_request_scanned_once request
    ltac:(apply (bool_decide_unpack _); vm_compute; exact I) eq_refl eq_refl)).
Defined.

Lemma raw_map_value_exact_witness :
  exists entries, zlen entries = 3 /\ raw_map_value request 2 = Ok (lookup_uint 2 entries) /\
    raw_map_value request 2 = Ok (Some [0x42; 1; 2]).
Proof.
  destruct (raw_map_value_exact request 3 1
    ltac:(apply (bool_decide_unpack _); vm_compute; exact I) eq_refl eq_refl eq_refl)
    as (entries & Hlen & _ & _ & _ & Hraw).
  exists entries. split; [exact Hlen|]. split; [apply Hraw|vm_compute; reflexivity].
Defined.

End CborWitness.
