(* ===== verification/CredentialKey.v ===== *)
(** * Credential keys ([crypto/credential_key.rs], [crypto/ecdsa*.rs],
    [crypto/eddsa*.rs], [crypto/mldsa.rs], [crypto/rsa.rs], [crypto/cose.rs],
    [store/record.rs])

    From stored key material to the COSE public key: the seed of every key but
    P-256's and RSA's is expanded on each use.  Curve arithmetic, SHAKE256 and
    the ML-DSA expansion are parameters ([KeyCrypto]). *)

From S2P Require Import Prelude Alg Crypto ConcreteCrypto Cbor ConcreteCbor Records.

Class KeyCrypto : Type := {
  (** The first bytes of SHAKE256 of the input. *)
  shake256 : bytes -> nat -> bytes;
  curve_order : Curve -> Z;
  (** The affine coordinates of [d] times the base point; [None]: infinity. *)
  ec_public : Curve -> Z -> option (bytes * bytes);
  ed25519_public : bytes -> bytes;
  ed448_public : bytes -> bytes;
  mldsa_public : ParamSet -> bytes -> option bytes
}.

Class KeyCryptoLaws `{Crypto} `{KeyCrypto} : Prop := {
  order_large c : 2 < curve_order c;
  order_fits c : bit_length (curve_order c) <= 521;
  ec_public_affine c d : 1 <= d < curve_order c -> exists xy, ec_public c d = Some xy;
  (** A P-256 scalar is valid when non-zero and below the order. *)
  p256_scalar_range s : p256_scalar_valid s = true -> length s = 32%nat ->
    1 <= be_value s < curve_order P256;
  mldsa_expands p s : length s = 32%nat -> exists k, mldsa_public p s = Some k
}.

(** ** [crypto/cose.rs] *)

Definition crv (c : Curve) : Z :=
  match c with
  | P256 => 1 | P384 => 2 | P521 => 3 | Secp256k1 => 8
  | BrainpoolP256r1 => 256 | BrainpoolP384r1 => 258
  end.

Definition edwards_crv (c : EdwardsCurve) : Z := match c with CEd25519 => 6 | CEd448 => 7 end.

Definition RSA_E : bytes := [0x01; 0x00; 0x01].

Definition ec2_key_map (alg : CoseAlg) (c : Z) (x y : bytes) : Value :=
  VMap [(VInteger 1, VInteger 2); (VInteger 3, VInteger (identifier alg)); (VInteger (-1), VInteger c);
        (VInteger (-2), VBytes x); (VInteger (-3), VBytes y)].

Definition okp_key_map (alg : CoseAlg) (c : Z) (x : bytes) : Value :=
  VMap [(VInteger 1, VInteger 1); (VInteger 3, VInteger (identifier alg)); (VInteger (-1), VInteger c);
        (VInteger (-2), VBytes x)].

Definition akp_key_map (alg : CoseAlg) (public_key : bytes) : Value :=
  VMap [(VInteger 1, VInteger 7); (VInteger 3, VInteger (identifier alg));
        (VInteger (-1), VBytes public_key)].

Definition rsa_key_map (alg : CoseAlg) (n : bytes) : Value :=
  VMap [(VInteger 1, VInteger 3); (VInteger 3, VInteger (identifier alg)); (VInteger (-1), VBytes n);
        (VInteger (-2), VBytes RSA_E)].

(** ** Secret keys *)

Inductive CredentialSecretKey : Type :=
| SkMlDsa (seed : bytes)
| SkP256 (scalar : bytes)
| SkP384 (seed : bytes)
| SkP521 (seed : bytes)
| SkSecp256k1 (seed : bytes)
| SkBrainpoolP256r1 (seed : bytes)
| SkBrainpoolP384r1 (seed : bytes)
| SkEd25519 (seed : bytes)
| SkEd448 (seed : bytes)
| SkRsa (primes : bytes * bytes) (modulus : bytes).

Section Keys.

Context `{Crypto} `{KeyCrypto}.

Definition secret_bytes (k : CredentialSecretKey) : bytes :=
  match k with
  | SkMlDsa s | SkP384 s | SkP521 s | SkBrainpoolP256r1 s | SkBrainpoolP384r1 s
  | SkSecp256k1 s | SkEd25519 s | SkEd448 s => s
  | SkRsa pq _ => fst pq ++ snd pq
  | SkP256 scalar => scalar
  end.

(** [fn seed]: exactly 32 bytes. *)
Definition seed_of (b : bytes) : result bytes CryptoError :=
  if (length b =? 32)%nat then Ok b else Err InvalidKey.

(** [ecdsa_p256::signing_key]: 32 bytes, then the range check. *)
Definition p256_signing_key (b : bytes) : result bytes CryptoError :=
  if negb (length b =? 32)%nat then Err InvalidKey
  else if p256_scalar_valid b then Ok b else Err InvalidKey.

Definition try_credential_secret_from_bytes (alg : CoseAlg) (b : bytes)
    : result CredentialSecretKey CryptoError :=
  match scheme alg with
  | SEcdsa P256 => let? k := p256_signing_key b in Ok (SkP256 k)
  | SEcdsa P384 => let? s := seed_of b in Ok (SkP384 s)
  | SEcdsa P521 => let? s := seed_of b in Ok (SkP521 s)
  | SEcdsa Secp256k1 => let? s := seed_of b in Ok (SkSecp256k1 s)
  | SEcdsa BrainpoolP256r1 => let? s := seed_of b in Ok (SkBrainpoolP256r1 s)
  | SEcdsa BrainpoolP384r1 => let? s := seed_of b in Ok (SkBrainpoolP384r1 s)
  | SEdDsa CEd25519 => let? s := seed_of b in Ok (SkEd25519 s)
  | SEdDsa CEd448 => let? s := seed_of b in Ok (SkEd448 s)
  | SMlDsa _ => let? s := seed_of b in Ok (SkMlDsa s)
  | SRsa _ _ => let? k := rsa_signing_key b in Ok (SkRsa (fst k) (snd k))
  end.

(** ** Public keys *)

(** "pqkey/v1/ecdsa-key/" and the curves' names. *)
Definition DERIVATION_CONTEXT : bytes :=
  [112; 113; 107; 101; 121; 47; 118; 49; 47; 101; 99; 100; 115; 97; 45; 107; 101; 121; 47].

Definition curve_name (c : Curve) : bytes :=
  match c with
  | P256 => []
  | P384 => [80; 45; 51; 56; 52]
  | P521 => [80; 45; 53; 50; 49]
  | Secp256k1 => [115; 101; 99; 112; 50; 53; 54; 107; 49]
  | BrainpoolP256r1 => [98; 114; 97; 105; 110; 112; 111; 111; 108; 80; 50; 53; 54; 114; 49]
  | BrainpoolP384r1 => [98; 114; 97; 105; 110; 112; 111; 111; 108; 80; 51; 56; 52; 114; 49]
  end.

(** [div_ceil(8)]. *)
Definition div_ceil_8 (n : Z) : Z := (n + 7) / 8.

(** FIPS 186-5 A.2.1 with SHAKE256: the output is read as one big-endian
    number in a 640-bit buffer of 80 bytes. *)
Definition derive_scalar (c : Curve) (seed : bytes) : result Z CryptoError :=
  let n := curve_order c in
  if n - 1 =? 0 then Err KeyDerivation
  else
    let length := div_ceil_8 (bit_length n + 64) in
    if 80 <? length then Err KeyDerivation
    else
      let returned := shake256 (DERIVATION_CONTEXT ++ curve_name c ++ seed) (Z.to_nat length) in
      let d := be_value returned mod (n - 1) + 1 in
      if (1 <=? d) && (d <? n) then Ok d else Err KeyDerivation.

Context `{Ciborium}.

(** [ecdsa::try_cose_key]. *)
Definition ec_cose_key (alg : CoseAlg) (c : Curve) (point : option (bytes * bytes))
    : result bytes CryptoError :=
  if negb (bool_decide (scheme alg = SEcdsa c)) then Err KeyTypeMismatch
  else match point with
       | Some (x, y) => Ok (into_writer (ec2_key_map alg (crv c) x y))
       | None => Err InvalidPublicKey
       end.

(** [cose_public_key] of the seed-kept curves. *)
Definition seed_cose_public_key (alg : CoseAlg) (c : Curve) (seed : bytes)
    : result bytes CryptoError :=
  let? d := derive_scalar c seed in ec_cose_key alg c (ec_public c d).

(** "pqkey/v1/eddsa-key/Ed448". *)
Definition ED448_CONTEXT : bytes :=
  [112; 113; 107; 101; 121; 47; 118; 49; 47; 101; 100; 100; 115; 97; 45; 107; 101; 121; 47;
   69; 100; 52; 52; 56].

Definition ed448_private_key (seed : bytes) : bytes := shake256 (ED448_CONTEXT ++ seed) 57.

Definition try_cose_public_key (alg : CoseAlg) (sk : CredentialSecretKey)
    : result bytes CryptoError :=
  match sk, scheme alg with
  | SkP256 scalar, SEcdsa P256 => ec_cose_key alg P256 (ec_public P256 (be_value scalar))
  | SkP384 seed, SEcdsa P384 => seed_cose_public_key alg P384 seed
  | SkP521 seed, SEcdsa P521 => seed_cose_public_key alg P521 seed
  | SkSecp256k1 seed, SEcdsa Secp256k1 => seed_cose_public_key alg Secp256k1 seed
  | SkBrainpoolP256r1 seed, SEcdsa BrainpoolP256r1 => seed_cose_public_key alg BrainpoolP256r1 seed
  | SkBrainpoolP384r1 seed, SEcdsa BrainpoolP384r1 => seed_cose_public_key alg BrainpoolP384r1 seed
  | SkEd25519 seed, SEdDsa CEd25519 =>
      Ok (into_writer (okp_key_map alg (edwards_crv CEd25519) (ed25519_public seed)))
  | SkEd448 seed, SEdDsa CEd448 =>
      Ok (into_writer (okp_key_map alg (edwards_crv CEd448) (ed448_public (ed448_private_key seed))))
  | SkMlDsa seed, SMlDsa p =>
      let? k := ok_or (mldsa_public p seed) MlDsaFailed in Ok (into_writer (akp_key_map alg k))
  | SkRsa _ n, SRsa _ _ => Ok (into_writer (rsa_key_map alg n))
  | _, _ => Err KeyTypeMismatch
  end.

(** [CredentialRecord::secret_key], [keypair] and [cose_public_key]. *)
Definition record_secret_key (r : CredentialRecord) : result CredentialSecretKey CryptoError :=
  if negb (bool_decide (private_key_kind (cr_private_key r) = key_kind (cr_alg r)))
  then Err KeyTypeMismatch
  else try_credential_secret_from_bytes (cr_alg r) (private_key_bytes (cr_private_key r)).

Definition keypair (r : CredentialRecord) : result (CredentialSecretKey * bytes) CryptoError :=
  let? secret := record_secret_key r in
  let? public_key := try_cose_public_key (cr_alg r) secret in
  Ok (secret, public_key).

Definition cose_public_key (r : CredentialRecord) : result bytes CryptoError :=
  let? k := keypair r in Ok (snd k).

(** ** Facts *)

(** The type [PrivateKeyMaterial] fixes these lengths. *)
Definition key_sized (k : PrivateKeyMaterial) : Prop :=
  match k with
  | P256Scalar b | Seed b => length b = 32%nat
  | RsaPrimes b => length b = 256%nat
  end.

Lemma secret_bytes_roundtrip alg b k :
  try_credential_secret_from_bytes alg b = Ok k -> secret_bytes k = b.
Proof.
  unfold try_credential_secret_from_bytes, seed_of, p256_signing_key, rsa_signing_key, rsa_primes.
  destruct (scheme alg) as [[]|[]| |]; unfold bind; intros Hk; repeat case_match; simplify_eq; try done.
  simpl. apply take_drop.
Qed.

Context `{!KeyCryptoLaws}.

(** No curve's derivation fails, and the scalar is one of the curve's. *)
Lemma derive_scalar_ok c seed : exists d, derive_scalar c seed = Ok d /\ 1 <= d < curve_order c.
Proof.
  unfold derive_scalar, div_ceil_8. pose proof (order_large c) as Hn. pose proof (order_fits c) as Hb.
  destruct (Z.eqb_spec (curve_order c - 1) 0); [lia|].
  destruct (Z.ltb_spec 80 ((bit_length (curve_order c) + 64 + 7) / 8)) as [Hl|_].
  { exfalso. apply Z.lt_nge in Hl. apply Hl. transitivity ((521 + 64 + 7) / 8); [|done].
    apply Z.div_le_mono; lia. }
  set (v := be_value _). pose proof (Z.mod_pos_bound v (curve_order c - 1)) as Hm.
  exists (v mod (curve_order c - 1) + 1).
  rewrite (proj2 (Z.leb_le 1 _)), (proj2 (Z.ltb_lt _ _)) by lia. simpl. split; [done|lia].
Qed.

Lemma seed_public_ok alg c seed :
  scheme alg = SEcdsa c ->
  exists x y, seed_cose_public_key alg c seed = Ok (into_writer (ec2_key_map alg (crv c) x y)).
Proof.
  intros Hs. unfold seed_cose_public_key, ec_cose_key.
  destruct (derive_scalar_ok c seed) as (d & -> & Hd). simpl.
  destruct (ec_public_affine c d Hd) as [[x y] ->].
  rewrite bool_decide_eq_true_2 by done. simpl. eauto.
Qed.

Lemma check_credential_key r :
  validate_credential r = Ok tt ->
  private_key_kind (cr_private_key r) = key_kind (cr_alg r) /\
  match cr_private_key r with
  | P256Scalar s => p256_scalar_valid s = true
  | RsaPrimes b => is_ok (rsa_signing_key b) = true
  | Seed _ => True
  end.
Proof.
  unfold validate_credential, check_credential. intros Hv.
  destruct (_ =? 0)%nat; [done|]. destruct (is_sealed _ && _); [done|].
  destruct (cr_third_party_payment r && _); [done|].
  destruct (bool_decide (private_key_kind _ = _)) eqn:Hk; [|done]. apply bool_decide_eq_true in Hk.
  split; [done|]. cbn [negb] in Hv. destruct (cr_private_key r); [|done|].
  - by destruct (p256_scalar_valid scalar).
  - by destruct (is_ok (rsa_signing_key primes)).
Qed.

(** A record the store accepts has a usable key: the signing key can be
    reconstructed and serializes back to exactly the stored material, and its
    public key is derived and encoded as a COSE key labelled with the record's
    algorithm.  In particular no seed is lost to a failing scalar derivation. *)
Theorem valid_record_has_keypair (r : CredentialRecord) :
  key_sized (cr_private_key r) -> validate_credential r = Ok tt ->
  exists secret entries,
    keypair r = Ok (secret, into_writer (VMap entries)) /\
    secret_bytes secret = private_key_bytes (cr_private_key r) /\
    map_get entries (VInteger 3) = Some (VInteger (identifier (cr_alg r))).
Proof.
  intros Hsz Hv. apply check_credential_key in Hv as [Hk Hm].
  unfold keypair, record_secret_key. rewrite bool_decide_eq_true_2 by done. cbn [negb].
  assert (Hgo : exists secret entries,
    try_credential_secret_from_bytes (cr_alg r) (private_key_bytes (cr_private_key r)) = Ok secret /\
    try_cose_public_key (cr_alg r) secret = Ok (into_writer (VMap entries)) /\
    map_get entries (VInteger 3) = Some (VInteger (identifier (cr_alg r)))).
  2:{ destruct Hgo as (secret & entries & Hs & Hp & He). exists secret, entries.
      rewrite Hs. cbn [bind]. rewrite Hp. split_and!; [done| |done].
      by eapply secret_bytes_roundtrip. }
  unfold try_credential_secret_from_bytes, key_kind in *.
  destruct (scheme (cr_alg r)) as [c|c|p|pad h] eqn:Hs; destruct (cr_private_key r) as [s|s|b];
    try (destruct c; done); try done; simpl in *; unfold seed_of, p256_signing_key.
  - destruct c; try done. rewrite Hsz. simpl. rewrite Hm. cbn [bind].
    exists (SkP256 s). unfold try_cose_public_key, ec_cose_key. rewrite Hs.
    rewrite bool_decide_eq_true_2 by done. cbn [negb].
    destruct (ec_public_affine P256 (be_value s) (p256_scalar_range s Hm Hsz)) as [[x y] ->].
    eexists. split_and!; [done|reflexivity|reflexivity].
  - destruct c; try done; rewrite Hsz; simpl; destruct (seed_public_ok _ _ s Hs) as (x & y & Hp);
      (do 2 eexists; split_and!;
       [reflexivity|unfold try_cose_public_key; rewrite Hs; exact Hp|reflexivity]).
  - destruct c; rewrite Hsz; simpl; eexists; unfold try_cose_public_key; rewrite Hs;
      eexists; (split_and!; [reflexivity|reflexivity|reflexivity]).
  - rewrite Hsz. simpl. exists (SkMlDsa s). unfold try_cose_public_key. rewrite Hs.
    destruct (mldsa_expands p s Hsz) as [k ->].
    eexists; (split_and!; [reflexivity|reflexivity|reflexivity]).
  - destruct (rsa_signing_key b) as [[pq n]|]; [|done]. cbn [bind].
    exists (SkRsa pq n). unfold try_cose_public_key. rewrite Hs.
    eexists; (split_and!; [reflexivity|reflexivity|reflexivity]).
Qed.

End Keys.

(** ** A concrete run *)

(** A toy group of order 101 on every curve. *)
#[export] Instance concrete_key_crypto : KeyCrypto := {|
  shake256 := fun m n => take n (concat (repeat (sha256 m) 3));
  curve_order := fun c => match c with P256 => 2 ^ 256 | _ => 101 end;
  ec_public := fun _ d => Some (be_bytes 32 d, be_bytes 32 (d + 1));
  ed25519_public := fun s => s;
  ed448_public := fun s => s;
  mldsa_public := fun _ s => Some (s ++ s)
|}.

#[export] Instance concrete_key_laws : KeyCryptoLaws.
Proof.
  split.
  - intros []; reflexivity.
  - intros []; discriminate.
  - intros c d _. eexists. reflexivity.
  - simpl. intros s Hv _. bool_hyps. lia.
  - intros p s _. eexists. reflexivity.
Qed.

Definition p384_record : CredentialRecord := {|
  cr_credential_id := 1 :: repeat 5 32; cr_rp_id := [97; 46; 98]; cr_user_id := [1];
  cr_user_name := None; cr_user_display_name := None; cr_alg := ES384;
  cr_private_key := Seed (repeat 7 32);
  cr_cred_random_with_uv := repeat 1 32; cr_cred_random_without_uv := repeat 2 32;
  cr_cred_blob := None; cr_large_blob_key := None; cr_third_party_payment := false;
  cr_cred_protect := 1; cr_sign_count := 0; cr_created_at := 0 |}.

Lemma valid_record_has_keypair_witness :
  validate_credential p384_record = Ok tt /\
  exists secret entries,
    keypair p384_record = Ok (secret, into_writer (VMap entries)) /\
    secret_bytes secret = repeat 7 32 /\
    map_get entries (VInteger 3) = Some (VInteger (-35)).
Proof.
  split; [reflexivity|].
  destruct (valid_record_has_keypair p384_record) as (secret & entries & Hk & Hs & He);
    [reflexivity|reflexivity|].
  exists secret, entries. split_and!; [exact Hk|exact Hs|exact He].
Defined.
