(* ===== verification/Signing.v ===== *)
(** * Key generation and signatures ([crypto/credential_key.rs],
    [crypto/rsa.rs], [crypto/ecdsa_*.rs], [crypto/eddsa_*.rs],
    [crypto/mldsa.rs], [store/record.rs])

    Fresh key material by its kind, and signing dispatched on the algorithm's
    scheme.  The signature primitives and the generation of P-256 and RSA keys
    are parameters ([SigningCrypto]); an [Entropy] is the operating system's
    generator during one operation. *)

From S2P Require Import Prelude Alg Crypto ConcreteCrypto Records Cbor CredentialKey.

(** Successive draws; [None]: the draw fails. *)
Definition Entropy : Type := nat -> option (nat -> Z).

Class SigningCrypto : Type := {
  (** [SecretKey::try_generate_from_rng]: 32 bytes, or the generator failed. *)
  p256_generate : Entropy -> option bytes;
  (** The primes of [RsaPrivateKey::new] for 2048 bits, over SHAKE256 of the
      input. *)
  rsa_generate_from : bytes -> option bytes;
  (** The DER signature of a message with a scalar of the curve. *)
  ec_sign : Curve -> Z -> bytes -> option bytes;
  ed25519_sign : bytes -> bytes -> option bytes;
  ed448_sign : bytes -> bytes -> option bytes;
  mldsa_sign : ParamSet -> bytes -> bytes -> Entropy -> option bytes;
  (** [p || q], modulus, padding, hash, message. *)
  rsa_sign : bytes * bytes -> bytes -> Padding -> Hash -> bytes -> Entropy -> option bytes
}.

(** Documented of the generators: a P-256 scalar is in range, and RSA-2048
    primes are two distinct 1024-bit primes whose key can be rebuilt. *)
Class SigningLaws `{Crypto} `{SigningCrypto} : Prop := {
  p256_generate_valid rng k : p256_generate rng = Some k ->
    length k = 32%nat /\ p256_scalar_valid k = true;
  rsa_generate_valid seed k : rsa_generate_from seed = Some k ->
    length k = 256%nat /\ is_ok (rsa_signing_key k) = true
}.

Section Signing.

Context `{Crypto} `{KeyCrypto} `{SigningCrypto}.

(** ** Generation *)

(** "pqkey/v1/rsa-key/". *)
Definition RSA_KEY_CONTEXT : bytes :=
  [112; 113; 107; 101; 121; 47; 118; 49; 47; 114; 115; 97; 45; 107; 101; 121; 47].

(** [rsa::generate]: only the initial draw of 32 bytes uses [rng]. *)
Definition rsa_generate (rng : Entropy) : result bytes CryptoError :=
  match rng 0%nat with
  | None => Err Randomness
  | Some draw => ok_or (rsa_generate_from (RSA_KEY_CONTEXT ++ fill_bytes draw 32)) KeyDerivation
  end.

Definition try_generate_key (kind : KeyKind) (rng : Entropy) : result bytes CryptoError :=
  match kind with
  | KP256Scalar => ok_or (p256_generate rng) Randomness
  | KSeed => match rng 0%nat with
             | None => Err Randomness
             | Some draw => Ok (fill_bytes draw 32)
             end
  | KRsaPrimes => rsa_generate rng
  end.

(** [PrivateKeyMaterial::try_generate_from_rng]. *)
Definition try_generate (alg : CoseAlg) (rng : Entropy) : result PrivateKeyMaterial CryptoError :=
  let? key := try_generate_key (key_kind alg) rng in
  private_key_from_bytes (key_kind alg) key.

(** ** Signatures *)

(** [sign] of the seed-kept curves. *)
Definition seed_sign (c : Curve) (seed message : bytes) : result bytes CryptoError :=
  let? d := derive_scalar c seed in ok_or (ec_sign c d message) SigningFailed.

Definition try_sign_challenge (alg : CoseAlg) (sk : CredentialSecretKey)
    (auth_data client_data_hash : bytes) (rng : Entropy) : result bytes CryptoError :=
  let msg := auth_data ++ client_data_hash in
  match sk, scheme alg with
  | SkP256 scalar, SEcdsa P256 => ok_or (ec_sign P256 (be_value scalar) msg) SigningFailed
  | SkP384 seed, SEcdsa P384 => seed_sign P384 seed msg
  | SkP521 seed, SEcdsa P521 => seed_sign P521 seed msg
  | SkSecp256k1 seed, SEcdsa Secp256k1 => seed_sign Secp256k1 seed msg
  | SkBrainpoolP256r1 seed, SEcdsa BrainpoolP256r1 => seed_sign BrainpoolP256r1 seed msg
  | SkBrainpoolP384r1 seed, SEcdsa BrainpoolP384r1 => seed_sign BrainpoolP384r1 seed msg
  | SkEd25519 seed, SEdDsa CEd25519 => ok_or (ed25519_sign seed msg) SigningFailed
  | SkEd448 seed, SEdDsa CEd448 => ok_or (ed448_sign (ed448_private_key seed) msg) SigningFailed
  | SkMlDsa seed, SMlDsa p => ok_or (mldsa_sign p seed msg rng) MlDsaFailed
  | SkRsa pq n, SRsa padding hash => ok_or (rsa_sign pq n padding hash msg rng) SigningFailed
  | _, _ => Err KeyTypeMismatch
  end.

(** [AttestationRecord::signing_key]. *)
Definition attestation_signing_key (r : AttestationRecord)
    : result CredentialSecretKey CryptoError :=
  try_credential_secret_from_bytes ES256 (at_private_key r).

(** ** Facts *)

(** Fresh material is of the algorithm's kind and has that kind's length. *)
Lemma try_generate_kind alg rng k :
  try_generate alg rng = Ok k -> private_key_kind k = key_kind alg /\ key_sized k.
Proof.
  unfold try_generate, bind. destruct (try_generate_key _ rng) as [b|]; [|done].
  unfold private_key_from_bytes.
  destruct (key_kind alg); destruct (length b =? _)%nat eqn:E; intros [= <-];
    by apply Nat.eqb_eq in E.
Qed.

(** Generated material passes the checks a store makes of a key. *)
Lemma try_generate_usable `{!SigningLaws} alg rng k :
  try_generate alg rng = Ok k ->
  match k with
  | P256Scalar s => p256_scalar_valid s = true
  | RsaPrimes b => is_ok (rsa_signing_key b) = true
  | Seed _ => True
  end.
Proof.
  unfold try_generate, try_generate_key, rsa_generate, private_key_from_bytes.
  destruct (key_kind alg); unfold bind, ok_or; intros Hg; repeat case_match; simplify_eq; try done.
  - by eapply p256_generate_valid.
  - by eapply rsa_generate_valid.
Qed.

End Signing.

(** ** The stand-in *)

(** A signature is a digest of the key and the message. *)
#[export] Instance concrete_signing : SigningCrypto := {|
  p256_generate := fun rng =>
    match rng 0%nat with
    | Some draw => let k := fill_bytes draw 32 in if p256_scalar_valid k then Some k else None
    | None => None
    end;
  rsa_generate_from := fun _ => None;
  ec_sign := fun _ d m => Some (sha256 (be_bytes 32 d ++ m));
  ed25519_sign := fun k m => Some (sha256 (k ++ m));
  ed448_sign := fun k m => Some (sha256 (k ++ m));
  mldsa_sign := fun _ k m rng => option_map (fun _ => sha256 (k ++ m)) (rng 0%nat);
  rsa_sign := fun _ n _ _ m rng => option_map (fun _ => sha256 (n ++ m)) (rng 0%nat)
|}.

#[export] Instance concrete_signing_laws : SigningLaws.
Proof.
  split; [|done]. cbn [p256_generate concrete_signing]. intros rng k.
  destruct (rng 0%nat) as [draw|]; [|done].
  destruct (p256_scalar_valid (fill_bytes draw 32)) eqn:E; [|done]. intros [= <-].
  split; [apply fill_bytes_length|exact E].
Qed.
