(* ===== verification/Request.v ===== *)
(** * Request parameters shared by registration and sign-in ([ctap/request.rs])  *)

From S2P Require Import Prelude Constants Alg Cbor.

(** ASCII of the member names. *)
Definition PUBLIC_KEY : bytes := [112; 117; 98; 108; 105; 99; 45; 107; 101; 121].

Definition name_type : bytes := [116; 121; 112; 101].

Definition name_alg : bytes := [97; 108; 103].

Definition name_id : bytes := [105; 100].

Definition name_rk : bytes := [114; 107].

Definition name_up : bytes := [117; 112].

Definition name_uv : bytes := [117; 118].

Definition member (entries : Entries) (name : bytes) : result Value Z :=
  ok_or (map_get entries (VText name)) CTAP2_ERR_INVALID_CBOR.

Definition text_member (entries : Entries) (name : bytes) : result bytes Z :=
  let? v := member entries name in
  match v with VText t => Ok t | _ => Err CTAP2_ERR_CBOR_UNEXPECTED_TYPE end.

(** [i32::try_from] then [CoseAlg::try_from]. *)
Definition alg_of_integer (n : Z) : option CoseAlg :=
  if (- 2 ^ 31 <=? n) && (n <? 2 ^ 31) then
    match alg_try_from n with Ok a => Some a | Err _ => None end
  else None.

(** One element of pubKeyCredParams: its type and its algorithm, if any. *)
Definition parse_param (element : Value) : result (bytes * option CoseAlg) Z :=
  match element with
  | VMap entries =>
      let? credential_type := text_member entries name_type in
      let? alg := member entries name_alg in
      match alg with
      | VInteger n => Ok (credential_type, alg_of_integer n)
      | _ => Err CTAP2_ERR_CBOR_UNEXPECTED_TYPE
      end
  | _ => Err CTAP2_ERR_CBOR_UNEXPECTED_TYPE
  end.

(** The loop of [chosen_algorithm], with what has been chosen so far. *)
Fixpoint choose_loop (params : list Value) (chosen : option CoseAlg) : result (option CoseAlg) Z :=
  match params with
  | [] => Ok chosen
  | element :: rest =>
      let? parsed := parse_param element in
      choose_loop rest
        (if negb (is_some chosen) && bytes_eqb (fst parsed) PUBLIC_KEY then snd parsed else chosen)
  end.

Definition chosen_algorithm (pub_key_cred_params : list Value) : result CoseAlg Z :=
  let? chosen := choose_loop pub_key_cred_params None in
  ok_or chosen CTAP2_ERR_UNSUPPORTED_ALGORITHM.

Definition public_key_credential_id (descriptor : Entries) : result (option bytes) Z :=
  let? credential_type := structure_text descriptor name_type in
  let? id := structure_bytes descriptor name_id in
  Ok (if bytes_eqb credential_type PUBLIC_KEY then Some id else None).

Fixpoint collect_ids (descriptors : list Value) : result (list bytes) Z :=
  match descriptors with
  | [] => Ok []
  | VMap entries :: rest =>
      let? id := public_key_credential_id entries in
      let? ids := collect_ids rest in
      Ok (match id with Some id => id :: ids | None => ids end)
  | _ :: _ => Err CTAP2_ERR_CBOR_UNEXPECTED_TYPE
  end.

Definition credential_ids (descriptor_list : Value) : result (list bytes) Z :=
  match descriptor_list with
  | VArray descriptors => collect_ids descriptors
  | _ => Err CTAP2_ERR_CBOR_UNEXPECTED_TYPE
  end.

Definition CLIENT_DATA_HASH_LENGTH : Z := 32.

Definition client_data_hash (value : option Value) : result bytes Z :=
  match value with
  | Some (VBytes b) =>
      if zlen b =? CLIENT_DATA_HASH_LENGTH then Ok b else Err CTAP1_ERR_INVALID_LENGTH
  | Some _ => Err CTAP2_ERR_CBOR_UNEXPECTED_TYPE
  | None => Err CTAP2_ERR_MISSING_PARAMETER
  end.

Record RequestOptions : Type := {
  opt_rk : option bool;
  opt_up : option bool;
  opt_uv : option bool
}.

Definition option_flag (entries : Entries) (name : bytes) : result (option bool) Z :=
  match map_get entries (VText name) with
  | None => Ok None
  | Some (VBool flag) => Ok (Some flag)
  | Some _ => Err CTAP2_ERR_CBOR_UNEXPECTED_TYPE
  end.

Definition options (value : option Value) : result RequestOptions Z :=
  match value with
  | None => Ok {| opt_rk := None; opt_up := None; opt_uv := None |}
  | Some (VMap entries) =>
      let? rk := option_flag entries name_rk in
      let? up := option_flag entries name_up in
      let? uv := option_flag entries name_uv in
      Ok {| opt_rk := rk; opt_up := up; opt_uv := uv |}
  | Some _ => Err CTAP2_ERR_CBOR_UNEXPECTED_TYPE
  end.

Definition is_zero_length (pin_uv_auth_param : option Value) : bool :=
  match pin_uv_auth_param with Some (VBytes []) => true | _ => false end.

Definition MAX_USER_ID_LENGTH : Z := 64.

Definition MAX_NAME_LENGTH : nat := 64.

(** [str::is_char_boundary]: the ends, or a byte that does not continue a
    character. *)
Definition is_char_boundary (text : bytes) (index : nat) : bool :=
  if (index =? 0)%nat then true
  else match text !! index with
       | None => (index =? length text)%nat
       | Some b => negb ((0x80 <=? b) && (b <? 0xC0))
       end.

(** [while !text.is_char_boundary(end) { end -= 1 }]; 0 is a boundary. *)
Fixpoint boundary_before (text : bytes) (stop : nat) : nat :=
  match stop with
  | O => O
  | S stop' => if is_char_boundary text stop then stop else boundary_before text stop'
  end.

Definition truncate_utf8 (text : bytes) (max : nat) : bytes :=
  take (boundary_before text (Nat.min (length text) max)) text.

(** ** Facts *)

Lemma boundary_before_spec text stop :
  (boundary_before text stop <= stop)%nat /\
  is_char_boundary text (boundary_before text stop) = true /\
  forall i, (boundary_before text stop < i <= stop)%nat -> is_char_boundary text i = false.
Proof.
  induction stop as [|stop (IH1 & IH2 & IH3)]; cbn [boundary_before].
  - split_and!; [lia|done|lia].
  - destruct (is_char_boundary text (S stop)) eqn:E.
    + split_and!; [lia|done|lia].
    + split_and!; [lia|done|]. intros i Hi. destruct (decide (i = S stop)) as [->|]; [done|].
      apply IH3. lia.
Qed.

(** The first element that names a supported public-key algorithm. *)
Definition first_supported (parsed : list (bytes * option CoseAlg)) : option CoseAlg :=
  fold_left (fun acc p => match acc with
                          | Some a => Some a
                          | None => if bytes_eqb (fst p) PUBLIC_KEY then snd p else None
                          end) parsed None.

Lemma choose_loop_spec params chosen r :
  choose_loop params chosen = Ok r ->
  exists parsed, Forall2 (fun e p => parse_param e = Ok p) params parsed /\
    r = fold_left (fun acc p => match acc with
                          | Some a => Some a
                          | None => if bytes_eqb (fst p) PUBLIC_KEY then snd p else None
                          end) parsed chosen.
Proof.
  revert chosen. induction params as [|e params IH]; intros chosen; cbn [choose_loop].
  - intros [= <-]. exists []. split; [constructor|done].
  - unfold bind. destruct (parse_param e) as [p|] eqn:Hp; [|done].
    intros Hl. destruct (IH _ Hl) as (parsed & Hall & ->). exists (p :: parsed).
    split; [by constructor|]. simpl. f_equal.
    destruct chosen; simpl; [done|]. by destruct (bytes_eqb _ _).
Qed.

Lemma choose_loop_error params chosen e :
  choose_loop params chosen = Err e ->
  e = CTAP2_ERR_INVALID_CBOR \/ e = CTAP2_ERR_CBOR_UNEXPECTED_TYPE.
Proof.
  revert chosen. induction params as [|v params IH]; intros chosen; cbn [choose_loop]; [done|].
  unfold bind. destruct (parse_param v) as [p|e'] eqn:Hp; [apply IH|]. intros [= <-].
  unfold parse_param, text_member, member, bind, ok_or in Hp.
  repeat (case_hyp; simplify_eq/=); auto.
Qed.

(** ** Properties *)

(** Algorithm choice at registration: every element of pubKeyCredParams is
    checked even after one is chosen, a malformed element fails the request, and
    otherwise the choice is the first element of type public-key whose algorithm
    is supported, under exactly the identifier listed, and none is
    UNSUPPORTED_ALGORITHM. *)
Theorem chosen_algorithm_first (params : list Value) :
  match chosen_algorithm params with
  | Ok alg => exists parsed, Forall2 (fun e p => parse_param e = Ok p) params parsed /\
                first_supported parsed = Some alg /\ alg_try_from (identifier alg) = Ok alg
  | Err e => e = CTAP2_ERR_INVALID_CBOR \/ e = CTAP2_ERR_CBOR_UNEXPECTED_TYPE \/
             (e = CTAP2_ERR_UNSUPPORTED_ALGORITHM /\
              exists parsed, Forall2 (fun e p => parse_param e = Ok p) params parsed /\
                first_supported parsed = None)
  end.
Proof.
  unfold chosen_algorithm, bind. destruct (choose_loop params None) as [[alg|]|e] eqn:Hl; simpl.
  - apply choose_loop_spec in Hl as (parsed & Hall & Heq). exists parsed.
    split_and!; [done|by rewrite Heq|apply alg_try_from_identifier].
  - apply choose_loop_spec in Hl as (parsed & Hall & Heq). right. right. split; [done|].
    exists parsed. split; [done|by rewrite Heq].
  - apply choose_loop_error in Hl. tauto.
Qed.

(** Truncating a name keeps a prefix of at most [max] bytes that ends at a
    character boundary, and no longer such prefix exists. *)
Theorem truncate_utf8_longest_prefix (text : bytes) (max : nat) :
  let t := truncate_utf8 text max in
  (exists rest, text = t ++ rest) /\ (length t <= max)%nat /\
  is_char_boundary text (length t) = true /\
  forall n, (length t < n <= Nat.min (length text) max)%nat -> is_char_boundary text n = false.
Proof.
  intros t. destruct (boundary_before_spec text (Nat.min (length text) max)) as (Hle & Hb & Hmax).
  assert (Hlen : length t = boundary_before text (Nat.min (length text) max)).
  { unfold t, truncate_utf8. rewrite length_take. lia. }
  rewrite Hlen. split_and!; [|lia|done|done].
  exists (drop (boundary_before text (Nat.min (length text) max)) text).
  unfold t, truncate_utf8. by rewrite take_drop.
Qed.
