(* ===== verification/Presence.v ===== *)
(** * User presence and cancellation ([ctap/presence.rs]) *)

From S2P Require Import Prelude Constants.

Inductive PresenceOperation : Type :=
| Register | Authenticate | U2fRegister | U2fAuthenticate | Reset | Select
| CredentialManagement.

#[export] Instance PresenceOperation_eq_dec : EqDecision PresenceOperation.
Proof. solve_decision. Defined.

Record PresenceRequest : Type := {
  pr_operation : PresenceOperation;
  pr_rp_id : option bytes;
  pr_rp_name : option bytes;
  pr_user_name : option bytes;
  pr_user_display_name : option bytes;
  pr_discoverable : bool;
  pr_timeout : Z
}.

(** [PresenceRequest::new]. *)
Definition presence_request (operation : PresenceOperation) (timeout : Z) : PresenceRequest := {|
  pr_operation := operation; pr_rp_id := None; pr_rp_name := None; pr_user_name := None;
  pr_user_display_name := None; pr_discoverable := false; pr_timeout := timeout
|}.

Inductive PresenceOutcome : Type := Approved | Denied | TimedOut | Cancelled.

#[export] Instance PresenceOutcome_eq_dec : EqDecision PresenceOutcome.
Proof. solve_decision. Defined.

Definition presence_status (operation : PresenceOperation) (outcome : PresenceOutcome)
    : result unit Z :=
  match outcome with
  | Approved => Ok tt
  | Denied => Err CTAP2_ERR_OPERATION_DENIED
  | TimedOut =>
      match operation with
      | Register | Authenticate | U2fRegister | U2fAuthenticate => Err CTAP2_ERR_OPERATION_DENIED
      | Reset | CredentialManagement | Select => Err CTAP2_ERR_USER_ACTION_TIMEOUT
      end
  | Cancelled => Err CTAP2_ERR_KEEPALIVE_CANCEL
  end.

(** ** [InterruptFlag]: an atomic with three values *)

Inductive InterruptFlag : Type := IDLE | WORKING | INTERRUPTED.

Definition set_idle (_ : InterruptFlag) : InterruptFlag := IDLE.

Definition set_working (_ : InterruptFlag) : InterruptFlag := WORKING.

(** [compare_exchange(WORKING, INTERRUPTED)]. *)
Definition interrupt (f : InterruptFlag) : InterruptFlag * bool :=
  match f with
  | WORKING => (INTERRUPTED, true)
  | IDLE | INTERRUPTED => (f, false)
  end.

Definition is_interrupted (f : InterruptFlag) : bool :=
  match f with INTERRUPTED => true | IDLE | WORKING => false end.

(** ** Facts *)

Lemma presence_status_ok op o : presence_status op o = Ok tt <-> o = Approved.
Proof. destruct o; simpl; split; try done; by destruct op. Qed.

(** Calls on the flag, in the order they take effect. *)
Inductive flag_op : Type := FIdle | FWork | FInterrupt.

Definition flag_step (f : InterruptFlag) (o : flag_op) : InterruptFlag :=
  match o with
  | FIdle => set_idle f
  | FWork => set_working f
  | FInterrupt => fst (interrupt f)
  end.

(** The operations since the last hand-over of a request contain an
    interrupt. *)
Definition interrupted_since_work (ops : list flag_op) : bool :=
  match fold_left (fun acc o => match o with
                          | FWork => Some false
                          | FIdle => None
                          | FInterrupt => option_map (fun _ => true) acc
                          end) ops None with
  | Some b => b
  | None => false
  end.

Definition flag_view (f : InterruptFlag) : option bool :=
  match f with IDLE => None | WORKING => Some false | INTERRUPTED => Some true end.

Lemma flag_step_view f o :
  flag_view (flag_step f o) =
  match o with
  | FWork => Some false
  | FIdle => None
  | FInterrupt => option_map (fun _ => true) (flag_view f)
  end.
Proof. by destruct f, o. Qed.

(** ** Properties *)

(** A cancellation reaches the request it was meant for and no other:
    after any sequence of hand-overs, answers and cancellations, the flag reads
    interrupted exactly when a cancellation came since the last request was
    handed to the engine and that request has not been answered. *)
Theorem cancellation_reaches_only_its_request (ops : list flag_op) :
  is_interrupted (fold_left flag_step ops IDLE) = interrupted_since_work ops.
Proof.
  unfold interrupted_since_work.
  assert (Hgen : forall f acc, flag_view f = acc ->
    flag_view (fold_left flag_step ops f) =
    fold_left (fun acc o => match o with
                          | FWork => Some false
                          | FIdle => None
                          | FInterrupt => option_map (fun _ => true) acc
                          end) ops acc).
  { induction ops as [|o ops IH]; intros f acc Hf; [done|]. simpl. apply IH.
    rewrite flag_step_view. subst acc. by destruct o. }
  rewrite <- (Hgen IDLE None eq_refl). by destruct (fold_left flag_step ops IDLE).
Qed.
