(* ===== verification/Engine.v ===== *)
(** * The CTAP engine's state and its persistence layer
    ([ctap.rs] [CtapApp], [ctap/pin/state.rs] [PinState], [ctap/storage.rs],
    [ctap/pin/protocol.rs])

    [CtapApp S] is the engine over a credential store of type [S].  What the
    engine gets from outside is in [World]: successive clock readings,
    successive draws of its random number generator, successive answers of the
    user and what the operating system's generator gives, each with the
    position reached.  Every handler is a
    state-passing function [M (CtapApp S) A Z] whose error is a CTAP status. *)

From S2P Require Import Prelude Constants Crypto Cbor Records PinRetry Token Presence Store.

(** ** Data *)

Record World : Type := {
  w_clock : nat -> Z;
  w_clock_reads : nat;
  w_rng : nat -> nat -> Z;
  w_rng_draws : nat;
  (** Whether the interrupt flag is set when the n-th question starts, and how
      the user answers it. *)
  w_cancelled : nat -> bool;
  w_confirm : nat -> PresenceRequest -> PresenceOutcome;
  w_asks : nat;
  (** The operating system's generator as the n-th operation that uses it
      directly finds it: its successive draws, [None] when a draw fails. *)
  w_os : nat -> nat -> option (nat -> Z);
  w_os_uses : nat
}.

(** [KeyAgreementKeys]: the secret key of each protocol, once drawn. *)
Record KeyAgreementKeys : Type := {
  protocol_one : option bytes;
  protocol_two : option bytes
}.

Definition KeyAgreementKeys_default : KeyAgreementKeys :=
  {| protocol_one := None; protocol_two := None |}.

(** The clock of the source's [PinState] is in [World]. *)
Record PinState : Type := {
  ps_pin : PinRetryState;
  ps_key_agreement : KeyAgreementKeys;
  ps_token : PinUvAuthTokenState;
  ps_persistent_generation : Z
}.

Inductive StoredPinState : Type := Read | Unread | Unreadable.

#[export] Instance StoredPinState_eq_dec : EqDecision StoredPinState.
Proof. solve_decision. Defined.

Inductive ManagementFamily : Type := Standard | Preview.

Inductive AuthorizationMode : Type := CmPermission | PersistentReadOnly | LegacyPreview.

#[export] Instance ManagementFamily_eq_dec : EqDecision ManagementFamily.
Proof. solve_decision. Defined.

#[export] Instance AuthorizationMode_eq_dec : EqDecision AuthorizationMode.
Proof. solve_decision. Defined.

Record EnumerationAuthorization : Type := {
  ea_family : ManagementFamily;
  ea_token : Z;
  ea_protocol : PinProtocol;
  ea_mode : AuthorizationMode
}.

#[export] Instance EnumerationAuthorization_eq_dec : EqDecision EnumerationAuthorization.
Proof. solve_decision. Defined.

Record CredentialManagementState : Type := {
  cm_rp_list : list bytes;
  cm_rp_index : nat;
  cm_family : option ManagementFamily;
  cm_rp_auth : option EnumerationAuthorization;
  cm_context : option EnumerationAuthorization;
  cm_credential_list : list bytes;
  cm_credential_index : nat;
  cm_credential_auth : option EnumerationAuthorization;
  cm_credential_rp_hash : bytes
}.

(** [CredentialManagementState::new]. *)
Definition cm_new : CredentialManagementState := {|
  cm_rp_list := []; cm_rp_index := 0; cm_family := None; cm_rp_auth := None; cm_context := None;
  cm_credential_list := []; cm_credential_index := 0; cm_credential_auth := None;
  cm_credential_rp_hash := []
|}.

Record PendingHmacSecret : Type := {
  hs_protocol : PinProtocol;
  hs_keys : PinUvSessionKeys;
  hs_salt_plaintext : bytes
}.

Record PendingAssertion : Type := {
  pa_rp_id : bytes;
  pa_client_hash : bytes;
  pa_user_present : bool;
  pa_user_verified : bool;
  pa_remaining_credentials : list bytes;
  pa_hmac_secret : option PendingHmacSecret;
  pa_cred_blob : bool;
  pa_large_blob_key : bool;
  pa_third_party_payment : bool;
  pa_timer_started : Z;
  pa_token : option Z
}.

Record LargeBlobState : Type := {
  lb_expected_next_offset : Z;
  lb_expected_length : Z;
  lb_buffer : bytes;
  lb_last_fragment : option Z;
  lb_token : option Z
}.

Definition LargeBlobState_default : LargeBlobState := {|
  lb_expected_next_offset := 0; lb_expected_length := 0; lb_buffer := [];
  lb_last_fragment := None; lb_token := None
|}.

Inductive AttestationMode : Type := SelfAttestation | Certificate | NoneMode.

Record CtapApp (S : Type) : Type := {
  app_store : S;
  app_world : World;
  app_pin_state : PinState;
  app_stored_pin_state : StoredPinState;
  app_directory_flush : option DirectoryFlush;
  app_cred_mgmt_state : CredentialManagementState;
  app_pending_assertion : option PendingAssertion;
  app_large_blob_state : LargeBlobState;
  app_presence_timeout : Z;
  app_reset_window : option Z;
  app_aaguid : bytes;
  app_attestation_mode : AttestationMode
}.

Arguments app_store {S}.
Arguments app_world {S}.
Arguments app_pin_state {S}.
Arguments app_stored_pin_state {S}.
Arguments app_directory_flush {S}.
Arguments app_cred_mgmt_state {S}.
Arguments app_pending_assertion {S}.
Arguments app_large_blob_state {S}.
Arguments app_presence_timeout {S}.
Arguments app_reset_window {S}.
Arguments app_aaguid {S}.
Arguments app_attestation_mode {S}.

Definition DEFAULT_PRESENCE_TIMEOUT : Z := from_secs 30.

Definition RESET_WINDOW_AFTER_POWER_UP : Z := from_secs 10.

Section Engine.

Context {S : Type}.

#[local] Abbreviation App := (CtapApp S).

(** ** Field updates *)

Definition with_store (a : App) (v : S) : App := {|
  app_store := v; app_world := app_world a; app_pin_state := app_pin_state a;
  app_stored_pin_state := app_stored_pin_state a; app_directory_flush := app_directory_flush a;
  app_cred_mgmt_state := app_cred_mgmt_state a; app_pending_assertion := app_pending_assertion a;
  app_large_blob_state := app_large_blob_state a; app_presence_timeout := app_presence_timeout a;
  app_reset_window := app_reset_window a; app_aaguid := app_aaguid a;
  app_attestation_mode := app_attestation_mode a |}.

Definition with_world (a : App) (v : World) : App := {|
  app_store := app_store a; app_world := v; app_pin_state := app_pin_state a;
  app_stored_pin_state := app_stored_pin_state a; app_directory_flush := app_directory_flush a;
  app_cred_mgmt_state := app_cred_mgmt_state a; app_pending_assertion := app_pending_assertion a;
  app_large_blob_state := app_large_blob_state a; app_presence_timeout := app_presence_timeout a;
  app_reset_window := app_reset_window a; app_aaguid := app_aaguid a;
  app_attestation_mode := app_attestation_mode a |}.

Definition with_pin_state (a : App) (v : PinState) : App := {|
  app_store := app_store a; app_world := app_world a; app_pin_state := v;
  app_stored_pin_state := app_stored_pin_state a; app_directory_flush := app_directory_flush a;
  app_cred_mgmt_state := app_cred_mgmt_state a; app_pending_assertion := app_pending_assertion a;
  app_large_blob_state := app_large_blob_state a; app_presence_timeout := app_presence_timeout a;
  app_reset_window := app_reset_window a; app_aaguid := app_aaguid a;
  app_attestation_mode := app_attestation_mode a |}.

Definition with_stored_pin_state (a : App) (v : StoredPinState) : App := {|
  app_store := app_store a; app_world := app_world a; app_pin_state := app_pin_state a;
  app_stored_pin_state := v; app_directory_flush := app_directory_flush a;
  app_cred_mgmt_state := app_cred_mgmt_state a; app_pending_assertion := app_pending_assertion a;
  app_large_blob_state := app_large_blob_state a; app_presence_timeout := app_presence_timeout a;
  app_reset_window := app_reset_window a; app_aaguid := app_aaguid a;
  app_attestation_mode := app_attestation_mode a |}.

Definition with_directory_flush (a : App) (v : option DirectoryFlush) : App := {|
  app_store := app_store a; app_world := app_world a; app_pin_state := app_pin_state a;
  app_stored_pin_state := app_stored_pin_state a; app_directory_flush := v;
  app_cred_mgmt_state := app_cred_mgmt_state a; app_pending_assertion := app_pending_assertion a;
  app_large_blob_state := app_large_blob_state a; app_presence_timeout := app_presence_timeout a;
  app_reset_window := app_reset_window a; app_aaguid := app_aaguid a;
  app_attestation_mode := app_attestation_mode a |}.

Definition with_cred_mgmt (a : App) (v : CredentialManagementState) : App := {|
  app_store := app_store a; app_world := app_world a; app_pin_state := app_pin_state a;
  app_stored_pin_state := app_stored_pin_state a; app_directory_flush := app_directory_flush a;
  app_cred_mgmt_state := v; app_pending_assertion := app_pending_assertion a;
  app_large_blob_state := app_large_blob_state a; app_presence_timeout := app_presence_timeout a;
  app_reset_window := app_reset_window a; app_aaguid := app_aaguid a;
  app_attestation_mode := app_attestation_mode a |}.

Definition with_pending (a : App) (v : option PendingAssertion) : App := {|
  app_store := app_store a; app_world := app_world a; app_pin_state := app_pin_state a;
  app_stored_pin_state := app_stored_pin_state a; app_directory_flush := app_directory_flush a;
  app_cred_mgmt_state := app_cred_mgmt_state a; app_pending_assertion := v;
  app_large_blob_state := app_large_blob_state a; app_presence_timeout := app_presence_timeout a;
  app_reset_window := app_reset_window a; app_aaguid := app_aaguid a;
  app_attestation_mode := app_attestation_mode a |}.

Definition with_large_blob (a : App) (v : LargeBlobState) : App := {|
  app_store := app_store a; app_world := app_world a; app_pin_state := app_pin_state a;
  app_stored_pin_state := app_stored_pin_state a; app_directory_flush := app_directory_flush a;
  app_cred_mgmt_state := app_cred_mgmt_state a; app_pending_assertion := app_pending_assertion a;
  app_large_blob_state := v; app_presence_timeout := app_presence_timeout a;
  app_reset_window := app_reset_window a; app_aaguid := app_aaguid a;
  app_attestation_mode := app_attestation_mode a |}.

Definition set_presence_timeout (a : App) (timeout : Z) : App := {|
  app_store := app_store a; app_world := app_world a; app_pin_state := app_pin_state a;
  app_stored_pin_state := app_stored_pin_state a; app_directory_flush := app_directory_flush a;
  app_cred_mgmt_state := app_cred_mgmt_state a; app_pending_assertion := app_pending_assertion a;
  app_large_blob_state := app_large_blob_state a; app_presence_timeout := timeout;
  app_reset_window := app_reset_window a; app_aaguid := app_aaguid a;
  app_attestation_mode := app_attestation_mode a |}.

Definition set_reset_window (a : App) (window : option Z) : App := {|
  app_store := app_store a; app_world := app_world a; app_pin_state := app_pin_state a;
  app_stored_pin_state := app_stored_pin_state a; app_directory_flush := app_directory_flush a;
  app_cred_mgmt_state := app_cred_mgmt_state a; app_pending_assertion := app_pending_assertion a;
  app_large_blob_state := app_large_blob_state a; app_presence_timeout := app_presence_timeout a;
  app_reset_window := window; app_aaguid := app_aaguid a;
  app_attestation_mode := app_attestation_mode a |}.

Definition set_attestation_mode (a : App) (mode : AttestationMode) : App := {|
  app_store := app_store a; app_world := app_world a; app_pin_state := app_pin_state a;
  app_stored_pin_state := app_stored_pin_state a; app_directory_flush := app_directory_flush a;
  app_cred_mgmt_state := app_cred_mgmt_state a; app_pending_assertion := app_pending_assertion a;
  app_large_blob_state := app_large_blob_state a; app_presence_timeout := app_presence_timeout a;
  app_reset_window := app_reset_window a; app_aaguid := app_aaguid a; app_attestation_mode := mode |}.

Definition with_retry (p : PinState) (v : PinRetryState) : PinState := {|
  ps_pin := v; ps_key_agreement := ps_key_agreement p; ps_token := ps_token p;
  ps_persistent_generation := ps_persistent_generation p |}.

Definition with_key_agreement (p : PinState) (v : KeyAgreementKeys) : PinState := {|
  ps_pin := ps_pin p; ps_key_agreement := v; ps_token := ps_token p;
  ps_persistent_generation := ps_persistent_generation p |}.

Definition with_token (p : PinState) (v : PinUvAuthTokenState) : PinState := {|
  ps_pin := ps_pin p; ps_key_agreement := ps_key_agreement p; ps_token := v;
  ps_persistent_generation := ps_persistent_generation p |}.

(** ** The outside world *)

(** [Clock::now]. *)
Definition now : M App Z Z := fun a =>
  let w := app_world a in
  (with_world a {| w_clock := w_clock w; w_clock_reads := w_clock_reads w + 1;
                   w_rng := w_rng w; w_rng_draws := w_rng_draws w;
                   w_cancelled := w_cancelled w; w_confirm := w_confirm w; w_asks := w_asks w;
                   w_os := w_os w; w_os_uses := w_os_uses w |},
   Ok (w_clock w (w_clock_reads w))).

(** [random_array::<N>]. *)
Definition random_array (n : nat) : M App bytes Z := fun a =>
  let w := app_world a in
  (with_world a {| w_clock := w_clock w; w_clock_reads := w_clock_reads w;
                   w_rng := w_rng w; w_rng_draws := w_rng_draws w + 1;
                   w_cancelled := w_cancelled w; w_confirm := w_confirm w; w_asks := w_asks w;
                   w_os := w_os w; w_os_uses := w_os_uses w |},
   Ok (fill_bytes (w_rng w (w_rng_draws w)) n)).

(** A request the platform already cancelled is never shown to the user.  The
    keepalive callbacks around the wait only reach the transport. *)
Definition ask_user (request : PresenceRequest) : M App PresenceOutcome Z := fun a =>
  let w := app_world a in
  (with_world a {| w_clock := w_clock w; w_clock_reads := w_clock_reads w;
                   w_rng := w_rng w; w_rng_draws := w_rng_draws w;
                   w_cancelled := w_cancelled w; w_confirm := w_confirm w; w_asks := w_asks w + 1;
                   w_os := w_os w; w_os_uses := w_os_uses w |},
   Ok (if w_cancelled w (w_asks w) then Cancelled else w_confirm w (w_asks w) request)).

(** [getrandom::SysRng], handed to an operation. *)
Definition sys_rng : M App (nat -> option (nat -> Z)) Z := fun a =>
  let w := app_world a in
  (with_world a {| w_clock := w_clock w; w_clock_reads := w_clock_reads w;
                   w_rng := w_rng w; w_rng_draws := w_rng_draws w;
                   w_cancelled := w_cancelled w; w_confirm := w_confirm w; w_asks := w_asks w;
                   w_os := w_os w; w_os_uses := w_os_uses w + 1 |},
   Ok (w_os w (w_os_uses w))).

Definition confirm_user_presence (request : PresenceRequest) : M App unit Z :=
  let* outcome := ask_user request in
  lift (presence_status (pr_operation request) outcome).

(** A store call, its error turned into a status by [f]. *)
Definition on_store {A E} (m : M S A E) (f : E -> Z) : M App A Z := fun a =>
  match m (app_store a) with
  | (s, Ok v) => (with_store a s, Ok v)
  | (s, Err e) => (with_store a s, Err (f e))
  end.

(** [storage::store_status]. *)
Definition store_status (e : StoreError) : Z :=
  match e with Full _ => CTAP2_ERR_KEY_STORE_FULL | _ => CTAP2_ERR_PROCESSING end.

(** ** [PinState] *)

Definition persistent (a : App) : PersistentPinState := prs_persistent (ps_pin (app_pin_state a)).

(** [PinState::from_persistent]. *)
Definition from_persistent (p : PersistentPinState) : PinState := {|
  ps_pin := power_up p; ps_key_agreement := KeyAgreementKeys_default; ps_token := token_default;
  ps_persistent_generation := 0 |}.

(** [PinState::reset]. *)
Definition pin_reset (p : PinState) : PinState := {|
  ps_pin := PinRetryState_default; ps_key_agreement := KeyAgreementKeys_default;
  ps_token := stop_using (ps_token p);
  ps_persistent_generation := u64_wrapping_add (ps_persistent_generation p) 1 |}.

(** [PinState::adopt_persistent]. *)
Definition adopt_persistent (new : PersistentPinState) (p : PinState) : PinState := {|
  ps_pin := {| prs_persistent := new;
               prs_consecutive_mismatches := prs_consecutive_mismatches (ps_pin p) |};
  ps_key_agreement := ps_key_agreement p;
  ps_token := ps_token p;
  ps_persistent_generation :=
    if bool_decide (pp_persistent_tokens (prs_persistent (ps_pin p)) = pp_persistent_tokens new)
    then ps_persistent_generation p
    else u64_wrapping_add (ps_persistent_generation p) 1 |}.

Definition invalidate_pin_uv_auth_tokens (p : PinState) : PinState :=
  with_token p (stop_using (ps_token p)).

(** [PinState::set_pin]. *)
Definition pin_set_pin (hash : bytes) (p : PinState) : PinState :=
  with_token (with_retry p (retry_set_pin (ps_pin p) hash)) (stop_using (ps_token p)).

(** [PinState::persistent_token]. *)
Definition persistent_token (p : PinState) (protocol : PinProtocol)
    : option PersistentTokenRecord :=
  match protocol with
  | V1 => fst (pp_persistent_tokens (prs_persistent (ps_pin p)))
  | V2 => snd (pp_persistent_tokens (prs_persistent (ps_pin p)))
  end.

Definition modify_pin (f : PinState -> PinState) : M App unit Z :=
  modify (fun a => with_pin_state a (f (app_pin_state a))).

Definition clear_cred_mgmt : M App unit Z := modify (fun a => with_cred_mgmt a cm_new).

(** A token query: reads the clock, then the (timer-observed) token. *)
Definition token_query {A} (q : Z -> PinUvAuthTokenState -> PinUvAuthTokenState * A) : M App A Z :=
  let* t := now in
  fun a => let (tk, v) := q t (ps_token (app_pin_state a)) in
           (with_pin_state a (with_token (app_pin_state a) tk), Ok v).

(** A token operation that can fail. *)
Definition token_check (op : Z -> M PinUvAuthTokenState unit Z) : M App unit Z :=
  let* t := now in
  fun a => let (tk, r) := op t (ps_token (app_pin_state a)) in
           (with_pin_state a (with_token (app_pin_state a) tk), r).

Definition app_has_permission (permission : Z) : M App bool Z :=
  token_query (fun t => has_permission t permission).

Definition pin_uv_auth_token_id : M App (option Z) Z := token_query in_use_id.

Definition app_permissions_rp_id : M App (option bytes) Z := token_query permissions_rp_id.

Definition app_token_origin : M App (option TokenOrigin) Z := token_query token_origin_of.

Definition app_user_verified_flag : M App bool Z := token_query user_verified_flag.

(** [PinState::consume_pin_uv_auth_token_after_user_presence]. *)
Definition app_consume_token : M App unit Z :=
  let* t := now in
  modify_pin (fun p => with_token p (consume_after_user_presence t (ps_token p))).

(** [PinState::issue_pin_uv_auth_token]. *)
Definition issue_pin_uv_auth_token (protocol : PinProtocol) (token : bytes) (grant : TokenGrant)
    : M App unit Z :=
  let* t := now in
  modify_pin (fun p => with_token p (begin_using t protocol token false grant (ps_token p))).

Context `{Crypto} `{CredentialStore S}.

Definition verify_pin_uv_auth_param (protocol : PinProtocol) (message param : bytes) : M App unit Z :=
  token_check (fun t => token_verify t protocol message param).

(** ** [ctap/storage.rs] *)

Definition persistent_of_record (r : PinStateRecord) : PersistentPinState := {|
  pp_pin_hash := psr_pin_hash r; pp_pin_retries := psr_pin_retries r;
  pp_min_pin_length := psr_min_pin_length r;
  pp_min_pin_length_rp_ids := psr_min_pin_length_rp_ids r;
  pp_force_pin_change := psr_force_pin_change r;
  pp_pin_code_point_length := psr_pin_code_point_length r; pp_always_uv := psr_always_uv r;
  pp_pin_complexity_policy := psr_pin_complexity_policy r;
  pp_persistent_tokens := psr_persistent_tokens r |}.

Definition record_of_persistent (p : PersistentPinState) : PinStateRecord := {|
  psr_pin_hash := pp_pin_hash p; psr_pin_retries := pp_pin_retries p;
  psr_consecutive_failures := 0; psr_pin_auth_blocked := false;
  psr_min_pin_length := pp_min_pin_length p;
  psr_min_pin_length_rp_ids := pp_min_pin_length_rp_ids p;
  psr_force_pin_change := pp_force_pin_change p;
  psr_pin_code_point_length := pp_pin_code_point_length p; psr_always_uv := pp_always_uv p;
  psr_pin_complexity_policy := pp_pin_complexity_policy p;
  psr_persistent_tokens := pp_persistent_tokens p |}.

Definition closes_authority (e : StoreError) : bool :=
  match e with
  | Io => false
  | Corrupt _ | KeyUnavailable _ => true
  | CredentialSetUnavailable | Full _ | InvalidRecord _ | Random => true
  end.

(** The persistent part of [unreadable_pin_state]: set to an unguessable hash,
    blocked, always-UV. *)
Definition unreadable_persistent (hash : bytes) : PersistentPinState := {|
  pp_pin_hash := Some hash; pp_pin_retries := 0;
  pp_min_pin_length := pp_min_pin_length PersistentPinState_default;
  pp_min_pin_length_rp_ids := [];
  pp_force_pin_change := pp_force_pin_change PersistentPinState_default;
  pp_pin_code_point_length := pp_pin_code_point_length PersistentPinState_default;
  pp_always_uv := true;
  pp_pin_complexity_policy := pp_pin_complexity_policy PersistentPinState_default;
  pp_persistent_tokens := (None, None) |}.

Definition unreadable_pin_state : M App PinState Z :=
  let* hash := random_array 16 in
  ret (from_persistent (unreadable_persistent hash)).

(** [Err] of the read is a value here: the caller decides. *)
Definition read_store_pin_state : M App (result (option PinStateRecord) StoreError) Z := fun a =>
  let (s, r) := st_pin_state (app_store a) in (with_store a s, Ok r).

Definition load_pin_state : M App (PinState * StoredPinState) Z :=
  let* loaded := read_store_pin_state in
  match loaded with
  | Ok (Some record) => ret (from_persistent (persistent_of_record record), Read)
  | Ok None => ret (from_persistent PersistentPinState_default, Read)
  | Err e =>
      let* closed := unreadable_pin_state in
      ret (closed, if closes_authority e then Unreadable else Unread)
  end.

(** [CtapApp::new] over [store], in the world [w]. *)
Definition ctap_app_new (store : S) (w : World) (aaguid : bytes) : App :=
  let a := {|
    app_store := store; app_world := w; app_pin_state := from_persistent PersistentPinState_default;
    app_stored_pin_state := Unread; app_directory_flush := None; app_cred_mgmt_state := cm_new;
    app_pending_assertion := None; app_large_blob_state := LargeBlobState_default;
    app_presence_timeout := DEFAULT_PRESENCE_TIMEOUT;
    app_reset_window := Some RESET_WINDOW_AFTER_POWER_UP; app_aaguid := aaguid;
    app_attestation_mode := SelfAttestation |} in
  match load_pin_state a with
  | (a', Ok (p, st)) => with_stored_pin_state (with_pin_state a' p) st
  | (a', Err _) => a'
  end.

Definition read_unread_pin_state : M App unit Z :=
  let* loaded := load_pin_state in
  modify (fun a => with_stored_pin_state a (snd loaded)) ;;*
  match snd loaded with
  | Read =>
      modify_pin (adopt_persistent (prs_persistent (ps_pin (fst loaded)))) ;;*
      modify_pin invalidate_pin_uv_auth_tokens ;;*
      clear_cred_mgmt
  | Unread | Unreadable => fail CTAP2_ERR_PROCESSING
  end.

(** Everything of the persistent state but retries and tokens. *)
Definition changed_pin (current : PersistentPinState) (record : PinStateRecord) : bool :=
  negb (bool_decide (pp_pin_hash current = psr_pin_hash record))
  || negb (pp_min_pin_length current =? psr_min_pin_length record)
  || negb (bool_decide (pp_min_pin_length_rp_ids current = psr_min_pin_length_rp_ids record))
  || negb (Bool.eqb (pp_force_pin_change current) (psr_force_pin_change record))
  || negb (pp_pin_code_point_length current =? psr_pin_code_point_length record)
  || negb (Bool.eqb (pp_always_uv current) (psr_always_uv record))
  || negb (Bool.eqb (pp_pin_complexity_policy current) (psr_pin_complexity_policy record)).

(** The closed authority of [refresh_persistent_authority]. *)
Definition close_authority : M App unit Z := fun a =>
  let closed := set_pp_always_uv
    (set_pp_pin_retries (set_pp_persistent_tokens (persistent a) (None, None)) 0) true in
  let a1 := with_pin_state a (invalidate_pin_uv_auth_tokens (adopt_persistent closed (app_pin_state a))) in
  (with_stored_pin_state (with_cred_mgmt a1 cm_new) Unreadable, Ok tt).

Definition adopt_record (record : PinStateRecord) : M App unit Z := fun a =>
  let current := persistent a in
  let changed := changed_pin current record in
  if changed || negb (bool_decide (pp_persistent_tokens current = psr_persistent_tokens record)) then
    let p0 := app_pin_state a in
    let p1 := if changed then invalidate_pin_uv_auth_tokens p0 else p0 in
    (with_cred_mgmt (with_pin_state a (adopt_persistent (persistent_of_record record) p1)) cm_new,
     Ok tt)
  else (a, Ok tt).

Definition refresh_persistent_authority : M App unit Z := fun a0 =>
  match app_stored_pin_state a0 with
  | Unread => read_unread_pin_state a0
  | Unreadable => (a0, Ok tt)
  | Read =>
      (let* loaded := read_store_pin_state in
       fun a =>
         match loaded with
         | Ok (Some record) => adopt_record record a
         | Ok None =>
             match pp_pin_hash (persistent a), pp_persistent_tokens (persistent a) with
             | None, (None, None) => (a, Ok tt)
             | _, _ => (close_authority ;;* fail CTAP2_ERR_PROCESSING) a
             end
         | Err e =>
             if closes_authority e then (close_authority ;;* fail (store_status e)) a
             else (a, Err (store_status e))
         end) a0
  end.

Definition reconcile_persistent_authority : M App unit Z := fun a0 =>
  match refresh_persistent_authority a0 with
  | (a, Ok _) => (a, Ok tt)
  | (a, Err _) =>
      match app_stored_pin_state a with
      | Read =>
          (let* closed := unreadable_pin_state in
           modify_pin (adopt_persistent (prs_persistent (ps_pin closed))) ;;*
           modify_pin invalidate_pin_uv_auth_tokens ;;*
           clear_cred_mgmt ;;*
           modify (fun a => with_stored_pin_state a Unread)) a
      | Unread | Unreadable => (a, Ok tt)
      end
  end.

Definition read_pin_state_if_unread : M App unit Z := fun a =>
  match app_stored_pin_state a with
  | Unread => refresh_persistent_authority a
  | Read | Unreadable => (a, Ok tt)
  end.

(** [for _ in 0..8]. *)
Fixpoint fresh_secret_loop (attempts : nat) (forbidden : list bytes) (persistent_secret : bool)
    : M App bytes Z :=
  match attempts with
  | O => fail CTAP2_ERR_PROCESSING
  | Datatypes.S attempts' =>
      let* candidate := random_array 32 in
      fun a =>
        if existsb (fun b => negb (b =? 0)) candidate
           && negb (existsb (fun old => bytes_eqb old candidate) forbidden)
           && (negb persistent_secret
               || negb (secret_matches candidate (ps_token (app_pin_state a))))
        then (a, Ok candidate)
        else fresh_secret_loop attempts' forbidden persistent_secret a
  end.

Definition fresh_token_secret (forbidden : list bytes) (persistent_secret : bool) : M App bytes Z :=
  fresh_secret_loop 8 forbidden persistent_secret.

Definition token_secrets (t : PersistentTokens) : list bytes := map pt_secret (tokens_list t).

(** Both protocols' authorities replaced by fresh, ungranted ones. *)
Definition rotate_persistent_tokens (p : PersistentPinState) : M App PersistentPinState Z :=
  let preceding := token_secrets (pp_persistent_tokens p) in
  let* s1 := fresh_token_secret preceding true in
  let* s2 := fresh_token_secret (preceding ++ [s1]) true in
  ret (set_pp_persistent_tokens p
         (Some {| pt_secret := s1; pt_granted := false |},
          Some {| pt_secret := s2; pt_granted := false |})).

Definition save_pin_state (p : PersistentPinState) : M App CommitDurability Z := fun a =>
  match app_stored_pin_state a with
  | Read => on_store (st_set_pin_state (record_of_persistent p)) store_status a
  | Unread | Unreadable => (a, Err CTAP2_ERR_PROCESSING)
  end.

Definition save_persistent_pin_state : M App CommitDurability Z := fun a =>
  save_pin_state (persistent a) a.

(** Whether the store cannot flush its directory: asked once, the answer kept
    unless the flush merely failed. *)
Definition unsupported_directory_flush : M App bool Z := fun a =>
  match app_directory_flush a with
  | Some (Unsupported _) => (a, Ok true)
  | Some _ => (a, Ok false)
  | None =>
      let (s, f) := st_directory_flush (app_store a) in
      let a' := with_store a s in
      match f with
      | Failed _ => (a', Ok false)
      | Unsupported e => (with_directory_flush a' (Some f), Ok true)
      | Supported => (with_directory_flush a' (Some f), Ok false)
      end
  end.

Definition stored_credentials : M App (list CredentialRecord) Z := on_store st_list store_status.

Definition stored_credential (credential_id : bytes) : M App (option CredentialRecord) Z := fun a =>
  match st_get credential_id (app_store a) with
  | (s, Ok r) => (with_store a s, Ok r)
  | (s, Err (Corrupt _)) => (with_store a s, Ok None)
  | (s, Err e) => (with_store a s, Err (store_status e))
  end.

(** ** [ctap/pin/protocol.rs] *)

Definition parse_pin_uv_auth_protocol (value : Value) : result PinProtocol Z :=
  match value with
  | VInteger n => if n =? 1 then Ok V1 else if n =? 2 then Ok V2 else Err CTAP1_ERR_INVALID_PARAMETER
  | _ => Err CTAP2_ERR_CBOR_UNEXPECTED_TYPE
  end.

Definition parse_required_pin_uv_auth_protocol (value : option Value) : result PinProtocol Z :=
  let? v := ok_or value CTAP2_ERR_MISSING_PARAMETER in parse_pin_uv_auth_protocol v.

Definition parse_pin_uv_auth_param (param protocol : option Value)
    : result (option (PinProtocol * bytes)) Z :=
  match param with
  | None => Ok None
  | Some (VBytes b) =>
      let? p := parse_required_pin_uv_auth_protocol protocol in Ok (Some (p, b))
  | Some _ => Err CTAP2_ERR_CBOR_UNEXPECTED_TYPE
  end.

Definition key_slot (k : KeyAgreementKeys) (protocol : PinProtocol) : option bytes :=
  match protocol with V1 => protocol_one k | V2 => protocol_two k end.

Definition set_key_slot (k : KeyAgreementKeys) (protocol : PinProtocol) (v : option bytes)
    : KeyAgreementKeys :=
  match protocol with
  | V1 => {| protocol_one := v; protocol_two := protocol_two k |}
  | V2 => {| protocol_one := protocol_one k; protocol_two := v |}
  end.

Definition regenerate (protocol : PinProtocol) (k : KeyAgreementKeys) : KeyAgreementKeys :=
  set_key_slot k protocol None.

(** [(0..KEY_AGREEMENT_KEY_ATTEMPTS).find_map(..)]. *)
Fixpoint draw_key (attempts : nat) : M App bytes Z :=
  match attempts with
  | O => fail CTAP2_ERR_PROCESSING
  | Datatypes.S attempts' =>
      let* b := random_array 32 in
      if p256_scalar_valid b then ret b else draw_key attempts'
  end.

Definition KEY_AGREEMENT_KEY_ATTEMPTS : nat := 8.

Definition key_agreement_key (protocol : PinProtocol) : M App bytes Z := fun a =>
  match key_slot (ps_key_agreement (app_pin_state a)) protocol with
  | Some k => (a, Ok k)
  | None =>
      (let* k := draw_key KEY_AGREEMENT_KEY_ATTEMPTS in
       modify_pin (fun p => with_key_agreement p
                     (set_key_slot (ps_key_agreement p) protocol (Some k))) ;;*
       ret k) a
  end.

(** [KeyAgreementKey::decapsulate] with secret key [secret]. *)
Definition decapsulate_with (secret : bytes) (protocol : PinProtocol) (platform_key : Entries)
    : result PinUvSessionKeys Z :=
  let label n := map_get platform_key (VInteger n) in
  let is_int o n := match o with Some (VInteger m) => m =? n | _ => false end in
  if negb (is_int (label 1) 2) || negb (is_int (label (-1)) 1)
     || negb (is_int (label 3) (-25) || is_int (label 3) (-7))
  then Err CTAP1_ERR_INVALID_PARAMETER
  else
    match label (-2), label (-3) with
    | Some (VBytes x), Some (VBytes y) =>
        if negb ((length x =? 32)%nat && (length y =? 32)%nat) then Err CTAP1_ERR_INVALID_PARAMETER
        else
          let? peer := ok_or (p256_point ([0x04] ++ x ++ y)) CTAP1_ERR_INVALID_PARAMETER in
          Ok (try_derive_classic_pin_uv_session_keys protocol (p256_ecdh secret peer))
    | _, _ => Err CTAP1_ERR_INVALID_PARAMETER
    end.

Definition decapsulate (protocol : PinProtocol) (platform_key : Entries)
    : M App PinUvSessionKeys Z :=
  let* secret := key_agreement_key protocol in
  lift (decapsulate_with secret protocol platform_key).

Definition encrypt_for_platform (protocol : PinProtocol) (keys : PinUvSessionKeys)
    (plaintext : bytes) : M App bytes Z :=
  let* iv := match protocol with
             | V1 => ret None
             | V2 => let* r := random_array 16 in ret (Some r)
             end in
  lift (map_err (fun _ => CTAP2_ERR_PROCESSING)
          (encrypt_classic_pin_block protocol keys iv plaintext)).

End Engine.
