(* ===== verification/EngineProofs.v ===== *)
(** * The engine's PIN state and the stored one

    A frame library for the engine's operations, and the invariant that ties
    the live PIN state to the published one: whenever the engine counts the
    stored state as read, a restart would find exactly what is live. *)

From S2P Require Import Prelude Constants Crypto Cbor Records PinRetry Token Presence Store Engine.

Section Frames.

Context {S : Type} `{Crypto} `{CredentialStore S} `{!PinStoreLaws S}.

#[local] Abbreviation App := (CtapApp S).

(** What the PIN theorems look at: the published record, the live persistent
    state, and what the engine has read. *)
Definition view (a : App) : option PinStateRecord * PersistentPinState * StoredPinState :=
  (pin_view (app_store a), persistent a, app_stored_pin_state a).

Definition same_view {A} (m : M App A Z) : Prop := forall a, view (fst (m a)) = view a.

(** [m] keeps [P] whatever it returns. *)
Definition keeps {A} (P : App -> Prop) (m : M App A Z) : Prop := forall a, P a -> P (fst (m a)).

Definition view_prop (P : App -> Prop) : Prop := forall a b, view a = view b -> P a -> P b.

Lemma keeps_same_view {A} P (m : M App A Z) : view_prop P -> same_view m -> keeps P m.
Proof. intros HP Hm a Ha. eapply HP; [|exact Ha]. symmetry. apply Hm. Qed.

Lemma keeps_bind {A B} P (m : M App A Z) (k : A -> M App B Z) :
  keeps P m -> (forall x, keeps P (k x)) -> keeps P (mbind_st m k).
Proof.
  intros Hm Hk a Ha. unfold mbind_st. specialize (Hm a Ha).
  destruct (m a) as [a' [x|e]]; simpl in *; [by apply Hk|done].
Qed.

Lemma same_view_bind {A B} (m : M App A Z) (k : A -> M App B Z) :
  same_view m -> (forall x, same_view (k x)) -> same_view (mbind_st m k).
Proof.
  intros Hm Hk a. unfold mbind_st. specialize (Hm a).
  destruct (m a) as [a' [x|e]]; simpl in *; [by rewrite Hk|done].
Qed.

(** Run a step that leaves the view alone, keeping what is known of it. *)
Lemma run_same_view {A B} P (m : M App A Z) (k : A -> M App B Z) a :
  view_prop P -> same_view m -> P a ->
  (forall x b, view b = view a -> P b -> P (fst (k x b))) -> P (fst (mbind_st m k a)).
Proof.
  intros HP Hm Ha Hk. unfold mbind_st. specialize (Hm a).
  destruct (m a) as [b [x|e]]; simpl in *.
  - apply Hk; [done|]. eapply HP; [symmetry; exact Hm|done].
  - eapply HP; [symmetry; exact Hm|done].
Qed.

Lemma same_view_pure {A} (f : App -> result A Z) : same_view (fun a => (a, f a)).
Proof. by intros a. Qed.

Lemma same_view_ret {A} (x : A) : same_view (ret x).
Proof. by intros a. Qed.

Lemma same_view_fail {A} e : same_view (@fail App A Z e).
Proof. by intros a. Qed.

Lemma same_view_lift {A} (r : result A Z) : same_view (lift r).
Proof. by intros a. Qed.

Lemma same_view_gets {A} (f : App -> A) : same_view (gets f).
Proof. by intros a. Qed.

Lemma same_view_now : same_view now.
Proof. by intros a. Qed.

Lemma same_view_random n : same_view (random_array n).
Proof. by intros a. Qed.

Lemma same_view_ask r : same_view (ask_user r).
Proof. by intros a. Qed.

Lemma same_view_clear_cm : same_view clear_cred_mgmt.
Proof. by intros a. Qed.

Lemma same_view_modify_pin f :
  (forall p, prs_persistent (ps_pin (f p)) = prs_persistent (ps_pin p)) -> same_view (modify_pin f).
Proof. intros Hf a. unfold view, persistent. simpl. by rewrite Hf. Qed.

Lemma same_view_modify (f : App -> App) : (forall a, view (f a) = view a) -> same_view (modify f).
Proof. intros Hf a. apply Hf. Qed.

Lemma same_view_token_query {A} q : same_view (@token_query S A q).
Proof.
  apply same_view_bind; [apply same_view_now|]. intros t a.
  by destruct (q t _) as [tk v].
Qed.

Lemma same_view_token_check op : same_view (@token_check S op).
Proof.
  apply same_view_bind; [apply same_view_now|]. intros t a. by destruct (op t _) as [tk v].
Qed.

Lemma same_view_on_store {A E} (m : M S A E) f : preserves pin_view m -> same_view (on_store m f).
Proof.
  intros Hm a. unfold on_store. specialize (Hm (app_store a)).
  destruct (m (app_store a)) as [s [v|e]]; unfold view; simpl in *; by rewrite Hm.
Qed.

Lemma same_view_stored_credential id : same_view (stored_credential id).
Proof.
  intros a. unfold stored_credential. pose proof (pin_get id (app_store a)) as Hg.
  destruct (st_get id (app_store a)) as [s [v|[]]]; unfold view; simpl in *; by rewrite Hg.
Qed.

Lemma same_view_stored_credentials : same_view stored_credentials.
Proof. apply same_view_on_store, pin_list. Qed.

Lemma same_view_read_store : same_view read_store_pin_state.
Proof.
  intros a. unfold read_store_pin_state. destruct (st_pin_state (app_store a)) as [s r] eqn:E.
  apply pin_read in E as [E _]. unfold view. simpl. by rewrite E.
Qed.

Lemma same_view_flush : same_view unsupported_directory_flush.
Proof.
  intros a. unfold unsupported_directory_flush. pose proof (pin_flush (app_store a)) as Hf.
  destruct (app_directory_flush a) as [[]|]; try done.
  destruct (st_directory_flush (app_store a)) as [s [|e|e]]; unfold view; simpl in *; by rewrite Hf.
Qed.

Lemma same_view_fresh_loop n forbidden b : same_view (@fresh_secret_loop S n forbidden b).
Proof.
  induction n as [|n IH]; simpl; [apply same_view_fail|].
  apply same_view_bind; [apply same_view_random|]. intros c a. destruct (_ && _); [done|apply IH].
Qed.

Lemma same_view_fresh forbidden b : same_view (@fresh_token_secret S forbidden b).
Proof. apply same_view_fresh_loop. Qed.

Lemma same_view_rotate p : same_view (@rotate_persistent_tokens S p).
Proof.
  apply same_view_bind; [apply same_view_fresh|]. intros s1.
  apply same_view_bind; [apply same_view_fresh|]. intros s2. apply same_view_ret.
Qed.

Lemma same_view_draw_key n : same_view (@draw_key S _ n).
Proof.
  induction n as [|n IH]; simpl; [apply same_view_fail|].
  apply same_view_bind; [apply same_view_random|]. intros b.
  destruct (p256_scalar_valid b); [apply same_view_ret|apply IH].
Qed.

Lemma same_view_key_agreement_key p : same_view (@key_agreement_key S _ p).
Proof.
  intros a. unfold key_agreement_key. destruct (key_slot _ _); [done|].
  apply same_view_bind; [apply same_view_draw_key|]. intros k.
  apply same_view_bind; [by apply same_view_modify_pin|]. intros _. apply same_view_ret.
Qed.

Lemma same_view_decapsulate p k : same_view (@decapsulate S _ p k).
Proof.
  apply same_view_bind; [apply same_view_key_agreement_key|]. intros s. apply same_view_lift.
Qed.

Lemma same_view_encrypt p k t : same_view (@encrypt_for_platform S _ p k t).
Proof.
  apply same_view_bind; [|intros; apply same_view_lift].
  destruct p; [apply same_view_ret|].
  apply same_view_bind; [apply same_view_random|]. intros. apply same_view_ret.
Qed.

Lemma same_view_confirm r : same_view (@confirm_user_presence S r).
Proof. apply same_view_bind; [apply same_view_ask|]. intros o. apply same_view_lift. Qed.

Lemma same_view_issue p t g : same_view (@issue_pin_uv_auth_token S p t g).
Proof. apply same_view_bind; [apply same_view_now|]. intros n. by apply same_view_modify_pin. Qed.

Lemma same_view_verify_param p m s : same_view (@verify_pin_uv_auth_param S _ p m s).
Proof. apply same_view_token_check. Qed.

Lemma same_view_guard b e : same_view (@guard App Z b e).
Proof. by destruct b; intros a. Qed.

Lemma same_view_has_permission p : same_view (@app_has_permission S p).
Proof. apply same_view_token_query. Qed.

Lemma same_view_token_id : same_view (@pin_uv_auth_token_id S).
Proof. apply same_view_token_query. Qed.

(** ** Records *)

Lemma persistent_record_persistent p : persistent_of_record (record_of_persistent p) = p.
Proof. by destruct p. Qed.

Lemma power_up_bounded p :
  pp_pin_retries p <= MAX_PIN_RETRIES -> prs_persistent (power_up p) = p.
Proof. intros Hp. simpl. rewrite Z.min_l by done. by destruct p. Qed.

(** A record the engine can have written: retries within the budget, and full
    while no PIN is set. *)
Definition record_ok (r : PinStateRecord) : Prop :=
  0 <= psr_pin_retries r <= MAX_PIN_RETRIES /\
  (psr_pin_hash r = None -> psr_pin_retries r = MAX_PIN_RETRIES).

Definition persistent_ok (p : PersistentPinState) : Prop :=
  0 <= pp_pin_retries p <= MAX_PIN_RETRIES /\
  (pp_pin_hash p = None -> pp_pin_retries p = MAX_PIN_RETRIES).

Lemma record_ok_default : record_ok PinStateRecord_default.
Proof. split; [vm_compute; split; discriminate|done]. Qed.

Lemma persistent_ok_default : persistent_ok PersistentPinState_default.
Proof. split; [vm_compute; split; discriminate|done]. Qed.

(** ** The invariant *)

(** Live and published agree. *)
Definition synced (a : App) : Prop :=
  match pin_view (app_store a) with
  | Some r => persistent_of_record r = persistent a
  | None => persistent a = PersistentPinState_default
  end.

Record pin_inv (a : App) : Prop := {
  pi_store : forall r, pin_view (app_store a) = Some r -> record_ok r;
  pi_bounds : 0 <= pp_pin_retries (persistent a) <= MAX_PIN_RETRIES;
  pi_synced : app_stored_pin_state a = Read -> synced a
}.

Lemma pin_inv_view : view_prop pin_inv.
Proof.
  intros a b Hv [Hs Hb Hy]. unfold view in Hv. injection Hv as Hv1 Hv2 Hv3.
  split; unfold synced in *; rewrite <- ?Hv1, <- ?Hv2, <- ?Hv3; auto.
Qed.

Lemma pin_inv_live_ok a : pin_inv a -> app_stored_pin_state a = Read -> persistent_ok (persistent a).
Proof.
  intros [Hs Hb Hy] Hr. specialize (Hy Hr). unfold synced in Hy.
  destruct (pin_view (app_store a)) as [r|] eqn:E.
  - rewrite <- Hy. destruct (Hs r eq_refl) as [H1 H2]. by split.
  - rewrite Hy. apply persistent_ok_default.
Qed.

(** Publishing [p] and then adopting it keeps the invariant. *)
Lemma pin_inv_published a s p (f : PinState -> PinState) :
  pin_inv a -> persistent_ok p ->
  pin_view s = Some (record_of_persistent p) ->
  prs_persistent (ps_pin (f (app_pin_state a))) = p ->
  pin_inv (with_pin_state (with_store a s) (f (app_pin_state a))).
Proof.
  intros [Hs Hb Hy] [Hp1 Hp2] Hv Hf. split; unfold synced, persistent; simpl; rewrite ?Hv, ?Hf.
  - intros r [= <-]. by split.
  - done.
  - intros _. apply persistent_record_persistent.
Qed.

Lemma save_pin_state_spec p a a' r :
  save_pin_state p a = (a', r) ->
  match r with
  | Ok _ => app_stored_pin_state a = Read /\
            exists s, a' = with_store a s /\ pin_view s = Some (record_of_persistent p)
  | Err _ => view a' = view a
  end.
Proof.
  unfold save_pin_state, on_store. destruct (app_stored_pin_state a) eqn:E;
    [|intros [= <- <-]; done|intros [= <- <-]; done].
  destruct (st_set_pin_state _ _) as [s [d|e]] eqn:Hw; apply pin_write in Hw; intros [= <- <-].
  - destruct Hw as [Hw _]. eauto.
  - unfold view. simpl. by rewrite Hw.
Qed.

Lemma with_store_view a s p :
  pin_view s = Some (record_of_persistent p) ->
  view (with_store a s) = (Some (record_of_persistent p), persistent a, app_stored_pin_state a).
Proof. intros Hs. unfold view. simpl. by rewrite Hs. Qed.

(** The write-then-adopt pattern of the engine: a published candidate becomes
    live, a failed write changes nothing. *)
Lemma keeps_save_adopt {B} p f (k : CommitDurability -> M App B Z) a :
  pin_inv a -> persistent_ok p ->
  (forall q, prs_persistent (ps_pin (f q)) = p) ->
  (forall d, keeps pin_inv (k d)) ->
  pin_inv (fst ((let* d := save_pin_state p in modify_pin f ;;* k d) a)).
Proof.
  intros Hi Hp Hf Hk. unfold mbind_st.
  destruct (save_pin_state p a) as [a1 [d|e]] eqn:Hsv; apply save_pin_state_spec in Hsv.
  - destruct Hsv as (_ & s & -> & Hs). simpl. apply Hk. by eapply pin_inv_published.
  - simpl. eapply pin_inv_view; [symmetry; exact Hsv|done].
Qed.

Lemma pin_inv_of_view a p st :
  view a = (Some (record_of_persistent p), p, st) -> persistent_ok p -> pin_inv a.
Proof.
  intros Hv [Hp1 Hp2]. unfold view in Hv. injection Hv as Hv1 Hv2 _.
  split; unfold synced; rewrite ?Hv1, ?Hv2; [|done|].
  - intros r [= <-]. by split.
  - intros _. apply persistent_record_persistent.
Qed.

(** Publish [p], then run [k], which makes [p] the live state. *)
Lemma publish_then {B} p (k : CommitDurability -> M App B Z) a :
  pin_inv a -> (app_stored_pin_state a = Read -> persistent_ok p) ->
  (forall d s, pin_view s = Some (record_of_persistent p) ->
     view (fst (k d (with_store a s))) = (Some (record_of_persistent p), p, Read)) ->
  pin_inv (fst ((let* d := save_pin_state p in k d) a)).
Proof.
  intros Hi Hp Hk. unfold mbind_st.
  destruct (save_pin_state p a) as [a1 [d|e]] eqn:Hs; apply save_pin_state_spec in Hs.
  - destruct Hs as (Hst & s & -> & Hs). eapply pin_inv_of_view; eauto.
  - simpl. eapply pin_inv_view; [symmetry; exact Hs|done].
Qed.

(** Every record the store can show is one an engine wrote. *)
Definition records_ok (a : App) : Prop := forall r, pin_view (app_store a) = Some r -> record_ok r.

Lemma pin_inv_closed a : records_ok a -> pin_inv (fst (close_authority a)).
Proof.
  intros Hs. split; simpl; [done|unfold persistent; simpl; vm_compute; split; discriminate|done].
Qed.

Lemma load_spec a a' p st :
  load_pin_state a = (a', Ok (p, st)) ->
  view a' = view a /\
  match st with
  | Read => (exists r, pin_view (app_store a) = Some r /\ p = from_persistent (persistent_of_record r)) \/
            (pin_view (app_store a) = None /\ p = from_persistent PersistentPinState_default)
  | _ => exists h, p = from_persistent (unreadable_persistent h)
  end.
Proof.
  unfold load_pin_state, mbind_st. pose proof (same_view_read_store a) as Hv.
  unfold read_store_pin_state in *. destruct (st_pin_state (app_store a)) as [s r] eqn:E.
  apply pin_read in E as [_ E]. simpl in Hv.
  destruct r as [[r|]|e]; simpl.
  - intros [= <- <- <-]. split; [done|]. left. exists r. by rewrite <- (E _ eq_refl).
  - intros [= <- <- <-]. split; [done|]. right. by rewrite <- (E _ eq_refl).
  - intros [= <- <- <-]. split; [done|]. destruct (closes_authority e); eauto.
Qed.

Lemma load_ok a : exists a' p st, load_pin_state a = (a', Ok (p, st)).
Proof.
  unfold load_pin_state, mbind_st, read_store_pin_state.
  destruct (st_pin_state (app_store a)) as [s [[r|]|e]]; simpl; eauto.
Qed.

Lemma keeps_read_unread : keeps pin_inv read_unread_pin_state.
Proof.
  intros a Hi. unfold read_unread_pin_state, mbind_st.
  destruct (load_ok a) as (a1 & p & st & Hl). rewrite Hl. apply load_spec in Hl as [Hv Hl].
  assert (Hi1 : pin_inv a1) by (eapply pin_inv_view; [symmetry; exact Hv|done]).
  unfold view in Hv. injection Hv as Hv1 Hv2 Hv3. destruct Hi1 as [Hs Hb Hy].
  destruct st; simpl; try (by split).
  destruct Hl as [(r & Hr & ->)|[Hr ->]].
  - assert (Hok : record_ok r) by (apply Hs; congruence). destruct Hok as [Hok1 Hok2].
    assert (Hp : prs_persistent (power_up (persistent_of_record r)) = persistent_of_record r)
      by (apply power_up_bounded; apply Hok1).
    split; unfold synced, persistent; cbn -[power_up]; rewrite ?Hv1, ?Hr, ?Hp; auto.
    intros r' [= <-]. by split.
  - split; unfold synced, persistent; cbn; rewrite ?Hv1, ?Hr; auto; [done|].
    vm_compute; split; discriminate.
Qed.

(** A live state that agrees with the record except for what a failed reset
    left is brought back in line. *)
Lemma adopt_record_inv a r :
  (forall q, pin_view (app_store a) = Some q -> record_ok q) ->
  pin_view (app_store a) = Some r -> persistent_ok (persistent a) ->
  (persistent_of_record r = persistent a \/ r = PinStateRecord_default) ->
  pin_inv (fst (adopt_record r a)).
Proof.
  intros Hs Hr [Hb1 Hb2] Hcase. unfold adopt_record. pose proof (Hs r Hr) as [Hok1 Hok2].
  destruct (changed_pin _ _ || _) eqn:Hch; simpl.
  - split; unfold synced, persistent; simpl; rewrite ?Hr; auto.
    intros q [= <-]. by split.
  - split; unfold synced; [done|done|]. intros _. rewrite Hr.
    destruct Hcase as [Hc| ->]; [done|].
    unfold changed_pin in Hch. bool_hyps. simpl in *.
    destruct (persistent a) as [h rt ml ids f l u c t] eqn:Hp. simpl in *.
    repeat match goal with Hx : Bool.eqb _ _ = true |- _ => apply Bool.eqb_prop in Hx end.
    rewrite Hb2 by done. unfold persistent_of_record. simpl. congruence.
Qed.

Lemma keeps_refresh : keeps pin_inv refresh_persistent_authority.
Proof.
  intros a Hi. unfold refresh_persistent_authority.
  destruct (app_stored_pin_state a) eqn:Hst; [|by apply keeps_read_unread|done].
  unfold mbind_st. pose proof (same_view_read_store a) as Hv.
  unfold read_store_pin_state in *. destruct (st_pin_state (app_store a)) as [s r] eqn:E.
  apply pin_read in E as [Epv E]. simpl in Hv. set (a1 := with_store a s) in *.
  assert (Hi1 : pin_inv a1) by (eapply pin_inv_view; [symmetry; exact Hv|done]).
  destruct r as [[r|]|e].
  - apply adopt_record_inv; [apply Hi1| | |].
    + unfold a1. simpl. by rewrite Epv, <- (E _ eq_refl).
    + apply pin_inv_live_ok; done.
    + left. pose proof (pi_synced _ Hi1 Hst) as Hy. unfold synced in Hy.
      unfold a1 in *. simpl in Hy. by rewrite Epv, <- (E _ eq_refl) in Hy.
  - destruct (pp_pin_hash (persistent a1)), (pp_persistent_tokens (persistent a1)) as [[] []];
      try exact Hi1; apply pin_inv_closed; exact (pi_store _ Hi1).
  - destruct (closes_authority e); [apply pin_inv_closed; exact (pi_store _ Hi1)|exact Hi1].
Qed.

Lemma keeps_if_unread : keeps pin_inv read_pin_state_if_unread.
Proof.
  intros a Hi. unfold read_pin_state_if_unread.
  destruct (app_stored_pin_state a); try done. by apply keeps_refresh.
Qed.

(** A fresh engine over a store whose PIN state some engine wrote. *)
Lemma pin_inv_new s w aaguid :
  (forall r, pin_view s = Some r -> record_ok r) -> pin_inv (ctap_app_new s w aaguid).
Proof.
  intros Hs. unfold ctap_app_new.
  match goal with |- context [load_pin_state ?x] => set (a0 := x) end.
  destruct (load_ok a0) as (a' & p & st & Hl). rewrite Hl.
  apply load_spec in Hl as [Hv Hl]. unfold view in Hv. injection Hv as Hv _ _.
  change (app_store a0) with s in *.
  assert (Hunread : forall h, p = from_persistent (unreadable_persistent h) -> st <> Read ->
            pin_inv (with_stored_pin_state (with_pin_state a' p) st)).
  { intros h -> Hne. split; simpl; [by rewrite Hv|vm_compute; split; discriminate|done]. }
  destruct st; [|destruct Hl as [h Hl]; by eapply Hunread..].
  destruct Hl as [(r & Hr & ->)|[Hr ->]].
  - destruct (Hs r Hr) as [Hok1 Hok2].
    assert (Hp : prs_persistent (power_up (persistent_of_record r)) = persistent_of_record r)
      by (apply power_up_bounded; apply Hok1).
    split; unfold synced, persistent; cbn -[power_up]; rewrite ?Hv, ?Hr, ?Hp; auto.
    intros r' [= <-]. by split.
  - split; unfold synced, persistent; cbn; rewrite ?Hv, ?Hr; auto; [done|].
    vm_compute; split; discriminate.
Qed.

(** ** Tokens seen from the engine *)

Definition token_of (a : App) : PinUvAuthTokenState := ps_token (app_pin_state a).

Lemma verify_param_ok p m sig a a' :
  @verify_pin_uv_auth_param S _ p m sig a = (a', Ok tt) ->
  exists t t', tks_in_use (token_of a) = Some t /\ tk_protocol t = p /\
    sig = authenticate p (tk_value t) m /\
    tks_in_use (token_of a') = Some t' /\ descends t t'.
Proof.
  intros Hv. unfold verify_pin_uv_auth_param, token_check in Hv.
  peel Hv b n Hn. injection Hn as <- <-.
  destruct (token_verify _ _ _ _ _) as [tk r] eqn:Htv. injection Hv as <- ->.
  apply token_verify_ok in Htv as (t & Ht & Hp & Hs & _ & _ & t' & Ht' & Hd & _).
  exists t, t'. by split_and!.
Qed.

Lemma has_permission_true perm a a' :
  @app_has_permission S perm a = (a', Ok true) ->
  exists t t', tks_in_use (token_of a) = Some t /\ tks_in_use (token_of a') = Some t' /\
    descends t t' /\ Z.land (tk_permissions t) perm <> 0.
Proof.
  intros Hp. unfold app_has_permission, token_query in Hp. peel Hp b n Hn. injection Hn as <- <-.
  unfold has_permission in Hp. simpl in Hp. injection Hp as <- Hp.
  unfold token_of. cbn.
  destruct (tks_in_use (observe _ _)) as [t'|] eqn:Ho; [|done]. simpl in Hp.
  apply observe_in_use in Ho as (t & Ht & Heq & _). exists t, t'. split_and!; [done|done|..].
  - destruct Heq as [->| ->]; [done|]. by split.
  - apply negb_true_iff, Z.eqb_neq in Hp. by destruct Heq as [->| ->].
Qed.

(** A request whose MAC verified and whose token then had [perm]. *)
Lemma verified_with_permission p m sig perm a b c :
  @verify_pin_uv_auth_param S _ p m sig a = (b, Ok tt) ->
  @app_has_permission S perm b = (c, Ok true) ->
  exists t, tks_in_use (token_of a) = Some t /\ tk_protocol t = p /\
    sig = authenticate p (tk_value t) m /\ Z.land (tk_permissions t) perm <> 0.
Proof.
  intros (t & t1 & Ht & Hp & Hs & Ht1 & Hd)%verify_param_ok (t1' & t2 & Ht1' & _ & _ & Hperm)%has_permission_true.
  assert (t1' = t1) as -> by congruence. exists t. split_and!; try done.
  by apply (de_permissions _ _ Hd).
Qed.

End Frames.

Create HintDb views.

#[export] Hint Resolve same_view_bind same_view_pure same_view_ret same_view_fail same_view_lift
  same_view_gets same_view_now same_view_random same_view_ask same_view_clear_cm
  same_view_token_query same_view_token_check same_view_stored_credential
  same_view_stored_credentials same_view_read_store same_view_flush same_view_fresh
  same_view_rotate same_view_key_agreement_key same_view_decapsulate same_view_encrypt
  same_view_confirm same_view_issue same_view_verify_param same_view_guard
  same_view_has_permission same_view_token_id : views.

(** [keeps_step] decomposes a handler; what does not touch the view closes. *)
Ltac view_done := solve [apply keeps_same_view; [apply pin_inv_view | eauto 12 with views]].

Ltac keeps_step :=
  match goal with
  | |- keeps pin_inv (mbind_st _ _) => apply keeps_bind; [|intros ?]
  | |- keeps pin_inv (if ?b then _ else _) => destruct b
  | |- keeps pin_inv (match ?x with _ => _ end) => destruct x
  | |- keeps pin_inv refresh_persistent_authority => apply keeps_refresh
  | |- keeps pin_inv read_pin_state_if_unread => apply keeps_if_unread
  | |- _ => view_done
  end.

(** The same for a whole operation that leaves the view alone. *)
Ltac same_view_step :=
  match goal with
  | |- same_view (mbind_st _ _) => apply same_view_bind; [|intros ?]
  | |- same_view (if ?b then _ else _) => destruct b
  | |- same_view (match ?x with _ => _ end) => destruct x
  | |- same_view (modify _) => by intros ?
  | |- _ => solve [eauto with views]
  end.
