(* ===== verification/ClientPin.v ===== *)
(** * authenticatorClientPIN ([ctap/pin/client_pin.rs], [ctap/pin/permissions.rs]) *)

From S2P Require Import Prelude Constants Crypto Cbor Records PinRetry Token Presence Store Engine.

(** ** Permissions *)

Definition DEFINED_PIN_PERMISSIONS : Z := 0x7F.

Definition SUPPORTED_PIN_PERMISSIONS : Z :=
  Z.lor (Z.lor (Z.lor (Z.lor (Z.lor PIN_PERMISSION_MC PIN_PERMISSION_GA) PIN_PERMISSION_CM)
    PIN_PERMISSION_LBW) PIN_PERMISSION_ACFG) PIN_PERMISSION_PCMR.

(** [!SUPPORTED_PIN_PERMISSIONS] is the complement in 8 bits. *)
Definition requested_pin_permissions (permissions : Z) : result Z Z :=
  let defined := Z.land permissions DEFINED_PIN_PERMISSIONS in
  if (negb (Z.land defined PIN_PERMISSION_PCMR =? 0) && negb (defined =? PIN_PERMISSION_PCMR))
     || negb (Z.land defined (Z.lxor 0xFF SUPPORTED_PIN_PERMISSIONS) =? 0)
  then Err CTAP2_ERR_UNAUTHORIZED_PERMISSION
  else Ok defined.

(** ** New PINs *)

Definition PADDED_PIN_LENGTH : Z := 64.

Definition MAX_PIN_BYTES : Z := 63.

Definition cont (lo hi b : Z) : bool := (lo <=? b) && (b <=? hi).

(** [core::str::from_utf8(..).chars().count()]: the number of code points, or
    [None] if the bytes are not well-formed UTF-8. *)
Fixpoint utf8_chars (l : bytes) : option Z :=
  match l with
  | [] => Some 0
  | b0 :: r0 =>
      if cont 0 0x7F b0 then option_map Z.succ (utf8_chars r0)
      else match r0 with
      | [] => None
      | b1 :: r1 =>
          if cont 0xC2 0xDF b0 then
            if cont 0x80 0xBF b1 then option_map Z.succ (utf8_chars r1) else None
          else match r1 with
          | [] => None
          | b2 :: r2 =>
              if cont 0xE0 0xEF b0 then
                if cont (if b0 =? 0xE0 then 0xA0 else 0x80) (if b0 =? 0xED then 0x9F else 0xBF) b1
                   && cont 0x80 0xBF b2
                then option_map Z.succ (utf8_chars r2) else None
              else match r2 with
              | [] => None
              | b3 :: r3 =>
                  if cont 0xF0 0xF4 b0 then
                    if cont (if b0 =? 0xF0 then 0x90 else 0x80) (if b0 =? 0xF4 then 0x8F else 0xBF) b1
                       && cont 0x80 0xBF b2 && cont 0x80 0xBF b3
                    then option_map Z.succ (utf8_chars r3) else None
                  else None
              end
          end
      end
  end.

(** Drop the trailing zero bytes: [&l[..rposition(nonzero) + 1]]. *)
Fixpoint trim_zeros (l : bytes) : bytes :=
  match l with
  | [] => []
  | b :: r => match trim_zeros r with
              | [] => if b =? 0 then [] else [b]
              | t => b :: t
              end
  end.

Definition is_ascii_alphabetic (b : Z) : bool := cont 65 90 b || cont 97 122 b.

Definition is_ascii_digit (b : Z) : bool := cont 48 57 b.

Definition decode_new_pin (padded_new_pin : bytes) (minimum : Z) (complexity : bool)
    : result (bytes * Z) Z :=
  if negb (zlen padded_new_pin =? PADDED_PIN_LENGTH) then Err CTAP1_ERR_INVALID_PARAMETER
  else
    let new_pin := trim_zeros padded_new_pin in
    if MAX_PIN_BYTES <? zlen new_pin then Err CTAP2_ERR_PIN_POLICY_VIOLATION
    else
      let? code_points := ok_or (utf8_chars new_pin) CTAP2_ERR_PIN_POLICY_VIOLATION in
      if (code_points <? minimum)
         || (complexity
             && (negb (existsb is_ascii_alphabetic new_pin) || negb (existsb is_ascii_digit new_pin)))
      then Err CTAP2_ERR_PIN_POLICY_VIOLATION
      else Ok (new_pin, code_points mod 256).

Definition require_confirmed_retry (d : CommitDurability) : result unit Z :=
  match d with Unconfirmed => Err CTAP2_ERR_PROCESSING | Volatile | Flushed => Ok tt end.

(** ** Subcommands *)

Inductive ClientPinSubcommand : Type :=
| GetPinRetries | GetKeyAgreement | SetPin | ChangePin | GetPinToken
| GetPinUvAuthTokenUsingPinWithPermissions.

#[export] Instance ClientPinSubcommand_eq_dec : EqDecision ClientPinSubcommand.
Proof. solve_decision. Defined.

Definition parse_subcommand (value : option Value) : result ClientPinSubcommand Z :=
  match value with
  | Some (VInteger n) =>
      if n =? 1 then Ok GetPinRetries
      else if n =? 2 then Ok GetKeyAgreement
      else if n =? 3 then Ok SetPin
      else if n =? 4 then Ok ChangePin
      else if n =? 5 then Ok GetPinToken
      else if n =? 9 then Ok GetPinUvAuthTokenUsingPinWithPermissions
      else Err CTAP2_ERR_INVALID_SUBCOMMAND
  | Some _ => Err CTAP2_ERR_CBOR_UNEXPECTED_TYPE
  | None => Err CTAP2_ERR_MISSING_PARAMETER
  end.

Section ClientPin.

Context {S : Type} `{Crypto} `{Ciborium} `{CredentialStore S}.

#[local] Abbreviation App := (CtapApp S).

Definition new_pin_hash (protocol : PinProtocol) (keys : PinUvSessionKeys) (new_pin_enc : bytes)
    (a : App) : result (bytes * Z) Z :=
  let? padded := ok_or (decrypt protocol keys new_pin_enc) CTAP2_ERR_PIN_AUTH_INVALID in
  let? decoded := decode_new_pin padded (pp_min_pin_length (persistent a))
                    (pp_pin_complexity_policy (persistent a)) in
  Ok (pin_hash_of (fst decoded), snd decoded).

Definition adopt_retry_state (r : PinRetryState) : M App unit Z :=
  modify_pin (fun p => with_retry p r).

(** First half of [verify_pin_hash_enc]: spend a retry and publish it. *)
Definition debit_retry : M App unit Z :=
  refresh_persistent_authority ;;*
  fun a =>
    match begin_attempt (ps_pin (app_pin_state a)) with
    | (_, Err e) => (a, Err e)
    | (debited, Ok _) =>
        (let* unsupported := unsupported_directory_flush in
         if unsupported then fail CTAP2_ERR_PROCESSING
         else
           let* d := save_pin_state (prs_persistent debited) in
           adopt_retry_state debited ;;*
           lift (require_confirmed_retry d)) a
    end.

(** Second half: compare, and publish what the comparison did. *)
Definition compare_candidate (protocol : PinProtocol) (keys : PinUvSessionKeys)
    (pin_hash_enc : bytes) : M App unit Z := fun a =>
  let candidate := decrypt protocol keys pin_hash_enc in
  let (completed, outcome) := finish_attempt candidate (ps_pin (app_pin_state a)) in
  match outcome with
  | Err e =>
      (adopt_retry_state completed ;;*
       modify_pin (fun p => with_key_agreement p (regenerate protocol (ps_key_agreement p))) ;;*
       let* d := save_persistent_pin_state in
       lift (require_confirmed_retry d) ;;*
       fail e) a
  | Ok _ =>
      (let* d := save_pin_state (prs_persistent completed) in
       adopt_retry_state completed ;;*
       lift (require_confirmed_retry d)) a
  end.

Definition verify_pin_hash_enc (protocol : PinProtocol) (keys : PinUvSessionKeys)
    (pin_hash_enc : bytes) : M App unit Z :=
  debit_retry ;;* compare_candidate protocol keys pin_hash_enc.

(** [getPublicKey()]. *)
Definition cose_key (secret : bytes) : Value :=
  canonical_map
    [(VInteger 1, VInteger 2); (VInteger 3, VInteger (-25)); (VInteger (-1), VInteger 1);
     (VInteger (-2), VBytes (fst (p256_public secret)));
     (VInteger (-3), VBytes (snd (p256_public secret)))].

Definition ok_response (entries : Entries) : bytes := CTAP2_OK :: into_writer (canonical_map entries).

Definition client_pin_get_key_agreement (protocol : PinProtocol) : M App bytes Z :=
  let* secret := key_agreement_key protocol in
  ret (ok_response [(VInteger 1, cose_key secret)]).

Definition store_new_pin (hash : bytes) (code_points : Z) : M App unit Z := fun a =>
  let p0 := persistent a in
  let p1 := {|
    pp_pin_hash := Some hash; pp_pin_retries := MAX_PIN_RETRIES;
    pp_min_pin_length := pp_min_pin_length p0;
    pp_min_pin_length_rp_ids := pp_min_pin_length_rp_ids p0;
    pp_force_pin_change := false; pp_pin_code_point_length := code_points;
    pp_always_uv := pp_always_uv p0; pp_pin_complexity_policy := pp_pin_complexity_policy p0;
    pp_persistent_tokens := pp_persistent_tokens p0 |} in
  (let* p2 := (if is_set (ps_pin (app_pin_state a)) then rotate_persistent_tokens p1 else ret p1) in
   let* _ := save_pin_state p2 in
   clear_cred_mgmt ;;*
   modify_pin (pin_set_pin hash) ;;*
   modify_pin (adopt_persistent p2)) a.

Definition client_pin_set_pin (map : Entries) : M App bytes Z :=
  let* key_agreement := lift (required_map map (int_key 3)) in
  let* pin_auth_param := lift (required_bytes map (int_key 4)) in
  let* new_pin_enc := lift (required_bytes map (int_key 5)) in
  let* protocol := lift (parse_required_pin_uv_auth_protocol (map_get map (int_key 1))) in
  let* already := gets (fun a => is_set (ps_pin (app_pin_state a))) in
  if already then fail CTAP2_ERR_PIN_AUTH_INVALID
  else
    let* keys := decapsulate protocol key_agreement in
    lift (verify protocol (auth_key keys) new_pin_enc pin_auth_param) ;;*
    let* hashed := (fun a => (a, new_pin_hash protocol keys new_pin_enc a)) in
    let* unsupported := unsupported_directory_flush in
    if unsupported then fail CTAP2_ERR_PROCESSING
    else store_new_pin (fst hashed) (snd hashed) ;;* ret [CTAP2_OK].

Definition client_pin_change_pin (map : Entries) : M App bytes Z :=
  let* key_agreement := lift (required_map map (int_key 3)) in
  let* pin_auth_param := lift (required_bytes map (int_key 4)) in
  let* new_pin_enc := lift (required_bytes map (int_key 5)) in
  let* pin_hash_enc := lift (required_bytes map (int_key 6)) in
  let* protocol := lift (parse_required_pin_uv_auth_protocol (map_get map (int_key 1))) in
  (fun a => (a, check_attempt_allowed (ps_pin (app_pin_state a)))) ;;*
  let* keys := decapsulate protocol key_agreement in
  lift (verify protocol (auth_key keys) (new_pin_enc ++ pin_hash_enc) pin_auth_param) ;;*
  verify_pin_hash_enc protocol keys pin_hash_enc ;;*
  let* hashed := (fun a => (a, new_pin_hash protocol keys new_pin_enc a)) in
  let* reused := gets (fun a =>
    pp_force_pin_change (persistent a)
    && is_some_and (pp_pin_hash (persistent a)) (fun stored => bytes_eqb stored (fst hashed))) in
  if reused then fail CTAP2_ERR_PIN_POLICY_VIOLATION
  else store_new_pin (fst hashed) (snd hashed) ;;* ret [CTAP2_OK].

Definition set_token_slot (protocol : PinProtocol) (v : option PersistentTokenRecord)
    (t : PersistentTokens) : PersistentTokens :=
  match protocol with V1 => (v, snd t) | V2 => (fst t, v) end.

Definition token_slot (protocol : PinProtocol) (t : PersistentTokens)
    : option PersistentTokenRecord :=
  match protocol with V1 => fst t | V2 => snd t end.

(** The persistent read-only grant: initialise the protocol's secret if needed,
    encrypt it, then publish it granted. *)
Definition grant_persistent (protocol : PinProtocol) (keys : PinUvSessionKeys) : M App bytes Z :=
  let* p0 := gets persistent in
  let* secret :=
    match token_slot protocol (pp_persistent_tokens p0) with
    | Some t => ret (pt_secret t)
    | None => fresh_token_secret (token_secrets (pp_persistent_tokens p0)) true
    end in
  let* encrypted := encrypt_for_platform protocol keys secret in
  let p1 := set_pp_persistent_tokens p0
    (set_token_slot protocol (Some {| pt_secret := secret; pt_granted := true |})
       (pp_persistent_tokens p0)) in
  let* d := save_pin_state p1 in
  modify_pin (adopt_persistent p1) ;;*
  clear_cred_mgmt ;;*
  lift (require_confirmed_retry d) ;;*
  ret encrypted.

(** A transient pinUvAuthToken. *)
Definition grant_transient (protocol : PinProtocol) (keys : PinUvSessionKeys) (grant : TokenGrant)
    : M App bytes Z :=
  let* p0 := gets persistent in
  let* token := fresh_token_secret (token_secrets (pp_persistent_tokens p0)) false in
  let* encrypted := encrypt_for_platform protocol keys token in
  issue_pin_uv_auth_token protocol token grant ;;*
  clear_cred_mgmt ;;*
  ret encrypted.

Definition client_pin_get_token_common (protocol : PinProtocol) (key_agreement : Entries)
    (pin_hash_enc : bytes) (grant : TokenGrant) (force_change_error : Z) : M App bytes Z :=
  (fun a => (a, check_attempt_allowed (ps_pin (app_pin_state a)))) ;;*
  refresh_persistent_authority ;;*
  let* keys := decapsulate protocol key_agreement in
  verify_pin_hash_enc protocol keys pin_hash_enc ;;*
  let* force := gets (fun a => pp_force_pin_change (persistent a)) in
  if force then fail force_change_error
  else
    let* encrypted :=
      (if grant_permissions grant =? PIN_PERMISSION_PCMR
       then grant_persistent protocol keys
       else grant_transient protocol keys grant) in
    ret (ok_response [(VInteger 2, VBytes encrypted)]).

Definition client_pin_get_token_legacy (map : Entries) : M App bytes Z :=
  let* key_agreement := lift (required_map map (int_key 3)) in
  let* pin_hash_enc := lift (required_bytes map (int_key 6)) in
  let* protocol := lift (parse_required_pin_uv_auth_protocol (map_get map (int_key 1))) in
  if is_some (map_get map (int_key 9)) || is_some (map_get map (int_key 10)) then
    fail CTAP1_ERR_INVALID_PARAMETER
  else
    client_pin_get_token_common protocol key_agreement pin_hash_enc
      {| grant_origin := LegacyGetPinToken;
         grant_permissions := Z.lor PIN_PERMISSION_MC PIN_PERMISSION_GA;
         grant_rp_id := None |} CTAP2_ERR_PIN_INVALID.

Definition permissions_parameter (map : Entries) : result Z Z :=
  match map_get map (int_key 9) with
  | Some (VInteger n) => Ok n
  | Some _ => Err CTAP2_ERR_CBOR_UNEXPECTED_TYPE
  | None => Err CTAP2_ERR_MISSING_PARAMETER
  end.

Definition rp_id_parameter (map : Entries) : result (option bytes) Z :=
  match map_get map (int_key 10) with
  | Some (VText rp) => Ok (Some rp)
  | Some _ => Err CTAP2_ERR_CBOR_UNEXPECTED_TYPE
  | None => Ok None
  end.

Definition client_pin_get_token_with_permissions (map : Entries) : M App bytes Z :=
  let protocol := map_get map (int_key 1) in
  let* key_agreement := lift (required_map map (int_key 3)) in
  let* pin_hash_enc := lift (required_bytes map (int_key 6)) in
  let* permissions := lift (permissions_parameter map) in
  if (0 <? permissions) && negb (Z.land permissions PIN_PERMISSION_PCMR =? 0) then
    let* protocol := lift (parse_required_pin_uv_auth_protocol protocol) in
    let* permissions := lift (requested_pin_permissions permissions) in
    client_pin_get_token_common protocol key_agreement pin_hash_enc
      {| grant_origin := PermissionBearing; grant_permissions := permissions;
         grant_rp_id := None |} CTAP2_ERR_PIN_POLICY_VIOLATION
  else
    let* rp_id := lift (rp_id_parameter map) in
    if (0 <? permissions)
       && negb (Z.land permissions (Z.lor PIN_PERMISSION_MC PIN_PERMISSION_GA) =? 0)
       && negb (is_some rp_id)
    then fail CTAP2_ERR_MISSING_PARAMETER
    else
      let* protocol := lift (parse_required_pin_uv_auth_protocol protocol) in
      if permissions <=? 0 then fail CTAP1_ERR_INVALID_PARAMETER
      else
        let* permissions := lift (requested_pin_permissions permissions) in
        client_pin_get_token_common protocol key_agreement pin_hash_enc
          {| grant_origin := PermissionBearing; grant_permissions := permissions;
             grant_rp_id := rp_id |} CTAP2_ERR_PIN_POLICY_VIOLATION.

Definition client_pin_get_retries : M App bytes Z :=
  gets (fun a =>
    let pin := ps_pin (app_pin_state a) in
    ok_response ((VInteger 3, VInteger (retries pin))
                 :: (if power_cycle_required pin then [(VInteger 4, VBool true)] else []))).

Definition handle_client_pin (payload : bytes) : M App bytes Z :=
  let* map := lift (request_parameters payload) in
  let* subcommand := lift (parse_subcommand (map_get map (int_key 2))) in
  (if bool_decide (subcommand = GetKeyAgreement) then ret tt else read_pin_state_if_unread) ;;*
  match subcommand with
  | GetPinRetries => client_pin_get_retries
  | GetKeyAgreement =>
      let* protocol := lift (parse_required_pin_uv_auth_protocol (map_get map (int_key 1))) in
      client_pin_get_key_agreement protocol
  | SetPin => client_pin_set_pin map
  | ChangePin => client_pin_change_pin map
  | GetPinToken => client_pin_get_token_legacy map
  | GetPinUvAuthTokenUsingPinWithPermissions => client_pin_get_token_with_permissions map
  end.

End ClientPin.
