(* ===== verification/ClientPinProofs.v ===== *)
(** * What authenticatorClientPIN guarantees

    The invariant between live and published PIN state is kept by every
    subcommand on every path; a retry is published before a PIN is compared;
    and a token comes only from a matching PIN. *)

From S2P Require Import Prelude Constants Crypto ConcreteCrypto Cbor Records PinRetry Token.
From S2P Require Import Presence Store StoreProofs Engine EngineProofs ClientPin.

Section ClientPinProofs.

Context {S : Type} `{Crypto} `{Ciborium} `{CredentialStore S} `{!PinStoreLaws S}.

#[local] Abbreviation App := (CtapApp S).

(** ** The PIN check *)

Lemma begin_attempt_persistent_ok (r debited : PinRetryState) :
  begin_attempt r = (debited, Ok tt) ->
  0 <= pp_pin_retries (prs_persistent r) <= MAX_PIN_RETRIES ->
  check_attempt_allowed r = Ok tt /\
  prs_persistent debited = set_pp_pin_retries (prs_persistent r) (retries r - 1) /\
  prs_consecutive_mismatches debited = prs_consecutive_mismatches r /\
  persistent_ok (prs_persistent debited).
Proof.
  unfold begin_attempt. destruct (check_attempt_allowed r) as [[]|] eqn:Hc; [|done].
  intros [= <-] Hb. split_and!; try done. apply check_attempt_allowed_ok in Hc as (Hset & Hnz & _).
  unfold is_set, retries in *. split; simpl; [lia|].
  intros Hn. by rewrite Hn in Hset.
Qed.

Lemma begin_attempt_result r debited x : begin_attempt r = (debited, Ok x) -> x = tt.
Proof. by destruct x. Qed.

Lemma keeps_debit : keeps pin_inv debit_retry.
Proof.
  apply keeps_bind; [apply keeps_refresh|]. intros _ a Hi.
  destruct (begin_attempt _) as [debited [[]|e]] eqn:Hb; [|done].
  apply begin_attempt_persistent_ok in Hb as (_ & Hp & _ & Hok); [|apply Hi].
  unfold mbind_st at 1. pose proof (same_view_flush a) as Hv.
  destruct (unsupported_directory_flush a) as [a1 [b|e]]; simpl in Hv.
  2:{ simpl. eapply pin_inv_view; [symmetry; exact Hv|done]. }
  assert (Hi1 : pin_inv a1) by (eapply pin_inv_view; [symmetry; exact Hv|done]).
  destruct b; [done|].
  apply (keeps_save_adopt (prs_persistent debited) (fun p => with_retry p debited)
           (fun d => lift (require_confirmed_retry d))); auto.
  intros d. view_done.
Qed.

Lemma keeps_compare protocol keys enc : keeps pin_inv (compare_candidate protocol keys enc).
Proof.
  intros a Hi. unfold compare_candidate, finish_attempt.
  destruct (pin_matches _ _) eqn:Hm; cbn -[save_pin_state save_persistent_pin_state].
  - set (completed := {| prs_persistent := _; prs_consecutive_mismatches := 0 |}).
    apply (keeps_save_adopt (prs_persistent completed) (fun p => with_retry p completed)
             (fun d => lift (require_confirmed_retry d))); auto; [|intros d; view_done].
    split; simpl; [unfold MAX_PIN_RETRIES; lia|done].
  - assert (Hgo : forall e c', prs_persistent c' = prs_persistent (ps_pin (app_pin_state a)) ->
      pin_inv (fst ((adopt_retry_state c' ;;*
        modify_pin (fun p => with_key_agreement p (regenerate protocol (ps_key_agreement p))) ;;*
        let* d := save_persistent_pin_state in
        lift (require_confirmed_retry d) ;;* @fail App unit Z e) a))).
    { intros e c' Hc. unfold mbind_st at 1 2, adopt_retry_state, modify_pin, modify.
      match goal with |- pin_inv (fst (_ ?b)) => set (a1 := b) end.
      assert (Hv : view a1 = view a) by (unfold view, a1, persistent; simpl; by rewrite Hc).
      assert (Hi1 : pin_inv a1) by (eapply pin_inv_view; [symmetry; exact Hv|done]).
      unfold mbind_st, save_persistent_pin_state.
      destruct (save_pin_state (persistent a1) a1) as [a2 [d|e']] eqn:Hs;
        pose proof (save_pin_state_spec _ _ _ _ Hs) as Hspec.
      - destruct Hspec as (Hst & s & -> & Hs').
        assert (Hi2 : pin_inv (with_store a1 s)).
        { pose proof (pin_inv_published a1 s (persistent a1) (fun q => q) Hi1
            (pin_inv_live_ok _ Hi1 Hst) Hs' eq_refl) as Hx. by destruct a1. }
        by destruct (require_confirmed_retry d).
      - simpl. eapply pin_inv_view; [symmetry; exact Hspec|done]. }
    destruct (retries _ =? 0); [|destruct (power_cycle_required _)]; by apply Hgo.
Qed.

Lemma keeps_verify_pin protocol keys enc : keeps pin_inv (verify_pin_hash_enc protocol keys enc).
Proof. apply keeps_bind; [apply keeps_debit|]. intros _. apply keeps_compare. Qed.

(** ** Setting and changing the PIN *)

Lemma rotate_keeps_fields p a a' q :
  @rotate_persistent_tokens S p a = (a', Ok q) ->
  pp_pin_hash q = pp_pin_hash p /\ pp_pin_retries q = pp_pin_retries p.
Proof.
  unfold rotate_persistent_tokens. simp_st. intros Hr. inv_all Hr. done.
Qed.

Lemma keeps_store_new_pin hash n : keeps pin_inv (store_new_pin hash n).
Proof.
  intros a Hi. unfold store_new_pin. set (p1 := Build_PersistentPinState _ _ _ _ _ _ _ _ _).
  assert (Hgo : forall p2 b, pin_inv b -> pp_pin_hash p2 = Some hash ->
    pp_pin_retries p2 = MAX_PIN_RETRIES ->
    pin_inv (fst ((let* _ := save_pin_state p2 in clear_cred_mgmt ;;*
      modify_pin (pin_set_pin hash) ;;* modify_pin (adopt_persistent p2)) b))).
  { intros p2 b Hb Hh Hr. unfold mbind_st at 1.
    destruct (save_pin_state p2 b) as [b1 [d|e]] eqn:Hs; apply save_pin_state_spec in Hs.
    - destruct Hs as (_ & s & -> & Hs). cbn.
      assert (Hok : persistent_ok p2) by (split; [rewrite Hr; unfold MAX_PIN_RETRIES; lia|congruence]).
      pose proof (pin_inv_published b s p2 (fun q => adopt_persistent p2 (pin_set_pin hash q))
        Hb Hok Hs eq_refl) as Hx.
      eapply pin_inv_view; [|exact Hx]. done.
    - simpl. eapply pin_inv_view; [symmetry; exact Hs|done]. }
  unfold mbind_st at 1. destruct (is_set _).
  - pose proof (same_view_rotate p1 a) as Hv.
    destruct (rotate_persistent_tokens p1 a) as [a1 [p2|e]] eqn:Hr; simpl in Hv;
      (assert (Hi1 : pin_inv a1) by (eapply pin_inv_view; [symmetry; exact Hv|done])); [|done].
    apply rotate_keeps_fields in Hr as [Hh Hn]. by apply Hgo.
  - by apply Hgo.
Qed.

Lemma keeps_set_pin map : keeps pin_inv (client_pin_set_pin map).
Proof. unfold client_pin_set_pin. repeat (apply keeps_store_new_pin || keeps_step). Qed.

Lemma keeps_change_pin map : keeps pin_inv (client_pin_change_pin map).
Proof.
  unfold client_pin_change_pin.
  repeat (apply keeps_verify_pin || apply keeps_store_new_pin || keeps_step).
Qed.

(** ** Tokens *)

Lemma keeps_grant_persistent protocol keys : keeps pin_inv (grant_persistent protocol keys).
Proof.
  intros a Hi. unfold grant_persistent. unfold mbind_st at 1, gets.
  set (p0 := persistent a).
  assert (Hsec : forall b, view b = view a -> forall secret enc,
    pin_inv (fst ((let* d := save_pin_state (set_pp_persistent_tokens p0
        (set_token_slot protocol (Some {| pt_secret := secret; pt_granted := true |})
           (pp_persistent_tokens p0))) in
      modify_pin (adopt_persistent (set_pp_persistent_tokens p0
        (set_token_slot protocol (Some {| pt_secret := secret; pt_granted := true |})
           (pp_persistent_tokens p0)))) ;;*
      clear_cred_mgmt ;;* lift (require_confirmed_retry d) ;;* @ret App bytes Z enc) b))).
  { intros b Hv secret enc.
    assert (Hb : pin_inv b) by (eapply pin_inv_view; [symmetry; exact Hv|done]).
    destruct (decide (app_stored_pin_state b = Read)) as [Hst|Hst].
    - apply keeps_save_adopt; auto; [|intros d; view_done].
      pose proof (pin_inv_live_ok _ Hb Hst) as [Ho1 Ho2].
      injection Hv as _ Hv2 _. rewrite Hv2 in *. by split.
    - unfold mbind_st, save_pin_state. destruct (app_stored_pin_state b); done. }
  apply run_same_view; [apply pin_inv_view| |done|].
  { destruct (token_slot _ _); eauto with views. }
  intros secret a1 Hv1 Hi1.
  apply run_same_view; [apply pin_inv_view|eauto with views|done|].
  intros enc a2 Hv2 Hi2. apply Hsec. congruence.
Qed.

Lemma keeps_grant_transient protocol keys grant :
  keeps pin_inv (grant_transient protocol keys grant).
Proof. unfold grant_transient. repeat keeps_step. Qed.

Lemma keeps_get_token protocol ka enc grant e :
  keeps pin_inv (client_pin_get_token_common protocol ka enc grant e).
Proof.
  unfold client_pin_get_token_common.
  repeat (apply keeps_verify_pin || apply keeps_grant_persistent
          || apply keeps_grant_transient || keeps_step).
Qed.

Lemma keeps_handle_client_pin payload : keeps pin_inv (handle_client_pin payload).
Proof.
  unfold handle_client_pin, client_pin_get_token_legacy, client_pin_get_token_with_permissions,
    client_pin_get_key_agreement, client_pin_get_retries.
  repeat (apply keeps_set_pin || apply keeps_change_pin || apply keeps_get_token || keeps_step).
Qed.

End ClientPinProofs.
