(* ===== verification/Scenario.v ===== *)
(** * A concrete authenticator for the witnesses

    An engine over an empty in-memory store in a fixed world, a platform's
    side of the PIN/UV protocol, and the states after a PIN is set and after a
    token is issued. *)

From S2P Require Import Prelude Constants Crypto ConcreteCrypto Cbor ConcreteCbor Records.
From S2P Require Import PinRetry Token Presence Store StoreProofs Engine EngineProofs ClientPin.
From S2P Require Import ClientPinProofs.

(** Every draw is constant and differs from the one before; every question is
    approved; one second passes between two readings of the clock. *)
Definition world : World := {|
  w_clock := fun n => from_secs (Z.of_nat n); w_clock_reads := 0;
  w_rng := fun draw _ => Z.of_nat draw + 1; w_rng_draws := 0;
  w_cancelled := fun _ => false; w_confirm := fun _ _ => Approved; w_asks := 0;
  w_os := fun op draw => Some (fun _ => Z.of_nat (op + draw) + 40); w_os_uses := 0
|}.

Definition fresh_engine : CtapApp MemoryStore := ctap_app_new (ms_new []) world (repeat 17 16).

Definition platform_key : Entries :=
  [(VInteger 1, VInteger 2); (VInteger 3, VInteger (-25)); (VInteger (-1), VInteger 1);
   (VInteger (-2), VBytes (repeat 9 32)); (VInteger (-3), VBytes (repeat 11 32))].

(** The platform's session keys and encryption. *)
Definition agreed (a : CtapApp MemoryStore) (p : PinProtocol) : PinUvSessionKeys :=
  match snd (decapsulate p platform_key a) with
  | Ok keys => keys
  | Err _ => {| encryption_key := []; auth_key := [] |}
  end.

Definition seal_for (a : CtapApp MemoryStore) (p : PinProtocol) (plaintext : bytes) : bytes :=
  match encrypt_classic_pin_block p (agreed a p) (Some (repeat 3 16)) plaintext with
  | Ok c => c
  | Err _ => []
  end.

(** "1234" and "56789", padded to a PIN block. *)
Definition pin_one : bytes := [49; 50; 51; 52].

Definition pin_two : bytes := [53; 54; 55; 56; 57].

Definition pin_block (pin : bytes) : bytes := pin ++ repeat 0 (64 - length pin).

Definition set_pin_entries (a : CtapApp MemoryStore) (pin : bytes) : Entries :=
  let c := seal_for a V2 (pin_block pin) in
  [(VInteger 1, VInteger 2); (VInteger 2, VInteger 3); (VInteger 3, VMap platform_key);
   (VInteger 4, VBytes (authenticate V2 (auth_key (agreed a V2)) c)); (VInteger 5, VBytes c)].

Definition change_pin_entries (a : CtapApp MemoryStore) (old new : bytes) : Entries :=
  let c := seal_for a V2 (pin_block new) in
  let h := seal_for a V2 (pin_hash_of old) in
  [(VInteger 1, VInteger 2); (VInteger 2, VInteger 4); (VInteger 3, VMap platform_key);
   (VInteger 4, VBytes (authenticate V2 (auth_key (agreed a V2)) (c ++ h)));
   (VInteger 5, VBytes c); (VInteger 6, VBytes h)].

Definition engine_with_pin : CtapApp MemoryStore :=
  fst (client_pin_set_pin (set_pin_entries fresh_engine pin_one) fresh_engine).

Definition all_permissions : TokenGrant := {|
  grant_origin := PermissionBearing; grant_permissions := 0x37; grant_rp_id := None |}.

Definition get_token (p : PinProtocol) (pin : bytes) (grant : TokenGrant)
    : M (CtapApp MemoryStore) bytes Z := fun a =>
  client_pin_get_token_common p platform_key (seal_for a p (pin_hash_of pin)) grant
    CTAP2_ERR_PIN_POLICY_VIOLATION a.

Definition engine_with_token : CtapApp MemoryStore :=
  fst (get_token V2 pin_one all_permissions engine_with_pin).

(** The secret of the token in use. *)
Definition issued_token : bytes := Eval vm_compute in
  match tks_in_use (ps_token (app_pin_state engine_with_token)) with
  | Some t => tk_value t
  | None => []
  end.

Lemma fresh_engine_inv : pin_inv fresh_engine.
Proof. apply pin_inv_new. intros r Hr. discriminate. Qed.

Lemma engine_with_pin_inv : pin_inv engine_with_pin.
Proof. apply keeps_set_pin, fresh_engine_inv. Qed.

Lemma engine_with_token_inv : pin_inv engine_with_token.
Proof. apply keeps_get_token, engine_with_pin_inv. Qed.

Example scenario_runs :
  is_set (ps_pin (app_pin_state engine_with_pin)) = true /\
  option_map tk_permissions (tks_in_use (ps_token (app_pin_state engine_with_token))) = Some 0x37.
Proof. vm_compute. done. Qed.
