(* ===== verification/ClientPinTheorems.v ===== *)
(** * Guarantees of authenticatorClientPIN

    What a PIN check, a token request, a PIN change and a new PIN's policy
    amount to, for any credential store that keeps its PIN-state promises. *)

From S2P Require Import Prelude Constants Crypto ConcreteCrypto Cbor ConcreteCbor Records.
From S2P Require Import PinRetry Token Presence Store StoreProofs Engine EngineProofs ClientPin.
From S2P Require Import ClientPinProofs Scenario.

Section Core.

Context {S : Type} `{Crypto} `{CredentialStore S} `{!PinStoreLaws S}.

#[local] Abbreviation App := (CtapApp S).

(** The authority in force: the view, the live retry state, the token. *)
Definition core (a : App) :=
  (view a, ps_pin (app_pin_state a), ps_token (app_pin_state a)).

Definition same_core {A} (m : M App A Z) : Prop := forall a, core (fst (m a)) = core a.

Lemma core_inv a b : core a = core b ->
  view a = view b /\ ps_pin (app_pin_state a) = ps_pin (app_pin_state b) /\
  ps_token (app_pin_state a) = ps_token (app_pin_state b) /\ persistent a = persistent b.
Proof. unfold core, persistent. intros [[? Hp]%pair_equal_spec ?]%pair_equal_spec. by rewrite Hp. Qed.

Lemma same_core_bind {A B} (m : M App A Z) (k : A -> M App B Z) :
  same_core m -> (forall x, same_core (k x)) -> same_core (mbind_st m k).
Proof.
  intros Hm Hk a. unfold mbind_st. specialize (Hm a).
  destruct (m a) as [a' [x|e]]; simpl in *; [by rewrite Hk|done].
Qed.

Lemma same_core_random n : same_core (random_array n).
Proof. by intros a. Qed.

Lemma same_core_lift {A} (r : result A Z) : same_core (lift r).
Proof. by intros a. Qed.

Lemma same_core_flush : same_core unsupported_directory_flush.
Proof.
  intros a. unfold core. rewrite same_view_flush.
  unfold unsupported_directory_flush.
  destruct (app_directory_flush a) as [[]|]; try done.
  by destruct (st_directory_flush (app_store a)) as [s []].
Qed.

Lemma same_core_fresh_loop n forbidden b : same_core (@fresh_secret_loop S n forbidden b).
Proof.
  induction n as [|n IH]; [by intros a|].
  apply same_core_bind; [apply same_core_random|]. intros c a. destruct (_ && _); [done|apply IH].
Qed.

Lemma same_core_fresh forbidden b : same_core (@fresh_token_secret S forbidden b).
Proof. apply same_core_fresh_loop. Qed.

Lemma same_core_rotate p : same_core (@rotate_persistent_tokens S p).
Proof.
  apply same_core_bind; [apply same_core_fresh|]. intros s1.
  apply same_core_bind; [apply same_core_fresh|]. by intros s2 a.
Qed.

Lemma same_core_draw_key n : same_core (@draw_key S _ n).
Proof.
  induction n as [|n IH]; [by intros a|].
  apply same_core_bind; [apply same_core_random|]. intros b.
  destruct (p256_scalar_valid b); [by intros a|apply IH].
Qed.

Lemma same_core_decapsulate p k : same_core (@decapsulate S _ p k).
Proof.
  apply same_core_bind; [|intros; apply same_core_lift].
  intros a. unfold key_agreement_key. destruct (key_slot _ _); [done|].
  apply same_core_bind; [apply same_core_draw_key|]. by intros x b.
Qed.

Lemma same_core_encrypt p k t : same_core (@encrypt_for_platform S _ p k t).
Proof.
  apply same_core_bind; [|intros; apply same_core_lift].
  destruct p; [by intros a|]. apply same_core_bind; [apply same_core_random|]. by intros x a.
Qed.

(** A live state already in line with the store is left as it is: only the
    store was read. *)
Lemma refresh_ok a a' :
  pin_inv a -> app_stored_pin_state a = Read -> refresh_persistent_authority a = (a', Ok tt) ->
  exists s, a' = with_store a s /\ pin_view s = pin_view (app_store a).
Proof.
  intros Hi Hst. unfold refresh_persistent_authority. rewrite Hst. intros Hr.
  peel Hr a1 loaded Hl. unfold read_store_pin_state in Hl.
  destruct (st_pin_state (app_store a)) as [s r] eqn:E. injection Hl as <- <-.
  apply pin_read in E as [Epv E]. exists s. split; [|exact Epv].
  pose proof (pi_synced _ Hi Hst) as Hy. unfold synced in Hy.
  destruct r as [[r|]|e].
  - rewrite <- (E _ eq_refl) in Hy. unfold adopt_record in Hr.
    replace (changed_pin _ _) with false in Hr; [|symmetry].
    + rewrite bool_decide_eq_true_2 in Hr; [|exact (eq_sym (f_equal pp_persistent_tokens Hy))].
      by injection Hr as <-.
    + change (persistent (with_store a s)) with (persistent a). rewrite <- Hy.
      unfold changed_pin. simpl. rewrite !bool_decide_eq_true_2, !Z.eqb_refl, !Bool.eqb_reflx by done.
      done.
  - rewrite <- (E _ eq_refl) in Hy. change (persistent (with_store a s)) with (persistent a) in Hr.
    rewrite Hy in Hr. by injection Hr as <-.
  - destruct (closes_authority e); done.
Qed.

Lemma refresh_core a a' :
  pin_inv a -> app_stored_pin_state a = Read ->
  refresh_persistent_authority a = (a', Ok tt) -> core a' = core a.
Proof.
  intros Hi Hst (s & -> & Hv)%refresh_ok; [|done..]. unfold core, view. simpl. by rewrite Hv.
Qed.

(** No retry was gained and no token issued on the way from [a] to [a']. *)
Definition no_gain (a a' : App) : Prop :=
  pp_pin_retries (persistent a') <= pp_pin_retries (persistent a) /\
  (ps_token (app_pin_state a') = ps_token (app_pin_state a) \/
   ps_token (app_pin_state a') = stop_using (ps_token (app_pin_state a))).

Lemma no_gain_core a a' : core a' = core a -> no_gain a a'.
Proof.
  intros Hc. apply core_inv in Hc as (_ & _ & Ht & Hp). unfold no_gain. rewrite Hp. split; [lia|by left].
Qed.

Lemma no_gain_core_l a b a' : core b = core a -> no_gain b a' -> no_gain a a'.
Proof.
  intros Hc. apply core_inv in Hc as (_ & _ & Ht & Hp). unfold no_gain. by rewrite Hp, Ht.
Qed.

(** The statuses a failing store surfaces as. *)
Definition store_failure (e : Z) : Prop :=
  e = CTAP2_ERR_PROCESSING \/ e = CTAP2_ERR_KEY_STORE_FULL.

Lemma store_status_cases x : store_failure (store_status x).
Proof. unfold store_failure. destruct x; simpl; auto. Qed.

(** Every error of a refresh is a store status. *)
Lemma refresh_err a a' e :
  pin_inv a -> app_stored_pin_state a = Read -> refresh_persistent_authority a = (a', Err e) ->
  store_failure e /\ no_gain a a'.
Proof.
  unfold refresh_persistent_authority. intros Hi Hst Hr. rewrite Hst in Hr.
  apply mbind_err in Hr as [Hr|(a1 & loaded & Hl & Hr)].
  { unfold read_store_pin_state in Hr. by destruct (st_pin_state (app_store a)). }
  unfold read_store_pin_state in Hl. destruct (st_pin_state (app_store a)) as [s r].
  injection Hl as <- <-. pose proof (pi_bounds _ Hi) as [Hb _].
  assert (Hclosed : no_gain a (fst (close_authority (with_store a s))))
    by (split; [exact Hb|by right]).
  destruct r as [[r|]|x].
  - unfold adopt_record in Hr. by destruct (_ || _).
  - destruct (pp_pin_hash (persistent (with_store a s))),
      (pp_persistent_tokens (persistent (with_store a s))) as [[] []]; try done;
      injection Hr as <- <-; (split; [by left|exact Hclosed]).
  - destruct (closes_authority x); injection Hr as <- <-;
      (split; [apply store_status_cases|first [exact Hclosed | split; [apply Z.le_refl|by left]]]).
Qed.

(** ** The two halves of the PIN check *)

(** A debit that succeeds spent one retry of an allowed attempt, and the store
    already holds the spent state. *)
Lemma debit_ok a a' :
  pin_inv a -> app_stored_pin_state a = Read -> debit_retry a = (a', Ok tt) ->
  check_attempt_allowed (ps_pin (app_pin_state a)) = Ok tt /\
  persistent a' = set_pp_pin_retries (persistent a) (pp_pin_retries (persistent a) - 1) /\
  prs_consecutive_mismatches (ps_pin (app_pin_state a')) =
    prs_consecutive_mismatches (ps_pin (app_pin_state a)) /\
  view a' = (Some (record_of_persistent (persistent a')), persistent a', Read) /\
  ps_token (app_pin_state a') = ps_token (app_pin_state a).
Proof.
  intros Hi Hst Hd. unfold debit_retry in Hd. peel Hd a1 u Hr. destruct u.
  pose proof (keeps_refresh a Hi) as Hi1. rewrite Hr in Hi1. simpl in Hi1.
  apply refresh_core, core_inv in Hr as (Hv & Hp & Ht & _); [|done..].
  destruct (begin_attempt _) as [debited [[]|e]] eqn:Hb; [|done].
  apply begin_attempt_persistent_ok in Hb as (Hc & Hdp & Hm & _); [|apply Hi1].
  peel Hd a2 b Hf. pose proof (same_core_flush a1) as Hfc. rewrite Hf in Hfc. simpl in Hfc.
  apply core_inv in Hfc as (Hv2 & Hp2 & Ht2 & _). destruct b; [done|].
  peel Hd a3 d Hs. apply save_pin_state_spec in Hs as (Hst2 & s & -> & Hs).
  peel Hd a4 u Ha. injection Ha as <- <-.
  destruct (require_confirmed_retry d); [|done]. injection Hd as <-.
  rewrite <- Hp. split_and!; [done| |done| |cbn; congruence].
  - change (persistent a) with (prs_persistent (ps_pin (app_pin_state a))). rewrite <- Hp. exact Hdp.
  - unfold view, persistent. simpl. by rewrite Hs, Hst2.
Qed.

Lemma begin_attempt_err r r' e :
  begin_attempt r = (r', Err e) -> check_attempt_allowed r = Err e.
Proof.
  unfold begin_attempt. destruct (check_attempt_allowed r); [done|]. by intros [= _ ->].
Qed.

Lemma flush_err a a' e : @unsupported_directory_flush S _ a <> (a', Err e).
Proof.
  unfold unsupported_directory_flush. destruct (app_directory_flush a) as [[]|]; try done.
  by destruct (st_directory_flush _) as [? []].
Qed.

Lemma save_err p a a' e :
  save_pin_state p a = (a', Err e) -> store_failure e /\ core a' = core a.
Proof.
  intros Hs. pose proof (save_pin_state_spec _ _ _ _ Hs) as Hv. simpl in Hv.
  unfold core. rewrite Hv. unfold save_pin_state, on_store in Hs.
  destruct (app_stored_pin_state a); [|by injection Hs as <- <-; split; [left|]..].
  destruct (st_set_pin_state _ _) as [s [x|x]]; [done|]. injection Hs as <- <-.
  split; [apply store_status_cases|done].
Qed.

(** A debit that fails gains nothing. *)
Lemma debit_err a a' e :
  pin_inv a -> app_stored_pin_state a = Read -> debit_retry a = (a', Err e) ->
  (store_failure e \/ check_attempt_allowed (ps_pin (app_pin_state a)) = Err e) /\ no_gain a a'.
Proof.
  intros Hi Hst Hd. apply mbind_err in Hd as [Hr|(a1 & u & Hr & Hd)].
  { apply refresh_err in Hr as (He & Hn); [|done..]. by split; [left|]. }
  destruct u. pose proof (keeps_refresh a Hi) as Hi1. rewrite Hr in Hi1. simpl in Hi1.
  apply refresh_core in Hr; [|done..].
  destruct (begin_attempt _) as [debited [[]|e']] eqn:Hb.
  2:{ injection Hd as <- <-. apply begin_attempt_err in Hb. split; [|by apply no_gain_core].
      apply core_inv in Hr as (_ & Hp & _). right. by rewrite <- Hp. }
  apply begin_attempt_persistent_ok in Hb as (_ & Hdp & _ & _); [|apply Hi1].
  pose proof (same_core_flush a1) as Hfc.
  apply mbind_err in Hd as [Hd|(a2 & b & Hf & Hd)]; [by apply flush_err in Hd|].
  rewrite Hf in Hfc. simpl in Hfc. rewrite Hr in Hfc.
  destruct b; [injection Hd as <- <-; split; [by left; left|by apply no_gain_core]|].
  apply mbind_err in Hd as [Hd|(a3 & d & Hs & Hd)].
  { apply save_err in Hd as [He Hc]. split; [by left|]. apply no_gain_core. congruence. }
  apply save_pin_state_spec in Hs as (_ & s & -> & _).
  apply mbind_err in Hd as [Hd|(a4 & u & Ha & Hd)]; [done|]. injection Ha as <- <-.
  destruct d; simpl in Hd; try done. injection Hd as <- <-. split; [by left; left|].
  apply (no_gain_core_l a a2); [done|]. split; [|by left].
  unfold persistent. simpl. rewrite Hdp. simpl. apply core_inv in Hr as (_ & Hp & _). apply core_inv in Hfc as (_ & Hp2 & _).
  unfold retries. rewrite Hp, Hp2. lia.
Qed.

Lemma save_ok_core p a a' d :
  save_pin_state p a = (a', Ok d) ->
  exists s, a' = with_store a s /\ pin_view s = Some (record_of_persistent p) /\
            app_stored_pin_state a = Read.
Proof. intros Hs. apply save_pin_state_spec in Hs as (? & s & ? & ?). eauto. Qed.

(** A comparison that succeeds matched, and restored the budget on disk. *)
Lemma compare_ok protocol keys enc a a' :
  compare_candidate protocol keys enc a = (a', Ok tt) ->
  pin_matches (ps_pin (app_pin_state a)) (decrypt protocol keys enc) = true /\
  persistent a' = set_pp_pin_retries (persistent a) MAX_PIN_RETRIES /\
  prs_consecutive_mismatches (ps_pin (app_pin_state a')) = 0 /\
  view a' = (Some (record_of_persistent (persistent a')), persistent a', Read) /\
  ps_token (app_pin_state a') = ps_token (app_pin_state a).
Proof.
  unfold compare_candidate, finish_attempt. destruct (pin_matches _ _); intros Hc.
  - peel Hc a1 d Hs. apply save_ok_core in Hs as (s & -> & Hs & Hst).
    destruct (require_confirmed_retry d) as [[]|] eqn:Hd; [|by inv_all Hc].
    injection Hc as <-. split_and!; try done. unfold view. simpl. by rewrite Hs, Hst.
  - destruct (retries _ =? 0); [|destruct (power_cycle_required _)];
      repeat (apply mbind_ok in Hc as (? & ? & _ & Hc)); done.
Qed.

(** A comparison that fails: unless the PIN matched, nothing is gained, the
    spent retry stays spent in both places, and the agreement key is dropped. *)
Lemma compare_err protocol keys enc a a' e :
  pin_matches (ps_pin (app_pin_state a)) (decrypt protocol keys enc) = false ->
  view a = (Some (record_of_persistent (persistent a)), persistent a, Read) ->
  compare_candidate protocol keys enc a = (a', Err e) ->
  view a' = view a /\ no_gain a a' /\
  prs_consecutive_mismatches (ps_pin (app_pin_state a')) =
    u8_saturating_add (prs_consecutive_mismatches (ps_pin (app_pin_state a))) 1 /\
  key_slot (ps_key_agreement (app_pin_state a')) protocol = None.
Proof.
  intros Hm Hv. unfold compare_candidate, finish_attempt. rewrite Hm.
  match goal with |- context [adopt_retry_state ?x] => set (c := x) end. intros Hc.
  set (a1 := with_pin_state a (with_key_agreement (with_retry (app_pin_state a) c)
               (regenerate protocol (ps_key_agreement (app_pin_state a))))).
  assert (Hgo : forall b, core b = core a1 -> app_pin_state b = app_pin_state a1 ->
    view b = view a /\ no_gain a b /\
    prs_consecutive_mismatches (ps_pin (app_pin_state b)) =
      u8_saturating_add (prs_consecutive_mismatches (ps_pin (app_pin_state a))) 1 /\
    key_slot (ps_key_agreement (app_pin_state b)) protocol = None).
  { intros b Hb Hb'. apply core_inv in Hb as (Hb1 & _ & _ & Hb2). rewrite Hb1, Hb'.
    split_and!; [done| |done|by destruct protocol].
    unfold no_gain. rewrite Hb2, Hb'. split; [apply Z.le_refl|by left]. }
  assert (Hrun : exists e', (let* d := save_persistent_pin_state in
       lift (require_confirmed_retry d) ;;* @fail App unit Z e') a1 = (a', Err e)).
  { destruct (retries c =? 0); [|destruct (power_cycle_required c)]; eexists; exact Hc. }
  destruct Hrun as [e' Hrun]. unfold save_persistent_pin_state in Hrun.
  apply mbind_err in Hrun as [Hs|(a2 & d & Hs & Hr)].
  - apply Hgo; [by eapply save_err|]. unfold save_pin_state, on_store in Hs. by inv_all Hs.
  - apply save_ok_core in Hs as (s & -> & Hs & _).
    assert (Ha' : a' = with_store a1 s) by (destruct (require_confirmed_retry d); by injection Hr).
    subst a'. apply Hgo; [|done]. unfold core, view. simpl. rewrite Hs.
    unfold view in Hv. simpl in Hv. injection Hv as Hv _. by rewrite Hv.
Qed.

(** ** Fresh secrets *)

Lemma fresh_secret_ok n forbidden b a a' c :
  @fresh_secret_loop S n forbidden b a = (a', Ok c) ->
  length c = 32%nat /\ Exists (fun x : Z => x <> 0) c /\ (c ∉ forbidden) /\
  (b = true -> secret_matches c (ps_token (app_pin_state a)) = false).
Proof.
  revert a. induction n as [|n IH]; intros a Hl; [done|].
  cbn [fresh_secret_loop] in Hl. peel Hl a1 x Hr.
  destruct (_ && _) eqn:Hg; [|by apply IH in Hl; injection Hr as <- <-].
  injection Hr as <- <-. injection Hl as _ <-.
  assert (Hex : forall l, existsb (fun b => negb (b =? 0)) l = true ->
            Exists (fun x : Z => x <> 0) l).
  { intros l (x & Hin & Hx)%existsb_exists. apply Exists_exists. exists x.
    split; [by apply list_elem_of_In|]. by apply negb_true_iff, Z.eqb_neq in Hx. }
  assert (Hno : forall c, existsb (fun old => bytes_eqb old c) forbidden = false -> c ∉ forbidden).
  { intros c Hc Hin. apply (Forall_forall (fun old => bytes_eqb old c = false)) in Hin;
      [by rewrite (proj2 (bytes_eqb_spec c c)) in Hin|by apply existsb_false_Forall]. }
  bool_hyps; (split_and!; [apply fill_bytes_length|by apply Hex|by apply Hno|by intros ->]).
Qed.

Lemma encrypt_ok `{!AesLaws} protocol keys token a a' c :
  @encrypt_for_platform S _ protocol keys token a = (a', Ok c) ->
  length (encryption_key keys) = 32%nat ->
  decrypt protocol keys c = Some token.
Proof.
  intros He Hk. peel He a1 iv Hiv. unfold lift in He.
  destruct (encrypt_classic_pin_block protocol keys iv token) as [c'|] eqn:E; [|done].
  injection He as _ <-. eapply pin_block_roundtrip; [done..|].
  intros v ->. destruct protocol; [done|]. injection Hiv as _ <-. apply fill_bytes_length.
Qed.

Definition same_token {A} (m : M App A Z) : Prop :=
  forall a, ps_token (app_pin_state (fst (m a))) = ps_token (app_pin_state a).

Lemma same_token_bind {A B} (m : M App A Z) (k : A -> M App B Z) :
  same_token m -> (forall x, same_token (k x)) -> same_token (mbind_st m k).
Proof.
  intros Hm Hk a. unfold mbind_st. specialize (Hm a).
  destruct (m a) as [a' [x|e]]; simpl in *; [by rewrite Hk|done].
Qed.

Lemma same_token_save p : same_token (save_pin_state p).
Proof.
  intros a. unfold save_pin_state, on_store. destruct (app_stored_pin_state a); try done.
  by destruct (st_set_pin_state _ _) as [? []].
Qed.

Lemma compare_token protocol keys enc : same_token (compare_candidate protocol keys enc).
Proof.
  intros a. unfold compare_candidate. destruct (finish_attempt _ _) as [c [?|e]].
  - apply same_token_bind; [apply same_token_save|]. intros d.
    apply same_token_bind; [by intros b|]. by intros _ b.
  - apply same_token_bind; [by intros b|]. intros _.
    apply same_token_bind; [by intros b|]. intros _.
    apply same_token_bind; [intros b; apply same_token_save|]. intros d.
    apply same_token_bind; [by intros b|]. by intros _ b.
Qed.

End Core.

(** ** A new PIN's policy *)

Lemma trim_zeros_nil l : trim_zeros l = [] -> l = repeat 0 (length l).
Proof.
  induction l as [|b l IH]; [done|]. simpl. destruct (trim_zeros l); [|done].
  destruct (Z.eqb_spec b 0); [|done]. intros _. subst. f_equal. auto.
Qed.

Lemma trim_zeros_split l :
  exists k, l = trim_zeros l ++ repeat 0 k /\ last (trim_zeros l) <> Some 0.
Proof.
  induction l as [|b l (k & Hl & Hn)]; [by exists 0%nat|]. simpl.
  destruct (trim_zeros l) as [|x t] eqn:E.
  - apply trim_zeros_nil in E. destruct (Z.eqb_spec b 0) as [->|Hb].
    + exists (Datatypes.S (length l)). simpl. split; [by f_equal|done].
    + exists (length l). simpl. split; [by f_equal|]. intros [= ->]. done.
  - exists k. split; [by rewrite Hl at 1|done].
Qed.

Lemma trim_zeros_unique p k : last p <> Some 0 -> trim_zeros (p ++ repeat 0 k) = p.
Proof.
  induction p as [|b p IH]; intros Hl; simpl.
  - induction k as [|k IHk]; simpl; [done|]. by rewrite IHk.
  - destruct p as [|c p].
    + simpl in *. rewrite IH by done. destruct (Z.eqb_spec b 0); [by subst|done].
    + rewrite IH by exact Hl. done.
Qed.

Lemma utf8_chars_le l n : utf8_chars l = Some n -> 0 <= n <= zlen l.
Proof.
  unfold zlen. revert l n. fix IH 1. intros [|b0 r0] n Hu; [by injection Hu as <-|].
  assert (Hs : forall r, (length r < length (b0 :: r0))%nat ->
    (forall m, utf8_chars r = Some m -> 0 <= m <= Z.of_nat (length r)) ->
    option_map Z.succ (utf8_chars r) = Some n -> 0 <= n <= Z.of_nat (length (b0 :: r0))).
  { intros r Hlt Hr. destruct (utf8_chars r) as [m|]; [|done]. intros [= <-].
    specialize (Hr m eq_refl). lia. }
  cbn [utf8_chars] in Hu. destruct (cont 0 0x7F b0); [by apply (Hs r0); [simpl; lia|apply IH|]|].
  destruct r0 as [|b1 r1]; [done|]. destruct (cont 0xC2 0xDF b0).
  { destruct (cont 0x80 0xBF b1); [|done]. by apply (Hs r1); [simpl; lia|apply IH|]. }
  destruct r1 as [|b2 r2]; [done|]. destruct (cont 0xE0 0xEF b0).
  { destruct (_ && _); [|done]. by apply (Hs r2); [simpl; lia|apply IH|]. }
  destruct r2 as [|b3 r3]; [done|]. destruct (cont 0xF0 0xF4 b0); [|done].
  destruct (_ && _); [|done]. by apply (Hs r3); [simpl; lia|apply IH|].
Qed.

(** A PIN the policy accepts: its 64-byte block is the PIN followed by at
    least one zero and nothing else, it is well-formed UTF-8 of at least
    [minimum] code points, and has a letter and a digit when required. *)
Definition acceptable_pin (padded : bytes) (minimum : Z) (complexity : bool) (pin : bytes) (n : Z)
    : Prop :=
  (exists k, padded = pin ++ repeat 0 (Datatypes.S k)) /\ length padded = 64%nat /\
  last pin <> Some 0 /\ utf8_chars pin = Some n /\ minimum <= n /\
  (complexity = true ->
   Exists (fun b => is_ascii_alphabetic b = true) pin /\ Exists (fun b => is_ascii_digit b = true) pin).

Lemma existsb_Exists (p : Z -> bool) l : existsb p l = true <-> Exists (fun b => p b = true) l.
Proof.
  rewrite existsb_exists, Exists_exists. split; intros (x & Hx & Hp); exists x;
    (split; [by apply list_elem_of_In|done]).
Qed.

(** The new PIN of setPIN and changePIN is accepted exactly when the
    policy allows it; the PIN is what precedes the padding and the recorded
    length is its number of code points (no truncation to a byte). *)
Theorem new_pin_policy padded minimum complexity pin n :
  decode_new_pin padded minimum complexity = Ok (pin, n) <->
  acceptable_pin padded minimum complexity pin n.
Proof.
  unfold decode_new_pin, acceptable_pin, PADDED_PIN_LENGTH, MAX_PIN_BYTES. split.
  - destruct (Z.eqb_spec (zlen padded) 64) as [Hlen|]; [|done]. simpl.
    destruct (trim_zeros_split padded) as (k & Hp & Hlast).
    destruct (Z.ltb_spec 63 (zlen (trim_zeros padded))) as [|Hle]; [done|].
    destruct (utf8_chars (trim_zeros padded)) as [m|] eqn:Hu; [|done]. simpl.
    pose proof (utf8_chars_le _ _ Hu) as Hm. destruct (_ || _) eqn:Hc; [done|].
    intros [= <- <-]. unfold zlen in *. rewrite Z.mod_small by lia.
    apply orb_false_iff in Hc as [Hmin%Z.ltb_ge Hc].
    destruct k as [|k]; [apply (f_equal length) in Hp; rewrite length_app in Hp; simpl in Hp; lia|].
    split_and!; try done; [by exists k|lia|]. intros ->. simpl in Hc.
    apply orb_false_iff in Hc as [H1%negb_false_iff H2%negb_false_iff]. by rewrite <- !existsb_Exists.
  - intros ((k & ->) & Hlen & Hlast & Hu & Hmin & Hc).
    rewrite trim_zeros_unique by done. unfold zlen. rewrite Hlen. simpl.
    rewrite length_app, repeat_length in Hlen.
    destruct (Z.ltb_spec 63 (Z.of_nat (length pin))); [lia|]. rewrite Hu. simpl.
    apply utf8_chars_le in Hu. unfold zlen in Hu. rewrite Z.mod_small by lia.
    destruct (Z.ltb_spec n minimum); [lia|]. simpl. destruct complexity; [|done].
    destruct Hc as [H1%existsb_Exists H2%existsb_Exists]; [done|]. by rewrite H1, H2.
Qed.

(** ** The PIN check *)

Section Theorems.

Context {S : Type} `{Crypto} `{Ciborium} `{CredentialStore S} `{!PinStoreLaws S}.

#[local] Abbreviation App := (CtapApp S).

Lemma verify_ok protocol keys enc a a' :
  pin_inv a -> app_stored_pin_state a = Read ->
  verify_pin_hash_enc protocol keys enc a = (a', Ok tt) ->
  (exists h, pp_pin_hash (persistent a) = Some h /\ decrypt protocol keys enc = Some h) /\
  check_attempt_allowed (ps_pin (app_pin_state a)) = Ok tt /\
  persistent a' = set_pp_pin_retries (persistent a) MAX_PIN_RETRIES /\
  prs_consecutive_mismatches (ps_pin (app_pin_state a')) = 0 /\
  view a' = (Some (record_of_persistent (persistent a')), persistent a', Read) /\
  ps_token (app_pin_state a') = ps_token (app_pin_state a).
Proof.
  intros Hi Hst Hv. peel Hv a1 u Hd. destruct u.
  apply debit_ok in Hd as (Hc & Hp & _ & _ & Ht); [|done..].
  apply compare_ok in Hv as (Hm & Hp' & Hmm & Hvw & Ht').
  split_and!; try done; [|by rewrite Hp', Hp|congruence].
  unfold pin_matches in Hm. change (prs_persistent (ps_pin (app_pin_state a1))) with (persistent a1) in Hm.
  rewrite Hp in Hm. simpl in Hm.
  destruct (pp_pin_hash (persistent a)) as [h|], (decrypt protocol keys enc); try done.
  apply bytes_eqb_spec in Hm as ->. eauto.
Qed.


(** ** Issuing tokens *)

Lemma same_token_core {A} (m : M App A Z) : same_core m -> same_token m.
Proof. intros Hm a. by destruct (core_inv _ _ (Hm a)) as (_ & _ & Ht & _). Qed.

Lemma run_token {A} (m : M App A Z) a a' r :
  same_core m -> m a = (a', r) -> ps_token (app_pin_state a') = ps_token (app_pin_state a).
Proof. intros Hm Hr. pose proof (same_token_core m Hm a) as Hx. by rewrite Hr in Hx. Qed.

(** The token as it is issued: the grant's origin, permissions and relying
    party under [value], started at [start], verified by the PIN and not used. *)
Definition token_as_issued (protocol : PinProtocol) (value : bytes) (grant : TokenGrant) (start id : Z)
    : InUseToken := {|
  tk_value := value; tk_protocol := protocol; tk_origin := Some (grant_origin grant);
  tk_permissions := grant_permissions grant; tk_permissions_rp_id := grant_rp_id grant;
  tk_started_at := start; tk_id := id; tk_used := false; tk_user_present := false;
  tk_user_verified := true |}.

Lemma grant_transient_ok `{!AesLaws} protocol keys grant a a' c :
  @grant_transient S _ protocol keys grant a = (a', Ok c) ->
  length (encryption_key keys) = 32%nat ->
  exists value,
    tks_in_use (ps_token (app_pin_state a')) =
      Some (token_as_issued protocol value grant
              (w_clock (app_world a') (pred (w_clock_reads (app_world a'))))
              (u64_wrapping_add (tks_issued (ps_token (app_pin_state a))) 1)) /\
    length value = 32%nat /\ Exists (fun x : Z => x <> 0) value /\
    (value ∉ token_secrets (pp_persistent_tokens (persistent a))) /\
    decrypt protocol keys c = Some value.
Proof.
  intros Hg Hkl. peel Hg a1 p0 Hp0. injection Hp0 as <- <-.
  peel Hg a2 token Hf. pose proof (run_token _ _ _ _ (same_core_fresh _ _) Hf) as Ht2.
  apply fresh_secret_ok in Hf as (Hl & Hnz & Hnf & _).
  peel Hg a3 enc He. pose proof (run_token _ _ _ _ (same_core_encrypt protocol keys token) He) as Ht3.
  apply encrypt_ok in He; [|done]. peel Hg a4 u Hi. injection Hi as <- <-.
  injection Hg as <- <-. exists token. split_and!; try done. simpl.
  by rewrite Nat.add_1_r, Ht3, Ht2.
Qed.

Lemma grant_persistent_ok `{!AesLaws} protocol keys a a' c :
  @grant_persistent S _ _ protocol keys a = (a', Ok c) ->
  length (encryption_key keys) = 32%nat ->
  ps_token (app_pin_state a') = ps_token (app_pin_state a) /\
  pin_view (app_store a') = Some (record_of_persistent (persistent a')) /\
  exists t, persistent_token (app_pin_state a') protocol = Some t /\ pt_granted t = true /\
    decrypt protocol keys c = Some (pt_secret t).
Proof.
  intros Hg Hkl. peel Hg a1 p0 Hp0. injection Hp0 as <- <-.
  peel Hg a2 secret Hs.
  assert (Ht2 : ps_token (app_pin_state a2) = ps_token (app_pin_state a)).
  { destruct (token_slot _ _); [by injection Hs as <- _|].
    eapply run_token; [apply same_core_fresh|exact Hs]. }
  peel Hg a3 enc He. pose proof (run_token _ _ _ _ (same_core_encrypt protocol keys secret) He) as Ht3.
  apply encrypt_ok in He; [|done].
  peel Hg a4 d Hd. apply save_ok_core in Hd as (s & -> & Hd & _).
  peel Hg a5 u5 Ha. injection Ha as <- <-. peel Hg a6 u6 Ha. injection Ha as <- <-.
  peel Hg a7 u7 Ha. destruct (require_confirmed_retry d); [|done]. injection Ha as <- <-.
  injection Hg as <- <-. simpl. split_and!; [congruence|exact Hd|].
  unfold persistent_token. destruct protocol; simpl; eexists; by split_and!.
Qed.

Lemma grant_token_err protocol keys grant b b' e :
  (if grant_permissions grant =? PIN_PERMISSION_PCMR then grant_persistent protocol keys
   else @grant_transient S _ protocol keys grant) b = (b', Err e) ->
  ps_token (app_pin_state b') = ps_token (app_pin_state b).
Proof.
  intros Hg. destruct (grant_permissions grant =? PIN_PERMISSION_PCMR).
  - assert (Hs : same_token (@grant_persistent S _ _ protocol keys)).
    { apply same_token_bind; [by intros x|]. intros p0.
      apply same_token_bind.
      { destruct (token_slot _ _); [by intros x|]. apply same_token_core, same_core_fresh. }
      intros secret. apply same_token_bind; [apply same_token_core, same_core_encrypt|]. intros c.
      apply same_token_bind; [apply same_token_save|]. intros d.
      apply same_token_bind; [by intros x|]. intros _.
      apply same_token_bind; [by intros x|]. intros _.
      apply same_token_bind; [by intros x|]. by intros _ x. }
    specialize (Hs b). by rewrite Hg in Hs.
  - apply mbind_err in Hg as [Hg|(b1 & p0 & Hp0 & Hg)]; [done|]. injection Hp0 as <- <-.
    apply mbind_err in Hg as [Hg|(b2 & t & Hf & Hg)].
    { eapply run_token; [apply same_core_fresh|exact Hg]. }
    apply run_token in Hf; [|apply same_core_fresh].
    apply mbind_err in Hg as [Hg|(b3 & c & He & Hg)]; [|done].
    apply run_token in Hg; [congruence|apply same_core_encrypt].
Qed.

Lemma pin_inv_core a b : core b = core a -> pin_inv a -> pin_inv b.
Proof. intros (Hv & _)%core_inv. by apply pin_inv_view. Qed.

(** The secret key the engine agrees session keys with: the protocol's key it
    has, or one it draws now where it has none. *)
Definition agreement_secret (protocol : PinProtocol) (secret : bytes) (a : App) : Prop :=
  match key_slot (ps_key_agreement (app_pin_state a)) protocol with
  | Some k => secret = k
  | None => p256_scalar_valid secret = true /\
      exists n, (w_rng_draws (app_world a) <= n < w_rng_draws (app_world a) + KEY_AGREEMENT_KEY_ATTEMPTS)%nat /\
        secret = fill_bytes (w_rng (app_world a) n) 32
  end.

(** The session keys the engine agrees on with the platform key [ka]. *)
Definition agreed_keys (protocol : PinProtocol) (ka : Entries) (keys : PinUvSessionKeys) (a : App) : Prop :=
  exists secret, agreement_secret protocol secret a /\ decapsulate_with secret protocol ka = Ok keys.

Lemma draw_key_ok attempts a a' k :
  @draw_key S _ attempts a = (a', Ok k) ->
  p256_scalar_valid k = true /\
  exists n, (w_rng_draws (app_world a) <= n < w_rng_draws (app_world a) + attempts)%nat /\
    k = fill_bytes (w_rng (app_world a) n) 32.
Proof.
  revert a. induction attempts as [|m IH]; intros a Hd; [done|].
  cbn [draw_key] in Hd. peel Hd a1 b Hr. injection Hr as <- <-.
  match type of Hd with context [p256_scalar_valid ?b] => destruct (p256_scalar_valid b) eqn:Hv end.
  - injection Hd as _ <-. split; [done|]. exists (w_rng_draws (app_world a)). split; [lia|done].
  - apply IH in Hd as (Hk & n & Hn & Hf). split; [done|]. exists n. simpl in Hn, Hf. split; [lia|done].
Qed.

Lemma decapsulate_ok protocol ka a a' keys :
  @decapsulate S _ protocol ka a = (a', Ok keys) ->
  core a' = core a /\ agreed_keys protocol ka keys a.
Proof.
  intros Hd. pose proof (same_core_decapsulate protocol ka a) as Hc. rewrite Hd in Hc.
  split; [done|]. peel Hd a1 secret Hk. injection Hd as _ Hd. exists secret. split; [|done].
  unfold agreement_secret. unfold key_agreement_key in Hk. destruct (key_slot _ protocol).
  - by injection Hk as _ ->.
  - peel Hk a2 k Hdr. apply draw_key_ok in Hdr. by injection Hk as _ <-.
Qed.

Lemma decapsulate_key_length `{!HashLengths} secret protocol ka keys :
  decapsulate_with secret protocol ka = Ok keys -> length (encryption_key keys) = 32%nat.
Proof.
  unfold decapsulate_with. cbv zeta. intros Hd. destruct (_ || _); [done|].
  destruct (map_get ka (VInteger (-2))) as [[]|]; try done.
  destruct (map_get ka (VInteger (-3))) as [[]|]; try done.
  destruct (negb _); [done|]. destruct (p256_point _); [|done]. injection Hd as <-.
  apply session_key_length.
Qed.

Lemma agreed_key_length `{!HashLengths} protocol ka keys (a : App) :
  agreed_keys protocol ka keys a -> length (encryption_key keys) = 32%nat.
Proof. intros (secret & _ & Hd). by eapply decapsulate_key_length. Qed.

(** Up to the PIN check, a token request changes nothing of the authority. *)
Lemma get_token_prefix protocol ka enc grant fe a a' response :
  pin_inv a -> app_stored_pin_state a = Read ->
  client_pin_get_token_common protocol ka enc grant fe a = (a', Ok response) ->
  exists keys a2 a3 c,
    agreed_keys protocol ka keys a /\ core a2 = core a /\
    verify_pin_hash_enc protocol keys enc a2 = (a3, Ok tt) /\
    pp_force_pin_change (persistent a3) = false /\
    (if grant_permissions grant =? PIN_PERMISSION_PCMR then grant_persistent protocol keys
     else grant_transient protocol keys grant) a3 = (a', Ok c) /\
    response = ok_response [(VInteger 2, VBytes c)].
Proof.
  intros Hi Hst Hg. unfold client_pin_get_token_common in Hg.
  peel Hg a0 u Hc. injection Hc as <- _. peel Hg a1 u1 Hr. destruct u1.
  pose proof (refresh_core _ _ Hi Hst Hr) as Hcr. apply refresh_ok in Hr as (s & -> & _); [|done..].
  peel Hg a2 keys Hd. apply decapsulate_ok in Hd as [Hd Hk].
  peel Hg a3 u3 Hv. destruct u3. peel Hg a3' force Hf. injection Hf as <- <-.
  destruct (pp_force_pin_change (persistent a3)) eqn:Hforce; [done|].
  peel Hg a4 c Hgr. injection Hg as <- <-.
  exists keys, a2, a3, c. split_and!; try done. congruence.
Qed.


(** A token request that fails for any reason issues nothing: the
    transient token is the one before the request, or none at all. *)
Theorem refused_request_issues_no_token protocol ka enc grant fe (a a' : App) e :
  pin_inv a -> app_stored_pin_state a = Read ->
  client_pin_get_token_common protocol ka enc grant fe a = (a', Err e) ->
  tks_issued (ps_token (app_pin_state a')) = tks_issued (ps_token (app_pin_state a)) /\
  (tks_in_use (ps_token (app_pin_state a')) = tks_in_use (ps_token (app_pin_state a)) \/
   tks_in_use (ps_token (app_pin_state a')) = None).
Proof.
  intros Hi Hst Hg.
  enough (ps_token (app_pin_state a') = ps_token (app_pin_state a) \/
          ps_token (app_pin_state a') = stop_using (ps_token (app_pin_state a)))
    as [-> | ->] by auto.
  unfold client_pin_get_token_common in Hg.
  apply mbind_err in Hg as [Hg|(a0 & u & Hc & Hg)]; [injection Hg as -> _; auto|].
  injection Hc as <- _.
  apply mbind_err in Hg as [Hg|(a1 & u1 & Hr & Hg)]; [by apply refresh_err in Hg as (_ & _ & ?)|].
  destruct u1. apply refresh_core in Hr; [|done..].
  apply mbind_err in Hg as [Hg|(a2 & keys & Hd & Hg)].
  { apply run_token in Hg; [|apply same_core_decapsulate]. apply core_inv in Hr as (_ & _ & Hr & _).
    left. congruence. }
  apply decapsulate_ok in Hd as [Hd _]. rewrite Hr in Hd.
  pose proof (pin_inv_core _ _ Hd Hi) as Hi2. apply core_inv in Hd as (Hvw & _ & Ht & _).
  assert (Hst2 : app_stored_pin_state a2 = Read) by (injection Hvw; congruence).
  rewrite <- Ht. apply mbind_err in Hg as [Hv|(a3 & u3 & Hv & Hg)].
  - apply mbind_err in Hv as [Hv|(b & [] & Hb & Hv)]; [by apply debit_err in Hv as (_ & _ & ?)|].
    apply debit_ok in Hb as (_ & _ & _ & _ & Hb); [|done..].
    pose proof (compare_token protocol keys enc b) as Hx. rewrite Hv in Hx. simpl in Hx.
    left. congruence.
  - destruct u3. apply verify_ok in Hv as (_ & _ & _ & _ & _ & Ht3); [|done..]. left.
    apply mbind_err in Hg as [Hg|(a4 & f & Hf & Hg)]; [done|]. injection Hf as <- <-.
    destruct (pp_force_pin_change _); [by injection Hg as <- _|].
    apply mbind_err in Hg as [Hg|(a5 & c & _ & Hg)]; [|done].
    apply grant_token_err in Hg. congruence.
Qed.

(** ** Changing the PIN *)

(** Both persistent authorities replaced: ungranted, distinct from each other
    and from every authority before. *)
Definition rotated (old new : PersistentTokens) : Prop :=
  exists s1 s2, new = (Some {| pt_secret := s1; pt_granted := false |},
                       Some {| pt_secret := s2; pt_granted := false |}) /\
    s1 <> s2 /\ (s1 ∉ token_secrets old) /\ (s2 ∉ token_secrets old).

Lemma rotate_ok p a a' q :
  @rotate_persistent_tokens S p a = (a', Ok q) ->
  core a' = core a /\ rotated (pp_persistent_tokens p) (pp_persistent_tokens q) /\
  q = set_pp_persistent_tokens p (pp_persistent_tokens q).
Proof.
  intros Hr. pose proof (same_core_rotate p a) as Hc. rewrite Hr in Hc. split; [done|].
  peel Hr a1 s1 H1'. peel Hr a2 s2 H2'. injection Hr as _ <-.
  apply fresh_secret_ok in H1' as (_ & _ & H1' & _). apply fresh_secret_ok in H2' as (_ & _ & H2' & _).
  rewrite not_elem_of_app, list_elem_of_singleton in H2'. destruct H2' as [H2' Hne].
  split; [|done]. exists s1, s2. by split_and!.
Qed.

(** The persistent state under a new PIN: its hash and length, a full budget and
    no forced change; the policy as it was. *)
Definition under_new_pin (h : bytes) (n : Z) (tokens : PersistentTokens) (p : PersistentPinState)
    : PersistentPinState := {|
  pp_pin_hash := Some h; pp_pin_retries := MAX_PIN_RETRIES;
  pp_min_pin_length := pp_min_pin_length p;
  pp_min_pin_length_rp_ids := pp_min_pin_length_rp_ids p;
  pp_force_pin_change := false; pp_pin_code_point_length := n;
  pp_always_uv := pp_always_uv p; pp_pin_complexity_policy := pp_pin_complexity_policy p;
  pp_persistent_tokens := tokens |}.

Lemma store_new_pin_ok h n a a' :
  @store_new_pin S _ h n a = (a', Ok tt) ->
  exists tokens, persistent a' = under_new_pin h n tokens (persistent a) /\
  pin_view (app_store a') = Some (record_of_persistent (persistent a')) /\
  tks_in_use (ps_token (app_pin_state a')) = None /\
  prs_consecutive_mismatches (ps_pin (app_pin_state a')) = 0 /\
  (is_set (ps_pin (app_pin_state a)) = true -> rotated (pp_persistent_tokens (persistent a)) tokens).
Proof.
  intros Hs. unfold store_new_pin in Hs. peel Hs a1 p2 Hp2.
  peel Hs a2 d Hd. apply save_ok_core in Hd as (s & -> & Hd & _).
  assert (Hpa : persistent a' = p2) by (injection Hs as <-; done). rewrite Hpa.
  injection Hs as <-. simpl. clear Hpa.
  exists (pp_persistent_tokens p2). destruct (is_set (ps_pin (app_pin_state a))).
  - apply rotate_ok in Hp2 as (_ & Hrot & Heq). split_and!; first [done | by rewrite Heq].
  - injection Hp2 as <- <-. by split_and!.
Qed.

Lemma verify_lift_ok protocol key m t (a a' : App) u :
  lift (verify protocol key m t) a = (a', Ok u) -> a' = a /\ t = authenticate protocol key m.
Proof.
  intros [= <- Hv]. split; [done|]. destruct u. by apply verify_ok_iff.
Qed.

(** C5: A successful changePIN took a pinHashEnc equal to the stored PIN hash
    and a MAC over both encrypted fields, under the session keys the engine's
    own key-agreement key gives with the request's platform key.  Afterwards the
    live persistent state is the one before with the new PIN's hash and length,
    a full budget, no forced change pending and both persistent authorities
    replaced by fresh ungranted ones; every policy setting (minimum length and
    the relying parties told it, complexity, always-UV) is as before.  That state is
    published, and no transient token is in use. *)
Theorem pin_change_replaces_authority map (a a' : App) response :
  pin_inv a -> app_stored_pin_state a = Read ->
  client_pin_change_pin map a = (a', Ok response) ->
  exists protocol ka keys new_pin_enc pin_hash_enc param old h n tokens,
    parse_required_pin_uv_auth_protocol (map_get map (int_key 1)) = Ok protocol /\
    required_map map (int_key 3) = Ok ka /\ agreed_keys protocol ka keys a /\
    required_bytes map (int_key 4) = Ok param /\
    required_bytes map (int_key 5) = Ok new_pin_enc /\
    required_bytes map (int_key 6) = Ok pin_hash_enc /\
    param = authenticate protocol (auth_key keys) (new_pin_enc ++ pin_hash_enc) /\
    pp_pin_hash (persistent a) = Some old /\ decrypt protocol keys pin_hash_enc = Some old /\
    new_pin_hash protocol keys new_pin_enc a = Ok (h, n) /\
    (pp_force_pin_change (persistent a) = true -> h <> old) /\
    persistent a' = {|
      pp_pin_hash := Some h; pp_pin_retries := MAX_PIN_RETRIES;
      pp_min_pin_length := pp_min_pin_length (persistent a);
      pp_min_pin_length_rp_ids := pp_min_pin_length_rp_ids (persistent a);
      pp_force_pin_change := false; pp_pin_code_point_length := n;
      pp_always_uv := pp_always_uv (persistent a);
      pp_pin_complexity_policy := pp_pin_complexity_policy (persistent a);
      pp_persistent_tokens := tokens |} /\
    rotated (pp_persistent_tokens (persistent a)) tokens /\
    pin_view (app_store a') = Some (record_of_persistent (persistent a')) /\
    tks_in_use (ps_token (app_pin_state a')) = None.
Proof.
  intros Hi Hst Hc. unfold client_pin_change_pin in Hc.
  peel Hc b1 ka Hka. injection Hka as <- Hka. peel Hc b2 param Hparam. injection Hparam as <- Hparam.
  peel Hc b3 npe Hnpe. injection Hnpe as <- Hnpe. peel Hc b4 phe Hphe. injection Hphe as <- Hphe.
  peel Hc b5 protocol Hpr. injection Hpr as <- Hpr. peel Hc b6 u6 Hal. injection Hal as <- _.
  peel Hc b7 keys Hd. apply decapsulate_ok in Hd as [Hd Hk].
  peel Hc b8 u8 Hmac. apply verify_lift_ok in Hmac as [-> Hmac].
  peel Hc b9 u9 Hv. destruct u9.
  pose proof (pin_inv_core _ _ Hd Hi) as Hi7. apply core_inv in Hd as (Hvw & _ & _ & Hp).
  apply verify_ok in Hv as ((old & Hold & Hdec) & _ & Hp9 & _); [|done|injection Hvw; congruence].
  rewrite Hp in Hold, Hp9.
  peel Hc b10 hashed Hh. injection Hh as <- Hh. peel Hc b11 reused Hre. injection Hre as <- Hre.
  destruct reused; [done|]. peel Hc b12 u12 Hs. destruct u12. injection Hc as <- _.
  assert (Hset : is_set (ps_pin (app_pin_state b9)) = true).
  { unfold is_set. change (prs_persistent _) with (persistent b9). rewrite Hp9. simpl. by rewrite Hold. }
  unfold new_pin_hash in Hh. rewrite Hp9 in Hh. destruct hashed as [h n].
  apply store_new_pin_ok in Hs as (tokens & S1 & S2 & S3 & _ & S5).
  specialize (S5 Hset). rewrite Hp9 in S1, S5.
  exists protocol, ka, keys, npe, phe, param, old, h, n, tokens. split_and!; try done.
  intros Hf ->. rewrite Hp9 in Hre. simpl in Hre. rewrite Hold, Hf in Hre. simpl in Hre.
  by rewrite (proj2 (bytes_eqb_spec old old) eq_refl) in Hre.
Qed.

(** ** Permissions *)

Lemma requested_permissions_ok permissions granted :
  requested_pin_permissions permissions = Ok granted ->
  granted = Z.land permissions DEFINED_PIN_PERMISSIONS /\
  Z.land granted SUPPORTED_PIN_PERMISSIONS = granted /\
  (Z.land granted PIN_PERMISSION_PCMR <> 0 -> granted = PIN_PERMISSION_PCMR).
Proof.
  unfold requested_pin_permissions. set (d := Z.land permissions DEFINED_PIN_PERMISSIONS).
  destruct (_ || _) eqn:Hc; [done|]. intros [= <-]. apply orb_false_iff in Hc as [Hc1 Hc2].
  apply negb_false_iff, Z.eqb_eq in Hc2. split; [done|]. split.
  - apply Z.bits_inj'. intros i Hi. rewrite Z.land_spec.
    destruct (Z.testbit d i) eqn:Hd; [|done]. simpl.
    assert (Hlt : i < 7).
    { destruct (Z.lt_ge_cases i 7); [done|]. subst d. rewrite Z.land_spec in Hd.
      apply andb_true_iff in Hd as [_ Hd].
      rewrite (Z.bits_above_log2 DEFINED_PIN_PERMISSIONS) in Hd; [done|done|].
      change (Z.log2 DEFINED_PIN_PERMISSIONS) with 6. lia. }
    apply (f_equal (fun z => Z.testbit z i)) in Hc2. rewrite Z.land_spec, Hd, Z.bits_0 in Hc2.
    assert (i = 0 \/ i = 1 \/ i = 2 \/ i = 3 \/ i = 4 \/ i = 5 \/ i = 6) as Hcases by lia.
    destruct_or? Hcases; subst i; vm_compute in Hc2; done.
  - intros Hp. apply Z.eqb_neq in Hp. rewrite Hp in Hc1. simpl in Hc1.
    by apply negb_false_iff, Z.eqb_eq in Hc1.
Qed.

(** What getPinUvAuthTokenUsingPinWithPermissions hands out.  The grant is
    the defined part of what was asked, only supported permissions, and the
    persistent read-only permission never comes with another; a transient
    token carries exactly these permissions and the relying party the request
    named, which is there whenever makeCredential or getAssertion was asked. *)
Theorem granted_permissions map (a a' : App) response :
  pin_inv a -> app_stored_pin_state a = Read ->
  client_pin_get_token_with_permissions map a = (a', Ok response) ->
  exists asked granted,
    map_get map (int_key 9) = Some (VInteger asked) /\ 0 < asked /\
    granted = Z.land asked DEFINED_PIN_PERMISSIONS /\
    Z.land granted SUPPORTED_PIN_PERMISSIONS = granted /\
    (Z.land granted PIN_PERMISSION_PCMR <> 0 -> granted = PIN_PERMISSION_PCMR) /\
    (granted <> PIN_PERMISSION_PCMR -> exists t rp,
       tks_in_use (ps_token (app_pin_state a')) = Some t /\ tk_permissions t = granted /\
       rp_id_parameter map = Ok rp /\ tk_permissions_rp_id t = rp /\
       (Z.land asked (Z.lor PIN_PERMISSION_MC PIN_PERMISSION_GA) <> 0 -> exists id, rp = Some id)).
Proof.
  intros Hi Hst Hg. unfold client_pin_get_token_with_permissions in Hg.
  peel Hg b1 ka Hka. injection Hka as <- _. peel Hg b2 enc Henc. injection Henc as <- _.
  peel Hg b3 asked Hasked. injection Hasked as <- Hasked.
  assert (Hmap : map_get map (int_key 9) = Some (VInteger asked)).
  { unfold permissions_parameter in Hasked. by repeat case_match; simplify_eq. }
  exists asked. destruct (_ && _) eqn:Hpc.
  - peel Hg b4 protocol Hp. injection Hp as <- _. peel Hg b5 granted Hr. injection Hr as <- Hr.
    apply requested_permissions_ok in Hr as (-> & Hsup & Hpcmr). bool_hyps.
    exists (Z.land asked DEFINED_PIN_PERMISSIONS). split_and!; try done. intros Hne. destruct Hne. apply Hpcmr.
    rewrite <- Z.land_assoc. by change (Z.land DEFINED_PIN_PERMISSIONS _) with PIN_PERMISSION_PCMR.
  - peel Hg b4 rp Hrp. injection Hrp as <- Hrp.
    destruct (_ && _) eqn:Hmc in Hg; [done|].
    peel Hg b5 protocol Hp. injection Hp as <- _.
    destruct (Z.leb_spec asked 0); [done|].
    peel Hg b6 granted Hr. injection Hr as <- Hr.
    apply requested_permissions_ok in Hr as (-> & Hsup & Hpcmr).
    exists (Z.land asked DEFINED_PIN_PERMISSIONS). split_and!; try done. intros Hne.
    apply get_token_prefix in Hg as (keys & a2 & a3 & c & _ & _ & _ & _ & Hg & _);
      [|done..]. simpl in Hg. rewrite (proj2 (Z.eqb_neq _ _) Hne) in Hg.
    peel Hg c1 p0 Hp0. peel Hg c2 token Hf. peel Hg c3 e He. peel Hg c4 u Hiss.
    injection Hiss as <- _. injection Hg as <- _.
    eexists _, rp. split_and!; [reflexivity|done..|]. intros Hmg. apply Z.eqb_neq in Hmg.
    rewrite Hmg, (proj2 (Z.ltb_lt 0 asked)) in Hmc by lia. destruct rp; [eauto|done].
Qed.

(** ** Restart *)

(** What a restart finds.  While the engine counts its PIN state as read,
    reading the store again, as a restart does, yields exactly the live
    persistent state (PIN hash, remaining retries, policy, persistent
    authorities) with the consecutive-mismatch count back at zero and no
    token in use. *)
Theorem restart_restores_pin_state (a a' : App) p :
  pin_inv a -> app_stored_pin_state a = Read ->
  load_pin_state a = (a', Ok (p, Read)) ->
  prs_persistent (ps_pin p) = persistent a /\ prs_consecutive_mismatches (ps_pin p) = 0 /\
  tks_in_use (ps_token p) = None.
Proof.
  intros Hi Hst Hl. apply load_spec in Hl as [_ Hl].
  pose proof (pi_synced _ Hi Hst) as Hy. unfold synced in Hy.
  destruct Hl as [(r & Hr & ->)|[Hr ->]]; rewrite Hr in Hy; split_and!; try done.
  cbn -[power_up]. rewrite power_up_bounded; [done|]. by apply (pi_store _ Hi r).
Qed.

End Theorems.

(** ** Concrete runs *)

Module ClientPinWitness.

(** The concrete states are evaluated by the virtual machine only. *)
#[local] Opaque fresh_engine engine_with_pin engine_with_token agreed seal_for.

Ltac run := vm_compute; reflexivity.

Definition wrong_check : CtapApp MemoryStore * result unit Z :=
  verify_pin_hash_enc V2 (agreed engine_with_pin V2)
    (seal_for engine_with_pin V2 (pin_hash_of pin_two)) engine_with_pin.


Definition token_run : CtapApp MemoryStore * result bytes Z :=
  client_pin_get_token_common V2 platform_key (seal_for engine_with_pin V2 (pin_hash_of pin_one))
    all_permissions CTAP2_ERR_PIN_POLICY_VIOLATION engine_with_pin.


Definition refused_run : CtapApp MemoryStore * result bytes Z :=
  client_pin_get_token_common V2 platform_key (seal_for engine_with_token V2 (pin_hash_of pin_two))
    all_permissions CTAP2_ERR_PIN_POLICY_VIOLATION engine_with_token.

Lemma refused_request_issues_no_token_witness :
  snd refused_run = Err CTAP2_ERR_PIN_INVALID /\
  tks_issued (ps_token (app_pin_state (fst refused_run))) = 1.
Proof.
  assert (Hs : snd refused_run = Err CTAP2_ERR_PIN_INVALID) by run.
  split; [exact Hs|].
  pose proof (refused_request_issues_no_token V2 platform_key
    (seal_for engine_with_token V2 (pin_hash_of pin_two)) all_permissions
    CTAP2_ERR_PIN_POLICY_VIOLATION engine_with_token (fst refused_run) CTAP2_ERR_PIN_INVALID
    engine_with_token_inv ltac:(run) (run_result refused_run _ Hs)) as [Hn _].
  rewrite Hn. run.
Defined.

Definition change_run : CtapApp MemoryStore * result bytes Z :=
  client_pin_change_pin (change_pin_entries engine_with_token pin_one pin_two) engine_with_token.

Lemma pin_change_replaces_authority_witness :
  snd change_run = Ok [CTAP2_OK] /\
  tks_in_use (ps_token (app_pin_state (fst change_run))) = None.
Proof.
  assert (Hs : snd change_run = Ok [CTAP2_OK]) by run. split; [exact Hs|].
  destruct (pin_change_replaces_authority (change_pin_entries engine_with_token pin_one pin_two)
    engine_with_token (fst change_run) [CTAP2_OK] engine_with_token_inv ltac:(run)
    (run_result change_run _ Hs))
    as (p & ka & keys & e1 & e2 & param & old & h & n & tokens & _ & _ & _ & _ & _ & _ & _ & _ & _ & _ & _ & _ & _ & _ & Ht).
  exact Ht.
Defined.

Definition permission_entries : Entries :=
  [(VInteger 1, VInteger 2); (VInteger 2, VInteger 9); (VInteger 3, VMap platform_key);
   (VInteger 6, VBytes (seal_for engine_with_pin V2 (pin_hash_of pin_one)));
   (VInteger 9, VInteger 0x83); (VInteger 10, VText [114; 112])].

Definition permission_run : CtapApp MemoryStore * result bytes Z :=
  client_pin_get_token_with_permissions permission_entries engine_with_pin.

Lemma granted_permissions_witness :
  exists response t, snd permission_run = Ok response /\
    tks_in_use (ps_token (app_pin_state (fst permission_run))) = Some t /\ tk_permissions t = 0x03.
Proof.
  destruct (is_ok_exists (snd permission_run) ltac:(run)) as [response Hs].
  destruct (granted_permissions permission_entries engine_with_pin (fst permission_run) response
    engine_with_pin_inv ltac:(run) (run_result permission_run _ Hs))
    as (asked & granted & Ha & _ & -> & _ & _ & Ht).
  injection Ha as <-. destruct Ht as (t & rp & Ht & Hp & _); [vm_compute; discriminate|].
  exists response, t. split; [exact Hs|]. split; [exact Ht|exact Hp].
Defined.

Lemma restart_restores_pin_state_witness :
  exists a' p, load_pin_state engine_with_token = (a', Ok (p, Read)) /\
    prs_persistent (ps_pin p) = persistent engine_with_token.
Proof.
  assert (Hst : match snd (load_pin_state engine_with_token) with
                | Ok (_, Read) => true | _ => false end = true) by run.
  destruct (load_pin_state engine_with_token) as [a' r] eqn:Hl.
  destruct r as [[p []]|e]; [|discriminate Hst..].
  exists a', p. split; [reflexivity|].
  exact (proj1 (restart_restores_pin_state engine_with_token a' p engine_with_token_inv
    ltac:(run) Hl)).
Defined.

End ClientPinWitness.
