(* ===== verification/Reset.v ===== *)
(** * authenticatorReset and authenticatorSelection
    ([ctap/reset.rs], [ctap/selection.rs])

    Reset needs the user and the first ten seconds after power-up; when the
    store's part of it fails half-way, the engine falls back on what the store
    now shows. *)

From S2P Require Import Prelude Constants Crypto ConcreteCrypto Cbor ConcreteCbor Records.
From S2P Require Import PinRetry Token Presence Store StoreProofs Engine EngineProofs ClientPin.
From S2P Require Import ClientPinProofs ClientPinTheorems Scenario.

Section Reset.

Context {S : Type} `{Crypto} `{CredentialStore S}.

#[local] Abbreviation App := (CtapApp S).

(** [if let Some(window) = self.reset_window && self.pin_state.now() > window]. *)
Definition within_reset_window : M App unit Z := fun a =>
  match app_reset_window a with
  | None => (a, Ok tt)
  | Some window =>
      (let* t := now in if window <? t then fail CTAP2_ERR_NOT_ALLOWED else ret tt) a
  end.

Definition handle_reset : M App bytes Z :=
  within_reset_window ;;*
  let* timeout := gets app_presence_timeout in
  confirm_user_presence (presence_request Reset timeout) ;;*
  clear_cred_mgmt ;;*
  fun a =>
    match st_clear (app_store a) with
    | (s, Ok _) =>
        (modify_pin pin_reset ;;*
         modify (fun a => with_stored_pin_state a Read) ;;*
         ret [CTAP2_OK]) (with_store a s)
    | (s, Err e) =>
        (reconcile_persistent_authority ;;* fail (store_status e)) (with_store a s)
    end.

Definition handle_selection : M App bytes Z :=
  let* timeout := gets app_presence_timeout in
  confirm_user_presence (presence_request Select timeout) ;;*
  ret [CTAP2_OK].

Context `{!PinStoreLaws S} `{!PinResetLaws S}.

(** ** The invariant *)

Lemma keeps_selection : keeps pin_inv handle_selection.
Proof. unfold handle_selection. repeat keeps_step. Qed.

Lemma same_view_window : same_view within_reset_window.
Proof.
  intros a. unfold within_reset_window. destruct (app_reset_window a) as [w|]; [|done].
  apply same_view_bind; [apply same_view_now|]. intros t b. by destruct (w <? t).
Qed.

(** What a failed [clear] leaves: live state and store may disagree, but only
    in that the store shows the defaults. *)
Record after_clear (a : App) : Prop := {
  ac_records : records_ok a;
  ac_bounds : 0 <= pp_pin_retries (persistent a) <= MAX_PIN_RETRIES;
  ac_live : app_stored_pin_state a = Read -> persistent_ok (persistent a);
  ac_synced : app_stored_pin_state a = Read ->
    synced a \/ pin_view (app_store a) = Some PinStateRecord_default
}.

Lemma after_clear_failed a s :
  pin_inv a ->
  pin_view s = pin_view (app_store a) \/ pin_view s = Some PinStateRecord_default ->
  after_clear (with_store a s).
Proof.
  intros Hi Hs. split; [|exact (pi_bounds _ Hi)|exact (pin_inv_live_ok a Hi)|].
  - intros r Hr. simpl in Hr. destruct Hs as [Hs|Hs]; rewrite Hs in Hr.
    + by apply (pi_store _ Hi).
    + injection Hr as <-. apply record_ok_default.
  - intros Hst. destruct Hs as [Hs|Hs]; [left|by right].
    pose proof (pi_synced _ Hi Hst) as Hy. unfold synced in *. simpl. by rewrite Hs.
Qed.

Lemma after_clear_inv a : after_clear a -> (app_stored_pin_state a = Read -> synced a) -> pin_inv a.
Proof. intros [H1 H2 H3 H4] Hy. by split. Qed.

Lemma refresh_after_clear b c r :
  after_clear b -> refresh_persistent_authority b = (c, r) ->
  records_ok c /\ (r = Ok tt \/ app_stored_pin_state c <> Read -> pin_inv c).
Proof.
  intros Ha Hr. destruct (decide (app_stored_pin_state b = Read)) as [Hst|Hst].
  2:{ assert (Hi : pin_inv b) by (by apply after_clear_inv).
      pose proof (keeps_refresh b Hi) as Hc. rewrite Hr in Hc. split; [exact (pi_store _ Hc)|done]. }
  unfold refresh_persistent_authority in Hr. rewrite Hst in Hr. unfold mbind_st in Hr.
  pose proof (same_view_read_store b) as Hv. unfold read_store_pin_state in *.
  destruct (st_pin_state (app_store b)) as [s x] eqn:E. apply pin_read in E as [Epv E].
  simpl in Hv. set (b1 := with_store b s) in *. destruct Ha as [R1 R2 R3 R4].
  assert (Hrec : records_ok b1) by (intros q Hq; apply R1; unfold b1 in Hq; simpl in Hq; congruence).
  assert (Hclosed : pin_inv (fst (close_authority b1))) by (by apply pin_inv_closed).
  destruct x as [[record|]|e].
  - pose proof (adopt_record_inv b1 record Hrec) as Had. rewrite Hr in Had.
    assert (Hc : pin_inv c).
    { apply Had; [unfold b1; simpl; by rewrite Epv, <- (E _ eq_refl)|by apply R3|].
      destruct (R4 Hst) as [Hy|Hy]; [left; unfold synced in Hy|right];
        rewrite <- (E _ eq_refl) in Hy; [exact Hy|by injection Hy]. }
    split; [exact (pi_store _ Hc)|done].
  - assert (Hy : synced b).
    { destruct (R4 Hst) as [Hy|Hy]; [done|]. by rewrite <- (E _ eq_refl) in Hy. }
    assert (Hb1 : pin_inv b1).
    { apply (pin_inv_view b); [by symmetry|]. by apply after_clear_inv. }
    destruct (pp_pin_hash (persistent b1)), (pp_persistent_tokens (persistent b1)) as [[] []];
      injection Hr as <- <-; (split; [first [exact Hrec | exact (pi_store _ Hclosed)]|done]).
  - destruct (closes_authority e); injection Hr as <- <-; (split; [first [exact Hrec | exact (pi_store _ Hclosed)]|]).
    + intros _. exact Hclosed.
    + intros [|]; done.
Qed.

Lemma reconcile_after_clear b :
  after_clear b -> pin_inv (fst (reconcile_persistent_authority b)).
Proof.
  intros Ha. unfold reconcile_persistent_authority.
  destruct (refresh_persistent_authority b) as [c [[]|e]] eqn:Hr;
    apply refresh_after_clear in Hr as [Hrec Hinv]; [|done| |done]; [by apply Hinv; left|].
  destruct (app_stored_pin_state c) eqn:Hst; try (apply Hinv; by right).
  split; cbn; [exact Hrec|vm_compute; split; discriminate|done].
Qed.

Lemma keeps_reset : keeps pin_inv handle_reset.
Proof.
  unfold handle_reset. apply keeps_bind; [apply keeps_same_view; [apply pin_inv_view|apply same_view_window]|].
  intros _. repeat (apply keeps_bind; [view_done|intros ?]). intros a Hi.
  destruct (st_clear (app_store a)) as [s [d|e]] eqn:E; apply pin_clear in E.
  - simpl. apply (pin_inv_of_view _ PersistentPinState_default Read);
      [unfold view; simpl; by rewrite E|apply persistent_ok_default].
  - unfold mbind_st. pose proof (reconcile_after_clear _ (after_clear_failed a s Hi E)) as Hx.
    by destruct (reconcile_persistent_authority (with_store a s)) as [c [[]|e']].
Qed.

(** ** Properties *)

(** C8: A reset that succeeds was asked for no later than the end of the reset
    window (the clock when the request arrives; the user may confirm it after),
    was confirmed by the user as a reset and not cancelled before it was shown,
    and starts the authenticator afresh: no PIN, default policy and retries, no
    token, no key-agreement keys, no enumeration in progress, with the default
    PIN state published. *)
Theorem reset_starts_afresh (a a' : App) response :
  handle_reset a = (a', Ok response) ->
  response = [CTAP2_OK] /\
  (forall w, app_reset_window a = Some w -> w_clock (app_world a) (w_clock_reads (app_world a)) <= w) /\
  (exists n, w_cancelled (app_world a) n = false /\
     w_confirm (app_world a) n (presence_request Reset (app_presence_timeout a)) = Approved) /\
  ps_pin (app_pin_state a') = PinRetryState_default /\
  ps_key_agreement (app_pin_state a') = KeyAgreementKeys_default /\
  tks_in_use (ps_token (app_pin_state a')) = None /\
  app_cred_mgmt_state a' = cm_new /\ app_stored_pin_state a' = Read /\
  pin_view (app_store a') = Some PinStateRecord_default.
Proof.
  intros Hr. unfold handle_reset in Hr. peel Hr b u Hw.
  assert (Hb : (forall w, app_reset_window a = Some w ->
                 w_clock (app_world a) (w_clock_reads (app_world a)) <= w) /\
               app_presence_timeout b = app_presence_timeout a /\
               w_cancelled (app_world b) = w_cancelled (app_world a) /\
               w_confirm (app_world b) = w_confirm (app_world a)).
  { unfold within_reset_window in Hw. destruct (app_reset_window a) as [w|]; [|by injection Hw as <-].
    peel Hw c t Ht. injection Ht as <- <-. destruct (Z.ltb_spec w (w_clock (app_world a) (w_clock_reads (app_world a)))); [done|].
    injection Hw as <-. split_and!; try done. by intros w' [= <-]. }
  destruct Hb as (Hwin & Hto & Hca & Hco).
  peel Hr c1 timeout Ht. injection Ht as <- <-. peel Hr c2 u2 Hc.
  peel Hc d outcome Ho. injection Ho as <- <-. injection Hc as <- Hst. destruct u2.
  apply presence_status_ok in Hst. peel Hr c3 u3 Hcm. injection Hcm as <- <-.
  simpl in Hr. destruct (st_clear (app_store b)) as [s [d|e]] eqn:E; apply pin_clear in E.
  - injection Hr as <- <-. split_and!; try done. exists (w_asks (app_world b)).
    rewrite <- Hca, <- Hco, <- Hto. by destruct (w_cancelled (app_world b) (w_asks (app_world b))).
  - unfold mbind_st in Hr. by destruct (reconcile_persistent_authority _) as [? [[]|]].
Qed.

End Reset.

(** ** A concrete run *)

Module ResetWitness.

#[local] Opaque fresh_engine engine_with_pin engine_with_token agreed seal_for.

Lemma reset_starts_afresh_witness :
  snd (handle_reset engine_with_token) = Ok [CTAP2_OK] /\
  tks_in_use (ps_token (app_pin_state (fst (handle_reset engine_with_token)))) = None.
Proof.
  assert (Hs : snd (handle_reset engine_with_token) = Ok [CTAP2_OK]) by (vm_compute; reflexivity).
  split; [exact Hs|].
  destruct (reset_starts_afresh engine_with_token (fst (handle_reset engine_with_token)) [CTAP2_OK]
    (run_result (handle_reset engine_with_token) _ Hs)) as (_ & _ & _ & _ & _ & Ht & _).
  exact Ht.
Defined.

End ResetWitness.
