(* ===== verification/AuthConfig.v ===== *)
(** * authenticatorConfig ([ctap/authenticator_config.rs])

    toggleAlwaysUv and setMinPINLength, and what they guarantee: PIN policy only
    ever tightens, and a policy the current PIN may not meet revokes every
    authority derived from it. *)

From S2P Require Import Prelude Constants Crypto ConcreteCrypto Cbor ConcreteCbor Records.
From S2P Require Import PinRetry Token Presence Store StoreProofs Engine EngineProofs ClientPin.
From S2P Require Import ClientPinProofs ClientPinTheorems Scenario.

Definition TOGGLE_ALWAYS_UV : Z := 0x02.

Definition SET_MIN_PIN_LENGTH : Z := 0x03.

Definition config_subcommand (value : option Value) : result Z Z :=
  match value with
  | Some (VInteger n) =>
      if n =? 2 then Ok TOGGLE_ALWAYS_UV
      else if n =? 3 then Ok SET_MIN_PIN_LENGTH
      else Err CTAP1_ERR_INVALID_PARAMETER
  | Some _ => Err CTAP2_ERR_CBOR_UNEXPECTED_TYPE
  | None => Err CTAP2_ERR_MISSING_PARAMETER
  end.

Definition bool_parameter (params : Entries) (key : Z) : result bool Z :=
  match map_get params (int_key key) with
  | Some (VBool b) => Ok b
  | Some _ => Err CTAP2_ERR_CBOR_UNEXPECTED_TYPE
  | None => Ok false
  end.

Definition minimum_parameter (params : Entries) (current : Z) : result Z Z :=
  match map_get params (int_key 1) with
  | Some (VInteger n) => ok_or (u64_try_from n) CTAP1_ERR_INVALID_PARAMETER
  | Some _ => Err CTAP2_ERR_CBOR_UNEXPECTED_TYPE
  | None => Ok current
  end.

(** [.map(..).collect::<Result<Vec<_>, _>>()]. *)
Fixpoint text_items (l : list Value) : result (list bytes) Z :=
  match l with
  | [] => Ok []
  | VText t :: r => let? rest := text_items r in Ok (t :: rest)
  | _ :: _ => Err CTAP2_ERR_CBOR_UNEXPECTED_TYPE
  end.

(** The RP IDs to authorise, or [None] to keep the stored list. *)
Definition rp_ids_parameter (params : Entries) : result (option (list bytes)) Z :=
  match map_get params (int_key 2) with
  | None => Ok None
  | Some (VArray l) =>
      let? rp_ids := text_items l in
      if (MAX_MIN_PIN_LENGTH_RP_IDS <? zlen rp_ids)
         || existsb (fun rp => MAX_RP_ID_LENGTH <? zlen rp) rp_ids
      then Err CTAP2_ERR_KEY_STORE_FULL
      else match rp_ids with [] => Ok None | _ => Ok (Some rp_ids) end
  | Some _ => Err CTAP2_ERR_CBOR_UNEXPECTED_TYPE
  end.

(** Everything [set_min_pin_length] decides before it touches a token or the
    store: the state to publish. *)
Definition tightened (params : Entries) (set : bool) (p : PersistentPinState)
    : result PersistentPinState Z :=
  let? minimum := minimum_parameter params (pp_min_pin_length p) in
  if minimum <? pp_min_pin_length p then Err CTAP2_ERR_PIN_POLICY_VIOLATION
  else if MAX_PIN_LENGTH <? minimum then Err CTAP1_ERR_INVALID_PARAMETER
  else
    let? forced := bool_parameter params 3 in
    if forced && negb set then Err CTAP2_ERR_PIN_NOT_SET
    else
      let? complexity := bool_parameter params 4 in
      let newly_complex := complexity && negb (pp_pin_complexity_policy p) in
      let? rp_ids := rp_ids_parameter params in
      Ok {|
        pp_pin_hash := pp_pin_hash p; pp_pin_retries := pp_pin_retries p;
        pp_min_pin_length := minimum mod 256;
        pp_min_pin_length_rp_ids :=
          match rp_ids with Some ids => ids | None => pp_min_pin_length_rp_ids p end;
        pp_force_pin_change := pp_force_pin_change p || forced || (newly_complex && set)
                               || (set && (pp_pin_code_point_length p <? minimum));
        pp_pin_code_point_length := pp_pin_code_point_length p;
        pp_always_uv := pp_always_uv p;
        pp_pin_complexity_policy := pp_pin_complexity_policy p || newly_complex;
        pp_persistent_tokens := pp_persistent_tokens p |}.

Section AuthConfig.

Context {S : Type} `{Crypto} `{Ciborium} `{CredentialStore S}.

#[local] Abbreviation App := (CtapApp S).

Definition set_min_pin_length (params : Entries) : M App unit Z := fun a =>
  (let* p1 := lift (tightened params (is_set (ps_pin (app_pin_state a))) (persistent a)) in
   let* p2 := (if pp_force_pin_change p1 then rotate_persistent_tokens p1 else ret p1) in
   let* _ := save_pin_state p2 in
   (if pp_force_pin_change p2 then modify_pin invalidate_pin_uv_auth_tokens ;;* clear_cred_mgmt
    else ret tt) ;;*
   modify_pin (adopt_persistent p2)) a.

Definition config_message (subcommand : Z) (raw_params : option bytes) : bytes :=
  repeat 0xFF 32 ++ [CTAP_CMD_AUTHENTICATOR_CONFIG; subcommand]
  ++ match raw_params with Some b => b | None => [] end.

(** The pinUvAuthParam check of a protected authenticator. *)
Definition config_authorize (payload : bytes) (map : Entries) (subcommand : Z) : M App unit Z :=
  let* auth := lift (ok_or (map_get map (int_key 4)) CTAP2_ERR_PUAT_REQUIRED) in
  let* protocol := lift (parse_required_pin_uv_auth_protocol (map_get map (int_key 3))) in
  match auth with
  | VBytes auth =>
      let* raw := lift (map_err (fun _ => CTAP2_ERR_INVALID_CBOR) (raw_map_value payload 2)) in
      verify_pin_uv_auth_param protocol (config_message subcommand raw) auth ;;*
      let* permitted := app_has_permission PIN_PERMISSION_ACFG in
      guard permitted CTAP2_ERR_PIN_AUTH_INVALID
  | _ => fail CTAP2_ERR_CBOR_UNEXPECTED_TYPE
  end.

Definition config_params (map : Entries) : result (option Entries) Z :=
  match map_get map (int_key 2) with
  | Some (VMap params) => Ok (Some params)
  | Some _ => Err CTAP2_ERR_CBOR_UNEXPECTED_TYPE
  | None => Ok None
  end.

Definition toggle_always_uv : M App unit Z := fun a =>
  let p := set_pp_always_uv (persistent a) (negb (pp_always_uv (persistent a))) in
  (let* _ := save_pin_state p in modify_pin (adopt_persistent p)) a.

Definition handle_authenticator_config (payload : bytes) : M App bytes Z :=
  refresh_persistent_authority ;;*
  let* map := lift (request_parameters payload) in
  let* subcommand := lift (config_subcommand (map_get map (int_key 1))) in
  let* protected := gets (fun a => is_set (ps_pin (app_pin_state a))) in
  let* always_uv := gets (fun a => pp_always_uv (persistent a)) in
  let toggle_exception := (subcommand =? TOGGLE_ALWAYS_UV) && negb protected && always_uv in
  (if negb toggle_exception && (protected || always_uv)
   then config_authorize payload map subcommand else ret tt) ;;*
  let* params := lift (config_params map) in
  (if subcommand =? TOGGLE_ALWAYS_UV then toggle_always_uv
   else if subcommand =? SET_MIN_PIN_LENGTH then
     set_min_pin_length match params with Some p => p | None => [] end
   else fail CTAP1_ERR_INVALID_PARAMETER) ;;*
  ret [CTAP2_OK].

Context `{!PinStoreLaws S}.

(** ** Facts *)

Lemma tightened_ok params set p p' :
  tightened params set p = Ok p' -> 0 <= pp_min_pin_length p ->
  pp_min_pin_length p <= pp_min_pin_length p' <= MAX_PIN_LENGTH /\
  (pp_force_pin_change p = true -> pp_force_pin_change p' = true) /\
  (pp_pin_complexity_policy p = true -> pp_pin_complexity_policy p' = true) /\
  pp_pin_hash p' = pp_pin_hash p /\ pp_pin_retries p' = pp_pin_retries p /\
  pp_always_uv p' = pp_always_uv p /\ pp_persistent_tokens p' = pp_persistent_tokens p /\
  (set = true ->
   pp_pin_code_point_length p < pp_min_pin_length p' \/
   (pp_pin_complexity_policy p = false /\ pp_pin_complexity_policy p' = true) ->
   pp_force_pin_change p' = true) /\
  (set = false -> pp_force_pin_change p' = pp_force_pin_change p).
Proof.
  unfold tightened, bind. intros Ht Hm.
  destruct (minimum_parameter _ _) as [minimum|]; [|done].
  destruct (Z.ltb_spec minimum (pp_min_pin_length p)); [done|].
  destruct (Z.ltb_spec MAX_PIN_LENGTH minimum) as [|Hmax]; [done|].
  destruct (bool_parameter params 3) as [forced|]; [|done].
  destruct (forced && negb set) eqn:Hf; [done|].
  destruct (bool_parameter params 4) as [complexity|]; [|done].
  destruct (rp_ids_parameter params) as [rp_ids|]; [|done].
  injection Ht as <-. simpl. unfold MAX_PIN_LENGTH in *. rewrite Z.mod_small by lia.
  split_and!; try lia; try done.
  - by intros ->.
  - by intros ->.
  - intros -> [Hlt|[Hc1 Hc2]].
    + apply Z.ltb_lt in Hlt. rewrite Hlt. by rewrite !orb_true_r.
    + rewrite Hc1 in *. simpl in *. rewrite Hc2. by rewrite !orb_true_r.
  - intros ->. rewrite andb_false_r. simpl. destruct forced; [done|]. by rewrite !orb_false_r.
Qed.

Lemma tightened_keeps params set p p' :
  tightened params set p = Ok p' ->
  pp_pin_hash p' = pp_pin_hash p /\ pp_pin_retries p' = pp_pin_retries p.
Proof. unfold tightened, bind. intros Ht. by repeat case_match; simplify_eq. Qed.

Lemma publish_min p2 (a : App) :
  pin_inv a -> (app_stored_pin_state a = Read -> persistent_ok p2) ->
  pin_inv (fst ((let* _ := save_pin_state p2 in
    (if pp_force_pin_change p2 then modify_pin invalidate_pin_uv_auth_tokens ;;* clear_cred_mgmt
     else ret tt) ;;* modify_pin (adopt_persistent p2)) a)).
Proof.
  intros Hi Hok. destruct (decide (app_stored_pin_state a = Read)) as [Hst|Hst].
  - apply publish_then; [done|done|]. intros _ s Hs.
    destruct (pp_force_pin_change p2); unfold view; simpl; by rewrite Hs, Hst.
  - unfold mbind_st, save_pin_state. by destruct (app_stored_pin_state a).
Qed.

Lemma keeps_set_min params : keeps pin_inv (set_min_pin_length params).
Proof.
  intros a Hi. unfold set_min_pin_length.
  destruct (tightened _ _ _) as [p1|e] eqn:Ht; [|done]. unfold mbind_st at 1, lift.
  apply tightened_keeps in Ht as [Hh Hr].
  assert (Hok : app_stored_pin_state a = Read -> persistent_ok p1).
  { intros Hst. destruct (pin_inv_live_ok a Hi Hst) as [Hb Hn].
    split; [by rewrite Hr|by rewrite Hh, Hr]. }
  destruct (pp_force_pin_change p1).
  - unfold mbind_st at 1. pose proof (same_view_rotate p1 a) as Hv.
    destruct (rotate_persistent_tokens p1 a) as [a1 [p2|e]] eqn:Hro; simpl in Hv;
      (assert (Hi1 : pin_inv a1) by (eapply pin_inv_view; [symmetry; exact Hv|done])); [|done].
    apply rotate_keeps_fields in Hro as [Hh2 Hr2]. apply publish_min; [done|].
    intros Hst. unfold view in Hv. injection Hv as _ _ Hv.
    destruct (Hok ltac:(congruence)) as [Ho1 Ho2]. split; [by rewrite Hr2|by rewrite Hh2, Hr2].
  - by apply publish_min.
Qed.

Lemma keeps_toggle : keeps pin_inv toggle_always_uv.
Proof.
  intros a Hi. unfold toggle_always_uv.
  destruct (decide (app_stored_pin_state a = Read)) as [Hst|Hst].
  - apply publish_then; [done|intros _; by destruct (pin_inv_live_ok a Hi Hst)|].
    intros _ s Hs. unfold view. simpl. by rewrite Hs, Hst.
  - unfold mbind_st, save_pin_state. by destruct (app_stored_pin_state a).
Qed.

Lemma keeps_config_authorize payload map sub : keeps pin_inv (config_authorize payload map sub).
Proof. unfold config_authorize. repeat keeps_step. Qed.

Lemma keeps_config payload : keeps pin_inv (handle_authenticator_config payload).
Proof.
  unfold handle_authenticator_config.
  repeat (apply keeps_config_authorize || apply keeps_toggle || apply keeps_set_min || keeps_step).
Qed.

(** ** Properties *)

Lemma set_min_ok params (a a' : App) :
  set_min_pin_length params a = (a', Ok tt) ->
  exists p1 b p2, tightened params (is_set (ps_pin (app_pin_state a))) (persistent a) = Ok p1 /\
    (if pp_force_pin_change p1
     then core b = core a /\ rotated (pp_persistent_tokens p1) (pp_persistent_tokens p2) /\
          p2 = set_pp_persistent_tokens p1 (pp_persistent_tokens p2)
     else b = a /\ p2 = p1) /\
    persistent a' = p2 /\ pin_view (app_store a') = Some (record_of_persistent p2) /\
    (if pp_force_pin_change p1 then tks_in_use (ps_token (app_pin_state a')) = None
     else ps_token (app_pin_state a') = ps_token (app_pin_state a)).
Proof.
  intros Hs. unfold set_min_pin_length in Hs. peel Hs a0 p1 Ht. injection Ht as <- Ht.
  peel Hs b p2 Hr. exists p1, b, p2. split; [done|].
  peel Hs c d Hd. apply save_ok_core in Hd as (s & -> & Hd & _).
  destruct (pp_force_pin_change p1) eqn:Hf.
  - apply rotate_ok in Hr as (Hc & Hrot & Heq).
    assert (Hf2 : pp_force_pin_change p2 = true) by (by rewrite Heq).
    rewrite Hf2 in Hs. injection Hs as <-. by split_and!.
  - injection Hr as <- <-. rewrite Hf in Hs. injection Hs as <-. by split_and!.
Qed.

(** setMinPINLength only tightens.  When it succeeds, live and published
    policy agree; the minimum length has not gone down and is at most 63; a
    pending PIN change and the complexity policy, once on, stay on; PIN, retries
    and always-UV are untouched.  If a PIN is set that is shorter than the new
    minimum, or the complexity policy is new, a PIN change is pending; and
    whenever a change is pending no transient token is left and both persistent
    authorities are replaced. *)
Theorem min_pin_length_only_tightens params (a a' : App) :
  0 <= pp_min_pin_length (persistent a) ->
  set_min_pin_length params a = (a', Ok tt) ->
  let p := persistent a in let p' := persistent a' in
  pin_view (app_store a') = Some (record_of_persistent p') /\
  pp_min_pin_length p <= pp_min_pin_length p' <= MAX_PIN_LENGTH /\
  (pp_force_pin_change p = true -> pp_force_pin_change p' = true) /\
  (pp_pin_complexity_policy p = true -> pp_pin_complexity_policy p' = true) /\
  pp_pin_hash p' = pp_pin_hash p /\ pp_pin_retries p' = pp_pin_retries p /\
  pp_always_uv p' = pp_always_uv p /\
  (is_set (ps_pin (app_pin_state a)) = true ->
   pp_pin_code_point_length p < pp_min_pin_length p' \/
   (pp_pin_complexity_policy p = false /\ pp_pin_complexity_policy p' = true) ->
   pp_force_pin_change p' = true) /\
  (if pp_force_pin_change p'
   then tks_in_use (ps_token (app_pin_state a')) = None /\
        rotated (pp_persistent_tokens p) (pp_persistent_tokens p')
   else ps_token (app_pin_state a') = ps_token (app_pin_state a) /\
        pp_persistent_tokens p' = pp_persistent_tokens p).
Proof.
  intros Hm Hs. apply set_min_ok in Hs as (p1 & b & p2 & Ht & Hc & Hp & Hv & Htk).
  cbv zeta. rewrite Hp. apply tightened_ok in Ht as (T1 & T2 & T3 & T4 & T5 & T6 & T7 & T8 & _); [|done].
  destruct (pp_force_pin_change p1) eqn:Hf.
  - destruct Hc as (_ & Hrot & Heq).
    assert (Hf2 : pp_force_pin_change p2 = true) by (by rewrite Heq).
    rewrite Hf2. rewrite T7 in Hrot.
    split_and!; try done; rewrite Heq; simpl; done || lia.
  - destruct Hc as [_ ->]. rewrite Hf. split_and!; try done; lia.
Qed.

(** Once a PIN is set, no configuration change happens without a token:
    a successful authenticatorConfig carried a pinUvAuthParam that is the MAC,
    under the token in use of the stated protocol, of the command, the
    subcommand and the exact bytes of its parameters, and that token had the
    configuration permission. *)
Theorem config_requires_token payload (a a' : App) response :
  pin_inv a -> app_stored_pin_state a = Read -> is_set (ps_pin (app_pin_state a)) = true ->
  handle_authenticator_config payload a = (a', Ok response) ->
  exists entries sub protocol auth raw t,
    request_parameters payload = Ok entries /\
    config_subcommand (map_get entries (int_key 1)) = Ok sub /\
    map_get entries (int_key 4) = Some (VBytes auth) /\ raw_map_value payload 2 = Ok raw /\
    tks_in_use (ps_token (app_pin_state a)) = Some t /\ tk_protocol t = protocol /\
    auth = authenticate protocol (tk_value t) (config_message sub raw) /\
    Z.land (tk_permissions t) PIN_PERMISSION_ACFG <> 0.
Proof.
  intros Hi Hst Hset Hh. unfold handle_authenticator_config in Hh.
  peel Hh a1 u1 Hr. destruct u1. apply refresh_core, core_inv in Hr as (_ & Hpin & Htk & _); [|done..].
  peel_lift Hh entries Hmap. peel_lift Hh sub Hsub.
  peel Hh b3 protected Hp. injection Hp as <- <-. peel Hh b4 always Ha. injection Ha as <- Ha.
  rewrite Hpin, Hset, andb_false_r in Hh. simpl in Hh.
  peel Hh b5 u5 Hau. unfold config_authorize in Hau.
  peel_lift Hau auth Hauth.
  destruct (map_get entries (int_key 4)) as [v|] eqn:H4'; [|done]. injection Hauth as ->.
  peel_lift Hau protocol Hpr.
  destruct auth as [| auth | | | | | | |]; try done.
  peel_lift Hau raw Hraw.
  destruct (raw_map_value payload 2) as [raw'|] eqn:Hraw'; [|done]. injection Hraw as ->.
  peel Hau c4 u4 Hv. peel Hau c5 permitted Hperm. destruct permitted; [|done].
  destruct u4. destruct (verified_with_permission _ _ _ _ _ _ _ Hv Hperm) as (t & Ht & Htp & Hs & Hl).
  unfold token_of in Ht. rewrite Htk in Ht.
  exists entries, sub, protocol, auth, raw, t. by split_and!.
Qed.

End AuthConfig.

(** ** Concrete runs *)

Module AuthConfigWitness.

#[local] Opaque fresh_engine engine_with_pin engine_with_token agreed seal_for.

Ltac run := vm_compute; reflexivity.

(** newMinPINLength 6 on a four-digit PIN. *)
Definition longer_pins : Entries := [(VInteger 1, VInteger 6)].

Definition tighten_run : CtapApp MemoryStore * result unit Z :=
  set_min_pin_length longer_pins engine_with_token.

Lemma min_pin_length_only_tightens_witness :
  snd tighten_run = Ok tt /\
  pp_min_pin_length (persistent engine_with_token) <= pp_min_pin_length (persistent (fst tighten_run))
    <= MAX_PIN_LENGTH.
Proof.
  assert (Hs : snd tighten_run = Ok tt) by run. split; [exact Hs|].
  pose proof (min_pin_length_only_tightens longer_pins engine_with_token (fst tighten_run)
    ltac:(vm_compute; discriminate) (run_result tighten_run _ Hs)) as [_ [Hm _]].
  exact Hm.
Defined.

(** setMinPINLength with newMinPINLength 6, authenticated by the token. *)
Definition config_payload : bytes :=
  into_writer (VMap [(VInteger 1, VInteger 3); (VInteger 2, VMap longer_pins);
    (VInteger 3, VInteger 2);
    (VInteger 4, VBytes (authenticate V2 issued_token
       (config_message 3 (Some (into_writer (VMap longer_pins))))))]).

Definition config_run : CtapApp MemoryStore * result bytes Z :=
  handle_authenticator_config config_payload engine_with_token.

Lemma config_requires_token_witness :
  snd config_run = Ok [CTAP2_OK] /\
  exists t, tks_in_use (ps_token (app_pin_state engine_with_token)) = Some t /\
    Z.land (tk_permissions t) PIN_PERMISSION_ACFG <> 0.
Proof.
  assert (Hs : snd config_run = Ok [CTAP2_OK]) by run. split; [exact Hs|].
  destruct (config_requires_token config_payload engine_with_token (fst config_run) [CTAP2_OK]
    engine_with_token_inv ltac:(run) ltac:(run) (run_result config_run _ Hs))
    as (entries & sub & p & auth & raw & t & _ & _ & _ & _ & Ht & _ & _ & Hp).
  exists t. split; [exact Ht|exact Hp].
Defined.

End AuthConfigWitness.
