(* ===== verification/LargeBlobs.v ===== *)
(** * authenticatorLargeBlobs ([ctap/large_blobs.rs])

    Fragmented reads and writes of the serialized large-blob array.  A write is
    staged in volatile state and committed only as a whole. *)

From S2P Require Import Prelude Constants Crypto ConcreteCrypto Cbor ConcreteCbor Records.
From S2P Require Import PinRetry Token Presence Store StoreProofs Engine EngineProofs Scenario.

(** [MAX_MSG_SIZE] of [ctap/get_info.rs]. *)
Definition MAX_MSG_SIZE : Z := 57 + 29 * 59.

Definition MAX_FRAGMENT_LENGTH : Z := MAX_MSG_SIZE - 64.

Definition WRITE_TIMEOUT : Z := from_secs 30.

Definition unsigned (value : Value) : result Z Z :=
  match value with
  | VInteger n => ok_or (u64_try_from n) CTAP1_ERR_INVALID_PARAMETER
  | _ => Err CTAP2_ERR_CBOR_UNEXPECTED_TYPE
  end.

Section LargeBlobs.

Context {S : Type} `{Crypto} `{Ciborium} `{CredentialStore S}.

#[local] Abbreviation App := (CtapApp S).

Definition set_blob_state (st : LargeBlobState) : M App unit Z :=
  modify (fun a => with_large_blob a st).

Definition discard : M App unit Z := set_blob_state LargeBlobState_default.

(** The token is only looked at when the staged write has one. *)
Definition observe_large_blob_state (command : option Z) : M App unit Z :=
  let* t := now in
  let* st := gets app_large_blob_state in
  let expired := is_some_and (lb_last_fragment st)
                   (fun last => WRITE_TIMEOUT <=? saturating_sub t last) in
  let* token_changed :=
    match lb_token st with
    | None => ret false
    | Some id => let* current := pin_uv_auth_token_id in
                 ret (negb (bool_decide (Some id = current)))
    end in
  if negb (bool_decide (command = Some CTAP_CMD_LARGE_BLOBS)) || expired || token_changed
  then discard else ret tt.

Definition large_blobs_get (map : Entries) (offset : Z) (get : Value) : M App bytes Z :=
  if is_some (map_get map (int_key 4)) then fail CTAP1_ERR_INVALID_PARAMETER
  else if is_some (map_get map (int_key 5)) || is_some (map_get map (int_key 6))
  then fail CTAP1_ERR_INVALID_PARAMETER
  else
    let* count := lift (unsigned get) in
    if MAX_FRAGMENT_LENGTH <? count then fail CTAP1_ERR_INVALID_LENGTH
    else fun a =>
      let (s, r) := st_large_blob_array (app_store a) in
      let array := match r with Ok x => x | Err _ => INITIAL_LARGE_BLOB_ARRAY end in
      (with_store a s,
       if zlen array <? offset then Err CTAP1_ERR_INVALID_PARAMETER
       else
         let start := Z.to_nat offset in
         let stop := Nat.min (start + Z.to_nat count) (length array) in
         Ok (CTAP2_OK :: into_writer (VMap [(VInteger 1, VBytes (slice array start stop))]))).

(** The message a protected write is authenticated over. *)
Definition large_blob_message (offset : Z) (fragment : bytes) : bytes :=
  repeat 0xFF 32 ++ [CTAP_CMD_LARGE_BLOBS; 0] ++ le_bytes 4 offset ++ sha256 fragment.

Definition large_blobs_authorize (map : Entries) (offset : Z) (fragment : bytes) : M App unit Z :=
  let* auth := lift (ok_or (map_get map (int_key 5)) CTAP2_ERR_PUAT_REQUIRED) in
  let* protocol := lift (parse_required_pin_uv_auth_protocol (map_get map (int_key 6))) in
  match auth with
  | VBytes auth =>
      if 2 ^ 32 <=? offset then fail CTAP1_ERR_INVALID_PARAMETER
      else
        verify_pin_uv_auth_param protocol (large_blob_message offset fragment) auth ;;*
        let* permitted := app_has_permission PIN_PERMISSION_LBW in
        guard permitted CTAP2_ERR_PIN_AUTH_INVALID
  | _ => fail CTAP2_ERR_CBOR_UNEXPECTED_TYPE
  end.

(** The first fragment announces the total length; no other may. *)
Definition announce_length (map : Entries) (offset : Z) : M App unit Z :=
  if offset =? 0 then
    let* value := lift (ok_or (map_get map (int_key 4)) CTAP1_ERR_INVALID_PARAMETER) in
    let* length := lift (unsigned value) in
    if MAX_SERIALIZED_LARGE_BLOB_ARRAY <? length then fail CTAP2_ERR_LARGE_BLOB_STORAGE_FULL
    else if length <? 17 then fail CTAP1_ERR_INVALID_PARAMETER
    else modify (fun a => let st := app_large_blob_state a in with_large_blob a {|
           lb_expected_next_offset := 0; lb_expected_length := length; lb_buffer := lb_buffer st;
           lb_last_fragment := lb_last_fragment st; lb_token := lb_token st |})
  else if is_some (map_get map (int_key 4)) then fail CTAP1_ERR_INVALID_PARAMETER
  else ret tt.

(** Append the fragment to the staged write and read the clock. *)
Definition stage_fragment (offset : Z) (fragment : bytes) (protected : bool) : M App unit Z :=
  (if offset =? 0 then
     let* token := (if protected then pin_uv_auth_token_id else ret None) in
     modify (fun a => let st := app_large_blob_state a in with_large_blob a {|
       lb_expected_next_offset := lb_expected_next_offset st;
       lb_expected_length := lb_expected_length st; lb_buffer := [];
       lb_last_fragment := lb_last_fragment st; lb_token := token |})
   else ret tt) ;;*
  let* t := now in
  modify (fun a => let st := app_large_blob_state a in with_large_blob a {|
    lb_expected_next_offset := zlen (lb_buffer st ++ fragment);
    lb_expected_length := lb_expected_length st; lb_buffer := lb_buffer st ++ fragment;
    lb_last_fragment := Some t; lb_token := lb_token st |}).

(** Commit a complete array. *)
Definition commit_staged : M App unit Z := fun a =>
  let st := app_large_blob_state a in
  if lb_expected_next_offset st =? lb_expected_length st then
    match validate_large_blob_array (lb_buffer st) with
    | Err _ => (discard ;;* fail CTAP2_ERR_INTEGRITY_FAILURE) a
    | Ok _ => on_store (st_set_large_blob_array (lb_buffer st)) store_status a
    end
  else (a, Ok tt).

Definition large_blobs_set (map : Entries) (offset : Z) (set : option Value) : M App bytes Z :=
  match set with
  | Some (VBytes fragment) =>
      if MAX_FRAGMENT_LENGTH <? zlen fragment then fail CTAP1_ERR_INVALID_LENGTH
      else
        announce_length map offset ;;*
        let* st := gets app_large_blob_state in
        if negb (offset =? lb_expected_next_offset st) then
          discard ;;* fail CTAP1_ERR_INVALID_SEQ
        else
          let* protected := gets (fun a => is_set (ps_pin (app_pin_state a))
                                           || pp_always_uv (persistent a)) in
          (if protected then large_blobs_authorize map offset fragment else ret tt) ;;*
          let* stop := lift (ok_or (u64_checked_add offset (zlen fragment))
                               CTAP1_ERR_INVALID_PARAMETER) in
          let* st := gets app_large_blob_state in
          if lb_expected_length st <? stop then fail CTAP1_ERR_INVALID_PARAMETER
          else
            stage_fragment offset fragment protected ;;*
            commit_staged ;;*
            ret [CTAP2_OK]
  | _ => discard ;;* fail CTAP2_ERR_CBOR_UNEXPECTED_TYPE
  end.

Definition handle_large_blobs (payload : bytes) : M App bytes Z :=
  observe_large_blob_state (Some CTAP_CMD_LARGE_BLOBS) ;;*
  match request_parameters payload with
  | Err status => discard ;;* fail status
  | Ok map =>
      let get := map_get map (int_key 1) in
      let set := map_get map (int_key 2) in
      (if is_some get || negb (is_some set) || negb (is_some (map_get map (int_key 3)))
       then discard else ret tt) ;;*
      let* value := lift (ok_or (map_get map (int_key 3)) CTAP1_ERR_INVALID_PARAMETER) in
      match unsigned value with
      | Err status => discard ;;* fail status
      | Ok offset =>
          if (negb (is_some get) && negb (is_some set)) || (is_some get && is_some set)
          then fail CTAP1_ERR_INVALID_PARAMETER
          else
            match get with
            | Some get => large_blobs_get map offset get
            | None => large_blobs_set map offset set
            end
      end
  end.

(** ** Frames *)

(** What authorization leaves alone. *)
Definition blob_core (a : App) := (app_store a, app_large_blob_state a, ps_pin (app_pin_state a)).

Definition same_blob_core {A} (m : M App A Z) : Prop := forall a, blob_core (fst (m a)) = blob_core a.

Lemma same_blob_core_bind {A B} (m : M App A Z) (k : A -> M App B Z) :
  same_blob_core m -> (forall x, same_blob_core (k x)) -> same_blob_core (mbind_st m k).
Proof.
  intros Hm Hk a. unfold mbind_st. specialize (Hm a).
  destruct (m a) as [a' [x|e]]; simpl in *; [by rewrite Hk|done].
Qed.

Lemma same_blob_core_query {A} q : same_blob_core (@token_query S A q).
Proof.
  apply same_blob_core_bind; [by intros a|]. intros t a. by destruct (q t _) as [tk v].
Qed.

Lemma same_blob_core_authorize map offset fragment :
  same_blob_core (large_blobs_authorize map offset fragment).
Proof.
  unfold large_blobs_authorize. repeat (apply same_blob_core_bind; [by intros a|intros ?]).
  destruct x; try by intros a. destruct (2 ^ 32 <=? offset); [by intros a|].
  apply same_blob_core_bind.
  { apply same_blob_core_bind; [by intros a|]. intros t a. by destruct (token_verify _ _ _ _ _). }
  intros _. apply same_blob_core_bind; [apply same_blob_core_query|].
  intros permitted a. by destruct permitted.
Qed.

(** A successful run of a step that keeps the core. *)
Lemma run_blob_core {A} (m : M App A Z) a b r :
  same_blob_core m -> m a = (b, r) ->
  app_store b = app_store a /\ app_large_blob_state b = app_large_blob_state a /\
  ps_pin (app_pin_state b) = ps_pin (app_pin_state a).
Proof.
  intros Hm Hr. specialize (Hm a). rewrite Hr in Hm. unfold blob_core in Hm. simpl in Hm.
  by apply pair_equal_spec in Hm as [[? ?]%pair_equal_spec ?].
Qed.

Context `{!PinStoreLaws S} `{!BlobStoreLaws S}.

Lemma same_view_commit : same_view commit_staged.
Proof.
  intros a. unfold commit_staged. destruct (_ =? _); [|done].
  destruct (validate_large_blob_array _); [|done]. apply same_view_on_store, pin_set_blob.
Qed.

Lemma same_view_get map offset get : same_view (large_blobs_get map offset get).
Proof.
  unfold large_blobs_get. repeat same_view_step. intros a.
  pose proof (pin_blob (app_store a)) as Hb. destruct (st_large_blob_array (app_store a)) as [s r].
  unfold view. simpl in *. by rewrite Hb.
Qed.

Lemma same_view_set map offset set : same_view (large_blobs_set map offset set).
Proof.
  unfold large_blobs_set, announce_length, stage_fragment, large_blobs_authorize, discard,
    set_blob_state.
  repeat (apply same_view_commit || same_view_step).
Qed.

Lemma keeps_large_blobs payload : keeps pin_inv (handle_large_blobs payload).
Proof.
  apply keeps_same_view; [apply pin_inv_view|].
  unfold handle_large_blobs, observe_large_blob_state, discard, set_blob_state.
  repeat (apply same_view_get || apply same_view_set || same_view_step).
Qed.

(** ** The staged write *)

Record staged_ok (st : LargeBlobState) : Prop := {
  so_length : 0 <= lb_expected_length st <= MAX_SERIALIZED_LARGE_BLOB_ARRAY;
  so_next : lb_expected_next_offset st = 0 \/
            (lb_expected_next_offset st = zlen (lb_buffer st) /\
             zlen (lb_buffer st) <= lb_expected_length st)
}.

Lemma staged_ok_default : staged_ok LargeBlobState_default.
Proof. split; [vm_compute; split; discriminate|by left]. Qed.

(** The bytes a fragment at [offset] completes: a fragment at zero starts
    anew, any other continues what is staged. *)
Definition staged_with (offset : Z) (fragment : bytes) (st : LargeBlobState) : bytes :=
  (if offset =? 0 then [] else lb_buffer st) ++ fragment.

(** The total length announced for the write: by the fragment at zero. *)
Definition announced (map : Entries) (offset : Z) (st : LargeBlobState) : option Z :=
  if offset =? 0 then match map_get map (int_key 4) with Some (VInteger n) => Some n | _ => None end
  else Some (lb_expected_length st).

(** What one request may do: keep the committed array, or, with a fragment that
    follows what is staged, commit a complete, valid one. *)
Definition set_commit (map : Entries) (offset : Z) (set : option Value) (a a' : App)
    (r : result bytes Z) : Prop :=
  blob_view (app_store a') = blob_view (app_store a) \/
  exists fragment, set = Some (VBytes fragment) /\ r = Ok [CTAP2_OK] /\
    (offset = 0 \/ offset = lb_expected_next_offset (app_large_blob_state a)) /\
    blob_view (app_store a') = staged_with offset fragment (app_large_blob_state a) /\
    validate_large_blob_array (blob_view (app_store a')) = Ok tt /\
    announced map offset (app_large_blob_state a) = Some (zlen (blob_view (app_store a'))).

Definition atomic_commit (payload : bytes) (a a' : App) (r : result bytes Z) : Prop :=
  blob_view (app_store a') = blob_view (app_store a) \/
  exists map offset fragment, request_parameters payload = Ok map /\
    map_get map (int_key 3) = Some (VInteger offset) /\
    map_get map (int_key 2) = Some (VBytes fragment) /\ r = Ok [CTAP2_OK] /\
    (offset = 0 \/ offset = zlen (lb_buffer (app_large_blob_state a))) /\
    blob_view (app_store a') = staged_with offset fragment (app_large_blob_state a) /\
    validate_large_blob_array (blob_view (app_store a')) = Ok tt /\
    announced map offset (app_large_blob_state a) = Some (zlen (blob_view (app_store a'))).

Definition safe_step (commit : App -> App -> result bytes Z -> Prop) (a : App)
    (out : App * result bytes Z) : Prop :=
  staged_ok (app_large_blob_state (fst out)) /\ commit a (fst out) (snd out).

Lemma safe_same map offset set a b r :
  app_store b = app_store a -> staged_ok (app_large_blob_state b) ->
  safe_step (set_commit map offset set) a (b, r).
Proof. intros Hs Hst. split; [done|]. left. simpl. by rewrite Hs. Qed.

Lemma stage_ok offset fragment protected a b :
  stage_fragment offset fragment protected a = (b, Ok tt) ->
  staged_ok (app_large_blob_state a) ->
  offset = lb_expected_next_offset (app_large_blob_state a) ->
  offset + zlen fragment <= lb_expected_length (app_large_blob_state a) ->
  app_store b = app_store a /\
  lb_expected_length (app_large_blob_state b) = lb_expected_length (app_large_blob_state a) /\
  lb_buffer (app_large_blob_state b) =
    (if offset =? 0 then [] else lb_buffer (app_large_blob_state a)) ++ fragment /\
  staged_ok (app_large_blob_state b) /\
  lb_expected_next_offset (app_large_blob_state b) = zlen (lb_buffer (app_large_blob_state b)).
Proof.
  intros Hs [Hl Hn] -> Hle. unfold stage_fragment in Hs. peel Hs c u Hc.
  assert (Hc' : app_store c = app_store a /\
    lb_expected_length (app_large_blob_state c) = lb_expected_length (app_large_blob_state a) /\
    lb_buffer (app_large_blob_state c) =
      (if lb_expected_next_offset (app_large_blob_state a) =? 0 then []
       else lb_buffer (app_large_blob_state a))).
  { destruct (_ =? 0); [|by injection Hc as <-]. peel Hc d token Ht.
    assert (Hd : same_blob_core (if protected then pin_uv_auth_token_id else @ret App _ Z None))
      by (destruct protected; [apply same_blob_core_query|by intros x]).
    apply run_blob_core in Ht as (Hd1 & Hd2 & _); [|done].
    injection Hc as <- _. simpl. by rewrite Hd1, Hd2. }
  destruct Hc' as (Hc1 & Hc2 & Hc3). peel Hs d t Ht. injection Ht as <- <-. injection Hs as <-.
  simpl. rewrite Hc1, Hc2, Hc3. split_and!; try done. split; simpl; [done|].
  right. split; [done|]. unfold zlen in *. rewrite length_app.
  destruct (Z.eqb_spec (lb_expected_next_offset (app_large_blob_state a)) 0); simpl; [lia|].
  destruct Hn as [Hn|[Hn1 Hn2]]; lia.
Qed.

Lemma commit_safe a b r :
  staged_ok (app_large_blob_state a) ->
  (commit_staged ;;* ret [CTAP2_OK]) a = (b, r) ->
  staged_ok (app_large_blob_state b) /\
  (blob_view (app_store b) = blob_view (app_store a) \/
   r = Ok [CTAP2_OK] /\ blob_view (app_store b) = lb_buffer (app_large_blob_state a) /\
   validate_large_blob_array (lb_buffer (app_large_blob_state a)) = Ok tt /\
   lb_expected_next_offset (app_large_blob_state a) = lb_expected_length (app_large_blob_state a)).
Proof.
  intros Hst. unfold mbind_st, commit_staged.
  destruct (Z.eqb_spec (lb_expected_next_offset (app_large_blob_state a))
              (lb_expected_length (app_large_blob_state a))) as [He|He].
  - destruct (validate_large_blob_array _) as [[]|e] eqn:Hv.
    + unfold on_store. destruct (st_set_large_blob_array _ _) as [s [[]|e]] eqn:Hw;
        apply blob_write in Hw; intros [= <- <-]; (split; [done|]).
      * right. by split_and!.
      * left. exact Hw.
    + intros [= <- <-]. split; [apply staged_ok_default|by left].
  - intros [= <- <-]. split; [done|by left].
Qed.

Lemma announce_cases map offset a b r :
  announce_length map offset a = (b, r) -> staged_ok (app_large_blob_state a) ->
  app_store b = app_store a /\ staged_ok (app_large_blob_state b) /\
  lb_buffer (app_large_blob_state b) = lb_buffer (app_large_blob_state a) /\
  ps_pin (app_pin_state b) = ps_pin (app_pin_state a) /\
  (r = Ok tt ->
   announced map offset (app_large_blob_state a) = Some (lb_expected_length (app_large_blob_state b)) /\
   (offset <> 0 -> app_large_blob_state b = app_large_blob_state a)).
Proof.
  intros Ha [Hl Hn]. unfold announce_length, announced in *.
  destruct (Z.eqb_spec offset 0) as [->|Hoff].
  - unfold mbind_st, lift in Ha.
    destruct (map_get map (int_key 4)) as [v|]; cbn [ok_or] in Ha; [|by injection Ha as <- <-].
    destruct (unsigned v) as [n|] eqn:Hu; [|by injection Ha as <- <-].
    assert (Hv : v = VInteger n).
    { unfold unsigned, u64_try_from in Hu. destruct v; try done.
      destruct (_ && _); [by injection Hu as ->|done]. }
    destruct (Z.ltb_spec MAX_SERIALIZED_LARGE_BLOB_ARRAY n); [by injection Ha as <- <-|].
    destruct (Z.ltb_spec n 17); injection Ha as <- <-; split_and!; try done.
    + split; simpl; [lia|by left].
    + subst v. by intros _.
  - destruct (is_some _); by injection Ha as <- <-.
Qed.

Lemma set_safe map offset set a :
  staged_ok (app_large_blob_state a) ->
  safe_step (set_commit map offset set) a (large_blobs_set map offset set a).
Proof.
  intros Hst. unfold large_blobs_set.
  assert (Hdisc : forall b e, app_store b = app_store a ->
            safe_step (set_commit map offset set) a ((discard ;;* @fail App bytes Z e) b)).
  { intros b e Hb. by apply safe_same; [|apply staged_ok_default]. }
  destruct set as [[]|]; try (by apply Hdisc).
  destruct (MAX_FRAGMENT_LENGTH <? zlen b); [by apply safe_same|].
  unfold mbind_st at 1. destruct (announce_length map offset a) as [a1 [[]|e]] eqn:Ha;
    apply announce_cases in Ha as (Hs1 & Hst1 & Hb1 & _ & Hann); [|done|by apply safe_same|done].
  destruct (Hann eq_refl) as [Hlen Hsame]. clear Hann.
  unfold mbind_st at 1, gets. destruct (Z.eqb_spec offset (lb_expected_next_offset (app_large_blob_state a1)))
    as [Hoff|]; cbn [negb]; [|by apply Hdisc].
  unfold mbind_st at 1. set (protected := is_set _ || _). unfold mbind_st at 1.
  assert (Hau : same_blob_core (if protected then large_blobs_authorize map offset b else @ret App unit Z tt))
    by (destruct protected; [apply same_blob_core_authorize|by intros x]).
  destruct ((if protected then large_blobs_authorize map offset b else ret tt) a1) as [a2 [[]|e]] eqn:H2;
    apply run_blob_core in H2 as (Hs2 & Hb2 & _); [|done| |done].
  2:{ apply safe_same; [congruence|by rewrite Hb2]. }
  unfold mbind_st at 1, lift, ok_or, u64_checked_add.
  destruct (offset + zlen b <? 2 ^ 64); [|by apply safe_same; [congruence|rewrite Hb2]].
  unfold mbind_st at 1. destruct (Z.ltb_spec (lb_expected_length (app_large_blob_state a2)) (offset + zlen b));
    [by apply safe_same; [congruence|rewrite Hb2]|].
  unfold mbind_st at 1. destruct (stage_fragment offset b protected a2) as [a3 [[]|e]] eqn:H3.
  - rewrite <- Hb2 in Hst1. pose proof Hoff as Hoff2. rewrite <- Hb2 in Hoff2.
    apply stage_ok in H3 as (Hs3 & Hl3 & Hbuf3 & Hst3 & Hn3); [|done..].
    destruct ((commit_staged ;;* ret [CTAP2_OK]) a3) as [a4 r4] eqn:H4.
    apply commit_safe in H4 as [Hst4 Hc4]; [|done]. split; [done|]. cbn [fst snd].
    destruct Hc4 as [Hc4|(-> & Hc4 & Hval & Hfull)]; [left; congruence|right].
    assert (Hstaged : lb_buffer (app_large_blob_state a3) = staged_with offset b (app_large_blob_state a)).
    { rewrite Hbuf3. unfold staged_with. by rewrite Hb2, Hb1. }
    exists b. rewrite Hc4. split_and!; try done.
    + destruct (Z.eq_dec offset 0) as [|Hne]; [by left|right]. by rewrite <- (Hsame Hne).
    + rewrite Hlen, <- Hb2, <- Hl3, <- Hfull. by rewrite Hn3.
  - exfalso. unfold stage_fragment in H3. destruct (offset =? 0), protected; simp_st; simplify_eq.
Qed.

Lemma get_safe map offset get a :
  staged_ok (app_large_blob_state a) ->
  safe_step (set_commit map offset None) a (large_blobs_get map offset get a).
Proof.
  intros Hst. unfold large_blobs_get. destruct (is_some _); [by apply safe_same|].
  destruct (_ || _); [by apply safe_same|].
  unfold mbind_st, lift. destruct (unsigned get); [|by apply safe_same].
  destruct (MAX_FRAGMENT_LENGTH <? a0); [by apply safe_same|].
  destruct (st_large_blob_array (app_store a)) as [s r] eqn:Hr. apply blob_read in Hr as [Hr _].
  split; [done|]. left. exact Hr.
Qed.

(** Until the fragment is looked at, a request keeps what is staged, or
    discards it. *)
Definition kept_or_discarded (a b : App) : Prop :=
  app_store b = app_store a /\
  (app_large_blob_state b = app_large_blob_state a \/ app_large_blob_state b = LargeBlobState_default).

Lemma observe_safe command a b r :
  observe_large_blob_state command a = (b, r) -> r = Ok tt /\ kept_or_discarded a b.
Proof.
  intros Ho. unfold observe_large_blob_state, mbind_st, gets in Ho. cbn in Ho.
  destruct (lb_token (app_large_blob_state a)); cbn in Ho;
    destruct (negb _ || _ || _); injection Ho as <- <-; (split; [done|]); split; auto.
Qed.

(** What is committed after that is what the request found staged, continued:
    a write that was discarded can only start anew. *)
Lemma commit_from payload map offset set value a b b' r :
  staged_ok (app_large_blob_state a) -> kept_or_discarded a b ->
  request_parameters payload = Ok map -> map_get map (int_key 2) = set ->
  map_get map (int_key 3) = Some value -> unsigned value = Ok offset ->
  set_commit map offset set b b' r -> atomic_commit payload a b' r.
Proof.
  intros Hst [Hs Hk] Hm Hset Hval Hoff [Hc|(fragment & -> & -> & Hat & Hb & Hv & Hann)];
    [left; congruence|right].
  assert (value = VInteger offset) as ->.
  { unfold unsigned, u64_try_from in Hoff. destruct value; try done.
    destruct (_ && _); [by injection Hoff as ->|done]. }
  exists map, offset, fragment. unfold staged_with, announced in *.
  destruct (Z.eqb_spec offset 0) as [->|Hne]; [split_and!; auto|].
  destruct Hat as [|Hat]; [done|]. destruct Hk as [Hk|Hk]; rewrite Hk in *; [|done].
  split_and!; try done. right. destruct (so_next _ Hst) as [|[? _]]; congruence.
Qed.

(** C6: The large-blob array changes only as a whole.  Whatever request
    authenticatorLargeBlobs gets, the staging invariant is kept: the announced
    length never exceeds the capacity and, while a write is in progress (the
    next offset is not zero), that offset is the number of staged bytes, which
    is at most the announced length.  And the committed array is either
    untouched or, when the request succeeds with a fragment at offset zero or
    at the end of what is staged, exactly the bytes staged before (none at
    offset zero) followed by the fragment, as many as were announced and with a
    valid checksum. *)
Theorem large_blob_array_replaced_atomically payload (a a' : App) r :
  staged_ok (app_large_blob_state a) -> handle_large_blobs payload a = (a', r) ->
  staged_ok (app_large_blob_state a') /\ atomic_commit payload a a' r.
Proof.
  intros Hst Hh. unfold handle_large_blobs in Hh. unfold mbind_st at 1 in Hh.
  destruct (observe_large_blob_state _ a) as [a1 r1] eqn:Ho.
  apply observe_safe in Ho as [-> Hk1].
  assert (Hok : forall b, kept_or_discarded a b -> staged_ok (app_large_blob_state b)).
  { intros b [_ [->| ->]]; [done|apply staged_ok_default]. }
  assert (Hsame : forall b (x : result bytes Z), kept_or_discarded a b -> safe_step (atomic_commit payload) a (b, x)).
  { intros b x Hk. split; [by apply Hok|left; simpl; by destruct Hk as [-> _]]. }
  assert (Hdisc : forall b, kept_or_discarded a b -> kept_or_discarded a (with_large_blob b LargeBlobState_default)).
  { intros b [Hs _]. split; [exact Hs|by right]. }
  change (safe_step (atomic_commit payload) a (a', r)). rewrite <- Hh. clear Hh.
  destruct (request_parameters payload) as [entries|e] eqn:Hm; [|by apply (Hsame (with_large_blob a1 _)), Hdisc].
  unfold mbind_st at 1.
  match goal with |- context [(if ?c then discard else ret tt) a1] =>
    assert (Hk2 : exists b, (if c then discard else ret tt) a1 = (b, Ok tt) /\ kept_or_discarded a b)
      by (destruct c; eexists; (split; [reflexivity|auto])) end.
  destruct Hk2 as (b & -> & Hk). unfold mbind_st at 1, lift.
  destruct (map_get entries (int_key 3)) as [value|] eqn:Hval; cbn [ok_or]; [|by apply Hsame].
  destruct (unsigned value) as [offset|e] eqn:Hoff;
    [|by apply (Hsame (with_large_blob b _)), Hdisc].
  destruct (_ || _) eqn:Hone; [by apply Hsame|].
  destruct (map_get entries (int_key 1)) as [get|].
  - destruct (get_safe entries offset get b (Hok _ Hk)) as [H1' H2']. split; [done|].
    destruct H2' as [H2'|(? & ? & _)]; [left|done]. destruct Hk as [<- _]. exact H2'.
  - destruct (set_safe entries offset (map_get entries (int_key 2)) b (Hok _ Hk)) as [H1' H2'].
    split; [done|]. by eapply commit_from.
Qed.

(** ** A write in fragments *)

(** The parameters of one fragment of a write of [len] bytes in all. *)
Definition fragment_entries (offset len : Z) (fragment : bytes) : Entries :=
  (VInteger 2, VBytes fragment) :: (VInteger 3, VInteger offset)
  :: (if offset =? 0 then [(VInteger 4, VInteger len)] else []).

Fixpoint write_fragments (offset len : Z) (fs : list bytes) : M App unit Z :=
  match fs with
  | [] => ret tt
  | f :: fs' =>
      large_blobs_set (fragment_entries offset len f) offset (Some (VBytes f)) ;;*
      write_fragments (offset + zlen f) len fs'
  end.

Definition unprotected (a : App) : Prop :=
  is_set (ps_pin (app_pin_state a)) = false /\ pp_always_uv (persistent a) = false.

(** [pre] is staged and [total] announced; before the first fragment nothing
    needs to be. *)
Definition progress (a : App) (pre total : bytes) : Prop :=
  pre = [] \/
  (lb_buffer (app_large_blob_state a) = pre /\
   lb_expected_next_offset (app_large_blob_state a) = zlen pre /\
   lb_expected_length (app_large_blob_state a) = zlen total).

Lemma announce_progress a pre f total :
  progress a pre total -> 17 <= zlen total <= MAX_SERIALIZED_LARGE_BLOB_ARRAY ->
  exists b, announce_length (fragment_entries (zlen pre) (zlen total) f) (zlen pre) a = (b, Ok tt) /\
    app_store b = app_store a /\ app_pin_state b = app_pin_state a /\
    lb_expected_next_offset (app_large_blob_state b) = zlen pre /\
    lb_expected_length (app_large_blob_state b) = zlen total /\
    (pre <> [] -> lb_buffer (app_large_blob_state b) = pre).
Proof.
  intros Hp Hlen. unfold announce_length, fragment_entries.
  destruct (Z.eqb_spec (zlen pre) 0) as [Hz|Hz].
  - assert (pre = []) as -> by (destruct pre; [done|unfold zlen in Hz; simpl in Hz; lia]).
    cbn [map_get find fst snd value_eqb int_key option_map Z.eqb Pos.eqb ok_or].
    unfold mbind_st, lift, unsigned, ok_or, u64_try_from.
    replace ((0 <=? zlen total) && (zlen total <? u64_modulus)) with true
      by (symmetry; apply andb_true_iff; split; [apply Z.leb_le|apply Z.ltb_lt];
          unfold u64_modulus, MAX_SERIALIZED_LARGE_BLOB_ARRAY in *; lia).
    destruct (Z.ltb_spec MAX_SERIALIZED_LARGE_BLOB_ARRAY (zlen total)); [lia|].
    destruct (Z.ltb_spec (zlen total) 17); [lia|].
    eexists. split; [reflexivity|]. by split_and!.
  - destruct Hp as [->|(Hb & Hn & Hl)]; [done|]. exists a. by split_and!.
Qed.

Lemma fragment_step a pre f total :
  unprotected a -> progress a pre total ->
  17 <= zlen total <= MAX_SERIALIZED_LARGE_BLOB_ARRAY ->
  1 <= zlen f <= MAX_FRAGMENT_LENGTH -> zlen (pre ++ f) <= zlen total ->
  exists b,
    large_blobs_set (fragment_entries (zlen pre) (zlen total) f) (zlen pre) (Some (VBytes f)) a =
      (commit_staged ;;* ret [CTAP2_OK]) b /\
    app_store b = app_store a /\ app_pin_state b = app_pin_state a /\
    lb_buffer (app_large_blob_state b) = pre ++ f /\
    lb_expected_next_offset (app_large_blob_state b) = zlen (pre ++ f) /\
    lb_expected_length (app_large_blob_state b) = zlen total.
Proof.
  intros [Hu1 Hu2] Hp Hlen Hf Hle.
  destruct (announce_progress a pre f total Hp Hlen) as (b & Hb & Hbs & Hbp & Hbn & Hbl & Hbb).
  unfold large_blobs_set.
  destruct (Z.ltb_spec MAX_FRAGMENT_LENGTH (zlen f)); [lia|].
  unfold mbind_st at 1. rewrite Hb. unfold mbind_st at 1, gets. rewrite Hbn, Z.eqb_refl. cbn [negb].
  unfold mbind_st at 1, persistent. rewrite Hbp. unfold persistent in Hu2. rewrite Hu1, Hu2. cbn [orb].
  unfold mbind_st at 1, ret at 1. unfold mbind_st at 1, lift, ok_or, u64_checked_add.
  unfold zlen in Hle. rewrite length_app in Hle.
  destruct (Z.ltb_spec (zlen pre + zlen f) (2 ^ 64));
    [|unfold zlen, MAX_SERIALIZED_LARGE_BLOB_ARRAY in *; lia].
  unfold mbind_st at 1. rewrite Hbl.
  destruct (Z.ltb_spec (zlen total) (zlen pre + zlen f)); [unfold zlen in *; lia|].
  unfold mbind_st at 1. destruct (stage_fragment (zlen pre) f false b) as [c r] eqn:Hc.
  assert (r = Ok tt /\ app_store c = app_store b /\ app_pin_state c = app_pin_state b /\
    lb_buffer (app_large_blob_state c) = pre ++ f /\
    lb_expected_next_offset (app_large_blob_state c) = zlen (pre ++ f) /\
    lb_expected_length (app_large_blob_state c) = lb_expected_length (app_large_blob_state b))
    as (-> & Hc1 & Hc2 & Hc3 & Hc4 & Hc5).
  { unfold stage_fragment in Hc. destruct (Z.eqb_spec (zlen pre) 0) as [Hz|Hz].
    - assert (pre = []) as -> by (destruct pre; [done|unfold zlen in Hz; simpl in Hz; lia]).
      injection Hc as <- <-. by split_and!.
    - injection Hc as <- <-. simpl. rewrite Hbb by (intros ->; done). by split_and!. }
  exists c. split_and!; try done; congruence.
Qed.

Lemma write_fragments_run fs : forall a pre total,
  unprotected a -> progress a pre total -> total = pre ++ concat fs -> fs <> [] ->
  Forall (fun f => 1 <= zlen f <= MAX_FRAGMENT_LENGTH) fs ->
  validate_large_blob_array total = Ok tt ->
  (forall s, exists s', st_set_large_blob_array total s = (s', Ok tt)) ->
  exists b, write_fragments (zlen pre) (zlen total) fs a = (b, Ok tt) /\
    blob_view (app_store b) = total.
Proof.
  induction fs as [|f fs IH]; intros a pre total Hu Hp Ht Hne Hf Hv Hw; [done|].
  apply Forall_cons in Hf as [Hf Hfs]. simpl in Ht.
  pose proof (validate_large_blob_array_wf _ Hv) as [Hlen _].
  assert (Hle : zlen (pre ++ f) <= zlen total) by (subst total; unfold zlen; rewrite !length_app; lia).
  destruct (fragment_step a pre f total Hu Hp Hlen Hf Hle) as (b & Hs & Hb1 & Hb2 & Hb3 & Hb4 & Hb5).
  cbn [write_fragments]. unfold mbind_st at 1. rewrite Hs. unfold mbind_st at 1, commit_staged.
  rewrite Hb3, Hb4, Hb5.
  replace (zlen pre + zlen f) with (zlen (pre ++ f)) by (unfold zlen; rewrite length_app; lia).
  destruct fs as [|g fs].
  - simpl in Ht. rewrite app_nil_r in Ht. rewrite <- Ht, Z.eqb_refl, Hv. unfold on_store.
    destruct (Hw (app_store b)) as [s Hs']. rewrite Hs'. eexists. split; [reflexivity|].
    by apply blob_write in Hs'.
  - pose proof (Forall_inv Hfs) as Hg.
    destruct (Z.eqb_spec (zlen (pre ++ f)) (zlen total)) as [He|He].
    { exfalso. subst total. unfold zlen in *. simpl in He. rewrite !length_app in He. lia. }
    cbn [ret]. apply IH; try done.
    + unfold unprotected, persistent in *. by rewrite Hb2.
    + right. by split_and!.
    + rewrite Ht. simpl. by rewrite <- !app_assoc.
Qed.

(** Fragments add up.  On an authenticator without PIN and always-UV,
    writing a valid serialized array in non-empty fragments of legal size, each
    at the offset the previous one ended, the first announcing the total,
    succeeds on every fragment and commits their concatenation, provided the
    store takes the array; reading any part back returns that part. *)
Theorem fragmented_write_reads_back (fs : list bytes) (a : App) map offset count :
  unprotected a ->
  Forall (fun f => 1 <= zlen f <= MAX_FRAGMENT_LENGTH) fs ->
  validate_large_blob_array (concat fs) = Ok tt ->
  (forall s, exists s', st_set_large_blob_array (concat fs) s = (s', Ok tt)) ->
  map_get map (int_key 4) = None -> map_get map (int_key 5) = None ->
  map_get map (int_key 6) = None ->
  0 <= offset <= zlen (concat fs) -> 0 <= count <= MAX_FRAGMENT_LENGTH ->
  exists b, write_fragments 0 (zlen (concat fs)) fs a = (b, Ok tt) /\
    blob_view (app_store b) = concat fs /\
    forall c r array, large_blobs_get map offset (VInteger count) b = (c, r) ->
      snd (st_large_blob_array (app_store b)) = Ok array ->
      r = Ok (CTAP2_OK :: into_writer (VMap [(VInteger 1,
            VBytes (take (Z.to_nat count) (drop (Z.to_nat offset) (concat fs))))])).
Proof.
  intros Hu Hf Hv Hw H4' H5' H6' Hoff Hc.
  assert (Hne : fs <> []) by (intros ->; vm_compute in Hv; discriminate).
  destruct (write_fragments_run fs a [] (concat fs) Hu (or_introl eq_refl) eq_refl Hne Hf Hv Hw)
    as (b & Hb & Hbv).
  exists b. split_and!; [done|done|]. intros c r array Hg Har. unfold large_blobs_get in Hg.
  rewrite H4', H5', H6' in Hg. cbn [is_some orb] in Hg.
  unfold mbind_st, lift, unsigned, ok_or, u64_try_from in Hg.
  replace ((0 <=? count) && (count <? u64_modulus)) with true in Hg
    by (symmetry; apply andb_true_iff; split; [apply Z.leb_le|apply Z.ltb_lt];
        unfold u64_modulus, MAX_FRAGMENT_LENGTH, MAX_MSG_SIZE in *; lia).
  destruct (Z.ltb_spec MAX_FRAGMENT_LENGTH count); [lia|].
  destruct (st_large_blob_array (app_store b)) as [s x] eqn:Hr. simpl in Har. subst x.
  apply blob_read in Hr as [_ Hr]. rewrite (Hr _ eq_refl), Hbv in Hg. injection Hg as _ <-.
  destruct (Z.ltb_spec (zlen (concat fs)) offset); [lia|].
  do 6 f_equal. unfold slice, zlen in *.
  destruct (Nat.le_gt_cases (Z.to_nat offset + Z.to_nat count) (length (concat fs))).
  - rewrite Nat.min_l by done. do 2 f_equal. lia.
  - rewrite Nat.min_r by lia. rewrite !take_ge; [done|rewrite length_drop; lia..].
Qed.

(** A protected authenticator takes no fragment without a token: with a
    PIN or always-UV set, a fragment that is accepted carried the MAC, under
    the token in use, of its offset and the hash of its bytes, and that token
    had the large-blob-write permission. *)
Theorem large_blob_write_requires_token map offset fragment (a a' : App) response :
  is_set (ps_pin (app_pin_state a)) || pp_always_uv (persistent a) = true ->
  large_blobs_set map offset (Some (VBytes fragment)) a = (a', Ok response) ->
  exists auth t,
    map_get map (int_key 5) = Some (VBytes auth) /\
    tks_in_use (ps_token (app_pin_state a)) = Some t /\
    auth = authenticate (tk_protocol t) (tk_value t) (large_blob_message offset fragment) /\
    Z.land (tk_permissions t) PIN_PERMISSION_LBW <> 0.
Proof.
  intros Hprot Hs. unfold large_blobs_set in Hs.
  destruct (MAX_FRAGMENT_LENGTH <? zlen fragment); [done|].
  peel Hs a1 u Ha. destruct u.
  assert (Hpin : app_pin_state a1 = app_pin_state a).
  { unfold announce_length in Ha. destruct (offset =? 0).
    - peel_lift Ha v Hv. peel_lift Ha n Hn. destruct (_ <? n); [done|]. destruct (n <? 17); [done|].
      by injection Ha as <-.
    - destruct (is_some _); [done|]. by injection Ha as <-. }
  peel Hs a2 st Hst2. injection Hst2 as <- <-. destruct (negb _); [done|].
  peel Hs a3 protected Hp. injection Hp as <- <-.
  unfold persistent in *. rewrite Hpin, Hprot in Hs. peel Hs a4 u4 Hau.
  unfold large_blobs_authorize in Hau. peel_lift Hau auth Hauth. peel_lift Hau protocol Hpr.
  destruct (map_get map (int_key 5)) as [v|]; [|done]. injection Hauth as ->.
  destruct auth as [|auth| | | | | | |]; try done. destruct (2 ^ 32 <=? offset); [done|].
  peel Hau b1 u1 Hv. destruct u1. peel Hau b2 permitted Hperm. destruct permitted; [|done].
  destruct (verified_with_permission _ _ _ _ _ _ _ Hv Hperm) as (t & Ht & <- & Hs' & Hl).
  unfold token_of in Ht. rewrite Hpin in Ht. exists auth, t. by split_and!.
Qed.

End LargeBlobs.

(** ** Concrete runs *)

Module LargeBlobsWitness.

#[local] Opaque fresh_engine engine_with_pin engine_with_token agreed seal_for.

Ltac run := vm_compute; reflexivity.

(** An empty array with its checksum. *)
Definition small_array : bytes := [0x80] ++ take 16 (sha256 [0x80]).

(** The same in two fragments. *)
Definition two_fragments : list bytes :=
  [take 10 small_array; drop 10 small_array].

Lemma fragmented_write_reads_back_witness :
  exists b, write_fragments 0 17 two_fragments fresh_engine = (b, Ok tt) /\
    blob_view (app_store b) = small_array.
Proof.
  destruct (fragmented_write_reads_back two_fragments fresh_engine [] 0 17) as (b & Hb & Hv & _).
  - split; run.
  - repeat constructor; vm_compute; discriminate.
  - run.
  - intros s. exists (ms_with_large_blob_array s (concat two_fragments)).
    assert (Hval : validate_large_blob_array (concat two_fragments) = Ok tt) by run.
    change (ms_set_large_blob_array (concat two_fragments) s =
            (ms_with_large_blob_array s (concat two_fragments), Ok tt)).
    unfold ms_set_large_blob_array. rewrite Hval. reflexivity.
  - reflexivity.
  - reflexivity.
  - reflexivity.
  - vm_compute; split; discriminate.
  - vm_compute; split; discriminate.
  - exists b. split; [exact Hb|exact Hv].
Defined.

(** The second fragment of a staged write: it completes the array. *)
Definition half_written : CtapApp MemoryStore :=
  fst (large_blobs_set (fragment_entries 0 17 (take 10 small_array)) 0
         (Some (VBytes (take 10 small_array))) fresh_engine).

Definition last_payload : bytes :=
  into_writer (VMap (fragment_entries 10 17 (drop 10 small_array))).

#[local] Opaque half_written last_payload.

Lemma large_blob_array_replaced_atomically_witness :
  snd (handle_large_blobs last_payload half_written) = Ok [CTAP2_OK] /\
  atomic_commit last_payload half_written (fst (handle_large_blobs last_payload half_written))
    (snd (handle_large_blobs last_payload half_written)).
Proof.
  split; [run|].
  assert (Hst : staged_ok (app_large_blob_state half_written)).
  { split; [vm_compute; split; discriminate|right; split; [run|vm_compute; discriminate]]. }
  exact (proj2 (large_blob_array_replaced_atomically last_payload half_written _ _ Hst
    (surjective_pairing (handle_large_blobs last_payload half_written)))).
Defined.

(** A first fragment under the token in use. *)
Definition protected_entries : Entries :=
  fragment_entries 0 17 (take 10 small_array)
  ++ [(VInteger 5, VBytes (authenticate V2 issued_token
         (large_blob_message 0 (take 10 small_array)))); (VInteger 6, VInteger 2)].

Definition protected_run : CtapApp MemoryStore * result bytes Z :=
  large_blobs_set protected_entries 0 (Some (VBytes (take 10 small_array)))
    engine_with_token.

Lemma large_blob_write_requires_token_witness :
  snd protected_run = Ok [CTAP2_OK] /\
  exists t, tks_in_use (ps_token (app_pin_state engine_with_token)) = Some t /\
    Z.land (tk_permissions t) PIN_PERMISSION_LBW <> 0.
Proof.
  assert (Hs : snd protected_run = Ok [CTAP2_OK]) by run. split; [exact Hs|].
  destruct (large_blob_write_requires_token protected_entries 0
    (take 10 small_array) engine_with_token (fst protected_run) [CTAP2_OK]
    ltac:(run) (run_result protected_run _ Hs)) as (auth & t & _ & Ht & _ & Hl).
  exists t. split; [exact Ht|exact Hl].
Defined.

End LargeBlobsWitness.
