(* ===== verification/Frames.v ===== *)
(** * What an operation leaves alone

    A frame library beside [EngineProofs]: most operations of the engine leave
    the stored credentials as they are and the token, if one is in use, a later
    state of itself. *)

From stdpp Require Import gmap.
From S2P Require Import Prelude Constants Crypto Cbor Records PinRetry Token Presence.
From S2P Require Import Store StoreProofs Engine EngineProofs ClientPin ClientPinProofs.

(** ** Sequencing, whatever the result *)

Lemma bind_cases {S A B E} (m : M S A E) (k : A -> M S B E) s s' r :
  mbind_st m k s = (s', r) ->
  (exists e, m s = (s', Err e)) \/ exists s1 x, m s = (s1, Ok x) /\ k x s1 = (s', r).
Proof. unfold mbind_st. destruct (m s) as [s1 [x|e]]; [eauto|]. intros [= <- <-]. eauto. Qed.

(** The same, with the error passed on. *)
Lemma bind_split {S A B E} (m : M S A E) (k : A -> M S B E) s s' r :
  mbind_st m k s = (s', r) ->
  (exists e, m s = (s', Err e) /\ r = Err e) \/ exists s1 x, m s = (s1, Ok x) /\ k x s1 = (s', r).
Proof. unfold mbind_st. destruct (m s) as [s1 [x|e]]; [eauto|]. intros [= <- <-]. eauto. Qed.

Lemma bind_ret {S A B E} (m : M S A E) (f : A -> B) s s' r :
  (let* x := m in ret (f x)) s = (s', r) -> exists r', m s = (s', r').
Proof. unfold mbind_st. destruct (m s) as [s1 [y|e]]; intros [= <- _]; eauto. Qed.

Lemma then_ret {S A B E} (m : M S A E) (x : B) s s' r :
  (m ;;* ret x) s = (s', r) -> exists r', m s = (s', r').
Proof. unfold mbind_st. destruct (m s) as [s1 [y|e]]; intros [= <- _]; eauto. Qed.

(** Pass a pure step: it fails and nothing changed, or it has a value. *)
Ltac pure_step H x Hx :=
  let s := fresh "s" in
  let e := fresh "e" in
  apply bind_cases in H as [[e H]|(s & x & Hx & H)];
    [injection H as <-; by left|apply lift_ok in Hx as [-> Hx]].

Section Frames.

Context {S : Type} `{Crypto} `{CredentialStore S} `{!CredentialSetLaws S}.

#[local] Abbreviation App := (CtapApp S).

(** What no request changes: the configuration, and how the world behaves. *)
Definition setting (a : App) :=
  (app_aaguid a, app_attestation_mode a, app_presence_timeout a, app_reset_window a,
   (w_clock (app_world a), w_rng (app_world a), w_cancelled (app_world a),
    w_confirm (app_world a), w_os (app_world a))).

(** The credentials and the setting are as they were, and the token, if any,
    is a later state of the one there was. *)
Definition calm (a b : App) : Prop :=
  (creds (app_store b) = creds (app_store a) /\ setting b = setting a) /\
  state_descends (token_of a) (token_of b).

#[export] Instance calm_preorder : PreOrder calm.
Proof.
  split.
  - intros a. split; [done|reflexivity].
  - intros a b c [[Hc Hs] Hd] [[Hc' Hs'] Hd']. split; [split; by etrans|by etrans].
Qed.

Lemma calm_creds a b : calm a b -> creds (app_store b) = creds (app_store a).
Proof. by intros [[] _]. Qed.

Lemma calm_setting a b : calm a b -> setting b = setting a.
Proof. by intros [[] _]. Qed.

Definition calmly {A} (m : M App A Z) : Prop := forall a, calm a (fst (m a)).

Lemma calmly_run {A} (m : M App A Z) a b r : calmly m -> m a = (b, r) -> calm a b.
Proof. intros Hm Hr. specialize (Hm a). by rewrite Hr in Hm. Qed.

Lemma calmly_bind {A B} (m : M App A Z) (k : A -> M App B Z) :
  calmly m -> (forall x, calmly (k x)) -> calmly (mbind_st m k).
Proof.
  intros Hm Hk a. unfold mbind_st. specialize (Hm a).
  destruct (m a) as [b [x|e]]; simpl in *; [|done]. etrans; [exact Hm|apply Hk].
Qed.

Lemma calmly_pure {A} (f : App -> result A Z) : calmly (fun a => (a, f a)).
Proof. by intros a. Qed.

Lemma calmly_ret {A} (x : A) : calmly (ret x).
Proof. by intros a. Qed.

Lemma calmly_fail {A} e : calmly (@fail App A Z e).
Proof. by intros a. Qed.

Lemma calmly_lift {A} (r : result A Z) : calmly (lift r).
Proof. by intros a. Qed.

Lemma calmly_gets {A} (f : App -> A) : calmly (gets f).
Proof. by intros a. Qed.

Lemma calmly_guard b e : calmly (@guard App Z b e).
Proof. by destruct b; intros a. Qed.

(** A query of the token observes the timer, and answers from what is left. *)
Definition observing {A} (f : PinUvAuthTokenState -> A)
    (q : Z -> PinUvAuthTokenState -> PinUvAuthTokenState * A) : Prop :=
  forall n s, q n s = (observe n s, f (observe n s)).

Lemma query_ok {A} f q (a b : App) (v : A) :
  observing f q -> token_query q a = (b, Ok v) ->
  v = f (token_of b) /\ calm a b /\ app_store b = app_store a /\
  app_cred_mgmt_state b = app_cred_mgmt_state a /\
  ps_pin (app_pin_state b) = ps_pin (app_pin_state a) /\
  ps_persistent_generation (app_pin_state b) = ps_persistent_generation (app_pin_state a).
Proof.
  intros Hq Hr. unfold token_query in Hr. peel Hr c n Hn. injection Hn as <- <-.
  rewrite Hq in Hr. injection Hr as <- <-. split_and!; try done.
  split; [done|]. apply state_descends_observe.
Qed.

Lemma calmly_query {A} f q : observing f q -> calmly (@token_query S A q).
Proof.
  intros Hq a. destruct (token_query q a) as [b [v|e]] eqn:Hr.
  - by apply (query_ok f) in Hr as (_ & Hc & _).
  - unfold token_query, mbind_st, now in Hr. rewrite Hq in Hr. done.
Qed.

Definition origin_of (s : PinUvAuthTokenState) : option TokenOrigin :=
  match tks_in_use s with Some t => tk_origin t | None => None end.

Definition rp_of (s : PinUvAuthTokenState) : option bytes :=
  match tks_in_use s with Some t => tk_permissions_rp_id t | None => None end.

Lemma observing_rp : observing rp_of permissions_rp_id.
Proof. by intros n s. Qed.

Lemma observing_origin : observing origin_of token_origin_of.
Proof. by intros n s. Qed.

Lemma observing_id : observing (fun s => option_map tk_id (tks_in_use s)) in_use_id.
Proof. by intros n s. Qed.

Lemma observing_verified :
  observing (fun s => is_some_and (tks_in_use s) tk_user_verified) user_verified_flag.
Proof. by intros n s. Qed.

Lemma observing_permission p :
  observing (fun s => is_some_and (tks_in_use s) (fun t => negb (Z.land (tk_permissions t) p =? 0)))
    (fun n => has_permission n p).
Proof. by intros n s. Qed.

Lemma calmly_verify p m sig : calmly (@verify_pin_uv_auth_param S _ p m sig).
Proof.
  intros a. unfold verify_pin_uv_auth_param, token_check, mbind_st, now.
  set (a1 := with_world _ _).
  pose proof (token_step_descends (w_clock (app_world a) (w_clock_reads (app_world a)))
    (TVerify p m sig) (token_of a)) as Hd. simpl in Hd.
  change (ps_token (app_pin_state a1)) with (token_of a).
  destruct (token_verify _ _ _ _ _) as [tk r]. by split.
Qed.

Lemma calmly_stored_credential id : calmly (stored_credential id).
Proof.
  intros a. unfold stored_credential. destruct (st_get id (app_store a)) as [s r] eqn:Hg.
  apply creds_get in Hg as [Hg _].
  destruct r as [o|[]]; (split; [split; [exact Hg|done]|reflexivity]).
Qed.

Lemma calmly_stored_credentials : calmly stored_credentials.
Proof.
  intros a. unfold stored_credentials, on_store. destruct (st_list (app_store a)) as [s r] eqn:Hg.
  apply creds_list in Hg as [Hg _]. destruct r as [l|e]; (split; [split; [exact Hg|done]|reflexivity]).
Qed.

Lemma calm_stop (a b : App) :
  creds (app_store b) = creds (app_store a) -> setting b = setting a ->
  tks_in_use (token_of b) = None -> calm a b.
Proof. intros Hc Hs Ht. split; [done|]. intros t'. by rewrite Ht. Qed.

Lemma read_store_calm a b r : read_store_pin_state a = (b, r) -> calm a b.
Proof.
  unfold read_store_pin_state. pose proof (creds_pin_state (app_store a)) as Hc.
  destruct (st_pin_state (app_store a)) as [s x]. intros [= <- _]. split; [split; [exact Hc|done]|reflexivity].
Qed.

Lemma adopt_record_calm r : calmly (@adopt_record S r).
Proof.
  intros a. unfold adopt_record. destruct (changed_pin _ _ || _); [|reflexivity].
  destruct (changed_pin _ _); [by apply calm_stop|]. by split.
Qed.

Lemma calmly_refresh : calmly refresh_persistent_authority.
Proof.
  intros a. unfold refresh_persistent_authority. destruct (app_stored_pin_state a).
  - unfold mbind_st. destruct (read_store_pin_state a) as [b [loaded|e]] eqn:Hr;
      apply read_store_calm in Hr; [|done].
    destruct loaded as [[r|]|e].
    + etrans; [exact Hr|apply adopt_record_calm].
    + assert (Hclosed : calm a (fst (close_authority b)))
        by (etrans; [exact Hr|by apply calm_stop]).
      by destruct (pp_pin_hash (persistent b)); [|destruct (pp_persistent_tokens (persistent b)) as [[] []]].
    + destruct (closes_authority e); [|done]. etrans; [exact Hr|by apply calm_stop].
  - unfold read_unread_pin_state, load_pin_state, mbind_st.
    destruct (read_store_pin_state a) as [b [loaded|e]] eqn:Hr; apply read_store_calm in Hr; [|done].
    destruct loaded as [[r|]|e]; simpl;
      [etrans; [exact Hr|by apply calm_stop]..|].
    etrans; [exact Hr|]. destruct (closes_authority e); by split.
  - reflexivity.
Qed.

(** The token in use at the end was in use all along. *)
Lemma calm_token (a b : App) t' :
  calm a b -> tks_in_use (token_of b) = Some t' ->
  exists t, tks_in_use (token_of a) = Some t /\ descends t t'.
Proof. intros [_ Hd]. apply Hd. Qed.

Lemma stored_credential_some id (a b : App) c :
  stored_credential id a = (b, Ok (Some c)) -> creds (app_store a) !! id = Some c.
Proof.
  unfold stored_credential. destruct (st_get id (app_store a)) as [s r] eqn:Hg.
  apply creds_get in Hg as [_ Hg]. destruct r as [o|[]]; intros [= <- ->]; done.
Qed.

Lemma stored_credential_none cid (a b : App) :
  stored_credential cid a = (b, Ok None) -> creds (app_store a) !! cid = None.
Proof.
  unfold stored_credential. destruct (st_get cid (app_store a)) as [s r] eqn:Hg.
  apply creds_get in Hg as [_ Hg]. destruct r as [o|[]]; intros [= <-]; by subst.
Qed.

(** Every credential is stored under its own ID. *)
Definition own_ids (a : App) : Prop :=
  forall id c, creds (app_store a) !! id = Some c -> cr_credential_id c = id.

Lemma calm_own_ids a b : calm a b -> own_ids a -> own_ids b.
Proof. intros Hc%calm_creds Ho id c. rewrite Hc. apply Ho. Qed.

(** ** Drawing, asking, and the rest of the world *)

Lemma calmly_random n : calmly (random_array n).
Proof. by intros a. Qed.

Lemma calmly_now : calmly now.
Proof. by intros a. Qed.

Lemma calmly_rng : calmly sys_rng.
Proof. by intros a. Qed.

Lemma calmly_ask r : calmly (ask_user r).
Proof. by intros a. Qed.

Lemma calmly_confirm r : calmly (confirm_user_presence r).
Proof. apply calmly_bind; [apply calmly_ask|]. intros o. apply calmly_lift. Qed.

Lemma calmly_clear_cm : calmly clear_cred_mgmt.
Proof. by intros a. Qed.

Lemma calmly_on_store {A E} (m : M S A E) f : preserves creds m -> calmly (on_store m f).
Proof.
  intros Hm a. unfold on_store. specialize (Hm (app_store a)).
  destruct (m (app_store a)) as [s [v|e]]; (split; [split; [exact Hm|done]|reflexivity]).
Qed.

Lemma calmly_draw_key n : calmly (draw_key n).
Proof.
  induction n as [|n IH]; simpl; [by intros a|].
  apply calmly_bind; [apply calmly_random|]. intros k. destruct (p256_scalar_valid k); [by intros a|done].
Qed.

Lemma calmly_key_agreement p : calmly (key_agreement_key p).
Proof.
  intros a. unfold key_agreement_key. destruct (key_slot _ p); [reflexivity|].
  apply calmly_bind; [apply calmly_draw_key|]. intros k b. by split.
Qed.

Lemma calmly_decapsulate p k : calmly (decapsulate p k).
Proof. apply calmly_bind; [apply calmly_key_agreement|]. intros x. apply calmly_lift. Qed.

Lemma calmly_encrypt p k t : calmly (encrypt_for_platform p k t).
Proof.
  unfold encrypt_for_platform. apply calmly_bind; [|intros iv; apply calmly_lift].
  destruct p; [by intros a|]. apply calmly_bind; [apply calmly_random|]. by intros r a.
Qed.

Lemma calmly_consume : calmly app_consume_token.
Proof.
  apply calmly_bind; [apply calmly_now|]. intros t a. split; [done|].
  exact (token_step_descends t TConsume (token_of a)).
Qed.

Lemma calmly_read_if_unread : calmly read_pin_state_if_unread.
Proof.
  intros a. unfold read_pin_state_if_unread.
  destruct (app_stored_pin_state a); [reflexivity|apply calmly_refresh|reflexivity].
Qed.

End Frames.

Create HintDb calms.

#[export] Hint Resolve calmly_pure calmly_ret calmly_fail calmly_lift calmly_gets calmly_guard
  calmly_verify calmly_stored_credential calmly_stored_credentials calmly_refresh
  calmly_random calmly_now calmly_rng calmly_ask calmly_confirm calmly_clear_cm calmly_decapsulate
  calmly_encrypt calmly_consume calmly_read_if_unread : calms.

(** Decompose an operation that is calm throughout. *)
Ltac calm_step :=
  match goal with
  | |- calmly (mbind_st _ _) => apply calmly_bind; [|intros ?]
  | |- calmly (if ?b then _ else _) => destruct b
  | |- calmly (match ?x with _ => _ end) => destruct x
  | |- calmly app_permissions_rp_id => apply (calmly_query _ _ observing_rp)
  | |- calmly app_token_origin => apply (calmly_query _ _ observing_origin)
  | |- calmly pin_uv_auth_token_id => apply (calmly_query _ _ observing_id)
  | |- calmly app_user_verified_flag => apply (calmly_query _ _ observing_verified)
  | |- calmly (app_has_permission ?p) => apply (calmly_query _ _ (observing_permission p))
  | |- _ => solve [eauto with calms]
  end.

(** Pass a step that is calm: it fails with everything calm, or it has a value
    and the calm goes on.  [Hc : calm a _] is the calm so far. *)
Ltac calm_peel H tac Hc s x Hx :=
  let e := fresh "e" in
  let He := fresh "He" in
  apply bind_split in H as [(e & H & ->)|(s & x & Hx & H)];
    [left; split; [etrans; [exact Hc|eapply calmly_run; [tac|exact H]]|eauto]
    |let Hn := fresh "Hn" in
     assert (Hn := calmly_run _ _ _ _ ltac:(tac) Hx);
     apply (transitivity Hc) in Hn; clear Hc; rename Hn into Hc].
