(* ===== verification/CredMgmt.v ===== *)
(** * authenticatorCredentialManagement ([ctap/credential_management.rs],
    [ctap/pin/permissions.rs])

    Listing, deleting and updating discoverable credentials: authorization by
    a transient token or a persistent read-only one, and the state of the two
    enumerations between requests. *)

From S2P Require Import Prelude Constants Alg Crypto Cbor Records Request.
From S2P Require Import PinRetry Token Presence Store CredentialKey Engine.

Definition GET_CREDS_METADATA : Z := 0x01.

Definition ENUMERATE_RPS_BEGIN : Z := 0x02.

Definition ENUMERATE_RPS_GET_NEXT_RP : Z := 0x03.

Definition ENUMERATE_CREDENTIALS_BEGIN : Z := 0x04.

Definition ENUMERATE_CREDENTIALS_GET_NEXT_CREDENTIAL : Z := 0x05.

Definition DELETE_CREDENTIAL : Z := 0x06.

Definition UPDATE_USER_INFORMATION : Z := 0x07.

Definition MAX_RETURNED_RP_ID_LENGTH : nat := 32.

(** "name" and "displayName". *)
Definition name_name : bytes := [110; 97; 109; 101].

Definition name_display_name : bytes := [100; 105; 115; 112; 108; 97; 121; 78; 97; 109; 101].

(** ** RP IDs *)

(** U+2026 in UTF-8. *)
Definition ELLIPSIS : bytes := [0xE2; 0x80; 0xA6].

(** [str::find(':')]. *)
Fixpoint find_byte (b : Z) (text : bytes) : option nat :=
  match text with
  | [] => None
  | x :: r => if x =? b then Some 0%nat else option_map S (find_byte b r)
  end.

(** [while !text.is_char_boundary(start) { start += 1 }]; the end is a
    boundary, so [length text - start] steps are enough. *)
Fixpoint boundary_after (fuel : nat) (text : bytes) (start : nat) : nat :=
  match fuel with
  | O => start
  | S fuel' => if is_char_boundary text start then start else boundary_after fuel' text (S start)
  end.

(** What is kept of a protocol prefix. *)
Definition protocol_prefix (rp_id : bytes) : bytes :=
  match find_byte 58 rp_id with
  | Some colon =>
      take (boundary_before rp_id (Nat.min (colon + 1) MAX_RETURNED_RP_ID_LENGTH)) rp_id
  | None => []
  end.

Definition truncated_rp_id (rp_id : bytes) : bytes :=
  if (length rp_id <=? MAX_RETURNED_RP_ID_LENGTH)%nat then rp_id
  else
    let stored := protocol_prefix rp_id in
    if (3 <=? MAX_RETURNED_RP_ID_LENGTH - length stored)%nat then
      let stored := stored ++ ELLIPSIS in
      let start := (length rp_id - (MAX_RETURNED_RP_ID_LENGTH - length stored))%nat in
      stored ++ drop (boundary_after (length rp_id - start) rp_id start) rp_id
    else stored.

(** [Vec<String>::sort]: byte order. *)
Fixpoint insert_bytes (x : bytes) (l : list bytes) : list bytes :=
  match l with
  | [] => [x]
  | y :: r => match bytes_cmp x y with Gt => y :: insert_bytes x r | _ => x :: y :: r end
  end.

Definition sort_bytes (l : list bytes) : list bytes := fold_right insert_bytes [] l.

(** [Vec::dedup]: adjacent repetitions. *)
Fixpoint dedup (l : list bytes) : list bytes :=
  match l with
  | [] => []
  | x :: r => match r with
              | [] => [x]
              | y :: _ => if bytes_eqb x y then dedup r else x :: dedup r
              end
  end.

(** ** Enumeration state *)

Definition reset_rps (s : CredentialManagementState) : CredentialManagementState := {|
  cm_rp_list := []; cm_rp_index := 0; cm_family := cm_family s; cm_rp_auth := None;
  cm_context := cm_context s; cm_credential_list := cm_credential_list s;
  cm_credential_index := cm_credential_index s; cm_credential_auth := cm_credential_auth s;
  cm_credential_rp_hash := cm_credential_rp_hash s |}.

Definition reset_credentials (s : CredentialManagementState) : CredentialManagementState := {|
  cm_rp_list := cm_rp_list s; cm_rp_index := cm_rp_index s; cm_family := cm_family s;
  cm_rp_auth := cm_rp_auth s; cm_context := cm_context s; cm_credential_list := [];
  cm_credential_index := 0; cm_credential_auth := None; cm_credential_rp_hash := [] |}.

Definition set_family (s : CredentialManagementState) (f : ManagementFamily)
    : CredentialManagementState := {|
  cm_rp_list := cm_rp_list s; cm_rp_index := cm_rp_index s; cm_family := Some f;
  cm_rp_auth := cm_rp_auth s; cm_context := cm_context s;
  cm_credential_list := cm_credential_list s; cm_credential_index := cm_credential_index s;
  cm_credential_auth := cm_credential_auth s; cm_credential_rp_hash := cm_credential_rp_hash s |}.

Definition set_context (s : CredentialManagementState) (auth : EnumerationAuthorization)
    : CredentialManagementState := {|
  cm_rp_list := cm_rp_list s; cm_rp_index := cm_rp_index s; cm_family := cm_family s;
  cm_rp_auth := cm_rp_auth s; cm_context := Some auth;
  cm_credential_list := cm_credential_list s; cm_credential_index := cm_credential_index s;
  cm_credential_auth := cm_credential_auth s; cm_credential_rp_hash := cm_credential_rp_hash s |}.

Definition begin_rps (s : CredentialManagementState) (rp_ids : list bytes)
    (auth : EnumerationAuthorization) : CredentialManagementState := {|
  cm_rp_list := rp_ids; cm_rp_index := 1; cm_family := cm_family s; cm_rp_auth := Some auth;
  cm_context := cm_context s; cm_credential_list := cm_credential_list s;
  cm_credential_index := cm_credential_index s; cm_credential_auth := cm_credential_auth s;
  cm_credential_rp_hash := cm_credential_rp_hash s |}.

Definition begin_credentials (s : CredentialManagementState) (ids : list bytes)
    (auth : EnumerationAuthorization) (rp_hash : bytes) : CredentialManagementState := {|
  cm_rp_list := cm_rp_list s; cm_rp_index := cm_rp_index s; cm_family := cm_family s;
  cm_rp_auth := cm_rp_auth s; cm_context := cm_context s; cm_credential_list := ids;
  cm_credential_index := 1; cm_credential_auth := Some auth; cm_credential_rp_hash := rp_hash |}.

Definition advance_rp (s : CredentialManagementState) : CredentialManagementState := {|
  cm_rp_list := cm_rp_list s; cm_rp_index := cm_rp_index s + 1; cm_family := cm_family s;
  cm_rp_auth := cm_rp_auth s; cm_context := cm_context s;
  cm_credential_list := cm_credential_list s; cm_credential_index := cm_credential_index s;
  cm_credential_auth := cm_credential_auth s; cm_credential_rp_hash := cm_credential_rp_hash s |}.

Definition advance_credential (s : CredentialManagementState) : CredentialManagementState := {|
  cm_rp_list := cm_rp_list s; cm_rp_index := cm_rp_index s; cm_family := cm_family s;
  cm_rp_auth := cm_rp_auth s; cm_context := cm_context s;
  cm_credential_list := cm_credential_list s; cm_credential_index := cm_credential_index s + 1;
  cm_credential_auth := cm_credential_auth s; cm_credential_rp_hash := cm_credential_rp_hash s |}.

(** The fields updateUserInformation replaces. *)
Definition set_user_details (r : CredentialRecord) (name display : option bytes)
    : CredentialRecord := {|
  cr_credential_id := cr_credential_id r; cr_rp_id := cr_rp_id r;
  cr_user_id := cr_user_id r; cr_user_name := name;
  cr_user_display_name := display; cr_alg := cr_alg r;
  cr_private_key := cr_private_key r;
  cr_cred_random_with_uv := cr_cred_random_with_uv r;
  cr_cred_random_without_uv := cr_cred_random_without_uv r;
  cr_cred_blob := cr_cred_blob r; cr_large_blob_key := cr_large_blob_key r;
  cr_third_party_payment := cr_third_party_payment r;
  cr_cred_protect := cr_cred_protect r; cr_sign_count := cr_sign_count r;
  cr_created_at := cr_created_at r |}.

(** An absent or empty name is none; a long one is cut. *)
Definition non_empty_text (user : Entries) (key : bytes) : result (option bytes) Z :=
  match map_get user (VText key) with
  | None => Ok None
  | Some (VText []) => Ok None
  | Some (VText text) => Ok (Some (truncate_utf8 text MAX_NAME_LENGTH))
  | Some _ => Err CTAP2_ERR_CBOR_UNEXPECTED_TYPE
  end.

Definition cm_subcommand (value : option Value) : result Z Z :=
  match value with
  | Some (VInteger n) =>
      if (GET_CREDS_METADATA <=? n) && (n <=? UPDATE_USER_INFORMATION) then Ok n
      else Err CTAP2_ERR_INVALID_SUBCOMMAND
  | Some _ => Err CTAP2_ERR_CBOR_UNEXPECTED_TYPE
  | None => Err CTAP2_ERR_MISSING_PARAMETER
  end.

Definition cm_params (value : option Value) : result (option Entries) Z :=
  match value with
  | Some (VMap entries) => Ok (Some entries)
  | Some _ => Err CTAP2_ERR_CBOR_UNEXPECTED_TYPE
  | None => Ok None
  end.

Definition cm_check_mandatory_parameters (subcommand : Z) (params : option Entries)
    : result unit Z :=
  let required :=
    if subcommand =? ENUMERATE_CREDENTIALS_BEGIN then [1]
    else if subcommand =? DELETE_CREDENTIAL then [2]
    else if subcommand =? UPDATE_USER_INFORMATION then [2; 3]
    else [] in
  if existsb (fun key => is_none_or params (fun p => negb (is_some (map_get p (int_key key)))))
       required
  then Err CTAP2_ERR_MISSING_PARAMETER else Ok tt.

(** The message a request is authenticated over. *)
Definition cm_message (subcommand : Z) (raw_params : option bytes) : bytes :=
  subcommand :: match raw_params with Some b => b | None => [] end.

Section CredMgmt.

Context {S : Type} `{Crypto} `{KeyCrypto} `{Ciborium} `{CredentialStore S}.

#[local] Abbreviation App := (CtapApp S).

Definition rp_entity (rp_id : bytes) : Value :=
  canonical_map [(VText name_id, VText (truncated_rp_id rp_id))].

Definition modify_cm (f : CredentialManagementState -> CredentialManagementState) : M App unit Z :=
  modify (fun a => with_cred_mgmt a (f (app_cred_mgmt_state a))).

Definition reset_enumerations : M App unit Z := modify_cm (fun s => reset_credentials (reset_rps s)).

Definition cm_hash_rp_id (rp_id : bytes) : bytes := sha256 rp_id.

Definition discoverable_credentials : M App (list CredentialRecord) Z :=
  let* credentials := stored_credentials in
  ret (List.filter (fun c => is_discoverable (cr_credential_id c)) credentials).

Definition managed_credential (credential_id : bytes) : M App (option CredentialRecord) Z :=
  if negb (is_discoverable credential_id) then ret None else stored_credential credential_id.

(** [ensure_pin_token_permission_for_cm] of [ctap/pin/permissions.rs]. *)
Definition ensure_pin_token_permission_for_cm (subcommand : Z) (params : option Entries)
    : M App unit Z :=
  let* permitted := app_has_permission PIN_PERMISSION_CM in
  if negb permitted then fail CTAP2_ERR_PIN_AUTH_INVALID
  else
    let* bound := app_permissions_rp_id in
    match bound with
    | None => ret tt
    | Some binding =>
        if (subcommand =? 1) || (subcommand =? 2) then fail CTAP2_ERR_PIN_AUTH_INVALID
        else if subcommand =? 4 then
          let* p := lift (ok_or params CTAP2_ERR_MISSING_PARAMETER) in
          let* rp_hash := lift (required_bytes p (int_key 1)) in
          guard (bytes_eqb (cm_hash_rp_id binding) rp_hash) CTAP2_ERR_PIN_AUTH_INVALID
        else if (subcommand =? 6) || (subcommand =? 7) then
          let* p := lift (ok_or params CTAP2_ERR_MISSING_PARAMETER) in
          let* descriptor := lift (required_map p (int_key 2)) in
          let* id := lift (public_key_credential_id descriptor) in
          match id with
          | None => fail CTAP2_ERR_NO_CREDENTIALS
          | Some id =>
              let* credential := managed_credential id in
              match credential with
              | None => fail CTAP2_ERR_NO_CREDENTIALS
              | Some credential =>
                  guard (bytes_eqb (cr_rp_id credential) binding) CTAP2_ERR_PIN_AUTH_INVALID
              end
          end
        else fail CTAP2_ERR_PIN_AUTH_INVALID
    end.

Definition cm_get_metadata : M App Entries Z :=
  let* credentials := stored_credentials in
  let existing :=
    zlen (List.filter (fun c => is_discoverable (cr_credential_id c)) credentials) in
  let* max := gets (fun a => st_max_credentials (app_store a)) in
  let remaining := saturating_sub max (zlen credentials) in
  ret [(VInteger 1, VInteger existing); (VInteger 2, VInteger remaining)].

Definition cm_enumerate_rps_begin (auth : EnumerationAuthorization) : M App Entries Z :=
  let* credentials := discoverable_credentials in
  let rp_ids := dedup (sort_bytes (map cr_rp_id credentials)) in
  match rp_ids with
  | [] => fail CTAP2_ERR_NO_CREDENTIALS
  | first :: _ =>
      modify_cm (fun s => begin_rps s rp_ids auth) ;;*
      ret [(VInteger 3, rp_entity first); (VInteger 4, VBytes (cm_hash_rp_id first));
           (VInteger 5, VInteger (zlen rp_ids))]
  end.

(** The grant that authenticated a begin is checked again; each query looks
    at the clock, in the source's order, and stops at the first failure. *)
Definition cm_continuation_authorized (auth : option EnumerationAuthorization)
    (family : ManagementFamily) (rp_hash : option bytes) : M App bool Z :=
  match auth with
  | None => ret false
  | Some auth =>
      if bool_decide (ea_mode auth = PersistentReadOnly) then
        gets (fun a =>
          bool_decide (family = Standard) && bool_decide (ea_family auth = family)
          && (ps_persistent_generation (app_pin_state a) =? ea_token auth)
          && is_some_and (persistent_token (app_pin_state a) (ea_protocol auth)) pt_granted)
      else if negb (bool_decide (ea_family auth = family)) then ret false
      else
        let* id := pin_uv_auth_token_id in
        if negb (bool_decide (id = Some (ea_token auth))) then ret false
        else
          let* verified := app_user_verified_flag in
          if negb verified then ret false
          else
            match ea_mode auth with
            | PersistentReadOnly => ret false
            | LegacyPreview =>
                if negb (bool_decide (family = Preview)) then ret false
                else
                  let* origin := app_token_origin in
                  if negb (bool_decide (origin = Some LegacyGetPinToken)) then ret false
                  else let* bound := app_permissions_rp_id in ret (negb (is_some bound))
            | CmPermission =>
                let* permitted := app_has_permission PIN_PERMISSION_CM in
                if negb permitted then ret false
                else
                  let* bound := app_permissions_rp_id in
                  match bound with
                  | None => ret true
                  | Some binding =>
                      ret (is_some_and rp_hash (fun h => bytes_eqb (cm_hash_rp_id binding) h))
                  end
            end
  end.

Definition cm_enumerate_rps_next (family : ManagementFamily) : M App Entries Z :=
  let* auth := gets (fun a => cm_rp_auth (app_cred_mgmt_state a)) in
  let* authorized := cm_continuation_authorized auth family None in
  if negb authorized then modify_cm reset_rps ;;* fail CTAP2_ERR_NOT_ALLOWED
  else
    let* next := gets (fun a => let s := app_cred_mgmt_state a in
                                cm_rp_list s !! cm_rp_index s) in
    match next with
    | None => modify_cm reset_rps ;;* fail CTAP2_ERR_NOT_ALLOWED
    | Some rp_id =>
        modify_cm advance_rp ;;*
        ret [(VInteger 3, rp_entity rp_id); (VInteger 4, VBytes (cm_hash_rp_id rp_id))]
    end.

Definition cm_credential_response (credential : CredentialRecord) (total : option Z)
    : result Entries Z :=
  let bounded text := VText (truncate_utf8 text MAX_NAME_LENGTH) in
  let user_map := canonical_map
    ([(VText name_id, VBytes (cr_user_id credential))]
     ++ (match cr_user_name credential with
         | Some name => [(VText name_name, bounded name)] | None => [] end)
     ++ (match cr_user_display_name credential with
         | Some display => [(VText name_display_name, bounded display)] | None => [] end)) in
  let descriptor := canonical_map
    [(VText name_type, VText PUBLIC_KEY); (VText name_id, VBytes (cr_credential_id credential))] in
  let? public_key := map_err (fun _ => CTAP2_ERR_PROCESSING) (cose_public_key credential) in
  let? public_key_value := ok_or (from_reader public_key) CTAP2_ERR_PROCESSING in
  Ok ([(VInteger 6, user_map); (VInteger 7, descriptor); (VInteger 8, public_key_value);
       (VInteger 10, VInteger (cr_cred_protect credential))]
      ++ (match total with Some n => [(VInteger 9, VInteger n)] | None => [] end)
      ++ (match cr_large_blob_key credential with
          | Some key => [(VInteger 11, VBytes key)] | None => [] end)
      ++ [(VInteger 12, VBool (cr_third_party_payment credential))]).

Definition cm_enumerate_credentials_begin (params : Entries) (auth : EnumerationAuthorization)
    : M App Entries Z :=
  let* rp_hash := lift (required_bytes params (int_key 1)) in
  let* all := discoverable_credentials in
  let credentials := List.filter (fun c => bytes_eqb (cm_hash_rp_id (cr_rp_id c)) rp_hash) all in
  match credentials with
  | [] => fail CTAP2_ERR_NO_CREDENTIALS
  | first :: _ =>
      let* response := lift (cm_credential_response first (Some (zlen credentials))) in
      modify_cm (fun s => begin_credentials s (map cr_credential_id credentials) auth rp_hash) ;;*
      ret response
  end.

(** The loop, over the IDs from the current index on. *)
Fixpoint next_credential_loop (remaining : list bytes) : M App Entries Z :=
  match remaining with
  | [] => modify_cm reset_credentials ;;* fail CTAP2_ERR_NOT_ALLOWED
  | credential_id :: rest =>
      modify_cm advance_credential ;;*
      let* credential := stored_credential credential_id in
      match credential with
      | Some credential => lift (cm_credential_response credential None)
      | None => next_credential_loop rest
      end
  end.

Definition cm_enumerate_credentials_next (family : ManagementFamily) : M App Entries Z :=
  let* state := gets app_cred_mgmt_state in
  let* authorized := cm_continuation_authorized (cm_credential_auth state) family
                       (Some (cm_credential_rp_hash state)) in
  if negb authorized then modify_cm reset_credentials ;;* fail CTAP2_ERR_NOT_ALLOWED
  else
    let* state := gets app_cred_mgmt_state in
    next_credential_loop (drop (cm_credential_index state) (cm_credential_list state)).

Definition cm_delete_credential (params : Entries) : M App unit Z :=
  let* descriptor := lift (required_map params (int_key 2)) in
  let* id := lift (public_key_credential_id descriptor) in
  match id with
  | None => fail CTAP2_ERR_NO_CREDENTIALS
  | Some id =>
      if negb (is_discoverable id) then fail CTAP2_ERR_NO_CREDENTIALS
      else
        reset_enumerations ;;*
        let* deleted := on_store (st_delete id) store_status in
        if negb deleted then fail CTAP2_ERR_NO_CREDENTIALS else reset_enumerations
  end.

Definition cm_update_user_information (params : Entries) : M App unit Z :=
  let* descriptor := lift (required_map params (int_key 2)) in
  let* id := lift (public_key_credential_id descriptor) in
  match id with
  | None => fail CTAP2_ERR_NO_CREDENTIALS
  | Some id =>
      let* user := lift (required_map params (int_key 3)) in
      let* user_id := lift (structure_bytes user name_id) in
      let* credential := managed_credential id in
      match credential with
      | None => fail CTAP2_ERR_NO_CREDENTIALS
      | Some credential =>
          if negb (bytes_eqb (cr_user_id credential) user_id) then fail CTAP1_ERR_INVALID_PARAMETER
          else
            let* name := lift (non_empty_text user name_name) in
            let* display := lift (non_empty_text user name_display_name) in
            reset_enumerations ;;*
            on_store (st_put (set_user_details credential name display)) store_status
      end
  end.

Definition cm_authorize (family : ManagementFamily) (subcommand : Z) (params : option Entries)
    (protocol : PinProtocol) : M App EnumerationAuthorization Z :=
  let* mode :=
    match family with
    | Preview =>
        let* verified := app_user_verified_flag in
        if negb verified then fail CTAP2_ERR_PIN_AUTH_INVALID
        else
          let* origin := app_token_origin in
          match origin with
          | Some LegacyGetPinToken =>
              let* bound := app_permissions_rp_id in
              if negb (is_some bound) then ret LegacyPreview else fail CTAP2_ERR_PIN_AUTH_INVALID
          | Some PermissionBearing =>
              ensure_pin_token_permission_for_cm subcommand params ;;* ret CmPermission
          | None => fail CTAP2_ERR_PIN_AUTH_INVALID
          end
    | Standard => ensure_pin_token_permission_for_cm subcommand params ;;* ret CmPermission
    end in
  let* id := pin_uv_auth_token_id in
  let* token := lift (ok_or id CTAP2_ERR_PIN_AUTH_INVALID) in
  ret {| ea_family := family; ea_token := token; ea_protocol := protocol; ea_mode := mode |}.

(** Only these subcommands accept a persistent, read-only token. *)
Definition persistent_readable (family : ManagementFamily) (subcommand : Z) : bool :=
  bool_decide (family = Standard)
  && ((subcommand =? GET_CREDS_METADATA) || (subcommand =? ENUMERATE_RPS_BEGIN)
      || (subcommand =? ENUMERATE_CREDENTIALS_BEGIN)).

(** Who is asking: the persistent authority of the protocol if the MAC is its
    and the subcommand reads, the transient token otherwise. *)
Definition cm_grant (family : ManagementFamily) (subcommand : Z) (params : option Entries)
    (protocol : PinProtocol) (message param : bytes) : M App EnumerationAuthorization Z :=
  let* token := gets (fun a => persistent_token (app_pin_state a) protocol) in
  if persistent_readable family subcommand
     && is_some_and token (fun t => is_ok (verify protocol (pt_secret t) message param))
  then
    if negb (is_some_and token pt_granted) then fail CTAP2_ERR_PIN_AUTH_INVALID
    else
      let* generation := gets (fun a => ps_persistent_generation (app_pin_state a)) in
      ret {| ea_family := family; ea_token := generation; ea_protocol := protocol;
             ea_mode := PersistentReadOnly |}
  else
    verify_pin_uv_auth_param protocol message param ;;*
    cm_authorize family subcommand params protocol.

(** A grant other than the last one ends the enumerations. *)
Definition cm_enter_context (auth : EnumerationAuthorization) : M App unit Z :=
  let* context := gets (fun a => cm_context (app_cred_mgmt_state a)) in
  if negb (bool_decide (context = Some auth)) then
    modify_cm (fun s => set_context (reset_credentials (reset_rps s)) auth)
  else ret tt.

(** What the request does once authorized; [None]: an empty response. *)
Definition cm_execute (subcommand : Z) (params : option Entries) (auth : EnumerationAuthorization)
    : M App (option Entries) Z :=
  let required := lift (ok_or params CTAP2_ERR_MISSING_PARAMETER) in
  if subcommand =? GET_CREDS_METADATA then let* r := cm_get_metadata in ret (Some r)
  else if subcommand =? ENUMERATE_RPS_BEGIN then
    let* r := cm_enumerate_rps_begin auth in ret (Some r)
  else if subcommand =? ENUMERATE_CREDENTIALS_BEGIN then
    let* p := required in let* r := cm_enumerate_credentials_begin p auth in ret (Some r)
  else if subcommand =? DELETE_CREDENTIAL then
    let* p := required in cm_delete_credential p ;;* ret None
  else let* p := required in cm_update_user_information p ;;* ret None.

(** The subcommands that carry a pinUvAuthParam. *)
Definition cm_authenticated (family : ManagementFamily) (payload : bytes) (map : Entries)
    (subcommand : Z) (params : option Entries) : M App (option Entries) Z :=
  let* param := lift (ok_or (map_get map (int_key 4)) CTAP2_ERR_PUAT_REQUIRED) in
  lift (cm_check_mandatory_parameters subcommand params) ;;*
  let* parsed := lift (parse_pin_uv_auth_param (Some param) (map_get map (int_key 3))) in
  let* auth := lift (ok_or parsed CTAP2_ERR_PUAT_REQUIRED) in
  let* raw := (if (subcommand =? GET_CREDS_METADATA) || (subcommand =? ENUMERATE_RPS_BEGIN)
               then ret None
               else lift (map_err (fun _ => CTAP2_ERR_INVALID_CBOR) (raw_map_value payload 2))) in
  refresh_persistent_authority ;;*
  let* grant := cm_grant family subcommand params (fst auth) (cm_message subcommand raw) (snd auth) in
  cm_enter_context grant ;;*
  cm_execute subcommand params grant.

(** [map_err(|_| CTAP2_ERR_NOT_ALLOWED)] of a refresh. *)
Definition refresh_or_not_allowed : M App unit Z := fun a =>
  let (a', r) := refresh_persistent_authority a in (a', map_err (fun _ => CTAP2_ERR_NOT_ALLOWED) r).

(** Switching the command family ends the enumerations, before parsing. *)
Definition cm_enter_family (family : ManagementFamily) : M App unit Z :=
  let* current := gets (fun a => cm_family (app_cred_mgmt_state a)) in
  if negb (bool_decide (current = Some family)) then
    modify_cm (fun s => set_family (reset_credentials (reset_rps s)) family)
  else ret tt.

Definition cm_response (entries : option Entries) : bytes :=
  match entries with
  | Some entries => CTAP2_OK :: into_writer (VMap (canonical_sort entries))
  | None => [CTAP2_OK]
  end.

Definition handle_credential_management_family (family : ManagementFamily) (payload : bytes)
    : M App bytes Z :=
  cm_enter_family family ;;*
  let* map := lift (request_parameters payload) in
  let* subcommand := lift (cm_subcommand (map_get map (int_key 1))) in
  let* params := lift (cm_params (map_get map (int_key 2))) in
  let* entries :=
    (if subcommand =? ENUMERATE_RPS_GET_NEXT_RP then
       refresh_or_not_allowed ;;* let* r := cm_enumerate_rps_next family in ret (Some r)
     else if subcommand =? ENUMERATE_CREDENTIALS_GET_NEXT_CREDENTIAL then
       refresh_or_not_allowed ;;* let* r := cm_enumerate_credentials_next family in ret (Some r)
     else cm_authenticated family payload map subcommand params) in
  ret (cm_response entries).

End CredMgmt.
