(* ===== verification/CredMgmtProofs.v ===== *)
(** * What authenticatorCredentialManagement guarantees

    Frames for the handler, who may change a credential, what an enumeration
    returns and when it may be continued. *)

From Stdlib Require Import Sorted.
From stdpp Require Import gmap.
From S2P Require Import Prelude Constants Alg Crypto ConcreteCrypto Cbor ConcreteCbor.
From S2P Require Import Records Request PinRetry Token Presence Store StoreProofs CredentialKey.
From S2P Require Import Engine EngineProofs Frames ClientPin ClientPinProofs Scenario CredMgmt.

Section Authority.

Context {S : Type} `{Crypto} `{KeyCrypto} `{Ciborium} `{CredentialStore S} `{!CredentialSetLaws S}.

#[local] Abbreviation App := (CtapApp S).

Lemma calmly_cm f : calmly (modify_cm f).
Proof. intros a. split; [done|]. reflexivity. Qed.

#[local] Hint Resolve calmly_cm : calms.

Lemma calmly_managed id : calmly (managed_credential (S := S) id).
Proof. unfold managed_credential. repeat calm_step. Qed.

Lemma calmly_ensure sub params : calmly (ensure_pin_token_permission_for_cm (S := S) sub params).
Proof.
  unfold ensure_pin_token_permission_for_cm. repeat (apply calmly_managed || calm_step).
Qed.

Lemma calmly_authorize family sub params p : calmly (cm_authorize (S := S) family sub params p).
Proof. unfold cm_authorize. repeat (apply calmly_ensure || calm_step). Qed.

Lemma calmly_grant family sub params p m sig :
  calmly (cm_grant (S := S) family sub params p m sig).
Proof. unfold cm_grant. repeat (apply calmly_authorize || calm_step). Qed.

Lemma calmly_continuation auth family h :
  calmly (cm_continuation_authorized (S := S) auth family h).
Proof. unfold cm_continuation_authorized. repeat calm_step. Qed.

Lemma calmly_next_loop ids : calmly (next_credential_loop (S := S) ids).
Proof.
  induction ids as [|id ids IH]; simpl; repeat calm_step.
Qed.

Lemma calmly_refresh_na : calmly (refresh_or_not_allowed (S := S)).
Proof.
  intros a. unfold refresh_or_not_allowed. pose proof (calmly_refresh a) as Hc.
  by destruct (refresh_persistent_authority a).
Qed.

Lemma calmly_rps_next family : calmly (cm_enumerate_rps_next (S := S) family).
Proof. unfold cm_enumerate_rps_next. repeat (apply calmly_continuation || calm_step). Qed.

Lemma calmly_credentials_next family : calmly (cm_enumerate_credentials_next (S := S) family).
Proof.
  unfold cm_enumerate_credentials_next.
  repeat (apply calmly_continuation || apply calmly_next_loop || calm_step).
Qed.

Lemma calmly_enter_family family : calmly (cm_enter_family (S := S) family).
Proof. unfold cm_enter_family. repeat calm_step. Qed.

Lemma calmly_enter_context auth : calmly (cm_enter_context (S := S) auth).
Proof. unfold cm_enter_context. repeat calm_step. Qed.

(** ** Who may manage what *)

(** The token the request was authenticated with: its permission, and the
    relying party it is limited to. *)
Definition may_manage (family : ManagementFamily) (t : InUseToken) : Prop :=
  Z.land (tk_permissions t) PIN_PERMISSION_CM <> 0 \/
  (family = Preview /\ tk_origin t = Some LegacyGetPinToken /\ tk_permissions_rp_id t = None /\
   tk_user_verified t = true).

(** The request names a discoverable credential of [rp]. *)
Definition names_credential_of (a : App) (params : option Entries) (rp : bytes) : Prop :=
  exists p descriptor id c, params = Some p /\ required_map p (int_key 2) = Ok descriptor /\
    public_key_credential_id descriptor = Ok (Some id) /\ is_discoverable id = true /\
    creds (app_store a) !! id = Some c /\ cr_rp_id c = rp.

Definition in_scope (a : App) (sub : Z) (params : option Entries) (t : InUseToken) : Prop :=
  forall rp, tk_permissions_rp_id t = Some rp ->
    sub <> GET_CREDS_METADATA /\ sub <> ENUMERATE_RPS_BEGIN /\
    (sub = DELETE_CREDENTIAL \/ sub = UPDATE_USER_INFORMATION -> names_credential_of a params rp).

Lemma managed_some id (a b : App) c :
  managed_credential id a = (b, Ok (Some c)) ->
  is_discoverable id = true /\ creds (app_store a) !! id = Some c.
Proof.
  unfold managed_credential. destruct (is_discoverable id); [|done]. simpl.
  intros Hs. split; [done|by apply stored_credential_some in Hs].
Qed.

(** If the token is still there after the check, it was in scope: an expiry in
    the middle cannot turn a limited token into an unlimited one. *)
Lemma ensure_ok sub params (a b : App) t' :
  ensure_pin_token_permission_for_cm sub params a = (b, Ok tt) ->
  tks_in_use (token_of b) = Some t' ->
  exists t, tks_in_use (token_of a) = Some t /\ descends t t' /\
    Z.land (tk_permissions t) PIN_PERMISSION_CM <> 0 /\ in_scope a sub params t.
Proof.
  intros He Ht'. pose proof (calmly_run _ _ _ _ (calmly_ensure sub params) He) as Hab.
  destruct (calm_token _ _ _ Hab Ht') as (t & Ht & Hd). exists t. split; [done|]. split; [done|].
  unfold ensure_pin_token_permission_for_cm in He.
  peel He c permitted Hp. apply (query_ok _ _ _ _ _ (observing_permission _)) in Hp as (-> & Hac & Hsc & _).
  destruct (tks_in_use (token_of c)) as [t1|] eqn:Ht1; [|done]. cbn [is_some_and] in He.
  destruct (Z.eqb_spec (Z.land (tk_permissions t1) PIN_PERMISSION_CM) 0); [done|].
  destruct (calm_token _ _ _ Hac Ht1) as (t0 & Ht0 & Hd0). assert (t0 = t) as -> by congruence.
  split; [by apply (de_permissions _ _ Hd0)|]. cbn [negb] in He.
  peel He d bound Hb. apply (query_ok _ _ _ _ _ observing_rp) in Hb as (-> & Hcd & Hsd & _).
  intros rp Hrp.
  assert (Hbound : rp_of (token_of d) = Some rp).
  { assert (Hdb : calm d b).
    { clear -He. destruct (rp_of (token_of d)); [|by injection He as <-].
      eapply calmly_run; [|exact He]. repeat (apply calmly_managed || calm_step). }
    destruct (calm_token _ _ _ Hdb Ht') as (t2 & Ht2 & _).
    destruct (calm_token _ _ _ Hcd Ht2) as (t1' & Ht1' & Hd1).
    unfold rp_of. rewrite Ht2. apply (de_rp _ _ Hd1). assert (t1' = t1) as -> by congruence.
    by apply (de_rp _ _ Hd0). }
  rewrite Hbound in He.
  destruct ((sub =? 1) || (sub =? 2)) eqn:H12; [done|]. bool_hyps. split_and!; [done|done|].
  intros Hsub. replace (sub =? 4) with false in He
    by (symmetry; apply Z.eqb_neq; destruct Hsub as [->| ->]; discriminate).
  replace ((sub =? 6) || (sub =? 7)) with true in He by (by destruct Hsub as [->| ->]).
  peel_lift He p Hpar. peel_lift He descriptor Hdes. peel_lift He cid Hid.
  destruct cid as [cid|]; [|done]. peel He e cr Hcr. destruct cr as [cr|]; [|done].
  apply managed_some in Hcr as [Hdisc Hcr]. rewrite Hsd, Hsc in Hcr.
  destruct (bytes_eqb (cr_rp_id cr) rp) eqn:Heq; [|done]. apply bytes_eqb_spec in Heq.
  destruct params as [p'|]; [|done]. injection Hpar as ->.
  exists p, descriptor, cid, cr. by split_and!.
Qed.

(** A token seen verified, of legacy origin and unlimited, one look after the
    other, had been all three at the start. *)
Lemma legacy_ok (a e f g : App) te t2 :
  calm a e -> calm e f -> calm f g ->
  tks_in_use (token_of e) = Some te -> tk_user_verified te = true ->
  origin_of (token_of f) = Some LegacyGetPinToken -> rp_of (token_of g) = None ->
  tks_in_use (token_of g) = Some t2 ->
  exists t, tks_in_use (token_of a) = Some t /\ descends t t2 /\
    tk_origin t = Some LegacyGetPinToken /\ tk_permissions_rp_id t = None /\
    tk_user_verified t = true.
Proof.
  intros Hae Hef Hfg Hte Huv Hor Hrp Ht2.
  destruct (calm_token _ _ _ Hfg Ht2) as (tf & Htf & Hdf).
  destruct (calm_token _ _ _ Hef Htf) as (te' & Hte' & Hdef). assert (te' = te) as -> by congruence.
  destruct (calm_token _ _ _ Hae Hte) as (t & Ht & Hde). exists t.
  assert (Htf' : descends t tf) by (by etrans). assert (Hd : descends t t2) by (by etrans).
  unfold origin_of in Hor. rewrite Htf in Hor. unfold rp_of in Hrp. rewrite Ht2 in Hrp.
  split_and!; try done; [by apply (de_origin_kept _ _ Htf')| |].
  - destruct (tk_permissions_rp_id t) as [rp|] eqn:Hx; [|done].
    apply (de_rp _ _ Hd) in Hx. congruence.
  - destruct (tk_user_verified t) eqn:Hx; [done|]. by rewrite (de_verified _ _ Hde) in Huv.
Qed.

Lemma cm_authorize_ok family sub params p (a b : App) auth :
  cm_authorize family sub params p a = (b, Ok auth) ->
  exists t, tks_in_use (token_of a) = Some t /\ may_manage family t /\ in_scope a sub params t /\
    ea_family auth = family /\ ea_mode auth <> PersistentReadOnly /\ ea_token auth = tk_id t.
Proof.
  unfold cm_authorize. intros Ha. peel Ha c mode Hm.
  peel Ha d oid Hi. apply (query_ok _ _ _ _ _ observing_id) in Hi as (-> & Hcd & _).
  peel_lift Ha token Htok. injection Ha as <- <-.
  destruct (tks_in_use (token_of d)) as [t3|] eqn:Ht3; [|done]. injection Htok as <-.
  destruct (calm_token _ _ _ Hcd Ht3) as (t2 & Ht2 & Hd2). simpl. rewrite (de_id _ _ Hd2).
  assert (Hensure : forall e mode', (ensure_pin_token_permission_for_cm sub params ;;* ret CmPermission) e
      = (c, Ok mode') -> calm a e -> app_store e = app_store a ->
    exists t, tks_in_use (token_of a) = Some t /\ may_manage family t /\ in_scope a sub params t /\
      family = family /\ mode' <> PersistentReadOnly /\ tk_id t2 = tk_id t).
  { intros e mode' He Hae Hse. peel He f u Hf. destruct u. injection He as -> <-.
    destruct (ensure_ok _ _ _ _ _ Hf Ht2) as (t1 & Ht1 & Hd1 & Hp & Hscope).
    destruct (calm_token _ _ _ Hae Ht1) as (t & Ht & Hd). exists t. split_and!; try done.
    - left. by apply (de_permissions _ _ Hd).
    - intros rp Hrp. unfold names_credential_of. rewrite <- Hse. by apply Hscope, (de_rp _ _ Hd).
    - by rewrite (de_id _ _ Hd1), (de_id _ _ Hd). }
  destruct family; [by apply (Hensure _ _ Hm)|].
  peel Hm e verified Hv. apply (query_ok _ _ _ _ _ observing_verified) in Hv as (-> & Hae & Hse & _).
  destruct (tks_in_use (token_of e)) as [te|] eqn:Hte; [|done]. cbn [is_some_and] in Hm.
  destruct (tk_user_verified te) eqn:Huv; [|done]. cbn [negb] in Hm.
  peel Hm f origin Ho. apply (query_ok _ _ _ _ _ observing_origin) in Ho as (-> & Hef & Hsf & _).
  destruct (origin_of (token_of f)) as [[]|] eqn:Hor; [| |done].
  - peel Hm g bound Hb. apply (query_ok _ _ _ _ _ observing_rp) in Hb as (-> & Hfg & _).
    destruct (rp_of (token_of g)) eqn:Hrp; [done|]. injection Hm as <- <-.
    destruct (legacy_ok a e f g te t2) as (t & Ht & Hd & Hto & Hnone & Hver); try done.
    exists t. split_and!; try done; [by right|intros rp; by rewrite Hnone|by rewrite (de_id _ _ Hd)].
  - apply (Hensure _ _ Hm); [by etrans|by rewrite Hsf].
Qed.

(** Authority a token has later it had before. *)
Lemma may_manage_back family t t' : descends t t' -> may_manage family t' -> may_manage family t.
Proof.
  intros Hd [Hm|(Hf & Ho & Hr & Hu)]; [left; by apply (de_permissions _ _ Hd)|].
  right. split_and!; try done; [by apply (de_origin_kept _ _ Hd)| |].
  - destruct (tk_permissions_rp_id t) eqn:Hx; [|done]. apply (de_rp _ _ Hd) in Hx. congruence.
  - destruct (tk_user_verified t) eqn:Hx; [done|]. by rewrite (de_verified _ _ Hd) in Hu.
Qed.

Lemma in_scope_back (a b : App) sub params t t' :
  calm a b -> descends t t' -> in_scope b sub params t' -> in_scope a sub params t.
Proof.
  intros Hc%calm_creds Hd Hsc rp Hrp. destruct (Hsc rp (de_rp _ _ Hd _ Hrp)) as (Hs1 & Hs2 & Hs3).
  split_and!; try done. intros Hsub. unfold names_credential_of in *. rewrite Hc in Hs3.
  by apply Hs3.
Qed.

(** A grant for a subcommand that writes comes from the transient token, and
    from the MAC the request carries. *)
Lemma grant_ok family sub params p m sig (a b : App) auth :
  cm_grant family sub params p m sig a = (b, Ok auth) -> persistent_readable family sub = false ->
  exists t, tks_in_use (token_of a) = Some t /\ tk_protocol t = p /\
    sig = authenticate p (tk_value t) m /\ may_manage family t /\ in_scope a sub params t.
Proof.
  unfold cm_grant. intros Hg Hno. peel Hg c token Ht. rewrite Hno in Hg. cbn [andb] in Hg.
  injection Ht as <- _. peel Hg d u Hv. destruct u.
  pose proof (calmly_run _ _ _ _ (calmly_verify p m sig) Hv) as Had.
  apply verify_param_ok in Hv as (t & t1 & Ht & Hp & Hs & Ht1 & Hd).
  apply cm_authorize_ok in Hg as (t1' & Ht1' & Hm & Hsc & _). assert (t1' = t1) as -> by congruence.
  exists t. split_and!; try done; [by apply (may_manage_back _ _ _ Hd)|by apply (in_scope_back _ _ _ _ _ _ Had Hd)].
Qed.

(** ** What a request can do to the credentials *)

(** The request names the discoverable credential [id]. *)
Definition names_managed (params : Entries) (id : bytes) : Prop :=
  exists descriptor, required_map params (int_key 2) = Ok descriptor /\
    public_key_credential_id descriptor = Ok (Some id) /\ is_discoverable id = true.

Lemma delete_effect params (a b : App) r :
  cm_delete_credential params a = (b, r) ->
  creds (app_store b) = creds (app_store a) \/
  exists id, names_managed params id /\ creds (app_store b) = delete id (creds (app_store a)).
Proof.
  unfold cm_delete_credential. intros Hd.
  pure_step Hd descriptor Hm.
  pure_step Hd cid Hi.
  destruct cid as [cid|]; [|injection Hd as <-; by left].
  destruct (is_discoverable cid) eqn:Hdisc; cbn [negb] in Hd; [|injection Hd as <-; by left].
  unfold mbind_st at 1 in Hd. cbn [reset_enumerations modify_cm modify] in Hd.
  unfold mbind_st, on_store in Hd. cbn [app_store with_cred_mgmt] in Hd.
  destruct (st_delete cid (app_store a)) as [s [deleted|e]] eqn:Hdel; apply creds_delete in Hdel.
  - right. exists cid. split; [by exists descriptor|]. destruct Hdel as [Hdel _].
    by destruct deleted; injection Hd as <- _.
  - injection Hd as <- _. destruct Hdel as [Hdel|Hdel]; [by left|].
    right. exists cid. split; [by exists descriptor|done].
Qed.

Lemma update_effect params (a b : App) r :
  own_ids a -> cm_update_user_information params a = (b, r) ->
  creds (app_store b) = creds (app_store a) \/
  exists id c user name display, names_managed params id /\
    creds (app_store a) !! id = Some c /\ required_map params (int_key 3) = Ok user /\
    structure_bytes user name_id = Ok (cr_user_id c) /\
    non_empty_text user name_name = Ok name /\ non_empty_text user name_display_name = Ok display /\
    creds (app_store b) = <[id := set_user_details c name display]> (creds (app_store a)).
Proof.
  unfold cm_update_user_information. intros Ho Hd.
  pure_step Hd descriptor Hm.
  pure_step Hd cid Hi.
  destruct cid as [cid|]; [|injection Hd as <-; by left].
  pure_step Hd user Hu.
  pure_step Hd uid Hx.
  apply bind_cases in Hd as [[e Hd]|(s1 & oc & Hc & Hd)].
  { apply (calmly_run _ _ _ _ (calmly_managed cid)) in Hd as Hd%calm_creds. by left. }
  pose proof (calmly_run _ _ _ _ (calmly_managed cid) Hc) as Hs1%calm_creds. rewrite <- Hs1.
  destruct oc as [c|]; [|injection Hd as <-; by left]. apply managed_some in Hc as [Hdisc Hc].
  destruct (bytes_eqb (cr_user_id c) uid) eqn:Huid; cbn [negb] in Hd; [|injection Hd as <-; by left].
  apply bytes_eqb_spec in Huid as <-.
  pure_step Hd name Hn.
  pure_step Hd display Hdn.
  unfold mbind_st, reset_enumerations, modify_cm, modify, on_store in Hd.
  cbn [app_store with_cred_mgmt] in Hd. rewrite <- Hs1 in Hc.
  assert (Hid : cr_credential_id c = cid) by (apply Ho; by rewrite <- Hs1).
  destruct (st_put _ _) as [s [u|e]] eqn:Hp; apply creds_put in Hp; injection Hd as <- _;
    cbn [app_store with_store] in *;
    change (cr_credential_id (set_user_details c name display)) with (cr_credential_id c) in Hp;
    rewrite Hid in Hp.
  - destruct Hp as [_ Hp]. rewrite Hc in Hp. right. exists cid, c, user, name, display.
    split; [by exists descriptor|]. by split_and!.
  - destruct Hp as [Hp|(old & Hold & Hp)]; [by left|]. assert (old = c) as -> by congruence.
    right. exists cid, c, user, name, display. split; [by exists descriptor|]. by split_and!.
Qed.

Lemma calmly_execute_read sub params auth :
  sub = GET_CREDS_METADATA \/ sub = ENUMERATE_RPS_BEGIN \/ sub = ENUMERATE_CREDENTIALS_BEGIN ->
  calmly (cm_execute (S := S) sub params auth).
Proof.
  intros Hsub. unfold cm_execute, cm_get_metadata, cm_enumerate_rps_begin,
    cm_enumerate_credentials_begin, discoverable_credentials.
  destruct Hsub as [->|[->| ->]]; cbn; repeat calm_step.
Qed.

(** What a request that changed a credential was: the effect, and the authority
    behind it. *)
Definition credential_written (a b : App) (sub : Z) (params : Entries) (id : bytes) : Prop :=
  (sub = DELETE_CREDENTIAL /\ creds (app_store b) = delete id (creds (app_store a))) \/
  (sub = UPDATE_USER_INFORMATION /\
   exists c user name display, creds (app_store a) !! id = Some c /\
     required_map params (int_key 3) = Ok user /\ structure_bytes user name_id = Ok (cr_user_id c) /\
     non_empty_text user name_name = Ok name /\ non_empty_text user name_display_name = Ok display /\
     creds (app_store b) = <[id := set_user_details c name display]> (creds (app_store a))).

Lemma execute_effect sub params auth (a b : App) r :
  own_ids a -> cm_execute sub params auth a = (b, r) ->
  1 <= sub <= 7 -> sub <> 3 -> sub <> 5 ->
  creds (app_store b) = creds (app_store a) \/
  exists p id, params = Some p /\ names_managed p id /\ credential_written a b sub p id.
Proof.
  intros Ho He Hr H3 H5.
  destruct (decide (sub = 6)) as [->|H6]; [|destruct (decide (sub = 7)) as [->|H7]].
  - unfold cm_execute in He. cbn -[cm_delete_credential] in He.
    destruct params as [p|]; [|injection He as <- _; by left].
    apply then_ret in He as [r' Hd].
    destruct (delete_effect _ _ _ _ Hd) as [Hc|(cid & Hn & Hc)]; [by left|].
    right. exists p, cid. split_and!; [done|done|by left].
  - unfold cm_execute in He. cbn -[cm_update_user_information] in He.
    destruct params as [p|]; [|injection He as <- _; by left].
    apply then_ret in He as [r' Hd].
    destruct (update_effect _ _ _ _ Ho Hd) as [Hc|(cid & c & user & name & display & Hn & Hx)]; [by left|].
    right. exists p, cid. split_and!; [done|done|]. right. split; [done|]. by exists c, user, name, display.
  - left. eapply calm_creds, calmly_run; [|exact He]. apply calmly_execute_read.
    unfold GET_CREDS_METADATA, ENUMERATE_RPS_BEGIN, ENUMERATE_CREDENTIALS_BEGIN. lia.
Qed.

Lemma calm_creds_then {A} (m : M App A Z) a b c r :
  calmly m -> m b = (c, r) -> creds (app_store b) = creds (app_store a) ->
  creds (app_store c) = creds (app_store a).
Proof. intros Hm Hr Hb. apply (calmly_run _ _ _ _ Hm) in Hr as Hr%calm_creds. congruence. Qed.

(** The authenticated subcommands: the credentials stay, or the chain from MAC
    to effect holds. *)
Lemma authenticated_effect family payload map sub params (a b : App) r :
  own_ids a -> cm_authenticated family payload map sub params a = (b, r) ->
  1 <= sub <= 7 -> sub <> 3 -> sub <> 5 ->
  creds (app_store b) = creds (app_store a) \/
  exists p raw param t id, params = Some p /\ map_get map (int_key 4) = Some (VBytes param) /\
    raw_map_value payload 2 = Ok raw /\ tks_in_use (token_of a) = Some t /\
    param = authenticate (tk_protocol t) (tk_value t) (cm_message sub raw) /\
    may_manage family t /\ names_managed p id /\ in_scope a sub params t /\
    credential_written a b sub p id.
Proof.
  intros Ho He Hr H3 H5. unfold cm_authenticated in He.
  pure_step He v Hv. pure_step He u Hu. pure_step He parsed Hp. pure_step He auth Ha.
  destruct (map_get map (int_key 4)) as [v'|] eqn:H4'; [|done]. injection Hv as ->.
  unfold parse_pin_uv_auth_param, bind in Hp. destruct v as [|param| | | | | | |]; try done.
  destruct (parse_required_pin_uv_auth_protocol _) as [protocol|]; [|done].
  injection Hp as <-. injection Ha as <-. cbn [fst snd] in He.
  apply bind_cases in He as [[e He]|(s1 & raw & Hraw & He)].
  { left. eapply calm_creds_then; [|exact He|done]. repeat calm_step. }
  assert (Hs1 : s1 = a) by (by destruct (_ || _); injection Hraw as <-). subst s1.
  apply bind_cases in He as [[e He]|(c & [] & Href & He)].
  { left. by eapply calm_creds_then; [apply calmly_refresh|exact He|]. }
  pose proof (calmly_run _ _ _ _ calmly_refresh Href) as Hac.
  apply bind_cases in He as [[e He]|(d & grant & Hg & He)].
  { left. eapply calm_creds_then; [apply calmly_grant|exact He|apply Hac]. }
  pose proof (calmly_run _ _ _ _ (calmly_grant _ _ _ _ _ _) Hg) as Hcd.
  apply bind_cases in He as [[e He]|(f & [] & Hx & He)].
  { left. eapply calm_creds_then; [apply calmly_enter_context|exact He|]. by rewrite (calm_creds _ _ Hcd), (calm_creds _ _ Hac). }
  pose proof (calmly_run _ _ _ _ (calmly_enter_context _) Hx) as Hdf.
  assert (Haf : calm a f) by (etrans; [exact Hac|]; by etrans).
  destruct (execute_effect _ _ _ _ _ _ (calm_own_ids _ _ Haf Ho) He Hr H3 H5)
    as [Hsame|(p & cid & Hpar & Hn & Hw)]; [left; rewrite Hsame; apply (calm_creds _ _ Haf)|right].
  assert (Hwrites : sub = DELETE_CREDENTIAL \/ sub = UPDATE_USER_INFORMATION)
    by (destruct Hw as [[Hw _]|[Hw _]]; auto).
  apply grant_ok in Hg as (t1 & Ht1 & Htp & Hsig & Hm & Hsc);
    [|unfold persistent_readable; destruct family; by destruct Hwrites as [->| ->]].
  destruct (calm_token _ _ _ Hac Ht1) as (t & Ht & Hd).
  assert (Hraw' : raw_map_value payload 2 = Ok raw).
  { replace ((sub =? GET_CREDS_METADATA) || (sub =? ENUMERATE_RPS_BEGIN)) with false in Hraw
      by (by destruct Hwrites as [->| ->]).
    apply lift_ok in Hraw as [_ Hraw]. destruct (raw_map_value payload 2); [|done]. by injection Hraw as ->. }
  exists p, raw, param, t, cid. split_and!; try done.
  - by rewrite Hsig, <- (de_value _ _ Hd), <- Htp, <- (de_protocol _ _ Hd).
  - by apply (may_manage_back _ _ _ Hd).
  - by apply (in_scope_back _ _ _ _ _ _ Hac Hd).
  - unfold credential_written in *. by rewrite (calm_creds _ _ Haf) in Hw.
Qed.

(** C23: A credential changes only by deleteCredential or updateUserInformation,
    and only on the authority of the token in use.  Whatever a credential
    management request returns, in either command family, either the stored
    credentials are exactly as before, or the request's MAC was the token's,
    over the subcommand and the exact bytes of its parameters; the token had
    the credential management permission (or was an unlimited legacy token, in
    the preview family); the named credential is discoverable and, if the token
    is limited to a relying party, belongs to it; and nothing but that
    credential changed: it is gone, or only its user names are new.  A
    persistent read-only token changes nothing. *)
Theorem credential_changes_authorized family payload (a b : App) r :
  own_ids a ->
  handle_credential_management_family family payload a = (b, r) ->
  creds (app_store b) = creds (app_store a) \/
  exists entries sub params raw param t id,
    request_parameters payload = Ok entries /\ map_get entries (int_key 1) = Some (VInteger sub) /\
    map_get entries (int_key 2) = Some (VMap params) /\
    map_get entries (int_key 4) = Some (VBytes param) /\ raw_map_value payload 2 = Ok raw /\
    tks_in_use (token_of a) = Some t /\
    param = authenticate (tk_protocol t) (tk_value t) (cm_message sub raw) /\
    may_manage family t /\ names_managed params id /\
    (forall rp, tk_permissions_rp_id t = Some rp ->
       exists c, creds (app_store a) !! id = Some c /\ cr_rp_id c = rp) /\
    credential_written a b sub params id.
Proof.
  intros Ho Hh. unfold handle_credential_management_family in Hh.
  apply bind_cases in Hh as [[e Hh]|(a1 & [] & Hf & Hh)].
  { left. by eapply calm_creds_then; [apply calmly_enter_family|exact Hh|]. }
  pose proof (calmly_run _ _ _ _ (calmly_enter_family family) Hf) as Ha1.
  rewrite <- (calm_creds _ _ Ha1). pure_step Hh entries Hmap. pure_step Hh sub Hsub. pure_step Hh params Hpar.
  assert (Hs : map_get entries (int_key 1) = Some (VInteger sub) /\ 1 <= sub <= 7).
  { unfold cm_subcommand in Hsub. destruct (map_get entries (int_key 1)) as [[]|]; try done.
    destruct (_ && _) eqn:Hrange; [|done]. injection Hsub as ->. bool_hyps. by split. }
  destruct Hs as [Hs Hrange]. apply bind_ret in Hh as [r' Hh].
  destruct (Z.eqb_spec sub ENUMERATE_RPS_GET_NEXT_RP) as [|H3].
  { left. eapply calm_creds_then; [|exact Hh|done].
    repeat (apply calmly_refresh_na || apply calmly_rps_next || calm_step). }
  destruct (Z.eqb_spec sub ENUMERATE_CREDENTIALS_GET_NEXT_CREDENTIAL) as [|H5].
  { left. eapply calm_creds_then; [|exact Hh|done].
    repeat (apply calmly_refresh_na || apply calmly_credentials_next || calm_step). }
  destruct (authenticated_effect _ _ _ _ _ _ _ _ (calm_own_ids _ _ Ha1 Ho) Hh Hrange H3 H5)
    as [Hsame|(p & raw & param & t1 & cid & -> & Hpm & Hraw & Ht1 & Hsig & Hm & Hn & Hsc & Hw)];
    [by left|right].
  destruct (calm_token _ _ _ Ha1 Ht1) as (t & Ht & Hd).
  exists entries, sub, p, raw, param, t, cid. split_and!; try done.
  - unfold cm_params in Hpar. destruct (map_get entries (int_key 2)) as [[]|]; try done. by injection Hpar as ->.
  - by rewrite Hsig, (de_value _ _ Hd), (de_protocol _ _ Hd).
  - by apply (may_manage_back _ _ _ Hd).
  - intros rp Hrp. destruct (Hsc rp (de_rp _ _ Hd _ Hrp)) as (_ & _ & Hcase).
    destruct Hcase as (p' & descriptor & id' & c & [= <-] & Hd1 & Hd2 & _ & Hc & Hrpc).
    { destruct Hw as [[Hw _]|[Hw _]]; auto. }
    destruct Hn as (descriptor' & Hn1 & Hn2 & _). assert (descriptor' = descriptor) as -> by congruence.
    assert (id' = cid) as -> by congruence. by exists c.
  - unfold credential_written in *. by rewrite (calm_creds _ _ Ha1) in *.
Qed.

End Authority.

(** ** Sorted, distinct RP IDs *)

Definition bytes_lt (a b : bytes) : Prop := bytes_cmp a b = Lt.

Definition bytes_le (a b : bytes) : Prop := bytes_cmp a b <> Gt.

Lemma bytes_le_cases a b : bytes_le a b -> a = b \/ bytes_lt a b.
Proof.
  unfold bytes_le, bytes_lt. destruct (bytes_cmp a b) eqn:E; [|auto|done].
  apply bytes_cmp_eq in E. auto.
Qed.

#[export] Instance bytes_le_trans : Transitive bytes_le.
Proof.
  intros a b c Hab Hbc. apply bytes_le_cases in Hab as [->|Hab], Hbc as [->|Hbc];
    unfold bytes_le, bytes_lt in *; rewrite ?bytes_cmp_refl; try congruence.
  by rewrite (bytes_cmp_lt_trans _ _ _ Hab Hbc).
Qed.

Lemma insert_bytes_perm x l : insert_bytes x l ≡ₚ x :: l.
Proof.
  induction l as [|y l IH]; simpl; [done|]. destruct (bytes_cmp x y); try done.
  rewrite IH. constructor.
Qed.

Lemma sort_bytes_perm l : sort_bytes l ≡ₚ l.
Proof. induction l as [|x l IH]; simpl; [done|]. by rewrite insert_bytes_perm, IH. Qed.

Lemma insert_bytes_sorted x l : StronglySorted bytes_le l -> StronglySorted bytes_le (insert_bytes x l).
Proof.
  induction 1 as [|y l Hl IH Hy]; simpl; [by repeat constructor|].
  destruct (bytes_cmp x y) eqn:E.
  1,2: assert (Hxy : bytes_le x y) by (unfold bytes_le; congruence);
    constructor; [by constructor|]; constructor; [done|];
    (eapply Forall_impl; [exact Hy|]); intros z Hz; by etrans.
  constructor; [done|]. rewrite insert_bytes_perm. constructor; [|done].
  unfold bytes_le. rewrite bytes_cmp_antisym, E. done.
Qed.

Lemma sort_bytes_sorted l : StronglySorted bytes_le (sort_bytes l).
Proof. induction l as [|x l IH]; simpl; [constructor|]. by apply insert_bytes_sorted. Qed.

Lemma dedup_elem l x : x ∈ dedup l <-> x ∈ l.
Proof.
  induction l as [|y l IH]; [done|]. cbn [dedup]. destruct l as [|z l]; [done|].
  destruct (bytes_eqb y z) eqn:E.
  - apply bytes_eqb_spec in E as ->. rewrite IH, !elem_of_cons. tauto.
  - rewrite (elem_of_cons (dedup _)), IH, (elem_of_cons (z :: l) x y). tauto.
Qed.

Lemma dedup_sorted l : StronglySorted bytes_le l -> StronglySorted bytes_lt (dedup l).
Proof.
  induction 1 as [|y l Hl IH Hy]; [constructor|]. cbn [dedup]. destruct l as [|z l]; [repeat constructor|].
  destruct (bytes_eqb y z) eqn:E; [done|]. constructor; [done|].
  apply Forall_forall. intros x Hx. apply (proj1 (dedup_elem _ _)) in Hx.
  assert (Hyz : bytes_lt y z).
  { apply Forall_cons in Hy as [Hyz _]. apply bytes_le_cases in Hyz as [->|]; [|done].
    by rewrite (proj2 (bytes_eqb_spec z z) eq_refl) in E. }
  apply elem_of_cons in Hx as [->|Hx]; [done|].
  apply StronglySorted_inv in Hl as [_ Hz]. rewrite Forall_forall in Hz.
  apply Hz, bytes_le_cases in Hx as [->|Hx]; [done|]. by eapply bytes_cmp_lt_trans.
Qed.

(** ** Enumerations *)

Section Enumeration.

Context {S : Type} `{Crypto} `{KeyCrypto} `{Ciborium} `{CredentialStore S} `{!CredentialSetLaws S}.

#[local] Abbreviation App := (CtapApp S).

(** The credentials this command manages. *)
Definition managed (a : App) (c : CredentialRecord) : Prop :=
  exists id, creds (app_store a) !! id = Some c /\ is_discoverable (cr_credential_id c) = true.

Lemma filter_sorted {A} (R : A -> A -> Prop) f (l : list A) :
  StronglySorted R l -> StronglySorted R (List.filter f l).
Proof.
  induction 1 as [|x l Hl IH Hx]; simpl; [constructor|]. destruct (f x); [|done].
  constructor; [done|]. apply Forall_forall. intros y Hy.
  rewrite Forall_forall in Hx. apply Hx. apply list_elem_of_In, filter_In in Hy as [Hy _].
  by apply list_elem_of_In.
Qed.

Lemma discoverable_ok (a b : App) l :
  discoverable_credentials a = (b, Ok l) ->
  StronglySorted newest_le l /\ (forall c, c ∈ l <-> managed a c) /\
  app_cred_mgmt_state b = app_cred_mgmt_state a /\ app_pin_state b = app_pin_state a /\
  creds (app_store b) = creds (app_store a).
Proof.
  intros Hd. unfold discoverable_credentials in Hd. peel Hd a1 listed Hl. injection Hd as <- <-.
  unfold stored_credentials, on_store in Hl.
  destruct (st_list (app_store a)) as [s r] eqn:Hs. apply creds_list in Hs as [Hc Hs].
  destruct r as [l|e]; [|done]. injection Hl as <- <-.
  destruct (Hs l eq_refl) as [Hsort Hperm]. split_and!; try done; [by apply filter_sorted|].
  intros c. rewrite list_elem_of_In, filter_In, <- list_elem_of_In, Hperm, list_elem_of_fmap. split.
  - intros [([cid c'] & -> & Hin) Hdisc]. exists cid. split; [|done]. by apply elem_of_map_to_list in Hin.
  - intros (cid & Hin & Hdisc). split; [|done]. exists (cid, c). split; [done|]. by apply elem_of_map_to_list.
Qed.

(** [n] requests for the next RP, whatever each returns. *)
Fixpoint rp_nexts (family : ManagementFamily) (n : nat) (a : App) : App * list (result Entries Z) :=
  match n with
  | O => (a, [])
  | Datatypes.S n' =>
      let (b, r) := cm_enumerate_rps_next family a in
      let (c, rs) := rp_nexts family n' b in (c, r :: rs)
  end.

Definition rp_answer (rp_id : bytes) : result Entries Z :=
  Ok [(VInteger 3, rp_entity rp_id); (VInteger 4, VBytes (cm_hash_rp_id rp_id))].

(** What is left of the enumeration of RPs. *)
Definition rp_cursor (a : App) : list bytes :=
  let s := app_cred_mgmt_state a in
  match cm_rp_auth s with Some _ => drop (cm_rp_index s) (cm_rp_list s) | None => [] end.

(** The authority of a persistent, read-only token, which no clock ends. *)
Definition standing (a : App) (auth : EnumerationAuthorization) (family : ManagementFamily) : Prop :=
  ea_mode auth = PersistentReadOnly /\ family = Standard /\ ea_family auth = Standard /\
  ps_persistent_generation (app_pin_state a) = ea_token auth /\
  is_some_and (persistent_token (app_pin_state a) (ea_protocol auth)) pt_granted = true.

Definition same_cm {A} (m : M App A Z) : Prop :=
  forall a, app_cred_mgmt_state (fst (m a)) = app_cred_mgmt_state a.

Lemma same_cm_bind {A B} (m : M App A Z) (k : A -> M App B Z) :
  same_cm m -> (forall x, same_cm (k x)) -> same_cm (mbind_st m k).
Proof.
  intros Hm Hk a. unfold mbind_st. specialize (Hm a).
  destruct (m a) as [b [x|e]]; simpl in *; [by rewrite Hk|done].
Qed.

Lemma same_cm_query {A} q : same_cm (@token_query S A q).
Proof. apply same_cm_bind; [by intros a|]. intros n a. by destruct (q n _). Qed.

Lemma same_cm_continuation auth family h : same_cm (cm_continuation_authorized (S := S) auth family h).
Proof.
  unfold cm_continuation_authorized.
  repeat match goal with
  | |- same_cm (mbind_st _ _) => apply same_cm_bind; [apply same_cm_query|intros ?]
  | |- same_cm (if ?b then _ else _) => destruct b
  | |- same_cm (match ?x with _ => _ end) => destruct x
  | |- _ => by intros a
  end.
Qed.

Lemma continuation_total auth family h (a : App) :
  exists b v, cm_continuation_authorized auth family h a = (b, Ok v).
Proof.
  destruct (cm_continuation_authorized auth family h a) as [b [v|e]] eqn:E; [eauto|exfalso].
  revert E. unfold cm_continuation_authorized, pin_uv_auth_token_id, app_user_verified_flag,
    app_token_origin, app_permissions_rp_id, app_has_permission, token_query, mbind_st, now.
  repeat case_match; simplify_eq/=; done.
Qed.

(** One request: the enumeration yields its next RP, or is over for good. *)
Lemma rps_next_cases family (a b : App) r :
  cm_enumerate_rps_next family a = (b, r) ->
  (exists rp rest, rp_cursor a = rp :: rest /\ r = rp_answer rp /\ rp_cursor b = rest) \/
  (r = Err CTAP2_ERR_NOT_ALLOWED /\ rp_cursor b = []).
Proof.
  unfold cm_enumerate_rps_next. unfold mbind_st at 1. cbn [gets].
  destruct (continuation_total (cm_rp_auth (app_cred_mgmt_state a)) family None a) as (c & v & Hc).
  pose proof (same_cm_continuation (cm_rp_auth (app_cred_mgmt_state a)) family None a) as Hcm.
  rewrite Hc in Hcm. cbn [fst] in Hcm. unfold mbind_st at 1. rewrite Hc.
  destruct v; cbn [negb]; [|intros [= <- <-]; by right].
  unfold mbind_st at 1. cbn [gets]. rewrite Hcm.
  destruct (cm_rp_list (app_cred_mgmt_state a) !! cm_rp_index (app_cred_mgmt_state a)) as [rp|] eqn:Hl;
    [|intros [= <- <-]; by right].
  destruct (cm_rp_auth (app_cred_mgmt_state a)) as [auth|] eqn:Hau; [|done].
  intros [= <- <-]. left. exists rp, (drop (cm_rp_index (app_cred_mgmt_state a) + 1)
    (cm_rp_list (app_cred_mgmt_state a))).
  unfold rp_cursor. simpl. rewrite Hcm, Hau. split_and!; [|done|done].
  rewrite Nat.add_1_r. by apply drop_S.
Qed.

Lemma rps_next_standing family auth (a b : App) r rp rest :
  standing a auth family -> cm_rp_auth (app_cred_mgmt_state a) = Some auth ->
  rp_cursor a = rp :: rest -> cm_enumerate_rps_next family a = (b, r) ->
  r = rp_answer rp /\ rp_cursor b = rest /\ standing b auth family /\
  cm_rp_auth (app_cred_mgmt_state b) = Some auth.
Proof.
  intros (Hm & Hf & Hef & Hg & Htok) Hau Hc. unfold cm_enumerate_rps_next.
  unfold mbind_st at 1. cbn [gets]. rewrite Hau. unfold mbind_st at 1, cm_continuation_authorized.
  rewrite bool_decide_eq_true_2 by done. cbn [gets].
  rewrite !bool_decide_eq_true_2 by congruence. rewrite (proj2 (Z.eqb_eq _ _) Hg), Htok. cbn [andb negb].
  unfold mbind_st at 1. cbn [gets]. unfold rp_cursor in Hc. rewrite Hau in Hc.
  assert (Hl : cm_rp_list (app_cred_mgmt_state a) !! cm_rp_index (app_cred_mgmt_state a) = Some rp).
  { rewrite <- (Nat.add_0_r (cm_rp_index _)), <- lookup_drop, Hc. done. }
  rewrite Hl. intros [= <- <-]. split_and!; [done| | |done].
  - unfold rp_cursor. simpl. rewrite Hau, Nat.add_1_r.
    rewrite (drop_S _ _ _ Hl) in Hc. by injection Hc.
  - unfold standing. by split_and!.
Qed.

Lemma rp_nexts_prefix family n (a : App) :
  exists k, (k <= Nat.min n (length (rp_cursor a)))%nat /\
    snd (rp_nexts family n a) =
      map rp_answer (take k (rp_cursor a)) ++ repeat (Err CTAP2_ERR_NOT_ALLOWED) (n - k).
Proof.
  revert a. induction n as [|n IH]; intros a; [exists 0%nat; split; [lia|done]|]. cbn [rp_nexts].
  destruct (cm_enumerate_rps_next family a) as [b r] eqn:Hn.
  destruct (rp_nexts family n b) as [c rs] eqn:Hr. cbn [snd].
  destruct (IH b) as (k & Hk & Hrs). rewrite Hr in Hrs. cbn [snd] in Hrs. subst rs.
  apply rps_next_cases in Hn as [(rp & rest & Ha & -> & Hb)|(-> & Hb)].
  - exists (Datatypes.S k). rewrite Ha, Hb in *. simpl in *. split; [lia|done].
  - exists 0%nat. rewrite Hb in *. simpl in *. assert (k = 0)%nat as -> by lia.
    split; [lia|]. by rewrite Nat.sub_0_r.
Qed.

Lemma rp_nexts_standing family auth n (a : App) :
  standing a auth family -> cm_rp_auth (app_cred_mgmt_state a) = Some auth ->
  (n <= length (rp_cursor a))%nat ->
  snd (rp_nexts family n a) = map rp_answer (take n (rp_cursor a)).
Proof.
  revert a. induction n as [|n IH]; intros a Hs Hau Hlen; [done|]. cbn [rp_nexts].
  destruct (rp_cursor a) as [|rp rest] eqn:Hc; [simpl in Hlen; lia|].
  destruct (cm_enumerate_rps_next family a) as [b r] eqn:Hn.
  destruct (rps_next_standing _ _ _ _ _ _ _ Hs Hau Hc Hn) as (-> & Hb & Hsb & Hab).
  specialize (IH b Hsb Hab). rewrite Hb in IH. destruct (rp_nexts family n b) as [c rs].
  simpl in *. rewrite IH by lia. done.
Qed.

(** C24: An enumeration of relying parties returns each RP once, in order, and
    leaves none out.  When enumerateRPsBegin succeeds it announces the number of
    distinct RP IDs of the discoverable credentials and returns the first in
    byte order; the requests that follow return the others one by one, in
    order, up to some point from which every request fails with NOT_ALLOWED.
    Under a granted persistent token, which has no timer, that point is the end:
    all RPs are returned. *)
Theorem rp_enumeration_complete family auth (a b : App) entries :
  cm_enumerate_rps_begin auth a = (b, Ok entries) ->
  exists first rest,
    StronglySorted bytes_lt (first :: rest) /\
    (forall rp, rp ∈ first :: rest <-> exists c, managed a c /\ cr_rp_id c = rp) /\
    entries = [(VInteger 3, rp_entity first); (VInteger 4, VBytes (cm_hash_rp_id first));
               (VInteger 5, VInteger (zlen (first :: rest)))] /\
    (forall n, exists k, (k <= Nat.min n (length rest))%nat /\
       snd (rp_nexts family n b) =
         map rp_answer (take k rest) ++ repeat (Err CTAP2_ERR_NOT_ALLOWED) (n - k)) /\
    (standing a auth family -> snd (rp_nexts family (length rest) b) = map rp_answer rest).
Proof.
  unfold cm_enumerate_rps_begin. intros Hb. peel Hb a1 l Hl.
  apply discoverable_ok in Hl as (_ & Hmem & Hcm & Hpin & _).
  destruct (dedup (sort_bytes (map cr_rp_id l))) as [|first rest] eqn:Hd; [done|].
  injection Hb as <- <-. exists first, rest.
  set (b := with_cred_mgmt _ _).
  assert (Hcur : rp_cursor b = rest) by done.
  split_and!.
  - rewrite <- Hd. apply dedup_sorted, sort_bytes_sorted.
  - intros rp. rewrite <- Hd, dedup_elem, sort_bytes_perm, list_elem_of_In, in_map_iff.
    split; intros (c & Hx & Hy).
    + exists c. split; [|done]. by apply Hmem, list_elem_of_In.
    + exists c. split; [done|]. by apply list_elem_of_In, Hmem.
  - done.
  - intros n. rewrite <- Hcur. apply rp_nexts_prefix.
  - intros Hs. rewrite <- Hcur at 1. rewrite (rp_nexts_standing family auth); [..|done].
    + by rewrite Hcur, firstn_all.
    + unfold standing in *. unfold b. simpl. by rewrite Hpin.
    + done.
Qed.

(** What is left of the enumeration of credentials. *)
Definition credential_cursor (a : App) : list bytes :=
  let s := app_cred_mgmt_state a in
  match cm_credential_auth s with
  | Some _ => drop (cm_credential_index s) (cm_credential_list s)
  | None => []
  end.

Lemma same_cm_stored_credential cid : same_cm (stored_credential (S := S) cid).
Proof. intros a. unfold stored_credential. by destruct (st_get cid (app_store a)) as [s [o|[]]]. Qed.

(** The loop skips what is gone and answers with the first credential left. *)
Lemma next_loop_ok ids (a b : App) entries auth :
  cm_credential_auth (app_cred_mgmt_state a) = Some auth ->
  credential_cursor a = ids -> next_credential_loop ids a = (b, Ok entries) ->
  exists skipped cid rest c, ids = skipped ++ cid :: rest /\
    Forall (fun i => creds (app_store a) !! i = None) skipped /\
    creds (app_store a) !! cid = Some c /\ cm_credential_response c None = Ok entries /\
    credential_cursor b = rest.
Proof.
  revert a. induction ids as [|cid ids IH]; intros a Hau Hcur Hl; [done|]. cbn [next_credential_loop] in Hl.
  peel Hl a1 u Ha1. injection Ha1 as <- _. set (a1 := with_cred_mgmt _ _) in *.
  assert (Hcur1 : credential_cursor a1 = ids).
  { unfold credential_cursor in *. unfold a1. simpl. rewrite Hau in *.
    rewrite <- drop_drop, Hcur. done. }
  peel Hl a2 oc Hs. pose proof (same_cm_stored_credential cid a1) as Hcm. rewrite Hs in Hcm. simpl in Hcm.
  assert (Hcur2 : credential_cursor a2 = ids) by (unfold credential_cursor in *; by rewrite Hcm).
  destruct oc as [c|].
  - apply lift_ok in Hl as [-> Hl]. apply stored_credential_some in Hs.
    exists [], cid, ids, c. by split_and!.
  - pose proof (calmly_run _ _ _ _ (calmly_stored_credential cid) Hs) as Hc2%calm_creds.
    apply stored_credential_none in Hs.
    destruct (IH a2) as (skipped & cid' & rest & c & -> & Hsk & Hc & Hr & Hb); [by rewrite Hcm|done|done|].
    rewrite Hc2 in *. exists (cid :: skipped), cid', rest, c. split_and!; try done. by constructor.
Qed.

(** An enumeration of one RP's credentials returns them newest first.  When
    enumerateCredentialsBegin succeeds, the discoverable credentials whose RP ID
    hashes to the requested value are listed newest first, the response is the
    newest one's with their number, and the others are left to come.  Each
    successful enumerateCredentialsGetNextCredential then answers with the first
    credential left that is still stored, skipping only credentials that are
    gone, and leaves exactly those after it. *)
Theorem credential_enumeration :
  (forall params auth (a b : App) entries,
     cm_enumerate_credentials_begin params auth a = (b, Ok entries) ->
     exists rp_hash first rest,
       required_bytes params (int_key 1) = Ok rp_hash /\
       StronglySorted newest_le (first :: rest) /\
       (forall c, c ∈ first :: rest <-> managed a c /\ cm_hash_rp_id (cr_rp_id c) = rp_hash) /\
       cm_credential_response first (Some (zlen (first :: rest))) = Ok entries /\
       credential_cursor b = map cr_credential_id rest) /\
  (forall family (a b : App) entries,
     cm_enumerate_credentials_next family a = (b, Ok entries) ->
     exists skipped cid rest c,
       credential_cursor a = skipped ++ cid :: rest /\
       Forall (fun i => creds (app_store a) !! i = None) skipped /\
       creds (app_store a) !! cid = Some c /\ cm_credential_response c None = Ok entries /\
       credential_cursor b = rest).
Proof.
  split.
  - intros params auth a b entries Hb. unfold cm_enumerate_credentials_begin in Hb.
    peel_lift Hb rp_hash Hh. peel Hb a1 l Hl. apply discoverable_ok in Hl as (Hsort & Hmem & _).
    destruct (List.filter _ l) as [|first rest] eqn:Hf; [done|].
    peel_lift Hb response Hresp. injection Hb as <- <-.
    exists rp_hash, first, rest. split_and!; try done.
    + rewrite <- Hf. by apply filter_sorted.
    + intros c. rewrite <- Hf, list_elem_of_In, filter_In, <- list_elem_of_In, Hmem, bytes_eqb_spec. done.
  - intros family a b entries Hn. unfold cm_enumerate_credentials_next in Hn.
    peel Hn a0 st Hst. injection Hst as <- <-. peel Hn a1 authorized Hc.
    pose proof (same_cm_continuation _ _ _ a : app_cred_mgmt_state (fst (cm_continuation_authorized
      (cm_credential_auth (app_cred_mgmt_state a)) family
      (Some (cm_credential_rp_hash (app_cred_mgmt_state a))) a)) = _) as Hcm.
    rewrite Hc in Hcm. cbn [fst] in Hcm.
    pose proof (calmly_run _ _ _ _ (calmly_continuation _ _ _) Hc) as Hca%calm_creds.
    destruct authorized; cbn [negb] in Hn; [|done].
    peel Hn a2 st Hst. injection Hst as <- <-.
    destruct (cm_credential_auth (app_cred_mgmt_state a)) as [auth|] eqn:Hau; [|by injection Hc].
    assert (Hcur : credential_cursor a1 = drop (cm_credential_index (app_cred_mgmt_state a1))
              (cm_credential_list (app_cred_mgmt_state a1))).
    { unfold credential_cursor. by rewrite Hcm, Hau. }
    apply (next_loop_ok _ _ _ _ auth) in Hn; [|by rewrite Hcm|done].
    rewrite <- Hcur, Hca in Hn. unfold credential_cursor in Hn |- *. by rewrite Hcm in Hn.
Qed.

(** ** Continuing an enumeration *)

(** The grant [auth] is still in force in [a], for a request of [family] on the
    relying party hashed to [rp_hash]. *)
Definition live_grant (a b : App) (auth : EnumerationAuthorization) (family : ManagementFamily)
    (rp_hash : option bytes) : Prop :=
  ea_family auth = family /\
  match ea_mode auth with
  | PersistentReadOnly => standing b auth family
  | LegacyPreview => family = Preview /\ exists t, tks_in_use (token_of a) = Some t /\
      tk_id t = ea_token auth /\ tk_user_verified t = true /\
      tk_origin t = Some LegacyGetPinToken /\
      (tk_permissions_rp_id t = None \/ tks_in_use (token_of b) = None)
  | CmPermission => exists t, tks_in_use (token_of a) = Some t /\
      tk_id t = ea_token auth /\ tk_user_verified t = true /\
      Z.land (tk_permissions t) PIN_PERMISSION_CM <> 0 /\
      (forall rp, tk_permissions_rp_id t = Some rp ->
         rp_hash = Some (cm_hash_rp_id rp) \/ tks_in_use (token_of b) = None)
  end.

Lemma rp_query_back (a b : App) o t :
  app_permissions_rp_id a = (b, Ok o) -> tks_in_use (token_of a) = Some t ->
  tks_in_use (token_of b) = None \/ (forall rp, tk_permissions_rp_id t = Some rp -> o = Some rp).
Proof.
  intros Hq Ht. apply (query_ok _ _ _ _ _ observing_rp) in Hq as (-> & Hab & _).
  destruct (tks_in_use (token_of b)) as [t'|] eqn:Ht'; [right|by left].
  destruct (calm_token _ _ _ Hab Ht') as (t0 & Ht0 & Hd). assert (t0 = t) as -> by congruence.
  intros rp Hrp. unfold rp_of. rewrite Ht'. by apply (de_rp _ _ Hd).
Qed.

(** The permission and scope look of a permission-bearing token. *)
Lemma cm_scope_ok h (d b : App) t t2 :
  (let* permitted := app_has_permission PIN_PERMISSION_CM in
   if negb permitted then ret false
   else let* bound := app_permissions_rp_id in
        match bound with
        | None => ret true
        | Some binding => ret (is_some_and h (fun h => bytes_eqb (cm_hash_rp_id binding) h))
        end) d = (b, Ok true) ->
  tks_in_use (token_of d) = Some t2 -> descends t t2 ->
  Z.land (tk_permissions t) PIN_PERMISSION_CM <> 0 /\
  (forall rp, tk_permissions_rp_id t = Some rp ->
     h = Some (cm_hash_rp_id rp) \/ tks_in_use (token_of b) = None).
Proof.
  intros Hc Ht2 Hd.
  peel Hc e permitted Hp. apply (query_ok _ _ _ _ _ (observing_permission _)) in Hp as (-> & Hde & _).
  destruct (tks_in_use (token_of e)) as [t3|] eqn:Ht3; [|by injection Hc]. cbn [is_some_and] in Hc.
  destruct (Z.eqb_spec (Z.land (tk_permissions t3) PIN_PERMISSION_CM) 0); [by injection Hc|].
  cbn [negb] in Hc. destruct (calm_token _ _ _ Hde Ht3) as (t2' & Ht2' & Hd3).
  assert (t2' = t2) as -> by congruence. assert (Hdd : descends t t3) by (by etrans).
  split; [by apply (de_permissions _ _ Hdd)|].
  intros rp Hrp. peel Hc f bound Hb. apply rp_query_back with (t := t3) in Hb as [Hn|Hb]; [| |done].
  - right. destruct bound; by injection Hc as <-.
  - rewrite (Hb rp) in Hc by (by apply (de_rp _ _ Hdd)). left. injection Hc as _ Hc.
    destruct h as [h|]; [|done]. simpl in Hc. by apply bytes_eqb_spec in Hc as <-.
Qed.

(** The origin and scope look of a legacy token. *)
Lemma legacy_scope_ok (d b : App) t t2 :
  (let* origin := app_token_origin in
   if negb (bool_decide (origin = Some LegacyGetPinToken)) then ret false
   else let* bound := app_permissions_rp_id in ret (negb (is_some bound))) d = (b, Ok true) ->
  tks_in_use (token_of d) = Some t2 -> descends t t2 ->
  tk_origin t = Some LegacyGetPinToken /\
  (tk_permissions_rp_id t = None \/ tks_in_use (token_of b) = None).
Proof.
  intros Hc Ht2 Hd.
  peel Hc e origin Hor. apply (query_ok _ _ _ _ _ observing_origin) in Hor as (-> & Hde & _).
  destruct (bool_decide _) eqn:Ho; [|by injection Hc]. bool_hyps. cbn [negb] in Hc.
  unfold origin_of in Ho. destruct (tks_in_use (token_of e)) as [t3|] eqn:Ht3; [|done].
  destruct (calm_token _ _ _ Hde Ht3) as (t2' & Ht2' & Hd3).
  assert (t2' = t2) as -> by congruence. assert (Hdd : descends t t3) by (by etrans).
  split; [by apply (de_origin_kept _ _ Hdd)|].
  peel Hc f bound Hb. apply rp_query_back with (t := t3) in Hb as [Hn|Hb]; [| |done].
  - right. by injection Hc as <-.
  - left. destruct (tk_permissions_rp_id t) as [rp|] eqn:Hrp; [|done].
    rewrite (Hb rp) in Hc by (by apply (de_rp _ _ Hdd)). by injection Hc.
Qed.

Lemma continuation_ok auth family h (a b : App) :
  cm_continuation_authorized (Some auth) family h a = (b, Ok true) -> live_grant a b auth family h.
Proof.
  unfold cm_continuation_authorized, live_grant. intros Hc.
  destruct (bool_decide (ea_mode auth = PersistentReadOnly)) eqn:Hm.
  { apply bool_decide_eq_true in Hm. injection Hc as <- Hc. bool_hyps. rewrite Hm. unfold standing.
    by split_and!; try congruence. }
  apply bool_decide_eq_false in Hm.
  destruct (bool_decide (ea_family auth = family)) eqn:Hf; [|by injection Hc]. bool_hyps. split; [done|].
  cbn [negb] in Hc. peel Hc c oid Hi. apply (query_ok _ _ _ _ _ observing_id) in Hi as (-> & Hac & _).
  destruct (bool_decide _) eqn:Hid; [|by injection Hc]. bool_hyps. cbn [negb] in Hc.
  destruct (tks_in_use (token_of c)) as [t1|] eqn:Ht1; [|done]. injection Hid as Hid.
  peel Hc d verified Hv. apply (query_ok _ _ _ _ _ observing_verified) in Hv as (-> & Hcd & _).
  destruct (tks_in_use (token_of d)) as [t2|] eqn:Ht2; [|by injection Hc]. cbn [is_some_and] in Hc.
  destruct (tk_user_verified t2) eqn:Hver; [|by injection Hc]. cbn [negb] in Hc.
  destruct (calm_token _ _ _ Hcd Ht2) as (t1' & Ht1' & Hd2). assert (t1' = t1) as -> by congruence.
  destruct (calm_token _ _ _ Hac Ht1) as (t & Ht & Hd1). assert (Hd : descends t t2) by (by etrans).
  assert (Hver' : tk_user_verified t = true).
  { destruct (tk_user_verified t) eqn:Hx; [done|]. by rewrite (de_verified _ _ Hd) in Hver. }
  assert (Hid' : tk_id t = ea_token auth) by (by rewrite <- (de_id _ _ Hd1)).
  destruct (ea_mode auth) eqn:Hmode; [|done|].
  - destruct (cm_scope_ok _ _ _ t t2 Hc Ht2 Hd) as [Hp Hs]. exists t. by split_and!.
  - destruct (bool_decide (family = Preview)) eqn:Hpre; [|by injection Hc]. bool_hyps. split; [done|].
    cbn [negb] in Hc. destruct (legacy_scope_ok _ _ t t2 Hc Ht2 Hd) as [Ho Hs]. exists t. by split_and!.
Qed.

Lemma live_grant_pin (a b c : App) auth family h :
  app_pin_state b = app_pin_state c -> live_grant a b auth family h -> live_grant a c auth family h.
Proof. intros Hp. unfold live_grant, standing, token_of. by rewrite Hp. Qed.

Lemma next_loop_pin ids (a : App) :
  app_pin_state (fst (next_credential_loop ids a)) = app_pin_state a.
Proof.
  revert a. induction ids as [|cid ids IH]; intros a; [done|]. cbn [next_credential_loop].
  unfold mbind_st. cbn -[stored_credential next_credential_loop].
  set (a1 := with_cred_mgmt _ _). unfold stored_credential.
  destruct (st_get cid (app_store a1)) as [s [[c|]|[]]]; simpl; try done; by rewrite IH.
Qed.

(** An enumeration continues only under the grant that began it.  If
    enumerateRPsGetNextRP or enumerateCredentialsGetNextCredential (which carry
    no MAC) succeeds, an enumeration was begun with a grant in the same command
    family, and that grant is in force: a persistent token of the same
    generation that is still granted, or the very token that began it, in use
    and user-verified, with the credential management permission and, if it is
    limited to a relying party, enumerating that one's credentials (or, in the
    preview family, an unlimited legacy token).  The limit is known to hold
    unless the token's lifetime ran out during the request. *)
Theorem continuation_requires_live_grant family (a b : App) entries :
  (cm_enumerate_rps_next family a = (b, Ok entries) ->
   exists auth, cm_rp_auth (app_cred_mgmt_state a) = Some auth /\ live_grant a b auth family None) /\
  (cm_enumerate_credentials_next family a = (b, Ok entries) ->
   exists auth, cm_credential_auth (app_cred_mgmt_state a) = Some auth /\
     live_grant a b auth family (Some (cm_credential_rp_hash (app_cred_mgmt_state a)))).
Proof.
  split; intros Hn.
  - unfold cm_enumerate_rps_next in Hn. peel Hn a0 auth Hx. injection Hx as <- <-.
    peel Hn a1 authorized Hc. destruct authorized; cbn [negb] in Hn; [|done].
    destruct (cm_rp_auth (app_cred_mgmt_state a)) as [auth|]; [|done].
    exists auth. split; [done|]. apply (live_grant_pin _ a1); [|by apply continuation_ok].
    peel Hn a2 next Hx. injection Hx as <- <-. destruct (_ !! _); [|done]. by injection Hn as <-.
  - unfold cm_enumerate_credentials_next in Hn. peel Hn a0 st Hx. injection Hx as <- <-.
    peel Hn a1 authorized Hc. destruct authorized; cbn [negb] in Hn; [|done].
    destruct (cm_credential_auth (app_cred_mgmt_state a)) as [auth|]; [|done].
    exists auth. split; [done|]. apply (live_grant_pin _ a1); [|by apply continuation_ok].
    peel Hn a2 st Hx. injection Hx as <- <-.
    symmetry. by rewrite <- (next_loop_pin (drop (cm_credential_index (app_cred_mgmt_state a1))
      (cm_credential_list (app_cred_mgmt_state a1))) a1), Hn.
Qed.

End Enumeration.

(** ** Truncated RP IDs *)

Lemma is_char_boundary_end text : is_char_boundary text (length text) = true.
Proof.
  unfold is_char_boundary. destruct (length text =? 0)%nat; [done|].
  rewrite lookup_ge_None_2 by done. by apply Nat.eqb_refl.
Qed.

Lemma boundary_after_spec fuel text start :
  (start <= length text)%nat -> (length text - start <= fuel)%nat ->
  (start <= boundary_after fuel text start <= length text)%nat /\
  is_char_boundary text (boundary_after fuel text start) = true /\
  (is_char_boundary text start = true -> boundary_after fuel text start = start).
Proof.
  revert start. induction fuel as [|fuel IH]; intros start Hs Hf; simpl.
  - assert (start = length text) as -> by lia. by split_and!; [lia..|apply is_char_boundary_end|].
  - destruct (is_char_boundary text start) eqn:E; [by split_and!; try lia|].
    destruct (decide (start = length text)) as [->|Hne]; [by rewrite is_char_boundary_end in E|].
    destruct (IH (S start)) as (Hb & Hc & _); [lia|lia|]. split_and!; [lia|lia|done|done].
Qed.

Lemma ascii_boundary text i :
  Forall (fun b => 0 <= b < 0x80) text -> (i <= length text)%nat -> is_char_boundary text i = true.
Proof.
  intros Ha Hi. unfold is_char_boundary. destruct (i =? 0)%nat; [done|].
  destruct (text !! i) as [b|] eqn:Hb.
  - apply (Forall_lookup_1 _ _ _ _ Ha) in Hb. destruct (Z.leb_spec 0x80 b); [lia|done].
  - apply lookup_ge_None_1 in Hb. apply Nat.eqb_eq. lia.
Qed.

Lemma protocol_prefix_take rp_id :
  exists p, (p <= Nat.min 32 (length rp_id))%nat /\ is_char_boundary rp_id p = true /\
    protocol_prefix rp_id = take p rp_id.
Proof.
  unfold protocol_prefix. destruct (find_byte 58 rp_id) as [colon|] eqn:Hf; [|by exists 0%nat; split; [lia|]].
  assert (Hlt : (colon < length rp_id)%nat).
  { revert colon Hf. induction rp_id as [|x r IH]; intros colon; simpl; [done|].
    destruct (x =? 58); [intros [= <-]; lia|]. destruct (find_byte 58 r) as [c|]; [|done].
    intros [= <-]. specialize (IH c eq_refl). lia. }
  destruct (boundary_before_spec rp_id (Nat.min (colon + 1) 32)) as (Hb & Hc & _).
  eexists. split_and!; [|exact Hc|reflexivity]. unfold MAX_RETURNED_RP_ID_LENGTH in *. lia.
Qed.

(** An RP ID is returned whole or cut to at most 32 bytes without splitting
    a character: an identifier of up to 32 bytes is unchanged; a longer one
    becomes a beginning of it (its protocol part) and, if there is room, an
    ellipsis and an end of it, each cut at a character boundary.  An ASCII
    identifier with room for the ellipsis gives exactly 32 bytes. *)
Theorem truncated_rp_id_bounded rp_id :
  (length (truncated_rp_id rp_id) <= 32)%nat /\
  ((length rp_id <= 32)%nat -> truncated_rp_id rp_id = rp_id) /\
  ((32 < length rp_id)%nat -> exists p q,
     is_char_boundary rp_id p = true /\ is_char_boundary rp_id q = true /\
     (p <= 32)%nat /\ (q <= length rp_id)%nat /\
     truncated_rp_id rp_id = take p rp_id ++ (if (p <=? 29)%nat then ELLIPSIS ++ drop q rp_id else []) /\
     (Forall (fun b => 0 <= b < 0x80) rp_id -> (p <= 29)%nat -> length (truncated_rp_id rp_id) = 32%nat)).
Proof.
  unfold truncated_rp_id. change MAX_RETURNED_RP_ID_LENGTH with 32%nat.
  destruct (Nat.leb_spec (length rp_id) 32) as [Hle|Hgt]; [by split_and!; [lia|..]; [|lia]|].
  destruct (protocol_prefix_take rp_id) as (p & Hp & Hbp & ->). cbv zeta.
  assert (Hlp : length (take p rp_id) = p) by (rewrite length_take; lia).
  rewrite length_app, Hlp. change (length ELLIPSIS) with 3%nat.
  set (start := (length rp_id - (32 - (p + 3)))%nat).
  destruct (boundary_after_spec (length rp_id - start) rp_id start) as (Hq & Hbq & Hasc); [lia|lia|].
  set (q := boundary_after _ _ _) in *.
  destruct (Nat.leb_spec 3 (32 - p)) as [Hroom|Hno].
  - rewrite <- app_assoc. split_and!; [|lia|intros _].
    + rewrite !length_app, Hlp, length_drop. change (length ELLIPSIS) with 3%nat. lia.
    + exists p, q. rewrite (proj2 (Nat.leb_le p 29)) by lia. split_and!; try done; [lia|lia|].
      intros Ha _. rewrite Hasc in * by (apply ascii_boundary; [done|lia]).
      rewrite !length_app, Hlp, length_drop. change (length ELLIPSIS) with 3%nat. lia.
  - rewrite Hlp. split_and!; [lia|lia|intros _]. exists p, 0%nat.
    rewrite (proj2 (Nat.leb_gt p 29)) by lia. rewrite app_nil_r. split_and!; try done; lia.
Qed.

(** ** The PIN state *)

Section PinState.

Context {S : Type} `{Crypto} `{KeyCrypto} `{Ciborium} `{CredentialStore S} `{!PinStoreLaws S}.

#[local] Hint Extern 1 (same_view (on_store (st_delete _) _)) =>
  apply same_view_on_store, pin_delete : views.
#[local] Hint Extern 1 (same_view (on_store (st_put _) _)) =>
  apply same_view_on_store, pin_put : views.

Lemma same_view_modify_cm f : same_view (S := S) (modify_cm f).
Proof. by intros a. Qed.

#[local] Hint Resolve same_view_modify_cm : views.

Lemma same_view_next_loop ids : same_view (S := S) (next_credential_loop ids).
Proof. induction ids as [|cid ids IH]; cbn [next_credential_loop]; repeat (apply IH || same_view_step). Qed.

Lemma same_view_continuation auth family h :
  same_view (S := S) (cm_continuation_authorized auth family h).
Proof.
  unfold cm_continuation_authorized, pin_uv_auth_token_id, app_user_verified_flag, app_token_origin,
    app_permissions_rp_id, app_has_permission. repeat same_view_step.
Qed.

Lemma same_view_ensure sub params :
  same_view (S := S) (ensure_pin_token_permission_for_cm sub params).
Proof.
  unfold ensure_pin_token_permission_for_cm, managed_credential, app_permissions_rp_id.
  repeat same_view_step.
Qed.

Lemma same_view_grant family sub params p m sig :
  same_view (S := S) (cm_grant family sub params p m sig).
Proof.
  unfold cm_grant, cm_authorize, app_user_verified_flag, app_token_origin, app_permissions_rp_id.
  repeat (apply same_view_ensure || same_view_step).
Qed.

Lemma same_view_execute sub params auth : same_view (S := S) (cm_execute sub params auth).
Proof.
  unfold cm_execute, cm_get_metadata, cm_enumerate_rps_begin, cm_enumerate_credentials_begin,
    discoverable_credentials, cm_delete_credential, cm_update_user_information, managed_credential,
    reset_enumerations.
  repeat same_view_step.
Qed.

Lemma keeps_refresh_na : keeps (S := S) pin_inv refresh_or_not_allowed.
Proof.
  intros a Hi. unfold refresh_or_not_allowed. pose proof (keeps_refresh a Hi) as Hk.
  by destruct (refresh_persistent_authority a).
Qed.

Lemma keeps_cred_mgmt family payload :
  keeps (S := S) pin_inv (handle_credential_management_family family payload).
Proof.
  unfold handle_credential_management_family, cm_enter_family, cm_authenticated, cm_enter_context,
    cm_enumerate_rps_next, cm_enumerate_credentials_next.
  repeat (apply keeps_refresh_na
    || (apply keeps_same_view; [apply pin_inv_view|];
        (apply same_view_continuation || apply same_view_next_loop || apply same_view_grant
         || apply same_view_execute))
    || keeps_step).
Qed.

End PinState.

(** ** Concrete runs *)

Module CredMgmtWitness.

#[local] Opaque fresh_engine engine_with_pin engine_with_token agreed seal_for.

Ltac run := vm_compute; reflexivity.

(** Two discoverable credentials of "a.b" and one of "c.d". *)
Definition record_for (rp : bytes) (id_byte user : Z) : CredentialRecord := {|
  cr_credential_id := 1 :: repeat id_byte 32; cr_rp_id := rp; cr_user_id := [user];
  cr_user_name := None; cr_user_display_name := None; cr_alg := ES256;
  cr_private_key := P256Scalar (repeat 7 32);
  cr_cred_random_with_uv := repeat 1 32; cr_cred_random_without_uv := repeat 2 32;
  cr_cred_blob := None; cr_large_blob_key := None; cr_third_party_payment := false;
  cr_cred_protect := 1; cr_sign_count := 0; cr_created_at := 0 |}.

Definition rp_ab : bytes := [97; 46; 98].

Definition rp_cd : bytes := [99; 46; 100].

Definition stored : MemoryStore :=
  fst (ms_put (record_for rp_cd 12 7) (fst (ms_put (record_for rp_ab 11 6)
    (fst (ms_put (record_for rp_ab 10 5) (app_store engine_with_token)))))).

Definition managing_engine : CtapApp MemoryStore := with_store engine_with_token stored.

Lemma managing_own_ids : own_ids managing_engine.
Proof.
  assert (Hall : map_Forall (fun id c => cr_credential_id c = id) (ms_credentials stored))
    by (apply (bool_decide_unpack _); vm_compute; exact I).
  intros id c Hc. by apply Hall in Hc.
Qed.

(** deleteCredential of the first credential, authenticated by the token. *)
Definition delete_params : Entries :=
  [(VInteger 2, VMap [(VText name_id, VBytes (1 :: repeat 10 32)); (VText name_type, VText PUBLIC_KEY)])].

Definition delete_payload : bytes :=
  into_writer (VMap [(VInteger 1, VInteger 6); (VInteger 2, VMap delete_params);
    (VInteger 3, VInteger 2);
    (VInteger 4, VBytes (authenticate V2 issued_token
       (cm_message 6 (Some (into_writer (VMap delete_params))))))]).

Definition delete_run : CtapApp MemoryStore * result bytes Z :=
  handle_credential_management_family Standard delete_payload managing_engine.

Lemma credential_changes_authorized_witness :
  snd delete_run = Ok [CTAP2_OK] /\
  ms_credentials (app_store (fst delete_run)) !! (1 :: repeat 10 32) = None /\
  exists t, tks_in_use (token_of managing_engine) = Some t /\ may_manage Standard t.
Proof.
  assert (Hs : snd delete_run = Ok [CTAP2_OK]) by run. split; [exact Hs|].
  assert (Hn : ms_credentials (app_store (fst delete_run)) !! (1 :: repeat 10 32) = None) by run.
  split; [exact Hn|].
  pose proof (run_result delete_run _ Hs) as Hr. unfold delete_run at 1 in Hr.
  destruct (credential_changes_authorized Standard delete_payload managing_engine (fst delete_run) _
    managing_own_ids Hr) as [Hsame|Hauth].
  - exfalso.
    assert (Hb : is_some (ms_credentials (app_store managing_engine) !! (1 :: repeat 10 32)) = true) by run.
    pose proof (f_equal (fun m : gmap bytes CredentialRecord => m !! (1 :: repeat 10 32)) Hsame) as He.
    cbn [creds MemoryCredentialSetLaws] in He. rewrite Hn in He. rewrite <- He in Hb. discriminate Hb.
  - destruct Hauth as (entries & sub & params & raw & param & t & cid & _ & _ & _ & _ & _ & Ht & _ & Hm & _).
    exists t. split; [exact Ht|exact Hm].
Defined.

Definition some_auth : EnumerationAuthorization := {|
  ea_family := Standard; ea_token := 1; ea_protocol := V2; ea_mode := CmPermission |}.

Definition rps_run : CtapApp MemoryStore * result Entries Z :=
  cm_enumerate_rps_begin some_auth managing_engine.

Definition rps_entries : Entries :=
  [(VInteger 3, rp_entity rp_ab); (VInteger 4, VBytes (cm_hash_rp_id rp_ab));
   (VInteger 5, VInteger 2)].

Lemma rp_enumeration_complete_witness :
  snd rps_run = Ok rps_entries /\
  exists first rest, StronglySorted bytes_lt (first :: rest) /\ zlen (first :: rest) = 2.
Proof.
  assert (Hs : snd rps_run = Ok rps_entries) by run. split; [exact Hs|].
  pose proof (run_result rps_run _ Hs) as Hr. unfold rps_run at 1 in Hr.
  destruct (rp_enumeration_complete Standard some_auth managing_engine (fst rps_run) _ Hr) as (first & rest & Hsort & _ & He & _).
  exists first, rest. split; [exact Hsort|].
  exact (eq_sym (f_equal (fun e => match e with
    | [_; _; (_, VInteger n)] => n | _ => 0 end) He)).
Defined.

Definition next_run : CtapApp MemoryStore * result Entries Z :=
  cm_enumerate_rps_next Standard (fst rps_run).

Lemma continuation_requires_live_grant_witness :
  snd next_run = rp_answer rp_cd /\
  exists auth, cm_rp_auth (app_cred_mgmt_state (fst rps_run)) = Some auth /\
    live_grant (fst rps_run) (fst next_run) auth Standard None.
Proof.
  assert (Hs : snd next_run = rp_answer rp_cd) by run. split; [exact Hs|].
  pose proof (run_result next_run _ Hs) as Hr. unfold next_run at 1, rp_answer in Hr.
  exact (proj1 (continuation_requires_live_grant Standard (fst rps_run) (fst next_run) _) Hr).
Defined.

Definition hash_params : Entries := [(VInteger 1, VBytes (cm_hash_rp_id rp_ab))].

Definition credentials_run : CtapApp MemoryStore * result Entries Z :=
  cm_enumerate_credentials_begin hash_params some_auth managing_engine.

Lemma credential_enumeration_witness :
  is_ok (snd credentials_run) = true /\
  exists first rest, StronglySorted newest_le (first :: rest) /\
    credential_cursor (fst credentials_run) = map cr_credential_id rest.
Proof.
  assert (Hs : is_ok (snd credentials_run) = true) by run. split; [exact Hs|].
  destruct (is_ok_exists _ Hs) as [entries He].
  pose proof (run_result credentials_run _ He) as Hr. unfold credentials_run at 1 in Hr.
  destruct (proj1 credential_enumeration _ _ _ _ _ Hr)
    as (h & first & rest & _ & Hsort & _ & _ & Hcur).
  exists first, rest. split; [exact Hsort|exact Hcur].
Defined.

(** A used token limited to "a.b", issued at 0, and a clock that passes the end
    of its lifetime between the third and the fourth reading. *)
Definition limited_token : InUseToken := {|
  tk_value := repeat 1 32; tk_protocol := V2; tk_origin := Some PermissionBearing;
  tk_permissions := PIN_PERMISSION_CM; tk_permissions_rp_id := Some rp_ab; tk_started_at := 0;
  tk_id := 1; tk_used := true; tk_user_present := false; tk_user_verified := true |}.

Definition engine_at (clock : nat -> Z) : CtapApp MemoryStore :=
  with_world
    (with_pin_state managing_engine
       (with_token (app_pin_state managing_engine)
          {| tks_in_use := Some limited_token; tks_issued := 1 |}))
    {| w_clock := clock; w_clock_reads := 0; w_rng := w_rng world; w_rng_draws := 0;
       w_cancelled := w_cancelled world; w_confirm := w_confirm world; w_asks := 0;
       w_os := w_os world; w_os_uses := 0 |}.

(** The permission and the RP limit are looked up under separate clock readings.
    A limited token may not continue an enumeration of RPs; but if it expires
    just between the two readings, its limit reads as absent and the request
    goes through once. *)
Lemma expiring_token_loses_its_limit :
  snd (cm_continuation_authorized (Some some_auth) Standard None
         (engine_at (fun _ => from_secs 599))) = Ok false /\
  snd (cm_continuation_authorized (Some some_auth) Standard None
         (engine_at (fun n => from_secs (if (n <? 3)%nat then 599 else 600)))) = Ok true.
Proof. split; run. Qed.

End CredMgmtWitness.
