(* ===== verification/SealedId.v ===== *)
(** * Credentials sealed into their IDs ([ctap/credential_id.rs])

    A non-discoverable credential whose key fits is sealed by the store into
    its own ID, bound to the hash of its RP ID; looking an ID up opens it or
    finds the stored record, and only for the RP it belongs to. *)

From Stdlib Require Import Strings.String.
From S2P Require Import Prelude Constants Alg Crypto ConcreteCrypto Cbor Records.
From S2P Require Import PinRetry Token Presence Store StoreProofs CredentialKey Engine ConcreteCbor.
From S2P Require Import EngineProofs ClientPin Scenario.

(** ** Field updates of a record *)

Definition set_cred_randoms (r : CredentialRecord) (with_uv without_uv : bytes)
    : CredentialRecord := {|
  cr_credential_id := cr_credential_id r; cr_rp_id := cr_rp_id r;
  cr_user_id := cr_user_id r; cr_user_name := cr_user_name r;
  cr_user_display_name := cr_user_display_name r; cr_alg := cr_alg r;
  cr_private_key := cr_private_key r;
  cr_cred_random_with_uv := with_uv; cr_cred_random_without_uv := without_uv;
  cr_cred_blob := cr_cred_blob r; cr_large_blob_key := cr_large_blob_key r;
  cr_third_party_payment := cr_third_party_payment r;
  cr_cred_protect := cr_cred_protect r; cr_sign_count := cr_sign_count r;
  cr_created_at := cr_created_at r |}.

Definition set_rp_id (r : CredentialRecord) (v : bytes) : CredentialRecord := {|
  cr_credential_id := cr_credential_id r; cr_rp_id := v;
  cr_user_id := cr_user_id r; cr_user_name := cr_user_name r;
  cr_user_display_name := cr_user_display_name r; cr_alg := cr_alg r;
  cr_private_key := cr_private_key r;
  cr_cred_random_with_uv := cr_cred_random_with_uv r;
  cr_cred_random_without_uv := cr_cred_random_without_uv r;
  cr_cred_blob := cr_cred_blob r; cr_large_blob_key := cr_large_blob_key r;
  cr_third_party_payment := cr_third_party_payment r;
  cr_cred_protect := cr_cred_protect r; cr_sign_count := cr_sign_count r;
  cr_created_at := cr_created_at r |}.

(** ** The sealed form *)

Definition SEALED_ID_CONTEXT : bytes := Eval cbv in ascii_bytes "pqkey/v2/sealed-credential-id".

Definition INFO_WITH_UV : bytes :=
  Eval cbv in ascii_bytes "pqkey/v2/sealed-credential/cred-random-with-uv".

Definition INFO_WITHOUT_UV : bytes :=
  Eval cbv in ascii_bytes "pqkey/v2/sealed-credential/cred-random-without-uv".

Definition sealed_associated_data (rp_id_hash : bytes) : bytes := SEALED_ID_CONTEXT ++ rp_id_hash.

(** [i8::try_from] and [as i8]. *)
Definition i8_try_from (v : Z) : option Z := if (-128 <=? v) && (v <=? 127) then Some v else None.

Definition as_i8 (b : Z) : Z := if b <? 128 then b else b - 256.

Section SealedId.

Context {S : Type} `{Crypto} `{CredentialStore S}.

#[local] Abbreviation App := (CtapApp S).

(** HMAC takes keys of any length, so the derivation cannot fail. *)
Definition derive_sealed_cred_randoms (r : CredentialRecord) (seed : bytes) : CredentialRecord :=
  set_cred_randoms r (hkdf_sha256 seed INFO_WITH_UV) (hkdf_sha256 seed INFO_WITHOUT_UV).

(** The record a sealed plaintext describes, before its CredRandom values. *)
Definition sealed_record (credential_id rp_id : bytes) (alg : CoseAlg) (key : PrivateKeyMaterial)
    (cred_protect : Z) : CredentialRecord := {|
  cr_credential_id := credential_id; cr_rp_id := rp_id; cr_user_id := [];
  cr_user_name := None; cr_user_display_name := None; cr_alg := alg; cr_private_key := key;
  cr_cred_random_with_uv := repeat 0 32; cr_cred_random_without_uv := repeat 0 32;
  cr_cred_blob := None; cr_large_blob_key := None; cr_third_party_payment := false;
  cr_cred_protect := cred_protect; cr_sign_count := 0; cr_created_at := 0 |}.

Definition sealed_credential (credential_id rp_id plaintext : bytes) : option CredentialRecord :=
  match plaintext with
  | alg :: cred_protect :: rest =>
      if negb (length rest =? SEALED_KEY_LENGTH + 32)%nat then None
      else
        let key := take SEALED_KEY_LENGTH rest in
        let seed := drop SEALED_KEY_LENGTH rest in
        match alg_try_from (as_i8 alg) with
        | Err _ => None
        | Ok alg =>
            if negb (is_sealable alg) then None
            else
              match private_key_from_bytes (key_kind alg) key with
              | Err _ => None
              | Ok private_key =>
                  let credential := derive_sealed_cred_randoms
                    (sealed_record credential_id rp_id alg private_key cred_protect) seed in
                  match validate_credential credential with
                  | Ok _ => Some credential
                  | Err _ => None
                  end
              end
        end
  | _ => None
  end.

(** [CtapApp::new_credential_id]. *)
Definition app_new_credential_id (discoverable : bool) : M App bytes Z :=
  let* random := random_array 32 in ret (new_credential_id discoverable random).

(** The record with its derived CredRandom values, and the ID. *)
Definition seal_credential (record : CredentialRecord) (key rp_id_hash : bytes)
    : M App (CredentialRecord * bytes) Z :=
  if cr_third_party_payment record || negb (is_sealable (cr_alg record)) then fail CTAP2_ERR_PROCESSING
  else
    let* alg := lift (ok_or (i8_try_from (identifier (cr_alg record))) CTAP2_ERR_PROCESSING) in
    let* seed := random_array 32 in
    let record := derive_sealed_cred_randoms record seed in
    let plaintext := [alg mod 256; cr_cred_protect record] ++ key ++ seed in
    let* sealed := on_store (st_seal_credential_id plaintext (sealed_associated_data rp_id_hash))
                     store_status in
    if negb (length sealed =? SEALED_ID_LENGTH - 1)%nat then fail CTAP2_ERR_PROCESSING
    else ret (record, SEALED_MARKER :: sealed).

Definition credential_for_hash (credential_id rp_id_hash : bytes)
    : M App (option CredentialRecord) Z :=
  if negb (is_sealed credential_id) then
    let* credential := stored_credential credential_id in
    ret (match credential with
         | Some c => if bytes_eqb (sha256 (cr_rp_id c)) rp_id_hash then Some c else None
         | None => None
         end)
  else
    let* opened := on_store (st_open_credential_id (drop 1 credential_id)
                               (sealed_associated_data rp_id_hash)) store_status in
    ret (match opened with
         | Some plaintext => sealed_credential credential_id [] plaintext
         | None => None
         end).

Definition credential_for_rp (credential_id rp_id : bytes) : M App (option CredentialRecord) Z :=
  let* credential := credential_for_hash credential_id (sha256 rp_id) in
  ret (match credential with
       | Some r =>
           if is_sealed credential_id then Some (set_rp_id r rp_id)
           else if negb (bytes_eqb (cr_rp_id r) rp_id) then None
           else Some r
       | None => None
       end).

(** ** Facts *)

Lemma as_i8_identifier alg : is_sealable alg = true -> as_i8 (identifier alg mod 256) = identifier alg.
Proof. by destruct alg. Qed.

Lemma i8_try_from_identifier alg : is_sealable alg = true -> i8_try_from (identifier alg) = Some (identifier alg).
Proof. by destruct alg. Qed.

(** A sealed ID has the sealed form, and only the CredRandom values of the
    record are set. *)
Lemma seal_credential_form r key h (a b : App) r' id :
  seal_credential r key h a = (b, Ok (r', id)) ->
  is_sealed id = true /\ exists seed, r' = derive_sealed_cred_randoms r seed.
Proof.
  unfold seal_credential. destruct (_ || _); [done|]. intros Hs.
  peel_lift Hs alg Halg. peel Hs a1 seed Hseed. peel Hs a2 sealed Hst.
  destruct (negb (length sealed =? _)%nat) eqn:Hl; [done|]. injection Hs as <- <- <-. bool_hyps.
  apply Nat.eqb_eq in Hl. split; [|by exists seed].
  unfold is_sealed. cbn [length first_byte_is]. by rewrite Hl, Z.eqb_refl.
Qed.

(** What a lookup returns belongs to the RP and carries the ID asked for; a
    stored one is the store's record. *)
Lemma credential_for_rp_some `{!CredentialSetLaws S} id rp (a b : App) c :
  (forall k r, creds (app_store a) !! k = Some r -> cr_credential_id r = k) ->
  credential_for_rp id rp a = (b, Ok (Some c)) ->
  cr_rp_id c = rp /\ cr_credential_id c = id /\
  (is_sealed id = false -> creds (app_store a) !! id = Some c).
Proof.
  intros Hown Hc. unfold credential_for_rp in Hc. peel Hc a1 o Ho. injection Hc as <- Hc.
  destruct o as [r|]; [|done]. unfold credential_for_hash in Ho.
  destruct (is_sealed id) eqn:Hs; cbn [negb] in Ho.
  - injection Hc as <-. peel Ho a2 opened Hop. injection Ho as <- Ho.
    destruct opened as [p|]; [|done]. unfold sealed_credential in Ho.
    repeat case_match; simplify_eq. split_and!; done.
  - destruct (bytes_eqb (cr_rp_id r) rp) eqn:He; [|done]. injection Hc as <-. cbn [negb] in *.
    apply bytes_eqb_spec in He. peel Ho a2 o2 Hst. injection Ho as <- Ho. destruct o2 as [r2|]; [|done].
    destruct (bytes_eqb (sha256 (cr_rp_id r2)) _); [|done]. injection Ho as ->.
    unfold stored_credential in Hst. destruct (st_get id (app_store a)) as [s [v|e]] eqn:Hg;
      apply creds_get in Hg as [_ Hg].
    + injection Hst as <- ->. split_and!; [done|by eapply Hown|by intros _].
    + by destruct e.
Qed.

(** A stored credential of the RP is found. *)
Lemma credential_for_rp_found `{!CredentialSetLaws S} id (a b : App) o c :
  is_sealed id = false -> creds (app_store a) !! id = Some c ->
  credential_for_rp id (cr_rp_id c) a = (b, Ok o) -> o = Some c.
Proof.
  intros Hs Hc. unfold credential_for_rp, credential_for_hash. rewrite Hs. cbn [negb]. intros Hr.
  peel Hr a1 o1 H1. peel H1 a2 o2 Hst. injection H1 as _ <-. injection Hr as _ <-.
  assert (o2 = Some c) as ->.
  { unfold stored_credential in Hst. destruct (st_get id (app_store a)) as [s [v|e]] eqn:Hg;
      apply creds_get in Hg as [_ Hg].
    - injection Hst as _ ->. congruence.
    - destruct e; try done. congruence. }
  rewrite !(proj2 (bytes_eqb_spec _ _) eq_refl). cbn [negb]. done.
Qed.

(** The plaintext of a usable credential describes it. *)
Lemma sealed_credential_describes id rp r seed :
  is_sealed id = true -> length seed = 32%nat ->
  is_sealable (cr_alg r) = true ->
  private_key_kind (cr_private_key r) = key_kind (cr_alg r) -> key_sized (cr_private_key r) ->
  (forall k, cr_private_key r = P256Scalar k -> p256_scalar_valid k = true) ->
  1 <= cr_cred_protect r <= 3 ->
  sealed_credential id rp
    ([identifier (cr_alg r) mod 256; cr_cred_protect r] ++ private_key_bytes (cr_private_key r) ++ seed) =
  Some (derive_sealed_cred_randoms
          (sealed_record id rp (cr_alg r) (cr_private_key r) (cr_cred_protect r)) seed).
Proof.
  intros Hid Hseed Hal Hk Hsz Hp Hcp. simpl.
  assert (Hl : length (private_key_bytes (cr_private_key r)) = 32%nat).
  { destruct (cr_private_key r); simpl in *; try done. by destruct (cr_alg r). }
  rewrite length_app, Hl, Hseed. simpl. rewrite as_i8_identifier, alg_try_from_identifier, Hal by done.
  simpl. rewrite take_app_length', drop_app_length' by done.
  assert (Hfrom : private_key_from_bytes (key_kind (cr_alg r)) (private_key_bytes (cr_private_key r))
                  = Ok (cr_private_key r)).
  { rewrite <- Hk. destruct (cr_private_key r); simpl in *; by rewrite Hsz. }
  rewrite Hfrom. set (c := derive_sealed_cred_randoms _ seed).
  assert (Hv : validate_credential c = Ok tt); [|by rewrite Hv].
  unfold validate_credential, check_credential, c, derive_sealed_cred_randoms, set_cred_randoms, sealed_record.
  cbn [cr_credential_id cr_alg cr_private_key cr_third_party_payment cr_cred_blob cr_large_blob_key cr_cred_protect].
  destruct id as [|x id]; [done|]. cbn [length Nat.eqb]. rewrite Hid, Hal. cbn [negb andb].
  rewrite bool_decide_eq_true_2 by done. cbn [negb].
  assert (Hin : in_range 1 3 (cr_cred_protect r) = true) by (by apply in_range_spec).
  destruct (cr_private_key r) as [k|k|k]; cbn [bind is_some_and is_some andb];
    [rewrite (Hp k eq_refl); cbn [negb bind]; by rewrite Hin|by rewrite Hin|by destruct (cr_alg r)].
Qed.

(** What sealing needs of a credential. *)
Record sealable_record (r : CredentialRecord) : Prop := {
  sr_kind : private_key_kind (cr_private_key r) = key_kind (cr_alg r);
  sr_sized : key_sized (cr_private_key r);
  sr_valid : forall k, cr_private_key r = P256Scalar k -> p256_scalar_valid k = true;
  sr_protect : 1 <= cr_cred_protect r <= 3
}.

(** The credential a sealed ID carries for a relying party. *)
Definition unsealed (r r' : CredentialRecord) (rp id : bytes) : CredentialRecord :=
  set_cred_randoms (sealed_record id rp (cr_alg r) (cr_private_key r) (cr_cred_protect r))
    (cr_cred_random_with_uv r') (cr_cred_random_without_uv r').

(** Until a reset, a sealed ID opens to the credential. *)
Lemma sealed_for_hash `{!SealStoreLaws S} (r r' : CredentialRecord) (h id : bytes)
    (a a' b c : App) calls res :
  sealable_record r ->
  seal_credential r (private_key_bytes (cr_private_key r)) h a = (a', Ok (r', id)) ->
  Forall (fun c => c <> SClear) calls -> app_store b = run_calls calls (app_store a') ->
  credential_for_hash id h b = (c, res) ->
  match res with Ok found => found = Some (unsealed r r' [] id) | Err _ => True end.
Proof.
  intros [Hk Hsz Hp Hcp] Hseal Hcalls Hb Hres.
  pose proof (seal_credential_form _ _ _ _ _ _ _ Hseal) as [Hid _]. unfold seal_credential in Hseal.
  destruct (cr_third_party_payment r || _) eqn:Hg; [done|]. bool_hyps.
  rewrite i8_try_from_identifier in Hseal by done.
  peel_lift Hseal alg Halg. injection Halg as <-. peel Hseal a1 seed Hseed. injection Hseed as <- Hseed.
  peel Hseal a2 sealed Hst. unfold on_store in Hst.
  destruct (st_seal_credential_id _ _ _) as [s [v|e]] eqn:Hs; [|done]. injection Hst as <- <-.
  apply seal_opens in Hs as [Hlen Hopen]. cbn [app] in Hlen.
  destruct (negb (length v =? _)%nat); [done|]. injection Hseal as <- <- <-.
  unfold credential_for_hash in Hres. rewrite Hid in Hres. cbn [negb drop] in Hres.
  unfold mbind_st, on_store in Hres. rewrite Hb in Hres. cbn [app_store with_store] in Hres.
  destruct (st_open_credential_id _ _ _) as [s2 [o|e]] eqn:Ho in Hres; cbv beta iota in Hres;
    [|by injection Hres as _ <-].
  specialize (Hopen calls s2 (Ok o) Hcalls Ho). cbv beta iota in Hopen. subst o.
  cbn [ret] in Hres. rewrite (sealed_credential_describes (SEALED_MARKER :: v) [] r) in Hres; try done.
  - by injection Hres as _ <-.
  - rewrite <- Hseed. apply fill_bytes_length.
Qed.

Lemma sealed_for_rp `{!SealStoreLaws S} (r r' : CredentialRecord) (rp id : bytes)
    (a a' b c : App) calls res :
  sealable_record r ->
  seal_credential r (private_key_bytes (cr_private_key r)) (sha256 rp) a = (a', Ok (r', id)) ->
  Forall (fun c => c <> SClear) calls -> app_store b = run_calls calls (app_store a') ->
  credential_for_rp id rp b = (c, res) ->
  match res with Ok found => found = Some (unsealed r r' rp id) | Err _ => True end.
Proof.
  intros Hr Hseal Hcalls Hb Hres. pose proof (seal_credential_form _ _ _ _ _ _ _ Hseal) as [Hid _].
  unfold credential_for_rp, mbind_st in Hres.
  destruct (credential_for_hash id (sha256 rp) b) as [c' [found|e]] eqn:E; [|by injection Hres as _ <-].
  eapply sealed_for_hash in E; [|done..]. cbv beta iota in E. subst found.
  rewrite Hid in Hres. by injection Hres as _ <-.
Qed.

End SealedId.
