(* ===== verification/Ceremony.v ===== *)
(** * What registration and authentication share ([ctap/hmac_secret.rs],
    [ctap/request.rs], [ctap/storage.rs], [ctap/pin/permissions.rs])

    The hmac-secret extension, the selection prompt, the token's authorization
    for an RP, the signature counters and signing itself. *)

From S2P Require Import Prelude Constants Alg Crypto Cbor Records Request.
From S2P Require Import PinRetry Token Presence Store CredentialKey Signing Engine.

(** Bytes [i*32 .. (i+1)*32] of the input in turn, the last piece possibly
    shorter ([chunks(32)]); [fuel] of at least the input's length is enough. *)
Fixpoint chunks32 (fuel : nat) (l : bytes) : list bytes :=
  match fuel, l with
  | _, [] => []
  | O, _ => []
  | S fuel', _ => take 32 l :: chunks32 fuel' (drop 32 l)
  end.

Record HmacSecretRequest : Type := {
  hr_key_agreement : Entries;
  hr_salt_enc : bytes;
  hr_salt_auth : bytes;
  hr_protocol : PinProtocol
}.

Definition parse_hmac_secret_request (value : Value) : result HmacSecretRequest Z :=
  match value with
  | VMap params =>
      let? key_agreement := required_map params (int_key 1) in
      let? salt_enc := required_bytes params (int_key 2) in
      let? salt_auth := required_bytes params (int_key 3) in
      let? protocol := match map_get params (int_key 4) with
                       | Some v => parse_pin_uv_auth_protocol v
                       | None => Ok V1
                       end in
      Ok {| hr_key_agreement := key_agreement; hr_salt_enc := salt_enc;
            hr_salt_auth := salt_auth; hr_protocol := protocol |}
  | _ => Err CTAP2_ERR_CBOR_UNEXPECTED_TYPE
  end.

Definition u32_max : Z := 2 ^ 32 - 1.

Definition u32_saturating_add (a b : Z) : Z := Z.min u32_max (a + b).

Definition set_sign_count (r : CredentialRecord) (v : Z) : CredentialRecord := {|
  cr_credential_id := cr_credential_id r; cr_rp_id := cr_rp_id r;
  cr_user_id := cr_user_id r; cr_user_name := cr_user_name r;
  cr_user_display_name := cr_user_display_name r; cr_alg := cr_alg r;
  cr_private_key := cr_private_key r;
  cr_cred_random_with_uv := cr_cred_random_with_uv r;
  cr_cred_random_without_uv := cr_cred_random_without_uv r;
  cr_cred_blob := cr_cred_blob r; cr_large_blob_key := cr_large_blob_key r;
  cr_third_party_payment := cr_third_party_payment r;
  cr_cred_protect := cr_cred_protect r; cr_sign_count := v;
  cr_created_at := cr_created_at r |}.

Section Ceremony.

Context {S : Type} `{Crypto} `{KeyCrypto} `{SigningCrypto} `{CredentialStore S}.

#[local] Abbreviation App := (CtapApp S).

(** ** hmac-secret *)

(** [PendingHmacSecret::outputs_for]; HMAC takes keys of any length. *)
Definition outputs_for (pending : PendingHmacSecret) (cred_random : bytes) : bytes :=
  let salts := hs_salt_plaintext pending in
  concat (map (hmac_sha256 cred_random) (chunks32 (length salts) salts)).

Definition encrypt_hmac_secret_outputs (pending : PendingHmacSecret) (cred_random : bytes)
    : M App bytes Z :=
  encrypt_for_platform (hs_protocol pending) (hs_keys pending) (outputs_for pending cred_random).

Definition process_hmac_secret (request : HmacSecretRequest) (with_uv without_uv : bytes)
    (user_verified : bool) : M App (bytes * PendingHmacSecret) Z :=
  let protocol := hr_protocol request in
  let* keys := decapsulate protocol (hr_key_agreement request) in
  lift (verify protocol (auth_key keys) (hr_salt_enc request) (hr_salt_auth request)) ;;*
  let* salt_plaintext :=
    lift (match decrypt protocol keys (hr_salt_enc request) with
          | Some salts => if (length salts =? 32)%nat || (length salts =? 64)%nat
                          then Ok salts else Err CTAP1_ERR_INVALID_PARAMETER
          | None => Err CTAP1_ERR_INVALID_PARAMETER
          end) in
  let pending := {| hs_protocol := protocol; hs_keys := keys; hs_salt_plaintext := salt_plaintext |} in
  let* encrypted := encrypt_hmac_secret_outputs pending (if user_verified then with_uv else without_uv) in
  ret (encrypted, pending).

(** ** User interaction and authorization *)

(** The status a zero-length pinUvAuthParam ends with. *)
Definition select_for_pin_uv_auth : M App Z Z :=
  let* timeout := gets app_presence_timeout in
  let* outcome := ask_user (presence_request Select timeout) in
  let* pin_is_set := gets (fun a => is_set (ps_pin (app_pin_state a))) in
  ret (match outcome with
       | Approved => if pin_is_set then CTAP2_ERR_PIN_INVALID else CTAP2_ERR_PIN_NOT_SET
       | Denied | TimedOut => CTAP2_ERR_OPERATION_DENIED
       | Cancelled => CTAP2_ERR_KEEPALIVE_CANCEL
       end).

Definition ensure_pin_token_permission_for_rp (permission : Z) (rp_id : bytes) : M App unit Z :=
  token_check (fun t => authorize_rp_operation t permission rp_id).

Definition app_user_present_flag : M App bool Z := token_query user_present_flag.

(** [pin_uv_auth.is_some() && self.pin_state.user_present_flag()]. *)
Definition token_present (pin_uv_auth : option (PinProtocol * bytes)) : M App bool Z :=
  match pin_uv_auth with
  | Some _ => app_user_present_flag
  | None => ret false
  end.

(** Steps 10 and 11 of registration and 6 of authentication: with a PIN set, a
    pinUvAuthParam has to authenticate the client data hash under a token that
    permits the operation for this RP. *)
Definition authorize_ceremony (protected : bool) (pin_uv_auth : option (PinProtocol * bytes))
    (permission : Z) (client_hash rp_id : bytes) : M App bool Z :=
  match pin_uv_auth with
  | Some (protocol, param) =>
      if protected then
        verify_pin_uv_auth_param protocol client_hash param ;;*
        ensure_pin_token_permission_for_rp permission rp_id ;;*
        ret true
      else ret false
  | None => ret false
  end.

(** ** Signatures *)

(** The record with the count persisted. *)
Definition advance_signature_counter (credential : CredentialRecord) : M App CredentialRecord Z :=
  if is_sealed (cr_credential_id credential) then
    let* current := on_store st_signature_counter store_status in
    let count := u32_saturating_add current 1 in
    on_store (st_set_signature_counter count) store_status ;;*
    ret (set_sign_count credential count)
  else
    let counted := set_sign_count credential (u32_saturating_add (cr_sign_count credential) 1) in
    on_store (st_put counted) store_status ;;*
    ret counted.

(** A signature, its failure [CTAP2_ERR_PROCESSING].  Only ML-DSA and RSA use
    the generator. *)
Definition sign (alg : CoseAlg) (key : CredentialSecretKey) (auth_data client_hash : bytes)
    : M App bytes Z :=
  let* rng := sys_rng in
  lift (map_err (fun _ => CTAP2_ERR_PROCESSING) (try_sign_challenge alg key auth_data client_hash rng)).

Definition attestation_record : M App (option AttestationRecord) Z := fun a =>
  match st_attestation (app_store a) with
  | (s, Ok record) => (with_store a s, Ok record)
  | (s, Err _) => (with_store a s, Ok None)
  end.

End Ceremony.
