(* ===== verification/CeremonyProofs.v ===== *)
(** * Frames for registration and authentication

    What the operations both ceremonies share leave alone, what a token's
    authorization shows, and what a counter write does. *)

From stdpp Require Import gmap.
From S2P Require Import Prelude Constants Alg Crypto Cbor Records Request PinRetry Token.
From S2P Require Import Presence Store StoreProofs CredentialKey Signing Engine EngineProofs.
From S2P Require Import ClientPin ClientPinProofs Frames SealedId Ceremony.

Section Frames.

Context {S : Type} `{Crypto} `{KeyCrypto} `{SigningCrypto} `{Ciborium} `{CredentialStore S}.
Context `{!CredentialSetLaws S}.

#[local] Abbreviation App := (CtapApp S).

Lemma observing_present :
  observing (fun s => is_some_and (tks_in_use s) tk_user_present) user_present_flag.
Proof. by intros n s. Qed.

Lemma calmly_present p : calmly (@token_present S p).
Proof. destruct p; [apply (calmly_query _ _ observing_present)|by intros a]. Qed.

Lemma calmly_ensure_rp p rp : calmly (@ensure_pin_token_permission_for_rp S p rp).
Proof.
  intros a. unfold ensure_pin_token_permission_for_rp, token_check, mbind_st, now.
  set (a1 := with_world _ _).
  pose proof (token_step_descends (w_clock (app_world a) (w_clock_reads (app_world a)))
    (TAuthorize p rp) (token_of a)) as Hd. simpl in Hd.
  change (ps_token (app_pin_state a1)) with (token_of a).
  destruct (authorize_rp_operation _ _ _ _) as [tk r]. by split.
Qed.

Lemma calmly_authorize_ceremony protected auth p h rp :
  calmly (@authorize_ceremony S _ protected auth p h rp).
Proof.
  unfold authorize_ceremony. repeat (apply calmly_ensure_rp || calm_step).
Qed.

Lemma calmly_select : calmly (@select_for_pin_uv_auth S).
Proof. unfold select_for_pin_uv_auth. repeat calm_step. Qed.

Lemma calmly_for_hash id h : calmly (@credential_for_hash S _ _ id h).
Proof.
  unfold credential_for_hash. repeat (apply calmly_on_store, creds_open || calm_step).
Qed.

Lemma calmly_for_rp id rp : calmly (@credential_for_rp S _ _ id rp).
Proof. unfold credential_for_rp. repeat (apply calmly_for_hash || calm_step). Qed.

Lemma calmly_new_id d : calmly (@app_new_credential_id S d).
Proof. unfold app_new_credential_id. repeat calm_step. Qed.

Lemma calmly_seal r key h : calmly (@seal_credential S _ _ r key h).
Proof.
  unfold seal_credential. repeat (apply calmly_on_store, creds_seal || calm_step).
Qed.

Lemma calmly_hmac_outputs p r : calmly (@encrypt_hmac_secret_outputs S _ p r).
Proof. apply calmly_encrypt. Qed.

Lemma calmly_hmac_secret r w wo uv : calmly (@process_hmac_secret S _ r w wo uv).
Proof. unfold process_hmac_secret. repeat (apply calmly_hmac_outputs || calm_step). Qed.

Lemma calmly_sign alg key d h : calmly (sign (S := S) alg key d h).
Proof. unfold sign. repeat calm_step. Qed.

Lemma calmly_attestation : calmly (@attestation_record S _).
Proof.
  intros a. unfold attestation_record. pose proof (creds_attestation (app_store a)) as Hc.
  destruct (st_attestation (app_store a)) as [s [r|e]]; (split; [split; [exact Hc|done]|reflexivity]).
Qed.

(** ** Authorization *)

(** The request's MAC is that of the token in use over the client data hash,
    and the token permits the operation for this RP. *)
Definition authorized_by (t : InUseToken) (auth : PinProtocol * bytes) (permission : Z)
    (client_hash rp_id : bytes) : Prop :=
  tk_protocol t = fst auth /\ snd auth = authenticate (fst auth) (tk_value t) client_hash /\
  Z.land (tk_permissions t) permission <> 0 /\ tk_user_verified t = true /\
  (tk_permissions_rp_id t = None \/ tk_permissions_rp_id t = Some rp_id).

Lemma present_back t t' : descends t t' -> tk_user_present t' = true -> tk_user_present t = true.
Proof.
  intros Hd Hp. destruct (tk_user_present t) eqn:Hx; [done|]. by rewrite (de_present _ _ Hd Hx) in Hp.
Qed.

(** An earlier state of the token authorized the same. *)
Lemma authorized_back t t' x p h rp :
  descends t t' -> authorized_by t' x p h rp -> authorized_by t x p h rp.
Proof.
  intros Hd (Hp & Hm & Hperm & Huv & Hrp). unfold authorized_by.
  rewrite <- (de_value _ _ Hd), <- (de_protocol _ _ Hd). split_and!; try done.
  - by apply (de_permissions _ _ Hd).
  - destruct (tk_user_verified t) eqn:Hx; [done|]. by rewrite (de_verified _ _ Hd Hx) in Huv.
  - destruct (tk_permissions_rp_id t) as [r|] eqn:Hx; [|by left].
    apply (de_rp _ _ Hd) in Hx. destruct Hrp as [Hn|Hs]; [congruence|right; congruence].
Qed.

Lemma authorize_ceremony_ok protected auth p h rp (a b : App) uv :
  authorize_ceremony protected auth p h rp a = (b, Ok uv) ->
  (uv = protected && is_some auth) /\
  (uv = true -> exists x t, auth = Some x /\ tks_in_use (token_of a) = Some t /\
                            authorized_by t x p h rp).
Proof.
  unfold authorize_ceremony. intros Ha. destruct auth as [[protocol param]|];
    [|injection Ha as _ <-; by rewrite andb_false_r].
  destruct protected; [|by injection Ha as _ <-]. peel Ha a1 u Hv. peel Ha a2 u2 He.
  injection Ha as _ <-. split; [done|]. intros _. destruct u, u2.
  unfold verify_pin_uv_auth_param, token_check in Hv. peel Hv a0 n Hn. injection Hn as <- <-.
  destruct (token_verify _ _ _ _ _) as [tk r] eqn:Htv. injection Hv as <- ->.
  apply token_verify_ok in Htv as (t & Ht & Hp & Hm & _ & _ & t1 & Ht1 & Hd & _).
  unfold ensure_pin_token_permission_for_rp, token_check in He. peel He a3 n2 Hn2. injection Hn2 as <- <-.
  destruct (authorize_rp_operation _ _ _ _) as [tk2 r2] eqn:Har. injection He as <- ->.
  apply authorize_ok in Har as (t1' & Ht1' & Hperm & Huv & Hrp & _).
  change (tks_in_use tk = Some t1') in Ht1'. assert (t1' = t1) as -> by congruence.
  exists (protocol, param), t. split; [done|]. split; [exact Ht|].
  apply (authorized_back t t1); [done|]. split_and!; simpl; [|by rewrite (de_value _ _ Hd)|done|done|done].
  by rewrite (de_protocol _ _ Hd).
Qed.

(** ** Consent *)

(** The user approved the question, and it was not cancelled. *)
Definition approved (a : App) (request : PresenceRequest) : Prop :=
  exists n, w_cancelled (app_world a) n = false /\ w_confirm (app_world a) n request = Approved.

Lemma approved_setting (a b : App) r : setting b = setting a -> approved b r -> approved a r.
Proof.
  unfold setting, approved. intros [= _ _ _ _ _ _ Hc Hk _] (n & Hn1 & Hn2). exists n.
  by rewrite <- Hc, <- Hk.
Qed.

Lemma confirm_approved r (a b : App) : confirm_user_presence r a = (b, Ok tt) -> approved a r.
Proof.
  unfold confirm_user_presence. intros Hc. peel Hc c o Ho. injection Ho as <- <-.
  injection Hc as _ Hst. apply presence_status_ok in Hst. exists (w_asks (app_world a)).
  by destruct (w_cancelled (app_world a) (w_asks (app_world a))).
Qed.

(** A userPresent flag can only stand in for the user while a token carries
    it. *)
Lemma present_ok auth (a b : App) v :
  token_present auth a = (b, Ok v) -> v = true ->
  is_some auth = true /\ exists t, tks_in_use (token_of a) = Some t /\ tk_user_present t = true.
Proof.
  intros Hp ->. destruct auth as [x|]; [|done]. split; [done|].
  apply (query_ok _ _ _ _ _ observing_present) in Hp as (Hv & Hc & _).
  destruct (tks_in_use (token_of b)) as [t'|] eqn:Ht'; [|done]. simpl in Hv.
  destruct (calm_token _ _ _ Hc Ht') as (t & Ht & Hd). exists t. split; [done|].
  by apply (present_back _ _ Hd).
Qed.

End Frames.

#[export] Hint Resolve calmly_present calmly_ensure_rp calmly_authorize_ceremony calmly_select
  calmly_for_hash calmly_for_rp calmly_new_id calmly_seal calmly_hmac_outputs calmly_hmac_secret
  calmly_sign calmly_attestation : calms.

(** ** The PIN invariant *)

Section PinInvariant.

Context {S : Type} `{Crypto} `{KeyCrypto} `{SigningCrypto} `{CredentialStore S} `{!PinStoreLaws S}.

#[local] Abbreviation App := (CtapApp S).

Lemma same_view_rng : same_view (S := S) sys_rng.
Proof. by intros a. Qed.

Lemma same_view_consume : same_view (S := S) app_consume_token.
Proof. by intros a. Qed.

Lemma same_view_present p : same_view (S := S) (token_present p).
Proof. destruct p; [apply same_view_token_query|apply same_view_ret]. Qed.

Lemma same_view_ensure_rp p rp : same_view (S := S) (ensure_pin_token_permission_for_rp p rp).
Proof. apply same_view_token_check. Qed.

Lemma same_view_attestation : same_view (S := S) attestation_record.
Proof.
  intros a. unfold attestation_record. pose proof (pin_attestation (app_store a)) as Hc.
  destruct (st_attestation (app_store a)) as [s [r|e]]; unfold view; simpl in *; by rewrite Hc.
Qed.

#[local] Hint Resolve same_view_rng same_view_consume same_view_present same_view_ensure_rp
  same_view_attestation : views.

Lemma same_view_authorize protected auth p h rp :
  same_view (S := S) (authorize_ceremony protected auth p h rp).
Proof. unfold authorize_ceremony. repeat same_view_step. Qed.

Lemma same_view_select : same_view (S := S) select_for_pin_uv_auth.
Proof. unfold select_for_pin_uv_auth. repeat same_view_step. Qed.

Lemma same_view_for_hash id h : same_view (S := S) (credential_for_hash id h).
Proof.
  unfold credential_for_hash. repeat (apply same_view_on_store, pin_open || same_view_step).
Qed.

Lemma same_view_for_rp id rp : same_view (S := S) (credential_for_rp id rp).
Proof. unfold credential_for_rp. repeat (apply same_view_for_hash || same_view_step). Qed.

Lemma same_view_new_id d : same_view (S := S) (app_new_credential_id d).
Proof. unfold app_new_credential_id. repeat same_view_step. Qed.

Lemma same_view_hmac_outputs p r : same_view (S := S) (encrypt_hmac_secret_outputs p r).
Proof. apply same_view_encrypt. Qed.

Lemma same_view_hmac_secret r w wo uv : same_view (S := S) (process_hmac_secret r w wo uv).
Proof. unfold process_hmac_secret. repeat (apply same_view_hmac_outputs || same_view_step). Qed.

Lemma same_view_sign alg key d h : same_view (S := S) (sign alg key d h).
Proof. unfold sign. repeat same_view_step. Qed.

Lemma same_view_advance c : same_view (S := S) (advance_signature_counter c).
Proof.
  unfold advance_signature_counter. destruct (is_sealed _).
  - repeat (apply same_view_on_store, pin_counter || apply same_view_on_store, pin_set_counter
            || same_view_step).
  - repeat (apply same_view_on_store, pin_put || same_view_step).
Qed.

(** Sealing publishes the default PIN state where none was, which is then the
    live one. *)
Lemma keeps_on_store_seal p ad : keeps (S := S) pin_inv (on_store (st_seal_credential_id p ad) store_status).
Proof.
  intros a Hi. unfold on_store. destruct (st_seal_credential_id p ad (app_store a)) as [s r] eqn:Hs.
  apply pin_seal in Hs.
  assert (Hgoal : pin_inv (with_store a s)); [|by destruct r].
  destruct Hs as [Hs|[Hn Hs]].
  - apply (pin_inv_view a); [|done]. unfold view. simpl. by rewrite Hs.
  - destruct Hi as [Hst Hb Hy]. split; unfold synced in *; simpl; rewrite ?Hs.
    + intros r' [= <-]. apply record_ok_default.
    + exact Hb.
    + intros Hr. specialize (Hy Hr). rewrite Hn in Hy. change (persistent (with_store a s)) with (persistent a).
      by rewrite Hy.
Qed.

End PinInvariant.

#[export] Hint Resolve same_view_rng same_view_consume same_view_present same_view_ensure_rp
  same_view_attestation same_view_authorize same_view_select same_view_for_hash same_view_for_rp
  same_view_new_id same_view_hmac_outputs same_view_hmac_secret same_view_sign
  same_view_advance : views.
