(* ===== verification/MakeCredential.v ===== *)
(** * authenticatorMakeCredential ([ctap/make_credential.rs])

    The whole handler: parsing, authorization, the exclude list, user
    presence, the new credential (stored or sealed), extension outputs, the
    attestation statement that fits, and the commit, which comes last. *)

From Stdlib Require Import Strings.String.
From S2P Require Import Prelude Constants Alg Crypto Cbor Records Request.
From S2P Require Import PinRetry Token Presence Store CredentialKey Signing Engine SealedId Ceremony.

(** ** Names *)

Definition text_id : bytes := Eval cbv in ascii_bytes "id".
Definition text_name : bytes := Eval cbv in ascii_bytes "name".
Definition text_display_name : bytes := Eval cbv in ascii_bytes "displayName".
Definition text_none : bytes := Eval cbv in ascii_bytes "none".
Definition text_packed : bytes := Eval cbv in ascii_bytes "packed".
Definition text_alg : bytes := Eval cbv in ascii_bytes "alg".
Definition text_sig : bytes := Eval cbv in ascii_bytes "sig".
Definition text_x5c : bytes := Eval cbv in ascii_bytes "x5c".
Definition ext_third_party_payment : bytes := Eval cbv in ascii_bytes "thirdPartyPayment".
Definition ext_min_pin_length : bytes := Eval cbv in ascii_bytes "minPinLength".
Definition ext_pin_complexity : bytes := Eval cbv in ascii_bytes "pinComplexityPolicy".
Definition ext_hmac_secret : bytes := Eval cbv in ascii_bytes "hmac-secret".
Definition ext_hmac_secret_mc : bytes := Eval cbv in ascii_bytes "hmac-secret-mc".
Definition ext_cred_blob : bytes := Eval cbv in ascii_bytes "credBlob".
Definition ext_large_blob_key : bytes := Eval cbv in ascii_bytes "largeBlobKey".
Definition ext_cred_protect : bytes := Eval cbv in ascii_bytes "credProtect".

(** ** Parsing *)

(** What is checked before anything else. *)
Record McEntities : Type := {
  mc_client_hash : bytes;
  mc_rp_id : bytes;
  mc_rp_name : option bytes;
  mc_user_id : bytes;
  mc_user_name : option bytes;
  mc_user_display_name : option bytes;
  mc_params : list Value
}.

Definition entity_map (value : option Value) : result Entries Z :=
  match value with
  | Some (VMap entries) => Ok entries
  | Some _ => Err CTAP2_ERR_CBOR_UNEXPECTED_TYPE
  | None => Err CTAP2_ERR_MISSING_PARAMETER
  end.

Definition truncated (text : option bytes) : option bytes :=
  option_map (fun t => truncate_utf8 t MAX_NAME_LENGTH) text.

Definition mc_entities (map : Entries) : result McEntities Z :=
  let? client_hash := client_data_hash (map_get map (int_key 1)) in
  let? rp := entity_map (map_get map (int_key 2)) in
  let? rp_id := structure_text rp text_id in
  let? rp_name := optional_structure_text rp text_name in
  let? user := entity_map (map_get map (int_key 3)) in
  let? user_id := structure_bytes user text_id in
  if MAX_USER_ID_LENGTH <? zlen user_id then Err CTAP1_ERR_INVALID_LENGTH
  else
    let? user_name := optional_structure_text user text_name in
    let? user_display_name := optional_structure_text user text_display_name in
    let? params := match map_get map (int_key 4) with
                   | Some (VArray params) => Ok params
                   | Some _ => Err CTAP2_ERR_CBOR_UNEXPECTED_TYPE
                   | None => Err CTAP2_ERR_MISSING_PARAMETER
                   end in
    Ok {| mc_client_hash := client_hash; mc_rp_id := rp_id; mc_rp_name := truncated rp_name;
          mc_user_id := user_id; mc_user_name := truncated user_name;
          mc_user_display_name := truncated user_display_name; mc_params := params |}.

Definition none_requested (value : option Value) : result bool Z :=
  match value with
  | None => Ok false
  | Some (VArray formats) =>
      if existsb (fun f => match f with VText _ => false | _ => true end) formats
      then Err CTAP2_ERR_CBOR_UNEXPECTED_TYPE
      else Ok (match formats with [VText format] => bytes_eqb format text_none | _ => false end)
  | Some _ => Err CTAP2_ERR_CBOR_UNEXPECTED_TYPE
  end.

(** The extension inputs read so far. *)
Record McExtensions : Type := {
  mx_min_pin_length : bool;
  mx_pin_complexity : bool;
  mx_hmac_secret : bool;
  mx_third_party_payment : bool;
  mx_hmac_secret_mc : option Value;
  mx_cred_blob : option bytes;
  mx_large_blob_key : option Value;
  mx_cred_protect : option Z
}.

Definition no_extensions : McExtensions := {|
  mx_min_pin_length := false; mx_pin_complexity := false; mx_hmac_secret := false;
  mx_third_party_payment := false; mx_hmac_secret_mc := None; mx_cred_blob := None;
  mx_large_blob_key := None; mx_cred_protect := None |}.

(** The four boolean inputs, and the others, replaced. *)
Definition mx_flags (x : McExtensions) (min_pin complexity hmac payment : bool) : McExtensions := {|
  mx_min_pin_length := min_pin; mx_pin_complexity := complexity; mx_hmac_secret := hmac;
  mx_third_party_payment := payment; mx_hmac_secret_mc := mx_hmac_secret_mc x;
  mx_cred_blob := mx_cred_blob x; mx_large_blob_key := mx_large_blob_key x;
  mx_cred_protect := mx_cred_protect x |}.

Definition mx_inputs (x : McExtensions) (mc : option Value) (blob : option bytes)
    (large : option Value) (protect : option Z) : McExtensions := {|
  mx_min_pin_length := mx_min_pin_length x; mx_pin_complexity := mx_pin_complexity x;
  mx_hmac_secret := mx_hmac_secret x; mx_third_party_payment := mx_third_party_payment x;
  mx_hmac_secret_mc := mc; mx_cred_blob := blob; mx_large_blob_key := large;
  mx_cred_protect := protect |}.

Definition flag_input (value : Value) : result bool Z :=
  match value with VBool flag => Ok flag | _ => Err CTAP2_ERR_CBOR_UNEXPECTED_TYPE end.

(** credProtect: a u8, then 1 to 3. *)
Definition cred_protect_input (value : Value) : result Z Z :=
  match value with
  | VInteger n => if (1 <=? n) && (n <=? 3) then Ok n else Err CTAP2_ERR_INVALID_OPTION
  | _ => Err CTAP2_ERR_CBOR_UNEXPECTED_TYPE
  end.

(** One entry of the extensions map. *)
Definition mc_extension (x : McExtensions) (entry : Value * Value) : result McExtensions Z :=
  let (key, value) := entry in
  match key with
  | VText text =>
      if bytes_eqb text ext_third_party_payment then
        let? f := flag_input value in
        Ok (mx_flags x (mx_min_pin_length x) (mx_pin_complexity x) (mx_hmac_secret x) f)
      else if bytes_eqb text ext_min_pin_length then
        let? f := flag_input value in
        Ok (mx_flags x f (mx_pin_complexity x) (mx_hmac_secret x) (mx_third_party_payment x))
      else if bytes_eqb text ext_pin_complexity then
        let? f := flag_input value in
        Ok (mx_flags x (mx_min_pin_length x) f (mx_hmac_secret x) (mx_third_party_payment x))
      else if bytes_eqb text ext_hmac_secret then
        let? f := flag_input value in
        Ok (mx_flags x (mx_min_pin_length x) (mx_pin_complexity x) f (mx_third_party_payment x))
      else if bytes_eqb text ext_hmac_secret_mc then
        Ok (mx_inputs x (Some value) (mx_cred_blob x) (mx_large_blob_key x) (mx_cred_protect x))
      else if bytes_eqb text ext_cred_blob then
        match value with
        | VBytes blob =>
            Ok (mx_inputs x (mx_hmac_secret_mc x) (Some blob) (mx_large_blob_key x) (mx_cred_protect x))
        | _ => Err CTAP2_ERR_CBOR_UNEXPECTED_TYPE
        end
      else if bytes_eqb text ext_large_blob_key then
        Ok (mx_inputs x (mx_hmac_secret_mc x) (mx_cred_blob x) (Some value) (mx_cred_protect x))
      else if bytes_eqb text ext_cred_protect then
        let? p := cred_protect_input value in
        Ok (mx_inputs x (mx_hmac_secret_mc x) (mx_cred_blob x) (mx_large_blob_key x) (Some p))
      else Ok x
  | _ => Ok x
  end.

Fixpoint mc_extension_loop (entries : Entries) (x : McExtensions) : result McExtensions Z :=
  match entries with
  | [] => Ok x
  | entry :: rest => let? x' := mc_extension x entry in mc_extension_loop rest x'
  end.

Definition mc_extensions (value : option Value) : result McExtensions Z :=
  match value with
  | None => Ok no_extensions
  | Some (VMap entries) => mc_extension_loop entries no_extensions
  | Some _ => Err CTAP2_ERR_CBOR_UNEXPECTED_TYPE
  end.

(** hmac-secret-mc needs hmac-secret true beside it. *)
Definition hmac_secret_mc_request (x : McExtensions) : result (option HmacSecretRequest) Z :=
  match mx_hmac_secret_mc x with
  | None => Ok None
  | Some input =>
      if negb (mx_hmac_secret x) then Err CTAP2_ERR_MISSING_PARAMETER
      else let? r := parse_hmac_secret_request input in Ok (Some r)
  end.

(** Everything decided before a token is looked at. *)
Record McPlan : Type := {
  mp_pin_uv_auth : option (PinProtocol * bytes);
  mp_alg : CoseAlg;
  mp_exclude_list : list bytes;
  mp_rk : bool;
  mp_protected : bool;
  mp_none_requested : bool;
  mp_extensions : McExtensions;
  mp_hmac_secret_mc : option HmacSecretRequest
}.

Definition mc_exclude_list (value : option Value) : result (list bytes) Z :=
  match value with Some v => credential_ids v | None => Ok [] end.

(** Steps 2 to 9 and the extension inputs, given whether a PIN is set and
    always-UV is on. *)
Definition mc_plan (map : Entries) (e : McEntities) (protected always_uv : bool)
    : result McPlan Z :=
  let? pin_uv_auth := parse_pin_uv_auth_param (map_get map (int_key 8)) (map_get map (int_key 9)) in
  let? alg := chosen_algorithm (mc_params e) in
  let? exclude_list := mc_exclude_list (map_get map (int_key 5)) in
  let? options := options (map_get map (int_key 7)) in
  let uv := negb (is_some pin_uv_auth) && is_some_and (opt_uv options) (fun b => b) in
  let rk := is_some_and (opt_rk options) (fun b => b) in
  if uv then Err CTAP2_ERR_INVALID_OPTION
  else if is_some_and (opt_up options) negb then Err CTAP2_ERR_INVALID_OPTION
  else if rk && (zlen (mc_user_id e) =? 0) then Err CTAP1_ERR_INVALID_LENGTH
  else if always_uv && (negb protected || negb (is_some pin_uv_auth)) then Err CTAP2_ERR_PUAT_REQUIRED
  else if protected && negb (is_some pin_uv_auth) && (rk || always_uv) then Err CTAP2_ERR_PUAT_REQUIRED
  else if is_some (map_get map (int_key 0x0A)) then Err CTAP1_ERR_INVALID_PARAMETER
  else
    let? none := none_requested (map_get map (int_key 0x0B)) in
    let? x := mc_extensions (map_get map (int_key 6)) in
    let? mc := hmac_secret_mc_request x in
    Ok {| mp_pin_uv_auth := pin_uv_auth; mp_alg := alg; mp_exclude_list := exclude_list;
          mp_rk := rk; mp_protected := protected; mp_none_requested := none;
          mp_extensions := x; mp_hmac_secret_mc := mc |}.

(** ** The new credential *)

(** [stored] of the source: what a sealed ID cannot carry is stored. *)
Definition mc_stored (p : McPlan) : bool :=
  mp_rk p || mx_third_party_payment (mp_extensions p) || negb (is_sealable (mp_alg p)).

Arguments mc_stored : simpl never.

(** A refused blob does not fail creation. *)
Definition mc_cred_blob (p : McPlan) : option bytes :=
  match mx_cred_blob (mp_extensions p) with
  | Some blob => if mc_stored p && (zlen blob <=? MAX_CRED_BLOB_LENGTH) then Some blob else None
  | None => None
  end.

Definition mc_cred_protect (p : McPlan) : Z :=
  match mx_cred_protect (mp_extensions p) with Some v => v | None => 1 end.

(** The record before it has an ID; only a discoverable or a sealed one keeps
    its user. *)
Definition mc_record (e : McEntities) (p : McPlan) (key : PrivateKeyMaterial)
    (large_blob_key : option bytes) (id with_uv without_uv : bytes) : CredentialRecord :=
  let keep_user := mp_rk p || negb (mc_stored p) in {|
  cr_credential_id := id; cr_rp_id := mc_rp_id e;
  cr_user_id := if keep_user then mc_user_id e else [];
  cr_user_name := if keep_user then mc_user_name e else None;
  cr_user_display_name := if keep_user then mc_user_display_name e else None;
  cr_alg := mp_alg p; cr_private_key := key;
  cr_cred_random_with_uv := with_uv; cr_cred_random_without_uv := without_uv;
  cr_cred_blob := mc_cred_blob p; cr_large_blob_key := large_blob_key;
  cr_third_party_payment := mx_third_party_payment (mp_extensions p);
  cr_cred_protect := mc_cred_protect p; cr_sign_count := 0; cr_created_at := 0 |}.

Definition set_credential_id (r : CredentialRecord) (v : bytes) : CredentialRecord := {|
  cr_credential_id := v; cr_rp_id := cr_rp_id r;
  cr_user_id := cr_user_id r; cr_user_name := cr_user_name r;
  cr_user_display_name := cr_user_display_name r; cr_alg := cr_alg r;
  cr_private_key := cr_private_key r;
  cr_cred_random_with_uv := cr_cred_random_with_uv r;
  cr_cred_random_without_uv := cr_cred_random_without_uv r;
  cr_cred_blob := cr_cred_blob r; cr_large_blob_key := cr_large_blob_key r;
  cr_third_party_payment := cr_third_party_payment r;
  cr_cred_protect := cr_cred_protect r; cr_sign_count := cr_sign_count r;
  cr_created_at := cr_created_at r |}.

Inductive Attestation : Type :=
| Basic (record : AttestationRecord)
| SelfSigned
| NoAttestation.

Section MakeCredential.

Context {S : Type} `{Crypto} `{KeyCrypto} `{SigningCrypto} `{Ciborium} `{CredentialStore S}.

#[local] Abbreviation App := (CtapApp S).

(** The flag bits: UP 0x01, UV 0x04, AT 0x40, ED 0x80. *)
Definition auth_flags (attested user_present user_verified extended : bool) : Z :=
  Z.lor (Z.lor (if attested then 0x40 else 0) (if user_present then 0x01 else 0))
        (Z.lor (if user_verified then 0x04 else 0) (if extended then 0x80 else 0)).

Definition attested_auth_data (aaguid : bytes) (record : CredentialRecord) (cose_key : bytes)
    (user_present uv : bool) (extensions : option bytes) : bytes :=
  sha256 (cr_rp_id record)
  ++ [auth_flags true user_present uv (is_some extensions)]
  ++ be_bytes 4 (cr_sign_count record)
  ++ aaguid
  ++ be_bytes 2 (zlen (cr_credential_id record) mod 65536)
  ++ cr_credential_id record
  ++ cose_key
  ++ match extensions with Some ext => ext | None => [] end.

(** ** Exclusion and presence *)

Definition register_request (e : McEntities) (rk : bool) (timeout : Z) : PresenceRequest := {|
  pr_operation := Register; pr_rp_id := Some (mc_rp_id e); pr_rp_name := mc_rp_name e;
  pr_user_name := mc_user_name e; pr_user_display_name := mc_user_display_name e;
  pr_discoverable := rk; pr_timeout := timeout |}.

(** An excluded credential ends the request once the user was asked, whatever
    the answer; a cancellation stays one. *)
Definition mc_excluded (pin_uv_auth : option (PinProtocol * bytes)) (request : PresenceRequest)
    : M App unit Z :=
  let* user_present := token_present pin_uv_auth in
  if user_present then fail CTAP2_ERR_CREDENTIAL_EXCLUDED
  else fun a =>
    match confirm_user_presence request a with
    | (a', Err e) => (a', Err (if e =? CTAP2_ERR_KEEPALIVE_CANCEL then CTAP2_ERR_KEEPALIVE_CANCEL
                               else CTAP2_ERR_CREDENTIAL_EXCLUDED))
    | (a', Ok _) => (a', Err CTAP2_ERR_CREDENTIAL_EXCLUDED)
    end.

Fixpoint mc_exclude (ids : list bytes) (rp_id : bytes) (uv_bit : bool)
    (pin_uv_auth : option (PinProtocol * bytes)) (request : PresenceRequest) : M App unit Z :=
  match ids with
  | [] => ret tt
  | id :: rest =>
      let* excluded := credential_for_rp id rp_id in
      match excluded with
      | None => mc_exclude rest rp_id uv_bit pin_uv_auth request
      | Some c =>
          if (cr_cred_protect c =? 3) && negb uv_bit
          then mc_exclude rest rp_id uv_bit pin_uv_auth request
          else mc_excluded pin_uv_auth request
      end
  end.

(** Step 14. *)
Definition mc_user_presence (pin_uv_auth : option (PinProtocol * bytes)) (request : PresenceRequest)
    : M App unit Z :=
  let* user_present := token_present pin_uv_auth in
  (if user_present then ret tt else confirm_user_presence request) ;;*
  app_consume_token.

Definition large_blob_key_requested (p : McPlan) : result bool Z :=
  match mx_large_blob_key (mp_extensions p) with
  | Some (VBool true) => if mp_rk p then Ok true else Err CTAP2_ERR_INVALID_OPTION
  | Some _ => Err CTAP2_ERR_INVALID_OPTION
  | None => Ok false
  end.

(** The credential, with its ID and CredRandom values. *)
Definition mc_create (e : McEntities) (p : McPlan) (want_large_blob_key : bool)
    : M App CredentialRecord Z :=
  let* rng := sys_rng in
  let* key := lift (map_err (fun _ => CTAP1_ERR_OTHER) (try_generate (mp_alg p) rng)) in
  let* large_blob_key := (if want_large_blob_key then let* k := random_array 32 in ret (Some k)
                          else ret None) in
  if mc_stored p then
    let* id := app_new_credential_id (mp_rk p) in
    let* with_uv := random_array 32 in
    let* without_uv := random_array 32 in
    ret (mc_record e p key large_blob_key id with_uv without_uv)
  else
    let* sealed_key := lift (ok_or (sealable key) CTAP2_ERR_PROCESSING) in
    let* sealed := seal_credential
      (mc_record e p key large_blob_key [] (repeat 0 32) (repeat 0 32)) sealed_key
      (sha256 (mc_rp_id e)) in
    ret (set_credential_id (fst sealed) (snd sealed)).

(** ** Extension outputs *)

Definition mc_extension_entries (p : McPlan) (record : CredentialRecord) (uv_bit : bool)
    : M App Entries Z := fun a0 =>
  (let x := mp_extensions p in
   let policy := persistent a0 in
   let listed := existsb (fun rp => bytes_eqb rp (cr_rp_id record)) (pp_min_pin_length_rp_ids policy) in
   let e1 := if mx_min_pin_length x && listed
             then [(VText ext_min_pin_length, VInteger (pp_min_pin_length policy))] else [] in
   let e2 := if mx_pin_complexity x && listed
             then [(VText ext_pin_complexity, VBool (pp_pin_complexity_policy policy))] else [] in
   let e3 := if is_some (mx_cred_blob x)
             then [(VText ext_cred_blob, VBool (is_some (cr_cred_blob record)))] else [] in
   let e4 := if mx_hmac_secret x then [(VText ext_hmac_secret, VBool true)] else [] in
   let* e5 := match mp_hmac_secret_mc p with
              | Some request =>
                  let* r := process_hmac_secret request (cr_cred_random_with_uv record)
                              (cr_cred_random_without_uv record) uv_bit in
                  ret [(VText ext_hmac_secret_mc, VBytes (fst r))]
              | None => ret []
              end in
   let e6 := if is_some (mx_cred_protect x)
             then [(VText ext_cred_protect, VInteger (mc_cred_protect p))] else [] in
   ret (e1 ++ e2 ++ e3 ++ e4 ++ e5 ++ e6)) a0.

(** ** Attestation and the response *)

Definition attestation_kinds (none : bool) : M App (list Attestation) Z := fun a =>
  if none then (a, Ok [NoAttestation])
  else
    match app_attestation_mode a with
    | Certificate =>
        (let* record := attestation_record in
         ret (match record with Some r => [Basic r] | None => [] end ++ [SelfSigned; NoAttestation])) a
    | SelfAttestation => (a, Ok [SelfSigned; NoAttestation])
    | NoneMode => (a, Ok [NoAttestation])
    end.

Definition attestation_statement (kind : Attestation) (alg : CoseAlg) (secret : CredentialSecretKey)
    (auth_data client_hash : bytes) : M App (bytes * Value) Z :=
  match kind with
  | Basic record =>
      let* key := lift (map_err (fun _ => CTAP2_ERR_PROCESSING) (attestation_signing_key record)) in
      let* signature := sign ES256 key auth_data client_hash in
      ret (text_packed,
           canonical_map [(VText text_alg, VInteger (identifier ES256)); (VText text_sig, VBytes signature);
                          (VText text_x5c, VArray (map VBytes (at_certificate_chain record)))])
  | SelfSigned =>
      let* signature := sign alg secret auth_data client_hash in
      ret (text_packed,
           canonical_map [(VText text_alg, VInteger (identifier alg)); (VText text_sig, VBytes signature)])
  | NoAttestation => ret (text_none, VMap [])
  end.

Definition store_new_credential (record : CredentialRecord) : M App unit Z :=
  if is_discoverable (cr_credential_id record) then
    on_store (st_insert_or_replace_discoverable record) store_status ;;*
    clear_cred_mgmt
  else
    let* existing := stored_credential (cr_credential_id record) in
    if is_some existing then fail CTAP2_ERR_PROCESSING
    else on_store (st_put record) store_status.

Definition mc_response (record : CredentialRecord) (format auth_data : bytes) (statement : Value)
    : bytes :=
  into_writer (VMap (canonical_sort
    ([(VInteger 1, VText format); (VInteger 2, VBytes auth_data); (VInteger 3, statement)]
     ++ match cr_large_blob_key record with
        | Some key => [(VInteger 5, VBytes key)]
        | None => []
        end))).

(** The first statement whose response fits; the credential is stored once the
    response is complete. *)
Fixpoint mc_respond (kinds : list Attestation) (stored : bool) (record : CredentialRecord)
    (secret : CredentialSecretKey) (auth_data client_hash : bytes) : M App bytes Z :=
  match kinds with
  | [] => fail CTAP2_ERR_PROCESSING
  | kind :: rest =>
      let* statement := attestation_statement kind (cr_alg record) secret auth_data client_hash in
      let encoded := mc_response record (fst statement) auth_data (snd statement) in
      if MAX_RESPONSE_SIZE <? 1 + zlen encoded
      then mc_respond rest stored record secret auth_data client_hash
      else
        (if stored then store_new_credential record else ret tt) ;;*
        ret (CTAP2_OK :: encoded)
  end.

(** Steps 15 to 19. *)
Definition mc_finish (e : McEntities) (p : McPlan) (uv_bit : bool) : M App bytes Z :=
  let* want_large_blob_key := lift (large_blob_key_requested p) in
  let* record := mc_create e p want_large_blob_key in
  let* pair := lift (map_err (fun _ => CTAP2_ERR_PROCESSING) (keypair record)) in
  let* entries := mc_extension_entries p record uv_bit in
  let* extensions := lift (encode_extensions entries) in
  let* aaguid := gets app_aaguid in
  let auth_data := attested_auth_data aaguid record (snd pair) true uv_bit extensions in
  let* kinds := attestation_kinds (mp_none_requested p) in
  mc_respond kinds (mc_stored p) record (fst pair) auth_data (mc_client_hash e).

(** Steps 10 to 14. *)
Definition mc_authorized (e : McEntities) (p : McPlan) : M App bool Z :=
  let* uv_bit := authorize_ceremony (mp_protected p) (mp_pin_uv_auth p) PIN_PERMISSION_MC
                   (mc_client_hash e) (mc_rp_id e) in
  let* timeout := gets app_presence_timeout in
  let request := register_request e (mp_rk p) timeout in
  mc_exclude (mp_exclude_list p) (mc_rp_id e) uv_bit (mp_pin_uv_auth p) request ;;*
  mc_user_presence (mp_pin_uv_auth p) request ;;*
  ret uv_bit.

Definition handle_make_credential (payload : bytes) : M App bytes Z :=
  let* map := lift (request_parameters payload) in
  let* e := lift (mc_entities map) in
  read_pin_state_if_unread ;;*
  if is_zero_length (map_get map (int_key 8)) then
    let* status := select_for_pin_uv_auth in fail status
  else
    let* protected := gets (fun a => is_set (ps_pin (app_pin_state a))) in
    let* always_uv := gets (fun a => pp_always_uv (persistent a)) in
    let* p := lift (mc_plan map e protected always_uv) in
    let* uv_bit := mc_authorized e p in
    mc_finish e p uv_bit.

End MakeCredential.
