(* ===== verification/GetAssertion.v ===== *)
(** * authenticatorGetAssertion and authenticatorGetNextAssertion
    ([ctap/get_assertion.rs])

    Locating the credentials that may answer, user presence, extension
    outputs, the counter and the signature, and the state remembered between
    the assertions of several credentials. *)

From Stdlib Require Import Strings.String.
From S2P Require Import Prelude Constants Alg Crypto Cbor Records Request.
From S2P Require Import PinRetry Token Presence Store CredentialKey Signing Engine SealedId Ceremony.
From S2P Require Import MakeCredential.

Definition GET_NEXT_ASSERTION_TIMEOUT : Z := from_secs 30.

Definition credential_allows (credential : CredentialRecord) (user_verified allow_list_provided : bool)
    : bool :=
  if cr_cred_protect credential =? 3 then user_verified
  else if cr_cred_protect credential =? 2 then user_verified || allow_list_provided
  else true.

(** ** Parsing *)

Record GaExtensions : Type := {
  gx_hmac_secret : option HmacSecretRequest;
  gx_cred_blob : bool;
  gx_third_party_payment : bool;
  gx_large_blob_key : option Value
}.

Definition ga_no_extensions : GaExtensions := {|
  gx_hmac_secret := None; gx_cred_blob := false; gx_third_party_payment := false;
  gx_large_blob_key := None |}.

Definition ga_extension (x : GaExtensions) (entry : Value * Value) : result GaExtensions Z :=
  let (key, value) := entry in
  match key with
  | VText text =>
      if bytes_eqb text ext_third_party_payment then
        let? f := flag_input value in
        Ok {| gx_hmac_secret := gx_hmac_secret x; gx_cred_blob := gx_cred_blob x;
              gx_third_party_payment := f; gx_large_blob_key := gx_large_blob_key x |}
      else if bytes_eqb text ext_hmac_secret then
        let? r := parse_hmac_secret_request value in
        Ok {| gx_hmac_secret := Some r; gx_cred_blob := gx_cred_blob x;
              gx_third_party_payment := gx_third_party_payment x;
              gx_large_blob_key := gx_large_blob_key x |}
      else if bytes_eqb text ext_cred_blob then
        let? f := flag_input value in
        Ok {| gx_hmac_secret := gx_hmac_secret x; gx_cred_blob := f;
              gx_third_party_payment := gx_third_party_payment x;
              gx_large_blob_key := gx_large_blob_key x |}
      else if bytes_eqb text ext_large_blob_key then
        Ok {| gx_hmac_secret := gx_hmac_secret x; gx_cred_blob := gx_cred_blob x;
              gx_third_party_payment := gx_third_party_payment x; gx_large_blob_key := Some value |}
      else Ok x
  | _ => Ok x
  end.

Fixpoint ga_extension_loop (entries : Entries) (x : GaExtensions) : result GaExtensions Z :=
  match entries with
  | [] => Ok x
  | entry :: rest => let? x' := ga_extension x entry in ga_extension_loop rest x'
  end.

Definition ga_extensions (value : option Value) : result GaExtensions Z :=
  match value with
  | None => Ok ga_no_extensions
  | Some (VMap entries) => ga_extension_loop entries ga_no_extensions
  | Some _ => Err CTAP2_ERR_CBOR_UNEXPECTED_TYPE
  end.

Definition ga_rp_id (value : option Value) : result bytes Z :=
  match value with
  | Some (VText text) => Ok text
  | Some _ => Err CTAP2_ERR_CBOR_UNEXPECTED_TYPE
  | None => Err CTAP2_ERR_MISSING_PARAMETER
  end.

Definition ga_allow_list (value : option Value) : result (option (list bytes)) Z :=
  match value with
  | Some v => let? ids := credential_ids v in Ok (Some ids)
  | None => Ok None
  end.

(** What the request asks for. *)
Record GaPlan : Type := {
  gp_pin_uv_auth : option (PinProtocol * bytes);
  gp_allow_list : option (list bytes);
  gp_extensions : GaExtensions;
  gp_up : bool
}.

(** Steps 2 to 5, given whether a PIN is set and always-UV is on. *)
Definition ga_plan (map : Entries) (protected always_uv : bool) : result GaPlan Z :=
  let? pin_uv_auth := parse_pin_uv_auth_param (map_get map (int_key 6)) (map_get map (int_key 7)) in
  let? allow_list := ga_allow_list (map_get map (int_key 3)) in
  let? x := ga_extensions (map_get map (int_key 4)) in
  let? options := options (map_get map (int_key 5)) in
  if negb (is_some pin_uv_auth) && is_some_and (opt_uv options) (fun b => b)
  then Err CTAP2_ERR_INVALID_OPTION
  else if is_some (opt_rk options) then Err CTAP2_ERR_UNSUPPORTED_OPTION
  else
    let up := match opt_up options with Some b => b | None => true end in
    if always_uv && up && (negb protected || negb (is_some pin_uv_auth))
    then Err CTAP2_ERR_PUAT_REQUIRED
    else Ok {| gp_pin_uv_auth := pin_uv_auth; gp_allow_list := allow_list;
               gp_extensions := x; gp_up := up |}.

Definition ga_large_blob_key (value : option Value) : result bool Z :=
  match value with
  | Some (VBool true) => Ok true
  | Some _ => Err CTAP2_ERR_INVALID_OPTION
  | None => Ok false
  end.

Section GetAssertion.

Context {S : Type} `{Crypto} `{KeyCrypto} `{SigningCrypto} `{Ciborium} `{CredentialStore S}.

#[local] Abbreviation App := (CtapApp S).

Definition assertion_auth_data (rp_id : bytes) (sign_count : Z) (user_present user_verified : bool)
    (extensions : option bytes) : bytes :=
  sha256 rp_id
  ++ [auth_flags false user_present user_verified (is_some extensions)]
  ++ be_bytes 4 sign_count
  ++ match extensions with Some ext => ext | None => [] end.

(** ** Locating credentials *)

Fixpoint ga_denoted (ids : list bytes) (rp_id : bytes) (user_verified : bool)
    (applicable : list CredentialRecord) : M App (list CredentialRecord) Z :=
  match ids with
  | [] => ret applicable
  | id :: rest =>
      if existsb (fun c => bytes_eqb (cr_credential_id c) id) applicable
      then ga_denoted rest rp_id user_verified applicable
      else
        let* found := credential_for_rp id rp_id in
        ga_denoted rest rp_id user_verified
          (match found with
           | Some c => if credential_allows c user_verified true then applicable ++ [c] else applicable
           | None => applicable
           end)
  end.

(** Step 7. *)
Definition ga_locate (allow_list : option (list bytes)) (rp_id : bytes) (user_verified : bool)
    : M App (list CredentialRecord) Z :=
  match allow_list with
  | Some ids =>
      let* applicable := ga_denoted ids rp_id user_verified [] in
      ret (sort_newest_first applicable)
  | None =>
      let* all_credentials := stored_credentials in
      ret (List.filter (fun c => bytes_eqb (cr_rp_id c) rp_id && is_discoverable (cr_credential_id c)
                                 && credential_allows c user_verified false) all_credentials)
  end.

(** The account a prompt names: that of the only credential, if discoverable. *)
Definition ga_account (applicable : list CredentialRecord) : option CredentialRecord :=
  match applicable with
  | [only] => if is_discoverable (cr_credential_id only) then Some only else None
  | _ => None
  end.

Definition authenticate_request (rp_id : bytes) (account : option CredentialRecord) (timeout : Z)
    : PresenceRequest := {|
  pr_operation := Authenticate; pr_rp_id := Some rp_id; pr_rp_name := None;
  pr_user_name := match account with Some c => cr_user_name c | None => None end;
  pr_user_display_name := match account with Some c => cr_user_display_name c | None => None end;
  pr_discoverable := false; pr_timeout := timeout |}.

(** Step 9: whether the user is present. *)
Definition ga_user_presence (p : GaPlan) (rp_id : bytes) (applicable : list CredentialRecord)
    : M App bool Z :=
  if gp_up p then
    let* present := token_present (gp_pin_uv_auth p) in
    (if present then ret tt
     else
       let* timeout := gets app_presence_timeout in
       confirm_user_presence (authenticate_request rp_id (ga_account applicable) timeout)) ;;*
    app_consume_token ;;*
    ret true
  else if is_some (gx_hmac_secret (gp_extensions p)) then fail CTAP2_ERR_UNSUPPORTED_OPTION
  else ret false.

(** ** Extension outputs and the signature *)

(** credBlob and thirdPartyPayment. *)
Definition plain_outputs (cred_blob third_party_payment : bool) (credential : CredentialRecord)
    : Entries :=
  (if cred_blob
   then [(VText ext_cred_blob,
          VBytes (match cr_cred_blob credential with Some b => b | None => [] end))] else [])
  ++ (if third_party_payment
      then [(VText ext_third_party_payment, VBool (cr_third_party_payment credential))] else []).

Definition ga_outputs (x : GaExtensions) (credential : CredentialRecord) (user_verified : bool)
    : M App (Entries * option PendingHmacSecret) Z :=
  let* hmac :=
    match gx_hmac_secret x with
    | Some request =>
        let* r := process_hmac_secret request (cr_cred_random_with_uv credential)
                    (cr_cred_random_without_uv credential) user_verified in
        ret ([(VText ext_hmac_secret, VBytes (fst r))], Some (snd r))
    | None => ret ([], None)
    end in
  ret (fst hmac ++ plain_outputs (gx_cred_blob x) (gx_third_party_payment x) credential, snd hmac).

(** The credential as counted, the authenticator data and the signature. *)
Definition sign_assertion (credential : CredentialRecord) (rp_id client_hash : bytes)
    (user_present user_verified : bool) (extensions : option bytes)
    : M App (CredentialRecord * bytes * bytes) Z :=
  let* secret := lift (map_err (fun _ => CTAP2_ERR_PROCESSING) (record_secret_key credential)) in
  let* counted := advance_signature_counter credential in
  let auth_data := assertion_auth_data rp_id (cr_sign_count counted) user_present user_verified
                     extensions in
  let* signature := sign (cr_alg counted) secret auth_data client_hash in
  ret (counted, auth_data, signature).

(** The names only go with user verification. *)
Definition user_entity (credential : CredentialRecord) (user_verified : bool) : Value :=
  let bounded t := VText (truncate_utf8 t MAX_NAME_LENGTH) in
  canonical_map
    ([(VText text_id, VBytes (cr_user_id credential))]
     ++ (if user_verified then
           match cr_user_name credential with Some n => [(VText text_name, bounded n)] | None => [] end
           ++ match cr_user_display_name credential with
              | Some d => [(VText text_display_name, bounded d)]
              | None => []
              end
         else [])).

Definition text_type : bytes := Eval cbv in ascii_bytes "type".

Definition assertion_entries (credential : CredentialRecord) (auth_data signature : bytes)
    (user_verified : bool) (number_of_credentials : option Z) (large_blob_key_requested : bool)
    : Entries :=
  let discoverable := is_discoverable (cr_credential_id credential) in
  [(VInteger 1, canonical_map [(VText text_type, VText PUBLIC_KEY);
                               (VText text_id, VBytes (cr_credential_id credential))]);
   (VInteger 2, VBytes auth_data); (VInteger 3, VBytes signature)]
  ++ (if discoverable then [(VInteger 4, user_entity credential user_verified)] else [])
  ++ (match number_of_credentials with Some total => [(VInteger 5, VInteger total)] | None => [] end)
  ++ (if large_blob_key_requested && discoverable then
        match cr_large_blob_key credential with Some key => [(VInteger 7, VBytes key)] | None => [] end
      else []).

Definition assertion_response (credential : CredentialRecord) (auth_data signature : bytes)
    (user_verified : bool) (number_of_credentials : option Z) (large_blob_key_requested : bool)
    : bytes :=
  CTAP2_OK :: into_writer (VMap (canonical_sort
    (assertion_entries credential auth_data signature user_verified number_of_credentials
       large_blob_key_requested))).

(** ** authenticatorGetAssertion *)

(** What is remembered for the credentials that are left. *)
Definition ga_remember (p : GaPlan) (rp_id client_hash : bytes) (user_present user_verified : bool)
    (remaining : list bytes) (hmac : option PendingHmacSecret) (large_blob_key : bool)
    (token : option Z) : M App unit Z :=
  match remaining with
  | [] => ret tt
  | _ =>
      let* t := now in
      modify (fun a => with_pending a (Some {|
        pa_rp_id := rp_id; pa_client_hash := client_hash; pa_user_present := user_present;
        pa_user_verified := user_verified; pa_remaining_credentials := remaining;
        pa_hmac_secret := hmac; pa_cred_blob := gx_cred_blob (gp_extensions p);
        pa_large_blob_key := large_blob_key;
        pa_third_party_payment := gx_third_party_payment (gp_extensions p);
        pa_timer_started := t; pa_token := token |}))
  end.

(** Steps 9 on, for the located credentials. *)
Definition ga_assert (p : GaPlan) (rp_id client_hash : bytes) (user_verified : bool)
    (token : option Z) (applicable : list CredentialRecord) : M App bytes Z :=
  let* user_present := ga_user_presence p rp_id applicable in
  let* large_blob_key := lift (ga_large_blob_key (gx_large_blob_key (gp_extensions p))) in
  match applicable with
  | [] => fail CTAP2_ERR_NO_CREDENTIALS
  | credential :: others =>
      let remaining := if is_some (gp_allow_list p) then [] else map cr_credential_id others in
      let* outputs := ga_outputs (gp_extensions p) credential user_verified in
      let* extensions := lift (encode_extensions (fst outputs)) in
      let* signed := sign_assertion credential rp_id client_hash user_present user_verified
                       extensions in
      ga_remember p rp_id client_hash user_present user_verified remaining (snd outputs)
        large_blob_key token ;;*
      ret (assertion_response (fst (fst signed)) (snd (fst signed)) (snd signed) user_verified
             (if (length remaining =? 0)%nat then None else Some (1 + zlen remaining))
             large_blob_key)
  end.

(** Step 6: whether the user is verified, and the token that says so. *)
Definition ga_verified (protected : bool) (p : GaPlan) (client_hash rp_id : bytes)
    : M App (bool * option Z) Z :=
  let* user_verified := authorize_ceremony protected (gp_pin_uv_auth p) PIN_PERMISSION_GA
                          client_hash rp_id in
  if user_verified then let* token := pin_uv_auth_token_id in ret (true, token)
  else ret (false, None).

Definition handle_get_assertion (payload : bytes) : M App bytes Z :=
  let* map := lift (request_parameters payload) in
  let* rp_id := lift (ga_rp_id (map_get map (int_key 1))) in
  let* client_hash := lift (client_data_hash (map_get map (int_key 2))) in
  read_pin_state_if_unread ;;*
  if is_zero_length (map_get map (int_key 6)) then
    let* status := select_for_pin_uv_auth in fail status
  else
    let* protected := gets (fun a => is_set (ps_pin (app_pin_state a))) in
    let* always_uv := gets (fun a => pp_always_uv (persistent a)) in
    let* p := lift (ga_plan map protected always_uv) in
    let* verified := ga_verified protected p client_hash rp_id in
    let* applicable := ga_locate (gp_allow_list p) rp_id (fst verified) in
    if (length applicable =? 0)%nat then fail CTAP2_ERR_NO_CREDENTIALS
    else ga_assert p rp_id client_hash (fst verified) (snd verified) applicable.

(** ** authenticatorGetNextAssertion *)

Definition take_pending : M App PendingAssertion Z := fun a =>
  match app_pending_assertion a with
  | Some p => (with_pending a None, Ok p)
  | None => (a, Err CTAP2_ERR_NOT_ALLOWED)
  end.

Definition pending_token_live (token : option Z) : M App unit Z :=
  match token with
  | None => ret tt
  | Some _ =>
      let* current := pin_uv_auth_token_id in
      guard (bool_decide (token = current)) CTAP2_ERR_NOT_ALLOWED
  end.

(** The next remembered credential that is still there, and those after it. *)
Fixpoint next_remaining (ids : list bytes) (rp_id : bytes)
    : M App (CredentialRecord * list bytes) Z :=
  match ids with
  | [] => fail CTAP2_ERR_NOT_ALLOWED
  | id :: rest =>
      let* found := stored_credential id in
      match found with
      | Some c => if bytes_eqb (cr_rp_id c) rp_id then ret (c, rest) else next_remaining rest rp_id
      | None => next_remaining rest rp_id
      end
  end.

Definition next_outputs (pending : PendingAssertion) (credential : CredentialRecord)
    : M App Entries Z :=
  let* hmac :=
    match pa_hmac_secret pending with
    | Some state =>
        let* encrypted := encrypt_hmac_secret_outputs state
          (if pa_user_verified pending then cr_cred_random_with_uv credential
           else cr_cred_random_without_uv credential) in
        ret [(VText ext_hmac_secret, VBytes encrypted)]
    | None => ret []
    end in
  ret (hmac ++ plain_outputs (pa_cred_blob pending) (pa_third_party_payment pending) credential).

(** The state for the assertions after this one, its timer restarted. *)
Definition continue_pending (p : PendingAssertion) (rest : list bytes) (t : Z) : PendingAssertion := {|
  pa_rp_id := pa_rp_id p; pa_client_hash := pa_client_hash p; pa_user_present := pa_user_present p;
  pa_user_verified := pa_user_verified p; pa_remaining_credentials := rest;
  pa_hmac_secret := pa_hmac_secret p; pa_cred_blob := pa_cred_blob p;
  pa_large_blob_key := pa_large_blob_key p; pa_third_party_payment := pa_third_party_payment p;
  pa_timer_started := t; pa_token := pa_token p |}.

Definition handle_get_next_assertion : M App bytes Z :=
  let* pending := take_pending in
  let* t := now in
  if GET_NEXT_ASSERTION_TIMEOUT <? saturating_sub t (pa_timer_started pending)
  then fail CTAP2_ERR_NOT_ALLOWED
  else
    pending_token_live (pa_token pending) ;;*
    let* next := next_remaining (pa_remaining_credentials pending) (pa_rp_id pending) in
    let* entries := next_outputs pending (fst next) in
    let* extensions := lift (encode_extensions entries) in
    let* signed := sign_assertion (fst next) (pa_rp_id pending) (pa_client_hash pending)
                     (pa_user_present pending) (pa_user_verified pending) extensions in
    (match snd next with
     | [] => ret tt
     | rest =>
         let* t' := now in
         modify (fun a => with_pending a (Some (continue_pending pending rest t')))
     end) ;;*
    ret (assertion_response (fst (fst signed)) (snd (fst signed)) (snd signed)
           (pa_user_verified pending) None (pa_large_blob_key pending)).

End GetAssertion.
