(* ===== verification/U2f.v ===== *)
(** * CTAP1/U2F ([ctap/u2f.rs])

    Command APDUs: their framing, registration, authentication and the answer
    with its status word.  The X.509 certificate of self attestation is built
    by a library, a parameter here ([Certificates]). *)

From Stdlib Require Import Strings.String.
From S2P Require Import Prelude Constants Alg Crypto Cbor Records Request.
From S2P Require Import PinRetry Token Presence Store CredentialKey Signing Engine SealedId Ceremony.
From S2P Require Import LargeBlobs MakeCredential.

Definition SW_NO_ERROR : Z := 0x9000.
Definition SW_CONDITIONS_NOT_SATISFIED : Z := 0x6985.
Definition SW_COMMAND_NOT_ALLOWED : Z := 0x6986.
Definition SW_WRONG_DATA : Z := 0x6a80.
Definition SW_WRONG_LENGTH : Z := 0x6700.
Definition SW_CLA_NOT_SUPPORTED : Z := 0x6e00.
Definition SW_INS_NOT_SUPPORTED : Z := 0x6d00.
Definition SW_WRONG_PARAMETERS : Z := 0x6a86.
Definition SW_INTERNAL_ERROR : Z := 0x6f00.

(** ** Command APDUs *)

Inductive U2fRequest : Type :=
| Version
| URegister (challenge application : bytes)
| UAuthenticate (control : Z) (challenge application handle : bytes).

(** The data field, in short or extended form. *)
Definition apdu_data (apdu : bytes) : result bytes Z :=
  let len := length apdu in
  if (len =? 4)%nat || (len =? 5)%nat then Ok []
  else if nth 4 apdu 0 =? 0 then
    let? field := ok_or (get_slice apdu 5 7) SW_WRONG_LENGTH in
    let size := Z.to_nat (be_value field) in
    if (len =? 7)%nat || ((size =? 0)%nat && (len =? 9)%nat) then Ok []
    else
      let? data := ok_or (get_slice apdu 7 (7 + size)) SW_WRONG_LENGTH in
      if (len - (7 + size) =? 0)%nat || (len - (7 + size) =? 2)%nat then Ok data
      else Err SW_WRONG_LENGTH
  else
    let stop := (5 + Z.to_nat (nth 4 apdu 0%Z))%nat in
    let? data := ok_or (get_slice apdu 5 stop) SW_WRONG_LENGTH in
    if (len - stop =? 0)%nat || (len - stop =? 1)%nat then Ok data else Err SW_WRONG_LENGTH.

(** The request a data field makes. *)
Definition apdu_request (ins control : Z) (data : bytes) : result U2fRequest Z :=
  if (ins =? 3) && (length data =? 0)%nat then Ok Version
  else if (ins =? 1) && (length data =? 64)%nat
  then Ok (URegister (take 32 data) (slice data 32 64))
  else if (ins =? 2) && (65 <=? length data)%nat
          && (length data =? 65 + Z.to_nat (nth 64 data 0%Z))%nat
  then Ok (UAuthenticate control (take 32 data) (slice data 32 64) (drop 65 data))
  else Err SW_WRONG_LENGTH.

Definition apdu_parameters_ok (ins p1 p2 : Z) : bool :=
  (p2 =? 0) && (if ins =? 2 then (p1 =? 3) || (p1 =? 7) || (p1 =? 8) else p1 =? 0).

Definition decode (apdu : bytes) (disabled : bool) : result U2fRequest Z :=
  match apdu with
  | cla :: ins :: p1 :: p2 :: _ =>
      if negb (cla =? 0) then Err SW_CLA_NOT_SUPPORTED
      else if negb ((1 <=? ins) && (ins <=? 3)) then Err SW_INS_NOT_SUPPORTED
      else if disabled && ((ins =? 1) || (ins =? 2)) then Err SW_COMMAND_NOT_ALLOWED
      else if negb (apdu_parameters_ok ins p1 p2) then Err SW_WRONG_PARAMETERS
      else let? data := apdu_data apdu in apdu_request ins p1 data
  | _ => Err SW_WRONG_LENGTH
  end.

Definition requests_presence (apdu : bytes) : bool :=
  match decode apdu false with
  | Ok (URegister _ _) => true
  | Ok (UAuthenticate control _ _ _) => control =? 3
  | _ => false
  end.

(** ** Certificates *)

Record CertificateParams : Type := {
  cp_common_name : bytes;
  cp_serial_number : bytes;
  cp_not_before : Z * Z * Z;
  cp_not_after : Z * Z * Z
}.

(** [rcgen]: the DER of the self-signed certificate of a P-256 public key,
    given the signer. *)
Class Certificates : Type := {
  self_signed : CertificateParams -> bytes -> (bytes -> option bytes) -> option bytes
}.

Section U2f.

Context {S : Type} `{Crypto} `{KeyCrypto} `{SigningCrypto} `{Certificates} `{CredentialStore S}.

#[local] Abbreviation App := (CtapApp S).

(** [map_err] of an operation. *)
Definition failing_with {A} (status : Z) (m : M App A Z) : M App A Z := fun a =>
  match m a with
  | (b, Ok v) => (b, Ok v)
  | (b, Err _) => (b, Err status)
  end.

Definition public_key (key : CredentialSecretKey) : result bytes Z :=
  match key with
  | SkP256 scalar =>
      match ec_public P256 (be_value scalar) with
      | Some (x, y) => Ok (0x04 :: x ++ y)
      | None => Err SW_INTERNAL_ERROR
      end
  | _ => Err SW_INTERNAL_ERROR
  end.

(** The name and validity of every self-attestation certificate. *)
Definition certificate_params (serial : bytes) : CertificateParams := {|
  cp_common_name := ascii_bytes "U2F credential"; cp_serial_number := serial;
  cp_not_before := (1970, 1, 1); cp_not_after := (9999, 12, 31) |}.

Definition self_certificate (key : CredentialSecretKey) (public serial : bytes) (rng : Entropy)
    : result bytes Z :=
  ok_or (self_signed (certificate_params serial) public
           (fun message => match try_sign_challenge ES256 key message [] rng with
                           | Ok signature => Some signature
                           | Err _ => None
                           end)) SW_INTERNAL_ERROR.

(** A positive, non-zero serial number. *)
Definition positive_serial (serial : bytes) : bytes :=
  match serial with
  | first :: rest => Z.lor (Z.land first 0x7f) 1 :: rest
  | [] => []
  end.

Definition u2f_presence (operation : PresenceOperation) : M App unit Z :=
  let* timeout := gets app_presence_timeout in
  let* outcome := ask_user (presence_request operation timeout) in
  match outcome with
  | Approved => ret tt
  | _ => fail SW_CONDITIONS_NOT_SATISFIED
  end.

(** ** Registration *)

Definition u2f_record (key : PrivateKeyMaterial) : CredentialRecord := {|
  cr_credential_id := []; cr_rp_id := []; cr_user_id := []; cr_user_name := None;
  cr_user_display_name := None; cr_alg := ES256; cr_private_key := key;
  cr_cred_random_with_uv := repeat 0 32; cr_cred_random_without_uv := repeat 0 32;
  cr_cred_blob := None; cr_large_blob_key := None; cr_third_party_payment := false;
  cr_cred_protect := 1; cr_sign_count := 0; cr_created_at := 0 |}.

(** The attestation certificate and the key that signs. *)
Definition u2f_attestation (key : CredentialSecretKey) (public : bytes)
    : M App (bytes * CredentialSecretKey) Z := fun a0 =>
  (let* attestation := (match app_attestation_mode a0 with
                        | Certificate => attestation_record
                        | _ => ret None
                        end) in
   match attestation with
   | Some record =>
       let* signer := lift (map_err (fun _ => SW_INTERNAL_ERROR) (attestation_signing_key record)) in
       let* certificate := lift (ok_or (head (at_certificate_chain record)) SW_INTERNAL_ERROR) in
       ret (certificate, signer)
   | None =>
       let* serial := random_array 16 in
       let* rng := sys_rng in
       let* certificate := lift (self_certificate key public (positive_serial serial) rng) in
       ret (certificate, key)
   end) a0.

(** What a registration signs. *)
Definition registration_base (application challenge handle public : bytes) : bytes :=
  0 :: application ++ challenge ++ handle ++ public.

Definition u2f_register (challenge application : bytes) : M App bytes Z :=
  u2f_presence U2fRegister ;;*
  let* rng := sys_rng in
  let* private := lift (map_err (fun _ => SW_INTERNAL_ERROR) (try_generate ES256 rng)) in
  let* material := lift (ok_or (sealable private) SW_INTERNAL_ERROR) in
  let* sealed := failing_with SW_INTERNAL_ERROR
                   (seal_credential (u2f_record private) material application) in
  let record := set_credential_id (fst sealed) (snd sealed) in
  let* key := lift (map_err (fun _ => SW_INTERNAL_ERROR) (record_secret_key record)) in
  let* public := lift (public_key key) in
  let* attested := u2f_attestation key public in
  let* signature := failing_with SW_INTERNAL_ERROR
    (sign ES256 (snd attested)
       (registration_base application challenge (cr_credential_id record) public) []) in
  if 255 <? zlen (cr_credential_id record) then fail SW_INTERNAL_ERROR
  else ret (5 :: public ++ zlen (cr_credential_id record) :: cr_credential_id record
            ++ fst attested ++ signature).

(** ** Authentication *)

Definition u2f_usable (record : CredentialRecord) : bool :=
  bool_decide (cr_alg record = ES256) && negb (is_discoverable (cr_credential_id record))
  && negb (cr_cred_protect record =? 3).

Definition u2f_authenticate (control : Z) (challenge application handle : bytes) : M App bytes Z :=
  let* found := failing_with SW_INTERNAL_ERROR (credential_for_hash handle application) in
  match found with
  | None => fail SW_WRONG_DATA
  | Some record =>
      if negb (u2f_usable record) then fail SW_WRONG_DATA
      else if control =? 7 then fail SW_CONDITIONS_NOT_SATISFIED
      else
        (if control =? 3 then u2f_presence U2fAuthenticate else ret tt) ;;*
        let* key := lift (map_err (fun _ => SW_INTERNAL_ERROR) (record_secret_key record)) in
        let* counted := failing_with SW_INTERNAL_ERROR (advance_signature_counter record) in
        let response := (if control =? 3 then 1 else 0) :: be_bytes 4 (cr_sign_count counted) in
        let* signature := failing_with SW_INTERNAL_ERROR
                            (sign ES256 key (application ++ response) challenge) in
        ret (response ++ signature)
  end.

(** ** The whole command *)

Definition u2f_execute (request : U2fRequest) : M App bytes Z :=
  match request with
  | Version => ret (ascii_bytes "U2F_V2")
  | URegister challenge application => u2f_register challenge application
  | UAuthenticate control challenge application handle =>
      u2f_authenticate control challenge application handle
  end.

(** The data and the status word it is answered with. *)
Definition u2f_answer (result : result bytes Z) : bytes :=
  match result with
  | Ok data =>
      if zlen data <=? MAX_RESPONSE_SIZE - 2 then data ++ be_bytes 2 SW_NO_ERROR
      else be_bytes 2 SW_INTERNAL_ERROR
  | Err status => be_bytes 2 status
  end.

Definition u2f_result (apdu : bytes) : M App bytes Z :=
  modify (fun a => with_pending a None) ;;*
  observe_large_blob_state None ;;*
  let* disabled := gets (fun a => pp_always_uv (persistent a)) in
  let* request := lift (decode apdu disabled) in
  u2f_execute request.

Definition call_u2f (apdu : bytes) (a : App) : App * bytes :=
  let (b, r) := u2f_result apdu a in (b, u2f_answer r).

End U2f.
