(* ===== verification/Dispatch.v ===== *)
(** * authenticatorGetInfo and requests ([ctap/get_info.rs], [ctap.rs])

    What the engine says of itself: versions, extensions, options, limits and
    the current PIN policy.  [CtapApp::call]: what every request does to the remembered state, the
    command it dispatches to and the answer, and the parameters the request log
    names. *)

From Stdlib Require Import Strings.String.
From S2P Require Import Prelude Constants Alg Crypto Cbor Records Request PinRetry Token Presence Store.
From S2P Require Import CredentialKey Signing Engine ClientPin Reset AuthConfig LargeBlobs CredMgmt.
From S2P Require Import MakeCredential GetAssertion.

(** ** authenticatorGetInfo *)

Definition MAX_CREDENTIAL_COUNT_IN_LIST : Z := 8.

Definition MAX_CREDENTIAL_ID_LENGTH : Z := 128.

Definition PIN_UV_PROTOCOLS_SUPPORTED : list Z := [2; 1].

Section GetInfo.

Context `{Ciborium}.

Definition info_text (s : string) : Value := VText (ascii_bytes s).

Definition info_versions (u2f : bool) : Value :=
  VArray (map info_text ["FIDO_2_3"; "FIDO_2_1"; "FIDO_2_1_PRE"; "FIDO_2_0"]%string
          ++ if u2f then [info_text "U2F_V2"] else []).

Definition info_extensions : Value :=
  VArray (map info_text ["credBlob"; "credProtect"; "hmac-secret"; "hmac-secret-mc"; "largeBlobKey";
                         "minPinLength"; "pinComplexityPolicy"; "thirdPartyPayment"]%string).

Definition info_options (pin_set always_uv : bool) : Value :=
  canonical_map (map (fun o : string * bool => (info_text (fst o), VBool (snd o)))
    [("rk", true); ("up", true); ("credMgmt", true); ("perCredMgmtRO", true);
     ("credentialMgmtPreview", true); ("largeBlobs", true); ("pinUvAuthToken", true);
     ("clientPin", pin_set); ("authnrCfg", true); ("alwaysUv", always_uv);
     ("setMinPINLength", true); ("makeCredUvNotRqd", negb always_uv)]%string).

Definition info_algorithms : Value :=
  VArray (map (fun a => canonical_map [(VText text_type, VText PUBLIC_KEY);
                                       (VText text_alg, VInteger (identifier a))]) ALL).

Definition info_policy_url : string :=
  "https://github.com/rainzhang05/SoftwareAuthenticator/blob/main/docs/pin-complexity-policy.md".

(** Self and basic attestation are both "packed"; "none" alone is not listed. *)
Definition info_attestation (mode : AttestationMode) : Entries :=
  match mode with
  | SelfAttestation | Certificate => [(VInteger 0x16, VArray [VText text_packed])]
  | NoneMode => []
  end.

(** The entries, given the policy and the free slots if they can be counted. *)
Definition info_entries (aaguid : bytes) (mode : AttestationMode) (pin_set : bool)
    (policy : PersistentPinState) (remaining : option Z) : Entries :=
  let always_uv := pp_always_uv policy in
  [(VInteger 1, info_versions (negb always_uv));
   (VInteger 2, info_extensions);
   (VInteger 3, VBytes aaguid);
   (VInteger 4, info_options pin_set always_uv);
   (VInteger 5, VInteger MAX_MSG_SIZE);
   (VInteger 6, VArray (map VInteger PIN_UV_PROTOCOLS_SUPPORTED));
   (VInteger 7, VInteger MAX_CREDENTIAL_COUNT_IN_LIST);
   (VInteger 8, VInteger MAX_CREDENTIAL_ID_LENGTH);
   (VInteger 9, VArray [info_text "usb"]);
   (VInteger 0x1A, VArray [info_text "usb"]);
   (VInteger 10, info_algorithms);
   (VInteger 0x0B, VInteger MAX_SERIALIZED_LARGE_BLOB_ARRAY);
   (VInteger 0x0C, VBool (pp_force_pin_change policy));
   (VInteger 0x0D, VInteger (pp_min_pin_length policy));
   (VInteger 0x0F, VInteger MAX_CRED_BLOB_LENGTH);
   (VInteger 0x10, VInteger MAX_MIN_PIN_LENGTH_RP_IDS)]
  ++ match remaining with Some n => [(VInteger 0x14, VInteger n)] | None => [] end
  ++ info_attestation mode
  ++ [(VInteger 0x1B, VBool (pp_pin_complexity_policy policy));
      (VInteger 0x1C, VBytes (ascii_bytes info_policy_url));
      (VInteger 0x1F, VArray [VInteger 2; VInteger 3])].

Context {S : Type} `{Crypto} `{CredentialStore S}.

#[local] Abbreviation App := (CtapApp S).

(** U2F is off while always-UV is on. *)
Definition u2f_enabled (a : App) : bool := negb (pp_always_uv (persistent a)).

(** [None]: the store cannot be counted. *)
Definition remaining_credential_slots : M App (option Z) Z := fun a =>
  match st_count (app_store a) with
  | (s, Ok count) =>
      (with_store a s, Ok (Some (saturating_sub (st_max_credentials (app_store a)) count)))
  | (s, Err _) => (with_store a s, Ok None)
  end.

(** A failed refresh does not fail the command. *)
Definition handle_get_info : M App bytes Z := fun a0 =>
  let a1 := fst (refresh_persistent_authority a0) in
  (let* remaining := remaining_credential_slots in
   fun a =>
     (a, Ok (CTAP2_OK :: into_writer (VMap (canonical_sort
        (info_entries (app_aaguid a) (app_attestation_mode a) (is_set (ps_pin (app_pin_state a)))
           (persistent a) remaining)))))) a1.

End GetInfo.

(** ** Requests *)

Section Dispatch.

Context {S : Type} `{Crypto} `{KeyCrypto} `{SigningCrypto} `{Ciborium} `{CredentialStore S}.

#[local] Abbreviation App := (CtapApp S).

Definition dispatch (command : Z) (payload : bytes) : M App bytes Z :=
  if command =? CTAP_CMD_GET_INFO then handle_get_info
  else if command =? CTAP_CMD_MAKE_CREDENTIAL then handle_make_credential payload
  else if command =? CTAP_CMD_GET_ASSERTION then handle_get_assertion payload
  else if command =? CTAP_CMD_GET_NEXT_ASSERTION then handle_get_next_assertion
  else if command =? CTAP_CMD_CLIENT_PIN then handle_client_pin payload
  else if command =? CTAP_CMD_RESET then handle_reset
  else if command =? CTAP_CMD_CREDENTIAL_MANAGEMENT
  then handle_credential_management_family Standard payload
  else if command =? CTAP_CMD_CREDENTIAL_MANAGEMENT_PROTOTYPE
  then handle_credential_management_family Preview payload
  else if command =? CTAP_CMD_SELECTION then handle_selection
  else if command =? CTAP_CMD_AUTHENTICATOR_CONFIG then handle_authenticator_config payload
  else if command =? CTAP_CMD_LARGE_BLOBS then handle_large_blobs payload
  else fail CTAP1_ERR_INVALID_COMMAND.

(** Every request but getNextAssertion forgets the remembered getAssertion. *)
Definition forget_assertion (command : option Z) : M App unit Z :=
  if bool_decide (command = Some CTAP_CMD_GET_NEXT_ASSERTION) then ret tt
  else modify (fun a => with_pending a None).

Definition call_result (request : bytes) : M App bytes Z :=
  observe_large_blob_state (head request) ;;*
  forget_assertion (head request) ;;*
  match request with
  | [] => fail CTAP1_ERR_INVALID_LENGTH
  | command :: payload => dispatch command payload
  end.

(** An error is answered with its status alone. *)
Definition call (request : bytes) (a : App) : App * bytes :=
  match call_result request a with
  | (b, Ok message) => (b, message)
  | (b, Err status) => (b, [status])
  end.

(** ** The request log *)

(** The first entry under [key] whose value is a byte. *)
Definition byte_at (entries : Entries) (key : Z) : option Z :=
  match find (fun entry => match entry with
                           | (VInteger k, VInteger v) => (k =? key) && (0 <=? v) && (v <=? 255)
                           | _ => false
                           end) entries with
  | Some (_, VInteger v) => Some v
  | _ => None
  end.

(** The keys of the subcommand and of pinUvAuthProtocol. *)
Definition logged_keys (command : Z) : option (option Z * Z) :=
  if command =? CTAP_CMD_CLIENT_PIN then Some (Some 2, 1)
  else if (command =? CTAP_CMD_CREDENTIAL_MANAGEMENT)
          || (command =? CTAP_CMD_CREDENTIAL_MANAGEMENT_PROTOTYPE)
          || (command =? CTAP_CMD_AUTHENTICATOR_CONFIG) then Some (Some 1, 3)
  else if command =? CTAP_CMD_LARGE_BLOBS then Some (None, 6)
  else None.

Definition subcommand_and_pin_protocol_for_logging (command : Z) (payload : bytes)
    : option Z * option Z :=
  match logged_keys command with
  | None => (None, None)
  | Some (sub_command, pin_protocol) =>
      match from_reader payload with
      | Some (VMap entries) =>
          (match sub_command with Some k => byte_at entries k | None => None end,
           byte_at entries pin_protocol)
      | _ => (None, None)
      end
  end.

End Dispatch.
