(* ===== verification/Footprint.v ===== *)
(** * What each command may write

    A footprint is the set of regions of the state an operation may write:
    stored credentials, the PIN record, the signature counter, the large-blob
    array, the remembered assertions.  Every command reaches the store only
    through its calls, and only through those its footprint allows. *)

From stdpp Require Import gmap.
From S2P Require Import Prelude Constants Alg Crypto Cbor Records Request.
From S2P Require Import PinRetry Token Presence Store CredentialKey Signing Engine ClientPin.
From S2P Require Import Reset AuthConfig LargeBlobs CredMgmt SealedId Ceremony MakeCredential.
From S2P Require Import GetAssertion U2f Dispatch.

Section Footprint.

Context {S : Type} `{Crypto} `{CredentialStore S}.

#[local] Abbreviation App := (CtapApp S).

(** [c] writes no region outside [W]. *)
Definition allowed (W : list Region) (c : StoreCall) : Prop := forall R, touches R c = true -> R ∈ W.

(** From [a] to [b] the store only saw calls allowed by [W], and the remembered
    assertions changed only if [W] has them. *)
Record confined (W : list Region) (a b : App) : Prop := {
  con_store : exists calls, Forall (allowed W) calls /\
    app_store b = run_calls calls (app_store a);
  con_pending : RPending ∉ W -> app_pending_assertion b = app_pending_assertion a
}.

#[export] Instance confined_preorder W : PreOrder (confined W).
Proof.
  split.
  - intros a. split; [by exists []|done].
  - intros a b c [(l1 & H1 & E1) P1] [(l2 & H2 & E2) P2]. split.
    + exists (l1 ++ l2). split; [by apply Forall_app|]. unfold run_calls in *. by rewrite fold_left_app, <- E1.
    + intros HR. by rewrite P2, P1.
Qed.

Lemma confined_same W a b :
  app_store b = app_store a -> app_pending_assertion b = app_pending_assertion a -> confined W a b.
Proof. intros Hs Hp. split; [by exists []|done]. Qed.

Lemma confined_call W a c :
  allowed W c -> confined W a (with_store a (run_call c (app_store a))).
Proof. intros Hc. split; [|done]. exists [c]. split; [by constructor|done]. Qed.

(** From [a] to [b] the store was not reset. *)
Definition unreset (a b : App) : Prop :=
  exists calls, Forall (fun c => c <> SClear) calls /\ app_store b = run_calls calls (app_store a).

#[export] Instance unreset_preorder : PreOrder unreset.
Proof.
  split; [intros a; by exists []|]. intros a b c (l1 & H1' & E1) (l2 & H2' & E2). exists (l1 ++ l2).
  split; [by apply Forall_app|]. unfold run_calls in *. by rewrite fold_left_app, <- E1.
Qed.

Lemma confined_unreset W (a b : App) : RBlobs ∉ W \/ RCreds ∉ W -> confined W a b -> unreset a b.
Proof.
  intros HW [(calls & Hc & E) _]. exists calls. split; [|done]. eapply Forall_impl; [exact Hc|].
  intros c Hal ->. destruct HW as [HW|HW]; by apply HW, Hal.
Qed.

(** [m] writes no region outside [W], whatever it returns. *)
Definition footprint {A} (W : list Region) (m : M App A Z) : Prop :=
  forall a, confined W a (fst (m a)).

Lemma footprint_bind {A B} W (m : M App A Z) (k : A -> M App B Z) :
  footprint W m -> (forall x, footprint W (k x)) -> footprint W (mbind_st m k).
Proof.
  intros Hm Hk a. unfold mbind_st. specialize (Hm a).
  destruct (m a) as [b [x|e]]; simpl in *; [|done]. etrans; [exact Hm|apply Hk].
Qed.

(** An operation that leaves the store and the remembered assertions alone. *)
Lemma footprint_still {A} W (m : M App A Z) :
  (forall a, app_store (fst (m a)) = app_store a /\
             app_pending_assertion (fst (m a)) = app_pending_assertion a) -> footprint W m.
Proof. intros Hm a. destruct (Hm a). by apply confined_same. Qed.

Lemma footprint_pure {A} W (f : App -> result A Z) : footprint W (fun a => (a, f a)).
Proof. by apply footprint_still. Qed.

Lemma footprint_ret {A} W (x : A) : footprint W (ret x).
Proof. by apply footprint_still. Qed.

Lemma footprint_fail {A} W e : footprint W (@fail App A Z e).
Proof. by apply footprint_still. Qed.

Lemma footprint_lift {A} W (r : result A Z) : footprint W (lift r).
Proof. by apply footprint_still. Qed.

Lemma footprint_gets {A} W (f : App -> A) : footprint W (gets f).
Proof. by apply footprint_still. Qed.

Lemma footprint_guard W b e : footprint W (@guard App Z b e).
Proof. by destruct b; apply footprint_still. Qed.

Lemma footprint_now W : footprint W now.
Proof. by apply footprint_still. Qed.

Lemma footprint_random W n : footprint W (random_array n).
Proof. by apply footprint_still. Qed.

Lemma footprint_ask W r : footprint W (ask_user r).
Proof. by apply footprint_still. Qed.

Lemma footprint_rng W : footprint W sys_rng.
Proof. by apply footprint_still. Qed.

Lemma footprint_modify_pin W f : footprint W (modify_pin f).
Proof. by apply footprint_still. Qed.

Lemma footprint_cm W f : footprint W (modify (fun a : App => with_cred_mgmt a (f a))).
Proof. by apply footprint_still. Qed.

Lemma footprint_blob W f : footprint W (modify (fun a : App => with_large_blob a (f a))).
Proof. by apply footprint_still. Qed.

Lemma footprint_stored W v : footprint W (modify (fun a : App => with_stored_pin_state a (v a))).
Proof. by apply footprint_still. Qed.

Lemma footprint_pending W f :
  RPending ∈ W -> footprint W (modify (fun a : App => with_pending a (f a))).
Proof. intros HW a. split; [by exists []|done]. Qed.

Lemma footprint_token_query {A} W q : footprint W (@token_query S A q).
Proof.
  apply footprint_bind; [apply footprint_now|]. intros t. apply footprint_still. intros a.
  by destruct (q t _).
Qed.

Lemma footprint_token_check W op : footprint W (@token_check S op).
Proof.
  apply footprint_bind; [apply footprint_now|]. intros t. apply footprint_still. intros a.
  by destruct (op t _).
Qed.

Lemma footprint_confirm W r : footprint W (confirm_user_presence r).
Proof. apply footprint_bind; [apply footprint_ask|intros o; apply footprint_lift]. Qed.

(** ** Calls of the store *)

(** [m] makes call [c]. *)
Lemma footprint_store {A E} W (m : M S A E) f (c : StoreCall) :
  (forall s, fst (m s) = run_call c s) -> allowed W c -> footprint W (on_store m f).
Proof.
  intros Hm HW a. unfold on_store. pose proof (confined_call W a c HW) as Hs. rewrite <- Hm in Hs.
  by destruct (m (app_store a)) as [s [v|e]].
Qed.

Lemma footprint_stored_credential W id : footprint W (stored_credential id).
Proof.
  intros a. assert (Hs : confined W a _) by (by apply (confined_call W a (SGet id))). simpl in Hs.
  unfold stored_credential. by destruct (st_get id (app_store a)) as [s [v|[]]].
Qed.

Lemma footprint_stored_credentials W : footprint W stored_credentials.
Proof. by apply (footprint_store W st_list store_status SList). Qed.

Lemma footprint_open W b ad : footprint W (on_store (st_open_credential_id b ad) store_status).
Proof. by apply (footprint_store W _ _ (SOpen b ad)). Qed.

Lemma footprint_seal W p ad : footprint W (on_store (st_seal_credential_id p ad) store_status).
Proof. by apply (footprint_store W _ _ (SSeal p ad)). Qed.

Lemma footprint_counter W : footprint W (on_store st_signature_counter store_status).
Proof. by apply (footprint_store W _ _ SCounter). Qed.

(** [x] alone may be written. *)
Lemma touches_only (c : StoreCall) (x : Region) (W : list Region) :
  (forall R, touches R c = bool_decide (R = x)) -> x ∈ W -> allowed W c.
Proof. intros Hc Hx R. rewrite Hc. intros ->%bool_decide_eq_true. done. Qed.

Lemma footprint_put W r : RCreds ∈ W -> footprint W (on_store (st_put r) store_status).
Proof. intros. by apply (footprint_store W _ _ (SPut r)), (touches_only _ RCreds). Qed.

Lemma footprint_insert W r :
  RCreds ∈ W -> footprint W (on_store (st_insert_or_replace_discoverable r) store_status).
Proof. intros. by apply (footprint_store W _ _ (SInsert r)), (touches_only _ RCreds). Qed.

Lemma footprint_delete W id : RCreds ∈ W -> footprint W (on_store (st_delete id) store_status).
Proof. intros. by apply (footprint_store W _ _ (SDelete id)), (touches_only _ RCreds). Qed.

Lemma footprint_set_counter W v :
  RCounter ∈ W -> footprint W (on_store (st_set_signature_counter v) store_status).
Proof. intros. by apply (footprint_store W _ _ (SSetCounter v)), (touches_only _ RCounter). Qed.

Lemma footprint_set_blobs W b :
  RBlobs ∈ W -> footprint W (on_store (st_set_large_blob_array b) store_status).
Proof. intros. by apply (footprint_store W _ _ (SSetBlobs b)), (touches_only _ RBlobs). Qed.

Lemma footprint_attestation W : footprint W attestation_record.
Proof.
  intros a. assert (Hs : confined W a _) by (by apply (confined_call W a SAttestation)). simpl in Hs.
  unfold attestation_record. by destruct (st_attestation (app_store a)) as [s [v|e]].
Qed.

Lemma footprint_read_store W : footprint W read_store_pin_state.
Proof.
  intros a. assert (Hs : confined W a _) by (by apply (confined_call W a SPinState)). simpl in Hs.
  unfold read_store_pin_state. by destruct (st_pin_state (app_store a)) as [s v].
Qed.

Lemma footprint_flush W : footprint W unsupported_directory_flush.
Proof.
  intros a. assert (Hs : confined W a _) by (by apply (confined_call W a SFlush)). simpl in Hs.
  unfold unsupported_directory_flush. destruct (app_directory_flush a) as [[]|]; try done.
  destruct (st_directory_flush (app_store a)) as [s [|e|e]]; cbn; try done;
    (etrans; [exact Hs|by apply confined_same]).
Qed.

Lemma footprint_slots W : footprint W remaining_credential_slots.
Proof.
  intros a. assert (Hs : confined W a _) by (by apply (confined_call W a SCount)). simpl in Hs.
  unfold remaining_credential_slots. by destruct (st_count (app_store a)) as [s [v|e]].
Qed.

Lemma footprint_save W p : RPin ∈ W -> footprint W (save_pin_state p).
Proof.
  intros HW a. unfold save_pin_state. destruct (app_stored_pin_state a); try done.
  refine (footprint_store W _ _ (SSetPinState (record_of_persistent p)) _ _ a); [done|].
  by apply (touches_only _ RPin).
Qed.

End Footprint.

Create HintDb footprints.

#[export] Hint Resolve footprint_pure footprint_ret footprint_fail footprint_lift footprint_gets
  footprint_guard footprint_now footprint_random footprint_ask footprint_rng footprint_modify_pin
  footprint_cm footprint_blob footprint_stored footprint_pending footprint_token_query
  footprint_token_check footprint_confirm footprint_stored_credential footprint_stored_credentials
  footprint_open footprint_seal footprint_counter footprint_put footprint_insert footprint_delete
  footprint_set_counter footprint_set_blobs footprint_attestation footprint_read_store
  footprint_flush footprint_slots footprint_save : footprints.

(** Decompose an operation into the primitives above. *)
Ltac fp_step :=
  match goal with
  | |- footprint _ (mbind_st _ _) => apply footprint_bind; [|intros ?]
  | |- footprint _ (if ?b then _ else _) => destruct b
  | |- footprint _ (match ?x with _ => _ end) => destruct x
  | |- _ => solve [eauto with footprints]
  end.

Ltac fp := repeat fp_step.

(** Look at the state a body starts from; forget it again. *)
Ltac fp_look := intros ?; cbn beta.

Ltac fp_here :=
  lazymatch goal with
  | |- confined ?W ?a (fst (?m ?a)) => cut (footprint W m); [intros HH; exact (HH a)|]
  end.

(** ** The engine's operations *)

Section Commands.

Context {S : Type} `{Crypto} `{KeyCrypto} `{SigningCrypto} `{Ciborium} `{Certificates}.
Context `{CredentialStore S}.

#[local] Abbreviation App := (CtapApp S).

Lemma footprint_adopt W r : footprint (S := S) W (adopt_record r).
Proof.
  apply footprint_still. intros a. unfold adopt_record. by destruct (_ || _).
Qed.

Lemma footprint_close W : footprint (S := S) W close_authority.
Proof. by apply footprint_still. Qed.

Lemma footprint_load W : footprint (S := S) W load_pin_state.
Proof. unfold load_pin_state, unreadable_pin_state. fp. Qed.

Lemma footprint_clear_cm W : footprint (S := S) W clear_cred_mgmt.
Proof. apply footprint_cm. Qed.

#[local] Hint Resolve footprint_adopt footprint_close footprint_load footprint_clear_cm : footprints.

Lemma footprint_refresh W : footprint (S := S) W refresh_persistent_authority.
Proof.
  intros a. unfold refresh_persistent_authority.
  destruct (app_stored_pin_state a); try done.
  - fp_here. fp. fp_look. repeat case_match; try done; fp_here; fp.
  - fp_here. unfold read_unread_pin_state. fp.
Qed.

#[local] Hint Resolve footprint_refresh : footprints.

Lemma footprint_read_if_unread W : footprint (S := S) W read_pin_state_if_unread.
Proof.
  intros a. unfold read_pin_state_if_unread.
  destruct (app_stored_pin_state a); try done. fp_here. fp.
Qed.

Lemma footprint_reconcile W : footprint (S := S) W reconcile_persistent_authority.
Proof.
  intros a. unfold reconcile_persistent_authority. pose proof (footprint_refresh W a) as Hr.
  destruct (refresh_persistent_authority a) as [b [x|e]]; cbn [fst] in *; [done|].
  destruct (app_stored_pin_state b); try done. etrans; [exact Hr|].
  fp_here. unfold unreadable_pin_state. fp.
Qed.

Lemma footprint_fresh_loop W n forbidden b : footprint (S := S) W (fresh_secret_loop n forbidden b).
Proof.
  induction n as [|n IH]; simpl; [fp|]. fp. fp_look. destruct (_ && _); [done|]. fp_here. exact IH.
Qed.

Lemma footprint_fresh W forbidden b : footprint (S := S) W (fresh_token_secret forbidden b).
Proof. apply footprint_fresh_loop. Qed.

#[local] Hint Resolve footprint_read_if_unread footprint_reconcile footprint_fresh : footprints.

Lemma footprint_rotate W p : footprint (S := S) W (rotate_persistent_tokens p).
Proof. unfold rotate_persistent_tokens. fp. Qed.

Lemma footprint_draw_key W n : footprint (S := S) W (draw_key n).
Proof. induction n as [|n IH]; simpl; [fp|]. fp; exact IH. Qed.

Lemma footprint_key_agreement W p : footprint (S := S) W (key_agreement_key p).
Proof.
  fp_look. unfold key_agreement_key. case_match; [done|]. fp_here. fp. apply footprint_draw_key.
Qed.

#[local] Hint Resolve footprint_rotate footprint_key_agreement : footprints.

Lemma footprint_decapsulate W p k : footprint (S := S) W (decapsulate p k).
Proof. unfold decapsulate. fp. Qed.

Lemma footprint_encrypt W p k t : footprint (S := S) W (encrypt_for_platform p k t).
Proof. unfold encrypt_for_platform. fp. Qed.

#[local] Hint Resolve footprint_decapsulate footprint_encrypt : footprints.

(** ** Commands that write the PIN record *)

Section PinWriters.

Context (W : list Region) (HP : RPin ∈ W).

Lemma footprint_verify_pin p k e : footprint (S := S) W (verify_pin_hash_enc p k e).
Proof using HP.
  apply footprint_bind.
  - unfold debit_retry. fp. fp_look. destruct (begin_attempt _) as [d [?|err]]; [|done].
    fp_here. unfold adopt_retry_state. fp.
  - intros _. fp_look. unfold compare_candidate. destruct (finish_attempt _ _) as [c [?|err]];
      fp_here; unfold adopt_retry_state, save_persistent_pin_state; fp.
    fp_look. fp_here. fp.
Qed.

Lemma footprint_new_pin h n : footprint (S := S) W (store_new_pin h n).
Proof using HP. fp_look. unfold store_new_pin. fp_here. fp. Qed.

#[local] Hint Resolve footprint_verify_pin footprint_new_pin : footprints.

Lemma footprint_get_token p ka enc g e : footprint (S := S) W (client_pin_get_token_common p ka enc g e).
Proof using HP.
  unfold client_pin_get_token_common, grant_persistent, grant_transient, issue_pin_uv_auth_token. fp.
Qed.

#[local] Hint Resolve footprint_get_token : footprints.

Lemma footprint_client_pin payload : footprint (S := S) W (handle_client_pin payload).
Proof using HP.
  unfold handle_client_pin, client_pin_get_retries, client_pin_get_key_agreement,
    client_pin_set_pin, client_pin_change_pin, client_pin_get_token_legacy,
    client_pin_get_token_with_permissions. fp.
Qed.

Lemma footprint_config payload : footprint (S := S) W (handle_authenticator_config payload).
Proof using HP.
  unfold handle_authenticator_config, config_authorize, verify_pin_uv_auth_param,
    app_has_permission. fp.
  - fp_look. unfold toggle_always_uv. fp_here. fp.
  - fp_look. unfold set_min_pin_length. fp_here. fp.
Qed.

End PinWriters.

(** ** The other commands *)

Lemma footprint_selection W : footprint (S := S) W handle_selection.
Proof. unfold handle_selection. fp. Qed.

Lemma footprint_get_info W : footprint (S := S) W handle_get_info.
Proof.
  intros a. unfold handle_get_info. etrans; [apply (footprint_refresh W a)|]. fp_here. fp.
Qed.

Lemma footprint_reset : footprint (S := S) [RCreds; RPin; RCounter; RBlobs] handle_reset.
Proof.
  unfold handle_reset. fp.
  - fp_look. unfold within_reset_window. case_match; [|done]. fp_here. fp.
  - intros a. assert (Hc : allowed [RCreds; RPin; RCounter; RBlobs] SClear) by (intros []; set_solver).
    pose proof (confined_call _ a SClear Hc) as Hs. simpl in Hs. destruct (st_clear (app_store a)) as [s [d|e]]; cbn [fst] in *;
      (etrans; [exact Hs|]); fp_here; fp.
Qed.

Lemma footprint_observe W c : footprint (S := S) W (observe_large_blob_state c).
Proof.
  unfold observe_large_blob_state, discard, set_blob_state, pin_uv_auth_token_id. fp.
Qed.

Lemma footprint_large_blobs W payload :
  RBlobs ∈ W -> footprint (S := S) W (handle_large_blobs payload).
Proof.
  intros HB. unfold handle_large_blobs. apply footprint_bind; [apply footprint_observe|]. intros _.
  unfold large_blobs_get, large_blobs_set, large_blobs_authorize, announce_length, stage_fragment,
    discard, set_blob_state, verify_pin_uv_auth_param, app_has_permission, pin_uv_auth_token_id. fp.
  - intros b. assert (Hs : confined W b _) by (by apply (confined_call W b SBlobs)). simpl in Hs.
    by destruct (st_large_blob_array (app_store b)) as [s r].
  - fp_look. unfold commit_staged. repeat case_match; try done; fp_here; fp.
Qed.

(** ** Credential management *)

Lemma footprint_continuation W auth family h :
  footprint (S := S) W (cm_continuation_authorized auth family h).
Proof.
  unfold cm_continuation_authorized, pin_uv_auth_token_id, app_user_verified_flag, app_token_origin,
    app_permissions_rp_id, app_has_permission. fp.
Qed.

Lemma footprint_ensure_cm W sub params :
  footprint (S := S) W (ensure_pin_token_permission_for_cm sub params).
Proof.
  unfold ensure_pin_token_permission_for_cm, managed_credential, app_has_permission,
    app_permissions_rp_id. fp.
Qed.

#[local] Hint Resolve footprint_continuation footprint_ensure_cm : footprints.

Lemma footprint_grant W family sub params p m sig :
  footprint (S := S) W (cm_grant family sub params p m sig).
Proof.
  unfold cm_grant, cm_authorize, verify_pin_uv_auth_param, pin_uv_auth_token_id,
    app_user_verified_flag, app_token_origin, app_permissions_rp_id. fp.
Qed.

Lemma footprint_next_loop W ids : footprint (S := S) W (next_credential_loop ids).
Proof. induction ids as [|id ids IH]; simpl; unfold modify_cm; fp; exact IH. Qed.

#[local] Hint Resolve footprint_grant footprint_next_loop : footprints.

Lemma footprint_execute W sub params auth :
  RCreds ∈ W -> footprint (S := S) W (cm_execute sub params auth).
Proof.
  intros HC. unfold cm_execute, cm_get_metadata, cm_enumerate_rps_begin,
    cm_enumerate_credentials_begin, cm_delete_credential, cm_update_user_information,
    discoverable_credentials, managed_credential, reset_enumerations, modify_cm. fp.
Qed.

Lemma footprint_refresh_na W : footprint (S := S) W refresh_or_not_allowed.
Proof.
  intros a. unfold refresh_or_not_allowed. pose proof (footprint_refresh W a) as Hr. by destruct (refresh_persistent_authority a).
Qed.

#[local] Hint Resolve footprint_execute footprint_refresh_na : footprints.

Lemma footprint_cred_mgmt W family payload :
  RCreds ∈ W -> footprint (S := S) W (handle_credential_management_family family payload).
Proof.
  intros HC. unfold handle_credential_management_family, cm_authenticated, cm_enter_family,
    cm_enter_context, cm_enumerate_rps_next, cm_enumerate_credentials_next, modify_cm. fp.
Qed.

(** ** Ceremonies *)

Lemma footprint_for_hash W id h : footprint (S := S) W (credential_for_hash id h).
Proof. unfold credential_for_hash. fp. Qed.

#[local] Hint Resolve footprint_for_hash : footprints.

Lemma footprint_for_rp W id rp : footprint (S := S) W (credential_for_rp id rp).
Proof. unfold credential_for_rp. fp. Qed.

Lemma footprint_seal_credential W r k h : footprint (S := S) W (seal_credential r k h).
Proof. unfold seal_credential. fp. Qed.

Lemma footprint_present W auth : footprint (S := S) W (token_present auth).
Proof. unfold token_present, app_user_present_flag. fp. Qed.

Lemma footprint_authorize W protected auth p h rp :
  footprint (S := S) W (authorize_ceremony protected auth p h rp).
Proof.
  unfold authorize_ceremony, verify_pin_uv_auth_param, ensure_pin_token_permission_for_rp. fp.
Qed.

Lemma footprint_select W : footprint (S := S) W select_for_pin_uv_auth.
Proof. unfold select_for_pin_uv_auth. fp. Qed.

Lemma footprint_consume W : footprint (S := S) W app_consume_token.
Proof. unfold app_consume_token. fp. Qed.

Lemma footprint_hmac_outputs W p r : footprint (S := S) W (encrypt_hmac_secret_outputs p r).
Proof. unfold encrypt_hmac_secret_outputs. fp. Qed.

#[local] Hint Resolve footprint_for_rp footprint_seal_credential footprint_present
  footprint_authorize footprint_select footprint_consume footprint_hmac_outputs : footprints.

Lemma footprint_hmac_secret W r w wo uv : footprint (S := S) W (process_hmac_secret r w wo uv).
Proof. unfold process_hmac_secret. fp. Qed.

Lemma footprint_sign W alg k d h : footprint (S := S) W (sign alg k d h).
Proof. unfold sign. fp. Qed.

Lemma footprint_advance W c :
  RCreds ∈ W -> RCounter ∈ W -> footprint (S := S) W (advance_signature_counter c).
Proof. intros. unfold advance_signature_counter. fp. Qed.

#[local] Hint Resolve footprint_hmac_secret footprint_sign footprint_advance : footprints.

Lemma footprint_exclude W ids rp uv auth request :
  footprint (S := S) W (mc_exclude ids rp uv auth request).
Proof.
  induction ids as [|id ids IH]; simpl; [fp|]. fp; try exact IH. unfold mc_excluded. fp.
  intros b. pose proof (footprint_confirm W request b) as Hc.
  by destruct (confirm_user_presence request b) as [c' [x|e]].
Qed.

Lemma footprint_respond W kinds stored r sec d h :
  RCreds ∈ W -> footprint (S := S) W (mc_respond kinds stored r sec d h).
Proof.
  intros HC. induction kinds as [|k kinds IH]; simpl; [fp|].
  unfold attestation_statement, store_new_credential. fp; exact IH.
Qed.

#[local] Hint Resolve footprint_exclude footprint_respond : footprints.

Lemma footprint_kinds W none : footprint (S := S) W (attestation_kinds none).
Proof. fp_look. unfold attestation_kinds. repeat case_match; try done. fp_here. fp. Qed.

Lemma footprint_entries W p r uv : footprint (S := S) W (mc_extension_entries p r uv).
Proof. fp_look. unfold mc_extension_entries. fp_here. fp. Qed.

#[local] Hint Resolve footprint_kinds footprint_entries : footprints.

Lemma footprint_make_credential W payload :
  RCreds ∈ W -> footprint (S := S) W (handle_make_credential payload).
Proof.
  intros HC. unfold handle_make_credential, mc_authorized, mc_user_presence, mc_finish, mc_create,
    app_new_credential_id. fp.
Qed.

Lemma footprint_denoted W ids rp uv acc : footprint (S := S) W (ga_denoted ids rp uv acc).
Proof. revert acc. induction ids as [|id ids IH]; intros acc; simpl; fp; apply IH. Qed.

Lemma footprint_next_remaining W ids rp : footprint (S := S) W (next_remaining ids rp).
Proof. induction ids as [|id ids IH]; simpl; fp; exact IH. Qed.

#[local] Hint Resolve footprint_denoted footprint_next_remaining : footprints.

Section Assertions.

Context (W : list Region) (HC : RCreds ∈ W) (HN : RCounter ∈ W) (HP : RPending ∈ W).

Lemma footprint_sign_assertion c rp h up uv ext :
  footprint (S := S) W (sign_assertion c rp h up uv ext).
Proof using HC HN. unfold sign_assertion. fp. Qed.

#[local] Hint Resolve footprint_sign_assertion : footprints.

Lemma footprint_get_assertion payload : footprint (S := S) W (handle_get_assertion payload).
Proof using HC HN HP.
  unfold handle_get_assertion, ga_verified, ga_locate, ga_assert, ga_user_presence, ga_outputs,
    ga_remember, pin_uv_auth_token_id. fp.
Qed.

Lemma footprint_get_next_assertion : footprint (S := S) W handle_get_next_assertion.
Proof using HC HN HP.
  unfold handle_get_next_assertion, pending_token_live, next_outputs, pin_uv_auth_token_id.
  apply footprint_bind; [|intros ?; fp].
  intros a. unfold take_pending. case_match; [|done]. split; [by exists []|done].
Qed.

(** ** U2F *)

Lemma footprint_failing {A} status (m : M App A Z) : footprint W m -> footprint W (failing_with status m).
Proof using Type.
  intros Hm a. unfold failing_with. specialize (Hm a). by destruct (m a) as [b [x|e]].
Qed.

Lemma footprint_u2f_attestation key public : footprint (S := S) W (u2f_attestation key public).
Proof using Type. fp_look. unfold u2f_attestation. fp_here. fp. Qed.

#[local] Hint Resolve footprint_failing footprint_u2f_attestation : footprints.

Lemma footprint_u2f_execute request : footprint (S := S) W (u2f_execute request).
Proof using HC HN.
  unfold u2f_execute, u2f_register, u2f_authenticate, u2f_presence. fp.
Qed.

Lemma footprint_u2f apdu : footprint (S := S) W (u2f_result apdu).
Proof using HC HN HP.
  unfold u2f_result. fp; [apply footprint_observe|apply footprint_u2f_execute].
Qed.

End Assertions.

(** ** Requests *)

(** The regions a command's handler may write. *)
Definition command_writes (command : Z) : list Region :=
  if command =? CTAP_CMD_MAKE_CREDENTIAL then [RCreds]
  else if command =? CTAP_CMD_GET_ASSERTION then [RCreds; RCounter; RPending]
  else if command =? CTAP_CMD_GET_NEXT_ASSERTION then [RCreds; RCounter; RPending]
  else if command =? CTAP_CMD_CLIENT_PIN then [RPin]
  else if command =? CTAP_CMD_RESET then [RCreds; RPin; RCounter; RBlobs]
  else if command =? CTAP_CMD_CREDENTIAL_MANAGEMENT then [RCreds]
  else if command =? CTAP_CMD_CREDENTIAL_MANAGEMENT_PROTOTYPE then [RCreds]
  else if command =? CTAP_CMD_AUTHENTICATOR_CONFIG then [RPin]
  else if command =? CTAP_CMD_LARGE_BLOBS then [RBlobs]
  else [].

Lemma footprint_weaken {A} W W' (m : M App A Z) : footprint W m -> W ⊆ W' -> footprint W' m.
Proof.
  intros Hm HW a. destruct (Hm a) as [(l & Hl & E) Hp]. split; [|intros HR; apply Hp; set_solver].
  exists l. split; [|done]. eapply Forall_impl; [exact Hl|]. intros c Hc R HR. by apply HW, Hc.
Qed.

Ltac member := apply list_elem_of_In; simpl; tauto.

Lemma footprint_dispatch command payload :
  footprint (S := S) (command_writes command) (dispatch command payload).
Proof.
  unfold dispatch, command_writes.
  repeat match goal with
    | |- context [if command =? ?c then _ else _] => destruct (Z.eqb_spec command c) as [->|?]
    | |- context [if ?b then _ else _] => destruct b eqn:?; [try done|try done]
    end;
    first [apply footprint_get_info|apply footprint_make_credential; member
          |apply footprint_get_assertion; member|apply footprint_get_next_assertion; member
          |apply footprint_client_pin; member
          |apply footprint_reset
          |apply footprint_cred_mgmt; member|apply footprint_selection
          |apply footprint_config; member|apply footprint_large_blobs; member
          |apply footprint_fail].
Qed.

End Commands.
