(* ===== verification/RegistrationProofs.v ===== *)
(** * What authenticatorMakeCredential guarantees

    A registration either changes no credential or commits exactly one, after
    everything else; it was authorized and consented to, and its response fits
    a CTAPHID message. *)

From stdpp Require Import gmap.
From S2P Require Import Prelude Constants Alg Crypto ConcreteCrypto Cbor ConcreteCbor.
From S2P Require Import Records Request PinRetry Token Presence Store StoreProofs CredentialKey.
From S2P Require Import Signing Engine EngineProofs ClientPin ClientPinProofs Frames SealedId.
From S2P Require Import Ceremony CeremonyProofs MakeCredential Footprint Scenario.

Section Registration.

Context {S : Type} `{Crypto} `{KeyCrypto} `{SigningCrypto} `{Ciborium} `{CredentialStore S}.
Context `{!CredentialSetLaws S}.

#[local] Abbreviation App := (CtapApp S).

(** ** Frames *)

Lemma calmly_excluded auth request : calmly (mc_excluded (S := S) auth request).
Proof.
  unfold mc_excluded. apply calmly_bind; [apply calmly_present|]. intros present.
  destruct present; [apply calmly_fail|]. intros a. pose proof (calmly_confirm request a) as Hc.
  by destruct (confirm_user_presence request a) as [b [u|e]].
Qed.

Lemma calmly_exclude ids rp uv auth request : calmly (mc_exclude (S := S) ids rp uv auth request).
Proof.
  induction ids as [|id ids IH]; cbn [mc_exclude]; [apply calmly_ret|].
  apply calmly_bind; [apply calmly_for_rp|]. intros [c|]; [|exact IH].
  destruct (_ && _); [exact IH|apply calmly_excluded].
Qed.

Lemma calmly_user_presence auth request : calmly (mc_user_presence (S := S) auth request).
Proof. unfold mc_user_presence. repeat calm_step. Qed.

Lemma calmly_mc_authorized e p : calmly (mc_authorized (S := S) e p).
Proof.
  unfold mc_authorized. repeat (apply calmly_exclude || apply calmly_user_presence || calm_step).
Qed.

Lemma calmly_create e p w : calmly (mc_create (S := S) e p w).
Proof. unfold mc_create. repeat calm_step. Qed.

Lemma calmly_entries p r uv : calmly (mc_extension_entries (S := S) p r uv).
Proof.
  intros a. unfold mc_extension_entries. apply calmly_bind; [|intros x; apply calmly_ret].
  repeat calm_step.
Qed.

Lemma calmly_kinds none : calmly (attestation_kinds (S := S) none).
Proof.
  intros a. unfold attestation_kinds. destruct none, (app_attestation_mode a); try reflexivity.
  apply calmly_bind; [apply calmly_attestation|]. intros r. apply calmly_ret.
Qed.

Lemma calmly_statement kind alg sec d h : calmly (attestation_statement (S := S) kind alg sec d h).
Proof. destruct kind; simpl; repeat calm_step. Qed.

(** ** The commit *)

(** The credentials after [record] is stored over those in [m]. *)
Definition committed (record : CredentialRecord) (m m' : gmap bytes CredentialRecord) : Prop :=
  let id := cr_credential_id record in
  validate_credential record = Ok tt /\ m !! id = None /\
  exists v, m' = <[id := set_created_at record v]>
    (if is_discoverable id then filter (fun p => matching record (snd p) = false) m else m).

Lemma store_new_effect record (a b : App) r :
  store_new_credential record a = (b, r) ->
  setting b = setting a /\ token_of b = token_of a /\
  match r with
  | Ok _ => committed record (creds (app_store a)) (creds (app_store b))
  | Err _ => creds (app_store b) = creds (app_store a)
  end.
Proof.
  unfold store_new_credential, committed. destruct (is_discoverable (cr_credential_id record)) eqn:Hd.
  - unfold mbind_st, on_store.
    destruct (st_insert_or_replace_discoverable record (app_store a)) as [s [c|e]] eqn:Hi;
      apply creds_insert in Hi; intros [= <- <-]; split_and!; try done.
    + by destruct Hi as (? & _ & ? & _).
    + by destruct Hi as (? & _ & ? & _).
    + destruct Hi as (_ & _ & _ & v & Hv). exists v. exact Hv.
  - unfold mbind_st. destruct (stored_credential _ a) as [a1 [existing|e]] eqn:Hs.
    2:{ intros [= <- <-]. unfold stored_credential in Hs.
        destruct (st_get _ _) as [s x] eqn:Hg in Hs. apply creds_get in Hg as [Hg _].
        destruct x as [|[]]; injection Hs as <- ?; done. }
    assert (H1' : setting a1 = setting a /\ token_of a1 = token_of a /\
                  creds (app_store a1) = creds (app_store a)).
    { unfold stored_credential in Hs. destruct (st_get _ _) as [s x] eqn:Hg in Hs.
      apply creds_get in Hg as [Hg _]. by destruct x as [|[]]; injection Hs as <- ?. }
    destruct H1' as (Hset & Htok & Hcr). destruct existing as [c|]; simpl.
    { intros [= <- <-]. done. }
    apply stored_credential_none in Hs. unfold on_store.
    destruct (st_put record (app_store a1)) as [s [u|e]] eqn:Hp; apply creds_put in Hp;
      rewrite Hcr, Hs in Hp; intros [= <- <-]; (split; [exact Hset|]); (split; [exact Htok|]).
    + destruct Hp as [Hv [v Hp]]. split; [done|]. split; [exact Hs|]. exists v. exact Hp.
    + destruct Hp as [Hp|(old & Ho & _)]; [exact Hp|done].
Qed.

(** ** The shape of a run *)

(** The commit, or nothing where the credential is sealed. *)
Definition commit (stored : bool) (record : CredentialRecord) : M App unit Z :=
  if stored then store_new_credential record else ret tt.

Lemma respond_cases kinds stored record sec d h (a b : App) r :
  mc_respond kinds stored record sec d h a = (b, r) ->
  (calm a b /\ exists e, r = Err e) \/
  exists c format statement r',
    let response := CTAP2_OK :: mc_response record format d statement in
    calm a c /\ zlen response <= MAX_RESPONSE_SIZE /\ commit stored record c = (b, r') /\
    r = match r' with Ok _ => Ok response | Err e => Err e end.
Proof.
  revert a. induction kinds as [|kind kinds IH]; intros a Hr; cbn [mc_respond] in Hr.
  { injection Hr as <- <-. left. split; [reflexivity|eauto]. }
  assert (Hc : calm a a) by reflexivity.
  calm_peel Hr ltac:(apply calmly_statement) Hc c st Hst.
  destruct (Z.ltb_spec MAX_RESPONSE_SIZE (1 + zlen (mc_response record (fst st) d (snd st)))) as [_|Hl].
  - destruct (IH c Hr) as [[Hcb He]|(c' & format & statement & r' & Hcc & Hrest)].
    + left. split; [by etrans|done].
    + right. exists c', format, statement, r'. split; [by etrans|done].
  - right. exists c, (fst st), (snd st). fold (commit stored record) in Hr.
    unfold mbind_st in Hr. destruct (commit stored record c) as [b' [u|e]] eqn:Hcm;
      injection Hr as <- <-; eexists; (split; [exact Hc|]);
      (split; [unfold zlen in *; cbn [length]; lia|done]).
Qed.

(** Whether the new credential is stored: it has to be discoverable, or carries
    what a sealed ID has no room for. *)
Definition to_store (p : McPlan) : bool :=
  mp_rk p || mx_third_party_payment (mp_extensions p) || negb (is_sealable (mp_alg p)).

(** The new credential: what was asked for, under an ID of the right form. *)
Record created (e : McEntities) (p : McPlan) (record : CredentialRecord) : Prop := {
  cd_rp : cr_rp_id record = mc_rp_id e;
  cd_alg : cr_alg record = mp_alg p;
  cd_protect : cr_cred_protect record = default 1 (mx_cred_protect (mp_extensions p));
  cd_payment : cr_third_party_payment record = mx_third_party_payment (mp_extensions p);
  cd_blob : forall blob, mx_cred_blob (mp_extensions p) = Some blob -> to_store p = true ->
    zlen blob <= MAX_CRED_BLOB_LENGTH -> cr_cred_blob record = Some blob;
  cd_no_blob : mx_cred_blob (mp_extensions p) = None -> cr_cred_blob record = None;
  cd_count : cr_sign_count record = 0;
  cd_user : mp_rk p = true -> cr_user_id record = mc_user_id e /\
    cr_user_name record = mc_user_name e /\ cr_user_display_name record = mc_user_display_name e;
  cd_anonymous : mp_rk p = false -> to_store p = true ->
    cr_user_id record = [] /\ cr_user_name record = None /\ cr_user_display_name record = None;
  cd_stored : to_store p = true ->
    is_sealed (cr_credential_id record) = false /\
    is_discoverable (cr_credential_id record) = mp_rk p;
  cd_sealed : to_store p = false -> is_sealed (cr_credential_id record) = true
}.

Lemma create_spec e p w (a b : App) record :
  mc_create e p w a = (b, Ok record) -> created e p record.
Proof.
  unfold mc_create. change (mc_stored p) with (to_store p). intros Hc. peel Hc a1 rng Hr. peel_lift Hc key Hk. peel Hc a2 lbk Hl.
  assert (Hblob : forall r, cr_cred_blob r = mc_cred_blob p ->
    (forall blob, mx_cred_blob (mp_extensions p) = Some blob -> to_store p = true ->
       zlen blob <= MAX_CRED_BLOB_LENGTH -> cr_cred_blob r = Some blob) /\
    (mx_cred_blob (mp_extensions p) = None -> cr_cred_blob r = None)).
  { intros r ->. unfold mc_cred_blob. change (mc_stored p) with (to_store p). split; [|by intros ->].
    intros blob -> -> Hlen. by rewrite (proj2 (Z.leb_le _ _) Hlen). }
  assert (Hprot : mc_cred_protect p = default 1 (mx_cred_protect (mp_extensions p)))
    by (unfold mc_cred_protect; by destruct (mx_cred_protect _)).
  destruct (to_store p) eqn:Hst.
  - peel Hc a3 new_id Hid. peel Hc a4 w1 Hw1. peel Hc a5 w2 Hw2. injection Hc as <- <-.
    unfold app_new_credential_id in Hid. peel Hid a6 draw Hd. injection Hid as _ <-.
    injection Hd as _ <-.
    destruct (new_credential_id_class (mp_rk p) (fill_bytes (w_rng (app_world a2) (w_rng_draws (app_world a2))) 32))
      as [Hs Hd]; [apply fill_bytes_length|].
    match goal with |- created _ _ ?r => destruct (Hblob r eq_refl) as [Hb Hnb] end.
    split; try done; rewrite ?Hst; try done; cbn [mc_record cr_user_id cr_user_name cr_user_display_name];
      change (mc_stored p) with (to_store p); rewrite Hst; intros Hrk; rewrite Hrk; done.
  - peel_lift Hc sk Hsk. peel Hc a3 sealed Hseal. injection Hc as <- <-. destruct sealed as [r' id'].
    apply seal_credential_form in Hseal as [Hs [seed ->]].
    assert (Hrk : mp_rk p = false) by (unfold to_store in Hst; by destruct (mp_rk p)).
    match goal with |- created _ _ ?r => destruct (Hblob r eq_refl) as [Hb Hnb] end.
    split; try done; congruence.
Qed.

Lemma finish_cases e p uv (a b : App) r :
  mc_finish e p uv a = (b, r) ->
  (calm a b /\ exists err, r = Err err) \/
  exists c record secret cose extensions format statement r',
    let auth_data := attested_auth_data (app_aaguid a) record cose true uv extensions in
    let response := CTAP2_OK :: mc_response record format auth_data statement in
    calm a c /\ created e p record /\ keypair record = Ok (secret, cose) /\
    zlen response <= MAX_RESPONSE_SIZE /\ commit (mc_stored p) record c = (b, r') /\
    r = match r' with Ok _ => Ok response | Err err => Err err end.
Proof.
  unfold mc_finish. intros Hf. assert (Hc : calm a a) by reflexivity.
  calm_peel Hf ltac:(apply calmly_lift) Hc a1 want Hw.
  calm_peel Hf ltac:(apply calmly_create) Hc a2 record Hr. apply create_spec in Hr.
  calm_peel Hf ltac:(apply calmly_lift) Hc a3 kp Hp. apply lift_ok in Hp as [-> Hp].
  calm_peel Hf ltac:(apply calmly_entries) Hc a4 entries He.
  calm_peel Hf ltac:(apply calmly_lift) Hc a5 extensions Hx.
  calm_peel Hf ltac:(apply calmly_gets) Hc a6 aaguid Hg. injection Hg as <- <-.
  assert (Haa : app_aaguid a5 = app_aaguid a) by (by pose proof (calm_setting _ _ Hc) as [=]).
  calm_peel Hf ltac:(apply calmly_kinds) Hc a7 kinds Hki.
  apply respond_cases in Hf as [[Hcb He']|(c & format & statement & r' & Hcc & Hl & Hcm & ->)].
  - left. split; [by etrans|done].
  - right. destruct kp as [secret cose]. exists c, record, secret, cose, extensions, format, statement, r'.
    rewrite <- Haa. split_and!; try done; [by etrans|].
    destruct (keypair record) as [[]|]; [|done]. by injection Hp as -> ->.
Qed.

(** [id] names [c] for [rp]: the stored credential under it, or, for a sealed
    ID, the one this store sealed into it, at any time since the last reset. *)
Definition names (a : App) (rp id : bytes) (c : CredentialRecord) : Prop :=
  if is_sealed id then
    exists r r' a0 a1, sealable_record r /\
      seal_credential r (private_key_bytes (cr_private_key r)) (sha256 rp) a0 = (a1, Ok (r', id)) /\
      unreset a1 a /\ c = unsealed r r' rp id
  else creds (app_store a) !! id = Some c /\ cr_rp_id c = rp.

(** [id] was looked up and is not in the way: nothing was found, or what shows
    itself only to a verified user. *)
Definition passed (a : App) (rp : bytes) (uv : bool) (id : bytes) : Prop :=
  exists b c o, unreset a b /\ creds (app_store b) = creds (app_store a) /\
    credential_for_rp id rp b = (c, Ok o) /\
    forall found, o = Some found -> cr_cred_protect found = 3 /\ uv = false.

Lemma passed_back (a b : App) rp uv id :
  unreset a b -> creds (app_store b) = creds (app_store a) -> passed b rp uv id -> passed a rp uv id.
Proof.
  intros Hu Hc (b' & c & o & Hu' & Hc' & Hl & Ho). exists b', c, o.
  split_and!; [by etrans|congruence|done|done].
Qed.

Lemma exclude_ok ids rp uv auth request (a b : App) :
  mc_exclude ids rp uv auth request a = (b, Ok tt) -> Forall (passed a rp uv) ids.
Proof.
  revert a. induction ids as [|id ids IH]; intros a He; cbn [mc_exclude] in He; [constructor|].
  peel He a1 o Hl. pose proof (calmly_run _ _ _ _ (calmly_for_rp id rp) Hl) as Hc%calm_creds.
  assert (Hu : unreset a a1).
  { eapply (confined_unreset []); [left; by intros ?%elem_of_nil|].
    pose proof (footprint_for_rp [] id rp a) as Hf. by rewrite Hl in Hf. }
  assert (Hrest : mc_exclude ids rp uv auth request a1 = (b, Ok tt) /\
                  (forall c, o = Some c -> cr_cred_protect c = 3 /\ uv = false)).
  { destruct o as [c|]; [|split; [exact He|done]].
    destruct ((cr_cred_protect c =? 3) && negb uv) eqn:Hb.
    - split; [exact He|]. intros c' [= <-]. bool_hyps. done.
    - exfalso. unfold mc_excluded in He. peel He a2 v Hv. destruct v; [done|].
      by destruct (confirm_user_presence request a2) as [? [|]]. }
  destruct Hrest as [Hrest Ho]. constructor; [by exists a, a1, o|].
  eapply Forall_impl; [by apply IH|]. intros x. by apply passed_back.
Qed.

(** No credential an ID names was passed but for those that show themselves
    only to a verified user. *)
Lemma passed_names `{!SealStoreLaws S} (a : App) rp uv id c :
  passed a rp uv id -> names a rp id c -> cr_cred_protect c = 3 /\ uv = false.
Proof.
  intros (b & d & o & Hu & Hc & Hl & Ho) Hn. apply Ho. unfold names in Hn.
  destruct (is_sealed id) eqn:Hs.
  - destruct Hn as (r & r' & a0 & a1 & Hr & Hseal & Hu1 & ->).
    destruct (transitivity Hu1 Hu) as (calls & Hcalls & E).
    exact (sealed_for_rp r r' rp id a0 a1 b d calls (Ok o) Hr Hseal Hcalls E Hl).
  - destruct Hn as [Hcr <-]. rewrite <- Hc in Hcr. by eapply credential_for_rp_found.
Qed.

Lemma consumed_permissions (a b : App) t p :
  app_consume_token a = (b, Ok tt) -> tks_in_use (token_of b) = Some t ->
  Z.land PIN_PERMISSION_LBW p = 0 -> Z.land (tk_permissions t) p = 0.
Proof.
  unfold app_consume_token. intros Hc. peel Hc c n Hn. injection Hc as <-.
  unfold token_of. simpl. unfold consume_after_user_presence.
  destruct (tks_in_use (observe n _)) as [t0|] eqn:Ht0; simpl; [|congruence].
  intros [= <-] Hp. simpl. by rewrite <- Z.land_assoc, Hp, Z.land_0_r.
Qed.

Lemma mc_authorized_ok e p (a c : App) uv :
  mc_authorized e p a = (c, Ok uv) ->
  uv = mp_protected p && is_some (mp_pin_uv_auth p) /\
  (uv = true -> exists x t, mp_pin_uv_auth p = Some x /\ tks_in_use (token_of a) = Some t /\
     authorized_by t x PIN_PERMISSION_MC (mc_client_hash e) (mc_rp_id e)) /\
  Forall (passed a (mc_rp_id e) uv) (mp_exclude_list p) /\
  (approved a (register_request e (mp_rk p) (app_presence_timeout a)) \/
   is_some (mp_pin_uv_auth p) = true /\
   exists t, tks_in_use (token_of a) = Some t /\ tk_user_present t = true) /\
  (forall t, tks_in_use (token_of c) = Some t -> Z.land (tk_permissions t) PIN_PERMISSION_MC = 0).
Proof.
  unfold mc_authorized. intros Ha. peel Ha a1 v Hau.
  pose proof (calmly_run _ _ _ _ (calmly_authorize_ceremony _ _ _ _ _) Hau) as Hc1.
  pose proof (footprint_authorize [] (mp_protected p) (mp_pin_uv_auth p) PIN_PERMISSION_MC
    (mc_client_hash e) (mc_rp_id e) a) as Hf1. rewrite Hau in Hf1. cbn [fst] in Hf1.
  apply authorize_ceremony_ok in Hau as [Hv Hu].
  peel Ha a2 timeout Ht. injection Ht as <- <-. peel Ha a3 u Hex. destruct u.
  pose proof (calmly_run _ _ _ _ (calmly_exclude _ _ _ _ _) Hex) as Hc2. apply exclude_ok in Hex.
  assert (Hto : app_presence_timeout a1 = app_presence_timeout a)
    by (by pose proof (calm_setting _ _ Hc1) as [=]).
  rewrite Hto in *. peel Ha a4 u Hup. injection Ha as <- <-.
  assert (Hc3 : calm a a3) by (by etrans). split; [done|]. split; [done|].
  split.
  { eapply Forall_impl; [exact Hex|]. intros id. apply passed_back; [|by apply calm_creds].
    eapply (confined_unreset []); [left; by intros ?%elem_of_nil|exact Hf1]. }
  unfold mc_user_presence in Hup. peel Hup b1 present Hpr. peel Hup b2 u' Hcf. destruct u, u'.
  pose proof (calmly_run _ _ _ _ (calmly_present _) Hpr) as Hc4. split.
  - destruct present.
    + right. eapply present_ok in Hpr as (Hx' & t' & Ht' & Hpt); [|done].
      destruct (calm_token _ _ _ Hc3 Ht') as (t & Ht & Hd). split; [done|]. exists t. split; [done|].
      destruct (tk_user_present t) eqn:Hx; [done|]. by rewrite (de_present _ _ Hd Hx) in Hpt.
    + left. apply confirm_approved in Hcf. eapply approved_setting; [|exact Hcf].
      apply calm_setting. by etrans.
  - intros t Ht. eapply consumed_permissions; [exact Hup|exact Ht|reflexivity].
Qed.

(** The thirdPartyPayment and credProtect inputs of a request's extensions: the
    flag, false where there is none, and the level, 1 where there is none. *)
Definition payment_input (flag : bool) (entry : Value * Value) : bool :=
  match entry with
  | (VText text, VBool b) => if bytes_eqb text ext_third_party_payment then b else flag
  | _ => flag
  end.

Definition protect_input (level : Z) (entry : Value * Value) : Z :=
  match entry with
  | (VText text, VInteger n) => if bytes_eqb text ext_cred_protect then n else level
  | _ => level
  end.

Definition extension_entries (value : option Value) : Entries :=
  match value with Some (VMap entries) => entries | _ => [] end.

Lemma extension_inputs x entry x' :
  mc_extension x entry = Ok x' ->
  mx_third_party_payment x' = payment_input (mx_third_party_payment x) entry /\
  default 1 (mx_cred_protect x') = protect_input (default 1 (mx_cred_protect x)) entry.
Proof.
  destruct entry as [[| | |text| | | | |] value]; cbn; try (by intros [= <-]). intros Hx.
  destruct (bytes_eqb text ext_third_party_payment) eqn:E1.
  { apply bytes_eqb_spec in E1 as ->. destruct value; try done; injection Hx as <-; cbn; by split. }
  destruct (bytes_eqb text ext_cred_protect) eqn:E2.
  { apply bytes_eqb_spec in E2 as ->. cbn in Hx. destruct value; try done. cbn in Hx.
    destruct (_ && _); [|done]. injection Hx as <-. by split. }
  unfold bind, flag_input in Hx. repeat case_match; simplify_eq; by split.
Qed.

Lemma extension_loop_inputs entries x x' :
  mc_extension_loop entries x = Ok x' ->
  mx_third_party_payment x' = fold_left payment_input entries (mx_third_party_payment x) /\
  default 1 (mx_cred_protect x') = fold_left protect_input entries (default 1 (mx_cred_protect x)).
Proof.
  revert x. induction entries as [|entry rest IH]; intros x Hx; cbn in Hx; [by injection Hx as <-|].
  unfold bind in Hx. destruct (mc_extension x entry) as [y|] eqn:Hy; [|done].
  apply extension_inputs in Hy as [Hp Hl]. apply IH in Hx as [Hp' Hl']. cbn [fold_left]. by rewrite <- Hp, <- Hl.
Qed.

Lemma extensions_inputs value x :
  mc_extensions value = Ok x ->
  mx_third_party_payment x = fold_left payment_input (extension_entries value) false /\
  default 1 (mx_cred_protect x) = fold_left protect_input (extension_entries value) 1.
Proof.
  destruct value as [[]|]; try done; [|by intros [= <-]]. by intros ?%extension_loop_inputs.
Qed.

(** What a plan takes from the request. *)
Record planned (map : Entries) (e : McEntities) (p : McPlan) : Prop := {
  pl_auth : parse_pin_uv_auth_param (map_get map (int_key 8)) (map_get map (int_key 9)) = Ok (mp_pin_uv_auth p);
  pl_alg : chosen_algorithm (mc_params e) = Ok (mp_alg p);
  pl_exclude : match map_get map (int_key 5) with
               | Some listed => credential_ids listed = Ok (mp_exclude_list p)
               | None => mp_exclude_list p = []
               end;
  pl_options : exists o, options (map_get map (int_key 7)) = Ok o /\
    mp_rk p = bool_decide (opt_rk o = Some true) /\ opt_up o <> Some false;
  pl_extensions : mc_extensions (map_get map (int_key 6)) = Ok (mp_extensions p);
  pl_payment : mx_third_party_payment (mp_extensions p) =
    fold_left payment_input (extension_entries (map_get map (int_key 6))) false;
  pl_protect : default 1 (mx_cred_protect (mp_extensions p)) =
    fold_left protect_input (extension_entries (map_get map (int_key 6))) 1
}.

(** What a plan decides: that verification is not skipped where it is
    required. *)
Lemma plan_ok map e protected always p :
  mc_plan map e protected always = Ok p ->
  planned map e p /\ mp_protected p = protected /\
  (protected = true -> mp_rk p = true -> is_some (mp_pin_uv_auth p) = true) /\
  (always = true -> protected && is_some (mp_pin_uv_auth p) = true).
Proof.
  unfold mc_plan, bind. intros Hp.
  destruct (parse_pin_uv_auth_param _ _) as [auth|] eqn:E1; [|done].
  destruct (chosen_algorithm _) as [alg|] eqn:E2; [|done].
  destruct (mc_exclude_list _) as [ids|] eqn:E3; [|done].
  destruct (options _) as [opts|] eqn:E4; [|done].
  destruct (negb _ && _); [done|]. destruct (is_some_and (opt_up opts) negb) eqn:E5; [done|].
  set (rk := is_some_and (opt_rk opts) _) in *. destruct (rk && _); [done|].
  destruct (always && _) eqn:E6; [done|]. destruct (protected && _ && _) eqn:E7; [done|].
  destruct (is_some (map_get map (int_key 0x0A))); [done|].
  destruct (none_requested _) as [none|]; [|done]. destruct (mc_extensions _) as [x|] eqn:E8; [|done].
  destruct (hmac_secret_mc_request x) as [mc|]; [|done]. injection Hp as <-. simpl.
  split; [|destruct auth as [x'|], protected, always, rk; done].
  apply extensions_inputs in E8 as Hin. destruct Hin. split; try done.
  - unfold mc_exclude_list in E3. destruct (map_get map (int_key 5)); [done|by injection E3 as <-].
  - exists opts. split; [done|]. subst rk. split.
    + simpl. by destruct (opt_rk opts) as [[]|].
    + intros Hup. by rewrite Hup in E5.
Qed.

(** After the state is read, [a1]; steps 10 on, [c]; the rest. *)
Lemma handle_mc_cases payload (a b : App) r :
  handle_make_credential payload a = (b, r) ->
  (calm a b /\ exists err, r = Err err) \/
  exists a1 map e p uv c, fst (read_pin_state_if_unread a) = a1 /\ calm a a1 /\ unreset a a1 /\
    request_parameters payload = Ok map /\ mc_entities map = Ok e /\
    mc_plan map e (is_set (ps_pin (app_pin_state a1))) (pp_always_uv (persistent a1)) = Ok p /\
    mc_authorized e p a1 = (c, Ok uv) /\ calm a c /\ mc_finish e p uv c = (b, r).
Proof.
  unfold handle_make_credential. intros Hh. assert (Hc : calm a a) by reflexivity.
  calm_peel Hh ltac:(apply calmly_lift) Hc s1 entries Hmap. apply lift_ok in Hmap as [-> Hmap].
  calm_peel Hh ltac:(apply calmly_lift) Hc s2 e He. apply lift_ok in He as [-> He].
  pose proof (footprint_read_if_unread [] a) as Hur.
  calm_peel Hh ltac:(apply calmly_read_if_unread) Hc a1 u Hru.
  rewrite Hru in Hur. apply confined_unreset in Hur; [|left; by intros ?%elem_of_nil].
  destruct (is_zero_length _).
  { left. apply bind_split in Hh as [(err & Hh & ->)|(s & x & Hx & Hh)].
    - split; [|eauto]. etrans; [exact Hc|eapply calmly_run; [apply calmly_select|exact Hh]].
    - injection Hh as <- <-. split; [|eauto].
      etrans; [exact Hc|eapply calmly_run; [apply calmly_select|exact Hx]]. }
  pose proof Hc as Hca1.
  calm_peel Hh ltac:(apply calmly_gets) Hc s3 protected Hp. injection Hp as <- <-.
  calm_peel Hh ltac:(apply calmly_gets) Hc s4 always Ha. injection Ha as <- <-.
  calm_peel Hh ltac:(apply calmly_lift) Hc s5 p Hp. apply lift_ok in Hp as [-> Hp].
  calm_peel Hh ltac:(apply calmly_mc_authorized) Hc c uv Hau.
  right. exists a1, entries, e, p, uv, c. rewrite Hru. split_and!; done.
Qed.

(** ** Properties *)

(** C26: A registration is all or nothing.  If the request fails, at whatever
    step, the stored credentials are exactly those before it.  If it succeeds,
    the response is that of a new credential which belongs to the RP of the
    request and has the algorithm chosen from it, the credProtect level and
    thirdPartyPayment flag asked for, a credBlob that fits if it is stored, and
    the user if it is discoverable; it is stored exactly if the request wants it
    discoverable or for payments or no sealed ID holds a key of its algorithm.  A stored one is now under an ID no credential had, beside all the
    others, except that a discoverable one replaces the same RP's discoverable
    credentials with its user handle; one that is not stored leaves the store's
    credentials as they were and has an ID of the sealed form. *)
Theorem registration_all_or_nothing payload (a b : App) r :
  handle_make_credential payload a = (b, r) ->
  match r with
  | Err _ => creds (app_store b) = creds (app_store a)
  | Ok response => exists map e p uv record secret cose extensions format statement,
      request_parameters payload = Ok map /\ mc_entities map = Ok e /\
      planned map e p /\ created e p record /\ keypair record = Ok (secret, cose) /\
      response = CTAP2_OK :: mc_response record format
        (attested_auth_data (app_aaguid a) record cose true uv extensions) statement /\
      if mp_rk p || mx_third_party_payment (mp_extensions p) || negb (is_sealable (mp_alg p))
      then committed record (creds (app_store a)) (creds (app_store b))
      else creds (app_store b) = creds (app_store a) /\ is_sealed (cr_credential_id record) = true
  end.
Proof.
  intros [[Hc [err ->]]|(a1 & entries & e & p & uv & c & _ & _ & _ & Hmap & He & Hp & _ & Hc & Hf)]%handle_mc_cases.
  { by apply calm_creds. }
  apply finish_cases in Hf as [[Hcb [err ->]]|(d & record & sec & cose & ext & fmt & st & r' & Hcd & Hcr & Hkp & _ & Hcm & ->)].
  { apply calm_creds. by etrans. }
  assert (Hd : creds (app_store d) = creds (app_store a)) by (apply calm_creds; by etrans).
  assert (Haa : app_aaguid c = app_aaguid a) by (by pose proof (calm_setting _ _ Hc) as [=]).
  apply plan_ok in Hp as [Hpl _].
  unfold commit in Hcm. change (mc_stored p) with (to_store p) in Hcm. rewrite <- Hd, <- Haa.
  destruct (to_store p) eqn:Hst.
  - apply store_new_effect in Hcm as (_ & _ & Hcm). destruct r' as [u|err]; [|done].
    do 10 eexists. split_and!; [exact Hmap|exact He|exact Hpl|exact Hcr|exact Hkp|reflexivity|fold (to_store p); by rewrite Hst].
  - injection Hcm as <- <-. do 10 eexists.
    split_and!; [exact Hmap|exact He|exact Hpl|exact Hcr|exact Hkp|reflexivity|fold (to_store p); rewrite Hst].
    split; [done|]. by apply (cd_sealed _ _ _ Hcr).
Qed.

(** C27: A registration that succeeds was authorized and consented to: the user
    approved exactly this request (or it carried a pinUvAuthParam and the token
    in use their presence); of the
    credentials the request's exclude list names for the RP, the stored ones and
    those sealed into their IDs since the last reset, each is hidden from an
    unverified user (credProtect level 3) and the user was not verified; the UV
    bit of the authenticator data is set exactly when a PIN is set and the
    request carried a token's MAC, then that MAC is the token's over the client
    data hash and the token had the mc permission for this RP; with a PIN set a
    discoverable credential or always-UV needs it; and the token cannot authorize
    a second registration. *)
Theorem registration_authorized `{!SealStoreLaws S} payload (a b : App) response :
  handle_make_credential payload a = (b, Ok response) ->
  exists a1 map e p uv record cose extensions format statement,
    fst (read_pin_state_if_unread a) = a1 /\
    request_parameters payload = Ok map /\ mc_entities map = Ok e /\ planned map e p /\
    mc_plan map e (is_set (ps_pin (app_pin_state a1))) (pp_always_uv (persistent a1)) = Ok p /\
    (approved a (register_request e (mp_rk p) (app_presence_timeout a)) \/
     is_some (mp_pin_uv_auth p) = true /\
     exists t, tks_in_use (token_of a) = Some t /\ tk_user_present t = true) /\
    (forall id c, id ∈ mp_exclude_list p -> names a (mc_rp_id e) id c ->
       cr_cred_protect c = 3 /\ uv = false) /\
    uv = is_set (ps_pin (app_pin_state a1)) && is_some (mp_pin_uv_auth p) /\
    (uv = true -> exists x t, mp_pin_uv_auth p = Some x /\ tks_in_use (token_of a) = Some t /\
       authorized_by t x PIN_PERMISSION_MC (mc_client_hash e) (mc_rp_id e)) /\
    (is_set (ps_pin (app_pin_state a1)) = true -> mp_rk p = true -> uv = true) /\
    (pp_always_uv (persistent a1) = true -> uv = true) /\
    (forall t, tks_in_use (token_of b) = Some t -> Z.land (tk_permissions t) PIN_PERMISSION_MC = 0) /\
    cr_rp_id record = mc_rp_id e /\
    response = CTAP2_OK :: mc_response record format
      (attested_auth_data (app_aaguid a) record cose true uv extensions) statement.
Proof.
  intros [[_ [err Hn]]|(a1 & entries & e & p & uv & c & Ha1 & Hca1 & Hua1 & Hmap & He & Hp & Hau & Hc & Hf)]%handle_mc_cases;
    [done|].
  apply finish_cases in Hf as [[_ [err Hn]]|(d & record & sec & cose & ext & fmt & st & r' & Hcd & Hcr & _ & _ & Hcm & Hr)];
    [done|].
  exists a1, entries, e, p, uv, record, cose, ext, fmt, st.
  apply mc_authorized_ok in Hau as (Huv & Htok & Hex & Hcons & Hperm).
  pose proof (plan_ok _ _ _ _ _ Hp) as (Hpl & Hprot & Hrk & Halw). rewrite Hprot in Huv.
  assert (Hset : setting a1 = setting a) by (by apply calm_setting).
  assert (Hto : app_presence_timeout a1 = app_presence_timeout a) by (by injection Hset as).
  assert (Haa : app_aaguid c = app_aaguid a) by (by pose proof (calm_setting _ _ Hc) as [=]).
  assert (Hback : forall t', tks_in_use (token_of a1) = Some t' ->
            exists t, tks_in_use (token_of a) = Some t /\ descends t t')
    by (intros t'; by apply calm_token).
  assert (Htb : forall t, tks_in_use (token_of b) = Some t ->
            exists t0, tks_in_use (token_of c) = Some t0 /\ descends t0 t).
  { intros t. assert (Hbd : token_of b = token_of d); [|rewrite Hbd; by apply calm_token].
    unfold commit in Hcm. destruct (mc_stored p); [|by injection Hcm as <-].
    by apply store_new_effect in Hcm as (_ & ? & _). }
  split; [done|]. split; [done|]. split; [done|]. split; [done|]. split; [done|].
  split. { rewrite <- Hto. destruct Hcons as [Happ|(Hx & t' & Ht' & Hpt)]; [left; by eapply approved_setting|right].
           destruct (Hback t' Ht') as (t & Ht & Hd). split; [done|]. exists t. split; [done|]. by apply (present_back _ _ Hd). }
  split. { intros id c' Hid Hn. rewrite Forall_forall in Hex. eapply passed_names; [|exact Hn].
           eapply passed_back; [exact Hua1|by apply calm_creds|by apply Hex]. }
  split; [done|]. split. { intros Hu. destruct (Htok Hu) as (x & t' & Hx & Ht' & Hby).
    destruct (Hback t' Ht') as (t & Ht & Hd). exists x, t. split_and!; try done.
    by eapply authorized_back. }
  split. { intros Hs Hr'. rewrite Huv, Hs. by apply Hrk. }
  split. { intros Hal. rewrite Huv. by apply Halw. }
  split. { intros t Ht. destruct (Htb t Ht) as (t0 & Ht0 & Hd). pose proof (Hperm t0 Ht0) as Hz.
           destruct (Z.eq_dec (Z.land (tk_permissions t) PIN_PERMISSION_MC) 0) as [|Hnz]; [done|].
           by apply (de_permissions _ _ Hd) in Hnz. }
  split; [by apply (cd_rp _ _ _ Hcr)|]. destruct r' as [u|]; [|done]. rewrite <- Haa. congruence.
Qed.

(** Every response of a successful registration fits one CTAPHID message:
    it is at most 7609 bytes long, whatever the certificate chain, and starts
    with the success status. *)
Theorem registration_response_bounded payload (a b : App) response :
  handle_make_credential payload a = (b, Ok response) ->
  zlen response <= MAX_RESPONSE_SIZE /\ hd 255 response = CTAP2_OK.
Proof.
  intros [[_ [err Hn]]|(a1 & entries & e & p & uv & c & _ & _ & _ & _ & _ & _ & _ & _ & Hf)]%handle_mc_cases; [done|].
  apply finish_cases in Hf as [[_ [err Hn]]|(d & record & sec & cose & ext & fmt & st & r' & _ & _ & _ & Hl & _ & Hr)];
    [done|].
  destruct r' as [u|err]; [|done]. injection Hr as ->. done.
Qed.

End Registration.

(** ** The PIN invariant *)

Section PinInvariant.

Context {S : Type} `{Crypto} `{KeyCrypto} `{SigningCrypto} `{Ciborium} `{CredentialStore S}.
Context `{!PinStoreLaws S}.

Lemma same_view_excluded auth request : same_view (S := S) (mc_excluded auth request).
Proof.
  apply same_view_bind; [apply same_view_present|]. intros [|]; [apply same_view_fail|].
  intros a. pose proof (same_view_confirm request a) as Hc.
  by destruct (confirm_user_presence request a) as [b [u|e]].
Qed.

Lemma same_view_exclude ids rp uv auth request :
  same_view (S := S) (mc_exclude ids rp uv auth request).
Proof.
  induction ids as [|id ids IH]; cbn [mc_exclude]; [apply same_view_ret|].
  apply same_view_bind; [apply same_view_for_rp|]. intros [c|]; [|exact IH].
  destruct (_ && _); [exact IH|apply same_view_excluded].
Qed.

Lemma same_view_mc_authorized e p : same_view (S := S) (mc_authorized e p).
Proof.
  unfold mc_authorized, mc_user_presence. repeat (apply same_view_exclude || same_view_step).
Qed.

Lemma keeps_create e p w : keeps (S := S) pin_inv (mc_create e p w).
Proof.
  unfold mc_create, seal_credential. repeat (apply keeps_on_store_seal || keeps_step).
Qed.

Lemma same_view_entries p r uv : same_view (S := S) (mc_extension_entries p r uv).
Proof.
  intros a. unfold mc_extension_entries. apply same_view_bind; [|intros x; apply same_view_ret].
  repeat same_view_step.
Qed.

Lemma same_view_kinds none : same_view (S := S) (attestation_kinds none).
Proof.
  intros a. unfold attestation_kinds. destruct none, (app_attestation_mode a); try reflexivity.
  apply same_view_bind; [apply same_view_attestation|]. intros r. apply same_view_ret.
Qed.

Lemma same_view_respond kinds stored r sec d h :
  same_view (S := S) (mc_respond kinds stored r sec d h).
Proof.
  induction kinds as [|kind kinds IH]; cbn [mc_respond]; [apply same_view_fail|].
  apply same_view_bind; [destruct kind; simpl; repeat same_view_step|]. intros st.
  destruct (_ <? _); [exact IH|]. apply same_view_bind; [|intros u; apply same_view_ret].
  unfold store_new_credential.
  repeat (apply same_view_on_store, pin_insert || apply same_view_on_store, pin_put || same_view_step).
Qed.

Lemma keeps_make_credential payload : keeps (S := S) pin_inv (handle_make_credential payload).
Proof.
  unfold handle_make_credential, mc_finish.
  repeat (apply keeps_create || (apply keeps_same_view; [apply pin_inv_view|];
    first [apply same_view_mc_authorized|apply same_view_entries|apply same_view_kinds
          |apply same_view_respond]) || keeps_step).
Qed.

End PinInvariant.

(** ** Concrete runs *)

Module RegistrationWitness.

#[local] Opaque fresh_engine engine_with_pin engine_with_token agreed seal_for.

Ltac run := vm_compute; reflexivity.

Definition rp_ab : bytes := [97; 46; 98].

Definition client_hash : bytes := repeat 5 32.

(** {rp: "a.b", user: 0x01, ES384, rk}, with the token's MAC. *)
Definition register_payload (token : bytes) : bytes :=
  into_writer (VMap
    [(VInteger 1, VBytes client_hash); (VInteger 2, VMap [(VText text_id, VText rp_ab)]);
     (VInteger 3, VMap [(VText text_id, VBytes [1])]);
     (VInteger 4, VArray [VMap [(VText text_alg, VInteger (-35)); (VText name_type, VText PUBLIC_KEY)]]);
     (VInteger 7, VMap [(VText name_rk, VBool true)]);
     (VInteger 8, VBytes (authenticate V2 token client_hash)); (VInteger 9, VInteger 2)]).

Definition register_run : CtapApp MemoryStore * result bytes Z :=
  handle_make_credential (register_payload issued_token) engine_with_token.

Definition register_response : bytes := match snd register_run with Ok r => r | Err _ => [] end.

Lemma register_ok : snd register_run = Ok register_response.
Proof. run. Qed.

Lemma registration_all_or_nothing_witness :
  Z.of_nat (size (ms_credentials (app_store (fst register_run)))) = 1 /\
  exists record, committed record ∅ (ms_credentials (app_store (fst register_run))).
Proof.
  split; [run|]. pose proof (run_result register_run _ register_ok) as Hr. unfold register_run at 1 in Hr.
  destruct (registration_all_or_nothing _ _ _ _ Hr)
    as (m & e & p & uv & record & sec & cose & ext & fmt & st & _ & _ & _ & _ & _ & _ & Hc).
  destruct (_ || _ || _).
  - exists record. assert (Hcr : creds (app_store engine_with_token) = ∅) by run.
    rewrite Hcr in Hc. exact Hc.
  - exfalso. destruct Hc as [Hc _]. apply (f_equal size) in Hc. revert Hc. vm_compute. discriminate.
Defined.

(** The plan of the request. *)
Definition register_plan : option (McEntities * McPlan) :=
  match request_parameters (register_payload issued_token) with
  | Ok map => match mc_entities map with
              | Ok e => match mc_plan map e true false with Ok p => Some (e, p) | Err _ => None end
              | Err _ => None
              end
  | Err _ => None
  end.

Lemma registration_authorized_witness :
  exists e p t, register_plan = Some (e, p) /\ mc_rp_id e = rp_ab /\
    tks_in_use (token_of engine_with_token) = Some t /\
    authorized_by t (V2, authenticate V2 issued_token client_hash) PIN_PERMISSION_MC client_hash rp_ab.
Proof.
  pose proof (run_result register_run _ register_ok) as Hr. unfold register_run at 1 in Hr.
  destruct (registration_authorized _ _ _ _ Hr)
    as (a1 & m & e & p & uv & record & cose & ext & fmt & st & Ha1 & Hm & He & _ & Hp & _ & _ & _ & Htok & Hrk & _).
  assert (Hplan : register_plan = Some (e, p)).
  { unfold register_plan. rewrite Hm, He.
    assert (Hset : is_set (ps_pin (app_pin_state a1)) = true) by (subst a1; run).
    assert (Hal : pp_always_uv (persistent a1) = false) by (subst a1; run).
    rewrite Hset, Hal in Hp. by rewrite Hp. }
  assert (Hfacts : option_map (fun x => (mc_rp_id (fst x), mc_client_hash (fst x),
                                         mp_rk (snd x), mp_pin_uv_auth (snd x))) register_plan =
    Some (rp_ab, client_hash, true, Some (V2, authenticate V2 issued_token client_hash))) by run.
  rewrite Hplan in Hfacts. injection Hfacts as Hrp Hh Hrk' Hauth.
  destruct Htok as (x & t & Hx & Ht & Hby).
  { apply Hrk; [subst a1; run|exact Hrk']. }
  exists e, p, t. rewrite Hauth in Hx. injection Hx as <-. rewrite Hrp, Hh in Hby.
  split_and!; [exact Hplan|exact Hrp|exact Ht|exact Hby].
Defined.

Lemma registration_response_bounded_witness : zlen register_response <= 7609.
Proof.
  pose proof (run_result register_run _ register_ok) as Hr. unfold register_run at 1 in Hr.
  exact (proj1 (registration_response_bounded _ _ _ _ Hr)).
Defined.

End RegistrationWitness.
