(* ===== verification/AssertionProofs.v ===== *)
(** * What authenticatorGetAssertion guarantees

    Which credential answers, what the signature covers, what the counters do,
    and who authorized it. *)

From Stdlib Require Import Sorted.
From stdpp Require Import gmap.
From S2P Require Import Prelude Constants Alg Crypto ConcreteCrypto Cbor ConcreteCbor.
From S2P Require Import Records Request PinRetry Token Presence Store StoreProofs CredentialKey.
From S2P Require Import Signing Engine EngineProofs ClientPin ClientPinProofs Frames SealedId.
From S2P Require Import Ceremony CeremonyProofs MakeCredential RegistrationProofs GetAssertion Scenario.
From S2P Require Import CredMgmt CredMgmtProofs.

(** ** Operations that leave the global counter alone *)

Section Quiet.

Context {S : Type} `{Crypto} `{CredentialStore S} `{!CounterStoreLaws S}.

#[local] Abbreviation App := (CtapApp S).

Definition quiet {A} (m : M App A Z) : Prop :=
  forall a, counter_view (app_store (fst (m a))) = counter_view (app_store a).

Lemma quiet_run {A} (m : M App A Z) a b r :
  quiet m -> m a = (b, r) -> counter_view (app_store b) = counter_view (app_store a).
Proof. intros Hm Hr. specialize (Hm a). by rewrite Hr in Hm. Qed.

Lemma quiet_bind {A B} (m : M App A Z) (k : A -> M App B Z) :
  quiet m -> (forall x, quiet (k x)) -> quiet (mbind_st m k).
Proof.
  intros Hm Hk a. unfold mbind_st. specialize (Hm a).
  destruct (m a) as [b [x|e]]; simpl in *; [by rewrite Hk|done].
Qed.

(** The store is not used at all. *)
Lemma quiet_still {A} (m : M App A Z) : (forall a, app_store (fst (m a)) = app_store a) -> quiet m.
Proof. intros Hm a. by rewrite Hm. Qed.

Lemma quiet_on_store {A E} (m : M S A E) f : preserves counter_view m -> quiet (on_store m f).
Proof.
  intros Hm a. unfold on_store. specialize (Hm (app_store a)).
  by destruct (m (app_store a)) as [s [v|e]].
Qed.

Lemma quiet_query {A} q : quiet (@token_query S A q).
Proof.
  apply quiet_bind; [by apply quiet_still|]. intros t a. by destruct (q t _).
Qed.

Lemma quiet_check op : quiet (@token_check S op).
Proof. apply quiet_bind; [by apply quiet_still|]. intros t a. by destruct (op t _). Qed.

Lemma quiet_confirm r : quiet (@confirm_user_presence S r).
Proof. apply quiet_bind; [by apply quiet_still|]. intros o. by apply quiet_still. Qed.

Lemma quiet_stored_credential id : quiet (stored_credential (S := S) id).
Proof.
  intros a. unfold stored_credential. pose proof (counter_frame (SGet id) (app_store a) eq_refl) as Hg. cbn [run_call] in Hg.
  by destruct (st_get id (app_store a)) as [s [v|[]]].
Qed.

Lemma quiet_read_store : quiet (read_store_pin_state (S := S)).
Proof.
  intros a. unfold read_store_pin_state. pose proof (counter_frame SPinState (app_store a) eq_refl) as Hg. cbn [run_call] in Hg.
  by destruct (st_pin_state (app_store a)).
Qed.

Lemma quiet_adopt r : quiet (adopt_record (S := S) r).
Proof. intros a. unfold adopt_record. by destruct (_ || _). Qed.

Lemma quiet_refresh : quiet (refresh_persistent_authority (S := S)).
Proof.
  intros a. unfold refresh_persistent_authority. destruct (app_stored_pin_state a); [| |done].
  - apply quiet_bind; [apply quiet_read_store|]. intros [[r|]|e] b; [apply quiet_adopt| |].
    + by destruct (pp_pin_hash (persistent b)), (pp_persistent_tokens (persistent b)) as [[] []].
    + by destruct (closes_authority e).
  - unfold read_unread_pin_state, load_pin_state. apply quiet_bind.
    + apply quiet_bind; [apply quiet_read_store|]. intros [[r|]|e]; by apply quiet_still.
    + intros x. apply quiet_bind; [by apply quiet_still|]. intros u. destruct (snd x); by apply quiet_still.
Qed.

Lemma quiet_read_if_unread : quiet (read_pin_state_if_unread (S := S)).
Proof.
  intros a. unfold read_pin_state_if_unread. destruct (app_stored_pin_state a); try done. apply quiet_refresh.
Qed.

Lemma quiet_draw_key n : quiet (draw_key (S := S) n).
Proof.
  induction n as [|n IH]; simpl; [by apply quiet_still|].
  apply quiet_bind; [by apply quiet_still|]. intros k. destruct (p256_scalar_valid k); [by apply quiet_still|done].
Qed.

Lemma quiet_decapsulate p k : quiet (decapsulate (S := S) p k).
Proof.
  apply quiet_bind; [|intros x; by apply quiet_still]. intros a. unfold key_agreement_key.
  destruct (key_slot _ p); [done|]. apply quiet_bind; [apply quiet_draw_key|]. intros x. by apply quiet_still.
Qed.

Lemma quiet_encrypt p k t : quiet (encrypt_for_platform (S := S) p k t).
Proof.
  unfold encrypt_for_platform. apply quiet_bind; [|intros iv; by apply quiet_still]. by destruct p; apply quiet_still.
Qed.

Lemma quiet_for_rp id rp : quiet (credential_for_rp (S := S) id rp).
Proof.
  unfold credential_for_rp, credential_for_hash. apply quiet_bind; [|intros x; by apply quiet_still].
  destruct (negb _).
  - apply quiet_bind; [apply quiet_stored_credential|]. intros x. by apply quiet_still.
  - apply quiet_bind; [apply quiet_on_store; intros s; by apply (counter_frame (SOpen _ _))|]. intros x. by apply quiet_still.
Qed.

Lemma quiet_hmac_secret r w wo uv : quiet (process_hmac_secret (S := S) r w wo uv).
Proof.
  unfold process_hmac_secret. apply quiet_bind; [apply quiet_decapsulate|]. intros keys.
  repeat (apply quiet_bind; [by apply quiet_still|intros ?]).
  apply quiet_bind; [apply quiet_encrypt|]. intros y. by apply quiet_still.
Qed.

Lemma quiet_authorize protected auth p h rp : quiet (authorize_ceremony (S := S) protected auth p h rp).
Proof.
  unfold authorize_ceremony. destruct auth as [[]|]; [|by apply quiet_still].
  destruct protected; [|by apply quiet_still].
  apply quiet_bind; [apply quiet_check|]. intros u. apply quiet_bind; [apply quiet_check|]. intros u'.
  by apply quiet_still.
Qed.

Lemma quiet_ga_verified protected p h rp : quiet (ga_verified (S := S) protected p h rp).
Proof.
  unfold ga_verified. apply quiet_bind; [apply quiet_authorize|]. intros [|]; [|by apply quiet_still].
  apply quiet_bind; [apply quiet_query|]. intros x. by apply quiet_still.
Qed.

Lemma quiet_locate allow rp uv : quiet (ga_locate (S := S) allow rp uv).
Proof.
  unfold ga_locate. destruct allow as [ids|].
  - apply quiet_bind; [|intros x; by apply quiet_still]. generalize ([] : list CredentialRecord).
    induction ids as [|id ids IH]; intros acc; cbn [ga_denoted]; [by apply quiet_still|].
    destruct (existsb _ _); [apply IH|]. apply quiet_bind; [apply quiet_for_rp|]. intros o. apply IH.
  - apply quiet_bind; [apply quiet_on_store; intros s; by apply (counter_frame SList)|]. intros x. by apply quiet_still.
Qed.

Lemma quiet_presence p rp l : quiet (ga_user_presence (S := S) p rp l).
Proof.
  unfold ga_user_presence. destruct (gp_up p); [|by destruct (is_some _); apply quiet_still].
  apply quiet_bind; [destruct (gp_pin_uv_auth p); [apply quiet_query|by apply quiet_still]|]. intros pr.
  apply quiet_bind; [|intros u; by apply quiet_still].
  destruct pr; [by apply quiet_still|]. apply quiet_bind; [by apply quiet_still|]. intros t. apply quiet_confirm.
Qed.

Lemma quiet_outputs x c uv : quiet (ga_outputs (S := S) x c uv).
Proof.
  unfold ga_outputs. apply quiet_bind; [|intros y; by apply quiet_still].
  destruct (gx_hmac_secret x); [|by apply quiet_still].
  apply quiet_bind; [apply quiet_hmac_secret|]. intros y. by apply quiet_still.
Qed.

End Quiet.

Section Assertion.

Context {S : Type} `{Crypto} `{KeyCrypto} `{SigningCrypto} `{Ciborium} `{CredentialStore S}.
Context `{!CredentialSetLaws S}.

#[local] Abbreviation App := (CtapApp S).

(** ** Locating *)

Lemma calmly_denoted ids rp uv acc : calmly (ga_denoted (S := S) ids rp uv acc).
Proof.
  revert acc. induction ids as [|id ids IH]; intros acc; cbn [ga_denoted]; [apply calmly_ret|].
  destruct (existsb _ _); [apply IH|]. apply calmly_bind; [apply calmly_for_rp|]. intros o. apply IH.
Qed.

Lemma calmly_locate allow rp uv : calmly (ga_locate (S := S) allow rp uv).
Proof. unfold ga_locate. repeat (apply calmly_denoted || calm_step). Qed.

(** [c] may answer a request for [rp]: by its credProtect level, and by the
    allow list or, without one, by being discoverable. *)
Definition answers (allow : option (list bytes)) (rp : bytes) (uv : bool) (c : CredentialRecord) : Prop :=
  cr_rp_id c = rp /\ credential_allows c uv (is_some allow) = true /\
  match allow with
  | Some ids => cr_credential_id c ∈ ids
  | None => is_discoverable (cr_credential_id c) = true
  end.

(** The same, with the credProtect levels spelled out: level 3 answers only a
    verified user, level 2 also one whose request lists the credential. *)
Definition eligible (allow : option (list bytes)) (rp : bytes) (uv : bool) (c : CredentialRecord) : Prop :=
  cr_rp_id c = rp /\
  (cr_cred_protect c = 3 -> uv = true) /\
  (cr_cred_protect c = 2 -> uv = true \/ is_Some allow) /\
  match allow with
  | Some ids => cr_credential_id c ∈ ids
  | None => is_discoverable (cr_credential_id c) = true
  end.

Lemma answers_eligible allow rp uv c : answers allow rp uv c <-> eligible allow rp uv c.
Proof.
  unfold answers, eligible, credential_allows.
  assert (Hs : is_some allow = true <-> is_Some allow)
    by (destruct allow; simpl; split; [by eexists|done|done|by intros []]).
  split; [intros (Hrp & Hp & Hal)|intros (Hrp & Hp3 & Hp2 & Hal)].
  - destruct (Z.eqb_spec (cr_cred_protect c) 3) as [E3|E3]; [split_and!; try done; intros; (lia || auto)|].
    destruct (Z.eqb_spec (cr_cred_protect c) 2) as [E2|E2]; split_and!; try done.
    intros _. apply orb_true_iff in Hp. by rewrite Hs in Hp.
  - split_and!; try done.
    destruct (Z.eqb_spec (cr_cred_protect c) 3) as [E3|E3]; [auto|].
    destruct (Z.eqb_spec (cr_cred_protect c) 2) as [E2|E2]; [|done]. apply orb_true_iff. rewrite Hs. auto.
Qed.

(** A credential that is not sealed is the store's. *)
Definition genuine (a : App) (c : CredentialRecord) : Prop :=
  is_sealed (cr_credential_id c) = false -> creds (app_store a) !! cr_credential_id c = Some c.

Definition stored_in (a : App) (c : CredentialRecord) : Prop :=
  creds (app_store a) !! cr_credential_id c = Some c /\ is_sealed (cr_credential_id c) = false.

(** The credentials an assertion may be answered with, each once and newest
    first: all are eligible and, if not sealed, the store's; every stored one that
    is eligible is among them. *)
Record applicable (a : App) (allow : option (list bytes)) (rp : bytes) (uv : bool)
    (l : list CredentialRecord) : Prop := {
  ap_sorted : StronglySorted newest_le l;
  ap_genuine : Forall (genuine a) l;
  ap_eligible : Forall (eligible allow rp uv) l;
  ap_once : NoDup (map cr_credential_id l);
  ap_all : forall c, stored_in a c -> eligible allow rp uv c -> c ∈ l
}.

Lemma filter_once (f : CredentialRecord -> bool) l :
  NoDup (map cr_credential_id l) -> NoDup (map cr_credential_id (List.filter f l)).
Proof.
  induction l as [|c l IH]; [done|]. simpl. rewrite !NoDup_cons. intros [Hc Hl]. destruct (f c); [|auto].
  simpl. constructor; [|auto]. intros (c' & Hid & Hin)%list_elem_of_fmap. apply Hc, list_elem_of_fmap.
  exists c'. split; [done|]. rewrite list_elem_of_In, filter_In in Hin. apply list_elem_of_In, Hin.
Qed.

Lemma denoted_once ids rp uv acc (a b : App) l :
  own_ids a -> NoDup (map cr_credential_id acc) ->
  ga_denoted ids rp uv acc a = (b, Ok l) -> NoDup (map cr_credential_id l).
Proof.
  revert acc a. induction ids as [|id ids IH]; intros acc a Ho Hacc Hd; cbn [ga_denoted] in Hd; [by injection Hd as _ <-|].
  destruct (existsb _ acc) eqn:Hex; [by eapply IH|].
  peel Hd a1 o Hl. pose proof (calmly_run _ _ _ _ (calmly_for_rp id rp) Hl) as Hcalm.
  eapply IH; [by eapply calm_own_ids| |exact Hd].
  destruct o as [c|]; [|done]. destruct (credential_allows c uv true); [|done].
  apply (credential_for_rp_some id rp a a1 c Ho) in Hl as (_ & Hid & _).
  rewrite map_app. apply NoDup_app. split_and!; [done| |by apply NoDup_singleton].
  intros x (c' & -> & Hin)%list_elem_of_fmap Hx%list_elem_of_singleton. rewrite Hid in Hx.
  assert (existsb (fun k => bytes_eqb (cr_credential_id k) id) acc = true) as Hyes; [|congruence].
  apply existsb_exists. exists c'. split; [by apply list_elem_of_In|]. by apply bytes_eqb_spec.
Qed.

Lemma denoted_ok ids rp uv acc (a b : App) l :
  own_ids a -> Forall (genuine a) acc ->
  ga_denoted ids rp uv acc a = (b, Ok l) ->
  (forall c, c ∈ l -> c ∈ acc \/ answers (Some ids) rp uv c) /\ Forall (genuine a) l /\
  (forall c, c ∈ acc -> c ∈ l) /\
  (forall c, stored_in a c -> answers (Some ids) rp uv c -> c ∈ l).
Proof.
  intros Ho. revert acc a Ho. induction ids as [|id ids IH]; intros acc a Ho Hacc Hd; cbn [ga_denoted] in Hd.
  { injection Hd as <- <-. split_and!; auto. intros c _ (_ & _ & Hin). by apply elem_of_nil in Hin. }
  assert (Hmore : forall c, answers (Some ids) rp uv c -> answers (Some (id :: ids)) rp uv c)
    by (intros c (? & ? & ?); split_and!; [done|done|by right]).
  destruct (existsb _ acc) eqn:Hex.
  - destruct (IH acc a Ho Hacc Hd) as (I1 & I2 & I3 & I4). split_and!; auto.
    { intros c Hc. destruct (I1 c Hc); auto. }
    intros c Hst (Hrp & Hal & Hin). apply elem_of_cons in Hin as [Hid|Hin]; [|by apply I4].
    apply existsb_exists in Hex as (c0 & Hc0 & He). apply bytes_eqb_spec in He.
    apply list_elem_of_In in Hc0. apply I3. rewrite Forall_forall in Hacc.
    assert (c0 = c) as ->; [|done].
    destruct Hst as [Hst Hns]. assert (Hg : genuine a c0) by auto. unfold genuine in Hg.
    rewrite He, <- Hid in Hg. specialize (Hg Hns). congruence.
  - peel Hd a1 o Hl. pose proof (calmly_run _ _ _ _ (calmly_for_rp id rp) Hl) as Hcalm.
    pose proof (calm_creds _ _ Hcalm) as Hcr.
    set (acc' := match o with Some c => _ | None => _ end) in Hd.
    assert (Hacc' : Forall (genuine a) acc').
    { unfold acc'. destruct o as [c|]; [|done]. destruct (credential_allows c uv true); [|done].
      apply Forall_app. split; [done|]. constructor; [|constructor].
      apply (credential_for_rp_some id rp a a1 c Ho) in Hl as (_ & Hid & Hst).
      unfold genuine. by rewrite Hid. }
    assert (Hgen : forall c, genuine a1 c <-> genuine a c) by (intros c; unfold genuine; by rewrite Hcr).
    destruct (IH acc' a1 (calm_own_ids _ _ Hcalm Ho)) as (I1 & I2 & I3 & I4); [|exact Hd|].
    { eapply Forall_impl; [exact Hacc'|]. intros c. apply Hgen. }
    split_and!.
    + intros c Hc. destruct (I1 c Hc) as [Hin|Hin]; [|right; by apply Hmore].
      unfold acc' in Hin. destruct o as [c0|]; [|by left].
      destruct (credential_allows c0 uv true) eqn:Hal; [|by left].
      apply elem_of_app in Hin as [Hin|Hin]; [by left|]. apply list_elem_of_singleton in Hin as ->.
      apply (credential_for_rp_some id rp a a1 c0 Ho) in Hl as (Hrp & Hid & _).
      right. split_and!; [done|done|]. rewrite Hid. by left.
    + eapply Forall_impl; [exact I2|]. intros c. apply Hgen.
    + intros c Hc. apply I3. unfold acc'. destruct o as [c0|]; [|done].
      destruct (credential_allows c0 uv true); [|done]. apply elem_of_app. by left.
    + intros c [Hst Hns] (Hrp & Hal & Hin). apply elem_of_cons in Hin as [Hid|Hin].
      * apply I3. subst id. rewrite <- Hrp in Hl.
        apply (credential_for_rp_found _ _ _ _ _ Hns Hst) in Hl as ->. unfold acc'. simpl in Hal.
        rewrite Hal. apply elem_of_app. right. by left.
      * apply I4; [split; [by rewrite Hcr|done]|]. by split_and!.
Qed.

(** The store's list, each credential once. *)
Lemma listed_once (a b : App) l :
  own_ids a -> stored_credentials a = (b, Ok l) ->
  StronglySorted newest_le l /\ NoDup (map cr_credential_id l) /\
  forall c, c ∈ l <-> creds (app_store a) !! cr_credential_id c = Some c.
Proof.
  intros Ho Hs. unfold stored_credentials, on_store in Hs.
  destruct (st_list (app_store a)) as [s [x|e]] eqn:Hli; [|done]. injection Hs as _ <-.
  apply creds_list in Hli as [_ Hli]. destruct (Hli x eq_refl) as [Hsort Hperm].
  split; [done|]. split.
  - assert (map cr_credential_id x ≡ₚ (map_to_list (creds (app_store a))).*1) as ->; [|apply NoDup_fst_map_to_list].
    change (map cr_credential_id x) with (cr_credential_id <$> x). rewrite Hperm, <- list_fmap_compose.
    apply reflexive_eq, list_fmap_ext. intros i [k c] Hk. simpl. apply list_elem_of_lookup_2, elem_of_map_to_list in Hk.
    by apply Ho.
  - intros c. rewrite Hperm, list_elem_of_fmap. split.
    + intros ((k & c') & -> & Hk). apply elem_of_map_to_list in Hk. simpl. by rewrite (Ho k c' Hk).
    + intros Hk. exists (cr_credential_id c, c). split; [done|]. by apply elem_of_map_to_list.
Qed.

Lemma locate_ok allow rp uv (a b : App) l :
  own_ids a -> ga_locate allow rp uv a = (b, Ok l) -> applicable a allow rp uv l.
Proof.
  intros Ho Hl. unfold ga_locate in Hl. destruct allow as [ids|].
  - peel Hl a1 found Hd. injection Hl as _ <-. pose proof (denoted_once _ _ _ [] _ _ _ Ho (NoDup_nil_2) Hd) as Hnd.
    apply denoted_ok in Hd as (I1 & I2 & _ & I4); [|done|constructor].
    pose proof (sort_newest_first_perm found) as Hp.
    split; [apply sort_newest_first_sorted|by rewrite Hp| |by rewrite Hp|].
    + rewrite Hp. apply Forall_forall. intros c Hc. destruct (I1 c Hc) as [Hn|]; [|by apply answers_eligible].
      by apply elem_of_nil in Hn.
    + intros c Hst Ha%answers_eligible. rewrite Hp. auto.
  - peel Hl a1 x Hs. injection Hl as _ <-. apply listed_once in Hs as (Hsort & Hnd & Hin); [|done].
    assert (Hf : forall c, c ∈ List.filter (fun c => bytes_eqb (cr_rp_id c) rp && is_discoverable (cr_credential_id c)
                     && credential_allows c uv false) x <->
                 c ∈ x /\ answers None rp uv c).
    { intros c. rewrite !list_elem_of_In, filter_In, !andb_true_iff, bytes_eqb_spec. unfold answers. tauto. }
    split; [by apply filter_sorted| | |by apply filter_once|].
    + apply Forall_forall. intros c Hc _. apply Hin. by apply Hf in Hc as [? _].
    + apply Forall_forall. intros c Hc. apply Hf in Hc as [_ ?]. by apply answers_eligible.
    + intros c [Hst _] Ha%answers_eligible. apply Hf. split; [by apply Hin|done].
Qed.

(** ** Counting and signing *)

Context `{!CounterStoreLaws S}.

(** [c] was counted to [c'] between [a] and [b]: the global counter for a
    sealed credential, its own for a stored one. *)
Definition counted (c c' : CredentialRecord) (a b : App) : Prop :=
  c' = set_sign_count c (cr_sign_count c') /\
  if is_sealed (cr_credential_id c) then
    cr_sign_count c' = u32_saturating_add (counter_view (app_store a)) 1 /\
    counter_view (app_store b) = cr_sign_count c' /\ creds (app_store b) = creds (app_store a)
  else
    cr_sign_count c' = u32_saturating_add (cr_sign_count c) 1 /\
    creds (app_store b) = <[cr_credential_id c := c']> (creds (app_store a)).

Definition next_count (c : CredentialRecord) : CredentialRecord :=
  set_sign_count c (u32_saturating_add (cr_sign_count c) 1).

(** What a failure can leave: nothing, or the stored credential counted. *)
Definition at_most_counted (c : CredentialRecord) (a b : App) : Prop :=
  creds (app_store b) = creds (app_store a) \/
  (is_sealed (cr_credential_id c) = false /\
   creds (app_store b) = <[cr_credential_id c := next_count c]> (creds (app_store a))).

Lemma advance_effect c (a b : App) r :
  genuine a c -> advance_signature_counter c a = (b, r) ->
  setting b = setting a /\ token_of b = token_of a /\ app_pending_assertion b = app_pending_assertion a /\
  match r with Ok c' => counted c c' a b | Err _ => at_most_counted c a b end.
Proof.
  unfold genuine, advance_signature_counter, counted, at_most_counted. intros Hg Ha.
  destruct (is_sealed (cr_credential_id c)).
  - unfold mbind_st, on_store in Ha.
    destruct (st_signature_counter (app_store a)) as [s1 [v|e]] eqn:Hr; pose proof (creds_counter (app_store a)) as Hc1;
      rewrite Hr in Hc1; simpl in Hc1; apply counter_read in Hr as [Hv1 Hv];
      [|injection Ha as <- <-; by split_and!; try left].
    rewrite (Hv v eq_refl) in Ha. simpl in Ha. set (n := u32_saturating_add (counter_view (app_store a)) 1) in *.
    destruct (st_set_signature_counter n s1) as [s2 [u|e]] eqn:Hw; pose proof (creds_set_counter n s1) as Hc2;
      rewrite Hw in Hc2; simpl in Hc2; apply counter_write in Hw; injection Ha as <- <-;
      (split; [done|]); (split; [done|]); (split; [done|]).
    + split; [done|]. split_and!; [done|done|]. simpl. congruence.
    + left. simpl. congruence.
  - specialize (Hg eq_refl). unfold mbind_st, on_store in Ha.
    fold (next_count c) in *.
    destruct (st_put (next_count c) (app_store a)) as [s [u|e]] eqn:Hp; apply creds_put in Hp;
      simpl in Hp; rewrite Hg in Hp; injection Ha as <- <-; (split; [done|]); (split; [done|]); (split; [done|]).
    + destruct Hp as [_ Hp]. split; [done|]. split; [done|]. simpl. by rewrite Hp.
    + destruct Hp as [Hp|(old & Ho & Hp)]; [by left|right]. split; [done|]. simpl. rewrite Hp.
      by assert (old = c) as -> by congruence.
Qed.

(** The signature is made with the credential's key, after the count is
    persisted, over the authenticator data with that count. *)
Definition signs (c c' : CredentialRecord) (rp hash : bytes) (up uv : bool) (ext : option bytes)
    (data signature : bytes) : Prop :=
  data = assertion_auth_data rp (cr_sign_count c') up uv ext /\
  exists secret rng, record_secret_key c = Ok secret /\
    try_sign_challenge (cr_alg c) secret data hash rng = Ok signature.

Lemma sign_assertion_effect c rp h up uv ext (a b : App) r :
  genuine a c -> sign_assertion c rp h up uv ext a = (b, r) ->
  setting b = setting a /\ token_of b = token_of a /\ app_pending_assertion b = app_pending_assertion a /\
  match r with
  | Ok (c', data, signature) => counted c c' a b /\ signs c c' rp h up uv ext data signature
  | Err _ => at_most_counted c a b
  end.
Proof.
  intros Hg Hs. unfold sign_assertion in Hs.
  apply bind_split in Hs as [(e & Hs & ->)|(a1 & secret & Hsec & Hs)].
  { injection Hs as <- _. split_and!; try done. by left. }
  apply lift_ok in Hsec as [-> Hsec].
  apply bind_split in Hs as [(e & Hs & ->)|(a2 & c' & Hadv & Hs)].
  { by apply (advance_effect _ _ _ _ Hg) in Hs. }
  apply (advance_effect _ _ _ _ Hg) in Hadv as (Hset & Htok & Hpend & Hct).
  apply bind_split in Hs as [(e & Hs & ->)|(a3 & signature & Hsig & Hs)].
  - unfold sign in Hs. apply bind_split in Hs as [(e' & Hs & _)|(a4 & rng & Hrng & Hs)]; [done|].
    injection Hrng as <- <-. injection Hs as <- _. split_and!; try done.
    destruct Hct as [Heq Hct]. unfold at_most_counted. destruct (is_sealed (cr_credential_id c)).
    + left. by destruct Hct as (_ & _ & ?).
    + right. split; [done|]. destruct Hct as [Hn Hct]. cbn [app_store with_world]. rewrite Hct. f_equal.
      rewrite Heq. unfold next_count. by rewrite <- Hn.
  - injection Hs as <- <-. unfold sign in Hsig. peel Hsig a4 rng Hrng. injection Hrng as <- <-.
    injection Hsig as <- Hsig. split_and!; try done. split; [done|]. exists secret, (w_os (app_world a2) (w_os_uses (app_world a2))).
    destruct Hct as [Heq _]. rewrite Heq in Hsig. split.
    + by destruct (record_secret_key c); [injection Hsec as ->|].
    + by destruct (try_sign_challenge _ _ _ _ _); [injection Hsig as ->|].
Qed.

(** ** Presence *)

Lemma presence_ok p rp l (a b : App) up :
  ga_user_presence p rp l a = (b, Ok up) ->
  up = gp_up p /\
  (up = true ->
   (approved a (authenticate_request rp (ga_account l) (app_presence_timeout a)) \/
    is_some (gp_pin_uv_auth p) = true /\ exists t, tks_in_use (token_of a) = Some t /\ tk_user_present t = true) /\
   forall t, tks_in_use (token_of b) = Some t -> Z.land (tk_permissions t) PIN_PERMISSION_GA = 0).
Proof.
  unfold ga_user_presence. destruct (gp_up p).
  2:{ destruct (is_some _); [done|]. intros [= <- <-]. done. }
  intros Hp. peel Hp a1 present Hpr. peel Hp a2 u Hcf. peel Hp a3 u2 Hco. injection Hp as <- <-.
  split; [done|]. intros _. pose proof (calmly_run _ _ _ _ (calmly_present _) Hpr) as Hc. destruct u, u2. split.
  - destruct present; [right; by eapply present_ok|left].
    peel Hcf a4 timeout Ht. injection Ht as <- <-. apply confirm_approved in Hcf.
    pose proof (calm_setting _ _ Hc) as Hset.
    assert (Hto : app_presence_timeout a1 = app_presence_timeout a) by (by injection Hset as).
    rewrite Hto in Hcf. by eapply approved_setting.
  - intros t Ht. eapply consumed_permissions; [exact Hco|exact Ht|reflexivity].
Qed.

Lemma calmly_presence p rp l : calmly (ga_user_presence (S := S) p rp l).
Proof. unfold ga_user_presence. repeat calm_step. Qed.

Lemma calmly_outputs x c uv : calmly (ga_outputs (S := S) x c uv).
Proof. unfold ga_outputs. repeat calm_step. Qed.

Lemma calmly_verified protected p h rp : calmly (ga_verified (S := S) protected p h rp).
Proof. unfold ga_verified. repeat calm_step. Qed.

(** ** The shape of a run *)

(** A run without effect on the credentials and the counters. *)
Definition nothing_done {A} (a b : App) (r : result A Z) : Prop :=
  creds (app_store b) = creds (app_store a) /\ exists e, r = Err e.

Definition remaining_of (p : GaPlan) (others : list CredentialRecord) : list bytes :=
  if is_some (gp_allow_list p) then [] else map cr_credential_id others.

Lemma remember_store p rp h up uv rest hm lbk tok (a b : App) r :
  ga_remember p rp h up uv rest hm lbk tok a = (b, r) ->
  r = Ok tt /\ app_store b = app_store a /\ token_of b = token_of a.
Proof. unfold ga_remember. destruct rest; intros [= <- <-]; done. Qed.

Lemma assert_cases p rp h uv tok c others (a b : App) r :
  genuine a c -> ga_assert p rp h uv tok (c :: others) a = (b, r) ->
  nothing_done a b r \/
  exists up d lbk ext r', ga_user_presence p rp (c :: others) a = (d, Ok up) /\
    ga_large_blob_key (gx_large_blob_key (gp_extensions p)) = Ok lbk /\
    match r' with
    | Ok (c', data, signature) =>
        counted c c' a b /\ signs c c' rp h up uv ext data signature /\
        state_descends (token_of d) (token_of b) /\
        r = Ok (assertion_response c' data signature uv
                  (if (length (remaining_of p others) =? 0)%nat then None
                   else Some (1 + zlen (remaining_of p others))) lbk)
    | Err e => r = Err e /\ at_most_counted c a b
    end.
Proof.
  intros Hg Ha. unfold ga_assert in Ha.
  apply bind_split in Ha as [(e & Ha & ->)|(d & up & Hup & Ha)].
  { left. split; [|eauto]. eapply calm_creds, calmly_run; [apply calmly_presence|exact Ha]. }
  pose proof (calmly_run _ _ _ _ (calmly_presence _ _ _) Hup) as Hcd.
  pose proof (quiet_run _ _ _ _ (quiet_presence _ _ _) Hup) as Hqd.
  apply bind_split in Ha as [(e & Ha & ->)|(d1 & lbk & Hl & Ha)].
  { injection Ha as <- _. left. split; [by apply calm_creds|eauto]. }
  apply lift_ok in Hl as [-> Hl]. cbv zeta in Ha. fold (remaining_of p others) in Ha.
  apply bind_split in Ha as [(e & Ha & ->)|(d2 & outs & Ho & Ha)].
  { left. split; [|eauto]. eapply calm_creds. etrans; [exact Hcd|].
    eapply calmly_run; [apply calmly_outputs|exact Ha]. }
  pose proof (calmly_run _ _ _ _ (calmly_outputs _ _ _) Ho) as Hcd2.
  pose proof (quiet_run _ _ _ _ (quiet_outputs _ _ _) Ho) as Hqd2.
  assert (Hca : calm a d2) by (by etrans).
  apply bind_split in Ha as [(e & Ha & ->)|(d3 & ext & Hx & Ha)].
  { injection Ha as <- _. left. split; [by apply calm_creds|eauto]. }
  apply lift_ok in Hx as [-> Hx].
  assert (Hg2 : genuine d2 c) by (unfold genuine; by rewrite (calm_creds _ _ Hca)).
  right. exists up, d, lbk, ext.
  apply bind_split in Ha as [(e & Ha & ->)|(d4 & signed & Hs & Ha)].
  - exists (Err e). apply (sign_assertion_effect _ _ _ _ _ _ _ _ _ Hg2) in Ha as (_ & _ & _ & Hm).
    split_and!; try done. unfold at_most_counted in *. by rewrite (calm_creds _ _ Hca) in Hm.
  - exists (Ok signed). apply (sign_assertion_effect _ _ _ _ _ _ _ _ _ Hg2) in Hs as (_ & Htok & _ & Hm).
    destruct signed as [[c' data] signature]. destruct Hm as [Hct Hsg].
    apply bind_split in Ha as [(e & Ha & _)|(d5 & u & Hr & Ha)];
      [by apply remember_store in Ha as [? _]|].
    apply remember_store in Hr as (_ & Hst & Htk). injection Ha as <- <-.
    split; [done|]. split; [done|]. split; [|split; [done|split]].
    + unfold counted in *. rewrite Hst. by rewrite (calm_creds _ _ Hca), Hqd2, Hqd in Hct.
    + rewrite Htk, Htok. by destruct Hcd2.
    + done.
Qed.

Lemma applicable_calm (a b : App) allow rp uv l :
  calm a b -> applicable b allow rp uv l -> applicable a allow rp uv l.
Proof.
  intros Hc [Hs Hg He Hn Ha]. unfold genuine, stored_in in *. rewrite (calm_creds _ _ Hc) in *.
  by split.
Qed.

(** After the state is read, [a1]; after locating, [d], with the credentials
    that may answer. *)
Lemma handle_ga_cases payload (a b : App) r :
  own_ids a -> handle_get_assertion payload a = (b, r) ->
  nothing_done a b r \/
  exists a1 map rp h p uv tok c others d,
    fst (read_pin_state_if_unread a) = a1 /\ calm a a1 /\
    request_parameters payload = Ok map /\ ga_rp_id (map_get map (int_key 1)) = Ok rp /\
    client_data_hash (map_get map (int_key 2)) = Ok h /\
    ga_plan map (is_set (ps_pin (app_pin_state a1))) (pp_always_uv (persistent a1)) = Ok p /\
    (exists a2, ga_verified (is_set (ps_pin (app_pin_state a1))) p h rp a1 = (a2, Ok (uv, tok)) /\
       calm a2 d) /\
    calm a d /\ counter_view (app_store d) = counter_view (app_store a) /\
    genuine a c /\ applicable a (gp_allow_list p) rp uv (c :: others) /\
    ga_assert p rp h uv tok (c :: others) d = (b, r).
Proof.
  intros Ho Hh. unfold handle_get_assertion in Hh.
  assert (Hfail : forall x : App, calm a x -> forall e, nothing_done a x (@Err bytes Z e))
    by (intros x Hx e; split; [by apply calm_creds|eauto]).
  apply bind_split in Hh as [(e & Hh & ->)|(s1 & entries & Hmap & Hh)]; [injection Hh as <- _; left; by apply Hfail|].
  apply lift_ok in Hmap as [-> Hmap].
  apply bind_split in Hh as [(e & Hh & ->)|(s2 & rp & Hrp & Hh)]; [injection Hh as <- _; left; by apply Hfail|].
  apply lift_ok in Hrp as [-> Hrp].
  apply bind_split in Hh as [(e & Hh & ->)|(s3 & h & Hhash & Hh)]; [injection Hh as <- _; left; by apply Hfail|].
  apply lift_ok in Hhash as [-> Hhash].
  apply bind_split in Hh as [(e & Hh & ->)|(a1 & u & Hru & Hh)].
  { left. apply Hfail. eapply calmly_run; [apply calmly_read_if_unread|exact Hh]. }
  pose proof (calmly_run _ _ _ _ calmly_read_if_unread Hru) as Hc1.
  pose proof (quiet_run _ _ _ _ quiet_read_if_unread Hru) as Hq1.
  destruct (is_zero_length _).
  { left. apply bind_split in Hh as [(e & Hh & ->)|(s & x & Hx & Hh)].
    - apply Hfail. etrans; [exact Hc1|eapply calmly_run; [apply calmly_select|exact Hh]].
    - injection Hh as <- <-. apply Hfail.
      etrans; [exact Hc1|eapply calmly_run; [apply calmly_select|exact Hx]]. }
  apply bind_split in Hh as [(e & Hh & _)|(s4 & protected & Hp & Hh)]; [done|]. injection Hp as <- <-.
  apply bind_split in Hh as [(e & Hh & _)|(s5 & always & Hp & Hh)]; [done|]. injection Hp as <- <-.
  apply bind_split in Hh as [(e & Hh & ->)|(s6 & p & Hp & Hh)]; [injection Hh as <- _; left; by apply Hfail|].
  apply lift_ok in Hp as [-> Hp].
  apply bind_split in Hh as [(e & Hh & ->)|(a2 & verified & Hv & Hh)].
  { left. apply Hfail. etrans; [exact Hc1|eapply calmly_run; [apply calmly_verified|exact Hh]]. }
  pose proof (calmly_run _ _ _ _ (calmly_verified _ _ _ _) Hv) as Hc2.
  pose proof (quiet_run _ _ _ _ (quiet_ga_verified _ _ _ _) Hv) as Hq2.
  assert (Hca2 : calm a a2) by (by etrans).
  apply bind_split in Hh as [(e & Hh & ->)|(d & l & Hl & Hh)].
  { left. apply Hfail. etrans; [exact Hca2|eapply calmly_run; [apply calmly_locate|exact Hh]]. }
  pose proof (calmly_run _ _ _ _ (calmly_locate _ _ _) Hl) as Hc3.
  pose proof (quiet_run _ _ _ _ (quiet_locate _ _ _) Hl) as Hq3.
  assert (Hcd : calm a d) by (by etrans).
  destruct l as [|c others]; cbn [length Nat.eqb] in Hh; [injection Hh as <- <-; left; by apply Hfail|].
  apply locate_ok in Hl; [|by eapply calm_own_ids].
  destruct verified as [uv tok]. right. exists a1, entries, rp, h, p, uv, tok, c, others, d.
  rewrite Hru. apply (applicable_calm _ _ _ _ _ _ Hca2) in Hl.
  assert (Hg : genuine a c) by exact (Forall_inv (ap_genuine _ _ _ _ _ Hl)).
  split_and!; try done; [by exists a2|congruence].
Qed.

Lemma verified_ok protected p h rp (a b : App) uv tok :
  ga_verified protected p h rp a = (b, Ok (uv, tok)) ->
  uv = protected && is_some (gp_pin_uv_auth p) /\
  (uv = true -> exists x t, gp_pin_uv_auth p = Some x /\ tks_in_use (token_of a) = Some t /\
     authorized_by t x PIN_PERMISSION_GA h rp).
Proof.
  unfold ga_verified. intros Hv. peel Hv a1 v Hau. apply authorize_ceremony_ok in Hau as [Heq Hby].
  destruct v.
  - peel Hv a2 t Ht. injection Hv as _ <- <-. split; [done|]. intros _. by apply Hby.
  - injection Hv as _ <- <-. by split.
Qed.

Lemma ga_plan_ok map protected always p :
  ga_plan map protected always = Ok p -> always = true -> gp_up p = true ->
  protected && is_some (gp_pin_uv_auth p) = true.
Proof.
  unfold ga_plan, bind. intros Hp -> Hup.
  destruct (parse_pin_uv_auth_param _ _) as [auth|]; [|done]. destruct (ga_allow_list _); [|done].
  destruct (ga_extensions _); [|done]. destruct (options _) as [o|]; [|done].
  destruct (negb _ && _); [done|]. destruct (is_some (opt_rk o)); [done|].
  set (up := match opt_up o with Some b => b | None => true end) in *.
  destruct (true && up && _) eqn:Hg; [done|]. injection Hp as <-. simpl in *. rewrite Hup in Hg.
  destruct protected, auth; done.
Qed.

(** What a plan takes from the request: nothing but an up option of false makes
    an assertion silent. *)
Record ga_planned (map : Entries) (p : GaPlan) : Prop := {
  gpl_auth : parse_pin_uv_auth_param (map_get map (int_key 6)) (map_get map (int_key 7)) = Ok (gp_pin_uv_auth p);
  gpl_allow : match map_get map (int_key 3) with
              | Some listed => exists ids, credential_ids listed = Ok ids /\ gp_allow_list p = Some ids
              | None => gp_allow_list p = None
              end;
  gpl_extensions : ga_extensions (map_get map (int_key 4)) = Ok (gp_extensions p);
  gpl_up : exists o, options (map_get map (int_key 5)) = Ok o /\
    gp_up p = negb (bool_decide (opt_up o = Some false))
}.

Lemma ga_plan_reads map protected always p : ga_plan map protected always = Ok p -> ga_planned map p.
Proof.
  unfold ga_plan, bind. intros Hp.
  destruct (parse_pin_uv_auth_param _ _) eqn:E1; [|done]. destruct (ga_allow_list _) eqn:E2; [|done].
  destruct (ga_extensions _) eqn:E3; [|done]. destruct (options _) as [o|] eqn:E4; [|done].
  destruct (negb _ && _); [done|]. destruct (is_some (opt_rk o)); [done|].
  destruct (_ && (_ || _)); [done|]. injection Hp as <-. split; simpl; try done.
  - unfold ga_allow_list in E2. destruct (map_get map (int_key 3)) as [v|]; [|by injection E2 as <-].
    unfold bind in E2. destruct (credential_ids v) as [ids|]; [|done]. injection E2 as <-. eauto.
  - exists o. split; [done|]. by destruct (opt_up o) as [[]|].
Qed.

Lemma newest_le_refl c : newest_le c c.
Proof. unfold newest_le, newest_first. by rewrite Z.compare_refl, bytes_cmp_refl. Qed.

(** Verified once the state was read, verified at the start. *)
Lemma verified_back (a b : App) auth h rp :
  calm a b ->
  (exists x t, auth = Some x /\ tks_in_use (token_of b) = Some t /\ authorized_by t x PIN_PERMISSION_GA h rp) ->
  exists x t, auth = Some x /\ tks_in_use (token_of a) = Some t /\ authorized_by t x PIN_PERMISSION_GA h rp.
Proof.
  intros Hc (x & t' & Hx & Ht' & Hau). destruct (calm_token _ _ _ Hc Ht') as (t & Ht & Hd).
  exists x, t. split_and!; try done. by eapply authorized_back.
Qed.

(** The entries of a response that names nobody: the user, where there is one,
    is the user handle alone. *)
Definition anonymous_entries (c : CredentialRecord) (data signature : bytes) (n : option Z)
    (key : option bytes) : Entries :=
  [(VInteger 1, canonical_map [(VText text_type, VText PUBLIC_KEY);
                               (VText text_id, VBytes (cr_credential_id c))]);
   (VInteger 2, VBytes data); (VInteger 3, VBytes signature)]
  ++ (if is_discoverable (cr_credential_id c)
      then [(VInteger 4, VMap [(VText text_id, VBytes (cr_user_id c))])] else [])
  ++ (match n with Some total => [(VInteger 5, VInteger total)] | None => [] end)
  ++ (match key with Some k => [(VInteger 7, VBytes k)] | None => [] end).

Lemma unverified_anonymous c data signature n lbk :
  assertion_entries c data signature false n lbk =
    anonymous_entries c data signature n
      (if lbk && is_discoverable (cr_credential_id c) then cr_large_blob_key c else None).
Proof.
  unfold assertion_entries, anonymous_entries. by destruct (lbk && _).
Qed.

(** ** The assertions after the first *)

(** What is remembered stays, and the clock's readings go on. *)
Definition same_pending {A} (m : M App A Z) : Prop :=
  forall a, app_pending_assertion (fst (m a)) = app_pending_assertion a /\
    (w_clock_reads (app_world a) <= w_clock_reads (app_world (fst (m a))))%nat.

Lemma same_pending_run {A} (m : M App A Z) a b r :
  same_pending m -> m a = (b, r) -> app_pending_assertion b = app_pending_assertion a.
Proof. intros Hm Hr. destruct (Hm a) as [Hp _]. by rewrite Hr in Hp. Qed.

Lemma same_pending_reads {A} (m : M App A Z) a b r :
  same_pending m -> m a = (b, r) -> (w_clock_reads (app_world a) <= w_clock_reads (app_world b))%nat.
Proof. intros Hm Hr. destruct (Hm a) as [_ Hp]. by rewrite Hr in Hp. Qed.

(** An operation that reads no clock. *)
Lemma same_pending_still {A} (m : M App A Z) :
  (forall a, app_pending_assertion (fst (m a)) = app_pending_assertion a /\
     w_clock_reads (app_world (fst (m a))) = w_clock_reads (app_world a)) -> same_pending m.
Proof. intros Hm a. destruct (Hm a) as [Hp Hw]. split; [done|lia]. Qed.

Lemma same_pending_ret {A} (r : result A Z) : same_pending (fun a => (a, r)).
Proof. by apply same_pending_still. Qed.

Lemma same_pending_now : same_pending now.
Proof. intros a. split; [done|]. simpl. lia. Qed.

Lemma same_pending_bind {A B} (m : M App A Z) (k : A -> M App B Z) :
  same_pending m -> (forall x, same_pending (k x)) -> same_pending (mbind_st m k).
Proof.
  intros Hm Hk a. unfold mbind_st. specialize (Hm a).
  destruct (m a) as [b [x|e]]; simpl in *; [|done]. destruct Hm as [Hp Hw], (Hk x b) as [Hp' Hw'].
  split; [congruence|lia].
Qed.

Lemma same_pending_on_store {A E} (m : M S A E) f : same_pending (on_store m f).
Proof. apply same_pending_still. intros a. unfold on_store. by destruct (m (app_store a)) as [s [v|e]]. Qed.

Lemma same_pending_live tok : same_pending (pending_token_live tok).
Proof.
  destruct tok as [id|]; [|apply same_pending_ret]. apply same_pending_bind.
  - apply same_pending_bind; [apply same_pending_now|]. intros t. apply same_pending_still. intros a.
    by destruct (in_use_id t _).
  - intros cur. unfold guard. case_bool_decide; apply same_pending_ret.
Qed.

Lemma same_pending_stored id : same_pending (stored_credential (S := S) id).
Proof.
  apply same_pending_still. intros a. unfold stored_credential. by destruct (st_get id (app_store a)) as [s [x|[]]].
Qed.

Lemma same_pending_next ids rp : same_pending (next_remaining (S := S) ids rp).
Proof.
  induction ids as [|id ids IH]; cbn [next_remaining]; [apply same_pending_ret|].
  apply same_pending_bind; [apply same_pending_stored|]. intros [c|]; [|exact IH].
  destruct (bytes_eqb _ _); [apply same_pending_ret|exact IH].
Qed.

Lemma same_pending_outputs p c : same_pending (next_outputs (S := S) p c).
Proof.
  apply same_pending_bind; [|intros x; apply same_pending_ret].
  destruct (pa_hmac_secret p) as [st|]; [|apply same_pending_ret].
  apply same_pending_bind; [|intros x; apply same_pending_ret]. unfold encrypt_hmac_secret_outputs, encrypt_for_platform.
  apply same_pending_bind; [|intros iv; apply same_pending_ret].
  destruct (hs_protocol st); by apply same_pending_still.
Qed.

Lemma same_pending_sign c rp h up uv ext : same_pending (sign_assertion (S := S) c rp h up uv ext).
Proof.
  apply same_pending_bind; [apply same_pending_ret|]. intros secret. apply same_pending_bind.
  - unfold advance_signature_counter. destruct (is_sealed _);
      repeat (apply same_pending_bind; [apply same_pending_on_store|intros ?]); apply same_pending_ret.
  - intros c'. apply same_pending_bind; [|intros x; apply same_pending_ret].
    unfold sign. apply same_pending_bind; intros; by apply same_pending_still.
Qed.

Lemma next_remaining_ok ids rp (a b : App) c rest :
  next_remaining ids rp a = (b, Ok (c, rest)) ->
  calm a b /\ counter_view (app_store b) = counter_view (app_store a) /\
  exists skipped id, ids = skipped ++ id :: rest /\ cr_rp_id c = rp /\
    creds (app_store a) !! id = Some c /\
    Forall (fun gone => forall c', creds (app_store a) !! gone = Some c' -> cr_rp_id c' <> rp) skipped.
Proof.
  revert a. induction ids as [|id ids IH]; intros a Hn; cbn [next_remaining] in Hn; [done|].
  peel Hn a1 o Hs. pose proof (calmly_run _ _ _ _ (calmly_stored_credential id) Hs) as Hc.
  pose proof (quiet_run _ _ _ _ (quiet_stored_credential id) Hs) as Hq.
  assert (Hskip : next_remaining ids rp a1 = (b, Ok (c, rest)) ->
    (forall c', creds (app_store a) !! id = Some c' -> cr_rp_id c' <> rp) ->
    calm a b /\ counter_view (app_store b) = counter_view (app_store a) /\
    exists skipped id', id :: ids = skipped ++ id' :: rest /\ cr_rp_id c = rp /\
      creds (app_store a) !! id' = Some c /\
      Forall (fun gone => forall c', creds (app_store a) !! gone = Some c' -> cr_rp_id c' <> rp) skipped).
  { intros Hr Hne. destruct (IH a1 Hr) as (I1 & I3 & skipped & id' & Hids & Hrp & Hcr & Hsk).
    rewrite (calm_creds _ _ Hc) in *. split; [by etrans|]. split; [congruence|].
    exists (id :: skipped), id'. split_and!; [by rewrite Hids|done|done|by constructor]. }
  destruct o as [c0|].
  - pose proof (stored_credential_some _ _ _ _ Hs) as Hc0.
    destruct (bytes_eqb (cr_rp_id c0) rp) eqn:He.
    + injection Hn as <- <- <-. apply bytes_eqb_spec in He. split; [done|]. split; [done|].
      exists [], id. by split_and!.
    + apply Hskip; [done|]. intros c' Hc'. assert (c' = c0) as -> by congruence.
      intros Heq. apply bytes_eqb_spec in Heq. congruence.
  - apply stored_credential_none in Hs as Hno. apply Hskip; [done|]. intros c' Hc'. congruence.
Qed.

Lemma calmly_next_outputs p c : calmly (next_outputs (S := S) p c).
Proof. unfold next_outputs. repeat calm_step. Qed.

Lemma quiet_next_outputs p c : quiet (next_outputs (S := S) p c).
Proof.
  unfold next_outputs. apply quiet_bind; [|intros x; by apply quiet_still].
  destruct (pa_hmac_secret p); [|by apply quiet_still].
  apply quiet_bind; [apply quiet_encrypt|]. intros x. by apply quiet_still.
Qed.

Lemma token_live_ok tok (a b : App) :
  pending_token_live tok a = (b, Ok tt) ->
  calm a b /\ app_store b = app_store a /\
  (forall id, tok = Some id -> exists t, tks_in_use (token_of a) = Some t /\ tk_id t = id).
Proof.
  unfold pending_token_live. destruct tok as [id|]; [|intros [= <-]; done].
  intros Hl. peel Hl a1 cur Hc. unfold guard in Hl. case_bool_decide as Heq; [|done]. injection Hl as <-.
  apply (query_ok _ _ _ _ _ observing_id) in Hc as (Hv & Hcalm & Hst & _).
  split_and!; try done. intros id' [= <-].
  destruct (tks_in_use (token_of a1)) as [t'|] eqn:Ht'; [|simpl in Hv; congruence].
  destruct (calm_token _ _ _ Hcalm Ht') as (t & Ht & Hd). exists t. split; [done|].
  rewrite <- (de_id _ _ Hd). simpl in Hv. congruence.
Qed.

(** ** Properties *)

(** C28: The credential that answers an assertion belongs to the RP asked for,
    is on the request's allow list or, without one, discoverable, and may be used
    at the verification the request achieved: at credProtect level 3 only if the
    user was verified, at level 2 only if so or if it is listed, where the user
    was verified exactly if a PIN is set and the request carried the MAC of the
    token in use over the client data hash, with the ga permission for this RP.
    It is the store's record unless its ID is a sealed one, and of all the stored
    credentials that may answer it is the newest.  The signature is made with its
    key over the authenticator data of the response and the client data hash. *)
Theorem assertion_by_newest_eligible payload (a b : App) response :
  own_ids a -> handle_get_assertion payload a = (b, Ok response) ->
  exists a1 map rp h p uv up c c' ext data signature n lbk,
    fst (read_pin_state_if_unread a) = a1 /\
    request_parameters payload = Ok map /\ ga_rp_id (map_get map (int_key 1)) = Ok rp /\
    client_data_hash (map_get map (int_key 2)) = Ok h /\ ga_planned map p /\
    uv = is_set (ps_pin (app_pin_state a1)) && is_some (gp_pin_uv_auth p) /\
    (uv = true -> exists x t, gp_pin_uv_auth p = Some x /\ tks_in_use (token_of a) = Some t /\
       authorized_by t x PIN_PERMISSION_GA h rp) /\
    eligible (gp_allow_list p) rp uv c /\ genuine a c /\
    (forall other, stored_in a other -> eligible (gp_allow_list p) rp uv other -> newest_le c other) /\
    c' = set_sign_count c (cr_sign_count c') /\ signs c c' rp h up uv ext data signature /\
    response = assertion_response c' data signature uv n lbk.
Proof.
  intros Ho Hh. apply handle_ga_cases in Hh as [[_ [e He]]|Hh]; [done| |done].
  destruct Hh as (a1 & m & rp & h & p & uv & tok & c & others & d & Ha1 & Hca1 & Hmap & Hrp & Hhash & Hp &
    (a2 & Hv & _) & Hcd & _ & Hg & Hap & Ha).
  apply verified_ok in Hv as [Huv Hby].
  apply assert_cases in Ha as [[_ [e He]]|Ha]; [done| |unfold genuine; by rewrite (calm_creds _ _ Hcd)].
  destruct Ha as (up & d' & lbk & ext & [[[c' data] signature]|e] & _ & _ & Hr); [|by destruct Hr].
  destruct Hr as (Hct & Hsg & _ & Hr). injection Hr as ->.
  exists a1, m, rp, h, p, uv, up, c, c', ext, data, signature. do 2 eexists. split_and!; try done.
  - by eapply ga_plan_reads.
  - intros Hu. by eapply verified_back, Hby.
  - exact (Forall_inv (ap_eligible _ _ _ _ _ Hap)).
  - intros other Hst Hother. pose proof (ap_sorted _ _ _ _ _ Hap) as [_ Hle]%StronglySorted_inv.
    apply (ap_all _ _ _ _ _ Hap) in Hother as [->|Hin]%elem_of_cons; [apply newest_le_refl| |done].
    by eapply Forall_forall in Hle.
  - by destruct Hct.
Qed.

(** C29: The signature counter is persisted before the signature leaves: an
    assertion reports one more than the count before it (a stored credential's
    own, the global one for a sealed credential; never past 2^32-1), and the
    store now holds exactly that count, with every other credential unchanged.
    A request that fails changes no credential, but for a stored credential
    whose count may have advanced by one. *)
Theorem assertion_counter_persisted payload (a b : App) r :
  own_ids a -> handle_get_assertion payload a = (b, r) ->
  match r with
  | Err _ => creds (app_store b) = creds (app_store a) \/
             exists c, stored_in a c /\
               creds (app_store b) = <[cr_credential_id c := next_count c]> (creds (app_store a))
  | Ok response => exists c c' rp up uv ext signature n lbk,
      genuine a c /\ counted c c' a b /\
      response = assertion_response c' (assertion_auth_data rp (cr_sign_count c') up uv ext)
                   signature uv n lbk
  end.
Proof.
  intros Ho Hh. apply handle_ga_cases in Hh as [[Hc [e ->]]|Hh]; [by left| |done].
  destruct Hh as (a1 & m & rp & h & p & uv & tok & c & others & d & _ & _ & _ & _ & _ & _ & _ & Hcd & Hcv &
    Hg & _ & Ha).
  pose proof (calm_creds _ _ Hcd) as Hcr.
  apply assert_cases in Ha as [[Hc [e ->]]|Ha]; [left; congruence| |unfold genuine; by rewrite Hcr].
  destruct Ha as (up & d' & lbk & ext & [[[c' data] signature]|e] & _ & _ & Hr).
  - destruct Hr as (Hct & [-> _] & _ & ->). exists c, c', rp, up, uv, ext, signature. do 2 eexists.
    split; [done|]. split; [|done]. unfold counted in *. by rewrite Hcr, Hcv in Hct.
  - destruct Hr as (-> & Hm). unfold at_most_counted in Hm. rewrite Hcr in Hm.
    destruct Hm as [Hm|[Hns Hm]]; [by left|right]. exists c. split; [|done]. split; [by apply Hg|done].
Qed.

(** C30: An assertion says what happened: its UV bit is set exactly when a PIN
    is set and the request carried the MAC of the token in use over the client
    data hash, with the ga permission for this RP; with always-UV on, an
    assertion with user presence has it.  Its UP bit is set unless the request's
    up option is false, and then the user approved this request (or the request
    carried a pinUvAuthParam and the token in use their presence), and the token
    authorizes no further assertion.  The credential that answers is the first of
    those that apply; the user is shown its account where it alone applies and is
    discoverable, and none otherwise.
    Without verification the response has no user name: its entries are the
    credential's descriptor, the authenticator data, the signature and, for a
    discoverable credential, a user of the user handle alone, beside the number of
    credentials and the large-blob key. *)
Theorem assertion_authorized payload (a b : App) response :
  own_ids a -> handle_get_assertion payload a = (b, Ok response) ->
  exists a1 map o rp h p uv up c others c' ext signature n lbk,
    fst (read_pin_state_if_unread a) = a1 /\
    request_parameters payload = Ok map /\ ga_rp_id (map_get map (int_key 1)) = Ok rp /\
    client_data_hash (map_get map (int_key 2)) = Ok h /\
    ga_plan map (is_set (ps_pin (app_pin_state a1))) (pp_always_uv (persistent a1)) = Ok p /\
    ga_planned map p /\
    uv = is_set (ps_pin (app_pin_state a1)) && is_some (gp_pin_uv_auth p) /\
    (uv = true -> exists x t, gp_pin_uv_auth p = Some x /\ tks_in_use (token_of a) = Some t /\
       authorized_by t x PIN_PERMISSION_GA h rp) /\
    options (map_get map (int_key 5)) = Ok o /\ up = negb (bool_decide (opt_up o = Some false)) /\
    (pp_always_uv (persistent a1) = true -> up = true -> uv = true) /\
    (up = true ->
      (approved a (authenticate_request rp
          (match others with
           | [] => if is_discoverable (cr_credential_id c) then Some c else None
           | _ => None
           end) (app_presence_timeout a)) \/
       is_some (gp_pin_uv_auth p) = true /\
       exists t, tks_in_use (token_of a) = Some t /\ tk_user_present t = true) /\
      forall t, tks_in_use (token_of b) = Some t -> Z.land (tk_permissions t) PIN_PERMISSION_GA = 0) /\
    applicable a (gp_allow_list p) rp uv (c :: others) /\ c' = set_sign_count c (cr_sign_count c') /\
    let data := assertion_auth_data rp (cr_sign_count c') up uv ext in
    response = assertion_response c' data signature uv n lbk /\
    (uv = false -> exists key,
       response = CTAP2_OK :: into_writer (VMap (canonical_sort
         (anonymous_entries c' data signature n key)))).
Proof.
  intros Ho Hh. apply handle_ga_cases in Hh as [[_ [e He]]|Hh]; [done| |done].
  destruct Hh as (a1 & m & rp & h & p & uv & tok & c & others & d & Ha1 & Hca1 & Hmap & Hrp & Hhash & Hp &
    (a2 & Hv & Hc2) & Hcd & _ & Hg & Hap & Ha).
  apply verified_ok in Hv as [Huv Hby].
  apply assert_cases in Ha as [[_ [e He]]|Ha]; [done| |unfold genuine; by rewrite (calm_creds _ _ Hcd)].
  destruct Ha as (up & d' & lbk & ext & [[[c' data] signature]|e] & Hup & _ & Hr); [|by destruct Hr].
  destruct Hr as ([Hct _] & [-> _] & Hdesc & Hr). injection Hr as ->.
  apply presence_ok in Hup as [-> Hup].
  pose proof (ga_plan_reads _ _ _ _ Hp) as Hreads. destruct (gpl_up _ _ Hreads) as (o & Ho' & Hup').
  exists a1, m, o, rp, h, p, uv, (gp_up p), c, others, c', ext, signature. do 2 eexists. cbv zeta.
  split_and!; try done.
  - intros Hu. by eapply verified_back, Hby.
  - intros Hal Hu. rewrite Huv. by eapply ga_plan_ok.
  - intros Hu. destruct (Hup Hu) as [Hcons Hperm]. pose proof (calm_setting _ _ Hcd) as Hset.
    assert (Hto : app_presence_timeout d = app_presence_timeout a) by (by injection Hset as).
    rewrite Hto in Hcons. split.
    + destruct Hcons as [Happ|(Hx & t' & Ht' & Hpt)]; [left; by eapply approved_setting|right].
      destruct (calm_token _ _ _ Hcd Ht') as (t & Ht & Hd). split; [done|]. exists t. split; [done|]. by apply (present_back _ _ Hd).
    + intros t Ht. destruct (Hdesc t Ht) as (t0 & Ht0 & Hd). pose proof (Hperm t0 Ht0) as Hz.
      destruct (Z.eq_dec (Z.land (tk_permissions t) PIN_PERMISSION_GA) 0) as [|Hnz]; [done|].
      by apply (de_permissions _ _ Hd) in Hnz.
  - intros ->. eexists. unfold assertion_response. by rewrite unverified_anonymous.
Qed.


End Assertion.

(** ** The PIN invariant *)

Section PinInvariant.

Context {S : Type} `{Crypto} `{KeyCrypto} `{SigningCrypto} `{Ciborium} `{CredentialStore S}.
Context `{!PinStoreLaws S}.

Lemma same_view_denoted ids rp uv acc : same_view (S := S) (ga_denoted ids rp uv acc).
Proof.
  revert acc. induction ids as [|id ids IH]; intros acc; cbn [ga_denoted]; [apply same_view_ret|].
  destruct (existsb _ _); [apply IH|]. apply same_view_bind; [apply same_view_for_rp|]. intros o. apply IH.
Qed.

Lemma same_view_locate allow rp uv : same_view (S := S) (ga_locate allow rp uv).
Proof. unfold ga_locate. repeat (apply same_view_denoted || same_view_step). Qed.

Lemma same_view_sign_assertion c rp h up uv ext :
  same_view (S := S) (sign_assertion c rp h up uv ext).
Proof. unfold sign_assertion. repeat same_view_step. Qed.

Lemma same_view_remember p rp h up uv rest hm lbk tok :
  same_view (S := S) (ga_remember p rp h up uv rest hm lbk tok).
Proof. unfold ga_remember. repeat same_view_step. Qed.

Lemma same_view_assert p rp h uv tok l : same_view (S := S) (ga_assert p rp h uv tok l).
Proof.
  unfold ga_assert, ga_user_presence, ga_outputs.
  repeat (apply same_view_sign_assertion || apply same_view_remember || same_view_step).
Qed.

Lemma keeps_get_assertion payload : keeps (S := S) pin_inv (handle_get_assertion payload).
Proof.
  unfold handle_get_assertion, ga_verified.
  repeat ((apply keeps_same_view; [apply pin_inv_view|];
    first [apply same_view_locate|apply same_view_assert]) || keeps_step).
Qed.

Lemma same_view_next_remaining ids rp : same_view (S := S) (next_remaining ids rp).
Proof.
  induction ids as [|id ids IH]; cbn [next_remaining]; repeat (exact IH || same_view_step).
Qed.

Lemma keeps_get_next_assertion : keeps (S := S) pin_inv handle_get_next_assertion.
Proof.
  apply keeps_same_view; [apply pin_inv_view|].
  unfold handle_get_next_assertion, pending_token_live, next_outputs.
  apply same_view_bind; [intros a; unfold take_pending; by destruct (app_pending_assertion a)|]. intros p.
  repeat (apply same_view_next_remaining || apply same_view_sign_assertion || same_view_step).
Qed.

End PinInvariant.

(** ** Concrete runs *)

Module AssertionWitness.

#[local] Opaque fresh_engine engine_with_pin engine_with_token agreed seal_for.

Ltac run := vm_compute; reflexivity.

Import RegistrationWitness.

(** Two accounts at one RP. *)
Definition account (id_byte user : Z) : CredentialRecord := {|
  cr_credential_id := 1 :: repeat id_byte 32; cr_rp_id := rp_ab; cr_user_id := [user];
  cr_user_name := Some [110; user]; cr_user_display_name := None; cr_alg := ES384;
  cr_private_key := Seed (repeat 7 32);
  cr_cred_random_with_uv := repeat 1 32; cr_cred_random_without_uv := repeat 2 32;
  cr_cred_blob := None; cr_large_blob_key := None; cr_third_party_payment := false;
  cr_cred_protect := 1; cr_sign_count := 4; cr_created_at := 0 |}.

Definition two_accounts : MemoryStore :=
  fst (ms_insert_or_replace_discoverable (account 11 2)
         (fst (ms_insert_or_replace_discoverable (account 10 1) (app_store engine_with_token)))).

Definition asserting_engine : CtapApp MemoryStore := with_store engine_with_token two_accounts.

Lemma own_ids_check (a : CtapApp MemoryStore) :
  bool_decide (map_Forall (fun id c => cr_credential_id c = id) (ms_credentials (app_store a))) = true ->
  own_ids a.
Proof. intros Hall%bool_decide_eq_true id c Hc. by apply Hall in Hc. Qed.

Lemma asserting_own_ids : own_ids asserting_engine.
Proof. apply own_ids_check. run. Qed.

(** {rpId: "a.b", clientDataHash}, with the token's MAC. *)
Definition assert_payload : bytes :=
  into_writer (VMap [(VInteger 1, VText rp_ab); (VInteger 2, VBytes client_hash);
    (VInteger 6, VBytes (authenticate V2 issued_token client_hash)); (VInteger 7, VInteger 2)]).

Definition assert_run : CtapApp MemoryStore * result bytes Z :=
  handle_get_assertion assert_payload asserting_engine.

Definition assert_response : bytes := match snd assert_run with Ok r => r | Err _ => [] end.

Lemma assert_ok : snd assert_run = Ok assert_response.
Proof. run. Qed.

Lemma assertion_by_newest_eligible_witness :
  exists c uv, cr_rp_id c = rp_ab /\ genuine asserting_engine c /\
    forall other, stored_in asserting_engine other -> eligible None rp_ab uv other -> newest_le c other.
Proof.
  pose proof (run_result assert_run _ assert_ok) as Hr. unfold assert_run at 1 in Hr.
  destruct (assertion_by_newest_eligible _ _ _ _ asserting_own_ids Hr)
    as (a1 & m & rp & h & p & uv & up & c & c' & ext & data & sig & n & lbk & _ & Hm & Hrp & _ & Hpl & _ & _ & Hans & Hg & Hnew & _).
  assert (Hm' : option_map (fun x => (ga_rp_id (map_get x (int_key 1)), map_get x (int_key 3)))
     (match request_parameters assert_payload with Ok x => Some x | Err _ => None end)
     = Some (Ok rp_ab, None)) by run.
  rewrite Hm in Hm'. injection Hm' as Hrp' Hal'. rewrite Hrp' in Hrp. injection Hrp as <-.
  pose proof (gpl_allow _ _ Hpl) as Hal. rewrite Hal' in Hal. rewrite Hal in *.
  exists c, uv. split_and!; [exact (proj1 Hans)|exact Hg|exact Hnew].
Defined.

Lemma assertion_counter_persisted_witness :
  exists c c', counted c c' asserting_engine (fst assert_run) /\ genuine asserting_engine c /\
    option_map cr_sign_count (ms_credentials (app_store (fst assert_run)) !! (1 :: repeat 11 32)) = Some 5.
Proof.
  pose proof (run_result assert_run _ assert_ok) as Hr. unfold assert_run at 1 in Hr.
  destruct (assertion_counter_persisted _ _ _ _ asserting_own_ids Hr)
    as (c & c' & rp & up & uv & ext & sig & n & lbk & Hg & Hct & _).
  exists c, c'. split_and!; [exact Hct|exact Hg|run].
Defined.

Lemma assertion_authorized_witness :
  exists t, tks_in_use (token_of asserting_engine) = Some t /\
    authorized_by t (V2, authenticate V2 issued_token client_hash) PIN_PERMISSION_GA client_hash rp_ab.
Proof.
  pose proof (run_result assert_run _ assert_ok) as Hr. unfold assert_run at 1 in Hr.
  destruct (assertion_authorized _ _ _ _ asserting_own_ids Hr)
    as (a1 & m & o & rp & h & p & uv & up & c & others & c' & ext & sig & n & lbk & Ha1 & Hm & Hrp & Hh & Hp & _ & Huv & Htok & _).
  assert (Hset : is_set (ps_pin (app_pin_state a1)) = true) by (subst a1; run).
  assert (Hal : pp_always_uv (persistent a1) = false) by (subst a1; run).
  rewrite Hset, Hal in Hp. rewrite Hset in Huv.
  assert (Hm' : option_map (fun x => (ga_rp_id (map_get x (int_key 1)), client_data_hash (map_get x (int_key 2)),
        match ga_plan x true false with Ok q => gp_pin_uv_auth q | Err _ => None end))
     (match request_parameters assert_payload with Ok x => Some x | Err _ => None end)
     = Some (Ok rp_ab, Ok client_hash, Some (V2, authenticate V2 issued_token client_hash))) by run.
  rewrite Hm in Hm'. cbn [option_map] in Hm'. rewrite Hp in Hm'. injection Hm' as Hrp' Hh' Hauth.
  rewrite Hrp' in Hrp. injection Hrp as <-. rewrite Hh' in Hh. injection Hh as <-.
  rewrite Hauth in Huv, Htok. destruct (Htok Huv) as (x & t & Hx & Ht & Hby). injection Hx as <-.
  exists t. split; [exact Ht|exact Hby].
Defined.

Definition next_run : CtapApp MemoryStore * result bytes Z :=
  handle_get_next_assertion (fst assert_run).

Definition next_response : bytes := match snd next_run with Ok r => r | Err _ => [] end.


End AssertionWitness.
