(* ===== verification/Session.v ===== *)
(** * Sessions of the engine

    Requests, U2F messages, reconfiguration and restarts in any order.  What a
    request may write, by its command; and what holds in every state a session
    reaches. *)

From stdpp Require Import gmap.
From S2P Require Import Prelude Constants Alg Crypto ConcreteCrypto Cbor ConcreteCbor.
From S2P Require Import Records PinRetry Token Presence Store StoreProofs CredentialKey Signing Engine.
From S2P Require Import EngineProofs Frames ClientPin ClientPinProofs Reset AuthConfig LargeBlobs.
From S2P Require Import CredMgmt CredMgmtProofs SealedId Ceremony CeremonyProofs MakeCredential.
From S2P Require Import RegistrationProofs GetAssertion AssertionProofs U2f Dispatch Footprint.
From S2P Require Import Scenario.

(** ** What confinement means for the store *)

Section Confined.

Context {S : Type} `{Crypto} `{CredentialStore S}.

#[local] Abbreviation App := (CtapApp S).

(** A view that only a write to [R] changes. *)
Lemma confined_view {V} (view : S -> V) R W (a b : App) :
  (forall c s, touches R c = false -> view (run_call c s) = view s) ->
  confined W a b -> R ∉ W -> view (app_store b) = view (app_store a).
Proof.
  intros Hv [(calls & Hc & ->) _] HR. generalize (app_store a).
  induction Hc as [|c calls Hc _ IH]; intros s; simpl; [done|]. rewrite IH. apply Hv.
  destruct (touches R c) eqn:E; [|done]. by apply Hc in E.
Qed.

(** What every call keeps, a confined step keeps. *)
Lemma confined_keeps (Q : S -> Prop) W (a b : App) :
  (forall c s, Q s -> Q (run_call c s)) -> confined W a b -> Q (app_store a) -> Q (app_store b).
Proof.
  intros HQ [(calls & _ & ->) _]. generalize (app_store a).
  induction calls as [|c calls IH]; intros s Hs; simpl; [done|]. by apply IH, HQ.
Qed.

End Confined.

Section Views.

Context {S : Type} `{Crypto} `{CredentialStore S} `{!CredentialSetLaws S} `{!PinStoreLaws S} `{!PinResetLaws S}.

Lemma creds_frame c (s : S) : touches RCreds c = false -> creds (run_call c s) = creds s.
Proof.
  destruct c; try done; intros _; simpl;
    first [apply creds_count|apply creds_pin_state|apply creds_set_pin_state|apply creds_flush
          |apply creds_counter|apply creds_set_counter|apply creds_blob|apply creds_set_blob
          |apply creds_attestation|apply creds_seal|apply creds_open|idtac].
  - destruct (st_get id s) eqn:E. by apply creds_get in E as [].
  - destruct (st_list s) eqn:E. by apply creds_list in E as [].
Qed.

(** The PIN record a restart would read. *)
Definition published (s : S) : PinStateRecord :=
  match pin_view s with Some r => r | None => PinStateRecord_default end.

Lemma published_frame c (s : S) : touches RPin c = false -> published (run_call c s) = published s.
Proof.
  unfold published. destruct c; try done; intros _; simpl;
    rewrite ?pin_get, ?pin_put, ?pin_insert, ?pin_delete, ?pin_list, ?pin_count, ?pin_flush,
      ?pin_counter, ?pin_set_counter, ?pin_blob, ?pin_set_blob, ?pin_attestation, ?pin_open; try done.
  - destruct (st_pin_state s) eqn:E. apply pin_read in E as [E _]. simpl. by rewrite E.
  - destruct (st_seal_credential_id p ad s) eqn:E. simpl.
    by apply pin_seal in E as [->|[-> ->]].
Qed.

(** Every credential sits under its own ID. *)
Definition owns_ids (s : S) : Prop := forall k r, creds s !! k = Some r -> cr_credential_id r = k.

Lemma owns_ids_insert (s' : S) (r : CredentialRecord) (v : Z) (m : gmap bytes CredentialRecord) :
  creds s' = <[cr_credential_id r := set_created_at r v]> m ->
  (forall k x, m !! k = Some x -> cr_credential_id x = k) -> owns_ids s'.
Proof.
  intros Hs Hm k x. rewrite Hs. destruct (decide (cr_credential_id r = k)) as [<-|Hne].
  - rewrite lookup_insert_eq. by intros [= <-].
  - rewrite lookup_insert_ne by done. apply Hm.
Qed.

Lemma owns_ids_call c (s : S) : owns_ids s -> owns_ids (run_call c s).
Proof.
  intros Ho. destruct (touches RCreds c) eqn:Ht; [|unfold owns_ids; by rewrite creds_frame].
  destruct c; try done; simpl.
  - destruct (st_put r s) as [s' [u|e]] eqn:E; apply creds_put in E; simpl.
    + destruct E as [_ E]. destruct (creds s !! cr_credential_id r); [|destruct E as [v E]];
        by eapply owns_ids_insert.
    + destruct E as [E|(old & _ & E)]; [unfold owns_ids; by rewrite E|by eapply owns_ids_insert].
  - destruct (st_insert_or_replace_discoverable r s) as [s' [u|e]] eqn:E; apply creds_insert in E; simpl.
    + destruct E as (_ & _ & _ & v & E). eapply owns_ids_insert; [exact E|].
      intros k x Hx. apply map_lookup_filter_Some in Hx as [Hx _]. by apply Ho.
    + unfold owns_ids. by rewrite E.
  - destruct (st_delete id s) as [s' r] eqn:E; apply creds_delete in E.
    assert (E' : creds s' = creds s \/ creds s' = delete id (creds s))
      by (destruct r; [destruct E; by right|done]).
    unfold owns_ids. simpl. destruct E' as [-> | ->]; [done|].
    intros k x Hx. apply lookup_delete_Some in Hx as [_ Hx]. by apply Ho.
  - destruct (st_clear s) as [s' [d|e]] eqn:E; apply creds_clear in E; simpl; intros k x Hx.
    + by rewrite E in Hx.
    + eapply Ho, lookup_weaken; done.
Qed.

End Views.

(** ** Requests and messages *)

Section Session.

Context {S : Type} `{Crypto} `{KeyCrypto} `{SigningCrypto} `{Ciborium} `{Certificates}.
Context `{CredentialStore S} `{!CredentialSetLaws S} `{!PinStoreLaws S} `{!PinResetLaws S}.

#[local] Abbreviation App := (CtapApp S).

Lemma keeps_observe c : keeps (S := S) pin_inv (observe_large_blob_state c).
Proof.
  apply keeps_same_view; [apply pin_inv_view|]. unfold observe_large_blob_state, discard, set_blob_state.
  repeat same_view_step.
Qed.

Lemma keeps_forget c : keeps (S := S) pin_inv (forget_assertion c).
Proof.
  apply keeps_same_view; [apply pin_inv_view|]. unfold forget_assertion. repeat same_view_step.
Qed.

Lemma keeps_get_info : keeps (S := S) pin_inv handle_get_info.
Proof.
  intros a Hi. unfold handle_get_info. apply keeps_bind; [|intros x b Hb; exact Hb|by apply keeps_refresh].
  apply keeps_same_view; [apply pin_inv_view|]. intros b. unfold remaining_credential_slots.
  pose proof (pin_count (app_store b)) as Hc. destruct (st_count (app_store b)) as [s [n|e]];
    unfold view; simpl in *; by rewrite Hc.
Qed.

Lemma keeps_failing {A} status (m : M App A Z) : keeps pin_inv m -> keeps pin_inv (failing_with status m).
Proof.
  intros Hm a Ha. unfold failing_with. specialize (Hm a Ha). by destruct (m a) as [b [x|e]].
Qed.

Lemma same_view_u2f_attestation key public : same_view (S := S) (u2f_attestation key public).
Proof.
  intros a. unfold u2f_attestation. apply same_view_bind; [destruct (app_attestation_mode a)|intros x];
    repeat same_view_step.
Qed.

Lemma keeps_u2f apdu : keeps (S := S) pin_inv (u2f_result apdu).
Proof.
  unfold u2f_result. apply keeps_bind; [apply (keeps_forget None)|]. intros _.
  apply keeps_bind; [apply keeps_observe|]. intros _.
  unfold u2f_execute, u2f_register, u2f_authenticate, u2f_presence, seal_credential.
  repeat (apply keeps_failing || apply keeps_on_store_seal
          || (apply keeps_same_view; [apply pin_inv_view|apply same_view_u2f_attestation]) || keeps_step).
Qed.

Lemma keeps_call request : keeps (S := S) pin_inv (call_result request).
Proof.
  unfold call_result. apply keeps_bind; [apply keeps_observe|]. intros _.
  apply keeps_bind; [apply keeps_forget|]. intros _. destruct request as [|command payload]; [keeps_step|].
  unfold dispatch. repeat case_match;
    first [apply keeps_get_info|apply keeps_make_credential|apply keeps_get_assertion
          |apply keeps_get_next_assertion|apply keeps_handle_client_pin|apply keeps_reset
          |apply keeps_cred_mgmt|apply keeps_selection|apply keeps_config|apply keeps_large_blobs
          |keeps_step].
Qed.

Definition request_writes (request : bytes) : list Region :=
  match request with [] => [] | command :: _ => command_writes command end.

Lemma footprint_request (request : bytes) :
  footprint (S := S) (request_writes request)
    (match request with [] => fail CTAP1_ERR_INVALID_LENGTH | c :: payload => dispatch c payload end).
Proof. destruct request; [apply footprint_fail|apply footprint_dispatch]. Qed.

Lemma observe_total c (a : App) : exists b, observe_large_blob_state c a = (b, Ok tt).
Proof.
  unfold observe_large_blob_state, mbind_st, now, gets, pin_uv_auth_token_id, token_query, discard,
    set_blob_state. simpl. repeat case_match; simplify_eq/=; eauto.
Qed.

Lemma confined_weaken W R (a b : App) : confined W a b -> confined (R :: W) a b.
Proof.
  intros [(l & Hl & E) Hp]. split; [|intros HR; apply Hp; set_solver]. exists l. split; [|done].
  eapply Forall_impl; [exact Hl|]. intros d Hd Q HQ. right. by apply Hd.
Qed.

(** A request writes its command's regions and the remembered assertions, and
    a command that does not write those leaves none. *)
Lemma call_confined request (a b : App) response :
  call request a = (b, response) ->
  confined (RPending :: request_writes request) a b /\
  (RPending ∉ request_writes request -> app_pending_assertion b = None).
Proof.
  unfold call, call_result. intros Hc.
  pose proof (footprint_observe (request_writes request) (head request) a) as Hf1.
  destruct (observe_total (head request) a) as [a1 E1]. rewrite E1 in Hf1. simpl in Hf1.
  set (a2 := if bool_decide (head request = Some CTAP_CMD_GET_NEXT_ASSERTION) then a1
             else with_pending a1 None).
  assert (Hf2 : confined (RPending :: request_writes request) a1 a2).
  { unfold a2. case_bool_decide; [done|]. split; [by exists []|set_solver]. }
  assert (Hrun : fst (call_result request a) =
    fst ((match request with [] => fail CTAP1_ERR_INVALID_LENGTH | c :: p => dispatch c p end) a2)).
  { unfold call_result, mbind_st, forget_assertion. rewrite E1. unfold a2.
    by case_bool_decide. }
  pose proof (footprint_request request a2) as Hf3. rewrite <- Hrun in Hf3.
  assert (Hb : fst (call_result request a) = b) by (unfold call_result; by destruct (mbind_st _ _ a) as [? []]; simplify_eq).
  rewrite Hb in Hf3. split.
  - etrans; [apply confined_weaken, Hf1|]. etrans; [exact Hf2|apply confined_weaken, Hf3].
  - intros HR. rewrite (con_pending _ _ _ Hf3 HR). unfold a2. case_bool_decide as Hh; [|done].
    destruct request as [|c p]; [done|]. injection Hh as ->. destruct HR. vm_compute. by do 2 right; left.
Qed.

Lemma u2f_confined apdu (a b : App) response :
  call_u2f apdu a = (b, response) -> confined [RCreds; RCounter; RPending] a b.
Proof.
  unfold call_u2f. intros Hc. pose proof (footprint_u2f [RCreds; RCounter; RPending]
    ltac:(set_solver) ltac:(set_solver) ltac:(set_solver) apdu a) as Hf.
  destruct (u2f_result apdu a) as [c r]. by injection Hc as <- _.
Qed.

(** Which commands may write a region. *)
Definition writers (R : Region) : list Z :=
  match R with
  | RCreds => [CTAP_CMD_MAKE_CREDENTIAL; CTAP_CMD_GET_ASSERTION; CTAP_CMD_GET_NEXT_ASSERTION;
               CTAP_CMD_RESET; CTAP_CMD_CREDENTIAL_MANAGEMENT;
               CTAP_CMD_CREDENTIAL_MANAGEMENT_PROTOTYPE]
  | RPin => [CTAP_CMD_CLIENT_PIN; CTAP_CMD_RESET; CTAP_CMD_AUTHENTICATOR_CONFIG]
  | RCounter => [CTAP_CMD_GET_ASSERTION; CTAP_CMD_GET_NEXT_ASSERTION; CTAP_CMD_RESET]
  | RBlobs => [CTAP_CMD_LARGE_BLOBS; CTAP_CMD_RESET]
  | RPending => [CTAP_CMD_GET_ASSERTION; CTAP_CMD_GET_NEXT_ASSERTION]
  end.

Lemma command_writers R command : R ∈ command_writes command -> command ∈ writers R.
Proof.
  unfold command_writes. repeat match goal with
    | |- context [command =? ?c] => destruct (Z.eqb_spec command c) as [->|?] end;
    rewrite list_elem_of_In; simpl; intros HR; intuition subst; rewrite list_elem_of_In; simpl; tauto.
Qed.

(** C34: What a request may change, by its command.  The stored credentials
    change only under makeCredential, the assertions (their counter), reset
    and credential management; the PIN record only under clientPIN, config and
    reset; the global signature counter only under the assertions and reset;
    the large-blob array only under largeBlobs and reset.  And only after an
    assertion are there assertions to continue: every other request, a
    malformed one included, ends them. *)
Theorem request_footprint `{!BlobStoreLaws S} `{!CounterStoreLaws S} request (a b : App) response :
  call request a = (b, response) ->
  (creds (app_store b) = creds (app_store a) \/ exists c, head request = Some c /\ c ∈ writers RCreds) /\
  (published (app_store b) = published (app_store a) \/
   exists c, head request = Some c /\ c ∈ writers RPin) /\
  (counter_view (app_store b) = counter_view (app_store a) \/
   exists c, head request = Some c /\ c ∈ writers RCounter) /\
  (blob_view (app_store b) = blob_view (app_store a) \/
   exists c, head request = Some c /\ c ∈ writers RBlobs) /\
  (app_pending_assertion b = None \/ exists c, head request = Some c /\ c ∈ writers RPending).
Proof.
  intros Hc. apply call_confined in Hc as [Hc Hp].
  assert (Hw : forall R, R ∈ request_writes request -> exists c, head request = Some c /\ c ∈ writers R).
  { destruct request as [|c payload]; intros R HR; [by apply list_elem_of_In in HR|]. exists c.
    split; [done|]. by apply command_writers. }
  assert (Hv : forall R V (v : S -> V), R <> RPending ->
    (forall c s, touches R c = false -> v (run_call c s) = v s) ->
    v (app_store b) = v (app_store a) \/ exists c, head request = Some c /\ c ∈ writers R).
  { intros R V v Hne Hv. destruct (decide (R ∈ request_writes request)) as [HR|HR]; [right; by apply Hw|left].
    apply (confined_view v R _ a b Hv Hc). rewrite list_elem_of_In. intros [E|HR']; [by apply Hne|].
    by apply HR, list_elem_of_In. }
  split_and!.
  - by apply Hv; [|apply creds_frame].
  - by apply Hv; [|apply published_frame].
  - by apply Hv; [|apply counter_frame].
  - by apply Hv; [|apply blob_frame].
  - destruct (decide (RPending ∈ request_writes request)) as [HR|HR]; [right; by apply Hw|left; by apply Hp].
Qed.

(** ** Reachable states *)

(** One event of a session.  A restart builds a new engine, in whatever world,
    over the store the old one leaves. *)
Inductive event : Type :=
| ECall (request : bytes)
| EU2f (apdu : bytes)
| ERestart (w : World) (aaguid : bytes)
| EPresenceTimeout (timeout : Z)
| EResetWindow (window : option Z)
| EAttestationMode (mode : AttestationMode).

Definition run_event (e : event) (a : App) : App :=
  match e with
  | ECall request => fst (call request a)
  | EU2f apdu => fst (call_u2f apdu a)
  | ERestart w aaguid => ctap_app_new (app_store a) w aaguid
  | EPresenceTimeout timeout => set_presence_timeout a timeout
  | EResetWindow window => set_reset_window a window
  | EAttestationMode mode => set_attestation_mode a mode
  end.

Definition run_session (events : list event) (a : App) : App :=
  fold_left (fun b e => run_event e b) events a.

Lemma new_store (s : S) w aaguid : app_store (ctap_app_new s w aaguid) = run_call SPinState s.
Proof.
  unfold ctap_app_new, load_pin_state, unreadable_pin_state, read_store_pin_state, mbind_st. simpl.
  by destruct (st_pin_state s) as [s' [[r|]|e]].
Qed.

Lemma run_event_pin_inv e (a : App) : pin_inv a -> pin_inv (run_event e a).
Proof.
  intros Hi. destruct e as [request|apdu|w aaguid|t|w|m]; cbn [run_event];
    try (by apply (pin_inv_view a)).
  - pose proof (keeps_call request a Hi) as Hc. unfold call. by destruct (call_result request a) as [c [r|e]].
  - pose proof (keeps_u2f apdu a Hi) as Hc. unfold call_u2f. by destruct (u2f_result apdu a) as [c r].
  - apply pin_inv_new, Hi.
Qed.

Lemma run_event_inv e (a : App) :
  pin_inv a -> own_ids a -> pin_inv (run_event e a) /\ own_ids (run_event e a).
Proof.
  intros Hi Ho. split; [by apply run_event_pin_inv|].
  assert (Hk : forall W c, confined W a c -> own_ids c).
  { intros W c Hc. exact (confined_keeps owns_ids W a c owns_ids_call Hc Ho). }
  destruct e as [request|apdu|w aaguid|t|w|m]; cbn [run_event]; try exact Ho.
  - destruct (call request a) eqn:E. by eapply Hk, call_confined.
  - destruct (call_u2f apdu a) eqn:E. by eapply Hk, u2f_confined.
  - unfold own_ids. rewrite new_store. by apply (owns_ids_call SPinState).
Qed.

(** ** Sessions without a reset *)

Definition no_reset (e : event) : Prop :=
  match e with ECall request => head request <> Some CTAP_CMD_RESET | _ => True end.

Lemma event_unreset e (a : App) : no_reset e -> unreset a (run_event e a).
Proof.
  intros He. destruct e as [request|apdu|w aaguid|t|w|m]; cbn [run_event]; try by exists [].
  - destruct (call request a) as [b response] eqn:E. apply call_confined in E as [E _].
    eapply confined_unreset; [|exact E].
    destruct (decide (RBlobs ∈ RPending :: request_writes request)) as [HB|HB]; [right|by left].
    destruct request as [|c p]; [apply list_elem_of_In in HB; simpl in HB; intuition discriminate|].
    intros HC. rewrite list_elem_of_In in HB, HC. destruct HB as [|HB]; [done|]. destruct HC as [|HC]; [done|].
    apply list_elem_of_In, command_writers, list_elem_of_In in HB, HC. simpl in *.
    destruct HB as [<-|[<-|[]]]; [|by destruct He]. intuition discriminate.
  - destruct (call_u2f apdu a) as [b response] eqn:E. apply u2f_confined in E.
    eapply confined_unreset; [|exact E]. left. rewrite list_elem_of_In. simpl. intuition discriminate.
  - exists [SPinState]. split; [by repeat constructor|apply new_store].
Qed.

Lemma session_unreset events (a : App) : Forall no_reset events -> unreset a (run_session events a).
Proof.
  intros He. revert a. induction He as [|e events He _ IH]; intros a; [reflexivity|].
  etrans; [by apply event_unreset|apply IH].
Qed.

(** C25: A credential sealed into its ID lives in the ID alone, until a reset.
    Whatever requests, U2F messages and restarts follow, looking the ID up for
    the relying party it was sealed for finds the credential with the
    algorithm, private key, credProtect level and CredRandom values it was
    sealed with, unless the store cannot open IDs at the moment; and the ID is
    of the sealed form, never taken for a discoverable one. *)
Theorem sealed_credential_roundtrip `{!SealStoreLaws S} (r r' : CredentialRecord) (rp id : bytes)
    (a a' b : App) events res :
  sealable_record r ->
  seal_credential r (private_key_bytes (cr_private_key r)) (sha256 rp) a = (a', Ok (r', id)) ->
  Forall no_reset events ->
  credential_for_rp id rp (run_session events a') = (b, res) ->
  is_sealed id = true /\ is_discoverable id = false /\
  match res with Ok found => found = Some (unsealed r r' rp id) | Err _ => True end.
Proof.
  intros Hr Hs He Hres. pose proof (seal_credential_form _ _ _ _ _ _ _ Hs) as [Hid _].
  split_and!; [done|by apply sealed_not_discoverable|].
  destruct (session_unreset events a' He) as (calls & Hc & E). by eapply sealed_for_rp.
Qed.

(** C32: In every state any sequence of requests, U2F messages, settings and
    restarts reaches from a start over a sound store, whatever the store's
    calls return: the published PIN record is one an engine writes (retries
    within the budget, and full while no PIN is set); the live PIN state is the
    published one whenever the engine counts it as read, so that a restart
    changes nothing; and every credential is stored under its own ID. *)
Theorem session_invariant (s : S) w aaguid events :
  (forall r, pin_view s = Some r -> record_ok r) -> owns_ids s ->
  let b := run_session events (ctap_app_new s w aaguid) in pin_inv b /\ own_ids b.
Proof.
  intros Hr Ho. pose proof (pin_inv_new s w aaguid Hr) as Hi.
  assert (Ho' : own_ids (ctap_app_new s w aaguid)).
  { unfold own_ids. rewrite new_store. by apply (owns_ids_call SPinState). }
  revert Hi Ho'. generalize (ctap_app_new s w aaguid).
  induction events as [|e events IH]; intros a Hi Ho'; [done|].
  destruct (run_event_inv e a Hi Ho'). by apply IH.
Qed.

End Session.

(** ** Concrete runs *)

Module SessionWitness.

#[local] Opaque fresh_engine engine_with_pin engine_with_token agreed seal_for.

#[local] Instance no_certificates : Certificates := {| self_signed := fun _ _ _ => None |}.

Definition info_run : CtapApp MemoryStore * bytes := call [CTAP_CMD_GET_INFO] engine_with_token.

(** authenticatorGetInfo leaves everything stored alone. *)
Lemma request_footprint_witness :
  ms_credentials (app_store (fst info_run)) = ms_credentials (app_store engine_with_token) /\
  published (app_store (fst info_run)) = published (app_store engine_with_token) /\
  app_pending_assertion (fst info_run) = None.
Proof.
  assert (Hno : forall R, ~ (exists c, Some CTAP_CMD_GET_INFO = Some c /\ c ∈ writers R)).
  { intros R (c & [= <-] & Hc). apply list_elem_of_In in Hc. destruct R; simpl in Hc; intuition discriminate. }
  pose proof (surjective_pairing info_run) as Hr. unfold info_run at 1 in Hr.
  destruct (request_footprint _ _ _ _ Hr) as (Hc & Hp & _ & _ & Hn).
  destruct Hc as [Hc|Hc]; [|destruct (Hno _ Hc)]. destruct Hp as [Hp|Hp]; [|destruct (Hno _ Hp)].
  destruct Hn as [Hn|Hn]; [|destruct (Hno _ Hn)]. split; [exact Hc|split; [exact Hp|exact Hn]].
Defined.

(** A new engine answers two requests and is restarted. *)
Lemma session_invariant_witness :
  pin_inv (run_session [ECall [CTAP_CMD_GET_INFO]; ECall [CTAP_CMD_SELECTION]; ERestart world []]
             (ctap_app_new (ms_new []) world (repeat 17 16))).
Proof.
  refine (proj1 (session_invariant (ms_new []) world (repeat 17 16) _ _ _)).
  - intros r Hr. discriminate Hr.
  - intros k r Hr. change ((∅ : gmap bytes CredentialRecord) !! k = Some r) in Hr.
    by rewrite lookup_empty in Hr.
Defined.

(** An engine whose store can draw its key and nonces. *)
Definition sealing_engine : CtapApp MemoryStore :=
  with_store fresh_engine (ms_new [Some (fun i => Z.of_nat i); Some (fun i => Z.of_nat (2 * i))]).

Definition seed_record : CredentialRecord :=
  sealed_record [] [97; 46; 98] MLDSA44 (Seed (repeat 7 32)) 2.

Definition seal_run : CtapApp MemoryStore * result (CredentialRecord * bytes) Z :=
  seal_credential seed_record (repeat 7 32) (sha256 [97; 46; 98]) sealing_engine.

Definition sealed_pair : CredentialRecord * bytes :=
  match snd seal_run with Ok p => p | Err _ => (seed_record, []) end.

(** A restart, an information request and a refused registration later. *)
Definition later : list event := [ERestart world []; ECall [CTAP_CMD_GET_INFO]; ECall [CTAP_CMD_MAKE_CREDENTIAL]].

Definition lookup_run : CtapApp MemoryStore * result (option CredentialRecord) Z :=
  credential_for_rp (snd sealed_pair) [97; 46; 98] (run_session later (fst seal_run)).

Lemma sealed_credential_roundtrip_witness :
  is_sealed (snd sealed_pair) = true /\ length (snd sealed_pair) = 107%nat /\
  exists c, snd lookup_run = Ok (Some c) /\ cr_private_key c = Seed (repeat 7 32) /\
    cr_rp_id c = [97; 46; 98].
Proof.
  assert (Hs : snd seal_run = Ok (fst sealed_pair, snd sealed_pair)) by (vm_compute; reflexivity).
  assert (Hl : exists o, snd lookup_run = Ok o) by (apply is_ok_exists; vm_compute; reflexivity).
  destruct Hl as [o Hl].
  pose proof (run_result seal_run _ Hs) as Hr. unfold seal_run at 1 in Hr.
  pose proof (run_result lookup_run _ Hl) as Hr2. unfold lookup_run at 1 in Hr2.
  assert (Hsr : sealable_record seed_record).
  { split; [reflexivity|reflexivity|intros k Hk; discriminate Hk|vm_compute; split; discriminate]. }
  assert (Hnr : Forall no_reset later) by (repeat constructor; discriminate).
  destruct (sealed_credential_roundtrip _ _ _ _ _ _ _ _ _ Hsr Hr Hnr Hr2) as (Hid & _ & Hf).
  split_and!; [exact Hid|vm_compute; reflexivity|]. eexists. split_and!; [rewrite Hl, Hf|..]; reflexivity.
Defined.

End SessionWitness.
