(* ===== verification/PinSession.v ===== *)
(** * The PIN budget over whole sessions

    Across requests, U2F messages, settings and restarts in any order, and
    whatever the store's calls return, only a request that presents the PIN,
    or a reset, gives a spent retry back or replaces the PIN. *)

From S2P Require Import Prelude Constants Alg Crypto ConcreteCrypto Cbor ConcreteCbor Records PinRetry.
From S2P Require Import Token Presence Store StoreProofs CredentialKey Signing Engine EngineProofs.
From S2P Require Import Frames ClientPin ClientPinProofs ClientPinTheorems Reset AuthConfig LargeBlobs.
From S2P Require Import CredMgmt U2f Dispatch Footprint Session Scenario.

Section PinSession.

Context {S : Type} `{Crypto} `{KeyCrypto} `{SigningCrypto} `{Ciborium} `{Certificates}.
Context `{CredentialStore S} `{!CredentialSetLaws S} `{!PinStoreLaws S} `{!PinResetLaws S}.

#[local] Abbreviation App := (CtapApp S).

(** The PIN is still [h] and no retry was gained. *)
Definition guarded (h : bytes) (a b : App) : Prop :=
  psr_pin_hash (published (app_store a)) = Some h ->
  psr_pin_hash (published (app_store b)) = Some h /\
  psr_pin_retries (published (app_store b)) <= psr_pin_retries (published (app_store a)).

#[export] Instance guarded_preorder h : PreOrder (guarded h).
Proof.
  split; [intros a Ha; by split|]. intros a b c Hab Hbc Ha.
  destruct (Hab Ha) as [Hb Hle]. destruct (Hbc Hb) as [Hc Hle']. split; [done|lia].
Qed.

Lemma guarded_same h (a b : App) : published (app_store b) = published (app_store a) -> guarded h a b.
Proof. intros Hs Ha. rewrite Hs. by split. Qed.

Lemma guarded_confined h W (a b : App) : RPin ∉ W -> confined W a b -> guarded h a b.
Proof.
  intros HR Hc. apply guarded_same. exact (confined_view published RPin W a b published_frame Hc HR).
Qed.

(** An operation that publishes no PIN record. *)
Definition quietly {A} (m : M App A Z) : Prop := footprint [] m /\ keeps pin_inv m.

Lemma quietly_published {A} (m : M App A Z) a b r :
  quietly m -> m a = (b, r) -> published (app_store b) = published (app_store a).
Proof.
  intros [Hf _] Hr. specialize (Hf a). rewrite Hr in Hf.
  apply (confined_view published RPin [] a b published_frame Hf). by intros ?%list_elem_of_In.
Qed.

Lemma quietly_view {A} (m : M App A Z) : footprint [] m -> same_view m -> quietly m.
Proof. intros Hf Hv. split; [done|]. by apply keeps_same_view; [apply pin_inv_view|]. Qed.

(** Pass an operation that publishes nothing. *)
Lemma quietly_then {A B} h (m : M App A Z) (k : A -> M App B Z) a b r :
  quietly m -> pin_inv a -> mbind_st m k a = (b, r) ->
  (forall x c, m a = (c, Ok x) -> pin_inv c ->
     published (app_store c) = published (app_store a) -> k x c = (b, r) -> guarded h c b) ->
  guarded h a b.
Proof.
  intros Hq Hi Hr Hk. apply bind_cases in Hr as [[e Hr]|(c & x & Hm & Hr)].
  - eapply guarded_same, quietly_published; done.
  - pose proof (quietly_published m _ _ _ Hq Hm) as Hp.
    assert (Hic : pin_inv c) by (destruct Hq as [_ Hkp]; specialize (Hkp a Hi); by rewrite Hm in Hkp).
    etrans; [by apply guarded_same|]. by apply (Hk x c).
Qed.

(** ** Publishing *)

(** What is live, when it counts as read, is what is published. *)
Lemma live_published (a : App) :
  pin_inv a -> app_stored_pin_state a = Read ->
  pp_pin_hash (persistent a) = psr_pin_hash (published (app_store a)) /\
  pp_pin_retries (persistent a) = psr_pin_retries (published (app_store a)).
Proof.
  intros Hi Hst. pose proof (pi_synced _ Hi Hst) as Hy. unfold synced, published in *.
  destruct (pin_view (app_store a)); [by rewrite <- Hy|by rewrite Hy].
Qed.

(** A write that keeps the live hash and gains no retry, or one under another
    live PIN than [h]. *)
Lemma save_guarded h p (a b : App) r :
  pin_inv a -> save_pin_state p a = (b, r) ->
  (pp_pin_hash (persistent a) = Some h ->
   pp_pin_hash p = Some h /\ pp_pin_retries p <= pp_pin_retries (persistent a)) ->
  guarded h a b.
Proof.
  intros Hi Hs Hp Ha. apply save_pin_state_spec in Hs. destruct r as [d|e].
  - destruct Hs as (Hst & s & -> & Hv). destruct (live_published a Hi Hst) as [Hh Hr].
    rewrite <- Hh in Ha. destruct (Hp Ha) as [Hp1 Hp2]. unfold published at 1 2. simpl. rewrite Hv. simpl.
    split; [done|lia].
  - unfold view in Hs. injection Hs as Hs _ _. unfold published in *. by rewrite Hs.
Qed.

Lemma save_then {B} h p (k : CommitDurability -> M App B Z) (a b : App) r :
  pin_inv a -> (let* d := save_pin_state p in k d) a = (b, r) -> (forall d, footprint [] (k d)) ->
  (pp_pin_hash (persistent a) = Some h ->
   pp_pin_hash p = Some h /\ pp_pin_retries p <= pp_pin_retries (persistent a)) ->
  guarded h a b.
Proof.
  intros Hi Hs Hk Hp. apply bind_cases in Hs as [[e Hs]|(c & d & Hs & Hr)].
  - by eapply save_guarded.
  - etrans; [by eapply save_guarded|]. specialize (Hk d c). rewrite Hr in Hk.
    eapply guarded_confined; [|exact Hk]. by intros ?%list_elem_of_In.
Qed.

Lemma quietly_refresh : quietly refresh_persistent_authority.
Proof. split; [apply footprint_refresh|apply keeps_refresh]. Qed.

Lemma quietly_unread : quietly read_pin_state_if_unread.
Proof. split; [apply footprint_read_if_unread|apply keeps_if_unread]. Qed.

Lemma quietly_flush : quietly unsupported_directory_flush.
Proof. apply quietly_view; [apply footprint_flush|apply same_view_flush]. Qed.

Lemma quietly_lift {A} (x : result A Z) : quietly (lift x).
Proof. apply quietly_view; [apply footprint_lift|apply same_view_lift]. Qed.

Lemma quietly_pure {A} (f : App -> result A Z) : quietly (fun a => (a, f a)).
Proof. apply quietly_view; [apply footprint_pure|apply same_view_pure]. Qed.

Lemma quietly_gets {A} (f : App -> A) : quietly (gets f).
Proof. apply quietly_view; [apply footprint_gets|apply same_view_gets]. Qed.

Lemma quietly_decapsulate p k : quietly (decapsulate p k).
Proof. apply quietly_view; [apply footprint_decapsulate|apply same_view_decapsulate]. Qed.

(** ** The PIN check *)

Lemma debit_guarded h (a b : App) r : pin_inv a -> debit_retry a = (b, r) -> guarded h a b.
Proof.
  intros Hi Hd. eapply (quietly_then h _ _ a); [apply quietly_refresh|done|exact Hd|].
  intros [] a1 _ Hi1 _. unfold begin_attempt. destruct (check_attempt_allowed _); [|by intros [= <- <-]].
  intros Hr. eapply (quietly_then h _ _ a1); [apply quietly_flush|done|exact Hr|].
  intros u a2 Hf Hi2 _. pose proof (same_view_flush a1) as Hv. rewrite Hf in Hv.
  unfold view in Hv. injection Hv as _ Hv _. destruct u; [by intros [= <- <-]|].
  intros Hs. eapply (save_then h _ _ a2); [done|exact Hs|intros d; unfold adopt_retry_state; fp|].
  simpl. unfold retries. change (prs_persistent (ps_pin (app_pin_state a1))) with (persistent a1).
  rewrite Hv. split; [done|lia].
Qed.

Lemma compare_guarded h protocol keys enc (a b : App) r :
  pin_inv a -> decrypt protocol keys enc <> Some h ->
  compare_candidate protocol keys enc a = (b, r) ->
  guarded h a b /\ (psr_pin_hash (published (app_store a)) = Some h -> r <> Ok tt).
Proof.
  intros Hi Hne. unfold compare_candidate, finish_attempt.
  destruct (pin_matches _ _) eqn:Hm; intros Hc.
  - assert (Hlive : pp_pin_hash (persistent a) <> Some h).
    { unfold pin_matches in Hm. change (prs_persistent _) with (persistent a) in Hm.
      destruct (pp_pin_hash (persistent a)) as [stored|]; [|done].
      destruct (decrypt protocol keys enc) as [c|]; [|done]. apply bytes_eqb_spec in Hm as ->. done. }
    split.
    + eapply (save_then h _ _ a); [done|exact Hc|intros d; unfold adopt_retry_state; fp|done].
    + intros Ha ->. peel Hc a1 d Hs. apply save_pin_state_spec in Hs as [Hst _].
      destruct (live_published a Hi Hst) as [Hh _]. congruence.
  - match type of Hc with context [adopt_retry_state ?x] => set (c := x) in Hc end.
    set (a1 := with_pin_state a (with_key_agreement (with_retry (app_pin_state a) c)
                 (regenerate protocol (ps_key_agreement (app_pin_state a))))).
    assert (Hrun : exists e, (let* d := save_pin_state (persistent a1) in
        lift (require_confirmed_retry d) ;;* @fail App unit Z e) a1 = (b, r)).
    { destruct (retries c =? 0); [|destruct (power_cycle_required c)]; eexists; exact Hc. }
    destruct Hrun as [e Hrun]. split.
    + change (guarded h a1 b). eapply (save_then h _ _ a1); [|exact Hrun|intros d; cbn beta; fp|].
      * by apply (pin_inv_view a).
      * intros Hh. split; [exact Hh|lia].
    + intros _ ->. peel Hrun a2 d Hs. by peel Hrun a3 u Hl.
Qed.

Lemma verify_guarded h protocol keys enc (a b : App) r :
  pin_inv a -> decrypt protocol keys enc <> Some h ->
  verify_pin_hash_enc protocol keys enc a = (b, r) ->
  guarded h a b /\ (psr_pin_hash (published (app_store a)) = Some h -> r <> Ok tt).
Proof.
  intros Hi Hne Hv. apply bind_split in Hv as [(e & Hd & ->)|(a1 & u & Hd & Hc)].
  - split; [by eapply debit_guarded|done].
  - pose proof (debit_guarded h _ _ _ Hi Hd) as Hg.
    assert (Hi1 : pin_inv a1) by (pose proof (keeps_debit a Hi) as Hk; by rewrite Hd in Hk).
    apply (compare_guarded h) in Hc as [Hc1 Hc2]; [|done..]. split; [by etrans|].
    intros Ha. apply Hc2. by apply Hg.
Qed.

(** ** Requests without the PIN *)

Definition agreement_keys (a : App) : KeyAgreementKeys := ps_key_agreement (app_pin_state a).

(** Operations that leave the key-agreement keys alone. *)
Definition same_keys {A} (m : M App A Z) : Prop :=
  forall a, agreement_keys (fst (m a)) = agreement_keys a.

Lemma same_keys_bind {A B} (m : M App A Z) (k : A -> M App B Z) :
  same_keys m -> (forall x, same_keys (k x)) -> same_keys (mbind_st m k).
Proof.
  intros Hm Hk a. unfold mbind_st. specialize (Hm a).
  destruct (m a) as [b [x|e]]; simpl in *; [by rewrite Hk|done].
Qed.

Lemma same_keys_refresh : same_keys refresh_persistent_authority.
Proof.
  intros a. unfold refresh_persistent_authority, read_unread_pin_state, load_pin_state,
    unreadable_pin_state, close_authority, read_store_pin_state, adopt_record, clear_cred_mgmt,
    modify_pin, modify, random_array, mbind_st, ret, fail, agreement_keys. cbn [fst snd].
  repeat (case_match; simplify_eq/=); done.
Qed.

Lemma same_keys_unread : same_keys read_pin_state_if_unread.
Proof.
  intros a. unfold read_pin_state_if_unread.
  destruct (app_stored_pin_state a); try done. apply same_keys_refresh.
Qed.

Lemma same_keys_observe c : same_keys (observe_large_blob_state c).
Proof.
  unfold observe_large_blob_state, pin_uv_auth_token_id, token_query.
  repeat first [apply same_keys_bind; [|intros ?] | case_match]; by intros a.
Qed.

Lemma decapsulate_secret protocol ka (a b : App) keys :
  decapsulate protocol ka a = (b, Ok keys) ->
  exists secret, decapsulate_with secret protocol ka = Ok keys /\
    (key_slot (agreement_keys a) protocol = Some secret \/ key_slot (agreement_keys a) protocol = None).
Proof.
  intros Hd. peel Hd c secret Hk. injection Hd as _ Hd. exists secret. split; [done|].
  unfold key_agreement_key in Hk. unfold agreement_keys.
  destruct (key_slot _ protocol); [left; by injection Hk as _ ->|by right].
Qed.

(** The map's pinHashEnc decrypts to [h] under the engine's key-agreement key:
    the one it has, or one it draws where it has none. *)
Definition presents_in (h : bytes) (a : App) (map : Entries) : Prop :=
  exists protocol ka enc secret keys,
    parse_required_pin_uv_auth_protocol (map_get map (int_key 1)) = Ok protocol /\
    required_map map (int_key 3) = Ok ka /\ required_bytes map (int_key 6) = Ok enc /\
    (key_slot (agreement_keys a) protocol = Some secret \/
     key_slot (agreement_keys a) protocol = None) /\
    decapsulate_with secret protocol ka = Ok keys /\ decrypt protocol keys enc = Some h.

(** Agree on keys, check the PIN, go on: without the PIN nothing goes on. *)
Lemma checked_guarded {B} h protocol ka enc (mid : PinUvSessionKeys -> M App unit Z)
    (k : PinUvSessionKeys -> M App B Z) (a b : App) r :
  pin_inv a -> (forall keys, quietly (mid keys)) ->
  (forall secret keys, key_slot (agreement_keys a) protocol = Some secret \/
     key_slot (agreement_keys a) protocol = None ->
     decapsulate_with secret protocol ka = Ok keys -> decrypt protocol keys enc <> Some h) ->
  (let* keys := decapsulate protocol ka in mid keys ;;*
   verify_pin_hash_enc protocol keys enc ;;* k keys) a = (b, r) ->
  guarded h a b.
Proof.
  intros Hi Hq Hno Hr. eapply (quietly_then h _ _ a); [apply quietly_decapsulate|done|exact Hr|].
  intros keys a1 Hd Hi1 _ Hr1. apply decapsulate_secret in Hd as (secret & Hd & Hslot).
  eapply (quietly_then h _ _ a1); [apply Hq|done|exact Hr1|]. intros [] a2 _ Hi2 _ Hr2.
  apply bind_cases in Hr2 as [[e Hv]|(a3 & u & Hv & _)];
    apply (verify_guarded h) in Hv as [Hg Hok]; eauto.
  intros Ha. destruct u. by destruct (Hok Ha).
Qed.

Lemma get_token_guarded h map protocol ka enc grant fe (a b : App) r :
  pin_inv a -> ~ presents_in h a map ->
  parse_required_pin_uv_auth_protocol (map_get map (int_key 1)) = Ok protocol ->
  required_map map (int_key 3) = Ok ka -> required_bytes map (int_key 6) = Ok enc ->
  client_pin_get_token_common protocol ka enc grant fe a = (b, r) -> guarded h a b.
Proof.
  intros Hi Hno Hp Hka He Hr.
  eapply (quietly_then h _ _ a); [apply quietly_pure|done|exact Hr|]. intros u a0 [= <- _] _ _ Hr0.
  eapply (quietly_then h _ _ a); [apply quietly_refresh|done|exact Hr0|]. intros u1 a1 Hf Hi1 _ Hr1.
  assert (Hk : agreement_keys a1 = agreement_keys a) by (rewrite <- (same_keys_refresh a); by rewrite Hf).
  eapply (checked_guarded h protocol ka enc (fun _ => ret tt) _ a1); [done| | |exact Hr1].
  - intros keys. apply quietly_view; [apply footprint_ret|apply same_view_ret].
  - rewrite Hk. intros secret keys Hs Hd Hdec. apply Hno.
    exists protocol, ka, enc, secret, keys. by split_and!.
Qed.

(** Pass a parsing step. *)
Lemma lift_then {A B} h (x : result A Z) (k : A -> M App B Z) (a b : App) r :
  mbind_st (lift x) k a = (b, r) -> (forall v, x = Ok v -> k v a = (b, r) -> guarded h a b) -> guarded h a b.
Proof. unfold mbind_st, lift. destruct x as [v|e]; [eauto|]. by intros [= <- _] _. Qed.

Tactic Notation "lift_peel" hyp(H) simple_intropattern(v) simple_intropattern(Hv) :=
  eapply lift_then; [exact H|]; clear H; intros v Hv H; cbn beta in H.

Lemma change_pin_guarded h map (a b : App) r :
  pin_inv a -> ~ presents_in h a map -> client_pin_change_pin map a = (b, r) -> guarded h a b.
Proof.
  intros Hi Hno Hr. unfold client_pin_change_pin in Hr.
  lift_peel Hr ka Hka. lift_peel Hr pa _.
  lift_peel Hr npe _. lift_peel Hr enc He.
  lift_peel Hr protocol Hp.
  eapply (quietly_then h _ _ a); [apply quietly_pure|done|exact Hr|]. clear Hr. intros u a0 [= <- _] _ _ Hr.
  eapply (checked_guarded h protocol ka enc _ _ a); [done| | |exact Hr].
  - intros keys. apply quietly_lift.
  - intros secret keys Hs Hd Hdec. apply Hno. exists protocol, ka, enc, secret, keys. by split_and!.
Qed.

Lemma set_pin_guarded h map (a b : App) r :
  pin_inv a -> client_pin_set_pin map a = (b, r) -> guarded h a b.
Proof.
  intros Hi Hr. unfold client_pin_set_pin in Hr.
  lift_peel Hr ka _. lift_peel Hr pa _.
  lift_peel Hr npe _. lift_peel Hr protocol _.
  eapply (quietly_then h _ _ a); [apply quietly_gets|done|exact Hr|]. clear Hr. intros set a0 [= <- <-] _ _ Hr.
  destruct (is_set _) eqn:Hset; [by injection Hr as <- _|].
  assert (Hnone : pp_pin_hash (persistent a) = None).
  { unfold is_set in Hset. change (prs_persistent _) with (persistent a) in Hset.
    by destruct (pp_pin_hash (persistent a)). }
  eapply (quietly_then h _ _ a); [apply quietly_decapsulate|done|exact Hr|]. clear Hr.
  intros keys a1 Hd Hi1 _ Hr. pose proof (same_view_decapsulate protocol ka a) as Hv. rewrite Hd in Hv.
  lift_peel Hr [] _.
  eapply (quietly_then h _ _ a1); [apply quietly_pure|done|exact Hr|]. clear Hr. intros hashed a2 [= <- _] _ _ Hr.
  eapply (quietly_then h _ _ a1); [apply quietly_flush|done|exact Hr|]. clear Hr.
  intros uns a3 Hf Hi3 _ Hr. pose proof (same_view_flush a1) as Hv'. rewrite Hf in Hv'.
  simpl in Hv, Hv'. unfold view in Hv, Hv'. injection Hv as _ Hv _. injection Hv' as _ Hv' _.
  destruct uns; [by injection Hr as <- _|].
  apply bind_ret in Hr as [r' Hr]. unfold store_new_pin in Hr.
  assert (Hset3 : is_set (ps_pin (app_pin_state a3)) = false).
  { unfold is_set. change (prs_persistent _) with (persistent a3). by rewrite Hv', Hv, Hnone. }
  rewrite Hset3 in Hr. simpl in Hr.
  eapply (save_then h _ _ a3); [done|exact Hr| |by rewrite Hv', Hv, Hnone].
  intros d. unfold clear_cred_mgmt. fp.
Qed.

Lemma client_pin_guarded h payload (a b : App) r :
  pin_inv a -> (forall map, request_parameters payload = Ok map -> ~ presents_in h a map) ->
  handle_client_pin payload a = (b, r) -> guarded h a b.
Proof.
  intros Hi Hno Hr. unfold handle_client_pin in Hr.
  lift_peel Hr map Hmap. lift_peel Hr sub _.
  eapply (quietly_then h _ _ a); [|done|exact Hr|].
  { destruct (bool_decide _); [apply quietly_lift with (x := Ok tt)|apply quietly_unread]. }
  clear Hr. intros u a1 Hu Hi1 _ Hr.
  assert (Hk : agreement_keys a1 = agreement_keys a).
  { destruct (bool_decide _); [by injection Hu as <- _|]. rewrite <- (same_keys_unread a). by rewrite Hu. }
  assert (Hno1 : ~ presents_in h a1 map) by (unfold presents_in; rewrite Hk; by apply Hno).
  destruct sub.
  - by injection Hr as <- _.
  - lift_peel Hr p _. apply bind_ret in Hr as [r' Hr].
    pose proof (footprint_key_agreement [] p a1) as Hf. rewrite Hr in Hf.
    eapply guarded_confined; [|exact Hf]. by intros ?%list_elem_of_In.
  - by eapply set_pin_guarded.
  - by eapply change_pin_guarded.
  - unfold client_pin_get_token_legacy in Hr.
    lift_peel Hr ka Hka. lift_peel Hr enc He.
    lift_peel Hr p Hp. destruct (_ || _); [by injection Hr as <- _|].
    by eapply get_token_guarded.
  - unfold client_pin_get_token_with_permissions in Hr.
    lift_peel Hr ka Hka. lift_peel Hr enc He.
    lift_peel Hr perms _. destruct (_ && _).
    + lift_peel Hr p Hp. lift_peel Hr g _.
      by eapply get_token_guarded.
    + lift_peel Hr rp _. destruct (_ && _); [by injection Hr as <- _|].
      lift_peel Hr p Hp. destruct (_ <=? _); [by injection Hr as <- _|].
      lift_peel Hr g _. by eapply get_token_guarded.
Qed.

Lemma set_min_guarded h params (a b : App) r :
  pin_inv a -> set_min_pin_length params a = (b, r) -> guarded h a b.
Proof.
  intros Hi Hr. unfold set_min_pin_length in Hr. lift_peel Hr p1 Ht.
  eapply (quietly_then h _ _ a); [|done|exact Hr|].
  { apply quietly_view; destruct (pp_force_pin_change p1);
      first [apply footprint_rotate|apply footprint_ret|apply same_view_rotate|apply same_view_ret]. }
  clear Hr. intros p2 a1 Hrot Hi1 _ Hr.
  assert (Hp : pp_pin_hash p2 = pp_pin_hash p1 /\ pp_pin_retries p2 = pp_pin_retries p1 /\
               persistent a1 = persistent a).
  { destruct (pp_force_pin_change p1); [|by injection Hrot as <- <-].
    pose proof (same_view_rotate p1 a) as Hv. rewrite Hrot in Hv. unfold view in Hv. injection Hv as _ Hv _.
    by apply rotate_keeps_fields in Hrot as [? ?]. }
  destruct Hp as (Hh & Hre & Hlive).
  eapply (save_then h _ _ a1); [done|exact Hr|intros d; unfold clear_cred_mgmt; fp|].
  rewrite Hlive, Hh, Hre. apply tightened_keeps in Ht as [-> ->]. split; [done|lia].
Qed.

Lemma config_guarded h payload (a b : App) r :
  pin_inv a -> handle_authenticator_config payload a = (b, r) -> guarded h a b.
Proof.
  intros Hi Hr. eapply (quietly_then h _ _ a); [apply quietly_refresh|done|exact Hr|].
  clear Hr. intros [] a1 _ Hi1 _ Hr. lift_peel Hr map _. lift_peel Hr sub _.
  eapply (quietly_then h _ _ a1); [apply quietly_gets|done|exact Hr|]. clear Hr. intros set c [= <- _] _ _ Hr.
  eapply (quietly_then h _ _ a1); [apply quietly_gets|done|exact Hr|]. clear Hr. intros al c [= <- _] _ _ Hr.
  cbn zeta beta in Hr. eapply (quietly_then h _ _ a1); [|done|exact Hr|].
  { destruct (_ && _); [|apply quietly_lift with (x := Ok tt)].
    split; [|apply keeps_config_authorize].
    unfold config_authorize, verify_pin_uv_auth_param, app_has_permission. fp. }
  clear Hr. intros [] a2 _ Hi2 _ Hr. lift_peel Hr params _. apply then_ret in Hr as [r' Hr].
  destruct (_ =? _); [|destruct (_ =? _); [by eapply set_min_guarded|by injection Hr as <- _]].
  unfold toggle_always_uv in Hr. eapply (save_then h _ _ a2); [done|exact Hr|intros d; fp|].
  intros Hh. split; [done|simpl; lia].
Qed.

(** The request is a clientPIN command whose pinHashEnc carries the PIN. *)
Definition presents (h : bytes) (a : App) (request : bytes) : Prop :=
  exists payload map, request = CTAP_CMD_CLIENT_PIN :: payload /\
    request_parameters payload = Ok map /\ presents_in h a map.

Lemma dispatch_client_pin payload : dispatch (S := S) CTAP_CMD_CLIENT_PIN payload = handle_client_pin payload.
Proof. reflexivity. Qed.

Lemma dispatch_config payload :
  dispatch (S := S) CTAP_CMD_AUTHENTICATOR_CONFIG payload = handle_authenticator_config payload.
Proof. reflexivity. Qed.

Lemma call_guarded h request (a b : App) response :
  pin_inv a -> ~ presents h a request -> head request <> Some CTAP_CMD_RESET ->
  call request a = (b, response) -> guarded h a b.
Proof.
  intros Hi Hno Hreset Hc.
  destruct (decide (RPin ∈ request_writes request)) as [HR|HR].
  2:{ apply call_confined in Hc as [Hc _]. eapply guarded_confined; [|exact Hc].
      rewrite list_elem_of_In. intros [|Hin]; [done|]. by apply HR, list_elem_of_In. }
  destruct request as [|command payload]; [by apply list_elem_of_In in HR|].
  assert (Hrun : exists r, call_result (command :: payload) a = (b, r)).
  { unfold call in Hc. destruct (call_result _ a) as [c [m|e]]; injection Hc as <- _; eauto. }
  destruct Hrun as [r Hrun]. unfold call_result in Hrun.
  eapply (quietly_then h _ _ a); [|done|exact Hrun|].
  { split; [apply footprint_observe|apply keeps_observe]. }
  intros [] a1 Hob Hi1 _ Hr.
  assert (Hk : agreement_keys a1 = agreement_keys a) by (rewrite <- (same_keys_observe (head (command :: payload)) a); by rewrite Hob).
  assert (Hcmd : command = CTAP_CMD_CLIENT_PIN \/ command = CTAP_CMD_AUTHENTICATOR_CONFIG).
  { apply command_writers, list_elem_of_In in HR. simpl in HR, Hreset. intuition congruence. }
  change (guarded h (with_pending a1 None) b).
  assert (Hi2 : pin_inv (with_pending a1 None)) by (by apply (pin_inv_view a1)).
  assert (Hd : dispatch command payload (with_pending a1 None) = (b, r)).
  { unfold forget_assertion, mbind_st in Hr. rewrite bool_decide_false in Hr; [exact Hr|].
    destruct Hcmd as [-> | ->]; discriminate. }
  clear Hr Hc Hrun. destruct Hcmd as [-> | ->].
  - rewrite dispatch_client_pin in Hd. apply (client_pin_guarded h payload _ _ r Hi2); [|exact Hd]. intros map Hm Hp. apply Hno.
    exists payload, map. split_and!; [done|done|]. unfold presents_in in *. by rewrite <- Hk.
  - rewrite dispatch_config in Hd. by apply (config_guarded h payload _ _ r Hi2).
Qed.

(** Nobody presents the PIN [h], and nobody resets. *)
Definition pinless (h : bytes) (a : App) (e : event) : Prop :=
  match e with
  | ECall request => ~ presents h a request /\ head request <> Some CTAP_CMD_RESET
  | _ => True
  end.

Fixpoint pinless_session (h : bytes) (events : list event) (a : App) : Prop :=
  match events with
  | [] => True
  | e :: rest => pinless h a e /\ pinless_session h rest (run_event e a)
  end.

Lemma event_guarded h e (a : App) : pin_inv a -> pinless h a e -> guarded h a (run_event e a).
Proof.
  intros Hi Hp. destruct e as [request|apdu|w aaguid|t|w|m]; cbn [run_event].
  4-6: by apply guarded_same.
  - destruct Hp as [Hno Hr]. destruct (call request a) as [b response] eqn:E. by eapply call_guarded.
  - destruct (call_u2f apdu a) as [b response] eqn:E. apply u2f_confined in E.
    eapply guarded_confined; [|exact E]. rewrite list_elem_of_In. simpl. intuition discriminate.
  - apply guarded_same. by rewrite new_store, (published_frame SPinState).
Qed.

(** C33: The budget of PIN guesses is one for the whole life of a PIN.  Over any
    sequence of requests, U2F messages, settings and restarts in which no
    request presents the PIN and none is a reset, whatever the store's calls
    return, the stored PIN stays the PIN and its retry counter never goes up:
    no power cycle, policy change, key-agreement or interleaving gives a
    guess back. *)
Theorem pin_budget_over_sessions h events (a : App) :
  pin_inv a -> psr_pin_hash (published (app_store a)) = Some h -> pinless_session h events a ->
  let b := run_session events a in
  psr_pin_hash (published (app_store b)) = Some h /\
  0 <= psr_pin_retries (published (app_store b)) <= psr_pin_retries (published (app_store a)).
Proof.
  intros Hi Hh Hs.
  assert (Hg : pin_inv (run_session events a) /\ guarded h a (run_session events a)).
  { clear Hh. revert a Hi Hs. induction events as [|e events IH]; intros a Hi Hs; [done|].
    destruct Hs as [He Hs]. destruct (IH _ (run_event_pin_inv e a Hi) Hs) as [Hib Hg].
    split; [done|]. etrans; [by apply event_guarded|exact Hg]. }
  destruct Hg as [Hib Hg]. destruct (Hg Hh) as [Hh' Hle]. split; [done|]. split; [|done].
  unfold published. destruct (pin_view _) as [r|] eqn:E; [|vm_compute; discriminate].
  by apply (pi_store _ Hib) in E as [[? _] _].
Qed.

End PinSession.

(** ** A concrete session *)

Module PinSessionWitness.

#[local] Opaque fresh_engine engine_with_pin engine_with_token agreed seal_for.

Ltac run := vm_compute; reflexivity.

#[local] Instance no_certificates : Certificates := {| self_signed := fun _ _ _ => None |}.

(** A token requested with the wrong PIN. *)
Definition wrong_entries : Entries :=
  [(VInteger 1, VInteger 2); (VInteger 2, VInteger 5); (VInteger 3, VMap platform_key);
   (VInteger 6, VBytes (seal_for engine_with_pin V2 (pin_hash_of pin_two)))].

Definition wrong_payload : bytes := into_writer (VMap wrong_entries).

Definition wrong_request : bytes := CTAP_CMD_CLIENT_PIN :: wrong_payload.

Lemma wrong_parsed : request_parameters wrong_payload = Ok wrong_entries.
Proof. run. Qed.

Definition session : list event :=
  [ECall wrong_request; ERestart world []; ECall [CTAP_CMD_GET_INFO]; EU2f [0; 3; 0; 0]].

Lemma wrong_request_refused : snd (call wrong_request engine_with_pin) = [CTAP2_ERR_PIN_INVALID].
Proof. run. Qed.

Lemma pin_budget_over_sessions_witness :
  psr_pin_retries (published (app_store (run_session session engine_with_pin))) = 7 /\
  psr_pin_hash (published (app_store (run_session session engine_with_pin))) = Some (pin_hash_of pin_one).
Proof.
  assert (Hslot : exists k, key_slot (agreement_keys engine_with_pin) V2 = Some k /\
    match decapsulate_with k V2 platform_key with
    | Ok keys => decrypt V2 keys (seal_for engine_with_pin V2 (pin_hash_of pin_two)) <> Some (pin_hash_of pin_one)
    | Err _ => True
    end).
  { eexists. split; [run|]. vm_compute. discriminate. }
  destruct Hslot as (k & Hk & Hdec).
  assert (Hh : psr_pin_hash (published (app_store engine_with_pin)) = Some (pin_hash_of pin_one)) by run.
  split; [run|]. refine (proj1 (pin_budget_over_sessions (pin_hash_of pin_one) session engine_with_pin
    engine_with_pin_inv Hh _)).
  split; [split; [|discriminate]|].
  - intros (payload & map & Hreq & Hmap & p & ka & enc & secret & keys & Hp & Hka & He & Hs & Hd & Hdc).
    apply (f_equal (drop 1)) in Hreq. change (wrong_payload = payload) in Hreq. subst payload.
    rewrite wrong_parsed in Hmap. injection Hmap as <-. injection Hp as <-. injection Hka as <-.
    injection He as <-. rewrite Hk in Hs. destruct Hs as [Hs|Hs]; [injection Hs as <-|discriminate Hs].
    rewrite Hd in Hdec. exact (Hdec Hdc).
  - split; [exact I|]. split; [split; [|discriminate]|by split].
    intros (payload & map & Hreq & _). discriminate Hreq.
Defined.

End PinSessionWitness.
