(* ===== verification/U2fProofs.v ===== *)
(** * What U2F registration and authentication guarantee

    A registered key handle authenticates, with the registered key, in every
    later state until a reset; and a signature needs the user where the request
    asks for presence. *)

From stdpp Require Import gmap.
From S2P Require Import Prelude Constants Alg Crypto ConcreteCrypto Cbor ConcreteCbor.
From S2P Require Import Records PinRetry Token Presence Store StoreProofs CredentialKey Signing Engine.
From S2P Require Import EngineProofs Frames SealedId Ceremony CeremonyProofs MakeCredential U2f.
From S2P Require Import Dispatch Footprint Session Scenario.

Section U2fProofs.

Context {S : Type} `{Crypto} `{KeyCrypto} `{SigningCrypto} `{Ciborium} `{Certificates}.
Context `{CredentialStore S} `{!CredentialSetLaws S} `{!PinStoreLaws S} `{!PinResetLaws S}.

#[local] Abbreviation App := (CtapApp S).

Lemma failing_ok {A} status (m : M App A Z) a b v : failing_with status m a = (b, Ok v) -> m a = (b, Ok v).
Proof. unfold failing_with. by destruct (m a) as [c [x|e]]. Qed.

Lemma u2f_presence_ok operation (a b : App) :
  u2f_presence operation a = (b, Ok tt) ->
  approved a (presence_request operation (app_presence_timeout a)).
Proof.
  intros Hp. peel Hp c timeout Ht. injection Ht as <- <-. peel Hp d outcome Ha. unfold ask_user in Ha.
  injection Ha as <- Ha. destruct outcome; try done. exists (w_asks (app_world a)).
  by destruct (w_cancelled (app_world a) (w_asks (app_world a))).
Qed.

Lemma u2f_presence_err operation (a b : App) e :
  u2f_presence operation a = (b, Err e) -> e = SW_CONDITIONS_NOT_SATISFIED.
Proof.
  intros Hp. apply mbind_err in Hp as [Hp|(c & t & Ht & Hp)]; [done|].
  apply mbind_err in Hp as [Hp|(d & o & Ho & Hp)]; [done|]. destruct o; [done|..];
  injection Hp as _ Hp; by symmetry.
Qed.

Lemma failing_err {A} status (m : M App A Z) a b e :
  failing_with status m a = (b, Err e) -> e = status.
Proof. unfold failing_with. destruct (m a) as [c [x|e']]; [done|]. by intros [= _ <-]. Qed.

(** The answer to an authentication: presence, count, and a signature over the
    application, both of them and the challenge. *)
Definition u2f_signed (control : Z) (challenge application : bytes) (key : CredentialSecretKey)
    (response : bytes) : Prop :=
  exists count signature rng,
    let counted := (if control =? 3 then 1 else 0) :: be_bytes 4 count in
    response = counted ++ signature /\
    try_sign_challenge ES256 key (application ++ counted) challenge rng = Ok signature.

Lemma sign_ok alg key d h (a b : App) signature :
  sign alg key d h a = (b, Ok signature) -> exists rng, try_sign_challenge alg key d h rng = Ok signature.
Proof.
  intros Hs. peel Hs c rng Hr. exists rng. injection Hs as _ Hs.
  destruct (try_sign_challenge alg key d h rng); [|done]. by injection Hs as <-.
Qed.

(** A handle that names a usable credential. *)
Lemma u2f_authenticate_known control challenge application handle (a c b : App) record r :
  credential_for_hash handle application a = (c, Ok (Some record)) -> u2f_usable record = true ->
  u2f_authenticate control challenge application handle a = (b, r) ->
  (control = 7 -> r = Err SW_CONDITIONS_NOT_SATISFIED) /\ r <> Err SW_WRONG_DATA /\
  forall response, r = Ok response ->
    (control = 3 -> approved c (presence_request U2fAuthenticate (app_presence_timeout c))) /\
    exists key, record_secret_key record = Ok key /\ u2f_signed control challenge application key response.
Proof.
  intros Hf Hu Ha. unfold u2f_authenticate, mbind_st at 1, failing_with at 1 in Ha.
  rewrite Hf, Hu in Ha. cbn [negb] in Ha.
  destruct (Z.eqb_spec control 7) as [->|H7]; [injection Ha as <- <-; by split_and!|].
  split; [done|]. split.
  - intros ->. apply mbind_err in Ha as [Ha|(c1 & u & _ & Ha)].
    { destruct (control =? 3); [|done]. by apply u2f_presence_err in Ha. }
    apply mbind_err in Ha as [Ha|(c2 & key & _ & Ha)].
    { destruct (record_secret_key record); by injection Ha. }
    apply mbind_err in Ha as [Ha|(c3 & counted & _ & Ha)]; [by apply failing_err in Ha|].
    apply mbind_err in Ha as [Ha|(c4 & sig & _ & Ha)]; [by apply failing_err in Ha|done].
  - intros response ->. peel Ha c1 u Hp. split.
    { intros ->. simpl in Hp. destruct u. by apply u2f_presence_ok in Hp. }
    peel_lift Ha key Hk. exists key. destruct (record_secret_key record) as [k|]; [|done].
    injection Hk as ->. split; [done|]. peel Ha c3 counted Hc. peel Ha c4 sg Hs.
    apply failing_ok, sign_ok in Hs as [rng Hs]. injection Ha as _ <-.
    by exists (cr_sign_count counted), sg, rng.
Qed.

(** ** Registration *)

Lemma u2f_sealable `{!SigningLaws} rng private :
  try_generate ES256 rng = Ok private ->
  sealable_record (u2f_record private) /\ sealable private = Some (private_key_bytes private).
Proof.
  intros Hg. pose proof (try_generate_usable _ _ _ Hg) as Hu. apply try_generate_kind in Hg as [Hk Hs].
  destruct private; try done. split; [|done]. split; [done|done| |simpl; lia]. by intros k [= <-].
Qed.

Lemma sealed_id_length r key h (a b : App) r' id :
  seal_credential r key h a = (b, Ok (r', id)) -> length id = SEALED_ID_LENGTH.
Proof.
  unfold seal_credential. destruct (_ || _); [done|]. intros Hs.
  peel_lift Hs alg Halg. peel Hs a1 seed Hseed. peel Hs a2 sealed Hst.
  destruct (negb (length sealed =? _)%nat) eqn:Hl; [done|]. injection Hs as <- <- <-. bool_hyps.
  apply Nat.eqb_eq in Hl. simpl. by rewrite Hl.
Qed.

(** C35: Registration over U2F.  A registration that succeeds was approved by the
    user, and answers with a 107-byte key handle and an uncompressed P-256
    public key.  Until a reset, in whatever state later requests and restarts
    leave, and unless the store fails, the handle is known to the application
    it was registered for: a check-only request confirms it, no request calls
    it wrong data, and whatever is signed for it is signed with the key of that
    public key, over the application, the presence byte, the count and the
    challenge, after the user approved if presence was enforced. *)
Theorem u2f_registration_authenticates `{!SealStoreLaws S} `{!SigningLaws}
    challenge application (a b : App) response events :
  u2f_register challenge application a = (b, Ok response) -> Forall no_reset events ->
  approved a (presence_request U2fRegister (app_presence_timeout a)) /\
  exists public handle certificate signature key,
    response = 5 :: public ++ zlen handle :: handle ++ certificate ++ signature /\
    length handle = SEALED_ID_LENGTH /\ public_key key = Ok public /\
    forall control challenge' c d r,
      c = run_session events b ->
      u2f_authenticate control challenge' application handle c = (d, r) ->
      r = Err SW_INTERNAL_ERROR \/
      (control = 7 -> r = Err SW_CONDITIONS_NOT_SATISFIED) /\ r <> Err SW_WRONG_DATA /\
      forall response', r = Ok response' ->
        (control = 3 -> approved c (presence_request U2fAuthenticate (app_presence_timeout c))) /\
        u2f_signed control challenge' application key response'.
Proof.
  intros Hr He. peel Hr a1 u Hp. destruct u. split; [by apply u2f_presence_ok in Hp|].
  peel Hr a2 rng Hrng. peel_lift Hr private Hg. destruct (try_generate ES256 rng) as [k|] eqn:Hgen; [|done].
  injection Hg as ->. apply u2f_sealable in Hgen as [Hsr Hsk]. rewrite Hsk in Hr.
  peel_lift Hr material Hm. injection Hm as <-. peel Hr a3 sealed Hs. apply failing_ok in Hs.
  destruct sealed as [r' id]. pose proof (sealed_id_length _ _ _ _ _ _ _ Hs) as Hlen.
  pose proof (seal_credential_form _ _ _ _ _ _ _ Hs) as [Hid [seed Hr']]. cbn [fst snd] in Hr.
  peel_lift Hr key Hk. peel_lift Hr public Hpub. peel Hr a4 attested Hat. peel Hr a5 signature Hsig.
  destruct (255 <? _); [done|]. injection Hr as <- <-.
  exists public, id, (fst attested), signature, key. split_and!; [done|done|done|].
  intros control challenge' c d r -> Hau.
  assert (Hun : unreset a3 (run_session events a5)).
  { etrans; [|by apply session_unreset].
    pose proof (footprint_u2f_attestation [] key public a3) as Hf1. rewrite Hat in Hf1.
    apply failing_ok in Hsig. pose proof (footprint_sign [] ES256 (snd attested)
      (registration_base application challenge (cr_credential_id (set_credential_id r' id)) public) [] a4) as Hf2. rewrite Hsig in Hf2.
    apply (confined_unreset []); [left; by intros ?%list_elem_of_In|]. by etrans. }
  destruct Hun as (calls & Hcalls & Est).
  destruct (credential_for_hash id application (run_session events a5)) as [c' [found|e]] eqn:Hf.
  2:{ left. unfold u2f_authenticate, mbind_st at 1, failing_with at 1 in Hau. rewrite Hf in Hau.
      by injection Hau as _ <-. }
  right. pose proof (sealed_for_hash _ _ _ _ _ _ _ _ _ _ Hsr Hs Hcalls Est Hf) as Hfound.
  cbv beta iota in Hfound. subst found.
  assert (Hu : u2f_usable (unsealed (u2f_record private) r' [] id) = true).
  { unfold u2f_usable. cbn. rewrite bool_decide_eq_true_2 by done.
    by rewrite (sealed_not_discoverable id Hid). }
  destruct (u2f_authenticate_known _ _ _ _ _ _ _ _ _ Hf Hu Hau) as (H7 & Hw & Hok).
  split_and!; [done|done|]. intros response' ->. destruct (Hok _ eq_refl) as (Hap & key' & Hk' & Hsigned).
  split.
  { intros Hc3. pose proof (calm_setting _ _ (calmly_run _ _ _ _ (calmly_for_hash id application) Hf)) as Hset.
    apply (approved_setting _ _ _ Hset). injection Hset as _ _ Ht _. rewrite <- Ht. by apply Hap. }
  assert (Hkk : record_secret_key (unsealed (u2f_record private) r' [] id) =
    record_secret_key (set_credential_id r' id)).
  { subst r'. reflexivity. }
  rewrite Hkk in Hk'. rewrite Hk' in Hk. by injection Hk as <-.
Qed.

End U2fProofs.

(** ** A registration and two authentications *)

Module U2fWitness.

Import SessionWitness.

#[local] Opaque fresh_engine.

#[local] Instance signed_keys : Certificates := {| self_signed := fun _ public sign => sign public |}.

Definition register_run : CtapApp MemoryStore * result bytes Z :=
  u2f_register (repeat 1 32) (repeat 2 32) sealing_engine.

Definition registered : bytes := match snd register_run with Ok d => d | Err _ => [] end.

(** A restart and an information request come between. *)
Definition restarted : CtapApp MemoryStore :=
  run_session [ERestart world []; ECall [CTAP_CMD_GET_INFO]] (fst register_run).

Definition key_handle : bytes := slice registered 67 174.

Definition authenticate_run (control : Z) : CtapApp MemoryStore * result bytes Z :=
  u2f_authenticate control (repeat 3 32) (repeat 2 32) key_handle restarted.

Lemma u2f_registration_authenticates_witness :
  snd (authenticate_run 7) = Err SW_CONDITIONS_NOT_SATISFIED /\
  exists key response, snd (authenticate_run 3) = Ok response /\
    u2f_signed 3 (repeat 3 32) (repeat 2 32) key response.
Proof.
  assert (Hs : snd register_run = Ok registered) by (vm_compute; reflexivity).
  pose proof (run_result register_run _ Hs) as Hr. unfold register_run at 1 in Hr.
  assert (Ha : exists o, snd (authenticate_run 3) = Ok o) by (apply is_ok_exists; vm_compute; reflexivity).
  destruct Ha as [o Ha].
  assert (He : Forall no_reset [ERestart world []; ECall [CTAP_CMD_GET_INFO]])
    by (repeat constructor; discriminate).
  destruct (u2f_registration_authenticates _ _ _ _ _ _ Hr He)
    as (_ & public & handle & certificate & signature & key & Eresp & Hlen & Hpub & Hall).
  assert (Hp : length public = 65%nat).
  { destruct key; try discriminate Hpub. unfold public_key in Hpub.
    injection Hpub as <-. reflexivity. }
  assert (Hh : handle = key_handle).
  { unfold key_handle, slice. rewrite Eresp.
    replace (5 :: public ++ zlen handle :: handle ++ certificate ++ signature)
      with ((5 :: public ++ [zlen handle]) ++ handle ++ certificate ++ signature)
      by (simpl; by rewrite <- app_assoc).
    rewrite drop_app_length' by (simpl; rewrite length_app; simpl; lia).
    by rewrite take_app_length' by (by rewrite Hlen). }
  subst handle. split.
  - pose proof (surjective_pairing (authenticate_run 7)) as H7. unfold authenticate_run at 1 in H7.
    destruct (Hall 7 _ _ _ _ eq_refl H7) as [Hi|(Hc & _)]; [|by apply Hc].
    vm_compute in Hi. discriminate Hi.
  - pose proof (run_result _ _ Ha) as H3. unfold authenticate_run at 1 in H3.
    destruct (Hall 3 _ _ _ _ eq_refl H3) as [Hi|(_ & _ & Hok)]; [discriminate Hi|].
    exists key, o. split; [exact Ha|exact (proj2 (Hok _ eq_refl))].
Defined.

End U2fWitness.
