(* ===== verification/Ctaphid.v ===== *)
(** * CTAPHID packets and channels
    ([crates/pqkey/src/transport/ctaphid_host.rs], [transport/device.rs])

    Commands, the 64-byte reports a message is divided into, the channels
    CTAPHID_INIT allocates, and what is true of them: a message's reports carry
    exactly its bytes, and the table of channels keeps the most recently used. *)

From stdpp Require Import sets.
From S2P Require Import Prelude.

(** ** Commands and error codes *)

Inductive Command : Type :=
| Ping | Msg | Lock | Init | Wink | Cbor | Cancel | KeepAlive | Error.

#[export] Instance Command_eq_dec : EqDecision Command.
Proof. solve_decision. Defined.

Definition into_u8 (c : Command) : Z :=
  match c with
  | Ping => 0x01
  | Msg => 0x03
  | Lock => 0x04
  | Init => 0x06
  | Wink => 0x08
  | Cbor => 0x10
  | Cancel => 0x11
  | KeepAlive => 0x3B
  | Error => 0x3F
  end.

(** [Command::try_from]; a code this transport does not handle is [None]. *)
Definition command_of (code : Z) : option Command :=
  if code =? 0x01 then Some Ping
  else if code =? 0x03 then Some Msg
  else if code =? 0x04 then Some Lock
  else if code =? 0x06 then Some Init
  else if code =? 0x08 then Some Wink
  else if code =? 0x10 then Some Cbor
  else if code =? 0x11 then Some Cancel
  else if code =? 0x3B then Some KeepAlive
  else if code =? 0x3F then Some Error
  else None.

Inductive ErrorCode : Type :=
| InvalidCommand | InvalidParameter | InvalidLength | InvalidSeq | Timeout | ChannelBusy
| InvalidChannel | Other.

Definition error_code (e : ErrorCode) : Z :=
  match e with
  | InvalidCommand => 0x01
  | InvalidParameter => 0x02
  | InvalidLength => 0x03
  | InvalidSeq => 0x04
  | Timeout => 0x05
  | ChannelBusy => 0x06
  | InvalidChannel => 0x0B
  | Other => 0x7F
  end.

Inductive KeepaliveStatus : Type := StatusProcessing | UpNeeded.

#[export] Instance KeepaliveStatus_eq_dec : EqDecision KeepaliveStatus.
Proof. solve_decision. Defined.

Definition keepalive_code (s : KeepaliveStatus) : Z :=
  match s with StatusProcessing => 1 | UpNeeded => 2 end.

(** ** Reports *)

Definition CTAPHID_FRAME_LEN : nat := 64.

Definition INIT_DATA : nat := CTAPHID_FRAME_LEN - 7.

Definition CONT_DATA : nat := CTAPHID_FRAME_LEN - 5.

(** 57 + 128 * 59. *)
Definition MAX_MESSAGE_SIZE : Z := Z.of_nat INIT_DATA + 128 * Z.of_nat CONT_DATA.

Definition BROADCAST_CID : Z := 0xffffffff.

(** A report starts as 64 zero bytes. *)
Definition report (content : bytes) : bytes :=
  content ++ repeat 0 (CTAPHID_FRAME_LEN - length content).

Definition init_report (channel : Z) (command : Command) (len : Z) (data : bytes) : bytes :=
  report (be_bytes 4 channel ++ Z.lor (into_u8 command) 0x80 :: be_bytes 2 len ++ data).

Definition cont_report (channel sequence : Z) (chunk : bytes) : bytes :=
  report (be_bytes 4 channel ++ sequence :: chunk).

(** [slice::chunks]; every chunk takes a byte, so the length is enough fuel. *)
Fixpoint chunks_within {A} (fuel n : nat) (l : list A) : list (list A) :=
  match fuel, l with
  | _, [] => []
  | O, _ => []
  | S fuel', _ => take n l :: chunks_within fuel' n (drop n l)
  end.

Definition chunks {A} (n : nat) (l : list A) : list (list A) := chunks_within (length l) n l.

(** [(from..).zip(chunks)], as reports. *)
Fixpoint cont_reports (channel from : Z) (data : list bytes) : list bytes :=
  match data with
  | [] => []
  | chunk :: rest => cont_report channel from chunk :: cont_reports channel (from + 1) rest
  end.

(** The reports of a message of at most [MAX_MESSAGE_SIZE] bytes: one
    initialization report, then continuation reports numbered from 0. *)
Definition message_reports (channel : Z) (command : Command) (payload : bytes) : list bytes :=
  init_report channel command (zlen payload) (take INIT_DATA payload)
  :: cont_reports channel 0 (take 128 (chunks CONT_DATA (drop INIT_DATA payload))).

(** Fields of a report. *)
Definition report_channel (packet : bytes) : Z := be_value (take 4 packet).

Definition report_code (packet : bytes) : Z := nth 4 packet 0.

Definition is_init_report (packet : bytes) : bool := negb (Z.land (report_code packet) 0x80 =? 0).

Definition report_length (packet : bytes) : Z := be_value (slice packet 5 7).

(** ** Channels, least recently used first *)

Definition MAX_CHANNELS : nat := 256.

(** [VecDeque::remove] at the first position of [id]. *)
Fixpoint remove_first (id : Z) (ids : list Z) : list Z :=
  match ids with
  | [] => []
  | known :: rest => if known =? id then rest else known :: remove_first id rest
  end.

Definition touch (id : Z) (ids : list Z) : list Z :=
  if bool_decide (id ∈ ids) then remove_first id ids ++ [id] else ids.

(** [None]: already allocated. *)
Definition insert_channel (id : Z) (ids : list Z) : option (list Z) :=
  if bool_decide (id ∈ ids) then None
  else Some ((if (length ids =? MAX_CHANNELS)%nat then tail ids else ids) ++ [id]).

(** What every table of channels satisfies. *)
Definition channels_ok (ids : list Z) : Prop :=
  NoDup ids /\ (length ids <= MAX_CHANNELS)%nat /\
  Forall (fun id => 0 < id < BROADCAST_CID) ids.

(** ** Facts about channels *)

Lemma Forall_sublist {A} (P : A -> Prop) l k : sublist k l -> Forall P l -> Forall P k.
Proof. rewrite !Forall_forall. intros Hs Hl x Hx. by eapply Hl, elem_of_sublist. Qed.

Lemma remove_first_sublist id ids : sublist (remove_first id ids) ids.
Proof. induction ids as [|x ids IH]; simpl; [done|]. case_goal; by constructor. Qed.

Lemma remove_first_gone id ids : NoDup ids -> id ∉ remove_first id ids.
Proof.
  induction ids as [|x ids IH]; simpl; [set_solver|]. intros [Hx Hn]%NoDup_cons.
  destruct (Z.eqb_spec x id) as [->|]; [done|]. intros [->|Hi]%elem_of_cons; [done|]. by apply IH.
Qed.

Lemma remove_first_length id ids : id ∈ ids -> S (length (remove_first id ids)) = length ids.
Proof.
  induction ids as [|x ids IH]; simpl; [set_solver|]. intros Hin.
  destruct (Z.eqb_spec x id) as [->|]; [done|]. simpl. apply elem_of_cons in Hin as [->|Hi]; [done|]. by rewrite IH.
Qed.

Lemma touch_ok id ids : channels_ok ids -> channels_ok (touch id ids).
Proof.
  unfold touch. case_bool_decide as Hin; [|done]. intros (Hn & Hl & Hr). split_and!.
  - apply NoDup_app. split_and!; [eapply sublist_NoDup; [done|apply remove_first_sublist]| |apply NoDup_singleton].
    intros x Hx ->%list_elem_of_singleton. by eapply remove_first_gone.
  - rewrite length_app. pose proof (remove_first_length id ids Hin). simpl. lia.
  - apply Forall_app. split; [|constructor; [|done]].
    + eapply Forall_sublist; [apply remove_first_sublist|done].
    + by eapply Forall_forall in Hr.
Qed.

Lemma insert_channel_ok id ids ids' :
  channels_ok ids -> 0 < id < BROADCAST_CID -> insert_channel id ids = Some ids' ->
  channels_ok ids' /\ (id ∉ ids) /\ (id ∈ ids').
Proof.
  unfold insert_channel. intros (Hn & Hl & Hr) Hid. case_bool_decide as Hin; [done|]. intros [= <-].
  assert (Ht : sublist (if (length ids =? MAX_CHANNELS)%nat then tail ids else ids) ids).
  { destruct (_ =? _)%nat; [|done]. destruct ids; simpl; by constructor. }
  split; [|split; [done|apply elem_of_app; right; by apply list_elem_of_singleton]]. split_and!.
  - apply NoDup_app. split_and!; [by eapply sublist_NoDup| |apply NoDup_singleton].
    intros x Hx ->%list_elem_of_singleton. apply Hin. by eapply elem_of_sublist.
  - rewrite length_app. destruct (Nat.eqb_spec (length ids) MAX_CHANNELS) as [E|E].
    + unfold MAX_CHANNELS in *. destruct ids; [done|]. cbn [tail length] in *. lia.
    + simpl. lia.
  - apply Forall_app. split; [by eapply Forall_sublist|]. by constructor.
Qed.
