(* ===== verification/HidHost.v ===== *)
(** * The CTAPHID state machine
    ([crates/pqkey/src/transport/ctaphid_host.rs], [CtaphidHost])

    One transaction at a time: receiving its packets, processing by the app,
    and transmitting the answer.  Times are milliseconds since the transport
    started; sums the source saturates saturate here, the others cannot reach
    2^64.  Report tokens and identification tokens count up; the source stops
    the program if one were ever exhausted, which takes 2^64 reports. *)

From S2P Require Import Prelude Constants U2f Ctaphid.

Definition U2F_RESPONSE_WAIT_MS : Z := 100.

Definition U2F_POLL_TIMEOUT_MS : Z := 3000.

Definition U2F_APPROVAL_MS : Z := 10000.

Definition CONTINUATION_TIMEOUT_MS : Z := 550.

Definition KEEPALIVE_INTERVAL_MS : Z := 50.

Definition IDENTIFICATION_TIMEOUT_MS : Z := 500.

Definition CHANNEL_GENERATION_RETRY_LIMIT : nat := 64.

Definition u64_saturating_add (a b : Z) : Z := Z.min (u64_modulus - 1) (a + b).

(** ** State *)

(** [AppRequest]: a complete CBOR or MSG request for the app. *)
Record AppRequest : Type := { ar_command : Command; ar_payload : bytes }.

(** A U2F request that waits for the user, or its approved answer with the
    time it may be collected until. *)
Record U2fPoll : Type := MkPoll {
  up_channel : Z;
  up_request : bytes;
  up_last_poll : Z;
  up_started : Z;
  up_presence_started : bool;
  up_presence_finished : option Z;
  up_answer : option (bytes * Z)
}.

Definition poll_deadline (poll : U2fPoll) : Z :=
  match up_answer poll with
  | Some (_, expires) => u64_saturating_add expires 1
  | None =>
      match up_presence_finished poll with
      | Some at_ => u64_saturating_add at_ (U2F_APPROVAL_MS + 1)
      | None => u64_saturating_add (up_last_poll poll) (U2F_POLL_TIMEOUT_MS + 1)
      end
  end.

Record DeniedPoll : Type := MkDenied { dp_channel : Z; dp_request : bytes; dp_last_poll : Z }.

Record IdentificationRequest : Type := { ir_token : Z; ir_deadline : Z }.

Record DeviceVersion : Type := { dv_major : Z; dv_minor : Z; dv_build : Z }.

(** [Processing]; [pr_request] is the payload until the app takes it. *)
Record ProcessingState : Type := MkProcessing {
  pr_channel : Z;
  pr_command : Command;
  pr_started : Z;
  pr_request : option bytes;
  pr_keepalive_at : Z;
  pr_keepalive_status : KeepaliveStatus
}.

Inductive State : Type :=
| Idle
| Receiving (channel : Z) (command : Command) (len next_sequence last_packet_at : Z)
| Processing (p : ProcessingState)
| Identifying (channel : Z) (request : IdentificationRequest) (submitted : bool)
| Transmitting (channel final_frame : Z).

Record OutgoingFrame : Type := MkFrame { of_frame : bytes; of_token : Z }.

(** [rng.next_u32()] is a stream of draws with the position reached. *)
Record CtaphidHost : Type := MkHost {
  ch_state : State;
  ch_lease : option (Z * Z);
  ch_message : bytes;
  ch_pending : list OutgoingFrame;
  ch_next_token : Z;
  ch_next_identification : Z;
  ch_channels : list Z;
  ch_rng : nat -> Z;
  ch_rng_draws : nat;
  ch_capabilities : Z;
  ch_version : DeviceVersion;
  ch_app_busy : bool;
  ch_interrupt_app : bool;
  ch_app_command : option Command;
  ch_u2f : option U2fPoll;
  ch_denied_polls : list DeniedPoll
}.

Definition set_ch_state (v : State) (h : CtaphidHost) : CtaphidHost :=
  MkHost v (ch_lease h) (ch_message h) (ch_pending h) (ch_next_token h) (ch_next_identification
    h) (ch_channels h) (ch_rng h) (ch_rng_draws h) (ch_capabilities h) (ch_version h)
    (ch_app_busy h) (ch_interrupt_app h) (ch_app_command h) (ch_u2f h) (ch_denied_polls h).

Definition set_ch_lease (v : option (Z * Z)) (h : CtaphidHost) : CtaphidHost :=
  MkHost (ch_state h) v (ch_message h) (ch_pending h) (ch_next_token h) (ch_next_identification
    h) (ch_channels h) (ch_rng h) (ch_rng_draws h) (ch_capabilities h) (ch_version h)
    (ch_app_busy h) (ch_interrupt_app h) (ch_app_command h) (ch_u2f h) (ch_denied_polls h).

Definition set_ch_message (v : bytes) (h : CtaphidHost) : CtaphidHost :=
  MkHost (ch_state h) (ch_lease h) v (ch_pending h) (ch_next_token h) (ch_next_identification h)
    (ch_channels h) (ch_rng h) (ch_rng_draws h) (ch_capabilities h) (ch_version h) (ch_app_busy
    h) (ch_interrupt_app h) (ch_app_command h) (ch_u2f h) (ch_denied_polls h).

Definition set_ch_pending (v : list OutgoingFrame) (h : CtaphidHost) : CtaphidHost :=
  MkHost (ch_state h) (ch_lease h) (ch_message h) v (ch_next_token h) (ch_next_identification h)
    (ch_channels h) (ch_rng h) (ch_rng_draws h) (ch_capabilities h) (ch_version h) (ch_app_busy
    h) (ch_interrupt_app h) (ch_app_command h) (ch_u2f h) (ch_denied_polls h).

Definition set_ch_next_token (v : Z) (h : CtaphidHost) : CtaphidHost :=
  MkHost (ch_state h) (ch_lease h) (ch_message h) (ch_pending h) v (ch_next_identification h)
    (ch_channels h) (ch_rng h) (ch_rng_draws h) (ch_capabilities h) (ch_version h) (ch_app_busy
    h) (ch_interrupt_app h) (ch_app_command h) (ch_u2f h) (ch_denied_polls h).

Definition set_ch_next_identification (v : Z) (h : CtaphidHost) : CtaphidHost :=
  MkHost (ch_state h) (ch_lease h) (ch_message h) (ch_pending h) (ch_next_token h) v
    (ch_channels h) (ch_rng h) (ch_rng_draws h) (ch_capabilities h) (ch_version h) (ch_app_busy
    h) (ch_interrupt_app h) (ch_app_command h) (ch_u2f h) (ch_denied_polls h).

Definition set_ch_channels (v : list Z) (h : CtaphidHost) : CtaphidHost :=
  MkHost (ch_state h) (ch_lease h) (ch_message h) (ch_pending h) (ch_next_token h)
    (ch_next_identification h) v (ch_rng h) (ch_rng_draws h) (ch_capabilities h) (ch_version h)
    (ch_app_busy h) (ch_interrupt_app h) (ch_app_command h) (ch_u2f h) (ch_denied_polls h).

Definition set_ch_rng_draws (v : nat) (h : CtaphidHost) : CtaphidHost :=
  MkHost (ch_state h) (ch_lease h) (ch_message h) (ch_pending h) (ch_next_token h)
    (ch_next_identification h) (ch_channels h) (ch_rng h) v (ch_capabilities h) (ch_version h)
    (ch_app_busy h) (ch_interrupt_app h) (ch_app_command h) (ch_u2f h) (ch_denied_polls h).

Definition set_ch_capabilities (v : Z) (h : CtaphidHost) : CtaphidHost :=
  MkHost (ch_state h) (ch_lease h) (ch_message h) (ch_pending h) (ch_next_token h)
    (ch_next_identification h) (ch_channels h) (ch_rng h) (ch_rng_draws h) v (ch_version h)
    (ch_app_busy h) (ch_interrupt_app h) (ch_app_command h) (ch_u2f h) (ch_denied_polls h).

Definition set_ch_version (v : DeviceVersion) (h : CtaphidHost) : CtaphidHost :=
  MkHost (ch_state h) (ch_lease h) (ch_message h) (ch_pending h) (ch_next_token h)
    (ch_next_identification h) (ch_channels h) (ch_rng h) (ch_rng_draws h) (ch_capabilities h) v
    (ch_app_busy h) (ch_interrupt_app h) (ch_app_command h) (ch_u2f h) (ch_denied_polls h).

Definition set_ch_app_busy (v : bool) (h : CtaphidHost) : CtaphidHost :=
  MkHost (ch_state h) (ch_lease h) (ch_message h) (ch_pending h) (ch_next_token h)
    (ch_next_identification h) (ch_channels h) (ch_rng h) (ch_rng_draws h) (ch_capabilities h)
    (ch_version h) v (ch_interrupt_app h) (ch_app_command h) (ch_u2f h) (ch_denied_polls h).

Definition set_ch_interrupt_app (v : bool) (h : CtaphidHost) : CtaphidHost :=
  MkHost (ch_state h) (ch_lease h) (ch_message h) (ch_pending h) (ch_next_token h)
    (ch_next_identification h) (ch_channels h) (ch_rng h) (ch_rng_draws h) (ch_capabilities h)
    (ch_version h) (ch_app_busy h) v (ch_app_command h) (ch_u2f h) (ch_denied_polls h).

Definition set_ch_app_command (v : option Command) (h : CtaphidHost) : CtaphidHost :=
  MkHost (ch_state h) (ch_lease h) (ch_message h) (ch_pending h) (ch_next_token h)
    (ch_next_identification h) (ch_channels h) (ch_rng h) (ch_rng_draws h) (ch_capabilities h)
    (ch_version h) (ch_app_busy h) (ch_interrupt_app h) v (ch_u2f h) (ch_denied_polls h).

Definition set_ch_u2f (v : option U2fPoll) (h : CtaphidHost) : CtaphidHost :=
  MkHost (ch_state h) (ch_lease h) (ch_message h) (ch_pending h) (ch_next_token h)
    (ch_next_identification h) (ch_channels h) (ch_rng h) (ch_rng_draws h) (ch_capabilities h)
    (ch_version h) (ch_app_busy h) (ch_interrupt_app h) (ch_app_command h) v (ch_denied_polls h).

Definition set_ch_denied_polls (v : list DeniedPoll) (h : CtaphidHost) : CtaphidHost :=
  MkHost (ch_state h) (ch_lease h) (ch_message h) (ch_pending h) (ch_next_token h)
    (ch_next_identification h) (ch_channels h) (ch_rng h) (ch_rng_draws h) (ch_capabilities h)
    (ch_version h) (ch_app_busy h) (ch_interrupt_app h) (ch_app_command h) (ch_u2f h) v.

Definition with_rng (rng : nat -> Z) : CtaphidHost := {|
  ch_state := Idle; ch_lease := None; ch_message := []; ch_pending := []; ch_next_token := 0;
  ch_next_identification := 0; ch_channels := []; ch_rng := rng; ch_rng_draws := 0;
  ch_capabilities := 0; ch_version := {| dv_major := 0; dv_minor := 0; dv_build := 0 |};
  ch_app_busy := false; ch_interrupt_app := false; ch_app_command := None; ch_u2f := None;
  ch_denied_polls := [] |}.

Definition is_idle (s : State) : bool := match s with Idle => true | _ => false end.

(** Waiting for the app's answer to a MSG request it has taken. *)
Definition awaits_msg (s : State) : bool :=
  match s with
  | Processing p => bool_decide (pr_command p = Msg) && negb (is_some (pr_request p))
  | _ => false
  end.

(** ** Output *)

Definition queue_frame (frame : bytes) (h : CtaphidHost) : CtaphidHost * Z :=
  let token := ch_next_token h in
  (set_ch_pending (ch_pending h ++ [MkFrame frame token]) (set_ch_next_token (token + 1) h), token).

(** Each report in turn; the token of the last. *)
Fixpoint queue_frames (frames : list bytes) (final : Z) (h : CtaphidHost) : CtaphidHost * Z :=
  match frames with
  | [] => (h, final)
  | frame :: rest => let (h', token) := queue_frame frame h in queue_frames rest token h'
  end.

(** A payload that is too long for a message is replaced by ERR_OTHER. *)
Definition queue_message (channel : Z) (command : Command) (payload : bytes) (h : CtaphidHost)
    : CtaphidHost * Z :=
  if zlen payload <=? MAX_MESSAGE_SIZE
  then queue_frames (message_reports channel command payload) 0 h
  else queue_frames (message_reports channel Error [error_code Other]) 0 h.

Definition enqueue_message (channel : Z) (command : Command) (payload : bytes) (h : CtaphidHost)
    : CtaphidHost :=
  let (h', final_frame) := queue_message channel command payload h in
  set_ch_state (Transmitting channel final_frame) h'.

(** An auxiliary rejection: the transaction under way keeps its owner. *)
Definition enqueue_error (channel : Z) (code : ErrorCode) (h : CtaphidHost) : CtaphidHost :=
  fst (queue_message channel Error [error_code code] h).

Definition finish_error (channel : Z) (code : ErrorCode) (h : CtaphidHost) : CtaphidHost :=
  enqueue_message channel Error [error_code code] h.

Definition next_outgoing_frame (h : CtaphidHost) : option OutgoingFrame := head (ch_pending h).

Definition is_outgoing_current (frame : OutgoingFrame) (h : CtaphidHost) : bool :=
  is_some_and (head (ch_pending h)) (fun first => of_token first =? of_token frame).

Definition outgoing_frame_written (frame : OutgoingFrame) (h : CtaphidHost) : CtaphidHost * bool :=
  if is_outgoing_current frame h then
    let h' := set_ch_pending (tail (ch_pending h)) h in
    (match ch_state h with
     | Transmitting _ final_frame => if final_frame =? of_token frame then set_ch_state Idle h' else h'
     | _ => h'
     end, true)
  else (h, false).

(** ** Leases and ownership *)

Definition expire_lease (now : Z) (h : CtaphidHost) : CtaphidHost :=
  if is_some_and (ch_lease h) (fun lease => snd lease <=? now) then set_ch_lease None h else h.

Definition lease_conflicts (channel : Z) (h : CtaphidHost) : bool :=
  is_some_and (ch_lease h) (fun lease => negb (fst lease =? channel)).

(** The channel of the transaction or of the U2F prompt under way. *)
Definition busy_channel (h : CtaphidHost) : option Z :=
  match ch_state h with
  | Idle =>
      match ch_u2f h with
      | Some poll => if is_some (up_answer poll) then None else Some (up_channel poll)
      | None => None
      end
  | Receiving channel _ _ _ _ => Some channel
  | Processing p => Some (pr_channel p)
  | Identifying channel _ _ => Some channel
  | Transmitting channel _ => Some channel
  end.

(** ** CTAPHID_CANCEL and CTAPHID_INIT *)

Definition handle_cancel (channel : Z) (h : CtaphidHost) : CtaphidHost :=
  match ch_state h with
  | Processing p =>
      if negb (pr_channel p =? channel) || negb (bool_decide (pr_command p = Cbor)) then h
      else if is_some (pr_request p)
      then enqueue_message channel Cbor [CTAP2_ERR_KEEPALIVE_CANCEL] (set_ch_state Idle h)
      else set_ch_interrupt_app true h
  | _ => h
  end.

(** [None]: no candidate was free within the attempts. *)
Fixpoint allocate_channel (attempts : nat) (h : CtaphidHost) : CtaphidHost * option Z :=
  match attempts with
  | O => (h, None)
  | S attempts' =>
      let candidate := ch_rng h (ch_rng_draws h) in
      let h := set_ch_rng_draws (S (ch_rng_draws h)) h in
      if (candidate =? 0) || (candidate =? BROADCAST_CID) then allocate_channel attempts' h
      else
        match insert_channel candidate (ch_channels h) with
        | Some ids => (set_ch_channels ids h, Some candidate)
        | None => allocate_channel attempts' h
        end
  end.

(** The channel an INIT is answered for, or the error it gets. *)
Definition init_channel (channel : Z) (aborted : bool) (h : CtaphidHost)
    : CtaphidHost * result Z ErrorCode :=
  if channel =? BROADCAST_CID then
    let (h', assigned) := allocate_channel CHANNEL_GENERATION_RETRY_LIMIT h in
    (h', ok_or assigned ChannelBusy)
  else if negb (channel =? 0) && (aborted || bool_decide (channel ∈ ch_channels h))
  then (h, Ok channel)
  else (h, Err InvalidChannel).

(** Everything on [channel] is dropped; the app is told if it works on it. *)
Definition resynchronise (channel : Z) (h : CtaphidHost) : CtaphidHost :=
  let h := set_ch_pending
             (List.filter (fun f => negb (bytes_eqb (take 4 (of_frame f)) (be_bytes 4 channel)))
                (ch_pending h)) h in
  let h := set_ch_message [] h in
  let h := match ch_u2f h with
           | Some poll =>
               if up_channel poll =? channel then
                 set_ch_u2f None
                   (if is_some (up_answer poll) then h else set_ch_interrupt_app true h)
               else h
           | None => h
           end in
  let h := set_ch_denied_polls
             (List.filter (fun poll => negb (dp_channel poll =? channel)) (ch_denied_polls h)) h in
  let h := match ch_state h with
           | Processing p => if is_some (pr_request p) then h else set_ch_interrupt_app true h
           | _ => h
           end in
  set_ch_state Idle h.

Definition init_response (nonce : bytes) (assigned : Z) (h : CtaphidHost) : bytes :=
  nonce ++ be_bytes 4 assigned ++
  [2; dv_major (ch_version h); dv_minor (ch_version h); dv_build (ch_version h); ch_capabilities h].

Definition handle_init (channel len : Z) (data : bytes) (h : CtaphidHost) : CtaphidHost :=
  if lease_conflicts channel h then enqueue_error channel ChannelBusy h
  else if is_some_and (busy_channel h) (fun busy => negb (busy =? channel))
  then enqueue_error channel ChannelBusy h
  else if negb (len =? 8) then
    if is_some (busy_channel h) then enqueue_error channel InvalidLength h
    else finish_error channel InvalidLength h
  else
    let aborted := negb (is_idle (ch_state h)) in
    match init_channel channel aborted h with
    | (h, Err code) => if aborted then enqueue_error channel code h else finish_error channel code h
    | (h, Ok assigned) =>
        let h := resynchronise channel h in
        enqueue_message channel Init (init_response (take 8 data) assigned h) h
    end.

(** ** Requests *)

(** LOCK: a lease of 0 to 10 seconds, 0 releasing it. *)
Definition complete_lock (channel now : Z) (h : CtaphidHost) : CtaphidHost :=
  let seconds := nth 0 (ch_message h) 0 in
  if 10 <? seconds then finish_error channel InvalidParameter h
  else
    enqueue_message channel Lock []
      (set_ch_lease (if seconds =? 0 then None
                     else Some (channel, u64_saturating_add now (seconds * 1000))) h).

Definition complete_wink (channel now : Z) (h : CtaphidHost) : CtaphidHost :=
  let token := ch_next_identification h in
  set_ch_state
    (Identifying channel {| ir_token := token;
                            ir_deadline := u64_saturating_add now IDENTIFICATION_TIMEOUT_MS |} false)
    (set_ch_next_identification (token + 1) h).

Definition set_last_poll (now : Z) (poll : U2fPoll) : U2fPoll :=
  MkPoll (up_channel poll) (up_request poll) now (up_started poll) (up_presence_started poll)
    (up_presence_finished poll) (up_answer poll).

Definition not_satisfied : bytes := be_bytes 2 SW_CONDITIONS_NOT_SATISFIED.

(** A MSG while a U2F operation is remembered: a repeat of its request polls
    for the answer.  [None]: the message is a new request. *)
Definition poll_answer (channel now : Z) (h : CtaphidHost) : CtaphidHost * option CtaphidHost :=
  match ch_u2f h with
  | None => (h, None)
  | Some poll =>
      if (up_channel poll =? channel) && bytes_eqb (up_request poll) (ch_message h) then
        let h := set_ch_u2f (Some (set_last_poll now poll)) h in
        match up_answer poll with
        | Some (reply, expires) =>
            if expires <? now then (h, None)
            else (h, Some (enqueue_message channel Msg reply (set_ch_state Idle (set_ch_u2f None h))))
        | None => (h, Some (enqueue_message channel Msg not_satisfied (set_ch_state Idle h)))
        end
      else if is_some (up_answer poll) then (h, None)
      else (h, Some (finish_error channel ChannelBusy h))
  end.

Definition denial_matches (channel : Z) (message : bytes) (poll : DeniedPoll) : bool :=
  (dp_channel poll =? channel) && bytes_eqb (dp_request poll) message.

Definition denial_live (now : Z) (poll : DeniedPoll) : bool :=
  saturating_sub now (dp_last_poll poll) <=? U2F_POLL_TIMEOUT_MS.

(** The first denial of this request is refreshed. *)
Fixpoint refresh_denial (channel : Z) (message : bytes) (now : Z) (polls : list DeniedPoll)
    : list DeniedPoll :=
  match polls with
  | [] => []
  | poll :: rest =>
      if denial_matches channel message poll then MkDenied (dp_channel poll) (dp_request poll) now :: rest
      else poll :: refresh_denial channel message now rest
  end.

(** A MSG that repeats a denied request is denied; too many denials refuse new
    presence requests.  [None]: the message goes on to the app. *)
Definition denied_answer (channel now : Z) (h : CtaphidHost) : CtaphidHost * option CtaphidHost :=
  if is_some_and (List.find (denial_matches channel (ch_message h)) (ch_denied_polls h))
       (denial_live now)
  then
    let h := set_ch_denied_polls (refresh_denial channel (ch_message h) now (ch_denied_polls h)) h in
    (h, Some (enqueue_message channel Msg not_satisfied (set_ch_state Idle h)))
  else
    let h := set_ch_denied_polls (List.filter (denial_live now) (ch_denied_polls h)) h in
    if requests_presence (ch_message h) && (MAX_CHANNELS <=? length (ch_denied_polls h))%nat
    then (h, Some (finish_error channel ChannelBusy h))
    else (h, None).

(** The request is complete and waits for the app. *)
Definition start_processing (channel : Z) (command : Command) (now : Z) (h : CtaphidHost)
    : CtaphidHost :=
  set_ch_state (Processing (MkProcessing channel command now (Some (ch_message h)) now StatusProcessing))
    (set_ch_u2f None h).

Definition complete_msg (channel now : Z) (h : CtaphidHost) : CtaphidHost :=
  match poll_answer channel now h with
  | (_, Some answered) => answered
  | (h, None) =>
      match denied_answer channel now h with
      | (_, Some answered) => answered
      | (h, None) => start_processing channel Msg now h
      end
  end.

Definition complete_message (channel : Z) (command : Command) (now : Z) (h : CtaphidHost)
    : CtaphidHost :=
  match command with
  | Wink => complete_wink channel now h
  | Lock => complete_lock channel now h
  | Msg => complete_msg channel now h
  | Ping => enqueue_message channel Ping (ch_message h) (set_ch_state Idle h)
  | _ => start_processing channel command now h
  end.

(** A request the transaction under way does not allow. *)
Definition request_conflicts (channel : Z) (command : option Command) (h : CtaphidHost) : bool :=
  match busy_channel h with
  | None => false
  | Some busy =>
      negb (busy =? channel)
      || match ch_state h with
         | Processing _ | Identifying _ _ _ | Transmitting _ _ => true
         | Idle => negb (bool_decide (command = Some Msg))
         | Receiving _ _ _ _ _ => false
         end
  end.

Definition length_refused (command : Command) (len : Z) : bool :=
  (MAX_MESSAGE_SIZE <? len)
  || ((bool_decide (command = Cbor) || bool_decide (command = Msg)) && (len =? 0))
  || (bool_decide (command = Lock) && negb (len =? 1))
  || (bool_decide (command = Wink) && negb (len =? 0)).

Definition is_served (command : Command) : bool :=
  match command with Ping | Cbor | Msg | Lock | Wink => true | _ => false end.

(** The first packet of a request that may be served. *)
Definition begin_request (channel : Z) (command : Command) (len : Z) (data : bytes) (now : Z)
    (h : CtaphidHost) : CtaphidHost :=
  let h := set_ch_message (take (Z.to_nat (Z.min len (Z.of_nat INIT_DATA))) data) h in
  if len <=? Z.of_nat INIT_DATA then complete_message channel command now h
  else set_ch_state (Receiving channel command len 0 now) h.

Definition handle_request (channel : Z) (command : option Command) (len : Z) (data : bytes) (now : Z)
    (h : CtaphidHost) : CtaphidHost :=
  if lease_conflicts channel h then enqueue_error channel ChannelBusy h
  else if request_conflicts channel command h then enqueue_error channel ChannelBusy h
  else
    match ch_state h with
    | Receiving _ _ _ _ _ => finish_error channel InvalidSeq h
    | _ =>
        if (channel =? 0) || (channel =? BROADCAST_CID) then finish_error channel InvalidChannel h
        else
          match command with
          | Some command =>
              if negb (is_served command) then finish_error channel InvalidCommand h
              else if length_refused command len then finish_error channel InvalidLength h
              else begin_request channel command len data now h
          | None => finish_error channel InvalidCommand h
          end
    end.

Definition handle_continuation (channel sequence : Z) (data : bytes) (now : Z) (h : CtaphidHost)
    : CtaphidHost :=
  match ch_state h with
  | Receiving receiving command len next_sequence _ =>
      if negb (receiving =? channel) then h
      else if negb (sequence =? next_sequence) then finish_error channel InvalidSeq h
      else
        let h := set_ch_state (Receiving receiving command len (next_sequence + 1) now) h in
        let missing := len - zlen (ch_message h) in
        let h := set_ch_message
                   (ch_message h ++ take (Z.to_nat (Z.min missing (Z.of_nat CONT_DATA))) data) h in
        if zlen (ch_message h) =? len then complete_message channel command now h else h
  | _ => h
  end.

Definition handle_frame (packet : bytes) (now : Z) (h : CtaphidHost) : CtaphidHost :=
  let h := expire_lease now h in
  let channel := report_channel packet in
  if negb (is_init_report packet) then
    handle_continuation channel (report_code packet) (drop 5 packet) now h
  else
    let code := Z.land (report_code packet) 0x7f in
    let len := report_length packet in
    let data := drop 7 packet in
    let h := set_ch_channels (touch channel (ch_channels h)) h in
    match command_of code with
    | Some Cancel => handle_cancel channel h
    | Some Init => handle_init channel len data h
    | command => handle_request channel command len data now h
    end.

(** ** Time *)

Definition expire_identification (now : Z) (h : CtaphidHost) : CtaphidHost :=
  match ch_state h with
  | Identifying channel request _ =>
      if ir_deadline request <=? now then finish_error channel Other h else h
  | _ => h
  end.

Definition expire_poll (now : Z) (h : CtaphidHost) : CtaphidHost :=
  match ch_u2f h with
  | Some poll =>
      if poll_deadline poll <=? now then
        set_ch_u2f None (if is_some (up_answer poll) then h else set_ch_interrupt_app true h)
      else h
  | None => h
  end.

(** A MSG that has waited for the user long enough is told to poll. *)
Definition answer_waiting_msg (now : Z) (h : CtaphidHost) : CtaphidHost :=
  match ch_state h, ch_u2f h with
  | Processing p, Some poll =>
      if awaits_msg (ch_state h) && up_presence_started poll
         && (U2F_RESPONSE_WAIT_MS <=? saturating_sub now (up_started poll))
      then enqueue_message (pr_channel p) Msg not_satisfied (set_ch_state Idle h)
      else h
  | _, _ => h
  end.

Definition expire_receiving (now : Z) (h : CtaphidHost) : CtaphidHost :=
  match ch_state h with
  | Receiving channel _ _ _ last_packet_at =>
      if last_packet_at + CONTINUATION_TIMEOUT_MS <=? now then finish_error channel Timeout h else h
  | _ => h
  end.

Definition handle_timeout (now : Z) (h : CtaphidHost) : CtaphidHost :=
  let h := expire_lease now h in
  let h := expire_identification now h in
  let h := set_ch_denied_polls (List.filter (denial_live now) (ch_denied_polls h)) h in
  let h := expire_poll now h in
  let h := answer_waiting_msg now h in
  expire_receiving now h.

Definition send_keepalive (waiting_for_user : bool) (now : Z) (h : CtaphidHost)
    : CtaphidHost * bool :=
  match ch_state h with
  | Processing p =>
      let status := if waiting_for_user && negb (is_some (pr_request p)) then UpNeeded
                    else StatusProcessing in
      if bool_decide (status = pr_keepalive_status p)
         && (now <? pr_keepalive_at p + KEEPALIVE_INTERVAL_MS)
      then (h, false)
      else
        let h := set_ch_state (Processing (MkProcessing (pr_channel p) (pr_command p) (pr_started p)
                                             (pr_request p) now status)) h in
        (fst (queue_frame (init_report (pr_channel p) KeepAlive 1 [keepalive_code status]) h), true)
  | _ => (h, false)
  end.

Definition poll_due (s : State) (poll : U2fPoll) : Z :=
  if negb (is_some (up_answer poll)) && up_presence_started poll && awaits_msg s
  then Z.min (u64_saturating_add (up_started poll) U2F_RESPONSE_WAIT_MS) (poll_deadline poll)
  else poll_deadline poll.

Definition transaction_due (s : State) : option Z :=
  match s with
  | Idle | Transmitting _ _ => None
  | Receiving _ _ _ _ last_packet_at => Some (last_packet_at + CONTINUATION_TIMEOUT_MS)
  | Processing p => Some (pr_keepalive_at p + KEEPALIVE_INTERVAL_MS)
  | Identifying _ request _ => Some (ir_deadline request)
  end.

(** [Iterator::min] over the deadlines there are. *)
Definition earliest (a b : option Z) : option Z :=
  match a, b with
  | Some x, Some y => Some (Z.min x y)
  | Some x, None => Some x
  | None, _ => b
  end.

Definition next_deadline (h : CtaphidHost) : option Z :=
  earliest (transaction_due (ch_state h))
    (earliest (option_map (poll_due (ch_state h)) (ch_u2f h)) (option_map snd (ch_lease h))).

(** ** The app and the identifier *)

Definition set_presence_started (poll : U2fPoll) : U2fPoll :=
  MkPoll (up_channel poll) (up_request poll) (up_last_poll poll) (up_started poll) true
    (up_presence_finished poll) (up_answer poll).

Definition set_presence_finished (at_ : Z) (poll : U2fPoll) : U2fPoll :=
  MkPoll (up_channel poll) (up_request poll) (up_last_poll poll) (up_started poll)
    (up_presence_started poll) (Some at_) (up_answer poll).

Definition set_answer (reply : bytes) (expires : Z) (poll : U2fPoll) : U2fPoll :=
  MkPoll (up_channel poll) (up_request poll) (up_last_poll poll) (up_started poll)
    (up_presence_started poll) (up_presence_finished poll) (Some (reply, expires)).

Definition app_presence (waiting : bool) (h : CtaphidHost) : CtaphidHost :=
  if waiting && bool_decide (ch_app_command h = Some Msg)
  then set_ch_u2f (option_map set_presence_started (ch_u2f h)) h else h.

Definition app_presence_finished (at_ : Z) (h : CtaphidHost) : CtaphidHost :=
  if bool_decide (ch_app_command h = Some Msg)
  then set_ch_u2f (option_map (set_presence_finished at_) (ch_u2f h)) h else h.

Definition reset_u2f (h : CtaphidHost) : CtaphidHost := set_ch_denied_polls [] (set_ch_u2f None h).

Definition set_u2f_enabled (enabled : bool) (h : CtaphidHost) : CtaphidHost :=
  if enabled then h else reset_u2f h.

Definition take_identification_request (h : CtaphidHost)
    : CtaphidHost * option IdentificationRequest :=
  match ch_state h with
  | Identifying channel request submitted =>
      if submitted then (h, None)
      else (set_ch_state (Identifying channel request true) h, Some request)
  | _ => (h, None)
  end.

Definition identification_response (token : Z) (delivered : bool) (now : Z) (h : CtaphidHost)
    : CtaphidHost :=
  match ch_state h with
  | Identifying channel request _ =>
      if negb (ir_token request =? token) then h
      else if delivered && (now <? ir_deadline request) then enqueue_message channel Wink [] h
      else finish_error channel Other h
  | _ => h
  end.

Definition set_taken (p : ProcessingState) : ProcessingState :=
  MkProcessing (pr_channel p) (pr_command p) (pr_started p) None (pr_keepalive_at p)
    (pr_keepalive_status p).

Definition take_app_request (h : CtaphidHost) : CtaphidHost * option AppRequest :=
  if ch_app_busy h then (h, None)
  else
    match ch_state h with
    | Processing p =>
        match pr_request p with
        | None => (h, None)
        | Some payload =>
            let h := set_ch_state (Processing (set_taken p)) h in
            let h := if bool_decide (pr_command p = Msg) && requests_presence payload
                     then set_ch_u2f (Some (MkPoll (pr_channel p) payload (pr_started p)
                                              (pr_started p) false None None)) h
                     else h in
            (set_ch_app_command (Some (pr_command p)) (set_ch_app_busy true h),
             Some {| ar_command := pr_command p; ar_payload := payload |})
        end
    | _ => (h, None)
    end.

Definition take_interrupt (h : CtaphidHost) : CtaphidHost * bool :=
  (set_ch_interrupt_app false h, ch_interrupt_app h).

(** The last two bytes. *)
Definition status_word (response : bytes) : bytes := drop (length response - 2) response.

(** The answer to the request being processed; one to an aborted transaction is
    discarded. *)
Definition deliver_response (response : bytes) (h : CtaphidHost) : CtaphidHost :=
  match ch_state h with
  | Processing p =>
      if is_some (pr_request p) then h
      else enqueue_message (pr_channel p) (pr_command p) response (set_ch_state Idle h)
  | _ => h
  end.

(** The answer of a U2F operation that polls may be waiting for.  [None]: it is
    delivered like any other. *)
Definition poll_response (poll : U2fPoll) (response : bytes) (now : Z) (presence_finished : option Z)
    (h : CtaphidHost) : CtaphidHost * option CtaphidHost :=
  let direct := awaits_msg (ch_state h) in
  let late := direct && is_some presence_finished
              && (U2F_RESPONSE_WAIT_MS <? saturating_sub now (up_started poll)) in
  let defer (h : CtaphidHost) :=
    if late then enqueue_message (up_channel poll) Msg not_satisfied (set_ch_state Idle h) else h in
  if bytes_eqb (status_word response) not_satisfied then
    (set_ch_denied_polls
       (ch_denied_polls h ++ [MkDenied (up_channel poll) (up_request poll) (up_last_poll poll)]) h, None)
  else if (negb direct || late) then
    match presence_finished with
    | Some at_ =>
        let expires := u64_saturating_add at_ U2F_APPROVAL_MS in
        if now <=? expires
        then (h, Some (set_ch_u2f (Some (set_answer response expires poll)) (defer h)))
        else (h, Some (defer h))
    | None => (h, Some (defer h))
    end
  else (h, None).

Definition app_response (response : bytes) (now : Z) (presence_finished : option Z) (h : CtaphidHost)
    : CtaphidHost :=
  let command := ch_app_command h in
  let h := set_ch_app_command None (set_ch_app_busy false h) in
  match command, ch_u2f h with
  | Some Msg, Some poll =>
      match poll_response poll response now presence_finished (set_ch_u2f None h) with
      | (_, Some answered) => answered
      | (h, None) => deliver_response response h
      end
  | _, _ => deliver_response response h
  end.
