(* ===== verification/HidHostInv.v ===== *)
(** * The invariant of the CTAPHID state machine

    What the transport may do to the state machine as events, what queueing a
    message does, and the invariant every event keeps. *)

From Stdlib Require Import Sorted.
From stdpp Require Import sets.
From S2P Require Import Prelude Constants U2f Ctaphid HidHost.

(** ** Events: everything the transport does to the state machine *)

Inductive host_event : Type :=
| EFrame (packet : bytes) (now : Z)
| ETimeout (now : Z)
| EKeepalive (waiting : bool) (now : Z)
| EPresence (waiting : bool)
| EPresenceFinished (at_ : Z)
| EU2fEnabled (enabled : bool)
| EResetU2f
| ETakeIdentification
| EIdentified (token : Z) (delivered : bool) (now : Z)
| ETakeRequest
| ETakeInterrupt
| EResponse (response : bytes) (now : Z) (presence_finished : option Z)
| EWritten (frame : OutgoingFrame).

Definition host_step (e : host_event) (h : CtaphidHost) : CtaphidHost :=
  match e with
  | EFrame packet now => handle_frame packet now h
  | ETimeout now => handle_timeout now h
  | EKeepalive waiting now => fst (send_keepalive waiting now h)
  | EPresence waiting => app_presence waiting h
  | EPresenceFinished at_ => app_presence_finished at_ h
  | EU2fEnabled enabled => set_u2f_enabled enabled h
  | EResetU2f => reset_u2f h
  | ETakeIdentification => fst (take_identification_request h)
  | EIdentified token delivered now => identification_response token delivered now h
  | ETakeRequest => fst (take_app_request h)
  | ETakeInterrupt => fst (take_interrupt h)
  | EResponse response now finished => app_response response now finished h
  | EWritten frame => fst (outgoing_frame_written frame h)
  end.

Definition host_run (events : list host_event) (h : CtaphidHost) : CtaphidHost :=
  fold_left (fun h e => host_step e h) events h.

(** A report is an array of 64 bytes. *)
Definition event_ok (e : host_event) : Prop :=
  match e with
  | EFrame packet _ => length packet = CTAPHID_FRAME_LEN /\ bytes_ok packet
  | _ => True
  end.

(** ** Queueing *)

Fixpoint stamp (next : Z) (frames : list bytes) : list OutgoingFrame :=
  match frames with
  | [] => []
  | frame :: rest => MkFrame frame next :: stamp (next + 1) rest
  end.

(** [frames] queued behind what is pending. *)
Definition appended (frames : list bytes) (h : CtaphidHost) : CtaphidHost :=
  set_ch_pending (ch_pending h ++ stamp (ch_next_token h) frames)
    (set_ch_next_token (ch_next_token h + zlen frames) h).

Definition sent_frames (channel : Z) (command : Command) (payload : bytes) : list bytes :=
  if zlen payload <=? MAX_MESSAGE_SIZE then message_reports channel command payload
  else message_reports channel Error [error_code Other].

Lemma queue_frames_appended frames final h :
  queue_frames frames final h =
  (appended frames h, match frames with [] => final | _ => ch_next_token h + zlen frames - 1 end).
Proof.
  revert final h. induction frames as [|frame rest IH]; intros final h.
  - unfold appended. simpl. rewrite app_nil_r, Z.add_0_r. by destruct h.
  - cbn [queue_frames queue_frame]. rewrite IH. unfold appended, zlen. cbn [length].
    rewrite Nat2Z.inj_succ, <- Z.add_1_l, Z.add_assoc. unfold set_ch_pending, set_ch_next_token. cbn.
    rewrite <- app_assoc.
    f_equal. destruct rest; simpl; lia.
Qed.

Lemma queue_message_appended channel command payload h :
  queue_message channel command payload h =
  (appended (sent_frames channel command payload) h,
   ch_next_token h + zlen (sent_frames channel command payload) - 1).
Proof.
  unfold queue_message, sent_frames. destruct (_ <=? _); rewrite queue_frames_appended; reflexivity.
Qed.

Lemma enqueue_message_appended channel command payload h :
  enqueue_message channel command payload h =
  set_ch_state (Transmitting channel
    (ch_next_token h + zlen (sent_frames channel command payload) - 1))
    (appended (sent_frames channel command payload) h).
Proof. unfold enqueue_message. by rewrite queue_message_appended. Qed.

Lemma enqueue_error_appended channel code h :
  enqueue_error channel code h = appended (sent_frames channel Error [error_code code]) h.
Proof. unfold enqueue_error. by rewrite queue_message_appended. Qed.

Lemma stamp_app next a b : stamp next (a ++ b) = stamp next a ++ stamp (next + zlen a) b.
Proof.
  revert next. induction a as [|x a IH]; intros next; unfold zlen in *; simpl.
  - by rewrite Z.add_0_r.
  - rewrite IH. do 3 f_equal. lia.
Qed.

Lemma stamp_tokens next frames f : f ∈ stamp next frames -> next <= of_token f < next + zlen frames.
Proof.
  revert next. induction frames as [|x frames IH]; intros next; unfold zlen in *; simpl; [set_solver|].
  intros [->|Hf]%elem_of_cons; [simpl; lia|]. apply IH in Hf. lia.
Qed.

(** ** The reports of a message *)

Lemma chunks_within_length {A} fuel n (l : list A) :
  Forall (fun c => (length c <= n)%nat) (chunks_within fuel n l).
Proof.
  revert l. induction fuel as [|fuel IH]; intros [|x l]; simpl; try done.
  constructor; [rewrite length_take; lia|apply IH].
Qed.

Lemma report_length_64 content :
  (length content <= CTAPHID_FRAME_LEN)%nat -> length (report content) = CTAPHID_FRAME_LEN.
Proof. intros Hl. unfold report. rewrite length_app, repeat_length. lia. Qed.

Lemma take_report n content : (n <= length content)%nat -> take n (report content) = take n content.
Proof. intros Hl. unfold report. by rewrite take_app_le. Qed.

(** A report is 64 bytes and starts with the channel. *)
Definition report_on (channel : Z) (frame : bytes) : Prop :=
  length frame = CTAPHID_FRAME_LEN /\ take 4 frame = be_bytes 4 channel.

Lemma init_report_on channel command len data :
  (length data <= INIT_DATA)%nat -> report_on channel (init_report channel command len data).
Proof.
  intros Hl. unfold init_report. split.
  - apply report_length_64. simpl. autorewrite with ctap. simpl. unfold INIT_DATA, CTAPHID_FRAME_LEN in *. lia.
  - rewrite take_report by (rewrite length_app, be_bytes_length; lia).
    apply take_app_length'. by rewrite be_bytes_length.
Qed.

Lemma cont_report_on channel sequence chunk :
  (length chunk <= CONT_DATA)%nat -> report_on channel (cont_report channel sequence chunk).
Proof.
  intros Hl. unfold cont_report. split.
  - apply report_length_64. simpl. autorewrite with ctap. simpl. unfold CONT_DATA, CTAPHID_FRAME_LEN in *. lia.
  - rewrite take_report by (rewrite length_app, be_bytes_length; lia).
    apply take_app_length'. by rewrite be_bytes_length.
Qed.

Lemma cont_reports_on channel from data :
  Forall (fun c => (length c <= CONT_DATA)%nat) data ->
  Forall (report_on channel) (cont_reports channel from data).
Proof.
  intros Hd. revert from. induction Hd as [|c data Hc Hd IH]; intros from; simpl; constructor; auto.
  by apply cont_report_on.
Qed.

Lemma sent_frames_on channel command payload :
  Forall (report_on channel) (sent_frames channel command payload).
Proof.
  assert (H : forall c p, Forall (report_on channel) (message_reports channel c p)).
  { intros c p. constructor; [apply init_report_on; rewrite length_take; lia|].
    apply cont_reports_on. apply Forall_take, chunks_within_length. }
  unfold sent_frames. by destruct (_ <=? _).
Qed.

Lemma sent_frames_nonempty channel command payload :
  exists frame rest, sent_frames channel command payload = frame :: rest.
Proof. unfold sent_frames, message_reports. destruct (_ <=? _); eauto. Qed.

(** ** The invariant *)

(** Pending reports are whole and in the order of their tokens. *)
Definition queue_ok (pending : list OutgoingFrame) (next : Z) : Prop :=
  StronglySorted (fun f g => of_token f < of_token g) pending /\
  Forall (fun f => of_token f < next /\ length (of_frame f) = CTAPHID_FRAME_LEN) pending.

(** What is remembered of U2F fits what the app is doing. *)
Definition u2f_ok (u2f : option U2fPoll) (busy : bool) (command : option Command) (denied : nat) : Prop :=
  match u2f with
  | None => True
  | Some poll =>
      match up_answer poll with
      | Some _ => busy = false
      | None => command = Some Msg /\ (denied < MAX_CHANNELS)%nat
      end
  end.

(** What holds whatever the transaction's state. *)
Record base_ok (h : CtaphidHost) : Prop := {
  bo_channels : channels_ok (ch_channels h);
  bo_rng : forall n, 0 <= ch_rng h n <= BROADCAST_CID;
  bo_queue : queue_ok (ch_pending h) (ch_next_token h);
  bo_message : zlen (ch_message h) <= MAX_MESSAGE_SIZE;
  bo_app : ch_app_busy h = is_some (ch_app_command h);
  bo_u2f : u2f_ok (ch_u2f h) (ch_app_busy h) (ch_app_command h) (length (ch_denied_polls h));
  bo_denied : (length (ch_denied_polls h) <= MAX_CHANNELS)%nat
}.

(** What the transaction's state says of the rest. *)
Definition state_ok (h : CtaphidHost) : Prop :=
  match ch_state h with
  | Idle | Identifying _ _ _ => True
  | Receiving channel command len next_sequence _ =>
      0 < channel < BROADCAST_CID /\ (command = Ping \/ command = Cbor \/ command = Msg) /\
      0 <= next_sequence <= 127 /\ len <= MAX_MESSAGE_SIZE /\ zlen (ch_message h) < len /\
      zlen (ch_message h) = Z.of_nat INIT_DATA + Z.of_nat CONT_DATA * next_sequence
  | Processing p =>
      (pr_command p = Cbor \/ pr_command p = Msg) /\
      match pr_request p with
      | Some payload =>
          ch_u2f h = None /\ 0 < zlen payload <= MAX_MESSAGE_SIZE /\
          (pr_command p = Msg -> requests_presence payload = true ->
           (length (ch_denied_polls h) < MAX_CHANNELS)%nat)
      | None => ch_app_command h = Some (pr_command p)
      end
  | Transmitting channel final_frame =>
      exists f, f ∈ ch_pending h /\ of_token f = final_frame /\ take 4 (of_frame f) = be_bytes 4 channel
  end.

Definition host_ok (h : CtaphidHost) : Prop := base_ok h /\ state_ok h.

(** ** Queueing keeps it *)

Lemma stamp_queue_ok next frames :
  Forall (fun f => length f = CTAPHID_FRAME_LEN) frames ->
  queue_ok (stamp next frames) (next + zlen frames).
Proof.
  intros Hf. split.
  - revert next. induction frames as [|x frames IH]; intros next; simpl; constructor.
    + apply IH. by inversion Hf.
    + apply Forall_forall. intros g Hg%stamp_tokens. simpl. lia.
  - apply Forall_forall. intros g Hg. split; [apply stamp_tokens in Hg; lia|].
    revert next Hg. induction Hf as [|x frames Hx Hf IH]; intros next; simpl; [set_solver|].
    intros [->|Hg]%elem_of_cons; [done|]. by eapply IH.
Qed.

Lemma queue_ok_app pending next frames :
  queue_ok pending next -> Forall (fun f => length f = CTAPHID_FRAME_LEN) frames ->
  queue_ok (pending ++ stamp next frames) (next + zlen frames).
Proof.
  intros [Hs Hb] Hf. destruct (stamp_queue_ok next frames Hf) as [Hs' Hb']. split.
  - induction Hs as [|f pending Hs IH Hall]; [done|]. simpl. inversion Hb as [|? ? Hlt Hb1]; subst.
    constructor; [by apply IH|]. apply Forall_app. split; [done|].
    apply Forall_forall. intros g Hg%stamp_tokens. lia.
  - apply Forall_app. split; [|done]. eapply Forall_impl; [exact Hb|]. simpl. intros f []. split; [|done].
    unfold zlen. lia.
Qed.

Lemma base_appended frames h :
  base_ok h -> Forall (fun f => length f = CTAPHID_FRAME_LEN) frames -> base_ok (appended frames h).
Proof. intros [] Hf. split; try done. by apply queue_ok_app. Qed.

Lemma state_appended frames h : state_ok h -> state_ok (appended frames h).
Proof.
  unfold state_ok. simpl. destruct (ch_state h); try done. intros (f & Hf & Hr). exists f.
  split; [|done]. apply elem_of_app. by left.
Qed.

Lemma sent_frames_64 channel command payload :
  Forall (fun f => length f = CTAPHID_FRAME_LEN) (sent_frames channel command payload).
Proof. eapply Forall_impl; [apply sent_frames_on|]. by intros f []. Qed.

Lemma ok_error channel code h : host_ok h -> host_ok (enqueue_error channel code h).
Proof.
  intros [Hb Hs]. rewrite enqueue_error_appended. split; [|by apply state_appended].
  apply base_appended; [done|apply sent_frames_64].
Qed.

Lemma ok_enqueue channel command payload h :
  base_ok h -> host_ok (enqueue_message channel command payload h).
Proof.
  intros Hb. rewrite enqueue_message_appended.
  pose proof (base_appended (sent_frames channel command payload) h Hb (sent_frames_64 _ _ _)) as [].
  split; [by split|]. unfold state_ok, appended. cbn [ch_state set_ch_state ch_pending set_ch_pending].
  destruct (sent_frames_nonempty channel command payload) as (x & rest & E).
  pose proof (sent_frames_on channel command payload) as Hon. rewrite E in *.
  destruct (exists_last (l := x :: rest) ltac:(done)) as (l & y & El). rewrite El in *.
  exists (MkFrame y (ch_next_token h + zlen l)). split_and!.
  - rewrite stamp_app. apply elem_of_app. right. apply elem_of_app. right. simpl. by left.
  - simpl. unfold zlen. rewrite length_app. simpl. lia.
  - apply Forall_app in Hon as [_ Hy]. by inversion Hy as [|? ? []].
Qed.

Lemma ok_finish channel code h : base_ok h -> host_ok (finish_error channel code h).
Proof. apply ok_enqueue. Qed.

(** ** Every operation keeps it *)

Create HintDb host.
#[local] Hint Resolve ok_error ok_enqueue ok_finish : host.

(** Changes of one field that keep the base. *)
Lemma base_state s h : base_ok h -> base_ok (set_ch_state s h).
Proof. by intros []. Qed.

Lemma base_lease l h : base_ok h -> base_ok (set_ch_lease l h).
Proof. by intros []. Qed.

Lemma base_interrupt b h : base_ok h -> base_ok (set_ch_interrupt_app b h).
Proof. by intros []. Qed.

Lemma base_no_u2f h : base_ok h -> base_ok (set_ch_u2f None h).
Proof. by intros []. Qed.

Lemma base_message m h : base_ok h -> zlen m <= MAX_MESSAGE_SIZE -> base_ok (set_ch_message m h).
Proof. by intros []. Qed.

Lemma base_identification n h : base_ok h -> base_ok (set_ch_next_identification n h).
Proof. by intros []. Qed.

Lemma u2f_ok_fewer u2f busy command n m : (m <= n)%nat -> u2f_ok u2f busy command n -> u2f_ok u2f busy command m.
Proof. unfold u2f_ok. destruct u2f as [p|]; [|done]. destruct (up_answer p); [done|]. intros ? []. split; [done|lia]. Qed.

Lemma base_denied polls h :
  base_ok h -> (length polls <= length (ch_denied_polls h))%nat -> base_ok (set_ch_denied_polls polls h).
Proof.
  intros [] Hl. split; try done; simpl; [by eapply u2f_ok_fewer|lia].
Qed.

(** The same poll with other times. *)
Lemma base_poll f h :
  base_ok h -> (forall poll, up_answer (f poll) = up_answer poll) ->
  base_ok (set_ch_u2f (option_map f (ch_u2f h)) h).
Proof.
  intros [] Hf. split; try done. simpl. unfold u2f_ok in *. destruct (ch_u2f h); [|done]. simpl. by rewrite Hf.
Qed.

#[local] Hint Resolve base_state base_lease base_interrupt base_no_u2f base_message
  base_identification base_denied : host.
#[local] Hint Extern 1 (base_ok _) => match goal with H : host_ok _ |- _ => exact (proj1 H) end : host.

Lemma ok_expire_lease now h : host_ok h -> host_ok (expire_lease now h).
Proof. unfold expire_lease. intros [Hb Hs]. destruct (is_some_and _ _); [|done]. by split; [apply base_lease|]. Qed.

Lemma ok_cancel channel h : host_ok h -> host_ok (handle_cancel channel h).
Proof.
  intros Hh. unfold handle_cancel. destruct (ch_state h) eqn:E; try done.
  destruct (_ || _); [done|]. destruct (is_some _); [auto with host|].
  destruct Hh as [Hb Hs]. split; [auto with host|done].
Qed.

Lemma ok_touch channel h : host_ok h -> host_ok (set_ch_channels (touch channel (ch_channels h)) h).
Proof. intros [[] Hs]. split; [|done]. split; try done. by apply touch_ok. Qed.

Lemma ok_allocate attempts h h' r :
  host_ok h -> allocate_channel attempts h = (h', r) -> host_ok h'.
Proof.
  revert h. induction attempts as [|n IH]; intros h Hh; simpl; [by intros [= <- <-]|].
  assert (Hd : host_ok (set_ch_rng_draws (S (ch_rng_draws h)) h)) by (by destruct Hh as [[] ?]).
  destruct (_ || _) eqn:Er; [by apply IH|]. bool_hyps.
  destruct (insert_channel _ _) as [ids|] eqn:Ei; [|by apply IH]. intros [= <- <-].
  destruct Hd as [[] Hs]. split; [|done]. split; try done.
  eapply insert_channel_ok; [done| |exact Ei]. pose proof (bo_rng0 (ch_rng_draws h)). simpl in *. lia.
Qed.

Lemma queue_ok_filter p pending next : queue_ok pending next -> queue_ok (List.filter p pending) next.
Proof.
  intros [Hs Hb]. split.
  - induction Hs as [|f pending Hs IH Hall]; simpl; [constructor|]. inversion Hb; subst.
    destruct (p f); [|by apply IH]. constructor; [by apply IH|].
    apply Forall_forall. intros g [Hg _]%list_elem_of_In%List.filter_In. eapply Forall_forall in Hall; [done|].
    by apply list_elem_of_In.
  - apply Forall_forall. intros g [Hg _]%list_elem_of_In%List.filter_In. eapply Forall_forall in Hb; [done|].
    by apply list_elem_of_In.
Qed.

Lemma base_resynchronise channel h : base_ok h -> base_ok (resynchronise channel h).
Proof.
  intros Hb. unfold resynchronise. cbv zeta. apply base_state.
  set (h1 := set_ch_message [] _). assert (H1 : base_ok h1).
  { destruct Hb. split; try done. by apply queue_ok_filter. }
  set (h2 := match ch_u2f h1 with Some _ => _ | None => _ end). assert (H2 : base_ok h2).
  { unfold h2. destruct (ch_u2f h1); [|done]. destruct (_ =? _); [|done]. destruct (is_some _); auto with host. }
  set (h3 := set_ch_denied_polls _ h2).
  assert (H3 : base_ok h3) by (apply base_denied; [done|apply List.filter_length_le]).
  destruct (ch_state h3); try done. destruct (is_some _); auto with host.
Qed.

Lemma ok_init channel len data h : host_ok h -> host_ok (handle_init channel len data h).
Proof.
  intros Hh. unfold handle_init. destruct (lease_conflicts _ _); [auto with host|].
  destruct (is_some_and _ _); [auto with host|]. destruct (negb (len =? 8)); [destruct (is_some _); auto with host|].
  assert (Hi : forall h' r, init_channel channel (negb (is_idle (ch_state h))) h = (h', r) -> host_ok h').
  { unfold init_channel. intros h' r. destruct (_ =? _).
    - destruct (allocate_channel _ h) as [h1 o] eqn:Ea. intros [= <- _]. by eapply ok_allocate.
    - destruct (_ && _); by intros [= <- _]. }
  destruct (init_channel _ _ h) as [h' [assigned|code]]; specialize (Hi _ _ eq_refl).
  - apply ok_enqueue, base_resynchronise. auto with host.
  - destruct (negb _); auto with host.
Qed.

Lemma ok_start channel command now h :
  base_ok h -> (command = Cbor \/ command = Msg) -> 0 < zlen (ch_message h) ->
  (command = Msg -> requests_presence (ch_message h) = true ->
   (length (ch_denied_polls h) < MAX_CHANNELS)%nat) ->
  host_ok (start_processing channel command now h).
Proof.
  intros Hb Hc Hm Hd. split; [unfold start_processing; auto with host|].
  destruct Hb. by repeat split.
Qed.

Lemma refresh_denial_length channel message now polls :
  length (refresh_denial channel message now polls) = length polls.
Proof. induction polls as [|p polls IH]; simpl; [done|]. destruct (denial_matches _ _ _); simpl; congruence. Qed.

Lemma poll_answer_base channel now h h' :
  base_ok h -> poll_answer channel now h = (h', None) ->
  base_ok h' /\ ch_message h' = ch_message h /\ ch_denied_polls h' = ch_denied_polls h.
Proof.
  intros Hb. unfold poll_answer. destruct (ch_u2f h) as [poll|] eqn:Eu; [|by intros [= <-]].
  destruct (_ && _); [|destruct (is_some _); by intros [= <-]].
  destruct (up_answer poll) as [[reply expires]|] eqn:Ea; [|done]. destruct (expires <? now); [|done].
  intros [= <-]. split; [|done]. pose proof (base_poll (set_last_poll now) h Hb (fun _ => eq_refl)) as Hp.
  by rewrite Eu in Hp.
Qed.

Lemma poll_answer_ok channel now h h' answered :
  base_ok h -> poll_answer channel now h = (h', Some answered) -> host_ok answered.
Proof.
  intros Hb. unfold poll_answer. destruct (ch_u2f h) as [poll|] eqn:Eu; [|done].
  pose proof (base_poll (set_last_poll now) h Hb (fun _ => eq_refl)) as Hp. rewrite Eu in Hp.
  destruct (_ && _); [|destruct (is_some _); [done|]; intros [= _ <-]; by apply ok_finish].
  destruct (up_answer poll) as [[reply expires]|] eqn:Ea.
  - destruct (expires <? now); [done|]. intros [= _ <-]. auto with host.
  - intros [= _ <-]. auto with host.
Qed.

Lemma ok_msg channel now h : base_ok h -> 0 < zlen (ch_message h) -> host_ok (complete_msg channel now h).
Proof.
  intros Hb Hm. unfold complete_msg. destruct (poll_answer channel now h) as [h1 [answered|]] eqn:Ep.
  { by eapply poll_answer_ok. }
  apply poll_answer_base in Ep as (Hb1 & Em & _); [|done]. rewrite <- Em in Hm. clear h Hb Em.
  unfold denied_answer. destruct (is_some_and _ _).
  { apply ok_enqueue, base_state, base_denied; [done|]. by rewrite refresh_denial_length. }
  set (h2 := set_ch_denied_polls _ h1).
  assert (Hb2 : base_ok h2) by (apply base_denied; [done|apply List.filter_length_le]).
  destruct (_ && _) eqn:Eg; [by apply ok_finish|].
  apply ok_start; [done|by right|done|]. intros _ Hr. rewrite Hr in Eg. by apply Nat.leb_gt in Eg.
Qed.

Lemma ok_complete channel command now h :
  base_ok h -> is_served command = true -> (command = Cbor \/ command = Msg -> 0 < zlen (ch_message h)) ->
  host_ok (complete_message channel command now h).
Proof.
  intros Hb Hc Hm. destruct command; try done; simpl.
  - auto with host.
  - apply ok_msg; auto.
  - unfold complete_lock. destruct (10 <? _); auto with host.
  - unfold complete_wink. split; [auto with host|done].
  - apply ok_start; auto. by intros.
Qed.

Lemma length_allowed command len :
  length_refused command len = false ->
  len <= MAX_MESSAGE_SIZE /\ (command = Cbor \/ command = Msg -> len <> 0) /\
  (command = Lock -> len = 1) /\ (command = Wink -> len = 0).
Proof.
  unfold length_refused. rewrite !orb_false_iff. intros (((H1 & H2) & H3) & H4).
  split_and!; [bool_hyps; lia|..].
  - intros [->| ->] ->; discriminate H2.
  - intros ->. destruct (Z.eqb_spec len 1); [done|discriminate H3].
  - intros ->. destruct (Z.eqb_spec len 0); [done|discriminate H4].
Qed.

Lemma ok_begin channel command len data now h :
  base_ok h -> 0 < channel < BROADCAST_CID -> is_served command = true ->
  length_refused command len = false -> 0 <= len -> length data = INIT_DATA ->
  host_ok (begin_request channel command len data now h).
Proof.
  intros Hb Hch Hc Hl H0 Hd. apply length_allowed in Hl as (Hmax & Hne & Hlk & Hwk). unfold begin_request. cbv zeta.
  set (m := take _ data). assert (Hm : zlen m = Z.min len (Z.of_nat INIT_DATA)).
  { unfold m, zlen. rewrite length_take, Hd. lia. }
  assert (Hbm : base_ok (set_ch_message m h)) by (apply base_message; [done|lia]).
  destruct (Z.leb_spec len (Z.of_nat INIT_DATA)) as [Hs|Hs].
  - apply ok_complete; [done|done|]. intros Hk%Hne. simpl. lia.
  - split; [by apply base_state|]. unfold state_ok. simpl.
    assert (Hcmd : command = Ping \/ command = Cbor \/ command = Msg).
    { destruct command; try done; auto; unfold INIT_DATA in Hs; simpl in Hs; [specialize (Hlk eq_refl)|specialize (Hwk eq_refl)]; lia. }
    split_and!; [lia|lia|done|lia|lia|lia|lia|rewrite Hm; lia].
Qed.

Lemma ok_request channel command len data now h :
  host_ok h -> 0 <= channel <= BROADCAST_CID -> 0 <= len -> length data = INIT_DATA ->
  host_ok (handle_request channel command len data now h).
Proof.
  intros Hh Hch Hl Hd. unfold handle_request. destruct (lease_conflicts _ _); [auto with host|].
  destruct (request_conflicts _ _ _); [auto with host|].
  assert (Hgo : host_ok (if (channel =? 0) || (channel =? BROADCAST_CID) then finish_error channel InvalidChannel h
        else match command with
          | Some command =>
              if negb (is_served command) then finish_error channel InvalidCommand h
              else if length_refused command len then finish_error channel InvalidLength h
              else begin_request channel command len data now h
          | None => finish_error channel InvalidCommand h
          end)).
  { destruct (_ || _) eqn:Ec; [auto with host|]. bool_hyps. destruct command as [c|]; [|auto with host].
    destruct (is_served c) eqn:Es; simpl; [|auto with host].
    destruct (length_refused c len) eqn:Er; [auto with host|]. apply ok_begin; auto with host; lia. }
  destruct (ch_state h); auto with host.
Qed.

Lemma ok_continuation channel sequence data now h :
  host_ok h -> length data = CONT_DATA -> host_ok (handle_continuation channel sequence data now h).
Proof.
  intros Hh Hd. unfold handle_continuation. destruct (ch_state h) as [|receiving command len next last| | |] eqn:Es; try done.
  destruct (negb (receiving =? channel)); [done|]. destruct (negb (sequence =? next)); [auto with host|].
  destruct Hh as [Hb Hs]. unfold state_ok in Hs. rewrite Es in Hs.
  destruct Hs as (Hch & Hc & Hn & Hmax & Hlt & Hm). cbv zeta. simpl ch_message.
  set (m := ch_message h ++ _). assert (Hz : zlen m = zlen (ch_message h) + Z.min (len - zlen (ch_message h)) (Z.of_nat CONT_DATA)).
  { unfold m, zlen in *. rewrite length_app, length_take, Hd. lia. }
  assert (Hbm : base_ok (set_ch_message m (set_ch_state (Receiving receiving command len (next + 1) now) h))).
  { apply base_message; [auto with host|lia]. }
  simpl. destruct (Z.eqb_spec (zlen m) len) as [El|El].
  - apply ok_complete; [done|by destruct Hc as [->|[->| ->]]|]. simpl. lia.
  - split; [done|]. unfold state_ok. simpl. unfold MAX_MESSAGE_SIZE, INIT_DATA, CONT_DATA in *. simpl in *.
    split_and!; try done; lia.
Qed.

Lemma report_channel_range packet :
  length packet = CTAPHID_FRAME_LEN -> bytes_ok packet -> 0 <= report_channel packet <= BROADCAST_CID.
Proof.
  intros Hl Hb. unfold report_channel. pose proof (be_value_range (take 4 packet) (Forall_take _ _ _ Hb)) as Hr.
  unfold zlen in Hr. rewrite length_take, Hl in Hr. unfold BROADCAST_CID. simpl in Hr. lia.
Qed.

Lemma report_length_nonneg packet : bytes_ok packet -> 0 <= report_length packet.
Proof.
  intros Hb. unfold report_length, slice. apply be_value_range. by apply Forall_take, Forall_drop.
Qed.

Lemma ok_frame packet now h :
  host_ok h -> length packet = CTAPHID_FRAME_LEN -> bytes_ok packet -> host_ok (handle_frame packet now h).
Proof.
  intros Hh Hl Hb. unfold handle_frame. apply (ok_expire_lease now) in Hh. cbv zeta.
  destruct (negb _); [apply ok_continuation; [done|by rewrite length_drop, Hl]|].
  apply (ok_touch (report_channel packet)) in Hh.
  pose proof (report_channel_range packet Hl Hb). pose proof (report_length_nonneg packet Hb).
  assert (Hd : length (drop 7 packet) = INIT_DATA) by (by rewrite length_drop, Hl).
  destruct (command_of _) as [[]|]; auto using ok_request, ok_cancel, ok_init.
Qed.

Lemma ok_timeout now h : host_ok h -> host_ok (handle_timeout now h).
Proof.
  intros Hh. unfold handle_timeout. cbv zeta. apply (ok_expire_lease now) in Hh.
  assert (H1 : host_ok (expire_identification now (expire_lease now h))).
  { unfold expire_identification. destruct (ch_state _); try done. destruct (_ <=? now); auto with host. }
  revert H1. generalize (expire_identification now (expire_lease now h)) as a. intros a H1.
  assert (H2 : host_ok (set_ch_denied_polls (List.filter (denial_live now) (ch_denied_polls a)) a)).
  { split; [apply base_denied; [by destruct H1|apply List.filter_length_le]|]. destruct H1 as [_ Hs].
    unfold state_ok in *. simpl. destruct (ch_state a) as [| |p| |]; try done. destruct Hs as [Hc Hs]. split; [done|].
    destruct (pr_request p); [|done]. destruct Hs as (Hu & Hz & Hd). split_and!; [done|lia|lia|]. intros Hm Hr.
    eapply Nat.le_lt_trans; [apply List.filter_length_le|by apply Hd]. }
  revert H2. generalize (set_ch_denied_polls (List.filter (denial_live now) (ch_denied_polls a)) a) as b. clear a H1.
  intros b H2. assert (H3 : host_ok (expire_poll now b)).
  { unfold expire_poll. destruct (ch_u2f b) as [poll|] eqn:Eu; [|done]. destruct (_ <=? now); [|done].
    split; [destruct (is_some _); auto with host|]. destruct H2 as [_ Hs].
    unfold state_ok in *. destruct (is_some _); simpl; destruct (ch_state b) as [| |p| |]; try done;
      destruct Hs as [Hc Hs]; split; try done; destruct (pr_request p); try done; destruct Hs as [Hu ?]; by rewrite Eu in Hu. }
  revert H3. generalize (expire_poll now b) as c. clear b H2. intros c H3.
  assert (H4 : host_ok (answer_waiting_msg now c)).
  { unfold answer_waiting_msg. destruct (ch_state c); try done. destruct (ch_u2f c); try done.
    destruct (_ && _); auto with host. }
  revert H4. generalize (answer_waiting_msg now c) as d. intros d H4.
  unfold expire_receiving. destruct (ch_state d); try done. destruct (_ <=? now); auto with host.
Qed.

Lemma ok_keepalive waiting now h : host_ok h -> host_ok (fst (send_keepalive waiting now h)).
Proof.
  intros [Hb Hs]. unfold send_keepalive. destruct (ch_state h) as [| |p| |] eqn:Es; try done.
  cbv zeta. destruct (bool_decide _ && _); [done|].
  set (q := MkProcessing _ _ _ _ _ _). set (f := init_report _ _ _ _).
  pose proof (queue_frames_appended [f] 0 (set_ch_state (Processing q) h)) as Eq. cbn [queue_frames] in Eq.
  destruct (queue_frame f _) as [h' t]. injection Eq as -> _. unfold state_ok in Hs. rewrite Es in Hs.
  split; [|apply state_appended; exact Hs]. apply base_appended; [auto with host|].
  constructor; [|done]. eapply init_report_on. unfold INIT_DATA, CTAPHID_FRAME_LEN. simpl. lia.
Qed.

Lemma ok_presence f h : host_ok h -> (forall poll, up_answer (f poll) = up_answer poll) ->
  host_ok (set_ch_u2f (option_map f (ch_u2f h)) h).
Proof.
  intros [Hb Hs] Hf. split; [by apply base_poll|]. unfold state_ok in *. simpl.
  destruct (ch_state h) as [| |p| |]; try done. destruct Hs as [Hc Hs]. split; [done|].
  destruct (pr_request p); [|done]. destruct Hs as (-> & ?). done.
Qed.

Lemma ok_reset_u2f h : host_ok h -> host_ok (reset_u2f h).
Proof.
  intros [Hb Hs]. unfold reset_u2f. split; [apply base_denied; [auto with host|simpl; lia]|].
  unfold state_ok in *. simpl. destruct (ch_state h) as [| |p| |]; try done. destruct Hs as [Hc Hs]. split; [done|].
  destruct (pr_request p); [|done]. destruct Hs as (Hu & Hz & Hd).
  split; [done|]. split; [done|]. intros _ _. unfold MAX_CHANNELS. lia.
Qed.

Lemma ok_take_identification h : host_ok h -> host_ok (fst (take_identification_request h)).
Proof.
  intros [Hb Hs]. unfold take_identification_request. destruct (ch_state h); try done.
  destruct submitted; [done|]. simpl. split; [auto with host|done].
Qed.

Lemma ok_identified token delivered now h : host_ok h -> host_ok (identification_response token delivered now h).
Proof.
  intros Hh. unfold identification_response. destruct (ch_state h); try done.
  destruct (negb _); [done|]. destruct (delivered && _); auto with host.
Qed.

Lemma ok_take_request h : host_ok h -> host_ok (fst (take_app_request h)).
Proof.
  intros [Hb Hs]. unfold take_app_request. destruct (ch_app_busy h) eqn:Eb; [done|].
  destruct (ch_state h) as [| |p| |] eqn:Es; try done. destruct (pr_request p) as [payload|] eqn:Er; [|done].
  unfold state_ok in Hs. rewrite Es, Er in Hs. destruct Hs as (Hc & Hu & Hz & Hd). destruct Hb.
  destruct (bool_decide _ && requests_presence payload) eqn:Ep; simpl; (split; [split; try done; simpl|by split]).
  - bool_hyps. split; [congruence|auto].
  - by rewrite Hu.
Qed.

Lemma ok_interrupt h : host_ok h -> host_ok (fst (take_interrupt h)).
Proof. intros [Hb Hs]. split; [by apply base_interrupt|done]. Qed.

Lemma ok_written frame h : host_ok h -> host_ok (fst (outgoing_frame_written frame h)).
Proof.
  intros [Hb Hs]. unfold outgoing_frame_written, is_outgoing_current.
  destruct (ch_pending h) as [|f rest] eqn:Ep; [done|]. simpl. destruct (Z.eqb_spec (of_token f) (of_token frame)) as [Et|]; [|done].
  assert (Hr : base_ok (set_ch_pending rest h)).
  { destruct Hb as [? ? Hq]. split; try done. rewrite Ep in Hq. destruct Hq as [Hq1 Hq2].
    inversion Hq1; inversion Hq2; by split. }
  unfold state_ok in Hs. destruct (ch_state h) as [| | | |channel final] eqn:Es; simpl.
  1-4: (split; [done|unfold state_ok; simpl; by rewrite Es]).
  destruct (Z.eqb_spec final (of_token frame)) as [Ef|Ef]; [split; [auto with host|done]|].
  split; [done|]. unfold state_ok. simpl. rewrite Es. destruct Hs as (g & Hg & Hf & Hch). rewrite Ep in Hg.
  apply elem_of_cons in Hg as [->|Hg]; [by rewrite Hf in Et|]. by exists g.
Qed.

Lemma ok_deliver response h :
  base_ok h -> (state_ok h \/ exists p, ch_state h = Processing p /\ pr_request p = None) ->
  host_ok (deliver_response response h).
Proof.
  intros Hb Hs. unfold deliver_response. destruct (ch_state h) as [| |p| |] eqn:Es.
  1,2,4,5: (destruct Hs as [Hs|(q & Hq & _)]; [by split|done]).
  destruct (pr_request p) eqn:Er; simpl; [|auto with host].
  destruct Hs as [Hs|(q & [= <-] & Hq)]; [by split|by rewrite Er in Hq].
Qed.

(** What a finished app leaves of the state: a transaction that waited for it
    is the one it answers. *)
Lemma state_answered h h' :
  state_ok h -> ch_state h' = ch_state h -> ch_message h' = ch_message h -> ch_pending h' = ch_pending h ->
  (ch_u2f h = None -> ch_u2f h' = None /\ ch_denied_polls h' = ch_denied_polls h) ->
  state_ok h' \/ exists p, ch_state h' = Processing p /\ pr_request p = None /\ ch_app_command h = Some (pr_command p).
Proof.
  unfold state_ok. intros Hs -> -> -> Hu. destruct (ch_state h) as [| |p| |]; try (by left).
  destruct Hs as [Hc Hs]. destruct (pr_request p) as [payload|] eqn:Er.
  - left. split; [done|]. destruct Hs as (Hn & Hz & Hd). destruct (Hu Hn) as [-> ->]. done.
  - right. by exists p.
Qed.

Lemma base_answered h :
  base_ok h -> match ch_u2f h with Some poll => is_some (up_answer poll) = true | None => True end ->
  base_ok (set_ch_app_command None (set_ch_app_busy false h)).
Proof.
  intros [] Hu. split; try done. simpl. unfold u2f_ok. destruct (ch_u2f h) as [poll|]; [|done].
  by destruct (up_answer poll).
Qed.

Lemma ok_poll_response poll response now finished h h' r :
  host_ok h -> ch_app_command h = Some Msg -> ch_u2f h = Some poll ->
  poll_response poll response now finished
    (set_ch_u2f None (set_ch_app_command None (set_ch_app_busy false h))) = (h', r) ->
  match r with
  | Some answered => host_ok answered
  | None => base_ok h' /\ (state_ok h' \/ exists p, ch_state h' = Processing p /\ pr_request p = None)
  end.
Proof.
  intros [Hb Hs] Hc Hu. pose proof (bo_app h Hb) as Hbusy. rewrite Hc in Hbusy.
  pose proof (bo_u2f h Hb) as Ho. rewrite Hu in Ho. unfold u2f_ok in Ho.
  destruct (up_answer poll) eqn:Ea; [by rewrite Hbusy in Ho|]. destruct Ho as [_ Hden].
  set (h1 := set_ch_u2f None _).
  assert (Hb1 : base_ok h1) by (by destruct Hb; split).
  assert (Hst : state_ok h1 \/ exists p, ch_state h1 = Processing p /\ pr_request p = None /\ ch_app_command h = Some (pr_command p))
    by (by apply (state_answered h)).
  unfold poll_response. cbv zeta. destruct (bytes_eqb _ _).
  { intros [= <- <-]. split.
    - destruct Hb1. split; try done. simpl. rewrite length_app. simpl. lia.
    - destruct (state_answered h (set_ch_denied_polls
        (ch_denied_polls h1 ++ [MkDenied (up_channel poll) (up_request poll) (up_last_poll poll)]) h1) Hs
        eq_refl eq_refl eq_refl) as [?|(p & ? & ? & _)]; [by rewrite Hu|by left|right; by exists p]. }
  set (late := awaits_msg _ && _ && _). destruct (negb _ || late) eqn:Ed.
  2:{ intros [= <- <-]. split; [done|]. destruct Hst as [?|(p & ? & ? & _)]; [by left|right; by exists p]. }
  set (deferred := if late then _ else h1). assert (Hdef : host_ok deferred /\ ch_app_busy deferred = false /\
    (forall p, ch_state deferred <> Processing p)).
  { unfold deferred. destruct late.
    - rewrite enqueue_message_appended. split; [|done]. rewrite <- enqueue_message_appended. auto with host.
    - rewrite orb_false_r in Ed. bool_hyps. destruct Hst as [Hst|(p & Hp & Hr & Hpc)].
      + split; [by split|]. split; [done|]. intros p Hp. unfold state_ok in Hs. simpl in Hp. rewrite Hp in Hs.
        destruct Hs as [_ Hs]. unfold h1, awaits_msg in Ed. simpl in Ed. rewrite Hp in Ed.
        destruct (pr_request p); [destruct Hs as [Hs _]; by rewrite Hu in Hs|].
        rewrite Hc in Hs. injection Hs as Hs. rewrite <- Hs in Ed. discriminate Ed.
      + unfold awaits_msg in Ed. rewrite Hp, Hr in Ed. rewrite Hc in Hpc. injection Hpc as Hpc.
        rewrite <- Hpc in Ed. discriminate Ed. }
  destruct Hdef as ([Hdb Hds] & Hdbusy & Hdp).
  destruct finished as [at_|]; [|by intros [= _ <-]]. destruct (now <=? _); [|by intros [= _ <-]].
  intros [= _ <-]. split; [by destruct Hdb; split|]. unfold state_ok in *. simpl.
  destruct (ch_state deferred) as [| |p| |]; try done. by destruct (Hdp p).
Qed.

Lemma ok_response response now finished h : host_ok h -> host_ok (app_response response now finished h).
Proof.
  intros Hh. unfold app_response. cbv zeta.
  assert (Hplain : match ch_u2f h with Some poll => is_some (up_answer poll) = true | None => True end ->
    host_ok (deliver_response response (set_ch_app_command None (set_ch_app_busy false h)))).
  { intros Hu. destruct Hh as [Hb Hs]. apply ok_deliver; [by apply base_answered|].
    edestruct (state_answered h (set_ch_app_command None (set_ch_app_busy false h))) as [?|(p & ? & ? & _)];
      try done; [by left|right; by exists p]. }
  assert (Hother : ch_app_command h <> Some Msg ->
    match ch_u2f h with Some poll => is_some (up_answer poll) = true | None => True end).
  { intros Hc. destruct Hh as [[] _]. unfold u2f_ok in *. destruct (ch_u2f h) as [poll|]; [|done].
    by destruct (up_answer poll), bo_u2f0. }
  destruct (ch_app_command h) as [[]|] eqn:Ec; try (by apply Hplain, Hother). simpl. destruct (ch_u2f h) as [poll|] eqn:Eu; [|by apply Hplain].
  destruct (poll_response _ _ _ _ _) as [h' r] eqn:Ep.
  apply (ok_poll_response _ _ _ _ _ _ _ Hh Ec Eu) in Ep. destruct r as [answered|]; [done|].
  destruct Ep as [Hb Hs]. by apply ok_deliver.
Qed.

Lemma ok_step e h : event_ok e -> host_ok h -> host_ok (host_step e h).
Proof.
  intros He Hh. destruct e; simpl.
  - by destruct He; apply ok_frame.
  - by apply ok_timeout.
  - by apply ok_keepalive.
  - unfold app_presence. destruct (_ && _); [|done]. by apply ok_presence.
  - unfold app_presence_finished. destruct (bool_decide _); [|done]. by apply ok_presence.
  - destruct enabled; [done|]. by apply ok_reset_u2f.
  - by apply ok_reset_u2f.
  - by apply ok_take_identification.
  - by apply ok_identified.
  - by apply ok_take_request.
  - by apply ok_interrupt.
  - by apply ok_response.
  - by apply ok_written.
Qed.

Lemma ok_run events h : Forall event_ok events -> host_ok h -> host_ok (host_run events h).
Proof. intros He. revert h. induction He as [|e events He Hes IH]; intros h Hh; [done|]. apply IH. by apply ok_step. Qed.

Lemma ok_new rng : (forall n, 0 <= rng n <= BROADCAST_CID) -> host_ok (with_rng rng).
Proof.
  intros Hr. split; [|done]. split; simpl; try done.
  - split; [constructor|]. split; [simpl; unfold MAX_CHANNELS; lia|constructor].
  - split; constructor.
  - unfold MAX_CHANNELS. lia.
Qed.
