(* ===== verification/HidHostProofs.v ===== *)
(** * What the CTAPHID state machine guarantees

    The invariant of every reachable state, isolation of the transaction under
    way from other channels, whose answer an answer is, and that no deadline is
    left overdue. *)

From stdpp Require Import sets.
From S2P Require Import Prelude Constants U2f Ctaphid HidHost HidHostInv.

(** ** Deadlines *)

(** Nothing is due at [now]. *)
Definition in_future (now : Z) (due : option Z) : Prop :=
  match due with Some d => now < d | None => True end.

Lemma in_future_earliest now a b : in_future now (earliest a b) <-> in_future now a /\ in_future now b.
Proof. destruct a, b; simpl; try tauto. lia. Qed.

Definition lease_served (now : Z) (h : CtaphidHost) : Prop := in_future now (option_map snd (ch_lease h)).

Definition poll_served (now : Z) (h : CtaphidHost) : Prop :=
  in_future now (option_map poll_deadline (ch_u2f h)).

(** A MSG that waits for the user has not waited long. *)
Definition wait_served (now : Z) (h : CtaphidHost) : Prop :=
  match ch_u2f h with
  | Some poll => awaits_msg (ch_state h) = true -> up_presence_started poll = true ->
                 now < up_started poll + U2F_RESPONSE_WAIT_MS
  | None => True
  end.

(** Everything [handle_timeout] sees to. *)
Definition timeouts_served (now : Z) (h : CtaphidHost) : Prop :=
  lease_served now h /\ poll_served now h /\ wait_served now h /\
  match ch_state h with
  | Receiving _ _ _ _ _ | Identifying _ _ _ => in_future now (transaction_due (ch_state h))
  | _ => True
  end.

Lemma timeout_serves now h : timeouts_served now (handle_timeout now h).
Proof.
  unfold handle_timeout. cbv zeta.
  assert (H1 : lease_served now (expire_lease now h)).
  { unfold expire_lease, lease_served. destruct (ch_lease h) as [[owner expires]|] eqn:El; simpl; [|by rewrite El].
    destruct (Z.leb_spec expires now); simpl; [done|]. by rewrite El. }
  revert H1. generalize (expire_lease now h) as a. clear h. intros a H1.
  assert (H2 : lease_served now (expire_identification now a) /\
    match ch_state (expire_identification now a) with Identifying _ r _ => now < ir_deadline r | _ => True end).
  { unfold expire_identification. destruct (ch_state a) eqn:E; try (by rewrite E).
    destruct (Z.leb_spec (ir_deadline request) now); [|by rewrite E].
    unfold finish_error. by rewrite enqueue_message_appended. }
  revert H2. generalize (expire_identification now a) as b. clear a H1. intros b [H1 H2].
  set (c := set_ch_denied_polls _ b).
  assert (H3 : lease_served now (expire_poll now c) /\ poll_served now (expire_poll now c) /\
    ch_state (expire_poll now c) = ch_state b).
  { unfold expire_poll, poll_served. subst c. simpl. destruct (ch_u2f b) as [poll|] eqn:Eu; simpl; [|by rewrite Eu].
    destruct (Z.leb_spec (poll_deadline poll) now); [by destruct (is_some _)|]. simpl. by rewrite Eu. }
  revert H3. generalize (expire_poll now c) as d. clear c. intros d (H3 & H4 & Es). rewrite <- Es in H2. clear b H1 Es.
  assert (H5 : lease_served now (answer_waiting_msg now d) /\ poll_served now (answer_waiting_msg now d) /\
    wait_served now (answer_waiting_msg now d) /\
    match ch_state (answer_waiting_msg now d) with Identifying _ r _ => now < ir_deadline r | _ => True end).
  { unfold answer_waiting_msg, wait_served. destruct (ch_state d) as [| |p| |] eqn:E;
      try (rewrite E; split_and!; try done; by destruct (ch_u2f d)).
    destruct (ch_u2f d) as [poll|] eqn:Eu; [|rewrite Eu, E; by split_and!].
    destruct (awaits_msg (Processing p) && _ && _) eqn:Ew.
    - rewrite enqueue_message_appended. split_and!; try done. simpl. by rewrite Eu.
    - rewrite Eu, E. split_and!; try done. intros Ha Hp. rewrite Ha, Hp in Ew.
      simpl in Ew. bool_hyps. unfold saturating_sub, U2F_RESPONSE_WAIT_MS in *. lia. }
  revert H5. generalize (answer_waiting_msg now d) as e. clear d H2 H3 H4. intros e (H1 & H2 & H3 & H4).
  unfold expire_receiving, timeouts_served. destruct (ch_state e) eqn:E; try (by rewrite E).
  destruct (Z.leb_spec (last_packet_at + CONTINUATION_TIMEOUT_MS) now) as [Hd|Hd]; [|by rewrite E].
  unfold finish_error. rewrite enqueue_message_appended. split_and!; try done.
  unfold wait_served. simpl. by destruct (ch_u2f e).
Qed.

Lemma keepalive_serves waiting now h :
  0 <= now < u64_modulus - 1 -> timeouts_served now h ->
  in_future now (next_deadline (fst (send_keepalive waiting now h))).
Proof.
  intros Hnow (Hl & Hp & Hw & Ht).
  assert (Hpoll : forall s, awaits_msg s = awaits_msg (ch_state h) ->
    in_future now (option_map (poll_due s) (ch_u2f h))).
  { intros s Es. unfold poll_served, wait_served in *. destruct (ch_u2f h) as [poll|]; [|done]. simpl in *.
    unfold poll_due. rewrite Es. destruct (negb _ && _ && _) eqn:Ed; [|done]. bool_hyps.
    specialize (Hw ltac:(done) ltac:(done)). unfold u64_saturating_add. lia. }
  assert (Hsame : match ch_state h with Processing p => now < pr_keepalive_at p + KEEPALIVE_INTERVAL_MS | _ => True end ->
    in_future now (next_deadline h)).
  { intros Hk. unfold next_deadline. rewrite !in_future_earliest. split_and!; [|by apply Hpoll|done].
    by destruct (ch_state h). }
  unfold send_keepalive. destruct (ch_state h) as [| |p| |] eqn:Es; try (by apply Hsame).
  cbv zeta. destruct (bool_decide _ && _) eqn:Ek; [apply Hsame; by bool_hyps|].
  unfold next_deadline, queue_frame. cbn [fst ch_state ch_u2f ch_lease set_ch_pending set_ch_next_token set_ch_state].
  rewrite !in_future_earliest. split_and!; [simpl; unfold KEEPALIVE_INTERVAL_MS; lia|by apply Hpoll|done].
Qed.

(** ** Isolation *)

Definition is_cancel (packet : bytes) : bool :=
  bool_decide (command_of (Z.land (report_code packet) 0x7f) = Some Cancel).

Lemma appended_nil h : appended [] h = h.
Proof. unfold appended. destruct h. cbn. by rewrite app_nil_r, Z.add_0_r. Qed.

Lemma busy_conflicts channel command h :
  is_some_and (busy_channel h) (fun busy => negb (busy =? channel)) = true ->
  request_conflicts channel command h = true.
Proof. unfold request_conflicts. destruct (busy_channel h); simpl; [|done]. by intros ->. Qed.

Lemma other_channel_frame packet now h :
  is_some_and (busy_channel h) (fun busy => negb (busy =? report_channel packet)) = true ->
  handle_frame packet now h =
  appended (if is_init_report packet && negb (is_cancel packet)
            then sent_frames (report_channel packet) Error [error_code ChannelBusy] else [])
    (set_ch_channels (if is_init_report packet then touch (report_channel packet) (ch_channels h)
                      else ch_channels h) (expire_lease now h)).
Proof.
  intros Hb. unfold handle_frame. cbv zeta. set (channel := report_channel packet) in *.
  assert (Hb' : is_some_and (busy_channel (expire_lease now h)) (fun busy => negb (busy =? channel)) = true)
    by (unfold expire_lease; by destruct (is_some_and (ch_lease h) _)).
  assert (Ec : ch_channels (expire_lease now h) = ch_channels h)
    by (unfold expire_lease; by destruct (is_some_and (ch_lease h) _)).
  rewrite Ec. revert Hb' Ec. generalize (expire_lease now h) as a. intros a Hb' Ec. clear Hb.
  destruct (is_init_report packet) eqn:Ei; cbn [negb andb].
  - unfold is_cancel. set (b := set_ch_channels _ a).
    assert (Hbb : is_some_and (busy_channel b) (fun busy => negb (busy =? channel)) = true) by exact Hb'.
    assert (Hreq : forall command, handle_request channel command (report_length packet) (drop 7 packet) now b =
      appended (sent_frames channel Error [error_code ChannelBusy]) b).
    { intros command. unfold handle_request. rewrite (busy_conflicts _ _ _ Hbb).
      destruct (lease_conflicts channel b); apply enqueue_error_appended. }
    destruct (command_of _) as [[]|]; try apply Hreq; cbn.
    + unfold handle_init. rewrite Hbb. destruct (lease_conflicts channel b); apply enqueue_error_appended.
    + rewrite appended_nil. unfold handle_cancel. destruct (ch_state b) as [| |p| |] eqn:Es; try done.
      unfold busy_channel in Hbb. rewrite Es in Hbb. cbn in Hbb. by rewrite Hbb.
  - rewrite appended_nil, <- Ec. unfold handle_continuation. destruct (ch_state a) as [|receiving| | |] eqn:Es.
    1,3,4,5: by destruct a.
    unfold busy_channel in Hb'. rewrite Es in Hb'. cbn in Hb'. rewrite Hb'. by destruct a.
Qed.

(** ** The request the app works on *)

(** While the app works on [request] of [channel], a transaction that waits for
    the app is that one, and a remembered U2F poll is for it. *)
Definition in_flight (channel started : Z) (request : AppRequest) (h : CtaphidHost) : Prop :=
  ch_app_busy h = true /\ ch_app_command h = Some (ar_command request) /\
  (forall p, ch_state h = Processing p -> pr_request p = None ->
     pr_channel p = channel /\ pr_command p = ar_command request /\ pr_started p = started) /\
  (forall poll, ch_u2f h = Some poll -> up_channel poll = channel /\ up_request poll = ar_payload request).

(** [h'] works on nothing [h] does not. *)
Definition no_new_work (h h' : CtaphidHost) : Prop :=
  ch_app_busy h' = ch_app_busy h /\ ch_app_command h' = ch_app_command h /\
  (forall p, ch_state h' = Processing p -> pr_request p = None ->
     exists q, ch_state h = Processing q /\ pr_request q = None /\ pr_channel q = pr_channel p /\
               pr_command q = pr_command p /\ pr_started q = pr_started p) /\
  (forall poll, ch_u2f h' = Some poll -> exists q, ch_u2f h = Some q /\
     up_channel q = up_channel poll /\ up_request q = up_request poll).

#[local] Instance no_new_work_preorder : PreOrder no_new_work.
Proof.
  split.
  - intros h. split_and!; try done; [intros p Hp Hr; by exists p|intros p Hp; by exists p].
  - intros a b c (Hb & Hc & Hs & Hu) (Hb' & Hc' & Hs' & Hu'). split_and!; [congruence|congruence|..].
    + intros p Hp Hr. destruct (Hs' p Hp Hr) as (q & Hq & Hqr & E1 & E2 & E3).
      destruct (Hs q Hq Hqr) as (r & Hr' & Hrr & F1 & F2 & F3). exists r. split_and!; congruence.
    + intros p Hp. destruct (Hu' p Hp) as (q & Hq & E1 & E2). destruct (Hu q Hq) as (r & Hr & F1 & F2).
      exists r. split_and!; congruence.
Qed.

Lemma in_flight_step channel started request h h' :
  in_flight channel started request h -> no_new_work h h' -> in_flight channel started request h'.
Proof.
  intros (Hb & Hc & Hs & Hu) (Hb' & Hc' & Hs' & Hu'). split_and!; [congruence|congruence|..].
  - intros p Hp Hr. destruct (Hs' p Hp Hr) as (q & Hq & Hqr & <- & <- & <-). by apply Hs.
  - intros p Hp. destruct (Hu' p Hp) as (q & Hq & <- & <-). by apply Hu.
Qed.

(** A change that leaves the app, the state or the poll as they are. *)
Lemma work_same h h' :
  ch_app_busy h' = ch_app_busy h -> ch_app_command h' = ch_app_command h ->
  (ch_state h' = ch_state h \/ forall p, ch_state h' = Processing p -> pr_request p <> None) ->
  (ch_u2f h' = ch_u2f h \/ ch_u2f h' = None) -> no_new_work h h'.
Proof.
  intros Hb Hc Hs Hu. split_and!; try done.
  - intros p Hp Hr. destruct Hs as [Hs|Hs]; [|by destruct (Hs p Hp)]. exists p. by rewrite <- Hs.
  - intros p Hp. destruct Hu as [Hu|Hu]; [|by rewrite Hu in Hp]. exists p. by rewrite <- Hu.
Qed.

Lemma work_enqueue channel command payload h : no_new_work h (enqueue_message channel command payload h).
Proof. rewrite enqueue_message_appended. apply work_same; try done; [by right|by left]. Qed.

Lemma work_error channel code h : no_new_work h (enqueue_error channel code h).
Proof. rewrite enqueue_error_appended. apply work_same; try done; by left. Qed.

Lemma work_finish channel code h : no_new_work h (finish_error channel code h).
Proof. apply work_enqueue. Qed.

Lemma work_expire_lease now h : no_new_work h (expire_lease now h).
Proof. unfold expire_lease. destruct (is_some_and _ _); apply work_same; try done; by left. Qed.

(** One field at a time. *)
Lemma work_idle h : no_new_work h (set_ch_state Idle h).
Proof. apply work_same; try done; [by right|by left]. Qed.

Lemma work_channels ids h : no_new_work h (set_ch_channels ids h).
Proof. apply work_same; try done; by left. Qed.

Lemma work_interrupt b h : no_new_work h (set_ch_interrupt_app b h).
Proof. apply work_same; try done; by left. Qed.

Lemma work_message m h : no_new_work h (set_ch_message m h).
Proof. apply work_same; try done; by left. Qed.

Lemma work_lease l h : no_new_work h (set_ch_lease l h).
Proof. apply work_same; try done; by left. Qed.

Lemma work_denied l h : no_new_work h (set_ch_denied_polls l h).
Proof. apply work_same; try done; by left. Qed.

Lemma work_no_u2f h : no_new_work h (set_ch_u2f None h).
Proof. apply work_same; try done; [by left|by right]. Qed.

Lemma work_poll f h :
  (forall poll, up_channel (f poll) = up_channel poll /\ up_request (f poll) = up_request poll) ->
  no_new_work h (set_ch_u2f (option_map f (ch_u2f h)) h).
Proof.
  intros Hf. split_and!; try done; [intros p Hp Hr; by exists p|]. simpl. intros poll Hp.
  destruct (ch_u2f h) as [q|]; [|done]. injection Hp as <-. destruct (Hf q) as [-> ->]. by exists q.
Qed.

Create HintDb works.
#[local] Hint Resolve work_enqueue work_error work_finish work_expire_lease work_idle work_channels
  work_interrupt work_message work_lease work_denied work_no_u2f : works.

(** Close a goal [no_new_work h (f (g h))] one operation at a time. *)
Ltac works :=
  repeat first [reflexivity | solve [eauto 1 with works] | (etrans; [|solve [eauto 1 with works]])].

Lemma work_start channel command now h : no_new_work h (start_processing channel command now h).
Proof. apply work_same; try done; right; [|done]. by intros p [= <-]. Qed.

Lemma work_poll_answer channel now h :
  no_new_work h (fst (poll_answer channel now h)) /\
  forall answered, snd (poll_answer channel now h) = Some answered -> no_new_work h answered.
Proof.
  unfold poll_answer. destruct (ch_u2f h) as [poll|] eqn:Eu; [|done].
  pose proof (work_poll (set_last_poll now) h (fun _ => conj eq_refl eq_refl)) as Hp. rewrite Eu in Hp. simpl in Hp.
  destruct (_ && _).
  - destruct (up_answer poll) as [[reply expires]|].
    + destruct (expires <? now); [done|]. split; [done|]. intros answered [= <-]. etrans; [exact Hp|]. works.
    + split; [done|]. intros answered [= <-]. etrans; [exact Hp|]. works.
  - destruct (is_some _); split; try done. intros answered [= <-]. works.
Qed.

Lemma work_denied_answer channel now h :
  no_new_work h (fst (denied_answer channel now h)) /\
  forall answered, snd (denied_answer channel now h) = Some answered -> no_new_work h answered.
Proof.
  unfold denied_answer. destruct (is_some_and _ _); [split; [works|]; intros a [= <-]; works|]. cbv zeta.
  destruct (_ && _); (split; [works|]); [intros a [= <-]; works|done].
Qed.

Lemma work_complete channel command now h : no_new_work h (complete_message channel command now h).
Proof.
  assert (Hst : forall c, no_new_work h (start_processing channel c now h)) by (intros; apply work_start).
  destruct command; simpl; try apply Hst; try works.
  - unfold complete_msg. destruct (work_poll_answer channel now h) as [H1 H2].
    destruct (poll_answer channel now h) as [h1 [a|]]; simpl in *; [by apply H2|].
    destruct (work_denied_answer channel now h1) as [H3 H4].
    destruct (denied_answer channel now h1) as [h2 [a|]]; simpl in *; etrans; [exact H1|by apply H4|exact H1|].
    etrans; [exact H3|apply work_start].
  - unfold complete_lock. destruct (10 <? _); works.
  - apply work_same; try done; [by right|by left].
Qed.

Lemma work_request channel command len data now h :
  no_new_work h (handle_request channel command len data now h).
Proof.
  unfold handle_request. destruct (lease_conflicts _ _); [works|]. destruct (request_conflicts _ _ _); [works|].
  assert (Hb : forall c, no_new_work h (begin_request channel c len data now h)).
  { intros c. unfold begin_request. etrans; [apply work_message|]. destruct (_ <=? _); [apply work_complete|].
    apply work_same; try done; [by right|by left]. }
  destruct (ch_state h); try works; destruct (_ || _); try works; destruct command as [c|]; try works;
    destruct (negb _); try works; destruct (length_refused _ _); try works; apply Hb.
Qed.

Lemma work_continuation channel sequence data now h :
  no_new_work h (handle_continuation channel sequence data now h).
Proof.
  unfold handle_continuation. destruct (ch_state h) as [|receiving command len next last| | |]; try works.
  destruct (negb _); [works|]. destruct (negb _); [works|]. cbv zeta.
  assert (Hr : no_new_work h (set_ch_state (Receiving receiving command len (next + 1) now) h))
    by (apply work_same; try done; [by right|by left]).
  etrans; [exact Hr|]. etrans; [apply work_message|]. destruct (_ =? _); [apply work_complete|reflexivity].
Qed.

Lemma work_allocate attempts h : no_new_work h (fst (allocate_channel attempts h)).
Proof.
  revert h. induction attempts as [|n IH]; intros h; simpl; [reflexivity|].
  assert (Hd : no_new_work h (set_ch_rng_draws (S (ch_rng_draws h)) h)) by (apply work_same; try done; by left).
  destruct (_ || _); [etrans; [exact Hd|apply IH]|].
  destruct (insert_channel _ _); [|etrans; [exact Hd|apply IH]]. etrans; [exact Hd|works].
Qed.

Lemma work_resynchronise channel h : no_new_work h (resynchronise channel h).
Proof.
  unfold resynchronise. cbv zeta. etrans; [|apply work_idle].
  set (h1 := set_ch_message [] _). assert (H1 : no_new_work h h1) by (apply work_same; try done; by left).
  set (h2 := match ch_u2f h1 with Some _ => _ | None => _ end). assert (H2 : no_new_work h1 h2).
  { unfold h2. destruct (ch_u2f h1); [|works]. destruct (_ =? _); [|works]. destruct (is_some _); works. }
  etrans; [exact H1|]. etrans; [exact H2|]. set (h3 := set_ch_denied_polls _ h2).
  etrans; [apply (work_denied (List.filter (fun poll => negb (dp_channel poll =? channel)) (ch_denied_polls h2)))|].
  fold h3. destruct (ch_state h3); try works. destruct (is_some _); works.
Qed.

Lemma work_init channel len data h : no_new_work h (handle_init channel len data h).
Proof.
  unfold handle_init. destruct (lease_conflicts _ _); [works|]. destruct (is_some_and _ _); [works|].
  destruct (negb (len =? 8)); [destruct (is_some _); works|]. cbv zeta.
  assert (Hi : no_new_work h (fst (init_channel channel (negb (is_idle (ch_state h))) h))).
  { unfold init_channel. destruct (_ =? _).
    - pose proof (work_allocate CHANNEL_GENERATION_RETRY_LIMIT h) as Ha. by destruct (allocate_channel _ h).
    - destruct (_ && _); reflexivity. }
  destruct (init_channel _ _ h) as [h' [assigned|code]]; simpl in Hi; etrans; [exact Hi| |exact Hi|].
  - etrans; [apply work_resynchronise|works].
  - destruct (negb _); works.
Qed.

Lemma work_frame packet now h : no_new_work h (handle_frame packet now h).
Proof.
  unfold handle_frame. cbv zeta. etrans; [apply work_expire_lease|].
  destruct (negb _); [apply work_continuation|]. etrans; [apply work_channels|].
  destruct (command_of _) as [[]|]; try apply work_request; [apply work_init|].
  unfold handle_cancel. destruct (ch_state _); try works. destruct (_ || _); [works|]. destruct (is_some _); works.
Qed.

Lemma work_timeout now h : no_new_work h (handle_timeout now h).
Proof.
  unfold handle_timeout. cbv zeta. etrans; [apply work_expire_lease|].
  etrans; [|unfold expire_receiving; destruct (ch_state _); try works; destruct (_ <=? now); works].
  etrans; [|unfold answer_waiting_msg; destruct (ch_state _); try works; destruct (ch_u2f _); try works;
            destruct (_ && _); works].
  etrans; [|unfold expire_poll; destruct (ch_u2f _); try works; destruct (_ <=? now); try works;
            destruct (is_some _); works].
  etrans; [|apply work_denied].
  unfold expire_identification. destruct (ch_state _); try works. destruct (_ <=? now); works.
Qed.

Lemma work_keepalive waiting now h : no_new_work h (fst (send_keepalive waiting now h)).
Proof.
  unfold send_keepalive. destruct (ch_state h) as [| |p| |] eqn:Es; try reflexivity. cbv zeta.
  destruct (bool_decide _ && _); [reflexivity|]. split_and!; try done; [|intros q Hq; by exists q].
  simpl. intros q [= <-] Hr. exists p. by rewrite Es.
Qed.

Lemma work_step e h :
  (forall r n f, e <> EResponse r n f) -> ch_app_busy h = true -> no_new_work h (host_step e h).
Proof.
  intros He Hb. destruct e; simpl.
  - apply work_frame.
  - apply work_timeout.
  - apply work_keepalive.
  - unfold app_presence. destruct (_ && _); [by apply work_poll|reflexivity].
  - unfold app_presence_finished. destruct (bool_decide _); [by apply work_poll|reflexivity].
  - unfold set_u2f_enabled, reset_u2f. destruct enabled; works.
  - unfold reset_u2f. works.
  - unfold take_identification_request. destruct (ch_state h); try reflexivity. destruct submitted; [reflexivity|].
    apply work_same; try done; [by right|by left].
  - unfold identification_response. destruct (ch_state h); try works. destruct (negb _); [works|].
    destruct (delivered && _); works.
  - unfold take_app_request. rewrite Hb. reflexivity.
  - apply work_interrupt.
  - by destruct (He response now presence_finished).
  - unfold outgoing_frame_written. destruct (is_outgoing_current _ _); [|reflexivity]. simpl.
    destruct (ch_state h) as [| | | |ch final] eqn:Es; try (apply work_same; try done; by left).
    destruct (final =? _); apply work_same; try done; [by right|by left|by left|by left].
Qed.

Lemma take_in_flight h h1 request :
  host_ok h -> take_app_request h = (h1, Some request) ->
  exists p, ch_state h = Processing p /\ pr_request p = Some (ar_payload request) /\
    pr_command p = ar_command request /\ in_flight (pr_channel p) (pr_started p) request h1.
Proof.
  intros [_ Hs]. unfold take_app_request. destruct (ch_app_busy h); [done|].
  destruct (ch_state h) as [| |p| |] eqn:Es; try done. destruct (pr_request p) as [payload|] eqn:Er; [|done].
  unfold state_ok in Hs. rewrite Es, Er in Hs. destruct Hs as (_ & Hu & _).
  intros [= <- <-]. exists p. split_and!; try done. split_and!; try done.
  - simpl. intros q Hq. destruct (bool_decide _ && _); simpl in Hq; by injection Hq as <-.
  - destruct (bool_decide _ && _); simpl; [by intros poll [= <-]|by rewrite Hu].
Qed.

Lemma in_flight_run channel started request events h :
  Forall (fun e => forall r n f, e <> EResponse r n f) events -> in_flight channel started request h ->
  in_flight channel started request (host_run events h).
Proof.
  intros He. revert h. induction He as [|e events He _ IH]; intros h Hf; [done|]. apply IH.
  eapply in_flight_step; [exact Hf|]. by apply work_step; [|destruct Hf].
Qed.

(** What an answer adds to the queue. *)
Definition adds (frames : list bytes) (h h' : CtaphidHost) : Prop :=
  ch_pending h' = ch_pending h ++ stamp (ch_next_token h) frames.

Lemma deliver_adds response h :
  ch_u2f (deliver_response response h) = ch_u2f h /\
  (adds [] h (deliver_response response h) \/
   exists p, ch_state h = Processing p /\ pr_request p = None /\
     adds (sent_frames (pr_channel p) (pr_command p) response) h (deliver_response response h)).
Proof.
  assert (Hn : adds [] h h) by (unfold adds; simpl; by rewrite app_nil_r).
  unfold deliver_response. destruct (ch_state h) as [| |p| |] eqn:Es; try (split; [done|by left]).
  destruct (pr_request p) eqn:Er; simpl; [split; [done|by left]|].
  rewrite enqueue_message_appended. split; [done|]. right. by exists p.
Qed.

Lemma poll_response_adds poll response now finished h h' r :
  ch_u2f h = None -> poll_response poll response now finished h = (h', r) ->
  match r with
  | Some answered =>
      (adds [] h answered \/ adds (sent_frames (up_channel poll) Msg not_satisfied) h answered) /\
      (ch_u2f answered = None \/ exists at_, finished = Some at_ /\
         now <= u64_saturating_add at_ U2F_APPROVAL_MS /\
         ch_u2f answered = Some (set_answer response (u64_saturating_add at_ U2F_APPROVAL_MS) poll))
  | None => ch_state h' = ch_state h /\ ch_u2f h' = None /\ ch_pending h' = ch_pending h /\
            ch_next_token h' = ch_next_token h
  end.
Proof.
  intros Hu. unfold poll_response. cbv zeta. destruct (bytes_eqb _ _); [by intros [= <- <-]|].
  set (late := awaits_msg _ && _ && _). destruct (negb _ || late); [|by intros [= <- <-]].
  set (deferred := if late then _ else h).
  assert (Hd : (adds [] h deferred \/ adds (sent_frames (up_channel poll) Msg not_satisfied) h deferred) /\
    ch_u2f deferred = None).
  { unfold deferred. destruct late; [rewrite enqueue_message_appended; split; [by right|done]|].
    split; [|done]. left. unfold adds. simpl. by rewrite app_nil_r. }
  destruct Hd as [Hd Hn]. destruct finished as [at_|]; [|intros [= _ <-]; by split; [|left]].
  destruct (Z.leb_spec now (u64_saturating_add at_ U2F_APPROVAL_MS)); [|intros [= _ <-]; by split; [|left]].
  intros [= _ <-]. split; [done|]. right. by exists at_.
Qed.

(** ** Theorems *)

(** The CTAPHID state machine keeps its invariant whatever packets,
    timeouts, answers and writes come in whatever order.  At most 256 channels
    are allocated, all distinct and none reserved; pending reports are 64 bytes
    each, in the order of tokens never used before; a message being received
    has exactly the bytes its packets so far carried, fewer than announced, and
    its next sequence number is at most 127, so neither the count nor the
    remaining length can underflow or overflow; a transaction that transmits
    has its last report still queued, so writing the queue ends it; one that
    processes waits for the app or the app works on it; and the denials
    remembered for U2F are at most 256. *)
Theorem host_invariant (rng : nat -> Z) (events : list host_event) :
  (forall n, 0 <= rng n <= BROADCAST_CID) -> Forall event_ok events ->
  host_ok (host_run events (with_rng rng)).
Proof. intros Hr He. apply ok_run; [done|]. by apply ok_new. Qed.

(** C40: No deadline is left overdue.  Once the timeouts and the keepalive of an
    instant have been handled, the next deadline the transport waits for lies
    in the future: a stalled message, an identification, an expired lease, an
    abandoned U2F prompt, a poll reply and a keepalive that were due have all
    been seen to, and the loop never spins on one. *)
Theorem no_deadline_overdue (waiting : bool) (now : Z) (h : CtaphidHost) :
  0 <= now < u64_modulus - 1 ->
  match next_deadline (fst (send_keepalive waiting now (handle_timeout now h))) with
  | Some due => now < due
  | None => True
  end.
Proof. intros Hnow. exact (keepalive_serves waiting now _ Hnow (timeout_serves now h)). Qed.

(** C39: Other channels cannot disturb a transaction.  A packet from another
    channel than the one being served leaves the transaction's state, the
    message being received, the app, its interruption and every U2F poll as
    they are; all it gets is one ERR_CHANNEL_BUSY report on its own channel,
    and not even that for a continuation packet or CTAPHID_CANCEL. *)
Theorem other_channels_cannot_disturb (packet : bytes) (now busy : Z) (h h' : CtaphidHost) :
  busy_channel h = Some busy -> report_channel packet <> busy -> handle_frame packet now h = h' ->
  ch_state h' = ch_state h /\ ch_message h' = ch_message h /\ ch_u2f h' = ch_u2f h /\
  ch_denied_polls h' = ch_denied_polls h /\ ch_app_busy h' = ch_app_busy h /\
  ch_app_command h' = ch_app_command h /\ ch_interrupt_app h' = ch_interrupt_app h /\
  ch_pending h' = ch_pending h ++
    stamp (ch_next_token h)
      (if is_init_report packet && negb (is_cancel packet)
       then message_reports (report_channel packet) Error [error_code ChannelBusy] else []).
Proof.
  intros Hb Hne <-. rewrite other_channel_frame.
  2:{ rewrite Hb. simpl. by destruct (Z.eqb_spec busy (report_channel packet)). }
  unfold expire_lease. by destruct (is_some_and (ch_lease h) _), (is_init_report packet && _).
Qed.

(** C38: An answer reaches the request it answers or nobody.  After the app takes
    a request, and whatever happens until it answers (resynchronisation,
    timeouts, requests of other channels, a new request on the same channel),
    the answer is sent only on the request's channel and as the request's
    command, and only if its transaction is still the one being processed; or
    the client is told to poll; or nothing is sent.  If the answer is kept for
    a later poll, it is kept for that channel and exactly that request, after
    the user was asked, and for ten seconds after that at most. *)
Theorem response_reaches_its_request (h h1 h2 h3 : CtaphidHost) (request : AppRequest)
    (events : list host_event) (response : bytes) (now : Z) (finished : option Z) :
  host_ok h -> take_app_request h = (h1, Some request) ->
  Forall event_ok events -> Forall (fun e => forall r n f, e <> EResponse r n f) events ->
  h2 = host_run events h1 -> h3 = app_response response now finished h2 ->
  exists p, ch_state h = Processing p /\ pr_request p = Some (ar_payload request) /\
    pr_command p = ar_command request /\
    (adds [] h2 h3
     \/ (exists q, ch_state h2 = Processing q /\ pr_request q = None /\ pr_started q = pr_started p /\
           adds (sent_frames (pr_channel p) (ar_command request) response) h2 h3)
     \/ ar_command request = Msg /\ adds (sent_frames (pr_channel p) Msg not_satisfied) h2 h3) /\
    (forall poll, ch_u2f h3 = Some poll ->
       up_channel poll = pr_channel p /\ up_request poll = ar_payload request /\
       exists at_ expires, finished = Some at_ /\ up_answer poll = Some (response, expires) /\
         now <= expires <= at_ + U2F_APPROVAL_MS).
Proof.
  intros Hh Htake He Hnr -> ->. pose proof (ok_take_request h Hh) as Hh1. rewrite Htake in Hh1.
  destruct (take_in_flight _ _ _ Hh Htake) as (p & Es & Er & Ec & Hf). exists p. do 3 (split; [done|]).
  apply (in_flight_run _ _ _ _ _ Hnr) in Hf. apply (ok_run _ _ He) in Hh1. simpl in Hh1.
  revert Hf Hh1. generalize (host_run events h1) as a. intros a (Hbusy & Hcmd & Hst & Hu) [Hb _].
  unfold app_response. cbv zeta. set (b := set_ch_app_command None (set_ch_app_busy false a)).
  assert (Hpoll : match ch_u2f a with Some poll => up_answer poll = None /\ ar_command request = Msg | None => True end).
  { pose proof (bo_u2f a Hb) as Ho. unfold u2f_ok in Ho. destruct (ch_u2f a) as [poll|]; [|done].
    destruct (up_answer poll); [congruence|]. destruct Ho as [Ho _]. split; congruence. }
  assert (Hdel : forall c, ch_state c = ch_state a -> ch_u2f c = None -> ch_pending c = ch_pending a ->
    ch_next_token c = ch_next_token a ->
    (adds [] a (deliver_response response c) \/ exists q, ch_state a = Processing q /\ pr_request q = None /\
      pr_started q = pr_started p /\
      adds (sent_frames (pr_channel p) (ar_command request) response) a (deliver_response response c)) /\
    ch_u2f (deliver_response response c) = None).
  { intros c Ecs Ecu Ecp Ect. destruct (deliver_adds response c) as [Du D]. rewrite Du. split; [|done].
    unfold adds in *. rewrite Ecp, Ect in D. destruct D as [D|(q & Hq & Hqr & D)]; [by left|right].
    rewrite Ecs in Hq. destruct (Hst q Hq Hqr) as (E1 & E2 & E3). exists q. by rewrite E1, E2 in D. }
  destruct (ch_u2f a) as [poll|] eqn:Eu.
  - destruct Hpoll as [Ha Hm]. destruct (Hu poll eq_refl) as [E1 E2].
    rewrite Hcmd, Hm. unfold b. cbn [ch_u2f set_ch_app_command set_ch_app_busy]. rewrite Eu.
    destruct (poll_response _ _ _ _ _) as [c r] eqn:Ep. apply poll_response_adds in Ep; [|done].
    destruct r as [answered|].
    + destruct Ep as [Hp Hpu]. rewrite E1 in Hp. split.
      { destruct Hp as [Hp|Hp]; [by left|right; right; by split]. }
      intros poll' Hpoll'. destruct Hpu as [Hpu|(at_ & Hat & Hle & Hpu)]; [congruence|].
      rewrite Hpu in Hpoll'. injection Hpoll' as <-. split_and!; [done..|].
      exists at_, (u64_saturating_add at_ U2F_APPROVAL_MS). split_and!; try done. unfold u64_saturating_add. lia.
    + destruct Ep as (Ep1 & Ep2 & Ep3 & Ep4). destruct (Hdel c Ep1 Ep2 Ep3 Ep4) as [D Du]. rewrite Hm in D.
      split; [destruct D; auto|]. intros poll' Hpoll'. by rewrite Du in Hpoll'.
  - destruct (Hdel b eq_refl Eu eq_refl eq_refl) as [D Du].
    replace (match ch_app_command a with Some Msg => _ | _ => _ end) with (deliver_response response b)
      by (unfold b; cbn [ch_u2f set_ch_app_command set_ch_app_busy]; rewrite Eu; by destruct (ch_app_command a) as [[]|]).
    split; [destruct D; auto|]. intros poll' Hpoll'. by rewrite Du in Hpoll'.
Qed.

(** ** Concrete runs *)

Module HidHostWitness.

Definition host0 : CtaphidHost := with_rng (fun _ => 7).

Lemma host0_ok : host_ok host0.
Proof. apply ok_new. intros n. unfold BROADCAST_CID. lia. Qed.

(** The first packet of a PING of 100 bytes, and a whole CBOR request. *)
Definition long_ping : bytes := init_report 5 Ping 100 (repeat 1 57).

Definition get_info : bytes := init_report 5 Cbor 1 [4].

Definition busy_events : list host_event := [EFrame long_ping 10; ETimeout 20; EFrame get_info 30].

Definition receiving : CtaphidHost := host_run [EFrame long_ping 10] host0.

Lemma packet_event packet now :
  bool_decide (length packet = CTAPHID_FRAME_LEN /\ bytes_ok packet) = true -> event_ok (EFrame packet now).
Proof. apply bool_decide_eq_true_1. Qed.

Lemma host_invariant_witness : host_ok (host_run busy_events host0).
Proof.
  apply (host_invariant (fun _ => 7) busy_events).
  - intros n. unfold BROADCAST_CID. lia.
  - repeat (constructor; [first [exact I | (apply packet_event; vm_compute; reflexivity)]|]). constructor.
Defined.

Lemma no_deadline_overdue_witness :
  next_deadline receiving = Some 560 /\
  match next_deadline (fst (send_keepalive true 600 (handle_timeout 600 receiving))) with
  | Some due => 600 < due
  | None => True
  end.
Proof. split; [reflexivity|]. apply (no_deadline_overdue true 600 receiving). vm_compute. split; congruence. Defined.

Lemma other_channels_cannot_disturb_witness :
  ch_state (handle_frame (init_report 6 Cbor 1 [4]) 20 receiving) = ch_state receiving /\
  map of_frame (ch_pending (handle_frame (init_report 6 Cbor 1 [4]) 20 receiving)) = [init_report 6 Error 1 [6]].
Proof.
  destruct (other_channels_cannot_disturb (init_report 6 Cbor 1 [4]) 20 5 receiving _ eq_refl ltac:(discriminate) eq_refl)
    as (Hs & _ & _ & _ & _ & _ & _ & Hp).
  split; [exact Hs|]. rewrite Hp. reflexivity.
Defined.

(** The app takes a request; it is aborted by INIT and another one completes on
    the same channel before the app answers. *)
Definition processing : CtaphidHost := host_run [EFrame get_info 30] (set_ch_channels [5] host0).

Definition taken : CtaphidHost := fst (take_app_request processing).

Definition abort_events : list host_event :=
  [EFrame (init_report 5 Init 8 (repeat 3 8)) 40; EWritten (MkFrame [] 0); EFrame get_info 50].

Definition aborted : CtaphidHost := host_run abort_events taken.

Lemma response_reaches_its_request_witness :
  ch_state aborted = Processing (MkProcessing 5 Cbor 50 (Some [4]) 50 StatusProcessing) /\
  ch_pending (app_response [0; 9] 60 None aborted) = ch_pending aborted.
Proof.
  assert (Hok : host_ok processing).
  { apply ok_run; [|destruct host0_ok as [[] Hs]; split; [split; try done|exact Hs]].
    - repeat (constructor; [(apply packet_event; vm_compute; reflexivity)|]). constructor.
    - split; [apply NoDup_singleton|]. split; [simpl; unfold MAX_CHANNELS; lia|].
      constructor; [unfold BROADCAST_CID; lia|constructor]. }
  split; [reflexivity|].
  destruct (response_reaches_its_request processing taken aborted (app_response [0; 9] 60 None aborted)
    {| ar_command := Cbor; ar_payload := [4] |} abort_events [0; 9] 60 None) as (p & _ & _ & _ & Hadds & _).
  - exact Hok.
  - reflexivity.
  - repeat (constructor; [first [exact I | (apply packet_event; vm_compute; reflexivity)]|]). constructor.
  - repeat constructor; discriminate.
  - reflexivity.
  - reflexivity.
  - destruct Hadds as [Ha|[(q & Hq & Hr & _)|[Hm _]]].
    + unfold adds in Ha. rewrite Ha. apply app_nil_r.
    + assert (Eq : ch_state aborted = Processing (MkProcessing 5 Cbor 50 (Some [4]) 50 StatusProcessing)) by reflexivity.
      rewrite Eq in Hq. injection Hq as <-. discriminate Hr.
    + discriminate Hm.
Defined.

End HidHostWitness.
