(* ===== verification/HidClient.v ===== *)
(** * The CTAPHID client ([crates/pqkey/src/client/ctaphid.rs])

    What a platform does to talk to a key: a message out, its answer back,
    keepalives and cancellation in between, and retries while the key is busy.
    The link that carries reports is a class, the trait [ReportLink]; it also
    carries the clock, the cancel flag and whoever watches keepalives.  Loops
    over received reports take fuel; [None] means it ran out. *)

From Stdlib Require Import Strings.String.
From S2P Require Import Prelude Ctaphid.

Definition MAX_PAYLOAD : Z := Z.of_nat INIT_DATA + 128 * Z.of_nat CONT_DATA.

Definition ERR_CHANNEL_BUSY : Z := 0x06.

Definition STATUS_UPNEEDED : Z := 0x02.

Definition BUSY_RETRY_FOR : Z := 10000.

Inductive HidError : Type :=
| RequestTooLarge (encoded_bytes limit : Z)
| Io (error : Z)
| Ctaphid (code : Z)
| Silent
| Malformed (what : string)
| Busy.

(** [link_receive] is [None] when nothing arrives for three seconds. *)
Class ReportLink (L : Type) : Type := {
  link_send : bytes -> L -> L * result unit Z;
  link_receive : L -> L * result (option bytes) Z;
  link_now : L -> L * Z;
  link_cancelled : L -> L * bool;
  link_keepalive : Z -> L -> L
}.

Section HidClient.

Context {L : Type} `{ReportLink L}.

(** ** Sending *)

Definition put_report (r : bytes) : M L unit HidError := fun l =>
  match link_send r l with
  | (l', Ok _) => (l', Ok tt)
  | (l', Err e) => (l', Err (Io e))
  end.

Fixpoint send_chunks (channel sequence : Z) (data : list bytes) : M L unit HidError :=
  match data with
  | [] => ret tt
  | chunk :: rest =>
      if 255 <? sequence then fail (Malformed "a request too long")
      else put_report (cont_report channel sequence chunk) ;;* send_chunks channel (sequence + 1) rest
  end.

Definition send_message (channel : Z) (command : Command) (payload : bytes) : M L unit HidError :=
  if MAX_PAYLOAD <? zlen payload then fail (RequestTooLarge (zlen payload) MAX_PAYLOAD)
  else
    put_report (init_report channel command (zlen payload) (take INIT_DATA payload)) ;;*
    send_chunks channel 0 (chunks CONT_DATA (drop INIT_DATA payload)).

(** ** Receiving *)

Definition get_report : M L bytes HidError := fun l =>
  match link_receive l with
  | (l', Ok (Some r)) => (l', Ok r)
  | (l', Ok None) => (l', Err Silent)
  | (l', Err e) => (l', Err (Io e))
  end.

(** The continuation packets of a message of [len] bytes. *)
Fixpoint receive_rest (fuel : nat) (channel len sequence : Z) (payload : bytes)
    : M L (option bytes) HidError :=
  match fuel with
  | O => ret None
  | S fuel' =>
      if zlen payload <? len then
        let* next := get_report in
        if negb (report_channel next =? channel) then receive_rest fuel' channel len sequence payload
        else if negb (report_code next =? sequence)
        then fail (Malformed "a continuation packet out of sequence")
        else
          let missing := len - zlen payload in
          receive_rest fuel' channel len ((sequence + 1) mod 256)
            (payload ++ take (Z.to_nat (Z.min missing (Z.of_nat CONT_DATA))) (drop 5 next))
      else ret (Some payload)
  end.

(** A keepalive is shown; a cancellation asked for is sent once.  Opening a
    channel is not watched: its callback does nothing and its flag is never
    set. *)
Definition see_keepalive (watched : bool) (channel status : Z) (cancelled : bool)
    : M L bool HidError := fun l0 =>
  (modify (if watched then link_keepalive status else fun l => l) ;;*
   if cancelled || negb watched then ret cancelled
   else fun l => let (l', flag) := link_cancelled l in
     (if (flag : bool) then send_message channel Cancel [] ;;* ret true else ret false) l') l0.

Fixpoint receive_message (watched : bool) (fuel : nat) (channel : Z) (accept : bytes -> bool) (cancelled : bool)
    : M L (option bytes) HidError :=
  match fuel with
  | O => ret None
  | S fuel' =>
      let* packet := get_report in
      if negb (report_channel packet =? channel) || negb (is_init_report packet)
      then receive_message watched fuel' channel accept cancelled
      else
        let len := report_length packet in
        let* message := receive_rest fuel channel len 0
                          (take (Z.to_nat (Z.min len (Z.of_nat INIT_DATA))) (drop 7 packet)) in
        match message with
        | None => ret None
        | Some payload =>
            match command_of (Z.land (report_code packet) 0x7f) with
            | Some KeepAlive =>
                let* cancelled := see_keepalive watched channel (nth 0 payload 0) cancelled in
                receive_message watched fuel' channel accept cancelled
            | Some Error => fail (Ctaphid (nth 0 payload 0))
            | Some _ => if accept payload then ret (Some payload)
                        else receive_message watched fuel' channel accept cancelled
            | None => receive_message watched fuel' channel accept cancelled
            end
        end
  end.

(** ** Transactions *)

(** [transact] again while the key is busy, until [deadline]. *)
Fixpoint retry_busy (fuel : nat) (deadline : Z) (transact : M L (option bytes) HidError)
    : M L (option bytes) HidError :=
  match fuel with
  | O => ret None
  | S fuel' => fun l =>
      match transact l with
      | (l1, Err (Ctaphid code)) =>
          if code =? ERR_CHANNEL_BUSY then
            let (l2, now) := link_now l1 in
            if now <? deadline then retry_busy fuel' deadline transact l2 else (l2, Err Busy)
          else (l1, Err (Ctaphid code))
      | outcome => outcome
      end
  end.

Definition deadline_after (patience : Z) : M L Z HidError := fun l =>
  let (l', now) := link_now l in (l', Ok (now + patience)).

(** [CtapHid::cbor] on [channel]. *)
Definition cbor (fuel : nat) (channel : Z) (request : bytes) : M L (option bytes) HidError :=
  let* deadline := deadline_after BUSY_RETRY_FOR in
  retry_busy fuel deadline
    (send_message channel Cbor request ;;* receive_message true fuel channel (fun _ => true) false).

Definition starts_with (prefix payload : bytes) : bool := bytes_eqb (take (length prefix) payload) prefix.

(** [CtapHid::open_within]: the channel allocated for [nonce]. *)
Definition open_within (fuel : nat) (nonce : bytes) (patience : Z) : M L (option Z) HidError :=
  let* deadline := deadline_after patience in
  let* answer := retry_busy fuel deadline
    (send_message BROADCAST_CID Init nonce ;;*
     receive_message false fuel BROADCAST_CID (starts_with nonce) false) in
  match answer with
  | None => ret None
  | Some payload =>
      if (12 <=? length payload)%nat then ret (Some (be_value (slice payload 8 12)))
      else fail (Malformed "a short INIT response")
  end.

End HidClient.
