(* ===== verification/Seat.v ===== *)
(** * When the key's device may exist ([crates/pqkey/src/seat.rs])

    [Seat] decides, from looks at who is active on the device's seat, when the
    key's device may exist and when it must go; [SeatDevice] asks it before
    each report it hands the transport and before each one it sends.  Where
    looks come from is the class [SeatSource]; [SeatSourceLaws] is what a
    source promises, and [SeatWatch.v] proves that logind's records, watched
    the way the key watches them, keep the promise.  Log lines are left out. *)

From Stdlib Require Import Strings.String.
From stdpp Require Import list.
From S2P Require Import Prelude.

(** An [io::Error]: [unplugged], [shutdown_error], or another one. *)
Inductive SeatError : Type :=
| Unplugged
| ShutdownRequested
| SeatIo (code : Z).

#[export] Instance SeatError_eq_dec : EqDecision SeatError.
Proof. solve_decision. Defined.

(** Who is active on a seat.  Strings are lists of characters. *)
Inductive Active : Type :=
| Nobody
| ActiveSession (id : list Z) (uid : Z)
| UnknownActive.

#[export] Instance Active_eq_dec : EqDecision Active.
Proof. solve_decision. Defined.

(** [Record]: which record of the seat a look read. *)
Inductive SeatRecord : Type :=
| Absent (n : Z)
| RecordFile (dev ino : Z).

#[export] Instance SeatRecord_eq_dec : EqDecision SeatRecord.
Proof. solve_decision. Defined.

Record Look : Type := { look_active : Active; look_record : SeatRecord }.

(** [WAIT] bounds one wait, in milliseconds; a source that waits is told it. *)
Definition SEAT_WAIT : Z := 100.

Class SeatSource (S : Type) : Type := {
  source_seat : S -> list Z;
  source_changed : bool -> M S bool SeatError;
  source_look : M S Look SeatError;
  source_wait : Z -> M S unit SeatError;
  source_plugged : S -> S
}.

(** [Unwatched]: a seat no session is ever active on. *)
#[export] Instance Unwatched : SeatSource unit := {|
  source_seat := fun _ => ascii_bytes "the seat";
  source_changed := fun _ => ret false;
  source_look := ret {| look_active := Nobody; look_record := Absent 0 |};
  source_wait := fun _ => ret tt;
  source_plugged := fun s => s
|}.

Record Seat (S : Type) : Type := {
  st_source : S;
  st_owner : Z;
  st_active : option Active;
  st_record : option SeatRecord;
  st_under : option SeatRecord;
  st_retired : bool;
  st_held : bool
}.

Arguments st_source {S} s.
Arguments st_owner {S} s.
Arguments st_active {S} s.
Arguments st_record {S} s.
Arguments st_under {S} s.
Arguments st_retired {S} s.
Arguments st_held {S} s.

Section Seats.

Context {S : Type} `{SeatSource S}.

Definition seat_new (source : S) (owner : Z) : Seat S := {|
  st_source := source; st_owner := owner; st_active := None; st_record := None; st_under := None;
  st_retired := false; st_held := false
|}.

Definition with_source (s : Seat S) (source : S) : Seat S := {|
  st_source := source; st_owner := st_owner s; st_active := st_active s; st_record := st_record s;
  st_under := st_under s; st_retired := st_retired s; st_held := st_held s
|}.

Definition with_held (held : bool) (s : Seat S) : Seat S := {|
  st_source := st_source s; st_owner := st_owner s; st_active := st_active s; st_record := st_record s;
  st_under := st_under s; st_retired := st_retired s; st_held := held
|}.

Definition retire (s : Seat S) : Seat S := {|
  st_source := st_source s; st_owner := st_owner s; st_active := st_active s; st_record := st_record s;
  st_under := st_under s; st_retired := true; st_held := st_held s
|}.

Definition allows (s : Seat S) (active : Active) : bool :=
  match active with
  | Nobody => true
  | ActiveSession _ uid => uid =? st_owner s
  | UnknownActive => false
  end.

Definition seat_allowed (s : Seat S) : bool :=
  match st_active s with Some active => allows s active | None => false end.

(** A source that cannot tell counts as changed. *)
Definition seat_changed (report : bool) (s : Seat S) : Seat S * bool :=
  let (source, r) := source_changed report (st_source s) in
  (with_source s source, match r with Ok b => b | Err _ => true end).

Definition seat_look (s : Seat S) : Seat S :=
  let (source, r) := source_look (st_source s) in
  let active := match r with Ok l => look_active l | Err _ => UnknownActive end in
  {| st_source := source; st_owner := st_owner s; st_active := Some active;
     st_record := match r with Ok l => Some (look_record l) | Err _ => None end;
     st_under := st_under s; st_retired := st_retired s;
     st_held := st_held s
                || (bool_decide (active = UnknownActive) && negb (bool_decide (st_active s = Some UnknownActive))) |}.

(** *** [wait_for_turn] *)

Definition look_if_changed (first : bool) (s : Seat S) : Seat S :=
  let (s, changed) := seat_changed false s in
  if changed || first then seat_look s else s.

(** The loop, over what the shutdown flag reads at each pass; once the list
    ends it is set. *)
Fixpoint wait_loop (shutdown : list bool) (on_hold : result unit SeatError) (waited : bool) (s : Seat S)
    : Seat S * result unit SeatError :=
  if seat_allowed s then (with_held false s, Ok tt)
  else
    let s := with_held true s in
    match (if waited then Ok tt else on_hold) with
    | Err e => (s, Err e)
    | Ok _ =>
        match shutdown with
        | [] | true :: _ => (s, Err ShutdownRequested)
        | false :: shutdown =>
            match source_wait SEAT_WAIT (st_source s) with
            | (source, Err e) => (with_source s source, Err e)
            | (source, Ok _) =>
                let s := with_source s source in
                let unknown := bool_decide (st_active s = Some UnknownActive) in
                wait_loop shutdown on_hold true (look_if_changed unknown s)
            end
        end
    end.

(** [self.active.is_none() || self.changed(false)]: the source is not asked
    before the first look. *)
Definition wait_for_turn (shutdown : list bool) (on_hold : result unit SeatError) (s : Seat S)
    : Seat S * result unit SeatError :=
  let s := match st_active s with None => seat_look s | Some _ => look_if_changed false s end in
  wait_loop shutdown on_hold false s.

Definition seat_plugged (s : Seat S) : Seat S := {|
  st_source := source_plugged (st_source s); st_owner := st_owner s; st_active := st_active s;
  st_record := st_record s; st_under := st_record s; st_retired := false; st_held := st_held s
|}.

(** *** [check] *)

(** After a look: must the device go? *)
Definition judge (s : Seat S) : Seat S :=
  if negb (seat_allowed s) then with_held true (retire s)
  else if bool_decide (st_record s = st_under s) then s
  else retire s.

Definition seat_check (report : bool) (s : Seat S) : Seat S * result unit SeatError :=
  let s :=
    if st_retired s then s
    else let (s, changed) := seat_changed report s in if changed then judge (seat_look s) else s in
  (s, if st_retired s then Err Unplugged else Ok tt).

End Seats.

(** *** [SeatDevice] *)

Class HidDevice (D : Type) : Type := {
  try_read_frame : M D (option bytes) SeatError;
  write_frame : bytes -> M D unit SeatError
}.

Record SeatDevice (D S : Type) : Type := { sd_device : D; sd_seat : Seat S }.

Arguments sd_device {D S} s.
Arguments sd_seat {D S} s.

Section Devices.

Context {D S : Type} `{HidDevice D} `{SeatSource S}.

Definition on_device {A} (m : M D A SeatError) : M (SeatDevice D S) A SeatError := fun s =>
  let (d, r) := m (sd_device s) in ({| sd_device := d; sd_seat := sd_seat s |}, r).

Definition on_seat {A} (m : Seat S -> Seat S * result A SeatError) : M (SeatDevice D S) A SeatError := fun s =>
  let (t, r) := m (sd_seat s) in ({| sd_device := sd_device s; sd_seat := t |}, r).

Definition seat_read_frame : M (SeatDevice D S) (option bytes) SeatError :=
  let* frame := on_device try_read_frame in
  on_seat (seat_check (is_some frame)) ;;*
  ret frame.

Definition seat_write_frame (frame : bytes) : M (SeatDevice D S) unit SeatError :=
  on_seat (seat_check false) ;;*
  on_device (write_frame frame).

End Devices.

(** ** What a source promises

    The interface is stated over what the key cannot see: [writes s seat] counts
    how often the seat's record has been written or removed, and [in_place s l]
    says the record of the seat is now as in [l].  [told s] says that every
    change has reached the watch and [quiet s] that the watch holds none.
    [shown s l seat n] says that the last successful look reported [l], and
    that nothing the key was told since contradicts the state of [seat] at its
    write number [n]. *)
Class SeatSourceLaws (S : Type) `{SeatSource S} : Type := {
  source_ok : S -> Prop;
  writes : S -> list Z -> nat;
  in_place : S -> Look -> Prop;
  told : S -> Prop;
  quiet : S -> Prop;
  shown : S -> Look -> list Z -> nat -> Prop;
  source_advances (s s' : S) : Prop := source_ok s' /\ forall seat, (writes s seat <= writes s' seat)%nat;
  source_keeps (s s' : S) : Prop :=
    source_advances s s' /\ forall l seat n, shown s l seat n -> shown s' l seat n;
  changed_keeps report s : source_ok s -> source_keeps s (fst (source_changed report s));
  wait_keeps t s : source_ok s -> source_keeps s (fst (source_wait t s));
  plugged_keeps s : source_ok s -> source_keeps s (source_plugged s);
  look_advances s : source_ok s -> source_advances s (fst (source_look s));
  look_shows s s' l : source_ok s -> source_look s = (s', Ok l) ->
    in_place s' l /\ exists n, (n <= writes s' (source_seat s'))%nat /\ shown s' l (source_seat s') n;
  look_again s s' l l' seat n : source_ok s -> shown s l seat n -> source_look s = (s', Ok l') ->
    look_record l' = look_record l -> shown s' l' seat n;
  changed_certain report s s' l seat n : source_ok s -> shown s l seat n ->
    source_changed report s = (s', Ok false) -> told s' -> quiet s' /\ in_place s' l;
  shown_true s l seat n : source_ok s -> shown s l seat n -> told s -> quiet s ->
    source_seat s = seat /\ writes s seat = n
}.

(** * What [Seat] guarantees over any source that keeps its promise

    The invariant of a device being served, preserved by every report read and
    written, and what it says of the seat when a report is handled. *)



Section Guarantees.

Context {S : Type} `{SeatSourceLaws S}.


Definition same_device (s other : Seat S) : Prop :=
  st_owner other = st_owner s /\ st_active other = st_active s /\ st_record other = st_record s /\
  st_under other = st_under s /\ st_retired other = st_retired s.

(** Before a device: what was looked at is what was shown. *)
Definition looked (s : Seat S) : Prop :=
  source_ok (st_source s) /\
  forall a, st_active s = Some a -> a = UnknownActive \/
    exists l seat n, a = look_active l /\ st_record s = Some (look_record l) /\
      (n <= writes (st_source s) seat)%nat /\ shown (st_source s) l seat n.

(** With a device: it must go, or it was created under the record last looked
    at, which lets it exist. *)
Definition serves (seat : list Z) (n : nat) (s : Seat S) : Prop :=
  source_ok (st_source s) /\ (n <= writes (st_source s) seat)%nat /\
  (st_retired s = true \/
   exists l, st_active s = Some (look_active l) /\ st_record s = Some (look_record l) /\
     st_under s = Some (look_record l) /\ allows s (look_active l) = true /\ shown (st_source s) l seat n).

Lemma looked_new source owner : source_ok source -> looked (seat_new source owner).
Proof. by intros Hs. Qed.

Lemma looked_moved s source : looked s -> source_keeps (st_source s) source -> looked (with_source s source).
Proof.
  intros [Hok Hl] [[Hok' Hw] Hsh]. split; [done|]. intros a Ha.
  destruct (Hl a Ha) as [->|(l & seat & n & -> & Hr & Hn & Hs)]; [by left|]. right. exists l, seat, n.
  cbn [st_source with_source st_record]. split_and!; [done|done| |by apply Hsh]. specialize (Hw seat). lia.
Qed.

Lemma looked_look s : looked s -> looked (seat_look s).
Proof.
  intros [Hok _]. unfold seat_look. destruct (source_look (st_source s)) as [source [l|e]] eqn:El.
  - pose proof (look_advances _ Hok) as [Ho _]. rewrite El in Ho.
    destruct (look_shows _ _ _ Hok El) as (_ & n & Hn & Hs). split; [done|]. cbn [st_active st_record st_source].
    intros a [= <-]. right. by exists l, (source_seat source), n.
  - pose proof (look_advances _ Hok) as [Ho _]. rewrite El in Ho. split; [done|]. intros a [= <-]. by left.
Qed.

Lemma changed_moves report s s' b : source_ok (st_source s) -> seat_changed report s = (s', b) ->
  exists source, s' = with_source s source /\ source_keeps (st_source s) source /\
    (b = false -> source_changed report (st_source s) = (source, Ok false)).
Proof.
  intros Hok. unfold seat_changed. pose proof (changed_keeps report _ Hok) as Hk.
  destruct (source_changed report (st_source s)) as [source [c|e]]; intros [= <- <-]; exists source.
  - by split_and!; [| |intros ->].
  - by split_and!.
Qed.

Lemma looked_if_changed first s : looked s -> looked (look_if_changed first s).
Proof.
  intros Hl. unfold look_if_changed. destruct (seat_changed false s) as [s1 b] eqn:Ec.
  apply changed_moves in Ec as (source & -> & Hk & _); [|apply Hl].
  destruct (b || first); [apply looked_look|]; by apply looked_moved.
Qed.

Lemma owner_if_changed first s : st_owner (look_if_changed first s) = st_owner s.
Proof.
  unfold look_if_changed, seat_changed. destruct (source_changed false (st_source s)) as [source r].
  case_match; [|done]. unfold seat_look. by destruct (source_look _).
Qed.

(** The wait ends well only when the last look lets a device exist. *)
Lemma waited shutdown on_hold waited_ s s' :
  looked s -> wait_loop shutdown on_hold waited_ s = (s', Ok tt) ->
  looked s' /\ seat_allowed s' = true /\ st_owner s' = st_owner s.
Proof.
  revert waited_ s. induction shutdown as [|b shutdown IH]; intros w s Hl; cbn [wait_loop];
    (destruct (seat_allowed s) eqn:Ea; [by intros [= <-]|]); (destruct (if w then _ else _) as [u|e]; [|done]); [done|].
  destruct b; [done|]. cbn [st_source with_held].
  destruct (source_wait SEAT_WAIT (st_source s)) as [source [u'|e]] eqn:Ew; [|done].
  intros Hr. apply IH in Hr as (L & A & O).
  - split_and!; [done|done|]. by rewrite O, owner_if_changed.
  - apply looked_if_changed. apply (looked_moved (with_held true s)); [done|].
    pose proof (wait_keeps SEAT_WAIT _ (proj1 Hl)) as Hk. by rewrite Ew in Hk.
Qed.

Lemma turn_came shutdown on_hold s s' :
  looked s -> wait_for_turn shutdown on_hold s = (s', Ok tt) ->
  looked s' /\ seat_allowed s' = true /\ st_owner s' = st_owner s.
Proof.
  intros Hl Hr. unfold wait_for_turn in Hr. destruct (st_active s).
  - apply waited in Hr as (L & A & O); [|by apply looked_if_changed]. by rewrite O, owner_if_changed.
  - apply waited in Hr as (L & A & O); [|by apply looked_look]. split_and!; [done|done|]. rewrite O.
    unfold seat_look. by destruct (source_look _).
Qed.

Lemma plugged_serves s : looked s -> seat_allowed s = true ->
  exists seat n, serves seat n (seat_plugged s) /\ (n <= writes (st_source (seat_plugged s)) seat)%nat.
Proof.
  intros [Hok Hl] Ha. unfold seat_allowed in Ha. destruct (st_active s) as [a|] eqn:Ea; [|done].
  destruct (Hl a eq_refl) as [->|(l & seat & n & -> & Hr & Hn & Hs)]; [done|].
  destruct (plugged_keeps _ Hok) as [[Ho Hw] Hsh]. exists seat, n. cbn [st_source seat_plugged].
  assert (Hn' : (n <= writes (source_plugged (st_source s)) seat)%nat) by (specialize (Hw seat); lia).
  split; [|done]. split_and!; [done|done|]. right. exists l. cbn [st_active st_record st_under seat_plugged st_source].
  rewrite Ea, Hr. split_and!; try done. by apply Hsh.
Qed.

(** What a check that lets the device go on serving has established. *)
Definition vouched (seat : list Z) (n : nat) (s : Seat S) : Prop :=
  exists l, st_under s = Some (look_record l) /\ allows s (look_active l) = true /\
    (told (st_source s) -> in_place (st_source s) l /\
       (quiet (st_source s) -> source_seat (st_source s) = seat /\ writes (st_source s) seat = n)).

Lemma serves_moved seat n s source : serves seat n s -> source_keeps (st_source s) source ->
  serves seat n (with_source s source).
Proof.
  intros (Hok & Hn & Hs) [[Ho Hw] Hsh]. cbn [serves with_source st_source]. split_and!; [done| |].
  - cbn. specialize (Hw seat). lia.
  - destruct Hs as [Hr|(l & A & R & U & Al & Sh)]; [by left|]. right. exists l. split_and!; try done. by apply Hsh.
Qed.

Lemma judged seat n s (Hs : serves seat n s) : st_retired s = false ->
  let s' := judge (seat_look s) in
  serves seat n s' /\ (st_retired s' = false -> vouched seat n s').
Proof.
  intros Hr. destruct Hs as (Hok & Hn & [Hx|(l & A & R & U & Al & Sh)]); [congruence|]. unfold seat_look.
  destruct (source_look (st_source s)) as [source r] eqn:El.
  pose proof (look_advances _ Hok) as [Ho Hw]. rewrite El in Ho, Hw. cbn [fst] in Ho, Hw.
  assert (Hn' : (n <= writes source seat)%nat) by (specialize (Hw seat); lia).
  destruct r as [l'|e]; unfold judge, seat_allowed; cbn [st_active st_record st_under st_retired].
  - destruct (look_shows _ _ _ Hok El) as (Hp & _).
    destruct (allows _ (look_active l')) eqn:Ea; cbn [negb].
    + destruct (decide (Some (look_record l') = st_under s)) as [Hu|Hu];
        [rewrite (bool_decide_eq_true_2 _ Hu)|rewrite (bool_decide_eq_false_2 _ Hu)].
      * rewrite U in Hu. injection Hu as Hu. pose proof (look_again _ _ _ _ _ _ Hok Sh El Hu) as Sh'.
        split.
        { split_and!; [done|done|]. right. exists l'. cbn [st_active st_record st_under st_source]. rewrite U, Hu.
          by split_and!. }
        intros _. exists l'. cbn [st_under st_source]. rewrite U, Hu. split_and!; [done|done|]. intros Ht.
        split; [done|]. intros Hq. by eapply shown_true.
      * split; [|done]. split_and!; [done|done|by left].
    + split; [|done]. split_and!; [done|done|by left].
  - split; [|done]. split_and!; [done|done|by left].
Qed.

Lemma judge_same s : st_owner (judge (seat_look s)) = st_owner s /\ st_under (judge (seat_look s)) = st_under s.
Proof.
  unfold seat_look, judge. destruct (source_look _). by repeat case_match.
Qed.

Lemma advances_trans a b c : source_advances a b -> source_advances b c -> source_advances a c.
Proof. intros [_ H1] [H2 H3]. split; [done|]. intros seat. specialize (H1 seat). specialize (H3 seat). lia. Qed.

Lemma judge_advances s : source_ok (st_source s) -> source_advances (st_source s) (st_source (judge (seat_look s))).
Proof.
  intros Hok. assert (Hj : st_source (judge (seat_look s)) = fst (source_look (st_source s))).
  { unfold seat_look, judge. destruct (source_look _). by repeat case_match. }
  rewrite Hj. by apply look_advances.
Qed.

Lemma check_advances report s : source_ok (st_source s) ->
  source_advances (st_source s) (st_source (fst (seat_check report s))).
Proof.
  intros Hok. unfold seat_check. cbn [fst]. destruct (st_retired s); [by split|].
  destruct (seat_changed report s) as [s1 b] eqn:Ec.
  apply changed_moves in Ec as (source & -> & [Ha _] & _); [|done]. destruct b; [|done].
  eapply advances_trans; [exact Ha|]. apply (judge_advances (with_source s source)), Ha.
Qed.

(** A check keeps the invariant, and vouches for the seat when it passes. *)
Lemma checked seat n report s s' r :
  serves seat n s -> seat_check report s = (s', r) ->
  serves seat n s' /\ st_owner s' = st_owner s /\ st_under s' = st_under s /\
  (r = Ok tt -> vouched seat n s').
Proof.
  intros Hs. unfold seat_check. destruct (st_retired s) eqn:Hr.
  - rewrite Hr. by intros [= <- <-].
  - destruct (seat_changed report s) as [s1 b] eqn:Ec.
    apply changed_moves in Ec as (source & -> & Hk & Hf); [|apply Hs].
    pose proof (serves_moved _ _ _ _ Hs Hk) as Hs1. destruct b.
    + intros [= <- <-]. destruct (judged seat n (with_source s source) Hs1 Hr) as [Hj Hv].
      destruct (judge_same (with_source s source)) as [-> ->]. split_and!; [done|done|done|].
      destruct (st_retired (judge (seat_look (with_source s source)))); [done|]. intros _. by apply Hv.
    + cbn [with_source st_retired]. rewrite Hr. intros [= <- <-]. split_and!; [done|done|done|]. intros _.
      destruct Hs as (Hok & Hn & [Hx|(l & A & R & U & Al & Sh)]); [congruence|].
      exists l. cbn [st_under st_source with_source]. split_and!; [done|done|]. intros Ht.
      destruct (changed_certain _ _ _ _ _ _ Hok Sh (Hf eq_refl) Ht) as [Hq Hp]. split; [done|]. intros _.
      destruct Hk as [[Ho _] Hsh]. eapply shown_true; [done|by apply Hsh|done|done].
Qed.

End Guarantees.

(** ** A device in service *)

Section Service.

Context {D S : Type} `{HidDevice D} `{SeatSourceLaws S}.

Inductive ReportOp : Type :=
| ReadReport
| WriteReport (frame : bytes).

Definition report_op (op : ReportOp) : M (SeatDevice D S) (option bytes) SeatError :=
  match op with
  | ReadReport => seat_read_frame
  | WriteReport frame => seat_write_frame frame ;;* ret None
  end.

(** The device keeps being used whatever the earlier answers were. *)
Fixpoint report_ops (ops : list ReportOp) (s : SeatDevice D S) : SeatDevice D S :=
  match ops with
  | [] => s
  | op :: ops => report_ops ops (fst (report_op op s))
  end.

Lemma report_checked op seat n (s s' : SeatDevice D S) r :
  serves seat n (sd_seat s) -> report_op op s = (s', r) ->
  serves seat n (sd_seat s') /\ st_owner (sd_seat s') = st_owner (sd_seat s) /\
  (is_ok r = true -> vouched seat n (sd_seat s')).
Proof.
  intros Hs. destruct op as [|frame]; cbn [report_op]; unfold seat_read_frame, seat_write_frame, mbind_st, on_device, on_seat, ret.
  - destruct (try_read_frame (sd_device s)) as [d [f|e]]; [|by intros [= <- <-]]. cbn [sd_device sd_seat].
    destruct (seat_check _ (sd_seat s)) as [t [[]|e]] eqn:Ec;
      apply checked with (1 := Hs) in Ec as (? & ? & ? & Hv); intros [= <- <-]; cbn [sd_seat]; split_and!; try done.
    intros _. by apply Hv.
  - destruct (seat_check _ (sd_seat s)) as [t [[]|e]] eqn:Ec;
      apply checked with (1 := Hs) in Ec as (? & ? & ? & Hv); cbn [sd_device sd_seat]; [|by intros [= <- <-]].
    destruct (write_frame frame (sd_device s)) as [d [u|e]]; intros [= <- <-]; cbn [sd_seat]; split_and!; try done.
    intros _. by apply Hv.
Qed.

Lemma report_advances op (s : SeatDevice D S) : source_ok (st_source (sd_seat s)) ->
  source_advances (st_source (sd_seat s)) (st_source (sd_seat (fst (report_op op s)))).
Proof.
  intros Hok. destruct op as [|frame]; cbn [report_op]; unfold seat_read_frame, seat_write_frame, mbind_st, on_device, on_seat, ret.
  - destruct (try_read_frame (sd_device s)) as [d [f|e]]; [|by split]. cbn [sd_device sd_seat].
    pose proof (check_advances (is_some f) _ Hok) as Hc. by destruct (seat_check _ (sd_seat s)) as [t [[]|e]].
  - pose proof (check_advances false _ Hok) as Hc. destruct (seat_check _ (sd_seat s)) as [t [[]|e]]; [|done].
    cbn [sd_device sd_seat]. by destruct (write_frame frame (sd_device s)) as [d [u|e]].
Qed.

Lemma served ops seat n (s : SeatDevice D S) : serves seat n (sd_seat s) ->
  serves seat n (sd_seat (report_ops ops s)) /\
  st_owner (sd_seat (report_ops ops s)) = st_owner (sd_seat s) /\
  source_advances (st_source (sd_seat s)) (st_source (sd_seat (report_ops ops s))).
Proof.
  revert s. induction ops as [|op ops IH]; intros s Hs; cbn [report_ops]; [split_and!; [done..|split; [apply Hs|done]]|].
  pose proof (report_advances op s (proj1 Hs)) as Ha. destruct (report_op op s) as [s1 r] eqn:Eo.
  pose proof (report_checked _ _ _ _ _ _ Hs Eo) as (Hs1 & O1 & _). destruct (IH s1 Hs1) as (Hs2 & O2 & W2).
  cbn [fst] in *. split_and!; [done|congruence|by eapply advances_trans].
Qed.

(** A report that is handled or sent, however many came before it: unless a
    change has yet to reach the watch, the seat's record now lets the owner's
    device exist; and unless one waits to be read, nothing has been written to
    the record since the device was created. *)
Lemma report_vouched owner shutdown on_hold source (s1 : Seat S) device ops op (s2 : SeatDevice D S) r :
  source_ok source -> wait_for_turn shutdown on_hold (seat_new source owner) = (s1, Ok tt) ->
  report_op op (report_ops ops {| sd_device := device; sd_seat := seat_plugged s1 |}) = (s2, r) ->
  is_ok r = true -> told (st_source (sd_seat s2)) ->
  exists l, match look_active l with Nobody => True | ActiveSession _ uid => uid = owner | UnknownActive => False end /\
    in_place (st_source (sd_seat s2)) l /\
    (quiet (st_source (sd_seat s2)) ->
     let seat := source_seat (st_source (sd_seat s2)) in
     writes (st_source (sd_seat s2)) seat = writes (st_source (seat_plugged s1)) seat).
Proof.
  intros Hok Hw Hr Hokr Ht. apply turn_came in Hw as (L & A & O); [|by apply looked_new].
  destruct (plugged_serves s1 L A) as (seat & n & Hs & Hn). cbn [st_owner seat_new] in O.
  destruct (served ops seat n {| sd_device := device; sd_seat := seat_plugged s1 |} Hs) as (Hs2 & O2 & W2).
  pose proof (report_advances op _ (proj1 Hs2)) as W3. rewrite Hr in W3.
  apply (report_checked _ _ _ _ _ _ Hs2) in Hr as (Hs3 & O3 & Hv).
  destruct (Hv Hokr) as (l & _ & Al & Hl). destruct (Hl Ht) as [Hp Hq].
  exists l. split_and!; [|done|].
  - unfold allows in Al. destruct (look_active l); [done| |done]. apply Z.eqb_eq in Al.
    cbn [sd_seat seat_plugged st_owner] in O2. congruence.
  - intros Hqu. cbv zeta. destruct (Hq Hqu) as [-> E]. cbn [fst] in W3.
    pose proof (advances_trans _ _ _ W2 W3) as [_ W]. specialize (W seat). cbn [sd_seat] in W. lia.
Qed.

End Service.
