(* ===== verification/Transport.v ===== *)
(** * The transport and the app's worker ([crates/pqkey/src/transport/mod.rs],
    [transport/identification.rs])

    The transport reads packets, drives the CTAPHID state machine and writes
    packets; a worker thread is_answer_to requests with the app, another delivers
    identifications.  The threads share queues, the interrupt flag and what the
    app says about waiting for the user.  A turn of the schedule is what the
    other threads do between two steps of the transport, with the time and
    whether shutdown was asked_for for; so a statement for every schedule is one for
    every interleaving.  What the app is_answer_to, and when, is the schedule's.
    A run ends where its schedule ends, so it can end at any step.  Times are
    nanoseconds since the transport started.  Every turn of a loop takes a turn
    of the schedule, so a schedule's length is fuel enough ([serve_fuel]).
    Waking a sleeping loop and the version reported are left out. *)

From stdpp Require Import list.
From S2P Require Import Prelude Constants Alg Crypto Cbor Records PinRetry Token Presence Store.
From S2P Require Import CredentialKey Signing Engine U2f Dispatch Ctaphid HidHost HidHostInv HidHostProofs Seat.

Record AppResponse : Type := {
  as_payload : bytes;
  as_presence_finished : option Z;
  as_u2f_enabled : bool;
  as_reset : bool
}.

(** A reset that may have invalidated credentials: it succeeded, or failed in
    the store; refusal, timeout and cancellation do not count. *)
Definition is_reset_answer (request : AppRequest) (payload : bytes) : bool :=
  bool_decide (ar_command request = Cbor)
  && bool_decide (head (ar_payload request) = Some CTAP_CMD_RESET)
  && is_some_and (head payload)
       (fun status => (status =? CTAP2_OK) || (status =? CTAP2_ERR_PROCESSING)
                      || (status =? CTAP2_ERR_KEY_STORE_FULL)).

Section Worker.

Context {S : Type} `{Crypto} `{KeyCrypto} `{SigningCrypto} `{Ciborium} `{Certificates} `{CredentialStore S}.

(** One turn of the worker; [finished] is when presence ended, if the user was
    asked_for. *)
Definition run_app (finished : option Z) (request : AppRequest) (a : CtapApp S)
    : CtapApp S * AppResponse :=
  let (b, payload) := if bool_decide (ar_command request = Msg) then call_u2f (ar_payload request) a
                      else call (ar_payload request) a in
  (b, {| as_payload := payload; as_presence_finished := finished; as_u2f_enabled := u2f_enabled b;
         as_reset := is_reset_answer request payload |}).

End Worker.

(** ** What the threads share *)

(** The worker waits for a request, calls the app, has the app's answer, and
    has marked the flag idle but not yet sent the answer. *)
Inductive WorkerStage : Type :=
| WorkerWaits
| WorkerCalls (request : AppRequest) (before : option Z)
| WorkerAnswered (response : AppResponse)
| WorkerReplies (response : AppResponse).

(** The identification worker holds the token of the one it delivers. *)
Record Shared : Type := MkShared {
  sh_requests : list AppRequest;
  sh_responses : list AppResponse;
  sh_flag : InterruptFlag;
  sh_waiting : bool;
  sh_times : option Z * option Z;
  sh_worker : WorkerStage;
  sh_id_requests : list IdentificationRequest;
  sh_id_worker : option Z;
  sh_id_responses : list (Z * bool)
}.

Definition set_sh_requests (v : list AppRequest) (sh : Shared) : Shared :=
  MkShared v (sh_responses sh) (sh_flag sh) (sh_waiting sh) (sh_times sh) (sh_worker sh) (sh_id_requests sh)
    (sh_id_worker sh) (sh_id_responses sh).

Definition set_sh_responses (v : list AppResponse) (sh : Shared) : Shared :=
  MkShared (sh_requests sh) v (sh_flag sh) (sh_waiting sh) (sh_times sh) (sh_worker sh) (sh_id_requests sh)
    (sh_id_worker sh) (sh_id_responses sh).

Definition set_sh_flag (v : InterruptFlag) (sh : Shared) : Shared :=
  MkShared (sh_requests sh) (sh_responses sh) v (sh_waiting sh) (sh_times sh) (sh_worker sh) (sh_id_requests sh)
    (sh_id_worker sh) (sh_id_responses sh).

Definition set_sh_presence (waiting : bool) (times : option Z * option Z) (sh : Shared) : Shared :=
  MkShared (sh_requests sh) (sh_responses sh) (sh_flag sh) waiting times (sh_worker sh) (sh_id_requests sh)
    (sh_id_worker sh) (sh_id_responses sh).

Definition set_sh_worker (v : WorkerStage) (sh : Shared) : Shared :=
  MkShared (sh_requests sh) (sh_responses sh) (sh_flag sh) (sh_waiting sh) (sh_times sh) v (sh_id_requests sh)
    (sh_id_worker sh) (sh_id_responses sh).

Definition set_sh_identification (requests : list IdentificationRequest) (worker : option Z)
    (responses : list (Z * bool)) (sh : Shared) : Shared :=
  MkShared (sh_requests sh) (sh_responses sh) (sh_flag sh) (sh_waiting sh) (sh_times sh) (sh_worker sh) requests
    worker responses.

(** At the start; what the app last said of the user may be of an earlier
    transport. *)
Definition new_shared (waiting : bool) (times : option Z * option Z) : Shared :=
  MkShared [] [] IDLE waiting times WorkerWaits [] None [].

(** [WaitingForUser::set] at this time. *)
Definition set_waiting (waiting : bool) (at_ : Z) (sh : Shared) : Shared :=
  set_sh_presence waiting (if waiting then (Some at_, None) else (fst (sh_times sh), Some at_)) sh.

(** ** What the other threads do *)

Inductive Move : Type :=
| MTake
| MPresence (waiting : bool) (at_ : Z)
| MReturn (payload : bytes) (enabled : bool)
| MIdle
| MSend
| MIdTake
| MIdDone (delivered : bool).

(** The answer to [request], whose prompt before it was at [before]. *)
Definition response_to (request : AppRequest) (before : option Z) (times : option Z * option Z) (payload : bytes)
    (enabled : bool) : AppResponse := {|
  as_payload := payload;
  as_presence_finished := if bool_decide (fst times = before) then None else snd times;
  as_u2f_enabled := enabled;
  as_reset := is_reset_answer request payload
|}.

(** A move of a thread that is not at that point does nothing. *)
Definition move (m : Move) (sh : Shared) : Shared :=
  match m, sh_worker sh with
  | MTake, WorkerWaits =>
      match sh_requests sh with
      | r :: rest => set_sh_worker (WorkerCalls r (fst (sh_times sh))) (set_sh_requests rest sh)
      | [] => sh
      end
  | MPresence waiting at_, WorkerCalls _ _ => set_waiting waiting at_ sh
  | MReturn payload enabled, WorkerCalls r before =>
      set_sh_worker (WorkerAnswered (response_to r before (sh_times sh) payload enabled)) sh
  | MIdle, WorkerAnswered response => set_sh_worker (WorkerReplies response) (set_sh_flag (set_idle (sh_flag sh)) sh)
  | MSend, WorkerReplies response =>
      set_sh_worker WorkerWaits (set_sh_responses (sh_responses sh ++ [response]) sh)
  | MIdTake, _ =>
      match sh_id_worker sh, sh_id_requests sh with
      | None, r :: rest => set_sh_identification rest (Some (ir_token r)) (sh_id_responses sh) sh
      | _, _ => sh
      end
  | MIdDone delivered, _ =>
      match sh_id_worker sh with
      | Some token => set_sh_identification (sh_id_requests sh) None (sh_id_responses sh ++ [(token, delivered)]) sh
      | None => sh
      end
  | _, _ => sh
  end.

(** ** The transport *)

Record Turn : Type := { tn_moves : list Move; tn_now : Z; tn_shutdown : bool }.

(** [tr_trace]: what was done to the state machine so far. *)
Record Transport (D : Type) : Type := MkTransport {
  tr_device : D;
  tr_host : CtaphidHost;
  tr_shared : Shared;
  tr_presence_before : option Z;
  tr_schedule : list Turn;
  tr_trace : list host_event
}.

Arguments MkTransport {D} _ _ _ _ _ _.
Arguments tr_device {D} t.
Arguments tr_host {D} t.
Arguments tr_shared {D} t.
Arguments tr_presence_before {D} t.
Arguments tr_schedule {D} t.
Arguments tr_trace {D} t.

Inductive PollError : Type :=
| PollFailed (e : SeatError)
| ScheduleEnds
| OutOfFuel.

(** [INPUT_REPORT_INTERVAL] and [IDLE_WAIT], in milliseconds. *)
Definition INPUT_REPORT_INTERVAL : Z := 1.

Definition IDLE_WAIT : Z := 10.

(** [as_millis() as u64]. *)
Definition millis (at_ : Z) : Z := Z.max 0 at_ / 1000000.

Section Loop.

Context {D : Type} `{HidDevice D}.

#[local] Abbreviation Tr A := (M (Transport D) A PollError).

Definition tr_with_shared (sh : Shared) (t : Transport D) : Transport D :=
  MkTransport (tr_device t) (tr_host t) sh (tr_presence_before t) (tr_schedule t) (tr_trace t).

(** The other threads run until the transport's next step. *)
Definition next_turn : Tr Turn := fun t =>
  match tr_schedule t with
  | [] => (t, Err ScheduleEnds)
  | turn :: rest =>
      (MkTransport (tr_device t) (tr_host t) (fold_left (fun sh m => move m sh) (tn_moves turn) (tr_shared t))
         (tr_presence_before t) rest (tr_trace t), Ok turn)
  end.

(** A step of the transport on what is shared. *)
Definition on_shared {A} (f : Shared -> Shared * A) : Tr A :=
  let* _ := next_turn in
  fun t => let (sh, x) := f (tr_shared t) in (tr_with_shared sh t, Ok x).

(** A call of the state machine. *)
Definition host_call {A} (f : CtaphidHost -> CtaphidHost * A) (e : host_event) : Tr A := fun t =>
  let (h, x) := f (tr_host t) in
  (MkTransport (tr_device t) h (tr_shared t) (tr_presence_before t) (tr_schedule t) (tr_trace t ++ [e]), Ok x).

Definition host_do (e : host_event) : Tr unit := host_call (fun h => (host_step e h, tt)) e.

Definition with_device {A} (m : M D A SeatError) : Tr A :=
  let* _ := next_turn in
  fun t =>
    let (d, r) := m (tr_device t) in
    (MkTransport d (tr_host t) (tr_shared t) (tr_presence_before t) (tr_schedule t) (tr_trace t), map_err PollFailed r).

Definition tr_now : Tr Z := let* turn := next_turn in ret (millis (tn_now turn)).

Definition check_shutdown : Tr unit :=
  let* turn := next_turn in guard (negb (tn_shutdown turn)) (PollFailed ShutdownRequested).

(** [AppWorker::interrupt]. *)
Definition interrupt_app : Tr unit := on_shared (fun sh => (set_sh_flag (fst (interrupt (sh_flag sh))) sh, tt)).

(** [if self.host.take_interrupt() { self.app.interrupt() }]. *)
Definition pass_interrupt : Tr unit :=
  let* interrupted := host_call take_interrupt ETakeInterrupt in
  if interrupted then interrupt_app else ret tt.

Definition try_response : Tr (option AppResponse) :=
  on_shared (fun sh => match sh_responses sh with
                       | response :: rest => (set_sh_responses rest sh, Some response)
                       | [] => (sh, None)
                       end).

Definition try_identification : Tr (option (Z * bool)) :=
  on_shared (fun sh => match sh_id_responses sh with
                       | response :: rest =>
                           (set_sh_identification (sh_id_requests sh) (sh_id_worker sh) rest sh, Some response)
                       | [] => (sh, None)
                       end).

(** One answer of the app. *)
Definition take_response (response : AppResponse) : Tr unit :=
  (if as_reset response then host_do EResetU2f else ret tt) ;;*
  host_do (EU2fEnabled (as_u2f_enabled response)) ;;*
  let* now := tr_now in
  host_do (EResponse (as_payload response) now (option_map millis (as_presence_finished response))).

Fixpoint collect_app (fuel : nat) (received : bool) : Tr bool :=
  match fuel with
  | O => fail OutOfFuel
  | S fuel =>
      let* response := try_response in
      match response with
      | Some response => take_response response ;;* collect_app fuel true
      | None => ret received
      end
  end.

Fixpoint collect_identification (fuel : nat) (received : bool) : Tr bool :=
  match fuel with
  | O => fail OutOfFuel
  | S fuel =>
      let* response := try_identification in
      match response with
      | Some (token, delivered) =>
          let* now := tr_now in
          host_do (EIdentified token delivered now) ;;* collect_identification fuel true
      | None => ret received
      end
  end.

Definition collect_responses (fuel : nat) : Tr bool :=
  let* received := collect_app fuel false in collect_identification fuel received.

(** [observe_presence]. *)
Definition observe_presence : Tr unit :=
  let* times := on_shared (fun sh => (sh, sh_times sh)) in
  let* before := gets tr_presence_before in
  if is_some (fst times) && negb (bool_decide (fst times = before)) then
    host_do (EPresence true) ;;*
    match snd times with
    | Some finished => host_do (EPresenceFinished (millis finished))
    | None => ret tt
    end
  else ret tt.

Fixpoint read_frames (fuel : nat) (read : bool) : Tr bool :=
  match fuel with
  | O => fail OutOfFuel
  | S fuel' =>
      let* frame := with_device try_read_frame in
      match frame with
      | None => ret read
      | Some frame =>
          check_shutdown ;;*
          let* _ := collect_responses fuel in
          let* now := tr_now in
          observe_presence ;;*
          host_do (ETimeout now) ;;*
          host_do (EFrame frame now) ;;*
          read_frames fuel' true
      end
  end.

(** The pause before every report but the first. *)
Definition pause_between (fuel : nat) (wrote : bool) : Tr unit :=
  if wrote then
    let* _ := next_turn in
    let* _ := read_frames fuel false in
    pass_interrupt ;;*
    let* _ := next_turn in
    ret tt
  else ret tt.

Fixpoint flush_pending (fuel : nat) (wrote : bool) : Tr bool :=
  match fuel with
  | O => fail OutOfFuel
  | S fuel' =>
      let* next := gets (fun t => next_outgoing_frame (tr_host t)) in
      match next with
      | None => ret wrote
      | Some frame =>
          pause_between fuel wrote ;;*
          check_shutdown ;;*
          let* now := tr_now in
          host_do (ETimeout now) ;;*
          let* current := gets (fun t => is_outgoing_current frame (tr_host t)) in
          if current then
            with_device (write_frame (of_frame frame)) ;;*
            host_do (EWritten frame) ;;*
            flush_pending fuel' true
          else flush_pending fuel' wrote
      end
  end.

(** [AppWorker::submit]. *)
Definition submit_request (request : AppRequest) : Tr unit :=
  let* before := on_shared (fun sh => (sh, fst (sh_times sh))) in
  modify (fun t => MkTransport (tr_device t) (tr_host t) (tr_shared t) before (tr_schedule t) (tr_trace t)) ;;*
  on_shared (fun sh => (set_sh_flag (set_working (sh_flag sh)) sh, tt)) ;;*
  on_shared (fun sh => (set_sh_requests (sh_requests sh ++ [request]) sh, tt)).

(** The next request goes to the app, if it can. *)
Definition hand_over : Tr bool :=
  let* request := host_call take_app_request ETakeRequest in
  match request with
  | Some request => submit_request request ;;* ret true
  | None => ret false
  end.

(** [IdentificationWorker::submit]: one may wait behind the one delivered. *)
Definition submit_identification (request : IdentificationRequest) : Tr bool :=
  on_shared (fun sh => match sh_id_requests sh with
                       | [] => (set_sh_identification [request] (sh_id_worker sh) (sh_id_responses sh) sh, true)
                       | _ => (sh, false)
                       end).

Definition hand_over_identification : Tr bool :=
  let* request := host_call take_identification_request ETakeIdentification in
  match request with
  | Some request =>
      let* taken := submit_identification request in
      (if taken then ret tt
       else let* now := tr_now in host_do (EIdentified (ir_token request) false now)) ;;*
      ret true
  | None => ret false
  end.

Definition poll (fuel : nat) : Tr bool :=
  check_shutdown ;;*
  let* read := read_frames fuel false in
  pass_interrupt ;;*
  let* collected := collect_responses fuel in
  let* submitted := hand_over in
  let* identifying := hand_over_identification in
  let* now := tr_now in
  observe_presence ;;*
  host_do (ETimeout now) ;;*
  let* waiting := on_shared (fun sh => (sh, sh_waiting sh)) in
  host_do (EKeepalive waiting now) ;;*
  let* flushed := flush_pending fuel false in
  ret (read || collected || submitted || identifying || flushed).

(** How long [wait] sleeps at most. *)
Definition wait_timeout (now : Z) (h : CtaphidHost) : Z :=
  match next_deadline h with
  | Some deadline => Z.min IDLE_WAIT (Z.max 0 (deadline - now))
  | None => IDLE_WAIT
  end.

(** [wait]: the schedule's next turn is when it wakes. *)
Definition wait : Tr unit :=
  check_shutdown ;;*
  let* now := tr_now in
  let* timeout := gets (fun t => wait_timeout now (tr_host t)) in
  if timeout =? 0 then ret tt else let* _ := next_turn in ret tt.

(** [serve], for so many passes. *)
Fixpoint serve (passes fuel : nat) : Tr unit :=
  match passes with
  | O => fail OutOfFuel
  | S passes =>
      let* busy := poll fuel in
      (if busy then ret tt else wait) ;;*
      serve passes fuel
  end.

(** [AppWorker::stop]: the request being worked on is cancelled. *)
Definition stop_app (t : Transport D) : Transport D :=
  tr_with_shared (set_sh_flag (fst (interrupt (sh_flag (tr_shared t)))) (tr_shared t)) t.

(** The transport [exec] starts with. *)
Definition new_transport (device : D) (host : CtaphidHost) (waiting : bool) (times : option Z * option Z)
    (schedule : list Turn) : Transport D :=
  MkTransport device host (new_shared waiting times) None schedule [].

(** [exec]: serve, then stop the app's request. *)
Definition exec (passes fuel : nat) : Tr unit := fun t =>
  let (t, r) := serve passes fuel t in
  (stop_app t, r).

End Loop.

(** One response taken in [collect_responses]. *)
Definition collect_response (response : AppResponse) (now : Z) (h : CtaphidHost) : CtaphidHost :=
  let h := if as_reset response then reset_u2f h else h in
  let h := set_u2f_enabled (as_u2f_enabled response) h in
  app_response (as_payload response) now (option_map millis (as_presence_finished response)) h.

(** ** Who asks for an interrupt *)

Lemma calm_enqueue channel command payload h :
  ch_interrupt_app (enqueue_message channel command payload h) = ch_interrupt_app h.
Proof. by rewrite enqueue_message_appended. Qed.

Lemma calm_finish channel code h : ch_interrupt_app (finish_error channel code h) = ch_interrupt_app h.
Proof. apply calm_enqueue. Qed.

Lemma calm_error channel code h : ch_interrupt_app (enqueue_error channel code h) = ch_interrupt_app h.
Proof. by rewrite enqueue_error_appended. Qed.

Lemma calm_lease now h : ch_interrupt_app (expire_lease now h) = ch_interrupt_app h.
Proof. unfold expire_lease. by destruct (is_some_and _ _). Qed.

Ltac calms := repeat (case_match || (progress simplify_eq) || (progress cbn [ch_interrupt_app set_ch_state set_ch_u2f
  set_ch_lease set_ch_message set_ch_denied_polls set_ch_next_identification set_ch_channels set_ch_app_busy
  set_ch_app_command set_ch_rng_draws fst snd]) || rewrite ?calm_enqueue, ?calm_finish, ?calm_error, ?calm_lease); try done.

Lemma calm_poll_answer channel now h h' o :
  poll_answer channel now h = (h', o) -> ch_interrupt_app h' = ch_interrupt_app h /\
    forall x, o = Some x -> ch_interrupt_app x = ch_interrupt_app h.
Proof. unfold poll_answer. intros E. calms; split; try done; intros x [= <-]; calms. Qed.

Lemma calm_denied_answer channel now h h' o :
  denied_answer channel now h = (h', o) -> ch_interrupt_app h' = ch_interrupt_app h /\
    forall x, o = Some x -> ch_interrupt_app x = ch_interrupt_app h.
Proof. unfold denied_answer. intros E. calms; split; try done; intros x [= <-]; calms. Qed.

Lemma calm_complete channel command now h : ch_interrupt_app (complete_message channel command now h) = ch_interrupt_app h.
Proof.
  assert (Hm : ch_interrupt_app (complete_msg channel now h) = ch_interrupt_app h).
  { unfold complete_msg. destruct (poll_answer channel now h) as [a o] eqn:Ea. apply calm_poll_answer in Ea as [Ea Eo].
    destruct o as [x|]; [by apply Eo|]. rewrite <- Ea. destruct (denied_answer channel now a) as [b o] eqn:Eb.
    apply calm_denied_answer in Eb as [Eb Eo']. destruct o as [x|]; [by apply Eo'|]. by rewrite <- Eb. }
  unfold complete_message, complete_wink, complete_lock, start_processing. destruct command; try exact Hm; calms.
Qed.

Lemma calm_request channel command len data now h :
  ch_interrupt_app (handle_request channel command len data now h) = ch_interrupt_app h.
Proof. unfold handle_request, begin_request. calms; by rewrite ?calm_complete. Qed.

Lemma calm_continuation channel sequence data now h :
  ch_interrupt_app (handle_continuation channel sequence data now h) = ch_interrupt_app h.
Proof. unfold handle_continuation. calms; by rewrite ?calm_complete. Qed.

Lemma calm_allocate attempts h h' o : allocate_channel attempts h = (h', o) -> ch_interrupt_app h' = ch_interrupt_app h.
Proof.
  revert h. induction attempts as [|n IH]; intros h; cbn [allocate_channel]; [by intros [= <- _]|].
  case_match; [intros E; by apply IH in E|]. case_match; [by intros [= <- _]|]. intros E. by apply IH in E.
Qed.

(** At [now] nobody asks for the answer to [request] any more: it has none, and
    the last poll for it is more than 3 seconds ago or, once the user was asked,
    the time the approval stands for is over. *)
Definition poll_abandoned (channel : Z) (request : AppRequest) (now : Z) (h : CtaphidHost) : Prop :=
  exists poll, ch_u2f h = Some poll /\ up_channel poll = channel /\ up_request poll = ar_payload request /\
    up_answer poll = None /\
    match up_presence_finished poll with
    | Some at_ => u64_saturating_add at_ (U2F_APPROVAL_MS + 1)
    | None => u64_saturating_add (up_last_poll poll) (U2F_POLL_TIMEOUT_MS + 1)
    end <= now.

(** What may ask for it, in state [h]: a cancellation or INIT on the channel the
    app works for, or a U2F request nobody asks for any more. *)
Definition asks_for_interrupt (channel : Z) (request : AppRequest) (h : CtaphidHost) (e : host_event) : Prop :=
  match e with
  | EFrame packet _ =>
      report_channel packet = channel /\ is_init_report packet = true /\
      (command_of (Z.land (report_code packet) 0x7f) = Some Cancel /\ ar_command request = Cbor \/
       command_of (Z.land (report_code packet) 0x7f) = Some Init)
  | ETimeout now => ar_command request = Msg /\ poll_abandoned channel request now h
  | _ => False
  end.

(** One of the events [after] state [start] does. *)
Definition asked_during (channel : Z) (request : AppRequest) (start : CtaphidHost) (after : list host_event) : Prop :=
  exists earlier e later, after = earlier ++ e :: later /\
    asks_for_interrupt channel request (host_run earlier start) e.

Lemma resynchronise_calm other h :
  (forall poll, ch_u2f h = Some poll -> up_channel poll = other -> is_some (up_answer poll) = true) ->
  (forall p, ch_state h = Processing p -> is_some (pr_request p) = true) ->
  ch_interrupt_app (resynchronise other h) = ch_interrupt_app h.
Proof.
  intros Hu Hs. unfold resynchronise. cbv zeta. cbn [ch_interrupt_app set_ch_state].
  set (a := set_ch_message [] _). change (ch_interrupt_app h) with (ch_interrupt_app a).
  change (ch_u2f h) with (ch_u2f a) in Hu. change (ch_state h) with (ch_state a) in Hs. clearbody a.
  assert (Ha : forall b : CtaphidHost, ch_state b = ch_state a -> ch_interrupt_app b = ch_interrupt_app a ->
    ch_interrupt_app (match ch_state b with
                      | Processing p => if is_some (pr_request p) then b else set_ch_interrupt_app true b
                      | _ => b end) = ch_interrupt_app a).
  { intros b Eb Ei. rewrite Eb. destruct (ch_state a) as [| |p| |]; try done. by rewrite (Hs p). }
  destruct (ch_u2f a) as [poll|] eqn:Eu; [|by apply Ha].
  destruct (Z.eqb_spec (up_channel poll) other); [|by apply Ha]. rewrite (Hu poll) by done. by apply Ha.
Qed.

Lemma init_channel_same channel aborted h h' r : init_channel channel aborted h = (h', r) ->
  ch_interrupt_app h' = ch_interrupt_app h /\ ch_state h' = ch_state h /\ ch_u2f h' = ch_u2f h.
Proof.
  assert (Ha : forall n h h' o, allocate_channel n h = (h', o) ->
    ch_interrupt_app h' = ch_interrupt_app h /\ ch_state h' = ch_state h /\ ch_u2f h' = ch_u2f h).
  { clear. induction n as [|n IH]; intros h h' o; cbn [allocate_channel]; [by intros [= <- _]|].
    case_match; [intros E; by apply IH in E|]. case_match; [by intros [= <- _]|]. intros E. by apply IH in E. }
  unfold init_channel. destruct (channel =? BROADCAST_CID).
  - destruct (allocate_channel _ h) as [a o] eqn:E. intros [= <- _]. by apply Ha in E.
  - case_match; by intros [= <- _].
Qed.

Lemma init_asks channel started request other len data h :
  in_flight channel started request h ->
  ch_interrupt_app (handle_init other len data h) <> ch_interrupt_app h -> other = channel.
Proof.
  intros (_ & _ & Hs & Hu) Hn. destruct (Z.eq_dec other channel) as [|Hne]; [done|]. exfalso. apply Hn.
  unfold handle_init. destruct (lease_conflicts other h); [apply calm_error|].
  destruct (is_some_and (busy_channel h) _) eqn:Eb; [apply calm_error|].
  destruct (negb (len =? 8)); [destruct (is_some _); [apply calm_error|apply calm_finish]|]. cbv zeta.
  destruct (init_channel other _ h) as [a r] eqn:Ei. apply init_channel_same in Ei as (<- & Es & Eu).
  destruct r as [assigned|code]; [|destruct (negb _); [apply calm_error|apply calm_finish]].
  rewrite calm_enqueue. apply resynchronise_calm.
  - intros poll Hp Ho. rewrite Eu in Hp. destruct (Hu poll Hp) as [Hc _]. congruence.
  - intros p Hp. rewrite Es in Hp. destruct (pr_request p) eqn:Er; [done|]. destruct (Hs p Hp Er) as (Hc & _ & _).
    unfold busy_channel in Eb. rewrite Hp in Eb. cbn [is_some_and] in Eb. lia.
Qed.

Lemma frame_asks channel started request packet now h :
  in_flight channel started request h -> ch_interrupt_app (handle_frame packet now h) <> ch_interrupt_app h ->
  asks_for_interrupt channel request h (EFrame packet now).
Proof.
  intros Hf. unfold handle_frame. cbv zeta. set (a := expire_lease now h).
  assert (Ia : ch_interrupt_app a = ch_interrupt_app h) by apply calm_lease. rewrite <- Ia.
  assert (Fa : in_flight channel started request a) by (eapply in_flight_step; [exact Hf|apply work_expire_lease]).
  clearbody a. destruct (is_init_report packet) eqn:Ep; cbn [negb]; [|by rewrite calm_continuation].
  set (b := set_ch_channels _ a). change (ch_interrupt_app a) with (ch_interrupt_app b).
  assert (Fb : in_flight channel started request b) by (eapply in_flight_step; [exact Fa|apply work_channels]).
  clearbody b. cbn [asks_for_interrupt]. destruct (command_of _) as [[]|] eqn:Ec; try by rewrite calm_request.
  - intros Hn. split; [by eapply init_asks|]. split; [done|by right].
  - unfold handle_cancel. destruct (ch_state b) as [| |p| |] eqn:Es; try done.
    destruct (Z.eqb_spec (pr_channel p) (report_channel packet)) as [Hc|]; [|done]. case_bool_decide as Hk; [|done].
    cbn [negb orb]. destruct (pr_request p) as [x|] eqn:Er; cbn [is_some]; [by rewrite calm_enqueue|]. intros _.
    destruct Fb as (_ & _ & Hs & _). destruct (Hs p Es Er) as (E1 & E2 & _). split; [congruence|].
    split; [done|left]. split; [done|congruence].
Qed.

Lemma timeout_asks channel started request now h :
  host_ok h -> in_flight channel started request h ->
  ch_interrupt_app (handle_timeout now h) <> ch_interrupt_app h ->
  asks_for_interrupt channel request h (ETimeout now).
Proof.
  intros [Hb _] (_ & Hc & _ & Hu) Hn.
  assert (Hno : asks_for_interrupt channel request h (ETimeout now) \/
    ch_interrupt_app (expire_poll now h) = ch_interrupt_app h).
  { pose proof (bo_u2f h Hb) as Ho. unfold u2f_ok, expire_poll in *. destruct (ch_u2f h) as [poll|] eqn:Ep; [|by right].
    destruct (Z.leb_spec (poll_deadline poll) now) as [Hd|]; [|by right].
    destruct (up_answer poll) as [answer|] eqn:Ea; [by right|left]. destruct Ho as [Ho _], (Hu poll eq_refl) as [Ech Erq].
    split; [congruence|]. exists poll. unfold poll_deadline in Hd. rewrite Ea in Hd. by split_and!. }
  destruct Hno as [|Hno]; [done|]. exfalso. apply Hn. clear Hn.
  unfold handle_timeout. cbv zeta. set (a := expire_identification now (expire_lease now h)).
  assert (Ea : ch_interrupt_app a = ch_interrupt_app h /\ ch_u2f a = ch_u2f h).
  { unfold a, expire_identification. assert (El : ch_interrupt_app (expire_lease now h) = ch_interrupt_app h /\
      ch_u2f (expire_lease now h) = ch_u2f h) by (unfold expire_lease; by destruct (is_some_and _ _)).
    destruct (ch_state _); try done. case_match; [|done]. unfold finish_error. by rewrite enqueue_message_appended. }
  destruct Ea as [Ia Ua]. clearbody a. set (b := set_ch_denied_polls _ a).
  change (ch_interrupt_app a) with (ch_interrupt_app b) in Ia. change (ch_u2f a) with (ch_u2f b) in Ua. clearbody b.
  rewrite <- Ia. assert (Ic : ch_interrupt_app (expire_poll now b) = ch_interrupt_app b).
  { revert Hno. unfold expire_poll. rewrite Ua. destruct (ch_u2f h) as [poll|]; [|done]. destruct (_ <=? now); [|done].
    cbn [ch_interrupt_app set_ch_u2f]. destruct (is_some _); [done|]. cbn [ch_interrupt_app set_ch_interrupt_app]. congruence. }
  rewrite <- Ic. generalize (expire_poll now b) as c. intros c.
  assert (Id : ch_interrupt_app (answer_waiting_msg now c) = ch_interrupt_app c) by (unfold answer_waiting_msg; calms).
  rewrite <- Id. unfold expire_receiving. calms.
Qed.

Lemma calm_app_response response now finished h :
  ch_interrupt_app (app_response response now finished h) = ch_interrupt_app h.
Proof.
  assert (Hd : forall a, ch_interrupt_app (deliver_response response a) = ch_interrupt_app a) by (intros a; unfold deliver_response; calms).
  assert (Hp : forall poll a b o, poll_response poll response now finished a = (b, o) ->
    ch_interrupt_app b = ch_interrupt_app a /\ forall x, o = Some x -> ch_interrupt_app x = ch_interrupt_app a).
  { intros poll a b o. unfold poll_response. cbv zeta. intros E. calms; split; try done; intros x [= <-]; calms. }
  unfold app_response. cbv zeta. destruct (ch_app_command h) as [[]|]; try (by rewrite Hd).
  cbn [ch_u2f set_ch_app_command set_ch_app_busy]. destruct (ch_u2f h) as [poll|]; [|by rewrite Hd].
  destruct (poll_response _ _ _ _ _) as [c o] eqn:E. apply Hp in E as [Ec Eo]. destruct o as [x|]; [by apply Eo|].
  by rewrite Hd.
Qed.

(** An interrupt is asked_for for only on behalf of the request the app has. *)
Lemma interrupt_asked channel started request e h :
  host_ok h -> in_flight channel started request h -> ch_interrupt_app h = false ->
  ch_interrupt_app (host_step e h) = true -> asks_for_interrupt channel request h e.
Proof.
  intros Hh Hf Hz Hi. assert (Hn : ch_interrupt_app (host_step e h) <> ch_interrupt_app h) by congruence.
  destruct e; cbn [host_step] in Hn; [by eapply frame_asks|by eapply timeout_asks|..]; exfalso; apply Hn; clear Hn Hi.
  - unfold send_keepalive. calms.
  - unfold app_presence. calms.
  - unfold app_presence_finished. calms.
  - unfold set_u2f_enabled, reset_u2f. calms.
  - done.
  - unfold take_identification_request. calms.
  - unfold identification_response. calms.
  - unfold take_app_request. by destruct Hf as [-> _].
  - by rewrite Hz.
  - apply calm_app_response.
  - unfold outgoing_frame_written. calms.
Qed.

(** ** What the threads hold *)

(** Where the request the state machine gave to the app is. *)
Inductive Phase : Type :=
| NoRequest
| InHand (r : AppRequest)
| Marked (r : AppRequest)
| WithApp (r : AppRequest)
| Answered (r : AppRequest).

Definition is_answer_to (r : AppRequest) (response : AppResponse) : Prop :=
  as_reset response = is_reset_answer r (as_payload response).

Definition shared_at (ph : Phase) (sh : Shared) : Prop :=
  match ph with
  | NoRequest | InHand _ =>
      sh_requests sh = [] /\ sh_responses sh = [] /\ sh_worker sh = WorkerWaits /\ sh_flag sh = IDLE
  | Marked _ => sh_requests sh = [] /\ sh_responses sh = [] /\ sh_worker sh = WorkerWaits /\ sh_flag sh = WORKING
  | WithApp r =>
      sh_flag sh <> IDLE /\ sh_responses sh = [] /\
      (sh_requests sh = [r] /\ sh_worker sh = WorkerWaits \/
       sh_requests sh = [] /\
       ((exists before, sh_worker sh = WorkerCalls r before) \/
        exists response, sh_worker sh = WorkerAnswered response /\ is_answer_to r response))
  | Answered r =>
      sh_flag sh = IDLE /\ sh_requests sh = [] /\
      exists response, is_answer_to r response /\
        (sh_responses sh = [] /\ sh_worker sh = WorkerReplies response \/
         sh_responses sh = [response] /\ sh_worker sh = WorkerWaits)
  end.

(** The request of a phase. *)
Definition phase_request (ph : Phase) : option AppRequest :=
  match ph with NoRequest => None | InHand r | Marked r | WithApp r | Answered r => Some r end.

(** The other threads may answer the request the app has, and no more. *)
Definition phase_after (ph ph' : Phase) : Prop := ph' = ph \/ exists r, ph = WithApp r /\ ph' = Answered r.

Lemma move_phase m sh ph : shared_at ph sh -> exists ph', phase_after ph ph' /\ shared_at ph' (move m sh) /\
  (sh_flag (move m sh) = sh_flag sh \/ sh_flag (move m sh) = IDLE).
Proof.
  intros Hs. assert (Hid : forall requests worker responses,
    shared_at ph (set_sh_identification requests worker responses sh)) by (intros; by destruct ph).
  assert (Hfree : shared_at ph sh -> exists ph', phase_after ph ph' /\ shared_at ph' sh /\ (sh_flag sh = sh_flag sh \/ sh_flag sh = IDLE)).
  { intros _. exists ph. split; [by left|]. split; [exact Hs|by left]. }
  destruct m as [|waiting at_|payload enabled| | | |delivered]; cbn [move].
  6: { destruct (sh_worker sh), (sh_id_worker sh), (sh_id_requests sh); try by apply Hfree.
       all: exists ph; split; [by left|split; [apply Hid|by left]]. }
  6: { destruct (sh_worker sh), (sh_id_worker sh); try by apply Hfree.
       all: exists ph; split; [by left|split; [apply Hid|by left]]. }
  - destruct (sh_worker sh) eqn:Ew; try by apply Hfree. destruct (sh_requests sh) as [|r rest] eqn:Er; [by apply Hfree|].
    exists ph. split; [by left|]. split; [|by left]. destruct ph as [|r'|r'|r'|r']; cbn in *; try (destruct Hs; congruence).
    + destruct Hs as (Hf & Hr & [[Hq _]|[Hq _]]); [|congruence]. split; [done|]. split; [done|right].
      rewrite Er in Hq. injection Hq as -> ->. split; [done|left]. by eexists.
    + destruct Hs as (_ & Hq & _). congruence.
  - destruct (sh_worker sh); exact (Hfree Hs).
  - destruct (sh_worker sh) as [|r' before| |] eqn:Ew; try by apply Hfree. exists ph. split; [by left|]. split; [|by left].
    destruct ph as [|r|r|r|r]; cbn in *; try (destruct Hs as (_ & _ & Hw & _); congruence).
    + destruct Hs as (Hf & Hr & [[_ Hw]|[Hq [[b Hw]|(x & Hw & _)]]]); [congruence| |congruence].
      rewrite Ew in Hw. injection Hw as -> ->. split; [done|]. split; [done|right]. split; [done|right]. by eexists.
    + destruct Hs as (_ & _ & x & _ & [[_ Hw]|[_ Hw]]); congruence.
  - destruct (sh_worker sh) as [| |x|] eqn:Ew; try by apply Hfree.
    destruct ph as [|r|r|r|r]; cbn in Hs; try (destruct Hs as (_ & _ & Hw & _); congruence).
    + destruct Hs as (Hf & Hr & [[_ Hw]|[Hq [[b Hw]|(y & Hw & Ha)]]]); [congruence|congruence|].
      rewrite Ew in Hw. injection Hw as <-. exists (Answered r). split; [right; by exists r|]. split; [|by right].
      cbn. split; [done|]. split; [done|]. exists x. split; [done|by left].
    + destruct Hs as (_ & _ & y & _ & [[_ Hw]|[_ Hw]]); congruence.
  - destruct (sh_worker sh) as [| | |x] eqn:Ew; try by apply Hfree. exists ph. split; [by left|]. split; [|by left].
    destruct ph as [|r|r|r|r]; cbn in *; try (destruct Hs as (_ & _ & Hw & _); congruence).
    + destruct Hs as (Hf & Hr & [[_ Hw]|[Hq [[b Hw]|(y & Hw & _)]]]); congruence.
    + destruct Hs as (Hf & Hq & y & Ha & [[Hr Hw]|[_ Hw]]); [|congruence]. split; [done|]. split; [done|].
      exists y. split; [done|right]. rewrite Ew in Hw. injection Hw as <-. rewrite Hr. done.
Qed.

Lemma moves_phase moves sh ph : shared_at ph sh ->
  exists ph', phase_after ph ph' /\ shared_at ph' (fold_left (fun sh m => move m sh) moves sh) /\
    (sh_flag (fold_left (fun sh m => move m sh) moves sh) = INTERRUPTED -> sh_flag sh = INTERRUPTED).
Proof.
  revert sh ph. induction moves as [|m moves IH]; intros sh ph Hs; [by exists ph; split; [left|]|]. cbn [fold_left].
  destruct (move_phase m sh ph Hs) as (ph1 & H1 & S1 & F1). destruct (IH _ _ S1) as (ph2 & H2 & S2 & F2).
  exists ph2. split; [|split; [done|]].
  - unfold phase_after in *. destruct H1 as [->|(r & -> & ->)]; [done|]. right. destruct H2 as [->|(r' & E & ->)]; [|done]. by exists r.
  - intros Hi. specialize (F2 Hi). destruct F1 as [F1|F1]; congruence.
Qed.

(** ** The transport's invariant *)

Definition no_response (e : host_event) : Prop := forall r n f, e <> EResponse r n f.

Lemma busy_step e h : no_response e -> e <> ETakeRequest -> ch_app_busy (host_step e h) = ch_app_busy h.
Proof.
  intros He Ht. destruct e; cbn [host_step].
  - apply work_frame.
  - apply work_timeout.
  - apply work_keepalive.
  - unfold app_presence. by destruct (_ && _).
  - unfold app_presence_finished. by destruct (bool_decide _).
  - unfold set_u2f_enabled. by destruct enabled.
  - done.
  - unfold take_identification_request. destruct (ch_state h); try done. by destruct submitted.
  - unfold identification_response, finish_error. destruct (ch_state h); try done.
    destruct (negb _); [done|]. destruct (_ && _); by rewrite enqueue_message_appended.
  - done.
  - done.
  - by destruct (He response now presence_finished).
  - unfold outgoing_frame_written. destruct (is_outgoing_current _ _); [|done]. cbn [fst].
    destruct (ch_state h); try done. by destruct (_ =? _).
Qed.

Lemma app_response_free response now finished h : host_ok h -> ch_app_busy (app_response response now finished h) = false.
Proof.
  assert (Hd : forall a, ch_app_busy (deliver_response response a) = ch_app_busy a).
  { intros a. unfold deliver_response. destruct (ch_state a); try done. case_match; [done|]. by rewrite enqueue_message_appended. }
  assert (Hp : forall poll a b o, poll_response poll response now finished a = (b, o) ->
    ch_app_busy b = ch_app_busy a /\ forall x, o = Some x -> ch_app_busy x = ch_app_busy a).
  { intros poll a b o. unfold poll_response. cbv zeta. intros E.
    repeat (case_match || simplify_eq); (split; [done|]); try done; intros x [= <-]; by rewrite ?enqueue_message_appended. }
  intros _. unfold app_response. cbv zeta. destruct (ch_app_command h) as [[]|]; try (by rewrite Hd).
  cbn [ch_u2f set_ch_app_command set_ch_app_busy]. destruct (ch_u2f h) as [poll|]; [|by rewrite Hd].
  destruct (poll_response _ _ _ _ _) as [c o] eqn:E. apply Hp in E as [Ec Eo]. destruct o as [x|]; [by apply Eo|].
  by rewrite Hd.
Qed.

(** Reports are 64 bytes. *)
Class ReportDevice (D : Type) `{HidDevice D} : Prop := {
  reports_whole (d d' : D) frame : try_read_frame d = (d', Ok (Some frame)) ->
    length frame = CTAPHID_FRAME_LEN /\ bytes_ok frame
}.

Section Invariant.

Context {D : Type} `{ReportDevice D} (h0 : CtaphidHost).

#[local] Abbreviation Tr A := (M (Transport D) A PollError).

(** [r] was taken from the transaction [p], and has had no answer since; an
    interrupt was asked_for for on its behalf if the flag or the state machine says
    one was asked_for for. *)
Definition taken_at (r : AppRequest) (p : ProcessingState) (flag : InterruptFlag) (trace : list host_event) : Prop :=
  exists before after,
    trace = before ++ ETakeRequest :: after /\ ch_state (host_run before h0) = Processing p /\
    pr_request p = Some (ar_payload r) /\ pr_command p = ar_command r /\
    snd (take_app_request (host_run before h0)) = Some r /\ Forall no_response after /\
    in_flight (pr_channel p) (pr_started p) r (host_run trace h0) /\
    (flag = INTERRUPTED \/ ch_interrupt_app (host_run trace h0) = true ->
     asked_during (pr_channel p) r (host_run (before ++ [ETakeRequest]) h0) after).

(** Each answer is to the request taken last, and the only one to it. *)
Inductive in_turn : list host_event -> Prop :=
| turn_start : in_turn []
| turn_other trace e : in_turn trace -> no_response e -> in_turn (trace ++ [e])
| turn_answer before after request response now finished :
    in_turn (before ++ ETakeRequest :: after) -> snd (take_app_request (host_run before h0)) = Some request ->
    Forall no_response after -> in_turn ((before ++ ETakeRequest :: after) ++ [EResponse response now finished]).

Definition tr_ok (ph : Phase) (t : Transport D) : Prop :=
  host_ok (tr_host t) /\ (tr_host t = host_run (tr_trace t) h0 /\ in_turn (tr_trace t)) /\ shared_at ph (tr_shared t) /\
  match phase_request ph with
  | None => ch_app_busy (tr_host t) = false
  | Some r => exists p, taken_at r p (sh_flag (tr_shared t)) (tr_trace t)
  end.

(** Between two steps that hand a request over or take its answer. *)
Definition settled (t : Transport D) : Prop :=
  exists ph, tr_ok ph t /\ match ph with InHand _ | Marked _ => False | _ => True end.

Definition consistent (t : Transport D) : Prop := exists ph, tr_ok ph t.

Definition no_interrupt_due (t : Transport D) : Prop := ch_interrupt_app (tr_host t) = false.

Lemma host_run_snoc trace e h : host_run (trace ++ [e]) h = host_step e (host_run trace h).
Proof. unfold host_run. by rewrite fold_left_app. Qed.

Lemma taken_more r p flag trace e :
  host_ok (host_run trace h0) -> no_response e -> taken_at r p flag trace -> taken_at r p flag (trace ++ [e]).
Proof.
  intros Hh He (before & after & -> & Es & Er & Ec & Et & Hn & Hf & Hi).
  exists before, (after ++ [e]). split; [by rewrite <- app_assoc|]. split_and!; try done.
  - apply Forall_app. split; [done|]. by constructor.
  - rewrite host_run_snoc. eapply in_flight_step; [exact Hf|]. apply work_step; [exact He|by destruct Hf].
  - rewrite host_run_snoc. intros Hor.
    assert (Hearlier : flag = INTERRUPTED \/ ch_interrupt_app (host_run (before ++ ETakeRequest :: after) h0) = true ->
      asked_during (pr_channel p) r (host_run (before ++ [ETakeRequest]) h0) (after ++ [e])).
    { intros Hx. destruct (Hi Hx) as (earlier & e' & later & -> & Ha). exists earlier, e', (later ++ [e]).
      split; [by rewrite <- app_assoc|done]. }
    destruct (ch_interrupt_app (host_run (before ++ ETakeRequest :: after) h0)) eqn:Ei; [apply Hearlier; by right|].
    destruct Hor as [Hfl|Hfl]; [apply Hearlier; by left|]. exists after, e, []. split; [done|].
    assert (Er' : host_run after (host_run (before ++ [ETakeRequest]) h0) = host_run (before ++ ETakeRequest :: after) h0)
      by (unfold host_run; by rewrite <- fold_left_app, <- app_assoc).
    rewrite Er'. by eapply interrupt_asked.
Qed.

Lemma taken_flag r p flag flag' trace :
  (flag' = INTERRUPTED -> flag = INTERRUPTED) -> taken_at r p flag trace -> taken_at r p flag' trace.
Proof.
  intros Hf (before & after & E & Es & Er & Ec & Et & Hn & Hfl & Hi). exists before, after.
  split_and!; try done. intros [Hx|Hx]; apply Hi; [left; by apply Hf|by right].
Qed.

(** *** Triples: what holds if a step starts where [P] does *)

Definition triple {A} (P : Transport D -> Prop) (m : Tr A) (Q : A -> Transport D -> Prop) : Prop :=
  forall t, P t -> match m t with (t', Ok x) => Q x t' | (t', Err _) => consistent t' end.

Lemma triple_bind {A B} (P : Transport D -> Prop) (m : Tr A) (k : A -> Tr B) Q R :
  triple P m Q -> (forall x, triple (Q x) (k x) R) -> triple P (mbind_st m k) R.
Proof.
  intros Hm Hk t Hp. unfold mbind_st. specialize (Hm t Hp). destruct (m t) as [t1 [x|e]]; [|done]. by apply Hk.
Qed.

Lemma triple_ret {A} (P : Transport D -> Prop) (x : A) : triple P (ret x) (fun _ => P).
Proof. by intros t Hp. Qed.

Lemma triple_post {A} P (m : Tr A) Q R : triple P m Q -> (forall x t, Q x t -> R x t) -> triple P m R.
Proof. intros Hm Hq t Hp. specialize (Hm t Hp). destruct (m t) as [t1 [x|e]]; [by apply Hq|done]. Qed.

Lemma triple_pre {A} P R (m : Tr A) Q : triple P m Q -> (forall t, R t -> P t) -> triple R m Q.
Proof. intros Hm Hr t Hp. apply Hm, Hr, Hp. Qed.

Lemma triple_gets {A} P (f : Transport D -> A) : triple P (gets f) (fun x t => P t /\ x = f t).
Proof. by intros t Hp. Qed.

(** A state of affairs that the other threads and the clock do not end. *)
Definition lasting (P : Transport D -> Prop) : Prop :=
  (forall t, P t -> consistent t) /\ triple P next_turn (fun _ => P).

Lemma turn_ok ph t : tr_ok ph t ->
  match next_turn t with
  | (t', _) => exists ph', phase_after ph ph' /\ tr_ok ph' t' /\ tr_host t' = tr_host t
  end.
Proof.
  intros (Hh & Et & Hs & Hr). unfold next_turn. destruct (tr_schedule t) as [|turn rest]; [by exists ph; split; [left|]|].
  destruct (moves_phase (tn_moves turn) _ _ Hs) as (ph' & Hp & Hs' & Hf). exists ph'. split; [done|]. split; [|done].
  split; [done|]. split; [done|]. split; [done|]. cbn [tr_shared].
  assert (Eq : phase_request ph' = phase_request ph) by (destruct Hp as [->|(r & -> & ->)]; done).
  rewrite Eq. destruct (phase_request ph) as [r|]; [|done]. destruct Hr as [p Hr]. exists p. by eapply taken_flag.
Qed.

Lemma settled_lasts : lasting settled.
Proof.
  split; [intros t (ph & Ht & _); by exists ph|]. intros t (ph & Ht & Hp). pose proof (turn_ok ph t Ht) as Hn.
  assert (Ha : forall ph', phase_after ph ph' -> match ph' with InHand _ | Marked _ => False | _ => True end).
  { intros ph' [->|(r & -> & ->)]; done. }
  destruct (next_turn t) as [t' [turn|e]]; destruct Hn as (ph' & H1 & H2 & _); [exists ph'; split; [done|by apply Ha]|by exists ph'].
Qed.

Lemma calm_lasts P : lasting P -> lasting (fun t => P t /\ no_interrupt_due t).
Proof.
  intros [Hc Hn]. split; [intros t [Hp _]; by apply Hc|]. intros t [Hp Hk]. specialize (Hn t Hp).
  assert (Eh : tr_host (fst (next_turn t)) = tr_host t) by (unfold next_turn; by destruct (tr_schedule t)).
  destruct (next_turn t) as [t' [turn|e]]; [|done]. split; [done|]. unfold no_interrupt_due in *. cbn [fst] in Eh. by rewrite Eh.
Qed.

Lemma phase_lasts r : lasting (tr_ok (InHand r)) /\ lasting (tr_ok (Marked r)).
Proof.
  assert (Hg : forall ph, (forall ph', phase_after ph ph' -> ph' = ph) -> lasting (tr_ok ph)).
  { intros ph Hu. split; [intros t Ht; by exists ph|]. intros t Ht. pose proof (turn_ok ph t Ht) as Hn.
    destruct (next_turn t) as [t' [turn|e]]; destruct Hn as (ph' & H1 & H2 & _); [by rewrite <- (Hu ph' H1)|by exists ph']. }
  split; apply Hg; intros ph' [->|(x & Hx & _)]; done.
Qed.

Lemma triple_now P : lasting P -> triple P tr_now (fun _ => P).
Proof. intros [_ Hl]. eapply triple_bind; [exact Hl|]. intros turn. apply triple_ret. Qed.

Lemma triple_shutdown P : lasting P -> triple P check_shutdown (fun _ => P).
Proof.
  intros [Hc Hl]. eapply triple_bind; [exact Hl|]. intros turn t Hp. unfold guard. destruct (negb _); [done|by apply Hc].
Qed.

Lemma triple_look {A} P (f : Shared -> A) : lasting P -> triple P (on_shared (fun sh => (sh, f sh))) (fun _ => P).
Proof.
  intros [_ Hl]. eapply triple_bind; [exact Hl|]. intros turn t Hp. cbn. unfold tr_with_shared. by destruct t.
Qed.

(** *** Calls of the state machine *)

Definition ordinary (e : host_event) : Prop := event_ok e /\ no_response e /\ e <> ETakeRequest.

Lemma call_ok {A} (f : CtaphidHost -> CtaphidHost * A) e ph t :
  (forall h, fst (f h) = host_step e h) -> ordinary e -> tr_ok ph t -> tr_ok ph (fst (host_call f e t)).
Proof.
  intros Hf (He & Hr & Hq) (Hh & (Et & Hi) & Hs & Hp). unfold host_call. specialize (Hf (tr_host t)).
  destruct (f (tr_host t)) as [h x]. cbn [fst] in *. subst h. split; [by apply ok_step|].
  split; [split; [cbn; by rewrite host_run_snoc, <- Et|by apply turn_other]|]. split; [done|]. cbn [tr_host tr_trace tr_shared].
  destruct (phase_request ph) as [r|]; [|by rewrite busy_step]. destruct Hp as [p Hp]. exists p. apply taken_more; try done. by rewrite <- Et.
Qed.

Lemma call_settled {A} (f : CtaphidHost -> CtaphidHost * A) e t :
  (forall h, fst (f h) = host_step e h) -> ordinary e -> settled t -> settled (fst (host_call f e t)).
Proof. intros Hf He (ph & Ht & Hp). exists ph. split; [by apply call_ok|done]. Qed.

Lemma call_value {A} (f : CtaphidHost -> CtaphidHost * A) e (t : Transport D) :
  host_call f e t = (fst (host_call f e t), Ok (snd (f (tr_host t)))).
Proof. unfold host_call. by destruct (f (tr_host t)). Qed.

Lemma triple_do ph e : ordinary e -> triple (tr_ok ph) (host_do e) (fun _ => tr_ok ph).
Proof. intros He t Ht. unfold host_do. rewrite call_value. by apply call_ok. Qed.

Lemma settled_do e : ordinary e -> triple settled (host_do e) (fun _ => settled).
Proof. intros He t Ht. unfold host_do. rewrite call_value. by apply call_settled. Qed.

(** Events that ask for no interrupt. *)
Definition asks_nothing (e : host_event) : Prop :=
  ordinary e /\ forall h, ch_interrupt_app (host_step e h) = ch_interrupt_app h.

Lemma calm_do P e :
  asks_nothing e -> triple P (host_do e) (fun _ => P) -> triple (fun t => P t /\ no_interrupt_due t) (host_do e) (fun _ t => P t /\ no_interrupt_due t).
Proof.
  intros [_ He] Hp t [Ht Hk]. specialize (Hp t Ht). unfold host_do in *. rewrite call_value in Hp |- *. split; [done|].
  unfold no_interrupt_due, host_call in *. cbn. by rewrite He.
Qed.

Lemma asks_reset : asks_nothing EResetU2f.
Proof. by split. Qed.

Lemma asks_enabled enabled : asks_nothing (EU2fEnabled enabled).
Proof. split; [by split|]. intros h. cbn. unfold set_u2f_enabled. by destruct enabled. Qed.

Lemma asks_identified token delivered now : asks_nothing (EIdentified token delivered now).
Proof. split; [by split|]. intros h. cbn. unfold identification_response. calms. Qed.

(** *** Taking an answer *)

Lemma response_taken ph t : tr_ok ph t -> match phase_request ph with None => False | Some _ => True end ->
  shared_at NoRequest (tr_shared t) -> forall response now finished,
  settled (fst (host_do (EResponse response now finished) t)).
Proof.
  intros (Hh & (Et & Hi) & Hs & Hp) Hr Hn response now finished. exists NoRequest. split; [|done].
  unfold host_do, host_call. cbn [fst]. split; [by apply ok_step|]. split.
  { split; [cbn; by rewrite host_run_snoc, <- Et|]. cbn [tr_trace]. destruct (phase_request ph) as [r|]; [|done].
    destruct Hp as (p & before & after & E & _ & _ & _ & Eq & Hnr & _). rewrite E in Hi |- *. by eapply turn_answer. }
  split; [done|]. cbn. by apply app_response_free.
Qed.

Lemma take_response_ok r response : triple (tr_ok (InHand r)) (take_response response) (fun _ => settled).
Proof.
  unfold take_response. eapply (triple_bind _ _ _ (fun _ => tr_ok (InHand r))).
  { destruct (as_reset response); [by apply triple_do|apply triple_ret]. }
  intros ?. eapply triple_bind; [by apply triple_do|]. intros ?.
  eapply triple_bind; [apply triple_now, phase_lasts|]. intros now t Ht. unfold host_do. rewrite call_value.
  eapply response_taken; [exact Ht|done|]. destruct Ht as (_ & _ & Hs & _). exact Hs.
Qed.

Lemma take_response_calm r response :
  triple (fun t => tr_ok (InHand r) t /\ no_interrupt_due t) (take_response response) (fun _ t => settled t /\ no_interrupt_due t).
Proof.
  unfold take_response. eapply (triple_bind _ _ _ (fun _ t => tr_ok (InHand r) t /\ no_interrupt_due t)).
  { destruct (as_reset response); [apply calm_do; [exact asks_reset|by apply triple_do]|apply triple_ret]. }
  intros ?. eapply triple_bind; [apply calm_do; [apply asks_enabled|by apply triple_do]|]. intros ?.
  eapply triple_bind; [apply triple_now, calm_lasts, phase_lasts|]. intros now t [Ht Hk]. unfold host_do. rewrite call_value.
  split; [eapply response_taken; [exact Ht|done|]; destruct Ht as (_ & _ & Hs & _); exact Hs|].
  unfold no_interrupt_due, host_call in *. cbn. by rewrite calm_app_response.
Qed.

(** The transport finds an answer only where one waits, and takes it whole. *)
Lemma try_response_ok P : lasting P -> (forall t, P t -> settled t) ->
  triple P try_response (fun o t => match o with
                                    | None => P t
                                    | Some _ => exists r t0, tr_ok (InHand r) t /\ P t0 /\ tr_host t = tr_host t0
                                    end).
Proof.
  intros [_ Hl] Hset. unfold try_response. eapply triple_bind; [exact Hl|]. intros turn t Hp.
  destruct (sh_responses (tr_shared t)) as [|response rest] eqn:Er.
  - cbn. unfold tr_with_shared. by destruct t.
  - destruct (Hset t Hp) as (ph & (Hh & Et & Hs & Hq) & Hb).
    destruct ph as [|r|r|r|r]; cbn in Hs; try done; try (destruct Hs as (_ & Hx & _); congruence).
    destruct Hs as (Hf & Hreq & x & Ha & [[Hx _]|[Hx Hw]]); [congruence|]. rewrite Er in Hx. injection Hx as -> ->.
    exists r, t. cbn. split; [|done]. split; [done|]. split; [done|]. split; [cbn; by rewrite Hreq, Hw|]. exact Hq.
Qed.

Lemma collect_app_ok fuel received : triple settled (collect_app fuel received) (fun _ => settled).
Proof.
  revert received. induction fuel as [|fuel IH]; intros received; cbn [collect_app]; [intros t Ht; by apply settled_lasts|].
  eapply triple_bind; [apply try_response_ok; [apply settled_lasts|done]|]. intros [response|]; [|apply triple_ret].
  eapply triple_bind; [|intros ?; apply IH]. intros t (r & _ & Ht & _). by apply (take_response_ok r response).
Qed.

Lemma collect_app_calm fuel received :
  triple (fun t => settled t /\ no_interrupt_due t) (collect_app fuel received) (fun _ t => settled t /\ no_interrupt_due t).
Proof.
  revert received. induction fuel as [|fuel IH]; intros received; cbn [collect_app]; [intros t [Ht _]; by apply settled_lasts|].
  eapply triple_bind; [apply try_response_ok; [apply calm_lasts, settled_lasts|by intros t []]|].
  intros [response|]; [|apply triple_ret]. eapply triple_bind; [|intros ?; apply IH].
  intros t (r & t0 & Ht & [_ Hk] & Eh). apply (take_response_calm r response). split; [done|]. unfold no_interrupt_due in *. by rewrite Eh.
Qed.

(** What touches only the identification queues. *)
Lemma triple_identification {A} P (f : Shared -> Shared * A) :
  lasting P -> (forall t requests worker responses, P t -> P (tr_with_shared (set_sh_identification requests worker responses (tr_shared t)) t)) ->
  (forall sh, exists requests worker responses, fst (f sh) = set_sh_identification requests worker responses sh) ->
  triple P (on_shared f) (fun _ => P).
Proof.
  intros [_ Hl] Hp Hf. eapply triple_bind; [exact Hl|]. intros turn t Ht. destruct (Hf (tr_shared t)) as (a & b & c & E).
  destruct (f (tr_shared t)) as [sh x]. cbn [fst] in E. subst sh. by apply Hp.
Qed.

Lemma identification_settled t requests worker responses :
  settled t -> settled (tr_with_shared (set_sh_identification requests worker responses (tr_shared t)) t).
Proof. intros (ph & (Hh & Et & Hs & Hp) & Hb). exists ph. split; [|done]. split; [done|]. split; [done|]. split; [|done]. by destruct ph. Qed.

Lemma identification_kept sh : set_sh_identification (sh_id_requests sh) (sh_id_worker sh) (sh_id_responses sh) sh = sh.
Proof. by destruct sh. Qed.

Lemma try_identification_ok P :
  lasting P -> (forall t requests worker responses, P t -> P (tr_with_shared (set_sh_identification requests worker responses (tr_shared t)) t)) ->
  triple P try_identification (fun _ => P).
Proof.
  intros Hl Hp. apply triple_identification; [done|done|]. intros sh. destruct (sh_id_responses sh) as [|x rest] eqn:Er.
  - exists (sh_id_requests sh), (sh_id_worker sh), (sh_id_responses sh). by rewrite identification_kept.
  - by eexists _, _, rest.
Qed.

Lemma collect_identification_ok fuel received : triple settled (collect_identification fuel received) (fun _ => settled).
Proof.
  revert received. induction fuel as [|fuel IH]; intros received; cbn [collect_identification]; [intros t Ht; by apply settled_lasts|].
  eapply triple_bind; [apply try_identification_ok; [apply settled_lasts|exact identification_settled]|].
  intros [[token delivered]|]; [|apply triple_ret]. eapply triple_bind; [apply triple_now, settled_lasts|]. intros now.
  eapply triple_bind; [by apply settled_do|intros ?; apply IH].
Qed.

Lemma collect_identification_calm fuel received :
  triple (fun t => settled t /\ no_interrupt_due t) (collect_identification fuel received) (fun _ t => settled t /\ no_interrupt_due t).
Proof.
  revert received. induction fuel as [|fuel IH]; intros received; cbn [collect_identification]; [intros t [Ht _]; by apply settled_lasts|].
  eapply triple_bind.
  { apply try_identification_ok; [apply calm_lasts, settled_lasts|]. intros t a b c [Ht Hk]. split; [by apply identification_settled|done]. }
  intros [[token delivered]|]; [|apply triple_ret]. eapply triple_bind; [apply triple_now, calm_lasts, settled_lasts|]. intros now.
  eapply triple_bind; [apply calm_do; [apply asks_identified|by apply settled_do]|intros ?; apply IH].
Qed.

Lemma collect_ok fuel : triple settled (collect_responses fuel) (fun _ => settled).
Proof. eapply triple_bind; [apply collect_app_ok|intros x; apply collect_identification_ok]. Qed.

Lemma collect_calm fuel : triple (fun t => settled t /\ no_interrupt_due t) (collect_responses fuel) (fun _ t => settled t /\ no_interrupt_due t).
Proof. eapply triple_bind; [apply collect_app_calm|intros x; apply collect_identification_calm]. Qed.

(** *** Interrupting, handing over *)

(** An interrupt was asked_for for on behalf of the request the app has, if any. *)
Definition asked_for (t : Transport D) : Prop :=
  exists ph, tr_ok ph t /\ match ph with InHand _ | Marked _ => False | _ => True end /\
    match phase_request ph with Some r => exists p, taken_at r p INTERRUPTED (tr_trace t) | None => True end.

Lemma asked_lasts : lasting asked_for.
Proof.
  split; [intros t (ph & Ht & _); by exists ph|]. intros t (ph & Ht & Hp & Hr). pose proof (turn_ok ph t Ht) as Hn.
  assert (Etr : tr_trace (fst (next_turn t)) = tr_trace t) by (unfold next_turn; by destruct (tr_schedule t)).
  destruct (next_turn t) as [t' [turn|e]]; destruct Hn as (ph' & H1 & H2 & _); [|by exists ph'].
  cbn [fst] in Etr. exists ph'. split; [done|]. rewrite Etr. by destruct H1 as [->|(r & -> & ->)].
Qed.

Lemma interrupt_asked_app : triple (fun t => asked_for t /\ no_interrupt_due t) interrupt_app (fun _ t => settled t /\ no_interrupt_due t).
Proof.
  unfold interrupt_app, on_shared. eapply triple_bind; [apply (calm_lasts _ asked_lasts)|].
  intros ? t [(ph & (Hh & Et & Hs & Hq) & Hb & Hr) Hk]. split; [|exact Hk]. exists ph. split; [|done].
  split; [done|]. split; [done|]. cbn [tr_with_shared tr_shared tr_trace]. split.
  - destruct ph as [|r|r|r|r]; cbn in *; try done.
    + destruct Hs as (Hr0 & Hx & Hw & ->). done.
    + destruct Hs as (Hf & Hx & Hw). split; [by destruct (sh_flag (tr_shared t))|done].
    + destruct Hs as (-> & Hx & Hw). done.
  - destruct (phase_request ph) as [r|]; [|exact Hq]. destruct Hr as [p Hr]. exists p. by eapply taken_flag; [|exact Hr].
Qed.

(** The interrupt goes to the request the app has, if it still works on it. *)
Lemma pass_interrupt_ok : triple settled pass_interrupt (fun _ t => settled t /\ no_interrupt_due t).
Proof.
  unfold pass_interrupt. eapply (triple_bind _ _ _ (fun interrupted t =>
    if (interrupted : bool) then asked_for t /\ no_interrupt_due t else settled t /\ no_interrupt_due t)).
  - intros t Ht. rewrite call_value. cbn [snd take_interrupt].
    assert (Hc : no_interrupt_due (fst (host_call take_interrupt ETakeInterrupt t))) by done.
    pose proof (call_settled take_interrupt ETakeInterrupt t (fun h => eq_refl) ltac:(by split) Ht) as Hset.
    destruct (ch_interrupt_app (tr_host t)) eqn:Ei; [|done]. split; [|done].
    destruct Ht as (ph & (Hh & (Et & Hi) & Hs & Hr) & Hb). exists ph.
    split; [apply call_ok; [done|by split|by split]|]. split; [done|].
    destruct (phase_request ph) as [r|]; [|done]. destruct Hr as [p Hr]. exists p.
    cbn [host_call tr_trace take_interrupt fst]. apply taken_more; [by rewrite <- Et|done|].
    destruct Hr as (before & after & E & Es & Er & Ec & Eq & Hn & Hfl & Hx). exists before, after.
    split_and!; try done. intros _. apply Hx. right. by rewrite <- Et.
  - intros []; [apply interrupt_asked_app|apply triple_ret].
Qed.

(** A request is handed over when no interrupt is asked_for for. *)
Lemma take_request_ok t : settled t -> no_interrupt_due t ->
  match host_call take_app_request ETakeRequest t with
  | (t', Ok (Some r)) => tr_ok (InHand r) t'
  | (t', Ok None) => settled t'
  | (t', Err _) => consistent t'
  end.
Proof.
  intros (ph & (Hh & (Et & Hi) & Hs & Hr) & Hb) Hk. rewrite call_value. cbn [fst snd host_call].
  assert (Hi' : in_turn (tr_trace t ++ [ETakeRequest])) by by apply turn_other.
  assert (Hh' : host_ok (fst (take_app_request (tr_host t)))) by by apply ok_take_request.
  destruct (ch_app_busy (tr_host t)) eqn:Eb.
  - assert (Eq : take_app_request (tr_host t) = (tr_host t, None)) by (unfold take_app_request; by rewrite Eb).
    unfold host_call. rewrite Eq. cbn [snd fst]. exists ph. split; [|done]. split; [done|].
    assert (Er : host_run (tr_trace t ++ [ETakeRequest]) h0 = tr_host t) by (rewrite host_run_snoc, <- Et; cbn; by rewrite Eq).
    split; [by split; [symmetry|]|]. split; [done|]. cbn [tr_host tr_trace tr_shared]. destruct (phase_request ph) as [r|]; [|congruence].
    destruct Hr as [p Hr]. exists p. apply taken_more; [by rewrite <- Et|done|done].
  - assert (Hn : phase_request ph = None).
    { destruct (phase_request ph) as [r|]; [|done]. destruct Hr as (p & before & after & _ & _ & _ & _ & _ & _ & (Hf & _) & _).
      rewrite <- Et in Hf. congruence. }
    destruct ph; try done. unfold host_call.
    destruct (take_app_request (tr_host t)) as [h [r|]] eqn:Eq; cbn [snd fst] in *.
    + assert (Er : host_run (tr_trace t ++ [ETakeRequest]) h0 = h) by (rewrite host_run_snoc, <- Et; cbn; by rewrite Eq).
      split; [done|]. split; [by split; [symmetry|]|]. split; [done|]. cbn [phase_request tr_trace tr_shared].
      destruct (take_in_flight _ _ _ Hh Eq) as (p & Es & Ep & Ec & Hf). exists p, (tr_trace t), []. rewrite <- Et.
      split_and!; try done; [by rewrite Eq|rewrite <- Er in Hf; exact Hf|].
      destruct Hs as (_ & _ & _ & Hfl). rewrite Hfl, Er. intros [Hx|Hx]; [done|].
      unfold take_app_request in Eq. rewrite Eb in Eq. unfold no_interrupt_due in Hk. exfalso. revert Hx.
      destruct (ch_state (tr_host t)); try done. destruct (pr_request p0); [|done]. injection Eq as <- _.
      cbn. destruct (bool_decide _ && _); cbn; by rewrite Hk.
    + exists NoRequest. split; [|done]. split; [done|].
      assert (Er : host_run (tr_trace t ++ [ETakeRequest]) h0 = h) by (rewrite host_run_snoc, <- Et; cbn; by rewrite Eq).
      split; [by split; [symmetry|]|]. split; [done|]. cbn [phase_request tr_host].
      unfold take_app_request in Eq. rewrite Eb in Eq. destruct (ch_state (tr_host t)); try (by injection Eq as <-).
      destruct (pr_request p); by injection Eq as <-.
Qed.

Lemma submit_ok r : triple (tr_ok (InHand r)) (submit_request r) (fun _ => settled).
Proof.
  unfold submit_request. destruct (phase_lasts r) as [Hi Hm].
  eapply triple_bind; [by apply triple_look|]. intros before.
  eapply (triple_bind _ _ _ (fun _ => tr_ok (InHand r))); [intros t Ht; exact Ht|]. intros ?.
  eapply (triple_bind _ _ _ (fun _ => tr_ok (Marked r))).
  - eapply triple_bind; [apply Hi|]. intros ? t (Hh & Et & (Hq & Hx & Hw & Hf) & p & Hr). split; [done|]. split; [done|].
    split; [done|]. exists p. cbn [tr_with_shared tr_shared tr_trace]. eapply taken_flag; [|exact Hr]. done.
  - intros ?. eapply triple_bind; [apply Hm|]. intros ? t (Hh & Et & (Hq & Hx & Hw & Hf) & Hr). exists (WithApp r).
    split; [|done]. split; [done|]. split; [done|]. split; [|exact Hr]. cbn. rewrite Hq, Hf. split; [done|]. split; [done|by left].
Qed.

Lemma hand_over_ok : triple (fun t => settled t /\ no_interrupt_due t) hand_over (fun _ => settled).
Proof.
  unfold hand_over. eapply (triple_bind _ _ _ (fun o t => match o with Some r => tr_ok (InHand r) t | None => settled t end)).
  - intros t [Ht Hk]. pose proof (take_request_ok t Ht Hk) as Hr. destruct (host_call _ _ t) as [t' [[r|]|e]]; exact Hr.
  - intros [r|]; [|apply triple_ret]. eapply triple_bind; [apply submit_ok|intros ?; apply triple_ret].
Qed.

Lemma hand_over_identification_ok : triple settled hand_over_identification (fun _ => settled).
Proof.
  unfold hand_over_identification. eapply (triple_bind _ _ _ (fun _ => settled)).
  { intros t Ht. rewrite call_value. by apply call_settled. }
  intros [request|]; [|apply triple_ret]. eapply (triple_bind _ _ _ (fun _ => settled)).
  { apply triple_identification; [apply settled_lasts|exact identification_settled|]. intros sh.
    destruct (sh_id_requests sh) as [|x rest]; [by eexists [request], _, _|].
    exists (sh_id_requests sh), (sh_id_worker sh), (sh_id_responses sh). by rewrite identification_kept. }
  intros taken. eapply (triple_bind _ _ _ (fun _ => settled)); [|intros ?; apply triple_ret]. destruct taken; [apply triple_ret|].
  eapply triple_bind; [apply triple_now, settled_lasts|]. intros now. by apply settled_do.
Qed.

(** *** Passes *)

Lemma observe_ok : triple settled observe_presence (fun _ => settled).
Proof.
  unfold observe_presence. eapply triple_bind; [apply triple_look, settled_lasts|]. intros times.
  eapply (triple_bind _ _ _ (fun _ => settled)); [by intros t Ht|]. intros before. destruct (_ && _); [|apply triple_ret].
  eapply (triple_bind _ _ _ (fun _ => settled)); [by apply settled_do|]. intros ?.
  destruct (snd times); [by apply settled_do|apply triple_ret].
Qed.

Lemma settled_device d t : settled t -> settled (MkTransport d (tr_host t) (tr_shared t) (tr_presence_before t) (tr_schedule t) (tr_trace t)).
Proof. intros (ph & Ht & Hb). by exists ph. Qed.

Lemma read_ok : triple settled (with_device try_read_frame) (fun o t => settled t /\
  match o with Some frame => length frame = CTAPHID_FRAME_LEN /\ bytes_ok frame | None => True end).
Proof.
  unfold with_device. eapply triple_bind; [apply settled_lasts|]. intros ? t Ht.
  destruct (try_read_frame (tr_device t)) as [d r] eqn:Er. pose proof (settled_device d t Ht) as Hs.
  destruct r as [[frame|]|e]; [|done|by apply settled_lasts]. split; [done|]. by eapply reports_whole.
Qed.

Lemma read_frames_ok fuel read : triple settled (read_frames fuel read) (fun _ => settled).
Proof.
  revert read. induction fuel as [|fuel IH]; intros read; cbn [read_frames]; [intros t Ht; by apply settled_lasts|].
  eapply triple_bind; [apply read_ok|]. intros [frame|]; [|eapply triple_pre; [apply triple_ret|by intros t []]].
  intros t [Ht Hf]. revert t Ht. change (triple settled (check_shutdown ;;* let* _ := collect_responses (S fuel) in
    let* now := tr_now in observe_presence ;;* host_do (ETimeout now) ;;* host_do (EFrame frame now) ;;* read_frames fuel true) (fun _ => settled)).
  eapply triple_bind; [apply triple_shutdown, settled_lasts|]. intros ?.
  eapply triple_bind; [apply collect_ok|]. intros ?. eapply triple_bind; [apply triple_now, settled_lasts|]. intros now.
  eapply triple_bind; [apply observe_ok|]. intros ?. eapply triple_bind; [by apply settled_do|]. intros ?.
  eapply triple_bind; [by apply settled_do|]. intros ?. apply IH.
Qed.

Lemma turn_settled : triple settled next_turn (fun _ => settled).
Proof. apply settled_lasts. Qed.

Lemma pass_interrupt_settled : triple settled pass_interrupt (fun _ => settled).
Proof. eapply triple_post; [apply pass_interrupt_ok|by intros ? t []]. Qed.

Lemma pause_ok fuel wrote : triple settled (pause_between fuel wrote) (fun _ => settled).
Proof.
  unfold pause_between. destruct wrote; [|apply triple_ret]. eapply triple_bind; [apply turn_settled|]. intros ?.
  eapply triple_bind; [apply read_frames_ok|]. intros ?. eapply triple_bind; [apply pass_interrupt_settled|]. intros ?.
  eapply triple_bind; [apply turn_settled|]. intros ?. apply triple_ret.
Qed.

Lemma write_ok frame : triple settled (with_device (write_frame frame)) (fun _ => settled).
Proof.
  unfold with_device. eapply triple_bind; [apply turn_settled|]. intros ? t Ht.
  destruct (write_frame frame (tr_device t)) as [d r]. pose proof (settled_device d t Ht) as Hs.
  destruct r; [done|by apply settled_lasts].
Qed.

Lemma flush_ok fuel wrote : triple settled (flush_pending fuel wrote) (fun _ => settled).
Proof.
  revert wrote. induction fuel as [|fuel IH]; intros wrote; cbn [flush_pending]; [intros t Ht; by apply settled_lasts|].
  eapply (triple_bind _ _ _ (fun _ => settled)); [by intros t Ht|]. intros [frame|]; [|apply triple_ret].
  eapply triple_bind; [apply pause_ok|]. intros ?. eapply triple_bind; [apply triple_shutdown, settled_lasts|]. intros ?.
  eapply triple_bind; [apply triple_now, settled_lasts|]. intros now. eapply triple_bind; [by apply settled_do|]. intros ?.
  eapply (triple_bind _ _ _ (fun _ => settled)); [by intros t Ht|]. intros []; [|apply IH].
  eapply triple_bind; [apply write_ok|]. intros ?. eapply triple_bind; [by apply settled_do|]. intros ?. apply IH.
Qed.

Lemma poll_ok fuel : triple settled (poll fuel) (fun _ => settled).
Proof.
  unfold poll. eapply triple_bind; [apply triple_shutdown, settled_lasts|]. intros ?.
  eapply triple_bind; [apply read_frames_ok|]. intros read. eapply triple_bind; [apply pass_interrupt_ok|]. intros ?.
  eapply triple_bind; [apply collect_calm|]. intros collected. eapply triple_bind; [apply hand_over_ok|]. intros submitted.
  eapply triple_bind; [apply hand_over_identification_ok|]. intros identifying.
  eapply triple_bind; [apply triple_now, settled_lasts|]. intros now. eapply triple_bind; [apply observe_ok|]. intros ?.
  eapply triple_bind; [by apply settled_do|]. intros ?. eapply triple_bind; [apply triple_look, settled_lasts|]. intros waiting.
  eapply triple_bind; [by apply settled_do|]. intros ?. eapply triple_bind; [apply flush_ok|]. intros flushed. apply triple_ret.
Qed.

Lemma wait_ok : triple settled wait (fun _ => settled).
Proof.
  unfold wait. eapply triple_bind; [apply triple_shutdown, settled_lasts|]. intros ?.
  eapply triple_bind; [apply triple_now, settled_lasts|]. intros now.
  eapply (triple_bind _ _ _ (fun _ => settled)); [by intros t Ht|]. intros timeout. destruct (_ =? 0); [apply triple_ret|].
  eapply triple_bind; [apply turn_settled|]. intros ?. apply triple_ret.
Qed.

Lemma serve_ok passes fuel : triple settled (serve passes fuel) (fun _ => settled).
Proof.
  induction passes as [|passes IH]; cbn [serve]; [intros t Ht; by apply settled_lasts|].
  eapply triple_bind; [apply poll_ok|]. intros busy. eapply (triple_bind _ _ _ (fun _ => settled)).
  - destruct busy; [apply triple_ret|apply wait_ok].
  - intros ?. apply IH.
Qed.

(** ** What every run keeps *)

Lemma new_settled device waiting times schedule : host_ok h0 -> ch_app_busy h0 = false -> settled (new_transport device h0 waiting times schedule).
Proof. intros Hh Hb. exists NoRequest. split; [|done]. split; [done|]. split; [split; [done|apply turn_start]|]. done. Qed.

Lemma serve_consistent passes fuel device waiting times schedule t r :
  host_ok h0 -> ch_app_busy h0 = false -> serve passes fuel (new_transport device h0 waiting times schedule) = (t, r) -> consistent t.
Proof.
  intros Hh Hb Hr. pose proof (serve_ok passes fuel _ (new_settled device waiting times schedule Hh Hb)) as Hs. rewrite Hr in Hs.
  destruct r; [by apply settled_lasts|done].
Qed.

(** The app has [request], in its queue, in its hands or answered but for the
    flag. *)
Definition has_request (request : AppRequest) (sh : Shared) : Prop :=
  sh_requests sh = [request] \/ (exists before, sh_worker sh = WorkerCalls request before) \/
  exists response, sh_worker sh = WorkerAnswered response /\ is_answer_to request response.

(** C22: A cancellation reaches the request it is for and no other, however the
    transport and the app's thread interleave.  Whenever the app's flag says
    interrupted, the app has the request the transport took last, which has
    had no answer; and since it was taken a CANCEL of it or an INIT came on
    its own channel, or at a tick of the clock it was a U2F request without an
    answer that nobody asks for any more: the platform's last poll for it was more
    than 3 seconds ago, or the approval given for it had run out. *)
Theorem interrupt_is_for_the_request_in_flight (passes fuel : nat) (device : D) (waiting : bool)
    (times : option Z * option Z) (schedule : list Turn) (t : Transport D) (r : result unit PollError) :
  host_ok h0 -> ch_app_busy h0 = false -> serve passes fuel (new_transport device h0 waiting times schedule) = (t, r) ->
  sh_flag (tr_shared t) = INTERRUPTED ->
  exists request p before after,
    tr_trace t = before ++ ETakeRequest :: after /\ tr_host t = host_run (tr_trace t) h0 /\
    snd (take_app_request (host_run before h0)) = Some request /\ ch_state (host_run before h0) = Processing p /\
    Forall no_response after /\ has_request request (tr_shared t) /\ sh_responses (tr_shared t) = [] /\
    asked_during (pr_channel p) request (host_run (before ++ [ETakeRequest]) h0) after.
Proof.
  intros Hh Hb Hr Hf. destruct (serve_consistent _ _ _ _ _ _ _ _ Hh Hb Hr) as (ph & _ & (Et & _) & Hs & Hp).
  destruct ph as [|x|x|x|x]; cbn in Hs; try (exfalso; naive_solver congruence).
  destruct Hs as (_ & Hresp & Hw), Hp as (p & before & after & E & Es & _ & _ & Eq & Hn & _ & Ha).
  exists x, p, before, after. split_and!; try done; [|apply Ha; by left].
  destruct Hw as [[Hw _]|[_ Hw]]; [by left|by right].
Qed.

(** Every answer the state machine was given is to the request it handed over
    last, with no answer in between; and the state machine keeps its invariant. *)
Theorem answers_in_turn (passes fuel : nat) (device : D) (waiting : bool) (times : option Z * option Z)
    (schedule : list Turn) (t : Transport D) (r : result unit PollError) :
  host_ok h0 -> ch_app_busy h0 = false -> serve passes fuel (new_transport device h0 waiting times schedule) = (t, r) ->
  in_turn (tr_trace t) /\ host_ok (tr_host t) /\
  (length (sh_requests (tr_shared t)) + length (sh_responses (tr_shared t)) <= 1)%nat.
Proof.
  intros Hh Hb Hr. destruct (serve_consistent _ _ _ _ _ _ _ _ Hh Hb Hr) as (ph & Ho & (_ & Hi) & Hs & _).
  split; [done|]. split; [done|]. destruct ph as [|x|x|x|x]; cbn in Hs.
  1-3: destruct Hs as (-> & -> & _); cbn; lia.
  - destruct Hs as (_ & -> & [[-> _]|[-> _]]); cbn; lia.
  - destruct Hs as (_ & -> & y & _ & [[-> _]|[-> _]]); cbn; lia.
Qed.

(** A cancellation is not lost: once the transport passed it on, the flag no
    longer says that the app works undisturbed. *)
Theorem cancellation_not_lost (t t' : Transport D) :
  ch_interrupt_app (tr_host t) = true -> pass_interrupt t = (t', Ok tt) -> sh_flag (tr_shared t') <> WORKING.
Proof.
  intros Hi. unfold pass_interrupt, mbind_st. rewrite call_value. cbn [snd take_interrupt]. rewrite Hi.
  unfold interrupt_app, on_shared, mbind_st. destruct (next_turn _) as [t1 [turn|e]]; [|done]. intros [= <-]. cbn.
  by destruct (sh_flag (tr_shared t1)).
Qed.

End Invariant.

(** ** The schedule is fuel enough *)

Section Fuel.

Context {D : Type} `{HidDevice D}.

#[local] Abbreviation Tr A := (M (Transport D) A PollError).

Definition turns_left (t : Transport D) : nat := length (tr_schedule t).

(** With fewer turns left than [n], [m] does not want for fuel. *)
Definition frugal (n : nat) {A} (m : Tr A) : Prop :=
  forall t, (turns_left t < n)%nat -> snd (m t) <> Err OutOfFuel /\ (turns_left (fst (m t)) <= turns_left t)%nat.

(** And what goes on after it has fewer still. *)
Definition costly (n : nat) {A} (m : Tr A) : Prop :=
  forall t, (turns_left t < n)%nat -> snd (m t) <> Err OutOfFuel /\ (turns_left (fst (m t)) <= turns_left t)%nat /\
    (is_ok (snd (m t)) = true -> (turns_left (fst (m t)) < turns_left t)%nat).

Lemma frugal_bind n {A B} (m : Tr A) (k : A -> Tr B) :
  frugal n m -> (forall x, frugal n (k x)) -> frugal n (mbind_st m k).
Proof.
  intros Hm Hk t Ht. unfold mbind_st. destruct (Hm t Ht) as [He Hl]. destruct (m t) as [t1 [x|e]]; cbn [fst snd] in *.
  - destruct (Hk x t1) as [He' Hl']; [lia|]. split; [done|lia].
  - split; [congruence|lia].
Qed.

Lemma costly_bind n {A B} (m : Tr A) (k : A -> Tr B) :
  costly (S n) m -> (forall x, frugal n (k x)) -> costly (S n) (mbind_st m k).
Proof.
  intros Hm Hk t Ht. unfold mbind_st. destruct (Hm t Ht) as (He & Hl & Hs). destruct (m t) as [t1 [x|e]]; cbn [fst snd] in *.
  - specialize (Hs eq_refl). destruct (Hk x t1) as [He' Hl']; [lia|]. split; [done|]. split; [lia|]. intros _. lia.
  - split; [congruence|]. split; [lia|done].
Qed.

Lemma costly_then n {A B} (m : Tr A) (k : A -> Tr B) :
  costly n m -> (forall x, frugal n (k x)) -> costly n (mbind_st m k).
Proof.
  intros Hm Hk t Ht. unfold mbind_st. destruct (Hm t Ht) as (He & Hl & Hs). destruct (m t) as [t1 [x|e]]; cbn [fst snd] in *.
  - specialize (Hs eq_refl). destruct (Hk x t1) as [He' Hl']; [lia|]. split; [done|]. split; [lia|]. intros _. lia.
  - split; [congruence|]. split; [lia|done].
Qed.

Lemma frugal_costly n {A} (m : Tr A) : costly n m -> frugal n m.
Proof. intros Hm t Ht. destruct (Hm t Ht) as (? & ? & _). done. Qed.

Lemma frugal_less n m {A} (c : Tr A) : frugal n c -> (m <= n)%nat -> frugal m c.
Proof. intros Hc Hl t Ht. apply Hc. lia. Qed.

(** Steps without a turn. *)
Lemma frugal_still n {A} (m : Tr A) :
  (forall t, tr_schedule (fst (m t)) = tr_schedule t /\ snd (m t) <> Err OutOfFuel) -> frugal n m.
Proof. intros Hm t _. destruct (Hm t) as [E He]. unfold turns_left. by rewrite E. Qed.

Lemma turn_costly n : costly n (next_turn : Tr Turn).
Proof. intros t _. unfold next_turn, turns_left. destruct (tr_schedule t) eqn:E; cbn; rewrite ?E; cbn; split_and!; (done || lia). Qed.

Lemma frugal_ret n {A} (x : A) : frugal n (ret x : Tr A).
Proof. by apply frugal_still. Qed.

Lemma frugal_gets n {A} (f : Transport D -> A) : frugal n (gets f : Tr A).
Proof. by apply frugal_still. Qed.

Lemma frugal_call n {A} (f : CtaphidHost -> CtaphidHost * A) e : frugal n (host_call f e : Tr A).
Proof. apply frugal_still. intros t. unfold host_call. by destruct (f (tr_host t)). Qed.

Lemma frugal_do n e : frugal n (host_do e : Tr unit).
Proof. apply frugal_call. Qed.

Lemma shared_costly n {A} (f : Shared -> Shared * A) : costly n (on_shared f : Tr A).
Proof.
  apply costly_then; [apply turn_costly|]. intros turn. apply frugal_still. intros t. by destruct (f (tr_shared t)).
Qed.

Lemma device_costly n {A} (m : M D A SeatError) : costly n (with_device m : Tr A).
Proof.
  apply costly_then; [apply turn_costly|]. intros turn. apply frugal_still. intros t. by destruct (m (tr_device t)) as [d [x|e]].
Qed.

Lemma now_costly n : costly n (tr_now : Tr Z).
Proof. apply costly_then; [apply turn_costly|]. intros turn. apply frugal_ret. Qed.

Lemma shutdown_costly n : costly n (check_shutdown : Tr unit).
Proof. apply costly_then; [apply turn_costly|]. intros turn. apply frugal_still. intros t. by destruct (tn_shutdown turn). Qed.

Create HintDb frugal.
#[local] Hint Resolve frugal_ret frugal_gets frugal_call frugal_do frugal_costly turn_costly shared_costly device_costly
  now_costly shutdown_costly : frugal.

Ltac frugals := repeat first [ solve [eauto 3 with frugal nocore] | apply frugal_bind; [|intros ?] | case_match ].

Lemma take_response_frugal n response : frugal n (take_response response : Tr unit).
Proof. unfold take_response. frugals. Qed.

Lemma collect_app_frugal n received : frugal n (collect_app n received : Tr bool).
Proof.
  revert received. induction n as [|n IH]; intros received; [intros t Ht; lia|]. cbn [collect_app].
  apply frugal_costly, costly_bind; [apply shared_costly|]. intros [response|]; [|apply frugal_ret].
  apply frugal_bind; [apply take_response_frugal|intros ?; apply IH].
Qed.

Lemma collect_identification_frugal n received : frugal n (collect_identification n received : Tr bool).
Proof.
  revert received. induction n as [|n IH]; intros received; [intros t Ht; lia|]. cbn [collect_identification].
  apply frugal_costly, costly_bind; [apply shared_costly|]. intros [[token delivered]|]; [|apply frugal_ret].
  apply frugal_bind; [eauto with frugal|intros now]. apply frugal_bind; [apply frugal_do|intros ?; apply IH].
Qed.

Lemma collect_frugal n : frugal n (collect_responses n : Tr bool).
Proof. apply frugal_bind; [apply collect_app_frugal|intros x; apply collect_identification_frugal]. Qed.

Lemma observe_frugal n : frugal n (observe_presence : Tr unit).
Proof. unfold observe_presence. frugals. Qed.

Lemma read_frames_frugal n read : frugal n (read_frames n read : Tr bool).
Proof.
  revert read. induction n as [|n IH]; intros read; [intros t Ht; lia|]. cbn [read_frames].
  apply frugal_costly, costly_bind; [apply device_costly|]. intros [frame|]; [|apply frugal_ret].
  apply frugal_bind; [eauto with frugal|intros ?]. apply frugal_bind.
  { eapply frugal_less; [apply collect_frugal|lia]. }
  intros ?. apply frugal_bind; [eauto with frugal|intros now]. apply frugal_bind; [apply observe_frugal|intros ?].
  do 2 (apply frugal_bind; [apply frugal_do|intros ?]). apply IH.
Qed.

Lemma pass_interrupt_frugal n : frugal n (pass_interrupt : Tr unit).
Proof. unfold pass_interrupt, interrupt_app. frugals. Qed.

Lemma pause_frugal n wrote : frugal n (pause_between n wrote : Tr unit).
Proof.
  unfold pause_between. destruct wrote; [|apply frugal_ret]. apply frugal_bind; [eauto with frugal|intros ?].
  apply frugal_bind; [apply read_frames_frugal|intros ?]. apply frugal_bind; [apply pass_interrupt_frugal|intros ?].
  apply frugal_bind; [eauto with frugal|intros ?; apply frugal_ret].
Qed.

Lemma flush_frugal n wrote : frugal n (flush_pending n wrote : Tr bool).
Proof.
  revert wrote. induction n as [|n IH]; intros wrote; [intros t Ht; lia|]. cbn [flush_pending].
  apply frugal_bind; [apply frugal_gets|]. intros [frame|]; [|apply frugal_ret].
  apply frugal_bind; [apply pause_frugal|intros ?]. apply frugal_costly, costly_bind; [apply shutdown_costly|intros ?].
  apply frugal_bind; [eauto with frugal|intros now]. apply frugal_bind; [apply frugal_do|intros ?].
  apply frugal_bind; [apply frugal_gets|]. intros []; [|apply IH].
  apply frugal_bind; [eauto with frugal|intros ?]. apply frugal_bind; [apply frugal_do|intros ?; apply IH].
Qed.

Lemma hand_over_frugal n : frugal n (hand_over : Tr bool).
Proof.
  unfold hand_over, submit_request. apply frugal_bind; [apply frugal_call|]. intros [r|]; [|apply frugal_ret].
  apply frugal_bind; [|intros ?; apply frugal_ret]. apply frugal_bind; [eauto with frugal|intros before].
  apply frugal_bind; [by apply frugal_still|intros ?]. frugals.
Qed.

Lemma hand_over_identification_frugal n : frugal n (hand_over_identification : Tr bool).
Proof. unfold hand_over_identification, submit_identification. frugals. Qed.

Lemma poll_costly n : costly n (poll n : Tr bool).
Proof.
  unfold poll. apply costly_then; [apply shutdown_costly|intros ?]. apply frugal_bind; [apply read_frames_frugal|intros ?].
  apply frugal_bind; [apply pass_interrupt_frugal|intros ?]. apply frugal_bind; [apply collect_frugal|intros ?].
  apply frugal_bind; [apply hand_over_frugal|intros ?]. apply frugal_bind; [apply hand_over_identification_frugal|intros ?].
  apply frugal_bind; [eauto with frugal|intros now]. apply frugal_bind; [apply observe_frugal|intros ?].
  apply frugal_bind; [apply frugal_do|intros ?]. apply frugal_bind; [eauto with frugal|intros waiting].
  apply frugal_bind; [apply frugal_do|intros ?]. apply frugal_bind; [apply flush_frugal|intros ?; apply frugal_ret].
Qed.

Lemma wait_frugal n : frugal n (wait : Tr unit).
Proof. unfold wait. frugals. Qed.

(** A run never wants for fuel: with as many passes and as much fuel as its
    schedule has turns, it ends with the device's or shutdown's error, or with
    its schedule. *)
Theorem serve_fuel (passes fuel : nat) (t : Transport D) :
  (turns_left t < passes)%nat -> (turns_left t < fuel)%nat -> snd (serve passes fuel t) <> Err OutOfFuel.
Proof.
  revert t. induction passes as [|passes IH]; intros t Hp Hf; [lia|]. cbn [serve]. unfold mbind_st.
  destruct (poll_costly fuel t Hf) as (He & _ & Hl). destruct (poll fuel t) as [t1 [busy|e]]; cbn [fst snd] in *; [|congruence].
  specialize (Hl eq_refl). assert (Hw : frugal fuel (if busy then ret tt else wait : Tr unit)).
  { destruct busy; [apply frugal_ret|apply wait_frugal]. }
  destruct (Hw t1) as [He' Hl']; [lia|]. destruct ((if busy then ret tt else wait) t1) as [t2 [[]|e]]; cbn [fst snd] in *; [|congruence].
  apply IH; lia.
Qed.

End Fuel.

(** ** A run *)

Module TransportWitness.

(** What the device has to read: a report, or nothing for now. *)
#[local] Instance scripted_device : HidDevice (list (option bytes)) := {|
  try_read_frame := fun d =>
    match d with
    | Some frame :: rest =>
        (rest, Ok (if bool_decide (length frame = CTAPHID_FRAME_LEN /\ bytes_ok frame) then Some frame else None))
    | None :: rest => (rest, Ok None)
    | [] => ([], Ok None)
    end;
  write_frame := fun _ d => (d, Ok tt)
|}.

#[local] Instance scripted_reports : ReportDevice (list (option bytes)).
Proof.
  split. intros d d' frame. cbn. destruct d as [|[f|] rest]; [done| |done].
  destruct (bool_decide _) eqn:Eb; [|done]. intros [= _ <-]. by apply bool_decide_eq_true in Eb.
Qed.

Definition idle_host : CtaphidHost := with_rng (fun _ => 7).

Lemma idle_host_ok : host_ok idle_host.
Proof. apply ok_new. intros n. unfold BROADCAST_CID. lia. Qed.

(** A request on channel 5, and after a pass its cancellation; the worker takes
    the request in between. *)
Definition script : list (option bytes) :=
  [Some (init_report 5 Cbor 1 [4]); None; Some (init_report 5 Cancel 0 []); None].

Definition turns : list Turn :=
  map (fun n => {| tn_moves := [MTake]; tn_now := 1000000 * Z.of_nat n; tn_shutdown := false |}) (seq 0 45).

Definition cancelled : Transport (list (option bytes)) * result unit PollError :=
  serve 50 50 (new_transport script idle_host false (None, None) turns).

Lemma cancelled_is : serve 50 50 (new_transport script idle_host false (None, None) turns) = cancelled.
Proof. unfold cancelled. reflexivity. Qed.

Lemma cancelled_interrupted : sh_flag (tr_shared (fst cancelled)) = INTERRUPTED.
Proof. vm_compute. reflexivity. Qed.

Lemma idle_host_free : ch_app_busy idle_host = false.
Proof. reflexivity. Qed.

(** The run in which the CANCEL reached the app. *)
#[local] Opaque cancelled.

Lemma interrupt_is_for_the_request_in_flight_witness :
  exists t r, serve 50 50 (new_transport script idle_host false (None, None) turns) = (t, r) /\ sh_flag (tr_shared t) = INTERRUPTED /\
    exists request p before after,
      tr_trace t = before ++ ETakeRequest :: after /\ tr_host t = host_run (tr_trace t) idle_host /\
      snd (take_app_request (host_run before idle_host)) = Some request /\ ch_state (host_run before idle_host) = Processing p /\
      Forall no_response after /\ has_request request (tr_shared t) /\ sh_responses (tr_shared t) = [] /\
      asked_during (pr_channel p) request (host_run (before ++ [ETakeRequest]) idle_host) after.
Proof.
  pose proof cancelled_is as Hr. pose proof cancelled_interrupted as Hf. revert Hr Hf. destruct cancelled as [t r].
  intros Hr Hf. exists t, r. split; [exact Hr|]. split; [exact Hf|].
  exact (interrupt_is_for_the_request_in_flight idle_host 50 50 script false (None, None) turns t r idle_host_ok idle_host_free Hr Hf).
Defined.

End TransportWitness.
