(* ===== verification/Uhid.v ===== *)
(** * The kernel's virtual HID device ([crates/pqkey/src/platform/linux/uhid.rs])

    [UhidDevice] exchanges events of fixed size with [/dev/uhid]: an event the
    kernel wants read is waited for, left to settle, read whole and decoded; a
    report to the host, and an answer the kernel waits for, is written as an
    event.  It implements the device the transport serves ([HidDevice] of
    [Seat.v], [ReportDevice] of [Transport.v]).  The kernel is what it answers
    to the calls to come ([uf_polls] and so on; an empty list is a device with
    nothing to read that takes every write), the clock is the time that passes
    before each reading.  Numbers are little-endian, as on the machines the
    program is built for.  Times are nanoseconds.  Log lines, opening the file
    and looking at the hidraw node's mode are left out. *)

From Stdlib Require Import Init.Byte.
From stdpp Require Import list.
From S2P Require Import Prelude Ctaphid Seat Transport.

Definition READ_SETTLING_TIME : Z := 100000.

Definition UHID_DATA_MAX : nat := Z.to_nat 4096.

Definition HID_MAX_DESCRIPTOR_SIZE : nat := Z.to_nat 4096.

Definition UHID_EVENT_SIZE : nat := Z.to_nat 4376.

Definition UHID_EVENT_TYPE_DESTROY : Z := 1.

Definition UHID_EVENT_TYPE_OPEN : Z := 4.

Definition UHID_EVENT_TYPE_OUTPUT : Z := 6.

Definition UHID_EVENT_TYPE_GET_REPORT : Z := 9.

Definition UHID_EVENT_TYPE_GET_REPORT_REPLY : Z := 10.

Definition UHID_EVENT_TYPE_CREATE2 : Z := 11.

Definition UHID_EVENT_TYPE_INPUT2 : Z := 12.

Definition UHID_EVENT_TYPE_SET_REPORT : Z := 13.

Definition UHID_EVENT_TYPE_SET_REPORT_REPLY : Z := 14.

Definition BUS_USB : Z := 3.

Definition EINVAL : Z := 22.

(** Errors that are not the system's. *)
Definition unexpected_eof : SeatError := SeatIo (-1).

Definition short_write : SeatError := SeatIo (-2).

Inductive ReportType : Type := ReportFeature | ReportOutput | ReportInput.

#[export] Instance ReportType_eq_dec : EqDecision ReportType.
Proof. solve_decision. Defined.

(** [ReportType::from_raw]. *)
Definition report_type_from_raw (raw : Z) : option ReportType :=
  if raw =? 0 then Some ReportFeature
  else if raw =? 1 then Some ReportOutput
  else if raw =? 2 then Some ReportInput
  else None.

(** ** Events as bytes *)

(** [uhid_event::new] with the first fields of the union filled in. *)
Definition uhid_event (type : Z) (content : bytes) : bytes :=
  le_bytes 4 type ++ content ++ repeat 0 (UHID_EVENT_SIZE - 4 - length content).

(** [n] bytes of the union, from [off]. *)
Definition event_bytes (off n : nat) (event : bytes) : bytes := take n (drop (4 + off) event).

Definition event_number (off n : nat) (event : bytes) : Z := le_value (event_bytes off n event).

Definition event_type (event : bytes) : Z := le_value (take 4 event).

(** The fields of [uhid_output_req] and [uhid_set_report_req]. *)
Definition output_data (event : bytes) : bytes := event_bytes 0 UHID_DATA_MAX event.

Definition output_size (event : bytes) : Z := event_number UHID_DATA_MAX 2 event.

Definition output_rtype (event : bytes) : Z := event_number (UHID_DATA_MAX + 2) 1 event.

Definition request_id (event : bytes) : Z := event_number 0 4 event.

Definition set_report_rtype (event : bytes) : Z := event_number 5 1 event.

Definition set_report_size (event : bytes) : Z := event_number 6 2 event.

Definition set_report_data (event : bytes) : bytes := event_bytes 8 UHID_DATA_MAX event.

(** [data.get(..size)]. *)
Definition report_data (data : bytes) (size : Z) : option bytes :=
  if size <=? zlen data then Some (take (Z.to_nat size) data) else None.

(** A report, or one behind report ID 0. *)
Definition frame_from_report_slice (slice : bytes) : option bytes :=
  if (length slice =? CTAPHID_FRAME_LEN)%nat then Some slice
  else if (length slice =? CTAPHID_FRAME_LEN + 1)%nat && bool_decide (head slice = Some 0) then Some (tail slice)
  else None.

Definition input_event (frame : bytes) : bytes :=
  uhid_event UHID_EVENT_TYPE_INPUT2 (le_bytes 2 (Z.of_nat CTAPHID_FRAME_LEN) ++ frame).

Definition get_report_reply (id err : Z) (data : bytes) : bytes :=
  uhid_event UHID_EVENT_TYPE_GET_REPORT_REPLY (le_bytes 4 id ++ le_bytes 2 err ++ le_bytes 2 (zlen data) ++ data).

Definition set_report_reply (id err : Z) : bytes :=
  uhid_event UHID_EVENT_TYPE_SET_REPORT_REPLY (le_bytes 4 id ++ le_bytes 2 err).

Record HidDeviceDescriptor : Type := {
  hd_name : bytes;
  hd_vendor_id : Z;
  hd_product_id : Z;
  hd_version : Z;
  hd_country : Z;
  hd_uniq : bytes
}.

Definition CTAPHID_REPORT_DESCRIPTOR : bytes :=
  [0x06; 0xD0; 0xF1; 0x09; 0x01; 0xA1; 0x01; 0x09; 0x20; 0x15; 0x00; 0x26; 0xFF; 0x00; 0x75; 0x08; 0x95; 0x40; 0x81;
   0x02; 0x09; 0x21; 0x15; 0x00; 0x26; 0xFF; 0x00; 0x75; 0x08; 0x95; 0x40; 0x91; 0x02; 0xC0].

(** [copy_str_to_array] into an array of [n] zeroes: at most [n - 1] bytes,
    ended by a NUL. *)
Definition copy_str_to_array (value : bytes) (n : nat) : bytes :=
  let kept := if (n <=? length value)%nat then take (n - 1) value else value in
  kept ++ repeat 0 (n - length kept).

(** The event that creates the device. *)
Definition descriptor_to_create2 (d : HidDeviceDescriptor) : result bytes SeatError :=
  if (HID_MAX_DESCRIPTOR_SIZE <? length CTAPHID_REPORT_DESCRIPTOR)%nat then Err (SeatIo (-3))
  else Ok (uhid_event UHID_EVENT_TYPE_CREATE2
    (copy_str_to_array (hd_name d) 128 ++ repeat 0 64 ++ copy_str_to_array (hd_uniq d) 64
     ++ le_bytes 2 (zlen CTAPHID_REPORT_DESCRIPTOR) ++ le_bytes 2 BUS_USB ++ le_bytes 4 (hd_vendor_id d)
     ++ le_bytes 4 (hd_product_id d) ++ le_bytes 4 (hd_version d) ++ le_bytes 4 (hd_country d)
     ++ CTAPHID_REPORT_DESCRIPTOR)).

(** ** The file *)

Inductive PollAnswer : Type :=
| PollReady (ready : Z)
| PollInterrupted
| PollFails (code : Z).

Inductive ReadAnswer : Type :=
| ReadData (data : list byte)
| ReadInterrupted
| ReadAgain
| ReadFails (code : Z).

Inductive WriteAnswer : Type :=
| Wrote (n : Z)
| WriteInterrupted
| WriteAgain
| WriteFails (code : Z).

(** What was done: readiness seen at a time, an event asked for at a time and
    what came, an event the kernel took, a sleep on the device too or on the
    worker's pipe only. *)
Inductive UhidCall : Type :=
| UReady (at_ : Z)
| URead (at_ : Z) (event : option bytes)
| UWrite (event : bytes)
| USleep (device : bool) (timeout : option Z).

Record UhidFile : Type := MkUhidFile {
  uf_polls : list PollAnswer;
  uf_waits : list PollAnswer;
  uf_reads : list ReadAnswer;
  uf_writes : list WriteAnswer;
  uf_time : Z;
  uf_ticks : list N;
  uf_calls : list UhidCall
}.

Record UhidDevice : Type := MkUhid {
  ud_file : UhidFile;
  ud_readable_since : option Z;
  ud_opened : bool;
  ud_node_checked : bool
}.

#[local] Abbreviation Dev A := (M UhidDevice A SeatError).

Definition ud_calls (u : UhidDevice) : list UhidCall := uf_calls (ud_file u).

Definition set_ud_file (v : UhidFile) (u : UhidDevice) : UhidDevice :=
  MkUhid v (ud_readable_since u) (ud_opened u) (ud_node_checked u).

Definition set_ud_readable_since (v : option Z) (u : UhidDevice) : UhidDevice :=
  MkUhid (ud_file u) v (ud_opened u) (ud_node_checked u).

Definition set_ud_opened (v : bool) (u : UhidDevice) : UhidDevice :=
  MkUhid (ud_file u) (ud_readable_since u) v (ud_node_checked u).

Definition set_ud_node_checked (v : bool) (u : UhidDevice) : UhidDevice :=
  MkUhid (ud_file u) (ud_readable_since u) (ud_opened u) v.

Definition with_file {A} (f : UhidFile -> UhidFile * A) : Dev A := fun u =>
  let (file, x) := f (ud_file u) in (set_ud_file file u, Ok x).

Definition log_call (c : UhidCall) : Dev unit := with_file (fun f =>
  (MkUhidFile (uf_polls f) (uf_waits f) (uf_reads f) (uf_writes f) (uf_time f) (uf_ticks f) (uf_calls f ++ [c]), tt)).

(** [Instant::now]. *)
Definition next_instant (f : UhidFile) : Z :=
  match uf_ticks f with tick :: _ => uf_time f + Z.of_N tick | [] => uf_time f end.

Definition instant_now : Dev Z := with_file (fun f =>
  (MkUhidFile (uf_polls f) (uf_waits f) (uf_reads f) (uf_writes f) (next_instant f) (tail (uf_ticks f)) (uf_calls f),
   next_instant f)).

(** [Instant::elapsed]. *)
Definition elapsed (since : Z) : Dev Z := let* now := instant_now in ret (saturating_sub now since).

(** [poll] of the device, without waiting. *)
Definition poll_device : Dev PollAnswer := with_file (fun f =>
  (MkUhidFile (tail (uf_polls f)) (uf_waits f) (uf_reads f) (uf_writes f) (uf_time f) (uf_ticks f) (uf_calls f),
   default (PollReady 0) (head (uf_polls f)))).

(** [ppoll] of the worker's pipe, and of the device unless an event settles. *)
Definition sleep (device : bool) (timeout : option Z) : Dev PollAnswer :=
  log_call (USleep device timeout) ;;*
  with_file (fun f =>
    (MkUhidFile (uf_polls f) (tail (uf_waits f)) (uf_reads f) (uf_writes f) (uf_time f) (uf_ticks f) (uf_calls f),
     default (PollReady 0) (head (uf_waits f)))).

(** [write_event_blocking]: until the kernel takes the event whole. *)
Fixpoint write_loop (answers : list WriteAnswer) : list WriteAnswer * result unit SeatError :=
  match answers with
  | [] => ([], Ok tt)
  | Wrote n :: rest => (rest, if n =? Z.of_nat UHID_EVENT_SIZE then Ok tt else Err short_write)
  | WriteInterrupted :: rest | WriteAgain :: rest => write_loop rest
  | WriteFails code :: rest => (rest, Err (SeatIo code))
  end.

Definition write_event_blocking (event : bytes) : Dev unit :=
  let* written := with_file (fun f =>
    let (writes, r) := write_loop (uf_writes f) in
    (MkUhidFile (uf_polls f) (uf_waits f) (uf_reads f) writes (uf_time f) (uf_ticks f) (uf_calls f), r)) in
  lift written ;;*
  log_call (UWrite event).

Definition of_byte_list (l : list byte) : bytes := map (fun b => Z.of_N (Byte.to_N b)) l.

(** [read_event_nonblocking]: reads until the buffer is full; [None] is
    [WouldBlock]. *)
Fixpoint read_loop (answers : list ReadAnswer) (buffer : bytes)
    : list ReadAnswer * result (option bytes) SeatError :=
  if (UHID_EVENT_SIZE <=? length buffer)%nat then (answers, Ok (Some buffer))
  else
    match answers with
    | [] => ([], Ok None)
    | ReadData data :: rest =>
        match take (UHID_EVENT_SIZE - length buffer) (of_byte_list data) with
        | [] => (rest, Err unexpected_eof)
        | read => read_loop rest (buffer ++ read)
        end
    | ReadInterrupted :: rest => read_loop rest buffer
    | ReadAgain :: rest => (rest, Ok None)
    | ReadFails code :: rest => (rest, Err (SeatIo code))
    end.

Definition read_event_nonblocking (at_ : Z) : Dev (option bytes) :=
  let* event := with_file (fun f =>
    let (reads, r) := read_loop (uf_reads f) [] in
    (MkUhidFile (uf_polls f) (uf_waits f) reads (uf_writes f) (uf_time f) (uf_ticks f) (uf_calls f), r)) in
  log_call (URead at_ (match event with Ok event => event | Err _ => None end)) ;;*
  lift event.

(** ** The device *)

(** One readiness observation permits one read, once it has settled. *)
Definition try_read_event : Dev (option bytes) :=
  let* readable := gets ud_readable_since in
  match readable with
  | None =>
      let* answer := poll_device in
      match answer with
      | PollReady ready =>
          if 0 <? ready then
            let* now := instant_now in
            modify (set_ud_readable_since (Some now)) ;;* log_call (UReady now) ;;* ret None
          else ret None
      | PollInterrupted => ret None
      | PollFails code => fail (SeatIo code)
      end
  | Some since =>
      let* now := instant_now in
      if saturating_sub now since <? READ_SETTLING_TIME then ret None
      else
        modify (set_ud_readable_since None) ;;*
        read_event_nonblocking now
  end.

Definition send_set_report_reply (id err : Z) : Dev unit := write_event_blocking (set_report_reply id err).

Definition send_get_report_reply (id err : Z) (data : bytes) : Dev unit :=
  guard (negb (UHID_DATA_MAX <? length data)%nat) (SeatIo (-3)) ;;*
  write_event_blocking (get_report_reply id err data).

Definition is_output (rtype : Z) : bool := bool_decide (report_type_from_raw rtype = Some ReportOutput).

(** What is done with an event; the frame it carries, if it does. *)
Definition handle_event (event : bytes) : Dev (option bytes) :=
  let type := event_type event in
  if type =? UHID_EVENT_TYPE_OUTPUT then
    ret (if is_output (output_rtype event)
         then report_data (output_data event) (output_size event) ≫= frame_from_report_slice
         else None)
  else if type =? UHID_EVENT_TYPE_SET_REPORT then
    let report := report_data (set_report_data event) (set_report_size event) in
    let report := if is_output (set_report_rtype event) then report else None in
    let status := if is_some report then 0 else EINVAL in
    send_set_report_reply (request_id event) status ;;*
    ret (report ≫= frame_from_report_slice)
  else if type =? UHID_EVENT_TYPE_GET_REPORT then
    send_get_report_reply (request_id event) EINVAL [] ;;* ret None
  else if type =? UHID_EVENT_TYPE_OPEN then
    modify (set_ud_opened true) ;;* ret None
  else ret None.

(** [try_read_frame]; two rounds are enough ([read_frame_rounds]). *)
Fixpoint read_frame_loop (rounds : nat) : Dev (option bytes) :=
  match rounds with
  | O => fail (SeatIo (-4))
  | S rounds =>
      let* event := try_read_event in
      match event with
      | None =>
          let* check := gets (fun u => negb (ud_node_checked u) && ud_opened u) in
          (if check then modify (set_ud_node_checked true) else ret tt) ;;*
          ret None
      | Some event =>
          let* frame := handle_event event in
          match frame with
          | Some frame => ret (Some frame)
          | None => read_frame_loop rounds
          end
      end
  end.

Definition uhid_read_frame : Dev (option bytes) := read_frame_loop 2.

Definition send_input_report (frame : bytes) : Dev unit := write_event_blocking (input_event frame).

#[export] Instance uhid_hid : HidDevice UhidDevice := {|
  try_read_frame := uhid_read_frame;
  write_frame := send_input_report
|}.

(** [Duration::from_millis(i32::MAX)], the longest sleep. *)
Definition MAX_SLEEP : Z := (2 ^ 31 - 1) * 1000000.

(** [wait]: whether something can be read. *)
Definition uhid_wait (timeout : option Z) : Dev bool :=
  let* since := gets ud_readable_since in
  let* settling := match since with
                   | None => ret None
                   | Some since => let* past := elapsed since in ret (Some (saturating_sub READ_SETTLING_TIME past))
                   end in
  if bool_decide (settling = Some 0) then ret true
  else
    let device := negb (is_some settling) in
    let timeout := match settling with
                   | Some remaining => Some (match timeout with Some d => Z.min d remaining | None => remaining end)
                   | None => timeout
                   end in
    let timeout := option_map (fun d => Z.min d MAX_SLEEP) timeout in
    let* answer := sleep device timeout in
    match answer with
    | PollReady ready =>
        if 0 <? ready then ret true
        else
          let* since := gets ud_readable_since in
          match since with
          | Some since => let* past := elapsed since in ret (READ_SETTLING_TIME <=? past)
          | None => ret false
          end
    | PollInterrupted => ret false
    | PollFails code => fail (SeatIo code)
    end.

(** [UhidDevice::new] over an open file; [nonblocking] is what became of
    making it so. *)
Definition uhid_new (descriptor : HidDeviceDescriptor) (nonblocking : result unit SeatError) (file : UhidFile)
    : UhidFile * result UhidDevice SeatError :=
  match descriptor_to_create2 descriptor with
  | Err e => (file, Err e)
  | Ok create =>
      let (u, r) := (write_event_blocking create ;;* lift nonblocking) (MkUhid file None false false) in
      (ud_file u, match r with Ok _ => Ok u | Err e => Err e end)
  end.

(** Dropping the device: it is destroyed, if the kernel takes the event. *)
Definition uhid_drop (u : UhidDevice) : UhidFile :=
  ud_file (fst (write_event_blocking (uhid_event UHID_EVENT_TYPE_DESTROY []) u)).

(** ** What the kernel reads in an event *)

#[local] Opaque UHID_EVENT_SIZE UHID_DATA_MAX.

Lemma event_size_is : Z.of_nat UHID_EVENT_SIZE = 4376.
Proof. reflexivity. Qed.

Lemma data_max_is : Z.of_nat UHID_DATA_MAX = 4096.
Proof. reflexivity. Qed.

Lemma uhid_event_length type content :
  (length content <= UHID_EVENT_SIZE - 4)%nat -> length (uhid_event type content) = UHID_EVENT_SIZE.
Proof.
  pose proof event_size_is. intros. unfold uhid_event. rewrite !length_app, le_bytes_length, repeat_length. lia.
Qed.

Lemma event_type_is type content : 0 <= type < 2 ^ 32 -> event_type (uhid_event type content) = type.
Proof.
  intros. unfold event_type, uhid_event. rewrite take_app_length' by (by rewrite le_bytes_length). by apply le_value_bytes.
Qed.

Lemma event_bytes_at off n type before field after :
  length before = off -> length field = n ->
  event_bytes off n (uhid_event type (before ++ field ++ after)) = field.
Proof.
  intros Hb Hf. unfold event_bytes, uhid_event. rewrite <- drop_drop, (drop_app_length' _ _ 4)
    by (by rewrite le_bytes_length). rewrite <- !app_assoc, drop_app_length' by done. by rewrite take_app_length'.
Qed.

Lemma event_number_at off n type before v after : length before = off -> 0 <= v < 256 ^ Z.of_nat n ->
  event_number off n (uhid_event type (before ++ le_bytes n v ++ after)) = v.
Proof.
  intros Hb Hv. unfold event_number. rewrite event_bytes_at by (try apply le_bytes_length; done). by apply le_value_bytes.
Qed.

Lemma le_value_range l : bytes_ok l -> 0 <= le_value l < 256 ^ zlen l.
Proof.
  intros Hl. unfold le_value. pose proof (be_value_range (rev l)) as Hr. unfold zlen in *. rewrite length_rev in Hr.
  apply Hr. by apply Forall_rev.
Qed.

Lemma event_number_range off n event : bytes_ok event -> 0 <= event_number off n event < 256 ^ Z.of_nat n.
Proof.
  intros He. unfold event_number. pose proof (le_value_range (event_bytes off n event)) as Hr.
  assert (bytes_ok (event_bytes off n event)) as Hok by by apply Forall_take, Forall_drop.
  specialize (Hr Hok). assert (256 ^ zlen (event_bytes off n event) <= 256 ^ Z.of_nat n); [|lia].
  apply Z.pow_le_mono_r; [lia|]. unfold zlen, event_bytes. rewrite length_take. lia.
Qed.

(** ** What the operations do *)

Lemma of_byte_list_ok l : bytes_ok (of_byte_list l).
Proof.
  apply Forall_forall. intros x Hx. apply list_elem_of_In, in_map_iff in Hx as (b & <- & _). unfold is_byte.
  pose proof (Byte.to_N_bounded b). lia.
Qed.

Lemma read_loop_ok answers buffer answers' event : bytes_ok buffer -> (length buffer <= UHID_EVENT_SIZE)%nat ->
  read_loop answers buffer = (answers', Ok (Some event)) -> bytes_ok event /\ length event = UHID_EVENT_SIZE.
Proof.
  revert buffer. induction answers as [|a answers IH]; intros buffer Hb Hl; cbn [read_loop].
  - destruct (UHID_EVENT_SIZE <=? length buffer)%nat eqn:E; [|done]. intros [= <- <-]. split; [done|].
    apply Nat.leb_le in E. lia.
  - destruct (UHID_EVENT_SIZE <=? length buffer)%nat eqn:E.
    { intros [= <- <-]. split; [done|]. apply Nat.leb_le in E. lia. }
    apply Nat.leb_gt in E. destruct a as [data| | |code]; try done; [|by apply IH].
    destruct (take _ (of_byte_list data)) as [|x l] eqn:Et; [done|]. apply IH.
    + apply Forall_app. split; [done|]. rewrite <- Et. apply Forall_take, of_byte_list_ok.
    + rewrite length_app, <- Et, length_take. lia.
Qed.

(** An event is put together from whatever pieces the kernel gives it in,
    however often reading is interrupted. *)
Inductive pieces : list ReadAnswer -> bytes -> Prop :=
| pieces_nil : pieces [] []
| pieces_interrupted answers l : pieces answers l -> pieces (ReadInterrupted :: answers) l
| pieces_data data answers l : data <> [] -> pieces answers l -> pieces (ReadData data :: answers) (of_byte_list data ++ l).

Lemma read_loop_full answers buffer :
  (UHID_EVENT_SIZE <= length buffer)%nat -> read_loop answers buffer = (answers, Ok (Some buffer)).
Proof. intros H. destruct answers; cbn [read_loop]; by rewrite (proj2 (Nat.leb_le _ _) H). Qed.

Lemma read_loop_pieces answers l buffer rest : pieces answers l -> length (buffer ++ l) = UHID_EVENT_SIZE ->
  exists left, read_loop (answers ++ rest) buffer = (left, Ok (Some (buffer ++ l))).
Proof.
  intros Hp. revert buffer. induction Hp as [|answers l Hp IH|data answers l Hd Hp IH]; intros buffer Hl.
  - rewrite app_nil_r in Hl. rewrite read_loop_full, app_nil_r by lia. by eexists.
  - destruct (Nat.le_gt_cases UHID_EVENT_SIZE (length buffer)) as [Hf|Hf].
    + rewrite length_app in Hl. assert (l = []) as -> by (apply nil_length_inv; lia).
      rewrite read_loop_full, app_nil_r by done. by eexists.
    + cbn [app read_loop]. rewrite (proj2 (Nat.leb_gt _ _) Hf). by apply IH.
  - assert (0 < length (of_byte_list data))%nat by (unfold of_byte_list; rewrite length_map; destruct data; cbn; [done|lia]).
    rewrite !length_app in Hl. cbn [app read_loop]. rewrite (proj2 (Nat.leb_gt _ _)), take_ge by lia.
    destruct (of_byte_list data) as [|x t] eqn:Ed; [cbn in *; lia|]. rewrite <- Ed in *. rewrite app_assoc. apply IH.
    rewrite !length_app. lia.
Qed.

Definition valid_event (event : bytes) : Prop := bytes_ok event /\ length event = UHID_EVENT_SIZE.

(** [u'] is [u] after these calls. *)
Definition after_calls (calls : list UhidCall) (u u' : UhidDevice) : Prop := ud_calls u' = ud_calls u ++ calls.

Lemma after_trans c1 c2 u u1 u2 : after_calls c1 u u1 -> after_calls c2 u1 u2 -> after_calls (c1 ++ c2) u u2.
Proof. unfold after_calls. intros H1 H2. by rewrite H2, H1, app_assoc. Qed.

Lemma after_none u : after_calls [] u u.
Proof. unfold after_calls. by rewrite app_nil_r. Qed.

Ltac same_calls := unfold after_calls, ud_calls; cbn; by rewrite ?app_nil_r.

(** What one attempt to read an event does: it observes readiness or not; or
    lets an event settle; or reads one that has settled. *)
Inductive read_step (u : UhidDevice) : UhidDevice -> result (option bytes) SeatError -> Prop :=
| step_polled u' r : ud_readable_since u = None -> ud_readable_since u' = None -> after_calls [] u u' ->
    r = Ok None \/ (exists code, r = Err (SeatIo code)) -> read_step u u' r
| step_ready u' now : ud_readable_since u = None -> ud_readable_since u' = Some now -> after_calls [UReady now] u u' ->
    read_step u u' (Ok None)
| step_settles u' since : ud_readable_since u = Some since -> ud_readable_since u' = Some since -> after_calls [] u u' ->
    read_step u u' (Ok None)
| step_read u' since now event r : ud_readable_since u = Some since -> since + READ_SETTLING_TIME <= now ->
    ud_readable_since u' = None -> after_calls [URead now event] u u' ->
    (r = Ok event /\ (forall e, event = Some e -> valid_event e)) \/ (event = None /\ exists code, r = Err (SeatIo code)) ->
    read_step u u' r.

Lemma read_loop_error answers buffer answers' e : read_loop answers buffer = (answers', Err e) -> exists code, e = SeatIo code.
Proof.
  revert buffer. induction answers as [|a answers IH]; intros buffer; cbn [read_loop]; destruct (_ <=? _)%nat; try done.
  destruct a as [data| | |code]; try done; [|by apply IH|intros [= <- <-]; by eexists].
  destruct (take _ _); [intros [= <- <-]; by eexists|apply IH].
Qed.

Lemma read_event_step u u' r : try_read_event u = (u', r) -> read_step u u' r /\
  ud_opened u' = ud_opened u /\ ud_node_checked u' = ud_node_checked u.
Proof.
  destruct u as [f since op nc]. unfold try_read_event, mbind_st, gets. cbn [ud_readable_since].
  destruct since as [since|].
  - unfold instant_now, with_file. cbn -[saturating_sub READ_SETTLING_TIME].
    destruct (_ <? _) eqn:Et; [intros [= <- <-]; split; [eapply step_settles|]; try done; same_calls|].
    apply Z.ltb_ge in Et. unfold saturating_sub, READ_SETTLING_TIME in Et.
    unfold read_event_nonblocking, modify, with_file, log_call, mbind_st. cbn -[read_loop].
    destruct (read_loop (uf_reads f) []) as [reads [ev|e]] eqn:El; intros [= <- <-]; (split; [|done]).
    + eapply (step_read _ _ since (next_instant f) ev); try done; [unfold READ_SETTLING_TIME; lia|]. left. split; [done|]. intros x ->.
      eapply read_loop_ok; [constructor| |done]. cbn. lia.
    + eapply (step_read _ _ since (next_instant f) None); try done; [unfold READ_SETTLING_TIME; lia|]. right. split; [done|].
      apply read_loop_error in El as [code ->]. by eexists.
  - unfold poll_device, with_file. cbn. destruct (default _ _) as [n| |code]; cbn.
    + destruct (0 <? n); cbn; intros [= <- <-]; (split; [|done]); [eapply step_ready; done|].
      eapply step_polled; try done; [same_calls|by left].
    + intros [= <- <-]. split; [|done]. eapply step_polled; try done; [same_calls|by left].
    + intros [= <- <-]. split; [|done]. eapply step_polled; try done; [same_calls|right; by eexists].
Qed.

Lemma write_loop_error answers answers' e : write_loop answers = (answers', Err e) -> exists code, e = SeatIo code.
Proof.
  induction answers as [|a answers IH]; cbn [write_loop]; [done|]. destruct a as [n| | |code]; try done.
  - destruct (_ =? _); [done|]. intros [= <- <-]. by eexists.
  - intros [= <- <-]. by eexists.
Qed.

Lemma write_step event u u' r : write_event_blocking event u = (u', r) ->
  ud_readable_since u' = ud_readable_since u /\
  (r = Ok tt /\ after_calls [UWrite event] u u' \/ (exists code, r = Err (SeatIo code)) /\ after_calls [] u u').
Proof.
  destruct u as [f since op nc]. unfold write_event_blocking, mbind_st, with_file. cbn -[write_loop].
  destruct (write_loop (uf_writes f)) as [writes [[]|e]] eqn:El; cbn -[write_loop]; intros [= <- <-]; (split; [done|]).
  - by left.
  - right. split; [|same_calls]. apply write_loop_error in El as [code ->]. by eexists.
Qed.

(** ** What an event means

    [carries event report]: the event brings [report], an output report. *)
Definition carries (event report : bytes) : Prop :=
  (event_type event = UHID_EVENT_TYPE_OUTPUT /\ output_rtype event = 1 /\ output_size event <= 4096 /\
   report = take (Z.to_nat (output_size event)) (output_data event)) \/
  (event_type event = UHID_EVENT_TYPE_SET_REPORT /\ set_report_rtype event = 1 /\ set_report_size event <= 4096 /\
   report = take (Z.to_nat (set_report_size event)) (set_report_data event)).

Definition holds_frame (report frame : bytes) : Prop :=
  length frame = CTAPHID_FRAME_LEN /\ (report = frame \/ report = 0 :: frame).

(** An answer, as the kernel reads it. *)
Definition reply_error (event : bytes) : Z := event_number 4 2 event.

Definition get_report_reply_size (event : bytes) : Z := event_number 6 2 event.

Definition answered (event : bytes) (replies : list bytes) : Prop :=
  if event_type event =? UHID_EVENT_TYPE_SET_REPORT then
    exists reply, replies = [reply] /\ length reply = UHID_EVENT_SIZE /\
      event_type reply = UHID_EVENT_TYPE_SET_REPORT_REPLY /\ request_id reply = request_id event /\
      (reply_error reply = 0 /\ (exists report, carries event report) \/
       reply_error reply = EINVAL /\ ~ exists report, carries event report)
  else if event_type event =? UHID_EVENT_TYPE_GET_REPORT then
    exists reply, replies = [reply] /\ length reply = UHID_EVENT_SIZE /\
      event_type reply = UHID_EVENT_TYPE_GET_REPORT_REPLY /\ request_id reply = request_id event /\
      reply_error reply = EINVAL /\ get_report_reply_size reply = 0
  else replies = [].

Definition event_read (c : UhidCall) : option bytes := match c with URead _ event => event | _ => None end.

Definition event_written (c : UhidCall) : option bytes := match c with UWrite event => Some event | _ => None end.

Lemma is_output_true rtype : is_output rtype = true <-> rtype = 1.
Proof.
  unfold is_output, report_type_from_raw. rewrite bool_decide_eq_true.
  destruct (Z.eqb_spec rtype 0), (Z.eqb_spec rtype 1), (Z.eqb_spec rtype 2); naive_solver lia.
Qed.

Lemma data_length off event : valid_event event -> (4 + off + UHID_DATA_MAX <= UHID_EVENT_SIZE)%nat ->
  zlen (event_bytes off UHID_DATA_MAX event) = 4096.
Proof.
  intros [_ Hl] Ho. pose proof data_max_is. unfold zlen, event_bytes. rewrite length_take, length_drop. lia.
Qed.

Lemma report_data_some data size report : zlen data = 4096 ->
  report_data data size = Some report <-> size <= 4096 /\ report = take (Z.to_nat size) data.
Proof. intros Hd. unfold report_data. rewrite Hd. destruct (Z.leb_spec size 4096); naive_solver lia. Qed.

Lemma frame_from_report_some report frame : frame_from_report_slice report = Some frame <-> holds_frame report frame.
Proof.
  unfold frame_from_report_slice, holds_frame.
  destruct (Nat.eqb_spec (length report) CTAPHID_FRAME_LEN) as [He|He].
  - split; [by intros [= ->]; auto|]. intros (Hl & [->| ->]); [done|]. cbn in He. lia.
  - destruct (Nat.eqb_spec (length report) (CTAPHID_FRAME_LEN + 1)) as [H1|H1]; cbn [andb].
    + destruct report as [|b report]; [done|]. cbn [head tail]. destruct (bool_decide_reflect (Some b = Some 0)) as [E|E].
      * injection E as ->. cbn [length] in H1. split; [intros [= ->]; split; [lia|by right]|].
        intros (Hl & [H2|[= ->]]); [subst frame; done|done].
      * split; [done|]. intros (Hl & [<-|[= -> ->]]); [cbn [length] in *; lia|by destruct E].
    + split; [done|]. intros (Hl & [->| ->]); [done|]. cbn [length] in *. lia.
Qed.

(** The report an event carries, as the handler finds it. *)
Definition report_of (event : bytes) : option bytes :=
  if event_type event =? UHID_EVENT_TYPE_OUTPUT then
    if is_output (output_rtype event) then report_data (output_data event) (output_size event) else None
  else if event_type event =? UHID_EVENT_TYPE_SET_REPORT then
    if is_output (set_report_rtype event) then report_data (set_report_data event) (set_report_size event) else None
  else None.

Lemma report_of_some event report : valid_event event -> report_of event = Some report <-> carries event report.
Proof.
  intros Hv. pose proof event_size_is. pose proof data_max_is.
  pose proof (data_length 0 event Hv ltac:(lia)) as Hd0. pose proof (data_length 8 event Hv ltac:(lia)) as Hd8.
  unfold report_of, carries. pose proof (is_output_true (output_rtype event)) as [Ho1 Ho2].
  pose proof (is_output_true (set_report_rtype event)) as [Hs1 Hs2].
  pose proof (report_data_some (output_data event) (output_size event) report Hd0) as Hr.
  pose proof (report_data_some (set_report_data event) (set_report_size event) report Hd8) as Hq.
  assert (UHID_EVENT_TYPE_OUTPUT <> UHID_EVENT_TYPE_SET_REPORT) as Hne by discriminate. clear Hd0 Hd8 Hv.
  destruct (Z.eqb_spec (event_type event) UHID_EVENT_TYPE_OUTPUT) as [E|E];
    [|destruct (Z.eqb_spec (event_type event) UHID_EVENT_TYPE_SET_REPORT) as [E'|E']].
  - split.
    + destruct (is_output (output_rtype event)); [|discriminate 1]. intros Hx. apply Hr in Hx as [? ?]. left.
      specialize (Ho1 eq_refl). repeat split; assumption.
    + intros [(_ & Hx & H1 & H2)|(Ht & _)]; [|exfalso; apply Hne; by rewrite <- E].
      rewrite (Ho2 Hx). apply Hr. split; assumption.
  - split.
    + destruct (is_output (set_report_rtype event)); [|discriminate 1]. intros Hx. apply Hq in Hx as [? ?]. right.
      specialize (Hs1 eq_refl). repeat split; assumption.
    + intros [(Ht & _)|(_ & Hx & H1 & H2)]; [by destruct E|]. rewrite (Hs2 Hx). apply Hq. split; assumption.
  - split; [discriminate 1|]. intros [(Ht & _)|(Ht & _)]; [by destruct E|by destruct E'].
Qed.

Lemma frame_of_event event frame : valid_event event ->
  (report_of event ≫= frame_from_report_slice) = Some frame <-> exists report, carries event report /\ holds_frame report frame.
Proof.
  intros Hv. rewrite bind_Some. split; intros (report & Hr & Hf); exists report.
  - by rewrite <- report_of_some, <- frame_from_report_some.
  - by rewrite report_of_some, frame_from_report_some.
Qed.

Lemma set_report_reply_read id err : 0 <= id < 2 ^ 32 -> 0 <= err < 2 ^ 16 ->
  let reply := set_report_reply id err in
  length reply = UHID_EVENT_SIZE /\ event_type reply = UHID_EVENT_TYPE_SET_REPORT_REPLY /\ request_id reply = id /\
  reply_error reply = err.
Proof.
  intros Hi He. pose proof event_size_is. cbn zeta. unfold set_report_reply, request_id, reply_error. split_and!.
  - apply uhid_event_length. rewrite length_app, !le_bytes_length. lia.
  - by apply event_type_is.
  - by apply (event_number_at 0 4 _ []).
  - rewrite <- (app_nil_r (le_bytes 2 err)). apply event_number_at; [apply le_bytes_length|done].
Qed.

Lemma get_report_reply_read id err : 0 <= id < 2 ^ 32 -> 0 <= err < 2 ^ 16 ->
  let reply := get_report_reply id err [] in
  length reply = UHID_EVENT_SIZE /\ event_type reply = UHID_EVENT_TYPE_GET_REPORT_REPLY /\ request_id reply = id /\
  reply_error reply = err /\ get_report_reply_size reply = 0.
Proof.
  intros Hi He. pose proof event_size_is. cbn zeta. unfold get_report_reply, request_id, reply_error, get_report_reply_size.
  split_and!.
  - apply uhid_event_length. rewrite !length_app, !le_bytes_length. cbn. lia.
  - by apply event_type_is.
  - by apply (event_number_at 0 4 _ []).
  - apply event_number_at; [apply le_bytes_length|done].
  - rewrite app_assoc. apply event_number_at; [by rewrite length_app, !le_bytes_length|done].
Qed.

Lemma handle_step event u u' r : valid_event event -> handle_event event u = (u', r) ->
  ud_readable_since u' = ud_readable_since u /\
  exists replies, after_calls (map UWrite replies) u u' /\
    ((exists code, r = Err (SeatIo code)) \/ r = Ok (report_of event ≫= frame_from_report_slice) /\ answered event replies).
Proof.
  intros Hv. pose proof (event_number_range 0 4 event (proj1 Hv)) as Hid. pose proof (report_of_some event) as Hs.
  revert Hs. unfold handle_event, report_of, answered.
  destruct (Z.eqb_spec (event_type event) UHID_EVENT_TYPE_OUTPUT) as [E|E];
    [|destruct (Z.eqb_spec (event_type event) UHID_EVENT_TYPE_SET_REPORT) as [E1|E1];
      [|destruct (Z.eqb_spec (event_type event) UHID_EVENT_TYPE_GET_REPORT) as [E2|E2]]]; intros Hs.
  - intros [= <- <-]. split; [done|]. exists []. split; [apply after_none|]. right. rewrite E. cbn. split; [|done].
    by destruct (is_output _).
  - set (report := if is_output _ then _ else _) in *. unfold send_set_report_reply, mbind_st.
    destruct (write_event_blocking _ u) as [u1 r1] eqn:Ew. apply write_step in Ew as (Hr & [(-> & Hc)|((code & ->) & Hc)]).
    + intros [= <- <-]. split; [done|]. eexists [_]. split; [exact Hc|]. right. split; [done|].
      eexists. split; [done|]. destruct (set_report_reply_read (request_id event) (if is_some report then 0 else EINVAL))
        as (Hl & Ht & Hi & He); [exact Hid|by destruct (is_some report)|]. split_and!; [done..|]. rewrite He.
      destruct report as [x|]; [left; split; [done|]; exists x; by apply Hs|right; split; [done|]].
      intros (x & Hx). by apply Hs in Hx.
    + intros [= <- <-]. split; [done|]. exists []. split; [done|]. left. by eexists.
  - unfold send_get_report_reply, mbind_st. cbn [length Nat.ltb].
    replace (UHID_DATA_MAX <? 0)%nat with false by done. cbn [negb guard ret].
    destruct (write_event_blocking _ u) as [u1 r1] eqn:Ew. apply write_step in Ew as (Hr & [(-> & Hc)|((code & ->) & Hc)]).
    + intros [= <- <-]. split; [done|]. eexists [_]. split; [exact Hc|]. right. split; [done|].
      eexists. split; [done|]. by apply get_report_reply_read.
    + intros [= <- <-]. split; [done|]. exists []. split; [done|]. left. by eexists.
  - destruct (_ =? _); intros [= <- <-]; (split; [done|]); exists []; (split; [same_calls|by right]).
Qed.

(** A round that reads no event. *)
Lemma idle_round n u u1 u' r : try_read_event u = (u1, Ok None) -> read_frame_loop (S n) u = (u', r) ->
  r = Ok None /\ ud_readable_since u' = ud_readable_since u1 /\ after_calls [] u1 u'.
Proof.
  intros Hu. cbn [read_frame_loop]. unfold mbind_st. rewrite Hu. cbn. destruct (_ && _); intros [= <- <-]; by repeat split; try same_calls.
Qed.

Lemma failed_round n u u1 u' e r : try_read_event u = (u1, Err e) -> read_frame_loop (S n) u = (u', r) ->
  u' = u1 /\ r = Err e.
Proof. intros Hu. cbn [read_frame_loop]. unfold mbind_st. rewrite Hu. by intros [= <- <-]. Qed.

(** Until readiness is seen there is no event to read. *)
Lemma unready_round n u u' r : ud_readable_since u = None -> read_frame_loop (S n) u = (u', r) ->
  exists calls, after_calls calls u u' /\ omap event_read calls = [] /\ omap event_written calls = [] /\
    (r = Ok None \/ exists code, r = Err (SeatIo code)).
Proof.
  intros Hn Hr. destruct (try_read_event u) as [u1 r1] eqn:Eu. pose proof Eu as Hs. apply read_event_step in Hs as (Hs & _).
  inversion Hs as [? ? _ _ Hc Hr1|? now _ _ Hc|? since Hx|? since ? ? ? Hx]; subst; try congruence.
  - destruct Hr1 as [->|(code & ->)].
    + destruct (idle_round _ _ _ _ _ Eu Hr) as (-> & _ & Hc'). exists ([] ++ []). split; [by eapply after_trans|]. auto.
    + destruct (failed_round _ _ _ _ _ _ Eu Hr) as (-> & ->). exists []. split; [done|]. eauto.
  - destruct (idle_round _ _ _ _ _ Eu Hr) as (-> & _ & Hc'). exists ([UReady now] ++ []). split; [by eapply after_trans|]. auto.
Qed.

Lemma written_writes replies : omap event_written (map UWrite replies) = replies.
Proof. induction replies as [|x l IH]; [done|]. cbn. by f_equal. Qed.

Lemma read_writes replies : omap event_read (map UWrite replies) = [].
Proof. by induction replies. Qed.

(** What reading a frame does: at most one event is read, and answered. *)
Lemma read_frame_step n u u' r : read_frame_loop (S (S n)) u = (u', r) ->
  exists calls, after_calls calls u u' /\
    match omap event_read calls with
    | [] => omap event_written calls = [] /\ (r = Ok None \/ exists code, r = Err (SeatIo code))
    | [event] => valid_event event /\ ((exists code, r = Err (SeatIo code)) \/
        answered event (omap event_written calls) /\ r = Ok (report_of event ≫= frame_from_report_slice))
    | _ => False
    end.
Proof.
  intros Hr. destruct (ud_readable_since u) as [since|] eqn:Es.
  2:{ destruct (unready_round _ _ _ _ Es Hr) as (calls & Hc & Hn & Hw & Hx). exists calls. split; [done|]. by rewrite Hn. }
  destruct (try_read_event u) as [u1 r1] eqn:Eu. pose proof Eu as Hs. apply read_event_step in Hs as (Hs & _).
  inversion Hs as [? ? Hx|? ? Hx|? ? _ _ Hc|? s0 now event ? _ _ Hn Hc Hr1]; subst; try congruence.
  - destruct (idle_round _ _ _ _ _ Eu Hr) as (-> & _ & Hc'). exists ([] ++ []). split; [by eapply after_trans|]. cbn. auto.
  - destruct Hr1 as [[-> Hv]|[-> (code & ->)]].
    2:{ destruct (failed_round _ _ _ _ _ _ Eu Hr) as (-> & ->). exists [URead now None]. split; [done|]. cbn. eauto. }
    destruct event as [event|].
    2:{ destruct (idle_round _ _ _ _ _ Eu Hr) as (-> & _ & Hc'). exists ([URead now None] ++ []).
        split; [by eapply after_trans|]. cbn. auto. }
    specialize (Hv event eq_refl). remember (S n) as m eqn:Em. cbn [read_frame_loop] in Hr. unfold mbind_st in Hr.
    rewrite Eu in Hr. destruct (handle_event event u1) as [u2 r2] eqn:Eh.
    destruct (handle_step _ _ _ _ Hv Eh) as (Hs2 & replies & Hc2 & Hr2).
    destruct Hr2 as [(code & ->)|(-> & Ha)].
    { injection Hr as <- <-. exists ([URead now (Some event)] ++ map UWrite replies). split; [by eapply after_trans|].
      rewrite omap_app, read_writes. cbn. split; [done|]. left. by eexists. }
    destruct (report_of event ≫= frame_from_report_slice) as [frame|] eqn:Ef.
    { injection Hr as <- <-. exists ([URead now (Some event)] ++ map UWrite replies). split; [by eapply after_trans|].
      rewrite !omap_app, read_writes, written_writes. cbn. rewrite Ef. auto. }
    subst m. destruct (unready_round n u2 u' r) as (calls & Hc3 & Hn3 & Hw3 & Hx); [congruence|done|].
    exists (([URead now (Some event)] ++ map UWrite replies) ++ calls).
    split; [eapply after_trans; [by eapply after_trans|done]|].
    rewrite !omap_app, Hn3, Hw3, read_writes, written_writes, !app_nil_r. cbn. rewrite Ef. destruct Hx as [->|Hx]; auto.
Qed.

(** C7: every event the kernel hands the device is dealt with as HID asks.
    A call of [try_read_frame] reads at most one event.  It returns a frame
    exactly when that event is an output report, written or set, of 64 bytes, or
    of 65 with report ID 0 first; the frame is those 64 bytes.  A request the
    kernel holds its writer for gets exactly one answer, with its own ID: a set
    report is accepted exactly when it is a well-formed output report, and a get
    report is refused; nothing else is written. *)
Theorem events_answered (u u' : UhidDevice) (r : option bytes) :
  try_read_frame u = (u', Ok r) ->
  exists calls, ud_calls u' = ud_calls u ++ calls /\
    match omap event_read calls with
    | [] => r = None /\ omap event_written calls = []
    | [event] =>
        answered event (omap event_written calls) /\
        forall frame, r = Some frame <-> exists report, carries event report /\ holds_frame report frame
    | _ => False
    end.
Proof.
  intros Hr. destruct (read_frame_step 0 u u' (Ok r) Hr) as (calls & Hc & Hm). exists calls. split; [exact Hc|].
  destruct (omap event_read calls) as [|event [|]]; [|destruct Hm as (Hv & Hm)|done].
  - destruct Hm as (Hw & [[= ->]|(code & [=])]). done.
  - destruct Hm as [(code & [=])|(Ha & [= ->])]. split; [done|]. intros frame. by apply frame_of_event.
Qed.

(** A frame the transport is given is a whole report. *)
#[export] Instance uhid_reports : ReportDevice UhidDevice.
Proof.
  split. intros u u' frame Hr. destruct (read_frame_step 0 u u' _ Hr) as (calls & _ & Hm).
  destruct (omap event_read calls) as [|event [|]]; [by destruct Hm as (_ & [|[]])|destruct Hm as (Hv & Hm)|done].
  destruct Hm as [(code & [=])|(_ & [= Hf])]. symmetry in Hf. apply frame_of_event in Hf as (report & Hc & Hl & Hf); [|done].
  split; [done|]. assert (bytes_ok report) as Hok.
  { destruct Hv as [Hb _]. destruct Hc as [(_ & _ & _ & ->)|(_ & _ & _ & ->)]; by apply Forall_take, Forall_take, Forall_drop. }
  destruct Hf as [->| ->]; [done|]. by inversion Hok.
Qed.

Lemma read_round n u : read_frame_loop (S n) u =
  match try_read_event u with
  | (u1, Ok (Some event)) =>
      match handle_event event u1 with
      | (u2, Ok (Some frame)) => (u2, Ok (Some frame))
      | (u2, Ok None) => read_frame_loop n u2
      | (u2, Err e) => (u2, Err e)
      end
  | (u1, Ok None) =>
      (if negb (ud_node_checked u1) && ud_opened u1 then set_ud_node_checked true u1 else u1, Ok None)
  | (u1, Err e) => (u1, Err e)
  end.
Proof.
  cbn [read_frame_loop]. unfold mbind_st. destruct (try_read_event u) as [u1 [[event|]|e]]; [| |done].
  - by destruct (handle_event event u1) as [u2 [[frame|]|e]].
  - cbn. by destruct (_ && _).
Qed.

Lemma unready_rounds n m u : ud_readable_since u = None -> read_frame_loop (S n) u = read_frame_loop (S m) u.
Proof.
  intros Hn. rewrite !read_round. destruct (try_read_event u) as [u1 r1] eqn:Eu.
  apply read_event_step in Eu as (Hs & _).
  inversion Hs as [? ? _ _ Hc Hr1|? now _ _ Hc|? since Hx|? since ? ? ? Hx]; subst; try congruence.
  by destruct Hr1 as [->|(code & ->)].
Qed.

Lemma step_event u u1 event : read_step u u1 (Ok (Some event)) -> ud_readable_since u1 = None /\ valid_event event.
Proof.
  intros Hs. inversion Hs as [? ? _ _ _ Hr| | |? s0 now ev ? _ _ Hn _ Hr1]; subst.
  - destruct Hr as [[=]|(code & [=])].
  - destruct Hr1 as [[[= <-] Hv]|[_ (code & [=])]]. split; [done|]. by apply Hv.
Qed.

(** Two rounds are enough: more change nothing. *)
Lemma read_frame_rounds n u : read_frame_loop (S (S n)) u = uhid_read_frame u.
Proof.
  unfold uhid_read_frame. rewrite !(read_round (S _)). destruct (try_read_event u) as [u1 r1] eqn:Eu.
  apply read_event_step in Eu as (Hs & _). destruct r1 as [[event|]|e]; [|done|done].
  destruct (step_event _ _ _ Hs) as [H1 Hv].
  destruct (handle_event event u1) as [u2 r2] eqn:Eh.
  destruct (handle_step _ _ _ _ Hv Eh) as (H2 & _). destruct r2 as [[frame|]|e]; [done| |done].
  apply unready_rounds. congruence.
Qed.

(** ** Reading waits for an event to settle *)

Inductive UhidOp : Type :=
| ORead
| OWrite (frame : bytes)
| OWait (timeout : option Z).

Definition uhid_op (u : UhidDevice) (op : UhidOp) : UhidDevice :=
  match op with
  | ORead => fst (try_read_frame u)
  | OWrite frame => fst (write_frame frame u)
  | OWait timeout => fst (uhid_wait timeout u)
  end.

Definition uhid_run (ops : list UhidOp) (u : UhidDevice) : UhidDevice := fold_left uhid_op ops u.

Definition no_reading (c : UhidCall) : Prop :=
  match c with UReady _ | URead _ _ => False | UWrite _ | USleep _ _ => True end.

(** Calls after which readiness was last seen, and not used, at this time. *)
Inductive settled_calls : option Z -> list UhidCall -> Prop :=
| settled_start : settled_calls None []
| settled_ready seen calls : settled_calls None calls -> settled_calls (Some seen) (calls ++ [UReady seen])
| settled_read seen at_ event calls :
    settled_calls (Some seen) calls -> seen + READ_SETTLING_TIME <= at_ -> settled_calls None (calls ++ [URead at_ event])
| settled_other o c calls : settled_calls o calls -> no_reading c -> settled_calls o (calls ++ [c]).

Definition uhid_settled (u : UhidDevice) : Prop := settled_calls (ud_readable_since u) (ud_calls u).

Lemma settled_quiet calls u u' : uhid_settled u -> ud_readable_since u' = ud_readable_since u -> after_calls calls u u' ->
  Forall no_reading calls -> uhid_settled u'.
Proof.
  unfold uhid_settled, after_calls. intros Hs -> -> Hc. revert Hs. generalize (ud_calls u) as l.
  induction Hc as [|c calls Hc Hcs IH]; intros l Hs; [by rewrite app_nil_r|].
  rewrite cons_middle, app_assoc. apply IH. by apply settled_other.
Qed.

Lemma settled_step u u' r : uhid_settled u -> read_step u u' r -> uhid_settled u'.
Proof.
  intros Hs Hr. unfold uhid_settled in *. inversion Hr as [? ? Hn Hn' Hc _|? now Hn Hn' Hc|? since Hn Hn' Hc|? since now event ? Hn Ht Hn' Hc _]; subst;
    unfold after_calls in Hc; rewrite Hn', Hc; rewrite Hn in Hs; rewrite ?app_nil_r; [done| |done|].
  - by apply settled_ready.
  - by eapply settled_read.
Qed.

Lemma settled_loop n u : uhid_settled u -> uhid_settled (fst (read_frame_loop n u)).
Proof.
  revert u. induction n as [|n IH]; intros u Hs; [done|]. rewrite read_round.
  destruct (try_read_event u) as [u1 r1] eqn:Eu. apply read_event_step in Eu as (Hr & _).
  pose proof (settled_step _ _ _ Hs Hr) as H1. destruct r1 as [[event|]|e]; [|by destruct (_ && _)|done].
  destruct (step_event _ _ _ Hr) as [_ Hv].
  destruct (handle_event event u1) as [u2 r2] eqn:Eh. destruct (handle_step _ _ _ _ Hv Eh) as (Hn & replies & Hc & _).
  assert (uhid_settled u2) as H2.
  { eapply settled_quiet; [exact H1|done|exact Hc|]. by apply Forall_map, Forall_true. }
  destruct r2 as [[frame|]|e]; [done|by apply IH|done].
Qed.

(** What a wait does: it does not sleep when an event has settled; while one
    settles it sleeps on the worker's pipe alone, and no longer than that
    takes; otherwise it sleeps on the device too. *)
Theorem wait_settles (timeout : option Z) (u u' : UhidDevice) (r : result bool SeatError) :
  uhid_wait timeout u = (u', r) ->
  ud_readable_since u' = ud_readable_since u /\
  match ud_readable_since u with
  | Some since =>
      let left := saturating_sub READ_SETTLING_TIME (saturating_sub (next_instant (ud_file u)) since) in
      if left =? 0 then r = Ok true /\ after_calls [] u u'
      else exists d, d <= left /\ (forall t, timeout = Some t -> d <= t) /\ after_calls [USleep false (Some d)] u u'
  | None => after_calls [USleep true (option_map (fun d => Z.min d MAX_SLEEP) timeout)] u u'
  end.
Proof.
  destruct u as [f since op nc]. unfold uhid_wait, mbind_st, gets, elapsed. cbn [ud_readable_since ud_file].
  destruct since as [since|]; cbn -[saturating_sub MAX_SLEEP].
  - set (left := saturating_sub READ_SETTLING_TIME _). destruct (Z.eqb_spec left 0) as [E|E].
    { rewrite bool_decide_eq_true_2 by congruence. intros [= <- <-]. split; [done|]. split; [done|same_calls]. }
    rewrite bool_decide_eq_false_2 by congruence. unfold sleep, log_call, mbind_st, with_file. cbn -[saturating_sub MAX_SLEEP].
    destruct (default (PollReady 0) (head (uf_waits f))) as [n| |code]; cbn -[saturating_sub MAX_SLEEP]; [destruct (0 <? n); cbn -[saturating_sub MAX_SLEEP]|..];
      intros [= <- <-]; (split; [done|]); exists (Z.min (match timeout with Some d => Z.min d left | None => left end) MAX_SLEEP);
      (split; [destruct timeout; lia|]); (split; [intros t ->; lia|]); same_calls.
  - rewrite bool_decide_eq_false_2 by done. unfold sleep, log_call, mbind_st, with_file. cbn -[saturating_sub MAX_SLEEP].
    destruct (default (PollReady 0) (head (uf_waits f))) as [n| |code]; cbn -[saturating_sub MAX_SLEEP]; [destruct (0 <? n); cbn -[saturating_sub MAX_SLEEP]|..];
      intros [= <- <-]; (split; [done|]); same_calls.
Qed.

Lemma settled_op u op : uhid_settled u -> uhid_settled (uhid_op u op).
Proof.
  intros Hs. destruct op as [|frame|timeout]; cbn [uhid_op].
  - by apply settled_loop.
  - cbn [write_frame uhid_hid]. unfold send_input_report. destruct (write_event_blocking _ u) as [u' r] eqn:Ew. cbn [fst].
    apply write_step in Ew as (Hn & Hc). destruct Hc as [[_ Hc]|[_ Hc]]; (eapply settled_quiet; [exact Hs|by rewrite Hn|exact Hc|by repeat constructor]).
  - destruct (uhid_wait timeout u) as [u' r] eqn:Ew. cbn [fst]. apply wait_settles in Ew as (Hn & Hc).
    destruct (ud_readable_since u) as [since|] eqn:Es; cbn zeta in Hc.
    + destruct (_ =? 0); [destruct Hc as [_ Hc]|destruct Hc as (d & _ & _ & Hc)]; (eapply settled_quiet; [exact Hs|by rewrite Hn|exact Hc|by repeat constructor]).
    + (eapply settled_quiet; [exact Hs|by rewrite Hn|exact Hc|by repeat constructor]).
Qed.

Lemma settled_run ops u : uhid_settled u -> uhid_settled (uhid_run ops u).
Proof. revert u. induction ops as [|op ops IH]; intros u Hs; [done|]. apply IH. by apply settled_op. Qed.

Lemma settled_calls_reads o calls : settled_calls o calls ->
  (forall seen, o = Some seen -> exists earlier between, calls = earlier ++ UReady seen :: between /\ Forall no_reading between) /\
  forall before at_ event after, calls = before ++ URead at_ event :: after ->
    exists earlier seen between, before = earlier ++ UReady seen :: between /\ seen + READ_SETTLING_TIME <= at_ /\
      Forall no_reading between.
Proof.
  induction 1 as [|seen calls Hs [IH1 IH2]|seen at0 ev calls Hs [IH1 IH2] Ht|o c calls Hs [IH1 IH2] Hc].
  - split; [done|]. intros [|]; done.
  - split; [intros s [= <-]; exists calls, []; auto|]. intros before at_ event after E.
    destruct after as [|x after _] using rev_ind; [by apply app_inj_tail in E as [_ [=]]|].
    rewrite app_comm_cons, app_assoc in E. apply app_inj_tail in E as [E _]. by eapply IH2.
  - split; [done|]. intros before at_ event after E. destruct after as [|x after _] using rev_ind.
    + apply app_inj_tail in E as [<- [= <- <-]]. destruct (IH1 seen eq_refl) as (earlier & between & -> & Hb). eauto 7.
    + rewrite app_comm_cons, app_assoc in E. apply app_inj_tail in E as [E _]. by eapply IH2.
  - split.
    + intros s Ho. destruct (IH1 s Ho) as (earlier & between & -> & Hb). exists earlier, (between ++ [c]).
      split; [by rewrite <- app_assoc|]. apply Forall_app. auto.
    + intros before at_ event after E. destruct after as [|x after _] using rev_ind.
      * apply app_inj_tail in E as [_ ->]. done.
      * rewrite app_comm_cons, app_assoc in E. apply app_inj_tail in E as [E _]. by eapply IH2.
Qed.

(** The kernel's queue is read only after it has settled.  Whatever reads,
    writes and waits a new device does, and whatever the kernel answers: each
    time it asks for an event, readiness had been seen at least 100 microseconds
    before, and that readiness had not been used for another read. *)
Theorem reads_settled (ops : list UhidOp) (file : UhidFile) (before after : list UhidCall) (at_ : Z) (event : option bytes) :
  uf_calls file = [] -> ud_calls (uhid_run ops (MkUhid file None false false)) = before ++ URead at_ event :: after ->
  exists earlier seen between, before = earlier ++ UReady seen :: between /\ seen + READ_SETTLING_TIME <= at_ /\
    Forall no_reading between.
Proof.
  intros Hf Hc. assert (uhid_settled (MkUhid file None false false)) as Hs.
  { unfold uhid_settled, ud_calls. cbn. rewrite Hf. constructor. }
  apply (settled_run ops) in Hs. unfold uhid_settled in Hs. rewrite Hc in Hs.
  by eapply (proj2 (settled_calls_reads _ _ Hs)).
Qed.

(** ** A report gets through, in either direction *)

Definition taken_whole (a : WriteAnswer) : Prop :=
  match a with WriteInterrupted | WriteAgain => True | Wrote n => n = Z.of_nat UHID_EVENT_SIZE | WriteFails _ => False end.

Lemma write_loop_whole answers : Forall taken_whole answers -> exists left, write_loop answers = (left, Ok tt).
Proof.
  induction 1 as [|a answers Ha Hs IH]; [by eexists|]. destruct a as [n| | |code]; cbn [write_loop]; [|done|done|done].
  cbn in Ha. subst n. rewrite Z.eqb_refl. by eexists.
Qed.

Lemma write_whole event u : Forall taken_whole (uf_writes (ud_file u)) ->
  exists u', write_event_blocking event u = (u', Ok tt).
Proof.
  intros Hw. destruct (write_loop_whole _ Hw) as (left & E). unfold write_event_blocking, mbind_st, with_file. rewrite E.
  by eexists.
Qed.

(** Once an event of the queue has settled, a report it carries is read: in
    whatever pieces the kernel gives the event, however often it interrupts
    reading and writing. *)
Theorem report_delivered (u : UhidDevice) (since : Z) (answers rest : list ReadAnswer) (event report frame : bytes) :
  ud_readable_since u = Some since -> since + READ_SETTLING_TIME <= next_instant (ud_file u) ->
  uf_reads (ud_file u) = answers ++ rest -> pieces answers event -> length event = UHID_EVENT_SIZE ->
  Forall taken_whole (uf_writes (ud_file u)) -> carries event report -> holds_frame report frame ->
  exists u', try_read_frame u = (u', Ok (Some frame)).
Proof.
  intros Hs Ht Hr Hp Hl Hw Hc Hf. destruct u as [f s op nc]. cbn in Hs, Ht, Hr, Hw. subst s.
  destruct (read_loop_pieces answers event [] rest Hp Hl) as (left & El).
  assert (exists u1, try_read_event (MkUhid f (Some since) op nc) = (u1, Ok (Some event)) /\ uf_writes (ud_file u1) = uf_writes f)
    as (u1 & Eu & Eq).
  { unfold try_read_event, mbind_st, gets, instant_now, with_file. cbn -[saturating_sub READ_SETTLING_TIME].
    destruct (_ <? _) eqn:E; [apply Z.ltb_lt in E; unfold saturating_sub in E; lia|].
    unfold read_event_nonblocking, modify, with_file, log_call, mbind_st. cbn -[read_loop]. rewrite Hr, El. by eexists. }
  pose proof Eu as Hv. apply read_event_step in Hv as (Hv & _). apply step_event in Hv as [_ Hv].
  cbn [try_read_frame uhid_hid]. unfold uhid_read_frame. rewrite read_round, Eu.
  assert (exists u2, handle_event event u1 = (u2, Ok (Some frame))) as (u2 & Eh); [|rewrite Eh; by eexists].
  assert (exists u2 r, handle_event event u1 = (u2, Ok r)) as (u2 & r & Eh).
  { rewrite <- Eq in Hw. destruct Hc as [(Hty & _)|(Hty & _)]; unfold handle_event; rewrite Hty.
    - by do 2 eexists.
    - replace (UHID_EVENT_TYPE_SET_REPORT =? UHID_EVENT_TYPE_OUTPUT) with false by done. rewrite Z.eqb_refl.
      unfold send_set_report_reply, mbind_st. cbv beta iota zeta.
      match goal with |- context [write_event_blocking ?e u1] => destruct (write_whole e u1 Hw) as (u2 & E) end.
      rewrite E. by do 2 eexists. }
  exists u2. rewrite Eh. destruct (handle_step _ _ _ _ Hv Eh) as (_ & _ & _ & [(code & [=])|([= ->] & _)]).
  do 2 f_equal. apply frame_of_event; [done|]. by exists report.
Qed.

Definition input_size (event : bytes) : Z := event_number 0 2 event.

(** A report to the host is one event, which the kernel reads as an input report
    of 64 bytes: those of the frame. *)
Theorem input_report_read_back (frame : bytes) (u u' : UhidDevice) :
  length frame = CTAPHID_FRAME_LEN -> write_frame frame u = (u', Ok tt) ->
  exists event, ud_calls u' = ud_calls u ++ [UWrite event] /\ length event = UHID_EVENT_SIZE /\
    event_type event = UHID_EVENT_TYPE_INPUT2 /\ input_size event = 64 /\
    event_bytes 2 (Z.to_nat (input_size event)) event = frame.
Proof.
  intros Hl Hw. cbn [write_frame uhid_hid] in Hw. unfold send_input_report in Hw.
  apply write_step in Hw as (_ & [[_ Hc]|[(code & [=]) _]]). exists (input_event frame). split; [exact Hc|].
  pose proof event_size_is. unfold input_event. split_and!.
  - apply uhid_event_length. rewrite length_app, le_bytes_length, Hl. unfold CTAPHID_FRAME_LEN. lia.
  - by apply event_type_is.
  - by apply (event_number_at 0 2 _ [] 64 frame).
  - unfold input_size. rewrite (event_number_at 0 2 _ [] 64 frame) by done.
    rewrite <- (app_nil_r frame) at 1. apply event_bytes_at; [apply le_bytes_length|done].
Qed.

(** The bytes before the first NUL. *)
Fixpoint c_string (l : bytes) : bytes :=
  match l with [] => [] | b :: rest => if b =? 0 then [] else b :: c_string rest end.

Lemma c_string_ended l n : Forall (fun b => b <> 0) l -> c_string (l ++ repeat 0 (S n)) = l.
Proof. induction 1 as [|b l Hb Hl IH]; [done|]. cbn [app c_string]. rewrite (proj2 (Z.eqb_neq _ _) Hb). by f_equal. Qed.

Lemma copy_str_length value n : (0 < n)%nat -> length (copy_str_to_array value n) = n.
Proof.
  intros Hn. unfold copy_str_to_array. rewrite length_app, repeat_length.
  destruct (Nat.leb_spec n (length value)); rewrite ?length_take; lia.
Qed.

Lemma copy_str_read value n : (0 < n)%nat -> Forall (fun b => b <> 0) value ->
  c_string (copy_str_to_array value n) = take (n - 1) value.
Proof.
  intros Hn Hv. unfold copy_str_to_array. destruct (Nat.leb_spec n (length value)) as [H|H].
  - rewrite length_take. replace (n - (n - 1) `min` length value)%nat with (S 0) by lia.
    apply c_string_ended. by apply Forall_take.
  - rewrite (take_ge value) by lia. replace (n - length value)%nat with (S (n - length value - 1)) by lia. by apply c_string_ended.
Qed.

Lemma bytes_field off n type before field after content :
  content = before ++ field ++ after -> length before = off -> length field = n ->
  event_bytes off n (uhid_event type content) = field.
Proof. intros ->. apply event_bytes_at. Qed.

Lemma number_field off n type before v after content :
  content = before ++ le_bytes n v ++ after -> length before = off -> 0 <= v < 256 ^ Z.of_nat n ->
  event_number off n (uhid_event type content) = v.
Proof. intros ->. apply event_number_at. Qed.

Lemma report_descriptor_length : length CTAPHID_REPORT_DESCRIPTOR = 34%nat.
Proof. reflexivity. Qed.

Ltac fields := rewrite ?length_app, ?le_bytes_length, ?repeat_length, ?report_descriptor_length; cbn [length]; unfold zlen; lia.

(** The device is created as its descriptor says: the kernel finds the name and
    the unique identifier, cut to what fits and ended by a NUL, the IDs and the
    FIDO report descriptor. *)
Theorem create_event_read (d : HidDeviceDescriptor) :
  Forall (fun b => b <> 0) (hd_name d) -> Forall (fun b => b <> 0) (hd_uniq d) ->
  0 <= hd_vendor_id d < 2 ^ 32 -> 0 <= hd_product_id d < 2 ^ 32 -> 0 <= hd_version d < 2 ^ 32 ->
  exists event, descriptor_to_create2 d = Ok event /\ length event = UHID_EVENT_SIZE /\
    event_type event = UHID_EVENT_TYPE_CREATE2 /\
    c_string (event_bytes 0 128 event) = take 127 (hd_name d) /\
    c_string (event_bytes 192 64 event) = take 63 (hd_uniq d) /\
    event_number 260 4 event = hd_vendor_id d /\ event_number 264 4 event = hd_product_id d /\
    event_number 268 4 event = hd_version d /\
    event_bytes 276 (Z.to_nat (event_number 256 2 event)) event = CTAPHID_REPORT_DESCRIPTOR.
Proof.
  intros Hn Hu Hv Hp Hs. unfold descriptor_to_create2.
  replace (_ <? _)%nat with false by done. eexists. split; [done|]. pose proof event_size_is.
  assert (length (copy_str_to_array (hd_name d) 128) = 128%nat) as L1 by (apply copy_str_length; lia).
  assert (length (copy_str_to_array (hd_uniq d) 64) = 64%nat) as L2 by (apply copy_str_length; lia).
  change (take 127 (hd_name d)) with (take (128 - 1) (hd_name d)).
  change (take 63 (hd_uniq d)) with (take (64 - 1) (hd_uniq d)).
  rewrite <- (copy_str_read (hd_name d) 128), <- (copy_str_read (hd_uniq d) 64) by (done || lia).
  set (name := copy_str_to_array _ 128) in *. set (uniq := copy_str_to_array _ 64) in *. clearbody name uniq.
  set (content := name ++ _).
  assert (event_number 256 2 (uhid_event UHID_EVENT_TYPE_CREATE2 content) = 34) as Hsize.
  { eapply (number_field _ _ _ (name ++ repeat 0 64 ++ uniq)); [unfold content; rewrite <- !app_assoc; reflexivity|fields|done]. }
  rewrite Hsize. split_and!.
  - apply uhid_event_length. unfold content. fields.
  - by apply event_type_is.
  - f_equal. eapply (bytes_field _ _ _ []); [reflexivity|done|done].
  - f_equal. eapply (bytes_field _ _ _ (name ++ repeat 0 64)); [unfold content; rewrite <- !app_assoc; reflexivity|fields|done].
  - eapply (number_field _ _ _ (name ++ repeat 0 64 ++ uniq ++ le_bytes 2 _ ++ le_bytes 2 _));
      [unfold content; rewrite <- !app_assoc; reflexivity|fields|done].
  - eapply (number_field _ _ _ (name ++ repeat 0 64 ++ uniq ++ le_bytes 2 _ ++ le_bytes 2 _ ++ le_bytes 4 _));
      [unfold content; rewrite <- !app_assoc; reflexivity|fields|done].
  - eapply (number_field _ _ _ (name ++ repeat 0 64 ++ uniq ++ le_bytes 2 _ ++ le_bytes 2 _ ++ le_bytes 4 _ ++ le_bytes 4 _));
      [unfold content; rewrite <- !app_assoc; reflexivity|fields|done].
  - eapply (bytes_field _ _ _ (name ++ repeat 0 64 ++ uniq ++ le_bytes 2 _ ++ le_bytes 2 _ ++ le_bytes 4 _ ++ le_bytes 4 _
      ++ le_bytes 4 _ ++ le_bytes 4 _)); [unfold content; rewrite <- !app_assoc, app_nil_r; reflexivity|fields|done].
Qed.

(** ** A run *)

Module UhidWitness.

(** A set report the kernel gives in two pieces, with an interruption. *)
Definition frame : list byte := repeat x07 (Z.to_nat 64).

Definition event : list byte :=
  [x0d; x00; x00; x00; x2a; x00; x00; x00; x00; x01; x40; x00] ++ frame ++ repeat x00 (Z.to_nat 4300).

Definition file : UhidFile := {|
  uf_polls := [PollInterrupted; PollReady 1];
  uf_waits := [];
  uf_reads := [ReadData (take 12 event); ReadInterrupted; ReadData (drop 12 event)];
  uf_writes := [WriteAgain];
  uf_time := 0;
  uf_ticks := [5; 20; 200000]%N;
  uf_calls := []
|}.

Definition device : UhidDevice := MkUhid file None false false.

(** Interrupted, then ready, then not settled; the next read gets the event. *)
Definition waiting : UhidDevice := uhid_run [ORead; ORead; ORead] device.

Definition read : UhidDevice * result (option bytes) SeatError := try_read_frame waiting.

Lemma read_is : try_read_frame waiting = read.
Proof. unfold read. reflexivity. Qed.

Lemma read_is_frame : snd read = Ok (Some (of_byte_list frame)).
Proof. vm_compute. reflexivity. Qed.

Definition ran : UhidDevice := uhid_run [ORead; ORead; ORead; ORead] device.

Lemma ran_is : uhid_run [ORead; ORead; ORead; ORead] device = ran.
Proof. unfold ran. reflexivity. Qed.

Lemma ran_reads : ud_calls ran =
  [UReady 5] ++ URead 200025 (Some (of_byte_list event)) :: [UWrite (set_report_reply 42 0)].
Proof. vm_compute. reflexivity. Qed.

#[local] Opaque read ran waiting.

Lemma events_answered_witness :
  exists u', try_read_frame waiting = (u', Ok (Some (of_byte_list frame))) /\
  exists calls, ud_calls u' = ud_calls waiting ++ calls /\
    match omap event_read calls with
    | [] => Some (of_byte_list frame) = None /\ omap event_written calls = []
    | [event] =>
        answered event (omap event_written calls) /\
        forall f, Some (of_byte_list frame) = Some f <-> exists report, carries event report /\ holds_frame report f
    | _ => False
    end.
Proof.
  pose proof read_is as Hr. pose proof read_is_frame as Ho. revert Hr Ho. destruct read as [u' r]. cbn [snd]. intros Hr ->.
  exists u'. split; [exact Hr|]. exact (events_answered waiting u' _ Hr).
Defined.

Lemma reads_settled_witness :
  exists earlier seen between, [UReady 5] = earlier ++ UReady seen :: between /\ seen + READ_SETTLING_TIME <= 200025 /\
    Forall no_reading between.
Proof.
  pose proof ran_reads as Hr. rewrite <- ran_is in Hr.
  exact (reads_settled [ORead; ORead; ORead; ORead] file [UReady 5] _ 200025 _ eq_refl Hr).
Defined.

End UhidWitness.
