(* ===== verification/HidWire.v ===== *)
(** * A request across the wire and its answer back

    The client's reports fed to the key's state machine, and the state
    machine's reports read by the client: a message is reassembled exactly, and
    a whole CBOR transaction returns the app's answer. *)

From Stdlib Require Import Strings.String.
From stdpp Require Import sets.
From S2P Require Import Prelude Constants Alg Crypto ConcreteCrypto Cbor ConcreteCbor Records PinRetry Token Presence.
From S2P Require Import Store StoreProofs CredentialKey Signing Engine Scenario U2f Dispatch Ctaphid HidHost.
From S2P Require Import HidHostInv HidClient Transport.

(** ** Reading reports back *)

Lemma chunks_within_bound {A} fuel n k (l : list A) :
  (length l <= k * n)%nat -> (length (chunks_within fuel n l) <= k)%nat.
Proof.
  revert k l. induction fuel as [|fuel IH]; intros k [|x l] Hl; simpl; try lia.
  destruct k as [|k]; [simpl in Hl; lia|]. cbn [length]. apply le_n_S, IH. rewrite length_drop. simpl in *. lia.
Qed.

Lemma message_chunks (payload : bytes) :
  zlen payload <= MAX_MESSAGE_SIZE ->
  take 128 (chunks CONT_DATA (drop INIT_DATA payload)) = chunks CONT_DATA (drop INIT_DATA payload).
Proof.
  intros Hl. apply take_ge, chunks_within_bound. rewrite length_drop.
  unfold zlen, MAX_MESSAGE_SIZE, INIT_DATA, CONT_DATA, CTAPHID_FRAME_LEN in *. lia.
Qed.

Lemma command_of_into c : command_of (into_u8 c) = Some c.
Proof. by destruct c. Qed.

Section Reports.

Context (channel : Z) (Hch : 0 <= channel <= BROADCAST_CID).

Lemma channel_bytes : be_value (be_bytes 4 channel) = channel.
Proof using Hch. apply be_value_bytes. unfold BROADCAST_CID in Hch. lia. Qed.

Lemma report_channel_on frame : report_on channel frame -> report_channel frame = channel.
Proof using Hch. intros [_ Ht]. unfold report_channel. rewrite Ht. apply channel_bytes. Qed.

(** The fields of an initialization report. *)
Lemma init_report_fields command payload :
  zlen payload <= MAX_MESSAGE_SIZE ->
  let packet := init_report channel command (zlen payload) (take INIT_DATA payload) in
  report_channel packet = channel /\ is_init_report packet = true /\
  command_of (Z.land (report_code packet) 0x7f) = Some command /\
  report_length packet = zlen payload /\
  take (Z.to_nat (Z.min (zlen payload) (Z.of_nat INIT_DATA))) (drop 7 packet) = take INIT_DATA payload.
Proof using Hch.
  intros Hl. cbv zeta. set (packet := init_report _ _ _ _).
  assert (Hlen : length (take INIT_DATA payload) = Z.to_nat (Z.min (zlen payload) (Z.of_nat INIT_DATA))).
  { rewrite length_take. unfold zlen. lia. }
  assert (E : packet = be_bytes 4 channel ++ [Z.lor (into_u8 command) 0x80] ++ be_bytes 2 (zlen payload) ++
    take INIT_DATA payload ++ repeat 0 (CTAPHID_FRAME_LEN -
      length (be_bytes 4 channel ++ Z.lor (into_u8 command) 0x80 :: be_bytes 2 (zlen payload) ++ take INIT_DATA payload))).
  { unfold packet, init_report, report. by rewrite <- app_assoc. }
  assert (Hon : report_on channel packet) by (apply init_report_on; rewrite length_take; lia).
  assert (Ec : report_code packet = Z.lor (into_u8 command) 0x80).
  { unfold report_code. rewrite E, app_nth2, be_bytes_length; [done|]. rewrite be_bytes_length. lia. }
  split_and!.
  - by apply report_channel_on.
  - unfold is_init_report. rewrite Ec. by destruct command.
  - rewrite Ec. by destruct command.
  - unfold report_length, slice. rewrite E.
    rewrite (drop_app_ge _ _ 5) by (rewrite be_bytes_length; lia). rewrite be_bytes_length.
    cbn [Nat.sub drop app]. rewrite drop_0, take_app_length' by (by rewrite be_bytes_length).
    apply be_value_bytes. unfold zlen, MAX_MESSAGE_SIZE, INIT_DATA, CONT_DATA, CTAPHID_FRAME_LEN in *.
    change (256 ^ Z.of_nat 2) with 65536. lia.
  - rewrite E. rewrite (drop_app_ge _ _ 7) by (rewrite be_bytes_length; lia). rewrite be_bytes_length.
    cbn [Nat.sub drop app]. rewrite (drop_app_ge _ _ 2) by (rewrite be_bytes_length; lia).
    rewrite be_bytes_length. cbn [Nat.sub drop]. rewrite drop_0, take_app_le by lia. by rewrite take_ge by lia.
Qed.

(** The fields of a continuation report. *)
Lemma cont_report_fields sequence chunk :
  (length chunk <= CONT_DATA)%nat -> 0 <= sequence <= 127 ->
  let packet := cont_report channel sequence chunk in
  report_channel packet = channel /\ is_init_report packet = false /\ report_code packet = sequence /\
  take (length chunk) (drop 5 packet) = chunk.
Proof using Hch.
  intros Hl Hs. cbv zeta. set (packet := cont_report _ _ _).
  assert (E : packet = be_bytes 4 channel ++ [sequence] ++ chunk ++
    repeat 0 (CTAPHID_FRAME_LEN - length (be_bytes 4 channel ++ sequence :: chunk))).
  { unfold packet, cont_report, report. by rewrite <- app_assoc. }
  assert (Ec : report_code packet = sequence).
  { unfold report_code. rewrite E, app_nth2, be_bytes_length; [done|]. rewrite be_bytes_length. lia. }
  split_and!; [by apply report_channel_on, cont_report_on| |done|].
  - unfold is_init_report. rewrite Ec. apply negb_false_iff, Z.eqb_eq.
    change 0x80 with (2 ^ 7). apply Z.bits_inj'. intros n Hn. rewrite Z.land_spec, Z.bits_0.
    destruct (Z.eq_dec n 7) as [->|Hne].
    + rewrite Z.testbit_odd, Z.shiftr_div_pow2 by lia. by rewrite Z.div_small by lia.
    + rewrite (Z.pow2_bits_false 7 n) by lia. apply andb_false_r.
  - rewrite E. rewrite (drop_app_ge _ _ 5) by (rewrite be_bytes_length; lia). rewrite be_bytes_length.
    cbn [Nat.sub drop app]. rewrite drop_0. by apply take_app_length'.
Qed.

End Reports.

(** ** A message into the state machine *)

Definition feed (now : Z) (frames : list bytes) (h : CtaphidHost) : CtaphidHost :=
  fold_left (fun h f => handle_frame f now h) frames h.

Lemma expire_no_lease now h : ch_lease h = None -> expire_lease now h = h.
Proof. unfold expire_lease. by intros ->. Qed.

Section Feeding.

Context (channel : Z) (Hch : 0 < channel < BROADCAST_CID) (now : Z).

(** One continuation packet of a message being received. *)
Lemma feed_continuation command len seq last rest h :
  ch_state h = Receiving channel command len seq last -> ch_lease h = None -> 0 <= seq <= 127 ->
  len = zlen (ch_message h) + zlen rest -> rest <> [] ->
  let m := ch_message h ++ take CONT_DATA rest in
  let h' := set_ch_message m (set_ch_state (Receiving channel command len (seq + 1) now) h) in
  handle_frame (cont_report channel seq (take CONT_DATA rest)) now h =
  if bool_decide (drop CONT_DATA rest = []) then complete_message channel command now h' else h'.
Proof using Hch.
  intros Hs Hl Hq Hlen Hne. cbv zeta. unfold handle_frame. rewrite expire_no_lease by done.
  destruct (cont_report_fields channel ltac:(lia) seq (take CONT_DATA rest)) as (-> & -> & -> & Ed);
    [rewrite length_take; lia|done|]. cbn [negb].
  unfold handle_continuation. rewrite Hs, !Z.eqb_refl. cbn [negb].
  assert (Ht : Z.to_nat (Z.min (len - zlen (ch_message h)) (Z.of_nat CONT_DATA)) = length (take CONT_DATA rest)).
  { rewrite length_take, Hlen. unfold zlen. lia. }
  cbn [ch_message set_ch_state]. rewrite Ht, Ed. cbv zeta. cbn [ch_message set_ch_message].
  case_bool_decide as He.
  - destruct (Z.eqb_spec (zlen (ch_message h ++ take CONT_DATA rest)) len) as [|Hn]; [done|]. exfalso. apply Hn.
    rewrite Hlen. unfold zlen. rewrite length_app, length_take. apply (f_equal length) in He.
    rewrite length_drop in He. simpl in He. lia.
  - destruct (Z.eqb_spec (zlen (ch_message h ++ take CONT_DATA rest)) len) as [Hn|]; [|done]. exfalso. apply He.
    rewrite Hlen in Hn. unfold zlen in Hn. rewrite length_app, length_take in Hn.
    apply length_zero_iff_nil. rewrite length_drop. lia.
Qed.

Lemma feed_continuations fuel command len seq last rest h :
  ch_state h = Receiving channel command len seq last -> ch_lease h = None -> 0 <= seq ->
  len = zlen (ch_message h) + zlen rest -> rest <> [] -> (length rest <= fuel)%nat ->
  seq + zlen (chunks_within fuel CONT_DATA rest) <= 128 ->
  exists s, feed now (cont_reports channel seq (chunks_within fuel CONT_DATA rest)) h =
    complete_message channel command now (set_ch_message (ch_message h ++ rest) (set_ch_state s h)).
Proof using Hch.
  revert seq last rest h. induction fuel as [|fuel IH]; intros seq last rest h Hs Hl H0 Hlen Hne Hf Hq.
  { destruct rest; [done|simpl in Hf; lia]. }
  destruct rest as [|x rest']; [done|]. set (rest := x :: rest') in *.
  change (chunks_within (S fuel) CONT_DATA rest) with (take CONT_DATA rest :: chunks_within fuel CONT_DATA (drop CONT_DATA rest)) in *.
  cbn [cont_reports feed fold_left]. unfold zlen in Hq. cbn [length] in Hq.
  rewrite (feed_continuation command len seq last rest h) by (done || lia).
  fold (feed now (cont_reports channel (seq + 1) (chunks_within fuel CONT_DATA (drop CONT_DATA rest)))).
  case_bool_decide as He.
  - assert (Hle : (length rest <= CONT_DATA)%nat).
    { apply (f_equal length) in He. rewrite length_drop in He. change (length (@nil Z)) with 0%nat in He. lia. }
    rewrite He, take_ge by done. destruct fuel; cbn [chunks_within cont_reports feed fold_left]; by eexists.
  - set (h' := set_ch_message _ _). edestruct (IH (seq + 1) now (drop CONT_DATA rest) h') as [s Es]; try done.
    + lia.
    + rewrite Hlen. unfold zlen. cbn [ch_message h' set_ch_message]. rewrite length_app, length_take, length_drop. lia.
    + rewrite length_drop. unfold rest, CONT_DATA, CTAPHID_FRAME_LEN in *. cbn [length] in *. lia.
    + unfold zlen. lia.
    + exists s. unfold feed in Es |- *. rewrite Es. unfold h'. cbn [ch_message set_ch_message].
      rewrite <- app_assoc, take_drop. reflexivity.
Qed.

(** A whole message: the host completes it with exactly the payload sent. *)
Lemma feed_message command payload h :
  busy_channel h = None -> ch_lease h = None -> is_served command = true ->
  length_refused command (zlen payload) = false ->
  exists s, feed now (message_reports channel command payload) h =
    complete_message channel command now
      (set_ch_message payload (set_ch_state s (set_ch_channels (touch channel (ch_channels h)) h))).
Proof using Hch.
  intros Hb Hl Hc Hr. pose proof (length_allowed _ _ Hr) as (Hmax & _).
  unfold message_reports. rewrite message_chunks by done. cbn [feed fold_left].
  set (first := handle_frame _ now h).
  set (h0 := set_ch_channels (touch channel (ch_channels h)) h).
  assert (Ef : first = begin_request channel command (zlen payload)
            (drop 7 (init_report channel command (zlen payload) (take INIT_DATA payload))) now h0).
  { unfold first, handle_frame. rewrite expire_no_lease by done.
    destruct (init_report_fields channel ltac:(lia) command payload Hmax) as (-> & -> & -> & -> & _). cbn [negb].
    unfold handle_request, lease_conflicts, request_conflicts.
    change (ch_lease (set_ch_channels (touch channel (ch_channels h)) h)) with (ch_lease h). rewrite Hl. simpl is_some_and.
    change (busy_channel (set_ch_channels (touch channel (ch_channels h)) h)) with (busy_channel h). rewrite Hb.
    assert (Hidle : ch_state h = Idle) by (unfold busy_channel in Hb; by destruct (ch_state h)).
    cbn [ch_state set_ch_channels]. rewrite Hidle.
    destruct (Z.eqb_spec channel 0); [lia|]. destruct (Z.eqb_spec channel BROADCAST_CID); [lia|]. simpl orb.
    destruct command; try done; simpl negb; rewrite Hr; reflexivity. }
  rewrite Ef. unfold begin_request. cbv zeta.
  destruct (init_report_fields channel ltac:(lia) command payload Hmax) as (_ & _ & _ & _ & ->).
  destruct (Z.leb_spec (zlen payload) (Z.of_nat INIT_DATA)) as [Hs|Hs].
  - rewrite drop_ge, take_ge by (unfold zlen in Hs; lia). exists (ch_state h0). cbn [chunks length chunks_within cont_reports fold_left].
    by destruct h.
  - edestruct (feed_continuations (length (drop INIT_DATA payload)) command (zlen payload) 0 now (drop INIT_DATA payload)
      (set_ch_state (Receiving channel command (zlen payload) 0 now) (set_ch_message (take INIT_DATA payload) h0)))
      as [s Es]; try done; try lia.
    + cbn [ch_message set_ch_state set_ch_message]. unfold zlen. rewrite length_take, length_drop. unfold zlen in Hs. lia.
    + intros E%(f_equal length). rewrite length_drop in E. simpl in E. unfold zlen in Hs. lia.
    + unfold zlen. pose proof (chunks_within_bound (length (drop INIT_DATA payload)) CONT_DATA 128 (drop INIT_DATA payload)) as Hk.
      specialize (Hk ltac:(rewrite length_drop; unfold zlen, MAX_MESSAGE_SIZE, INIT_DATA, CONT_DATA, CTAPHID_FRAME_LEN in *; lia)). lia.
    + exists s. unfold chunks. unfold feed in Es. rewrite Es. cbn [ch_message set_ch_state set_ch_message].
      rewrite take_drop. reflexivity.
Qed.

End Feeding.

(** ** A wire between the client and the key

    Reports the client sends go to the state machine; reports it waits for are
    written from the queue, and when there is none the app works on the request
    that is ready.  [serve] is the app, the clock stands at [now]. *)

Section Wire.

Context {A : Type} (serve : AppRequest -> A -> A * AppResponse) (now : Z).

Record Wire : Type := MkWire { wi_host : CtaphidHost; wi_app : A }.

Definition wire_work (w : Wire) : Wire :=
  match take_app_request (wi_host w) with
  | (h, Some request) =>
      let (a, response) := serve request (wi_app w) in MkWire (collect_response response now h) a
  | (h, None) => MkWire h (wi_app w)
  end.

Definition wire_pop (w : Wire) : Wire * result (option bytes) Z :=
  match next_outgoing_frame (wi_host w) with
  | Some frame => (MkWire (fst (outgoing_frame_written frame (wi_host w))) (wi_app w), Ok (Some (of_frame frame)))
  | None => (w, Ok None)
  end.

Definition wire_receive (w : Wire) : Wire * result (option bytes) Z :=
  if is_some (next_outgoing_frame (wi_host w)) then wire_pop w else wire_pop (wire_work w).

#[local] Instance wire_link : ReportLink Wire := {|
  link_send := fun r w => (MkWire (handle_frame r now (wi_host w)) (wi_app w), Ok tt);
  link_receive := wire_receive;
  link_now := fun w => (w, now);
  link_cancelled := fun w => (w, false);
  link_keepalive := fun _ w => w
|}.

(** ** Sending over it *)

Lemma send_chunks_wire channel seq data w :
  0 <= seq -> seq + zlen data <= 128 ->
  send_chunks channel seq data w =
  (MkWire (feed now (cont_reports channel seq data) (wi_host w)) (wi_app w), Ok tt).
Proof.
  revert seq w. induction data as [|chunk data IH]; intros seq w H0 Hs; [by destruct w|].
  unfold zlen in Hs. cbn [length] in Hs. cbn [send_chunks].
  destruct (Z.ltb_spec 255 seq); [lia|]. unfold mbind_st. cbn. rewrite IH; [done|lia|unfold zlen; lia].
Qed.

Lemma send_message_wire channel command payload w :
  zlen payload <= MAX_MESSAGE_SIZE ->
  send_message channel command payload w =
  (MkWire (feed now (message_reports channel command payload) (wi_host w)) (wi_app w), Ok tt).
Proof.
  intros Hl. unfold send_message. destruct (Z.ltb_spec MAX_PAYLOAD (zlen payload)) as [Hm|Hm].
  { unfold MAX_PAYLOAD, MAX_MESSAGE_SIZE in *. lia. }
  unfold mbind_st. cbn [put_report link_send wire_link].
  rewrite send_chunks_wire; [|done|].
  - unfold message_reports. by rewrite message_chunks.
  - pose proof (chunks_within_bound (length (drop INIT_DATA payload)) CONT_DATA 128 (drop INIT_DATA payload)) as Hk.
    specialize (Hk ltac:(rewrite length_drop; unfold zlen, MAX_MESSAGE_SIZE, INIT_DATA, CONT_DATA, CTAPHID_FRAME_LEN in *; lia)).
    unfold zlen, chunks. lia.
Qed.

(** ** Receiving over it *)

(** The host transmits exactly [frames], the last of which ends it. *)
Definition transmits (channel t : Z) (frames : list bytes) (h : CtaphidHost) : Prop :=
  ch_pending h = stamp t frames /\
  ch_state h = match frames with [] => Idle | _ => Transmitting channel (t + zlen frames - 1) end.

Definition transmitted (h : CtaphidHost) : CtaphidHost := set_ch_pending [] (set_ch_state Idle h).

Lemma transmits_nil channel t h : transmits channel t [] h -> transmitted h = h.
Proof. intros [Hp Hs]. destruct h. cbn in *. by subst. Qed.

Lemma receive_frame channel t frame frames w :
  transmits channel t (frame :: frames) (wi_host w) ->
  exists h, get_report w = (MkWire h (wi_app w), Ok frame) /\ transmits channel (t + 1) frames h /\
    transmitted h = transmitted (wi_host w).
Proof.
  intros [Hp Hs]. unfold get_report. cbn [link_receive wire_link]. unfold wire_receive, wire_pop, next_outgoing_frame.
  rewrite Hp. cbn [head is_some stamp]. eexists. split; [done|].
  unfold outgoing_frame_written, is_outgoing_current. rewrite Hp. cbn [head stamp is_some_and of_token tail].
  rewrite Z.eqb_refl, Hs. destruct frames as [|frame' frames].
  - destruct (Z.eqb_spec (t + zlen [frame] - 1) t) as [_|Hn]; [|unfold zlen in Hn; simpl in Hn; lia].
    by destruct (wi_host w).
  - destruct (Z.eqb_spec (t + zlen (frame :: frame' :: frames) - 1) t) as [Hn|_]; [unfold zlen in Hn; simpl in Hn; lia|].
    unfold transmits. cbn [fst ch_pending ch_state set_ch_pending]. rewrite Hs. split; [split; [done|]|by destruct (wi_host w)].
    f_equal. unfold zlen. cbn [length]. lia.
Qed.

Lemma receive_rest_wire channel f rest fuel len seq t m w :
  0 <= channel <= BROADCAST_CID -> transmits channel t (cont_reports channel seq (chunks_within f CONT_DATA rest)) (wi_host w) ->
  (length rest <= f)%nat -> len = zlen m + zlen rest -> 0 <= seq ->
  seq + zlen (chunks_within f CONT_DATA rest) <= 128 ->
  (length (chunks_within f CONT_DATA rest) < fuel)%nat ->
  receive_rest fuel channel len seq m w =
  (MkWire (transmitted (wi_host w)) (wi_app w), Ok (Some (m ++ rest))).
Proof.
  intros Hch. revert rest fuel seq t m w.
  induction f as [|f IH]; intros rest fuel seq t m w Ht Hf Hlen Hs Hq Hfuel.
  all: destruct fuel as [|fuel]; [lia|]; cbn [receive_rest]; destruct rest as [|x rest']; try (simpl in Hf; lia).
  all: try (destruct (Z.ltb_spec (zlen m) len) as [Hl|_]; [unfold zlen in *; simpl in *; lia|];
    rewrite app_nil_r; pose proof (transmits_nil _ _ _ Ht) as ->; by destruct w).
  set (rest := x :: rest') in *. unfold zlen in Hq.
  change (chunks_within (S f) CONT_DATA rest) with (take CONT_DATA rest :: chunks_within f CONT_DATA (drop CONT_DATA rest)) in *.
  cbn [length cont_reports] in *.
  destruct (Z.ltb_spec (zlen m) len) as [_|Hl]; [|unfold zlen, rest in *; simpl in *; lia].
  destruct (receive_frame _ _ _ _ _ Ht) as (h & Eg & Ht' & Etr).
  unfold mbind_st at 1. rewrite Eg.
  destruct (cont_report_fields channel ltac:(lia) seq (take CONT_DATA rest)) as (-> & _ & -> & Ed);
    [rewrite length_take; lia|lia|]. rewrite !Z.eqb_refl. cbn [negb].
  assert (Hn : Z.to_nat (Z.min (len - zlen m) (Z.of_nat CONT_DATA)) = length (take CONT_DATA rest)).
  { rewrite length_take, Hlen. unfold zlen. lia. }
  rewrite Hn, Ed, Z.mod_small by lia.
  rewrite (IH (drop CONT_DATA rest) fuel (seq + 1) (t + 1)).
  - cbn [wi_host wi_app]. by rewrite Etr, <- app_assoc, take_drop.
  - done.
  - rewrite length_drop. unfold rest, CONT_DATA, CTAPHID_FRAME_LEN in *. cbn [length] in *. lia.
  - rewrite Hlen. unfold zlen. rewrite length_app, length_take, length_drop. lia.
  - lia.
  - unfold zlen. lia.
  - lia.
Qed.

(** The next message, whatever its command. *)
Lemma receive_message_wire watched accept channel command payload t fuel w :
  0 <= channel <= BROADCAST_CID -> transmits channel t (message_reports channel command payload) (wi_host w) ->
  zlen payload <= MAX_MESSAGE_SIZE -> (130 <= fuel)%nat ->
  command <> KeepAlive -> accept payload = true ->
  receive_message watched fuel channel accept false w =
  (MkWire (transmitted (wi_host w)) (wi_app w),
   if bool_decide (command = Error) then Err (Ctaphid (nth 0 payload 0)) else Ok (Some payload)).
Proof.
  intros Hch Ht Hl Hfuel Hk Hacc. destruct fuel as [|fuel]; [lia|]. cbn [receive_message].
  destruct (receive_frame _ _ _ _ _ Ht) as (h & Eg & Ht' & Etr). unfold mbind_st at 1. rewrite Eg.
  destruct (init_report_fields channel Hch command payload Hl) as (-> & -> & -> & -> & ->).
  rewrite Z.eqb_refl. cbn [negb orb]. rewrite message_chunks in Ht' by done.
  pose proof (chunks_within_bound (length (drop INIT_DATA payload)) CONT_DATA 128 (drop INIT_DATA payload)) as Hc.
  specialize (Hc ltac:(rewrite length_drop; unfold zlen, MAX_MESSAGE_SIZE, INIT_DATA, CONT_DATA, CTAPHID_FRAME_LEN in *; lia)).
  unfold mbind_st at 1. erewrite (receive_rest_wire channel (length (drop INIT_DATA payload)) (drop INIT_DATA payload)).
  - cbn [wi_host wi_app]. rewrite take_drop, Etr. destruct command; try done; by rewrite Hacc.
  - done.
  - exact Ht'.
  - done.
  - unfold zlen. rewrite length_take, length_drop. lia.
  - done.
  - unfold zlen. lia.
  - lia.
Qed.

(** ** A whole transaction *)

(** The host is free: no transaction, no lease, nothing queued, the app idle. *)
Definition free (h : CtaphidHost) : Prop :=
  busy_channel h = None /\ ch_lease h = None /\ ch_pending h = [] /\ ch_app_busy h = false.

Lemma work_on_request channel request w h a response :
  wi_host w = start_processing channel Cbor now h -> ch_message h = request ->
  ch_pending h = [] -> ch_app_busy h = false -> ch_lease h = None ->
  serve {| ar_command := Cbor; ar_payload := request |} (wi_app w) = (a, response) ->
  exists h', wire_work w = MkWire h' a /\ free (transmitted h') /\
    transmits channel (ch_next_token h) (sent_frames channel Cbor (as_payload response)) h'.
Proof.
  intros Hw Hm Hp Hb Hl Hs. unfold wire_work. rewrite Hw. unfold take_app_request, start_processing.
  cbn [ch_app_busy ch_state set_ch_state set_ch_u2f pr_request pr_command]. rewrite Hb, Hm.
  change (bool_decide (Cbor = Msg)) with false. cbn [andb]. rewrite Hs. eexists. split; [done|].
  unfold collect_response, app_response, set_u2f_enabled, reset_u2f, deliver_response.
  destruct (as_reset response), (as_u2f_enabled response); cbn [ch_app_command ch_u2f ch_state pr_request is_some
    pr_channel pr_command set_taken set_ch_app_command set_ch_app_busy set_ch_state set_ch_u2f set_ch_denied_polls];
    rewrite enqueue_message_appended; (split; [done|]); unfold transmits, appended;
    cbn [ch_pending ch_state ch_next_token set_ch_state set_ch_pending set_ch_next_token set_ch_app_command
      set_ch_app_busy set_ch_u2f set_ch_denied_polls]; rewrite Hp; (split; [done|]);
    by destruct (sent_frames_nonempty channel Cbor (as_payload response)) as (? & ? & ->).
Qed.

(** A CBOR transaction on a free key returns what the app answered. *)
Lemma cbor_over_wire channel request fuel h a :
  0 < channel < BROADCAST_CID -> free h -> 0 < zlen request <= MAX_MESSAGE_SIZE -> (130 <= fuel)%nat ->
  exists h' a' response,
    serve {| ar_command := Cbor; ar_payload := request |} a = (a', response) /\ free h' /\
    cbor fuel channel request (MkWire h a) =
    (MkWire h' a', if zlen (as_payload response) <=? MAX_MESSAGE_SIZE then Ok (Some (as_payload response))
                   else Err (Ctaphid (error_code Other))).
Proof.
  intros Hch (Hb & Hl & Hp & Hab) Hr Hfuel. destruct (serve _ a) as [a' response] eqn:Hs.
  assert (Hok : length_refused Cbor (zlen request) = false).
  { unfold length_refused. destruct (Z.ltb_spec MAX_MESSAGE_SIZE (zlen request)); [lia|].
    by destruct (Z.eqb_spec (zlen request) 0); [lia|]. }
  destruct (feed_message channel Hch now Cbor request h Hb Hl eq_refl Hok) as [s Ef]. simpl complete_message in Ef.
  set (h0 := set_ch_message request _) in Ef.
  edestruct (work_on_request channel request (MkWire (feed now (message_reports channel Cbor request) h) a) h0)
    as (h' & Ew & Hfree & Ht); try done.
  exists (transmitted h'), a', response. split_and!; [done|done|].
  unfold cbor, mbind_st at 1. cbn [deadline_after link_now wire_link].
  destruct fuel as [|fuel]; [lia|]. cbn [retry_busy]. unfold mbind_st at 1. rewrite send_message_wire by lia.
  cbn [wi_host wi_app].
  set (w := MkWire (feed now _ h) a) in *.
  assert (Erecv : receive_message true (S fuel) channel (fun _ => true) false w =
    receive_message true (S fuel) channel (fun _ => true) false (MkWire h' a')).
  { cbn [receive_message]. unfold mbind_st at 1 3. 
    replace (get_report w) with (get_report (MkWire h' a')); [done|].
    unfold get_report. cbn [link_receive wire_link]. unfold wire_receive at 2.
    replace (next_outgoing_frame (wi_host w)) with (@None OutgoingFrame)
      by (unfold w; cbn [wi_host]; rewrite Ef; unfold next_outgoing_frame; cbn; by rewrite Hp).
    cbn [is_some]. rewrite Ew. unfold wire_receive, wire_pop, next_outgoing_frame. cbn [wi_host].
    destruct Ht as [-> _]. by destruct (sent_frames_nonempty channel Cbor (as_payload response)) as (? & ? & ->). }
  rewrite Erecv. unfold sent_frames in Ht. destruct (zlen (as_payload response) <=? MAX_MESSAGE_SIZE) eqn:El.
  - by rewrite (receive_message_wire true (fun _ => true) channel Cbor (as_payload response) (ch_next_token h0)) by (done || lia).
  - by rewrite (receive_message_wire true (fun _ => true) channel Error [error_code Other] (ch_next_token h0)) by (done || lia).
Qed.

(** ** Opening a channel *)

Lemma init_frame nonce c h h1 :
  free h -> length nonce = 8%nat -> ~ (BROADCAST_CID ∈ ch_channels h) ->
  allocate_channel CHANNEL_GENERATION_RETRY_LIMIT h = (h1, Some c) ->
  let h2 := resynchronise BROADCAST_CID h1 in
  handle_frame (init_report BROADCAST_CID Init 8 nonce) now h =
  enqueue_message BROADCAST_CID Init (init_response nonce c h2) h2.
Proof.
  intros (Hb & Hl & Hp & Hab) Hn Hnb Ha. unfold handle_frame. rewrite expire_no_lease by done.
  pose proof (init_report_fields BROADCAST_CID ltac:(unfold BROADCAST_CID; lia) Init nonce) as Hf.
  unfold zlen in Hf. rewrite Hn, (take_ge nonce) in Hf by (rewrite Hn; unfold INIT_DATA, CTAPHID_FRAME_LEN; lia).
  change (Z.of_nat 8) with 8 in Hf.
  destruct Hf as (-> & -> & -> & -> & Ed); [unfold MAX_MESSAGE_SIZE, INIT_DATA, CONT_DATA, CTAPHID_FRAME_LEN; lia|].
  change (Z.to_nat (Z.min 8 (Z.of_nat INIT_DATA))) with 8%nat in Ed.
  cbn [negb]. unfold touch. rewrite bool_decide_eq_false_2 by done.
  replace (set_ch_channels (ch_channels h) h) with h by (by destruct h).
  assert (Hidle : ch_state h = Idle) by (unfold busy_channel in Hb; by destruct (ch_state h)).
  unfold handle_init, lease_conflicts. rewrite Hl, Hb, Hidle. cbn [is_some_and negb is_idle].
  cbn [Z.eqb Pos.eqb negb]. unfold init_channel. rewrite Z.eqb_refl, Ha. cbn [ok_or].
  by rewrite Ed.
Qed.

(** What allocating leaves alone. *)
Lemma allocate_frame attempts h h1 c :
  allocate_channel attempts h = (h1, c) ->
  ch_state h1 = ch_state h /\ ch_u2f h1 = ch_u2f h /\ ch_lease h1 = ch_lease h /\ ch_pending h1 = ch_pending h /\
  ch_app_busy h1 = ch_app_busy h.
Proof.
  revert h. induction attempts as [|n IH]; intros h; simpl; [by intros [= <- _]|].
  destruct (_ || _); [intros E; by apply IH in E|].
  destruct (insert_channel _ _); [by intros [= <- _]|]. intros E. by apply IH in E.
Qed.

Lemma free_resynchronised channel h : free h -> free (resynchronise channel h).
Proof.
  intros (Hb & Hl & Hp & Hab). unfold busy_channel in Hb. destruct (ch_state h) eqn:Es; try done.
  unfold resynchronise. cbv zeta. cbn [ch_u2f ch_pending ch_state ch_denied_polls set_ch_message set_ch_pending]. rewrite Hp.
  destruct (ch_u2f h) as [poll|] eqn:Eu; [destruct (_ =? _), (is_some (up_answer poll)) eqn:Ea|];
    cbn [ch_state set_ch_denied_polls set_ch_u2f set_ch_interrupt_app set_ch_message set_ch_pending]; rewrite ?Es; try done;
    unfold free, busy_channel; cbn; rewrite Eu; by rewrite ?Ea.
Qed.

Lemma open_over_wire nonce patience fuel c h h1 a :
  free h -> length nonce = 8%nat -> ~ (BROADCAST_CID ∈ ch_channels h) -> (130 <= fuel)%nat -> 0 <= c <= BROADCAST_CID ->
  allocate_channel CHANNEL_GENERATION_RETRY_LIMIT h = (h1, Some c) ->
  exists h', open_within fuel nonce patience (MkWire h a) = (MkWire h' a, Ok (Some c)) /\ free h'.
Proof.
  intros Hfree Hn Hnb Hfuel Hc Ha. pose proof (init_frame nonce c h h1 Hfree Hn Hnb Ha) as Ef. cbv zeta in Ef.
  set (h2 := resynchronise BROADCAST_CID h1) in *.
  assert (Hf2 : free h2).
  { apply free_resynchronised. destruct (allocate_frame _ _ _ _ Ha) as (E1 & E2 & E3 & E4 & E5).
    destruct Hfree as (Hb & Hl & Hp & Hab). unfold free, busy_channel in *. by rewrite E1, E2, E3, E4, E5. }
  set (reply := init_response nonce c h2) in *.
  assert (Hlen : length reply = 17%nat) by (unfold reply, init_response; by rewrite !length_app, be_bytes_length, Hn).
  exists (transmitted (enqueue_message BROADCAST_CID Init reply h2)). split.
  2:{ rewrite enqueue_message_appended. destruct Hf2 as (Hb & Hl & Hp & Hab). unfold busy_channel in Hb.
      by destruct (ch_state h2). }
  unfold open_within, mbind_st at 1 2. cbn [deadline_after link_now wire_link].
  destruct fuel as [|fuel]; [lia|]. cbn [retry_busy]. unfold mbind_st at 1.
  rewrite send_message_wire by (unfold zlen; rewrite Hn; unfold MAX_MESSAGE_SIZE, INIT_DATA, CONT_DATA, CTAPHID_FRAME_LEN; lia).
  cbn [wi_host wi_app]. unfold message_reports.
  rewrite take_ge, drop_ge by (rewrite Hn; unfold INIT_DATA, CTAPHID_FRAME_LEN; lia).
  unfold zlen at 1. rewrite Hn. cbn [chunks length chunks_within take cont_reports feed fold_left].
  change (Z.of_nat 8) with 8. rewrite Ef.
  rewrite (receive_message_wire false (starts_with nonce) BROADCAST_CID Init reply (ch_next_token h2)).
  - cbn [wi_host wi_app]. change (bool_decide (Init = Error)) with false. cbv iota. cbn [fst snd].
    rewrite Hlen. cbn [Nat.leb]. unfold ret. do 3 f_equal. unfold reply, init_response, slice.
    rewrite drop_app_length' by done. rewrite take_app_length' by (by rewrite be_bytes_length).
    by apply channel_bytes.
  - unfold BROADCAST_CID. lia.
  - rewrite enqueue_message_appended. unfold transmits, appended. cbn [wi_host ch_pending ch_state set_ch_pending set_ch_next_token set_ch_state].
    destruct Hf2 as (_ & _ & -> & _). split; [|]; unfold sent_frames; (destruct (Z.leb_spec (zlen reply) MAX_MESSAGE_SIZE) as [_|Hbig];
      [done|unfold zlen in Hbig; rewrite Hlen in Hbig; unfold MAX_MESSAGE_SIZE, INIT_DATA, CONT_DATA, CTAPHID_FRAME_LEN in Hbig; lia]).
  - unfold zlen. rewrite Hlen. unfold MAX_MESSAGE_SIZE, INIT_DATA, CONT_DATA, CTAPHID_FRAME_LEN. lia.
  - done.
  - done.
  - unfold starts_with, reply, init_response. rewrite take_app_length. by apply bytes_eqb_spec.
Qed.

End Wire.

Lemma allocate_fresh attempts h h1 c :
  base_ok h -> allocate_channel attempts h = (h1, Some c) ->
  0 < c < BROADCAST_CID /\ ~ (c ∈ ch_channels h).
Proof.
  revert h. induction attempts as [|n IH]; intros h Hb; simpl; [done|].
  assert (Hd : base_ok (set_ch_rng_draws (S (ch_rng_draws h)) h)) by (by destruct Hb; split).
  destruct (_ || _) eqn:Er; [intros E; exact (IH _ Hd E)|]. bool_hyps.
  destruct (insert_channel _ _) as [ids|] eqn:Ei; [|intros E; exact (IH _ Hd E)]. intros [= <- <-].
  pose proof (bo_rng h Hb (ch_rng_draws h)). simpl in *.
  assert (Hc : 0 < ch_rng h (ch_rng_draws h) < BROADCAST_CID) by lia. split; [done|].
  eapply insert_channel_ok in Ei as (_ & Hn & _); [done|by destruct Hb|done].
Qed.

(** ** The engine behind the wire *)

Section EngineWire.

Context {S : Type} `{Crypto} `{KeyCrypto} `{SigningCrypto} `{Ciborium} `{Certificates} `{CredentialStore S}.
Context (finished : option Z) (now : Z).

#[local] Instance engine_link : ReportLink (Wire (A := CtapApp S)) := wire_link (run_app finished) now.

(** C37: A client's request reaches the engine whole and its answer comes back
    whole.  On a key that serves no other transaction, opening a channel returns
    one that was not allocated before and is none of the reserved ones; from
    then on every CBOR request of 1 to 7609 bytes the client sends on it, divided
    into packets, reassembled by the key, processed, divided again and read
    back, returns exactly what [CtapApp::call] answers to exactly those bytes
    (or ERR_OTHER if the answer exceeds a message), calls the engine once, and
    leaves the key free for the next.  The client's loops end within 130
    packets. *)
Theorem cbor_transaction_roundtrip (h h1 : CtaphidHost) (a : CtapApp S) (nonce : bytes)
    (patience c : Z) (fuel : nat) :
  host_ok h -> free h -> length nonce = 8%nat -> (130 <= fuel)%nat ->
  allocate_channel CHANNEL_GENERATION_RETRY_LIMIT h = (h1, Some c) ->
  (0 < c < BROADCAST_CID /\ ~ (c ∈ ch_channels h)) /\
  (exists w, open_within fuel nonce patience (MkWire h a) = (w, Ok (Some c)) /\
     wi_app w = a /\ free (wi_host w)) /\
  forall w request, free (wi_host w) -> 0 < zlen request <= MAX_MESSAGE_SIZE ->
    exists w', free (wi_host w') /\ wi_app w' = fst (call request (wi_app w)) /\
      cbor fuel c request w =
      (w', let response := snd (call request (wi_app w)) in
           if zlen response <=? MAX_MESSAGE_SIZE then Ok (Some response)
           else Err (Ctaphid (error_code Other))).
Proof.
  intros [Hb _] Hfree Hn Hfuel Ha. pose proof (allocate_fresh _ _ _ _ Hb Ha) as [Hc Hnew].
  split; [done|]. split.
  - destruct (open_over_wire (run_app finished) now nonce patience fuel c h h1 a) as (h' & Eo & Hf'); try done; try lia.
    { intros Hin. destruct (bo_channels h Hb) as (_ & _ & Hr). eapply Forall_forall in Hr; [|exact Hin]. lia. }
    by exists (MkWire h' a).
  - intros [hw aw] request Hfw Hr. cbn [wi_host wi_app] in *.
    destruct (cbor_over_wire (run_app finished) now c request fuel hw aw Hc Hfw Hr Hfuel)
      as (h' & a' & response & Es & Hf' & Ec).
    exists (MkWire h' a'). unfold run_app in Es. cbn [ar_command ar_payload] in Es.
    change (bool_decide (Cbor = Msg)) with false in Es. cbv iota in Es.
    destruct (call request aw) as [b payload]. injection Es as <- <-. done.
Qed.

End EngineWire.

(** ** A concrete client and key *)

Module HidWireWitness.

#[local] Opaque fresh_engine.

#[local] Instance no_certificates : Certificates := {| self_signed := fun _ _ _ => None |}.

Definition key : CtaphidHost := with_rng (fun n => Z.of_nat n mod 100 + 7).

Definition request : bytes := [CTAP_CMD_GET_INFO].

#[local] Instance key_link : ReportLink (Wire (A := CtapApp MemoryStore)) := wire_link (run_app None) 5.

(** Opening a channel and asking for information returns what the engine
    answers. *)
Lemma cbor_transaction_roundtrip_witness :
  (exists w, open_within 130 (repeat 9 8) 1000 (MkWire key fresh_engine) = (w, Ok (Some 7))) /\
  exists w, cbor 130 7 request (MkWire key fresh_engine) =
    (w, if zlen (snd (call request fresh_engine)) <=? MAX_MESSAGE_SIZE
        then Ok (Some (snd (call request fresh_engine))) else Err (Ctaphid 0x7f)).
Proof.
  assert (Hok : host_ok key).
  { apply ok_new. intros n. pose proof (Z.mod_pos_bound (Z.of_nat n) 100). unfold BROADCAST_CID. lia. }
  assert (Hf : free key) by (repeat split).
  destruct (cbor_transaction_roundtrip None 5 key _ fresh_engine (repeat 9 8) 1000 7 130 Hok Hf eq_refl (le_n _) eq_refl)
    as (_ & (w & Ho & _) & Hall).
  split; [by exists w|].
  destruct (Hall (MkWire key fresh_engine) request Hf) as (w' & _ & _ & Ec); [vm_compute; split; congruence|].
  exists w'. exact Ec.
Defined.

End HidWireWitness.
