(* ===== verification/Codec.v ===== *)
(** * The CBOR encoding of stored records ([store/codec.rs])

    A record is a CBOR map with small unsigned keys.  Encoding builds the
    entries in key order; decoding reads the map into [Fields], takes the
    entries out one by one and refuses whatever is left.  ciborium's reader
    with a nesting limit is a parameter ([RecordReader]). *)

From stdpp Require Import strings.
From S2P Require Import Prelude Constants Alg Crypto Records Cbor ClientPin Envelope Store.

(** ** The reader *)

(** [ciborium::de::from_reader_with_recursion_limit]: the value read and the
    bytes the reader has left. *)
Class RecordReader : Type := {
  from_reader_with_recursion_limit : nat -> bytes -> option (Value * bytes)
}.

Definition is_utf8 (t : bytes) : bool := is_some (utf8_chars t).

Definition is_byteb (b : Z) : bool := (0 <=? b) && (b <? 256).

(** What Rust's types say of a [Value]: integers of CBOR's range, text that is
    UTF-8, lengths that fit in memory. *)
Fixpoint value_ok (v : Value) : bool :=
  match v with
  | VInteger n => (- 2 ^ 64 <=? n) && (n <? 2 ^ 64)
  | VBytes b => forallb is_byteb b && (zlen b <? 2 ^ 64)
  | VFloat bits => (0 <=? bits) && (bits <? 2 ^ 64)
  | VText t => forallb is_byteb t && is_utf8 t && (zlen t <? 2 ^ 64)
  | VBool _ | VNull => true
  | VTag t x => (0 <=? t) && (t <? 2 ^ 64) && value_ok x
  | VArray l => forallb value_ok l && (zlen l <? 2 ^ 64)
  | VMap l => forallb (fun kv : Value * Value => let (k, x) := kv in value_ok k && value_ok x) l
              && (zlen l <? 2 ^ 64)
  end.

(** No float and no tag in it. *)
Fixpoint value_plain (v : Value) : bool :=
  match v with
  | VFloat _ | VTag _ _ => false
  | VInteger _ | VBytes _ | VText _ | VBool _ | VNull => true
  | VArray l => forallb value_plain l
  | VMap l => forallb (fun kv : Value * Value => let (k, x) := kv in value_plain k && value_plain x) l
  end.

(** How deeply arrays, maps and tags nest. *)
Fixpoint value_nesting (v : Value) : nat :=
  match v with
  | VTag _ x => S (value_nesting x)
  | VArray l => S (fold_right (fun x m => Nat.max (value_nesting x) m) 0%nat l)
  | VMap l => S (fold_right (fun (kv : Value * Value) m =>
                   let (k, x) := kv in Nat.max (Nat.max (value_nesting k) (value_nesting x)) m) 0%nat l)
  | _ => 0%nat
  end.

(** The writer's output is bytes and reads back within the limit; only values
    of Rust's types are read. *)
Class RecordReaderLaws `{Ciborium} `{RecordReader} : Prop := {
  reader_roundtrip limit v :
    value_ok v = true -> value_plain v = true -> (value_nesting v <= limit)%nat ->
    from_reader_with_recursion_limit limit (into_writer v) = Some (v, []);
  reader_typed limit b v rest :
    bytes_ok b -> from_reader_with_recursion_limit limit b = Some (v, rest) -> value_ok v = true;
  writer_bytes v : value_ok v = true -> bytes_ok (into_writer v)
}.

Definition KEY_TYPE_P256_SCALAR : Z := 1.

Definition KEY_TYPE_SEED : Z := 2.

Definition KEY_TYPE_RSA_PRIMES : Z := 3.

Definition MAX_RECORD_NESTING : nat := 4.

(** ** [Fields] *)

(** The entries not yet taken. *)
Definition Fields : Type := list (Z * Value).

(** [Vec::swap_remove]: the last element takes the place of the one removed. *)
Definition swap_remove {A} (l : list A) (index : nat) : list A :=
  match last l with
  | Some x => removelast (<[index := x]> l)
  | None => l
  end.

Fixpoint position (fs : Fields) (key : Z) : option nat :=
  match fs with
  | [] => None
  | (existing, _) :: fs' => if existing =? key then Some 0%nat else S <$> position fs' key
  end.

Definition fields_take (key : Z) : M Fields (option Value) Corruption := fun fs =>
  match position fs key with
  | None => (fs, Ok None)
  | Some index => (swap_remove fs index, Ok (snd <$> fs !! index))
  end.

Definition fields_required (key : Z) : M Fields Value Corruption :=
  let* item := fields_take key in lift (ok_or item CEncoding).

Definition into_bytes (item : Value) : result bytes Corruption :=
  match item with VBytes b => Ok b | _ => Err CEncoding end.

Definition into_text (item : Value) : result bytes Corruption :=
  match item with VText t => Ok t | _ => Err CEncoding end.

Definition into_array (n : nat) (item : Value) : result bytes Corruption :=
  let? b := into_bytes item in
  if (length b =? n)%nat then Ok b else Err CEncoding.

Definition into_integer (item : Value) : result Z Corruption :=
  match item with VInteger n => Ok n | _ => Err CEncoding end.

(** [Option::map(f).transpose()] of the entry taken. *)
Definition transposed {A} (f : Value -> result A Corruption) (key : Z)
    : M Fields (option A) Corruption :=
  let* item := fields_take key in
  lift match item with
       | None => Ok None
       | Some v => let? x := f v in Ok (Some x)
       end.

(** [collect] into a [Result]: the first error ends it. *)
Fixpoint collect {A B E} (f : A -> result B E) (l : list A) : result (list B) E :=
  match l with
  | [] => Ok []
  | x :: l' => let? y := f x in let? ys := collect f l' in Ok (y :: ys)
  end.

Definition fields_bytes (key : Z) : M Fields bytes Corruption :=
  let* item := fields_required key in lift (into_bytes item).

Definition fields_text (key : Z) : M Fields bytes Corruption :=
  let* item := fields_required key in lift (into_text item).

Definition fields_optional_bytes (key : Z) : M Fields (option bytes) Corruption :=
  transposed into_bytes key.

Definition fields_optional_text (key : Z) : M Fields (option bytes) Corruption :=
  transposed into_text key.

Definition fields_array (n : nat) (key : Z) : M Fields bytes Corruption :=
  let* item := fields_required key in lift (into_array n item).

Definition fields_optional_array (n : nat) (key : Z) : M Fields (option bytes) Corruption :=
  transposed (into_array n) key.

(** [u64::try_from], then the narrower type's [try_from]: it holds [0..=max]. *)
Definition narrow_uint (max : Z) (item : Value) : result Z Corruption :=
  let? integer := into_integer item in
  match u64_try_from integer with
  | Some value => if value <=? max then Ok value else Err CEncoding
  | None => Err CEncoding
  end.

Definition fields_uint (max : Z) (key : Z) : M Fields Z Corruption :=
  let* item := fields_required key in lift (narrow_uint max item).

Definition fields_optional_uint (max : Z) (key : Z) : M Fields (option Z) Corruption :=
  transposed (narrow_uint max) key.

Definition into_bool (item : Value) : result bool Corruption :=
  match item with VBool b => Ok b | _ => Err CEncoding end.

Definition fields_optional_bool (key : Z) : M Fields (option bool) Corruption :=
  transposed into_bool key.

Definition into_text_array (item : Value) : result (list bytes) Corruption :=
  match item with VArray items => collect into_text items | _ => Err CEncoding end.

Definition fields_optional_text_array (key : Z) : M Fields (option (list bytes)) Corruption :=
  transposed into_text_array key.

(** [T::try_from(i128)] for a signed type of range [-max-1..=max]. *)
Definition narrow_int (max : Z) (item : Value) : result Z Corruption :=
  let? integer := into_integer item in
  if (- max - 1 <=? integer) && (integer <=? max) then Ok integer else Err CEncoding.

Definition fields_int (max : Z) (key : Z) : M Fields Z Corruption :=
  let* item := fields_required key in lift (narrow_int max item).

Definition fields_bool (key : Z) : M Fields bool Corruption :=
  let* item := fields_required key in lift (into_bool item).

Definition into_bytes_array (item : Value) : result (list bytes) Corruption :=
  match item with VArray items => collect into_bytes items | _ => Err CEncoding end.

Definition fields_bytes_array (key : Z) : M Fields (list bytes) Corruption :=
  let* item := fields_required key in lift (into_bytes_array item).

Definition fields_finish : M Fields unit Corruption := fun fs =>
  (fs, match fs with [] => Ok tt | _ => Err CEncoding end).

(** The loop of [Fields::parse]. *)
Fixpoint parse_entries (fields : Fields) (entries : list (Value * Value)) : result Fields Corruption :=
  match entries with
  | [] => Ok fields
  | (key, value) :: rest =>
      let? integer := into_integer key in
      let? key := ok_or (u64_try_from integer) CEncoding in
      if existsb (fun e => fst e =? key) fields then Err CEncoding
      else parse_entries (fields ++ [(key, value)]) rest
  end.

Definition u32_limit : Z := 2 ^ 32 - 1.

Definition i32_limit : Z := 2 ^ 31 - 1.

Section Codec.

Context `{Crypto} `{Ciborium} `{RecordReader}.

Definition fields_parse (b : bytes) : result Fields Corruption :=
  let? read := ok_or (from_reader_with_recursion_limit MAX_RECORD_NESTING b) CEncoding in
  let (value, reader) := read in
  if negb (length reader =? 0)%nat then Err CEncoding
  else match value with
       | VMap entries => parse_entries [] entries
       | _ => Err CEncoding
       end.

(** Read a parsed map to its end. *)
Definition with_fields {A} (b : bytes) (m : M Fields A Corruption) : result A Corruption :=
  let? fields := fields_parse b in snd (m fields).

(** The entry is encoded again and read as a record of its own. *)
Definition into_persistent_token (item : Value) : result PersistentTokenRecord Corruption :=
  with_fields (into_writer item)
    (let* secret := fields_array 32 1 in
     let* granted := fields_bool 2 in
     fields_finish;;*
     ret {| pt_secret := secret; pt_granted := granted |}).

Definition fields_persistent_token (key : Z) : M Fields (option PersistentTokenRecord) Corruption :=
  transposed into_persistent_token key.

(** Writing a [Value] into a [Vec] does not fail. *)
Definition encode_map (entries : list (Z * Value)) : result bytes StoreError :=
  Ok (into_writer (VMap (map (fun e : Z * Value => (VInteger (fst e), snd e)) entries))).

(** ** The records *)

Definition key_type_of (k : KeyKind) : Z :=
  match k with
  | KP256Scalar => KEY_TYPE_P256_SCALAR
  | KSeed => KEY_TYPE_SEED
  | KRsaPrimes => KEY_TYPE_RSA_PRIMES
  end.

(** [if let Some(x) = o { entries.push((key, f(x))) }]. *)
Definition opt_entry {A} (key : Z) (f : A -> Value) (o : option A) : list (Z * Value) :=
  match o with Some x => [(key, f x)] | None => [] end.

Definition credential_entries (record : CredentialRecord) (created_at : Z) : list (Z * Value) :=
  [(1, VBytes (cr_credential_id record)); (2, VText (cr_rp_id record));
   (3, VBytes (cr_user_id record))]
  ++ opt_entry 4 VText (cr_user_name record)
  ++ opt_entry 5 VText (cr_user_display_name record)
  ++ [(6, VInteger (identifier (cr_alg record)));
      (7, VInteger (key_type_of (private_key_kind (cr_private_key record))));
      (8, VBytes (private_key_bytes (cr_private_key record)));
      (9, VBytes (cr_cred_random_with_uv record));
      (10, VBytes (cr_cred_random_without_uv record));
      (11, VInteger (cr_cred_protect record));
      (12, VInteger (cr_sign_count record));
      (13, VInteger created_at)]
  ++ opt_entry 14 VBytes (cr_cred_blob record)
  ++ opt_entry 15 VBytes (cr_large_blob_key record)
  ++ (if cr_third_party_payment record then [(16, VBool true)] else []).

Definition encode_credential (record : CredentialRecord) (created_at : Z) : result bytes StoreError :=
  encode_map (credential_entries record created_at).

Definition kind_of_key_type (key_type : Z) : result KeyKind Corruption :=
  if key_type =? KEY_TYPE_P256_SCALAR then Ok KP256Scalar
  else if key_type =? KEY_TYPE_SEED then Ok KSeed
  else if key_type =? KEY_TYPE_RSA_PRIMES then Ok KRsaPrimes
  else Err CEncoding.

Definition read_credential_fields : M Fields CredentialRecord Corruption :=
  let* number := fields_int i32_limit 6 in
  let* alg := lift (map_err (fun _ => CEncoding) (alg_try_from number)) in
  let* key_type := fields_uint u64_max 7 in
  let* key := fields_bytes 8 in
  let* kind := lift (kind_of_key_type key_type) in
  let* private_key := lift (map_err (fun _ => CEncoding) (private_key_from_bytes kind key)) in
  let* credential_id := fields_bytes 1 in
  let* rp_id := fields_text 2 in
  let* user_id := fields_bytes 3 in
  let* user_name := fields_optional_text 4 in
  let* user_display_name := fields_optional_text 5 in
  let* cred_random_with_uv := fields_array 32 9 in
  let* cred_random_without_uv := fields_array 32 10 in
  let* cred_protect := fields_uint u8_max 11 in
  let* sign_count := fields_uint u32_limit 12 in
  let* created_at := fields_uint u64_max 13 in
  let* cred_blob := fields_optional_bytes 14 in
  let* large_blob_key := fields_optional_array 32 15 in
  let* third_party_payment := fields_optional_bool 16 in
  fields_finish;;*
  ret {| cr_credential_id := credential_id; cr_rp_id := rp_id; cr_user_id := user_id;
         cr_user_name := user_name; cr_user_display_name := user_display_name;
         cr_alg := alg; cr_private_key := private_key;
         cr_cred_random_with_uv := cred_random_with_uv;
         cr_cred_random_without_uv := cred_random_without_uv;
         cr_cred_blob := cred_blob; cr_large_blob_key := large_blob_key;
         cr_third_party_payment := default false third_party_payment;
         cr_cred_protect := cred_protect; cr_sign_count := sign_count;
         cr_created_at := created_at |}.

Definition decode_credential (b : bytes) : result CredentialRecord Corruption :=
  let? record := with_fields b read_credential_fields in
  let? _ := map_err (fun _ => CInconsistent) (validate_decoded_credential record) in
  Ok record.

Definition token_value (token : PersistentTokenRecord) : Value :=
  VMap [(VInteger 1, VBytes (pt_secret token)); (VInteger 2, VBool (pt_granted token))].

Definition pin_state_entries (state : PinStateRecord) : list (Z * Value) :=
  opt_entry 1 VBytes (psr_pin_hash state)
  ++ [(2, VInteger (psr_pin_retries state));
      (3, VInteger (psr_consecutive_failures state));
      (4, VBool (psr_pin_auth_blocked state));
      (5, VInteger (psr_min_pin_length state));
      (6, VArray (map VText (psr_min_pin_length_rp_ids state)));
      (7, VBool (psr_force_pin_change state));
      (8, VInteger (psr_pin_code_point_length state));
      (9, VBool (psr_always_uv state));
      (10, VBool (psr_pin_complexity_policy state))]
  ++ opt_entry 11 token_value (fst (psr_persistent_tokens state))
  ++ opt_entry 12 token_value (snd (psr_persistent_tokens state)).

Definition encode_pin_state (state : PinStateRecord) : result bytes StoreError :=
  let? _ := validate_pin_state state in
  encode_map (pin_state_entries state).

Definition read_pin_state_fields : M Fields PinStateRecord Corruption :=
  let* pin_hash := fields_optional_array 16 1 in
  let* pin_retries := fields_uint u8_max 2 in
  let* consecutive_failures := fields_uint u8_max 3 in
  let* pin_auth_blocked := fields_bool 4 in
  let* min_pin_length := fields_optional_uint u8_max 5 in
  let* rp_ids := fields_optional_text_array 6 in
  let* force_pin_change := fields_optional_bool 7 in
  let* pin_code_point_length := fields_optional_uint u8_max 8 in
  let* always_uv := fields_optional_bool 9 in
  let* pin_complexity_policy := fields_optional_bool 10 in
  let* one := fields_persistent_token 11 in
  let* two := fields_persistent_token 12 in
  fields_finish;;*
  ret {| psr_pin_hash := pin_hash; psr_pin_retries := pin_retries;
         psr_consecutive_failures := consecutive_failures;
         psr_pin_auth_blocked := pin_auth_blocked;
         psr_min_pin_length := default DEFAULT_MIN_PIN_LENGTH min_pin_length;
         psr_min_pin_length_rp_ids := default [] rp_ids;
         psr_force_pin_change := default false force_pin_change;
         psr_pin_code_point_length := default DEFAULT_MIN_PIN_LENGTH pin_code_point_length;
         psr_always_uv := default false always_uv;
         psr_pin_complexity_policy := default false pin_complexity_policy;
         psr_persistent_tokens := (one, two) |}.

Definition decode_pin_state (b : bytes) : result PinStateRecord Corruption :=
  let? state := with_fields b read_pin_state_fields in
  let? _ := map_err (fun _ => CInconsistent) (validate_pin_state state) in
  Ok state.

Definition encode_large_blob_array (array : bytes) : result bytes StoreError :=
  let? _ := validate_large_blob_array array in
  encode_map [(1, VBytes array)].

Definition decode_large_blob_array (b : bytes) : result bytes Corruption :=
  let? array := with_fields b (let* array := fields_bytes 1 in fields_finish;;* ret array) in
  let? _ := map_err (fun _ => CInconsistent) (validate_large_blob_array array) in
  Ok array.

Definition encode_signature_counter (value : Z) : result bytes StoreError :=
  encode_map [(1, VInteger value)].

Definition decode_signature_counter (b : bytes) : result Z Corruption :=
  with_fields b (let* value := fields_uint u32_limit 1 in fields_finish;;* ret value).

Definition encode_attestation (record : AttestationRecord) : result bytes StoreError :=
  encode_map [(1, VBytes (at_private_key record));
              (2, VArray (map VBytes (at_certificate_chain record)))].

Definition decode_attestation (b : bytes) : result AttestationRecord Corruption :=
  let? record := with_fields b
    (let* private_key := fields_array 32 1 in
     let* certificate_chain := fields_bytes_array 2 in
     fields_finish;;*
     ret {| at_private_key := private_key; at_certificate_chain := certificate_chain |}) in
  let? _ := map_err (fun _ => CInconsistent) (validate_attestation record) in
  Ok record.

End Codec.
