(* ===== verification/CodecProofs.v ===== *)
(** * Stored records read back ([store/codec.rs])

    The concrete reader meets the reader's laws; every record reads back as it
    was written; a record that decodes is typed, validated and spelled in one
    way up to the order of its entries. *)

From Stdlib Require Import Permutation.
From stdpp Require Import strings sets.
From S2P Require Import Prelude Constants Alg Crypto ConcreteCrypto Records Cbor ConcreteCbor CborProofs ClientPin Envelope Store Codec.

(** ** The concrete reader *)

Lemma lor_shiftl_add a b k : 0 <= k -> 0 <= b < 2 ^ k -> Z.lor (Z.shiftl a k) b = a * 2 ^ k + b.
Proof.
  intros Hk Hb. rewrite <- (Z.shiftl_mul_pow2 a k) by lia.
  assert (Hz : Z.land (Z.shiftl a k) b = 0).
  { apply Z.bits_inj'. intros i Hi. rewrite Z.land_spec, Z.bits_0.
    destruct (Z.lt_ge_cases i k) as [Hlt|Hge].
    - rewrite Z.shiftl_spec_low by lia. done.
    - destruct (Z.eq_dec b 0) as [->|Hnz]; [by rewrite Z.bits_0, andb_false_r|].
      rewrite (Z.bits_above_log2 b), andb_false_r; [done|lia|].
      apply Z.log2_lt_pow2; [lia|]. apply Z.lt_le_trans with (2 ^ k); [lia|].
      apply Z.pow_le_mono_r; lia. }
  pose proof (Z.add_lor_land (Z.shiftl a k) b). lia.
Qed.

Lemma fold_argument_be raw : bytes_ok raw -> fold_argument raw = be_value raw.
Proof.
  unfold fold_argument, be_value. generalize 0.
  induction raw as [|b raw IH]; intros acc Hr; [done|].
  apply Forall_cons in Hr as [Hb Hr]. cbn [fold_left].
  rewrite (lor_shiftl_add acc b 8) by (unfold is_byte in Hb; lia).
  by apply IH.
Qed.

Lemma head_parts major info : 0 <= info < 32 ->
  Z.shiftr (Z.lor (Z.shiftl major 5) info) 5 = major /\
  Z.land (Z.lor (Z.shiftl major 5) info) 0x1f = info.
Proof.
  intros Hi. rewrite (lor_shiftl_add major info 5) by lia.
  rewrite Z.shiftr_div_pow2 by lia. change 0x1f with (Z.ones 5). rewrite Z.land_ones by lia.
  change (2 ^ 5) with 32. split.
  - rewrite Z.div_add_l, Z.div_small by lia. lia.
  - rewrite Z.add_comm, Z.mod_add, Z.mod_small by lia. done.
Qed.

Lemma long_header major n size info rest :
  24 <= info <= 27 -> Z.to_nat (Z.shiftl 1 (info - 24)) = size -> 0 <= n < 256 ^ Z.of_nat size ->
  header ((Z.lor (Z.shiftl major 5) info :: be_bytes size n) ++ rest) 0 =
  Some (major, n, S size).
Proof.
  intros Hi Hs Hn. unfold header. cbn [app lookup list_lookup].
  destruct (head_parts major info ltac:(lia)) as [-> ->].
  replace (info <=? 23) with false by (symmetry; apply Z.leb_gt; lia).
  replace (info <=? 27) with true by (symmetry; apply Z.leb_le; lia).
  rewrite Hs. unfold get_slice, slice. cbn [length Nat.add]. rewrite length_app, be_bytes_length.
  replace (_ && _) with true by (symmetry; apply andb_true_iff; split; apply Nat.leb_le; lia).
  cbn [drop]. replace (S size - 1)%nat with (length (be_bytes size n)) by (rewrite be_bytes_length; lia).
  rewrite drop_0, take_app_length, fold_argument_be by apply be_bytes_ok.
  by rewrite be_value_bytes.
Qed.

Lemma head_bytes_length major n : (1 <= length (head_bytes major n))%nat.
Proof. unfold head_bytes. repeat case_match; simpl; lia. Qed.

Lemma header_head major n rest : 0 <= n < 2 ^ 64 ->
  header (head_bytes major n ++ rest) 0 = Some (major, n, length (head_bytes major n)).
Proof.
  intros Hn. unfold head_bytes.
  destruct (n <? 24) eqn:E0; [|destruct (n <? 2 ^ 8) eqn:E1; [|destruct (n <? 2 ^ 16) eqn:E2;
    [|destruct (n <? 2 ^ 32) eqn:E3]]]; bool_hyps.
  - unfold header. cbn [app lookup list_lookup].
    destruct (head_parts major n ltac:(lia)) as [-> ->].
    by replace (n <=? 23) with true by (symmetry; apply Z.leb_le; lia).
  - rewrite long_header; [|lia|reflexivity|]; [cbn [length]; by rewrite be_bytes_length|].
    change (256 ^ Z.of_nat 1) with (2 ^ 8). lia.
  - rewrite long_header; [|lia|reflexivity|]; [cbn [length]; by rewrite be_bytes_length|].
    change (256 ^ Z.of_nat 2) with (2 ^ 16). lia.
  - rewrite long_header; [|lia|reflexivity|]; [cbn [length]; by rewrite be_bytes_length|].
    change (256 ^ Z.of_nat 4) with (2 ^ 32). lia.
  - rewrite long_header; [|lia|reflexivity|]; [cbn [length]; by rewrite be_bytes_length|].
    change (256 ^ Z.of_nat 8) with (2 ^ 64). lia.
Qed.

Lemma write_value_length v : (1 <= length (write_value v))%nat.
Proof.
  destruct v; cbn [write_value]; try (rewrite length_app);
    repeat match goal with
    | |- context [head_bytes ?m ?n] =>
        lazymatch goal with
        | H : (1 <= length (head_bytes m n))%nat |- _ => fail
        | _ => pose proof (head_bytes_length m n)
        end
    end; try (destruct (0 <=? n)); simpl; try lia.
Qed.

Lemma read_many_app {A} (item : bytes -> option (A * bytes)) (write : A -> bytes) l rest :
  Forall (fun x => forall r, item (write x ++ r) = Some (x, r)) l ->
  read_many (length l) item (concat (map write l) ++ rest) = Some (l, rest).
Proof.
  induction l as [|x l IH]; intros Hl; [done|].
  apply Forall_cons in Hl as [Hx Hl]. cbn [length map concat read_many].
  rewrite <- app_assoc, Hx. by rewrite (IH Hl).
Qed.

Lemma concat_length_le {A} (write : A -> bytes) l :
  (forall x, (1 <= length (write x))%nat) -> (length l <= length (concat (map write l)))%nat.
Proof.
  intros Hw. induction l as [|x l IH]; simpl; [lia|]. rewrite length_app. specialize (Hw x). lia.
Qed.

Lemma fold_max_le {A} (f : A -> nat) (l : list A) n :
  (fold_right (fun x m => Nat.max (f x) m) 0%nat l <= n)%nat -> Forall (fun x => (f x <= n)%nat) l.
Proof.
  induction l as [|x l IH]; simpl; intros Hl; [constructor|].
  constructor; [lia|]. apply IH. lia.
Qed.

Lemma forallb_Forall {A} (p : A -> bool) (l : list A) :
  forallb p l = true <-> Forall (fun x => p x = true) l.
Proof.
  induction l as [|x l IH]; simpl; [by split|]. rewrite andb_true_iff, Forall_cons. tauto.
Qed.

(** The header of what was written, and what follows it. *)
Lemma read_value_head levels major n body :
  0 <= n < 2 ^ 64 ->
  read_value (S levels) (head_bytes major n ++ body) =
  let k := Z.to_nat n in
  if major =? 0 then Some (VInteger n, body)
  else if major =? 1 then Some (VInteger (- n - 1), body)
  else if major =? 2 then
    if (length body <? k)%nat then None else Some (VBytes (take k body), drop k body)
  else if major =? 3 then
    if (length body <? k)%nat then None else Some (VText (take k body), drop k body)
  else if major =? 4 then
    if (length body <? k)%nat then None
    else option_map (fun p => (VArray (fst p), snd p)) (read_many k (read_value levels) body)
  else if major =? 5 then
    if (length body <? k)%nat then None
    else option_map (fun p => (VMap (fst p), snd p)) (read_many k (read_pair (read_value levels)) body)
  else match head_bytes major n ++ body with
       | 0xF5 :: r' => Some (VBool true, r')
       | 0xF4 :: r' => Some (VBool false, r')
       | 0xF6 :: r' | 0xF7 :: r' => Some (VNull, r')
       | _ => None
       end.
Proof.
  intros Hn. cbn [read_value]. rewrite header_head by done. by rewrite drop_app_length.
Qed.

Lemma zlen_to_nat {A} (l : list A) : Z.to_nat (zlen l) = length l.
Proof. unfold zlen. lia. Qed.

Lemma ltb_app_false {A} (a b : list A) n : (n <= length a)%nat -> (length (a ++ b) <? n)%nat = false.
Proof. intros Hn. apply Nat.ltb_ge. rewrite length_app. lia. Qed.

Lemma read_value_roundtrip levels v rest :
  value_ok v = true -> value_plain v = true -> (value_nesting v <= levels)%nat ->
  read_value (S levels) (write_value v ++ rest) = Some (v, rest).
Proof.
  revert v rest. induction levels as [levels IH] using lt_wf_ind. intros v rest Hok Hpl Hn.
  destruct v as [n|b|bits|t|b| |tag x|l|l]; try discriminate Hpl; cbn [value_ok] in Hok; bool_hyps;
    cbn [write_value].
  - destruct (0 <=? n) eqn:E; bool_hyps; rewrite read_value_head by lia; [done|].
    cbn [Z.eqb]. do 3 f_equal. lia.
  - rewrite <- app_assoc, read_value_head by (unfold zlen in *; lia). cbn [Z.eqb Pos.eqb]; cbv zeta.
    rewrite zlen_to_nat, ltb_app_false, take_app_length, drop_app_length by lia. done.
  - rewrite <- app_assoc, read_value_head by (unfold zlen in *; lia). cbn [Z.eqb Pos.eqb]; cbv zeta.
    rewrite zlen_to_nat, ltb_app_false, take_app_length, drop_app_length by lia. done.
  - by destruct b.
  - done.
  - rewrite <- app_assoc, read_value_head by (unfold zlen in *; lia). cbn [Z.eqb Pos.eqb]; cbv zeta.
    rewrite zlen_to_nat, ltb_app_false by (apply concat_length_le, write_value_length).
    destruct levels as [|levels]; [cbn in Hn; lia|].
    cbn [value_nesting] in Hn. apply le_S_n, fold_max_le in Hn.
    cbn [value_plain] in Hpl. apply forallb_Forall in Hpl.
    match goal with H' : forallb value_ok l = true |- _ => apply forallb_Forall in H' as Hl end.
    rewrite (read_many_app (read_value (S levels)) write_value); [done|].
    rewrite Forall_forall in *. intros x Hx r. apply IH; auto.
  - rewrite <- app_assoc, read_value_head by (unfold zlen in *; lia). cbn [Z.eqb Pos.eqb]; cbv zeta.
    rewrite zlen_to_nat, ltb_app_false.
    2: { apply (concat_length_le (fun kv : Value * Value => let (k, x) := kv in write_value k ++ write_value x)).
         intros [k x]. rewrite length_app. pose proof (write_value_length k). lia. }
    destruct levels as [|levels]; [cbn in Hn; lia|].
    cbn [value_nesting] in Hn.
    replace (fold_right _ _ _) with (fold_right (fun kv m => Nat.max
      (let (k, x) := kv : Value * Value in Nat.max (value_nesting k) (value_nesting x)) m) 0%nat l) in Hn
      by (clear; induction l as [|[k x] l IHl]; simpl; congruence).
    apply le_S_n, fold_max_le in Hn.
    cbn [value_plain] in Hpl. apply forallb_Forall in Hpl.
    match goal with H' : forallb _ l = true |- _ => apply forallb_Forall in H' as Hl end.
    rewrite (read_many_app (read_pair (read_value (S levels)))
      (fun kv : Value * Value => let (k, x) := kv in write_value k ++ write_value x)); [done|].
    rewrite Forall_forall in *. intros [k x] Hx r.
    specialize (Hn _ Hx). specialize (Hl _ Hx). specialize (Hpl _ Hx). cbn in Hn, Hl, Hpl. bool_hyps.
    unfold read_pair. rewrite <- app_assoc. rewrite !IH by (auto; lia). done.
Qed.

(** The reader with a limit: whatever is not of Rust's types is not CBOR. *)
#[export] Instance concrete_record_reader : RecordReader := {|
  from_reader_with_recursion_limit := fun limit b =>
    match read_value (S limit) b with
    | Some (v, rest) => if value_ok v then Some (v, rest) else None
    | None => None
    end
|}.

Lemma is_byteb_spec b : is_byteb b = true <-> is_byte b.
Proof. unfold is_byteb, is_byte. rewrite andb_true_iff, Z.leb_le, Z.ltb_lt. tauto. Qed.

Lemma vec_bytes_ok b : forallb is_byteb b = true <-> bytes_ok b.
Proof.
  rewrite forallb_Forall. unfold bytes_ok. apply Forall_proper; [|done]. intros x. apply is_byteb_spec.
Qed.

Lemma head_bytes_ok major n : 0 <= major < 8 -> 0 <= n -> bytes_ok (head_bytes major n).
Proof.
  intros Hm Hn. unfold head_bytes.
  assert (Hb : forall i, 0 <= i < 32 -> is_byte (Z.lor (Z.shiftl major 5) i)).
  { intros i Hi. rewrite (lor_shiftl_add major i 5) by lia. unfold is_byte. lia. }
  repeat case_match; bool_hyps; constructor; try (apply Hb; lia); apply be_bytes_ok || constructor.
Qed.

Lemma concat_bytes_ok {A} (write : A -> bytes) l :
  Forall (fun x => bytes_ok (write x)) l -> bytes_ok (concat (map write l)).
Proof. induction 1; simpl; [constructor|]. by apply Forall_app. Qed.

Fixpoint write_value_ok (v : Value) : value_ok v = true -> bytes_ok (write_value v).
Proof.
  destruct v as [n|b|bits|t|b| |tag x|l|l]; cbn [value_ok write_value]; intros Hok; bool_hyps;
    try (apply Forall_app; split; [apply head_bytes_ok; unfold zlen; lia|]).
  - destruct (0 <=? n) eqn:E; bool_hyps; apply head_bytes_ok; lia.
  - by apply vec_bytes_ok.
  - constructor; [unfold is_byte; lia|apply be_bytes_ok].
  - by apply vec_bytes_ok.
  - destruct b; repeat constructor; unfold is_byte; lia.
  - repeat constructor; unfold is_byte; lia.
  - by apply write_value_ok.
  - match goal with H' : forallb value_ok l = true |- _ => revert H' end. clear - write_value_ok.
    induction l as [|x l IH]; simpl; intros Hl; [constructor|]. bool_hyps.
    apply Forall_app; split; [by apply write_value_ok|auto].
  - match goal with H' : forallb _ l = true |- _ => revert H' end. clear - write_value_ok.
    induction l as [|[k x] l IH]; simpl; intros Hl; [constructor|]. bool_hyps.
    repeat (apply Forall_app; split); auto; by apply write_value_ok.
Qed.

#[export] Instance concrete_record_reader_laws : RecordReaderLaws.
Proof.
  split.
  - intros limit v Hok Hpl Hn. cbn [from_reader_with_recursion_limit concrete_record_reader into_writer concrete_ciborium].
    pose proof (read_value_roundtrip limit v [] Hok Hpl Hn) as Hr. rewrite app_nil_r in Hr.
    by rewrite Hr, Hok.
  - intros limit b v rest _ Hr. cbn in Hr. by repeat case_match; simplify_eq.
  - apply write_value_ok.
Qed.

(** ** Taking entries out *)

Lemma swap_remove_perm {A} (l : list A) i x : l !! i = Some x -> l ≡ₚ x :: swap_remove l i.
Proof.
  intros Hi. unfold swap_remove.
  destruct l as [|y l _] using rev_ind; [done|]. rewrite last_snoc.
  destruct (decide (i < length l)%nat) as [Hlt|Hge].
  - rewrite insert_app_l by done. rewrite removelast_last.
    rewrite lookup_app_l in Hi by done.
    rewrite (delete_Permutation l i x Hi) at 1.
    assert (Hy : <[i:=y]> l !! i = Some y) by by rewrite list_lookup_insert_eq.
    rewrite (delete_Permutation (<[i:=y]> l) i y Hy).
    assert (base.delete i (<[i:=y]> l) = base.delete i l) as ->.
    { clear. revert i. induction l as [|z l IH]; intros [|i]; simpl; [done..|]. by rewrite IH. }
    rewrite <- app_comm_cons. constructor. by rewrite Permutation_app_comm.
  - assert (i = length l) as ->.
    { apply lookup_lt_Some in Hi. rewrite length_app in Hi. simpl in Hi. lia. }
    rewrite lookup_app_r in Hi by lia. rewrite Nat.sub_diag in Hi. simplify_eq/=.
    rewrite <- (Nat.add_0_r (length l)) at 1. rewrite insert_app_r. simpl. rewrite removelast_last.
    by rewrite Permutation_app_comm.
Qed.

Lemma position_some fs k i : position fs k = Some i -> exists v, fs !! i = Some (k, v).
Proof.
  revert i. induction fs as [|[j v] fs IH]; intros i; simpl; [done|].
  destruct (j =? k) eqn:E; bool_hyps.
  - intros [= <-]. subst. eauto.
  - destruct (position fs k) as [i'|]; [|done]. intros [= <-]. by apply IH.
Qed.

Lemma position_none fs k : position fs k = None <-> k ∉ fs.*1.
Proof.
  induction fs as [|[j v] fs IH]; simpl; [split; [set_solver|done]|].
  rewrite not_elem_of_cons. destruct (j =? k) eqn:E; bool_hyps.
  - split; [done|]. intros [? _]. congruence.
  - destruct (position fs k); simpl; [|clear -IH E; naive_solver].
    split; [done|]. intros [_ Hn]. by apply IH in Hn.
Qed.

(** What a successful take leaves. *)
Lemma fields_take_perm k fs fs' o :
  fields_take k fs = (fs', Ok o) -> fs ≡ₚ opt_entry k (fun v => v) o ++ fs'.
Proof.
  unfold fields_take. destruct (position fs k) as [i|] eqn:E.
  - apply position_some in E as [v Hv]. rewrite Hv. intros [= <- <-]. simpl.
    by apply swap_remove_perm.
  - by intros [= <- <-].
Qed.

Lemma perm_keys (fs l : Fields) : fs ≡ₚ l -> fs.*1 ≡ₚ l.*1.
Proof. by intros ->. Qed.

Lemma keys_cons_absent (fs l : Fields) k v : NoDup fs.*1 -> fs ≡ₚ (k, v) :: l -> k ∉ l.*1.
Proof.
  intros Hnd Hp. apply perm_keys in Hp. rewrite Hp in Hnd. simpl in Hnd.
  by apply NoDup_cons in Hnd as [? _].
Qed.

Lemma entry_unique (fs l : Fields) k v i w :
  NoDup fs.*1 -> fs ≡ₚ (k, v) :: l -> fs !! i = Some (k, w) -> w = v.
Proof.
  intros Hnd Hp Hi. pose proof (keys_cons_absent _ _ _ _ Hnd Hp) as Hab.
  apply list_elem_of_lookup_2 in Hi. rewrite Hp in Hi.
  apply elem_of_cons in Hi as [[= ->]|Hi]; [done|].
  exfalso. apply Hab. change k with (fst (k, w)). by apply list_elem_of_fmap_2.
Qed.

(** Taking an entry of a map whose keys differ. *)
Lemma fields_take_gives k fs o l :
  NoDup fs.*1 -> fs ≡ₚ opt_entry k (fun v => v) o ++ l -> k ∉ l.*1 ->
  exists fs', fields_take k fs = (fs', Ok o) /\ fs' ≡ₚ l.
Proof.
  intros Hnd Hp Hk. unfold fields_take. destruct o as [v|]; simpl in Hp.
  - destruct (position fs k) as [i|] eqn:E.
    + apply position_some in E as [w Hw]. rewrite Hw. simpl.
      pose proof (entry_unique _ _ _ _ _ _ Hnd Hp Hw) as ->.
      eexists. split; [done|]. apply swap_remove_perm in Hw.
      apply (Permutation_cons_inv (a := (k, v))). by etrans; [symmetry; exact Hw|].
    + apply position_none in E. destruct E. rewrite (perm_keys _ _ Hp). simpl. left.
  - assert (position fs k = None) as ->; [|by exists fs].
    apply position_none. by rewrite (perm_keys _ _ Hp).
Qed.

(** ** Getters

    A conversion accepts exactly the values [g x] with [P x]. *)

Definition converts {A} (f : Value -> result A Corruption) (g : A -> Value) (P : A -> Prop) : Prop :=
  forall v x, f v = Ok x <-> v = g x /\ P x.

(** The half of it that reading back needs. *)
Definition accepts {A} (f : Value -> result A Corruption) (g : A -> Value) (P : A -> Prop) : Prop :=
  forall x, P x -> f (g x) = Ok x.

Lemma converts_accepts {A} f g P : @converts A f g P -> accepts f g P.
Proof. intros Hf x HP. by apply Hf. Qed.

Lemma converts_bytes : converts into_bytes VBytes (fun _ => True).
Proof. intros v x. destruct v; simpl; naive_solver. Qed.

Lemma converts_text : converts into_text VText (fun _ => True).
Proof. intros v x. destruct v; simpl; naive_solver. Qed.

Lemma converts_bool : converts into_bool VBool (fun _ => True).
Proof. intros v x. destruct v; simpl; naive_solver. Qed.

Ltac conv_solve := split; [intros ?|intros [? ?]]; simplify_eq; try (split; [done|]); try done; try lia; try congruence.

Lemma converts_array n : converts (into_array n) VBytes (fun b => length b = n).
Proof.
  intros v x. destruct v; unfold into_array; simpl; try solve [conv_solve].
  destruct (Nat.eqb_spec (length b) n); conv_solve.
Qed.

Lemma converts_uint max : max < 2 ^ 64 ->
  converts (narrow_uint max) VInteger (fun n => 0 <= n <= max).
Proof.
  intros Hm v x. destruct v; unfold narrow_uint; cbn [into_integer bind]; try solve [conv_solve].
  unfold u64_try_from, u64_modulus.
  destruct ((0 <=? n) && (n <? 2 ^ 64)) eqn:E; bool_hyps; [|conv_solve..].
  destruct (n <=? max) eqn:E'; bool_hyps; conv_solve.
Qed.

Lemma converts_int max : converts (narrow_int max) VInteger (fun n => - max - 1 <= n <= max).
Proof.
  intros v x. destruct v; unfold narrow_int; cbn [into_integer bind]; try solve [conv_solve].
  destruct ((- max - 1 <=? n) && (n <=? max)) eqn:E; bool_hyps; conv_solve.
Qed.

Lemma converts_list {A} (f : Value -> result A Corruption) g :
  converts f g (fun _ => True) ->
  converts (fun v => match v with VArray items => collect f items | _ => Err CEncoding end)
           (fun l => VArray (map g l)) (fun _ => True).
Proof.
  intros Hf v x. destruct v; try naive_solver.
  revert x. induction items as [|v items IH]; intros x; simpl.
  - destruct x; naive_solver.
  - destruct (f v) as [y|e] eqn:Ev; simpl.
    + apply Hf in Ev as [-> _]. destruct (collect f items) as [ys|e]; simpl.
      * destruct (proj1 (IH ys) eq_refl) as [[= Hys] _]. split.
        -- intros [= <-]. simpl. by rewrite <- Hys.
        -- intros [Heq _]. destruct x as [|z zs]; simplify_eq/=.
           match goal with H1 : g y = g z |- _ => rename H1 into Hg end.
           assert (f (g z) = Ok z) as Hz by (by apply Hf).
           assert (f (g y) = Ok y) as Hy by (by apply Hf).
           rewrite Hg in Hy. rewrite Hy in Hz. simplify_eq.
           by assert (@Ok _ Corruption ys = Ok zs) as [= ->] by (apply IH; split; [congruence|done]).
      * split; [done|]. intros [Heq _]. destruct x as [|z zs]; simplify_eq/=.
        by assert (@Err (list A) _ e = Ok zs) by (apply IH; split; [congruence|done]).
    + split; [done|]. intros [Heq _]. destruct x as [|z zs]; simplify_eq/=.
      assert (f (g z) = Ok z) as Hz by (by apply Hf). congruence.
Qed.

Section Getters.

Context {A : Type} (f : Value -> result A Corruption) (g : A -> Value) (P : A -> Prop)
  (Hf : converts f g P) (k : Z).

Lemma required_takes fs fs' x :
  (let* item := fields_required k in lift (f item)) fs = (fs', Ok x) ->
  fs ≡ₚ (k, g x) :: fs' /\ P x.
Proof.
  intros Hr. peel Hr s v Hv. apply lift_ok in Hr as [-> Hr]. apply Hf in Hr as [-> HP].
  peel Hv s1 o Ho. apply lift_ok in Hv as [-> Hv]. destruct o as [v'|]; simplify_eq/=.
  by apply fields_take_perm in Ho.
Qed.

Lemma transposed_takes fs fs' o :
  transposed f k fs = (fs', Ok o) -> fs ≡ₚ opt_entry k g o ++ fs' /\ (forall x, o = Some x -> P x).
Proof.
  intros Hr. peel Hr s v Hv. apply lift_ok in Hr as [-> Hr].
  apply fields_take_perm in Hv. destruct v as [v|]; simplify_eq/=; [|done].
  destruct (f v) as [x|e] eqn:E; simplify_eq/=. apply Hf in E as [-> HP].
  split; [done|]. by intros ? [= <-].
Qed.

End Getters.

Section Gives.

Context {A : Type} (f : Value -> result A Corruption) (g : A -> Value) (P : A -> Prop) (k : Z).

Context (Ha : accepts f g P).

Lemma required_gives fs x l :
  NoDup fs.*1 -> fs ≡ₚ (k, g x) :: l -> P x ->
  exists fs', (let* item := fields_required k in lift (f item)) fs = (fs', Ok x) /\ fs' ≡ₚ l.
Proof.
  intros Hnd Hp HP.
  destruct (fields_take_gives k fs (Some (g x)) l Hnd Hp) as (fs' & Ht & Hl).
  { by eapply keys_cons_absent. }
  exists fs'. split; [|done]. unfold fields_required, mbind_st. rewrite Ht. cbn.
  unfold lift. f_equal. by apply Ha.
Qed.

Lemma transposed_gives fs o l :
  NoDup fs.*1 -> fs ≡ₚ opt_entry k g o ++ l -> k ∉ l.*1 -> (forall x, o = Some x -> P x) ->
  exists fs', transposed f k fs = (fs', Ok o) /\ fs' ≡ₚ l.
Proof.
  intros Hnd Hp Hk HP.
  destruct (fields_take_gives k fs (g <$> o) l Hnd) as (fs' & Ht & Hl); [by destruct o|done|].
  exists fs'. split; [|done]. unfold transposed, mbind_st. rewrite Ht. unfold lift. f_equal.
  destruct o as [x|]; [|done]. simpl.
  by rewrite Ha by auto.
Qed.

End Gives.

#[export] Hint Resolve converts_bytes converts_text converts_bool converts_array converts_int : ctap.

(** ** Parsing a map *)

Definition map_value (es : Fields) : Value := VMap (map (fun e : Z * Value => (VInteger (fst e), snd e)) es).

Definition key_ok (e : Z * Value) : Prop := 0 <= fst e < 2 ^ 64.

Lemma parse_entries_spec acc entries fs :
  NoDup acc.*1 ->
  parse_entries acc entries = Ok fs <->
  exists es, VMap entries = map_value es /\ fs = acc ++ es /\ NoDup fs.*1 /\ Forall key_ok es.
Proof.
  revert acc. induction entries as [|[k v] entries IH]; intros acc Hacc; cbn [parse_entries].
  - split.
    + intros [= <-]. exists []. rewrite app_nil_r. by repeat split.
    + intros (es & He & -> & _). destruct es; [by rewrite app_nil_r|done].
  - destruct (into_integer k) as [n|e] eqn:En; cbn [bind].
    2: { split; [done|]. intros (es & He & _). destruct es as [|[j w] es]; unfold map_value in *; simplify_eq/=. }
    destruct k; simplify_eq/=. unfold u64_try_from, u64_modulus.
    destruct ((0 <=? n) && (n <? 2 ^ 64)) eqn:E; cbn [ok_or bind].
    2: { split; [done|]. intros (es & He & _ & _ & Hk). destruct es as [|[j w] es]; unfold map_value in *; simplify_eq/=.
         apply Forall_cons in Hk as [Hj _]. unfold key_ok in Hj. simpl in Hj. bool_hyps; lia. }
    bool_hyps. destruct (existsb _ acc) eqn:Ex.
    + split; [done|]. intros (es & He & -> & Hnd & _). exfalso.
      destruct es as [|[j w] es]; unfold map_value in *; simplify_eq/=.
      apply existsb_exists in Ex as ([j' w'] & Hin & Hj). bool_hyps. simpl in Hj. subst j'.
      rewrite fmap_app in Hnd. apply NoDup_app in Hnd as (_ & Hnd & _).
      apply (Hnd j); [|left]. apply list_elem_of_In in Hin.
      change j with (fst (j, w')). by apply list_elem_of_fmap_2.
    + assert (Hnin : n ∉ acc.*1).
      { intros Hin. apply list_elem_of_fmap in Hin as ([j w] & -> & Hin).
        apply existsb_false_Forall in Ex. rewrite Forall_forall in Ex. apply Ex in Hin.
        simpl in Hin. bool_hyps. done. }
      rewrite IH.
      2: { rewrite fmap_app. apply NoDup_app. repeat split; [done| |apply NoDup_singleton].
           intros x Hx Hx'. apply list_elem_of_singleton in Hx'. simpl in Hx'. by subst. }
      split.
      * intros (es & He & -> & Hnd & Hk). exists ((n, v) :: es).
        rewrite <- app_assoc in Hnd |- *. unfold map_value in *. simplify_eq/=.
        repeat split; try done. constructor; [by unfold key_ok|done].
      * intros (es & He & -> & Hnd & Hk). destruct es as [|[j w] es]; unfold map_value in *; simplify_eq/=.
        exists es. rewrite <- app_assoc. apply Forall_cons in Hk as [_ Hk]. done.
Qed.

Section Parse.

Context `{Crypto} `{Ciborium} `{RecordReader}.

Lemma fields_parse_spec b fs :
  fields_parse b = Ok fs <->
  from_reader_with_recursion_limit MAX_RECORD_NESTING b = Some (map_value fs, []) /\
  NoDup fs.*1 /\ Forall key_ok fs.
Proof.
  unfold fields_parse. destruct (from_reader_with_recursion_limit _ b) as [[v rest]|]; cbn [ok_or bind].
  2: { split; [done|naive_solver]. }
  destruct rest as [|x rest]; cbn [length Nat.eqb negb].
  2: { split; [done|naive_solver]. }
  destruct v as [ | | | | | | | |entries]; try (split; [done|intros [[=] _]]).
  rewrite parse_entries_spec by constructor. simpl. split.
  - intros (es & -> & -> & ?). done.
  - intros ([= ->] & ? & ?). by exists fs.
Qed.

(** A record read to its end, in terms of what the getters take. *)
Lemma with_fields_ok {A} b (m : M Fields A Corruption) x :
  with_fields b m = Ok x <->
  exists fs fs', from_reader_with_recursion_limit MAX_RECORD_NESTING b = Some (map_value fs, []) /\
    NoDup fs.*1 /\ Forall key_ok fs /\ m fs = (fs', Ok x).
Proof.
  unfold with_fields. destruct (fields_parse b) as [fs|e] eqn:E; cbn [bind].
  - pose proof E as E'. apply fields_parse_spec in E as (Hr & Hnd & Hk). split.
    + intros Hm. exists fs, (fst (m fs)). repeat split; try done. by apply run_result.
    + intros (fs2 & fs' & Hr2 & Hnd2 & Hk2 & Hm).
      assert (fields_parse b = Ok fs2) by (by apply fields_parse_spec).
      assert (fs2 = fs) as -> by congruence. by rewrite Hm.
  - split; [done|]. intros (fs2 & fs' & Hr2 & Hnd2 & Hk2 & Hm).
    assert (fields_parse b = Ok fs2) by (by apply fields_parse_spec). congruence.
Qed.

Lemma finish_ok fs fs' : fields_finish fs = (fs', Ok tt) <-> fs = [] /\ fs' = [].
Proof. unfold fields_finish. destruct fs; naive_solver. Qed.

End Parse.

(** ** Credential records *)

(** The types of a credential record's fields. *)
Definition credential_shape (r : CredentialRecord) : Prop :=
  length (private_key_bytes (cr_private_key r))
    = match private_key_kind (cr_private_key r) with KRsaPrimes => 256%nat | _ => 32%nat end /\
  length (cr_cred_random_with_uv r) = 32%nat /\ length (cr_cred_random_without_uv r) = 32%nat /\
  0 <= cr_cred_protect r <= u8_max /\ 0 <= cr_sign_count r <= u32_limit /\
  0 <= cr_created_at r <= u64_max /\
  (forall k, cr_large_blob_key r = Some k -> length k = 32%nat).

(** The entries in the order [decode_credential] takes them; [tpp] is the
    entry 16, which may also say [false]. *)
Definition taken_entries (r : CredentialRecord) (tpp : option bool) : list (Z * Value) :=
  (6, VInteger (identifier (cr_alg r)))
  :: (7, VInteger (key_type_of (private_key_kind (cr_private_key r))))
  :: (8, VBytes (private_key_bytes (cr_private_key r)))
  :: (1, VBytes (cr_credential_id r)) :: (2, VText (cr_rp_id r)) :: (3, VBytes (cr_user_id r))
  :: opt_entry 4 VText (cr_user_name r) ++ opt_entry 5 VText (cr_user_display_name r)
  ++ (9, VBytes (cr_cred_random_with_uv r)) :: (10, VBytes (cr_cred_random_without_uv r))
  :: (11, VInteger (cr_cred_protect r)) :: (12, VInteger (cr_sign_count r))
  :: (13, VInteger (cr_created_at r))
  :: opt_entry 14 VBytes (cr_cred_blob r) ++ opt_entry 15 VBytes (cr_large_blob_key r)
  ++ opt_entry 16 VBool tpp ++ [].

Lemma kind_of_key_type_spec n k : kind_of_key_type n = Ok k <-> n = key_type_of k.
Proof.
  unfold kind_of_key_type, KEY_TYPE_P256_SCALAR, KEY_TYPE_SEED, KEY_TYPE_RSA_PRIMES.
  destruct (n =? 1) eqn:E1; [|destruct (n =? 2) eqn:E2; [|destruct (n =? 3) eqn:E3]]; bool_hyps; subst;
    destruct k; cbn; unfold KEY_TYPE_P256_SCALAR, KEY_TYPE_SEED, KEY_TYPE_RSA_PRIMES; naive_solver.
Qed.

Lemma private_key_from_bytes_spec kind b k :
  private_key_from_bytes kind b = Ok k <->
  private_key_kind k = kind /\ private_key_bytes k = b /\
  length b = match kind with KRsaPrimes => 256%nat | _ => 32%nat end.
Proof.
  unfold private_key_from_bytes. destruct kind; case_match eqn:E;
    (apply Nat.eqb_eq in E || apply Nat.eqb_neq in E); destruct k; simpl; naive_solver.
Qed.

(** Peel a getter off: what it took and the shape of it. *)
Ltac take_req H Hf :=
  let s := fresh "fs" in let x := fresh "x" in let Hm := fresh "Hm" in
  apply mbind_ok in H as (s & x & Hm & H); apply (required_takes _ _ _ Hf) in Hm as [? ?].
Ltac take_opt H Hf :=
  let s := fresh "fs" in let x := fresh "x" in let Hm := fresh "Hm" in
  apply mbind_ok in H as (s & x & Hm & H); apply (transposed_takes _ _ _ Hf) in Hm as [? ?].

Lemma read_credential_takes fs fs' r :
  read_credential_fields fs = (fs', Ok r) ->
  credential_shape r /\
  exists tpp, cr_third_party_payment r = default false tpp /\ fs ≡ₚ taken_entries r tpp.
Proof.
  unfold read_credential_fields. intros Hr.
  take_req Hr (converts_int i32_limit).
  peel_lift Hr alg Ha. take_req Hr (converts_uint u64_max ltac:(reflexivity)).
  take_req Hr converts_bytes. peel_lift Hr kind Hk. peel_lift Hr pk Hpk.
  take_req Hr converts_bytes. take_req Hr converts_text.
  take_req Hr converts_bytes. take_opt Hr converts_text.
  take_opt Hr converts_text. take_req Hr (converts_array 32).
  take_req Hr (converts_array 32).
  take_req Hr (converts_uint u8_max ltac:(reflexivity)).
  take_req Hr (converts_uint u32_limit ltac:(reflexivity)).
  take_req Hr (converts_uint u64_max ltac:(reflexivity)).
  take_opt Hr converts_bytes.
  take_opt Hr (converts_array 32).
  take_opt Hr converts_bool.
  peel Hr s17 u Hend. destruct u. apply finish_ok in Hend as [-> ->].
  injection Hr as <- <-.
  destruct (alg_try_from _) as [a|] eqn:Ea; simplify_eq/=. apply alg_try_from_ok in Ea.
  apply kind_of_key_type_spec in Hk.
  destruct (private_key_from_bytes _ _) as [p|] eqn:Ep; simplify_eq/=.
  apply private_key_from_bytes_spec in Ep as (<- & Hb & Hl). split.
  - unfold credential_shape. simpl. rewrite Hb. repeat split; try done; try lia; auto.
  - match goal with Hp : _ ≡ₚ opt_entry 16 VBool ?o ++ _ |- _ => exists o end.
    split; [done|]. unfold taken_entries. simpl. rewrite Hb.
    repeat (apply Permutation_skip || apply Permutation_app_head || done ||
            match goal with Hp : ?x ≡ₚ _ |- ?x ≡ₚ _ => rewrite Hp; clear Hp end).
Qed.

(** What a getter gives, followed by the rest of the reads. *)
Lemma bind_gives {A B} (m : M Fields A Corruption) (k : A -> M Fields B Corruption) fs x l y :
  (exists fs', m fs = (fs', Ok x) /\ fs' ≡ₚ l) ->
  (forall fs', fs' ≡ₚ l -> exists fs'', k x fs' = (fs'', Ok y)) ->
  exists fs'', mbind_st m k fs = (fs'', Ok y).
Proof. intros (fs' & Hm & Hl) Hk. unfold mbind_st. rewrite Hm. by apply Hk. Qed.

Lemma keys_tail (l l' : Fields) : NoDup (l ++ l').*1 -> NoDup l'.*1.
Proof. rewrite fmap_app. intros Hnd. by apply NoDup_app in Hnd as (_ & _ & ?). Qed.

Lemma taken_keys r tpp : NoDup (taken_entries r tpp).*1.
Proof.
  unfold taken_entries.
  destruct (cr_user_name r), (cr_user_display_name r), (cr_cred_blob r), (cr_large_blob_key r), tpp;
    simpl; apply (bool_decide_unpack _); vm_compute; exact I.
Qed.

Ltac absent :=
  unfold opt_entry;
  repeat match goal with |- context [match ?o with Some _ => _ | None => _ end] => destruct o end;
  simpl; apply (bool_decide_unpack _); vm_compute; exact I.

(** One step of reading entries whose keys are known to differ. *)
Lemma give_req {A B} f g P (Hf : @accepts A f g P) k fs x l (kont : A -> M Fields B Corruption) y :
  fs ≡ₚ (k, g x) :: l -> NoDup ((k, g x) :: l).*1 -> P x ->
  (forall fs', fs' ≡ₚ l -> NoDup l.*1 -> exists fs'', kont x fs' = (fs'', Ok y)) ->
  exists fs'', mbind_st (let* item := fields_required k in lift (f item)) kont fs = (fs'', Ok y).
Proof.
  intros Hp Hnd HP Hk. eapply bind_gives.
  - eapply (required_gives f g P k Hf fs x l); [by rewrite (perm_keys _ _ Hp)|done|done].
  - intros fs' Hl. apply Hk; [done|]. by apply NoDup_cons in Hnd as [_ ?].
Qed.

Lemma give_opt {A B} f g P (Hf : @accepts A f g P) k fs o l (kont : option A -> M Fields B Corruption) y :
  fs ≡ₚ opt_entry k g o ++ l -> NoDup (opt_entry k g o ++ l).*1 -> k ∉ l.*1 ->
  (forall x, o = Some x -> P x) ->
  (forall fs', fs' ≡ₚ l -> NoDup l.*1 -> exists fs'', kont o fs' = (fs'', Ok y)) ->
  exists fs'', mbind_st (transposed f k) kont fs = (fs'', Ok y).
Proof.
  intros Hp Hnd Hab HP Hk. eapply bind_gives.
  - eapply (transposed_gives f g P k Hf fs o l); [by rewrite (perm_keys _ _ Hp)|done|done|done].
  - intros fs' Hl. apply Hk; [done|]. by eapply keys_tail.
Qed.

Lemma give_present {A B} f g P (Hf : @accepts A f g P) k fs x l (kont : option A -> M Fields B Corruption) y :
  fs ≡ₚ (k, g x) :: l -> NoDup ((k, g x) :: l).*1 -> P x ->
  (forall fs', fs' ≡ₚ l -> NoDup l.*1 -> exists fs'', kont (Some x) fs' = (fs'', Ok y)) ->
  exists fs'', mbind_st (transposed f k) kont fs = (fs'', Ok y).
Proof.
  intros Hp Hnd HP Hk. eapply (give_opt f g P Hf k fs (Some x) l); try done.
  - by apply NoDup_cons in Hnd as [? _].
  - by intros ? [= <-].
Qed.

Lemma give_lift {S A B E} (r : result A E) x (kont : A -> M S B E) s (y : B) :
  r = Ok x -> (exists s', kont x s = (s', Ok y)) -> exists s', mbind_st (lift r) kont s = (s', Ok y).
Proof. by intros ->. Qed.

Ltac give_req Hf :=
  let H1 := fresh in let H2 := fresh in
  eapply (give_req _ _ _ (converts_accepts _ _ _ Hf)); [eassumption|eassumption|try done; auto|intros ? H1 H2].
Ltac give_opt Hf :=
  let H1 := fresh in let H2 := fresh in
  eapply (give_opt _ _ _ (converts_accepts _ _ _ Hf)); [eassumption|eassumption|absent|try done; auto|intros ? H1 H2].

Ltac give_present Hf :=
  let H1 := fresh in let H2 := fresh in
  eapply (give_present _ _ _ (converts_accepts _ _ _ Hf)); [eassumption|eassumption|try done; auto|intros ? H1 H2].

Lemma read_credential_gives fs r tpp :
  credential_shape r -> cr_third_party_payment r = default false tpp -> fs ≡ₚ taken_entries r tpp ->
  exists fs', read_credential_fields fs = (fs', Ok r).
Proof.
  intros (Hk & Hw & Hwo & Hcp & Hsc & Hca & Hlb) Ht Hp. pose proof (taken_keys r tpp) as Hn.
  unfold taken_entries in Hp, Hn. unfold read_credential_fields.
  give_req (converts_int i32_limit). { destruct (cr_alg r); vm_compute; split; congruence. }
  eapply give_lift; [by rewrite alg_try_from_identifier|].
  give_req (converts_uint u64_max ltac:(reflexivity)).
  { destruct (private_key_kind _); vm_compute; split; congruence. }
  give_req converts_bytes. 
  eapply give_lift; [by apply kind_of_key_type_spec|].
  eapply give_lift.
  { assert (private_key_from_bytes (private_key_kind (cr_private_key r))
      (private_key_bytes (cr_private_key r)) = Ok (cr_private_key r)) as -> by
      (by apply private_key_from_bytes_spec). done. }
  give_req converts_bytes. give_req converts_text. give_req converts_bytes.
  give_opt converts_text. give_opt converts_text.
  give_req (converts_array 32). give_req (converts_array 32).
  give_req (converts_uint u8_max ltac:(reflexivity)).
  give_req (converts_uint u32_limit ltac:(reflexivity)).
  give_req (converts_uint u64_max ltac:(reflexivity)).
  give_opt converts_bytes. give_opt (converts_array 32). give_opt converts_bool.
  match goal with Hp' : ?fs0 ≡ₚ [] |- context [?fs0] => apply Permutation_nil_r in Hp' as -> end.
  exists []. unfold mbind_st. cbn. rewrite <- Ht. by destruct r.
Qed.

Section Records.

Context `{Crypto} `{Ciborium} `{RecordReader}.

(** Entry 16 as the encoder writes it. *)
Definition payment_entry (r : CredentialRecord) : option bool :=
  if cr_third_party_payment r then Some true else None.

Lemma credential_entries_taken r :
  credential_entries r (cr_created_at r) ≡ₚ taken_entries r (payment_entry r).
Proof.
  unfold credential_entries, taken_entries, payment_entry.
  destruct (cr_third_party_payment r), (cr_user_name r), (cr_user_display_name r), (cr_cred_blob r),
    (cr_large_blob_key r); simpl; solve_Permutation.
Qed.

Lemma decode_credential_spec b r :
  decode_credential b = Ok r <->
  exists es tpp,
    from_reader_with_recursion_limit MAX_RECORD_NESTING b = Some (map_value es, []) /\
    es ≡ₚ taken_entries r tpp /\ cr_third_party_payment r = default false tpp /\
    credential_shape r /\ validate_decoded_credential r = Ok tt.
Proof.
  unfold decode_credential. split.
  - intros Hd. destruct (with_fields b _) as [r'|] eqn:E; simplify_eq/=.
    destruct (validate_decoded_credential r') as [[]|] eqn:Ev; simplify_eq/=.
    apply with_fields_ok in E as (fs & fs' & Hr & _ & _ & Hm).
    apply read_credential_takes in Hm as (Hs & tpp & Ht & Hp). by exists fs, tpp.
  - intros (es & tpp & Hr & Hp & Ht & Hs & Hv).
    destruct (read_credential_gives es r tpp Hs Ht Hp) as [fs' Hm].
    assert (with_fields b read_credential_fields = Ok r) as ->; [|simpl; by rewrite Hv].
    apply with_fields_ok. exists es, fs'. repeat split; try done.
    + rewrite (perm_keys _ _ Hp). apply taken_keys.
    + rewrite Hp. unfold taken_entries.
      destruct (cr_user_name r), (cr_user_display_name r), (cr_cred_blob r), (cr_large_blob_key r), tpp;
        repeat constructor; unfold key_ok; simpl; lia.
Qed.

Context `{!RecordReaderLaws}.

(** Entries that CBOR can carry: two levels below the record's own map. *)
Definition entries_ok (es : Fields) : Prop :=
  Forall (fun e => key_ok e /\ value_ok (snd e) = true /\ value_plain (snd e) = true /\
                   (value_nesting (snd e) <= 1)%nat) es /\ zlen es < 2 ^ 64.

Lemma read_back es b : entries_ok es -> encode_map es = Ok b ->
  from_reader_with_recursion_limit MAX_RECORD_NESTING b = Some (map_value es, []).
Proof.
  intros [Hes Hlen] [= <-]. apply reader_roundtrip; fold (map_value es).
  - unfold map_value. cbn [value_ok]. apply andb_true_iff. split.
    + apply forallb_Forall, Forall_map. eapply Forall_impl; [exact Hes|].
      intros e (Hk & Hv & _). unfold key_ok in Hk. cbn. rewrite Hv, andb_true_r.
      apply andb_true_iff. split; [apply Z.leb_le|apply Z.ltb_lt]; lia.
    + apply Z.ltb_lt. unfold zlen in *. by rewrite length_map.
  - unfold map_value. cbn [value_plain]. apply forallb_Forall, Forall_map.
    eapply Forall_impl; [exact Hes|]. intros e (_ & _ & Hv & _). cbn. done.
  - unfold map_value, MAX_RECORD_NESTING. cbn [value_nesting]. apply le_n_S.
    clear Hlen. induction Hes as [|e es (_ & _ & _ & Hv) _ IH]; simpl; [lia|].
    apply Nat.max_lub; [lia|done].
Qed.

(** Every field of the record holds a value of its type. *)
Definition credential_typed (r : CredentialRecord) : Prop :=
  credential_shape r /\ entries_ok (credential_entries r (cr_created_at r)).

(** A credential record reads back, with the creation order it was written
    with. *)
Lemma credential_roundtrip r created_at b :
  credential_typed (set_created_at r created_at) -> validate_decoded_credential r = Ok tt ->
  encode_credential r created_at = Ok b -> decode_credential b = Ok (set_created_at r created_at).
Proof.
  intros [Hs He] Hv Hb. apply decode_credential_spec.
  exists (credential_entries r created_at), (payment_entry r).
  split; [by apply read_back|]. split; [apply (credential_entries_taken (set_created_at r created_at))|].
  split; [|done]. unfold payment_entry. simpl. by destruct (cr_third_party_payment r).
Qed.

Lemma taken_length r tpp : zlen (taken_entries r tpp) < 2 ^ 64.
Proof.
  unfold taken_entries.
  destruct (cr_user_name r), (cr_user_display_name r), (cr_cred_blob r), (cr_large_blob_key r), tpp;
    reflexivity.
Qed.

Lemma map_value_ok es : value_ok (map_value es) = true -> Forall (fun e => value_ok (snd e) = true) es.
Proof.
  unfold map_value. cbn [value_ok]. intros Hv. apply andb_true_iff in Hv as [Hv _].
  apply forallb_Forall, Forall_map in Hv. eapply Forall_impl; [exact Hv|].
  intros e He. cbn in He. by apply andb_true_iff in He as [_ ?].
Qed.

(** Whatever bytes decode as a credential record, the record is well typed. *)
Lemma decoded_typed b r : bytes_ok b -> decode_credential b = Ok r -> credential_typed r.
Proof.
  intros Hb Hd. apply decode_credential_spec in Hd as (es & tpp & Hr & Hp & Ht & Hs & _).
  apply reader_typed, map_value_ok in Hr; [|done]. rewrite Hp in Hr. split; [done|]. split.
  2: { unfold zlen. rewrite (Permutation_length (credential_entries_taken r)). apply taken_length. }
  rewrite credential_entries_taken. unfold payment_entry. rewrite Ht.
  unfold taken_entries in *. destruct (cr_user_name r), (cr_user_display_name r), (cr_cred_blob r),
    (cr_large_blob_key r), tpp as [[]|]; simpl in *;
    repeat (apply Forall_cons in Hr as [? Hr]);
    repeat (apply Forall_cons; split; [split; [unfold key_ok; simpl; lia|by repeat split; try (simpl; lia)]|]);
    constructor.
Qed.

(** ** The other records *)

(** The types of a persistent token's fields. *)
Definition token_typed (t : PersistentTokenRecord) : Prop :=
  length (pt_secret t) = 32%nat /\ value_ok (VBytes (pt_secret t)) = true.

Lemma accepts_token : accepts into_persistent_token token_value token_typed.
Proof.
  intros [secret granted] [Hl Hv]. unfold into_persistent_token. cbn in Hl, Hv.
  apply with_fields_ok. exists [(1, VBytes secret); (2, VBool granted)], [].
  split.
  - apply (read_back [(1, VBytes secret); (2, VBool granted)]); [|reflexivity].
    split; [|reflexivity]. repeat constructor; unfold key_ok; simpl; try lia; done.
  - split; [apply (bool_decide_unpack _); vm_compute; exact I|].
    split; [repeat constructor; unfold key_ok; simpl; lia|].
    unfold mbind_st, fields_array, fields_required, fields_take, mbind_st. cbn.
    unfold lift, into_array. cbn. by rewrite (proj2 (Nat.eqb_eq _ _) Hl).
Qed.

Definition pin_state_typed (s : PinStateRecord) : Prop :=
  (forall h, psr_pin_hash s = Some h -> length h = 16%nat) /\
  0 <= psr_pin_retries s <= u8_max /\ 0 <= psr_consecutive_failures s <= u8_max /\
  Forall token_typed (tokens_list (psr_persistent_tokens s)) /\
  entries_ok (pin_state_entries s).

Lemma pin_state_keys s : NoDup (pin_state_entries s).*1.
Proof.
  unfold pin_state_entries. destruct (psr_pin_hash s), (psr_persistent_tokens s) as [[] []];
    simpl; apply (bool_decide_unpack _); vm_compute; exact I.
Qed.

Lemma read_pin_state_gives s fs :
  pin_state_typed s -> validate_pin_state s = Ok tt -> fs ≡ₚ pin_state_entries s ->
  exists fs', read_pin_state_fields fs = (fs', Ok s).
Proof.
  intros (Hh & Hr & Hc & Htk & _) Hv Hp. pose proof (pin_state_keys s) as Hn.
  apply validate_pin_state_wf in Hv as (Hm & Hcp & _).
  unfold DEFAULT_MIN_PIN_LENGTH, MAX_PIN_LENGTH, u8_max in *.
  destruct s as [hash retries failures blocked minlen rpids force cplen uv complexity [one two]].
  simpl in *. unfold pin_state_entries in Hp, Hn. simpl in Hp, Hn.
  apply Forall_app in Htk as [Hone Htwo].
  rewrite <- (app_nil_r (opt_entry 12 _ _)) in Hp, Hn.
  unfold read_pin_state_fields.
  give_opt (converts_array 16).
  give_req (converts_uint 255 ltac:(reflexivity)). give_req (converts_uint 255 ltac:(reflexivity)).
  give_req converts_bool.
  give_present (converts_uint 255 ltac:(reflexivity)); [lia|].
  give_present (converts_list _ _ converts_text). give_present converts_bool.
  give_present (converts_uint 255 ltac:(reflexivity)); [lia|].
  give_present converts_bool. give_present converts_bool.
  eapply (give_opt _ _ _ accepts_token 11 _ one);
    [eassumption|eassumption|absent|intros ? ->; by inversion Hone|intros fs11 Hp11 Hn11].
  eapply (give_opt _ _ _ accepts_token 12 _ two);
    [eassumption|eassumption|absent|intros ? ->; by inversion Htwo|intros fs12 Hp12 Hn12].
  apply Permutation_nil_r in Hp12 as ->. by exists [].
Qed.

Lemma pin_state_roundtrip s b :
  pin_state_typed s -> encode_pin_state s = Ok b -> decode_pin_state b = Ok s.
Proof.
  intros Ht Hb. unfold encode_pin_state in Hb.
  destruct (validate_pin_state s) as [[]|] eqn:Hv; simplify_eq/=.
  destruct (read_pin_state_gives s (pin_state_entries s) Ht Hv) as [fs' Hm]; [done|].
  unfold decode_pin_state.
  assert (with_fields b read_pin_state_fields = Ok s) as ->; [|simpl; by rewrite Hv].
  destruct Ht as (_ & _ & _ & _ & He).
  apply with_fields_ok. exists (pin_state_entries s), fs'.
  split; [by apply read_back|]. split; [apply pin_state_keys|]. split; [|done].
  eapply Forall_impl; [apply He|]. by intros e [? _].
Qed.

(** A record of one or two entries reads back when its getters accept them. *)
Lemma small_record_reads {A} es b (m : M Fields A Corruption) x fs' :
  entries_ok es -> NoDup es.*1 -> encode_map es = Ok b -> m es = (fs', Ok x) -> with_fields b m = Ok x.
Proof.
  intros He Hn Hb Hm. apply with_fields_ok. exists es, fs'.
  split; [by apply read_back|]. split; [done|]. split; [|done].
  eapply Forall_impl; [apply He|]. by intros e [? _].
Qed.

Lemma signature_counter_roundtrip v b :
  0 <= v <= u32_limit -> encode_signature_counter v = Ok b -> decode_signature_counter b = Ok v.
Proof.
  intros Hv Hb. unfold u32_limit in Hv.
  eapply (small_record_reads [(1, VInteger v)] b _ v []).
  - split; [|reflexivity]. repeat constructor; unfold key_ok; simpl; try lia.
  - apply NoDup_singleton.
  - exact Hb.
  - assert (Hu : narrow_uint u32_limit (VInteger v) = Ok v)
      by (apply converts_uint; [reflexivity|]; by unfold u32_limit).
    unfold fields_uint, fields_required, fields_take, mbind_st. cbn -[narrow_uint].
    unfold lift. by rewrite Hu.
Qed.

Lemma large_blob_roundtrip array b :
  bytes_ok array -> encode_large_blob_array array = Ok b -> decode_large_blob_array b = Ok array.
Proof.
  intros Ha Hb. unfold encode_large_blob_array in Hb.
  destruct (validate_large_blob_array array) as [[]|] eqn:Hv; [|done]. cbn [bind] in Hb.
  unfold decode_large_blob_array.
  assert (with_fields b (let* array := fields_bytes 1 in fields_finish;;* ret array) = Ok array) as ->;
    [|simpl; by rewrite Hv].
  apply validate_large_blob_array_wf in Hv as [Hl _]. unfold MAX_SERIALIZED_LARGE_BLOB_ARRAY in Hl.
  eapply (small_record_reads [(1, VBytes array)] b _ array []); [| |exact Hb|reflexivity].
  - split; [|reflexivity]. repeat constructor; unfold key_ok; simpl; try lia.
    apply andb_true_iff. split; [by apply vec_bytes_ok|apply Z.ltb_lt; lia].
  - apply NoDup_singleton.
Qed.

Definition attestation_typed (r : AttestationRecord) : Prop :=
  length (at_private_key r) = 32%nat /\ bytes_ok (at_private_key r) /\
  Forall (fun c => value_ok (VBytes c) = true) (at_certificate_chain r) /\
  zlen (at_certificate_chain r) < 2 ^ 64.

Lemma attestation_roundtrip r b :
  attestation_typed r -> validate_attestation r = Ok tt ->
  encode_attestation r = Ok b -> decode_attestation b = Ok r.
Proof.
  intros (Hl & Hk & Hc & Hn) Hv Hb. unfold decode_attestation.
  match goal with |- context [with_fields b ?m] => assert (with_fields b m = Ok r) as ->; [|simpl; by rewrite Hv] end.
  eapply (small_record_reads _ b _ r []); [| |exact Hb|].
  - split; [|reflexivity]. constructor; [|constructor; [|constructor]]; unfold key_ok; simpl.
    + repeat split; try lia. apply andb_true_iff. split; [by apply vec_bytes_ok|].
      apply Z.ltb_lt. unfold zlen. rewrite Hl. lia.
    + repeat split; try lia.
      * apply andb_true_iff. split; [by apply forallb_Forall, Forall_map|].
        apply Z.ltb_lt. unfold zlen in *. by rewrite length_map.
      * apply forallb_Forall, Forall_map. by apply Forall_true.
      * clear. induction (at_certificate_chain r); simpl; lia.
  - apply (bool_decide_unpack _); vm_compute; exact I.
  - assert (Hu : into_array 32 (VBytes (at_private_key r)) = Ok (at_private_key r)) by by apply converts_array.
    assert (Hs : into_bytes_array (VArray (map VBytes (at_certificate_chain r))) = Ok (at_certificate_chain r))
      by (apply (converts_accepts _ _ _ (converts_list _ _ converts_bytes)); done).
    unfold fields_array, fields_bytes_array, fields_required, fields_take, mbind_st.
    cbn -[into_array into_bytes_array]. unfold lift. rewrite Hu, Hs. by destruct r.
Qed.

End Records.
