(* ===== verification/FileSystem.v ===== *)
(** * Files with the store's durability guarantees ([store/fsio.rs])

    A file system is a tree of files and directories below the state
    directory.  Every system call consults [w_faults], what the environment
    does to the calls from here on: a call that faults fails and has no
    effect, except that a failed write may leave part of its contents.  A
    process that dies is one whose every later call fails, so a statement about
    all fault sequences is one about every point it can stop at.  Hard links
    are copies (a linked file is never written in place) and there are no
    symbolic links; the checkpoints of the source are inert outside its tests.
    What a power failure undoes of unflushed directories is not modelled. *)

From stdpp Require Import gmap.
From S2P Require Import Prelude Records.

(** A path below the state directory, which is [[]]. *)
Abbreviation Path := (list (list Z)) (only parsing).

Inductive Node : Type :=
| File (mode : Z) (contents : list Z)
| Directory (mode : Z).

Abbreviation Tree := (gmap (list (list Z)) Node) (only parsing).

(** The kinds of I/O error the code tells apart. *)
Inductive ErrorKind : Type :=
| NotFound | AlreadyExists | NotADirectory | InvalidInput | KUnsupported | OtherKind.

#[export] Instance ErrorKind_eq_dec : EqDecision ErrorKind.
Proof. solve_decision. Defined.

(** [StoreError::Io] with its kind, or [StoreError::Random]. *)
Inductive FsError : Type :=
| FIo (kind : ErrorKind)
| FRandom.

(** Errors the environment injects: never a false [NotFound] or
    [AlreadyExists].  [written] is how much of a failed write took place. *)
Inductive FaultKind : Type := FaultInvalidInput | FaultUnsupported | FaultOther.

Inductive Outcome : Type :=
| Succeeds
| Faults (kind : FaultKind) (written : nat).

Definition fault_error (k : FaultKind) : ErrorKind :=
  match k with
  | FaultInvalidInput => InvalidInput
  | FaultUnsupported => KUnsupported
  | FaultOther => OtherKind
  end.

(** A draw of the operating system's generator.  The code relies on one never
    being all zeros: "A generated key is never all zeros". *)
Record Draw : Type := {
  draw : nat -> Z;
  draw_nonzero : forallb (fun b => b =? 0) (fill_bytes draw 32) = false
}.

(** [w_os_random] is what the generator returns from here on. *)
Record World : Type := {
  w_tree : gmap (list (list Z)) Node;
  w_faults : list Outcome;
  w_os_random : list (option Draw)
}.

Definition w_with_tree (w : World) (t : Tree) : World :=
  {| w_tree := t; w_faults := w_faults w; w_os_random := w_os_random w |}.

(** ** System calls *)

(** One call: [act] when it works, [torn] when it faults. *)
Definition sys {A : Type} (torn : nat -> Tree -> Tree) (act : Tree -> Tree * result A ErrorKind)
    : M World A FsError := fun w =>
  let w' := {| w_tree := w_tree w; w_faults := tail (w_faults w); w_os_random := w_os_random w |} in
  match w_faults w with
  | Faults k n :: _ => (w_with_tree w' (torn n (w_tree w)), Err (FIo (fault_error k)))
  | _ => let (t, r) := act (w_tree w) in (w_with_tree w' t, map_err FIo r)
  end.

(** A call that leaves the tree as it is, and one that changes it only by
    succeeding. *)
Definition sys_read {A : Type} (act : Tree -> result A ErrorKind) : M World A FsError :=
  sys (fun _ t => t) (fun t => (t, act t)).

Definition sys_write (act : Tree -> result Tree ErrorKind) : M World unit FsError :=
  sys (fun _ t => t) (fun t => match act t with Ok t' => (t', Ok tt) | Err e => (t, Err e) end).

(** Why nothing is found at [p]: an ancestor is a file, or it does not exist. *)
Fixpoint prefixes (p : Path) : list Path :=
  match p with
  | [] => []
  | x :: p' => [] :: map (cons x) (prefixes p')
  end.

Definition is_file (n : option Node) : bool :=
  match n with Some (File _ _) => true | _ => false end.

Definition is_dir (n : option Node) : bool :=
  match n with Some (Directory _) => true | _ => false end.

Definition missing (t : Tree) (p : Path) : ErrorKind :=
  if existsb (fun q => is_file (t !! q)) (prefixes p) then NotADirectory else NotFound.

(** [symlink_metadata] and [metadata]. *)
Definition sys_metadata (p : Path) : M World Node FsError :=
  sys_read (fun t => match t !! p with Some n => Ok n | None => Err (missing t p) end).

(** [File::open] for reading, and reading to the end. *)
Definition sys_open (p : Path) : M World unit FsError :=
  sys_read (fun t => match t !! p with Some _ => Ok tt | None => Err (missing t p) end).

(** [take(limit + 1)] of the contents. *)
Definition read_limited (limit : Z) (c : bytes) : bytes :=
  if zlen c <=? limit + 1 then c else take (Z.to_nat (limit + 1)) c.

Definition sys_read_to_end (p : Path) (limit : Z) : M World bytes FsError :=
  sys_read (fun t => match t !! p with
                     | Some (File _ c) => Ok (read_limited limit c)
                     | Some (Directory _) => Err OtherKind
                     | None => Err (missing t p)
                     end).

(** A call on an open handle or a directory entry: nothing in the tree
    decides it. *)
Definition sys_touch : M World unit FsError := sys_read (fun _ => Ok tt).

(** Where a new entry can be made. *)
Definition parent (p : Path) : Path := removelast p.

Definition make_entry (p : Path) (n : Node) (t : Tree) : result Tree ErrorKind :=
  match t !! p with
  | Some _ => Err AlreadyExists
  | None => if is_dir (t !! parent p) then Ok (<[p := n]> t) else Err (missing t p)
  end.

(** [create_new(true)]. *)
Definition sys_create_new (p : Path) (mode : Z) : M World unit FsError :=
  sys_write (make_entry p (File mode [])).

Definition sys_mkdir (p : Path) (mode : Z) : M World unit FsError :=
  sys_write (make_entry p (Directory mode)).

Definition write_contents (p : Path) (contents : bytes) (t : Tree) : Tree :=
  match t !! p with Some (File m _) => <[p := File m contents]> t | _ => t end.

(** [write_all] to a file just created. *)
Definition sys_write_all (p : Path) (contents : bytes) : M World unit FsError :=
  sys (fun n t => write_contents p (take n contents) t) (fun t => (write_contents p contents t, Ok tt)).

Definition sys_set_mode (p : Path) (mode : Z) : M World unit FsError :=
  sys_write (fun t => match t !! p with
                      | Some (File _ c) => Ok (<[p := File mode c]> t)
                      | Some (Directory _) => Ok (<[p := Directory mode]> t)
                      | None => Err (missing t p)
                      end).

(** The rest of [p] below [dir]. *)
Fixpoint strip (dir p : Path) : option Path :=
  match dir, p with
  | [], _ => Some p
  | x :: dir', y :: p' => if bool_decide (x = y) then strip dir' p' else None
  | _ :: _, [] => None
  end.

(** The names in a directory, in no particular order. *)
Definition children (dir : Path) (t : Tree) : list bytes :=
  omap (fun e : Path * Node => match strip dir (fst e) with Some [name] => Some name | _ => None end)
    (map_to_list t).

Definition sys_read_dir (dir : Path) : M World (list bytes) FsError :=
  sys_read (fun t => match t !! dir with
                     | Some (Directory _) => Ok (children dir t)
                     | Some (File _ _) => Err NotADirectory
                     | None => Err (missing t dir)
                     end).

Definition move_path (from to p : Path) : Path :=
  match strip from p with Some rest => to ++ rest | None => p end.

(** A directory takes everything below it along. *)
Definition move_tree (from to : Path) (t : Tree) : Tree :=
  list_to_map (map (fun e : Path * Node => (move_path from to (fst e), snd e))
    (filter (fun e : Path * Node => strip to (fst e) = None) (map_to_list t))).

Definition rename_in (from to : Path) (t : Tree) : result Tree ErrorKind :=
  match t !! from, t !! to with
  | None, _ => Err (missing t from)
  | Some (File _ _), Some (Directory _) => Err OtherKind
  | Some (Directory _), Some (File _ _) => Err NotADirectory
  | Some (File m c), _ =>
      if is_dir (t !! parent to) then Ok (<[to := File m c]> (delete from t)) else Err (missing t to)
  | Some (Directory _), _ =>
      if negb (is_dir (t !! parent to)) then Err (missing t to)
      else if (length (children to t) =? 0)%nat then Ok (move_tree from to t) else Err OtherKind
  end.

Definition sys_rename (from to : Path) : M World unit FsError := sys_write (rename_in from to).

Definition sys_hard_link (from to : Path) : M World unit FsError :=
  sys_write (fun t => match t !! from with
                      | Some (File m c) => make_entry to (File m c) t
                      | Some (Directory _) => Err OtherKind
                      | None => Err (missing t from)
                      end).

Definition sys_remove_file (p : Path) : M World unit FsError :=
  sys_write (fun t => match t !! p with
                      | Some (File _ _) => Ok (delete p t)
                      | Some (Directory _) => Err OtherKind
                      | None => Err (missing t p)
                      end).

Definition sys_remove_dir (p : Path) : M World unit FsError :=
  sys_write (fun t => match t !! p with
                      | Some (Directory _) =>
                          if (length (children p t) =? 0)%nat then Ok (delete p t) else Err OtherKind
                      | Some (File _ _) => Err NotADirectory
                      | None => Err (missing t p)
                      end).

(** [SysRng::try_fill_bytes]. *)
Definition sys_random (n : nat) : M World bytes FsError := fun w =>
  match w_os_random w with
  | Some d :: rest =>
      ({| w_tree := w_tree w; w_faults := w_faults w; w_os_random := rest |}, Ok (fill_bytes (draw d) n))
  | None :: rest =>
      ({| w_tree := w_tree w; w_faults := w_faults w; w_os_random := rest |}, Err FRandom)
  | [] => (w, Err FRandom)
  end.

(** Catch [kind]: [Err(err) if err.kind() == kind => ..]. *)
Definition catch {A : Type} (m : M World A FsError) (kind : ErrorKind) (k : M World A FsError)
    : M World A FsError := fun w =>
  match m w with
  | (w', Err (FIo k')) => if bool_decide (k' = kind) then k w' else (w', Err (FIo k'))
  | r => r
  end.

(** [let _ = m]. *)
Definition ignore {A E E'} (m : M World A E) : M World unit E' := fun w => (fst (m w), Ok tt).

(** On an error of [m], run [cleanup] and fail with it. *)
Definition on_error {A E} (m : M World A E) (cleanup : M World unit E) : M World A E := fun w =>
  match m w with
  | (w', Err e) => (fst (cleanup w'), Err e)
  | r => r
  end.

(** ** [fsio.rs] *)

Definition DIR_MODE : Z := 448.

Definition FILE_MODE : Z := 384.

(** ".tmp-". *)
Definition TEMP_PREFIX : bytes := [46; 116; 109; 112; 45].

Definition TEMP_NAME_ATTEMPTS : nat := 8.

(** [DIGITS[n]]. *)
Definition hex_digit (n : Z) : Z := if n <? 10 then 48 + n else 87 + n.

Definition hex (b : bytes) : bytes :=
  flat_map (fun x => [hex_digit (Z.shiftr x 4); hex_digit (Z.land x 0x0f)]) b.

Definition temp_name : M World bytes FsError :=
  let* random := sys_random 8 in ret (TEMP_PREFIX ++ hex random).

(** Open and flush a directory. *)
Definition sync_dir_strict (dir : Path) : M World unit FsError :=
  sys_open dir;;* sys_touch.

Definition flush_unsupported (e : FsError) : bool :=
  match e with
  | FIo InvalidInput | FIo KUnsupported => true
  | _ => false
  end.

Definition sync_dir (dir : Path) : M World unit FsError := fun w =>
  match sync_dir_strict dir w with
  | (w', Err e) => if flush_unsupported e then (w', Ok tt) else (w', Err e)
  | r => r
  end.

(** The errors' contents only reach messages. *)
Definition directory_flush (dir : Path) : World -> World * DirectoryFlush := fun w =>
  match sync_dir_strict dir w with
  | (w', Ok _) => (w', Supported)
  | (w', Err e) => (w', if flush_unsupported e then Unsupported Io else Failed Io)
  end.

(** [sync_dir(parent_of(dir))]; the parent of the state directory is outside
    the tree. *)
Definition sync_parent (dir : Path) : M World unit FsError :=
  match dir with
  | [] => sys_touch;;* sys_touch
  | _ => sync_dir (parent dir)
  end.

Definition tighten_dir (dir : Path) : M World unit FsError :=
  let* metadata := sys_metadata dir in
  match metadata with
  | File _ _ => fail (FIo NotADirectory)
  | Directory mode =>
      if negb (Z.land mode 0x200 =? 0) then fail (FIo OtherKind)
      else if negb (Z.land mode 0x3f =? 0) then sys_set_mode dir DIR_MODE
      else ret tt
  end.

Definition ensure_private_dir (dir : Path) : M World unit FsError := fun w =>
  match sys_mkdir dir DIR_MODE w with
  | (w', Ok _) => sync_parent dir w'
  | (w', Err (FIo AlreadyExists)) => tighten_dir dir w'
  | (w', Err e) => (w', Err e)
  end.

(** The inner result, of the checkpoint after the rename, is always [Ok]. *)
Definition rename (from to : Path) : M World unit FsError := sys_rename from to.

Definition hard_link (from to : Path) : M World unit FsError := sys_hard_link from to.

(** Only opening can find that there is no file. *)
Definition read_file (p : Path) (limit : Z) : M World (option bytes) FsError := fun w =>
  match sys_open p w with
  | (w', Err (FIo NotFound)) => (w', Ok None)
  | (w', Err e) => (w', Err e)
  | (w', Ok _) =>
      (sys_touch;;* let* contents := sys_read_to_end p limit in ret (Some contents)) w'
  end.

Definition remove_file_if_present (p : Path) : M World bool FsError :=
  catch (sys_remove_file p;;* ret true) NotFound (ret false).

Definition remove_dir (dir : Path) : M World unit FsError := sys_remove_dir dir.

Fixpoint write_temp_file_attempts (attempts : nat) (dir : Path) (contents : bytes)
    : M World Path FsError :=
  match attempts with
  | O => fail (FIo AlreadyExists)
  | S attempts' =>
      let* name := temp_name in
      let p := dir ++ [name] in
      fun w =>
        match sys_create_new p FILE_MODE w with
        | (w', Err (FIo AlreadyExists)) => write_temp_file_attempts attempts' dir contents w'
        | (w', Err e) => (w', Err e)
        | (w', Ok _) =>
            (on_error (sys_write_all p contents;;* sys_touch) (ignore (remove_file_if_present p));;*
             ret p) w'
        end
  end.

Definition write_temp_file (dir : Path) (contents : bytes) : M World Path FsError :=
  write_temp_file_attempts TEMP_NAME_ATTEMPTS dir contents.

(** Rename the temporary file over [target], removing it when that fails. *)
Definition install (temp target : Path) : M World unit FsError :=
  on_error (rename temp target) (ignore (remove_file_if_present temp)).

Definition replace_file_with (dir : Path) (name : bytes) (contents : bytes) (rename_commits : bool)
    : M World unit FsError :=
  let* temp := write_temp_file dir contents in
  install temp (dir ++ [name]);;*
  fun w => match sync_dir dir w with
           | (w', Err e) => if rename_commits then (w', Ok tt) else (w', Err e)
           | r => r
           end.

Definition replace_file (dir : Path) (name contents : bytes) : M World unit FsError :=
  replace_file_with dir name contents false.

Definition replace_file_committed (dir : Path) (name contents : bytes) : M World unit FsError :=
  replace_file_with dir name contents true.

Definition replace_pin_state (dir : Path) (name contents : bytes)
    : M World CommitDurability FsError :=
  let* temp := write_temp_file dir contents in
  install temp (dir ++ [name]);;*
  fun w => match sync_dir_strict dir w with
           | (w', Ok _) => (w', Ok Flushed)
           | (w', Err _) => (w', Ok Unconfirmed)
           end.

Definition create_file_exclusive (dir : Path) (name contents : bytes) : M World bool FsError :=
  let* temp := write_temp_file dir contents in
  fun w =>
    let (w', linked) := hard_link temp (dir ++ [name]) w in
    let w'' := fst (remove_file_if_present temp w') in
    match linked with
    | Ok _ => (sync_dir dir;;* ret true) w''
    | Err (FIo AlreadyExists) => (w'', Ok false)
    | Err e => (w'', Err e)
    end.

(** The loop of [remove_all_files]: an entry and its type can fail to be read. *)
Fixpoint remove_entries (dir : Path) (names : list bytes) : M World unit FsError :=
  match names with
  | [] => ret tt
  | name :: rest =>
      sys_touch;;*
      sys_touch;;*
      (fun w => if is_dir (w_tree w !! (dir ++ [name])) then (w, Ok tt)
                else (let* _ := remove_file_if_present (dir ++ [name]) in ret tt) w);;*
      remove_entries dir rest
  end.

Definition remove_all_files (dir : Path) : M World unit FsError := fun w =>
  match sys_read_dir dir w with
  | (w', Err (FIo NotFound)) => (w', Ok tt)
  | (w', Err e) => (w', Err e)
  | (w', Ok names) => (remove_entries dir names;;* sync_dir dir) w'
  end.

Definition is_temp_name (name : bytes) : bool := bytes_eqb (take 5 name) TEMP_PREFIX.

(** Entries that cannot be read are passed over. *)
Fixpoint remove_temps (dir : Path) (names : list bytes) : M World unit FsError :=
  match names with
  | [] => ret tt
  | name :: rest =>
      (fun w => match sys_touch w with
                | (w', Ok _) =>
                    if is_temp_name name then ignore (remove_file_if_present (dir ++ [name])) w'
                    else (w', Ok tt)
                | (w', Err _) => (w', Ok tt)
                end);;*
      remove_temps dir rest
  end.

Definition remove_temp_files (dir : Path) : M World unit FsError := fun w =>
  match sys_read_dir dir w with
  | (w', Err _) => (w', Ok tt)
  | (w', Ok names) => remove_temps dir names w'
  end.

(** Every chunk written to the unlinked file, then its flush. *)
Fixpoint overwrite_chunks (chunks : nat) : M World unit FsError :=
  match chunks with
  | O => sys_touch
  | S n => sys_touch;;* overwrite_chunks n
  end.

(** [len] is the length of the unlinked file; its contents are out of the
    tree's reach. *)
Definition overwrite_with_zeros (len : nat) : M World unit FsError :=
  sys_touch;;* overwrite_chunks ((len + 4095) / 4096).

Definition to_store_error (e : FsError) : StoreError :=
  match e with FIo _ => Io | FRandom => Random end.

Definition io {A} (m : M World A FsError) : M World A StoreError := fun w =>
  match m w with (w', r) => (w', map_err to_store_error r) end.
