(* ===== verification/Manifest.v ===== *)
(** * Credential-set membership ([store/manifest.rs])

    The manifest names the credential files that belong to the store and where
    each is.  Its encoding is strict: one byte string per manifest. *)

From Stdlib Require Import Sorted.
From stdpp Require Import gmap strings sorting.
From S2P Require Import Prelude Records Envelope FileSystem.

Definition KEY_LEN : nat := 32.

Definition MANAGED_DIR : bytes := ascii_bytes "credential-set".

Definition RECORDS_DIR : bytes := ascii_bytes "records".

Definition ACTIVE_FILE : bytes := ascii_bytes "active".

Definition FORMAT_FILE : bytes := ascii_bytes "credential-format".

Definition FORMAT : bytes := ascii_bytes "pqkey/credential-set/v1".

Definition MANIFEST_MAGIC : bytes := ascii_bytes "PQC1".

Inductive Location : Type := Legacy | Managed.

#[export] Instance Location_eq_dec : EqDecision Location.
Proof. solve_decision. Defined.

(** [BTreeMap<String, Location>]. *)
Abbreviation Manifest := (gmap (list Z) Location) (only parsing).

(** The map's iteration order. *)
Definition name_le (a b : bytes * Location) : Prop := bytes_cmp (fst a) (fst b) <> Gt.

#[export] Instance name_le_dec : RelDecision name_le.
Proof. intros a b. unfold name_le. apply _. Defined.

Definition entries_in_order (m : Manifest) : list (bytes * Location) :=
  merge_sort name_le (map_to_list m).

Definition is_hex_digit (b : Z) : bool := in_range 48 57 b || in_range 97 102 b.

Definition is_credential_file_name (name : bytes) : bool :=
  (length name =? 2 * KEY_LEN)%nat && forallb is_hex_digit name.

Definition digit (byte : Z) : Z := if byte <=? 57 then byte - 48 else byte - 97 + 10.

(** [as_chunks::<2>] of the name, each pair one byte. *)
Fixpoint unhex (name : bytes) : bytes :=
  match name with
  | a :: b :: rest => Z.lor (Z.shiftl (digit a) 4) (digit b) :: unhex rest
  | _ => []
  end.

Definition location_byte (l : Location) : Z := match l with Legacy => 0 | Managed => 1 end.

Fixpoint encode_members (members : list (bytes * Location)) : result bytes StoreError :=
  match members with
  | [] => Ok []
  | (name, location) :: rest =>
      if negb (is_credential_file_name name) then
        Err (InvalidRecord "invalid credential-set filename")
      else
        let? tail := encode_members rest in
        Ok (location_byte location :: unhex name ++ tail)
  end.

(** [manifest::encode]. *)
Definition encode_manifest (m : Manifest) : result bytes StoreError :=
  let count := zlen (entries_in_order m) in
  if MAX_ENVELOPE_LEN - Z.of_nat OVERHEAD <? count * 33 + 8 then
    Err (InvalidRecord "credential-set metadata is too large")
  else if 2 ^ 32 <=? count then Err (InvalidRecord "too many credential-set entries")
  else
    let? members := encode_members (entries_in_order m) in
    Ok (MANIFEST_MAGIC ++ be_bytes 4 count ++ members).

(** The loop over [as_chunks::<33>]; [count] chunks are left. *)
Fixpoint decode_members (count : nat) (previous : option bytes) (m : Manifest) (b : bytes)
    : result Manifest Corruption :=
  match count with
  | O => Ok m
  | S count' =>
      let entry := take 33 b in
      let? location :=
        match entry with
        | 0 :: _ => Ok Legacy
        | 1 :: _ => Ok Managed
        | _ => Err CEncoding
        end in
      let name := hex (drop 1 entry) in
      if is_some_and previous (fun p => bool_decide (bytes_cmp p name <> Lt)) then Err CEncoding
      else decode_members count' (Some name) (<[name := location]> m) (drop 33 b)
  end.

(** [manifest::decode]. *)
Definition decode_manifest (b : bytes) : result Manifest Corruption :=
  if (length b <? 8)%nat || negb (bytes_eqb (take 4 b) MANIFEST_MAGIC) then Err CEncoding
  else
    let count := be_value (slice b 4 8) in
    if negb (count * 33 + 8 =? zlen b) then Err CEncoding
    else decode_members (Z.to_nat count) None ∅ (drop 8 b).

(** ** Names *)

Lemma hex_digit_digit b : is_hex_digit b = true -> hex_digit (digit b) = b /\ 0 <= digit b < 16.
Proof.
  unfold is_hex_digit, digit, hex_digit. intros Hb.
  apply orb_true_iff in Hb as [Hb|Hb]; apply in_range_spec in Hb.
  - replace (b <=? 57) with true by lia. replace (b - 48 <? 10) with true by lia. lia.
  - replace (b <=? 57) with false by lia. replace (b - 97 + 10 <? 10) with false by lia. lia.
Qed.

Lemma nibbles a b : 0 <= a < 16 -> 0 <= b < 16 ->
  Z.shiftr (Z.lor (Z.shiftl a 4) b) 4 = a /\ Z.land (Z.lor (Z.shiftl a 4) b) 0x0f = b /\
  is_byte (Z.lor (Z.shiftl a 4) b).
Proof.
  intros Ha Hb.
  assert (Hab : forallb (fun a => forallb (fun b =>
    (Z.shiftr (Z.lor (Z.shiftl a 4) b) 4 =? a) && (Z.land (Z.lor (Z.shiftl a 4) b) 0x0f =? b) &&
    ((0 <=? Z.lor (Z.shiftl a 4) b) && (Z.lor (Z.shiftl a 4) b <? 256)))
      (map Z.of_nat (seq 0 16))) (map Z.of_nat (seq 0 16)) = true) by (vm_compute; reflexivity).
  assert (Hin : forall x, 0 <= x < 16 -> In x (map Z.of_nat (seq 0 16))).
  { intros x Hx. apply in_map_iff. exists (Z.to_nat x). split; [lia|]. apply in_seq. lia. }
  rewrite forallb_forall in Hab. specialize (Hab a (Hin a Ha)). rewrite forallb_forall in Hab.
  specialize (Hab b (Hin b Hb)). bool_hyps. unfold is_byte. lia.
Qed.

Lemma unhex_spec name : forallb is_hex_digit name = true -> Nat.Even (length name) ->
  hex (unhex name) = name /\ bytes_ok (unhex name) /\ length name = (2 * length (unhex name))%nat.
Proof.
  induction name as [name IH] using (induction_ltof1 _ length). unfold ltof in IH.
  destruct name as [|a [|b rest]]; intros Hd He; simpl.
  - repeat split; constructor.
  - destruct He as [k Hk]. simpl in Hk. lia.
  - simpl in Hd. bool_hyps. apply hex_digit_digit in H as [Ha Ha'].
    match goal with H1 : is_hex_digit b = true |- _ => apply hex_digit_digit in H1 as [Hb Hb'] end.
    destruct (IH rest) as (Hh & Hok & Hl); [simpl; lia|done| |].
    { destruct He as [k Hk]. exists (k - 1)%nat. simpl in Hk. lia. }
    destruct (nibbles _ _ Ha' Hb') as (-> & -> & Hbyte). rewrite Ha, Hb, Hh.
    split; [done|]. split; [by constructor|]. lia.
Qed.

Lemma file_name_unhex name : is_credential_file_name name = true ->
  hex (unhex name) = name /\ bytes_ok (unhex name) /\ length (unhex name) = 32%nat.
Proof.
  unfold is_credential_file_name, KEY_LEN. intros Hn. bool_hyps.
  match goal with H : (_ =? _)%nat = true |- _ => apply Nat.eqb_eq in H as Hl end.
  destruct (unhex_spec name) as (Hh & Hok & Hl'); [done|by exists 32%nat|].
  repeat split; [done|done|lia].
Qed.

Lemma hex_unhex b : bytes_ok b -> unhex (hex b) = b /\ forallb is_hex_digit (hex b) = true /\
  length (hex b) = (2 * length b)%nat.
Proof.
  assert (Hall : forallb (fun x =>
    is_hex_digit (hex_digit (Z.shiftr x 4)) && is_hex_digit (hex_digit (Z.land x 0x0f)) &&
    (Z.lor (Z.shiftl (digit (hex_digit (Z.shiftr x 4))) 4) (digit (hex_digit (Z.land x 0x0f))) =? x))
    (map Z.of_nat (seq 0 256)) = true) by (vm_compute; reflexivity).
  rewrite forallb_forall in Hall.
  induction b as [|x b IH]; intros Hb; [done|]. apply Forall_cons in Hb as [Hx Hb].
  destruct (IH Hb) as (Hu & Hd & Hl). cbn [hex flat_map app unhex forallb length] in *.
  assert (Hi : In x (map Z.of_nat (seq 0 256))).
  { apply in_map_iff. exists (Z.to_nat x). unfold is_byte in Hx. split; [lia|]. apply in_seq. lia. }
  specialize (Hall x Hi). bool_hyps. unfold hex in *. rewrite Hu, Hd, Hl.
  repeat match goal with H : is_hex_digit _ = true |- _ => rewrite H; clear H end.
  split; [congruence|]. split; [done|lia].
Qed.

Lemma hex_file_name b : bytes_ok b -> length b = 32%nat -> is_credential_file_name (hex b) = true.
Proof.
  intros Hb Hl. destruct (hex_unhex b Hb) as (_ & Hd & Hh). unfold is_credential_file_name, KEY_LEN.
  rewrite Hd, Hh, Hl. done.
Qed.

(** ** One encoding per manifest *)

(** Names in strictly ascending order, all above [previous]. *)
Fixpoint ascending (previous : option bytes) (l : list (bytes * Location)) : Prop :=
  match l with
  | [] => True
  | (name, _) :: l' => (forall p, previous = Some p -> bytes_cmp p name = Lt) /\ ascending (Some name) l'
  end.

Lemma ascending_above prev l n loc :
  ascending (Some prev) l -> (n, loc) ∈ l -> bytes_cmp prev n = Lt.
Proof.
  revert prev. induction l as [|[x y] l IH]; intros prev; simpl; [by intros _ ?%not_elem_of_nil|].
  intros [Hx Hl]. rewrite elem_of_cons. intros [[= -> ->]|Hin]; [by apply Hx|].
  eapply bytes_cmp_lt_trans; [by apply Hx|]. by apply (IH x).
Qed.

Lemma ascending_absent n l : ascending (Some n) l -> n ∉ l.*1.
Proof.
  intros Hl Hin. apply list_elem_of_fmap in Hin as ([z loc] & Hz & Hin). simpl in Hz. subst z.
  apply (ascending_above n l n loc Hl) in Hin. by rewrite bytes_cmp_refl in Hin.
Qed.

Lemma ascending_nodup prev l : ascending prev l -> NoDup l.*1.
Proof.
  revert prev. induction l as [|[x y] l IH]; intros prev; simpl; [constructor|].
  intros [_ Hl]. apply NoDup_cons. split; [by apply ascending_absent|by eapply IH].
Qed.

#[export] Instance name_le_trans : Transitive name_le.
Proof.
  intros [a ?] [b ?] [c ?]. unfold name_le. simpl. intros Hab Hbc.
  destruct (bytes_cmp a b) eqn:E1; [apply bytes_cmp_eq in E1; by subst| |done].
  destruct (bytes_cmp b c) eqn:E2; [apply bytes_cmp_eq in E2; subst; by rewrite E1| |done].
  by rewrite (bytes_cmp_lt_trans _ _ _ E1 E2).
Qed.

#[export] Instance name_le_total : Total name_le.
Proof.
  intros [a ?] [b ?]. unfold name_le. simpl. rewrite (bytes_cmp_antisym a b).
  destruct (bytes_cmp a b); simpl; auto.
Qed.

Lemma sorted_ascending l : StronglySorted name_le l -> NoDup l.*1 -> ascending None l.
Proof.
  assert (Hgen : forall l prev, StronglySorted name_le l -> NoDup l.*1 ->
    (forall p x, prev = Some p -> x ∈ l -> bytes_cmp p (fst x) = Lt) -> ascending prev l).
  { clear l. induction l as [|[n loc] l IH]; intros prev Hs Hnd Hp; simpl; [done|].
    apply StronglySorted_inv in Hs as [Hs Hle]. simpl in Hnd. apply NoDup_cons in Hnd as [Hn Hnd].
    split.
    - intros p ->. by apply (Hp p (n, loc) eq_refl); left.
    - apply IH; [done|done|]. intros p x [= <-] Hx. rewrite Forall_forall in Hle.
      specialize (Hle x Hx). unfold name_le in Hle. simpl in Hle.
      destruct (bytes_cmp n (fst x)) eqn:E; [|done|done].
      apply bytes_cmp_eq in E. subst n. destruct Hn. by apply list_elem_of_fmap_2. }
  intros Hs Hnd. by apply Hgen.
Qed.

Lemma entries_perm (m : Manifest) : entries_in_order m ≡ₚ map_to_list m.
Proof. apply merge_sort_Permutation. Qed.

Lemma entries_nodup (m : Manifest) : NoDup (entries_in_order m).*1.
Proof. rewrite entries_perm. apply NoDup_fst_map_to_list. Qed.

Lemma entries_ascending (m : Manifest) : ascending None (entries_in_order m).
Proof.
  apply sorted_ascending; [|apply entries_nodup]. apply StronglySorted_merge_sort; apply _.
Qed.

Lemma entries_to_map (m : Manifest) : list_to_map (entries_in_order m) = m.
Proof.
  rewrite (list_to_map_proper _ (map_to_list m)); [apply list_to_map_to_list|apply entries_nodup|].
  apply entries_perm.
Qed.

(** A sorted listing of a map is the map's own. *)
Lemma ascending_unique l1 l2 : ascending None l1 -> ascending None l2 -> l1 ≡ₚ l2 -> l1 = l2.
Proof.
  assert (Hgen : forall l1 l2 p1 p2, ascending p1 l1 -> ascending p2 l2 -> l1 ≡ₚ l2 -> l1 = l2);
    [|by apply Hgen].
  clear l1 l2. induction l1 as [|[n loc] l1 IH]; intros l2 p1 p2 H1 H2 Hp.
  { by apply Permutation_nil_l in Hp. }
  destruct l2 as [|[n2 loc2] l2]; [by apply Permutation_nil_r in Hp|].
  simpl in H1, H2. destruct H1 as [_ H1], H2 as [_ H2].
  assert (Heq : (n, loc) = (n2, loc2)).
  { assert (Hin : (n, loc) ∈ (n2, loc2) :: l2) by (rewrite <- Hp; left).
    assert (Hin2 : (n2, loc2) ∈ (n, loc) :: l1) by (rewrite Hp; left).
    apply elem_of_cons in Hin as [|Hin]; [done|]. apply elem_of_cons in Hin2 as [|Hin2]; [done|].
    apply (ascending_above _ _ _ _ H2) in Hin. apply (ascending_above _ _ _ _ H1) in Hin2.
    rewrite bytes_cmp_antisym, Hin in Hin2. done. }
  rewrite Heq in *. apply Permutation_cons_inv in Hp. f_equal. simplify_eq. by eapply IH.
Qed.

Lemma decode_encoded_members l prev acc b :
  encode_members l = Ok b -> ascending prev l ->
  decode_members (length l) prev acc b = Ok (list_to_map l ∪ acc) /\ zlen b = 33 * zlen l.
Proof.
  revert prev acc b. induction l as [|[n loc] l IH]; intros prev acc b; cbn [encode_members].
  { intros [= <-] _. simpl. by rewrite (left_id_L ∅ (∪)). }
  destruct (is_credential_file_name n) eqn:En; [|done]. simpl.
  destruct (encode_members l) as [tl|e] eqn:Et; [|done]. simpl. intros [= <-] [Hprev Hasc].
  apply file_name_unhex in En as (Hh & Hok & Hl).
  destruct (IH (Some n) (<[n := loc]> acc) tl eq_refl Hasc) as [Hd Hz].
  assert (Ht : take 33 (location_byte loc :: unhex n ++ tl) = location_byte loc :: unhex n).
  { simpl. f_equal. by rewrite take_app_length'. }
  assert (Hdr : drop 33 (location_byte loc :: unhex n ++ tl) = tl).
  { simpl. by rewrite drop_app_length'. }
  cbn [decode_members length]. rewrite Ht, Hdr. cbn [drop]. rewrite drop_0, Hh.
  replace (is_some_and prev _) with false.
  2: { destruct prev as [p|]; [|done]. simpl. symmetry. apply bool_decide_eq_false.
       specialize (Hprev p eq_refl). tauto. }
  split.
  - destruct loc; simpl; rewrite Hd, <- insert_union_l, insert_union_r; try done;
      by apply not_elem_of_list_to_map, ascending_absent.
  - unfold zlen in *. simpl. rewrite length_app. lia.
Qed.

Lemma Ok_inj {A E} (a b : A) : @Ok A E a = Ok b -> a = b.
Proof. congruence. Qed.

Lemma manifest_roundtrip m b : encode_manifest m = Ok b -> decode_manifest b = Ok m.
Proof.
  unfold encode_manifest. set (l := entries_in_order m).
  destruct (_ <? zlen l * 33 + 8) eqn:E1; [done|].
  destruct (2 ^ 32 <=? zlen l) eqn:E2; [done|]. bool_hyps.
  destruct (encode_members l) as [mb|e] eqn:Em; [|done]. cbn [bind]. intros <-%Ok_inj.
  destruct (decode_encoded_members l None ∅ mb Em (entries_ascending m)) as [Hd Hz].
  rewrite (right_id_L ∅ (∪)) in Hd. unfold l in Hd at 2. rewrite entries_to_map in Hd.
  unfold decode_manifest.
  assert (Hlen : zlen (MANIFEST_MAGIC ++ be_bytes 4 (zlen l) ++ mb) = zlen l * 33 + 8).
  { unfold zlen in *. rewrite !length_app, be_bytes_length. unfold MANIFEST_MAGIC. simpl length. lia. }
  replace (length (MANIFEST_MAGIC ++ be_bytes 4 (zlen l) ++ mb) <? 8)%nat with false by
    (symmetry; apply Nat.ltb_ge; rewrite !length_app, be_bytes_length; unfold MANIFEST_MAGIC; simpl length; lia).
  replace (bytes_eqb (take 4 _) _) with true by (symmetry; by apply bytes_eqb_spec).
  cbn [orb negb].
  assert (Hs : slice (MANIFEST_MAGIC ++ be_bytes 4 (zlen l) ++ mb) 4 8 = be_bytes 4 (zlen l)) by done.
  rewrite Hs, be_value_bytes, Hlen by (change (256 ^ Z.of_nat 4) with (2 ^ 32); unfold zlen in *; lia).
  rewrite Z.eqb_refl. cbn [negb].
  replace (drop 8 (MANIFEST_MAGIC ++ be_bytes 4 (zlen l) ++ mb)) with mb by done.
  unfold zlen. by rewrite Nat2Z.id.
Qed.

Lemma decode_members_spec count prev acc b m :
  bytes_ok b -> length b = (33 * count)%nat -> decode_members count prev acc b = Ok m ->
  exists l, encode_members l = Ok b /\ ascending prev l /\ length l = count /\
    m = list_to_map l ∪ acc.
Proof.
  revert prev acc b. induction count as [|count IH]; intros prev acc b Hok Hl; cbn [decode_members].
  - intros [= <-]. destruct b; [|simpl in Hl; lia]. exists []. simpl.
    by rewrite (left_id_L ∅ (∪)).
  - destruct b as [|x b]; [simpl in Hl; lia|].
    assert (Ht : take 33 (x :: b) = x :: take 32 b) by done.
    assert (Hdr : drop 33 (x :: b) = drop 32 b) by done. rewrite Ht, Hdr. cbn [drop]. rewrite drop_0.
    apply Forall_cons in Hok as [Hx Hok]. cbn [length] in Hl.
    assert (H32 : length (take 32 b) = 32%nat) by (rewrite length_take; lia).
    assert (Hokt : bytes_ok (take 32 b)) by (by apply Forall_take).
    intros Hd.
    destruct (match x with 0 => Ok Legacy | 1 => Ok Managed | _ => Err CEncoding end)
      as [loc|e] eqn:Eloc; [|by destruct x as [|[]|]; simpl in Hd].
    assert (Hd' : (if is_some_and prev (fun p => bool_decide (bytes_cmp p (hex (take 32 b)) <> Lt))
                   then Err CEncoding
                   else decode_members count (Some (hex (take 32 b))) (<[hex (take 32 b) := loc]> acc) (drop 32 b)) = Ok m).
    { destruct x as [|[]|]; simplify_eq/=; done. }
    clear Hd. destruct (is_some_and prev _) eqn:Ep; [done|].
    assert (Hld : length (drop 32 b) = (33 * count)%nat) by (rewrite length_drop; lia).
    destruct (IH _ _ _ (Forall_drop _ _ _ Hok) Hld Hd') as (l & He & Ha & Hll & Hm).
    exists ((hex (take 32 b), loc) :: l). cbn [encode_members].
    rewrite (hex_file_name _ Hokt H32), He. cbn [negb bind].
    destruct (hex_unhex _ Hokt) as (-> & _). rewrite take_drop.
    split; [f_equal; f_equal; by destruct x as [|[]|]; simplify_eq/=|].
    split.
    { simpl. split; [|done]. intros p ->. simpl in Ep. apply bool_decide_eq_false in Ep.
      destruct (bytes_cmp p _) eqn:Ec; [exfalso; apply Ep; done|done|exfalso; apply Ep; done]. }
    split; [simpl; lia|]. rewrite Hm. simpl.
    rewrite <- insert_union_l, insert_union_r; [done|].
    by apply not_elem_of_list_to_map, ascending_absent.
Qed.

(** The bytes that decode are the manifest's own encoding. *)
Lemma manifest_canonical b m :
  bytes_ok b -> zlen b <= MAX_ENVELOPE_LEN - Z.of_nat OVERHEAD ->
  decode_manifest b = Ok m -> encode_manifest m = Ok b.
Proof.
  intros Hok Hmax. unfold decode_manifest.
  destruct (length b <? 8)%nat eqn:E8; [done|]. apply Nat.ltb_ge in E8.
  destruct (bytes_eqb (take 4 b) _) eqn:Em; [|done]. apply bytes_eqb_spec in Em. cbn [orb negb].
  assert (Hs : length (slice b 4 8) = 4%nat) by (rewrite slice_length; lia).
  assert (Hsok : bytes_ok (slice b 4 8)) by (by apply Forall_take, Forall_drop).
  pose proof (be_value_range _ Hsok) as Hc. unfold zlen in Hc. rewrite Hs in Hc.
  change (256 ^ Z.of_nat 4) with (2 ^ 32) in Hc.
  set (count := be_value (slice b 4 8)) in *.
  destruct (count * 33 + 8 =? zlen b) eqn:El; [|done]. cbn [negb]. bool_hyps. intros Hd.
  apply decode_members_spec in Hd as (l & He & Ha & Hl & ->);
    [|by apply Forall_drop|rewrite length_drop; unfold zlen in El; lia].
  rewrite (right_id_L ∅ (∪)).
  assert (Hll : entries_in_order (list_to_map l) = l).
  { apply ascending_unique; [apply entries_ascending|done|].
    rewrite entries_perm. apply map_to_list_to_map. by eapply ascending_nodup. }
  unfold encode_manifest. rewrite Hll.
  replace (zlen l) with count by (unfold zlen; lia).
  replace (_ <? count * 33 + 8) with false by lia.
  replace (2 ^ 32 <=? count) with false by lia. rewrite He. cbn [bind]. f_equal.
  assert (Hb4 : be_bytes 4 count = slice b 4 8).
  { pose proof (be_bytes_value _ Hsok) as Hbv. rewrite Hs in Hbv. done. }
  rewrite Hb4, <- Em. unfold slice. cbn [Nat.sub].
  transitivity (take 4 b ++ drop 4 b); [|apply take_drop]. f_equal.
  rewrite <- (take_drop 4 (drop 4 b)) at 2. by rewrite drop_drop.
Qed.

Lemma encode_names m b name location :
  encode_manifest m = Ok b -> m !! name = Some location -> is_credential_file_name name = true.
Proof.
  unfold encode_manifest. destruct (_ <? _ * 33 + 8); [done|]. destruct (2 ^ 32 <=? _); [done|].
  destruct (encode_members (entries_in_order m)) as [mb|e] eqn:Em; [|done]. intros _ Hm.
  assert (Hin : (name, location) ∈ entries_in_order m) by (rewrite entries_perm; by apply elem_of_map_to_list).
  revert mb Em Hin. generalize (entries_in_order m). induction l as [|[n loc] l IH]; intros mb Em Hin.
  - by apply not_elem_of_nil in Hin.
  - cbn [encode_members] in Em. destruct (is_credential_file_name n) eqn:En; [|done]. simpl in Em.
    destruct (encode_members l) as [mb'|] eqn:El; [|done].
    apply elem_of_cons in Hin as [[= -> ->]|Hin]; [done|]. by eapply IH.
Qed.

(** A member's name is the hex of 32 bytes. *)
Definition name_ok (name : bytes) : Prop := exists b, name = hex b /\ length b = 32%nat.

Lemma decode_members_names count prev acc b m :
  length b = (33 * count)%nat -> (forall n l, acc !! n = Some l -> name_ok n) ->
  decode_members count prev acc b = Ok m -> forall n l, m !! n = Some l -> name_ok n.
Proof.
  revert prev acc b. induction count as [|count IH]; intros prev acc b Hl Hacc; cbn [decode_members].
  - by intros [= <-].
  - destruct (match take 33 b with 0 :: _ => Ok Legacy | 1 :: _ => Ok Managed | _ => Err CEncoding end)
      as [loc|e]; [|done]. cbn [bind].
    destruct (is_some_and _ _); [done|]. apply IH; [rewrite length_drop; lia|].
    intros n l. rewrite lookup_insert. case_decide as Hn; [|apply Hacc].
    intros _. exists (drop 1 (take 33 b)). split; [done|]. rewrite length_drop, length_take. lia.
Qed.

Lemma decode_names b m n l : decode_manifest b = Ok m -> m !! n = Some l -> name_ok n.
Proof.
  unfold decode_manifest. destruct (_ || _) eqn:E; [done|]. bool_hyps.
  destruct (_ =? zlen b) eqn:El; [|done]. cbn [negb]. bool_hyps.
  match goal with H : (_ <? 8)%nat = false |- _ => apply Nat.ltb_ge in H end.
  intros Hd. eapply (decode_members_names _ None ∅ _ m); [|done|exact Hd].
  rewrite length_drop. unfold zlen in El. lia.
Qed.

Lemma hex_length b : length (hex b) = (2 * length b)%nat.
Proof. unfold hex. induction b as [|x b IH]; [done|]. cbn [flat_map app length]. rewrite IH. lia. Qed.

Lemma name_ok_length n : name_ok n -> length n = 64%nat.
Proof. intros (b & -> & Hl). rewrite hex_length, Hl. done. Qed.

Lemma shape_length n : is_credential_file_name n = true -> length n = 64%nat.
Proof. unfold is_credential_file_name. intros H. bool_hyps. by apply Nat.eqb_eq. Qed.
