(* ===== verification/StoreKeys.v ===== *)
(** * Root keys and the keys derived from them ([store/keys.rs])

    [FileKeySource] keeps each root key as a file; subkeys are HKDF outputs,
    and a credential's file is named by an HMAC of its ID. *)

From stdpp Require Import gmap strings.
From S2P Require Import Prelude Crypto Records Envelope Store FileSystem Manifest.

Definition KEYS_DIR : bytes := ascii_bytes "keys".

Definition CREATE_ATTEMPTS : nat := 4.

Definition INFO_DEVICE_RECORD : bytes := ascii_bytes "ftsa-store/v1/device/record-encryption".

Definition INFO_CREDENTIAL_RECORD : bytes := ascii_bytes "ftsa-store/v1/credential/record-encryption".

Definition INFO_CREDENTIAL_INDEX : bytes := ascii_bytes "ftsa-store/v1/credential/index-hmac".

Definition key_file_name (d : KeyDomain) : bytes :=
  match d with Device => ascii_bytes "device.key" | Credential => ascii_bytes "credential.key" end.

Definition key_path (d : KeyDomain) : Path := [KEYS_DIR; key_file_name d].

(** What the contents of a key file are: exactly 32 bytes, not all zero. *)
Definition key_contents (d : KeyDomain) (contents : bytes) : result bytes StoreError :=
  if negb (length contents =? KEY_LEN)%nat then Err (KeyUnavailable d)
  else if forallb (fun b => b =? 0) contents then Err (KeyUnavailable d)
  else Ok contents.

(** [KeySource::load]; a wrong length is looked up again for the message. *)
Definition load (d : KeyDomain) : M World (option bytes) StoreError :=
  let* contents := io (read_file (key_path d) (Z.of_nat KEY_LEN)) in
  match contents with
  | None => ret None
  | Some c =>
      (if negb (length c =? KEY_LEN)%nat then ignore (sys_metadata (key_path d)) else ret tt);;*
      let* key := lift (key_contents d c) in ret (Some key)
  end.

(** [RootKey::generate]. *)
Definition generate : M World bytes StoreError := io (sys_random KEY_LEN).

Fixpoint create_attempts (attempts : nat) (d : KeyDomain) : M World bytes StoreError :=
  match attempts with
  | O => fail (KeyUnavailable d)
  | S attempts' =>
      let* existing := load d in
      match existing with
      | Some key => ret key
      | None =>
          let* key := generate in
          let* created := io (create_file_exclusive [KEYS_DIR] (key_file_name d) key) in
          if created : bool then ret key else create_attempts attempts' d
      end
  end.

(** [KeySource::create]. *)
Definition create (d : KeyDomain) : M World bytes StoreError :=
  io (ensure_private_dir [KEYS_DIR]);;*
  create_attempts CREATE_ATTEMPTS d.

(** Open the old key for writing: its length, if it can be opened. *)
Definition open_previous (p : Path) : M World (option nat) StoreError := fun w =>
  match sys_read (fun t => match t !! p with
                           | Some (File _ c) => Ok (length c)
                           | Some (Directory _) => Err OtherKind
                           | None => Err (missing t p)
                           end) w with
  | (w', Ok n) => (w', Ok (Some n))
  | (w', Err _) => (w', Ok None)
  end.

(** [KeySource::rotate]. *)
Definition rotate (d : KeyDomain) : M World bytes StoreError :=
  io (ensure_private_dir [KEYS_DIR]);;*
  let* previous := open_previous (key_path d) in
  let* key := generate in
  io (replace_file [KEYS_DIR] (key_file_name d) key);;*
  match previous with
  | Some len => ignore (overwrite_with_zeros len)
  | None => ret tt
  end;;*
  io (remove_temp_files [KEYS_DIR]);;*
  ret key.

Section Keys.

Context `{Crypto}.

Record CredentialKeys : Type := {
  ck_record : bytes;
  ck_index : bytes;
  ck_id : bytes
}.

(** [CredentialKeys::derive] and [DeviceKeys::derive]: HKDF with a 32-byte
    output does not fail. *)
Definition derive_credential_keys (root : bytes) : CredentialKeys := {|
  ck_record := hkdf_sha256 root INFO_CREDENTIAL_RECORD;
  ck_index := hkdf_sha256 root INFO_CREDENTIAL_INDEX;
  ck_id := hkdf_sha256 root INFO_CREDENTIAL_ID
|}.

Definition derive_device_key (root : bytes) : bytes := hkdf_sha256 root INFO_DEVICE_RECORD.

Definition file_name (keys : CredentialKeys) (credential_id : bytes) : bytes :=
  hex (hmac_sha256 (ck_index keys) credential_id).

End Keys.
