(* ===== verification/FileStore.v ===== *)
(** * The file-backed store ([store/file.rs], [store/damage.rs])

    [FileStore] with its keys in [keys/]: every operation reads the directory
    afresh.  Until the first atomic registration the store is in the legacy
    layout, where [credentials/] is the credential set; after it the encrypted
    manifest [credential-set/active] says which records belong. *)

From stdpp Require Import gmap strings.
From S2P Require Import Prelude Constants Alg Crypto Records Envelope Store Cbor Codec FileSystem Manifest StoreKeys.

Definition CREDENTIALS_DIR : bytes := ascii_bytes "credentials".

Definition PIN_STATE_FILE : bytes := ascii_bytes "pin-state".

Definition SIGNATURE_COUNTER_FILE : bytes := ascii_bytes "signature-counter".

Definition LARGE_BLOBS_FILE : bytes := ascii_bytes "large-blobs".

Definition ATTESTATION_FILE : bytes := ascii_bytes "attestation".

Definition INSPECTIONS : nat := 3.

(** ** Damage *)

(** The reason a read failed only reaches messages. *)
Inductive Fault : Type :=
| FMissing
| FCorrupt (reason : Corruption)
| FUnreadable.

#[export] Instance Corruption_eq_dec : EqDecision Corruption.
Proof. solve_decision. Defined.

#[export] Instance Fault_eq_dec : EqDecision Fault.
Proof. solve_decision. Defined.

Record Damage : Type := { damaged_file : list (list Z); fault : Fault }.

#[export] Instance Damage_eq_dec : EqDecision Damage.
Proof. solve_decision. Defined.

Definition missing_damage (p : Path) : Damage := {| damaged_file := p; fault := FMissing |}.

Definition corrupt_damage (p : Path) (reason : Corruption) : Damage :=
  {| damaged_file := p; fault := FCorrupt reason |}.

Definition unreadable_damage (p : Path) (err : StoreError) : Damage := {|
  damaged_file := p;
  fault := match err with Corrupt reason => FCorrupt reason | _ => FUnreadable end
|}.

(** [unavailable]: the damage only reaches the message. *)
Definition unavailable (damage : list Damage) : StoreError := CredentialSetUnavailable.

(** [damage.rs]'s [Kind], in its order. *)
Inductive DamageKind : Type := KRecord | KLegacyDirectory | KMembership.

Definition damage_kind (p : Path) : DamageKind :=
  if is_some_and (last p) is_credential_file_name then KRecord
  else if bool_decide (p = [CREDENTIALS_DIR]) then KLegacyDirectory
  else KMembership.

Definition is_record (d : Damage) : bool :=
  match damage_kind (damaged_file d) with KRecord => true | _ => false end.

(** ** Names and existence *)

(** A path as a string: its components joined by slashes. *)
Fixpoint logical (p : Path) : bytes :=
  match p with
  | [] => []
  | [name] => name
  | name :: rest => name ++ [47] ++ logical rest
  end.

Definition record_dir (location : Location) : Path :=
  match location with
  | Legacy => [MANAGED_DIR]
  | Managed => [MANAGED_DIR; RECORDS_DIR]
  end.

Definition credential_object (name : bytes) (location : Location) : bytes :=
  match location with
  | Legacy => logical [CREDENTIALS_DIR; name]
  | Managed => logical [MANAGED_DIR; RECORDS_DIR; name]
  end.

Definition exists_path (p : Path) : M World bool StoreError :=
  io (catch (let* _ := sys_metadata p in ret true) NotFound (ret false)).

(** [a || b] of calls. *)
Definition or_else (a b : M World bool StoreError) : M World bool StoreError :=
  let* x := a in if x : bool then ret true else b.

(** The loop over a directory's entries, each of which can fail to be read. *)
Fixpoint record_names (names : list bytes) : M World (list bytes) FsError :=
  match names with
  | [] => ret []
  | name :: rest =>
      sys_touch;;*
      let* found := record_names rest in
      ret (if is_credential_file_name name then name :: found else found)
  end.

Definition credential_file_names : M World (list bytes) StoreError := io (fun w =>
  match sys_read_dir [CREDENTIALS_DIR] w with
  | (w', Err (FIo NotFound)) => (w', Ok [])
  | (w', Err e) => (w', Err e)
  | (w', Ok names) => record_names names w'
  end).

(** ** Keys *)

Definition has_data (d : KeyDomain) : M World bool StoreError :=
  match d with
  | Device => exists_path [ATTESTATION_FILE]
  | Credential =>
      or_else (exists_path [PIN_STATE_FILE])
      (or_else (exists_path [SIGNATURE_COUNTER_FILE])
      (or_else (exists_path [LARGE_BLOBS_FILE])
      (or_else (exists_path [FORMAT_FILE])
      (or_else (exists_path [MANAGED_DIR])
      (let* names := credential_file_names in ret (negb (length names =? 0)%nat))))))
  end.

Definition missing_key (d : KeyDomain) : StoreError := KeyUnavailable d.

Definition root_key_for_read (d : KeyDomain) : M World (option bytes) StoreError :=
  let* key := load d in
  match key with
  | Some key => ret (Some key)
  | None =>
      let* data := has_data d in
      if data : bool then fail (missing_key d) else ret None
  end.

Definition root_key_for_write (d : KeyDomain) : M World bytes StoreError :=
  let* key := load d in
  match key with
  | Some key => ret key
  | None =>
      let* data := has_data d in
      if data : bool then fail (missing_key d) else create d
  end.

Section FileStore.

Context `{Crypto} `{Ciborium} `{RecordReader}.

Definition credential_keys : M World (option CredentialKeys) StoreError :=
  let* root := root_key_for_read Credential in
  ret (derive_credential_keys <$> root).

Definition write_keys : M World CredentialKeys StoreError :=
  let* root := root_key_for_write Credential in ret (derive_credential_keys root).

(** ** Objects *)

(** [envelope::seal]. *)
Definition seal (key : bytes) (ty : RecordType) (name plaintext : bytes) : M World bytes StoreError :=
  let* nonce := io (sys_random NONCE_LEN) in
  lift (seal_with_nonce key ty name nonce plaintext).

Definition read_object {A} (key : bytes) (ty : RecordType) (p : Path)
    (decode : bytes -> result A Corruption) : M World (option A) StoreError :=
  let* sealed := io (read_file p MAX_ENVELOPE_LEN) in
  match sealed with
  | None => ret None
  | Some sealed =>
      let* plaintext := lift (map_err Corrupt (open key ty (logical p) sealed)) in
      let* x := lift (map_err Corrupt (decode plaintext)) in
      ret (Some x)
  end.

Definition write_object (key : bytes) (ty : RecordType) (name plaintext : bytes)
    : M World unit StoreError :=
  let* sealed := seal key ty name plaintext in
  io (replace_file [] name sealed).

Definition write_pin_state (keys : CredentialKeys) (state : PinStateRecord)
    : M World CommitDurability StoreError :=
  let* plaintext := lift (encode_pin_state state) in
  let* sealed := seal (ck_record keys) RPinState PIN_STATE_FILE plaintext in
  io (replace_pin_state [] PIN_STATE_FILE sealed).

(** What the contents of a credential file hold. *)
Definition open_credential (keys : CredentialKeys) (name : bytes) (location : Location) (sealed : bytes)
    : result CredentialRecord Corruption :=
  let? plaintext := open (ck_record keys) RCredential (credential_object name location) sealed in
  let? record := decode_credential plaintext in
  if bytes_eqb (file_name keys (cr_credential_id record)) name then Ok record else Err CInconsistent.

Definition read_credential_in (keys : CredentialKeys) (name : bytes) (dir : Path) (location : Location)
    : M World (option CredentialRecord) StoreError :=
  let* sealed := io (read_file (dir ++ [name]) MAX_ENVELOPE_LEN) in
  match sealed with
  | None => ret None
  | Some sealed =>
      let* record := lift (map_err Corrupt (open_credential keys name location sealed)) in
      ret (Some record)
  end.

Definition read_credential (keys : CredentialKeys) (name : bytes)
    : M World (option CredentialRecord) StoreError :=
  read_credential_in keys name [CREDENTIALS_DIR] Legacy.

(** ** Membership *)

Definition check_format (b : bytes) : result unit Corruption :=
  if bytes_eqb b FORMAT then Ok tt else Err CEncoding.

Definition object_or_damage {A} (p : Path) (m : M World (option A) StoreError) : M World A Damage :=
  fun w => match m w with
           | (w', Ok (Some x)) => (w', Ok x)
           | (w', Ok None) => (w', Err (missing_damage p))
           | (w', Err e) => (w', Err (unreadable_damage p e))
           end.

Definition format_marker (keys : CredentialKeys) : M World unit Damage :=
  object_or_damage [FORMAT_FILE]
    (read_object (ck_record keys) RCredentialFormat [FORMAT_FILE] check_format).

Definition ACTIVE_PATH : Path := [MANAGED_DIR; ACTIVE_FILE].

Definition manifest (keys : CredentialKeys) : M World (gmap (list Z) Location) Damage :=
  object_or_damage ACTIVE_PATH
    (read_object (ck_record keys) RCredentialSet ACTIVE_PATH decode_manifest).

Definition membership (keys : CredentialKeys)
    : M World (result (option (gmap (list Z) Location)) (list Damage)) StoreError :=
  let* managed := exists_path [MANAGED_DIR] in
  if negb managed then
    let* legacy := exists_path [CREDENTIALS_DIR] in
    if legacy : bool then ret (Ok None)
    else
      let* format := exists_path [FORMAT_FILE] in
      ret (Err ((if format : bool then [missing_damage [MANAGED_DIR]] else [])
                ++ [missing_damage [CREDENTIALS_DIR]]))
  else fun w =>
    match (format_marker keys;;* manifest keys) w with
    | (w', Ok m) => (w', Ok (Ok (Some m)))
    | (w', Err d) => (w', Ok (Err [d]))
    end.

Definition active_manifest (keys : CredentialKeys)
    : M World (option (gmap (list Z) Location)) StoreError :=
  let* found := membership keys in lift (map_err unavailable found).

(** The readable ones of [members], each looked for in its directory. *)
Fixpoint scan_members (keys : CredentialKeys) (dir : Location -> Path) (members : list (bytes * Location))
    : M World (list CredentialRecord) StoreError :=
  match members with
  | [] => ret []
  | (name, location) :: rest => fun w =>
      match read_credential_in keys name (dir location) location w with
      | (w', Ok (Some record)) => (let* records := scan_members keys dir rest in ret (record :: records)) w'
      | (w', _) => scan_members keys dir rest w'
      end
  end.

Definition legacy_members (names : list bytes) : list (bytes * Location) :=
  map (fun name => (name, Legacy)) names.

Definition scan (keys : CredentialKeys) : M World (list CredentialRecord) StoreError :=
  let* active := active_manifest keys in
  match active with
  | Some m => scan_members keys record_dir (entries_in_order m)
  | None =>
      let* names := credential_file_names in
      scan_members keys (fun _ => [CREDENTIALS_DIR]) (legacy_members names)
  end.

(** Unlike [scan_members], nothing may be missing or unreadable. *)
Fixpoint read_members (keys : CredentialKeys) (dir : Location -> Path) (members : list (bytes * Location))
    : M World (list CredentialRecord) StoreError :=
  match members with
  | [] => ret []
  | (name, location) :: rest =>
      let* found := read_credential_in keys name (dir location) location in
      let* record := lift (ok_or found (unavailable [missing_damage (dir location ++ [name])])) in
      let* records := read_members keys dir rest in
      ret (record :: records)
  end.

Definition replacement_records (keys : CredentialKeys) (m : option (gmap (list Z) Location))
    : M World (list CredentialRecord) StoreError :=
  match m with
  | Some m => read_members keys record_dir (entries_in_order m)
  | None =>
      let* names := credential_file_names in
      read_members keys (fun _ => [CREDENTIALS_DIR]) (legacy_members names)
  end.

(** ** Writing credentials and manifests *)

Definition seal_credential_record (keys : CredentialKeys) (record : CredentialRecord) (created_at : Z)
    (name : bytes) (location : Location) : M World bytes StoreError :=
  let* plaintext := lift (encode_credential record created_at) in
  seal (ck_record keys) RCredential (credential_object name location) plaintext.

Definition write_candidate (keys : CredentialKeys) (record : CredentialRecord) (created_at : Z)
    (namespace : Path) : M World unit StoreError :=
  let dir := namespace ++ [RECORDS_DIR] in
  io (ensure_private_dir dir);;*
  let name := file_name keys (cr_credential_id record) in
  let* sealed := seal_credential_record keys record created_at name Managed in
  let* temp := io (write_temp_file dir sealed) in
  io (install temp (dir ++ [name]));;*
  io (sync_dir_strict dir).

Definition prepare_manifest (keys : CredentialKeys) (m : gmap (list Z) Location) (dir : Path)
    : M World Path StoreError :=
  let* plaintext := lift (encode_manifest m) in
  let* sealed := seal (ck_record keys) RCredentialSet (logical ACTIVE_PATH) plaintext in
  io (write_temp_file dir sealed).

(** [holds_record]. *)
Definition holds_record (location : Location) (name : bytes) : M World bool StoreError :=
  io (catch (let* metadata := sys_metadata (record_dir location ++ [name]) in
             ret (is_file (Some metadata))) NotFound (ret false)).

Definition reclaimable (m : gmap (list Z) Location) (location : Location) (name : bytes)
    : M World bool StoreError :=
  match m !! name with
  | None => ret true
  | Some member => if bool_decide (member = location) then ret false else holds_record member name
  end.

Fixpoint cleanup_entries (m : gmap (list Z) Location) (location : Location) (names : list bytes)
    : M World unit StoreError :=
  match names with
  | [] => ret tt
  | name :: rest =>
      io sys_touch;;*
      (if is_credential_file_name name then
         let* remove := reclaimable m location name in
         if remove : bool then
           let* _ := io (remove_file_if_present (record_dir location ++ [name])) in ret tt
         else ret tt
       else ret tt);;*
      cleanup_entries m location rest
  end.

(** One location's pass. *)
Definition cleanup_location (m : gmap (list Z) Location) (location : Location) : M World unit StoreError :=
  let* names := io (sys_read_dir (record_dir location)) in
  cleanup_entries m location names;;*
  io (sync_dir_strict (record_dir location)).

(** Whether cleanup is pending. *)
Definition cleanup_retired (m : gmap (list Z) Location) : World -> World * bool := fun w =>
  let (w1, r1) := cleanup_location m Legacy w in
  let (w2, r2) := cleanup_location m Managed w1 in
  (w2, negb (is_ok r1) || negb (is_ok r2)).

(** [publication_dir] is the state directory or the managed namespace. *)
Definition finish_commit (m : gmap (list Z) Location) (publication_dir : Path)
    : M World CredentialCommit StoreError := fun w =>
  match (sync_dir_strict publication_dir;;*
         (if bool_decide (publication_dir = []) then ret tt else sync_dir_strict [])) w with
  | (w', Err _) => (w', Ok {| durability := Unconfirmed; cleanup_pending := true |})
  | (w', Ok _) =>
      let (w'', pending) := cleanup_retired m w' in
      (w'', Ok {| durability := Flushed; cleanup_pending := pending |})
  end.

Definition publish_manifest (keys : CredentialKeys) (m : gmap (list Z) Location)
    : M World CredentialCommit StoreError :=
  let* temp := prepare_manifest keys m [MANAGED_DIR] in
  io (install temp ACTIVE_PATH);;*
  finish_commit m [MANAGED_DIR].

Definition seal_format (keys : CredentialKeys) : M World bytes StoreError :=
  seal (ck_record keys) RCredentialFormat FORMAT_FILE FORMAT.

Definition write_format_marker (keys : CredentialKeys) : M World unit StoreError :=
  let* sealed := seal_format keys in
  io (replace_file [] FORMAT_FILE sealed);;*
  io (sync_dir_strict []).

Definition publish_migration (keys : CredentialKeys) (m : gmap (list Z) Location)
    : M World CredentialCommit StoreError :=
  let* temp := prepare_manifest keys m [CREDENTIALS_DIR] in
  io (install temp [CREDENTIALS_DIR; ACTIVE_FILE]);;*
  io (sync_dir_strict [CREDENTIALS_DIR]);;*
  io (rename [CREDENTIALS_DIR] [MANAGED_DIR]);;*
  finish_commit m [].

Definition collision (name : bytes) : M World bool StoreError :=
  or_else (exists_path [CREDENTIALS_DIR; name])
  (or_else (exists_path [CREDENTIALS_DIR; RECORDS_DIR; name])
  (or_else (exists_path [MANAGED_DIR; name])
  (exists_path [MANAGED_DIR; RECORDS_DIR; name]))).

(** The order of the record already there, or a fresh one if the limit allows
    it; a corrupt record counts as absent. *)
Definition creation_order (max : Z) (keys : CredentialKeys) (name : bytes) (dir : Path) (location : Location)
    : M World Z StoreError := fun w =>
  let fresh :=
    let* current := scan keys in
    guard (negb (max <=? zlen current)) (Full max);;*
    ret (next_created_at current) in
  match read_credential_in keys name dir location w with
  | (w', Ok (Some existing)) => (w', Ok (cr_created_at existing))
  | (w', Ok None) | (w', Err (Corrupt _)) => fresh w'
  | (w', Err e) => (w', Err e)
  end.

Definition put_managed (max : Z) (keys : CredentialKeys) (m : gmap (list Z) Location)
    (record : CredentialRecord) : M World unit StoreError :=
  let name := file_name keys (cr_credential_id record) in
  match m !! name with
  | Some location =>
      let* order := creation_order max keys name (record_dir location) location in
      let* sealed := seal_credential_record keys record order name location in
      io (replace_file (record_dir location) name sealed)
  | None =>
      let* occupied := collision name in
      guard (negb occupied) (InvalidRecord "credential ID is occupied");;*
      let* current := scan keys in
      guard (negb (max <=? zlen current)) (Full max);;*
      let m' := <[name := Managed]> m in
      lift (encode_manifest m');;*
      write_candidate keys record (next_created_at current) [MANAGED_DIR];;*
      let* _ := publish_manifest keys m' in
      ret tt
  end.

(** ** [impl CredentialStore] *)

Definition file_get (credential_id : bytes) : M World (option CredentialRecord) StoreError :=
  let* keys := credential_keys in
  match keys with
  | None => ret None
  | Some keys =>
      let name := file_name keys credential_id in
      let* active := active_manifest keys in
      let place :=
        match active with
        | Some m => (fun location => (record_dir location, location)) <$> m !! name
        | None => Some ([CREDENTIALS_DIR], Legacy)
        end in
      match place with
      | None => ret None
      | Some (dir, location) =>
          let* found := read_credential_in keys name dir location in
          match found with
          | Some record =>
              if bytes_eqb (cr_credential_id record) credential_id then ret (Some record)
              else fail (Corrupt CInconsistent)
          | None => ret None
          end
      end
  end.

Definition file_put (max : Z) (record : CredentialRecord) : M World unit StoreError :=
  lift (validate_credential record);;*
  let* keys := write_keys in
  let* active := active_manifest keys in
  match active with
  | Some m => put_managed max keys m record
  | None =>
      let name := file_name keys (cr_credential_id record) in
      let* order := creation_order max keys name [CREDENTIALS_DIR] Legacy in
      let* sealed := seal_credential_record keys record order name Legacy in
      io (ensure_private_dir [CREDENTIALS_DIR]);;*
      io (replace_file [CREDENTIALS_DIR] name sealed)
  end.

Definition file_insert_or_replace_discoverable (max : Z) (record : CredentialRecord)
    : M World CredentialCommit StoreError :=
  lift (validate_credential record);;*
  guard (is_discoverable (cr_credential_id record))
    (InvalidRecord "replacement requires a discoverable credential");;*
  let* keys := write_keys in
  let name := file_name keys (cr_credential_id record) in
  let* occupied := collision name in
  guard (negb occupied) (InvalidRecord "credential ID is occupied");;*
  let* preceding := active_manifest keys in
  let* current := replacement_records keys preceding in
  let retired := map (fun existing => file_name keys (cr_credential_id existing))
                     (List.filter (matching record) current) in
  guard (negb ((length retired =? 0)%nat && (max <=? zlen current))) (Full max);;*
  let* before :=
    match preceding with
    | Some m => ret m
    | None => let* names := credential_file_names in ret (list_to_map (legacy_members names))
    end in
  let m := <[name := Managed]> (foldr delete (before : gmap (list Z) Location) retired) in
  lift (encode_manifest m);;*
  match preceding with
  | None =>
      write_format_marker keys;;*
      write_candidate keys record (next_created_at current) [CREDENTIALS_DIR];;*
      publish_migration keys m
  | Some _ =>
      write_candidate keys record (next_created_at current) [MANAGED_DIR];;*
      publish_manifest keys m
  end.

Definition file_delete (credential_id : bytes) : M World bool StoreError :=
  let* keys := credential_keys in
  match keys with
  | None => ret false
  | Some keys =>
      let name := file_name keys credential_id in
      let* active := active_manifest keys in
      match active with
      | Some m =>
          match m !! name with
          | None => ret false
          | Some _ => let* _ := publish_manifest keys (delete name m) in ret true
          end
      | None =>
          let* removed := io (remove_file_if_present [CREDENTIALS_DIR; name]) in
          (if removed : bool then io (sync_dir [CREDENTIALS_DIR]) else ret tt);;*
          ret removed
      end
  end.

Definition file_list : M World (list CredentialRecord) StoreError :=
  let* keys := credential_keys in
  match keys with
  | None => ret []
  | Some keys => let* records := scan keys in ret (sort_newest_first records)
  end.

Definition file_count : M World Z StoreError :=
  let* keys := credential_keys in
  match keys with
  | None => ret 0
  | Some keys => let* records := scan keys in ret (zlen records)
  end.

Definition file_pin_state : M World (option PinStateRecord) StoreError :=
  let* keys := credential_keys in
  match keys with
  | None => ret None
  | Some keys => read_object (ck_record keys) RPinState [PIN_STATE_FILE] decode_pin_state
  end.

Definition file_set_pin_state (state : PinStateRecord) : M World CommitDurability StoreError :=
  let* keys := write_keys in write_pin_state keys state.

Definition file_signature_counter : M World Z StoreError :=
  let* keys := credential_keys in
  match keys with
  | None => ret 0
  | Some keys =>
      let* v := read_object (ck_record keys) RSignatureCounter [SIGNATURE_COUNTER_FILE]
                  decode_signature_counter in
      ret (default 0 v)
  end.

Definition file_set_signature_counter (value : Z) : M World unit StoreError :=
  let* keys := write_keys in
  let* plaintext := lift (encode_signature_counter value) in
  write_object (ck_record keys) RSignatureCounter SIGNATURE_COUNTER_FILE plaintext.

Definition file_large_blob_array : M World bytes StoreError :=
  let* there := exists_path [LARGE_BLOBS_FILE] in
  if negb there then ret INITIAL_LARGE_BLOB_ARRAY
  else
    let* keys := credential_keys in
    match keys with
    | None => ret INITIAL_LARGE_BLOB_ARRAY
    | Some keys =>
        let* v := read_object (ck_record keys) RLargeBlobArray [LARGE_BLOBS_FILE]
                    decode_large_blob_array in
        ret (default INITIAL_LARGE_BLOB_ARRAY v)
    end.

Definition file_set_large_blob_array (array : bytes) : M World unit StoreError :=
  let* plaintext := lift (encode_large_blob_array array) in
  let* keys := write_keys in
  let* sealed := seal (ck_record keys) RLargeBlobArray LARGE_BLOBS_FILE plaintext in
  io (replace_file_committed [] LARGE_BLOBS_FILE sealed).

Definition file_attestation : M World (option AttestationRecord) StoreError :=
  let* root := root_key_for_read Device in
  match root with
  | None => ret None
  | Some root => read_object (derive_device_key root) RAttestation [ATTESTATION_FILE] decode_attestation
  end.

Definition file_set_attestation (record : AttestationRecord) : M World unit StoreError :=
  lift (validate_attestation record);;*
  let* root := root_key_for_write Device in
  let* plaintext := lift (encode_attestation record) in
  write_object (derive_device_key root) RAttestation ATTESTATION_FILE plaintext.

Definition file_seal_credential_id (plaintext associated_data : bytes) : M World bytes StoreError :=
  let* keys := write_keys in
  let* there := exists_path [PIN_STATE_FILE] in
  (if there : bool then ret tt
   else
     let* d := write_pin_state keys PinStateRecord_default in
     guard (negb (bool_decide (d = Unconfirmed))) Io);;*
  let* nonce := io (sys_random NONCE_LEN) in
  lift (seal_credential_id_with_nonce (ck_id keys) nonce plaintext associated_data).

Definition file_open_credential_id (sealed associated_data : bytes) : M World (option bytes) StoreError :=
  let* keys := credential_keys in
  match keys with
  | None => ret None
  | Some keys => ret (open_credential_id (ck_id keys) sealed associated_data)
  end.

(** Empty the namespaces of either layout, once the key is replaced. *)
Definition clear_records (managed : bool) : M World unit StoreError :=
  if managed then
    io (ensure_private_dir [MANAGED_DIR]);;*
    io (remove_all_files [MANAGED_DIR; RECORDS_DIR]);;*
    io (remove_all_files [MANAGED_DIR]);;*
    io (remove_all_files [CREDENTIALS_DIR; RECORDS_DIR]);;*
    io (remove_all_files [CREDENTIALS_DIR]);;*
    let* legacy := exists_path [CREDENTIALS_DIR] in
    if legacy : bool then ignore (remove_dir [CREDENTIALS_DIR]) else ret tt
  else
    io (remove_all_files [CREDENTIALS_DIR]);;*
    io (ensure_private_dir [CREDENTIALS_DIR]).

Definition file_clear : M World CommitDurability StoreError :=
  let* managed := or_else (exists_path [MANAGED_DIR]) (exists_path [FORMAT_FILE]) in
  let* root := rotate Credential in
  let keys := derive_credential_keys root in
  clear_records managed;;*
  let* counter_removed := io (remove_file_if_present [SIGNATURE_COUNTER_FILE]) in
  let* array_removed := io (remove_file_if_present [LARGE_BLOBS_FILE]) in
  (if (counter_removed : bool) || array_removed then io (sync_dir []) else ret tt);;*
  let* durable :=
    (if managed : bool then
       let* sealed := seal_format keys in
       io (replace_file [] FORMAT_FILE sealed);;*
       let* commit := publish_manifest keys ∅ in
       ret (durability commit)
     else ret Flushed) in
  let* defaults := write_pin_state keys PinStateRecord_default in
  ret (if bool_decide (durable = Unconfirmed) || bool_decide (defaults = Unconfirmed)
       then Unconfirmed else defaults).

(** ** Opening *)

(** [create_dir_all] of the parent is outside the tree. *)
Definition open_key_domain (d : KeyDomain) : M World unit StoreError := fun w =>
  match root_key_for_write d w with
  | (w', Ok _) => (w', Ok tt)
  | (w', Err (KeyUnavailable _)) => (w', Ok tt)
  | (w', Err e) => (w', Err e)
  end.

(** [lost] is only logged. *)
Definition open_with_key_source : M World unit StoreError :=
  io sys_touch;;*
  io (ensure_private_dir []);;*
  let* upgraded := or_else (exists_path [MANAGED_DIR]) (exists_path [FORMAT_FILE]) in
  (if upgraded : bool then ret tt
   else
     let* there := exists_path [CREDENTIALS_DIR] in
     (if there : bool then ret tt else ignore (load Credential));;*
     io (ensure_private_dir [CREDENTIALS_DIR]));;*
  open_key_domain Device;;*
  open_key_domain Credential.

(** ** Inspection *)

(** [managed]: a member whose record is missing is damage. *)
Fixpoint inspect_members (keys : CredentialKeys) (managed : bool) (dir : Location -> Path)
    (members : list (bytes * Location)) : M World (list Damage) StoreError :=
  match members with
  | [] => ret []
  | (name, location) :: rest => fun w =>
      let p := dir location ++ [name] in
      match read_credential_in keys name (dir location) location w with
      | (w', Ok (Some _)) => inspect_members keys managed dir rest w'
      | (w', Ok None) =>
          if managed then (let* more := inspect_members keys managed dir rest in
                           ret (missing_damage p :: more)) w'
          else inspect_members keys managed dir rest w'
      | (w', Err (Corrupt reason)) =>
          (let* more := inspect_members keys managed dir rest in ret (corrupt_damage p reason :: more)) w'
      | (w', Err e) => (w', Err e)
      end
  end.

Definition inspect_once : M World (list Damage) StoreError :=
  let* keys := credential_keys in
  match keys with
  | None => ret []
  | Some keys =>
      let* found := membership keys in
      match found with
      | Err damage => ret damage
      | Ok (Some m) => inspect_members keys true record_dir (entries_in_order m)
      | Ok None =>
          let* names := credential_file_names in
          inspect_members keys false (fun _ => [CREDENTIALS_DIR]) (legacy_members names)
      end
  end.

Definition healthy (found : result (list Damage) StoreError) : bool :=
  match found with Ok [] => true | _ => false end.

Definition looks_agree (previous current : result (list Damage) StoreError) : bool :=
  match previous, current with
  | Ok before, Ok now => bool_decide (before = now)
  | Err _, Err _ => true
  | _, _ => false
  end.

(** The looks after the first; a look's outcome is a value. *)
Fixpoint inspect_looks (looks : nat) (previous : result (list Damage) StoreError)
    : M World (list Damage) StoreError := fun w =>
  if healthy previous then (w, previous)
  else match looks with
       | O => (w, Err Io)
       | S looks' =>
           let (w', current) := inspect_once w in
           if looks_agree previous current then (w', current) else inspect_looks looks' current w'
       end.

Definition inspect : M World (list Damage) StoreError := fun w =>
  let (w', first) := inspect_once w in inspect_looks (INSPECTIONS - 1) first w'.

End FileStore.
