(* ===== verification/FsProofs.v ===== *)
(** * What the file primitives do to the tree ([store/fsio.rs])

    [Frame P m]: whatever the environment does, [m] changes only paths of [P]
    and temporary files.  The replacements are all or nothing. *)

From stdpp Require Import gmap.
From S2P Require Import Prelude Records FileSystem.

(** ** Frames *)

(** A path whose last component is a temporary name. *)
Definition temp_path (p : Path) : bool := is_some_and (last p) is_temp_name.

(** The trees agree outside [P] and temporary files. *)
Definition keeps (P : Path -> Prop) (t t' : Tree) : Prop :=
  forall p, ~ P p -> temp_path p = false -> t' !! p = t !! p.

Definition Frame {A E} (P : Path -> Prop) (m : M World A E) : Prop :=
  forall w w' r, m w = (w', r) -> keeps P (w_tree w) (w_tree w').

Definition nothing : Path -> Prop := fun _ => False.

Lemma keeps_refl (P : Path -> Prop) t : keeps P t t.
Proof. done. Qed.

Lemma keeps_trans P t1 t2 t3 : keeps P t1 t2 -> keeps P t2 t3 -> keeps P t1 t3.
Proof. intros H1 H2 p Hp Ht. rewrite (H2 p) by done. by apply H1. Qed.

Lemma keeps_mono (P Q : Path -> Prop) t t' : (forall p, P p -> Q p) -> keeps P t t' -> keeps Q t t'.
Proof. intros HPQ H p Hp Ht. apply H; auto. Qed.

Lemma frame_mono {A E} (P Q : Path -> Prop) (m : M World A E) :
  (forall p, P p -> Q p) -> Frame P m -> Frame Q m.
Proof. intros HPQ H w w' r Hm. eapply keeps_mono; [done|by eapply H]. Qed.

Lemma frame_ret {A E} P (a : A) : Frame P (ret a : M World A E).
Proof. by intros w w' r [= <- _]. Qed.

Lemma frame_fail {A E} P (e : E) : Frame P (fail e : M World A E).
Proof. by intros w w' r [= <- _]. Qed.

Lemma frame_lift {A E} P (x : result A E) : Frame P (lift x : M World A E).
Proof. by intros w w' r [= <- _]. Qed.

Lemma frame_guard {E} P b (e : E) : Frame P (guard b e : M World unit E).
Proof. destruct b; [apply frame_ret|apply frame_fail]. Qed.

Lemma frame_bind {A B E} P (m : M World A E) (k : A -> M World B E) :
  Frame P m -> (forall a, Frame P (k a)) -> Frame P (mbind_st m k).
Proof.
  intros Hm Hk w w' r. unfold mbind_st. destruct (m w) as [w1 [a|e]] eqn:E1.
  - intros H. eapply keeps_trans; [by eapply Hm|by eapply Hk].
  - intros [= <- _]. by eapply Hm.
Qed.

Lemma frame_io {A} P (m : M World A FsError) : Frame P m -> Frame P (io m).
Proof. intros Hm w w' r. unfold io. destruct (m w) as [w1 r1] eqn:E. intros [= <- _]. by eapply Hm. Qed.

Lemma frame_ignore {A E E'} P (m : M World A E) : Frame P m -> Frame P (ignore m : M World unit E').
Proof.
  intros Hm w w' r. unfold ignore. intros [= <- _]. destruct (m w) as [w1 r1] eqn:Em. by eapply Hm.
Qed.

Lemma frame_on_error {A E} P (m : M World A E) c : Frame P m -> Frame P c -> Frame P (on_error m c).
Proof.
  intros Hm Hc w w' r. unfold on_error. destruct (m w) as [w1 [a|e]] eqn:E1.
  - intros [= <- _]. by eapply Hm.
  - destruct (c w1) as [w2 r2] eqn:E2. intros [= <- _].
    eapply keeps_trans; [by eapply Hm|by eapply Hc].
Qed.

Lemma frame_catch {A} P (m : M World A FsError) kind k :
  Frame P m -> Frame P k -> Frame P (catch m kind k).
Proof.
  intros Hm Hk w w' r. unfold catch. destruct (m w) as [w1 [a|[k'|]]] eqn:E1.
  - intros [= <- _]. by eapply Hm.
  - case_bool_decide; intros Hr; [eapply keeps_trans; [by eapply Hm|by eapply Hk]|].
    injection Hr as <- _. by eapply Hm.
  - intros [= <- _]. by eapply Hm.
Qed.

Lemma frame_random P n : Frame P (sys_random n).
Proof.
  intros w w' r. unfold sys_random. by destruct (w_os_random w) as [|[d|] l]; intros [= <- _].
Qed.

(** ** System calls *)

Lemma sys_read_spec {A : Type} (act : Tree -> result A ErrorKind) w w' r :
  sys_read act w = (w', r) ->
  w_tree w' = w_tree w /\
  (r = map_err FIo (act (w_tree w)) \/ exists k, r = Err (FIo (fault_error k))).
Proof.
  unfold sys_read, sys. destruct (w_faults w) as [|[|k n] l]; intros [= <- <-]; simpl; eauto.
Qed.

Lemma frame_sys_read {A : Type} (P : Path -> Prop) (act : Tree -> result A ErrorKind) : Frame P (sys_read act).
Proof. intros w w' r Hr. apply sys_read_spec in Hr as [-> _]. apply keeps_refl. Qed.

Lemma sys_write_spec (act : Tree -> result Tree ErrorKind) w w' r :
  sys_write act w = (w', r) ->
  match r with
  | Ok _ => act (w_tree w) = Ok (w_tree w')
  | Err (FIo k) => w_tree w' = w_tree w /\ (act (w_tree w) = Err k \/ exists f, k = fault_error f)
  | Err FRandom => False
  end.
Proof.
  unfold sys_write, sys. destruct (w_faults w) as [|[|k n] l];
    destruct (act (w_tree w)) as [t|e]; intros [= <- <-]; simpl; eauto.
Qed.

Lemma frame_sys_write (P : Path -> Prop) (act : Tree -> result Tree ErrorKind) :
  (forall t t', act t = Ok t' -> keeps P t t') -> Frame P (sys_write act).
Proof.
  intros Ha w w' r Hr. apply sys_write_spec in Hr. destruct r as [|[k|]]; [by apply Ha| |done].
  destruct Hr as [-> _]. apply keeps_refl.
Qed.

Lemma keeps_insert (P : Path -> Prop) t p n : P p \/ temp_path p = true -> keeps P t (<[p := n]> t).
Proof.
  intros Hp q Hq Ht. rewrite lookup_insert_ne; [done|]. intros ->. destruct Hp; [done|congruence].
Qed.

Lemma keeps_delete (P : Path -> Prop) t p : P p \/ temp_path p = true -> keeps P t (delete p t).
Proof.
  intros Hp q Hq Ht. rewrite lookup_delete_ne; [done|]. intros ->. destruct Hp; [done|congruence].
Qed.

Lemma make_entry_ok p n t t' : make_entry p n t = Ok t' -> t !! p = None /\ t' = <[p := n]> t.
Proof. unfold make_entry. destruct (t !! p); [done|]. destruct (is_dir _); [|done]. by intros [= <-]. Qed.

Lemma frame_make (P : Path -> Prop) p n :
  P p \/ temp_path p = true -> Frame P (sys_write (make_entry p n)).
Proof.
  intros Hp. apply frame_sys_write. intros t t' [_ ->]%make_entry_ok. by apply keeps_insert.
Qed.

Lemma frame_remove (P : Path -> Prop) p :
  P p \/ temp_path p = true -> Frame P (remove_file_if_present p).
Proof.
  intros Hp. apply frame_catch; [|apply frame_ret]. apply frame_bind; [|intros; apply frame_ret].
  apply frame_sys_write. intros t t'. destruct (t !! p) as [[]|]; intros [= <-]. by apply keeps_delete.
Qed.

Lemma frame_touch P : Frame P sys_touch.
Proof. apply frame_sys_read. Qed.

Lemma frame_sync_strict P dir : Frame P (sync_dir_strict dir).
Proof. apply frame_bind; [apply frame_sys_read|intros; apply frame_touch]. Qed.

Lemma frame_sync P dir : Frame P (sync_dir dir).
Proof.
  intros w w' r. unfold sync_dir. destruct (sync_dir_strict dir w) as [w1 [a|e]] eqn:E;
    apply (frame_sync_strict P) in E.
  - by intros [= <- _].
  - by destruct (flush_unsupported e); intros [= <- _].
Qed.

Lemma frame_read_file P p limit : Frame P (read_file p limit).
Proof.
  intros w w' r. unfold read_file. destruct (sys_open p w) as [w1 r1] eqn:E1.
  apply (frame_sys_read P) in E1.
  assert (Hrest : Frame P (sys_touch;;* let* contents := sys_read_to_end p limit in ret (Some contents))).
  { apply frame_bind; [apply frame_touch|]. intros _.
    apply frame_bind; [apply frame_sys_read|intros; apply frame_ret]. }
  destruct r1 as [u|[k|]]; [|by destruct k; intros [= <- _]|by intros [= <- _]].
  intros Hr. eapply keeps_trans; [done|by eapply Hrest].
Qed.

Lemma frame_ensure (P : Path -> Prop) dir : P dir -> Frame P (ensure_private_dir dir).
Proof.
  intros Hd w w' r. unfold ensure_private_dir.
  destruct (sys_mkdir dir DIR_MODE w) as [w1 r1] eqn:E1. apply (frame_make P) in E1; [|by left].
  assert (Hp : Frame P (sync_parent dir)).
  { destruct dir; [apply frame_bind; [|intros]; apply frame_touch|apply frame_sync]. }
  assert (Ht : Frame P (tighten_dir dir)).
  { apply frame_bind; [apply frame_sys_read|]. intros [m c|m]; [apply frame_fail|].
    destruct (negb _); [apply frame_fail|]. destruct (negb _); [|apply frame_ret].
    apply frame_sys_write. intros t t'. destruct (t !! dir) as [[]|]; intros [= <-];
      apply keeps_insert; by left. }
  destruct r1 as [u|[k|]]; [intros Hr; eapply keeps_trans; [done|by eapply Hp]| |by intros [= <- _]].
  destruct k; try (by intros [= <- _]). intros Hr. eapply keeps_trans; [done|by eapply Ht].
Qed.

(** ** Reading *)

(** What a successful read found. *)
Lemma read_file_ok p limit w w' o :
  read_file p limit w = (w', Ok o) ->
  w_tree w' = w_tree w /\
  match w_tree w !! p with
  | None => o = None
  | Some (File _ c) => o = Some (read_limited limit c)
  | Some (Directory _) => False
  end.
Proof.
  unfold read_file. destruct (sys_open p w) as [w1 r1] eqn:E1.
  apply sys_read_spec in E1 as [Ht Hr]. intros H.
  destruct r1 as [u|e].
  - peel H w2 u2 H2. apply sys_read_spec in H2 as [Ht2 _].
    peel H w3 c H3. apply sys_read_spec in H3 as [Ht3 Hc]. injection H as <- <-.
    rewrite Ht3, Ht2, Ht in *. split; [done|].
    destruct Hc as [Hc|[k [=]]].
    destruct (w_tree w !! p) as [[m c'|m]|]; [by injection Hc as <-|done|done].
  - destruct e as [[]|]; try done. injection H as <- <-. split; [done|].
    destruct Hr as [Hr|[k Hk]]; [|by destruct k].
    destruct (w_tree w !! p); [done|done].
Qed.

Lemma read_file_tree p limit w w' r : read_file p limit w = (w', r) -> w_tree w' = w_tree w.
Proof.
  unfold read_file. destruct (sys_open p w) as [w1 r1] eqn:E1. apply sys_read_spec in E1 as [Ht _].
  destruct r1 as [u|[k|]]; [|by destruct k; intros [= <- _]|by intros [= <- _]].
  unfold mbind_st. destruct (sys_touch w1) as [w2 [u2|e2]] eqn:E2; apply sys_read_spec in E2 as [Ht2 _].
  - destruct (sys_read_to_end p limit w2) as [w3 [c|e3]] eqn:E3; apply sys_read_spec in E3 as [Ht3 _];
      intros [= <- _]; congruence.
  - intros [= <- _]. congruence.
Qed.

(** ** Temporary files *)

Lemma temp_path_snoc (dir : Path) name : temp_path (dir ++ [name]) = is_temp_name name.
Proof. unfold temp_path. by rewrite last_snoc. Qed.

Lemma temp_name_ok w w' name : temp_name w = (w', Ok name) -> is_temp_name name = true /\ w_tree w' = w_tree w.
Proof.
  intros H. peel H w1 b Hb. injection H as <- <-. split; [by apply bytes_eqb_spec|].
  unfold sys_random in Hb. by destruct (w_os_random w) as [|[d|] l]; simplify_eq/=.
Qed.

Lemma write_temp_spec n dir contents w w' r :
  write_temp_file_attempts n dir contents w = (w', r) ->
  keeps nothing (w_tree w) (w_tree w') /\
  (forall p, r = Ok p -> temp_path p = true /\ w_tree w' !! p = Some (File FILE_MODE contents)).
Proof.
  revert w. induction n as [|n IH]; intros w; cbn [write_temp_file_attempts].
  { by intros [= <- <-]. }
  unfold mbind_st at 1. destruct (temp_name w) as [w1 [name|e]] eqn:En.
  2: { intros [= <- <-]. split; [|done].
       apply (frame_bind nothing (sys_random 8) _ (frame_random _ _)) in En; [done|].
       intros; apply frame_ret. }
  apply temp_name_ok in En as [Hn Ht1]. cbv zeta.
  set (p := dir ++ [name]). assert (Hp : temp_path p = true) by (by unfold p; rewrite temp_path_snoc).
  destruct (sys_create_new p FILE_MODE w1) as [w2 r2] eqn:E2.
  pose proof (frame_make nothing p (File FILE_MODE []) (or_intror Hp) _ _ _ E2) as Hk2. rewrite Ht1 in Hk2.
  apply sys_write_spec in E2.
  assert (Hre : Frame nothing (on_error (sys_write_all p contents;;* sys_touch) (ignore (remove_file_if_present p)))).
  { apply frame_on_error; [|apply frame_ignore, frame_remove; by right].
    apply frame_bind; [|intros; apply frame_touch]. intros x x' y.
    unfold sys_write_all, sys, write_contents.
    destruct (w_faults x) as [|[|k m] l]; intros [= <- _]; simpl;
      (destruct (w_tree x !! p) as [[]|]; [apply keeps_insert; by right|done|done]). }
  destruct r2 as [u|[k|]].
  - apply make_entry_ok in E2 as [Habs Ht2]. intros H.
    unfold mbind_st at 1 in H.
    destruct (on_error _ _ w2) as [w3 [u3|e3]] eqn:E3.
    + pose proof (Hre _ _ _ E3) as Hk3. injection H as <- <-.
      split; [by eapply keeps_trans|]. intros q [= <-]. split; [done|].
      unfold on_error in E3. destruct ((sys_write_all p contents;;* sys_touch) w2) as [w4 [u4|e4]] eqn:E4;
        [|done]. injection E3 as <- <-. peel E4 w5 u5 H5. apply sys_read_spec in E4 as [-> _].
      unfold sys_write_all, sys, write_contents in H5. rewrite Ht2 in H5.
      rewrite lookup_insert_eq in H5.
      by destruct (w_faults w2) as [|[|]]; simplify_eq/=; rewrite lookup_insert_eq.
    + injection H as <- <-. split; [|done]. eapply keeps_trans; [done|by eapply Hre].
  - destruct E2 as [Ht2 _].
    destruct k; try (by intros [= <- <-]; split). intros H. apply IH in H as [Hk H].
    split; [by eapply keeps_trans|done].
  - done.
Qed.

(** A temporary file is made in a directory. *)
Lemma write_temp_in_dir n dir contents w w' p :
  write_temp_file_attempts n dir contents w = (w', Ok p) -> is_dir (w_tree w !! dir) = true.
Proof.
  revert w. induction n as [|n IH]; intros w; cbn [write_temp_file_attempts]; [done|].
  intros H. peel H w1 name Hn. apply temp_name_ok in Hn as [_ Ht]. cbv zeta in H.
  destruct (sys_create_new (dir ++ [name]) FILE_MODE w1) as [w2 r2] eqn:E2.
  apply sys_write_spec in E2. destruct r2 as [u|[k|]]; [| |done].
  - unfold make_entry in E2. rewrite Ht in E2. unfold parent in E2. rewrite removelast_last in E2.
    destruct (w_tree w !! (dir ++ [name])); [done|]. by destruct (is_dir (w_tree w !! dir)).
  - destruct E2 as [Ht2 _]. destruct k; try done. apply IH in H. by rewrite Ht2, Ht in H.
Qed.

Lemma frame_write_temp P dir contents : Frame P (write_temp_file dir contents).
Proof.
  intros w w' r Hr. apply write_temp_spec in Hr as [Hk _]. eapply keeps_mono; [|exact Hk].
  by intros p [].
Qed.

(** ** Replacement *)

(** Renaming a temporary file of [contents] over [target]: on success it is
    there, on failure nothing but temporary files changed. *)
Lemma install_spec temp target contents w w' r :
  temp_path temp = true -> temp_path target = false ->
  w_tree w !! temp = Some (File FILE_MODE contents) ->
  install temp target w = (w', r) ->
  match r with
  | Ok _ => keeps (eq target) (w_tree w) (w_tree w') /\ w_tree w' !! target = Some (File FILE_MODE contents)
  | Err _ => keeps nothing (w_tree w) (w_tree w')
  end.
Proof.
  intros Ht Htg Hf. unfold install, on_error, rename.
  destruct (sys_rename temp target w) as [w1 [u|e]] eqn:E1; apply sys_write_spec in E1.
  - intros [= <- <-]. unfold rename_in in E1. rewrite Hf in E1.
    assert (Hok : is_dir (w_tree w !! parent target) = true /\
      w_tree w1 = <[target := File FILE_MODE contents]> (delete temp (w_tree w))).
    { destruct (w_tree w !! target) as [[]|]; [|done|];
        destruct (is_dir _); simplify_eq; try done; (split; [done|congruence]). }
    destruct Hok as [_ ->]. split; [|by rewrite lookup_insert_eq].
    eapply keeps_trans; [apply (keeps_delete _ _ temp); by right|apply keeps_insert; by left].
  - destruct (ignore (remove_file_if_present temp) w1) as [w2 r2] eqn:E2. intros [= <- <-].
    apply (frame_ignore nothing) in E2; [|apply frame_remove; by right].
    destruct e as [k|]; [|done]. destruct E1 as [Ht1 _]. by rewrite Ht1 in E2.
Qed.

(** The steps every replacement shares. *)
Lemma stage_spec dir name contents w w' r :
  is_temp_name name = false ->
  (let* temp := write_temp_file dir contents in install temp (dir ++ [name])) w = (w', r) ->
  match r with
  | Ok _ => keeps (eq (dir ++ [name])) (w_tree w) (w_tree w') /\
            w_tree w' !! (dir ++ [name]) = Some (File FILE_MODE contents)
  | Err _ => keeps nothing (w_tree w) (w_tree w')
  end.
Proof.
  intros Hn. unfold mbind_st. destruct (write_temp_file dir contents w) as [w1 [temp|e]] eqn:E1;
    apply write_temp_spec in E1 as [Hk Hp]; [|by intros [= <- <-]].
  destruct (Hp temp eq_refl) as [Ht Hf]. intros H.
  apply (install_spec _ _ contents) in H; [|done|by rewrite temp_path_snoc|done].
  destruct r; [destruct H as [Hk2 Hl]; split; [|done]|by eapply keeps_trans].
  eapply keeps_trans; [|done]. eapply keeps_mono; [|exact Hk]. by intros ? [].
Qed.

Lemma assoc_stage {B} dir name contents (k : M World B FsError) w :
  (let* temp := write_temp_file dir contents in install temp (dir ++ [name]);;* k) w =
  ((let* temp := write_temp_file dir contents in install temp (dir ++ [name]));;* k) w.
Proof. unfold mbind_st. by destruct (write_temp_file dir contents w) as [w1 [temp|e]]. Qed.

(** What a replacement of [p] by [contents] leaves: the old file or the new. *)
Definition replaced (p : Path) (contents : bytes) (t t' : Tree) : Prop :=
  keeps (eq p) t t' /\ t' !! p = Some (File FILE_MODE contents).

Lemma keeps_any P t t' : keeps nothing t t' -> keeps P t t'.
Proof. apply keeps_mono. by intros p []. Qed.

Lemma replace_file_with_spec dir name contents commits w w' r :
  is_temp_name name = false ->
  replace_file_with dir name contents commits w = (w', r) ->
  match r with
  | Ok _ => replaced (dir ++ [name]) contents (w_tree w) (w_tree w')
  | Err _ => keeps nothing (w_tree w) (w_tree w') \/
             (commits = false /\ replaced (dir ++ [name]) contents (w_tree w) (w_tree w'))
  end.
Proof.
  intros Hn. unfold replace_file_with. rewrite assoc_stage. unfold mbind_st at 1.
  destruct (mbind_st _ _ w) as [w1 [u|e]] eqn:E1; apply stage_spec in E1; [|done| |done].
  - destruct E1 as [Hk Hl]. destruct (sync_dir dir w1) as [w2 r2] eqn:E2.
    pose proof (frame_sync nothing _ _ _ _ E2) as Hk2.
    assert (Hrep : replaced (dir ++ [name]) contents (w_tree w) (w_tree w2)).
    { split; [eapply keeps_trans; [done|by apply keeps_any]|].
      rewrite Hk2; [done|by intros []|by rewrite temp_path_snoc]. }
    destruct r2 as [u2|e2]; [by intros [= <- <-]|]. destruct commits; intros [= <- <-]; auto.
  - intros [= <- <-]. by left.
Qed.

Lemma replace_pin_state_spec dir name contents w w' r :
  is_temp_name name = false ->
  replace_pin_state dir name contents w = (w', r) ->
  match r with
  | Ok _ => replaced (dir ++ [name]) contents (w_tree w) (w_tree w')
  | Err _ => keeps nothing (w_tree w) (w_tree w')
  end.
Proof.
  intros Hn. unfold replace_pin_state. rewrite assoc_stage. unfold mbind_st at 1.
  destruct (mbind_st _ _ w) as [w1 [u|e]] eqn:E1; apply stage_spec in E1; [|done| |done].
  - destruct E1 as [Hk Hl]. destruct (sync_dir_strict dir w1) as [w2 r2] eqn:E2.
    pose proof (frame_sync_strict nothing _ _ _ _ E2) as Hk2.
    assert (Hrep : replaced (dir ++ [name]) contents (w_tree w) (w_tree w2)).
    { split; [eapply keeps_trans; [done|by apply keeps_any]|].
      rewrite Hk2; [done|by intros []|by rewrite temp_path_snoc]. }
    destruct r2; intros [= <- <-]; done.
  - by intros [= <- <-].
Qed.

Lemma frame_replace (P : Path -> Prop) dir name contents commits :
  is_temp_name name = false -> P (dir ++ [name]) -> Frame P (replace_file_with dir name contents commits).
Proof.
  intros Hn Hp w w' r H. apply replace_file_with_spec in H; [|done].
  assert (Hr : replaced (dir ++ [name]) contents (w_tree w) (w_tree w') -> keeps P (w_tree w) (w_tree w')).
  { intros [Hk _]. eapply keeps_mono; [|exact Hk]. by intros ? <-. }
  destruct r; [auto|]. destruct H as [H|[_ H]]; [by apply keeps_any|auto].
Qed.

Lemma frame_install (P : Path -> Prop) dir name contents :
  is_temp_name name = false -> P (dir ++ [name]) ->
  Frame P (let* temp := write_temp_file dir contents in install temp (dir ++ [name])).
Proof.
  intros Hn Hp w w' r H. apply stage_spec in H; [|done]. destruct r; [|by apply keeps_any].
  destruct H as [Hk _]. eapply keeps_mono; [|exact Hk]. by intros ? <-.
Qed.

(** A file that is created exclusively: never over an existing one. *)
Lemma create_exclusive_spec dir name contents w w' r :
  is_temp_name name = false ->
  create_file_exclusive dir name contents w = (w', r) ->
  match r with
  | Ok true => w_tree w !! (dir ++ [name]) = None /\
               replaced (dir ++ [name]) contents (w_tree w) (w_tree w')
  | Ok false => keeps nothing (w_tree w) (w_tree w')
  | Err _ => keeps nothing (w_tree w) (w_tree w') \/
             (w_tree w !! (dir ++ [name]) = None /\
              replaced (dir ++ [name]) contents (w_tree w) (w_tree w'))
  end.
Proof.
  intros Hn. unfold create_file_exclusive. unfold mbind_st at 1.
  destruct (write_temp_file dir contents w) as [w1 [temp|e]] eqn:E1;
    apply write_temp_spec in E1 as [Hk Hp]; [|intros [= <- <-]; by left].
  destruct (Hp temp eq_refl) as [Ht Hf]. clear Hp.
  assert (Htg : temp_path (dir ++ [name]) = false) by by rewrite temp_path_snoc.
  destruct (hard_link temp (dir ++ [name]) w1) as [w2 linked] eqn:E2.
  unfold hard_link in E2. apply sys_write_spec in E2. cbv beta in E2. rewrite Hf in E2.
  destruct (remove_file_if_present temp w2) as [w3 r3] eqn:E3. simpl.
  pose proof (frame_remove nothing temp (or_intror Ht) _ _ _ E3) as Hk3.
  destruct linked as [u|[k|]].
  - apply make_entry_ok in E2 as [Hnone Ht2].
    assert (Habs : w_tree w !! (dir ++ [name]) = None) by (rewrite <- (Hk _ (fun F => F) Htg); done).
    assert (Hrep : replaced (dir ++ [name]) contents (w_tree w) (w_tree w3)).
    { split.
      - eapply keeps_trans; [apply keeps_any; exact Hk|]. eapply keeps_trans; [|apply keeps_any; exact Hk3].
        rewrite Ht2. apply keeps_insert. by left.
      - rewrite Hk3; [|by intros []|done]. rewrite Ht2. apply lookup_insert_eq. }
    unfold mbind_st. destruct (sync_dir dir w3) as [w4 [u4|e4]] eqn:E4;
      pose proof (frame_sync nothing _ _ _ _ E4) as Hk4; intros [= <- <-];
      assert (replaced (dir ++ [name]) contents (w_tree w) (w_tree w4)) by
        (destruct Hrep as [Ha Hb]; split;
          [eapply keeps_trans; [done|by apply keeps_any]|by rewrite Hk4; [|by intros []|]]); auto.
  - destruct E2 as [Ht2 _].
    assert (Hall : keeps nothing (w_tree w) (w_tree w3)).
    { eapply keeps_trans; [exact Hk|]. by rewrite <- Ht2. }
    destruct k; intros [= <- <-]; auto.
  - done.
Qed.

(** ** Moving a directory *)

Lemma strip_app (p q : Path) : strip p (p ++ q) = Some q.
Proof. induction p as [|x p IH]; simpl; [done|]. by rewrite bool_decide_eq_true_2. Qed.

Lemma strip_some (p q r : Path) : strip p q = Some r -> q = p ++ r.
Proof.
  revert q. induction p as [|x p IH]; intros q; simpl; [by intros [= <-]|].
  destruct q as [|y q]; [done|]. case_bool_decide; [|done]. subst. intros H. by rewrite (IH _ H).
Qed.

(** Neither path lies below the other. *)
Definition apart (p q : Path) : Prop := forall r, strip p (q ++ r) = None /\ strip q (p ++ r) = None.

Lemma move_path_inj from to p q : apart from to -> strip to p = None -> strip to q = None ->
  move_path from to p = move_path from to q -> p = q.
Proof.
  intros Hap Hp Hq. unfold move_path.
  destruct (strip from p) as [r1|] eqn:E1, (strip from q) as [r2|] eqn:E2; try done.
  - intros H%app_inv_head. apply strip_some in E1, E2. congruence.
  - intros <-. by rewrite strip_app in Hq.
  - intros ->. by rewrite strip_app in Hp.
Qed.

Lemma move_tree_lookup from to t p : apart from to ->
  move_tree from to t !! p =
  match strip to p with
  | Some r => t !! (from ++ r)
  | None => match strip from p with Some _ => None | None => t !! p end
  end.
Proof.
  intros Hap. unfold move_tree.
  set (l := filter _ _). set (f := fun e : Path * Node => (move_path from to (fst e), snd e)).
  assert (Hl : forall q n, (q, n) ∈ l <-> t !! q = Some n /\ strip to q = None).
  { intros q n. unfold l. rewrite list_elem_of_filter. simpl. rewrite elem_of_map_to_list. tauto. }
  assert (Hnd : NoDup (map f l).*1).
  { assert (Hnl : NoDup l.*1).
    { unfold l. eapply sublist_NoDup; [apply (NoDup_fst_map_to_list t)|].
      apply fmap_sublist, sublist_filter. }
    assert (Hin : forall e, e ∈ l -> strip to (fst e) = None) by (intros [q n] He; by apply Hl in He as [_ ?]).
    revert Hnl Hin. clear -Hap. induction l as [|[q n] l IH]; simpl; intros Hnl Hin; [constructor|].
    apply NoDup_cons in Hnl as [Hq Hnl]. apply NoDup_cons. split.
    - intros Hm. apply list_elem_of_fmap in Hm as (e & Hx & Hm).
      apply list_elem_of_In, in_map_iff in Hm as ([q' n'] & <- & Hm). simpl in Hx.
      apply list_elem_of_In in Hm.
      apply move_path_inj in Hx as ->; [|done|by apply (Hin (q, n)); left|by apply (Hin (q', n')); right].
      apply Hq. change q' with (fst (q', n')). by apply list_elem_of_fmap_2.
    - apply IH; [done|]. intros e He. apply Hin. by right. }
  assert (Hin : forall n, (list_to_map (map f l) : gmap Path Node) !! p = Some n <->
    exists q, t !! q = Some n /\ strip to q = None /\ move_path from to q = p).
  { intros n. rewrite <- elem_of_list_to_map by done. rewrite list_elem_of_In, in_map_iff. split.
    - intros ([q n'] & Hf & Hq). apply list_elem_of_In, Hl in Hq as [? ?]. unfold f in Hf.
      simplify_eq/=. eauto.
    - intros (q & Hq & Hs & <-). exists (q, n). split; [done|]. by apply list_elem_of_In, Hl. }
  apply option_eq. intros n. rewrite Hin. clear Hin Hnd Hl f l. split.
  - intros (q & Hq & Hs & Hm). unfold move_path in Hm. destruct (strip from q) as [r|] eqn:E.
    + subst p. rewrite strip_app. apply strip_some in E. by subst.
    + subst q. by rewrite Hs, E.
  - destruct (strip to p) as [r|] eqn:E.
    + intros Hq. exists (from ++ r). apply strip_some in E. subst p.
      split; [done|]. split; [apply (Hap r)|]. unfold move_path. by rewrite strip_app.
    + destruct (strip from p) eqn:E2; [done|]. intros Hq. exists p. unfold move_path. by rewrite E2.
Qed.

Lemma frame_move (P : Path -> Prop) from to : apart from to ->
  temp_path from = false ->
  (forall r, P (from ++ r)) -> (forall r, P (to ++ r)) -> Frame P (rename from to).
Proof.
  intros Hap Htf Hf Ht. apply frame_sys_write. intros t t' Hr p Hp _.
  assert (Hnf : strip from p = None).
  { destruct (strip from p) eqn:E; [|done]. apply strip_some in E as ->. by destruct Hp. }
  assert (Hnt : strip to p = None).
  { destruct (strip to p) eqn:E; [|done]. apply strip_some in E as ->. by destruct Hp. }
  assert (Hne : from <> p /\ to <> p).
  { split; intros <-; [pose proof (strip_app from []) as Hs|pose proof (strip_app to []) as Hs];
      rewrite app_nil_r in Hs; congruence. }
  unfold rename_in in Hr. destruct (t !! from) as [[m c|m]|]; [| |done].
  - destruct (t !! to) as [[]|]; try done; (destruct (is_dir _); [|done]); injection Hr as <-;
      by rewrite lookup_insert_ne, lookup_delete_ne by apply Hne.
  - destruct (t !! to) as [[]|]; try done; (destruct (is_dir _); [|done]); simpl in Hr;
      (destruct (_ =? 0)%nat; [|done]); injection Hr as <-; by rewrite move_tree_lookup, Hnt, Hnf.
Qed.
