(* ===== verification/FileStoreProofs.v ===== *)
(** * The file store keeps what the engine relies on ([store/file.rs])

    Every read leaves the tree alone; every operation but a reset leaves the
    keys in use and the objects it does not name alone, whatever calls fail and
    wherever the process stops.  [FileStore] therefore meets the law classes
    for the PIN state, the large-blob array, the signature counter and sealed
    credential IDs. *)

From stdpp Require Import gmap strings.
From S2P Require Import Prelude Constants Alg Crypto Records Envelope Store Cbor Codec CodecProofs FileSystem Manifest StoreKeys FileStore FsProofs.

(** ** Reads *)

Definition ReadOnly {A E} (m : M World A E) : Prop :=
  forall w w' r, m w = (w', r) -> w_tree w' = w_tree w.

Lemma ro_ret {A E} (a : A) : ReadOnly (ret a : M World A E).
Proof. by intros w w' r [= <- _]. Qed.

Lemma ro_fail {A E} (e : E) : ReadOnly (fail e : M World A E).
Proof. by intros w w' r [= <- _]. Qed.

Lemma ro_lift {A E} (x : result A E) : ReadOnly (lift x : M World A E).
Proof. by intros w w' r [= <- _]. Qed.

Lemma ro_guard {E} b (e : E) : ReadOnly (guard b e : M World unit E).
Proof. destruct b; [apply ro_ret|apply ro_fail]. Qed.

Lemma ro_bind {A B E} (m : M World A E) (k : A -> M World B E) :
  ReadOnly m -> (forall a, ReadOnly (k a)) -> ReadOnly (mbind_st m k).
Proof.
  intros Hm Hk w w' r. unfold mbind_st. destruct (m w) as [w1 [a|e]] eqn:E1; apply Hm in E1.
  - intros H. apply Hk in H. congruence.
  - by intros [= <- _].
Qed.

Lemma ro_io {A} (m : M World A FsError) : ReadOnly m -> ReadOnly (io m).
Proof. intros Hm w w' r. unfold io. destruct (m w) as [w1 r1] eqn:E1. intros [= <- _]. by apply Hm in E1. Qed.

Lemma ro_ignore {A E E'} (m : M World A E) : ReadOnly m -> ReadOnly (ignore m : M World unit E').
Proof.
  intros Hm w w' r. unfold ignore. destruct (m w) as [w1 r1] eqn:E1. intros [= <- _]. by apply Hm in E1.
Qed.

Lemma ro_catch {A} (m : M World A FsError) kind k : ReadOnly m -> ReadOnly k -> ReadOnly (catch m kind k).
Proof.
  intros Hm Hk w w' r. unfold catch. destruct (m w) as [w1 [a|[k'|]]] eqn:E1; apply Hm in E1.
  - by intros [= <- _].
  - case_bool_decide; intros Hr; [apply Hk in Hr; congruence|by injection Hr as <- _].
  - by intros [= <- _].
Qed.

Lemma ro_sys_read {A : Type} (act : Tree -> result A ErrorKind) : ReadOnly (sys_read act).
Proof. intros w w' r Hr. by apply sys_read_spec in Hr as [-> _]. Qed.

Lemma ro_random n : ReadOnly (sys_random n).
Proof. intros w w' r. unfold sys_random. by destruct (w_os_random w) as [|[d|] l]; intros [= <- _]. Qed.

Lemma ro_read_file p limit : ReadOnly (read_file p limit).
Proof. intros w w' r. apply read_file_tree. Qed.

Lemma ro_frame {A E} P (m : M World A E) : ReadOnly m -> Frame P m.
Proof. intros Hm w w' r H. rewrite (Hm _ _ _ H). apply keeps_refl. Qed.

Create HintDb fs.

#[export] Hint Resolve ro_ret ro_fail ro_lift ro_guard ro_sys_read ro_random ro_read_file : fs.

(** Walk through a read-only operation. *)
Ltac ro_step :=
  first [ solve [auto with fs]
        | apply ro_sys_read | apply ro_io | apply ro_ignore
        | apply ro_catch
        | apply ro_bind; [|intros ?]
        | match goal with
          | |- ReadOnly (match ?x with _ => _ end) => destruct x
          | |- ReadOnly (if ?x then _ else _) => destruct x
          end ].

Ltac ro_solve := repeat ro_step.

Lemma ro_exists p : ReadOnly (exists_path p).
Proof. unfold exists_path. ro_solve. Qed.

Lemma ro_or_else a b : ReadOnly a -> ReadOnly b -> ReadOnly (or_else a b).
Proof. intros. unfold or_else. ro_solve. Qed.

Lemma ro_load d : ReadOnly (load d).
Proof. unfold load. ro_solve. Qed.

Lemma ro_record_names names : ReadOnly (record_names names).
Proof. induction names; cbn [record_names]; ro_solve. Qed.

Lemma ro_credential_file_names : ReadOnly credential_file_names.
Proof.
  apply ro_io. intros w w' r. destruct (sys_read_dir [CREDENTIALS_DIR] w) as [w1 r1] eqn:E1.
  apply ro_sys_read in E1. destruct r1 as [names|[k|]].
  - intros H. apply ro_record_names in H. congruence.
  - by destruct k; intros [= <- _].
  - by intros [= <- _].
Qed.

#[export] Hint Resolve ro_exists ro_or_else ro_load ro_credential_file_names : fs.

Lemma ro_has_data d : ReadOnly (has_data d).
Proof. destruct d; unfold has_data; repeat (apply ro_or_else; [auto with fs|]); ro_solve. Qed.

#[export] Hint Resolve ro_has_data : fs.

Lemma ro_root_key_for_read d : ReadOnly (root_key_for_read d).
Proof. unfold root_key_for_read. ro_solve. Qed.

#[export] Hint Resolve ro_root_key_for_read : fs.

Section Reads.

Context `{Crypto} `{Ciborium} `{RecordReader}.

Lemma ro_credential_keys : ReadOnly credential_keys.
Proof. unfold credential_keys. ro_solve. Qed.

Lemma ro_read_object {A} key ty p (decode : bytes -> result A Corruption) :
  ReadOnly (read_object key ty p decode).
Proof. unfold read_object. ro_solve. Qed.

Lemma ro_seal key ty name plaintext : ReadOnly (seal key ty name plaintext).
Proof. unfold seal. ro_solve. Qed.

Lemma ro_read_credential_in keys name dir location : ReadOnly (read_credential_in keys name dir location).
Proof. unfold read_credential_in. ro_solve. Qed.

#[local] Hint Resolve ro_credential_keys ro_read_object ro_seal ro_read_credential_in : fs.

Lemma ro_object_or_damage {A} p (m : M World (option A) StoreError) :
  ReadOnly m -> ReadOnly (object_or_damage p m).
Proof.
  intros Hm w w' r. unfold object_or_damage.
  destruct (m w) as [w1 [[x|]|e]] eqn:E1; apply Hm in E1; by intros [= <- _].
Qed.

Lemma ro_membership keys : ReadOnly (membership keys).
Proof.
  unfold membership. apply ro_bind; [auto with fs|]. intros managed.
  destruct (negb managed); [ro_solve|]. intros w w' r.
  assert (Hm : ReadOnly (format_marker keys;;* manifest keys)).
  { apply ro_bind; [apply ro_object_or_damage; auto with fs|]. intros _.
    apply ro_object_or_damage. auto with fs. }
  destruct (mbind_st _ _ w) as [w1 [m|d]] eqn:E1; apply Hm in E1; by intros [= <- _].
Qed.

#[local] Hint Resolve ro_membership : fs.

Lemma ro_active_manifest keys : ReadOnly (active_manifest keys).
Proof. unfold active_manifest. ro_solve. Qed.

Lemma ro_scan_members keys dir members : ReadOnly (scan_members keys dir members).
Proof.
  induction members as [|[name location] rest IH]; cbn [scan_members]; [auto with fs|].
  intros w w' r. destruct (read_credential_in _ _ _ _ w) as [w1 [[x|]|e]] eqn:E1;
    apply ro_read_credential_in in E1; intros Hr; [|apply IH in Hr; congruence..].
  assert (Hk : ReadOnly (let* records := scan_members keys dir rest in
    (ret (x :: records) : M World _ StoreError))) by ro_solve.
  apply Hk in Hr. congruence.
Qed.

Lemma ro_read_members keys dir members : ReadOnly (read_members keys dir members).
Proof. induction members as [|[name location] rest IH]; cbn [read_members]; ro_solve. Qed.

#[local] Hint Resolve ro_active_manifest ro_scan_members ro_read_members : fs.

Lemma ro_scan keys : ReadOnly (scan keys).
Proof. unfold scan. ro_solve. Qed.

Lemma ro_replacement_records keys m : ReadOnly (replacement_records keys m).
Proof. unfold replacement_records. ro_solve. Qed.

#[local] Hint Resolve ro_scan ro_replacement_records : fs.

Lemma ro_creation_order max keys name dir location : ReadOnly (creation_order max keys name dir location).
Proof.
  intros w w' r. unfold creation_order.
  assert (Hf : ReadOnly (let* current := scan keys in
    guard (negb (max <=? zlen current)) (Full max);;* ret (next_created_at current))) by ro_solve.
  destruct (read_credential_in _ _ _ _ w) as [w1 [[x|]|e]] eqn:E1; apply ro_read_credential_in in E1.
  - by intros [= <- _].
  - intros Hr. apply Hf in Hr. congruence.
  - destruct e; try (by intros [= <- _]). intros Hr. apply Hf in Hr. congruence.
Qed.

Lemma ro_seal_credential_record keys r c name location : ReadOnly (seal_credential_record keys r c name location).
Proof. unfold seal_credential_record. ro_solve. Qed.

Lemma ro_file_get id : ReadOnly (file_get id).
Proof. unfold file_get. ro_solve. Qed.

Lemma ro_file_list : ReadOnly file_list.
Proof. unfold file_list. ro_solve. Qed.

Lemma ro_file_count : ReadOnly file_count.
Proof. unfold file_count. ro_solve. Qed.

Lemma ro_file_pin_state : ReadOnly file_pin_state.
Proof. unfold file_pin_state. ro_solve. Qed.

Lemma ro_file_counter : ReadOnly file_signature_counter.
Proof. unfold file_signature_counter. ro_solve. Qed.

Lemma ro_file_blobs : ReadOnly file_large_blob_array.
Proof. unfold file_large_blob_array. ro_solve. Qed.

Lemma ro_file_attestation : ReadOnly file_attestation.
Proof. unfold file_attestation. ro_solve. Qed.

Lemma ro_file_open b ad : ReadOnly (file_open_credential_id b ad).
Proof. unfold file_open_credential_id. ro_solve. Qed.

End Reads.

#[export] Hint Resolve ro_credential_keys ro_read_object ro_seal ro_read_credential_in ro_active_manifest
  ro_scan ro_replacement_records ro_creation_order ro_seal_credential_record : fs.

(** ** Keys *)

Definition key_view (d : KeyDomain) (t : Tree) : option bytes :=
  match t !! key_path d with
  | Some (File _ c) => match key_contents d (read_limited (Z.of_nat KEY_LEN) c) with Ok k => Some k | Err _ => None end
  | _ => None
  end.

Lemma exists_ok p w w' b :
  exists_path p w = (w', Ok b) -> w_tree w' = w_tree w /\ b = is_some (w_tree w !! p).
Proof.
  intros H. split; [by eapply ro_exists|]. unfold exists_path, io in H.
  destruct (catch _ _ _ w) as [w1 r1] eqn:E1. injection H as <- Hr. unfold catch in E1.
  destruct ((let* _ := sys_metadata p in ret true) w) as [w2 r2] eqn:E2.
  unfold mbind_st, ret in E1, E2. destruct (sys_metadata p w) as [w3 r3] eqn:E3.
  apply sys_read_spec in E3 as [Ht3 [->|[k ->]]].
  - destruct (w_tree w !! p) as [n|]; simplify_eq/=; [done|].
    case_bool_decide; by simplify_eq/=.
  - simplify_eq. destruct k; case_bool_decide; by simplify_eq/=.
Qed.

Lemma key_load_ok d w w' o :
  load d w = (w', Ok o) ->
  w_tree w' = w_tree w /\ o = key_view d (w_tree w) /\ (o = None -> w_tree w !! key_path d = None).
Proof.
  intros H. split; [by eapply ro_load|]. unfold load in H. peel H w1 c Hc.
  unfold io in Hc. destruct (read_file _ _ w) as [w2 r2] eqn:E2. injection Hc as -> Hr.
  destruct r2 as [o2|]; simplify_eq/=. apply read_file_ok in E2 as [Ht Hf]. unfold key_view.
  destruct (w_tree w !! key_path d) as [[m b|m]|]; [|done|]; subst c; [|by injection H as <- <-].
  peel H w3 u Hu. peel_lift H k Hk. injection H as <- <-. by rewrite Hk.
Qed.

Lemma generate_ok w w' key :
  generate w = (w', Ok key) ->
  w_tree w' = w_tree w /\ length key = 32%nat /\ forallb (fun b => b =? 0) key = false.
Proof.
  unfold generate, io, sys_random. destruct (w_os_random w) as [|[d|] l]; [done| |done].
  intros [= <- <-]. split; [done|]. split; [apply fill_bytes_length|]. apply (draw_nonzero d).
Qed.

Lemma key_view_file d m key t :
  t !! key_path d = Some (File m key) -> length key = 32%nat ->
  forallb (fun b => b =? 0) key = false -> key_view d t = Some key.
Proof.
  intros Hf Hl Hz. unfold key_view, key_contents, read_limited, KEY_LEN, zlen. rewrite Hf, Hl. simpl. by rewrite Hl, Hz.
Qed.

Lemma key_view_keeps P d t t' :
  keeps P t t' -> ~ P (key_path d) -> key_view d t' = key_view d t.
Proof. intros Hk Hp. unfold key_view. rewrite Hk; [done|done|by destruct d]. Qed.

Lemma create_attempts_spec n d w w' r :
  create_attempts n d w = (w', r) ->
  keeps (eq (key_path d)) (w_tree w) (w_tree w') /\
  (forall k, r = Ok k -> key_view d (w_tree w') = Some k).
Proof.
  revert w. induction n as [|n IH]; intros w; cbn [create_attempts]; [by intros [= <- <-]|].
  unfold mbind_st at 1. destruct (load d w) as [w1 [o|e]] eqn:E1.
  2: { apply ro_load in E1. intros [= <- <-]. rewrite E1. by split. }
  apply key_load_ok in E1 as (Ht1 & Ho & _). destruct o as [key|].
  { intros [= <- <-]. rewrite Ht1. split; [done|]. intros k [= <-]. done. }
  unfold mbind_st at 1. destruct (generate w1) as [w2 [key|e]] eqn:E2.
  2: { intros [= <- <-]. unfold generate in E2. apply (ro_io (sys_random KEY_LEN)) in E2; [|auto with fs].
       rewrite E2, Ht1. by split. }
  apply generate_ok in E2 as (Ht2 & Hl & Hz). rewrite Ht1 in Ht2.
  unfold mbind_st at 1, io.
  destruct (create_file_exclusive [KEYS_DIR] (key_file_name d) key w2) as [w3 r3] eqn:E3.
  apply create_exclusive_spec in E3; [|by destruct d].
  change ([KEYS_DIR] ++ [key_file_name d]) with (key_path d) in E3. rewrite Ht2 in E3.
  destruct r3 as [[]|e]; simpl.
  - destruct E3 as [_ [Hk Hf]]. intros [= <- <-]. split; [done|].
    intros k [= <-]. by eapply key_view_file.
  - intros H. apply IH in H as [Hk Hv]. split; [|done].
    eapply keeps_trans; [by apply keeps_any|done].
  - intros [= <- <-]. split; [|done]. destruct E3 as [E3|[_ [Hk _]]]; [by apply keeps_any|done].
Qed.

(** The paths creating a key changes. *)
Definition key_paths (d : KeyDomain) (p : Path) : Prop := p = [KEYS_DIR] \/ p = key_path d.

Lemma key_create_spec d w w' r :
  create d w = (w', r) ->
  keeps (key_paths d) (w_tree w) (w_tree w') /\ (forall k, r = Ok k -> key_view d (w_tree w') = Some k).
Proof.
  unfold create. unfold mbind_st, io.
  destruct (ensure_private_dir [KEYS_DIR] w) as [w1 r1] eqn:E1.
  apply (frame_ensure (key_paths d)) in E1; [|by left].
  destruct r1; cbn [map_err]; [|by intros [= <- <-]]. intros H. apply create_attempts_spec in H as [Hk Hv].
  split; [|done]. eapply keeps_trans; [done|]. eapply keeps_mono; [|exact Hk]. intros p <-. by right.
Qed.

Lemma io_ok {A} (m : M World A FsError) w w' a : io m w = (w', Ok a) -> m w = (w', Ok a).
Proof. unfold io. destruct (m w) as [w1 [x|e]]; by intros [= <- <-]. Qed.

Lemma children_spec (dir : Path) (t : Tree) (n : bytes) : n ∈ children dir t <-> is_Some (t !! (dir ++ [n])).
Proof.
  unfold children. rewrite list_elem_of_omap. split.
  - intros ([p node] & Hp & Hs). apply elem_of_map_to_list in Hp. simpl in Hs.
    destruct (strip dir p) as [[|x [|]]|] eqn:E; try done. injection Hs as <-.
    apply strip_some in E as ->. eauto.
  - intros [node Hn]. exists (dir ++ [n], node). split; [by apply elem_of_map_to_list|].
    simpl. by rewrite strip_app.
Qed.

Lemma record_names_ok names w w' found :
  record_names names w = (w', Ok found) -> found = List.filter is_credential_file_name names.
Proof.
  revert w w' found. induction names as [|n names IH]; intros w w' found; cbn [record_names].
  - by intros [= _ <-].
  - intros Hr. peel Hr w1 u Hu. peel Hr w2 rest Hrest. injection Hr as _ <-.
    apply IH in Hrest as ->. by simpl.
Qed.

Lemma credential_file_names_ok w w' names n :
  credential_file_names w = (w', Ok names) -> is_some (w_tree w !! [CREDENTIALS_DIR]) = true ->
  n ∈ names <-> is_credential_file_name n = true /\ is_Some (w_tree w !! [CREDENTIALS_DIR; n]).
Proof.
  intros Hr Hd. apply io_ok in Hr. destruct (sys_read_dir [CREDENTIALS_DIR] w) as [w1 r1] eqn:E1.
  apply sys_read_spec in E1 as [Ht Hs].
  destruct r1 as [l|[k|]]; [| |done].
  - apply record_names_ok in Hr as ->. destruct Hs as [Hs|[k [=]]].
    destruct (w_tree w !! [CREDENTIALS_DIR]) as [[]|]; simplify_eq/=.
    rewrite list_elem_of_In, filter_In, <- list_elem_of_In, children_spec. simpl. tauto.
  - destruct k; simplify_eq/=. destruct Hs as [Hs|[k Hk]]; [|by destruct k].
    by destruct (w_tree w !! [CREDENTIALS_DIR]) as [[]|].
Qed.

(** Nothing encrypted under the key exists. *)
Definition no_data (d : KeyDomain) (t : Tree) : Prop :=
  match d with
  | Device => t !! [ATTESTATION_FILE] = None
  | Credential => t !! [PIN_STATE_FILE] = None /\ t !! [SIGNATURE_COUNTER_FILE] = None /\
                  t !! [LARGE_BLOBS_FILE] = None /\ t !! [FORMAT_FILE] = None /\ t !! [MANAGED_DIR] = None /\
                  (is_some (t !! [CREDENTIALS_DIR]) = true -> forall n, is_credential_file_name n = true ->
                   t !! [CREDENTIALS_DIR; n] = None)
  end.

Lemma or_else_false a b w w' :
  or_else a b w = (w', Ok false) -> exists w1, a w = (w1, Ok false) /\ b w1 = (w', Ok false).
Proof. intros H. peel H w1 x Hx. destruct x; [done|]. eauto. Qed.

Lemma exists_none p w w' : exists_path p w = (w', Ok false) -> w_tree w' = w_tree w /\ w_tree w !! p = None.
Proof. intros [Ht Hb]%exists_ok. split; [done|]. by destruct (w_tree w !! p). Qed.

Lemma has_data_false d w w' : has_data d w = (w', Ok false) -> no_data d (w_tree w).
Proof.
  destruct d; cbn [has_data no_data]; [by intros [_ ?]%exists_none|]. intros H.
  apply or_else_false in H as (w1 & [Ht1 H1]%exists_none & H).
  apply or_else_false in H as (w2 & [Ht2 H2]%exists_none & H).
  apply or_else_false in H as (w3 & [Ht3 H3]%exists_none & H).
  apply or_else_false in H as (w4 & [Ht4 H4]%exists_none & H).
  apply or_else_false in H as (w5 & [Ht5 H5]%exists_none & H).
  peel H w6 names Hn. injection H as _ He.
  rewrite Ht4, Ht3, Ht2, Ht1 in *. repeat split; try done. intros Hd n Hs.
  destruct (w_tree w !! [CREDENTIALS_DIR; n]) as [node|] eqn:En; [|done].
  assert (Hin : n ∈ names).
  { apply (credential_file_names_ok w5 w6 names n Hn); rewrite Ht5; [done|]. eauto. }
  destruct names; [by apply not_elem_of_nil in Hin|done].
Qed.

(** A write's key is the one in use; it is created only when there is none and
    nothing depends on one. *)
Lemma write_key_spec d w w' r :
  root_key_for_write d w = (w', r) ->
  (forall k, r = Ok k -> key_view d (w_tree w') = Some k) /\
  (w_tree w' = w_tree w \/
   (w_tree w !! key_path d = None /\ no_data d (w_tree w) /\ keeps (key_paths d) (w_tree w) (w_tree w'))).
Proof.
  unfold root_key_for_write. unfold mbind_st at 1.
  destruct (load d w) as [w1 [o|e]] eqn:E1.
  2: { apply ro_load in E1. intros [= <- <-]. split; [done|by left]. }
  apply key_load_ok in E1 as (Ht1 & Ho & Hn). destruct o as [key|].
  { intros [= <- <-]. rewrite Ht1. split; [by intros k [= <-]|by left]. }
  unfold mbind_st. destruct (has_data d w1) as [w2 [b|e]] eqn:E2.
  2: { apply ro_has_data in E2. intros [= <- <-]. split; [done|]. left. congruence. }
  pose proof (ro_has_data _ _ _ _ E2) as Ht2. destruct b.
  { intros [= <- <-]. split; [done|]. left. congruence. }
  apply has_data_false in E2. rewrite Ht1 in E2. intros H. apply key_create_spec in H as [Hk Hv].
  rewrite Ht2, Ht1 in Hk. split; [done|]. right. split; [by apply Hn|done].
Qed.

Lemma read_key_ok d w w' o :
  root_key_for_read d w = (w', Ok o) -> w_tree w' = w_tree w /\ o = key_view d (w_tree w).
Proof.
  intros H. split; [by eapply ro_root_key_for_read|]. unfold root_key_for_read in H.
  peel H w1 k Hk. apply key_load_ok in Hk as (Ht & Hv & _). destruct k as [k|]; [by injection H as <- <-|].
  peel H w2 b Hb. destruct b; [done|]. by injection H as <- <-.
Qed.

(** ** What a step does to the objects *)

(** The three single-file objects under the credential key. *)
Definition objects : list Path := [[PIN_STATE_FILE]; [SIGNATURE_COUNTER_FILE]; [LARGE_BLOBS_FILE]].

(** The credential key stays, or there was none and no object either. *)
Definition key_step (t t' : Tree) : Prop :=
  t' !! key_path Credential = t !! key_path Credential \/
  (t !! key_path Credential = None /\ Forall (fun p => t !! p = None) objects).

(** Paths of the layout differ. *)
Ltac path_neq := repeat (intros [?|?] || intros ?); match goal with H : _ = _ |- False => vm_compute in H; discriminate H end.

(** A step that leaves the objects outside [P] as they were. *)
Definition op_step (P : Path -> Prop) (t t' : Tree) : Prop :=
  key_step t t' /\ forall p, p ∈ objects -> ~ P p -> t' !! p = t !! p.

Lemma object_not_temp p : p ∈ objects -> temp_path p = false.
Proof.
  unfold objects. rewrite !elem_of_cons. intros [->|[->|[->|H]]]; [reflexivity..|by apply not_elem_of_nil in H].
Qed.

Definition Step {A E} (P : Path -> Prop) (m : M World A E) : Prop :=
  forall w w' r, m w = (w', r) -> op_step P (w_tree w) (w_tree w').

(** Paths a frame may change without touching the credential key. *)
Definition spares_key (P : Path -> Prop) : Prop := ~ P (key_path Credential).

Lemma step_frame {A E} (P : Path -> Prop) (m : M World A E) : Frame P m -> spares_key P -> Step P m.
Proof.
  intros Hm Hp w w' r H. apply Hm in H. split; [left; by apply H|].
  intros p Ho Hq. apply H; [done|by apply object_not_temp].
Qed.

Lemma write_key_step d w w' r :
  root_key_for_write d w = (w', r) -> op_step nothing (w_tree w) (w_tree w').
Proof.
  intros H. apply write_key_spec in H as [_ [->|(Hn & Hd & Hk)]]; [split; [by left|done]|].
  assert (Hobj : forall p, p ∈ objects -> w_tree w' !! p = w_tree w !! p).
  { intros p Hp. apply Hk; [|by apply object_not_temp].
    revert Hp. unfold objects, key_paths. rewrite !elem_of_cons.
    intros [->|[->|[->|Hp]]]; [path_neq..|by apply not_elem_of_nil in Hp]. }
  split; [|auto]. destruct d; [left; apply Hk; [path_neq|done]|].
  right. split; [done|]. destruct Hd as (? & ? & ? & _). by repeat constructor.
Qed.

(** A write: the key first, then only paths of [P]. *)
Lemma step_write_key {A} (P : Path -> Prop) d (k : bytes -> M World A StoreError) :
  (forall root, Frame P (k root)) -> spares_key P ->
  Step P (let* root := root_key_for_write d in k root).
Proof.
  intros Hk Hp w w' r. unfold mbind_st.
  destruct (root_key_for_write d w) as [w1 [root|e]] eqn:E1; apply write_key_step in E1 as [Hs Ho].
  - intros H. apply Hk in H. split.
    + destruct Hs as [Hs|Hs]; [left|by right]. rewrite <- Hs. by apply H.
    + intros p Hob Hq. rewrite <- (Ho p Hob) by by intros []. apply H; [done|by apply object_not_temp].
  - intros [= <- _]. split; [done|]. intros p Hob _. by apply Ho; [|intros []].
Qed.

Lemma assoc_write_keys `{Crypto} {A} (k : CredentialKeys -> M World A StoreError) w :
  (let* keys := write_keys in k keys) w =
  (let* root := root_key_for_write Credential in k (derive_credential_keys root)) w.
Proof. unfold write_keys, mbind_st. by destruct (root_key_for_write Credential w) as [w1 [root|e]]. Qed.

Lemma step_write_keys `{Crypto} {A} (P : Path -> Prop) (k : CredentialKeys -> M World A StoreError) :
  (forall keys, Frame P (k keys)) -> spares_key P -> Step P (let* keys := write_keys in k keys).
Proof.
  intros Hk Hp w w' r. rewrite assoc_write_keys. apply step_write_key; [|done]. intros root. apply Hk.
Qed.

Lemma step_ro_bind {A B E} (P : Path -> Prop) (m : M World A E) (k : A -> M World B E) :
  ReadOnly m -> (forall a, Step P (k a)) -> Step P (mbind_st m k).
Proof.
  intros Hm Hk w w' r. unfold mbind_st. destruct (m w) as [w1 [a|e]] eqn:E1; apply Hm in E1; rewrite <- E1.
  - apply Hk.
  - intros [= <- _]. by split; [left|].
Qed.

(** ** Frames of the credential set *)

Definition in_set (p : Path) : Prop :=
  match p with
  | x :: _ => x = CREDENTIALS_DIR \/ x = MANAGED_DIR \/ x = FORMAT_FILE
  | [] => False
  end.

Lemma in_set_spares_key : spares_key in_set.
Proof. intros [?|[?|?]]; path_neq. Qed.

Lemma objects_not_in_set p : p ∈ objects -> ~ in_set p.
Proof.
  unfold objects. rewrite !elem_of_cons.
  intros [->|[->|[->|Hp]]]; [intros [?|[?|?]]; path_neq..|by apply not_elem_of_nil in Hp].
Qed.

(** A temporary file of [contents]. *)
Definition staged (temp : Path) (contents : bytes) (t : Tree) : Prop :=
  temp_path temp = true /\ t !! temp = Some (File FILE_MODE contents).

Lemma frame_bind_post {A B E} (P : Path -> Prop) (m : M World A E) (k : A -> M World B E) :
  Frame P m ->
  (forall w w1 a w' r, m w = (w1, Ok a) -> k a w1 = (w', r) -> keeps P (w_tree w1) (w_tree w')) ->
  Frame P (mbind_st m k).
Proof.
  intros Hm Hk w w' r. unfold mbind_st. destruct (m w) as [w1 [a|e]] eqn:E1.
  - intros H. eapply keeps_trans; [by eapply Hm|by eapply Hk].
  - intros [= <- _]. by eapply Hm.
Qed.

Lemma io_cases {A} (m : M World A FsError) w w' r : io m w = (w', r) ->
  exists r', m w = (w', r') /\ r = map_err to_store_error r'.
Proof. unfold io. destruct (m w) as [w1 r1]. intros [= <- <-]. eauto. Qed.

Lemma staged_install (P : Path -> Prop) temp target contents w w' r :
  staged temp contents (w_tree w) -> temp_path target = false -> P target ->
  io (install temp target) w = (w', r) -> keeps P (w_tree w) (w_tree w').
Proof.
  intros [Ht Hf] Htg Hp H. apply io_cases in H as (r' & H & _).
  eapply install_spec in H; [|done|done|done]. destruct r'; [|by apply keeps_any].
  destruct H as [Hk _]. eapply keeps_mono; [|exact Hk]. by intros ? <-.
Qed.

Lemma write_temp_staged dir contents w w' temp :
  io (write_temp_file dir contents) w = (w', Ok temp) -> staged temp contents (w_tree w').
Proof. intros H%io_ok. apply write_temp_spec in H as [_ H]. by apply H. Qed.

(** Staging, then installing. *)
Lemma frame_staged {A} (P : Path -> Prop) (m : M World Path StoreError) target (k : M World A StoreError) :
  Frame P m ->
  (forall w w1 temp, m w = (w1, Ok temp) -> exists contents, staged temp contents (w_tree w1)) ->
  temp_path target = false -> P target -> Frame P k ->
  Frame P (let* temp := m in io (install temp target);;* k).
Proof.
  intros Hm Hs Ht Hp Hk. apply frame_bind_post; [done|]. intros w w1 temp w' r E1 H.
  apply Hs in E1 as [c Hc]. unfold mbind_st in H.
  destruct (io (install temp target) w1) as [w2 [u|e]] eqn:E2.
  - eapply keeps_trans; [by eapply staged_install|by eapply Hk].
  - injection H as <- _. by eapply staged_install.
Qed.

Lemma hex_not_temp b : is_temp_name (hex b) = false.
Proof.
  unfold is_temp_name. destruct b as [|x b]; [done|].
  destruct (bytes_eqb _ _) eqn:E; [|done]. apply bytes_eqb_spec in E. exfalso.
  assert (Hd : hex_digit (Z.shiftr x 4) = 46) by (by injection E).
  unfold hex_digit in Hd. destruct (_ <? 10) eqn:Ed; bool_hyps; [|lia].
  assert (Hx : Z.shiftr x 4 = -2) by lia.
  injection E as _ E2 _. unfold hex_digit in E2.
  change 0x0f with (Z.ones 4) in E2. rewrite Z.land_ones in E2 by lia.
  pose proof (Z.mod_pos_bound x (2 ^ 4) ltac:(lia)). destruct (_ <? 10) in E2; lia.
Qed.

Section SetFrames.

Context `{Crypto} `{Ciborium} `{RecordReader}.

Lemma file_name_not_temp keys id : is_temp_name (file_name keys id) = false.
Proof. apply hex_not_temp. Qed.

Lemma prepare_staged keys m dir w w' temp :
  prepare_manifest keys m dir w = (w', Ok temp) -> exists contents, staged temp contents (w_tree w').
Proof.
  intros Hm. peel_lift Hm plain Hp. peel Hm w2 sealed Hs. apply write_temp_staged in Hm. eauto.
Qed.

Lemma frame_prepare P keys m dir : Frame P (prepare_manifest keys m dir).
Proof.
  unfold prepare_manifest. apply frame_bind; [apply frame_lift|]. intros plain.
  apply frame_bind; [apply ro_frame; auto with fs|]. intros sealed. apply frame_io, frame_write_temp.
Qed.

Lemma record_dir_in_set location name : in_set (record_dir location ++ [name]).
Proof. destruct location; simpl; auto. Qed.

Lemma frame_cleanup m : forall w, keeps in_set (w_tree w) (w_tree (fst (cleanup_retired m w))).
Proof.
  assert (Hloc : forall location, Frame in_set (cleanup_location m location)).
  { intros location. unfold cleanup_location. apply frame_bind; [apply frame_io, frame_sys_read|].
    intros names. apply frame_bind; [|intros; apply frame_io, frame_sync_strict].
    induction names as [|name names IH]; cbn [cleanup_entries]; [apply frame_ret|].
    apply frame_bind; [apply frame_io, frame_touch|]. intros _.
    apply frame_bind; [|intros _; exact IH].
    destruct (is_credential_file_name name); [|apply frame_ret].
    apply frame_bind.
    - unfold reclaimable, holds_record. apply ro_frame. ro_solve.
    - intros [|]; [|apply frame_ret]. apply frame_bind; [|intros; apply frame_ret].
      apply frame_io, frame_remove. left. apply record_dir_in_set. }
  intros w. unfold cleanup_retired.
  destruct (cleanup_location m Legacy w) as [w1 r1] eqn:E1.
  destruct (cleanup_location m Managed w1) as [w2 r2] eqn:E2. simpl.
  eapply keeps_trans; by eapply Hloc.
Qed.

Lemma frame_finish m dir : Frame in_set (finish_commit m dir).
Proof.
  intros w w' r. unfold finish_commit.
  assert (Hs : Frame in_set (sync_dir_strict dir;;*
    (if bool_decide (dir = []) then ret tt else sync_dir_strict []))).
  { apply frame_bind; [apply frame_sync_strict|]. intros _.
    destruct (bool_decide _); [apply frame_ret|apply frame_sync_strict]. }
  destruct (mbind_st _ _ w) as [w1 [u|e]] eqn:E1; apply Hs in E1.
  - pose proof (frame_cleanup m w1) as Hc.
    destruct (cleanup_retired m w1) as [w2 pending]. intros [= <- _]. by eapply keeps_trans.
  - by intros [= <- _].
Qed.

Lemma frame_publish keys m : Frame in_set (publish_manifest keys m).
Proof.
  unfold publish_manifest. apply frame_staged.
  - apply frame_prepare. - apply prepare_staged. - done. - simpl; auto. - apply frame_finish.
Qed.

Lemma frame_format_marker keys : Frame in_set (write_format_marker keys).
Proof.
  unfold write_format_marker, seal_format. apply frame_bind; [apply ro_frame; auto with fs|]. intros sealed.
  apply frame_bind; [|intros; apply frame_io, frame_sync_strict].
  apply frame_io, frame_replace; [done|]. simpl. auto.
Qed.

Lemma frame_migration keys m : Frame in_set (publish_migration keys m).
Proof.
  unfold publish_migration. apply frame_staged.
  - apply frame_prepare. - apply prepare_staged. - done. - simpl; auto.
  - apply frame_bind; [apply frame_io, frame_sync_strict|]. intros _.
    apply frame_bind; [|intros; apply frame_finish]. apply frame_io, frame_move.
    + intros r. by split.
    + done.
    + intros r. simpl. auto.
    + intros r. simpl. auto.
Qed.

Lemma frame_candidate keys record created_at ns :
  ns = [CREDENTIALS_DIR] \/ ns = [MANAGED_DIR] -> Frame in_set (write_candidate keys record created_at ns).
Proof.
  intros Hns.
  assert (Hin : forall l, in_set (ns ++ l)) by (intros l; destruct Hns as [->| ->]; simpl; auto).
  unfold write_candidate. apply frame_bind; [apply frame_io, frame_ensure, Hin|]. intros _.
  cbv zeta. apply frame_bind; [apply ro_frame; auto with fs|]. intros sealed.
  apply frame_staged.
  - apply frame_io, frame_write_temp.
  - intros w w1 temp Ht%write_temp_staged. eauto.
  - rewrite temp_path_snoc. apply file_name_not_temp.
  - rewrite <- app_assoc. apply Hin.
  - apply frame_io, frame_sync_strict.
Qed.

Lemma frame_put_managed max keys m record : Frame in_set (put_managed max keys m record).
Proof.
  unfold put_managed. cbv zeta. destruct (m !! _) as [location|].
  - apply frame_bind; [apply ro_frame; auto with fs|]. intros order.
    apply frame_bind; [apply ro_frame; auto with fs|]. intros sealed.
    apply frame_io, frame_replace; [apply file_name_not_temp|apply record_dir_in_set].
  - apply frame_bind; [apply ro_frame; unfold collision; repeat (apply ro_or_else; auto with fs)|]. intros occ.
    apply frame_bind; [apply frame_guard|]. intros _.
    apply frame_bind; [apply ro_frame; auto with fs|]. intros current.
    apply frame_bind; [apply frame_guard|]. intros _.
    apply frame_bind; [apply frame_lift|]. intros _.
    apply frame_bind; [apply frame_candidate; by right|]. intros _.
    apply frame_bind; [apply frame_publish|]. intros; apply frame_ret.
Qed.

(** What an update does in the legacy layout. *)
Definition put_legacy (max : Z) (keys : CredentialKeys) (record : CredentialRecord) : M World unit StoreError :=
  let name := file_name keys (cr_credential_id record) in
  let* order := creation_order max keys name [CREDENTIALS_DIR] Legacy in
  let* sealed := seal_credential_record keys record order name Legacy in
  io (ensure_private_dir [CREDENTIALS_DIR]);;*
  io (replace_file [CREDENTIALS_DIR] name sealed).

Lemma frame_put_legacy max keys record : Frame in_set (put_legacy max keys record).
Proof.
  unfold put_legacy. cbv zeta.
  apply frame_bind; [apply ro_frame; auto with fs|]. intros order.
  apply frame_bind; [apply ro_frame; auto with fs|]. intros sealed.
  apply frame_bind; [apply frame_io, frame_ensure; simpl; auto|]. intros _.
  apply frame_io, frame_replace; [apply file_name_not_temp|simpl; auto].
Qed.

Lemma step_put max record : Step in_set (file_put max record).
Proof.
  unfold file_put. apply step_ro_bind; [apply ro_lift|]. intros _.
  apply step_write_keys; [|apply in_set_spares_key]. intros keys.
  apply frame_bind; [apply ro_frame; auto with fs|]. intros [m|]; [apply frame_put_managed|].
  apply (frame_put_legacy max keys record).
Qed.

(** The names a registration retires, and what it does once it has the keys. *)
Definition retired_names (keys : CredentialKeys) (record : CredentialRecord) (current : list CredentialRecord)
    : list bytes :=
  map (fun existing => file_name keys (cr_credential_id existing)) (List.filter (matching record) current).

Definition registration_body (max : Z) (record : CredentialRecord) (keys : CredentialKeys)
    : M World CredentialCommit StoreError :=
  let name := file_name keys (cr_credential_id record) in
  let* occupied := collision name in
  guard (negb occupied) (InvalidRecord "credential ID is occupied");;*
  let* preceding := active_manifest keys in
  let* current := replacement_records keys preceding in
  guard (negb ((length (retired_names keys record current) =? 0)%nat && (max <=? zlen current))) (Full max);;*
  let* before :=
    match preceding with
    | Some m => ret m
    | None => let* names := credential_file_names in ret (list_to_map (legacy_members names))
    end in
  let m := <[name := Managed]> (foldr delete (before : gmap (list Z) Location) (retired_names keys record current)) in
  lift (encode_manifest m);;*
  match preceding with
  | None =>
      write_format_marker keys;;*
      write_candidate keys record (next_created_at current) [CREDENTIALS_DIR];;*
      publish_migration keys m
  | Some _ =>
      write_candidate keys record (next_created_at current) [MANAGED_DIR];;*
      publish_manifest keys m
  end.

Lemma frame_registration max record keys : Frame in_set (registration_body max record keys).
Proof.
  unfold registration_body. cbv zeta.
  apply frame_bind; [apply ro_frame; unfold collision; repeat (apply ro_or_else; auto with fs)|]. intros occ.
  apply frame_bind; [apply frame_guard|]. intros _.
  apply frame_bind; [apply ro_frame; auto with fs|]. intros preceding.
  apply frame_bind; [apply ro_frame; auto with fs|]. intros current.
  apply frame_bind; [apply frame_guard|]. intros _.
  apply frame_bind; [apply ro_frame; ro_solve|]. intros before.
  apply frame_bind; [apply frame_lift|]. intros _.
  destruct preceding as [m|].
  - apply frame_bind; [apply frame_candidate; by right|]. intros _. apply frame_publish.
  - apply frame_bind; [apply frame_format_marker|]. intros _.
    apply frame_bind; [apply frame_candidate; by left|]. intros _. apply frame_migration.
Qed.

Lemma step_insert max record : Step in_set (file_insert_or_replace_discoverable max record).
Proof.
  unfold file_insert_or_replace_discoverable. apply step_ro_bind; [apply ro_lift|]. intros _.
  apply step_ro_bind; [apply ro_guard|]. intros _.
  apply step_write_keys; [|apply in_set_spares_key]. intros keys. apply (frame_registration max record keys).
Qed.

Lemma step_delete id : Step in_set (file_delete id).
Proof.
  apply step_frame; [|apply in_set_spares_key]. unfold file_delete.
  apply frame_bind; [apply ro_frame; auto with fs|]. intros [keys|]; [|apply frame_ret]. cbv zeta.
  apply frame_bind; [apply ro_frame; auto with fs|]. intros [m|].
  - destruct (m !! _); [|apply frame_ret].
    apply frame_bind; [apply frame_publish|intros; apply frame_ret].
  - apply frame_bind; [apply frame_io, frame_remove; left; simpl; auto|]. intros removed.
    apply frame_bind; [|intros; apply frame_ret].
    destruct removed; [apply frame_io, frame_sync|apply frame_ret].
Qed.

End SetFrames.
