(* ===== verification/FileStoreLaws.v ===== *)
(** * The file store behind the store interface ([store/file.rs])

    [FileStore] is an instance of [CredentialStore] and meets the law classes
    for the PIN state, the large-blob array, the signature counter and sealed
    credential IDs, for every sequence of failing system calls.  Records of
    the model are plain lists and integers, those of the code have Rust types:
    a value no Rust record could hold is refused. *)

From stdpp Require Import gmap strings.
From S2P Require Import Prelude Constants Alg Crypto Records Envelope Store Cbor Codec CodecProofs FileSystem Manifest StoreKeys FileStore FsProofs FileStoreProofs.

(** ** What the objects hold *)

Section Views.

Context `{Crypto} `{Ciborium} `{RecordReader}.

Definition object_view {A} (key : bytes) (ty : RecordType) (p : Path)
    (decode : bytes -> result A Corruption) (t : Tree) : option A :=
  match t !! p with
  | Some (File _ c) =>
      match open key ty (logical p) (read_limited MAX_ENVELOPE_LEN c) with
      | Ok plaintext => match decode plaintext with Ok x => Some x | Err _ => None end
      | Err _ => None
      end
  | _ => None
  end.

(** An object under the credential key in use. *)
Definition credential_view {A} (ty : RecordType) (p : Path) (decode : bytes -> result A Corruption)
    (t : Tree) : option A :=
  match key_view Credential t with
  | Some root => object_view (ck_record (derive_credential_keys root)) ty p decode t
  | None => None
  end.

Lemma credential_keys_ok w w' o :
  credential_keys w = (w', Ok o) ->
  w_tree w' = w_tree w /\ o = derive_credential_keys <$> key_view Credential (w_tree w).
Proof.
  intros Hk. peel Hk w1 root Hr. injection Hk as <- <-. by apply read_key_ok in Hr as [-> ->].
Qed.

Lemma read_object_ok {A} key ty p (decode : bytes -> result A Corruption) w w' o :
  read_object key ty p decode w = (w', Ok o) ->
  w_tree w' = w_tree w /\ o = object_view key ty p decode (w_tree w).
Proof.
  intros Hr. split; [by eapply ro_read_object|]. unfold read_object in Hr.
  peel Hr w1 s Hs. apply io_ok, read_file_ok in Hs as [Ht Hf]. unfold object_view.
  destruct (w_tree w !! p) as [[m c|m]|]; [|done|]; subst s; [|by injection Hr as <- <-].
  peel_lift Hr plain Hp. peel_lift Hr x Hx. injection Hr as <- <-.
  destruct (open _ _ _ _) as [pl|]; simplify_eq/=. by destruct (decode plain); simplify_eq/=.
Qed.

(** What a read of an object under the credential key returns. *)
Lemma read_view {A} ty p (decode : bytes -> result A Corruption) w w' o :
  (let* keys := credential_keys in
   match keys with
   | None => ret None
   | Some keys => read_object (ck_record keys) ty p decode
   end) w = (w', Ok o) -> o = credential_view ty p decode (w_tree w).
Proof.
  intros Hr. peel Hr w1 keys Hk. apply credential_keys_ok in Hk as [Ht ->]. unfold credential_view.
  destruct (key_view Credential (w_tree w)) as [root|]; simpl in Hr; [|by injection Hr as <- <-].
  apply read_object_ok in Hr as [_ ->]. by rewrite Ht.
Qed.

Lemma view_step {A} (P : Path -> Prop) ty p (decode : bytes -> result A Corruption) t t' :
  op_step P t t' -> p ∈ objects -> ~ P p ->
  credential_view ty p decode t' = credential_view ty p decode t.
Proof.
  intros [Hk Ho] Hp HP. specialize (Ho p Hp HP). unfold credential_view, key_view, object_view.
  rewrite Ho. destruct Hk as [-> |[Hn Hall]]; [done|]. rewrite Hn.
  rewrite Forall_forall in Hall. rewrite (Hall p Hp). by repeat case_match.
Qed.

Context `{!AeadLaws} `{!RecordReaderLaws}.

Lemma seal_ok key ty name plaintext w w' sealed :
  seal key ty name plaintext w = (w', Ok sealed) ->
  w_tree w' = w_tree w /\ open key ty name (read_limited MAX_ENVELOPE_LEN sealed) = Ok plaintext.
Proof.
  intros Hs. split; [by eapply ro_seal|]. peel Hs w1 nonce Hn. apply lift_ok in Hs as [_ Hs].
  apply io_ok in Hn. assert (Hl : length nonce = NONCE_LEN).
  { unfold sys_random in Hn. destruct (w_os_random w) as [|[d|] l]; [done| |done]. injection Hn as _ <-. apply fill_bytes_length. }
  pose proof (seal_length _ _ _ _ _ _ Hl Hs) as Hlen.
  unfold read_limited. replace (zlen sealed <=? MAX_ENVELOPE_LEN + 1) with true.
  - by eapply envelope_roundtrip.
  - symmetry. apply Z.leb_le. unfold seal_with_nonce in Hs. destruct (_ <? zlen plaintext) eqn:E; [done|].
    bool_hyps. unfold zlen in *. rewrite Hlen. lia.
Qed.

(** The file just written is the object. *)
Lemma view_replaced {A} ty p (decode : bytes -> result A Corruption) root sealed plaintext x t t' :
  key_view Credential t = Some root -> p <> key_path Credential ->
  open (ck_record (derive_credential_keys root)) ty (logical p) (read_limited MAX_ENVELOPE_LEN sealed)
    = Ok plaintext ->
  decode plaintext = Ok x -> replaced p sealed t t' -> credential_view ty p decode t' = Some x.
Proof.
  intros Hk Hp Ho Hd [Hkeep Hf]. unfold credential_view.
  rewrite (key_view_keeps (eq p)  _ t) by done. rewrite Hk. unfold object_view. by rewrite Hf, Ho, Hd.
Qed.

Lemma object_not_key p : p ∈ objects -> p <> key_path Credential.
Proof.
  unfold objects. rewrite !elem_of_cons.
  intros [->|[->|[->|Hp]]]; [path_neq..|by apply not_elem_of_nil in Hp].
Qed.

(** Installing [contents] at [p]: all of it or nothing, and after an error
    nothing unless [late]. *)
Definition installs {B : Type} (late : Prop) (p : Path) (install : bytes -> M World B StoreError) : Prop :=
  forall contents v v' y, install contents v = (v', y) ->
    match y with
    | Ok _ => replaced p contents (w_tree v) (w_tree v')
    | Err _ => keeps nothing (w_tree v) (w_tree v') \/ (late /\ replaced p contents (w_tree v) (w_tree v'))
    end.

(** The outcome of writing an object. *)
Definition written {A B : Type} (late : Prop) (view : Tree -> option A) (x : A) (t t' : Tree) (r : result B StoreError)
    : Prop :=
  match r with
  | Ok _ => view t' = Some x
  | Err _ => view t' = view t \/ (late /\ view t' = Some x)
  end.

(** Sealing a plaintext under the key in use and installing it at [p]. *)
Lemma seal_write_spec {A B} late ty p (decode : bytes -> result A Corruption) x plaintext
    (install : bytes -> M World B StoreError) root w w' r :
  p ∈ objects -> decode plaintext = Ok x -> installs late p install ->
  key_view Credential (w_tree w) = Some root ->
  (let* sealed := seal (ck_record (derive_credential_keys root)) ty (logical p) plaintext in
   install sealed) w = (w', r) ->
  written late (credential_view ty p decode) x (w_tree w) (w_tree w') r.
Proof.
  intros Hp Hd Hi Hkey. unfold mbind_st. destruct (seal _ _ _ _ w) as [w2 [sealed|e]] eqn:E2.
  2: { apply ro_seal in E2. intros [= <- <-]. left. by rewrite E2. }
  apply seal_ok in E2 as [Ht2 Ho]. intros Hin. apply Hi in Hin. rewrite Ht2 in Hin.
  assert (Hrep : replaced p sealed (w_tree w) (w_tree w') -> credential_view ty p decode (w_tree w') = Some x)
    by (intros; eapply view_replaced; eauto using object_not_key).
  unfold written. destruct r as [b|e]; [auto|]. destruct Hin as [Hin|[HP Hin]]; [left|auto].
  apply (view_step nothing); [|done|by intros []]. split.
  - left. apply Hin; [by intros []|done].
  - intros q Hq _. apply Hin; [by intros []|by apply object_not_temp].
Qed.

(** The key first: a failure there changes no object. *)
Lemma write_keys_then {A B} late ty p (decode : bytes -> result A Corruption) x
    (k : CredentialKeys -> M World B StoreError) w w' r :
  p ∈ objects ->
  (forall root v v' y, key_view Credential (w_tree v) = Some root ->
     k (derive_credential_keys root) v = (v', y) ->
     written late (credential_view ty p decode) x (w_tree v) (w_tree v') y) ->
  (let* keys := write_keys in k keys) w = (w', r) ->
  written late (credential_view ty p decode) x (w_tree w) (w_tree w') r.
Proof.
  intros Hp Hk. rewrite assoc_write_keys. unfold mbind_st.
  destruct (root_key_for_write Credential w) as [w1 [root|e]] eqn:E1;
    pose proof (write_key_step _ _ _ _ E1) as Hs1.
  2: { intros [= <- <-]. left. eapply view_step; [done|done|by intros []]. }
  apply write_key_spec in E1 as [Hkey _]. intros Hr. apply Hk in Hr; [|by apply Hkey].
  unfold written in *. rewrite <- (view_step _ ty p decode _ _ Hs1 Hp ltac:(by intros [])). done.
Qed.

End Views.

(** ** The instance *)

(** [FileStore]: the state directory (its tree and what the environment does
    next) and the credential limit. *)
Record FileStore : Type := { file_world : World; file_max_credentials : Z }.

Definition on_world {A E} (m : M World A E) : M FileStore A E := fun s =>
  let (w, r) := m (file_world s) in
  ({| file_world := w; file_max_credentials := file_max_credentials s |}, r).

(** What Rust's types exclude. *)
Definition typed {A} (ok : bool) (m : M World A StoreError) : M World A StoreError :=
  if ok then m else fail (InvalidRecord "not a value of the record's type").

Definition entry_okb (e : Z * Value) : bool :=
  (0 <=? fst e) && (fst e <? 2 ^ 64) && value_ok (snd e) && value_plain (snd e)
  && (value_nesting (snd e) <=? 1)%nat.

Definition token_typedb (t : PersistentTokenRecord) : bool :=
  (length (pt_secret t) =? 32)%nat && value_ok (VBytes (pt_secret t)).

Definition pin_state_typedb (s : PinStateRecord) : bool :=
  match psr_pin_hash s with Some h => (length h =? 16)%nat | None => true end
  && in_range 0 u8_max (psr_pin_retries s) && in_range 0 u8_max (psr_consecutive_failures s)
  && forallb token_typedb (tokens_list (psr_persistent_tokens s))
  && forallb entry_okb (pin_state_entries s) && (zlen (pin_state_entries s) <? 2 ^ 64).

Section Instance_.

Context `{Crypto} `{Ciborium} `{RecordReader}.

#[export] Instance FileCredentialStore : CredentialStore FileStore := {|
  st_get := fun id => on_world (file_get id);
  st_put := fun r s => on_world (file_put (file_max_credentials s) r) s;
  st_insert_or_replace_discoverable := fun r s =>
    on_world (file_insert_or_replace_discoverable (file_max_credentials s) r) s;
  st_delete := fun id => on_world (file_delete id);
  st_list := on_world file_list;
  st_count := on_world file_count;
  st_max_credentials := file_max_credentials;
  st_clear := on_world file_clear;
  st_pin_state := on_world file_pin_state;
  st_set_pin_state := fun p => on_world (typed (pin_state_typedb p) (file_set_pin_state p));
  st_directory_flush := fun s =>
    let (w, d) := directory_flush [] (file_world s) in
    ({| file_world := w; file_max_credentials := file_max_credentials s |}, d);
  st_signature_counter := on_world file_signature_counter;
  st_set_signature_counter := fun v =>
    on_world (typed (in_range 0 u32_limit v) (file_set_signature_counter v));
  st_large_blob_array := on_world file_large_blob_array;
  st_set_large_blob_array := fun a =>
    on_world (typed (forallb is_byteb a) (file_set_large_blob_array a));
  st_attestation := on_world file_attestation;
  st_set_attestation := fun r => on_world (file_set_attestation r);
  st_seal_credential_id := fun p ad => on_world (file_seal_credential_id p ad);
  st_open_credential_id := fun b ad => on_world (file_open_credential_id b ad)
|}.

Definition file_tree (s : FileStore) : Tree := w_tree (file_world s).

Lemma on_world_run {A E} (m : M World A E) s s' r :
  on_world m s = (s', r) -> m (file_world s) = (file_world s', r).
Proof. unfold on_world. destruct (m (file_world s)) as [w x]. by intros [= <- <-]. Qed.

Lemma on_world_step {A E} P (m : M World A E) s :
  Step P m -> op_step P (file_tree s) (file_tree (fst (on_world m s))).
Proof.
  intros Hm. unfold on_world, file_tree. destruct (m (file_world s)) as [w x] eqn:E1. by eapply Hm.
Qed.

(** The objects a call may change. *)
Definition call_paths (c : StoreCall) (p : Path) : Prop :=
  match c with
  | SPut _ | SInsert _ | SDelete _ => in_set p
  | SSetPinState _ | SSeal _ _ => p = [PIN_STATE_FILE]
  | SSetCounter _ => p = [SIGNATURE_COUNTER_FILE]
  | SSetBlobs _ => p = [LARGE_BLOBS_FILE]
  | _ => False
  end.

Lemma step_ro {A E} P (m : M World A E) : ReadOnly m -> Step P m.
Proof. intros Hm w w' r Hr. rewrite (Hm _ _ _ Hr). by split; [left|]. Qed.

Lemma step_typed {A} P b (m : M World A StoreError) : Step P m -> Step P (typed b m).
Proof. destruct b; [done|]. intros _. by apply step_ro, ro_fail. Qed.

Lemma frame_write_pin (P : Path -> Prop) keys state :
  P [PIN_STATE_FILE] -> Frame P (write_pin_state keys state).
Proof.
  intros Hp. unfold write_pin_state. apply frame_bind; [apply frame_lift|]. intros plain.
  apply frame_bind; [apply ro_frame; auto with fs|]. intros sealed. apply frame_io.
  intros w w' r Hr. apply replace_pin_state_spec in Hr; [|done]. destruct r; [|by apply keeps_any].
  destruct Hr as [Hk _]. eapply keeps_mono; [|exact Hk]. by intros ? <-.
Qed.

Lemma step_set_pin state : Step (fun p => p = [PIN_STATE_FILE]) (file_set_pin_state state).
Proof.
  unfold file_set_pin_state. apply step_write_keys; [|intros ?; path_neq]. intros keys.
  by apply frame_write_pin.
Qed.

Lemma step_set_counter v : Step (fun p => p = [SIGNATURE_COUNTER_FILE]) (file_set_signature_counter v).
Proof.
  unfold file_set_signature_counter, write_object.
  apply step_write_keys; [|intros ?; path_neq]. intros keys.
  apply frame_bind; [apply frame_lift|]. intros plain.
  apply frame_bind; [apply ro_frame; auto with fs|]. intros sealed. by apply frame_io, frame_replace.
Qed.

Lemma step_set_blobs a : Step (fun p => p = [LARGE_BLOBS_FILE]) (file_set_large_blob_array a).
Proof.
  unfold file_set_large_blob_array. apply step_ro_bind; [apply ro_lift|]. intros plain.
  apply step_write_keys; [|intros ?; path_neq]. intros keys.
  apply frame_bind; [apply ro_frame; auto with fs|]. intros sealed. by apply frame_io, frame_replace.
Qed.

Lemma step_seal p ad : Step (fun q => q = [PIN_STATE_FILE]) (file_seal_credential_id p ad).
Proof.
  unfold file_seal_credential_id. apply step_write_keys; [|intros ?; path_neq]. intros keys.
  apply frame_bind; [apply ro_frame; auto with fs|]. intros there.
  apply frame_bind.
  - destruct there; [apply frame_ret|]. apply frame_bind; [by apply frame_write_pin|].
    intros; apply frame_guard.
  - intros _. apply frame_bind; [apply frame_io, frame_random|]. intros; apply frame_lift.
Qed.

(** Every call but a reset leaves the key in use and what it does not name. *)
Lemma call_step c s : c <> SClear -> op_step (call_paths c) (file_tree s) (file_tree (run_call c s)).
Proof.
  intros Hc. destruct c; try done; cbn [run_call st_get st_put st_insert_or_replace_discoverable st_delete
    st_list st_count st_pin_state st_set_pin_state st_directory_flush st_signature_counter
    st_set_signature_counter st_large_blob_array st_set_large_blob_array st_attestation
    st_seal_credential_id st_open_credential_id FileCredentialStore].
  - apply on_world_step, step_ro, ro_file_get.
  - apply on_world_step, step_put.
  - apply on_world_step, step_insert.
  - apply on_world_step, step_delete.
  - apply on_world_step, step_ro, ro_file_list.
  - apply on_world_step, step_ro, ro_file_count.
  - apply on_world_step, step_ro, ro_file_pin_state.
  - apply on_world_step, step_typed, step_set_pin.
  - unfold directory_flush, file_tree.
    destruct (sync_dir_strict [] (file_world s)) as [w [u|e]] eqn:E1; simpl;
      (assert (Ht : w_tree w = w_tree (file_world s)) by
        (eapply (ro_bind (sys_open []) (fun _ => sys_touch)); [apply ro_sys_read|intros; apply ro_sys_read|exact E1]));
      rewrite Ht; by split; [left|].
  - apply on_world_step, step_ro, ro_file_counter.
  - apply on_world_step, step_typed, step_set_counter.
  - apply on_world_step, step_ro, ro_file_blobs.
  - apply on_world_step, step_typed, step_set_blobs.
  - apply on_world_step, step_ro, ro_file_attestation.
  - apply on_world_step, step_seal.
  - apply on_world_step, step_ro, ro_file_open.
Qed.

Definition file_pin_view (s : FileStore) : option PinStateRecord :=
  credential_view RPinState [PIN_STATE_FILE] decode_pin_state (file_tree s).

Definition file_blob_view (s : FileStore) : bytes :=
  default INITIAL_LARGE_BLOB_ARRAY
    (credential_view RLargeBlobArray [LARGE_BLOBS_FILE] decode_large_blob_array (file_tree s)).

Definition file_counter_view (s : FileStore) : Z :=
  default 0 (credential_view RSignatureCounter [SIGNATURE_COUNTER_FILE] decode_signature_counter (file_tree s)).

Lemma in_objects_pin : [PIN_STATE_FILE] ∈ objects.
Proof. by left. Qed.

Lemma in_objects_counter : [SIGNATURE_COUNTER_FILE] ∈ objects.
Proof. right. by left. Qed.

Lemma in_objects_blobs : [LARGE_BLOBS_FILE] ∈ objects.
Proof. right. right. by left. Qed.

(** A call that is not the object's own write leaves it. *)
Lemma call_view {A} c s ty p (decode : bytes -> result A Corruption) :
  c <> SClear -> p ∈ objects -> ~ call_paths c p ->
  credential_view ty p decode (file_tree (run_call c s)) = credential_view ty p decode (file_tree s).
Proof. intros Hc Hp Hn. eapply view_step; [by apply call_step|done|done]. Qed.

End Instance_.

(** ** The laws *)

Section Laws_.

Context `{Crypto} `{Ciborium} `{RecordReader} `{!AeadLaws} `{!RecordReaderLaws}.

Lemma entry_okb_spec es : forallb entry_okb es = true -> zlen es < 2 ^ 64 -> entries_ok es.
Proof.
  intros He Hl. split; [|done]. apply forallb_Forall in He.
  eapply Forall_impl; [exact He|]. intros e. unfold entry_okb, key_ok. simpl. intros Hb. bool_hyps.
  match goal with Hn : (_ <=? 1)%nat = true |- _ => apply Nat.leb_le in Hn end. repeat split; done.
Qed.

Lemma pin_state_typedb_spec s : pin_state_typedb s = true -> pin_state_typed s.
Proof.
  unfold pin_state_typedb. intros Hb. bool_hyps.
  repeat match goal with Hr : in_range _ _ _ = true |- _ => apply in_range_spec in Hr end.
  unfold pin_state_typed. split; [|split; [|split; [|split]]]; [|lia|lia| |by apply entry_okb_spec].
  - intros h Hh. rewrite Hh in *. match goal with Hl : (_ =? 16)%nat = true |- _ => by apply Nat.eqb_eq in Hl end.
  - match goal with Ht : forallb token_typedb _ = true |- _ => apply forallb_Forall in Ht;
      eapply Forall_impl; [exact Ht|] end.
    intros t. unfold token_typedb, token_typed. cbv beta. intros Ht. bool_hyps.
    match goal with Hl : (_ =? 32)%nat = true |- _ => apply Nat.eqb_eq in Hl end. done.
Qed.

Lemma installs_pin : installs False [PIN_STATE_FILE] (fun c => io (replace_pin_state [] PIN_STATE_FILE c)).
Proof.
  intros c v v' y Hi. apply io_cases in Hi as (y' & Hi & ->).
  apply replace_pin_state_spec in Hi; [|done]. by destruct y'; [|left].
Qed.

Abbreviation pin_of := (credential_view RPinState [PIN_STATE_FILE] decode_pin_state).

(** The outcome of publishing a PIN state. *)
Lemma write_pin_spec record root w w' r :
  pin_state_typed record -> key_view Credential (w_tree w) = Some root ->
  write_pin_state (derive_credential_keys root) record w = (w', r) ->
  written False pin_of record (w_tree w) (w_tree w') r /\
  (forall d, r = Ok d -> validate_pin_state record = Ok tt).
Proof.
  intros Ht Hk Hw. unfold write_pin_state in Hw. unfold mbind_st at 1, lift in Hw.
  destruct (encode_pin_state record) as [plain|e] eqn:Ee.
  - split.
    + eapply (seal_write_spec False RPinState [PIN_STATE_FILE] decode_pin_state record plain);
        [apply in_objects_pin|by apply pin_state_roundtrip|apply installs_pin|done|exact Hw].
    + intros d _. unfold encode_pin_state in Ee. by destruct (validate_pin_state record) as [[]|].
  - injection Hw as <- <-. split; [by left|done].
Qed.

Lemma file_pin_write record w w' r :
  file_set_pin_state record w = (w', r) -> pin_state_typed record ->
  match r with
  | Ok _ => pin_of (w_tree w') = Some record /\ validate_pin_state record = Ok tt
  | Err _ => pin_of (w_tree w') = pin_of (w_tree w)
  end.
Proof.
  intros Hw Ht.
  assert (Hwr : written False pin_of record (w_tree w) (w_tree w') r).
  { eapply write_keys_then; [apply in_objects_pin| |exact Hw]. intros root v v' y Hk Hy.
    by apply write_pin_spec in Hy as [Hy _]. }
  destruct r as [d|e]; [split; [done|]|by destruct Hwr as [|[[] _]]].
  unfold file_set_pin_state in Hw. peel Hw w1 keys Hk. unfold write_pin_state in Hw. peel_lift Hw plain Hp.
  unfold encode_pin_state in Hp. by destruct (validate_pin_state record) as [[]|].
Qed.

(** Sealing an ID publishes the default PIN state when there is none. *)
Lemma file_seal_pin p ad w w' r :
  file_seal_credential_id p ad w = (w', r) ->
  pin_of (w_tree w') = pin_of (w_tree w) \/
  (pin_of (w_tree w) = None /\ pin_of (w_tree w') = Some PinStateRecord_default).
Proof.
  unfold file_seal_credential_id. rewrite assoc_write_keys. unfold mbind_st at 1.
  destruct (root_key_for_write Credential w) as [w1 [root|e]] eqn:E1;
    pose proof (view_step _ RPinState _ decode_pin_state _ _ (write_key_step _ _ _ _ E1) in_objects_pin
      ltac:(by intros [])) as Hv1; [|intros [= <- <-]; by left].
  apply write_key_spec in E1 as [Hk _]. specialize (Hk root eq_refl). rewrite <- Hv1. clear Hv1.
  unfold mbind_st at 1. destruct (exists_path [PIN_STATE_FILE] w1) as [w2 [b|e]] eqn:E2.
  2: { apply ro_exists in E2. intros [= <- <-]. left. by rewrite E2. }
  apply exists_ok in E2 as [Ht2 Hb].
  assert (Hro : ReadOnly (let* nonce := io (sys_random NONCE_LEN) in
    (lift (seal_credential_id_with_nonce (ck_id (derive_credential_keys root)) nonce p ad)
      : M World bytes StoreError))) by ro_solve.
  unfold mbind_st at 1. destruct b.
  { intros Hr. apply Hro in Hr. left. by rewrite Hr, Ht2. }
  assert (Hnone : pin_of (w_tree w1) = None).
  { unfold credential_view, object_view. rewrite Hk. by destruct (w_tree w1 !! [PIN_STATE_FILE]). }
  unfold mbind_st at 1.
  destruct (write_pin_state _ _ w2) as [w3 [d|e]] eqn:E3;
    apply write_pin_spec in E3 as [Hw _]; try (by rewrite Ht2); try (by apply pin_state_typedb_spec).
  - intros Hr. right. split; [done|]. unfold written in Hw. rewrite <- Hw.
    destruct (guard _ Io w3) as [w4 [u|e4]] eqn:E4; apply ro_guard in E4.
    + apply Hro in Hr. by rewrite Hr, E4.
    + injection Hr as <- _. by rewrite E4.
  - intros [= <- <-]. left. rewrite <- Ht2. by destruct Hw as [|[[] _]].
Qed.

(** A call that does not write the PIN state leaves it. *)
Lemma call_pin_view c s :
  match c with SClear | SSetPinState _ | SSeal _ _ => False | _ => True end ->
  file_pin_view (run_call c s) = file_pin_view s.
Proof.
  intros Hc. unfold file_pin_view. apply call_view; [by destruct c|apply in_objects_pin|].
  destruct c; try done; cbn [call_paths]; try (by intros []); try path_neq;
    apply objects_not_in_set, in_objects_pin.
Qed.

#[export, refine] Instance FilePinStoreLaws : PinStoreLaws FileStore := {|
  pin_view := file_pin_view
|}.
Proof.
  - intros s s' r Hr. apply on_world_run in Hr. unfold file_pin_view, file_tree.
    rewrite (ro_file_pin_state _ _ _ Hr). split; [done|]. intros o ->. by apply read_view in Hr.
  - intros s s' record r Hr. apply on_world_run in Hr. unfold typed in Hr.
    destruct (pin_state_typedb record) eqn:Et.
    + apply file_pin_write in Hr; [|by apply pin_state_typedb_spec]. exact Hr.
    + injection Hr as Hw <-. unfold file_pin_view, file_tree. by rewrite Hw.
  - intros id. intros s. by apply (call_pin_view (SGet id)).
  - intros r. intros s. by apply (call_pin_view (SPut r)).
  - intros r. intros s. by apply (call_pin_view (SInsert r)).
  - intros id. intros s. by apply (call_pin_view (SDelete id)).
  - intros s. by apply (call_pin_view SList).
  - intros s. by apply (call_pin_view SCount).
  - intros s. by apply (call_pin_view SFlush).
  - intros s. by apply (call_pin_view SCounter).
  - intros v. intros s. by apply (call_pin_view (SSetCounter v)).
  - intros s. by apply (call_pin_view SBlobs).
  - intros a. intros s. by apply (call_pin_view (SSetBlobs a)).
  - intros s. by apply (call_pin_view SAttestation).
  - intros b ad. intros s. by apply (call_pin_view (SOpen b ad)).
  - intros p ad s s' r Hr. apply on_world_run in Hr. by apply file_seal_pin in Hr.
Defined.

(** ** The large-blob array and the counter *)

Lemma installs_replace commits name :
  is_temp_name name = false ->
  installs (commits = false) [name] (fun c => io (replace_file_with [] name c commits)).
Proof.
  intros Hn c v v' y Hi. apply io_cases in Hi as (y' & Hi & ->).
  apply replace_file_with_spec in Hi; [|done]. by destruct y'.
Qed.

Abbreviation blobs_of := (credential_view RLargeBlobArray [LARGE_BLOBS_FILE] decode_large_blob_array).

Abbreviation counter_of := (credential_view RSignatureCounter [SIGNATURE_COUNTER_FILE] decode_signature_counter).

Lemma file_blob_write array w w' r :
  bytes_ok array -> file_set_large_blob_array array w = (w', r) ->
  match r with
  | Ok _ => blobs_of (w_tree w') = Some array
  | Err _ => blobs_of (w_tree w') = blobs_of (w_tree w)
  end.
Proof.
  intros Ha Hw. unfold file_set_large_blob_array in Hw. unfold mbind_st at 1, lift in Hw.
  destruct (encode_large_blob_array array) as [plain|e] eqn:Ee; [|by injection Hw as <- <-].
  assert (Hwr : written (true = false) blobs_of array (w_tree w) (w_tree w') r).
  { eapply write_keys_then; [apply in_objects_blobs| |exact Hw]. intros root v v' y Hk Hy.
    eapply (seal_write_spec (true = false) RLargeBlobArray [LARGE_BLOBS_FILE] decode_large_blob_array array plain);
      [apply in_objects_blobs|by apply large_blob_roundtrip|by apply (installs_replace true)|done|exact Hy]. }
  destruct r; [done|]. by destruct Hwr as [|[[=] _]].
Qed.

Lemma file_counter_write v w w' r :
  0 <= v <= u32_limit -> file_set_signature_counter v w = (w', r) ->
  written True counter_of v (w_tree w) (w_tree w') r.
Proof.
  intros Hv Hw. destruct (encode_signature_counter v) as [plain|e] eqn:Ee; [|done].
  eapply write_keys_then; [apply in_objects_counter| |exact Hw]. intros root w1 w2 y Hk Hy.
  unfold mbind_st at 1, lift in Hy. rewrite Ee in Hy.
  assert (Hwr : written (false = false) counter_of v (w_tree w1) (w_tree w2) y).
  { eapply (seal_write_spec (false = false) RSignatureCounter [SIGNATURE_COUNTER_FILE] decode_signature_counter v plain);
      [apply in_objects_counter|by apply signature_counter_roundtrip|by apply (installs_replace false)|done|exact Hy]. }
  destruct y; [done|]. destruct Hwr as [|[_ ?]]; [by left|by right].
Qed.

#[export, refine] Instance FileBlobStoreLaws : BlobStoreLaws FileStore := {|
  blob_view := file_blob_view
|}.
Proof.
  - intros s s' r Hr. apply on_world_run in Hr. unfold file_blob_view, file_tree.
    rewrite (ro_file_blobs _ _ _ Hr). split; [done|]. intros x ->.
    unfold file_large_blob_array in Hr. peel Hr w1 b Hb. apply exists_ok in Hb as [Ht ->].
    destruct (w_tree (file_world s) !! [LARGE_BLOBS_FILE]) as [n|] eqn:En; simpl in Hr.
    + rewrite <- Ht. peel Hr w2 keys Hk. pose proof (credential_keys_ok _ _ _ Hk) as [Ht2 ->].
      unfold credential_view. destruct (key_view Credential (w_tree w1)) as [root|]; simpl in Hr;
        [|by injection Hr as _ <-].
      peel Hr w3 v Hv. injection Hr as _ <-. apply read_object_ok in Hv as [_ ->]. by rewrite Ht2.
    + injection Hr as _ <-. unfold credential_view, object_view. rewrite En. by destruct (key_view _ _).
  - intros s s' array r Hr. apply on_world_run in Hr. unfold typed in Hr. unfold file_blob_view, file_tree.
    destruct (forallb is_byteb array) eqn:Et.
    + apply file_blob_write in Hr; [|by apply vec_bytes_ok]. destruct r; by rewrite Hr.
    + injection Hr as Hw <-. by rewrite Hw.
  - intros c s Hc. unfold file_blob_view. f_equal. apply call_view; [by intros ->|apply in_objects_blobs|].
    destruct c; try done; cbn [call_paths]; try (by intros []); try path_neq;
      apply objects_not_in_set, in_objects_blobs.
Defined.

#[export, refine] Instance FileCounterStoreLaws : CounterStoreLaws FileStore := {|
  counter_view := file_counter_view
|}.
Proof.
  - intros s s' r Hr. apply on_world_run in Hr. unfold file_counter_view, file_tree.
    rewrite (ro_file_counter _ _ _ Hr). split; [done|]. intros x ->.
    unfold file_signature_counter in Hr. peel Hr w2 keys Hk. apply credential_keys_ok in Hk as [Ht2 ->].
    unfold credential_view. destruct (key_view Credential _) as [root|]; simpl in Hr;
      [|by injection Hr as _ <-].
    peel Hr w3 v Hv. injection Hr as _ <-. apply read_object_ok in Hv as [_ ->]. by rewrite Ht2.
  - intros v s s' r Hr. apply on_world_run in Hr. unfold typed in Hr. unfold file_counter_view, file_tree.
    destruct (in_range 0 u32_limit v) eqn:Et.
    + apply file_counter_write in Hr; [|by apply in_range_spec]. unfold written in Hr.
      destruct r; [by rewrite Hr|]. destruct Hr as [->|[_ ->]]; auto.
    + injection Hr as Hw <-. left. by rewrite Hw.
  - intros c s Hc. unfold file_counter_view. f_equal. apply call_view; [by intros ->|apply in_objects_counter|].
    destruct c; try done; cbn [call_paths]; try (by intros []); try path_neq;
      apply objects_not_in_set, in_objects_counter.
Defined.

(** ** Sealed credential IDs *)

(** A key in use stays in use until a reset. *)
Lemma calls_keep_key calls s root :
  Forall (fun c => c <> SClear) calls -> key_view Credential (file_tree s) = Some root ->
  key_view Credential (file_tree (run_calls calls s)) = Some root.
Proof.
  revert s. induction calls as [|c calls IH]; intros s Hc Hk; [done|].
  apply Forall_cons in Hc as [Hc Hcs]. cbn [run_calls fold_left]. apply (IH (run_call c s)); [done|].
  destruct (call_step c s Hc) as [[Hs|[Hn _]] _].
  - unfold key_view in *. by rewrite Hs.
  - unfold key_view in Hk. by rewrite Hn in Hk.
Qed.

Lemma seal_id_ok p ad w w' sealed :
  file_seal_credential_id p ad w = (w', Ok sealed) ->
  exists root, key_view Credential (w_tree w') = Some root /\
    open_credential_id (ck_id (derive_credential_keys root)) sealed ad = Some p /\
    length sealed = (SEALED_ID_OVERHEAD + length p)%nat.
Proof.
  unfold file_seal_credential_id. rewrite assoc_write_keys. intros Hs. peel Hs w1 root Hr.
  apply write_key_spec in Hr as [Hk _]. specialize (Hk root eq_refl). exists root.
  peel Hs w2 b Hb. peel Hs w3 u Hu. peel Hs w4 nonce Hn. apply lift_ok in Hs as [-> Hs].
  pose proof (ro_exists _ _ _ _ Hb) as Ht2.
  assert (Hf : Frame (eq [PIN_STATE_FILE])
    ((if b : bool then ret tt
      else let* d := write_pin_state (derive_credential_keys root) PinStateRecord_default in
           guard (negb (bool_decide (d = Unconfirmed))) Io) : M World unit StoreError)).
  { destruct b; [apply frame_ret|]. apply frame_bind; [by apply frame_write_pin|intros; apply frame_guard]. }
  apply Hf in Hu. apply io_ok in Hn. pose proof (ro_random _ _ _ _ Hn) as Ht4.
  split.
  - rewrite Ht4, (key_view_keeps _ _ _ _ Hu), Ht2 by path_neq. done.
  - eapply sealed_id_roundtrip; [|exact Hs]. unfold sys_random in Hn.
    destruct (w_os_random w3) as [|[d|] l]; [done| |done]. injection Hn as _ <-. apply fill_bytes_length.
Qed.

#[export] Instance FileSealStoreLaws : SealStoreLaws FileStore.
Proof.
  constructor. intros p ad s s' sealed Hr. apply on_world_run, seal_id_ok in Hr as (root & Hk & Ho & Hl).
  split; [done|]. intros calls s'' r Hc Hopen.
  pose proof (calls_keep_key calls s' root Hc Hk) as Hk'.
  apply on_world_run in Hopen. destruct r as [o|e]; [|done].
  unfold file_open_credential_id in Hopen. peel Hopen w1 keys Hkeys.
  apply credential_keys_ok in Hkeys as [_ ->]. unfold file_tree in Hk'. rewrite Hk' in Hopen.
  injection Hopen as _ <-. done.
Defined.

End Laws_.
