(* ===== verification/CredentialSet.v ===== *)
(** * The credential set on disk ([store/file.rs])

    [usable keys t name] is the record a lookup of the file [name] finds in
    the tree [t]: in the managed layout the manifest decides, in the legacy
    layout the directory.  Registration, deletion and update change this set
    all at once or not at all, whatever calls fail and wherever the process
    stops, and cleanup never takes a member's record. *)

From stdpp Require Import gmap strings.
From S2P Require Import Prelude Constants Alg Crypto Records Envelope Store Cbor Codec CodecProofs FileSystem Manifest StoreKeys FileStore FsProofs FileStoreProofs FileStoreLaws.

Section Views.

Context `{Crypto} `{Ciborium} `{RecordReader}.

Inductive SetMode : Type :=
| SManaged (m : gmap (list Z) Location)
| SLegacy
| SUnavailable.

Definition set_mode (keys : CredentialKeys) (t : Tree) : SetMode :=
  if is_some (t !! [MANAGED_DIR]) then
    match object_view (ck_record keys) RCredentialFormat [FORMAT_FILE] check_format t,
          object_view (ck_record keys) RCredentialSet ACTIVE_PATH decode_manifest t with
    | Some _, Some m => SManaged m
    | _, _ => SUnavailable
    end
  else if is_some (t !! [CREDENTIALS_DIR]) then SLegacy
  else SUnavailable.

Definition record_view (keys : CredentialKeys) (t : Tree) (dir : Path) (location : Location) (name : bytes)
    : option CredentialRecord :=
  match t !! (dir ++ [name]) with
  | Some (File _ c) =>
      match open_credential keys name location (read_limited MAX_ENVELOPE_LEN c) with
      | Ok r => Some r
      | Err _ => None
      end
  | _ => None
  end.

Definition usable (keys : CredentialKeys) (t : Tree) (name : bytes) : option CredentialRecord :=
  match set_mode keys t with
  | SManaged m =>
      match m !! name with
      | Some location => record_view keys t (record_dir location) location name
      | None => None
      end
  | SLegacy =>
      if is_credential_file_name name then record_view keys t [CREDENTIALS_DIR] Legacy name else None
  | SUnavailable => None
  end.

(** Under the key in use; without a key there is no credential. *)
Definition usable_now (t : Tree) (name : bytes) : option CredentialRecord :=
  match key_view Credential t with
  | Some root => usable (derive_credential_keys root) t name
  | None => None
  end.

Lemma record_view_name keys t dir location name r :
  record_view keys t dir location name = Some r -> file_name keys (cr_credential_id r) = name.
Proof.
  unfold record_view, open_credential. destruct (t !! _) as [[m c|m]|]; [|done|done].
  destruct (open _ _ _ _); [|done]. cbn [bind]. destruct (decode_credential _); [|done]. cbn [bind].
  destruct (bytes_eqb _ _) eqn:E; [|done]. intros [= <-]. by apply bytes_eqb_spec.
Qed.

Lemma record_view_same keys t t' dir location name :
  t' !! (dir ++ [name]) = t !! (dir ++ [name]) ->
  record_view keys t' dir location name = record_view keys t dir location name.
Proof. intros Ht. unfold record_view. by rewrite Ht. Qed.

Lemma object_view_same {A} key ty p (decode : bytes -> result A Corruption) t t' :
  t' !! p = t !! p -> object_view key ty p decode t' = object_view key ty p decode t.
Proof. intros Ht. unfold object_view. by rewrite Ht. Qed.

(** ** What the reads find *)

Lemma read_credential_ok keys name dir location w w' o :
  read_credential_in keys name dir location w = (w', Ok o) ->
  w_tree w' = w_tree w /\ o = record_view keys (w_tree w) dir location name /\
  (o = None -> w_tree w !! (dir ++ [name]) = None).
Proof.
  intros Hr. split; [by eapply ro_read_credential_in|]. unfold read_credential_in in Hr.
  peel Hr w1 s Hs. apply io_ok, read_file_ok in Hs as [Ht Hf]. unfold record_view.
  destruct (w_tree w !! (dir ++ [name])) as [[m c|m]|]; [|done|]; subst s; [|by injection Hr as <- <-].
  peel_lift Hr x Hx. injection Hr as <- <-. by destruct (open_credential _ _ _ _); simplify_eq/=.
Qed.

Lemma object_or_damage_ok {A} p key ty (decode : bytes -> result A Corruption) w w' x :
  object_or_damage p (read_object key ty p decode) w = (w', Ok x) ->
  w_tree w' = w_tree w /\ object_view key ty p decode (w_tree w) = Some x.
Proof.
  unfold object_or_damage. destruct (read_object key ty p decode w) as [w1 [[y|]|e]] eqn:E1; [|done|done].
  intros [= <- <-]. apply read_object_ok in E1 as [Ht Hv]. by rewrite Ht, Hv.
Qed.

Lemma active_manifest_ok keys w w' o :
  active_manifest keys w = (w', Ok o) ->
  w_tree w' = w_tree w /\
  set_mode keys (w_tree w) = match o with Some m => SManaged m | None => SLegacy end.
Proof.
  intros Hr. split; [by eapply ro_active_manifest|]. unfold active_manifest in Hr.
  peel Hr w1 found Hf. apply lift_ok in Hr as [_ Hr]. unfold membership in Hf.
  peel Hf w2 managed Hm. apply exists_ok in Hm as [Ht2 ->]. unfold set_mode.
  destruct (is_some (w_tree w !! [MANAGED_DIR])); simpl in Hf.
  - destruct (mbind_st _ _ w2) as [w3 [m|d]] eqn:E3; injection Hf as <- <-; [|done].
    injection Hr as <-. peel E3 w4 u H4. destruct u.
    apply object_or_damage_ok in H4 as [Ht4 Hv4]. apply object_or_damage_ok in E3 as [_ Hv3].
    rewrite Ht4, Ht2 in Hv3. rewrite Ht2 in Hv4. by rewrite Hv4, Hv3.
  - peel Hf w3 legacy Hl. apply exists_ok in Hl as [Ht3 ->]. rewrite Ht2 in Hf.
    destruct (is_some (w_tree w !! [CREDENTIALS_DIR])).
    + injection Hf as _ <-. by injection Hr as <-.
    + peel Hf w4 format Hfm. by injection Hf as _ <-.
Qed.

Lemma read_members_ok keys dir members w w' records :
  read_members keys dir members w = (w', Ok records) ->
  Forall2 (fun m r => record_view keys (w_tree w) (dir (snd m)) (snd m) (fst m) = Some r) members records.
Proof.
  revert w w' records. induction members as [|[n loc] members IH]; intros w w' records; cbn [read_members].
  - intros [= _ <-]. constructor.
  - intros Hr. peel Hr w1 o Ho. peel_lift Hr r Hrec. peel Hr w2 rest Hrest. injection Hr as _ <-.
    apply read_credential_ok in Ho as (Ht & -> & _).
    destruct (record_view _ _ _ _ _) eqn:E; simplify_eq/=.
    constructor; [exact E|]. rewrite <- Ht. by eapply IH.
Qed.

(** ** Cleanup *)

(** What cleanup after [m] may remove: no member's record at its place. *)
Definition retired_path (m : gmap (list Z) Location) (p : Path) : Prop :=
  exists location name, p = record_dir location ++ [name] /\ is_credential_file_name name = true /\
    m !! name <> Some location.

Lemma reclaimable_ok m location name w w' :
  reclaimable m location name w = (w', Ok true) -> m !! name <> Some location.
Proof.
  unfold reclaimable. destruct (m !! name) as [l|]; [|done]. case_bool_decide; [by intros [= ]|].
  intros _ [= ->]. done.
Qed.

Lemma frame_reclaimable P m location name : Frame P (reclaimable m location name).
Proof. unfold reclaimable, holds_record. apply ro_frame. ro_solve. Qed.

Lemma cleanup_entries_frame m location names : Frame (retired_path m) (cleanup_entries m location names).
Proof.
  induction names as [|name names IH]; cbn [cleanup_entries]; [apply frame_ret|].
  apply frame_bind; [apply frame_io, frame_touch|]. intros _.
  apply frame_bind; [|intros _; exact IH].
  destruct (is_credential_file_name name) eqn:En; [|apply frame_ret].
  apply frame_bind_post; [apply frame_reclaimable|]. intros w w1 b w' r Hb Hr.
  destruct b; [|by injection Hr as <- _]. apply reclaimable_ok in Hb.
  eapply (frame_bind (retired_path m)); [|intros; apply frame_ret|exact Hr].
  apply frame_io, frame_remove. left. by exists location, name.
Qed.

Lemma cleanup_frame m w : keeps (retired_path m) (w_tree w) (w_tree (fst (cleanup_retired m w))).
Proof.
  assert (Hloc : forall location, Frame (retired_path m) (cleanup_location m location)).
  { intros location. apply frame_bind; [apply frame_io, frame_sys_read|]. intros names.
    apply frame_bind; [apply cleanup_entries_frame|intros; apply frame_io, frame_sync_strict]. }
  unfold cleanup_retired.
  destruct (cleanup_location m Legacy w) as [w1 r1] eqn:E1.
  destruct (cleanup_location m Managed w1) as [w2 r2] eqn:E2. simpl.
  eapply keeps_trans; by eapply Hloc.
Qed.

Lemma finish_frame m dir w w' r :
  finish_commit m dir w = (w', r) ->
  keeps (retired_path m) (w_tree w) (w_tree w') /\ exists c, r = Ok c.
Proof.
  unfold finish_commit.
  assert (Hs : Frame (retired_path m) (sync_dir_strict dir;;*
    (if bool_decide (dir = []) then ret tt else sync_dir_strict []))).
  { apply frame_bind; [apply frame_sync_strict|]. intros _.
    destruct (bool_decide _); [apply frame_ret|apply frame_sync_strict]. }
  destruct (mbind_st _ _ w) as [w1 [u|e]] eqn:E1; apply Hs in E1.
  - pose proof (cleanup_frame m w1) as Hc.
    destruct (cleanup_retired m w1) as [w2 pending]. intros [= <- <-].
    split; [by eapply keeps_trans|eauto].
  - intros [= <- <-]. eauto.
Qed.

(** Files cleanup cannot reach. *)
Lemma not_retired m p : (length p <= 1)%nat \/ p = ACTIVE_PATH -> ~ retired_path m p.
Proof.
  intros Hp (location & name & -> & Hn & _). destruct Hp as [Hp|Hp].
  - rewrite length_app in Hp. destruct location; simpl in Hp; lia.
  - destruct location; simpl in Hp; [|done]. injection Hp as ->. by vm_compute in Hn.
Qed.

Lemma member_not_retired m name location :
  m !! name = Some location -> ~ retired_path m (record_dir location ++ [name]).
Proof.
  intros Hm (location' & name' & Heq & _ & Hne).
  assert (location' = location /\ name' = name) as [-> ->]; [|done].
  destruct location, location'; simpl in Heq; by simplify_eq.
Qed.

Context `{!AeadLaws} `{!RecordReaderLaws}.

(** ** Publication *)

(** The contents [c] hold [x]. *)
Definition holds {A} (key : bytes) (ty : RecordType) (name : bytes) (decode : bytes -> result A Corruption)
    (c : bytes) (x : A) : Prop :=
  exists plaintext, open key ty name (read_limited MAX_ENVELOPE_LEN c) = Ok plaintext /\
    decode plaintext = Ok x.

Lemma object_view_holds {A} key ty p (decode : bytes -> result A Corruption) m c x t :
  t !! p = Some (File m c) -> holds key ty (logical p) decode c x -> object_view key ty p decode t = Some x.
Proof. intros Ht (plain & Ho & Hd). unfold object_view. by rewrite Ht, Ho, Hd. Qed.

Abbreviation manifest_in := (fun keys => holds (ck_record keys) RCredentialSet (logical ACTIVE_PATH) decode_manifest).

Lemma prepare_spec keys m dir w w' r :
  prepare_manifest keys m dir w = (w', r) ->
  keeps nothing (w_tree w) (w_tree w') /\
  (forall temp, r = Ok temp -> is_dir (w_tree w !! dir) = true /\
     exists c, staged temp c (w_tree w') /\ manifest_in keys c m).
Proof.
  intros Hr. split; [by eapply frame_prepare|]. intros temp ->.
  peel_lift Hr plain Hp. peel Hr w1 sealed Hs. apply seal_ok in Hs as [Ht Ho]. split.
  - apply io_ok, write_temp_in_dir in Hr. by rewrite Ht in Hr.
  - exists sealed. split; [by eapply write_temp_staged|]. exists plain.
    split; [done|by apply manifest_roundtrip].
Qed.

(** The manifest prepared, and renamed over [target]. *)
Lemma prepared_install keys m dir target w w' r :
  temp_path target = false ->
  (let* temp := prepare_manifest keys m dir in io (install temp target)) w = (w', r) ->
  match r with
  | Ok _ => is_dir (w_tree w !! dir) = true /\
            exists c, manifest_in keys c m /\ replaced target c (w_tree w) (w_tree w')
  | Err _ => keeps nothing (w_tree w) (w_tree w')
  end.
Proof.
  intros Ht. unfold mbind_st. destruct (prepare_manifest keys m dir w) as [w1 [temp|e]] eqn:E1;
    apply prepare_spec in E1 as [Hk Hp]; [|by intros [= <- <-]].
  destruct (Hp temp eq_refl) as (Hd & c & [Htp Hf] & Hc). intros Hi.
  apply io_cases in Hi as (r' & Hi & ->). eapply install_spec in Hi; [|done|done|done].
  destruct r'; cbn [map_err].
  - destruct Hi as [Hk2 Hf2]. split; [done|]. exists c. split; [done|]. split; [|done].
    eapply keeps_trans; [by apply keeps_any|done].
  - by eapply keeps_trans.
Qed.

Lemma assoc3 {S A B C E} (a : M S A E) (b : A -> M S B E) (c : M S C E) s :
  (let* x := a in b x;;* c) s = ((let* x := a in b x);;* c) s.
Proof. unfold mbind_st. by destruct (a s) as [s1 [x|e]]. Qed.

Lemma publish_spec keys m w w' r :
  publish_manifest keys m w = (w', r) ->
  match r with
  | Ok _ => keeps (fun p => p = ACTIVE_PATH \/ retired_path m p) (w_tree w) (w_tree w') /\
            object_view (ck_record keys) RCredentialSet ACTIVE_PATH decode_manifest (w_tree w') = Some m
  | Err _ => keeps nothing (w_tree w) (w_tree w')
  end.
Proof.
  unfold publish_manifest. rewrite assoc3. unfold mbind_st at 1.
  destruct (mbind_st _ _ w) as [w1 [u|e]] eqn:E1; apply prepared_install in E1;
    [|done|by intros [= <- <-]|done].
  destruct E1 as (_ & c & Hc & Hk & Hf). intros Hr. apply finish_frame in Hr as [Hk2 [cm ->]]. split.
  - eapply keeps_trans; [eapply keeps_mono; [|exact Hk]; auto|eapply keeps_mono; [|exact Hk2]; auto].
  - eapply object_view_holds; [|exact Hc]. rewrite Hk2; [exact Hf|apply not_retired; by right|done].
Qed.

Lemma publish_names keys m w w' c name location :
  publish_manifest keys m w = (w', Ok c) -> m !! name = Some location ->
  is_credential_file_name name = true.
Proof.
  intros Hp. peel Hp w1 temp Ht. peel_lift Ht plain Henc. by apply (encode_names m plain).
Qed.

Lemma file_name_shape_not_temp name : is_credential_file_name name = true -> is_temp_name name = false.
Proof.
  unfold is_credential_file_name. intros Es. bool_hyps.
  destruct name as [|x name]; [done|]. simpl in *. bool_hyps.
  unfold is_temp_name. destruct (bytes_eqb _ _) eqn:Eb; [|done]. apply bytes_eqb_spec in Eb.
  by injection Eb as -> _.
Qed.

(** A member's record, and what decides the layout, survive publication. *)
Lemma publish_usable keys m w w' c :
  publish_manifest keys m w = (w', Ok c) ->
  is_some (w_tree w !! [MANAGED_DIR]) = true ->
  object_view (ck_record keys) RCredentialFormat [FORMAT_FILE] check_format (w_tree w) = Some tt ->
  forall name, usable keys (w_tree w') name =
    match m !! name with
    | Some location => record_view keys (w_tree w) (record_dir location) location name
    | None => None
    end.
Proof.
  intros Hp Hd Hf name. pose proof (publish_names keys m w w' c name) as Hnames. specialize (fun l => Hnames l Hp).
  apply publish_spec in Hp as [Hk Hm].
  assert (Hone : forall p, (length p <= 1)%nat -> temp_path p = false -> w_tree w' !! p = w_tree w !! p).
  { intros p Hl Ht. apply Hk; [|done]. intros [->|Hr]; [simpl in Hl; lia|].
    by eapply not_retired; [left|exact Hr]. }
  unfold usable, set_mode. rewrite (Hone [MANAGED_DIR]) by done. rewrite Hd, Hm.
  rewrite (object_view_same _ _ [FORMAT_FILE] _ (w_tree w)) by by apply Hone. rewrite Hf.
  destruct (m !! name) as [location|] eqn:En; [|done]. specialize (Hnames location eq_refl).
  apply record_view_same, Hk; [|rewrite temp_path_snoc; by apply file_name_shape_not_temp].
  intros [Hpa|Hr]; [|by eapply member_not_retired].
  destruct location; simpl in Hpa; [|done]. injection Hpa as ->. by vm_compute in Hnames.
Qed.

(** ** The candidate *)

Definition candidate_paths (ns : Path) (name : bytes) (p : Path) : Prop :=
  p = ns ++ [RECORDS_DIR] \/ p = ns ++ [RECORDS_DIR; name].

Lemma open_sealed_credential keys record created_at name location w w' sealed :
  credential_typed (set_created_at record created_at) -> validate_decoded_credential record = Ok tt ->
  name = file_name keys (cr_credential_id record) ->
  seal_credential_record keys record created_at name location w = (w', Ok sealed) ->
  w_tree w' = w_tree w /\
  open_credential keys name location (read_limited MAX_ENVELOPE_LEN sealed) = Ok (set_created_at record created_at).
Proof.
  intros Ht Hv -> Hs. split; [by eapply ro_seal_credential_record|]. peel_lift Hs plain Hp.
  apply seal_ok in Hs as [_ Ho]. unfold open_credential. rewrite Ho. cbn [bind].
  rewrite (credential_roundtrip _ _ _ Ht Hv Hp). cbn [bind].
  replace (bytes_eqb _ _) with true; [done|]. symmetry. by apply bytes_eqb_spec.
Qed.

Lemma candidate_spec keys record created_at ns w w' r :
  credential_typed (set_created_at record created_at) -> validate_decoded_credential record = Ok tt ->
  write_candidate keys record created_at ns w = (w', r) ->
  let name := file_name keys (cr_credential_id record) in
  keeps (candidate_paths ns name) (w_tree w) (w_tree w') /\
  (r = Ok tt -> record_view keys (w_tree w') (ns ++ [RECORDS_DIR]) Managed name
                = Some (set_created_at record created_at)).
Proof.
  intros Ht Hv Hr name. unfold write_candidate in Hr. fold name in Hr. unfold mbind_st at 1 in Hr.
  destruct (io (ensure_private_dir _) w) as [w1 [u|e]] eqn:E1;
    apply (frame_io (candidate_paths ns name)) in E1; try (apply frame_ensure; by left);
    [|by injection Hr as <- <-].
  unfold mbind_st at 1 in Hr.
  destruct (seal_credential_record keys record created_at name Managed w1) as [w2 [sealed|e]] eqn:E2.
  2: { apply ro_seal_credential_record in E2. injection Hr as <- <-. rewrite E2. by split. }
  apply open_sealed_credential in E2 as [Ht2 Ho]; [|done..].
  rewrite assoc3 in Hr. unfold mbind_st at 1 in Hr.
  destruct (mbind_st _ _ w2) as [w3 r3] eqn:E3.
  assert (Hst : match r3 with
    | Ok _ => replaced ((ns ++ [RECORDS_DIR]) ++ [name]) sealed (w_tree w2) (w_tree w3)
    | Err _ => keeps nothing (w_tree w2) (w_tree w3)
    end).
  { unfold mbind_st in E3. destruct (io (write_temp_file _ sealed) w2) as [w4 [temp|e]] eqn:E4;
      pose proof (frame_io nothing _ (frame_write_temp nothing _ _) _ _ _ E4) as Hk4.
    - apply write_temp_staged in E4 as [Htp Hf]. apply io_cases in E3 as (r' & E3 & ->).
      eapply install_spec in E3; [|done|by rewrite temp_path_snoc; apply file_name_not_temp|done].
      destruct r'; cbn [map_err]; [|by eapply keeps_trans].
      destruct E3 as [Hk5 Hf5]. split; [|done]. eapply keeps_trans; [by apply keeps_any|done].
    - by injection E3 as <- <-. }
  rewrite Ht2 in Hst.
  assert (Hk3 : keeps (candidate_paths ns name) (w_tree w) (w_tree w3)).
  { eapply keeps_trans; [exact E1|]. destruct r3; [|by apply keeps_any].
    destruct Hst as [Hk _]. eapply keeps_mono; [|exact Hk]. intros p <-. right. by rewrite <- app_assoc. }
  destruct r3 as [u3|e3]; [|by injection Hr as <- <-]. destruct Hst as [_ Hf].
  pose proof (frame_io nothing _ (frame_sync_strict nothing (ns ++ [RECORDS_DIR])) _ _ _ Hr) as Hk4. split.
  - eapply keeps_trans; [exact Hk3|by apply keeps_any].
  - intros _. unfold record_view. rewrite Hk4, Hf; [by rewrite Ho|by intros []|].
    rewrite temp_path_snoc. apply file_name_not_temp.
Qed.

(** ** Migration *)

Lemma format_spec keys w w' r :
  write_format_marker keys w = (w', r) ->
  keeps (eq [FORMAT_FILE]) (w_tree w) (w_tree w') /\
  (r = Ok tt ->
   object_view (ck_record keys) RCredentialFormat [FORMAT_FILE] check_format (w_tree w') = Some tt).
Proof.
  unfold write_format_marker, seal_format. unfold mbind_st at 1.
  destruct (seal _ _ _ _ w) as [w1 [sealed|e]] eqn:E1.
  2: { apply ro_seal in E1. intros [= <- <-]. rewrite E1. by split. }
  apply seal_ok in E1 as [Ht Ho]. unfold mbind_st.
  destruct (io (replace_file [] FORMAT_FILE sealed) w1) as [w2 [u|e]] eqn:E2.
  - apply io_ok, replace_file_with_spec in E2 as [Hk Hf]; [|done]. rewrite Ht in Hk. intros Hr.
    pose proof (frame_io nothing _ (frame_sync_strict nothing []) _ _ _ Hr) as Hk3. split.
    + eapply keeps_trans; [exact Hk|by apply keeps_any].
    + intros _. eapply object_view_holds; [rewrite Hk3; [exact Hf|by intros []|done]|].
      exists FORMAT. by split.
  - intros [= <- <-]. split; [|done]. rewrite <- Ht.
    eapply frame_io; [apply (frame_replace (eq [FORMAT_FILE]) [] FORMAT_FILE sealed false); done|exact E2].
Qed.

Lemma migration_spec keys m w w' r :
  publish_migration keys m w = (w', r) ->
  match r with
  | Ok _ => exists t1, keeps (eq [CREDENTIALS_DIR; ACTIVE_FILE]) (w_tree w) t1 /\
              (exists c, manifest_in keys c m /\ t1 !! [CREDENTIALS_DIR; ACTIVE_FILE] = Some (File FILE_MODE c)) /\
              is_dir (t1 !! [CREDENTIALS_DIR]) = true /\
              keeps (retired_path m) (move_tree [CREDENTIALS_DIR] [MANAGED_DIR] t1) (w_tree w')
  | Err _ => keeps (eq [CREDENTIALS_DIR; ACTIVE_FILE]) (w_tree w) (w_tree w')
  end.
Proof.
  unfold publish_migration. rewrite assoc3. unfold mbind_st at 1.
  destruct (mbind_st _ _ w) as [w1 [u|e]] eqn:E1; apply prepared_install in E1;
    [|done|intros [= <- <-]; by apply keeps_any|done].
  destruct E1 as (Hd & c & Hc & Hk & Hf). unfold mbind_st at 1.
  destruct (io (sync_dir_strict [CREDENTIALS_DIR]) w1) as [w2 [u2|e2]] eqn:E2;
    pose proof (frame_io nothing _ (frame_sync_strict nothing _) _ _ _ E2) as Hk2;
    [|intros [= <- <-]; eapply keeps_trans; [exact Hk|by apply keeps_any]].
  assert (Hk12 : keeps (eq [CREDENTIALS_DIR; ACTIVE_FILE]) (w_tree w) (w_tree w2))
    by (eapply keeps_trans; [exact Hk|by apply keeps_any]).
  unfold mbind_st. destruct (io (rename _ _) w2) as [w3 [u3|e3]] eqn:E3.
  - apply io_ok, sys_write_spec in E3. intros Hr. apply finish_frame in Hr as [Hk4 [cm ->]].
    exists (w_tree w2).
    assert (Hdir : is_dir (w_tree w2 !! [CREDENTIALS_DIR]) = true) by (by rewrite Hk12).
    split; [done|]. split; [exists c; split; [done|]; rewrite Hk2; [done|by intros []|done]|]. split; [done|].
    assert (Ht3 : w_tree w3 = move_tree [CREDENTIALS_DIR] [MANAGED_DIR] (w_tree w2)); [|by rewrite <- Ht3].
    unfold rename_in in E3. destruct (w_tree w2 !! [CREDENTIALS_DIR]) as [[]|]; [done| |done].
    destruct (w_tree w2 !! [MANAGED_DIR]) as [[]|]; try done;
      (destruct (negb (is_dir (w_tree w2 !! parent [MANAGED_DIR]))); [done|]);
      (destruct (length (children [MANAGED_DIR] (w_tree w2)) =? 0)%nat; [congruence|done]).
  - apply io_cases in E3 as (r' & E3 & Hr'). intros [= <- <-].
    apply sys_write_spec in E3. destruct r' as [|[k|]]; [done| |done]. destruct E3 as [-> _]. done.
Qed.

End Views.
