(* ===== verification/CredentialTransactions.v ===== *)
(** * Registration, deletion and update on disk ([store/file.rs])

    What [insert_or_replace_discoverable], [delete] and [put] do to the usable
    credentials, for every sequence of failing calls. *)

From stdpp Require Import gmap strings.
From S2P Require Import Prelude Constants Alg Crypto Records Envelope Store Cbor Codec CodecProofs FileSystem Manifest StoreKeys FileStore FsProofs FileStoreProofs FileStoreLaws CredentialSet.

(** ** Records *)

Section Typed.

Context `{Crypto}.

Lemma credential_typed_order r v :
  credential_typed r -> 0 <= v <= u64_max -> credential_typed (set_created_at r v).
Proof.
  intros [(Hk & Hw & Hwo & Hcp & Hsc & _ & Hlb) [He Hl]] Hv.
  split; [unfold credential_shape; simpl; tauto|]. split; [|unfold zlen, credential_entries in *; rewrite !length_app in *; exact Hl].
  unfold credential_entries in *. cbn [set_created_at cr_credential_id cr_rp_id cr_user_id cr_user_name
    cr_user_display_name cr_alg cr_private_key cr_cred_random_with_uv cr_cred_random_without_uv cr_cred_blob
    cr_large_blob_key cr_third_party_payment cr_cred_protect cr_sign_count cr_created_at].
  rewrite !Forall_app in *. destruct He as (H1 & H2 & H3 & H4 & H5 & H6 & H7).
  repeat (split; [done|]). split; [|done].
  repeat (apply Forall_cons in H4 as [? H4]). repeat (apply Forall_cons; split; [done|]).
  apply Forall_cons. split; [|constructor]. unfold key_ok, u64_max in *. simpl.
  repeat split; try lia. 
Qed.

Lemma validate_decoded r : validate_credential r = Ok tt -> validate_decoded_credential r = Ok tt.
Proof.
  unfold validate_credential, validate_decoded_credential, check_credential.
  repeat (case_match; [done|]). destruct (cr_private_key r) as [s|s|p]; [done|done|].
  unfold rsa_signing_key. destruct (rsa_primes p) as [pq|e]; [|done]. cbn [bind].
  by destruct (rsa_from_p_q _ _).
Qed.

Lemma next_created_at_range l :
  Forall (fun r => 0 <= cr_created_at r <= u64_max) l ->
  0 <= next_created_at l <= u64_max /\
  Forall (fun r => cr_created_at r < next_created_at l \/ next_created_at l = u64_max) l.
Proof.
  intros Hl. unfold next_created_at. pose proof (max_created_at_spec l) as Hm.
  destruct (max_created_at l) as [m|].
  - destruct Hm as [Hle Hex]. apply Exists_exists in Hex as (r & Hr & <-).
    rewrite Forall_forall in Hl. specialize (Hl r Hr). simpl in Hl. split; [lia|].
    eapply Forall_impl; [exact Hle|]. simpl. intros x Hx. lia.
  - subst l. split; [unfold u64_max; lia|constructor].
Qed.

End Typed.

Section Transactions.

Context `{Crypto} `{Ciborium} `{RecordReader} `{!AeadLaws} `{!RecordReaderLaws}.

Implicit Types (keys : CredentialKeys) (record : CredentialRecord) (current : list CredentialRecord).
Implicit Types (t : Tree) (w : World) (name : bytes) (dir : Location -> Path) (m : gmap (list Z) Location).

Lemma record_view_shape keys t (dir : Path) location name r :
  record_view keys t dir location name = Some r -> 0 <= cr_created_at r <= u64_max.
Proof.
  unfold record_view, open_credential. destruct (t !! _) as [[m c|m]|]; [|done|done].
  destruct (open _ _ _ _); [|done]. cbn [bind]. destruct (decode_credential _) as [x|] eqn:Ed; [|done].
  cbn [bind]. destruct (bytes_eqb _ _); [|done]. intros [= <-].
  apply decode_credential_spec in Ed as (_ & _ & _ & _ & _ & Hs & _). apply Hs.
Qed.

(** ** When the set stays as it was *)

Lemma managed_same keys t t' m :
  set_mode keys t = SManaged m ->
  t' !! [MANAGED_DIR] = t !! [MANAGED_DIR] -> t' !! [FORMAT_FILE] = t !! [FORMAT_FILE] ->
  t' !! ACTIVE_PATH = t !! ACTIVE_PATH ->
  set_mode keys t' = SManaged m /\
  forall name, (forall location, m !! name = Some location ->
     t' !! (record_dir location ++ [name]) = t !! (record_dir location ++ [name])) ->
  usable keys t' name = usable keys t name.
Proof.
  intros Hm Hp1 Hp2 Hp3.
  assert (Hm' : set_mode keys t' = SManaged m).
  { rewrite <- Hm. unfold set_mode in *. rewrite Hp1 in *.
    destruct (is_some (t !! [MANAGED_DIR])); [|by destruct (is_some (t !! [CREDENTIALS_DIR]))].
    by rewrite (object_view_same _ _ [FORMAT_FILE] _ t), (object_view_same _ _ ACTIVE_PATH _ t). }
  split; [done|]. intros name Hr. unfold usable. rewrite Hm, Hm'.
  destruct (m !! name) as [location|] eqn:En; [|done]. by apply record_view_same, Hr.
Qed.

Lemma usable_managed keys t t' m :
  set_mode keys t = SManaged m ->
  t' !! [MANAGED_DIR] = t !! [MANAGED_DIR] -> t' !! [FORMAT_FILE] = t !! [FORMAT_FILE] ->
  t' !! ACTIVE_PATH = t !! ACTIVE_PATH ->
  (forall name location, m !! name = Some location ->
     t' !! (record_dir location ++ [name]) = t !! (record_dir location ++ [name])) ->
  set_mode keys t' = SManaged m /\ forall name, usable keys t' name = usable keys t name.
Proof.
  intros Hm Hp1 Hp2 Hp3 Hr. destruct (managed_same keys t t' m Hm Hp1 Hp2 Hp3) as [Hm' Hu]. auto.
Qed.

Lemma legacy_same keys t t' :
  set_mode keys t = SLegacy -> t' !! [MANAGED_DIR] = t !! [MANAGED_DIR] ->
  is_some (t' !! [CREDENTIALS_DIR]) = is_some (t !! [CREDENTIALS_DIR]) ->
  set_mode keys t' = SLegacy /\
  forall name, (is_credential_file_name name = true ->
     t' !! [CREDENTIALS_DIR; name] = t !! [CREDENTIALS_DIR; name]) ->
  usable keys t' name = usable keys t name.
Proof.
  intros Hm Hp1 Hp2.
  assert (Hm' : set_mode keys t' = SLegacy).
  { unfold set_mode in *. rewrite Hp1, Hp2. destruct (is_some (t !! [MANAGED_DIR])); [|done].
    by repeat case_match. }
  split; [done|]. intros name Hr. unfold usable. rewrite Hm, Hm'.
  destruct (is_credential_file_name name) eqn:En; [|done]. apply record_view_same. by apply Hr.
Qed.

(** The key for a write leaves the set as it was. *)
Lemma write_key_usable w w' r :
  root_key_for_write Credential w = (w', r) ->
  forall name, usable_now (w_tree w') name = usable_now (w_tree w) name.
Proof.
  intros Hw name. apply write_key_spec in Hw as [_ [->|(Hn & Hd & Hk)]]; [done|].
  destruct Hd as (_ & _ & _ & _ & Hm & Hc). unfold usable_now.
  assert (key_view Credential (w_tree w) = None) as -> by (unfold key_view; by rewrite Hn).
  destruct (key_view Credential (w_tree w')) as [root|]; [|done].
  assert (Hsame : forall p, hd [] p <> KEYS_DIR -> temp_path p = false -> w_tree w' !! p = w_tree w !! p).
  { intros p Hp Ht. apply Hk; [|done]. by intros [->| ->]. }
  unfold usable, set_mode. rewrite (Hsame [MANAGED_DIR]), Hm by first [path_neq|done]. simpl.
  rewrite (Hsame [CREDENTIALS_DIR]) by first [path_neq|done].
  destruct (is_some (w_tree w !! [CREDENTIALS_DIR])); [|done].
  destruct (is_credential_file_name name) eqn:Es; [|done]. unfold record_view. simpl.
  rewrite (Hsame [CREDENTIALS_DIR; name]); [by rewrite Hc|path_neq|].
  change [CREDENTIALS_DIR; name] with ([CREDENTIALS_DIR] ++ [name]).
  rewrite temp_path_snoc. by apply file_name_shape_not_temp.
Qed.

(** ** Who is retired *)

Lemma foldr_delete_lookup (m : gmap (list Z) Location) (l : list bytes) name :
  foldr delete m l !! name = if bool_decide (name ∈ l) then None else m !! name.
Proof.
  case_bool_decide; [by apply lookup_foldr_delete|by apply lookup_foldr_delete_not_elem_of].
Qed.

Lemma retired_iff keys record (current : list CredentialRecord) (view : bytes -> option CredentialRecord) name old :
  (forall n r, view n = Some r -> file_name keys (cr_credential_id r) = n) ->
  (forall r, r ∈ current -> view (file_name keys (cr_credential_id r)) = Some r) ->
  old ∈ current -> view name = Some old ->
  bool_decide (name ∈ retired_names keys record current) = matching record old.
Proof.
  intros Hname Hview Hin Hold. unfold retired_names.
  destruct (matching record old) eqn:Em.
  - apply bool_decide_eq_true. apply list_elem_of_In, in_map_iff. exists old.
    split; [by apply Hname|]. apply filter_In. split; [by apply list_elem_of_In|done].
  - apply bool_decide_eq_false. intros Hn. apply list_elem_of_In, in_map_iff in Hn as (x & Hx & Hf).
    apply filter_In in Hf as [Hf Hmx]. apply list_elem_of_In in Hf. apply Hview in Hf.
    rewrite Hx, Hold in Hf. injection Hf as <-. congruence.
Qed.

(** The set after a registration: the account's records give way to the new
    one, the others stay. *)
Definition registered (keys : CredentialKeys) (record : CredentialRecord) (v : Z) (t t' : Tree) : Prop :=
  forall name, usable keys t' name =
    if bool_decide (name = file_name keys (cr_credential_id record)) then Some (set_created_at record v)
    else match usable keys t name with
         | Some old => if matching record old then None else Some old
         | None => None
         end.

(** Every member was read. *)
Definition all_read (keys : CredentialKeys) (t : Tree) (dir : Location -> Path) (m : gmap (list Z) Location)
    (current : list CredentialRecord) : Prop :=
  (forall name location, m !! name = Some location ->
     exists r, r ∈ current /\ record_view keys t (dir location) location name = Some r) /\
  (forall r, r ∈ current -> exists location, m !! file_name keys (cr_credential_id r) = Some location /\
     record_view keys t (dir location) location (file_name keys (cr_credential_id r)) = Some r).

Lemma all_read_members keys t dir (members : list (bytes * Location)) current m :
  (forall name location, (name, location) ∈ members <-> m !! name = Some location) ->
  Forall2 (fun e r => record_view keys t (dir (snd e)) (snd e) (fst e) = Some r) members current ->
  all_read keys t dir m current.
Proof.
  intros Hm Hf. split.
  - intros name location Hn. apply Hm, list_elem_of_lookup in Hn as [i Hi].
    destruct (Forall2_lookup_l _ _ _ _ _ Hf Hi) as (r & Hr & Hv). exists r.
    split; [by eapply list_elem_of_lookup_2|done].
  - intros r Hr. apply list_elem_of_lookup in Hr as [i Hi].
    destruct (Forall2_lookup_r _ _ _ _ _ Hf Hi) as ([name location] & Hn & Hv). simpl in Hv.
    pose proof (record_view_name _ _ _ _ _ _ Hv) as ->. exists location.
    split; [|done]. apply Hm. by eapply list_elem_of_lookup_2.
Qed.

(** The new manifest's members: the new name, and the old ones not retired. *)
Lemma survivors keys t dir m current record name :
  all_read keys t dir m current ->
  name <> file_name keys (cr_credential_id record) ->
  let m' := <[file_name keys (cr_credential_id record) := Managed]>
              (foldr delete m (retired_names keys record current)) in
  match m !! name with
  | Some location =>
      exists old, old ∈ current /\ record_view keys t (dir location) location name = Some old /\
        m' !! name = if matching record old then None else Some location
  | None => m' !! name = None
  end.
Proof.
  intros [Hall Hback] Hne m'. unfold m'. rewrite lookup_insert_ne by done. rewrite foldr_delete_lookup.
  destruct (m !! name) as [location|] eqn:En; [|by destruct (bool_decide _)].
  destruct (Hall name location En) as (old & Hin & Hv). exists old. split; [done|]. split; [done|].
  rewrite (retired_iff keys record current
    (fun n => match m !! n with Some l => record_view keys t (dir l) l n | None => None end) name old);
    [done| | |done|by rewrite En].
  - intros n r. destruct (m !! n); [|done]. by apply record_view_name.
  - intros r Hr. destruct (Hback r Hr) as (l & -> & Hl). done.
Qed.

(** The orders the readable records hold are below the new one. *)
Lemma all_read_orders keys t dir m current :
  all_read keys t dir m current -> Forall (fun r => 0 <= cr_created_at r <= u64_max) current.
Proof.
  intros [_ Hb]. apply Forall_forall. intros r Hr. destruct (Hb r Hr) as (l & _ & Hv).
  by eapply record_view_shape.
Qed.

Lemma managed_names keys t m name l : set_mode keys t = SManaged m -> m !! name = Some l -> name_ok name.
Proof.
  unfold set_mode, object_view. intros Hm. repeat case_match; simplify_eq.
  by eapply decode_names.
Qed.

Lemma managed_mode keys t m :
  set_mode keys t = SManaged m ->
  is_some (t !! [MANAGED_DIR]) = true /\
  object_view (ck_record keys) RCredentialFormat [FORMAT_FILE] check_format t = Some tt.
Proof.
  unfold set_mode. destruct (is_some (t !! [MANAGED_DIR])); [|by destruct (is_some (t !! [CREDENTIALS_DIR]))].
  by destruct (object_view _ _ [FORMAT_FILE] _ _) as [[]|].
Qed.

(** A new record and the manifest [m'] that names it and keeps some of [m]. *)
Lemma managed_commit keys record (v : Z) m (m' : gmap (list Z) Location) w w' r :
  credential_typed record -> validate_decoded_credential record = Ok tt -> 0 <= v <= u64_max ->
  set_mode keys (w_tree w) = SManaged m ->
  let n := file_name keys (cr_credential_id record) in
  m !! n = None -> m' !! n = Some Managed ->
  (forall name l, name <> n -> m' !! name = Some l -> m !! name = Some l) ->
  (write_candidate keys record v [MANAGED_DIR];;* publish_manifest keys m') w = (w', r) ->
  match r with
  | Ok _ => forall name, usable keys (w_tree w') name =
      if bool_decide (name = n) then Some (set_created_at record v)
      else if is_some (m' !! name) then usable keys (w_tree w) name else None
  | Err _ => forall name, usable keys (w_tree w') name = usable keys (w_tree w) name
  end.
Proof.
  intros Ht Hv Hrange Hm n Hn Hn' Hsub Hr.
  pose proof (credential_typed_order _ _ Ht Hrange) as Ht'.
  assert (Hpaths : forall name l, m !! name = Some l -> ~ candidate_paths [MANAGED_DIR] n (record_dir l ++ [name])
    /\ temp_path (record_dir l ++ [name]) = false).
  { intros name l Hl. pose proof (managed_names _ _ _ _ _ Hm Hl) as (b & -> & Hb).
    split; [|rewrite temp_path_snoc; apply hex_not_temp].
    pose proof (hex_length b) as Hhl. intros [Hp|Hp]; destruct l; simpl in Hp; simplify_eq.
    - match goal with Hx : hex b = _ |- _ => rewrite Hx in Hhl end. rewrite Hb in Hhl. done.
    - match goal with Hx : hex b = _ |- _ => rewrite Hx in Hl end. by rewrite Hl in Hn. }
  unfold mbind_st in Hr.
  destruct (write_candidate keys record v [MANAGED_DIR] w) as [w1 [u|e]] eqn:E1;
    apply candidate_spec in E1 as [Hk1 Hc]; try done;
    (assert (Hmode : set_mode keys (w_tree w1) = SManaged m /\
       forall name, usable keys (w_tree w1) name = usable keys (w_tree w) name)
      by (apply usable_managed; [done|apply Hk1; [intros [?|?]; path_neq|done]..|];
          intros name l Hl; apply Hk1; by apply Hpaths));
    destruct Hmode as [Hm1 Hu1]; [|by injection Hr as <- <-].
  destruct u. specialize (Hc eq_refl).
  destruct r as [commit|e].
  2: { intros name. rewrite <- Hu1. apply publish_spec in Hr.
       apply (usable_managed keys _ _ m Hm1); try (apply Hr; [by intros []|done]).
       intros nm l Hl. apply Hr; [by intros []|]. by apply Hpaths. }
  pose proof (managed_mode _ _ _ Hm1) as [Hd1 Hf1].
  intros name. rewrite (publish_usable keys _ w1 w' commit Hr Hd1 Hf1). case_bool_decide as Hnn.
  - subst name. by rewrite Hn'.
  - destruct (m' !! name) as [l|] eqn:El; [|done]. apply Hsub in El; [|done].
    cbn [is_some]. rewrite <- Hu1. unfold usable. by rewrite Hm1, El.
Qed.

Lemma register_managed keys record m current w w' r :
  credential_typed record -> validate_decoded_credential record = Ok tt ->
  set_mode keys (w_tree w) = SManaged m -> all_read keys (w_tree w) record_dir m current ->
  let n := file_name keys (cr_credential_id record) in
  (forall location, w_tree w !! (record_dir location ++ [n]) = None) ->
  (write_candidate keys record (next_created_at current) [MANAGED_DIR];;*
   publish_manifest keys (<[n := Managed]> (foldr delete m (retired_names keys record current)))) w = (w', r) ->
  match r with
  | Ok _ => registered keys record (next_created_at current) (w_tree w) (w_tree w')
  | Err _ => forall name, usable keys (w_tree w') name = usable keys (w_tree w) name
  end.
Proof.
  intros Ht Hv Hm Har n Hfree Hr.
  pose proof (next_created_at_range _ (all_read_orders _ _ _ _ _ Har)) as [Hrange _].
  assert (Hn : m !! n = None).
  { destruct (m !! n) as [l|] eqn:En; [|done]. destruct (proj1 Har n l En) as (x & _ & Hx).
    unfold record_view in Hx. by rewrite Hfree in Hx. }
  pose proof (fun name => survivors keys _ _ _ _ record name Har) as Hs. cbv zeta in Hs. fold n in Hs.
  eapply managed_commit in Hr; [|done|done|done|exact Hm|exact Hn|by rewrite lookup_insert_eq|].
  2: { intros name l Hne Hl. specialize (Hs name Hne). destruct (m !! name) as [l'|]; [|congruence].
       destruct Hs as (old & _ & _ & Ho). rewrite Hl in Ho. by destruct (matching record old). }
  destruct r as [c|e]; [|done]. intros name. rewrite Hr. fold n. case_bool_decide as Hnn; [done|].
  specialize (Hs name Hnn). unfold usable. rewrite Hm. destruct (m !! name) as [l|] eqn:El; [|by rewrite Hs].
  destruct Hs as (old & _ & Hold & ->). rewrite Hold. by destruct (matching record old).
Qed.

(** In the legacy layout the directory's names are the members. *)
Lemma legacy_lookup (names : list bytes) name :
  (list_to_map (legacy_members names) : gmap (list Z) Location) !! name =
  if bool_decide (name ∈ names) then Some Legacy else None.
Proof.
  unfold legacy_members. induction names as [|x names IH]; cbn [map list_to_map foldr fst snd]; [done|].
  destruct (decide (x = name)) as [->|Hne].
  - rewrite lookup_insert_eq, bool_decide_eq_true_2; [done|]. by constructor.
  - rewrite lookup_insert_ne by done. rewrite IH.
    destruct (decide (name ∈ names)).
    + rewrite !bool_decide_eq_true_2; [done|by constructor|done].
    + rewrite !bool_decide_eq_false_2; [done|rewrite elem_of_cons; naive_solver|done].
Qed.

Lemma apart_dirs : apart [CREDENTIALS_DIR] [MANAGED_DIR].
Proof. by intros r. Qed.

(** After the migration the records are where the manifest says. *)
Lemma migrated_mode keys m t1 t' c :
  holds (ck_record keys) RCredentialSet (logical ACTIVE_PATH) decode_manifest c m ->
  t1 !! [CREDENTIALS_DIR; ACTIVE_FILE] = Some (File FILE_MODE c) ->
  is_dir (t1 !! [CREDENTIALS_DIR]) = true ->
  object_view (ck_record keys) RCredentialFormat [FORMAT_FILE] check_format t1 = Some tt ->
  keeps (retired_path m) (move_tree [CREDENTIALS_DIR] [MANAGED_DIR] t1) t' ->
  set_mode keys t' = SManaged m.
Proof.
  intros Hc Hact Hdir Hfmt Hk.
  assert (Hone : forall p, (length p <= 1)%nat \/ p = ACTIVE_PATH -> temp_path p = false ->
    t' !! p = move_tree [CREDENTIALS_DIR] [MANAGED_DIR] t1 !! p) by (intros p Hp Ht; apply Hk; [by apply not_retired|done]).
  assert (Hman : is_some (t' !! [MANAGED_DIR]) = true).
  { rewrite (Hone [MANAGED_DIR]) by auto. rewrite (move_tree_lookup _ _ _ _ apart_dirs). simpl.
    by destruct (t1 !! [CREDENTIALS_DIR]). }
  unfold set_mode. rewrite Hman.
  rewrite (object_view_same _ _ [FORMAT_FILE] _ t1).
  2: { rewrite (Hone [FORMAT_FILE]) by auto. by rewrite (move_tree_lookup _ _ _ _ apart_dirs). }
  rewrite Hfmt, (object_view_holds _ _ ACTIVE_PATH _ FILE_MODE c m); [done| |exact Hc].
  rewrite (Hone ACTIVE_PATH) by auto. by rewrite (move_tree_lookup _ _ _ _ apart_dirs).
Qed.

Lemma migrated_usable keys m t1 t' c :
  holds (ck_record keys) RCredentialSet (logical ACTIVE_PATH) decode_manifest c m ->
  t1 !! [CREDENTIALS_DIR; ACTIVE_FILE] = Some (File FILE_MODE c) ->
  is_dir (t1 !! [CREDENTIALS_DIR]) = true ->
  object_view (ck_record keys) RCredentialFormat [FORMAT_FILE] check_format t1 = Some tt ->
  (forall name l, m !! name = Some l -> is_credential_file_name name = true) ->
  keeps (retired_path m) (move_tree [CREDENTIALS_DIR] [MANAGED_DIR] t1) t' ->
  forall name, usable keys t' name =
    match m !! name with
    | Some Legacy => record_view keys t1 [CREDENTIALS_DIR] Legacy name
    | Some Managed => record_view keys t1 [CREDENTIALS_DIR; RECORDS_DIR] Managed name
    | None => None
    end.
Proof.
  intros Hc Hact Hdir Hfmt Hnames Hk name. unfold usable.
  rewrite (migrated_mode keys m t1 t' c) by done. destruct (m !! name) as [l|] eqn:El; [|done].
  assert (Hrec : t' !! (record_dir l ++ [name]) = move_tree [CREDENTIALS_DIR] [MANAGED_DIR] t1 !! (record_dir l ++ [name])).
  { apply Hk; [by apply member_not_retired|]. rewrite temp_path_snoc. by eapply file_name_shape_not_temp, Hnames. }
  unfold record_view. rewrite Hrec, (move_tree_lookup _ _ _ _ apart_dirs). by destruct l.
Qed.

(** What a step outside the legacy records leaves. *)
Lemma legacy_kept keys P t t' :
  set_mode keys t = SLegacy -> keeps P t t' ->
  ~ P [MANAGED_DIR] -> ~ P [CREDENTIALS_DIR] ->
  (forall name, is_credential_file_name name = true -> ~ P [CREDENTIALS_DIR; name]) ->
  set_mode keys t' = SLegacy /\ forall name, usable keys t' name = usable keys t name.
Proof.
  intros Hm Hk Hp1 Hp2 Hp3.
  destruct (legacy_same keys t t' Hm) as [Hm' Hu]; [by apply Hk|f_equal; by apply Hk|].
  split; [done|]. intros name. apply Hu. intros Hs. apply Hk; [by apply Hp3|].
  change [CREDENTIALS_DIR; name] with ([CREDENTIALS_DIR] ++ [name]).
  rewrite temp_path_snoc. by apply file_name_shape_not_temp.
Qed.

Lemma register_legacy keys record (names : list bytes) current w w' r :
  credential_typed record -> validate_decoded_credential record = Ok tt ->
  set_mode keys (w_tree w) = SLegacy ->
  (forall name, name ∈ names <-> is_credential_file_name name = true /\ is_Some (w_tree w !! [CREDENTIALS_DIR; name])) ->
  let m := list_to_map (legacy_members names) in
  all_read keys (w_tree w) (fun _ => [CREDENTIALS_DIR]) m current ->
  let n := file_name keys (cr_credential_id record) in
  let m' := <[n := Managed]> (foldr delete m (retired_names keys record current)) in
  (forall name l, m' !! name = Some l -> is_credential_file_name name = true) ->
  (write_format_marker keys;;*
   write_candidate keys record (next_created_at current) [CREDENTIALS_DIR];;*
   publish_migration keys m') w = (w', r) ->
  match r with
  | Ok _ => registered keys record (next_created_at current) (w_tree w) (w_tree w')
  | Err _ => forall name, usable keys (w_tree w') name = usable keys (w_tree w) name
  end.
Proof.
  intros Ht Hv Hm Hnames m Har n m' Hshape Hr.
  pose proof (next_created_at_range _ (all_read_orders _ _ _ _ _ Har)) as [Hrange _].
  pose proof (credential_typed_order _ _ Ht Hrange) as Ht'.
  unfold mbind_st at 1 in Hr.
  destruct (write_format_marker keys w) as [w1 [u1|e1]] eqn:E1; apply format_spec in E1 as [Hk1 Hf1];
    (destruct (legacy_kept keys _ _ _ Hm Hk1) as [Hm1 Hu1]; [done..|]);
    [|by injection Hr as <- <-].
  unfold mbind_st in Hr.
  destruct (write_candidate keys record (next_created_at current) [CREDENTIALS_DIR] w1) as [w2 [u2|e2]] eqn:E2;
    apply candidate_spec in E2 as [Hk2 Hc2]; try done;
    (destruct (legacy_kept keys _ _ _ Hm1 Hk2) as [Hm2 Hu2];
      [intros [?|?]; path_neq|intros [?|?]; path_neq|
       intros name Hs [Hp|Hp]; [|done]; injection Hp as ->; by vm_compute in Hs|]);
    [|injection Hr as <- <-; intros name; by rewrite Hu2].
  destruct u1, u2. specialize (Hf1 eq_refl). specialize (Hc2 eq_refl). fold n in Hk2, Hc2.
  apply migration_spec in Hr. destruct r as [commit|e].
  2: { destruct (legacy_kept keys _ _ _ Hm2 Hr) as [_ Hu3]; [done..| |intros name; by rewrite Hu3, Hu2].
       intros name Hs Hp. injection Hp as <-. by vm_compute in Hs. }
  destruct Hr as (t1 & Hk3 & (c & Hc & Hact) & Hdir & Hk4). intros name.
  rewrite (migrated_usable keys m' t1 (w_tree w') c Hc Hact Hdir); [| |done|done].
  2: { rewrite <- Hf1. apply object_view_same. rewrite Hk3, Hk2; [done|intros [?|?]; path_neq|done..]. }
  fold n. case_bool_decide as Hnn.
  - subst name. unfold m'. rewrite lookup_insert_eq. rewrite <- Hc2. apply record_view_same.
    apply Hk3; [done|]. rewrite temp_path_snoc. apply file_name_not_temp.
  - pose proof (survivors keys _ _ _ _ record name Har Hnn) as Hs. cbv zeta in Hs. fold n in Hs. fold m' in Hs.
    unfold usable. rewrite Hm. unfold m in Hs at 1. rewrite legacy_lookup in Hs.
    case_bool_decide as Hin.
    + apply Hnames in Hin as [Hsh _]. rewrite Hsh.
      destruct Hs as (old & _ & Hold & ->). rewrite Hold. destruct (matching record old); [done|].
      rewrite <- Hold. apply record_view_same. simpl.
      assert (Hnt : temp_path [CREDENTIALS_DIR; name] = false) by
        (change [CREDENTIALS_DIR; name] with ([CREDENTIALS_DIR] ++ [name]); rewrite temp_path_snoc;
         by apply file_name_shape_not_temp).
      rewrite Hk3, Hk2, Hk1; [done|done|done| |done| |done].
      * intros [Hp|Hp]; [|done]. injection Hp as ->. by vm_compute in Hsh.
      * intros Hp. injection Hp as <-. by vm_compute in Hsh.
    + rewrite Hs. destruct (is_credential_file_name name) eqn:Hsh; [|done].
      unfold record_view. simpl.
      destruct (w_tree w !! [CREDENTIALS_DIR; name]) eqn:E; [|done].
      exfalso. apply Hin, Hnames. eauto.
Qed.

(** ** Whole operations *)

(** A read that fails, or one that is followed by the rest. *)
Lemma ro_cases {A B E : Type} (a : M World A E) (k : A -> M World B E) w w' r :
  ReadOnly a -> mbind_st a k w = (w', r) ->
  (exists e, r = Err e /\ w_tree w' = w_tree w) \/
  exists w1 x, a w = (w1, Ok x) /\ w_tree w1 = w_tree w /\ k x w1 = (w', r).
Proof.
  intros Ha. unfold mbind_st. destruct (a w) as [w1 [x|e]] eqn:E1; intros Hr.
  - right. exists w1, x. split; [done|]. split; [by eapply Ha|done].
  - left. injection Hr as <- <-. exists e. split; [done|by eapply Ha].
Qed.

(** A read-only step of a computation, its failure leaving the tree. *)
Ltac read_step Hr w1 x Hx Ht :=
  apply ro_cases in Hr as [(? & -> & Ht)|(w1 & x & Hx & Ht & Hr)];
  [intros; congruence| |first [by auto with fs|by ro_solve]].

Lemma collision_ok name w w' :
  collision name w = (w', Ok false) ->
  w_tree w !! [CREDENTIALS_DIR; name] = None /\ forall l, w_tree w !! (record_dir l ++ [name]) = None.
Proof.
  intros Hc. unfold collision in Hc.
  apply or_else_false in Hc as (w1 & H1' & Hc). apply exists_none in H1' as [Ht1 Hp1].
  apply or_else_false in Hc as (w2 & H2' & Hc). apply exists_none in H2' as [Ht2 Hp2].
  apply or_else_false in Hc as (w3 & H3' & Hc). apply exists_none in H3' as [Ht3 Hp3].
  apply exists_none in Hc as [_ Hp4]. rewrite Ht3, Ht2, Ht1 in Hp4. rewrite Ht2, Ht1 in Hp3.
  split; [done|]. by intros [].
Qed.

(** The members read before a registration, in either layout. *)
Lemma replacement_records_ok keys (preceding : option (gmap (list Z) Location)) w w' current :
  set_mode keys (w_tree w) = match preceding with Some m => SManaged m | None => SLegacy end ->
  replacement_records keys preceding w = (w', Ok current) ->
  match preceding with
  | Some m => all_read keys (w_tree w) record_dir m current
  | None => forall names, (forall name, name ∈ names <->
              is_credential_file_name name = true /\ is_Some (w_tree w !! [CREDENTIALS_DIR; name])) ->
      all_read keys (w_tree w) (fun _ => [CREDENTIALS_DIR]) (list_to_map (legacy_members names)) current
  end.
Proof.
  intros Hmode Hr. destruct preceding as [m|]; cbn [replacement_records] in Hr.
  - apply read_members_ok in Hr. eapply all_read_members; [|exact Hr].
    intros name location. rewrite entries_perm. apply elem_of_map_to_list.
  - peel Hr w1 names Hn. pose proof (ro_credential_file_names _ _ _ Hn) as Ht. apply read_members_ok in Hr.
    rewrite Ht in Hr. intros names' Hnames'. eapply all_read_members; [|exact Hr].
    assert (Hdir : is_some (w_tree w !! [CREDENTIALS_DIR]) = true).
    { unfold set_mode in Hmode. by repeat case_match. }
    intros name location. rewrite legacy_lookup. unfold legacy_members.
    rewrite list_elem_of_In, in_map_iff. setoid_rewrite <- list_elem_of_In.
    setoid_rewrite (credential_file_names_ok _ _ _ _ Hn Hdir). setoid_rewrite <- Hnames'. split.
    + intros (x & [= <- <-] & Hx). by rewrite bool_decide_eq_true_2.
    + case_bool_decide; [|done]. intros [= <-]. eauto.
Qed.

(** What a lookup finds was read. *)
Lemma usable_read keys t (preceding : option (gmap (list Z) Location)) (before : gmap (list Z) Location) current name old :
  set_mode keys t = match preceding with Some m => SManaged m | None => SLegacy end ->
  match preceding with
  | Some m => before = m /\ all_read keys t record_dir m current
  | None => (forall n, is_credential_file_name n = true -> is_Some (t !! [CREDENTIALS_DIR; n]) -> before !! n = Some Legacy) /\
      all_read keys t (fun _ => [CREDENTIALS_DIR]) before current
  end ->
  usable keys t name = Some old -> old ∈ current.
Proof.
  intros Hmode Hread Hu. unfold usable in Hu. rewrite Hmode in Hu. destruct preceding as [m|].
  - destruct Hread as [-> [Hall _]]. destruct (m !! name) as [l|] eqn:El; [|done].
    destruct (Hall _ _ El) as (x & Hx & Hv). by rewrite Hu in Hv; simplify_eq.
  - destruct Hread as [Hb [Hall _]]. destruct (is_credential_file_name name) eqn:Es; [|done].
    assert (before !! name = Some Legacy) as El.
    { apply Hb; [done|]. unfold record_view in Hu. simpl in Hu. by destruct (t !! _). }
    destruct (Hall _ _ El) as (x & Hx & Hv). by rewrite Hu in Hv; simplify_eq.
Qed.

Lemma unoccupied_unusable keys t name :
  t !! [CREDENTIALS_DIR; name] = None -> (forall l, t !! (record_dir l ++ [name]) = None) ->
  usable keys t name = None.
Proof.
  intros Hleg Hfree. unfold usable, record_view. destruct (set_mode keys t) as [m| |]; [| |done].
  - destruct (m !! _) as [l|]; [by rewrite Hfree|done].
  - destruct (is_credential_file_name _); [|done]. simpl. by rewrite Hleg.
Qed.

Lemma registration_spec max record keys w w' r :
  credential_typed record -> validate_decoded_credential record = Ok tt ->
  registration_body max record keys w = (w', r) ->
  match r with
  | Ok _ => exists v, registered keys record v (w_tree w) (w_tree w') /\
      usable keys (w_tree w) (file_name keys (cr_credential_id record)) = None /\
      0 <= v <= u64_max /\
      forall name old, usable keys (w_tree w) name = Some old -> cr_created_at old < v \/ v = u64_max
  | Err _ => forall name, usable keys (w_tree w') name = usable keys (w_tree w) name
  end.
Proof.
  intros Ht Hv Hr. unfold registration_body in Hr. cbv zeta in Hr.
  read_step Hr w1 occ Hocc Ht1.
  read_step Hr w2 u2 Hg2 Ht2. destruct occ; [done|].
  apply collision_ok in Hocc as [Hleg Hfree].
  read_step Hr w3 preceding Hact Ht3. rewrite Ht2, Ht1 in Ht3.
  apply active_manifest_ok in Hact as [_ Hmode]. rewrite Ht2, Ht1 in Hmode.
  read_step Hr w4 current Hcur Ht4. rewrite <- Ht3 in Hmode.
  pose proof (replacement_records_ok _ _ _ _ _ Hmode Hcur) as Hread. rewrite Ht3 in Ht4, Hmode, Hread.
  read_step Hr w5 u5 Hg5 Ht5. rewrite Ht4 in Ht5.
  read_step Hr w6 before Hbef Ht6. rewrite Ht5 in Ht6.
  read_step Hr w7 enc Henc Ht7. rewrite Ht6 in Ht7. apply lift_ok in Henc as [_ Henc].
  assert (Hfresh : usable keys (w_tree w) (file_name keys (cr_credential_id record)) = None)
    by by apply unoccupied_unusable.
  assert (Hfin : match r with
    | Ok _ => registered keys record (next_created_at current) (w_tree w) (w_tree w')
    | Err _ => forall name, usable keys (w_tree w') name = usable keys (w_tree w) name
    end /\ forall name old, usable keys (w_tree w) name = Some old -> old ∈ current).
  { rewrite <- Ht7 in *. destruct preceding as [m|].
    - injection Hbef as _ <-. split.
      + eapply register_managed; [done|done|exact Hmode|exact Hread|done|exact Hr].
      + intros name old. by eapply (usable_read keys (w_tree w7) (Some m) m).
    - peel Hbef w8 names Hn. injection Hbef as _ <-.
      assert (Hdir : is_some (w_tree w5 !! [CREDENTIALS_DIR]) = true).
      { rewrite Ht5. unfold set_mode in Hmode. by repeat case_match. }
      assert (Hnames : forall name, name ∈ names <->
        is_credential_file_name name = true /\ is_Some (w_tree w7 !! [CREDENTIALS_DIR; name])).
      { intros name. rewrite <- Ht5. exact (credential_file_names_ok _ _ _ _ Hn Hdir). }
      specialize (Hread names Hnames). split.
      + eapply register_legacy; [done|done|exact Hmode|exact Hnames|exact Hread| |exact Hr].
        intros name l. by apply encode_names with enc.
      + intros name old. eapply (usable_read keys (w_tree w7) None); [done|]. split; [|exact Hread].
        intros n Hs Hp. rewrite legacy_lookup, bool_decide_eq_true_2; [done|]. by apply Hnames. }
  destruct Hfin as [Hfin Hold]. destruct r as [c|e]; [|done].
  assert (Horders : Forall (fun x => 0 <= cr_created_at x <= u64_max) current).
  { destruct preceding as [m|]; [by eapply all_read_orders|].
    eapply all_read_orders, (Hread (filter (fun n => is_credential_file_name n = true) (children [CREDENTIALS_DIR] (w_tree w)))).
    intros n. rewrite list_elem_of_filter, children_spec. done. }
  pose proof (next_created_at_range _ Horders) as [Hrange Habove].
  exists (next_created_at current). split; [done|]. split; [done|]. split; [done|].
  intros name old Hu. rewrite Forall_forall in Habove. by eapply Habove, Hold.
Qed.

End Transactions.
