(* ===== verification/CredentialEffects.v ===== *)
(** * What the credential operations of the file store do ([store/file.rs])

    Registration, update, deletion and lookup as changes of the usable
    credentials, for every sequence of failing calls; and, when no call fails,
    that a usable credential is found. *)

From stdpp Require Import gmap strings.
From S2P Require Import Prelude Constants Alg Crypto Records Envelope Store Cbor Codec CodecProofs FileSystem Manifest StoreKeys FileStore FsProofs FileStoreProofs FileStoreLaws CredentialSet CredentialTransactions.

Section Effects.

Context `{Crypto} `{Ciborium} `{RecordReader} `{!AeadLaws} `{!RecordReaderLaws} `{!HashLengths} `{!HmacBytes}.

Implicit Types (keys : CredentialKeys) (record : CredentialRecord) (current : list CredentialRecord).
Implicit Types (t : Tree) (w : World) (name : bytes) (m : gmap (list Z) Location).

Lemma usable_now_eq t root :
  key_view Credential t = Some root -> forall name, usable_now t name = usable (derive_credential_keys root) t name.
Proof. intros Hk name. unfold usable_now. by rewrite Hk. Qed.

(** An operation that gets the keys for a write first and then stays within
    the credential set. *)
Lemma write_keys_cases {B : Type} (k : CredentialKeys -> M World B StoreError) w w' r :
  (forall keys, Frame in_set (k keys)) -> (let* keys := write_keys in k keys) w = (w', r) ->
  (exists e, r = Err e /\ forall name, usable_now (w_tree w') name = usable_now (w_tree w) name) \/
  exists root w1, let keys := derive_credential_keys root in
    key_view Credential (w_tree w') = Some root /\ k keys w1 = (w', r) /\
    (forall name, usable keys (w_tree w1) name = usable_now (w_tree w) name) /\
    (forall name, usable_now (w_tree w') name = usable keys (w_tree w') name).
Proof.
  intros Hf. rewrite assoc_write_keys. unfold mbind_st.
  destruct (root_key_for_write Credential w) as [w1 [root|e]] eqn:E1;
    pose proof (write_key_usable _ _ _ E1) as Hu; intros Hr.
  - right. exists root, w1. cbv zeta. apply write_key_spec in E1 as [Hk _]. specialize (Hk root eq_refl).
    assert (Hk' : key_view Credential (w_tree w') = Some root).
    { rewrite (key_view_keeps in_set _ (w_tree w1)); [done|by eapply Hf|apply in_set_spares_key]. }
    split; [done|]. split; [done|]. split; [|by apply usable_now_eq].
    intros name. by rewrite <- Hu, (usable_now_eq _ root).
  - left. injection Hr as <- <-. eauto.
Qed.

(** The set after a registration of [record] as [n], ordered [v]. *)
Definition account_replaced (record : CredentialRecord) (n : bytes) (v : Z)
    (before after : bytes -> option CredentialRecord) : Prop :=
  forall name, after name =
    if bool_decide (name = n) then Some (set_created_at record v)
    else match before name with
         | Some old => if matching record old then None else Some old
         | None => None
         end.

Lemma insert_effect max record w w' r :
  credential_typed record ->
  file_insert_or_replace_discoverable max record w = (w', r) ->
  match r with
  | Ok _ => exists root v, key_view Credential (w_tree w') = Some root /\
      let n := file_name (derive_credential_keys root) (cr_credential_id record) in
      usable_now (w_tree w) n = None /\ 0 <= v <= u64_max /\
      (forall name old, usable_now (w_tree w) name = Some old -> cr_created_at old < v \/ v = u64_max) /\
      account_replaced record n v (usable_now (w_tree w)) (usable_now (w_tree w'))
  | Err _ => forall name, usable_now (w_tree w') name = usable_now (w_tree w) name
  end.
Proof.
  intros Ht Hr. unfold file_insert_or_replace_discoverable in Hr.
  apply ro_cases in Hr as [(? & -> & ->)|(w1 & u1 & Hv & Ht1 & Hr)]; [done| |apply ro_lift].
  apply lift_ok in Hv as [_ Hv]. destruct u1. apply validate_decoded in Hv.
  apply ro_cases in Hr as [(? & -> & Ht2)|(w2 & u2 & _ & Ht2 & Hr)]; [by rewrite Ht2, Ht1| |apply ro_guard].
  change (?f w2 = _) with ((let* keys := write_keys in registration_body max record keys) w2 = (w', r)) in Hr.
  apply write_keys_cases in Hr as [(e & -> & Hu)|(root & w3 & Hk & Hr & Hu & Hu')];
    [by rewrite Ht2, Ht1 in Hu| |intros; apply frame_registration].
  rewrite Ht2, Ht1 in Hu. apply registration_spec in Hr; [|done|done].
  destruct r as [c|e]; [|intros name; by rewrite Hu', Hr, Hu].
  destruct Hr as (v & Hreg & Hnew & Hrange & Hab). exists root, v. split; [done|]. cbv zeta.
  rewrite <- Hu. split; [done|]. split; [done|]. split; [intros name old; rewrite <- Hu; apply Hab|].
  intros name. rewrite Hu', (Hreg name). by rewrite Hu.
Qed.

(** ** Update *)

(** The set after [record] is written as [n], ordered [v]. *)
Definition record_written (record : CredentialRecord) (n : bytes) (v : Z)
    (before after : bytes -> option CredentialRecord) : Prop :=
  0 <= v <= u64_max /\ (forall old, before n = Some old -> v = cr_created_at old) /\
  forall name, after name = if bool_decide (name = n) then Some (set_created_at record v) else before name.

(** A corrupt record is not usable. *)
Lemma read_credential_corrupt keys name dir location w w' reason :
  read_credential_in keys name dir location w = (w', Err (Corrupt reason)) ->
  record_view keys (w_tree w) dir location name = None.
Proof.
  unfold read_credential_in. unfold mbind_st at 1. destruct (io _ w) as [w1 [o|e]] eqn:E1.
  - apply io_ok, read_file_ok in E1 as [_ Hf]. unfold record_view.
    destruct (w_tree w !! _) as [[mo c|mo]|]; [|done|done]. subst o. unfold mbind_st, lift.
    by destruct (open_credential _ _ _ _).
  - apply io_cases in E1 as (r' & _ & Hr'). intros [= _ ->]. destruct r' as [|[]]; done.
Qed.

Lemma scan_orders keys w w' current :
  scan keys w = (w', Ok current) -> Forall (fun x => 0 <= cr_created_at x <= u64_max) current.
Proof.
  assert (Hs : forall dir members v v' l, scan_members keys dir members v = (v', Ok l) ->
    Forall (fun x => 0 <= cr_created_at x <= u64_max) l).
  { intros dir members. induction members as [|[n loc] members IH]; intros v v' l; cbn [scan_members].
    - intros [= _ <-]. constructor.
    - destruct (read_credential_in _ _ _ _ v) as [v1 [[x|]|e]] eqn:E1; [|apply IH..].
      intros Hr. peel Hr v2 rest Hrest. injection Hr as _ <-. constructor; [|by eapply IH].
      apply read_credential_ok in E1 as (_ & Hx & _). by eapply record_view_shape. }
  intros Hr. unfold scan in Hr. peel Hr w1 active Ha. destruct active as [m|]; [by eapply Hs|].
  peel Hr w2 names Hn. by eapply Hs.
Qed.

Lemma creation_order_ok max keys name dir location w w' v :
  creation_order max keys name dir location w = (w', Ok v) ->
  0 <= v <= u64_max /\
  forall old, record_view keys (w_tree w) dir location name = Some old -> v = cr_created_at old.
Proof.
  assert (Hfresh : forall v0 v1, (let* current := scan keys in
    guard (negb (max <=? zlen current)) (Full max);;* ret (next_created_at current)) v0 = (v1, Ok v) ->
    0 <= v <= u64_max).
  { intros v0 v1 Hr. peel Hr v2 current Hc. peel Hr v3 u Hu. injection Hr as _ <-.
    apply scan_orders in Hc. by apply next_created_at_range. }
  unfold creation_order.
  destruct (read_credential_in _ _ _ _ w) as [w1 [[x|]|e]] eqn:E1.
  - intros [= _ <-]. apply read_credential_ok in E1 as (_ & Hx & _).
    split; [by eapply record_view_shape|]. intros old Ho. by rewrite Ho in Hx; simplify_eq.
  - apply read_credential_ok in E1 as (_ & Hx & _). intros Hr. split; [by eapply Hfresh|].
    intros old Ho. by rewrite Ho in Hx.
  - destruct e; try done. apply read_credential_corrupt in E1. intros Hr. split; [by eapply Hfresh|].
    intros old Ho. by rewrite Ho in E1.
Qed.

(** A directory that was there stays. *)
Lemma ensure_present dir w w' r :
  ensure_private_dir dir w = (w', r) -> is_some (w_tree w !! dir) = true -> is_some (w_tree w' !! dir) = true.
Proof.
  unfold ensure_private_dir. destruct (sys_mkdir dir DIR_MODE w) as [w1 r1] eqn:E1. apply sys_write_spec in E1.
  intros Hr Hs. destruct r1 as [u|[k|]]; [|destruct E1 as [Ht1 _]|done].
  - apply make_entry_ok in E1 as [Hn _]. by rewrite Hn in Hs.
  - destruct k; try (injection Hr as <- _; by rewrite Ht1). unfold tighten_dir in Hr.
    apply ro_cases in Hr as [(? & _ & ->)|(w2 & n & _ & Ht2 & Hr)]; [by rewrite Ht1| |apply ro_sys_read].
    rewrite <- Ht1, <- Ht2 in Hs. destruct n as [mo c|mo]; [by injection Hr as <- _|].
    destruct (negb _); [by injection Hr as <- _|]. destruct (negb _); [|by injection Hr as <- _].
    apply sys_write_spec in Hr. destruct r as [u|[k|]]; [|by destruct Hr as [-> _]|done].
    destruct (w_tree w2 !! dir) as [[]|]; simplify_eq/=; rewrite <- Hr; by rewrite lookup_insert_eq.
Qed.

(** A record written over the file [name]. *)
Lemma record_replaced keys record v dir location sealed t t' :
  let n := file_name keys (cr_credential_id record) in
  open_credential keys n location (read_limited MAX_ENVELOPE_LEN sealed) = Ok (set_created_at record v) ->
  replaced (dir ++ [n]) sealed t t' ->
  record_view keys t' dir location n = Some (set_created_at record v).
Proof. intros n Ho [_ Hf]. unfold record_view. by rewrite Hf, Ho. Qed.

(** Sealing a record and replacing its file. *)
Lemma seal_and_replace keys record (v : Z) (dir : Path) location w w' r :
  let n := file_name keys (cr_credential_id record) in
  credential_typed record -> validate_decoded_credential record = Ok tt -> 0 <= v <= u64_max ->
  (let* sealed := seal_credential_record keys record v n location in io (replace_file dir n sealed)) w = (w', r) ->
  let done_ := keeps (eq (dir ++ [n])) (w_tree w) (w_tree w') /\
               record_view keys (w_tree w') dir location n = Some (set_created_at record v) in
  match r with
  | Ok _ => done_
  | Err _ => keeps nothing (w_tree w) (w_tree w') \/ done_
  end.
Proof.
  intros n Ht Hv Hrange Hr. apply ro_cases in Hr as [(? & -> & ->)|(w1 & sealed & Hs & Ht1 & Hr)];
    [left; apply keeps_refl| |apply ro_seal_credential_record].
  apply open_sealed_credential in Hs as [_ Ho]; [|by apply credential_typed_order|done|done].
  apply io_cases in Hr as (r' & Hr & ->). apply replace_file_with_spec in Hr; [|apply file_name_not_temp].
  rewrite Ht1 in Hr.
  destruct r' as [u|e]; cbn [map_err]; [|destruct Hr as [Hr|[_ Hr]]; [by left|right]];
    (split; [by destruct Hr|by eapply record_replaced]).
Qed.

Lemma file_name_shape keys id : is_credential_file_name (file_name keys id) = true.
Proof. apply hex_file_name; [apply hmac_sha256_bytes|apply hmac_sha256_length]. Qed.

(** The outcome of a write of one record: done, or after an error perhaps. *)
Definition put_outcome {A : Type} (record : CredentialRecord) (n : bytes)
    (before after : bytes -> option CredentialRecord) (r : result A StoreError) : Prop :=
  match r with
  | Ok _ => exists v, record_written record n v before after
  | Err _ => (forall name, after name = before name) \/ exists v, record_written record n v before after
  end.

Lemma put_outcome_same {A : Type} record n (before after : bytes -> option CredentialRecord) (e : StoreError) :
  (forall name, after name = before name) -> put_outcome record n before after (Err e : result A StoreError).
Proof. by left. Qed.

Lemma put_in_place keys record (v : Z) m location w w' r :
  let n := file_name keys (cr_credential_id record) in
  credential_typed record -> validate_decoded_credential record = Ok tt -> 0 <= v <= u64_max ->
  (forall old, record_view keys (w_tree w) (record_dir location) location n = Some old -> v = cr_created_at old) ->
  set_mode keys (w_tree w) = SManaged m -> m !! n = Some location ->
  (let* sealed := seal_credential_record keys record v n location in
   io (replace_file (record_dir location) n sealed)) w = (w', r) ->
  put_outcome record n (usable keys (w_tree w)) (usable keys (w_tree w')) r.
Proof.
  intros n Ht Hv Hrange Hord Hm Hn Hr.
  assert (Hnt : forall name l, m !! name = Some l -> temp_path (record_dir l ++ [name]) = false).
  { intros name l Hl. pose proof (managed_names _ _ _ _ _ Hm Hl) as (b & -> & _).
    rewrite temp_path_snoc. apply hex_not_temp. }
  apply seal_and_replace in Hr; [|done..]. cbv zeta in Hr.
  assert (Hdone : keeps (eq (record_dir location ++ [n])) (w_tree w) (w_tree w') /\
    record_view keys (w_tree w') (record_dir location) location n = Some (set_created_at record v) ->
    record_written record n v (usable keys (w_tree w)) (usable keys (w_tree w'))).
  { intros [Hk Hrec].
    assert (Hfix : forall p, (length p <= 1)%nat \/ p = ACTIVE_PATH -> temp_path p = false ->
      w_tree w' !! p = w_tree w !! p).
    { intros p Hp Htp. apply Hk; [|done]. intros <-. destruct Hp as [Hp|Hp].
      - rewrite length_app in Hp. destruct location; simpl in Hp; lia.
      - pose proof (file_name_shape keys (cr_credential_id record)) as Hs. fold n in Hs.
        destruct location; simpl in Hp; [|done]. injection Hp as Hp. rewrite Hp in Hs. by vm_compute in Hs. }
    destruct (managed_same keys (w_tree w) (w_tree w') m Hm) as [Hm' Hu]; [apply Hfix; auto..|].
    split; [done|]. split; [by unfold usable; rewrite Hm, Hn|].
    intros name. case_bool_decide as Hnn; [subst name; unfold usable; by rewrite Hm', Hn|].
    apply Hu. intros l Hl. apply Hk; [|by apply Hnt].
    intros Heq. apply app_inj_tail in Heq as [_ Heq]. congruence. }
  destruct r as [u|e]; [by exists v; apply Hdone|].
  destruct Hr as [Hk|Hr]; [left|right; exists v; by apply Hdone].
  apply (usable_managed keys (w_tree w) _ m Hm); try (apply Hk; [by intros []|done]).
  intros name l Hl. apply Hk; [by intros []|by apply Hnt].
Qed.

(** A read before the write, at whose failure nothing has changed. *)
Ltac read_through Hr w1 x Hx :=
  let Ht := fresh "Htree" in
  apply ro_cases in Hr as [(? & -> & Ht)|(w1 & x & Hx & Ht & Hr)];
  [left; intros; congruence| |solve [auto with fs | ro_solve]].

(** The reads from [w] to [w'] left the tree. *)
Ltac same_tree w w' :=
  let Ht := fresh "Hsame" in
  assert (Ht : w_tree w' = w_tree w) by congruence; rewrite <- Ht in *.

Lemma discard_ok {A B : Type} (a : M World A StoreError) (b : M World B StoreError) w w' r :
  (a;;* let* _ := b in ret tt) w = (w', r) -> exists r0, (a;;* b) w = (w', r0) /\ is_ok r0 = is_ok r.
Proof.
  unfold mbind_st. destruct (a w) as [w1 [x|e]]; [|intros [= <- <-]; by eexists].
  destruct (b w1) as [w2 [y|e]]; intros [= <- <-]; by eexists.
Qed.

Lemma put_managed_effect max keys record m w w' r :
  credential_typed record -> validate_decoded_credential record = Ok tt ->
  set_mode keys (w_tree w) = SManaged m ->
  put_managed max keys m record w = (w', r) ->
  put_outcome record (file_name keys (cr_credential_id record)) (usable keys (w_tree w)) (usable keys (w_tree w')) r.
Proof.
  intros Ht Hv Hm Hr. unfold put_managed in Hr. cbv zeta in Hr.
  set (n := file_name keys (cr_credential_id record)) in *.
  destruct (m !! n) as [location|] eqn:En.
  - read_through Hr w1 v Ho. apply creation_order_ok in Ho as [Hrange Hord].
    same_tree w w1. by eapply put_in_place.
  - read_through Hr w1 occ Hocc. read_through Hr w2 u2 Hu2. read_through Hr w3 current Hc.
    apply scan_orders in Hc. read_through Hr w4 u4 Hu4. read_through Hr w5 u5 Hu5.
    apply discard_ok in Hr as (r0 & Hr & Hok). same_tree w w5.
    pose proof (next_created_at_range _ Hc) as [Hrange _].
    eapply managed_commit in Hr; [|done|done|done|exact Hm|exact En|by rewrite lookup_insert_eq|].
    2: { intros name l Hne. by rewrite lookup_insert_ne. }
    destruct r as [u|e], r0 as [c|e0]; try done; [|by left].
    exists (next_created_at current). split; [done|]. unfold usable at 1. rewrite Hm. fold n. rewrite En.
    split; [done|]. intros name. rewrite Hr. fold n. case_bool_decide as Hnn; [done|].
    rewrite lookup_insert_ne by done. destruct (m !! name) eqn:El; [done|]. unfold usable. by rewrite Hm, El.
Qed.

Lemma put_legacy_effect max keys record w w' r :
  credential_typed record -> validate_decoded_credential record = Ok tt ->
  set_mode keys (w_tree w) = SLegacy ->
  put_legacy max keys record w = (w', r) ->
  put_outcome record (file_name keys (cr_credential_id record)) (usable keys (w_tree w)) (usable keys (w_tree w')) r.
Proof.
  intros Ht Hv Hm Hr. unfold put_legacy in Hr. cbv zeta in Hr.
  set (n := file_name keys (cr_credential_id record)) in *.
  assert (Hs : is_credential_file_name n = true) by apply file_name_shape.
  read_through Hr w1 v Ho. apply creation_order_ok in Ho as [Hrange Hord].
  read_through Hr w2 sealed Hse. apply open_sealed_credential in Hse as [_ Hop];
    [|by apply credential_typed_order|done|done]. same_tree w w2.
  assert (Hnt : forall name, is_credential_file_name name = true -> temp_path [CREDENTIALS_DIR; name] = false).
  { intros name Hn. change [CREDENTIALS_DIR; name] with ([CREDENTIALS_DIR] ++ [name]).
    rewrite temp_path_snoc. by apply file_name_shape_not_temp. }
  assert (Hdir : is_some (w_tree w2 !! [CREDENTIALS_DIR]) = true).
  { unfold set_mode in Hm. by repeat case_match. }
  unfold mbind_st in Hr. destruct (io (ensure_private_dir _) w2) as [w3 r3] eqn:E3.
  apply io_cases in E3 as (r3' & E3 & ->). pose proof (ensure_present _ _ _ _ E3 Hdir) as Hdir3.
  apply (frame_ensure (eq [CREDENTIALS_DIR])) in E3; [|done].
  destruct (legacy_same keys (w_tree w2) (w_tree w3) Hm) as [Hm3 Hu3];
    [apply E3; [path_neq|done]|by rewrite Hdir, Hdir3|].
  assert (Hu3' : forall name, usable keys (w_tree w3) name = usable keys (w_tree w2) name).
  { intros name. apply Hu3. intros Hn. apply E3; [done|by apply Hnt]. }
  destruct r3' as [u3|e3]; cbn [map_err] in Hr; [|injection Hr as <- <-; by left].
  apply io_cases in Hr as (r' & Hr & ->). apply replace_file_with_spec in Hr; [|apply file_name_not_temp].
  assert (Hdone : replaced ([CREDENTIALS_DIR] ++ [n]) sealed (w_tree w3) (w_tree w') ->
    record_written record n v (usable keys (w_tree w2)) (usable keys (w_tree w'))).
  { intros Hrep. destruct (legacy_same keys (w_tree w3) (w_tree w') Hm3) as [Hm' Hu'];
      [apply Hrep; [path_neq|done]|f_equal; by apply Hrep|].
    split; [done|]. split; [unfold usable; by rewrite Hm, Hs|].
    intros name. case_bool_decide as Hnn.
    - subst name. unfold usable. rewrite Hm', Hs. by eapply record_replaced.
    - rewrite <- Hu3'. apply Hu'. intros Hn. apply Hrep; [|by apply Hnt].
      intros [= Heq]. by rewrite Heq in Hnn. }
  destruct r' as [u|e]; cbn [map_err]; [by exists v; apply Hdone|].
  destruct Hr as [Hk|[_ Hr]]; [left|right; exists v; by apply Hdone].
  intros name. rewrite <- Hu3'. apply (legacy_kept keys nothing); [done|done|by intros []..|by intros ? ? []].
Qed.

Lemma put_effect max record w w' r :
  credential_typed record -> file_put max record w = (w', r) ->
  match r with
  | Ok _ => exists root v, key_view Credential (w_tree w') = Some root /\
      record_written record (file_name (derive_credential_keys root) (cr_credential_id record)) v
        (usable_now (w_tree w)) (usable_now (w_tree w'))
  | Err _ => (forall name, usable_now (w_tree w') name = usable_now (w_tree w) name) \/
      exists root v, key_view Credential (w_tree w') = Some root /\
        record_written record (file_name (derive_credential_keys root) (cr_credential_id record)) v
          (usable_now (w_tree w)) (usable_now (w_tree w'))
  end.
Proof.
  intros Ht Hr. unfold file_put in Hr. read_through Hr w1 u1 Hv.
  apply lift_ok in Hv as [_ Hv]. destruct u1. apply validate_decoded in Hv.
  change (?f w1 = _) with ((let* keys := write_keys in let* active := active_manifest keys in
    match active with Some m => put_managed max keys m record | None => put_legacy max keys record end) w1
    = (w', r)) in Hr.
  apply write_keys_cases in Hr as [(e & -> & Hu)|(root & w3 & Hk & Hr & Hu & Hu')].
  3: { intros keys. apply frame_bind; [apply ro_frame; auto with fs|]. intros [m|]; [apply frame_put_managed|].
       apply frame_put_legacy. }
  - rewrite Htree in Hu. by left.
  - cbv zeta in *. rewrite Htree in Hu. clear Htree. set (keys := derive_credential_keys root) in *.
    assert (Ho : put_outcome record (file_name keys (cr_credential_id record)) (usable keys (w_tree w3))
      (usable keys (w_tree w')) r).
    { read_through Hr w4 active Ha. apply active_manifest_ok in Ha as [_ Hmode]. same_tree w3 w4.
      destruct active as [m|]; [by eapply put_managed_effect|by eapply put_legacy_effect]. }
    assert (Hw : forall v, record_written record (file_name keys (cr_credential_id record)) v
      (usable keys (w_tree w3)) (usable keys (w_tree w')) ->
      record_written record (file_name keys (cr_credential_id record)) v (usable_now (w_tree w)) (usable_now (w_tree w'))).
    { intros v (Hrange & Hold & Hset). split; [done|]. split; [intros old; rewrite <- Hu; apply Hold|].
      intros name. by rewrite Hu', Hset, Hu. }
    destruct r as [u|e].
    + destruct Ho as [v Ho]. exists root, v. auto.
    + destruct Ho as [Ho|[v Ho]]; [left; intros name; by rewrite Hu', Ho, Hu|right; exists root, v; auto].
Qed.

(** ** Deletion *)

Definition record_removed (n : bytes) (before after : bytes -> option CredentialRecord) : Prop :=
  forall name, after name = if bool_decide (name = n) then None else before name.

Lemma removed_same n (view : bytes -> option CredentialRecord) : view n = None -> record_removed n view view.
Proof. intros Hn name. case_bool_decide; [by subst|done]. Qed.

(** After an error the record is there or gone; only the legacy layout can
    report an error after it is gone. *)
Definition delete_outcome (n : bytes) (t t' : Tree) (before after : bytes -> option CredentialRecord)
    (r : result bool StoreError) : Prop :=
  match r with
  | Ok removed => record_removed n before after /\ (removed = false -> t' = t)
  | Err _ => (forall name, after name = before name) \/ record_removed n before after
  end.

Lemma delete_managed keys m n location w w' r :
  set_mode keys (w_tree w) = SManaged m -> m !! n = Some location ->
  publish_manifest keys (delete n m) w = (w', r) ->
  match r with
  | Ok _ => record_removed n (usable keys (w_tree w)) (usable keys (w_tree w'))
  | Err _ => forall name, usable keys (w_tree w') name = usable keys (w_tree w) name
  end.
Proof.
  intros Hm Hn Hr. pose proof (managed_mode _ _ _ Hm) as [Hd Hf]. destruct r as [c|e].
  - intros name. rewrite (publish_usable keys _ w w' c Hr Hd Hf). unfold usable. rewrite Hm.
    case_bool_decide as Hnn; [subst name; by rewrite lookup_delete_eq|by rewrite lookup_delete_ne].
  - apply publish_spec in Hr. apply (usable_managed keys _ _ m Hm); try (apply Hr; [by intros []|done]).
    intros name l Hl. apply Hr; [by intros []|]. pose proof (managed_names _ _ _ _ _ Hm Hl) as (b & -> & _).
    rewrite temp_path_snoc. apply hex_not_temp.
Qed.

Lemma remove_spec p w w' r :
  remove_file_if_present p w = (w', r) ->
  match r with
  | Ok true => w_tree w' = delete p (w_tree w)
  | Ok false => w_tree w' = w_tree w /\ w_tree w !! p = None
  | Err _ => w_tree w' = w_tree w
  end.
Proof.
  unfold remove_file_if_present, catch, mbind_st. destruct (sys_remove_file p w) as [w1 r1] eqn:E1.
  apply sys_write_spec in E1. destruct r1 as [u|[k|]]; [| |done].
  - intros [= <- <-]. destruct (w_tree w !! p) as [[]|]; simplify_eq/=. done.
  - destruct E1 as [Ht Hk]. case_bool_decide; intros [= <- <-]; [|done]. subst k. split; [done|].
    destruct Hk as [Hk|[f Hk]]; [|by destruct f]. by destruct (w_tree w !! p) as [[]|].
Qed.

Lemma delete_legacy keys n w w' r :
  set_mode keys (w_tree w) = SLegacy -> is_credential_file_name n = true ->
  (let* removed := io (remove_file_if_present [CREDENTIALS_DIR; n]) in
   (if removed : bool then io (sync_dir [CREDENTIALS_DIR]) else ret tt);;*
   ret removed) w = (w', r) ->
  delete_outcome n (w_tree w) (w_tree w') (usable keys (w_tree w)) (usable keys (w_tree w')) r.
Proof.
  intros Hm Hn Hr. unfold mbind_st at 1 in Hr.
  destruct (io (remove_file_if_present _) w) as [w1 r1] eqn:E1. apply io_cases in E1 as (r1' & E1 & ->).
  apply remove_spec in E1. destruct r1' as [[]|e]; cbn [map_err] in Hr.
  - assert (Hk : keeps (eq [CREDENTIALS_DIR; n]) (w_tree w1) (w_tree w') /\
      w_tree w' !! [CREDENTIALS_DIR; n] = None /\ forall b, r = Ok b -> b = true).
    { unfold mbind_st in Hr. destruct (io (sync_dir _) w1) as [w2 r2] eqn:E2.
      assert (Hk2 : keeps nothing (w_tree w1) (w_tree w2)) by (eapply frame_io; [apply frame_sync|exact E2]).
      assert (w' = w2) as -> by (destruct r2; by injection Hr as <- _).
      split; [by apply keeps_any|]. split; [|intros b ->; destruct r2; [by injection Hr as <-|done]].
      rewrite Hk2, E1; [apply lookup_delete_eq|by intros []|].
      change [CREDENTIALS_DIR; n] with ([CREDENTIALS_DIR] ++ [n]). rewrite temp_path_snoc.
      by apply file_name_shape_not_temp. }
    destruct Hk as (Hk & Hgone & Htrue). rewrite E1 in Hk.
    assert (Hrem : record_removed n (usable keys (w_tree w)) (usable keys (w_tree w'))).
    { assert (Hone : forall p, p <> [CREDENTIALS_DIR; n] -> temp_path p = false -> w_tree w' !! p = w_tree w !! p).
      { intros p Hp Ht. rewrite Hk by (done || congruence). by rewrite lookup_delete_ne by congruence. }
      destruct (legacy_same keys (w_tree w) (w_tree w') Hm) as [Hm' Hu]; [by apply Hone|f_equal; by apply Hone|].
      intros name. case_bool_decide as Hnn.
      - subst name. unfold usable, record_view. rewrite Hm', Hn. simpl. by rewrite Hgone.
      - apply Hu. intros Hs. apply Hone; [congruence|].
        change [CREDENTIALS_DIR; name] with ([CREDENTIALS_DIR] ++ [name]). rewrite temp_path_snoc.
        by apply file_name_shape_not_temp. }
    destruct r as [b|e]; [|by right]. split; [done|]. by rewrite (Htrue b eq_refl).
  - destruct E1 as [Ht Hnone]. injection Hr as <- <-. rewrite Ht. split; [|done].
    apply removed_same. unfold usable, record_view. rewrite Hm, Hn. simpl. by rewrite Hnone.
  - injection Hr as <- <-. left. by rewrite E1.
Qed.

Lemma deletion_effect id w w' r :
  file_delete id w = (w', r) ->
  match key_view Credential (w_tree w) with
  | Some root =>
      delete_outcome (file_name (derive_credential_keys root) id) (w_tree w) (w_tree w')
        (usable_now (w_tree w)) (usable_now (w_tree w')) r
  | None => w_tree w' = w_tree w /\ (forall removed, r = Ok removed -> removed = false)
  end.
Proof.
  intros Hr. pose proof (step_delete id w w' r Hr) as [Hkey _].
  destruct (key_view Credential (w_tree w)) as [root|] eqn:Hk.
  - set (keys := derive_credential_keys root) in *. set (n := file_name keys id) in *.
    assert (Hk' : key_view Credential (w_tree w') = Some root).
    { rewrite <- Hk. unfold key_view. destruct Hkey as [->|[Hn _]]; [done|]. unfold key_view in Hk. by rewrite Hn in Hk. }
    assert (Ho : delete_outcome n (w_tree w) (w_tree w') (usable keys (w_tree w)) (usable keys (w_tree w')) r).
    { unfold file_delete in Hr. read_through Hr w1 ks Hks. apply credential_keys_ok in Hks as [_ ->].
      rewrite Hk in Hr. cbn [fmap option_fmap option_map] in Hr. fold keys in Hr. fold n in Hr.
      read_through Hr w2 active Ha. apply active_manifest_ok in Ha as [_ Hmode].
      rewrite Htree in Hmode. same_tree w w2. destruct active as [m|].
      - destruct (m !! n) as [location|] eqn:En.
        + unfold mbind_st in Hr. destruct (publish_manifest keys (delete n m) w2) as [w3 r3] eqn:E3.
          eapply delete_managed in E3; [|done|done].
          destruct r3; injection Hr as <- <-; [by split|by left].
        + injection Hr as <- <-. split; [|done]. apply removed_same. unfold usable. by rewrite Hmode, En.
      - by eapply delete_legacy; [|apply file_name_shape|]. }
    pose proof (usable_now_eq _ _ Hk) as Hu. pose proof (usable_now_eq _ _ Hk') as Hu'. fold keys in Hu, Hu'.
    destruct r as [removed|e]; cbn [delete_outcome] in *.
    + destruct Ho as [Hrem Htr]. split; [|done]. intros name. by rewrite Hu', Hu, Hrem.
    + destruct Ho as [Ho|Ho]; [left|right]; intros name; by rewrite Hu', Hu, Ho.
  - unfold file_delete in Hr. apply ro_cases in Hr as [(? & -> & Ht)|(w1 & ks & Hks & Ht & Hr)]; [done| |auto with fs].
    apply credential_keys_ok in Hks as [_ ->]. rewrite Hk in Hr. injection Hr as <- <-.
    split; [done|]. by intros removed [= <-].
Qed.

(** ** Lookup *)

Lemma get_effect id w w' o :
  file_get id w = (w', Ok o) ->
  w_tree w' = w_tree w /\
  o = match key_view Credential (w_tree w) with
      | Some root => usable_now (w_tree w) (file_name (derive_credential_keys root) id)
      | None => None
      end.
Proof.
  intros Hr. split; [by eapply ro_file_get|]. unfold file_get in Hr. peel Hr w1 ks Hks.
  apply credential_keys_ok in Hks as [Ht1 ->]. destruct (key_view Credential (w_tree w)) as [root|] eqn:Hk;
    [|by injection Hr as _ <-].
  rewrite (usable_now_eq _ _ Hk). set (keys := derive_credential_keys root) in *.
  cbn [fmap option_fmap option_map] in Hr. fold keys in Hr. peel Hr w2 active Ha. apply active_manifest_ok in Ha as [Ht2 Hmode].
  rewrite Ht1 in Ht2, Hmode. unfold usable. rewrite Hmode.
  destruct active as [m|]; [destruct (m !! file_name keys id) as [l|] eqn:En|];
    cbn [fmap option_fmap option_map] in Hr; [|by injection Hr as _ <-|rewrite file_name_shape];
    peel Hr w3 found Hf; apply read_credential_ok in Hf as (_ & Hv & _); rewrite Ht2 in Hv; rewrite <- Hv;
    (destruct found as [x|]; [|by injection Hr as _ <-]);
    (destruct (bytes_eqb _ _); [by injection Hr as _ <-|done]).
Qed.

(** ** When no call fails *)

Definition quiet (w : World) : Prop := w_faults w = [] /\ is_dir (w_tree w !! []) = true.

Lemma quiet_read {A : Type} (act : Tree -> result A ErrorKind) w :
  quiet w -> sys_read act w = (w, map_err FIo (act (w_tree w))).
Proof. destruct w as [t f q]. intros [Hf _]. simpl in Hf. by rewrite Hf. Qed.

Lemma quiet_file p limit mo c w :
  quiet w -> w_tree w !! p = Some (File mo c) -> read_file p limit w = (w, Ok (Some (read_limited limit c))).
Proof.
  intros Hq Hf. unfold read_file, sys_open, sys_touch, sys_read_to_end, mbind_st.
  rewrite quiet_read, Hf by done. cbn [map_err]. rewrite quiet_read by done. cbn [map_err].
  by rewrite quiet_read, Hf by done.
Qed.

Lemma quiet_exists (x : bytes) w :
  quiet w -> exists_path [x] w = (w, Ok (is_some (w_tree w !! [x]))).
Proof.
  intros Hq. unfold exists_path, io, catch, sys_metadata, mbind_st. rewrite quiet_read by done.
  destruct (w_tree w !! [x]) as [n|] eqn:E; [done|]. unfold missing. simpl.
  by destruct Hq as [_ Hd]; destruct (w_tree w !! []) as [[]|].
Qed.

Lemma quiet_keys root w :
  quiet w -> key_view Credential (w_tree w) = Some root ->
  credential_keys w = (w, Ok (Some (derive_credential_keys root))).
Proof.
  intros Hq Hk. unfold key_view in Hk. destruct (w_tree w !! key_path Credential) as [[mo c|mo]|] eqn:Ef; [|done|done].
  unfold credential_keys, root_key_for_read, load, io, mbind_st.
  rewrite (quiet_file _ _ mo c) by done. cbn [map_err].
  destruct (key_contents Credential _) as [k|] eqn:Ek; [|done]. injection Hk as ->.
  assert (Hl : (length (read_limited (Z.of_nat KEY_LEN) c) =? KEY_LEN)%nat = true).
  { unfold key_contents in Ek. by destruct (_ =? _)%nat. }
  by rewrite Hl.
Qed.

Lemma quiet_object {A} key ty p (decode : bytes -> result A Corruption) x w :
  quiet w -> object_view key ty p decode (w_tree w) = Some x ->
  object_or_damage p (read_object key ty p decode) w = (w, Ok x).
Proof.
  intros Hq Hv. unfold object_view in Hv. destruct (w_tree w !! p) as [[mo c|mo]|] eqn:Ef; [|done|done].
  unfold object_or_damage, read_object, io, mbind_st. rewrite (quiet_file _ _ mo c) by done. simpl. unfold lift.
  destruct (open _ _ _ _) as [plain|]; [|done]. simpl. destruct (decode plain) as [y|]; [|done].
  by injection Hv as ->.
Qed.

Lemma quiet_manifest keys w :
  quiet w ->
  match set_mode keys (w_tree w) with
  | SManaged m => active_manifest keys w = (w, Ok (Some m))
  | SLegacy => active_manifest keys w = (w, Ok None)
  | SUnavailable => True
  end.
Proof.
  intros Hq. unfold set_mode, active_manifest, membership, mbind_st. rewrite quiet_exists by done.
  destruct (is_some (w_tree w !! [MANAGED_DIR])); simpl.
  - destruct (object_view _ _ [FORMAT_FILE] _ _) as [u|] eqn:E1; [|done].
    destruct (object_view _ _ ACTIVE_PATH _ _) as [m|] eqn:E2; [|done].
    unfold format_marker, manifest. rewrite (quiet_object _ _ _ _ u) by done. by rewrite (quiet_object _ _ _ _ m).
  - rewrite quiet_exists by done. by destruct (is_some (w_tree w !! [CREDENTIALS_DIR])).
Qed.

Lemma quiet_credential keys name dir location record w :
  quiet w -> record_view keys (w_tree w) dir location name = Some record ->
  read_credential_in keys name dir location w = (w, Ok (Some record)).
Proof.
  intros Hq Hv. unfold record_view in Hv. destruct (w_tree w !! _) as [[mo c|mo]|] eqn:Ef; [|done|done].
  unfold read_credential_in, io, mbind_st. rewrite (quiet_file _ _ mo c) by done. simpl. unfold lift.
  destruct (open_credential _ _ _ _); [|done]. by injection Hv as ->.
Qed.

Lemma get_found root record w :
  quiet w -> key_view Credential (w_tree w) = Some root ->
  usable_now (w_tree w) (file_name (derive_credential_keys root) (cr_credential_id record)) = Some record ->
  file_get (cr_credential_id record) w = (w, Ok (Some record)).
Proof.
  intros Hq Hk Hu. rewrite (usable_now_eq _ _ Hk) in Hu. unfold file_get, mbind_st.
  rewrite (quiet_keys root) by done. set (keys := derive_credential_keys root) in *.
  pose proof (quiet_manifest keys w Hq) as Hm. unfold usable in Hu.
  assert (Hid : bytes_eqb (cr_credential_id record) (cr_credential_id record) = true) by by apply bytes_eqb_spec.
  destruct (set_mode keys (w_tree w)) as [m| |]; [| |done]; rewrite Hm.
  - destruct (m !! _) as [l|]; [|done]. simpl. by rewrite (quiet_credential _ _ _ _ record), Hid.
  - destruct (is_credential_file_name _); [|done]. by rewrite (quiet_credential _ _ _ _ record), Hid.
Qed.

End Effects.
