(* ===== verification/FileClear.v ===== *)
(** * Reset of the file store ([store/file.rs], [FileStore::clear])

    The credential key is replaced first: before that nothing else changes,
    and after it nothing sealed under the old key is read as a record.  A
    reset that reports success leaves no credential, the default PIN state and
    neither counter nor large-blob array; the device's key and attestation
    are never touched. *)

From stdpp Require Import gmap strings.
From S2P Require Import Prelude Constants Alg Crypto Records Envelope Store Cbor Codec CodecProofs FileSystem Manifest StoreKeys FileStore FsProofs FileStoreProofs FileStoreLaws CredentialSet CredentialTransactions CredentialEffects.

(** ** Emptying a directory *)

Section Emptying.

Implicit Types (w : World) (t : Tree) (dir p : Path).

(** Files disappear, and none appears. *)
Definition only_removes (t t' : Tree) : Prop := forall p, is_file (t !! p) = false -> is_file (t' !! p) = false.

Lemma only_removes_refl t : only_removes t t.
Proof. by intros p. Qed.

#[local] Hint Resolve only_removes_refl : core.

Lemma remove_files p w w' r :
  remove_file_if_present p w = (w', r) ->
  only_removes (w_tree w) (w_tree w') /\ (forall b, r = Ok b -> is_file (w_tree w' !! p) = false).
Proof.
  intros Hr. apply remove_spec in Hr. destruct r as [[]|e].
  - rewrite Hr. split.
    + intros q Hq. destruct (decide (q = p)) as [->|Hne]; [by rewrite lookup_delete_eq|by rewrite lookup_delete_ne].
    + intros _ _. by rewrite lookup_delete_eq.
  - destruct Hr as [-> Hn]. split; [done|]. intros _ _. by rewrite Hn.
  - rewrite Hr. by split.
Qed.

Lemma remove_entries_spec dir names w w' r :
  remove_entries dir names w = (w', r) ->
  only_removes (w_tree w) (w_tree w') /\
  (r = Ok tt -> forall name, name ∈ names -> is_file (w_tree w' !! (dir ++ [name])) = false).
Proof.
  revert w. induction names as [|name names IH]; intros w; cbn [remove_entries].
  - intros [= <- <-]. split; [done|]. intros _ n Hn. by apply not_elem_of_nil in Hn.
  - intros Hr. apply ro_cases in Hr as [(? & -> & ->)|(w1 & u1 & _ & Ht1 & Hr)]; [done| |apply ro_sys_read].
    apply ro_cases in Hr as [(? & -> & Ht2)|(w2 & u2 & _ & Ht2 & Hr)]; [by rewrite Ht2, Ht1| |apply ro_sys_read].
    rewrite <- Ht1, <- Ht2. unfold mbind_st at 1 in Hr.
    destruct (is_dir (w_tree w2 !! (dir ++ [name]))) eqn:Ed.
    + apply IH in Hr as [Hor Hall]. split; [done|]. intros Hok n Hn.
      apply elem_of_cons in Hn as [->|Hn]; [|by apply Hall]. apply Hor.
      by destruct (w_tree w2 !! _) as [[]|].
    + unfold mbind_st in Hr. destruct (remove_file_if_present (dir ++ [name]) w2) as [w3 [b|e]] eqn:E3;
        apply remove_files in E3 as [Hor3 Hf3]; [|by injection Hr as <- <-].
      apply IH in Hr as [Hor Hall]. split; [by intros p Hp; apply Hor, Hor3|]. intros Hok n Hn.
      apply elem_of_cons in Hn as [->|Hn]; [|by apply Hall]. apply Hor. by eapply Hf3.
Qed.

(** Nothing but temporary files lies below what is no directory. *)
Definition rooted (dir : Path) (t : Tree) : Prop :=
  forall name, temp_path (dir ++ [name]) = false -> is_Some (t !! (dir ++ [name])) -> is_dir (t !! dir) = true.

Lemma remove_all_spec dir w w' :
  remove_all_files dir w = (w', Ok tt) -> rooted dir (w_tree w) ->
  forall name, temp_path (dir ++ [name]) = false -> is_file (w_tree w' !! (dir ++ [name])) = false.
Proof.
  unfold remove_all_files. destruct (sys_read_dir dir w) as [w1 r1] eqn:E1.
  apply sys_read_spec in E1 as [Ht1 Hs]. intros Hr Hroot name Htp.
  assert (Habs : name ∉ children dir (w_tree w) -> is_file (w_tree w !! (dir ++ [name])) = false).
  { rewrite children_spec. intros Hn. destruct (w_tree w !! (dir ++ [name])) eqn:En; [|done]. destruct Hn. eauto. }
  destruct r1 as [names|[k|]]; [| |done].
  - unfold mbind_st in Hr. destruct (remove_entries dir names w1) as [w2 [u|e]] eqn:E2; [|done].
    destruct u. apply remove_entries_spec in E2 as [Hor Hall]. apply (frame_sync nothing) in Hr.
    rewrite Hr by (done || by intros []). destruct Hs as [Hs|[k [=]]].
    destruct (w_tree w !! dir) as [[]|]; simplify_eq/=.
    destruct (decide (name ∈ children dir (w_tree w))) as [Hn|Hn]; [by apply Hall|].
    apply Hor. rewrite Ht1. auto.
  - destruct k; simplify_eq/=. rewrite Ht1. destruct Hs as [Hs|[k Hk]]; [|by destruct k].
    apply Habs. rewrite children_spec. intros Hn. apply (Hroot name Htp) in Hn.
    by destruct (w_tree w !! dir) as [[]|].
Qed.

Lemma frame_remove_all (P : Path -> Prop) dir : (forall name, P (dir ++ [name])) -> Frame P (remove_all_files dir).
Proof.
  intros Hp w w' r. unfold remove_all_files. destruct (sys_read_dir dir w) as [w1 r1] eqn:E1.
  apply (frame_sys_read P) in E1.
  assert (Hrest : forall names, Frame P (remove_entries dir names;;* sync_dir dir)).
  { intros names. apply frame_bind; [|intros; apply frame_sync].
    induction names as [|name names IH]; cbn [remove_entries]; [apply frame_ret|].
    apply frame_bind; [apply frame_touch|intros _]. apply frame_bind; [apply frame_touch|intros _].
    apply frame_bind; [|intros _; exact IH]. intros v v' y. destruct (is_dir _); [by intros [= <- _]|].
    apply frame_bind; [apply frame_remove; left; apply Hp|intros; apply frame_ret]. }
  destruct r1 as [names|[k|]]; [intros Hr; eapply keeps_trans; [done|by eapply Hrest]| |by intros [= <- _]].
  destruct k; by intros [= <- _].
Qed.

Lemma frame_remove_dir (P : Path -> Prop) dir : P dir -> Frame P (remove_dir dir).
Proof.
  intros Hd. apply frame_sys_write. intros t t'. destruct (t !! dir) as [[]|]; [done| |done].
  destruct (_ =? 0)%nat; [|done]. intros [= <-]. apply keeps_delete. by left.
Qed.

Lemma frame_remove_temps P dir : Frame P (remove_temp_files dir).
Proof.
  intros w w' r. unfold remove_temp_files. destruct (sys_read_dir dir w) as [w1 r1] eqn:E1.
  apply (frame_sys_read P) in E1. destruct r1 as [names|e]; [|by intros [= <- _]].
  intros Hr. eapply keeps_trans; [exact E1|]. revert w1 E1 Hr.
  assert (Hall : Frame P (remove_temps dir names)); [|intros w1 _ Hr; by eapply Hall].
  induction names as [|name names IH]; cbn [remove_temps]; [apply frame_ret|].
  apply frame_bind; [|intros _; exact IH]. intros v v' y. destruct (sys_touch v) as [v1 [u|e]] eqn:E2;
    apply (frame_touch P) in E2; [|by intros [= <- _]].
  destruct (is_temp_name name) eqn:Et; [|by intros [= <- _]]. intros Hi. eapply keeps_trans; [exact E2|].
  eapply frame_ignore; [|exact Hi]. apply frame_remove. right. by rewrite temp_path_snoc.
Qed.

End Emptying.

(** ** The new key *)

Section Clear.

Context `{Crypto} `{Ciborium} `{RecordReader} `{!AeadLaws} `{!RecordReaderLaws}.

Implicit Types (w : World) (t : Tree) (keys : CredentialKeys).

Lemma frame_overwrite P len : Frame P (overwrite_with_zeros len).
Proof.
  apply frame_bind; [apply frame_touch|intros _]. induction (_ / _)%nat as [|n IH]; cbn [overwrite_chunks];
    [apply frame_touch|]. apply frame_bind; [apply frame_touch|intros _; exact IH].
Qed.

Lemma ro_open_previous p : ReadOnly (open_previous p).
Proof.
  intros w w' r. unfold open_previous. destruct (sys_read _ w) as [w1 r1] eqn:E1.
  apply sys_read_spec in E1 as [Ht _]. by destruct r1; intros [= <- _].
Qed.

(** Operations that take nothing from the generator. *)
Definition drawless {A E} (m : M World A E) : Prop := forall w, w_os_random (fst (m w)) = w_os_random w.

Lemma drawless_bind {A B E} (m : M World A E) (k : A -> M World B E) :
  drawless m -> (forall x, drawless (k x)) -> drawless (mbind_st m k).
Proof.
  intros Hm Hk w. unfold mbind_st. specialize (Hm w). destruct (m w) as [w1 [x|e]]; simpl in *; [by rewrite Hk|done].
Qed.

Lemma drawless_sys {A} torn act : drawless (@sys A torn act).
Proof. intros w. unfold sys. destruct (w_faults w) as [|[] ?]; by try destruct (act (w_tree w)). Qed.

Lemma drawless_io {A} (m : M World A FsError) : drawless m -> drawless (io m).
Proof. intros Hm w. specialize (Hm w). unfold io. by destruct (m w). Qed.

Lemma drawless_sync_parent dir : drawless (sync_parent dir).
Proof.
  assert (Hs : forall q, drawless (sync_dir_strict q)).
  { intros q. apply drawless_bind; [apply drawless_sys|intros; apply drawless_sys]. }
  destruct dir; [apply drawless_bind; [apply drawless_sys|intros; apply drawless_sys]|].
  intros w. unfold sync_parent, sync_dir. specialize (Hs (parent (l :: dir)) w).
  destruct (sync_dir_strict _ w) as [w1 [|e]]; [done|]. by destruct (flush_unsupported e).
Qed.

Lemma drawless_ensure dir : drawless (ensure_private_dir dir).
Proof.
  intros w. unfold ensure_private_dir. pose proof (drawless_sys (fun _ t => t) (fun t =>
    match make_entry dir (Directory DIR_MODE) t with Ok t' => (t', Ok tt) | Err e => (t, Err e) end) w) as Hm.
  fold (sys_write (make_entry dir (Directory DIR_MODE))) in Hm. fold (sys_mkdir dir DIR_MODE) in Hm.
  destruct (sys_mkdir dir DIR_MODE w) as [w1 [u|[[]|]]]; cbn [fst] in *; try done.
  - by rewrite drawless_sync_parent.
  - rewrite <- Hm. revert w1 Hm. intros w1 _. revert w1. apply drawless_bind; [apply drawless_sys|].
    intros [|mode]; [by intros v|]. destruct (negb _); [by intros v|]. destruct (negb _); [apply drawless_sys|by intros v].
Qed.

Lemma drawless_open_previous p : drawless (open_previous p).
Proof.
  intros w. unfold open_previous, sys_read. match goal with |- context [sys ?t ?f w] =>
    pose proof (drawless_sys t f w) as Hs; destruct (sys t f w) as [w1 [n|e]] end; done.
Qed.

Lemma drawless_exists p : drawless (exists_path p).
Proof.
  apply drawless_io. intros w. unfold catch. assert (Hm : drawless (let* _ := sys_metadata p in @ret _ _ FsError true))
    by (apply drawless_bind; [apply drawless_sys|by intros x v]).
  specialize (Hm w). destruct ((let* _ := sys_metadata p in ret true) w) as [w1 [b|[k|]]]; try done.
  by case_bool_decide.
Qed.

(** The key the generator's next output is. *)
Definition next_key (w : World) (key : bytes) : Prop :=
  exists d rest, w_os_random w = Some d :: rest /\ key = fill_bytes (draw d) KEY_LEN.

Lemma rotate_spec d w w' r :
  rotate d w = (w', r) ->
  match r with
  | Ok key => next_key w key /\ keeps (key_paths d) (w_tree w) (w_tree w') /\ key_view d (w_tree w') = Some key
  | Err _ => keeps (eq [KEYS_DIR]) (w_tree w) (w_tree w') \/
             (keeps (key_paths d) (w_tree w) (w_tree w') /\ exists key, next_key w key /\ key_view d (w_tree w') = Some key)
  end.
Proof.
  intros Hr. unfold rotate in Hr. unfold mbind_st at 1 in Hr.
  pose proof (drawless_io _ (drawless_ensure [KEYS_DIR]) w) as Hr1.
  destruct (io (ensure_private_dir _) w) as [w1 [u|e]] eqn:E1;
    apply (frame_io (eq [KEYS_DIR])) in E1; try (by apply frame_ensure); [|injection Hr as <- <-; by left].
  apply ro_cases in Hr as [(? & -> & Ht2)|(w2 & prev & Hpr & Ht2 & Hr)];
    [left; by rewrite Ht2| |apply ro_open_previous]. rewrite <- Ht2 in E1.
  pose proof (drawless_open_previous (key_path d) w1) as Hr2. rewrite Hpr in Hr2. cbn [fst] in Hr1, Hr2.
  unfold mbind_st at 1 in Hr. destruct (generate w2) as [w3 [key|e]] eqn:E3.
  2: { injection Hr as <- <-. left. apply io_cases in E3 as (r' & E3 & _). apply ro_random in E3. by rewrite E3. }
  assert (Hnext : next_key w key).
  { revert E3. unfold generate, io, sys_random, next_key. rewrite Hr2, Hr1.
    destruct (w_os_random w) as [|[dr|] rest]; try done. intros [= _ <-]. eauto. }
  apply generate_ok in E3 as (Ht3 & Hl & Hz). rewrite <- Ht3 in E1.
  unfold mbind_st at 1 in Hr. destruct (io (replace_file _ _ key) w3) as [w4 r4] eqn:E4.
  apply io_cases in E4 as (r4' & E4 & ->). apply replace_file_with_spec in E4; [|by destruct d].
  assert (Hkeys : forall t, keeps (eq ([KEYS_DIR] ++ [key_file_name d])) (w_tree w3) t ->
    keeps (key_paths d) (w_tree w) t).
  { intros t Hk. eapply keeps_trans; [eapply keeps_mono; [|exact E1]|eapply keeps_mono; [|exact Hk]].
    - intros p <-. by left.
    - intros p <-. by right. }
  destruct r4' as [u4|e4]; cbn [map_err] in Hr.
  - destruct E4 as [Hk4 Hf4].
    assert (Hrest : Frame nothing ((match prev with
        | Some len => ignore (overwrite_with_zeros len) | None => ret tt end : M World unit StoreError);;*
      io (remove_temp_files [KEYS_DIR]);;* ret key)).
    { apply frame_bind; [destruct prev; [apply frame_ignore, frame_overwrite|apply frame_ret]|intros _].
      apply frame_bind; [apply frame_io, frame_remove_temps|intros _; apply frame_ret]. }
    pose proof (Hrest _ _ _ Hr) as Hk5.
    assert (Hv : key_view d (w_tree w') = Some key).
    { rewrite (key_view_keeps nothing d (w_tree w4)); [|done|by intros []]. by eapply key_view_file. }
    assert (Hall : keeps (key_paths d) (w_tree w) (w_tree w'))
      by (apply Hkeys; eapply keeps_trans; [exact Hk4|by apply keeps_any]).
    destruct r as [k|e]; [|right; split; [done|by exists key]].
    apply mbind_ok in Hr as (w5 & u5 & _ & Hr). apply mbind_ok in Hr as (w6 & u6 & _ & Hr). injection Hr as _ <-. by split_and!.
  - injection Hr as <- <-. destruct E4 as [Hk|[_ [Hk Hf]]].
    + left. eapply keeps_trans; [exact E1|by apply keeps_any].
    + right. split; [by apply Hkeys|]. exists key. split; [done|]. by eapply key_view_file.
Qed.

(** ** What is cleared *)

Definition cleared (p : Path) : Prop := in_set p \/ p ∈ objects.

Lemma cleared_spares_key d : ~ cleared (key_path d).
Proof.
  unfold cleared, objects. rewrite !elem_of_cons. intros [Hs|[?|[?|[?|Hn]]]]; try (by destruct d).
  - destruct d; destruct Hs as [?|[?|?]]; path_neq.
  - by apply not_elem_of_nil in Hn.
Qed.

Lemma cleared_spares_attestation : ~ cleared [ATTESTATION_FILE].
Proof.
  unfold cleared, objects. rewrite !elem_of_cons. intros [Hs|[?|[?|[?|Hn]]]]; try path_neq.
  - destruct Hs as [?|[?|?]]; path_neq.
  - by apply not_elem_of_nil in Hn.
Qed.

(** A step outside the set leaves it. *)
Lemma usable_outside keys (P : Path -> Prop) t t' name :
  keeps P t t' -> (forall p, in_set p -> ~ P p) -> usable keys t' name = usable keys t name.
Proof.
  intros Hk Hp.
  assert (Hin : forall p, in_set p -> temp_path p = false -> t' !! p = t !! p) by (intros p Hs Ht; apply Hk; auto).
  assert (Hmode : set_mode keys t' = set_mode keys t).
  { unfold set_mode. rewrite (Hin [MANAGED_DIR]), (Hin [CREDENTIALS_DIR]) by (simpl; auto).
    by rewrite (object_view_same _ _ [FORMAT_FILE] _ t), (object_view_same _ _ ACTIVE_PATH _ t) by (apply Hin; simpl; auto). }
  unfold usable. rewrite Hmode. destruct (set_mode keys t) as [m| |] eqn:Em; [| |done].
  - destruct (m !! name) as [l|] eqn:El; [|done]. apply record_view_same, Hin; [apply record_dir_in_set|].
    pose proof (managed_names _ _ _ _ _ Em El) as (b & -> & _). rewrite temp_path_snoc. apply hex_not_temp.
  - destruct (is_credential_file_name name) eqn:Es; [|done]. apply record_view_same, Hin; [simpl; auto|].
    rewrite temp_path_snoc. by apply file_name_shape_not_temp.
Qed.

Lemma ensure_made dir w w' : ensure_private_dir dir w = (w', Ok tt) -> is_some (w_tree w' !! dir) = true.
Proof.
  intros Hr. destruct (is_some (w_tree w !! dir)) eqn:Es; [by eapply ensure_present|].
  unfold ensure_private_dir in Hr. destruct (sys_mkdir dir DIR_MODE w) as [w1 r1] eqn:E1. apply sys_write_spec in E1.
  destruct r1 as [u|[k|]]; [| |done].
  - apply make_entry_ok in E1 as [_ Ht].
    assert (Hp : ReadOnly (sync_parent dir)).
    { unfold sync_parent. destruct dir; [ro_solve|]. intros v v' y. unfold sync_dir.
      destruct (sync_dir_strict _ v) as [v1 r1] eqn:Ev. assert (w_tree v1 = w_tree v) as Hv.
      { revert Ev. unfold sync_dir_strict. intros Ev. by eapply (ro_bind _ _ (ro_sys_read _) (fun _ => ro_sys_read _)). }
      destruct r1 as [|e]; [by intros [= <- _]|]. by destruct (flush_unsupported e); intros [= <- _]. }
    apply Hp in Hr. by rewrite Hr, Ht, lookup_insert_eq.
  - destruct E1 as [Ht1 Hk]. destruct k; try done. destruct Hk as [Hk|[f Hk]]; [|by destruct f].
    unfold make_entry in Hk. destruct (w_tree w !! dir); [done|].
    destruct (is_dir _); [done|]. unfold missing in Hk. by destruct (existsb _ _).
Qed.

(** Records first. *)
Lemma clear_records_spec managed w w' :
  clear_records managed w = (w', Ok tt) -> rooted [CREDENTIALS_DIR] (w_tree w) ->
  if managed then is_some (w_tree w' !! [MANAGED_DIR]) = true
  else w_tree w' !! [MANAGED_DIR] = w_tree w !! [MANAGED_DIR] /\
    forall name, is_credential_file_name name = true -> is_file (w_tree w' !! [CREDENTIALS_DIR; name]) = false.
Proof.
  intros Hr Hroot. destruct managed; cbn [clear_records] in Hr.
  - unfold mbind_st at 1 in Hr. destruct (io (ensure_private_dir _) w) as [w1 [u|e]] eqn:E1; [|done].
    destruct u. apply io_ok, ensure_made in E1.
    assert (Hf : Frame (fun p => p <> [MANAGED_DIR]) (
      io (remove_all_files [MANAGED_DIR; RECORDS_DIR]);;* io (remove_all_files [MANAGED_DIR]);;*
      io (remove_all_files [CREDENTIALS_DIR; RECORDS_DIR]);;* io (remove_all_files [CREDENTIALS_DIR]);;*
      let* legacy := exists_path [CREDENTIALS_DIR] in
      if legacy : bool then ignore (remove_dir [CREDENTIALS_DIR]) else ret tt)).
    { repeat (apply frame_bind; [apply frame_io, frame_remove_all; done|intros _]).
      apply frame_bind; [apply ro_frame; auto with fs|]. intros [];
        [by apply frame_ignore, frame_remove_dir|apply frame_ret]. }
    apply Hf in Hr. rewrite Hr; [done|by intros []|done].
  - unfold mbind_st in Hr. destruct (io (remove_all_files _) w) as [w1 [u|e]] eqn:E1; [|done]. destruct u.
    apply io_ok in E1. pose proof (remove_all_spec _ _ _ E1 Hroot) as Hgone.
    apply (frame_io (eq [CREDENTIALS_DIR])) in Hr; [|by apply frame_ensure]. split.
    { apply (frame_remove_all (fun p => hd [] p = CREDENTIALS_DIR)) in E1; [|done].
      rewrite Hr, E1; [done|path_neq|done|path_neq|done]. }
    intros name Hs.
    assert (Htp : temp_path [CREDENTIALS_DIR; name] = false).
    { change [CREDENTIALS_DIR; name] with ([CREDENTIALS_DIR] ++ [name]). rewrite temp_path_snoc.
      by apply file_name_shape_not_temp. }
    rewrite Hr by done. by apply (Hgone name).
Qed.

Lemma frame_clear_records managed : Frame in_set (clear_records managed).
Proof.
  unfold clear_records. destruct managed.
  - apply frame_bind; [apply frame_io, frame_ensure; simpl; auto|intros _].
    repeat (apply frame_bind; [apply frame_io, frame_remove_all; simpl; auto|intros _]).
    apply frame_bind; [apply ro_frame; auto with fs|]. intros [];
      [apply frame_ignore, frame_remove_dir; simpl; auto|apply frame_ret].
  - apply frame_bind; [apply frame_io, frame_remove_all; simpl; auto|intros _].
    apply frame_io, frame_ensure. simpl; auto.
Qed.

(** The empty set under the new key. *)
Definition publish_empty (managed : bool) (keys : CredentialKeys) : M World CommitDurability StoreError :=
  if managed then
    let* sealed := seal_format keys in
    io (replace_file [] FORMAT_FILE sealed);;*
    let* commit := publish_manifest keys ∅ in
    ret (durability commit)
  else ret Flushed.

Lemma frame_publish_empty managed keys : Frame in_set (publish_empty managed keys).
Proof.
  unfold publish_empty. destruct managed; [|apply frame_ret].
  apply frame_bind; [apply ro_frame; unfold seal_format; auto with fs|intros sealed].
  apply frame_bind; [apply frame_io, frame_replace; simpl; auto|intros _].
  apply frame_bind; [apply frame_publish|intros; apply frame_ret].
Qed.

Lemma publish_empty_spec keys w w' d :
  publish_empty true keys w = (w', Ok d) -> is_some (w_tree w !! [MANAGED_DIR]) = true ->
  forall name, usable keys (w_tree w') name = None.
Proof.
  intros Hr Hd name. cbn [publish_empty] in Hr. peel Hr w1 sealed Hs. apply seal_ok in Hs as [Ht1 Ho].
  peel Hr w2 u Hu. apply io_ok, replace_file_with_spec in Hu as [Hk Hf]; [|done].
  peel Hr w3 c Hc. injection Hr as <- _. rewrite (publish_usable keys ∅ w2 w3 c Hc); [by rewrite lookup_empty| |].
  - rewrite Hk; [by rewrite Ht1|done..].
  - eapply object_view_holds; [exact Hf|]. exists FORMAT. by split.
Qed.

Lemma remove_gone p w w' b :
  remove_file_if_present p w = (w', Ok b) -> keeps (eq p) (w_tree w) (w_tree w') /\ w_tree w' !! p = None.
Proof.
  intros Hr. split; [by eapply frame_remove; [left|]|]. apply remove_spec in Hr.
  destruct b; [rewrite Hr; apply lookup_delete_eq|destruct Hr as [-> ?]; done].
Qed.

(** The objects' paths, one by one. *)
Lemma pin_apart : [PIN_STATE_FILE] <> [SIGNATURE_COUNTER_FILE] /\ [PIN_STATE_FILE] <> [LARGE_BLOBS_FILE].
Proof. split; path_neq. Qed.

Lemma blobs_apart : [LARGE_BLOBS_FILE] <> [SIGNATURE_COUNTER_FILE].
Proof. path_neq. Qed.

(** What follows the new key. *)
Definition clear_rest (managed : bool) (keys : CredentialKeys) : M World CommitDurability StoreError :=
  clear_records managed;;*
  let* counter_removed := io (remove_file_if_present [SIGNATURE_COUNTER_FILE]) in
  let* array_removed := io (remove_file_if_present [LARGE_BLOBS_FILE]) in
  (if (counter_removed : bool) || array_removed then io (sync_dir []) else ret tt);;*
  let* durable := publish_empty managed keys in
  let* defaults := write_pin_state keys PinStateRecord_default in
  ret (if bool_decide (durable = Unconfirmed) || bool_decide (defaults = Unconfirmed)
       then Unconfirmed else defaults).

Lemma frame_clear_rest managed keys : Frame cleared (clear_rest managed keys).
Proof.
  assert (Hset : forall p, in_set p -> cleared p) by by left.
  unfold clear_rest. apply frame_bind; [apply (frame_mono in_set); [done|apply frame_clear_records]|intros _].
  apply frame_bind; [apply frame_io, frame_remove; left; right; apply in_objects_counter|intros b].
  apply frame_bind; [apply frame_io, frame_remove; left; right; apply in_objects_blobs|intros b'].
  apply frame_bind; [destruct (b || b'); [apply frame_io, frame_sync|apply frame_ret]|intros _].
  apply frame_bind; [apply (frame_mono in_set); [done|apply frame_publish_empty]|intros d].
  apply frame_bind; [apply frame_write_pin; right; apply in_objects_pin|intros; apply frame_ret].
Qed.

Lemma clear_rest_ok managed root w w' d :
  clear_rest managed (derive_credential_keys root) w = (w', Ok d) ->
  key_view Credential (w_tree w) = Some root -> rooted [CREDENTIALS_DIR] (w_tree w) ->
  (managed = false -> w_tree w !! [MANAGED_DIR] = None) ->
  (forall name, usable (derive_credential_keys root) (w_tree w') name = None) /\
  w_tree w' !! [SIGNATURE_COUNTER_FILE] = None /\ w_tree w' !! [LARGE_BLOBS_FILE] = None /\
  credential_view RPinState [PIN_STATE_FILE] decode_pin_state (w_tree w') = Some PinStateRecord_default.
Proof.
  intros Hr Hk Hroot Hman. set (keys := derive_credential_keys root) in *. unfold clear_rest in Hr.
  peel Hr w1 u Hc. destruct u. pose proof (frame_clear_records _ _ _ _ Hc) as F1.
  apply clear_records_spec in Hc; [|done].
  peel Hr w2 b2 H2'. apply io_ok, remove_gone in H2' as [F2 G2].
  peel Hr w3 b3 H3'. apply io_ok, remove_gone in H3' as [F3 G3].
  peel Hr w4 u4 H4'.
  assert (F4 : keeps nothing (w_tree w3) (w_tree w4)).
  { destruct (b2 || b3); [by eapply frame_io; [apply frame_sync|]|injection H4' as <- _; apply keeps_refl]. }
  peel Hr w5 d5 H5'. pose proof (frame_publish_empty _ _ _ _ _ H5') as F5.
  peel Hr w6 d6 H6'. injection Hr as <- _.
  pose proof (frame_write_pin (eq [PIN_STATE_FILE]) _ _ eq_refl _ _ _ H6') as F6.
  assert (Hk5 : key_view Credential (w_tree w5) = Some root).
  { rewrite <- Hk. apply (key_view_keeps cleared); [|apply cleared_spares_key].
    eapply keeps_trans; [eapply keeps_mono; [|exact F1]; by left|].
    eapply keeps_trans; [eapply keeps_mono; [|exact F2]; intros p <-; right; apply in_objects_counter|].
    eapply keeps_trans; [eapply keeps_mono; [|exact F3]; intros p <-; right; apply in_objects_blobs|].
    eapply keeps_trans; [by apply keeps_any|]. eapply keeps_mono; [|exact F5]. by left. }
  assert (Hall : forall p, in_set p -> temp_path p = false -> w_tree w4 !! p = w_tree w1 !! p).
  { intros p Hp Ht. rewrite F4 by (done || by intros []). rewrite F3, F2; [done| |done| |done].
    - intros <-. by apply (objects_not_in_set [SIGNATURE_COUNTER_FILE] in_objects_counter).
    - intros <-. by apply (objects_not_in_set [LARGE_BLOBS_FILE] in_objects_blobs). }
  split; [|split; [|split]].
  - intros name. rewrite (usable_outside keys (eq [PIN_STATE_FILE]) (w_tree w5) _ name F6).
    2: { intros p Hp <-. by apply (objects_not_in_set [PIN_STATE_FILE] in_objects_pin). }
    destruct managed.
    + eapply publish_empty_spec; [exact H5'|]. rewrite Hall by (simpl; auto). done.
    + injection H5' as <- _. unfold usable, set_mode.
      destruct Hc as [Hmd Hgone]. rewrite (Hall [MANAGED_DIR]), Hmd, Hman by (simpl; auto). cbn [is_some].
      destruct (is_some (w_tree w4 !! [CREDENTIALS_DIR])); [|done].
      destruct (is_credential_file_name name) eqn:Es; [|done]. unfold record_view. cbn [app].
      rewrite Hall; [|simpl; auto|].
      * specialize (Hgone name Es). by destruct (w_tree w1 !! [CREDENTIALS_DIR; name]) as [[]|].
      * change [CREDENTIALS_DIR; name] with ([CREDENTIALS_DIR] ++ [name]). rewrite temp_path_snoc.
        by apply file_name_shape_not_temp.
  - rewrite F6, F5, F4, F3; [done|apply blobs_apart|done|by intros []|done| |done|apply pin_apart|done].
    apply (objects_not_in_set _ in_objects_counter).
  - rewrite F6, F5, F4; [done|by intros []|done| |done|apply pin_apart|done].
    apply (objects_not_in_set _ in_objects_blobs).
  - apply write_pin_spec in H6' as [H6' _]; [exact H6'| |done]. by apply pin_state_typedb_spec.
Qed.

(** The whole reset. *)
Lemma clear_effect w w' r :
  file_clear w = (w', r) -> rooted [CREDENTIALS_DIR] (w_tree w) ->
  (key_view Device (w_tree w') = key_view Device (w_tree w) /\
   w_tree w' !! [ATTESTATION_FILE] = w_tree w !! [ATTESTATION_FILE]) /\
  match r with
  | Ok _ => exists root, next_key w root /\ key_view Credential (w_tree w') = Some root /\
      (forall name, usable_now (w_tree w') name = None) /\
      w_tree w' !! [SIGNATURE_COUNTER_FILE] = None /\ w_tree w' !! [LARGE_BLOBS_FILE] = None /\
      credential_view RPinState [PIN_STATE_FILE] decode_pin_state (w_tree w') = Some PinStateRecord_default
  | Err _ => keeps (eq [KEYS_DIR]) (w_tree w) (w_tree w') \/
             exists root, next_key w root /\ key_view Credential (w_tree w') = Some root
  end.
Proof.
  intros Hr Hroot. unfold file_clear in Hr.
  assert (Hro : ReadOnly (or_else (exists_path [MANAGED_DIR]) (exists_path [FORMAT_FILE])))
    by (apply ro_or_else; auto with fs).
  apply ro_cases in Hr as [(? & -> & ->)|(w1 & managed & Hm & Ht1 & Hr)]; [by split; [|left]| |done].
  assert (Hman : managed = false -> w_tree w1 !! [MANAGED_DIR] = None).
  { intros ->. apply or_else_false in Hm as (v & Hm & _). apply exists_none in Hm as [_ Hn]. by rewrite Ht1. }
  assert (Hnext : forall key, next_key w1 key -> next_key w key).
  { assert (Hd : drawless (or_else (exists_path [MANAGED_DIR]) (exists_path [FORMAT_FILE]))).
    { apply drawless_bind; [apply drawless_exists|]. intros []; [by intros v|apply drawless_exists]. }
    specialize (Hd w). rewrite Hm in Hd. cbn [fst] in Hd. unfold next_key. by rewrite Hd. }
  rewrite <- Ht1 in *. clear Hm Hro Ht1. unfold mbind_st at 1 in Hr.
  destruct (rotate Credential w1) as [w2 r2] eqn:E2. apply rotate_spec in E2.
  assert (Hdev : forall t, keeps (key_paths Credential) (w_tree w1) t ->
    key_view Device t = key_view Device (w_tree w1) /\ t !! [ATTESTATION_FILE] = w_tree w1 !! [ATTESTATION_FILE]).
  { intros t Hk. split; [apply (key_view_keeps _ _ _ _ Hk)|apply Hk; [|done]]; path_neq. }
  destruct r2 as [root|e].
  - destruct E2 as (Hn2%Hnext & Hk2 & Hv2).
    change (?f w2 = _) with (clear_rest managed (derive_credential_keys root) w2 = (w', r)) in Hr.
    pose proof (frame_clear_rest _ _ _ _ _ Hr) as Fr.
    assert (Hv' : key_view Credential (w_tree w') = Some root)
      by (rewrite (key_view_keeps _ _ _ _ Fr); [done|apply cleared_spares_key]).
    destruct (Hdev _ Hk2) as [Hd Ha]. split.
    { split; [rewrite (key_view_keeps _ _ _ _ Fr); [done|apply cleared_spares_key]|].
      rewrite Fr; [done|apply cleared_spares_attestation|done]. }
    destruct r as [d|e]; [|right; by exists root]. exists root. split; [done|]. split; [done|].
    eapply clear_rest_ok in Hr; [|done| |].
    + destruct Hr as (Hu & Hrest). split; [|done]. intros name. by rewrite (usable_now_eq _ _ Hv').
    + intros name Htp. rewrite Hk2, (Hk2 [CREDENTIALS_DIR]); [by apply Hroot|path_neq|done| |done].
      intros [Hp|Hp]; [done|]. by injection Hp.
    + intros Hf. rewrite Hk2; [by apply Hman|path_neq|done].
  - injection Hr as <- <-. destruct E2 as [Hk|(Hk & key & Hn2%Hnext & Hv)].
    + split; [|by left]. apply Hdev. eapply keeps_mono; [|exact Hk]. intros p <-. by left.
    + split; [by apply Hdev|right; by exists key].
Qed.

End Clear.
