(* ===== verification/FileStoreTheorems.v ===== *)
(** * The file-backed store: properties and concrete runs

    What the store promises on disk, for every sequence of failing calls, and
    the engine restarted over a directory another run left. *)

From stdpp Require Import gmap strings.
From S2P Require Import Prelude Constants Alg Crypto ConcreteCrypto Records Envelope Store StoreProofs PinRetry Token Cbor ConcreteCbor Presence Engine EngineProofs Codec CodecProofs FileSystem Manifest StoreKeys FileStore FsProofs FileStoreProofs FileStoreLaws Scenario CredentialSet CredentialTransactions CredentialEffects FileClear.

Section Disk.

Context `{Crypto} `{Ciborium} `{RecordReader} `{!AeadLaws} `{!RecordReaderLaws} `{!HashLengths} `{!HmacBytes}.

Implicit Types (w : FileSystem.World) (record : CredentialRecord).

(** C14: Registration on disk is all or nothing.  Whichever system calls fail
    and wherever the process stops, a registration that reports an error
    leaves the usable credentials exactly as they were, in both layouts and
    across the migration between them.  One that reports success has added
    the record under a file name no usable credential had, with a creation
    order above every readable one (or the largest), and has retired exactly
    the account's earlier discoverable credentials. *)
Theorem registration_on_disk_atomic max record w w' r :
  credential_typed record ->
  file_insert_or_replace_discoverable max record w = (w', r) ->
  match r with
  | Ok _ => exists root v, key_view Credential (w_tree w') = Some root /\
      let n := file_name (derive_credential_keys root) (cr_credential_id record) in
      usable_now (w_tree w) n = None /\ 0 <= v <= u64_max /\
      (forall name old, usable_now (w_tree w) name = Some old -> cr_created_at old < v \/ v = u64_max) /\
      account_replaced record n v (usable_now (w_tree w)) (usable_now (w_tree w'))
  | Err _ => forall name, usable_now (w_tree w') name = usable_now (w_tree w) name
  end.
Proof. apply insert_effect. Qed.

(** C15: A registered credential is found.  After a registration that reported
    success, a lookup of its ID over the directory it left, in this process
    or a later one, succeeds and returns the record with the creation order
    it was given, as long as no call of the lookup fails. *)
Theorem registered_credential_found max record w w' commit later :
  credential_typed record ->
  file_insert_or_replace_discoverable max record w = (w', Ok commit) ->
  w_tree later = w_tree w' -> quiet later ->
  exists v, file_get (cr_credential_id record) later = (later, Ok (Some (set_created_at record v))).
Proof.
  intros Ht Hr Hsame Hq. apply insert_effect in Hr as (root & v & Hk & _ & _ & _ & Hrep); [|done].
  exists v. rewrite <- Hsame in *. apply (get_found root (set_created_at record v)); [done|done|].
  by rewrite Hrep, bool_decide_eq_true_2.
Qed.

(** An update on disk.  [put] either leaves the usable credentials as they
    were or writes exactly the record, under its ID, with the creation order
    the stored one had; after success it has written it. *)
Theorem update_on_disk max record w w' r :
  credential_typed record -> file_put max record w = (w', r) ->
  match r with
  | Ok _ => exists root v, key_view Credential (w_tree w') = Some root /\
      record_written record (file_name (derive_credential_keys root) (cr_credential_id record)) v
        (usable_now (w_tree w)) (usable_now (w_tree w'))
  | Err _ => (forall name, usable_now (w_tree w') name = usable_now (w_tree w) name) \/
      exists root v, key_view Credential (w_tree w') = Some root /\
        record_written record (file_name (derive_credential_keys root) (cr_credential_id record)) v
          (usable_now (w_tree w)) (usable_now (w_tree w'))
  end.
Proof. apply put_effect. Qed.

(** A deletion on disk.  After [delete] reports an outcome the credential
    is not usable and every other one is as it was; [false] changed nothing.
    After an error the set is the old one or the old one without that
    credential. *)
Theorem deletion_on_disk id w w' r :
  file_delete id w = (w', r) ->
  match key_view Credential (w_tree w) with
  | Some root =>
      delete_outcome (file_name (derive_credential_keys root) id) (w_tree w) (w_tree w')
        (usable_now (w_tree w)) (usable_now (w_tree w')) r
  | None => w_tree w' = w_tree w /\ (forall removed, r = Ok removed -> removed = false)
  end.
Proof. apply deletion_effect. Qed.


(** One encoding per manifest.  What a manifest is written as reads back as
    it, and bytes that read as a manifest are the ones it is written as, so
    no two different files stand for one credential set. *)
Theorem manifest_encoding_unique (m : Manifest) b :
  bytes_ok b -> zlen b <= MAX_ENVELOPE_LEN - Z.of_nat OVERHEAD ->
  encode_manifest m = Ok b <-> decode_manifest b = Ok m.
Proof. intros Hb Hl. split; [apply manifest_roundtrip|by apply manifest_canonical]. Qed.

(** C19: What decodes as a credential is one.  Any bytes a stored credential
    decodes from give a record whose every field holds a value of its type
    and which passes the validation of stored records; written again at its
    own creation order it reads back as itself. *)
Theorem stored_credential_typed b record :
  bytes_ok b -> decode_credential b = Ok record ->
  credential_typed record /\ validate_decoded_credential record = Ok tt /\
  forall b', encode_credential record (cr_created_at record) = Ok b' -> decode_credential b' = Ok record.
Proof.
  intros Hb Hd. pose proof (decoded_typed _ _ Hb Hd) as Ht.
  assert (Hv : validate_decoded_credential record = Ok tt).
  { by apply decode_credential_spec in Hd as (_ & _ & _ & _ & _ & _ & Hv). }
  split; [done|]. split; [done|]. intros b' He. assert (set_created_at record (cr_created_at record) = record) as Heq
    by by destruct record.
  rewrite <- Heq. apply credential_roundtrip; [by rewrite Heq|done|done].
Qed.

(** C18: The credential record format.  A plaintext decodes to a record if and
    only if it is one CBOR map, nothing after it, whose entries are in some
    order exactly the record's fields (the third-party payment flag may also
    be spelled out as false), and the record's fields have their types and
    pass validation.  No entry is ignored and none is read twice. *)
Theorem credential_record_format b record :
  decode_credential b = Ok record <->
  exists es tpp,
    from_reader_with_recursion_limit MAX_RECORD_NESTING b = Some (map_value es, []) /\
    es ≡ₚ taken_entries record tpp /\ cr_third_party_payment record = default false tpp /\
    credential_shape record /\ validate_decoded_credential record = Ok tt.
Proof. apply decode_credential_spec. Qed.

(** ** The engine over the directory *)

Lemma quiet_pin_state root (state : PinStateRecord) w :
  quiet w -> key_view Credential (w_tree w) = Some root ->
  credential_view RPinState [PIN_STATE_FILE] decode_pin_state (w_tree w) = Some state ->
  file_pin_state w = (w, Ok (Some state)).
Proof.
  intros Hq Hk Hv. unfold file_pin_state, mbind_st. rewrite (quiet_keys root) by done.
  unfold credential_view in Hv. rewrite Hk in Hv. pose proof (quiet_object _ _ _ _ _ _ Hq Hv) as Ho.
  unfold object_or_damage in Ho. destruct (read_object _ _ _ _ w) as [v [[x|]|]]; simplify_eq. done.
Qed.

(** C17: A restart over the directory.  Let an engine over the file store have a
    PIN state it counts as read and that is on disk.  An engine started over
    the same directory, in a process whose reads do not fail, has exactly the
    live persistent PIN state (PIN hash, remaining retries, policy,
    persistent authorities), with the consecutive-mismatch count at zero and
    no token in use: nothing but the directory carries the PIN's state. *)
Theorem restart_from_disk (a : CtapApp FileStore) w max engine_world aaguid :
  pin_inv a -> app_stored_pin_state a = Read -> is_Some (pin_view (app_store a)) ->
  w_tree w = file_tree (app_store a) -> quiet w ->
  let b := ctap_app_new {| file_world := w; file_max_credentials := max |} engine_world aaguid in
  app_stored_pin_state b = Read /\ prs_persistent (ps_pin (app_pin_state b)) = persistent a /\
  prs_consecutive_mismatches (ps_pin (app_pin_state b)) = 0 /\
  tks_in_use (ps_token (app_pin_state b)) = None.
Proof.
  intros Hi Hst [r Hr] Hsame Hq. pose proof (pi_synced _ Hi Hst) as Hy. unfold synced in Hy. rewrite Hr in Hy.
  pose proof (pi_store _ Hi r Hr) as [Hok _]. change (file_pin_view (app_store a) = Some r) in Hr.
  unfold file_pin_view in Hr. rewrite <- Hsame in Hr. pose proof Hr as Hk. unfold credential_view in Hk.
  destruct (key_view Credential (w_tree w)) as [root|] eqn:Ek; [|done].
  assert (Hrun : file_pin_state w = (w, Ok (Some r))) by by eapply quiet_pin_state.
  unfold ctap_app_new, load_pin_state, read_store_pin_state, mbind_st. cbn [app_store st_pin_state FileCredentialStore].
  unfold on_world. cbn [file_world]. rewrite Hrun.
  split; [done|]. rewrite <- Hy. split; [|done]. cbn -[power_up]. rewrite power_up_bounded; [done|]. simpl. lia.
Qed.

End Disk.

(** ** Concrete runs *)

Module DiskWitness.

Import StoreWitness.

Definition sample_draw (k : nat) : Draw.
Proof.
  refine {| draw := fun i => if (i =? 0)%nat then 1 else Z.of_nat (i * 7 + k * 13) |}.
  reflexivity.
Defined.

(** An empty state directory, no failing call. *)
Definition blank : FileSystem.World := {|
  w_tree := {[ [] := Directory DIR_MODE ]}; w_faults := [];
  w_os_random := map (fun k => Some (sample_draw k)) (seq 0 60)
|}.

Definition opened : FileSystem.World := fst (open_with_key_source blank).

Definition after_one := file_insert_or_replace_discoverable 2 (sample 10 5 0) opened.

(** The second registration of the account, in the managed layout now. *)
Definition after_two := file_insert_or_replace_discoverable 2 (sample 11 5 0) (fst after_one).

(** The stored record again, with a new user handle; a deletion; a reset. *)
Definition after_put := file_put 2 (sample 11 6 0) (fst after_two).

Definition after_delete := file_delete (cr_credential_id (sample 11 5 0)) (fst after_two).

Definition after_clear := file_clear (fst after_two).

Lemma after_put_run : file_put 2 (sample 11 6 0) (fst after_two) = after_put.
Proof. reflexivity. Qed.

Lemma after_delete_run : file_delete (cr_credential_id (sample 11 5 0)) (fst after_two) = after_delete.
Proof. reflexivity. Qed.

Lemma after_clear_run : file_clear (fst after_two) = after_clear.
Proof. reflexivity. Qed.

Lemma after_two_run : file_insert_or_replace_discoverable 2 (sample 11 5 0) (fst after_one) = after_two.
Proof. reflexivity. Qed.

#[local] Opaque opened after_one after_two after_put after_delete after_clear.

Ltac typed_record :=
  split; [repeat split; simpl; first [done|unfold u8_max, u32_limit, u64_max; lia]
         |apply entry_okb_spec; vm_compute; reflexivity].

Lemma first_typed : credential_typed (sample 10 5 0).
Proof. typed_record. Qed.

Lemma second_typed : credential_typed (sample 11 5 0).
Proof. typed_record. Qed.

Lemma pair_run {A B : Type} (x : A * B) b : snd x = b -> x = (fst x, b).
Proof. destruct x. by intros <-. Qed.

Lemma updated_typed : credential_typed (sample 11 6 0).
Proof. typed_record. Qed.

Lemma registered_both : is_ok (snd after_one) = true /\ is_ok (snd after_two) = true.
Proof. vm_compute. split; reflexivity. Qed.

Lemma registration_on_disk_atomic_witness :
  exists n m v, usable_now (w_tree (fst after_one)) m = None /\
    usable_now (w_tree (fst after_two)) m = Some (set_created_at (sample 11 5 0) v) /\
    usable_now (w_tree (fst after_one)) n = Some (sample 10 5 1) /\
    usable_now (w_tree (fst after_two)) n = None.
Proof.
  pose proof (registration_on_disk_atomic 2 (sample 11 5 0) (fst after_one) (fst after_two) (snd after_two)
    second_typed (eq_trans after_two_run (surjective_pairing _))) as Ht.
  pose proof registered_both as [_ Hok]. destruct (snd after_two) as [c|e]; [|discriminate Hok].
  destruct Ht as (root & v & _ & Hnew & _ & _ & Hrep). cbv zeta in *.
  set (n := file_name (derive_credential_keys (default [] (key_view Credential (w_tree (fst after_one)))))
              (cr_credential_id (sample 10 5 0))).
  assert (Hn : usable_now (w_tree (fst after_one)) n = Some (sample 10 5 1)) by (vm_compute; reflexivity).
  revert Hnew Hrep Hn. generalize n. clear n. generalize (file_name (derive_credential_keys root) (cr_credential_id (sample 11 5 0))).
  generalize (usable_now (w_tree (fst after_one))), (usable_now (w_tree (fst after_two))).
  intros before after m n Hnew Hrep Hn. exists n, m, v. split; [exact Hnew|]. split; [|split; [exact Hn|]].
  - rewrite (Hrep m), bool_decide_eq_true_2; reflexivity.
  - rewrite (Hrep n), Hn, bool_decide_eq_false_2; [reflexivity|]. intros Heq.
    rewrite Heq, Hnew in Hn. discriminate Hn.
Defined.

Lemma registered_credential_found_witness :
  exists v, snd (file_get (cr_credential_id (sample 11 5 0)) (fst after_two))
            = Ok (Some (set_created_at (sample 11 5 0) v)).
Proof.
  destruct (registered_credential_found 2 (sample 11 5 0) (fst after_one) (fst after_two)
    {| durability := Flushed; cleanup_pending := false |} (fst after_two) second_typed) as [v Hv].
  - rewrite after_two_run. apply pair_run. vm_compute. reflexivity.
  - reflexivity.
  - split; vm_compute; reflexivity.
  - exists v. exact (f_equal snd Hv).
Defined.

Lemma update_on_disk_witness :
  exists n v, usable_now (w_tree (fst after_put)) n = Some (set_created_at (sample 11 6 0) v).
Proof.
  pose proof (update_on_disk 2 (sample 11 6 0) (fst after_two) (fst after_put) (snd after_put) updated_typed
    (eq_trans after_put_run (surjective_pairing _))) as Ht.
  assert (Hok : is_ok (snd after_put) = true) by (vm_compute; reflexivity).
  destruct (snd after_put) as [u|e]; [|discriminate Hok]. destruct Ht as (root & v & _ & _ & _ & Hw).
  revert Hw. generalize (file_name (derive_credential_keys root) (cr_credential_id (sample 11 6 0))).
  generalize (usable_now (w_tree (fst after_two))), (usable_now (w_tree (fst after_put))).
  intros before after n Hw. exists n, v. rewrite (Hw n), bool_decide_eq_true_2; reflexivity.
Defined.

Lemma deletion_on_disk_witness :
  snd after_delete = Ok true /\
  exists n, is_some (usable_now (w_tree (fst after_two)) n) = true /\ usable_now (w_tree (fst after_delete)) n = None.
Proof.
  pose proof (deletion_on_disk (cr_credential_id (sample 11 5 0)) (fst after_two) (fst after_delete)
    (snd after_delete) (eq_trans after_delete_run (surjective_pairing _))) as Ht.
  assert (Hok : snd after_delete = Ok true) by (vm_compute; reflexivity). split; [exact Hok|]. rewrite Hok in Ht.
  assert (Hpre : match key_view Credential (w_tree (fst after_two)) with
    | Some root => is_some (usable_now (w_tree (fst after_two))
        (file_name (derive_credential_keys root) (cr_credential_id (sample 11 5 0))))
    | None => false
    end = true) by (vm_compute; reflexivity).
  destruct (key_view Credential (w_tree (fst after_two))) as [root|]; [|discriminate Hpre].
  destruct Ht as [Hrem _]. revert Hpre Hrem.
  generalize (file_name (derive_credential_keys root) (cr_credential_id (sample 11 5 0))).
  generalize (usable_now (w_tree (fst after_two))), (usable_now (w_tree (fst after_delete))).
  intros before after n Hpre Hrem. exists n. split; [exact Hpre|].
  rewrite (Hrem n), bool_decide_eq_true_2; reflexivity.
Defined.

(** Nothing is below [credentials/] after the migration, so there is no
    directory either. *)
Lemma migrated_rooted : rooted [CREDENTIALS_DIR] (w_tree (fst after_two)).
Proof.
  intros name _ [x Hx]. apply elem_of_map_to_list in Hx. exfalso.
  assert (Hall : forallb (fun e : list (list Z) * Node => negb (bool_decide (hd [] (fst e) = CREDENTIALS_DIR)))
    (map_to_list (w_tree (fst after_two))) = true) by (vm_compute; reflexivity).
  rewrite forallb_forall in Hall. apply list_elem_of_In in Hx. specialize (Hall _ Hx). cbn [fst app hd] in Hall.
  rewrite bool_decide_eq_true_2 in Hall by reflexivity. discriminate Hall.
Qed.


Definition sample_manifest : Manifest := {[ hex (repeat 171 32) := Managed ]}.

Lemma manifest_encoding_unique_witness :
  decode_manifest (MANIFEST_MAGIC ++ [0; 0; 0; 1; 1] ++ repeat 171 32) = Ok sample_manifest.
Proof.
  apply (manifest_encoding_unique sample_manifest); [|vm_compute; discriminate|vm_compute; reflexivity].
  apply vec_bytes_ok. vm_compute. reflexivity.
Defined.

Definition sample_plaintext : bytes :=
  match encode_credential (sample 10 5 0) 7 with Ok b => b | Err _ => [] end.

Lemma stored_credential_typed_witness :
  credential_typed (sample 10 5 7) /\ zlen sample_plaintext > 100.
Proof.
  split; [|vm_compute; reflexivity].
  refine (proj1 (stored_credential_typed sample_plaintext (sample 10 5 7) _ _)).
  - apply vec_bytes_ok. vm_compute. reflexivity.
  - vm_compute. reflexivity.
Defined.

(** A PIN with five retries left, written by one process; the next one's
    engine, and a restart over its directory. *)
Definition stored_pin : PinStateRecord := {|
  psr_pin_hash := Some (repeat 9 16); psr_pin_retries := 5; psr_consecutive_failures := 0;
  psr_pin_auth_blocked := false; psr_min_pin_length := 4; psr_min_pin_length_rp_ids := [];
  psr_force_pin_change := false; psr_pin_code_point_length := 4; psr_always_uv := false;
  psr_pin_complexity_policy := false; psr_persistent_tokens := (None, None)
|}.

Definition directory : FileStore :=
  fst (st_set_pin_state stored_pin {| file_world := opened; file_max_credentials := 2 |}).

Definition engine_on_disk : CtapApp FileStore := ctap_app_new directory Scenario.world (repeat 17 16).

#[local] Opaque directory.

Lemma engine_on_disk_inv : pin_inv engine_on_disk.
Proof.
  apply pin_inv_new. intros r Hr.
  assert (Hv : pin_view directory = Some stored_pin) by (vm_compute; reflexivity).
  rewrite Hv in Hr. injection Hr as <-. split; [vm_compute; split; discriminate|discriminate].
Qed.

Lemma restart_from_disk_witness :
  let b := ctap_app_new {| file_world := file_world (app_store engine_on_disk); file_max_credentials := 2 |}
             Scenario.world (repeat 17 16) in
  app_stored_pin_state b = Read /\ pp_pin_retries (prs_persistent (ps_pin (app_pin_state b))) = 5.
Proof.
  destruct (restart_from_disk engine_on_disk (file_world (app_store engine_on_disk)) 2 Scenario.world (repeat 17 16)
    engine_on_disk_inv) as (Hst & Hp & _).
  - vm_compute. reflexivity.
  - eexists. vm_compute. reflexivity.
  - reflexivity.
  - split; vm_compute; reflexivity.
  - split; [exact Hst|]. rewrite Hp. vm_compute. reflexivity.
Defined.

End DiskWitness.
