(* ===== verification/Repair.v ===== *)
(** * Explicit repair of a damaged credential set ([store/repair.rs])

    [plan_repair] finds what to do without changing anything and [repair]
    does it: everything it replaces or removes first gets a name in a new
    quarantine directory, and the new list is published the way commits
    publish theirs.  The time that names the quarantine is an argument. *)

From stdpp Require Import gmap strings sorting.
From S2P Require Import Prelude Constants Alg Crypto Records Envelope Store Cbor Codec FileSystem Manifest StoreKeys FileStore.

(** ** Directories and links ([store/fsio.rs]) *)

Definition create_private_dir (dir : Path) : M World bool FsError := fun w =>
  match sys_mkdir dir DIR_MODE w with
  | (w', Ok _) => (sync_parent dir;;* ret true) w'
  | (w', Err (FIo AlreadyExists)) => (w', Ok false)
  | (w', Err e) => (w', Err e)
  end.

(** A second name for a file, a new one for anything else. *)
Definition quarantine_entry (from to : Path) : M World unit FsError :=
  let* metadata := sys_metadata from in
  if is_file (Some metadata) then hard_link from to else rename from to.

(** ** The date of a quarantine *)

(** [civil_from_days], on [u64]: nothing below is negative. *)
Definition civil_from_days (days : Z) : Z * Z * Z :=
  let days := days + 719468 in
  let era := days / 146097 in
  let day_of_era := days mod 146097 in
  let year_of_era := (day_of_era - day_of_era / 1460 + day_of_era / 36524 - day_of_era / 146096) / 365 in
  let day_of_year := day_of_era - (365 * year_of_era + year_of_era / 4 - year_of_era / 100) in
  let shifted_month := (5 * day_of_year + 2) / 153 in
  let day := day_of_year - (153 * shifted_month + 2) / 5 + 1 in
  let month := if shifted_month <? 10 then shifted_month + 3 else shifted_month - 9 in
  let year := year_of_era + era * 400 + (if month <=? 2 then 1 else 0) in
  (year, month, day).

(** The decimal digits of [n], at least [width] of them ([{:04}], [{:02}]). *)
Fixpoint decimal (fuel width : nat) (n : Z) : bytes :=
  match fuel with
  | O => []
  | S fuel' =>
      if (n <? 10) && (width <=? 1)%nat then [48 + n]
      else decimal fuel' (width - 1) (n / 10) ++ [48 + n mod 10]
  end.

(** A [u64] has at most twenty digits. *)
Definition format_decimal (width : nat) (n : Z) : bytes := decimal 20 width n.

(** [seconds] since 1970; a time before counts as 1970. *)
Definition utc_stamp (seconds : Z) : bytes :=
  let seconds := Z.max 0 seconds in
  let '(year, month, day) := civil_from_days (seconds / 86400) in
  let second := seconds mod 86400 in
  format_decimal 4 year ++ format_decimal 2 month ++ format_decimal 2 day ++ [84]
  ++ format_decimal 2 (second / 3600) ++ format_decimal 2 (second mod 3600 / 60)
  ++ format_decimal 2 (second mod 60) ++ [90].

Definition QUARANTINE_DIR : bytes := ascii_bytes "damaged".

Definition QUARANTINE_ATTEMPTS : nat := 100.

(** The loop of [new_quarantine]: [attempt] is the next one. *)
Fixpoint quarantine_attempts (left_ attempt : nat) (parent : Path) (stamp : bytes) : M World Path StoreError :=
  match left_ with
  | O => fail Io
  | S left' =>
      let name := if (attempt =? 1)%nat then stamp
                  else stamp ++ [45] ++ format_decimal 1 (Z.of_nat attempt) in
      let dir := parent ++ [name] in
      let* created := io (create_private_dir dir) in
      if created : bool then ret dir else quarantine_attempts left' (S attempt) parent stamp
  end.

Definition new_quarantine (parent : Path) (now : Z) : M World Path StoreError :=
  quarantine_attempts QUARANTINE_ATTEMPTS 1 parent (utc_stamp now).

(** ** Plans *)

(** The named directory of [Created]: [MANAGED_DIR] or [CREDENTIALS_DIR]. *)
Inductive Membership : Type :=
| MKept
| MRebuilt
| MListed
| MCreated (name : list Z).

Record Account : Type := {
  ac_rp_id : list Z;
  ac_user_name : option (list Z);
  ac_user_display_name : option (list Z);
  ac_passkeys : nat
}.

Inductive Publication : Type :=
| PNothing
| PManifest (m : gmap (list Z) Location)
| PMigration (m : gmap (list Z) Location)
| PNamespace
| PLegacyDirectory.

Record RepairPlan : Type := {
  rp_damage : list Damage;
  rp_membership : Membership;
  rp_shared : list Account;
  rp_passkeys : nat;
  rp_others : nat;
  rp_max_credentials : Z;
  rp_marker : bool;
  rp_moved : list (list (list Z));
  rp_publication : Publication
}.

#[export] Instance Membership_eq_dec : EqDecision Membership.
Proof. solve_decision. Defined.

#[export] Instance Account_eq_dec : EqDecision Account.
Proof. solve_decision. Defined.

#[export] Instance Publication_eq_dec : EqDecision Publication.
Proof. solve_decision. Defined.

#[export] Instance RepairPlan_eq_dec : EqDecision RepairPlan.
Proof. solve_decision. Defined.

Record Repaired : Type := {
  rd_quarantine : option (list (list Z));
  rd_durability : CommitDurability;
  rd_cleanup_pending : bool
}.

(** What a record that authenticates shows of its credential. *)
Record Kept : Type := {
  kp_name : list Z;
  kp_location : Location;
  kp_discoverable : bool;
  kp_rp_id : list Z;
  kp_user_id : list Z;
  kp_user_name : option (list Z);
  kp_user_display_name : option (list Z);
  kp_sign_count : Z;
  kp_created_at : Z
}.

Definition kept_of (record : CredentialRecord) (name : bytes) (location : Location) : Kept := {|
  kp_name := name; kp_location := location;
  kp_discoverable := is_discoverable (cr_credential_id record);
  kp_rp_id := cr_rp_id record; kp_user_id := cr_user_id record;
  kp_user_name := cr_user_name record; kp_user_display_name := cr_user_display_name record;
  kp_sign_count := cr_sign_count record; kp_created_at := cr_created_at record
|}.

Definition plan_new (damage : list Damage) (membership : Membership) (publication : Publication) : RepairPlan := {|
  rp_damage := damage; rp_membership := membership; rp_shared := []; rp_passkeys := 0; rp_others := 0;
  rp_max_credentials := 0; rp_marker := false; rp_moved := []; rp_publication := publication
|}.

(** [add]. *)
Definition add_damage (found : list Damage) (damage : Damage) : list Damage :=
  if bool_decide (damage ∈ found) then found else found ++ [damage].

(** The order of a map keyed by account: RP ID, then user handle. *)
Definition account_le (a b : (bytes * bytes) * (Kept * nat)) : Prop :=
  match bytes_cmp (fst (fst a)) (fst (fst b)) with
  | Lt => True
  | Eq => bytes_cmp (snd (fst a)) (snd (fst b)) <> Gt
  | Gt => False
  end.

#[export] Instance account_le_dec : RelDecision account_le.
Proof. intros a b. unfold account_le. destruct (bytes_cmp _ _); apply _. Defined.

(** [entry(..).or_insert((passkey, 0)).1 += 1]. *)
Definition count_account (accounts : gmap (list Z * list Z) (Kept * nat)) (passkey : Kept)
    : gmap (list Z * list Z) (Kept * nat) :=
  let key := (kp_rp_id passkey, kp_user_id passkey) in
  let (first, n) := default (passkey, 0%nat) (accounts !! key) in
  <[key := (first, S n)]> accounts.

Definition account_of (e : Kept * nat) : Account := {|
  ac_rp_id := kp_rp_id (fst e); ac_user_name := kp_user_name (fst e);
  ac_user_display_name := kp_user_display_name (fst e); ac_passkeys := snd e
|}.

Definition shared_accounts (kept : list Kept) : list Account :=
  let accounts := fold_left count_account (List.filter kp_discoverable kept) ∅ in
  map account_of
    (List.filter (fun e => (1 <? snd e)%nat) (map snd (merge_sort account_le (map_to_list accounts)))).

(** [RepairPlan::keep]. *)
Definition plan_keep (kept : list Kept) (p : RepairPlan) : RepairPlan :=
  let passkeys := length (List.filter kp_discoverable kept) in {|
  rp_damage := rp_damage p; rp_membership := rp_membership p; rp_shared := shared_accounts kept;
  rp_passkeys := passkeys; rp_others := length kept - passkeys;
  rp_max_credentials := rp_max_credentials p; rp_marker := rp_marker p; rp_moved := rp_moved p;
  rp_publication := rp_publication p
|}.

Definition plan_move (more : list Path) (p : RepairPlan) : RepairPlan := {|
  rp_damage := rp_damage p; rp_membership := rp_membership p; rp_shared := rp_shared p;
  rp_passkeys := rp_passkeys p; rp_others := rp_others p;
  rp_max_credentials := rp_max_credentials p; rp_marker := rp_marker p; rp_moved := rp_moved p ++ more;
  rp_publication := rp_publication p
|}.

(** [RepairPlan::mark]. *)
Definition plan_mark (damaged : option Damage) (reported : bool) (p : RepairPlan) : RepairPlan :=
  match damaged with
  | None => p
  | Some damaged => {|
      rp_damage := if reported then add_damage (rp_damage p) damaged else rp_damage p;
      rp_membership := rp_membership p; rp_shared := rp_shared p;
      rp_passkeys := rp_passkeys p; rp_others := rp_others p;
      rp_max_credentials := rp_max_credentials p; rp_marker := true;
      rp_moved := if bool_decide (fault damaged = FMissing) then rp_moved p
                  else rp_moved p ++ [[FORMAT_FILE]];
      rp_publication := rp_publication p
    |}
  end.

(** [moved] is sorted as strings. *)
Definition moved_le (a b : Path) : Prop := bytes_cmp (logical a) (logical b) <> Gt.

#[export] Instance moved_le_dec : RelDecision moved_le.
Proof. intros a b. unfold moved_le. apply _. Defined.

(** The last step of [plan_with]. *)
Definition plan_finish (max : Z) (p : RepairPlan) : RepairPlan := {|
  rp_damage := rp_damage p; rp_membership := rp_membership p; rp_shared := rp_shared p;
  rp_passkeys := rp_passkeys p; rp_others := rp_others p;
  rp_max_credentials := max; rp_marker := rp_marker p; rp_moved := merge_sort moved_le (rp_moved p);
  rp_publication := rp_publication p
|}.

(** ** Records found *)

Definition bytes_order (a b : bytes) : Prop := bytes_cmp a b <> Gt.

#[export] Instance bytes_order_dec : RelDecision bytes_order.
Proof. intros a b. unfold bytes_order. apply _. Defined.

(** Every entry and its type can fail to be read. *)
Fixpoint regular_names (dir : Path) (names : list bytes) : M World (list bytes) FsError :=
  match names with
  | [] => ret []
  | name :: rest =>
      sys_touch;;*
      let* regular := sys_read (fun t => Ok (is_file (t !! (dir ++ [name])))) in
      let* found := regular_names dir rest in
      ret (if (regular : bool) && is_credential_file_name name then name :: found else found)
  end.

Definition record_files (dir : Path) : M World (list bytes) StoreError := io (fun w =>
  match sys_read_dir dir w with
  | (w', Err (FIo NotFound)) => (w', Ok [])
  | (w', Err e) => (w', Err e)
  | (w', Ok names) => (let* found := regular_names dir names in ret (merge_sort bytes_order found)) w'
  end).

(** Of two copies, the one with the higher counter, then the higher order. *)
Definition supersedes (record held : Kept) : bool :=
  (kp_sign_count held <? kp_sign_count record)
  || ((kp_sign_count held =? kp_sign_count record) && (kp_created_at held <? kp_created_at record)).

Definition hold_record (by_name : gmap (list Z) Kept) (record : Kept) : gmap (list Z) Kept :=
  match by_name !! kp_name record with
  | None => <[kp_name record := record]> by_name
  | Some held => if supersedes record held then <[kp_name record := record]> by_name else by_name
  end.

Definition kept_le (a b : bytes * Kept) : Prop := bytes_cmp (fst a) (fst b) <> Gt.

#[export] Instance kept_le_dec : RelDecision kept_le.
Proof. intros a b. unfold kept_le. apply _. Defined.

Definition one_per_name (found : list Kept) : list Kept :=
  map snd (merge_sort kept_le (map_to_list (fold_left hold_record found ∅))).

Definition listed (kept : list Kept) : gmap (list Z) Location :=
  fold_left (fun m k => <[kp_name k := kp_location k]> m) kept ∅.

(** What [Result::err] leaves of the marker's state. *)
Definition err_of {A} (m : M World A Damage) : M World (option Damage) StoreError := fun w =>
  match m w with
  | (w', Ok _) => (w', Ok None)
  | (w', Err d) => (w', Ok (Some d))
  end.

Section Repair.

Context `{Crypto} `{Ciborium} `{RecordReader}.

(** ** Planning *)

(** The loops over members: the records kept, the damage found, and the files
    that do not decode.  [missing] says whether a missing record is damage. *)
Fixpoint survey (keys : CredentialKeys) (missing_counts : bool) (dir : Location -> Path)
    (members : list (bytes * Location)) (damage : list Damage)
    : M World (list Kept * list Damage * list Path) StoreError :=
  match members with
  | [] => ret ([], damage, [])
  | (name, location) :: rest => fun w =>
      let p := dir location ++ [name] in
      match read_credential_in keys name (dir location) location w with
      | (w', Ok (Some record)) =>
          (let* found := survey keys missing_counts dir rest damage in
           let '(kept, damage', bad) := found in
           ret (kept_of record name location :: kept, damage', bad)) w'
      | (w', Ok None) =>
          survey keys missing_counts dir rest
            (if missing_counts then add_damage damage (missing_damage p) else damage) w'
      | (w', Err (Corrupt reason)) =>
          (let* found := survey keys missing_counts dir rest (add_damage damage (corrupt_damage p reason)) in
           let '(kept, damage', bad) := found in ret (kept, damage', p :: bad)) w'
      | (w', Err e) => (w', Err e)
      end
  end.

(** One directory's part of [reclaimed]. *)
Fixpoint reclaimed_names (m : gmap (list Z) Location) (location : Location) (names : list bytes)
    : M World (list Path) StoreError :=
  match names with
  | [] => ret []
  | name :: rest =>
      let* gone := reclaimable m location name in
      let* more := reclaimed_names m location rest in
      ret (if gone : bool then (record_dir location ++ [name]) :: more else more)
  end.

Definition reclaimed_in (m : gmap (list Z) Location) (location : Location) : M World (list Path) StoreError :=
  let* names := record_files (record_dir location) in reclaimed_names m location names.

Definition reclaimed (m : gmap (list Z) Location) : M World (list Path) StoreError :=
  let* legacy := reclaimed_in m Legacy in
  let* managed := reclaimed_in m Managed in
  ret (legacy ++ managed).

Definition plan_kept (keys : CredentialKeys) (damage : list Damage) (m : gmap (list Z) Location)
    : M World RepairPlan StoreError :=
  let* found := survey keys true record_dir (entries_in_order m) damage in
  let '(kept, damage', _) := found in
  let list_ := listed kept in
  if bool_decide (list_ = m) then ret (plan_keep kept (plan_new damage' MKept PNothing))
  else
    let* gone := reclaimed list_ in
    ret (plan_keep kept (plan_move (ACTIVE_PATH :: gone) (plan_new damage' MKept (PManifest list_)))).

Definition plan_rebuild (keys : CredentialKeys) (damage : list Damage) (lost : Damage)
    : M World RepairPlan StoreError :=
  let damage := add_damage damage lost in
  let* legacy := record_files (record_dir Legacy) in
  let* first := survey keys false record_dir (map (fun name => (name, Legacy)) legacy) damage in
  let '(found1, damage1, _) := first in
  let* managed := record_files (record_dir Managed) in
  let* second := survey keys false record_dir (map (fun name => (name, Managed)) managed) damage1 in
  let '(found2, damage2, _) := second in
  let kept := one_per_name (found1 ++ found2) in
  let list_ := listed kept in
  lift (encode_manifest list_);;*
  let* there := exists_path ACTIVE_PATH in
  let* gone := reclaimed list_ in
  ret (plan_keep kept (plan_move ((if there : bool then [ACTIVE_PATH] else []) ++ gone)
         (plan_new damage2 MRebuilt (PManifest list_)))).

Definition plan_listing (keys : CredentialKeys) (damage : list Damage) : M World RepairPlan StoreError :=
  let* names := credential_file_names in
  let* found := survey keys false (fun _ => [CREDENTIALS_DIR])
                  (legacy_members (merge_sort bytes_order names)) damage in
  let '(kept, damage', bad) := found in
  let prepared := [CREDENTIALS_DIR; ACTIVE_FILE] in
  let* there := exists_path prepared in
  let* staged := record_files [CREDENTIALS_DIR; RECORDS_DIR] in
  let moved := bad ++ (if there : bool then [prepared] else [])
               ++ map (fun name => [CREDENTIALS_DIR; RECORDS_DIR; name]) staged in
  let* marker := err_of (format_marker keys) in
  ret (plan_mark marker false (plan_keep kept (plan_move moved
         (plan_new damage' MListed (PMigration (listed kept)))))).

Definition plan_with (max : Z) (keys : CredentialKeys) (damage : list Damage) : M World RepairPlan StoreError :=
  let* managed := exists_path [MANAGED_DIR] in
  let* plan :=
    (if negb managed then
       let* legacy := exists_path [CREDENTIALS_DIR] in
       if legacy : bool then plan_listing keys damage
       else
         let* format := exists_path [FORMAT_FILE] in
         if format : bool then
           let* marker := err_of (format_marker keys) in
           ret (plan_mark marker true (plan_new damage (MCreated MANAGED_DIR) PNamespace))
         else ret (plan_new damage (MCreated CREDENTIALS_DIR) PLegacyDirectory)
     else
       let* marker := err_of (format_marker keys) in
       let* plan := (fun w =>
         match manifest keys w with
         | (w', Ok m) => plan_kept keys damage m w'
         | (w', Err lost) => plan_rebuild keys damage lost w'
         end) in
       ret (plan_mark marker true plan)) in
  ret (plan_finish max plan).

(** Whether the plan changes anything. *)
Definition plan_needed (p : RepairPlan) : bool :=
  negb (bool_decide (rp_publication p = PNothing)) || rp_marker p || negb (length (rp_moved p) =? 0)%nat.

Definition plan_repair (max : Z) : M World (option RepairPlan) StoreError :=
  let* damage := inspect in
  if (length damage =? 0)%nat then ret None
  else
    let* keys := credential_keys in
    match keys with
    | None => ret None
    | Some keys =>
        let* plan := plan_with max keys damage in
        ret (if plan_needed plan then Some plan else None)
    end.

(** ** Carrying it out *)

(** The directories down to an entry's own, each made private. *)
Fixpoint ensure_dirs (dir : Path) (components : list bytes) : M World Path StoreError :=
  match components with
  | [] => ret dir
  | c :: rest => io (ensure_private_dir (dir ++ [c]));;* ensure_dirs (dir ++ [c]) rest
  end.

Fixpoint move_all (quarantine : Path) (moved : list Path) : M World (list Path) StoreError :=
  match moved with
  | [] => ret []
  | relative :: rest =>
      let* dir := ensure_dirs quarantine (parent relative) in
      io (quarantine_entry relative (quarantine ++ relative));;*
      let* held := move_all quarantine rest in
      ret (dir :: held)
  end.

Fixpoint path_cmp (a b : Path) : comparison :=
  match a, b with
  | [], [] => Eq
  | [], _ => Lt
  | _, [] => Gt
  | x :: a', y :: b' => match bytes_cmp x y with Eq => path_cmp a' b' | c => c end
  end.

Definition path_le (a b : Path) : Prop := path_cmp a b <> Gt.

#[export] Instance path_le_dec : RelDecision path_le.
Proof. intros a b. unfold path_le. apply _. Defined.

Fixpoint sync_all (dirs : list Path) : M World unit StoreError :=
  match dirs with
  | [] => ret tt
  | dir :: rest => io (sync_dir_strict dir);;* sync_all rest
  end.

Definition quarantine (moved : list Path) (now : Z) : M World Path StoreError :=
  let parent_ := [QUARANTINE_DIR] in
  io (ensure_private_dir parent_);;*
  let* q := new_quarantine parent_ now in
  let* held := move_all q moved in
  sync_all (merge_sort path_le (remove_dups held));;*
  ret q.

Definition replace_format_marker (keys : CredentialKeys) : M World CommitDurability StoreError :=
  let* sealed := seal_format keys in
  let* temp := io (write_temp_file [] sealed) in
  io (install temp [FORMAT_FILE]);;*
  fun w => match sync_dir_strict [] w with
           | (w', Ok _) => (w', Ok Flushed)
           | (w', Err _) => (w', Ok Unconfirmed)
           end.

Definition no_commit : CredentialCommit := {| durability := Flushed; cleanup_pending := false |}.

(** The publication, and whether the marker is still to be written. *)
Definition publish_plan (keys : CredentialKeys) (plan : RepairPlan) : M World (CredentialCommit * bool) StoreError :=
  match rp_publication plan with
  | PNothing => ret (no_commit, rp_marker plan)
  | PManifest m =>
      io (ensure_private_dir (record_dir Managed));;*
      let* commit := publish_manifest keys m in ret (commit, rp_marker plan)
  | PMigration m =>
      (if rp_marker plan then write_format_marker keys else ret tt);;*
      io (ensure_private_dir [CREDENTIALS_DIR; RECORDS_DIR]);;*
      let* commit := publish_migration keys m in ret (commit, false)
  | PNamespace =>
      io (ensure_private_dir [MANAGED_DIR]);;*
      io (ensure_private_dir (record_dir Managed));;*
      let* commit := publish_manifest keys ∅ in ret (commit, rp_marker plan)
  | PLegacyDirectory =>
      io (ensure_private_dir [CREDENTIALS_DIR]);;* ret (no_commit, rp_marker plan)
  end.

Definition carry_out (keys : CredentialKeys) (plan : RepairPlan) (now : Z) : M World Repaired StoreError :=
  let* q := (if (length (rp_moved plan) =? 0)%nat then ret None
             else let* q := quarantine (rp_moved plan) now in ret (Some q)) in
  let* published := publish_plan keys plan in
  let (commit, marker) := published in
  let* unconfirmed :=
    (if marker : bool then
       let* d := replace_format_marker keys in ret (bool_decide (d = Unconfirmed))
     else ret false) in
  ret {| rd_quarantine := q;
         rd_durability := if unconfirmed : bool then Unconfirmed else durability commit;
         rd_cleanup_pending := cleanup_pending commit |}.

Definition repair (max : Z) (plan : RepairPlan) (now : Z) : M World Repaired StoreError :=
  let* planned := plan_repair max in
  guard (bool_decide (planned = Some plan)) Io;;*
  let* keys := credential_keys in
  let* keys := lift (ok_or keys Io) in
  carry_out keys plan now.

End Repair.
