(* ===== verification/RepairProofs.v ===== *)
(** * What repair does ([store/repair.rs])

    The date of a quarantine is the calendar's; a repair, whatever fails in
    it, changes nothing but the credential set and the quarantine, and keeps
    every credential that was usable. *)

From stdpp Require Import gmap strings sorting.
From S2P Require Import Prelude Constants Alg Crypto Records Envelope Store Cbor Codec CodecProofs FileSystem Manifest StoreKeys FileStore FsProofs FileStoreProofs FileStoreLaws CredentialSet CredentialTransactions CredentialEffects Repair.

(** ** The calendar *)

Definition is_leap (year : Z) : bool :=
  (year mod 4 =? 0) && (negb (year mod 100 =? 0) || (year mod 400 =? 0)).

Definition days_in_month (year month : Z) : Z :=
  if month =? 2 then if is_leap year then 29 else 28
  else if (month =? 4) || (month =? 6) || (month =? 9) || (month =? 11) then 30 else 31.

(** The day after. *)
Definition next_day (date : Z * Z * Z) : Z * Z * Z :=
  let '(year, month, day) := date in
  if day <? days_in_month year month then (year, month, day + 1)
  else if month <? 12 then (year, month + 1, 1)
  else (year + 1, 1, 1).

(** The years of a 400-year era start on March 1; [year_start 400] is its
    length. *)
Definition year_start (y : Z) : Z := if y =? 400 then 146097 else 365 * y + y / 4 - y / 100.

Definition year_of_era (doe : Z) : Z := (doe - doe / 1460 + doe / 36524 - doe / 146096) / 365.

(** The month and the day of the [doy]-th day from March 1. *)
Definition month_and_day (doy : Z) : Z * Z :=
  let shifted := (5 * doy + 2) / 153 in
  (if shifted <? 10 then shifted + 3 else shifted - 9, doy - (153 * shifted + 2) / 5 + 1).

Definition date_in_era (era y doy : Z) : Z * Z * Z :=
  let (month, day) := month_and_day doy in (y + era * 400 + (if month <=? 2 then 1 else 0), month, day).

Definition upto (n : Z) : list Z := map Z.of_nat (seq 0 (Z.to_nat n)).

Lemma upto_forall (P : Z -> bool) n x : forallb P (upto n) = true -> 0 <= x < n -> P x = true.
Proof.
  intros HP Hx. rewrite forallb_forall in HP. apply HP. apply in_map_iff. exists (Z.to_nat x).
  split; [lia|]. apply in_seq. lia.
Qed.

Lemma year_cover n doe :
  0 <= doe < year_start (Z.of_nat n) ->
  exists y, 0 <= y < Z.of_nat n /\ year_start y <= doe < year_start (y + 1).
Proof.
  induction n as [|n IH]; intros Hd; [change (year_start (Z.of_nat 0)) with 0 in Hd; lia|].
  destruct (Z_lt_le_dec doe (year_start (Z.of_nat n))) as [Hlt|Hle].
  - destruct IH as (y & Hy & Hb); [lia|]. exists y. split; [lia|done].
  - exists (Z.of_nat n). split; [lia|]. replace (Z.of_nat n + 1) with (Z.of_nat (S n)) by lia. lia.
Qed.

Lemma year_of_era_step doe : 0 <= doe -> year_of_era doe <= year_of_era (doe + 1).
Proof.
  intros Hd. unfold year_of_era. apply Z.div_le_mono; [lia|].
  assert (Hq : forall k, 0 < k -> doe / k <= (doe + 1) / k <= doe / k + 1).
  { intros k Hk. split; [apply Z.div_le_mono; lia|]. replace (doe / k + 1) with ((doe + 1 * k) / k) by (rewrite Z.div_add; lia).
    apply Z.div_le_mono; lia. }
  pose proof (Hq 1460 ltac:(lia)). pose proof (Hq 36524 ltac:(lia)). pose proof (Hq 146096 ltac:(lia)).
  destruct (Z.eq_dec ((doe + 1) / 146096) (doe / 146096)) as [He|He]; [lia|].
  assert ((doe + 1) / 36524 = doe / 36524 + 1); [|lia].
  assert (Hm : (doe + 1) mod 146096 = 0).
  { pose proof (Z.div_mod doe 146096 ltac:(lia)). pose proof (Z.mod_pos_bound doe 146096 ltac:(lia)).
    pose proof (Z.div_mod (doe + 1) 146096 ltac:(lia)). pose proof (Z.mod_pos_bound (doe + 1) 146096 ltac:(lia)). lia. }
  apply Z.mod_divide in Hm as [k Hk]; [|lia]. rewrite Hk. replace (k * 146096) with ((4 * k) * 36524) by lia.
  rewrite Z.div_mul by lia. replace doe with (36523 + (4 * k - 1) * 36524) by lia.
  rewrite Z.div_add by lia. change (36523 / 36524) with 0. lia.
Qed.

Lemma year_of_era_mono a b : 0 <= a <= b -> year_of_era a <= year_of_era b.
Proof.
  intros [Ha Hab]. replace b with (a + Z.of_nat (Z.to_nat (b - a))) by lia. induction (Z.to_nat (b - a)) as [|n IH].
  - rewrite Z.add_0_r. lia.
  - pose proof (year_of_era_step (a + Z.of_nat n) ltac:(lia)) as Hs.
    replace (a + Z.of_nat (S n)) with (a + Z.of_nat n + 1) by lia. lia.
Qed.

Lemma year_ends y :
  0 <= y < 400 -> year_of_era (year_start y) = y /\ year_of_era (year_start (y + 1) - 1) = y /\
  year_start (y + 1) - year_start y = (if is_leap (y + 1) then 366 else 365) /\ 0 <= year_start y.
Proof.
  intros Hy.
  assert (Hall : forallb (fun y => (year_of_era (year_start y) =? y) && (year_of_era (year_start (y + 1) - 1) =? y)
    && (year_start (y + 1) - year_start y =? (if is_leap (y + 1) then 366 else 365)) && (0 <=? year_start y))
    (upto 400) = true) by (vm_compute; reflexivity).
  pose proof (upto_forall _ _ y Hall Hy) as Hb. cbv beta in Hb. clear Hall. bool_hyps. repeat split; assumption.
Qed.

Lemma civil_in_era days era y doy :
  days + 719468 = era * 146097 + year_start y + doy -> 0 <= y < 400 ->
  0 <= doy < year_start (y + 1) - year_start y ->
  civil_from_days days = date_in_era era y doy.
Proof.
  intros Hd Hy Hr. destruct (year_ends y Hy) as (H1 & H2 & H3 & H4).
  assert (Hlast : year_start (y + 1) <= 146097).
  { unfold year_start. destruct (y + 1 =? 400) eqn:E; [lia|]. apply Z.eqb_neq in E.
    pose proof (Z.div_le_upper_bound (y + 1) 4 100 ltac:(lia) ltac:(lia)).
    pose proof (Z.div_pos (y + 1) 100 ltac:(lia) ltac:(lia)). lia. }
  assert (Hyoe : year_of_era (year_start y + doy) = y).
  { pose proof (year_of_era_mono (year_start y) (year_start y + doy) ltac:(lia)).
    pose proof (year_of_era_mono (year_start y + doy) (year_start (y + 1) - 1) ltac:(lia)). lia. }
  unfold civil_from_days, date_in_era, month_and_day.
  assert (He : (days + 719468) / 146097 = era).
  { symmetry. apply (Z.div_unique _ _ _ (year_start y + doy)); lia. }
  assert (Hm : (days + 719468) mod 146097 = year_start y + doy).
  { symmetry. apply (Z.mod_unique _ _ era); lia. }
  rewrite He, Hm. fold (year_of_era (year_start y + doy)). rewrite Hyoe.
  assert (Hdoy : year_start y + doy - (365 * y + y / 4 - y / 100) = doy).
  { unfold year_start. destruct (y =? 400) eqn:E; [lia|]. lia. }
  by rewrite Hdoy.
Qed.

(** Within a year from March 1 to February 28. *)
Lemma month_steps doy :
  0 <= doy < 364 ->
  let (m, d) := month_and_day doy in
  let (m', d') := month_and_day (doy + 1) in
  if m =? 2 then d < 28 /\ m' = 2 /\ d' = d + 1
  else (d < days_in_month 1 m /\ m' = m /\ d' = d + 1) \/
       (d = days_in_month 1 m /\ m < 12 /\ m' = m + 1 /\ d' = 1) \/ (d = 31 /\ m = 12 /\ m' = 1 /\ d' = 1).
Proof.
  intros Hd.
  assert (Hall : forallb (fun doy => let (m, d) := month_and_day doy in
    let (m', d') := month_and_day (doy + 1) in
    if m =? 2 then (d <? 28) && (m' =? 2) && (d' =? d + 1)
    else ((d <? days_in_month 1 m) && (m' =? m) && (d' =? d + 1)) ||
         ((d =? days_in_month 1 m) && (m <? 12) && (m' =? m + 1) && (d' =? 1)) ||
         ((d =? 31) && (m =? 12) && (m' =? 1) && (d' =? 1))) (upto 364) = true) by (vm_compute; reflexivity).
  pose proof (upto_forall _ _ doy Hall Hd) as Hb. cbv beta in Hb. clear Hall.
  destruct (month_and_day doy) as [m d], (month_and_day (doy + 1)) as [m' d'].
  destruct (m =? 2); [bool_hyps; done|]. apply orb_true_iff in Hb as [Hb|Hb];
    [apply orb_true_iff in Hb as [Hb|Hb]; [left|right; left]|right; right]; bool_hyps; done.
Qed.

Lemma leap_in_era era y : is_leap (y + era * 400) = is_leap y.
Proof.
  unfold is_leap. replace (y + era * 400) with (y + (100 * era) * 4) at 1 by lia. rewrite Z.mod_add by lia.
  replace (y + era * 400) with (y + (4 * era) * 100) at 1 by lia. rewrite Z.mod_add by lia.
  by rewrite Z.mod_add by lia.
Qed.

(** Before the last day of a year from March 1. *)
Lemma within_year era y doy :
  0 <= doy -> doy + 1 < (if is_leap (y + 1) then 366 else 365) ->
  date_in_era era y (doy + 1) = next_day (date_in_era era y doy).
Proof.
  intros Hd Hl. destruct (decide (doy < 364)) as [Hlt|Hge].
  - pose proof (month_steps doy ltac:(lia)) as Hs. unfold date_in_era, next_day.
    destruct (month_and_day doy) as [m d], (month_and_day (doy + 1)) as [m' d'].
    destruct (m =? 2) eqn:Em.
    + apply Z.eqb_eq in Em. subst m. destruct Hs as (Hlt' & -> & ->). unfold days_in_month. simpl.
      assert (Hd28 : forall b : bool, (d <? (if b then 29 else 28)) = true) by (intros []; apply Z.ltb_lt; lia).
      by rewrite Hd28.
    + assert (Hdm : forall year, days_in_month year m = days_in_month 1 m) by (intros; unfold days_in_month; by rewrite Em).
      rewrite Hdm. apply Z.eqb_neq in Em.
      destruct Hs as [(H1 & -> & ->)|[(-> & H2 & -> & ->)|(-> & -> & -> & ->)]].
      * apply Z.ltb_lt in H1. by rewrite H1.
      * rewrite Z.ltb_irrefl. apply Z.ltb_lt in H2 as H2'. rewrite H2'. apply Z.ltb_lt in H2'.
        destruct (m <=? 2) eqn:E1, (m + 1 <=? 2) eqn:E2; bool_hyps; try done; try lia; f_equal; f_equal; lia.
      * simpl. f_equal. f_equal. lia.
  - destruct (is_leap (y + 1)) eqn:Elp; [|lia]. replace doy with 364 by lia. unfold date_in_era, next_day.
    change (month_and_day 364) with (2, 28). change (month_and_day (364 + 1)) with (2, 29).
    unfold days_in_month. simpl. replace (y + era * 400 + 1) with (y + 1 + era * 400) by lia.
    by rewrite leap_in_era, Elp.
Qed.

(** The last day of such a year is the last of February. *)
Lemma year_end era era' y y' doy :
  doy + 1 = (if is_leap (y + 1) then 366 else 365) -> y' + era' * 400 = y + 1 + era * 400 ->
  date_in_era era' y' 0 = next_day (date_in_era era y doy).
Proof.
  intros Hd Hy. unfold date_in_era, next_day. change (month_and_day 0) with (3, 1). simpl.
  destruct (is_leap (y + 1)) eqn:Elp; [replace doy with 365 by lia; change (month_and_day 365) with (2, 29)
    |replace doy with 364 by lia; change (month_and_day 364) with (2, 28)];
    unfold days_in_month; simpl; replace (y + era * 400 + 1) with (y + 1 + era * 400) by lia;
    rewrite leap_in_era, Elp; simpl; f_equal; f_equal; lia.
Qed.

Lemma civil_steps days : 0 <= days -> civil_from_days (days + 1) = next_day (civil_from_days days).
Proof.
  intros Hd. set (era := (days + 719468) / 146097). set (doe := (days + 719468) mod 146097).
  pose proof (Z.div_mod (days + 719468) 146097 ltac:(lia)) as Hdm. fold era doe in Hdm.
  pose proof (Z.mod_pos_bound (days + 719468) 146097 ltac:(lia)) as Hm. fold doe in Hm.
  destruct (year_cover 400 doe) as (y & Hy & Hb); [change (year_start (Z.of_nat 400)) with 146097; lia|].
  change (Z.of_nat 400) with 400 in Hy. destruct (year_ends y Hy) as (_ & _ & Hlen & Hpos).
  set (doy := doe - year_start y). assert (Hdoy : doe = year_start y + doy) by lia.
  rewrite (civil_in_era days era y doy) by lia.
  destruct (Z_lt_le_dec (doy + 1) (year_start (y + 1) - year_start y)) as [Hlt|Hge].
  - rewrite (civil_in_era (days + 1) era y (doy + 1)) by lia. apply within_year; [lia|]. by rewrite <- Hlen.
  - destruct (Z.eq_dec y 399) as [->|Hne].
    + rewrite (civil_in_era (days + 1) (era + 1) 0 0); [apply year_end; lia| |lia|vm_compute; done].
      change (year_start 0) with 0. change (year_start (399 + 1)) with 146097 in *. lia.
    + rewrite (civil_in_era (days + 1) era (y + 1) 0); [apply year_end; lia|lia|lia|].
      destruct (year_ends (y + 1) ltac:(lia)) as (_ & _ & Hl' & _). destruct (is_leap (y + 1 + 1)); lia.
Qed.

(** ** Planning changes nothing *)

Lemma ro_regular_names dir names : ReadOnly (regular_names dir names).
Proof. induction names; cbn [regular_names]; ro_solve. Qed.

#[export] Hint Resolve ro_regular_names : fs.

Lemma ro_record_files dir : ReadOnly (record_files dir).
Proof.
  apply ro_io. intros w w' r. destruct (sys_read_dir dir w) as [w1 r1] eqn:E1.
  apply sys_read_spec in E1 as [Ht _]. destruct r1 as [names|[k|]].
  - intros Hr. rewrite <- Ht. revert Hr. assert (Hro : ReadOnly (let* found := regular_names dir names in
      ret (merge_sort bytes_order found) : M World _ FsError)) by ro_solve. apply Hro.
  - destruct k; by intros [= <- _].
  - by intros [= <- _].
Qed.

Lemma ro_err_of {A} (m : M World A Damage) : ReadOnly m -> ReadOnly (err_of m).
Proof.
  intros Hm w w' r. unfold err_of. destruct (m w) as [w1 [x|d]] eqn:E1; apply Hm in E1; by intros [= <- _].
Qed.

Section RepairReads.

Context `{Crypto} `{Ciborium} `{RecordReader}.

Lemma ro_format_marker keys : ReadOnly (format_marker keys).
Proof. apply ro_object_or_damage. auto with fs. Qed.

Lemma ro_manifest keys : ReadOnly (manifest keys).
Proof. apply ro_object_or_damage. auto with fs. Qed.

Lemma ro_survey keys counts dir members damage : ReadOnly (survey keys counts dir members damage).
Proof.
  revert damage. induction members as [|[name location] members IH]; intros damage; cbn [survey]; [auto with fs|].
  assert (Hbind : forall d (f : list Kept * list Damage * list Path -> M World (list Kept * list Damage * list Path) StoreError),
    (forall x, ReadOnly (f x)) -> ReadOnly (let* found := survey keys counts dir members d in f found))
    by (intros d f Hf; apply ro_bind; [apply IH|done]).
  intros w w' r. destruct (read_credential_in _ _ _ _ w) as [w1 [[x|]|e]] eqn:E1;
    pose proof (ro_read_credential_in _ _ _ _ _ _ _ E1) as Ht; intros Hr; rewrite <- Ht.
  - revert Hr. apply Hbind. intros [[]]. apply ro_ret.
  - by eapply IH.
  - destruct e; try (by injection Hr as <- _). revert Hr. apply Hbind. intros [[]]. apply ro_ret.
Qed.

Lemma ro_reclaimable m location name : ReadOnly (reclaimable m location name).
Proof. unfold reclaimable, holds_record. ro_solve. Qed.

Lemma ro_reclaimed_names m location names : ReadOnly (reclaimed_names m location names).
Proof.
  induction names as [|name names IH]; cbn [reclaimed_names]; [auto with fs|].
  apply ro_bind; [apply ro_reclaimable|]. intros gone. apply ro_bind; [exact IH|]. intros; apply ro_ret.
Qed.

Lemma ro_reclaimed m : ReadOnly (reclaimed m).
Proof.
  unfold reclaimed, reclaimed_in. repeat (apply ro_bind; [|intros ?]); auto using ro_ret, ro_record_files, ro_reclaimed_names.
  all: apply ro_bind; auto using ro_record_files, ro_reclaimed_names.
Qed.

End RepairReads.

#[export] Hint Resolve ro_record_files ro_err_of ro_format_marker ro_manifest ro_survey ro_reclaimed : fs.

Section RepairPlans.

Context `{Crypto} `{Ciborium} `{RecordReader}.

Lemma ro_plan_with max keys damage : ReadOnly (plan_with max keys damage).
Proof.
  unfold plan_with, plan_kept, plan_rebuild, plan_listing.
  assert (Hm : ReadOnly (fun w => match manifest keys w with
    | (w', Ok m) => plan_kept keys damage m w' | (w', Err lost) => plan_rebuild keys damage lost w' end)).
  { intros w w' r. destruct (manifest keys w) as [w1 [m|d]] eqn:E1; pose proof (ro_manifest _ _ _ _ E1) as Ht;
      intros Hr; rewrite <- Ht; revert Hr; [unfold plan_kept|unfold plan_rebuild].
    - assert (Hro : ReadOnly (plan_kept keys damage m)); [|apply Hro]. unfold plan_kept. ro_solve.
    - assert (Hro : ReadOnly (plan_rebuild keys damage d)); [|apply Hro]. unfold plan_rebuild. ro_solve. }
  ro_solve.
Qed.

Lemma ro_inspect_members keys managed dir members : ReadOnly (inspect_members keys managed dir members).
Proof.
  induction members as [|[name location] members IH]; cbn [inspect_members]; [auto with fs|].
  intros w w' r. destruct (read_credential_in _ _ _ _ w) as [w1 [[x|]|e]] eqn:E1;
    pose proof (ro_read_credential_in _ _ _ _ _ _ _ E1) as Ht; intros Hr; rewrite <- Ht.
  - by eapply IH.
  - destruct managed; [|by eapply IH]. revert Hr. apply ro_bind; [exact IH|intros; apply ro_ret].
  - destruct e; try (by injection Hr as <- _). revert Hr. apply ro_bind; [exact IH|intros; apply ro_ret].
Qed.

Lemma ro_inspect : ReadOnly inspect.
Proof.
  assert (Honce : ReadOnly inspect_once).
  { unfold inspect_once. repeat first [apply ro_inspect_members|apply ro_membership|ro_step]. }
  assert (Hlooks : forall n previous, ReadOnly (inspect_looks n previous)).
  { induction n as [|n IH]; intros previous w w' r; cbn [inspect_looks]; destruct (healthy previous);
      try (by intros [= <- _]). destruct (inspect_once w) as [w1 now] eqn:E1. apply Honce in E1.
    destruct (looks_agree previous now); [by intros [= <- _]|]. rewrite <- E1. apply IH. }
  intros w w' r. unfold inspect. destruct (inspect_once w) as [w1 first] eqn:E1. apply Honce in E1.
  rewrite <- E1. apply Hlooks.
Qed.

Lemma ro_plan_repair max : ReadOnly (plan_repair max).
Proof.
  unfold plan_repair. apply ro_bind; [apply ro_inspect|]. intros damage. destruct (_ =? 0)%nat; [apply ro_ret|].
  apply ro_bind; [auto with fs|]. intros [keys|]; [|apply ro_ret].
  apply ro_bind; [apply ro_plan_with|intros; apply ro_ret].
Qed.

End RepairPlans.

(** ** What planning finds *)

Section Found.

Context `{Crypto} `{Ciborium} `{RecordReader}.

Implicit Types (keys : CredentialKeys) (t : Tree) (w : World) (name : bytes) (dir : Location -> Path).
Implicit Types (m : gmap (list Z) Location) (kept : list Kept) (damage : list Damage).

Lemma regular_names_ok (dir : Path) names w w' found :
  regular_names dir names w = (w', Ok found) ->
  Forall (fun n => is_file (w_tree w !! (dir ++ [n])) = true /\ is_credential_file_name n = true) found.
Proof.
  revert w w' found. induction names as [|n names IH]; intros w w' found; cbn [regular_names].
  - intros [= _ <-]. constructor.
  - intros Hr. peel Hr w1 u Hu. apply sys_read_spec in Hu as [Ht1 _]. peel Hr w2 b Hb.
    apply sys_read_spec in Hb as [Ht2 Hb]. peel Hr w3 rest Hrest. injection Hr as _ <-.
    apply IH in Hrest. rewrite Ht2, Ht1 in Hrest.
    destruct Hb as [[= ->]|[k [=]]]. rewrite Ht1.
    destruct (is_file _) eqn:E1; [|done]. destruct (is_credential_file_name n) eqn:E2; simpl; [|done].
    constructor; [|done]. by split.
Qed.

Lemma record_files_ok (dir : Path) w w' names :
  record_files dir w = (w', Ok names) ->
  Forall (fun n => is_file (w_tree w !! (dir ++ [n])) = true /\ is_credential_file_name n = true) names.
Proof.
  unfold record_files. intros Hr. apply io_ok in Hr. destruct (sys_read_dir dir w) as [w1 r1] eqn:E1.
  apply sys_read_spec in E1 as [Ht _]. destruct r1 as [l|[k|]]; [|by destruct k; simplify_eq; constructor|done].
  peel Hr w2 found Hf. injection Hr as _ <-. apply regular_names_ok in Hf. rewrite Ht in Hf.
  by rewrite merge_sort_Permutation.
Qed.

Lemma read_credential_file keys name (dir : Path) location w w' reason :
  read_credential_in keys name dir location w = (w', Err (Corrupt reason)) ->
  is_file (w_tree w !! (dir ++ [name])) = true.
Proof.
  unfold read_credential_in. unfold mbind_st at 1. destruct (io _ w) as [w1 [o|e]] eqn:E1.
  - apply io_ok, read_file_ok in E1 as [_ Hf].
    destruct (w_tree w !! _) as [[mo c|mo]|]; [done|done|]. subst o. done.
  - apply io_cases in E1 as (r' & _ & Hr'). intros [= _ ->]. destruct r' as [|[]]; done.
Qed.

Lemma survey_ok keys counts dir members damage w w' kept damage' bad :
  survey keys counts dir members damage w = (w', Ok (kept, damage', bad)) ->
  (forall k, k ∈ kept <-> exists name location r, (name, location) ∈ members /\
     record_view keys (w_tree w) (dir location) location name = Some r /\ k = kept_of r name location) /\
  Forall (fun p => is_file (w_tree w !! p) = true /\
     exists name location, (name, location) ∈ members /\ p = dir location ++ [name]) bad.
Proof.
  revert damage w w' kept damage' bad.
  induction members as [|[n loc] members IH]; intros damage w w' kept damage' bad; cbn [survey].
  - intros [= _ <- _ <-]. split; [|constructor]. intros k. split; [by intros ?%not_elem_of_nil|].
    by intros (? & ? & ? & ?%not_elem_of_nil & _).
  - destruct (read_credential_in _ _ _ _ w) as [w1 [[x|]|e]] eqn:E1;
      pose proof (ro_read_credential_in _ _ _ _ _ _ _ E1) as Ht; intros Hr.
    + peel Hr w2 found Hf. destruct found as [[kept0 damage0] bad0]. injection Hr as _ <- <- <-.
      apply IH in Hf as [Hk Hb]. rewrite Ht in Hk, Hb. apply read_credential_ok in E1 as (_ & Hx & _). split.
      * intros k. rewrite elem_of_cons, Hk. split.
        -- intros [->|(name & l & r & Hin & Hv & ->)]; [exists n, loc, x|exists name, l, r];
             rewrite elem_of_cons; auto.
        -- intros (name & l & r & Hin & Hv & ->). apply elem_of_cons in Hin as [Hin|Hin]; [left|right; eauto 8].
           injection Hin as -> ->. by rewrite Hv in Hx; simplify_eq.
      * eapply Forall_impl; [exact Hb|]. intros p (Hp & name & l & Hin & Hpe). split; [done|].
        exists name, l. rewrite elem_of_cons. auto.
    + apply IH in Hr as [Hk Hb]. rewrite Ht in Hk, Hb. apply read_credential_ok in E1 as (_ & Hx & _). split.
      * intros k. rewrite Hk. split; intros (name & l & r & Hin & Hv & ->); exists name, l, r;
          [rewrite elem_of_cons; auto|]. apply elem_of_cons in Hin as [Hin|Hin]; [|done].
        injection Hin as -> ->. by rewrite Hv in Hx.
      * eapply Forall_impl; [exact Hb|]. intros p (Hp & name & l & Hin & Hpe). split; [done|].
        exists name, l. rewrite elem_of_cons. auto.
    + destruct e; try done. peel Hr w2 found Hf. destruct found as [[kept0 damage0] bad0]. injection Hr as _ <- <- <-.
      apply IH in Hf as [Hk Hb]. rewrite Ht in Hk, Hb. pose proof (read_credential_corrupt _ _ _ _ _ _ _ E1) as Hx.
      apply read_credential_file in E1. split.
      * intros k. rewrite Hk. split; intros (name & l & r & Hin & Hv & ->); exists name, l, r;
          [rewrite elem_of_cons; auto|]. apply elem_of_cons in Hin as [Hin|Hin]; [|done].
        injection Hin as -> ->. by rewrite Hv in Hx.
      * constructor; [split; [done|]; exists n, loc; split; [by left|done]|].
        eapply Forall_impl; [exact Hb|]. intros p (Hp & name & l & Hin & Hpe). split; [done|].
        exists name, l. rewrite elem_of_cons. auto.
Qed.

(** The list names what is kept. *)
Lemma listed_lookup kept name location :
  (forall k k', k ∈ kept -> k' ∈ kept -> kp_name k = kp_name k' -> kp_location k = kp_location k') ->
  listed kept !! name = Some location <-> exists k, k ∈ kept /\ kp_name k = name /\ kp_location k = location.
Proof.
  intros Hu. unfold listed.
  assert (Hgen : forall l m, (forall k, k ∈ l -> k ∈ kept) ->
    (forall n x, m !! n = Some x -> exists k, k ∈ kept /\ kp_name k = n /\ kp_location k = x) ->
    fold_left (fun m k => <[kp_name k := kp_location k]> m) l m !! name = Some location <->
    m !! name = Some location \/ exists k, k ∈ l /\ kp_name k = name /\ kp_location k = location).
  { induction l as [|k l IH]; intros m Hl Hm; cbn [fold_left].
    - split; [by left|]. intros [?|(k & Hk & _)]; [done|by apply not_elem_of_nil in Hk].
    - rewrite IH; [| |].
      + rewrite lookup_insert_Some. setoid_rewrite elem_of_cons. split.
        * intros [[[Hn Hx]|[_ Hx]]|(k' & Hk' & Hx)]; [right; eauto|by left|right; eauto].
        * intros [Hx|(k' & [->|Hk'] & Hn & Hx)]; [|auto|right; eauto].
          left. destruct (decide (kp_name k = name)) as [Hn|Hn]; [left|by right]. split; [done|].
          destruct (Hm _ _ Hx) as (k' & Hk' & Hn' & <-). apply Hu; [apply Hl; by left|done|congruence].
      + intros k' Hk'. apply Hl. by right.
      + intros n x. rewrite lookup_insert_Some. intros [[<- <-]|[_ Hx]]; [|by apply Hm].
        exists k. split; [apply Hl; by left|done]. }
  rewrite Hgen; [|done|by intros n x]. split; [intros [?|?]; [done|done]|by right].
Qed.

Lemma reclaimed_names_ok m location names w w' gone :
  reclaimed_names m location names w = (w', Ok gone) ->
  Forall (fun p => exists n, n ∈ names /\ p = record_dir location ++ [n]) gone.
Proof.
  revert w w' gone. induction names as [|n names IH]; intros w w' gone; cbn [reclaimed_names].
  - intros [= _ <-]. constructor.
  - intros Hr. peel Hr w1 b Hb. peel Hr w2 more Hm. injection Hr as _ <-. apply IH in Hm.
    assert (Hm' : Forall (fun p => exists n0, n0 ∈ n :: names /\ p = record_dir location ++ [n0]) more).
    { eapply Forall_impl; [exact Hm|]. intros p (x & Hx & ->). exists x. rewrite elem_of_cons. auto. }
    destruct b; [|done]. constructor; [|done]. exists n. split; [by left|done].
Qed.

Lemma reclaimed_ok m w w' gone :
  reclaimed m w = (w', Ok gone) ->
  Forall (fun p => is_file (w_tree w !! p) = true /\ exists location n, is_credential_file_name n = true /\
    p = record_dir location ++ [n]) gone.
Proof.
  assert (Hin : forall location v v' g, reclaimed_in m location v = (v', Ok g) ->
    Forall (fun p => is_file (w_tree v !! p) = true /\ exists location n, is_credential_file_name n = true /\
      p = record_dir location ++ [n]) g).
  { intros location v v' g Hr. unfold reclaimed_in in Hr. peel Hr v1 names Hn. apply record_files_ok in Hn.
    apply reclaimed_names_ok in Hr. rewrite Forall_forall in Hn. eapply Forall_impl; [exact Hr|].
    intros p (n & Hn' & ->). destruct (Hn n Hn') as [Hf Hs]. split; [done|]. eauto. }
  intros Hr. unfold reclaimed in Hr. peel Hr w1 g1 H1'. peel Hr w2 g2 H2'. injection Hr as _ <-.
  assert (Ht : w_tree w1 = w_tree w).
  { eapply (ro_bind _ _ (ro_record_files _)); [|exact H1']. intros; apply ro_reclaimed_names. }
  apply Hin in H1', H2'. rewrite Ht in H2'. apply Forall_app. by split.
Qed.

End Found.

(** ** The quarantine *)

Section Quarantine.

Implicit Types (t : Tree) (w : World) (p q dir : Path) (moved : list Path).

Definition quarantined (p : Path) : Prop :=
  match p with x :: _ => x = QUARANTINE_DIR | [] => False end.

(** Only entries that are not files leave their place. *)
Definition leaves (t : Tree) (p q : Path) : bool := is_some (strip q p) && negb (is_file (t !! q)).

Definition taken (moved : list Path) (t : Tree) (p : Path) : Prop :=
  quarantined p \/ existsb (leaves t p) moved = true.

Lemma quarantined_app q p : quarantined q -> quarantined (q ++ p).
Proof. by destruct q. Qed.

Lemma frame_create_dir (P : Path -> Prop) dir : P dir -> Frame P (create_private_dir dir).
Proof.
  intros Hd w w' r. unfold create_private_dir. destruct (sys_mkdir dir DIR_MODE w) as [w1 r1] eqn:E1.
  pose proof (frame_make P dir (Directory DIR_MODE) (or_introl Hd) _ _ _ E1) as Hk.
  destruct r1 as [u|[k|]]; [|destruct k|]; try (by intros [= <- _]).
  intros Hr. eapply keeps_trans; [exact Hk|]. revert Hr.
  apply frame_bind; [|intros; apply frame_ret]. destruct dir; [|apply frame_sync].
  apply frame_bind; intros; apply frame_touch.
Qed.

Lemma frame_attempts n attempt parent stamp : quarantined parent ->
  Frame quarantined (quarantine_attempts n attempt parent stamp).
Proof.
  intros Hp. revert attempt. induction n as [|n IH]; intros attempt; cbn [quarantine_attempts]; [apply frame_fail|].
  apply frame_bind; [apply frame_io, frame_create_dir; by apply quarantined_app|].
  intros []; [apply frame_ret|apply IH].
Qed.

Lemma attempts_ok n attempt parent stamp w w' q : quarantined parent ->
  quarantine_attempts n attempt parent stamp w = (w', Ok q) -> quarantined q.
Proof.
  intros Hp. revert attempt w. induction n as [|n IH]; intros attempt w; cbn [quarantine_attempts]; [done|].
  intros Hr. peel Hr w1 b Hb. destruct b; [injection Hr as _ <-; by apply quarantined_app|by eapply IH].
Qed.

Lemma frame_ensure_dirs q components : quarantined q -> Frame quarantined (ensure_dirs q components).
Proof.
  revert q. induction components as [|c rest IH]; intros q Hq; cbn [ensure_dirs]; [apply frame_ret|].
  apply frame_bind; [apply frame_io, frame_ensure; by apply quarantined_app|].
  intros _. apply IH. by apply quarantined_app.
Qed.

(** One entry: a file gains a name, anything else moves. *)
Lemma entry_spec from to w w' r :
  quarantined to -> ~ quarantined from -> temp_path from = false -> from <> [] ->
  quarantine_entry from to w = (w', r) ->
  keeps (fun p => quarantined p \/ (is_file (w_tree w !! from) = false /\ exists rest, p = from ++ rest))
    (w_tree w) (w_tree w').
Proof.
  intros Hto Hfrom Htemp Hne. unfold quarantine_entry. unfold mbind_st.
  destruct (sys_metadata from w) as [w1 [n|e]] eqn:E1; [|intros [= <- _]];
    apply sys_read_spec in E1 as [Ht Hn]; [|rewrite Ht; apply keeps_refl].
  assert (Hfile : is_file (Some n) = is_file (w_tree w !! from)).
  { destruct Hn as [Hn|[k [=]]]. destruct (w_tree w !! from); [by injection Hn as ->|done]. }
  rewrite Hfile, <- Ht. destruct (is_file (w_tree w1 !! from)).
  - apply frame_sys_write. intros t t' Hact. cbv beta in Hact. destruct (t !! from) as [[mo c|mo]|]; [|discriminate|discriminate].
    apply make_entry_ok in Hact as [_ ->]. apply keeps_insert. auto.
  - apply frame_move; [|done|eauto|intros rest; left; by apply quarantined_app].
    destruct from as [|x from], to as [|y to]; [done..|]. intros rest. simpl in *. subst y.
    rewrite !bool_decide_eq_false_2; [done|congruence..].
Qed.

Lemma move_all_spec q all t0 moved w w' r :
  quarantined q -> (forall p, p ∈ all -> ~ quarantined p /\ temp_path p = false /\ p <> []) ->
  (forall p, p ∈ moved -> p ∈ all) -> keeps (taken all t0) t0 (w_tree w) ->
  move_all q moved w = (w', r) -> keeps (taken all t0) t0 (w_tree w').
Proof.
  intros Hq Hall. revert w w' r. induction moved as [|p moved IH]; intros w w' r Hin Hk; cbn [move_all].
  { by intros [= <- _]. }
  assert (Hp : p ∈ all) by (apply Hin; by left). destruct (Hall p Hp) as (Hnq & Htemp & Hne).
  unfold mbind_st at 1. destruct (ensure_dirs _ _ w) as [w1 r1] eqn:E1.
  apply (frame_ensure_dirs _ _ Hq) in E1.
  assert (Hk1 : keeps (taken all t0) t0 (w_tree w1)).
  { eapply keeps_trans; [exact Hk|]. eapply keeps_mono; [|exact E1]. by left. }
  destruct r1 as [dir|e]; [|by intros [= <- _]]. unfold mbind_st at 1.
  destruct (io _ w1) as [w2 r2] eqn:E2. apply io_cases in E2 as (r2' & E2 & _).
  apply entry_spec in E2; [|by apply quarantined_app|done..].
  assert (Hk2 : keeps (taken all t0) t0 (w_tree w2)).
  { eapply keeps_trans; [exact Hk1|]. eapply keeps_mono; [|exact E2].
    intros x [Hx|[Hf (rest & ->)]]; [by left|].
    destruct (existsb (leaves t0 p) all) eqn:El.
    - right. apply existsb_exists in El as (y & Hy & Hl). apply existsb_exists. exists y. split; [done|].
      unfold leaves in *. apply andb_true_iff in Hl as [Hs Hl]. rewrite Hl, andb_true_r. destruct (strip y p) as [z|] eqn:Es; [|done].
      apply strip_some in Es as ->. by rewrite <- app_assoc, strip_app.
    - assert (Hsame : w_tree w1 !! p = t0 !! p) by (apply Hk1; [intros [?|?]; congruence|done]).
      right. apply existsb_exists. exists p. split; [by apply list_elem_of_In|].
      unfold leaves. by rewrite strip_app, <- Hsame, Hf. }
  destruct r2 as [u|e]; [|by intros [= <- _]]. unfold mbind_st.
  destruct (move_all q moved w2) as [w3 r3] eqn:E3. apply IH in E3; [|intros; apply Hin; by right|done].
  destruct r3; by intros [= <- _].
Qed.

Lemma ro_sync_all dirs : ReadOnly (sync_all dirs).
Proof.
  induction dirs as [|dir dirs IH]; cbn [sync_all]; [apply ro_ret|]. apply ro_bind; [|intros; apply IH].
  apply ro_io. unfold sync_dir_strict, sys_touch, sys_open. ro_solve.
Qed.

Lemma quarantine_spec moved now w w' r :
  (forall p, p ∈ moved -> ~ quarantined p /\ temp_path p = false /\ p <> []) ->
  quarantine moved now w = (w', r) -> keeps (taken moved (w_tree w)) (w_tree w) (w_tree w').
Proof.
  intros Hm. unfold quarantine. unfold mbind_st at 1. destruct (io _ w) as [w1 r1] eqn:E1.
  apply (frame_io quarantined _ (frame_ensure quarantined [QUARANTINE_DIR] eq_refl)) in E1.
  apply (keeps_mono _ (taken moved (w_tree w))) in E1; [|by left].
  destruct r1 as [u|e]; [|by intros [= <- _]]. unfold mbind_st at 1.
  destruct (new_quarantine _ _ w1) as [w2 r2] eqn:E2. unfold new_quarantine in E2.
  pose proof (frame_attempts _ _ [QUARANTINE_DIR] _ eq_refl _ _ _ E2) as Hk2.
  apply (keeps_mono _ (taken moved (w_tree w))) in Hk2; [|by left].
  pose proof (keeps_trans _ _ _ _ E1 Hk2) as Hk. destruct r2 as [q|e]; [|by intros [= <- _]].
  apply attempts_ok in E2; [|done]. unfold mbind_st at 1. destruct (move_all q moved w2) as [w3 r3] eqn:E3.
  eapply move_all_spec in E3; [|done|done|done|exact Hk]. destruct r3 as [held|e]; [|by intros [= <- _]].
  intros Hr. assert (Ht : w_tree w' = w_tree w3); [|by rewrite Ht].
  revert Hr. apply ro_bind; [apply ro_sync_all|intros; apply ro_ret].
Qed.

End Quarantine.

(** ** Plans *)

Section Plans.

Context `{Crypto} `{Ciborium} `{RecordReader}.

Implicit Types (keys : CredentialKeys) (t : Tree) (w : World) (p q : Path) (moved : list Path).

(** What a plan moves: the marker, and entries of the two namespaces and of
    their record directories. *)
Definition movable (p : Path) : Prop :=
  temp_path p = false /\
  (p = [FORMAT_FILE] \/
   exists d n, (d = CREDENTIALS_DIR \/ d = MANAGED_DIR) /\
     ((p = [d; n] /\ n <> RECORDS_DIR) \/ p = [d; RECORDS_DIR; n])).

Lemma record_name_apart n : is_credential_file_name n = true -> n <> RECORDS_DIR /\ n <> ACTIVE_FILE.
Proof. intros Hn. split; intros ->; vm_compute in Hn; discriminate Hn. Qed.

Lemma movable_record location n : is_credential_file_name n = true -> movable (record_dir location ++ [n]).
Proof.
  intros Hn. split; [rewrite temp_path_snoc; by apply file_name_shape_not_temp|]. right.
  exists MANAGED_DIR, n. split; [by right|]. destruct location; [left|by right].
  split; [done|by apply record_name_apart].
Qed.

Lemma movable_legacy n : is_credential_file_name n = true -> movable [CREDENTIALS_DIR; n].
Proof.
  intros Hn. split.
  - change [CREDENTIALS_DIR; n] with ([CREDENTIALS_DIR] ++ [n]). rewrite temp_path_snoc. by apply file_name_shape_not_temp.
  - right. exists CREDENTIALS_DIR, n. split; [by left|]. left. split; [done|by apply record_name_apart].
Qed.

Lemma movable_active d : d = CREDENTIALS_DIR \/ d = MANAGED_DIR -> movable [d; ACTIVE_FILE].
Proof.
  intros Hd. split; [done|]. right. exists d, ACTIVE_FILE. split; [done|]. left. split; [done|]. by vm_compute.
Qed.

Lemma movable_in_set p : movable p -> in_set p /\ ~ quarantined p /\ p <> [].
Proof.
  intros [_ [->|(d & n & [->| ->] & [[-> _]| ->])]]; (split; [simpl; auto|]; split; [|done]); simpl; path_neq.
Qed.

(** No entry a plan moves is above another. *)
Lemma movable_apart p q rest : movable q -> p = q ++ rest ->
  movable p \/ (length p <= 1)%nat -> q = p.
Proof.
  intros [_ Hq] -> Hp.
  assert (Hf : forall d, d = CREDENTIALS_DIR \/ d = MANAGED_DIR -> d <> FORMAT_FILE) by (intros d [->| ->]; path_neq).
  destruct rest as [|x rest]; [by rewrite app_nil_r|]. exfalso.
  destruct Hp as [[_ Hp]|Hp].
  - destruct Hq as [->|(d & n & Hd & [[-> Hn]| ->])], Hp as [Hp|(d' & n' & Hd' & [[Hp Hn']|Hp])]; simpl in Hp; try done;
      injection Hp; intros; subst; try done; by eapply Hf.
  - rewrite length_app in Hp. simpl in Hp. assert (Hl : (length q = 0)%nat) by lia.
    destruct q; [|done]. destruct Hq as [?|(d & n & _ & [[? _]|?])]; done.
Qed.

Lemma not_taken moved t p :
  (forall q, q ∈ moved -> movable q) -> ~ quarantined p -> movable p \/ (length p <= 1)%nat ->
  (p ∈ moved -> is_file (t !! p) = true) -> ~ taken moved t p.
Proof.
  intros Hm Hq Hp Hf [?|Hl]; [done|]. apply existsb_exists in Hl as (q & Hin & Hl). apply list_elem_of_In in Hin.
  unfold leaves in Hl. destruct (strip q p) as [rest|] eqn:Es; [|done]. apply strip_some in Es.
  apply movable_apart in Es; [|by apply Hm|done]. subst q. by rewrite Hf in Hl.
Qed.

(** What the marker's state adds to a plan. *)
Lemma mark_fields damaged reported plan :
  rp_membership (plan_mark damaged reported plan) = rp_membership plan /\
  rp_publication (plan_mark damaged reported plan) = rp_publication plan /\
  rp_marker (plan_mark damaged reported plan) = match damaged with None => rp_marker plan | Some _ => true end /\
  (forall p, p ∈ rp_moved (plan_mark damaged reported plan) -> p ∈ rp_moved plan \/ p = [FORMAT_FILE]).
Proof.
  destruct damaged as [d|]; cbn [plan_mark rp_membership rp_publication rp_marker rp_moved]; [|by auto].
  repeat (split; [done|]). intros p. case_bool_decide; [by left|]. rewrite elem_of_app, list_elem_of_singleton. auto.
Qed.

Definition format_view keys t : option unit :=
  object_view (ck_record keys) RCredentialFormat [FORMAT_FILE] check_format t.

Definition list_view keys t : option (gmap (list Z) Location) :=
  object_view (ck_record keys) RCredentialSet ACTIVE_PATH decode_manifest t.

Lemma marker_read keys w w' o :
  err_of (format_marker keys) w = (w', Ok o) ->
  w_tree w' = w_tree w /\ (o = None -> format_view keys (w_tree w) = Some tt).
Proof.
  intros Hr. split; [by apply (ro_err_of _ (ro_format_marker keys)) in Hr|]. intros ->. revert Hr.
  unfold err_of. destruct (format_marker keys w) as [w1 [[]|d]] eqn:E1; [|done]. intros _.
  by apply object_or_damage_ok in E1 as [_ ?].
Qed.

(** A list that names what is kept in [dir]. *)
Definition names_kept keys t (dir : Location -> Path) (member : bytes -> Location -> Prop)
    (l : gmap (list Z) Location) : Prop :=
  forall name location, l !! name = Some location <->
    member name location /\ is_Some (record_view keys t (dir location) location name).

Lemma listed_names keys t dir (members : list (bytes * Location)) (kept : list Kept) (member : bytes -> Location -> Prop) :
  (forall name location, (name, location) ∈ members <-> member name location) ->
  (forall name l l', member name l -> member name l' -> l = l') ->
  (forall k, k ∈ kept <-> exists name location r, (name, location) ∈ members /\
     record_view keys t (dir location) location name = Some r /\ k = kept_of r name location) ->
  names_kept keys t dir member (listed kept).
Proof.
  intros Hm Hu Hk name location. rewrite listed_lookup.
  - setoid_rewrite Hk. setoid_rewrite Hm. split.
    + intros (k & (n & l & r & Hin & Hv & ->) & <- & <-). split; [done|by exists r].
    + intros [Hin [r Hv]]. exists (kept_of r name location). split; [eauto 8|done].
  - intros k k' (n & l & r & Hin & _ & ->)%Hk (n' & l' & r' & Hin' & _ & ->)%Hk. simpl. intros ->.
    apply Hm in Hin, Hin'. by eapply Hu.
Qed.

(** What a plan for the store [t] says, before the marker is looked at. *)
Definition planned keys t (plan : RepairPlan) : Prop :=
  match rp_membership plan with
  | MKept => is_some (t !! [MANAGED_DIR]) = true /\ exists m, list_view keys t = Some m /\
      (rp_publication plan = PNothing \/ exists l, rp_publication plan = PManifest l /\
         names_kept keys t record_dir (fun name location => m !! name = Some location) l)
  | MListed => t !! [MANAGED_DIR] = None /\ is_some (t !! [CREDENTIALS_DIR]) = true /\
      exists l, rp_publication plan = PMigration l /\
        names_kept keys t (fun _ => [CREDENTIALS_DIR])
          (fun name location => location = Legacy /\ is_credential_file_name name = true) l
  | MRebuilt => is_some (t !! [MANAGED_DIR]) = true /\ exists l, rp_publication plan = PManifest l
  | MCreated _ => t !! [MANAGED_DIR] = None /\ t !! [CREDENTIALS_DIR] = None /\
      (rp_publication plan = PNamespace \/ (rp_publication plan = PLegacyDirectory /\ rp_marker plan = false))
  end.

(** Everything moved can be, and which of it may not be a file. *)
Definition moves t (plan : RepairPlan) : Prop :=
  forall p, p ∈ rp_moved plan -> movable p /\
    (is_file (t !! p) = true \/ p = [FORMAT_FILE] \/
     match rp_membership plan with
     | MListed => p = [CREDENTIALS_DIR; ACTIVE_FILE]
     | MRebuilt => p = ACTIVE_PATH
     | _ => False
     end).

Definition plan_for keys t (plan : RepairPlan) : Prop :=
  planned keys t plan /\ moves t plan /\
  (rp_marker plan = false -> format_view keys t = Some tt \/ rp_publication plan = PLegacyDirectory).

Lemma entries_member (m : gmap (list Z) Location) name location :
  (name, location) ∈ entries_in_order m <-> m !! name = Some location.
Proof. by rewrite entries_perm, elem_of_map_to_list. Qed.

Lemma list_view_file keys t m : list_view keys t = Some m -> is_file (t !! ACTIVE_PATH) = true.
Proof. unfold list_view, object_view. by destruct (t !! ACTIVE_PATH) as [[]|]. Qed.

Lemma reclaimed_movable m w w' gone :
  reclaimed m w = (w', Ok gone) ->
  forall p, p ∈ gone -> movable p /\ is_file (w_tree w !! p) = true.
Proof.
  intros Hg p Hp. apply reclaimed_ok in Hg. rewrite Forall_forall in Hg.
  destruct (Hg p Hp) as (Hf & location & n & Hn & ->). split; [by apply movable_record|done].
Qed.

Lemma kept_planned keys damage m w w' plan :
  is_some (w_tree w !! [MANAGED_DIR]) = true -> list_view keys (w_tree w) = Some m ->
  plan_kept keys damage m w = (w', Ok plan) ->
  rp_marker plan = false /\ rp_publication plan <> PLegacyDirectory /\
  planned keys (w_tree w) plan /\ moves (w_tree w) plan.
Proof.
  intros Hd Hm Hr. unfold plan_kept in Hr. peel Hr w1 found Hf. destruct found as [[kept damage'] bad].
  pose proof (ro_survey _ _ _ _ _ _ _ _ Hf) as Ht1. apply survey_ok in Hf as [Hk _].
  apply (listed_names keys _ record_dir _ _ (fun name location => m !! name = Some location)) in Hk;
    [|apply entries_member|congruence].
  case_bool_decide as Hl.
  - injection Hr as _ <-. split; [done|]. split; [done|]. split; [split; [done|]; exists m; split; [done|by left]|].
    by intros p ?%not_elem_of_nil.
  - peel Hr w2 gone Hg. injection Hr as _ <-. split; [done|]. split; [done|].
    split; [split; [done|]; exists m; split; [done|right; eauto]|].
    intros p [->|Hp]%elem_of_cons.
    + split; [apply movable_active; by right|]. left. by eapply list_view_file.
    + apply (reclaimed_movable _ _ _ _ Hg) in Hp as [Hp1 Hp2]. rewrite Ht1 in Hp2. auto.
Qed.

Lemma rebuild_planned keys damage lost w w' plan :
  is_some (w_tree w !! [MANAGED_DIR]) = true ->
  plan_rebuild keys damage lost w = (w', Ok plan) ->
  rp_marker plan = false /\ rp_publication plan <> PLegacyDirectory /\
  planned keys (w_tree w) plan /\ moves (w_tree w) plan.
Proof.
  intros Hd Hr. unfold plan_rebuild in Hr. peel Hr w1 legacy H1'. peel Hr w2 one H2'.
  destruct one as [[found1 damage1] bad1]. peel Hr w3 managed H3'. peel Hr w4 two H4'.
  destruct two as [[found2 damage2] bad2]. peel_lift Hr enc He. peel Hr w5 there Hth. peel Hr w6 gone Hg.
  injection Hr as _ <-.
  apply ro_record_files in H1', H3'. apply ro_survey in H2', H4'. apply ro_exists in Hth.
  split; [done|]. split; [done|]. split; [split; [done|]; eauto|]. intros p.
  cbn [plan_keep plan_move plan_new rp_moved]. rewrite app_nil_l, elem_of_app. intros [Hp|Hp].
  - destruct there; [|by apply not_elem_of_nil in Hp]. apply list_elem_of_singleton in Hp as ->.
    split; [apply movable_active; by right|]. right. by right.
  - apply (reclaimed_movable _ _ _ _ Hg) in Hp as [Hp1 Hp2].
    rewrite Hth, H4', H3', H2', H1' in Hp2. auto.
Qed.

Lemma legacy_member t (names : list bytes) :
  (forall n, n ∈ names <-> is_credential_file_name n = true /\ is_Some (t !! [CREDENTIALS_DIR; n])) ->
  forall name location, (name, location) ∈ legacy_members (merge_sort bytes_order names) <->
    location = Legacy /\ is_credential_file_name name = true /\ is_Some (t !! [CREDENTIALS_DIR; name]).
Proof.
  intros Hn name location. rewrite <- Hn. unfold legacy_members. rewrite list_elem_of_fmap. split.
  - intros (x & [= <- <-] & Hx). by rewrite merge_sort_Permutation in Hx.
  - intros [-> Hx]. exists name. by rewrite merge_sort_Permutation.
Qed.

(** What the upgrade of a legacy store moves away. *)
Lemma listing_moves t (bad : list Path) (there : bool) (staged : list bytes) :
  Forall (fun n => is_file (t !! ([CREDENTIALS_DIR; RECORDS_DIR] ++ [n])) = true /\ is_credential_file_name n = true) staged ->
  Forall (fun p => is_file (t !! p) = true /\
    exists n, is_credential_file_name n = true /\ p = [CREDENTIALS_DIR] ++ [n]) bad ->
  forall p, p ∈ bad ++ (if there then [[CREDENTIALS_DIR; ACTIVE_FILE]] else [])
       ++ map (fun name => [CREDENTIALS_DIR; RECORDS_DIR; name]) staged ->
  movable p /\ (is_file (t !! p) = true \/ p = [FORMAT_FILE] \/ p = [CREDENTIALS_DIR; ACTIVE_FILE]).
Proof.
  intros Hs Hb p. rewrite Forall_forall in Hs. rewrite Forall_forall in Hb. rewrite !elem_of_app. intros [Hp|[Hp|Hp]].
  - destruct (Hb p Hp) as (Hf & n & Hn & ->). split; [by apply movable_legacy|by left].
  - destruct there; [|by apply not_elem_of_nil in Hp]. apply list_elem_of_singleton in Hp as ->.
    split; [apply movable_active; by left|auto].
  - apply list_elem_of_fmap in Hp as (n & -> & Hin). destruct (Hs n Hin) as [Hf Hn]. split; [|by left]. split.
    + change [CREDENTIALS_DIR; RECORDS_DIR; n] with ([CREDENTIALS_DIR; RECORDS_DIR] ++ [n]).
      rewrite temp_path_snoc. by apply file_name_shape_not_temp.
    + right. exists CREDENTIALS_DIR, n. split; [by left|by right].
Qed.

Lemma listing_planned keys damage w w' plan :
  w_tree w !! [MANAGED_DIR] = None -> is_some (w_tree w !! [CREDENTIALS_DIR]) = true ->
  plan_listing keys damage w = (w', Ok plan) -> plan_for keys (w_tree w) plan.
Proof.
  intros Hm Hc Hr. unfold plan_listing in Hr. peel Hr w1 names Hn. peel Hr w2 found Hf.
  destruct found as [[kept damage'] bad]. peel Hr w3 there Hth. peel Hr w4 prepared Hst. peel Hr w5 marker Hmk.
  injection Hr as _ <-. pose proof (ro_credential_file_names _ _ _ Hn) as Ht1.
  pose proof (fun n => credential_file_names_ok _ _ _ n Hn Hc) as Hnames.
  pose proof (ro_survey _ _ _ _ _ _ _ _ Hf) as Ht2. apply survey_ok in Hf as [Hk Hb]. rewrite Ht1 in Ht2, Hk, Hb.
  apply ro_exists in Hth. rewrite Ht2 in Hth. pose proof (ro_record_files _ _ _ _ Hst) as Ht4.
  apply record_files_ok in Hst. rewrite Hth in Ht4, Hst. apply marker_read in Hmk as [_ Hmk]. rewrite Ht4 in Hmk.
  apply (listed_names keys _ (fun _ => [CREDENTIALS_DIR]) _ _ _ (legacy_member (w_tree w) names Hnames)) in Hk;
    [|by intros ? ? ? [-> _] [-> _]].
  match goal with |- plan_for _ _ (plan_mark _ _ ?p) => set (base := p) end.
  destruct (mark_fields marker false base) as (E1 & E2 & E3 & E4). split; [|split].
  - unfold planned. rewrite E1, E2. split; [done|]. split; [done|]. exists (listed kept). split; [done|].
    intros name location. rewrite (Hk name location). split; [by intros [(-> & ? & _) ?]|].
    intros [[-> Hs] Hv]. split; [|done]. split; [done|]. split; [done|].
    unfold record_view in Hv. destruct Hv as [r Hv]. simpl in Hv. by destruct (w_tree w !! [CREDENTIALS_DIR; name]).
  - intros p Hp. rewrite E1. apply E4 in Hp as [Hp| ->]; [|split; [by split; [|left]|by auto]].
    revert p Hp. apply listing_moves; [done|].
    eapply Forall_impl; [exact Hb|]. intros p (Hp & n & l & Hin & ->). split; [done|]. exists n.
    apply (legacy_member (w_tree w) names Hnames) in Hin as (_ & ? & _). done.
  - rewrite E3. destruct marker; [done|]. auto.
Qed.

(** Looking at the marker completes a plan. *)
Lemma marked keys t plan marker :
  planned keys t plan /\ moves t plan -> rp_marker plan = false -> rp_publication plan <> PLegacyDirectory ->
  (marker = None -> format_view keys t = Some tt) ->
  plan_for keys t (plan_mark marker true plan).
Proof.
  intros [Hp Hm] Hf Hl Hmk. destruct (mark_fields marker true plan) as (E1 & E2 & E3 & E4). split; [|split].
  - unfold planned in *. rewrite E1, E2, E3. destruct (rp_membership plan); try done.
    destruct Hp as (? & ? & [?|[? _]]); [by auto|done].
  - intros p. rewrite E1. intros [Hin| ->]%E4; [by apply Hm|]. split; [|by auto]. split; [done|by left].
  - rewrite E3. destruct marker; [done|]. auto.
Qed.

Lemma finished keys t max plan : plan_for keys t plan -> plan_for keys t (plan_finish max plan).
Proof.
  intros (Hp & Hm & Hk). split; [exact Hp|]. split; [|exact Hk]. intros p. cbn [plan_finish rp_moved rp_membership].
  rewrite merge_sort_Permutation. apply Hm.
Qed.

Lemma plan_with_for max keys damage w w' plan :
  plan_with max keys damage w = (w', Ok plan) -> plan_for keys (w_tree w) plan.
Proof.
  intros Hr. unfold plan_with in Hr. peel Hr w1 managed Hm. apply exists_ok in Hm as [Ht1 Hm].
  peel Hr w2 base Hb. injection Hr as _ <-. apply finished. destruct managed; cbn [negb] in Hb.
  - peel Hb w3 marker Hmk. apply marker_read in Hmk as [Ht3 Hmk]. rewrite Ht1 in Ht3, Hmk.
    peel Hb w4 plan Hp. injection Hb as _ <-.
    destruct (manifest keys w3) as [w5 [m|d]] eqn:E5; pose proof (ro_manifest _ _ _ _ E5) as Ht5; rewrite Ht3 in Ht5.
    + apply object_or_damage_ok in E5 as [_ E5]. rewrite Ht3 in E5. rewrite <- Ht5 in E5, Hm, Hmk |- *.
      apply kept_planned in Hp as (H1' & H2' & H3'); [|done|exact E5]. by apply marked.
    + rewrite <- Ht5 in Hm, Hmk |- *. apply rebuild_planned in Hp as (H1' & H2' & H3'); [|done]. by apply marked.
  - peel Hb w3 legacy Hl. apply exists_ok in Hl as [Ht3 Hl]. rewrite Ht1 in Ht3, Hl.
    assert (Hnone : w_tree w !! [MANAGED_DIR] = None) by (by destruct (w_tree w !! [MANAGED_DIR])).
    destruct legacy.
    + rewrite <- Ht3 in Hnone, Hl |- *. by apply listing_planned in Hb.
    + assert (Hnone' : w_tree w !! [CREDENTIALS_DIR] = None) by (by destruct (w_tree w !! [CREDENTIALS_DIR])).
      peel Hb w4 format Hf. apply ro_exists in Hf. rewrite Ht3 in Hf. destruct format.
      * peel Hb w5 marker Hmk. apply marker_read in Hmk as [_ Hmk]. rewrite Hf in Hmk. injection Hb as _ <-.
        apply marked; [|done|done|done]. split; [split; [done|]; split; [done|by left]|by intros p ?%not_elem_of_nil].
      * injection Hb as _ <-. split; [split; [done|]; split; [done|by right]|].
        split; [by intros p ?%not_elem_of_nil|]. intros _. by right.
Qed.

Lemma plan_repair_for max w w' plan :
  plan_repair max w = (w', Ok (Some plan)) ->
  exists root, key_view Credential (w_tree w) = Some root /\
    plan_for (derive_credential_keys root) (w_tree w) plan /\ plan_needed plan = true.
Proof.
  intros Hr. unfold plan_repair in Hr. peel Hr w1 damage Hd. apply ro_inspect in Hd.
  destruct (_ =? 0)%nat; [done|]. peel Hr w2 keys Hk. pose proof (ro_credential_keys _ _ _ Hk) as Ht2.
  unfold credential_keys in Hk. peel Hk w3 root Hroot. apply read_key_ok in Hroot as [_ Hroot].
  injection Hk as _ <-. destruct root as [root|]; [|done]. simpl in Hr. peel Hr w4 plan' Hp.
  apply plan_with_for in Hp. rewrite Ht2, Hd in Hp. rewrite Hd in Hroot.
  exists root. split; [done|]. injection Hr as _ Hr. destruct (plan_needed plan') eqn:En; [|done]. by injection Hr as <-.
Qed.

End Plans.
