(* ===== verification/RepairTheorems.v ===== *)
(** * Carrying out a repair ([store/repair.rs])

    What [repair] does to the store, whatever fails on the way: it keeps
    everything outside the credential set and its quarantine, it keeps every
    credential of a set whose list is intact, and when it succeeds the store
    can serve its set again. *)

From stdpp Require Import gmap strings sorting.
From S2P Require Import Prelude Constants Alg Crypto ConcreteCrypto Records Envelope Store StoreProofs Cbor ConcreteCbor Codec FileSystem Manifest StoreKeys FileStore FsProofs FileStoreProofs FileStoreLaws Scenario CodecProofs CredentialSet CredentialTransactions CredentialEffects FileClear FileStoreTheorems Repair RepairProofs.

#[local] Open Scope Z_scope.

Section Carried.

Context `{Crypto} `{Ciborium} `{RecordReader} `{!AeadLaws} `{!RecordReaderLaws}.

Implicit Types (keys : CredentialKeys) (t : Tree) (w : World) (p q : Path) (moved : list Path).
Implicit Types (m l : gmap (list Z) Location) (name : bytes) (plan : RepairPlan).

(** A member's path. *)
Lemma member_path keys t m name location :
  set_mode keys t = SManaged m -> m !! name = Some location ->
  movable (record_dir location ++ [name]) /\ temp_path (record_dir location ++ [name]) = false.
Proof.
  intros Hm Hl. pose proof (managed_names _ _ _ _ _ Hm Hl) as (b & -> & Hb).
  assert (Ht : temp_path (record_dir location ++ [hex b]) = false) by (rewrite temp_path_snoc; apply hex_not_temp).
  split; [|done]. split; [done|]. right. exists MANAGED_DIR, (hex b). split; [by right|].
  destruct location; [left|by right]. split; [done|]. intros He. pose proof (hex_length b) as Hl'.
  rewrite He, Hb in Hl'. done.
Qed.

(** What a step outside a managed set leaves. *)
Lemma managed_kept keys (P : Path -> Prop) t t' m :
  set_mode keys t = SManaged m -> keeps P t t' ->
  ~ P [MANAGED_DIR] -> ~ P [FORMAT_FILE] -> ~ P ACTIVE_PATH ->
  (forall name location, m !! name = Some location -> ~ P (record_dir location ++ [name])) ->
  set_mode keys t' = SManaged m /\ forall name, usable keys t' name = usable keys t name.
Proof.
  intros Hm Hk H1' H2' H3' H4'. apply usable_managed; [done|by apply Hk..|].
  intros name location Hl. apply Hk; [by apply H4'|]. by eapply member_path.
Qed.

Lemma managed_intro keys t m :
  is_some (t !! [MANAGED_DIR]) = true -> format_view keys t = Some tt -> list_view keys t = Some m ->
  set_mode keys t = SManaged m.
Proof. intros Hd Hf Hl. unfold set_mode. unfold format_view in Hf. unfold list_view in Hl. by rewrite Hd, Hf, Hl. Qed.

(** ** The marker *)

Lemma replace_marker_spec keys w w' r :
  replace_format_marker keys w = (w', r) ->
  match r with
  | Ok _ => keeps (eq [FORMAT_FILE]) (w_tree w) (w_tree w') /\ format_view keys (w_tree w') = Some tt
  | Err _ => keeps nothing (w_tree w) (w_tree w')
  end.
Proof.
  unfold replace_format_marker, seal_format. unfold mbind_st at 1.
  destruct (seal _ _ _ _ w) as [w1 [sealed|e]] eqn:E1.
  2: { apply ro_seal in E1. intros [= <- <-]. by rewrite E1. }
  apply seal_ok in E1 as [Ht Ho]. unfold mbind_st at 1. rewrite <- Ht.
  destruct (io (write_temp_file [] sealed) w1) as [w2 [temp|e]] eqn:E2.
  2: { intros [= <- <-]. by apply (frame_io nothing _ (frame_write_temp nothing [] sealed)) in E2. }
  pose proof (frame_io nothing _ (frame_write_temp nothing [] sealed) _ _ _ E2) as Hk2.
  apply write_temp_staged in E2 as [Htemp Hs]. unfold mbind_st.
  destruct (io (install temp [FORMAT_FILE]) w2) as [w3 r3] eqn:E3. apply io_cases in E3 as (r3' & E3 & ->).
  apply (install_spec temp [FORMAT_FILE] sealed) in E3; [|done..]. destruct r3' as [u|e]; cbn [map_err].
  2: { intros [= <- <-]. by eapply keeps_trans. }
  destruct E3 as [Hk3 Hf]. destruct (sync_dir_strict [] w3) as [w4 r4] eqn:E4.
  apply (frame_sync_strict nothing) in E4. intros Hr.
  assert (Hw : w' = w4 /\ is_ok r = true) by (destruct r4; by injection Hr as <- <-).
  destruct Hw as [-> Hok]. destruct r; [|done]. split.
  - eapply keeps_trans; [apply keeps_any, Hk2|]. eapply keeps_trans; [exact Hk3|by apply keeps_any].
  - eapply object_view_holds; [rewrite E4; [exact Hf|by intros []|done]|]. exists FORMAT. by split.
Qed.

(** The last step of a repair. *)
Definition marker_step (marker : bool) keys : M World bool StoreError :=
  if marker then let* d := replace_format_marker keys in ret (bool_decide (d = Unconfirmed)) else ret false.

Lemma marker_step_spec marker keys w w' r :
  marker_step marker keys w = (w', r) ->
  keeps (eq [FORMAT_FILE]) (w_tree w) (w_tree w') /\
  (format_view keys (w_tree w) = Some tt \/ (marker = true /\ is_ok r = true) ->
   format_view keys (w_tree w') = Some tt).
Proof.
  unfold marker_step. destruct marker; [|intros [= <- <-]; split; [done|intros [?|[? _]]; done]].
  unfold mbind_st. destruct (replace_format_marker keys w) as [w1 [d|e]] eqn:E1; apply replace_marker_spec in E1;
    intros [= <- <-]; [by destruct E1|].
  split; [by apply keeps_any|]. intros [Hf|[_ ?]]; [|done]. rewrite <- Hf. apply object_view_same, E1; [by intros []|done].
Qed.

(** ** The quarantine *)

Definition quarantine_step (moved : list Path) (now : Z) : M World (option Path) StoreError :=
  if (length moved =? 0)%nat then ret None else let* q := quarantine moved now in ret (Some q).

Lemma quarantine_step_spec moved now w w' r :
  (forall p, p ∈ moved -> movable p) -> quarantine_step moved now w = (w', r) ->
  keeps (taken moved (w_tree w)) (w_tree w) (w_tree w').
Proof.
  intros Hm. unfold quarantine_step. destruct (_ =? 0)%nat; [by intros [= <- _]|].
  unfold mbind_st. destruct (quarantine moved now w) as [w1 [q|e]] eqn:E1; apply quarantine_spec in E1;
    try (by intros [= <- _]); intros p Hp; apply Hm in Hp as Hv;
    (split; [by apply movable_in_set|]; split; [apply Hv|by apply movable_in_set]).
Qed.

(** What it leaves of the store [t] that [plan] is for. *)
Definition set_aside keys t plan t' : Prop :=
  t' !! [MANAGED_DIR] = t !! [MANAGED_DIR] /\ t' !! [CREDENTIALS_DIR] = t !! [CREDENTIALS_DIR] /\
  (format_view keys t = Some tt -> t' !! [FORMAT_FILE] = t !! [FORMAT_FILE]) /\
  (rp_membership plan = MKept -> t' !! ACTIVE_PATH = t !! ACTIVE_PATH) /\
  (forall location name, movable (record_dir location ++ [name]) -> name <> ACTIVE_FILE ->
     t' !! (record_dir location ++ [name]) = t !! (record_dir location ++ [name])) /\
  (forall name, is_credential_file_name name = true ->
     t' !! [CREDENTIALS_DIR; name] = t !! [CREDENTIALS_DIR; name]).

Lemma moved_file t plan p :
  moves t plan -> p ∈ rp_moved plan -> p <> [FORMAT_FILE] -> p <> [CREDENTIALS_DIR; ACTIVE_FILE] ->
  (rp_membership plan = MKept \/ p <> ACTIVE_PATH) -> is_file (t !! p) = true.
Proof.
  intros Hm Hp H1' H2' H3'. destruct (Hm p Hp) as [_ [?|[?|Hx]]]; [done|done|].
  destruct (rp_membership plan); try done. by destruct H3'.
Qed.

Lemma namespace_not_taken t plan d :
  moves t plan -> d = MANAGED_DIR \/ d = CREDENTIALS_DIR -> ~ taken (rp_moved plan) t [d].
Proof.
  intros Hm Hd. apply not_taken; [intros q Hq; by apply Hm| |right; simpl; lia|].
  - destruct Hd as [->| ->]; simpl; path_neq.
  - intros Hin. exfalso. destruct (Hm _ Hin) as [[_ [Hf|(d' & n & _ & [[Hf _]|Hf])]] _]; [|done|done].
    destruct Hd as [->| ->]; revert Hf; path_neq.
Qed.

Lemma quarantine_sets_aside keys plan now w w' r :
  moves (w_tree w) plan -> quarantine_step (rp_moved plan) now w = (w', r) ->
  set_aside keys (w_tree w) plan (w_tree w').
Proof.
  intros Hm Hr. assert (Hmv : forall p, p ∈ rp_moved plan -> movable p) by (intros p Hp; by apply Hm).
  apply (quarantine_step_spec _ _ _ _ _ Hmv) in Hr.
  assert (Hsame : forall p, movable p -> (p ∈ rp_moved plan -> is_file (w_tree w !! p) = true) ->
    w_tree w' !! p = w_tree w !! p).
  { intros p Hp Hf. apply Hr; [|apply Hp]. apply not_taken; [done|by apply movable_in_set|by left|done]. }
  split; [|split; [|split; [|split; [|split]]]].
  - apply Hr; [apply namespace_not_taken; auto|done].
  - apply Hr; [apply namespace_not_taken; auto|done].
  - intros Hf. apply Hsame; [by split; [|left]|]. intros _. unfold format_view, object_view in Hf.
    by destruct (w_tree w !! [FORMAT_FILE]) as [[]|].
  - intros Hk. apply Hsame; [apply movable_active; by right|]. intros Hin.
    eapply moved_file; [done|done|path_neq|path_neq|by left].
  - intros location name Hp Hn. apply Hsame; [done|]. intros Hin. eapply moved_file; [done|done| | |right];
      destruct location; try done; simpl; unfold ACTIVE_PATH; congruence.
  - intros name Hn. apply Hsame; [by apply movable_legacy|]. intros Hin.
    eapply moved_file; [done|done|done| |right; done].
    intros He. injection He as He. by apply record_name_apart in Hn as [_ ?].
Qed.

(** ** The publication *)

Definition records_path : Path := [MANAGED_DIR; RECORDS_DIR].

Lemma ensure_records_keeps dir w w' r :
  io (ensure_private_dir dir) w = (w', r) -> keeps (eq dir) (w_tree w) (w_tree w').
Proof. apply frame_io. by apply frame_ensure. Qed.

Lemma member_not_records keys t m name location :
  set_mode keys t = SManaged m -> m !! name = Some location -> records_path <> record_dir location ++ [name].
Proof.
  intros Hm Hl He. destruct (member_path _ _ _ _ _ Hm Hl) as [[_ [Hp|(d & n & _ & [[Hp Hn]|Hp])]] _];
    rewrite <- He in Hp; [done| |done]. injection Hp as _ Hp. by destruct Hn.
Qed.

Definition publish_list keys l (marker : bool) : M World (CredentialCommit * bool) StoreError :=
  io (ensure_private_dir (record_dir Managed));;*
  let* commit := publish_manifest keys l in ret (commit, marker).

(** An intact set, listed without the members that cannot be read. *)
Lemma kept_published keys m l marker w w' r :
  set_mode keys (w_tree w) = SManaged m ->
  names_kept keys (w_tree w) record_dir (fun name location => m !! name = Some location) l ->
  publish_list keys l marker w = (w', r) ->
  (exists m', set_mode keys (w_tree w') = SManaged m') /\
  forall name, usable keys (w_tree w') name = usable keys (w_tree w) name.
Proof.
  intros Hm Hl. unfold publish_list. unfold mbind_st at 1.
  destruct (io _ w) as [w1 r1] eqn:E1. apply ensure_records_keeps in E1.
  destruct (managed_kept keys _ _ _ m Hm E1) as [Hm1 Hu1]; [path_neq..| |].
  { intros name location Hx. by eapply member_not_records. }
  destruct r1 as [u|e]; [|intros [= <- _]; eauto]. unfold mbind_st.
  destruct (publish_manifest keys l w1) as [w2 [commit|e]] eqn:E2; intros [= <- _].
  - pose proof (managed_mode _ _ _ Hm1) as [Hd1 Hf1]. split.
    + exists l. pose proof (publish_spec _ _ _ _ _ E2) as [Hk2 Hv2]. apply managed_intro; [|rewrite <- Hf1|done].
      * rewrite Hk2; [done|intros [?|Hx]; [path_neq|revert Hx; apply not_retired; auto]|done].
      * apply object_view_same, Hk2; [intros [?|Hx]; [path_neq|revert Hx; apply not_retired; auto]|done].
    + intros name. rewrite (publish_usable keys l w1 w2 commit E2 Hd1 Hf1), <- Hu1. unfold usable. rewrite Hm1.
      assert (Hv : forall location, m !! name = Some location ->
        record_view keys (w_tree w1) (record_dir location) location name =
        record_view keys (w_tree w) (record_dir location) location name).
      { intros location Hx. apply record_view_same, E1; [by eapply member_not_records|].
        by eapply member_path. }
      destruct (l !! name) as [location|] eqn:El.
      * apply Hl in El as [-> _]. done.
      * destruct (m !! name) as [location|] eqn:Em; [|done]. rewrite Hv by done.
        destruct (record_view keys (w_tree w) _ location name) eqn:Er; [|done].
        assert (Hs : l !! name = Some location) by (apply Hl; eauto). congruence.
  - apply publish_spec in E2. destruct (managed_kept keys _ _ _ m Hm1 E2) as [Hm2 Hu2]; [by intros []..| |].
    { by intros name location _ []. }
    split; [eauto|]. intros name. by rewrite Hu2.
Qed.

(** A published list is in force. *)
Lemma list_published keys l marker w w' commit :
  is_some (w_tree w !! [MANAGED_DIR]) = true -> publish_list keys l marker w = (w', Ok commit) ->
  is_some (w_tree w' !! [MANAGED_DIR]) = true /\ list_view keys (w_tree w') = Some l /\
  w_tree w' !! [FORMAT_FILE] = w_tree w !! [FORMAT_FILE] /\ snd commit = marker.
Proof.
  intros Hd Hr. unfold publish_list in Hr. peel Hr w1 u Hu. apply ensure_records_keeps in Hu.
  peel Hr w2 c Hc. injection Hr as <- <-. apply publish_spec in Hc as [Hk Hv].
  assert (Hn : forall p, (length p <= 1)%nat -> temp_path p = false -> w_tree w2 !! p = w_tree w1 !! p).
  { intros p Hp Ht. apply Hk; [|done]. intros [->|Hx]; [simpl in Hp; lia|]. revert Hx. apply not_retired. by left. }
  rewrite !Hn by (done || simpl; lia). rewrite !Hu; [by auto|path_neq|done|path_neq|done].
Qed.

Definition publish_listing keys l (marker : bool) : M World (CredentialCommit * bool) StoreError :=
  (if marker then write_format_marker keys else ret tt);;*
  io (ensure_private_dir [CREDENTIALS_DIR; RECORDS_DIR]);;*
  let* commit := publish_migration keys l in ret (commit, false).

Lemma legacy_name_apart name : is_credential_file_name name = true ->
  [CREDENTIALS_DIR; RECORDS_DIR] <> [CREDENTIALS_DIR; name] /\ [CREDENTIALS_DIR; ACTIVE_FILE] <> [CREDENTIALS_DIR; name].
Proof. intros [H1' H2']%record_name_apart. split; congruence. Qed.

Lemma legacy_record_kept keys (P : Path -> Prop) t t' name :
  keeps P t t' -> is_credential_file_name name = true -> ~ P [CREDENTIALS_DIR; name] ->
  record_view keys t' [CREDENTIALS_DIR] Legacy name = record_view keys t [CREDENTIALS_DIR] Legacy name.
Proof.
  intros Hk Hn Hp. apply record_view_same, Hk; [done|]. rewrite temp_path_snoc. by apply file_name_shape_not_temp.
Qed.

(** A legacy set, moved to the managed layout without the records that cannot
    be read. *)
Lemma legacy_published keys l marker w w' r :
  set_mode keys (w_tree w) = SLegacy -> (marker = false -> format_view keys (w_tree w) = Some tt) ->
  names_kept keys (w_tree w) (fun _ => [CREDENTIALS_DIR])
    (fun name location => location = Legacy /\ is_credential_file_name name = true) l ->
  publish_listing keys l marker w = (w', r) ->
  set_mode keys (w_tree w') <> SUnavailable /\
  (forall name, usable keys (w_tree w') name = usable keys (w_tree w) name) /\
  (forall c, r = Ok c -> snd c = false).
Proof.
  intros Hm Hf Hl. unfold publish_listing. unfold mbind_st at 1.
  destruct ((if marker then write_format_marker keys else ret tt) w) as [w1 r1] eqn:E1.
  assert (Hk1 : keeps (eq [FORMAT_FILE]) (w_tree w) (w_tree w1) /\ (r1 = Ok tt -> format_view keys (w_tree w1) = Some tt)).
  { destruct marker; [by apply format_spec in E1|]. injection E1 as <- <-. split; [done|auto]. }
  clear E1. destruct Hk1 as [Hk1 Hf1].
  destruct (legacy_kept keys _ _ _ Hm Hk1) as [Hm1 Hu1]; [path_neq..|done|].
  destruct r1 as [[]|e]; [|intros [= <- <-]; by rewrite Hm1]. specialize (Hf1 eq_refl). unfold mbind_st at 1.
  destruct (io _ w1) as [w2 r2] eqn:E2. apply ensure_records_keeps in E2.
  destruct (legacy_kept keys _ _ _ Hm1 E2) as [Hm2 Hu2]; [path_neq..| |].
  { intros name Hn. by apply legacy_name_apart. }
  assert (Hu : forall name, usable keys (w_tree w2) name = usable keys (w_tree w) name) by (intros; by rewrite Hu2).
  destruct r2 as [u|e]; [|intros [= <- <-]; by rewrite Hm2]. unfold mbind_st.
  destruct (publish_migration keys l w2) as [w3 [commit|e]] eqn:E3; apply migration_spec in E3; intros [= <- <-].
  - destruct E3 as (t1 & Hk3 & (c & Hc & Hact) & Hdir & Hk4).
    assert (Hf3 : format_view keys t1 = Some tt).
    { rewrite <- Hf1. apply object_view_same. rewrite Hk3 by (done || path_neq). apply E2; [path_neq|done]. }
    split; [by rewrite (migrated_mode keys l t1 _ c)|]. split; [|by intros ? [= <-]]. intros name.
    rewrite (migrated_usable keys l t1 _ c); [|done..| |done].
    2: { intros n loc Hx. by apply Hl in Hx as [[_ ?] _]. }
    unfold usable. rewrite Hm. destruct (is_credential_file_name name) eqn:En.
    + assert (Hv : record_view keys t1 [CREDENTIALS_DIR] Legacy name = record_view keys (w_tree w) [CREDENTIALS_DIR] Legacy name).
      { rewrite (legacy_record_kept keys _ _ _ name Hk3 En) by (by apply legacy_name_apart).
        rewrite (legacy_record_kept keys _ _ _ name E2 En) by (by apply legacy_name_apart).
        by apply (legacy_record_kept keys _ _ _ name Hk1 En). }
      destruct (l !! name) as [location|] eqn:El.
      * apply Hl in El as [[-> _] _]. done.
      * destruct (record_view keys (w_tree w) _ Legacy name) eqn:Er; [|done].
        assert (Hs : l !! name = Some Legacy) by (apply Hl; eauto). congruence.
    + destruct (l !! name) as [location|] eqn:El; [|done]. apply Hl in El as [[_ ?] _]. congruence.
  - destruct (legacy_kept keys _ _ _ Hm2 E3) as [Hm3 Hu3]; [path_neq..| |].
    { intros name Hn. by apply legacy_name_apart. }
    rewrite Hm3. split; [done|]. split; [intros name; by rewrite Hu3|done].
Qed.

Lemma managed_list keys t m : set_mode keys t = SManaged m -> list_view keys t = Some m.
Proof.
  unfold set_mode, list_view. destruct (is_some _); [|by destruct (is_some _)].
  destruct (object_view _ _ [FORMAT_FILE] _ _); [|done]. destruct (object_view _ _ ACTIVE_PATH _ _); [|done].
  by intros [= ->].
Qed.

Lemma marker_step_usable marker keys m w w' r :
  set_mode keys (w_tree w) = SManaged m -> marker_step marker keys w = (w', r) ->
  set_mode keys (w_tree w') = SManaged m /\
  forall name, usable keys (w_tree w') name = usable keys (w_tree w) name.
Proof.
  intros Hm Hr. apply marker_step_spec in Hr as [Hk Hf]. destruct (managed_mode _ _ _ Hm) as [Hd Hfmt].
  assert (Hm' : set_mode keys (w_tree w') = SManaged m).
  { apply managed_intro; [|by auto|].
    - by rewrite Hk by (done || path_neq).
    - rewrite <- (managed_list _ _ _ Hm). apply object_view_same, Hk; [path_neq|done]. }
  split; [done|]. intros name. unfold usable. rewrite Hm, Hm'. destruct (m !! name) as [location|] eqn:El; [|done].
  apply record_view_same, Hk; [|by eapply member_path]. destruct location; done.
Qed.

(** ** The whole repair *)

(** Records are where they were, so the list still names what can be read. *)
Lemma names_kept_same keys t t' dir member l :
  names_kept keys t dir member l ->
  (forall name location, member name location -> t' !! (dir location ++ [name]) = t !! (dir location ++ [name])) ->
  names_kept keys t' dir member l.
Proof.
  intros Hl Hs name location. rewrite (Hl name location). split; intros [Hx Hv]; (split; [done|]);
    by rewrite ?(record_view_same keys t t') in * by (by apply Hs).
Qed.

Lemma kept_aside keys t plan t' m :
  set_aside keys t plan t' -> rp_membership plan = MKept -> set_mode keys t = SManaged m ->
  set_mode keys t' = SManaged m /\ (forall name, usable keys t' name = usable keys t name) /\
  forall name location, m !! name = Some location ->
    t' !! (record_dir location ++ [name]) = t !! (record_dir location ++ [name]).
Proof.
  intros (H1' & _ & H3' & H4' & H5' & _) Hk Hm. destruct (managed_mode _ _ _ Hm) as [Hd Hfmt].
  assert (Hr : forall name location, m !! name = Some location ->
    t' !! (record_dir location ++ [name]) = t !! (record_dir location ++ [name])).
  { intros name location Hx. apply H5'; [by eapply member_path|]. intros ->.
    by pose proof (name_ok_length _ (managed_names _ _ _ _ _ Hm Hx)). }
  destruct (usable_managed keys t t' m Hm) as [Hm' Hu]; auto.
Qed.

Lemma listed_mode keys t m :
  is_some (t !! [MANAGED_DIR]) = true -> list_view keys t = Some m -> set_mode keys t <> SUnavailable ->
  set_mode keys t = SManaged m.
Proof.
  unfold set_mode, list_view. intros -> ->. by destruct (object_view _ _ _ _ _).
Qed.

(** Nothing is published yet. *)
Lemma aside_preserves keys t plan t' :
  plan_for keys t plan -> set_mode keys t <> SUnavailable -> rp_membership plan <> MRebuilt ->
  set_aside keys t plan t' -> forall name, usable keys t' name = usable keys t name.
Proof.
  intros (Hp & _) Hav Hnr Ha. unfold planned in Hp. destruct (rp_membership plan) eqn:Em; [|done| |].
  - destruct Hp as (Hd & m & Hm & _). by apply (kept_aside _ _ _ _ m Ha Em (listed_mode _ _ _ Hd Hm Hav)).
  - destruct Hp as (Hd & Hc & _). destruct Ha as (A1 & A2 & A3 & A4 & A5 & A6).
    assert (Hmode : set_mode keys t = SLegacy) by (unfold set_mode; by rewrite Hd, Hc).
    destruct (legacy_same keys t t' Hmode) as [_ Hu]; [done|by rewrite A2|]. auto.
  - destruct Hp as (Hd & Hc & _). unfold set_mode in Hav. by rewrite Hd, Hc in Hav.
Qed.

Lemma publish_preserves keys t plan w w' r :
  plan_for keys t plan -> set_mode keys t <> SUnavailable -> rp_membership plan <> MRebuilt ->
  set_aside keys t plan (w_tree w) -> publish_plan keys plan w = (w', r) ->
  (forall name, usable keys (w_tree w') name = usable keys t name) /\
  (forall c, r = Ok c -> snd c = true -> exists m, set_mode keys (w_tree w') = SManaged m).
Proof.
  intros (Hp & _ & Hmk) Hav Hnr Ha Hr. unfold planned in Hp. unfold publish_plan in Hr.
  destruct (rp_membership plan) eqn:Em; [|done| |].
  - destruct Hp as (Hd & m & Hm & Hpub).
    pose proof (listed_mode keys t m Hd Hm Hav) as Hmode.
    destruct (kept_aside _ _ _ _ _ Ha Em Hmode) as (Hmode' & Hu & Hsame). destruct Hpub as [Hpub|(l & Hpub & Hl)]; rewrite Hpub in Hr.
    + injection Hr as <- <-. split; [done|]. eauto.
    + apply (names_kept_same _ _ (w_tree w)) in Hl; [|exact Hsame].
      apply (kept_published _ _ _ _ _ _ _ Hmode' Hl) in Hr as [Hm' Hu']. split; [intros; by rewrite Hu'|done].
  - destruct Hp as (Hd & Hc & l & Hpub & Hl). rewrite Hpub in Hr.
    destruct Ha as (A1 & A2 & A3 & A4 & A5 & A6).
    assert (Hmode : set_mode keys t = SLegacy) by (unfold set_mode; by rewrite Hd, Hc).
    destruct (legacy_same keys t (w_tree w) Hmode) as [Hmode' Hu]; [done|by rewrite A2|].
    apply (names_kept_same _ _ (w_tree w)) in Hl; [|intros name location [_ Hn]; by apply A6].
    apply (legacy_published _ _ _ _ _ _ Hmode') in Hr as (_ & Hu' & Hs); [| |done].
    + split; [intros name; by rewrite Hu', Hu by auto|]. intros c Hc'. by rewrite (Hs c).
    + intros Hf. destruct (Hmk Hf) as [Hv|Hv]; [|congruence]. rewrite <- Hv. apply object_view_same. auto.
  - destruct Hp as (Hd & Hc & _). unfold set_mode in Hav. by rewrite Hd, Hc in Hav.
Qed.

(** A successful repair makes the set available. *)
Lemma publish_available keys t plan w w' c :
  plan_for keys t plan -> set_aside keys t plan (w_tree w) -> publish_plan keys plan w = (w', Ok c) ->
  set_mode keys (w_tree w') <> SUnavailable \/
  (snd c = true /\ is_some (w_tree w' !! [MANAGED_DIR]) = true /\ is_Some (list_view keys (w_tree w'))).
Proof.
  intros (Hp & _ & Hmk) (A1 & A2 & A3 & A4 & A5 & A6) Hr.
  assert (Hlist : forall l, rp_publication plan <> PLegacyDirectory -> is_some (w_tree w' !! [MANAGED_DIR]) = true ->
    list_view keys (w_tree w') = Some l ->
    w_tree w' !! [FORMAT_FILE] = w_tree w !! [FORMAT_FILE] -> snd c = rp_marker plan ->
    set_mode keys (w_tree w') <> SUnavailable \/
    (snd c = true /\ is_some (w_tree w' !! [MANAGED_DIR]) = true /\ is_Some (list_view keys (w_tree w')))).
  { intros l Hnl Hd Hl Hf Hc. rewrite Hc. destruct (rp_marker plan) eqn:Emk; [right; by eauto|]. left.
    destruct (Hmk eq_refl) as [Hv|?]; [|done]. rewrite (managed_intro keys _ l); [done|done| |done].
    rewrite <- Hv. apply object_view_same. by rewrite Hf, A3. }
  unfold planned in Hp. unfold publish_plan in Hr. destruct (rp_membership plan) eqn:Em.
  - destruct Hp as (Hd & m & Hm & [Hpub|(l & Hpub & Hl)]); rewrite Hpub in *.
    + injection Hr as <- <-. apply (Hlist m); [done|by rewrite A1|rewrite <- Hm; apply object_view_same; auto|done|done].
    + apply list_published in Hr as (H1' & H2' & H3' & H4'); [by eapply Hlist|by rewrite A1].
  - destruct Hp as (Hd & l & Hpub); rewrite Hpub in *.
    apply list_published in Hr as (H1' & H2' & H3' & H4'); [by eapply Hlist|by rewrite A1].
  - destruct Hp as (Hd & Hc & l & Hpub & Hl). rewrite Hpub in *. left.
    assert (Hmode : set_mode keys t = SLegacy) by (unfold set_mode; by rewrite Hd, Hc).
    destruct (legacy_same keys t (w_tree w) Hmode) as [Hmode' Hu]; [done|by rewrite A2|].
    apply (names_kept_same _ _ (w_tree w)) in Hl; [|intros name location [_ Hn]; by apply A6].
    apply (legacy_published _ _ _ _ _ _ Hmode') in Hr as (? & _ & _); [done| |done].
    intros Hf. destruct (Hmk Hf) as [Hv|Hv]; [|congruence]. rewrite <- Hv. apply object_view_same. auto.
  - destruct Hp as (Hd & Hc & [Hpub|[Hpub Hmf]]); rewrite Hpub in *.
    + peel Hr w1 u Hu. destruct u. pose proof (ensure_records_keeps _ _ _ _ Hu) as Hk1. apply io_ok, ensure_made in Hu.
      apply list_published in Hr as (H1' & H2' & H3' & H4'); [|done]. eapply Hlist; [done|done|done| |done].
      rewrite H3'. apply Hk1; [path_neq|done].
    + peel Hr w1 u Hu. destruct u. injection Hr as <- <-. left. pose proof (ensure_records_keeps _ _ _ _ Hu) as Hk1.
      apply io_ok, ensure_made in Hu. unfold set_mode. rewrite Hu, Hk1 by (done || path_neq). by rewrite A1, Hd.
Qed.

(** [carry_out] by its steps. *)
Lemma carry_out_steps keys plan now w w' r :
  carry_out keys plan now w = (w', r) ->
  exists w1 r1, quarantine_step (rp_moved plan) now w = (w1, r1) /\
    ((w' = w1 /\ is_ok r = false) \/
     exists w2 r2, publish_plan keys plan w1 = (w2, r2) /\
       ((w' = w2 /\ is_ok r = false /\ is_ok r2 = false) \/
        exists c r3, r2 = Ok c /\ marker_step (snd c) keys w2 = (w', r3) /\ is_ok r = is_ok r3)).
Proof.
  change (carry_out keys plan now) with
    (let* q := quarantine_step (rp_moved plan) now in let* published := publish_plan keys plan in
     let (commit, marker) := published in let* unconfirmed := marker_step marker keys in
     ret {| rd_quarantine := q;
            rd_durability := if unconfirmed : bool then Unconfirmed else durability commit;
            rd_cleanup_pending := cleanup_pending commit |} : M World Repaired StoreError).
  unfold mbind_st. destruct (quarantine_step _ _ w) as [w1 r1] eqn:E1. intros Hr. exists w1, r1. split; [done|].
  destruct r1 as [q|e]; [|left; by injection Hr as <- <-]. right.
  destruct (publish_plan keys plan w1) as [w2 r2] eqn:E2. exists w2, r2. split; [done|].
  destruct r2 as [[commit marker]|e]; [|left; by injection Hr as <- <-]. right.
  exists (commit, marker). cbn [snd]. destruct (marker_step marker keys w2) as [w3 r3] eqn:E3. exists r3.
  split; [done|]. destruct r3; by injection Hr as <- <-.
Qed.

Lemma carried_preserves keys plan now w w' r :
  plan_for keys (w_tree w) plan -> set_mode keys (w_tree w) <> SUnavailable -> rp_membership plan <> MRebuilt ->
  carry_out keys plan now w = (w', r) ->
  forall name, usable keys (w_tree w') name = usable keys (w_tree w) name.
Proof.
  intros Hp Hav Hnr (w1 & r1 & E1 & Hr)%carry_out_steps.
  apply (quarantine_sets_aside keys) in E1; [|apply Hp].
  destruct Hr as [[-> _]|(w2 & r2 & E2 & Hr)]; [by eapply aside_preserves|].
  apply (publish_preserves keys (w_tree w)) in E2 as [Hu2 Hm2]; [|done..].
  destruct Hr as [(-> & _)|(c & r3 & -> & E3 & _)]; [done|]. destruct (snd c) eqn:Ec.
  - destruct (Hm2 c eq_refl Ec) as [m Hm]. intros name.
    destruct (marker_step_usable _ _ _ _ _ _ Hm E3) as [_ Hu3]. by rewrite Hu3.
  - by injection E3 as <- _.
Qed.

Lemma carried_available keys plan now w w' d :
  plan_for keys (w_tree w) plan -> carry_out keys plan now w = (w', Ok d) ->
  set_mode keys (w_tree w') <> SUnavailable.
Proof.
  intros Hp (w1 & r1 & E1 & [[_ ?]|(w2 & r2 & E2 & [(_ & ? & _)|(c & r3 & -> & E3 & Hok)])])%carry_out_steps; [done|done|].
  apply (quarantine_sets_aside keys) in E1; [|apply Hp].
  apply (publish_available keys (w_tree w)) in E2; [|done|done]. destruct (snd c) eqn:Ec.
  - destruct E2 as [Hav|(_ & Hd & [l Hl])].
    + destruct (set_mode keys (w_tree w2)) as [m| |] eqn:Em2; [| |done].
      * destruct (marker_step_usable _ _ _ _ _ _ Em2 E3) as [-> _]. done.
      * apply marker_step_spec in E3 as [Hk _]. apply (legacy_kept _ _ _ _ Em2) in Hk as [-> _]; [done|path_neq..|done].
    + apply marker_step_spec in E3 as [Hk Hf]. rewrite (managed_intro keys _ l); [done| | |].
      * by rewrite Hk by (done || path_neq).
      * apply Hf. right. by rewrite <- Hok.
      * rewrite <- Hl. apply object_view_same, Hk; [path_neq|done].
  - injection E3 as <- _. by destruct E2 as [?|[? _]].
Qed.

(** ** What is left alone *)

Definition repaired (p : Path) : Prop := in_set p \/ quarantined p.

Lemma taken_repaired moved t p : (forall q, q ∈ moved -> movable q) -> taken moved t p -> repaired p.
Proof.
  intros Hm [Hp|Hp]; [by right|]. apply existsb_exists in Hp as (q & Hq & Hl). apply list_elem_of_In in Hq.
  unfold leaves in Hl. destruct (strip q p) as [rest|] eqn:Es; [|done]. apply strip_some in Es as ->.
  destruct (movable_in_set q (Hm q Hq)) as (Hs & _). left. by destruct q.
Qed.

Lemma frame_publish_plan keys plan : Frame in_set (publish_plan keys plan).
Proof.
  assert (He : forall d rest, in_set (d :: rest) -> Frame in_set (io (ensure_private_dir (d :: rest))))
    by (intros d rest Hd; by apply frame_io, frame_ensure).
  unfold publish_plan. destruct (rp_publication plan); [apply frame_ret|..].
  - apply frame_bind; [apply He; simpl; auto|]. intros _. apply frame_bind; [apply frame_publish|intros; apply frame_ret].
  - apply frame_bind; [destruct (rp_marker plan); [apply frame_format_marker|apply frame_ret]|]. intros _.
    apply frame_bind; [apply He; simpl; auto|]. intros _. apply frame_bind; [apply frame_migration|intros; apply frame_ret].
  - apply frame_bind; [apply He; simpl; auto|]. intros _. apply frame_bind; [apply He; simpl; auto|]. intros _.
    apply frame_bind; [apply frame_publish|intros; apply frame_ret].
  - apply frame_bind; [apply He; simpl; auto|]. intros; apply frame_ret.
Qed.

Lemma carried_frame keys plan now w w' r :
  plan_for keys (w_tree w) plan -> carry_out keys plan now w = (w', r) -> keeps repaired (w_tree w) (w_tree w').
Proof.
  intros (_ & Hm & _) (w1 & r1 & E1 & Hr)%carry_out_steps.
  assert (Hmv : forall p, p ∈ rp_moved plan -> movable p) by (intros p Hp; by apply Hm).
  apply (quarantine_step_spec _ _ _ _ _ Hmv) in E1.
  apply (keeps_mono _ repaired) in E1; [|intros p; by apply taken_repaired].
  destruct Hr as [[-> _]|(w2 & r2 & E2 & Hr)]; [done|].
  apply frame_publish_plan in E2. apply (keeps_mono _ repaired) in E2; [|by left].
  pose proof (keeps_trans _ _ _ _ E1 E2) as Hk. destruct Hr as [(-> & _)|(c & r3 & -> & E3 & _)]; [done|].
  apply marker_step_spec in E3 as [E3 _]. apply (keeps_mono _ repaired) in E3; [by eapply keeps_trans|].
  intros p <-. left. simpl. auto.
Qed.

(** A repair plans again, and then carries the plan out or fails. *)
Lemma repair_steps max plan now w w' r :
  repair max plan now w = (w', r) ->
  (w_tree w' = w_tree w /\ is_ok r = false) \/
  exists root w1, key_view Credential (w_tree w) = Some root /\ w_tree w1 = w_tree w /\
    plan_for (derive_credential_keys root) (w_tree w) plan /\
    carry_out (derive_credential_keys root) plan now w1 = (w', r).
Proof.
  intros Hr. unfold repair in Hr.
  apply ro_cases in Hr as [(e & -> & Ht)|(w1 & found & Hf & Ht1 & Hr)]; [by left| |apply ro_plan_repair].
  case_bool_decide as Hp; [|left; by injection Hr as <- <-]. subst found.
  apply plan_repair_for in Hf as (root & Hroot & Hp & _). change (ret tt) with (ret tt : M World unit StoreError) in Hr.
  apply ro_cases in Hr as [(e & -> & Ht)|(w1' & u & Hu & Ht1' & Hr)]; [left; by rewrite Ht| |apply ro_ret].
  apply ro_cases in Hr as [(e & -> & Ht)|(w2 & keys & Hk & Ht2 & Hr)]; [left; split; [congruence|done]| |apply ro_credential_keys].
  unfold credential_keys in Hk. peel Hk w3 root' Hroot'. apply read_key_ok in Hroot' as [_ Hroot'].
  injection Hk as _ <-. rewrite Ht1', Ht1, Hroot in Hroot'. subst root'. cbn in Hr.
  right. exists root, w2. split; [done|]. split; [congruence|done].
Qed.

End Carried.

(** The store can tell its credentials: a list that authenticates with its
    marker, or a legacy directory. *)
Definition set_available `{Crypto} `{Ciborium} `{RecordReader} (t : Tree) : Prop :=
  exists root, key_view Credential t = Some root /\ set_mode (derive_credential_keys root) t <> SUnavailable.

Section Repaired.

Context `{Crypto} `{Ciborium} `{RecordReader} `{!AeadLaws} `{!RecordReaderLaws}.

(** C21: [repair] with any plan and any sequence of failing system calls: (1)
    every path outside the credential set and the quarantine, the keys, PIN
    state, counter, large blobs and attestation among them, holds what it
    held; (2) unless the list had to be rebuilt, a store that could serve its
    credentials serves exactly the same records afterwards, also when the
    repair failed half way; (3) after a repair that reports success the store
    can serve its credentials. *)
Theorem repair_preserves_usable (max : Z) (plan : RepairPlan) (now : Z) (w w' : World) (r : result Repaired StoreError) :
  repair max plan now w = (w', r) ->
  (forall p : Path, ~ in_set p -> ~ quarantined p -> temp_path p = false -> w_tree w' !! p = w_tree w !! p) /\
  (rp_membership plan <> MRebuilt -> set_available (w_tree w) ->
   forall name : bytes, usable_now (w_tree w') name = usable_now (w_tree w) name) /\
  (is_ok r = true -> set_available (w_tree w')).
Proof.
  intros [[Ht Hok]|(root & w1 & Hroot & Ht1 & Hp & Hr)]%repair_steps.
  { rewrite Ht, Hok. done. }
  rewrite <- Ht1 in *. pose proof (carried_frame _ _ _ _ _ _ Hp Hr) as Hk.
  assert (Hroot' : key_view Credential (w_tree w') = Some root).
  { rewrite <- Hroot. eapply key_view_keeps; [exact Hk|]. intros [Hx|Hx]; [by apply in_set_spares_key in Hx|].
    revert Hx. simpl. path_neq. }
  split; [|split].
  - intros p Hp1 Hp2. apply Hk. by intros [?|?].
  - intros Hnr (root2 & Hroot2 & Hav) name. rewrite Hroot in Hroot2. injection Hroot2 as <-.
    rewrite (usable_now_eq _ _ Hroot), (usable_now_eq _ _ Hroot'). by eapply carried_preserves.
  - intros Hok. destruct r as [d|]; [|done]. exists root. split; [done|]. by eapply carried_available.
Qed.

End Repaired.

(** The name of a quarantine carries the right date.  [civil_from_days]
    computes in 400-year eras of years that start in March; it gives, for
    every number of days, the date that counting that many days from 1 January
    1970 by the rules of the Gregorian calendar reaches. *)
Theorem quarantine_date_gregorian (n : nat) :
  civil_from_days (Z.of_nat n) = Nat.iter n next_day (1970, 1, 1).
Proof.
  induction n as [|n IH]; [done|]. rewrite Nat2Z.inj_succ. unfold Z.succ. rewrite civil_steps by lia.
  cbn [Nat.iter nat_rect]. by f_equal.
Qed.

Module RepairWitness.

Import StoreWitness DiskWitness.

(** Two accounts' credentials, then the first one's record is cut short. *)
Definition two : FileSystem.World :=
  fst (file_insert_or_replace_discoverable 2 (sample 11 6 0)
    (fst (file_insert_or_replace_discoverable 2 (sample 10 5 0) (fst (open_with_key_source blank))))).

Definition root_of (w : FileSystem.World) : bytes := default [] (key_view Credential (w_tree w)).

Definition name_in (w : FileSystem.World) (i u : Z) : bytes :=
  file_name (derive_credential_keys (root_of w)) (cr_credential_id (sample i u 0)).

Definition damaged : FileSystem.World :=
  w_with_tree two (<[record_dir Managed ++ [name_in two 10 5] := File FILE_MODE [1; 2; 3]]> (w_tree two)).

Definition the_plan : RepairPlan := Eval vm_compute in
  match snd (plan_repair 2 damaged) with Ok (Some p) => p | _ => plan_new [] MRebuilt PNothing end.

Definition after_repair := repair 2 the_plan 1793920027 damaged.

Lemma after_repair_run : repair 2 the_plan 1793920027 damaged = after_repair.
Proof. reflexivity. Qed.

Lemma plan_kind_eq : rp_membership the_plan = MKept.
Proof. reflexivity. Qed.

Definition served (w : FileSystem.World) : bool :=
  match set_mode (derive_credential_keys (root_of w)) (w_tree w) with SUnavailable => false | _ => true end.

Definition survivor : bytes := name_in two 11 6.

#[local] Opaque after_repair damaged two survivor the_plan.

(** The plan drops the damaged record; the other credential stays. *)
Lemma repair_preserves_usable_witness :
  rp_membership the_plan = MKept /\ is_ok (snd after_repair) = true /\
  usable_now (w_tree damaged) survivor = Some (sample 11 6 2) /\
  usable_now (w_tree (fst after_repair)) survivor = Some (sample 11 6 2).
Proof.
  assert (Hok : is_ok (snd after_repair) = true) by (vm_compute; reflexivity).
  assert (Hu : usable_now (w_tree damaged) survivor = Some (sample 11 6 2)) by (vm_compute; reflexivity).
  assert (Hav : set_available (w_tree damaged)).
  { exists (root_of damaged). split; [vm_compute; reflexivity|].
    assert (Hs : served damaged = true) by (vm_compute; reflexivity). unfold served in Hs.
    intros Hm. rewrite Hm in Hs. discriminate Hs. }
  split; [exact plan_kind_eq|]. split; [exact Hok|]. split; [exact Hu|]. rewrite <- Hu.
  refine (proj1 (proj2 (repair_preserves_usable 2 the_plan 1793920027 damaged (fst after_repair) (snd after_repair) _)) _ Hav survivor).
  - exact (eq_trans after_repair_run (surjective_pairing _)).
  - rewrite plan_kind_eq. discriminate.
Defined.

(** Times the source tests. *)
Example utc_stamps :
  utc_stamp 0 = ascii_bytes "19700101T000000Z" /\ utc_stamp 951782400 = ascii_bytes "20000229T000000Z" /\
  utc_stamp 1793920027 = ascii_bytes "20261105T230707Z" /\ utc_stamp 4107542400 = ascii_bytes "21000301T000000Z" /\
  utc_stamp (-1) = ascii_bytes "19700101T000000Z".
Proof. repeat split. Qed.

End RepairWitness.
