(* ===== verification/CborWire.v ===== *)
(** * What the encoder writes, the scanners accept ([ctap/cbor.rs], [cbor.rs])

    [write_value] is the preferred encoding of RFC 8949, which ciborium's
    writer produces ([CiboriumLaws]).  A value whose maps have their keys in
    the CTAP2 canonical order passes the canonical-form check of a request,
    is copied unchanged and reads back as it was. *)

From S2P Require Import Prelude Constants Alg Crypto Cbor ConcreteCbor CborProofs Codec CodecProofs.

(** ciborium writes shortest heads and definite lengths, and reads back what
    it wrote (its default recursion limit is far above the scanners'). *)
Class CiboriumLaws `{Ciborium} : Prop := {
  ciborium_writes v : value_ok v = true -> value_plain v = true -> into_writer v = write_value v;
  ciborium_reads v :
    value_ok v = true -> value_plain v = true -> (value_nesting v <= MAX_NESTING)%nat ->
    from_reader (write_value v) = Some v
}.

#[export] Instance concrete_ciborium_laws : CiboriumLaws.
Proof.
  split; [done|]. intros v Hok Hpl Hn. cbn [from_reader concrete_ciborium].
  rewrite <- (app_nil_r (write_value v)). by rewrite (read_value_roundtrip MAX_NESTING) by done.
Qed.

(** ** Canonical values *)

Definition pair_bytes (kv : Value * Value) : bytes := let (k, x) := kv in write_value k ++ write_value x.

Fixpoint keys_ascend (previous : option bytes) (l : list (Value * Value)) : bool :=
  match l with
  | [] => true
  | (k, _) :: rest =>
      negb (is_some_and previous (fun p => is_ge (canonical_key_order p (write_value k))))
      && keys_ascend (Some (write_value k)) rest
  end.

Fixpoint canonical_value (v : Value) : bool :=
  match v with
  | VArray l => forallb canonical_value l
  | VMap l => forallb (fun kv : Value * Value => let (k, x) := kv in canonical_value k && canonical_value x) l
              && keys_ascend None l
  | _ => true
  end.

(** ** Headers at a position *)

Lemma lookup_at {A} (pre l : list A) : (pre ++ l) !! length pre = l !! 0%nat.
Proof. rewrite lookup_app_r by lia. by rewrite Nat.sub_diag. Qed.

Lemma get_slice_at (pre l : bytes) a b :
  get_slice (pre ++ l) (length pre + a) (length pre + b) = get_slice l a b.
Proof.
  unfold get_slice, slice. rewrite length_app.
  replace (_ <=? _)%nat with (a <=? b)%nat by (apply eq_bool_prop_intro; rewrite !Is_true_true, !Nat.leb_le; lia).
  replace (length pre + b <=? _)%nat with (b <=? length l)%nat
    by (apply eq_bool_prop_intro; rewrite !Is_true_true, !Nat.leb_le; lia).
  destruct (_ && _); [|done]. f_equal. rewrite drop_app_add'; [|done]. f_equal. lia.
Qed.

Lemma header_at (pre l : bytes) :
  header (pre ++ l) (length pre) =
  match header l 0 with Some (m, a, e) => Some (m, a, (length pre + e)%nat) | None => None end.
Proof.
  unfold header. rewrite lookup_at. destruct (l !! 0%nat) as [b|]; [|done].
  destruct (_ <=? 23); [done|]. destruct (_ <=? 27); [|done].
  rewrite <- (Nat.add_assoc (length pre)), (get_slice_at pre). cbn [Nat.add].
  by destruct (get_slice _ _ _).
Qed.

(** ** Heads *)

Lemma head_initial major n : 0 <= n < 2 ^ 64 ->
  exists info rest, head_bytes major n = Z.lor (Z.shiftl major 5) info :: rest /\ 0 <= info <= 27 /\
    (major <> 7 -> shortest major info n = true) /\ (info < 24 -> info = n).
Proof.
  intros Hn. unfold head_bytes, shortest.
  destruct (n <? 24) eqn:E0; [|destruct (n <? 2 ^ 8) eqn:E1; [|destruct (n <? 2 ^ 16) eqn:E2;
    [|destruct (n <? 2 ^ 32) eqn:E3]]]; bool_hyps; do 2 eexists; (split; [reflexivity|]);
    (split; [lia|]); (split; [intros H7|lia]).
  - repeat (rewrite (proj2 (Z.eqb_neq _ _)) by lia). done.
  - cbn [Z.eqb Pos.eqb]. rewrite (proj2 (Z.eqb_neq major 7)) by done. apply Z.leb_le. lia.
  - cbn [Z.eqb Pos.eqb]. apply Z.ltb_lt. lia.
  - cbn [Z.eqb Pos.eqb]. apply Z.ltb_lt. lia.
  - cbn [Z.eqb Pos.eqb]. apply Z.ltb_lt. lia.
Qed.

(** What the canonical scanner does at a head the encoder wrote. *)
Lemma canonical_at_head levels (pre body : bytes) major n :
  0 <= n < 2 ^ 64 -> 0 <= major < 6 ->
  let bs := pre ++ head_bytes major n ++ body in
  let stop := (length pre + length (head_bytes major n))%nat in
  canonical_item_end levels bs (length pre) =
  if (major =? 0) || (major =? 1) then Some stop
  else if (major =? 2) || (major =? 3) then string_end bs stop n
  else match levels with
       | O => None
       | S l =>
           if major =? 4 then loop_items (S (length bs)) (canonical_item_end l bs) n stop
           else loop_entries (S (length bs)) bs (canonical_item_end l bs) n None stop
       end.
Proof.
  intros Hn Hm bs stop. destruct (head_initial major n Hn) as (info & rest & Hh & Hi & Hs & _).
  assert (Hb : bs !! length pre = Some (Z.lor (Z.shiftl major 5) info)).
  { unfold bs. rewrite lookup_at, Hh. done. }
  assert (Hhead : header bs (length pre) = Some (major, n, stop)).
  { unfold bs. rewrite header_at, header_head by done. done. }
  destruct (head_parts major info ltac:(lia)) as [P1 P2].
  destruct levels as [|l]; cbn [canonical_item_end]; rewrite Hb, P1, P2, Hhead, Hs by lia;
    rewrite !(proj2 (Z.eqb_neq major 7)) by lia; cbn [andb negb];
    rewrite orb_false_r; (destruct ((major =? 0) || (major =? 1)) eqn:E1; [done|]);
    (destruct ((major =? 2) || (major =? 3)) eqn:E2; [done|]);
    (destruct (Z.eqb_spec major 4); [done|]); bool_hyps;
    rewrite (proj2 (Z.eqb_eq major 5)) by lia; done.
Qed.

Lemma copy_at_head levels (pre body : bytes) major n :
  0 <= n < 2 ^ 64 -> 0 <= major < 6 ->
  let bs := pre ++ head_bytes major n ++ body in
  let stop := (length pre + length (head_bytes major n))%nat in
  copy_undefined levels bs (length pre) =
  if (major =? 4) || (major =? 5) then
    match child_count major n, levels with
    | Some items, S l =>
        match loop_copy (S (length bs)) (copy_undefined l bs) items stop with
        | None => None
        | Some (e, out) => Some (e, head_bytes major n ++ out)
        end
    | _, _ => None
    end
  else
    match (if (major =? 0) || (major =? 1) then Some stop else string_end bs stop n) with
    | None => None
    | Some e => Some (e, slice bs (length pre) e)
    end.
Proof.
  intros Hn Hm bs stop.
  assert (Hhead : header bs (length pre) = Some (major, n, stop)).
  { unfold bs. rewrite header_at, header_head by done. done. }
  assert (Hslice : slice bs (length pre) stop = head_bytes major n).
  { unfold slice, bs, stop. rewrite drop_app_length. rewrite Nat.add_comm, Nat.add_sub. apply take_app_length. }
  assert (Hitem : item_end (S MAX_NESTING) bs (length pre) =
    if (major =? 4) || (major =? 5) then item_end (S MAX_NESTING) bs (length pre)
    else if (major =? 0) || (major =? 1) then Some stop else string_end bs stop n).
  { destruct ((major =? 4) || (major =? 5)) eqn:E; [done|]. cbn [item_end]. rewrite Hhead, E.
    rewrite (proj2 (Z.eqb_neq major 7)), orb_false_r by lia. destruct ((major =? 0) || (major =? 1)) eqn:E1; [done|].
    destruct ((major =? 2) || (major =? 3)) eqn:E2; [done|]. bool_hyps. lia. }
  assert (Hcopy : forall l, copy_undefined l bs (length pre) =
    if (major =? 4) || (major =? 5) then
      match child_count major n, l with
      | Some items, S l =>
          match loop_copy (S (length bs)) (copy_undefined l bs) items stop with
          | None => None
          | Some (e, out) => Some (e, slice bs (length pre) stop ++ out)
          end
      | _, _ => None
      end
    else match item_end (S MAX_NESTING) bs (length pre) with
         | None => None | Some e => Some (e, slice bs (length pre) e) end).
  { intros l. destruct l; cbn [copy_undefined]; rewrite Hhead, (proj2 (Z.eqb_neq major 7)) by lia; done. }
  rewrite Hcopy, Hslice, Hitem. by destruct ((major =? 4) || (major =? 5)).
Qed.

(** ** Loops over written items *)

Section Loops.

Context (bs : bytes).

Lemma loop_items_written {A} (item : nat -> option nat) (write : A -> bytes) (l : list A) fuel pre post :
  (length l <= fuel)%nat -> bs = pre ++ concat (map write l) ++ post ->
  (forall x p q, x ∈ l -> bs = p ++ write x ++ q -> item (length p) = Some (length p + length (write x))%nat) ->
  loop_items fuel item (zlen l) (length pre) = Some (length pre + length (concat (map write l)))%nat.
Proof.
  revert fuel pre. induction l as [|x l IH]; intros fuel pre Hf Hbs Hi.
  - destruct fuel; cbn; by rewrite Nat.add_0_r.
  - destruct fuel as [|fuel]; [cbn in Hf; lia|]. cbn [loop_items].
    rewrite (proj2 (Z.leb_gt (zlen (x :: l)) 0)) by (unfold zlen; cbn [length]; lia).
    cbn [map concat] in Hbs |- *. rewrite <- app_assoc in Hbs.
    rewrite (Hi x pre (concat (map write l) ++ post)); [|by left|done].
    replace (zlen (x :: l) - 1) with (zlen l) by (unfold zlen; cbn [length]; lia).
    rewrite <- length_app. rewrite (IH fuel (pre ++ write x)).
    + f_equal. rewrite !length_app. lia.
    + cbn in Hf. lia.
    + by rewrite <- app_assoc.
    + intros y p q Hy. apply Hi. by right.
Qed.

Lemma loop_copy_written (item : nat -> option (nat * bytes)) (l : list Value) fuel pre post :
  (length l <= fuel)%nat -> bs = pre ++ concat (map write_value l) ++ post ->
  (forall x p q, x ∈ l -> bs = p ++ write_value x ++ q ->
     item (length p) = Some ((length p + length (write_value x))%nat, write_value x)) ->
  loop_copy fuel item (zlen l) (length pre) =
  Some ((length pre + length (concat (map write_value l)))%nat, concat (map write_value l)).
Proof.
  revert fuel pre. induction l as [|x l IH]; intros fuel pre Hf Hbs Hi.
  - destruct fuel; cbn; by rewrite Nat.add_0_r.
  - destruct fuel as [|fuel]; [cbn in Hf; lia|]. cbn [loop_copy].
    rewrite (proj2 (Z.leb_gt (zlen (x :: l)) 0)) by (unfold zlen; cbn [length]; lia).
    cbn [map concat] in Hbs |- *. rewrite <- app_assoc in Hbs.
    rewrite (Hi x pre (concat (map write_value l) ++ post)); [|by left|done].
    replace (zlen (x :: l) - 1) with (zlen l) by (unfold zlen; cbn [length]; lia).
    rewrite <- length_app. rewrite (IH fuel (pre ++ write_value x)).
    + do 2 f_equal. rewrite !length_app. lia.
    + cbn in Hf. lia.
    + by rewrite <- app_assoc.
    + intros y p q Hy. apply Hi. by right.
Qed.

Lemma slice_at (pre x post : bytes) : slice (pre ++ x ++ post) (length pre) (length pre + length x) = x.
Proof. unfold slice. rewrite drop_app_length, Nat.add_comm, Nat.add_sub. apply take_app_length. Qed.

Lemma loop_entries_written (item : nat -> option nat) (l : list (Value * Value)) fuel previous pre post :
  (length l <= fuel)%nat -> bs = pre ++ concat (map pair_bytes l) ++ post -> keys_ascend previous l = true ->
  (forall kv p q, kv ∈ l -> (bs = p ++ write_value (fst kv) ++ q ->
       item (length p) = Some (length p + length (write_value (fst kv)))%nat) /\
     (bs = p ++ write_value (snd kv) ++ q ->
       item (length p) = Some (length p + length (write_value (snd kv)))%nat)) ->
  loop_entries fuel bs item (zlen l) previous (length pre) =
  Some (length pre + length (concat (map pair_bytes l)))%nat.
Proof.
  revert fuel previous pre. induction l as [|[k x] l IH]; intros fuel previous pre Hf Hbs Ha Hi.
  - destruct fuel; cbn; by rewrite Nat.add_0_r.
  - destruct fuel as [|fuel]; [cbn in Hf; lia|]. cbn [loop_entries].
    rewrite (proj2 (Z.leb_gt (zlen ((k, x) :: l)) 0)) by (unfold zlen; cbn [length]; lia).
    cbn [map concat pair_bytes] in Hbs |- *. rewrite <- !app_assoc in Hbs.
    destruct (Hi (k, x) pre (write_value x ++ concat (map pair_bytes l) ++ post)) as [Hk _]; [by left|].
    cbn [fst snd] in Hk. rewrite (Hk Hbs).
    assert (Hsl : slice bs (length pre) (length pre + length (write_value k)) = write_value k)
      by (rewrite Hbs; apply slice_at).
    cbv zeta. rewrite Hsl. cbn [keys_ascend] in Ha. apply andb_true_iff in Ha as [Ha1 Ha2].
    apply negb_true_iff in Ha1. rewrite Ha1.
    destruct (Hi (k, x) (pre ++ write_value k) (concat (map pair_bytes l) ++ post)) as [_ Hx]; [by left|].
    cbn [fst snd] in Hx. rewrite <- length_app. rewrite Hx by (by rewrite <- app_assoc).
    replace (zlen ((k, x) :: l) - 1) with (zlen l) by (unfold zlen; cbn [length]; lia).
    rewrite <- length_app. rewrite (IH fuel (Some (write_value k)) ((pre ++ write_value k) ++ write_value x)).
    + f_equal. rewrite !length_app. lia.
    + cbn in Hf. lia.
    + by rewrite <- !app_assoc.
    + done.
    + intros y p q Hy. apply Hi. by right.
Qed.

End Loops.

(** ** Written values *)

(** A map's children in the order they are written. *)
Definition children_of (l : list (Value * Value)) : list Value := flat_map (fun kv => [fst kv; snd kv]) l.

Lemma children_bytes l : concat (map write_value (children_of l)) = concat (map pair_bytes l).
Proof.
  induction l as [|[k x] l IH]; [done|]. cbn [children_of flat_map app map concat pair_bytes fst snd].
  rewrite <- app_assoc. do 2 f_equal. exact IH.
Qed.

Lemma children_zlen l : zlen (children_of l) = zlen l * 2.
Proof.
  unfold zlen. induction l as [|kv l IH]; [done|]. cbn [children_of flat_map app length].
  unfold children_of in IH. lia.
Qed.

Lemma string_end_written (pre h b post : bytes) :
  addressable (pre ++ h ++ b ++ post) ->
  string_end (pre ++ h ++ b ++ post) (length pre + length h) (zlen b) = Some (length pre + length (h ++ b))%nat.
Proof.
  unfold addressable, string_end, zlen. rewrite !length_app. intros Ha.
  rewrite (proj2 (Z.leb_gt _ _)) by lia. rewrite (proj2 (Z.ltb_ge _ _)) by lia. f_equal. lia.
Qed.

(** The well-formedness the theorems ask of a value. *)
Definition writable (levels : nat) (v : Value) : Prop :=
  value_ok v = true /\ value_plain v = true /\ canonical_value v = true /\ (value_nesting v <= levels)%nat.

Lemma writable_array levels l : writable levels (VArray l) ->
  exists levels', levels = S levels' /\ zlen l < 2 ^ 64 /\ forall x, x ∈ l -> writable levels' x.
Proof.
  intros (Hok & Hpl & Hc & Hn). cbn in Hok, Hpl, Hc, Hn. destruct levels as [|levels]; [lia|].
  apply andb_true_iff in Hok as [Hok Hlen]. exists levels. split; [done|]. split; [by apply Z.ltb_lt|].
  apply le_S_n, fold_max_le in Hn. apply forallb_Forall in Hok, Hpl, Hc. rewrite Forall_forall in Hok, Hpl, Hc, Hn.
  intros x Hx. split; [by apply Hok|]. split; [by apply Hpl|]. split; [by apply Hc|by apply Hn].
Qed.

Lemma writable_map levels l : writable levels (VMap l) ->
  exists levels', levels = S levels' /\ zlen l < 2 ^ 64 /\ keys_ascend None l = true /\
    forall kv, kv ∈ l -> writable levels' (fst kv) /\ writable levels' (snd kv).
Proof.
  intros (Hok & Hpl & Hc & Hn). cbn [value_ok value_plain canonical_value value_nesting] in Hok, Hpl, Hc, Hn.
  destruct levels as [|levels]; [lia|].
  apply andb_true_iff in Hok as [Hok Hlen]. apply andb_true_iff in Hc as [Hc Ha].
  exists levels. split; [done|]. split; [by apply Z.ltb_lt|]. split; [done|].
  replace (fold_right _ _ _) with (fold_right (fun kv m => Nat.max
    (let (k, x) := kv : Value * Value in Nat.max (value_nesting k) (value_nesting x)) m) 0%nat l) in Hn
    by (clear; induction l as [|[k x] l IHl]; simpl; congruence).
  apply le_S_n, fold_max_le in Hn. apply forallb_Forall in Hok, Hpl, Hc. rewrite Forall_forall in Hok, Hpl, Hc, Hn.
  intros [k x] Hx. specialize (Hok _ Hx). specialize (Hpl _ Hx). specialize (Hc _ Hx). specialize (Hn _ Hx).
  cbn in Hok, Hpl, Hc, Hn. apply andb_true_iff in Hok as [? ?], Hpl as [? ?], Hc as [? ?].
  split; (split; [done|]; split; [done|]; split; [done|cbn; lia]).
Qed.

(** A leaf: its head, and for a string its contents. *)
Lemma leaf_scanned levels major n (b pre post : bytes) :
  0 <= n < 2 ^ 64 -> (major = 0 \/ major = 1) /\ b = [] \/ (major = 2 \/ major = 3) /\ n = zlen b ->
  addressable (pre ++ head_bytes major n ++ b ++ post) ->
  let bs := pre ++ head_bytes major n ++ b ++ post in
  let e := (length pre + length (head_bytes major n ++ b))%nat in
  canonical_item_end levels bs (length pre) = Some e /\
  copy_undefined levels bs (length pre) = Some (e, head_bytes major n ++ b).
Proof.
  intros Hn Hm Ha bs e. unfold bs at 1 2.
  rewrite canonical_at_head, copy_at_head by (done || (destruct Hm as [[[]_]|[[]_]]; lia)).
  assert (Hsl : slice bs (length pre) e = head_bytes major n ++ b).
  { unfold bs, e. rewrite app_assoc with (n := post). apply slice_at. }
  destruct Hm as [[Hm ->]|[Hm ->]].
  - assert (He : e = (length pre + length (head_bytes major n))%nat) by (unfold e; by rewrite app_nil_r).
    rewrite He in *. fold bs. destruct Hm as [->| ->]; cbn [Z.eqb Pos.eqb orb]; by rewrite Hsl.
  - rewrite string_end_written by done. fold bs e.
    destruct Hm as [->| ->]; cbn [Z.eqb Pos.eqb orb]; by rewrite Hsl.
Qed.

Lemma simple_scanned levels b (pre post : bytes) : b = 0xF4 \/ b = 0xF5 \/ b = 0xF6 ->
  canonical_item_end levels (pre ++ [b] ++ post) (length pre) = Some (length pre + 1)%nat /\
  copy_undefined levels (pre ++ [b] ++ post) (length pre) = Some ((length pre + 1)%nat, [b]).
Proof.
  intros Hb. assert (Hl : (pre ++ [b] ++ post) !! length pre = Some b) by (by rewrite lookup_at).
  assert (Hh : header (pre ++ [b] ++ post) (length pre) = Some (7, Z.land b 0x1f, (length pre + 1)%nat)).
  { rewrite header_at. destruct Hb as [->|[->| ->]]; reflexivity. }
  assert (Hn : nth (length pre) (pre ++ [b] ++ post) 0 = b) by (rewrite app_nth2, Nat.sub_diag by lia; done).
  assert (Hs : slice (pre ++ [b] ++ post) (length pre) (length pre + 1) = [b]) by apply (slice_at pre [b] post).
  assert (Hi : item_end (S MAX_NESTING) (pre ++ [b] ++ post) (length pre) = Some (length pre + 1)%nat).
  { cbn [item_end]. by rewrite Hh. }
  split.
  - destruct levels; cbn [canonical_item_end]; rewrite Hl, Hh; destruct Hb as [->|[->| ->]]; reflexivity.
  - destruct levels; cbn [copy_undefined]; rewrite Hh, Hn, Hi, Hs; destruct Hb as [->|[->| ->]]; reflexivity.
Qed.

Lemma written_scanned levels v (pre post : bytes) :
  writable levels v -> addressable (pre ++ write_value v ++ post) ->
  let e := (length pre + length (write_value v))%nat in
  canonical_item_end levels (pre ++ write_value v ++ post) (length pre) = Some e /\
  copy_undefined levels (pre ++ write_value v ++ post) (length pre) = Some (e, write_value v).
Proof.
  revert v pre post. induction levels as [levels IH] using lt_wf_ind. intros v pre post Hw Ha e.
  pose proof Hw as (Hok & Hpl & _ & _).
  destruct v as [n|b|bits|t|b| |tag x|l|l]; try discriminate Hpl.
  - cbn [value_ok] in Hok. bool_hyps. unfold e. cbn [write_value] in *.
    destruct (0 <=? n) eqn:E; bool_hyps;
      [destruct (leaf_scanned levels 0 n [] pre post)|destruct (leaf_scanned levels 1 (- n - 1) [] pre post)];
      try done; try lia; auto; rewrite ?app_nil_r in *; done.
  - cbn [value_ok] in Hok. bool_hyps. unfold e. cbn [write_value] in *. rewrite <- app_assoc in *.
    apply leaf_scanned; [unfold zlen in *; lia|auto|done].
  - cbn [value_ok] in Hok. bool_hyps. unfold e. cbn [write_value] in *. rewrite <- app_assoc in *.
    apply leaf_scanned; [unfold zlen in *; lia|auto|done].
  - apply (simple_scanned levels (if b then 0xF5 else 0xF4) pre post). destruct b; auto.
  - apply (simple_scanned levels 0xF6 pre post). auto.
  - apply writable_array in Hw as (levels' & -> & Hlen & Hitems). unfold e. cbn [write_value] in *.
    rewrite <- app_assoc in *. set (h := head_bytes 4 (zlen l)) in *. set (c := concat (map write_value l)) in *.
    assert (Hz : 0 <= zlen l < 2 ^ 64) by (unfold zlen in *; lia).
    assert (Hfuel : (length l <= S (length (pre ++ h ++ c ++ post)))%nat).
    { pose proof (concat_length_le write_value l write_value_length). rewrite !length_app. fold c in H. lia. }
    assert (Hbs : pre ++ h ++ c ++ post = (pre ++ h) ++ c ++ post) by (by rewrite <- app_assoc).
    unfold h at 1 3. rewrite canonical_at_head, copy_at_head by (done || lia). fold h.
    cbn [Z.eqb Pos.eqb orb child_count]. rewrite <- length_app.
    rewrite (loop_items_written _ _ write_value l _ _ post Hfuel Hbs).
    2: { intros x p q Hx Hpq. rewrite Hpq in *. by apply IH; [lia|apply Hitems|]. }
    rewrite (loop_copy_written _ _ l _ _ post Hfuel Hbs).
    2: { intros x p q Hx Hpq. rewrite Hpq in *. by apply IH; [lia|apply Hitems|]. }
    fold c. rewrite !length_app, Nat.add_assoc. done.
  - apply writable_map in Hw as (levels' & -> & Hlen & Hasc & Hitems). unfold e. cbn [write_value] in *.
    change (concat (map _ l)) with (concat (map pair_bytes l)) in *.
    rewrite <- app_assoc in *. set (h := head_bytes 5 (zlen l)) in *. set (c := concat (map pair_bytes l)) in *.
    assert (Hz : 0 <= zlen l < 2 ^ 64) by (unfold zlen in *; lia).
    assert (Hc : c = concat (map write_value (children_of l))) by (symmetry; apply children_bytes).
    assert (Hfuel : (length (children_of l) <= S (length (pre ++ h ++ c ++ post)))%nat).
    { pose proof (concat_length_le write_value (children_of l) write_value_length). rewrite <- Hc in H.
      rewrite !length_app. lia. }
    pose proof (children_zlen l) as Hcz. assert (Hfuel' : (length l <= S (length (pre ++ h ++ c ++ post)))%nat)
      by (unfold zlen in Hcz; lia).
    assert (Hbs : pre ++ h ++ c ++ post = (pre ++ h) ++ c ++ post) by (by rewrite <- app_assoc).
    unfold h at 1 3. rewrite canonical_at_head, copy_at_head by (done || lia). fold h.
    assert (Hcc : child_count 5 (zlen l) = Some (zlen (children_of l))).
    { unfold child_count. cbn [Z.eqb Pos.eqb]. rewrite Hcz. rewrite (proj2 (Z.ltb_lt _ _)); [done|].
      unfold addressable, zlen in *. rewrite !length_app in Ha. rewrite !length_app in Hfuel.
      pose proof (concat_length_le write_value (children_of l) write_value_length). rewrite <- Hc in H. lia. }
    cbn [Z.eqb Pos.eqb orb]. rewrite Hcc, <- length_app.
    rewrite (loop_entries_written _ _ l _ None _ post Hfuel' Hbs Hasc).
    2: { intros kv p q Hx. destruct (Hitems kv Hx) as [Hk Hv].
         split; intros Hpq; rewrite Hpq in *; by apply IH; [lia| |]. }
    rewrite (loop_copy_written (pre ++ h ++ c ++ post) _ (children_of l) _ (pre ++ h) post Hfuel).
    2: { by rewrite <- Hc. }
    2: { intros x p q Hx Hpq.
         assert (Hxw : writable levels' x).
         { apply list_elem_of_In, in_flat_map in Hx as (kv & Hkv & Hx). apply list_elem_of_In in Hkv.
           destruct (Hitems kv Hkv) as [Hk Hv]. by destruct Hx as [<-|[<-|[]]]. }
         rewrite Hpq in *. by apply IH; [lia| |]. }
    rewrite <- Hc. rewrite !length_app, Nat.add_assoc. done.
Qed.
