(* ===== verification/ManagementClient.v ===== *)
(** * The management client ([client/ctap2.rs], [pqkey-ctap]'s [platform.rs])

    The CTAP2 requests [pqkey pin], [pqkey config], [pqkey passkeys],
    [pqkey reset] and [pqkey status] send to the running key, and the
    platform's half of the PIN/UV auth protocols they use.  The connection is a
    class: its [conn_cbor] is [CtapHid::cbor] ([HidClient.v]; over a key that
    answers, [HidWire.v] shows it returns the key's answer).  Whoever watches
    keepalives sees no result and is left out.  [os_random] is what the
    operating system's generator returns from here on; an empty list fails. *)

From Stdlib Require Import Strings.String.
From stdpp Require Import list.
From S2P Require Import Prelude Constants Crypto Cbor HidClient.

(** ** [platform.rs] *)

Record PlatformKeyAgreement : Type := {
  pka_protocol : PinProtocol;
  pka_keys : PinUvSessionKeys;
  pka_public_x : bytes;
  pka_public_y : bytes
}.

Section Platform.

Context `{Crypto}.

(** [PlatformKeyAgreement::new].  The public point of a scalar is never the
    identity, so [coordinates] does not fail. *)
Definition platform_key_agreement (protocol : PinProtocol) (x y secret : bytes)
    : result PlatformKeyAgreement CryptoError :=
  let? peer := ok_or (p256_point ([0x04] ++ x ++ y)) InvalidPublicKey in
  if negb (p256_scalar_valid secret) then Err InvalidKey
  else
    Ok {| pka_protocol := protocol;
          pka_keys := try_derive_classic_pin_uv_session_keys protocol (p256_ecdh secret peer);
          pka_public_x := fst (p256_public secret);
          pka_public_y := snd (p256_public secret) |}.

Definition platform_encrypt (shared : PlatformKeyAgreement) (plaintext iv : bytes) : result bytes CryptoError :=
  encrypt_classic_pin_block (pka_protocol shared) (pka_keys shared) (Some iv) plaintext.

Definition platform_decrypt (shared : PlatformKeyAgreement) (ciphertext : bytes) : result bytes CryptoError :=
  decrypt_classic_pin_block (pka_protocol shared) (pka_keys shared) ciphertext.

Definition platform_authenticate (shared : PlatformKeyAgreement) (message : bytes) : bytes :=
  authenticate (pka_protocol shared) (auth_key (pka_keys shared)) message.

Definition padded_pin (pin : bytes) : option bytes :=
  if (63 <? length pin)%nat then None else Some (pin ++ repeat 0 (64 - length pin)).

End Platform.

(** Documented facts of P-256 and of the byte-valued primitives: public keys
    are points with 32-byte coordinates, and the shared secret does not depend
    on whose scalar is used. *)
Class EcdhLaws `{Crypto} : Prop := {
  public_typed s : bytes_ok s -> p256_scalar_valid s = true ->
    bytes_ok (fst (p256_public s)) /\ bytes_ok (snd (p256_public s)) /\
    length (fst (p256_public s)) = 32%nat /\ length (snd (p256_public s)) = 32%nat;
  ecdh_agrees a b : bytes_ok a -> bytes_ok b -> p256_scalar_valid a = true -> p256_scalar_valid b = true ->
    exists pa pb, p256_point ([0x04] ++ fst (p256_public a) ++ snd (p256_public a)) = Some pa /\
      p256_point ([0x04] ++ fst (p256_public b) ++ snd (p256_public b)) = Some pb /\
      p256_ecdh a pb = p256_ecdh b pa
}.

Class CipherBytes `{Crypto} : Prop := {
  sha256_bytes m : bytes_ok (sha256 m);
  aes_encrypt_bytes k iv p : bytes_ok k -> bytes_ok p -> bytes_ok (aes256_cbc_encrypt k iv p)
}.

(** ** Data *)

Definition DEFAULT_MAX_MSG_SIZE : Z := 1024.

Definition CLIENT_GET_INFO : Z := 0x04.

Definition CLIENT_PIN : Z := 0x06.

Definition CLIENT_RESET : Z := 0x07.

Definition CREDENTIAL_MANAGEMENT : Z := 0x0A.

Definition AUTHENTICATOR_CONFIG : Z := 0x0D.

Definition PROTOCOL : PinProtocol := V2.

Definition PERMISSION_CM : Z := 0x04.

Definition PERMISSION_PCMR : Z := 0x40.

Definition PERMISSION_ACFG : Z := 0x20.

Definition NO_CREDENTIALS : Z := 0x2E.

Inductive ClientError : Type :=
| ClientRequestTooLarge (encoded_bytes limit : Z)
| ClientHid (e : HidError)
| ClientStatus (status : Z)
| ClientMalformed (what : string)
| ClientCrypto (e : CryptoError).

Record Info : Type := {
  info_versions : list bytes;
  info_max_msg_size : Z;
  info_pin_set : option bool;
  info_persistent_read_only_management : option bool;
  info_authenticator_config : option bool;
  info_always_uv : option bool;
  info_set_min_pin_length : option bool;
  info_force_pin_change : option bool;
  info_pin_complexity_policy : option bool;
  info_min_pin_length : option Z;
  info_max_rp_ids_for_min_pin_length : option Z;
  info_config_commands : list Z;
  info_remaining_discoverable : option Z
}.

Record PinRetries : Type := { pr_retries : Z; pr_power_cycle_needed : bool }.

Record Passkey : Type := {
  pk_rp_id : bytes;
  pk_user_id : bytes;
  pk_user_name : option bytes;
  pk_user_display_name : option bytes;
  pk_credential_id : bytes;
  pk_alg : option Z;
  pk_third_party_payment : option bool
}.

(** A pinUvAuthToken with its protocol and its permission. *)
Record ClientToken : Type := {
  ct_secret : bytes;
  ct_protocol : PinProtocol;
  ct_permission : Z
}.

Class Connection (H : Type) : Type := {
  conn_cbor : bytes -> H -> H * result bytes HidError
}.

Record Authenticator (H : Type) : Type := {
  hid : H;
  max_msg_size : option Z;
  os_random : list (option (nat -> Z))
}.

Arguments hid {H} a.
Arguments max_msg_size {H} a.
Arguments os_random {H} a.

(** ** Values *)

Definition int (n : Z) : Value := VInteger n.

Definition text (s : string) : Value := VText (ascii_bytes s).

Definition value_member (map : Value) (key : Z) : option Value :=
  match map with VMap entries => map_get entries (int key) | _ => None end.

Definition as_text (v : Value) : option bytes := match v with VText t => Some t | _ => None end.

Definition as_bytes (v : Value) : option bytes := match v with VBytes b => Some b | _ => None end.

Definition as_bool (v : Value) : option bool := match v with VBool b => Some b | _ => None end.

(** [as_integer] and [try_from] a type with this range. *)
Definition as_ranged (low high : Z) (v : Value) : option Z :=
  match v with
  | VInteger n => if (low <=? n) && (n <=? high) then Some n else None
  | _ => None
  end.

Definition as_u64 : Value -> option Z := as_ranged 0 (2 ^ 64 - 1).

Definition as_u8 : Value -> option Z := as_ranged 0 255.

Definition as_i64 : Value -> option Z := as_ranged (- 2 ^ 63) (2 ^ 63 - 1).

Definition named_member (map : Value) (key : string) : option Value :=
  match map with VMap entries => map_get entries (text key) | _ => None end.

Definition value_text_member (map : Value) (key : string) : option bytes := named_member map key ≫= as_text.

Definition bytes_of (value : option Value) : result bytes ClientError :=
  match value with
  | Some (VBytes b) => Ok b
  | _ => Err (ClientMalformed "a byte string is missing")
  end.

Definition option_entry {A} (key : Value) (f : A -> Value) (o : option A) : Entries :=
  match o with Some x => [(key, f x)] | None => [] end.

(** ** Requests *)

Section Client.

Context {H : Type} `{Connection H} `{Crypto} `{Ciborium}.

#[local] Abbreviation Client A := (M (Authenticator H) A ClientError).

Definition with_hid (a : Authenticator H) (h : H) : Authenticator H :=
  {| hid := h; max_msg_size := max_msg_size a; os_random := os_random a |}.

Definition with_limit (limit : option Z) (a : Authenticator H) : Authenticator H :=
  {| hid := hid a; max_msg_size := limit; os_random := os_random a |}.

(** [getrandom::fill]. *)
Definition getrandom (n : nat) : Client bytes := fun a =>
  match os_random a with
  | Some d :: rest =>
      ({| hid := hid a; max_msg_size := max_msg_size a; os_random := rest |}, Ok (fill_bytes d n))
  | None :: rest =>
      ({| hid := hid a; max_msg_size := max_msg_size a; os_random := rest |}, Err (ClientCrypto Randomness))
  | [] => (a, Err (ClientCrypto Randomness))
  end.

Definition crypto {A} (r : result A CryptoError) : Client A := lift (map_err ClientCrypto r).

(** The limit a request is held to. *)
Definition request_limit (a : Authenticator H) : Z :=
  Z.min (default DEFAULT_MAX_MSG_SIZE (max_msg_size a)) MAX_PAYLOAD.

Definition exchange (request : bytes) : Client bytes := fun a =>
  match conn_cbor request (hid a) with
  | (h, Ok response) => (with_hid a h, Ok response)
  | (h, Err e) => (with_hid a h, Err (ClientHid e))
  end.

Definition read_response (response : bytes) : result Value ClientError :=
  match response with
  | [] => Err (ClientMalformed "an empty response")
  | 0 :: [] => Ok VNull
  | 0 :: body => ok_or (from_reader body) (ClientMalformed "invalid CBOR")
  | status :: _ => Err (ClientStatus status)
  end.

(** The part of [call_encoded] after the limit is known. *)
Definition send_within_limit (request : bytes) : Client Value :=
  let* limit := gets request_limit in
  if limit <? zlen request then fail (ClientRequestTooLarge (zlen request) limit)
  else
    let* response := exchange request in
    lift (read_response response).

(** *** authenticatorGetInfo *)

Definition announced_limit (entries : Entries) : result Z ClientError :=
  match List.filter (fun e : Value * Value => value_eqb (fst e) (int 0x05)) entries with
  | [] => Ok DEFAULT_MAX_MSG_SIZE
  | (_, value) :: more =>
      let? n := ok_or (match as_u64 value with
                       | Some n => if 0 <? n then Some n else None
                       | None => None
                       end) (ClientMalformed "maxMsgSize is not a positive unsigned integer") in
      match more with
      | [] => Ok n
      | _ => Err (ClientMalformed "duplicate maxMsgSize")
      end
  end.

Definition listed_values {A} (f : Value -> option A) (v : option Value) : list A :=
  match v with Some (VArray items) => omap f items | _ => [] end.

Definition info_of (info : Value) (limit : Z) : Info :=
  let option_ (name : string) := value_member info 4 ≫= (fun options => named_member options name ≫= as_bool) in
  {| info_versions := listed_values as_text (value_member info 1);
     info_max_msg_size := limit;
     info_pin_set := option_ "clientPin"%string;
     info_persistent_read_only_management := option_ "perCredMgmtRO"%string;
     info_authenticator_config := option_ "authnrCfg"%string;
     info_always_uv := option_ "alwaysUv"%string;
     info_set_min_pin_length := option_ "setMinPINLength"%string;
     info_force_pin_change := value_member info 0x0C ≫= as_bool;
     info_pin_complexity_policy := value_member info 0x1B ≫= as_bool;
     info_min_pin_length := value_member info 0x0D ≫= as_u64;
     info_max_rp_ids_for_min_pin_length := value_member info 0x10 ≫= as_u64;
     info_config_commands := listed_values as_u8 (value_member info 0x1F);
     info_remaining_discoverable := value_member info 0x14 ≫= as_u64 |}.

(** The request of [info] is [[GET_INFO]], which [call_encoded] sends whatever
    the limit. *)
Definition client_info : Client Info :=
  modify (with_limit None) ;;*
  let* info := send_within_limit [CLIENT_GET_INFO] in
  match info with
  | VMap entries =>
      let* limit := lift (announced_limit entries) in
      modify (with_limit (Some limit)) ;;*
      ret (info_of info limit)
  | _ => fail (ClientMalformed "getInfo is not a map")
  end.

Definition call_encoded (request : bytes) : Client Value :=
  let* limit := gets max_msg_size in
  (if negb (bytes_eqb request [CLIENT_GET_INFO]) && negb (is_some limit)
   then let* _ := client_info in ret tt else ret tt) ;;*
  send_within_limit request.

Definition client_call (command : Z) (parameters : option Value) : Client Value :=
  call_encoded (command :: match parameters with Some p => into_writer p | None => [] end).

(** *** authenticatorClientPIN *)

Definition protocol_value (p : PinProtocol) : Value := int (protocol_identifier p).

Definition pin_retries : Client PinRetries :=
  let* body := client_call CLIENT_PIN (Some (VMap [(int 1, protocol_value PROTOCOL); (int 2, int 1)])) in
  let* retries := lift (ok_or (value_member body 3 ≫= as_u64) (ClientMalformed "no pinRetries")) in
  ret {| pr_retries := retries;
         pr_power_cycle_needed := default false (value_member body 4 ≫= as_bool) |}.

(** [generate_key]: draw until the scalar is one. *)
Fixpoint draw_platform_key (draws : list (option (nat -> Z))) : result bytes CryptoError * list (option (nat -> Z)) :=
  match draws with
  | [] => (Err Randomness, [])
  | None :: rest => (Err Randomness, rest)
  | Some d :: rest =>
      let secret := fill_bytes d 32 in
      if p256_scalar_valid secret then (Ok secret, rest) else draw_platform_key rest
  end.

Definition generate_key : Client bytes := fun a =>
  let (r, rest) := draw_platform_key (os_random a) in
  ({| hid := hid a; max_msg_size := max_msg_size a; os_random := rest |}, map_err ClientCrypto r).

Definition is_map (v : Value) : bool := match v with VMap _ => true | _ => false end.

Definition has_int (key : Value) (label expected : Z) : bool :=
  match value_member key label with Some v => value_eqb v (int expected) | None => false end.

Definition check_key_agreement (key : Value) : result unit ClientError :=
  if negb (is_map key) then Err (ClientMalformed "keyAgreement is not a COSE map")
  else if negb (has_int key 1 2) then Err (ClientMalformed "keyAgreement kty is not integer EC2 (2)")
  else if negb (has_int key 3 (-25)) then Err (ClientMalformed "keyAgreement alg is not integer -25")
  else if negb (has_int key (-1) 1) then Err (ClientMalformed "keyAgreement crv is not integer P-256 (1)")
  else Ok tt.

Definition coordinate (key : Value) (label : Z) : result bytes ClientError :=
  let? b := bytes_of (value_member key label) in
  if (length b =? 32)%nat then Ok b
  else Err (ClientMalformed "a key agreement coordinate is not 32 bytes").

(** The platform's COSE key. *)
Definition platform_cose (shared : PlatformKeyAgreement) : Value :=
  VMap [(int 1, int 2); (int 3, int (-25)); (int (-1), int 1);
        (int (-2), VBytes (pka_public_x shared)); (int (-3), VBytes (pka_public_y shared))].

Definition shared_secret (selected : PinProtocol) : Client (PlatformKeyAgreement * Value) :=
  let* body := client_call CLIENT_PIN (Some (VMap [(int 1, protocol_value selected); (int 2, int 2)])) in
  let* key := lift (ok_or (value_member body 1) (ClientMalformed "no keyAgreement")) in
  lift (check_key_agreement key) ;;*
  let* secret := generate_key in
  let* x := lift (coordinate key (-2)) in
  let* y := lift (coordinate key (-3)) in
  let* shared := crypto (platform_key_agreement selected x y secret) in
  ret (shared, platform_cose shared).

Definition fresh_iv : Client bytes := getrandom 16.

Definition set_pin (pin : bytes) : Client unit :=
  let* ' (shared, key) := shared_secret PROTOCOL in
  let* padded := lift (ok_or (padded_pin pin) (ClientStatus 0x37)) in
  let* v := fresh_iv in
  let* new_pin_enc := crypto (platform_encrypt shared padded v) in
  let auth := platform_authenticate shared new_pin_enc in
  let* _ := client_call CLIENT_PIN (Some (VMap
    [(int 1, protocol_value PROTOCOL); (int 2, int 3); (int 3, key);
     (int 4, VBytes auth); (int 5, VBytes new_pin_enc)])) in
  ret tt.

Definition change_pin (current new : bytes) : Client unit :=
  let* ' (shared, key) := shared_secret PROTOCOL in
  let* padded := lift (ok_or (padded_pin new) (ClientStatus 0x37)) in
  let* v := fresh_iv in
  let* new_pin_enc := crypto (platform_encrypt shared padded v) in
  let* v' := fresh_iv in
  let* pin_hash_enc := crypto (platform_encrypt shared (pin_hash_of current) v') in
  let auth := platform_authenticate shared (new_pin_enc ++ pin_hash_enc) in
  let* _ := client_call CLIENT_PIN (Some (VMap
    [(int 1, protocol_value PROTOCOL); (int 2, int 4); (int 3, key);
     (int 4, VBytes auth); (int 5, VBytes new_pin_enc); (int 6, VBytes pin_hash_enc)])) in
  ret tt.

(** *** Tokens *)

Definition permission_token (pin : bytes) (permission : Z) (protocol : PinProtocol) : Client ClientToken :=
  let* ' (shared, key) := shared_secret protocol in
  let* v := fresh_iv in
  let* pin_hash_enc := crypto (platform_encrypt shared (pin_hash_of pin) v) in
  let* body := client_call CLIENT_PIN (Some (VMap
    [(int 1, protocol_value protocol); (int 2, int 9); (int 3, key);
     (int 6, VBytes pin_hash_enc); (int 9, int permission)])) in
  let* encrypted := lift (bytes_of (value_member body 2)) in
  let* token := crypto (platform_decrypt shared encrypted) in
  if negb (length token =? 32)%nat && negb (bool_decide (protocol = V1) && (length token =? 16)%nat)
  then fail (ClientMalformed "management token has an invalid protocol length")
  else ret {| ct_secret := token; ct_protocol := protocol; ct_permission := permission |}.

Definition management_token (pin : bytes) : Client ClientToken := permission_token pin PERMISSION_CM PROTOCOL.

Definition config_token (pin : bytes) : Client ClientToken := permission_token pin PERMISSION_ACFG PROTOCOL.

Definition read_only_management_token_with_protocol (pin : bytes) (protocol : PinProtocol) : Client ClientToken :=
  permission_token pin PERMISSION_PCMR protocol.

Definition read_only_management_token (pin : bytes) : Client ClientToken :=
  read_only_management_token_with_protocol pin PROTOCOL.

Definition management_token_with_protocol (pin : bytes) (protocol : PinProtocol) : Client ClientToken :=
  permission_token pin PERMISSION_CM protocol.

Definition listing_token (pin : bytes) : Client ClientToken :=
  let* info := client_info in
  if bool_decide (info_persistent_read_only_management info = Some true)
  then read_only_management_token pin else management_token pin.

(** *** authenticatorConfig *)

(** The last two fields of an authenticated request. *)
Definition token_fields (token : ClientToken) (message : bytes) : bytes :=
  [0x03] ++ into_writer (protocol_value (ct_protocol token))
  ++ [0x04] ++ into_writer (VBytes (authenticate (ct_protocol token) (ct_secret token) message)).

Definition parameter_field (parameters : option bytes) : bytes :=
  match parameters with Some p => 0x02 :: p | None => [] end.

Definition present {A} (o : option A) : Z := if is_some o then 1 else 0.

Definition configuration (token : option ClientToken) (subcommand : Z) (parameters : option Value) : Client unit :=
  let parameters := into_writer <$> parameters in
  let fields := 1 + present parameters + 2 * present token in
  let* _ := call_encoded
    ([AUTHENTICATOR_CONFIG; 0xA0 + fields; 0x01; subcommand] ++ parameter_field parameters
     ++ match token with
        | Some token =>
            token_fields token (repeat 0xFF 32 ++ [AUTHENTICATOR_CONFIG; subcommand] ++ default [] parameters)
        | None => []
        end) in
  ret tt.

Definition client_toggle_always_uv (token : option ClientToken) : Client unit := configuration token 0x02 None.

Definition client_set_min_pin_length (token : option ClientToken) (minimum : option Z) (rp_ids : option (list bytes))
    (force_change complexity : option bool) : Client unit :=
  configuration token 0x03 (Some (VMap
    (option_entry (int 1) int minimum
     ++ option_entry (int 2) (fun ids => VArray (map VText ids)) rp_ids
     ++ option_entry (int 3) VBool force_change
     ++ option_entry (int 4) VBool complexity))).

(** *** authenticatorCredentialManagement *)

Definition management (token : ClientToken) (subcommand : Z) (parameters : option Value) : Client Value :=
  if ((subcommand =? 6) || (subcommand =? 7)) && negb (ct_permission token =? PERMISSION_CM)
  then fail (ClientStatus 0x33)
  else
    let parameters := into_writer <$> parameters in
    let message := [subcommand] ++ default [] parameters in
    let fields := 3 + present parameters in
    call_encoded ([CREDENTIAL_MANAGEMENT; 0xA0 + fields; 0x01; subcommand] ++ parameter_field parameters
                  ++ token_fields token message).

Definition management_next (subcommand : Z) : Client Value :=
  client_call CREDENTIAL_MANAGEMENT (Some (VMap [(int 1, int subcommand)])).

(** [for _ in 1..total]. *)
Fixpoint next_times (n : nat) (subcommand : Z) : Client (list Value) :=
  match n with
  | O => ret []
  | S n' =>
      let* v := management_next subcommand in
      let* rest := next_times n' subcommand in
      ret (v :: rest)
  end.

(** A first answer, and as many more as it counts under [key]. *)
Definition enumerate (first : Value) (key subcommand : Z) : Client (list Value) :=
  let total := default 1 (value_member first key ≫= as_u64) in
  let* rest := next_times (Z.to_nat (total - 1)) subcommand in
  ret (first :: rest).

Definition passkey_of (rp_id : bytes) (credential : Value) : result Passkey ClientError :=
  let? user := ok_or (value_member credential 6) (ClientMalformed "no user") in
  let? descriptor := ok_or (value_member credential 7) (ClientMalformed "no credentialID") in
  let? id := match descriptor with
             | VMap _ => ok_or (named_member descriptor "id" ≫= as_bytes) (ClientMalformed "no credential ID")
             | _ => Err (ClientMalformed "no credential descriptor")
             end in
  Ok {| pk_rp_id := rp_id;
        pk_user_id := default [] (named_member user "id" ≫= as_bytes);
        pk_user_name := value_text_member user "name";
        pk_user_display_name := value_text_member user "displayName";
        pk_credential_id := id;
        pk_alg := value_member credential 8 ≫= (fun key => value_member key 3 ≫= as_i64);
        pk_third_party_payment := value_member credential 0x0C ≫= as_bool |}.

Fixpoint passkeys_of (rp_id : bytes) (credentials : list Value) : result (list Passkey) ClientError :=
  match credentials with
  | [] => Ok []
  | c :: rest => let? p := passkey_of rp_id c in let? ps := passkeys_of rp_id rest in Ok (p :: ps)
  end.

Fixpoint rps_passkeys (token : ClientToken) (rps : list Value) : Client (list Passkey) :=
  match rps with
  | [] => ret []
  | rp :: rest =>
      let rp_id := default [] (value_member rp 3 ≫= (fun entity => value_text_member entity "id")) in
      let* hash := lift (bytes_of (value_member rp 4)) in
      let* first := management token 0x04 (Some (VMap [(int 1, VBytes hash)])) in
      let* credentials := enumerate first 9 0x05 in
      let* found := lift (passkeys_of rp_id credentials) in
      let* more := rps_passkeys token rest in
      ret (found ++ more)
  end.

Definition passkeys (token : ClientToken) : Client (list Passkey) := fun a =>
  match management token 0x02 None a with
  | (a', Err (ClientStatus status)) =>
      if status =? NO_CREDENTIALS then (a', Ok []) else (a', Err (ClientStatus status))
  | (a', Err e) => (a', Err e)
  | (a', Ok first) => (let* rps := enumerate first 5 0x03 in rps_passkeys token rps) a'
  end.

Definition public_key_descriptor (credential_id : bytes) : Value :=
  VMap [(text "id", VBytes credential_id); (text "type", text "public-key")].

Definition client_delete (token : ClientToken) (credential_id : bytes) : Client unit :=
  let* _ := management token 0x06 (Some (VMap [(int 2, public_key_descriptor credential_id)])) in ret tt.

Definition update_user_information (token : ClientToken) (credential_id user_id : bytes)
    (name display_name : option bytes) : Client unit :=
  let user := (text "id", VBytes user_id)
              :: option_entry (text "name") VText name
              ++ option_entry (text "displayName") VText display_name in
  let* _ := management token 7 (Some (VMap [(int 2, public_key_descriptor credential_id); (int 3, VMap user)])) in
  ret tt.

(** *** authenticatorReset *)

Definition client_reset : Client unit := let* _ := client_call CLIENT_RESET None in ret tt.

End Client.
