(* ===== verification/ClientEngine.v ===== *)
(** * The management client and the engine together

    The client's requests as the engine reads them: what the client encodes
    passes the engine's canonical-form check and parses to what was sent, both
    sides agree on the session keys, and the token the client ends up with is
    the one the engine put in use.  The connection hands each request to
    [CtapApp::call] and the answer back, which is what a CTAPHID transaction
    does ([HidWire.v]). *)

From stdpp Require Import list.
From S2P Require Import Prelude Constants Alg Crypto Cbor ConcreteCbor CborProofs Records PinRetry Token Presence Store.
From S2P Require Import CredentialKey Signing Engine EngineProofs ClientPin ClientPinProofs ClientPinTheorems.
From S2P Require Import LargeBlobs Dispatch Footprint Session PinSession Codec CodecProofs CborWire HidClient ManagementClient.
From S2P Require Import ConcreteCrypto StoreProofs Scenario.

(** A request encoded in the canonical form parses to what was encoded. *)
Lemma request_written `{Ciborium} `{!CiboriumLaws} (entries : Entries) :
  writable MAX_NESTING (VMap entries) -> addressable (into_writer (VMap entries)) ->
  request_parameters (into_writer (VMap entries)) = Ok entries.
Proof.
  intros Hw Ha. pose proof Hw as (Hok & Hpl & _ & Hn). rewrite ciborium_writes in * by done.
  rewrite <- (app_nil_r (write_value _)) in Ha.
  destruct (written_scanned MAX_NESTING (VMap entries) [] [] Hw Ha) as [Hc Hcopy].
  cbn [app length Nat.add] in Hc, Hcopy. rewrite app_nil_r in Hc, Hcopy.
  unfold request_parameters. rewrite bool_decide_eq_true_2 by done. cbn [negb].
  rewrite Hcopy, Nat.eqb_refl. cbn [negb]. by rewrite ciborium_reads.
Qed.

Section Together.

Context {S : Type} `{Crypto} `{KeyCrypto} `{SigningCrypto} `{Ciborium} `{CredentialStore S}.
Context `{!PinStoreLaws S} `{!HashLengths} `{!HmacBytes} `{!AesLaws} `{!CiboriumLaws} `{!EcdhLaws} `{!CipherBytes}.

#[local] Abbreviation App := (CtapApp S).

(** The key at the other end. *)
#[export] Instance direct_connection : Connection App := {|
  conn_cbor := fun request a => let (b, answer) := call request a in (b, Ok answer)
|}.

(** The engine's key agreement keys are P-256 scalars, as it draws them. *)
Definition agreement_valid (a : App) : Prop :=
  forall p k, key_slot (agreement_keys a) p = Some k -> bytes_ok k /\ p256_scalar_valid k = true.

(** ** Sending *)

(** A request that was answered with a value was sent whole, within the limit. *)
Lemma sent_ok request (s s' : Authenticator App) limit v :
  max_msg_size s = Some limit -> call_encoded request s = (s', Ok v) ->
  exists answer, call request (hid s) = (hid s', answer) /\ read_response answer = Ok v /\
    zlen request <= MAX_PAYLOAD /\ max_msg_size s' = Some limit.
Proof.
  intros Hl Hr. unfold call_encoded in Hr. peel Hr s0 l Hg. injection Hg as <- <-. rewrite Hl in Hr.
  cbn [is_some negb] in Hr. rewrite andb_false_r in Hr. peel Hr s0 u Hu. injection Hu as <- _.
  unfold send_within_limit in Hr. peel Hr s0 l Hg. injection Hg as <- <-.
  destruct (Z.ltb_spec (request_limit s) (zlen request)); [done|].
  peel Hr s1 answer He. unfold exchange in He. cbn [conn_cbor direct_connection] in He.
  destruct (call request (hid s)) as [b ans] eqn:Ec. injection He as <- <-. apply lift_ok in Hr as [-> Hr].
  exists ans. cbn [hid with_hid max_msg_size]. split; [done|]. split; [done|]. split; [|done].
  unfold request_limit in *. lia.
Qed.

Lemma payload_addressable (command : Z) (payload : bytes) :
  zlen (command :: payload) <= MAX_PAYLOAD -> addressable payload.
Proof. unfold addressable, zlen. cbn [length]. change MAX_PAYLOAD with 7609. lia. Qed.

(** An answer read as a value came from a handler that succeeded. *)
Lemma answered_ok request (a b : App) answer entries :
  call request a = (b, answer) -> read_response answer = Ok (VMap entries) ->
  call_result request a = (b, Ok answer).
Proof.
  unfold call. destruct (call_result request a) as [b' [m|st]] eqn:E; intros [= <- <-]; [done|].
  unfold read_response. repeat case_match; done.
Qed.

(** What precedes the handler leaves the authority and the keys alone. *)
Lemma client_pin_call payload (a b : App) answer :
  call_result (CLIENT_PIN :: payload) a = (b, Ok answer) ->
  exists a0, view a0 = view a /\ agreement_keys a0 = agreement_keys a /\
    handle_client_pin payload a0 = (b, Ok answer).
Proof.
  intros Hr. unfold call_result in Hr. peel Hr a1 u Ho.
  pose proof (same_keys_observe (head (CLIENT_PIN :: payload)) a) as Hk. rewrite Ho in Hk.
  assert (Hv : view a1 = view a).
  { assert (Hsv : same_view (S := S) (observe_large_blob_state (head (CLIENT_PIN :: payload)))).
    { unfold observe_large_blob_state, discard, set_blob_state. repeat same_view_step. }
    specialize (Hsv a). by rewrite Ho in Hsv. }
  peel Hr a2 u2 Hf. injection Hf as <- _. eexists. split; [|split; [|exact Hr]]; done.
Qed.

(** ** Key agreement *)

Definition platform_labels (x y : bytes) : Entries :=
  [(VInteger 1, VInteger 2); (VInteger 3, VInteger (-25)); (VInteger (-1), VInteger 1);
   (VInteger (-2), VBytes x); (VInteger (-3), VBytes y)].

Lemma int_key_cmp k k' : value_ok (VInteger k) = true -> value_ok (VInteger k') = true ->
  canonical_key_cmp (VInteger k) (VInteger k') =
  canonical_key_order (write_value (VInteger k)) (write_value (VInteger k')).
Proof. intros Hk Hk'. unfold canonical_key_cmp, encode_key. by rewrite !ciborium_writes. Qed.

Lemma insert_first k v (l : Entries) : value_ok (VInteger k) = true ->
  match l with
  | [] => True
  | (VInteger k', _) :: _ => value_ok (VInteger k') = true /\
      canonical_key_order (write_value (VInteger k)) (write_value (VInteger k')) = Lt
  | _ => False
  end -> insert_entry (VInteger k, v) l = (VInteger k, v) :: l.
Proof.
  destruct l as [|[[] v'] l]; try done. intros Hk [Hk' Hlt]. cbn [insert_entry fst]. by rewrite int_key_cmp, Hlt.
Qed.

Lemma cose_key_labels secret :
  cose_key secret = VMap (platform_labels (fst (p256_public secret)) (snd (p256_public secret))).
Proof.
  unfold cose_key, canonical_map, canonical_sort. cbn [fold_right].
  rewrite (insert_first (-3)) by done. rewrite (insert_first (-2)) by done. rewrite (insert_first (-1)) by done.
  rewrite (insert_first 3) by done. by rewrite (insert_first 1) by done.
Qed.

Lemma ok_response_one key v : ok_response [(VInteger key, v)] = CTAP2_OK :: into_writer (VMap [(VInteger key, v)]).
Proof. done. Qed.

Lemma bytes_value_ok b : bytes_ok b -> zlen b < 2 ^ 64 -> value_ok (VBytes b) = true.
Proof.
  intros Hb Hl. cbn [value_ok]. apply andb_true_iff. split; [by apply vec_bytes_ok|by apply Z.ltb_lt].
Qed.

Lemma writable_mono n m v : writable n v -> (n <= m)%nat -> writable m v.
Proof. intros (? & ? & ? & ?) ?. split_and!; try done. lia. Qed.

(** A map with one field. *)
Lemma writable_one n key v : writable n v -> value_ok (VInteger key) = true ->
  writable (Datatypes.S n) (VMap [(VInteger key, v)]).
Proof.
  intros (Ho & Hp & Hc & Hn) Hk. split_and!.
  - change (value_ok (VMap [(VInteger key, v)])) with (value_ok (VInteger key) && value_ok v && true && true).
    by rewrite Hk, Ho.
  - change (value_plain (VMap [(VInteger key, v)])) with (value_plain v && true). by rewrite Hp.
  - change (canonical_value (VMap [(VInteger key, v)])) with (canonical_value v && true && true). by rewrite Hc.
  - cbn [value_nesting fold_right]. lia.
Qed.

Lemma labels_writable x y : bytes_ok x -> bytes_ok y -> length x = 32%nat -> length y = 32%nat ->
  writable 1 (VMap (platform_labels x y)).
Proof.
  intros Hx Hy Hlx Hly. pose proof (bytes_value_ok x Hx ltac:(unfold zlen; rewrite Hlx; lia)) as Ox.
  pose proof (bytes_value_ok y Hy ltac:(unfold zlen; rewrite Hly; lia)) as Oy. split; [|split; [|split]].
  - change (value_ok (VMap (platform_labels x y))) with
      ((true && (value_ok (VBytes x) && (value_ok (VBytes y) && true)) && true)). by rewrite Ox, Oy.
  - done.
  - done.
  - done.
Qed.

(** Reading an answer with one field. *)
Lemma read_ok_response key v : writable MAX_NESTING (VMap [(VInteger key, v)]) ->
  read_response (ok_response [(VInteger key, v)]) = Ok (VMap [(VInteger key, v)]).
Proof.
  intros (Hok & Hpl & _ & Hn). rewrite ok_response_one, ciborium_writes by done.
  destruct (write_value (VMap [(VInteger key, v)])) as [|b l] eqn:E.
  { pose proof (write_value_length (VMap [(VInteger key, v)])) as Hl. rewrite E in Hl. simpl in Hl. lia. }
  cbn [read_response]. change CTAP2_OK with 0. rewrite <- E. by rewrite ciborium_reads.
Qed.

Lemma drawn_key n (a b : App) k : Engine.draw_key n a = (b, Ok k) ->
  bytes_ok k /\ p256_scalar_valid k = true /\ agreement_keys b = agreement_keys a.
Proof.
  revert a. induction n as [|n IH]; intros a; cbn [Engine.draw_key]; [done|]. intros Hr. peel Hr a1 c Hc.
  injection Hc as <- <-. destruct (p256_scalar_valid (fill_bytes _ _)) eqn:Ev.
  - injection Hr as <- <-. split; [apply fill_bytes_ok|done].
  - apply IH in Hr as (? & ? & ->). done.
Qed.

(** The key drawn or found stays for the next request. *)
Lemma key_agreement_kept protocol (a b : App) k :
  agreement_valid a -> key_agreement_key protocol a = (b, Ok k) ->
  key_slot (agreement_keys b) protocol = Some k /\ agreement_valid b.
Proof.
  intros Hv. unfold key_agreement_key. fold (agreement_keys a). destruct (key_slot (agreement_keys a) protocol) eqn:Es.
  - intros [= <- <-]. done.
  - intros Hr. peel Hr a1 k1 Hd. apply drawn_key in Hd as (Hb & Hs & Hk). injection Hr as <- <-.
    assert (Hkeys : agreement_keys (with_pin_state a1 (with_key_agreement (app_pin_state a1)
        (set_key_slot (ps_key_agreement (app_pin_state a1)) protocol (Some k1)))) =
      set_key_slot (agreement_keys a) protocol (Some k1)) by (rewrite <- Hk; done).
    unfold agreement_valid. rewrite Hkeys. split; [by destruct protocol|].
    intros p c. destruct (decide (p = protocol)) as [->|Hne].
    + intros Hc. assert (c = k1) as -> by (destruct protocol; by injection Hc). done.
    + intros Hc. apply (Hv p). destruct p, protocol; done.
Qed.

(** getKeyAgreement gives the public key of the secret the engine keeps. *)
Lemma key_agreement_call protocol (a b : App) answer v :
  agreement_valid a ->
  let request := CLIENT_PIN :: into_writer (VMap [(int 1, protocol_value protocol); (int 2, int 2)]) in
  zlen request <= MAX_PAYLOAD ->
  call request a = (b, answer) -> read_response answer = Ok v -> is_map v = true ->
  exists secret, view b = view a /\ key_slot (agreement_keys b) protocol = Some secret /\ agreement_valid b /\
    v = VMap [(VInteger 1, VMap (platform_labels (fst (p256_public secret)) (snd (p256_public secret))))].
Proof.
  intros Hval request Hlen Hc Hv Hmap. destruct v as [| | | | | | | |entries]; try done.
  apply (answered_ok _ _ _ _ entries) in Hc; [|done]. unfold request in Hc.
  apply client_pin_call in Hc as (a0 & Hvw & Hk & Hh).
  unfold handle_client_pin in Hh. rewrite request_written in Hh;
    [|by destruct protocol; split_and!; first [reflexivity|apply Nat.leb_le; reflexivity]|by eapply payload_addressable].
  peel_lift Hh map_ Hm. injection Hm as <-. peel_lift Hh sub Hs.
  change (Ok GetKeyAgreement = Ok sub :> result ClientPinSubcommand Z) in Hs. injection Hs as <-.
  rewrite bool_decide_eq_true_2 in Hh by done. peel Hh a1 u Hu. injection Hu as <- _.
  peel_lift Hh p Hp. assert (p = protocol) as -> by (destruct protocol; by injection Hp).
  unfold client_pin_get_key_agreement in Hh. peel Hh a2 secret Hsec. injection Hh as <- <-.
  exists secret.
  assert (Hvs : view a2 = view a0).
  { pose proof (same_view_key_agreement_key protocol a0) as Hx. by rewrite Hsec in Hx. }
  assert (Hslot : key_slot (agreement_keys a2) protocol = Some secret /\ agreement_valid a2).
  { apply key_agreement_kept in Hsec; [|by unfold agreement_valid; rewrite Hk]. done. }
  destruct Hslot as [Hslot Hval2]. split; [congruence|]. split; [done|]. split; [done|].
  destruct (Hval2 _ _ Hslot) as [Hb Hs]. destruct (public_typed secret Hb Hs) as (B1 & B2 & L1 & L2).
  rewrite cose_key_labels in Hv.
  rewrite read_ok_response in Hv; [congruence|].
  eapply writable_mono; [apply writable_one; [by apply labels_writable|done]|apply Nat.leb_le; reflexivity].
Qed.

Lemma drawn_platform_key draws secret rest :
  draw_platform_key draws = (Ok secret, rest) -> bytes_ok secret /\ p256_scalar_valid secret = true.
Proof.
  induction draws as [|[d|] draws IH]; cbn [draw_platform_key]; [done| |done].
  destruct (p256_scalar_valid (fill_bytes d 32)) eqn:Ev; [|done]. intros [= <- _]. split; [apply fill_bytes_ok|done].
Qed.

(** Both sides derive the same keys. *)
Lemma decapsulate_platform protocol secret mine peer :
  bytes_ok secret -> bytes_ok mine -> p256_scalar_valid secret = true -> p256_scalar_valid mine = true ->
  p256_point ([0x04] ++ fst (p256_public secret) ++ snd (p256_public secret)) = Some peer ->
  decapsulate_with secret protocol (platform_labels (fst (p256_public mine)) (snd (p256_public mine))) =
  Ok (try_derive_classic_pin_uv_session_keys protocol (p256_ecdh mine peer)).
Proof.
  intros Hb Hb' Hs Hs' Hp. destruct (ecdh_agrees secret mine) as (ps & pm & E1 & E2 & E3); [done..|].
  destruct (public_typed mine Hb' Hs') as (_ & _ & L1 & L2). unfold decapsulate_with. cbv zeta. cbn -[p256_point app].
  rewrite L1, L2. cbn -[p256_point app]. rewrite E2. cbn. congruence.
Qed.

Lemma shared_secret_ok protocol (s s' : Authenticator App) limit shared key :
  agreement_valid (hid s) -> max_msg_size s = Some limit ->
  shared_secret protocol s = (s', Ok (shared, key)) ->
  exists secret mine, view (hid s') = view (hid s) /\ max_msg_size s' = Some limit /\
    key_slot (agreement_keys (hid s')) protocol = Some secret /\ agreement_valid (hid s') /\
    bytes_ok mine /\ p256_scalar_valid mine = true /\
    key = VMap (platform_labels (fst (p256_public mine)) (snd (p256_public mine))) /\
    pka_protocol shared = protocol /\
    decapsulate_with secret protocol (platform_labels (fst (p256_public mine)) (snd (p256_public mine))) =
      Ok (pka_keys shared).
Proof.
  intros Hval Hl Hr. unfold shared_secret in Hr. peel Hr s1 body Hb.
  apply (sent_ok _ _ _ limit) in Hb as (answer & Hc & Hv & Hlen & Hl1); [|done].
  peel_lift Hr k Hk. destruct (is_map body) eqn:Em; [|by destruct body].
  destruct (key_agreement_call _ _ _ _ _ Hval Hlen Hc Hv Em) as (secret & Hvw & Hslot & Hval1 & Hbody). rewrite Hbody in Hk.
  assert (k = VMap (platform_labels (fst (p256_public secret)) (snd (p256_public secret)))) as -> by (by injection Hk).
  peel_lift Hr u Hu. clear u Hu. peel Hr s2 mine Hg. unfold generate_key in Hg.
  destruct (draw_platform_key (os_random s1)) as [rk rest] eqn:Ed. injection Hg as <- Hg.
  destruct rk as [mine'|]; [|done]. injection Hg as ->. apply drawn_platform_key in Ed as [Hmb Hms].
  destruct (Hval1 _ _ Hslot) as [Hsb Hss]. destruct (public_typed secret Hsb Hss) as (_ & _ & L1 & L2).
  peel_lift Hr x Hx. peel_lift Hr y Hy. unfold coordinate in Hx, Hy. cbn in Hx, Hy. rewrite L1 in Hx. rewrite L2 in Hy.
  injection Hx as <-. injection Hy as <-. peel Hr s3 sh Hsh. unfold crypto in Hsh. apply lift_ok in Hsh as [-> Hsh].
  injection Hr as <- <- <-. unfold platform_key_agreement in Hsh.
  destruct (p256_point _) as [peer|] eqn:Ep; [|done]. cbn in Hsh. rewrite Hms in Hsh. injection Hsh as <-.
  exists secret, mine. cbn [hid max_msg_size platform_cose pka_protocol pka_keys pka_public_x pka_public_y].
  split_and!; try done. by apply decapsulate_platform.
Qed.

(** ** The token request *)

Lemma session_key_bytes protocol z : bytes_ok (encryption_key (try_derive_classic_pin_uv_session_keys protocol z)).
Proof. destruct protocol; [apply sha256_bytes|apply hmac_sha256_bytes]. Qed.

Lemma decapsulated_bytes secret protocol ka keys :
  decapsulate_with secret protocol ka = Ok keys -> bytes_ok (encryption_key keys).
Proof.
  unfold decapsulate_with. cbv zeta. intros Hd. destruct (_ || _); [done|].
  destruct (map_get ka (VInteger (-2))) as [[]|]; try done.
  destruct (map_get ka (VInteger (-3))) as [[]|]; try done. destruct (negb _); [done|].
  destruct (p256_point _); [|done]. injection Hd as <-. apply session_key_bytes.
Qed.

Lemma encrypted_typed protocol keys v p c :
  bytes_ok (encryption_key keys) -> length (encryption_key keys) = 32%nat -> bytes_ok p ->
  bytes_ok v -> length v = 16%nat ->
  encrypt_classic_pin_block protocol keys (Some v) p = Ok c ->
  bytes_ok c /\ (length c <= 16 + length p)%nat.
Proof.
  intros Hk Hl Hp Hv Hlv He. unfold encrypt_classic_pin_block in He. cbn [bind ok_or] in He.
  destruct protocol; (destruct (negb _) eqn:Em; [done|]); injection He as <-;
    apply negb_false_iff, Nat.eqb_eq in Em.
  - split; [by apply aes_encrypt_bytes|]. rewrite aes_length by done. lia.
  - split; [apply Forall_app; split; [done|by apply aes_encrypt_bytes]|]. rewrite length_app, aes_length by done. lia.
Qed.

(** Protocol one ignores the IV. *)
Lemma encrypt_any_iv protocol keys v o p c :
  encrypt_classic_pin_block protocol keys o p = Ok c ->
  match o with Some w => w = v | None => protocol = V1 end ->
  encrypt_classic_pin_block protocol keys (Some v) p = Ok c.
Proof. destruct o as [w|]; [by intros ? ->|]. by intros ? ->. Qed.

Lemma token_secret_bytes n forbidden p (a b : App) token :
  fresh_secret_loop n forbidden p a = (b, Ok token) -> bytes_ok token.
Proof.
  revert a. induction n as [|n IH]; intros a; cbn [fresh_secret_loop]; [done|]. intros Hr. peel Hr a1 c Hc.
  injection Hc as <- <-. destruct (_ && _); [injection Hr as _ <-; apply fill_bytes_ok|by eapply IH].
Qed.

Lemma granted_typed protocol keys grant (a b : App) c :
  bytes_ok (encryption_key keys) -> length (encryption_key keys) = 32%nat ->
  grant_transient protocol keys grant a = (b, Ok c) -> bytes_ok c /\ (length c <= 48)%nat.
Proof.
  intros Hk Hl Hg. peel Hg a1 p0 Hp0. peel Hg a2 token Hf.
  pose proof (token_secret_bytes _ _ _ _ _ _ Hf) as Hb. apply fresh_secret_ok in Hf as (Hlen & _).
  peel Hg a3 enc He. peel Hg a4 u Hi. peel Hg a5 u' Hi'. injection Hg as _ <-.
  unfold encrypt_for_platform in He. peel He a6 o Ho. apply lift_ok in He as [_ He].
  destruct (encrypt_classic_pin_block protocol keys o token) as [c|] eqn:E; [|done]. injection He as ->.
  destruct protocol.
  - injection Ho as _ <-. apply (encrypt_any_iv V1 keys (repeat 0 16)) in E; [|done].
    apply encrypted_typed in E as [? ?]; try done; [split; [done|lia]|..].
    all: try done. apply List.Forall_forall. intros x Hx%repeat_spec. subst x. unfold is_byte. lia.
  - peel Ho a7 v Hv. injection Hv as _ <-. injection Ho as _ <-.
    apply encrypted_typed in E as [? ?]; try done; [split; [done|lia]|apply fill_bytes_ok].
Qed.

Lemma get_token_agreed protocol secret ka enc grant fe (a b : App) response :
  pin_inv a -> app_stored_pin_state a = Read -> key_slot (agreement_keys a) protocol = Some secret ->
  client_pin_get_token_common protocol ka enc grant fe a = (b, Ok response) ->
  exists keys a2 a3 c, decapsulate_with secret protocol ka = Ok keys /\ core a2 = core a /\
    verify_pin_hash_enc protocol keys enc a2 = (a3, Ok tt) /\
    (if grant_permissions grant =? PIN_PERMISSION_PCMR then grant_persistent protocol keys
     else grant_transient protocol keys grant) a3 = (b, Ok c) /\
    response = ok_response [(VInteger 2, VBytes c)].
Proof.
  intros Hi Hst Hslot Hg. unfold client_pin_get_token_common in Hg.
  peel Hg a0 u Hc. injection Hc as <- _. peel Hg a1 u1 Hr. destruct u1.
  pose proof (same_keys_refresh a) as Hk. rewrite Hr in Hk. apply refresh_core in Hr; [|done..].
  peel Hg a2 keys Hd. pose proof (same_core_decapsulate protocol ka a1) as Hc2. rewrite Hd in Hc2.
  unfold decapsulate in Hd. peel Hd a2' k Hs. apply lift_ok in Hd as [-> Hd].
  unfold key_agreement_key in Hs. fold (agreement_keys a1) in Hs. cbn [fst] in Hk. rewrite Hk, Hslot in Hs.
  injection Hs as <- <-.
  peel Hg a3 u3 Hv. destruct u3. peel Hg a3' force Hf. injection Hf as <- <-.
  destruct (pp_force_pin_change (persistent a3)); [done|]. peel Hg a4 c Hgr. injection Hg as <- <-.
  exists keys, a1, a3, c. by split_and!.
Qed.

Definition token_request (protocol : PinProtocol) (labels : Entries) (enc : bytes) (permission : Z) : Entries :=
  [(int 1, protocol_value protocol); (int 2, int 9); (int 3, VMap labels); (int 6, VBytes enc); (int 9, int permission)].

Lemma token_request_writable protocol x y enc permission :
  bytes_ok x -> bytes_ok y -> length x = 32%nat -> length y = 32%nat ->
  bytes_ok enc -> zlen enc < 2 ^ 64 -> permission = PERMISSION_CM \/ permission = PERMISSION_ACFG ->
  writable MAX_NESTING (VMap (token_request protocol (platform_labels x y) enc permission)).
Proof.
  intros Hx Hy Hlx Hly He Hle Hp.
  destruct (labels_writable x y Hx Hy Hlx Hly) as (O1 & P1 & C1 & N1).
  pose proof (bytes_value_ok enc He Hle) as O2.
  set (labels := VMap (platform_labels x y)) in *. split_and!.
  - change (value_ok (VInteger (protocol_identifier protocol)) && (true && (value_ok labels &&
      (value_ok (VBytes enc) && (value_ok (VInteger permission) && true)))) && true = true).
    rewrite O1, O2. destruct protocol, Hp as [->| ->]; reflexivity.
  - change (value_plain labels && true = true). by rewrite P1.
  - change ((canonical_value labels && true) &&
      keys_ascend None (token_request protocol (platform_labels x y) enc permission) = true).
    by rewrite C1.
  - change (Datatypes.S (Nat.max 0 (Nat.max 0 (Nat.max (Nat.max 0 (value_nesting labels)) 0))) <= MAX_NESTING)%nat.
    unfold MAX_NESTING. lia.
Qed.

Lemma token_call protocol secret x y keys enc permission (a b : App) answer v :
  pin_inv a -> app_stored_pin_state a = Read -> key_slot (agreement_keys a) protocol = Some secret ->
  writable MAX_NESTING (VMap (token_request protocol (platform_labels x y) enc permission)) ->
  permission = PERMISSION_CM \/ permission = PERMISSION_ACFG ->
  decapsulate_with secret protocol (platform_labels x y) = Ok keys ->
  let request := CLIENT_PIN :: into_writer (VMap (token_request protocol (platform_labels x y) enc permission)) in
  zlen request <= MAX_PAYLOAD ->
  call request a = (b, answer) -> read_response answer = Ok v -> is_map v = true ->
  exists t h c, v = VMap [(VInteger 2, VBytes c)] /\ decrypt protocol keys c = Some (tk_value t) /\
    tks_in_use (ps_token (app_pin_state b)) = Some t /\ tk_permissions t = permission /\
    tk_permissions_rp_id t = None /\ tk_protocol t = protocol /\
    pp_pin_hash (persistent a) = Some h /\ decrypt protocol keys enc = Some h.
Proof.
  intros Hi Hst Hslot Hw Hperm Hdk request Hlen Hc Hv Hmap. destruct v as [| | | | | | | |entries]; try done.
  apply (answered_ok _ _ _ _ entries) in Hc; [|done]. unfold request in Hc.
  apply client_pin_call in Hc as (a0 & Hvw & Hk & Hh).
  assert (Hi0 : pin_inv a0) by (by apply (pin_inv_view a)).
  assert (Hst0 : app_stored_pin_state a0 = Read) by (unfold view in Hvw; injection Hvw; congruence).
  assert (Hp0 : persistent a0 = persistent a) by (unfold view in Hvw; injection Hvw; congruence).
  unfold handle_client_pin in Hh. rewrite request_written in Hh; [|done|by eapply payload_addressable].
  peel_lift Hh map_ Hm. injection Hm as <-. peel_lift Hh sub Hs.
  change (Ok GetPinUvAuthTokenUsingPinWithPermissions = Ok sub :> result ClientPinSubcommand Z) in Hs. injection Hs as <-.
  rewrite bool_decide_eq_false_2 in Hh by done.
  peel Hh a1 u Hu. unfold read_pin_state_if_unread in Hu. rewrite Hst0 in Hu. injection Hu as <- _. unfold client_pin_get_token_with_permissions in Hh.
  peel_lift Hh ka Hka. injection Hka as <-. peel_lift Hh enc' He. injection He as <-.
  peel_lift Hh perms Hpm. injection Hpm as <-.
  assert (Hb : (0 <? permission) && negb (Z.land permission PIN_PERMISSION_PCMR =? 0) = false /\
    (permission <=? 0) = false /\ requested_pin_permissions permission = Ok permission /\
    (permission =? PIN_PERMISSION_PCMR) = false /\
    (0 <? permission) && negb (Z.land permission (Z.lor PIN_PERMISSION_MC PIN_PERMISSION_GA) =? 0) = false)
    by (destruct Hperm as [->| ->]; by split_and!).
  destruct Hb as (B1 & B2 & B3 & B4 & B5). rewrite B1 in Hh. peel_lift Hh rp Hrp. injection Hrp as <-.
  rewrite B5 in Hh. cbn [andb] in Hh. peel_lift Hh p Hp. assert (p = protocol) as -> by (destruct protocol; by injection Hp).
  rewrite B2, B3 in Hh. peel_lift Hh ps Hps. injection Hps as <-.
  apply (get_token_agreed _ secret) in Hh as (keys' & a2 & a3 & c & Hd & Hcore & Hver & Hgr & ->); [|done|done|by rewrite Hk].
  rewrite Hdk in Hd. injection Hd as <-. cbn [grant_permissions] in Hgr. rewrite B4 in Hgr.
  pose proof (pin_inv_core _ _ Hcore Hi0) as Hi2. apply core_inv in Hcore as (Hvw2 & _ & _ & Hp2).
  apply verify_ok in Hver as ((h & Hh & Hdec) & _); [|done|unfold view in Hvw2; injection Hvw2; congruence].
  pose proof (decapsulate_key_length _ _ _ _ Hdk) as Hkl. pose proof (decapsulated_bytes _ _ _ _ Hdk) as Hkb.
  destruct (granted_typed _ _ _ _ _ _ Hkb Hkl Hgr) as [Hcb Hcl].
  apply grant_transient_ok in Hgr as (value & Hin & _ & _ & _ & Hdt); [|done].
  assert (Hwc : writable MAX_NESTING (VMap [(VInteger 2, VBytes c)])).
  { assert (Hoc : value_ok (VBytes c) = true) by (apply bytes_value_ok; [done|unfold zlen; lia]).
    eapply writable_mono; [apply (writable_one 0 2); [by split_and!|done]|apply Nat.leb_le; reflexivity]. }
  rewrite read_ok_response in Hv by done.
  match type of Hin with _ = Some ?t => exists t, h, c end. split_and!; try done; congruence.
Qed.

Lemma pin_hash_typed pin : bytes_ok (pin_hash_of pin) /\ length (pin_hash_of pin) = 16%nat.
Proof.
  unfold pin_hash_of. split; [apply Forall_take, sha256_bytes|]. rewrite length_take, sha256_length. done.
Qed.

Lemma iv_typed (s s' : Authenticator App) v : fresh_iv s = (s', Ok v) ->
  hid s' = hid s /\ max_msg_size s' = max_msg_size s /\ bytes_ok v /\ length v = 16%nat.
Proof.
  unfold fresh_iv, getrandom. destruct (os_random s) as [|[d|] rest]; try done. intros [= <- <-].
  split; [done|]. split; [done|]. split; [apply fill_bytes_ok|apply fill_bytes_length].
Qed.

(** C13: a client that comes away with a credential management or
    configuration token knew the PIN, and the token it holds is the one the
    engine put in use: the client's decryption gives the engine's secret, for
    exactly the permission asked for, with no RP binding, under the protocol
    the client speaks. *)
Theorem client_holds_the_token (pin : bytes) (permission : Z) (protocol : PinProtocol)
    (s s' : Authenticator App) (limit : Z) (token : ClientToken)
    (Hinv : pin_inv (hid s)) (Hread : app_stored_pin_state (hid s) = Read) (Hkeys : agreement_valid (hid s))
    (Hlimit : max_msg_size s = Some limit)
    (Hperm : permission = PERMISSION_CM \/ permission = PERMISSION_ACFG)
    (Hrun : permission_token pin permission protocol s = (s', Ok token)) :
  pp_pin_hash (persistent (hid s)) = Some (pin_hash_of pin) /\
  exists t, tks_in_use (ps_token (app_pin_state (hid s'))) = Some t /\ tk_value t = ct_secret token /\
    tk_permissions t = permission /\ tk_permissions_rp_id t = None /\
    tk_protocol t = protocol /\ ct_protocol token = protocol /\ ct_permission token = permission.
Proof.
  unfold permission_token in Hrun. peel Hrun s1 sk Hs. destruct sk as [shared key].
  apply (shared_secret_ok _ _ _ limit) in Hs as
    (secret & mine & Hvw & Hl1 & Hslot & Hval & Hmb & Hms & -> & Hpr & Hd); [|done..].
  destruct (public_typed mine Hmb Hms) as (Bx & By & Lx & Ly).
  peel Hrun s2 v Hv. apply iv_typed in Hv as (Hh2 & Hl2 & Hvb & Hvl).
  peel Hrun s3 enc He. apply lift_ok in He as [-> He].
  unfold platform_encrypt in He. destruct (encrypt_classic_pin_block _ _ _ _) as [enc'|] eqn:Ee; [|done].
  injection He as ->. rewrite Hpr in Ee. destruct (pin_hash_typed pin) as [Hhb Hhl].
  pose proof (decapsulate_key_length _ _ _ _ Hd) as Hkl. pose proof (decapsulated_bytes _ _ _ _ Hd) as Hkb.
  destruct (encrypted_typed _ _ _ _ _ Hkb Hkl Hhb Hvb Hvl Ee) as [Heb Hel].
  peel Hrun s4 body Hc. apply (sent_ok _ _ _ limit) in Hc as (answer & Hcall & Hans & Hlen & _); [|congruence].
  assert (Hw : writable MAX_NESTING (VMap (token_request protocol (platform_labels (fst (p256_public mine)) (snd (p256_public mine))) enc permission))).
  { apply token_request_writable; try done. unfold zlen. lia. }
  peel_lift Hrun c Hcb. assert (is_map body = true) as Hmap by (by destruct body).
  assert (Hi2 : pin_inv (hid s2)) by (rewrite Hh2; by apply (pin_inv_view (hid s))).
  assert (Hst2 : app_stored_pin_state (hid s2) = Read) by (rewrite Hh2; unfold view in Hvw; injection Hvw; congruence).
  assert (Hp2 : persistent (hid s2) = persistent (hid s)) by (rewrite Hh2; unfold view in Hvw; injection Hvw; congruence).
  eapply token_call in Hcall as (t & h & c' & Hbody & Hdt & Hin & G1 & G2 & G3 & Hph & Hde);
    [|exact Hi2|exact Hst2|rewrite Hh2; exact Hslot|exact Hw|exact Hperm|exact Hd|exact Hlen|exact Hans|exact Hmap].
  rewrite Hbody in Hcb. cbn in Hcb. injection Hcb as ->. peel Hrun s5 tok Ht. apply lift_ok in Ht as [-> Ht].
  unfold platform_decrypt in Ht. rewrite Hpr in Ht. unfold decrypt in Hdt.
  destruct (decrypt_classic_pin_block _ _ _) as [tv|] eqn:Ed; [|done]. injection Ht as ->. injection Hdt as ->.
  destruct (_ && _); [done|]. injection Hrun as <- <-.
  apply pin_block_roundtrip in Ee; [|done|by intros ? [= <-]]. rewrite Ee in Hde. injection Hde as <-.
  split; [congruence|]. exists t. by split_and!.
Qed.

End Together.

(** ** At concrete keys *)

Lemma lxor_byte a b : is_byte a -> is_byte b -> is_byte (Z.lxor a b).
Proof.
  unfold is_byte. intros Ha Hb. assert (H0 : 0 <= Z.lxor a b) by (apply Z.lxor_nonneg; lia). split; [done|].
  destruct (Z.eq_dec (Z.lxor a b) 0) as [->|Hne]; [done|]. apply (Z.log2_lt_pow2 _ 8); [lia|].
  pose proof (Z.log2_lxor a b ltac:(lia) ltac:(lia)) as Hl.
  assert (Hs : forall x, 0 <= x < 256 -> Z.log2 x < 8).
  { intros x Hx. destruct (Z.eq_dec x 0) as [->|]; [done|]. apply (Z.log2_lt_pow2 x 8); lia. }
  pose proof (Hs a Ha). pose proof (Hs b Hb). lia.
Qed.

#[export] Instance concrete_cipher_bytes : CipherBytes.
Proof.
  split; [apply digest_bytes|]. intros k v p Hk Hp. cbn [aes256_cbc_encrypt concrete_crypto]. unfold xor_cipher.
  assert (Hh : is_byte (hd 0 k)) by (destruct Hk; [done|assumption]).
  apply Forall_map. eapply List.Forall_impl; [|exact Hp]. intros x Hx. by apply lxor_byte.
Qed.

#[export] Instance concrete_ecdh_laws : EcdhLaws.
Proof.
  split.
  - intros s Hb Hs. cbn [p256_scalar_valid concrete_crypto] in Hs. apply andb_true_iff in Hs as [Hl%Nat.eqb_eq _].
    cbn [p256_public concrete_crypto fst snd]. split_and!; [done|by apply List.Forall_rev|done|by rewrite length_rev].
  - intros a b Ha Hb Hsa Hsb. cbn [p256_scalar_valid concrete_crypto] in Hsa, Hsb.
    apply andb_true_iff in Hsa as [Hla%Nat.eqb_eq _]. apply andb_true_iff in Hsb as [Hlb%Nat.eqb_eq _].
    assert (Hpt : forall s : list Z, length s = 32%nat -> p256_point ([0x04] ++ s ++ rev s) = Some s).
    { intros s Hl. cbn [p256_point concrete_crypto]. rewrite !length_app, length_rev, Hl. cbn [length Nat.add Nat.eqb].
      unfold slice. cbn [app drop Nat.sub]. f_equal. by apply take_app_length'. }
    exists a, b. cbn [p256_public concrete_crypto fst snd]. split_and!; [by apply Hpt|by apply Hpt|].
    cbn [p256_ecdh concrete_crypto]. clear. revert b. induction a as [|x a IH]; intros [|y b]; try done.
    cbn. by rewrite Z.lxor_comm, IH.
Qed.

Module ClientEngineWitness.

Definition client : Authenticator (CtapApp MemoryStore) := {|
  hid := engine_with_pin; max_msg_size := Some 7609; os_random := [Some (fun _ => 5); Some (fun _ => 6)]
|}.

Definition granted : Authenticator (CtapApp MemoryStore) * result ClientToken ClientError :=
  permission_token pin_one PERMISSION_CM V2 client.

Lemma granted_is : permission_token pin_one PERMISSION_CM V2 client = granted.
Proof. unfold granted. reflexivity. Qed.

Lemma client_ready : pin_inv (hid client) /\ app_stored_pin_state (hid client) = Read /\
  pp_pin_hash (persistent (hid client)) = Some (pin_hash_of pin_one).
Proof. split; [exact engine_with_pin_inv|vm_compute; split; reflexivity]. Qed.

Lemma granted_runs : match snd granted with Ok t => bool_decide (ct_permission t = PERMISSION_CM) | Err _ => false end = true.
Proof. vm_compute. reflexivity. Qed.

Lemma client_keys_valid : agreement_valid (hid client).
Proof.
  intros [] k Hk; vm_compute in Hk; [discriminate|]. injection Hk as <-.
  split; [|vm_compute; reflexivity]. repeat (apply List.Forall_cons; [unfold is_byte; lia|]). apply List.Forall_nil.
Qed.

#[local] Opaque granted engine_with_pin.

Lemma client_holds_the_token_witness :
  pp_pin_hash (persistent (hid client)) = Some (pin_hash_of pin_one) /\
  exists t token, snd granted = Ok token /\ tks_in_use (ps_token (app_pin_state (hid (fst granted)))) = Some t /\
    tk_value t = ct_secret token /\ tk_permissions t = PERMISSION_CM.
Proof.
  pose proof granted_runs as Hok. pose proof granted_is as Eg. destruct granted as [s' [token|e]]; [|discriminate Hok].
  destruct client_ready as (Hi & Hr & _).
  destruct (client_holds_the_token pin_one PERMISSION_CM V2 client s' 7609 token Hi Hr
    client_keys_valid eq_refl (or_introl eq_refl) Eg) as (Hh & t & Hin & Hval & Hp & _).
  split; [exact Hh|]. exists t, token. exact (conj eq_refl (conj Hin (conj Hval Hp))).
Defined.

End ClientEngineWitness.
