(* ===== verification/Text.v ===== *)
(** * Text as a list of characters

    The operations of Rust's [str] and [char] the program uses on text it did
    not write itself: a character is a code point. *)

From S2P Require Import Prelude.

Abbreviation Text := (list Z) (only parsing).

(** Unicode's White_Space. *)
Definition is_whitespace (c : Z) : bool :=
  ((9 <=? c) && (c <=? 13)) || (c =? 32) || (c =? 0x85) || (c =? 0xA0) || (c =? 0x1680)
  || ((0x2000 <=? c) && (c <=? 0x200A)) || (c =? 0x2028) || (c =? 0x2029) || (c =? 0x202F)
  || (c =? 0x205F) || (c =? 0x3000).

Fixpoint trim_start (t : list Z) : list Z :=
  match t with
  | c :: rest => if is_whitespace c then trim_start rest else t
  | [] => []
  end.

Definition trim_end (t : list Z) : list Z := rev (trim_start (rev t)).

Definition trim (t : list Z) : list Z := trim_end (trim_start t).

Definition strip_cr (line : list Z) : list Z :=
  match rev line with 13 :: rest => rev rest | _ => line end.

(** [str::lines]; [current] is the line so far, backwards. *)
Fixpoint lines_from (current t : list Z) : list (list Z) :=
  match t with
  | [] => match current with [] => [] | _ => [rev current] end
  | c :: rest => if c =? 10 then strip_cr (rev current) :: lines_from [] rest else lines_from (c :: current) rest
  end.

Definition text_lines (t : list Z) : list (list Z) := lines_from [] t.

Fixpoint split_once (c : Z) (t : list Z) : option (list Z * list Z) :=
  match t with
  | [] => None
  | d :: rest =>
      if d =? c then Some ([], rest)
      else match split_once c rest with Some (before, after) => Some (d :: before, after) | None => None end
  end.

Fixpoint strip_prefix (prefix t : list Z) : option (list Z) :=
  match prefix, t with
  | [], _ => Some t
  | p :: prefix, c :: t => if p =? c then strip_prefix prefix t else None
  | _, [] => None
  end.

(** Bytes of UTF-8. *)
Definition utf8_size (c : Z) : Z :=
  if c <? 0x80 then 1 else if c <? 0x800 then 2 else if c <? 0x10000 then 3 else 4.

Definition utf8_len (t : list Z) : Z := fold_right (fun c n => utf8_size c + n) 0 t.

(** [char::is_control]: general category Cc. *)
Definition is_control (c : Z) : bool := ((0 <=? c) && (c <? 32)) || ((0x7F <=? c) && (c <=? 0x9F)).

Definition is_digit (c : Z) : bool := (48 <=? c) && (c <=? 57).

Definition digits_value (t : list Z) : Z := fold_left (fun n c => 10 * n + (c - 48)) t 0.

(** [u32::from_str]: a sign [+] and leading zeros are taken. *)
Definition parse_u32 (t : list Z) : option Z :=
  let digits := match t with 43 :: rest => rest | _ => t end in
  match digits with
  | [] => None
  | _ => if forallb is_digit digits && (digits_value digits <? 2 ^ 32) then Some (digits_value digits) else None
  end.

(** The decimal digits of a number below [10 ^ fuel]. *)
Fixpoint digits_from (fuel : nat) (n : Z) (after : list Z) : list Z :=
  match fuel with
  | O => after
  | S fuel =>
      let after := 48 + n mod 10 :: after in
      if n <? 10 then after else digits_from fuel (n / 10) after
  end.

Definition digits_of (n : Z) : list Z := digits_from 20 n [].

(** The characters of valid UTF-8. *)
Fixpoint utf8_decode (b : bytes) : list Z :=
  match b with
  | [] => []
  | b0 :: r0 =>
      if b0 <? 0x80 then b0 :: utf8_decode r0
      else
        match r0 with
        | [] => []
        | b1 :: r1 =>
            if b0 <? 0xE0 then b0 mod 32 * 64 + b1 mod 64 :: utf8_decode r1
            else
              match r1 with
              | [] => []
              | b2 :: r2 =>
                  if b0 <? 0xF0 then (b0 mod 16 * 64 + b1 mod 64) * 64 + b2 mod 64 :: utf8_decode r2
                  else
                    match r2 with
                    | [] => []
                    | b3 :: r3 =>
                        ((b0 mod 8 * 64 + b1 mod 64) * 64 + b2 mod 64) * 64 + b3 mod 64 :: utf8_decode r3
                    end
              end
        end
  end.

(** The UTF-8 of a character. *)
Definition utf8_char (c : Z) : bytes :=
  if c <? 0x80 then [c]
  else if c <? 0x800 then [0xC0 + c / 64; 0x80 + c mod 64]
  else if c <? 0x10000 then [0xE0 + c / 4096; 0x80 + c / 64 mod 64; 0x80 + c mod 64]
  else [0xF0 + c / 262144; 0x80 + c / 4096 mod 64; 0x80 + c / 64 mod 64; 0x80 + c mod 64].

Definition utf8_encode (t : list Z) : bytes := flat_map utf8_char t.

(** ** Facts *)

Lemma utf8_char_decode c rest : 0 <= c < 0x110000 -> utf8_decode (utf8_char c ++ rest) = c :: utf8_decode rest.
Proof.
  intros Hc. unfold utf8_char.
  destruct (Z.ltb_spec c 0x80) as [H1|H1].
  { cbn [app utf8_decode]. by rewrite (proj2 (Z.ltb_lt c 0x80) H1). }
  assert (Hm : forall x, 0 <= x mod 64 < 64) by (intros x; apply Z.mod_pos_bound; lia).
  assert (Hd : forall x y : Z, 0 <= y < 64 -> (0x80 + y) mod 64 = y).
  { intros _ y Hy. change 0x80 with (2 * 64). rewrite Z.add_comm, Z.mod_add by lia. by apply Z.mod_small. }
  destruct (Z.ltb_spec c 0x800) as [H2|H2].
  { pose proof (Z.div_le_lower_bound c 64 2 ltac:(lia) ltac:(lia)). pose proof (Z.div_lt_upper_bound c 64 32 ltac:(lia) ltac:(lia)).
    cbn [app utf8_decode]. rewrite (proj2 (Z.ltb_ge _ _)) by lia. rewrite (proj2 (Z.ltb_lt _ _)) by lia.
    f_equal. change 0xC0 with (6 * 32). rewrite (Z.add_comm (6 * 32)), Z.mod_add by lia.
    rewrite (Z.mod_small (c / 64)) by lia. rewrite (Hd c) by apply Hm. pose proof (Z.div_mod c 64). lia. }
  destruct (Z.ltb_spec c 0x10000) as [H3|H3].
  { pose proof (Z.div_pos c 4096 ltac:(lia) ltac:(lia)). pose proof (Z.div_lt_upper_bound c 4096 16 ltac:(lia) ltac:(lia)).
    cbn [app utf8_decode]. rewrite (proj2 (Z.ltb_ge (0xE0 + c / 4096) 0x80)) by lia.
    rewrite (proj2 (Z.ltb_ge (0xE0 + c / 4096) 0xE0)) by lia. rewrite (proj2 (Z.ltb_lt (0xE0 + c / 4096) 0xF0)) by lia.
    f_equal. change 0xE0 with (14 * 16). rewrite (Z.add_comm (14 * 16)), Z.mod_add by lia.
    rewrite (Z.mod_small (c / 4096)) by lia. rewrite !(Hd c) by apply Hm.
    change 4096 with (64 * 64). rewrite <- Z.div_div by lia.
    pose proof (Z.div_mod c 64). pose proof (Z.div_mod (c / 64) 64). lia. }
  pose proof (Z.div_pos c 262144 ltac:(lia) ltac:(lia)). pose proof (Z.div_lt_upper_bound c 262144 8 ltac:(lia) ltac:(lia)).
  cbn [app utf8_decode]. rewrite (proj2 (Z.ltb_ge (0xF0 + c / 262144) 0x80)) by lia.
  rewrite (proj2 (Z.ltb_ge (0xF0 + c / 262144) 0xE0)) by lia. rewrite (proj2 (Z.ltb_ge (0xF0 + c / 262144) 0xF0)) by lia.
  f_equal. change 0xF0 with (30 * 8). rewrite (Z.add_comm (30 * 8)), Z.mod_add by lia.
  rewrite (Z.mod_small (c / 262144)) by lia. rewrite !(Hd c) by apply Hm.
  change 262144 with (64 * 64 * 64). change 4096 with (64 * 64). rewrite <- !Z.div_div by lia.
  pose proof (Z.div_mod c 64). pose proof (Z.div_mod (c / 64) 64). pose proof (Z.div_mod (c / 64 / 64) 64). lia.
Qed.

(** Text reads back from its UTF-8. *)
Lemma utf8_roundtrip t : Forall (fun c => 0 <= c < 0x110000) t -> utf8_decode (utf8_encode t) = t.
Proof.
  induction 1 as [|c t Hc _ IH]; [done|]. unfold utf8_encode in *. cbn [flat_map].
  by rewrite utf8_char_decode, IH.
Qed.
