(* ===== verification/SeatWatch.v ===== *)
(** * logind's records of a seat ([crates/pqkey/src/platform/linux/seat.rs])

    [SeatWatch] reads and watches the directory where logind keeps a file per
    seat.  The operating system is an explicit state, and the environment acts
    on it before every system call as [sw_schedule] says: logind saves or
    removes a record, the directory comes or goes, a notification that was
    under way arrives or is lost to an overflow, time passes, udev records the
    device.  A schedule entry may also make the call fail; when the schedule
    ends, nothing happens any more and calls succeed.  So a statement for every
    schedule is one about every interleaving of the key with logind.

    A notification is queued some time after its change became visible
    ([os_flight] holds those under way).  logind writes every state to a new
    file, and a file's identity is not given to a new one while the file is
    open or in place; after that it may be.  The end of a watch is never lost
    to an overflow.  Looking up the device in udev's database is one read of
    [Udev].  Text is a list of characters; times are milliseconds. *)

From Stdlib Require Import Strings.String.
From stdpp Require Import gmap list.
From S2P Require Import Prelude Text Seat.

(** ** A seat's record *)

Definition parse_uid (t : list Z) : option Z :=
  if bool_decide (t = []) || negb (forallb is_digit t)
     || ((1 <? length t)%nat && bool_decide (head t = Some 48)) then None
  else
    let uid := digits_value t in
    if (uid <? 2 ^ 32) && negb (uid =? 2 ^ 32 - 1) && negb (uid =? 0xFFFF) then Some uid else None.

(** The last [ACTIVE] and the last [ACTIVE_UID] among the lines. *)
Fixpoint active_lines (lines : list (list Z)) (session uid : option (list Z)) : option (list Z) * option (list Z) :=
  match lines with
  | [] => (session, uid)
  | line :: rest =>
      let line := trim line in
      if bool_decide (head line = Some 35) || bool_decide (head line = Some 59) then active_lines rest session uid
      else
        match split_once 61 line with
        | None => active_lines rest session uid
        | Some (key, value) =>
            if bytes_eqb (trim_end key) (ascii_bytes "ACTIVE") then active_lines rest (Some (trim value)) uid
            else if bytes_eqb (trim_end key) (ascii_bytes "ACTIVE_UID") then active_lines rest session (Some (trim value))
            else active_lines rest session uid
        end
  end.

Definition parse_active (contents : list Z) : Active :=
  match active_lines (text_lines contents) None None with
  | (None, None) => Nobody
  | (Some id, Some uid) => match parse_uid uid with Some uid => ActiveSession id uid | None => UnknownActive end
  | _ => UnknownActive
  end.

Definition is_file_name (name : list Z) : bool :=
  negb (bool_decide (name = [])) && negb (bytes_eqb name (ascii_bytes ".")) && negb (bytes_eqb name (ascii_bytes ".."))
  && (utf8_len name <=? 255) && negb (existsb (fun c => (c =? 47) || (c =? 0)) name).

(** ** The operating system *)

Inductive OsError : Type :=
| OsNotFound
| OsError_ (code : Z).

(** A record: the file's device and inode number, and its contents, [None]
    when they are not UTF-8. *)
Record RecordOnDisk : Type := { rd_dev : Z; rd_ino : Z; rd_contents : option (list Z) }.

#[export] Instance RecordOnDisk_eq_dec : EqDecision RecordOnDisk.
Proof. solve_decision. Defined.

Definition rd_id (r : RecordOnDisk) : Z * Z := (rd_dev r, rd_ino r).

(** A hidraw node: its [device/uevent] and its [dev]. *)
Record HidrawEntry : Type := { he_uevent : option (list Z); he_dev : option (list Z) }.

Record Udev : Type := {
  ud_hidraw : result (list HidrawEntry) OsError;
  ud_data : list Z -> result (list Z) OsError
}.

Inductive SeatEvent : Type :=
| EvNamed (name : list Z)
| EvOverflow
| EvGone.

#[export] Instance SeatEvent_eq_dec : EqDecision SeatEvent.
Proof. solve_decision. Defined.

(** [os_writes] counts the changes of each record; nobody can read it. *)
Record Os : Type := {
  os_dir : bool;
  os_records : gmap (list Z) RecordOnDisk;
  os_writes : list Z -> nat;
  os_watched : bool;
  os_queue : list SeatEvent;
  os_flight : list SeatEvent;
  os_now : Z;
  os_udev : Udev
}.

Inductive OsAction : Type :=
| LogindSaves (seat : list Z) (record : RecordOnDisk)
| LogindRemoves (seat : list Z)
| DirAppears
| DirGoes
| EventArrives
| EventsOverflow
| TimePasses (ms : nat)
| UdevRecords (udev : Udev).

Definition id_in_use (open : option (Z * Z)) (os : Os) (id : Z * Z) : bool :=
  bool_decide (open = Some id) || bool_decide (map_Exists (fun _ r => rd_id r = id) (os_records os)).

(** The record of [seat] becomes [record]. *)
Definition os_write (seat : list Z) (record : option RecordOnDisk) (os : Os) : Os := {|
  os_dir := os_dir os;
  os_records := match record with Some r => <[seat := r]> (os_records os) | None => delete seat (os_records os) end;
  os_writes := fun name => if decide (name = seat) then S (os_writes os name) else os_writes os name;
  os_watched := os_watched os;
  os_queue := os_queue os;
  os_flight := os_flight os ++ (if os_watched os then [EvNamed seat] else []);
  os_now := os_now os;
  os_udev := os_udev os
|}.

Definition os_set_dir (dir watched : bool) (queue flight : list SeatEvent) (os : Os) : Os := {|
  os_dir := dir; os_records := os_records os; os_writes := os_writes os; os_watched := watched;
  os_queue := queue; os_flight := flight; os_now := os_now os; os_udev := os_udev os
|}.

Definition os_set_events (queue flight : list SeatEvent) (os : Os) : Os :=
  os_set_dir (os_dir os) (os_watched os) queue flight os.

Definition os_act (open : option (Z * Z)) (action : OsAction) (os : Os) : Os :=
  match action with
  | LogindSaves seat record =>
      if negb (os_dir os) || id_in_use open os (rd_id record) then os else os_write seat (Some record) os
  | LogindRemoves seat => if is_some (os_records os !! seat) then os_write seat None os else os
  | DirAppears => os_set_dir true (os_watched os) (os_queue os) (os_flight os) os
  | DirGoes =>
      if negb (os_dir os) || negb (bool_decide (os_records os = ∅)) then os
      else os_set_dir false false (os_queue os) (os_flight os ++ (if os_watched os then [EvGone] else [])) os
  | EventArrives =>
      match os_flight os with
      | e :: flight => os_set_events (os_queue os ++ [e]) flight os
      | [] => os
      end
  | EventsOverflow => os_set_events (os_queue os ++ [EvOverflow]) (filter (fun e => e = EvGone) (os_flight os)) os
  | TimePasses ms => {|
      os_dir := os_dir os; os_records := os_records os; os_writes := os_writes os; os_watched := os_watched os;
      os_queue := os_queue os; os_flight := os_flight os; os_now := os_now os + Z.of_nat ms; os_udev := os_udev os |}
  | UdevRecords udev => {|
      os_dir := os_dir os; os_records := os_records os; os_writes := os_writes os; os_watched := os_watched os;
      os_queue := os_queue os; os_flight := os_flight os; os_now := os_now os; os_udev := udev |}
  end.

Definition os_acts (open : option (Z * Z)) (actions : list OsAction) (os : Os) : Os :=
  fold_left (fun os action => os_act open action os) actions os.

(** ** [SeatWatch] *)

Definition DEFAULT_SEAT : list Z := ascii_bytes "seat0".

(** Milliseconds. *)
Definition ABSENT_RECHECK : Z := 1000.

Definition SEAT_LOOKUP_PATIENCE : Z := 10000.

Definition SEAT_LOOKUP_INTERVAL : Z := 50.

Inductive Watch : Type :=
| Notified
| Polled
| WatchAbsent (since : option Z).

Inductive Lookup : Type :=
| LookupDone
| LookupPending (since : Z) (tried : option Z).

Record SeatWatch : Type := {
  sw_os : Os;
  sw_schedule : list (list OsAction * option Z);
  sw_uniq : list Z;
  sw_seat : list Z;
  sw_watch : Watch;
  sw_moved : bool;
  sw_lookup : Lookup;
  sw_changes : Z;
  sw_read : option (Z * Z);
  sw_seen : gset (list Z)
}.

Definition sw_set_os (os : Os) (schedule : list (list OsAction * option Z)) (w : SeatWatch) : SeatWatch := {|
  sw_os := os; sw_schedule := schedule; sw_uniq := sw_uniq w; sw_seat := sw_seat w; sw_watch := sw_watch w;
  sw_moved := sw_moved w; sw_lookup := sw_lookup w; sw_changes := sw_changes w; sw_read := sw_read w;
  sw_seen := sw_seen w
|}.

Definition sw_set_watch (watch : Watch) (w : SeatWatch) : SeatWatch := {|
  sw_os := sw_os w; sw_schedule := sw_schedule w; sw_uniq := sw_uniq w; sw_seat := sw_seat w; sw_watch := watch;
  sw_moved := sw_moved w; sw_lookup := sw_lookup w; sw_changes := sw_changes w; sw_read := sw_read w;
  sw_seen := sw_seen w
|}.

Definition sw_set_moved (moved : bool) (w : SeatWatch) : SeatWatch := {|
  sw_os := sw_os w; sw_schedule := sw_schedule w; sw_uniq := sw_uniq w; sw_seat := sw_seat w; sw_watch := sw_watch w;
  sw_moved := moved; sw_lookup := sw_lookup w; sw_changes := sw_changes w; sw_read := sw_read w;
  sw_seen := sw_seen w
|}.

Definition sw_set_lookup (lookup : Lookup) (w : SeatWatch) : SeatWatch := {|
  sw_os := sw_os w; sw_schedule := sw_schedule w; sw_uniq := sw_uniq w; sw_seat := sw_seat w; sw_watch := sw_watch w;
  sw_moved := sw_moved w; sw_lookup := lookup; sw_changes := sw_changes w; sw_read := sw_read w;
  sw_seen := sw_seen w
|}.

Definition sw_bump (w : SeatWatch) : SeatWatch := {|
  sw_os := sw_os w; sw_schedule := sw_schedule w; sw_uniq := sw_uniq w; sw_seat := sw_seat w; sw_watch := sw_watch w;
  sw_moved := sw_moved w; sw_lookup := sw_lookup w; sw_changes := sw_changes w + 1; sw_read := sw_read w;
  sw_seen := sw_seen w
|}.

Definition sw_set_read (read : option (Z * Z)) (w : SeatWatch) : SeatWatch := {|
  sw_os := sw_os w; sw_schedule := sw_schedule w; sw_uniq := sw_uniq w; sw_seat := sw_seat w; sw_watch := sw_watch w;
  sw_moved := sw_moved w; sw_lookup := sw_lookup w; sw_changes := sw_changes w; sw_read := read;
  sw_seen := sw_seen w
|}.

(** [saw]. *)
Definition saw (w : SeatWatch) : SeatWatch := {|
  sw_os := sw_os w; sw_schedule := sw_schedule w; sw_uniq := sw_uniq w; sw_seat := sw_seat w; sw_watch := sw_watch w;
  sw_moved := sw_moved w; sw_lookup := sw_lookup w; sw_changes := sw_changes w; sw_read := sw_read w;
  sw_seen := {[ sw_seat w ]} ∪ sw_seen w
|}.

(** udev put the device on another seat. *)
Definition move_to (seat : list Z) (w : SeatWatch) : SeatWatch := {|
  sw_os := sw_os w; sw_schedule := sw_schedule w; sw_uniq := sw_uniq w; sw_seat := seat; sw_watch := sw_watch w;
  sw_moved := true; sw_lookup := sw_lookup w; sw_changes := sw_changes w + 1; sw_read := sw_read w;
  sw_seen := sw_seen w
|}.

#[local] Abbreviation Watching A := (M SeatWatch A OsError).

(** One system call: the environment acts, and the call works on what is then
    there, or fails. *)
Definition sw_syscall {A} (call : Os -> Os * result A OsError) : Watching A := fun w =>
  match sw_schedule w with
  | [] => let (os, r) := call (sw_os w) in (sw_set_os os [] w, r)
  | (actions, fails) :: schedule =>
      let os := os_acts (sw_read w) actions (sw_os w) in
      match fails with
      | Some code => (sw_set_os os schedule w, Err (OsError_ code))
      | None => let (os, r) := call os in (sw_set_os os schedule w, r)
      end
  end.

Definition sw_query {A} (f : Os -> result A OsError) : Watching A := sw_syscall (fun os => (os, f os)).

(** [Instant::now], which never fails. *)
Definition sw_now : Watching Z := fun w =>
  match sw_query (fun os => Ok (os_now os)) w with
  | (w, Ok t) => (w, Ok t)
  | (w, Err _) => (w, Ok (os_now (sw_os w)))
  end.

(** [Path::is_dir]: an error reads as no. *)
Definition sw_is_dir : Watching bool := fun w =>
  match sw_query (fun os => Ok (os_dir os)) w with
  | (w, Ok b) => (w, Ok b)
  | (w, Err _) => (w, Ok false)
  end.

Definition attempt {A} (m : Watching A) : Watching (result A OsError) := fun w =>
  let (w, r) := m w in (w, Ok r).

Definition add_watch (os : Os) : Os * result unit OsError :=
  if os_dir os then (os_set_dir true true [] [] os, Ok tt) else (os, Err OsNotFound).

Definition sw_start : Watching unit :=
  let* dir := sw_is_dir in
  if negb dir then
    let* now := sw_now in
    modify (sw_set_watch (WatchAbsent (Some now)))
  else
    let* r := attempt (sw_syscall add_watch) in
    modify (sw_set_watch (match r with Ok _ => Notified | Err _ => Polled end)).

(** *** The device's seat in udev's database *)

Definition has_uniq (uniq uevent : list Z) : bool :=
  existsb (fun line => bool_decide (strip_prefix (ascii_bytes "HID_UNIQ=") line = Some uniq)) (text_lines uevent).

Definition id_seat (record : list Z) : list Z :=
  match last (omap (strip_prefix (ascii_bytes "E:ID_SEAT=")) (text_lines record)) with
  | Some [] | None => DEFAULT_SEAT
  | Some seat => seat
  end.

Fixpoint find_node (entries : list HidrawEntry) (udev : Udev) (uniq : list Z) : result (option (list Z)) OsError :=
  match entries with
  | [] => Ok None
  | entry :: rest =>
      match he_uevent entry with
      | None => find_node rest udev uniq
      | Some uevent =>
          if negb (has_uniq uniq uevent) then find_node rest udev uniq
          else
            match he_dev entry with
            | None => Ok None
            | Some numbers =>
                match ud_data udev (99 :: trim numbers) with
                | Ok record => Ok (Some (id_seat record))
                | Err OsNotFound => Ok None
                | Err e => Err e
                end
            end
      end
  end.

Definition node_seat (udev : Udev) (uniq : list Z) : result (option (list Z)) OsError :=
  if bool_decide (uniq = []) then Ok None
  else
    match ud_hidraw udev with
    | Ok entries => find_node entries udev uniq
    | Err OsNotFound => Ok None
    | Err e => Err e
    end.

Definition look_up_seat (report : bool) : Watching unit :=
  let* lookup := gets sw_lookup in
  match lookup with
  | LookupDone => ret tt
  | LookupPending since tried =>
      let* now := sw_now in
      if SEAT_LOOKUP_PATIENCE <? now - since then modify (sw_set_lookup LookupDone)
      else if negb report && match tried with Some at_ => now - at_ <? SEAT_LOOKUP_INTERVAL | None => false end
      then ret tt
      else
        modify (sw_set_lookup (LookupPending since (Some now))) ;;*
        let* uniq := gets sw_uniq in
        let* r := attempt (sw_query (fun os => node_seat (os_udev os) uniq)) in
        match r with
        | Ok (Some seat) =>
            modify (sw_set_lookup LookupDone) ;;*
            let* watched := gets sw_seat in
            if bool_decide (seat = watched) then ret tt else modify (move_to seat)
        | Ok None | Err _ => ret tt
        end
  end.

(** *** [SeatSource] *)

Definition sw_changed (report : bool) : Watching bool :=
  look_up_seat report ;;*
  let* watch := gets sw_watch in
  let* changed :=
    match watch with
    | Notified => sw_query (fun os => Ok (negb (bool_decide (os_queue os = []))))
    | Polled => ret true
    | WatchAbsent since =>
        let* early := match since with
                      | Some at_ => let* now := sw_now in ret (now - at_ <? ABSENT_RECHECK)
                      | None => ret false
                      end in
        if early : bool then ret false
        else
          let* dir := sw_is_dir in
          if dir : bool then ret true
          else let* now := sw_now in modify (sw_set_watch (WatchAbsent (Some now))) ;;* ret false
    end in
  let* moved := gets sw_moved in
  ret (changed || moved).

Record Drained : Type := { dr_named : bool; dr_lost : bool; dr_gone : bool }.

Definition drain_event (seat : list Z) (d : Drained) (e : SeatEvent) : Drained :=
  match e with
  | EvGone => {| dr_named := dr_named d; dr_lost := dr_lost d; dr_gone := true |}
  | EvOverflow => {| dr_named := dr_named d; dr_lost := true; dr_gone := dr_gone d |}
  | EvNamed name =>
      {| dr_named := dr_named d || bool_decide (name = seat); dr_lost := dr_lost d; dr_gone := dr_gone d |}
  end.

(** [read_events] until none waits ([EAGAIN]); without a schedule the second
    read finds none. *)
Fixpoint drain_from (schedule : list (list OsAction * option Z)) (open : option (Z * Z)) (seat : list Z) (os : Os)
    (d : Drained) : Os * list (list OsAction * option Z) * result Drained OsError :=
  let take os := os_set_events [] (os_flight os) os in
  match schedule with
  | [] => (take os, [], Ok (fold_left (drain_event seat) (os_queue os) d))
  | (actions, fails) :: schedule =>
      let os := os_acts open actions os in
      match fails with
      | Some code => (os, schedule, Err (OsError_ code))
      | None =>
          match os_queue os with
          | [] => (os, schedule, Ok d)
          | events => drain_from schedule open seat (take os) (fold_left (drain_event seat) events d)
          end
      end
  end.

Definition drain : Watching Drained := fun w =>
  let '(os, schedule, r) := drain_from (sw_schedule w) (sw_read w) (sw_seat w) (sw_os w)
                              {| dr_named := false; dr_lost := false; dr_gone := false |} in
  (sw_set_os os schedule w, r).

(** [read_record]: the open file is the state it was opened in. *)
Definition read_record (os : Os) (seat : list Z) : result (option (Z * Z * Look)) OsError :=
  match os_records os !! seat with
  | None => Ok None
  | Some r =>
      match rd_contents r with
      | None => Err (OsError_ 0)
      | Some contents =>
          Ok (Some (rd_id r, {| look_active := parse_active contents; look_record := RecordFile (rd_dev r) (rd_ino r) |}))
      end
  end.

Definition read_seat (seen : bool) (seat : list Z) : Watching (option (Z * Z * Look)) :=
  let* found := sw_query (fun os => read_record os seat) in
  match found with
  | Some found => ret (Some found)
  | None => if seen then fail OsNotFound else ret None
  end.

(** The directory is looked for again. *)
Definition rediscover : Watching unit :=
  let* watch := gets sw_watch in
  match watch with
  | WatchAbsent _ =>
      let* dir := sw_is_dir in
      if dir : bool then modify sw_bump ;;* sw_start
      else let* now := sw_now in modify (sw_set_watch (WatchAbsent (Some now)))
  | _ => ret tt
  end.

Definition take_notice (d : Drained) (w : SeatWatch) : SeatWatch :=
  let w := if dr_named d then saw w else w in
  let w := if dr_named d || dr_lost d then sw_bump w else w in
  if dr_gone d then sw_bump (sw_set_watch (WatchAbsent None) w) else w.

Definition drain_if_notified : Watching unit :=
  let* watch := gets sw_watch in
  match watch with
  | Notified => let* d := drain in modify (take_notice d)
  | _ => ret tt
  end.

Definition sw_look : Watching Look :=
  rediscover ;;*
  modify (sw_set_moved false) ;;*
  drain_if_notified ;;*
  let* changes := gets sw_changes in
  let* seat := gets sw_seat in
  let absent := {| look_active := Nobody; look_record := Absent changes |} in
  if negb (is_file_name seat) then modify (sw_set_read None) ;;* ret absent
  else
    let* seen := gets (fun w => bool_decide (seat ∈ sw_seen w)) in
    let* found := read_seat seen seat in
    match found with
    | Some (id, look) => modify (fun w => sw_set_read (Some id) (saw w)) ;;* ret look
    | None => modify (sw_set_read None) ;;* ret absent
    end.

Definition sw_wait : Watching unit :=
  let* watch := gets sw_watch in
  match watch with
  | Notified => sw_query (fun _ => Ok tt)
  | _ => let* _ := sw_now in ret tt
  end.

Definition sw_plugged (w : SeatWatch) : SeatWatch :=
  match sw_now w with
  | (w, Ok now) => sw_set_lookup (LookupPending now None) w
  | (w, Err _) => w
  end.

Definition seat_error (e : OsError) : SeatError :=
  match e with OsNotFound => SeatIo 0 | OsError_ code => SeatIo code end.

Definition sw_source {A} (m : Watching A) : M SeatWatch A SeatError := fun w =>
  let (w, r) := m w in (w, map_err seat_error r).

#[export] Instance SeatWatch_source : SeatSource SeatWatch := {|
  source_seat := sw_seat;
  source_changed := fun report => sw_source (sw_changed report);
  source_look := sw_source sw_look;
  source_wait := fun _ => sw_source sw_wait;
  source_plugged := sw_plugged
|}.

(** [SeatWatch::new]. *)
Definition seat_watch_new (uniq : list Z) (os : Os) (schedule : list (list OsAction * option Z)) : SeatWatch :=
  fst (sw_start {|
    sw_os := os; sw_schedule := schedule; sw_uniq := uniq; sw_seat := DEFAULT_SEAT; sw_watch := WatchAbsent None;
    sw_moved := false; sw_lookup := LookupDone; sw_changes := 0; sw_read := None; sw_seen := ∅
  |}).

(** *** [seat0_held] *)

Inductive Held : Type :=
| ByAnotherUser
| HeldUnreadable
| HeldMissing.

(** On the state [os], which the two reads of [held_in] see. *)
Definition seat0_held (os : Os) (uid : Z) : option Held :=
  match read_record os DEFAULT_SEAT with
  | Ok (Some (_, look)) =>
      match look_active look with
      | ActiveSession _ active => if active =? uid then None else Some ByAnotherUser
      | UnknownActive => Some HeldUnreadable
      | Nobody => None
      end
  | Ok None => if os_dir os then Some HeldMissing else None
  | Err _ => Some HeldUnreadable
  end.
