(* ===== verification/SeatWatchProofs.v ===== *)
(** * logind's records keep the promise of a seat source

    Every step of the environment, and every operation of [SeatWatch], keeps
    what the last look showed, until a change that the next look will tell
    apart; so [SeatWatch] satisfies [SeatSourceLaws]. *)

From Stdlib Require Import Strings.String.
From stdpp Require Import gmap list.
From S2P Require Import Prelude Seat SeatWatch.

(** ** What a look showed *)

Definition signals (os : Os) : list SeatEvent := os_queue os ++ os_flight os.

Definition relevant (seat : list Z) (e : SeatEvent) : Prop := e = EvNamed seat \/ e = EvOverflow.

(** A change of [seat]'s record has been or is being reported. *)
Definition pending (seat : list Z) (os : Os) : Prop := Exists (relevant seat) (signals os).

(** No two records are one file. *)
Definition files_apart (os : Os) : Prop :=
  forall (n1 n2 : list Z) r1 r2, os_records os !! n1 = Some r1 -> os_records os !! n2 = Some r2 ->
    rd_id r1 = rd_id r2 -> n1 = n2.

(** The record of [seat] is the file [id] and says [a]. *)
Definition file_in_place (os : Os) (seat : list Z) (id : Z * Z) (a : Active) : Prop :=
  exists r c, os_records os !! seat = Some r /\ rd_id r = id /\ rd_contents r = Some c /\ parse_active c = a.

Definition no_record (os : Os) (seat : list Z) : Prop :=
  os_records os !! seat = None \/ is_file_name seat = false.

Definition look_in_place (os : Os) (seat : list Z) (l : Look) : Prop :=
  match look_record l with
  | RecordFile dev ino => file_in_place os seat (dev, ino) (look_active l)
  | Absent _ => no_record os seat /\ look_active l = Nobody
  end.

(** The open file [id], if it is still a record, is [seat]'s since write [n]. *)
Definition held_file (w : SeatWatch) (id : Z * Z) (seat : list Z) (n : nat) : Prop :=
  sw_read w = Some id /\
  forall (name : list Z) r, os_records (sw_os w) !! name = Some r -> rd_id r = id ->
    name = seat /\ os_writes (sw_os w) seat = n.

(** The watch works and says nothing else, unless the state is as looked at. *)
Definition unless_reported (w : SeatWatch) (seat : list Z) (now : Prop) : Prop :=
  now \/ (sw_watch w = Notified -> os_watched (sw_os w) = true -> pending seat (sw_os w)).

Definition watch_shown (w : SeatWatch) (l : Look) (seat : list Z) (n : nat) : Prop :=
  match look_record l with
  | RecordFile dev ino =>
      held_file w (dev, ino) seat n /\
      (sw_moved w = false -> sw_seat w = seat /\
         unless_reported w seat (file_in_place (sw_os w) seat (dev, ino) (look_active l)))
  | Absent k =>
      k <= sw_changes w /\ (sw_changes w = k -> sw_moved w = false) /\
      (sw_moved w = false -> sw_seat w = seat /\ look_active l = Nobody /\
         unless_reported w seat (os_writes (sw_os w) seat = n /\ no_record (sw_os w) seat))
  end.

Definition watch_ok (w : SeatWatch) : Prop := files_apart (sw_os w).

Definition watch_told (w : SeatWatch) : Prop :=
  match sw_watch w with
  | Notified => os_watched (sw_os w) = true /\ os_flight (sw_os w) = []
  | Polled => True
  | WatchAbsent _ => False
  end.

Definition watch_quiet (w : SeatWatch) : Prop :=
  sw_watch w = Notified /\ os_queue (sw_os w) = [] /\ sw_moved w = false.

Definition watch_advances (w w' : SeatWatch) : Prop :=
  watch_ok w' /\ forall seat, (os_writes (sw_os w) seat <= os_writes (sw_os w') seat)%nat.

Definition watch_keeps (w w' : SeatWatch) : Prop :=
  watch_advances w w' /\ forall l seat n, watch_shown w l seat n -> watch_shown w' l seat n.

Lemma watch_keeps_refl w : watch_ok w -> watch_keeps w w.
Proof. by intros Hok. Qed.

Lemma watch_keeps_trans a b c : watch_keeps a b -> watch_keeps b c -> watch_keeps a c.
Proof.
  intros [[_ W1] S1] [[O2 W2] S2]. split; [split; [done|]|auto].
  intros seat. specialize (W1 seat). specialize (W2 seat). lia.
Qed.

(** ** The environment *)

(** What one action changes of what the key relies on. *)
Record os_moves (open : option (Z * Z)) (os os' : Os) : Prop := {
  mv_apart : files_apart os -> files_apart os';
  mv_writes : forall seat, (os_writes os seat <= os_writes os' seat)%nat;
  mv_same : forall seat, os_writes os' seat = os_writes os seat -> os_records os' !! seat = os_records os !! seat;
  mv_open : forall (seat : list Z) r, os_records os' !! seat = Some r -> open = Some (rd_id r) ->
    os_records os !! seat = Some r /\ os_writes os' seat = os_writes os seat;
  mv_watched : os_watched os' = true -> os_watched os = true;
  mv_pending : forall seat, pending seat os -> pending seat os';
  mv_reports : forall seat, os_watched os' = true -> os_writes os' seat <> os_writes os seat -> pending seat os'
}.

Lemma moves_refl open os : os_moves open os os.
Proof. split; try done. Qed.

Lemma moves_trans open a b c : os_moves open a b -> os_moves open b c -> os_moves open a c.
Proof.
  intros [A1 A2 A3 A4 A5 A6 A7] [B1 B2 B3 B4 B5 B6 B7]. split.
  - auto.
  - intros seat. specialize (A2 seat). specialize (B2 seat). lia.
  - intros seat E. specialize (A2 seat). specialize (B2 seat). rewrite B3, A3 by lia. done.
  - intros seat r E1 E2. destruct (B4 _ _ E1 E2) as [E3 E4]. destruct (A4 _ _ E3 E2). by split; [|congruence].
  - auto.
  - auto.
  - intros seat Hw Hn. destruct (decide (os_writes c seat = os_writes b seat)) as [E|E]; [|by apply B7].
    apply B6, A7; [by apply B5|congruence].
Qed.

Lemma write_moves open os seat record :
  (forall r, record = Some r -> id_in_use open os (rd_id r) = false) -> os_moves open os (os_write seat record os).
Proof.
  intros Hnew. split; cbn [os_write os_writes os_records os_watched].
  - intros Ha n1 n2 r1 r2. cbn [os_records os_write]. destruct record as [r|].
    + pose proof (Hnew r eq_refl) as Hu. unfold id_in_use in Hu. apply orb_false_iff in Hu as [_ Hu].
      apply bool_decide_eq_false in Hu.
      assert (Hx : forall (n : list Z) x, os_records os !! n = Some x -> rd_id x <> rd_id r)
        by (intros n x Hn E; apply Hu; by exists n, x).
      destruct (decide (n1 = seat)) as [->|N1], (decide (n2 = seat)) as [->|N2];
        rewrite ?lookup_insert_eq, ?lookup_insert_ne by done; [done| | |by apply Ha].
      * intros [= <-] H2 E. by apply Hx in H2.
      * intros H1 [= <-] E. by apply Hx in H1.
    + intros [_ H1]%lookup_delete_Some [_ H2]%lookup_delete_Some. by apply Ha.
  - intros name. case_decide; lia.
  - intros name. case_decide as E; [lia|]. intros _.
    destruct record; by rewrite ?lookup_insert_ne, ?lookup_delete_ne.
  - intros name r. destruct record as [r'|].
    + destruct (decide (name = seat)) as [->|N]; [|by rewrite lookup_insert_ne].
      rewrite lookup_insert_eq. intros [= <-] E. specialize (Hnew r' eq_refl). unfold id_in_use in Hnew.
      apply orb_false_iff in Hnew as [Hnew _]. by apply bool_decide_eq_false in Hnew.
    + intros [N H1]%lookup_delete_Some _. by rewrite decide_False by done.
  - done.
  - intros name. unfold pending, signals. cbn [os_queue os_flight os_write]. rewrite !Exists_app. naive_solver.
  - intros name Hw Hn. case_decide as E; [|done]. subst name. unfold pending, signals.
    cbn [os_queue os_flight os_write]. rewrite Hw, !Exists_app. right. right. constructor. by left.
Qed.

(** An action that leaves the records alone. *)
Lemma signal_moves open os os' :
  os_records os' = os_records os -> os_writes os' = os_writes os -> (os_watched os' = true -> os_watched os = true) ->
  (forall seat, pending seat os -> pending seat os') -> os_moves open os os'.
Proof.
  intros Hr Hw Hwa Hp. split; unfold files_apart; rewrite ?Hr, ?Hw; try done.
Qed.

Lemma act_moves open action os : os_moves open os (os_act open action os).
Proof.
  destruct action as [seat r|seat| | | | |ms|u]; cbn [os_act].
  - destruct (negb (os_dir os)); [apply moves_refl|]. cbn [orb].
    destruct (id_in_use open os (rd_id r)) eqn:E; [apply moves_refl|]. apply write_moves. by intros ? [= <-].
  - destruct (is_some _); [|apply moves_refl]. by apply write_moves.
  - by apply signal_moves.
  - destruct (_ || _); [apply moves_refl|]. apply signal_moves; try done.
    intros seat. unfold pending, signals. cbn [os_queue os_flight os_set_dir]. rewrite !Exists_app. naive_solver.
  - destruct (os_flight os) as [|e flight] eqn:E; [apply moves_refl|]. apply signal_moves; try done.
    intros seat. unfold pending, signals. cbn [os_queue os_flight os_set_events os_set_dir].
    rewrite E, <- app_assoc. done.
  - apply signal_moves; try done. intros seat _. unfold pending, signals. cbn [os_queue os_flight os_set_events os_set_dir].
    rewrite !Exists_app. left. right. constructor. by right.
  - by apply signal_moves.
  - by apply signal_moves.
Qed.

Lemma acts_move open actions os : os_moves open os (os_acts open actions os).
Proof.
  unfold os_acts. revert os. induction actions as [|a actions IH]; intros os; [apply moves_refl|].
  cbn [fold_left]. eapply moves_trans; [apply act_moves|apply IH].
Qed.

(** ** What steps keep *)

Lemma held_moves w os schedule id seat n :
  os_moves (sw_read w) (sw_os w) os -> held_file w id seat n -> held_file (sw_set_os os schedule w) id seat n.
Proof.
  intros Hm [Hr Hf]. split; [done|]. intros name r Hn Hid. cbn [sw_os sw_set_os] in *.
  destruct (mv_open _ _ _ Hm name r Hn) as [Ho Hw]; [congruence|].
  destruct (Hf name r Ho Hid) as [-> <-]. by rewrite Hw.
Qed.

(** Facts about a record stay true until it changes. *)
Lemma unless_moves w os schedule seat (P Q : Prop) :
  os_moves (sw_read w) (sw_os w) os -> (os_writes os seat = os_writes (sw_os w) seat -> P -> Q) ->
  unless_reported w seat P -> unless_reported (sw_set_os os schedule w) seat Q.
Proof.
  intros Hm HPQ. unfold unless_reported. cbn [sw_watch sw_os sw_set_os].
  destruct (decide (os_writes os seat = os_writes (sw_os w) seat)) as [E|E].
  - intros [HP|Hp]; [left; auto|right]. intros Hw Hwd. apply (mv_pending _ _ _ Hm), Hp; [done|].
    by apply (mv_watched _ _ _ Hm).
  - intros _. right. intros _ Hwd. by apply (mv_reports _ _ _ Hm).
Qed.

Lemma moves_keep w os schedule : watch_ok w -> os_moves (sw_read w) (sw_os w) os ->
  watch_keeps w (sw_set_os os schedule w).
Proof.
  intros Hok Hm. split; [split; [by apply (mv_apart _ _ _ Hm)|apply (mv_writes _ _ _ Hm)]|].
  intros l seat n. unfold watch_shown. destruct (look_record l) as [k|dev ino].
  - intros (Hc & Hmv & Hs). split; [done|]. split; [done|]. intros Hmo. destruct (Hs Hmo) as (Hse & Hn & Hu).
    split; [done|]. split; [done|]. eapply unless_moves; [done| |done]. cbn [sw_os sw_set_os].
    intros E [Hw Hr]. split; [congruence|]. unfold no_record in *. by rewrite (mv_same _ _ _ Hm _ E).
  - intros [Hh Hs]. split; [by apply held_moves|]. intros Hmo. destruct (Hs Hmo) as [Hse Hu]. split; [done|].
    eapply unless_moves; [done| |done]. cbn [sw_os sw_set_os]. intros E. unfold file_in_place.
    by rewrite (mv_same _ _ _ Hm _ E).
Qed.

(** Setting what [watch_shown] does not look at. *)
Lemma same_keeps w w' : watch_ok w -> sw_os w' = sw_os w -> sw_seat w' = sw_seat w -> sw_watch w' = sw_watch w ->
  sw_moved w' = sw_moved w -> sw_changes w' = sw_changes w -> sw_read w' = sw_read w -> watch_keeps w w'.
Proof.
  destruct w, w'. cbn. intros Hok -> -> -> -> -> ->. split; [by split|]. intros l seat n.
  unfold watch_shown, held_file, unless_reported. done.
Qed.

Definition op_keeps {A} (m : M SeatWatch A OsError) : Prop := forall w, watch_ok w -> watch_keeps w (fst (m w)).

Lemma op_keeps_bind {A B} (m : M SeatWatch A OsError) (k : A -> M SeatWatch B OsError) :
  op_keeps m -> (forall x, op_keeps (k x)) -> op_keeps (mbind_st m k).
Proof.
  intros Hm Hk w Hok. unfold mbind_st. specialize (Hm w Hok). destruct (m w) as [w1 [x|e]]; [|done].
  cbn [fst] in Hm. eapply watch_keeps_trans; [exact Hm|]. apply Hk, Hm.
Qed.

Lemma op_keeps_ret {A} (x : A) : op_keeps (ret x).
Proof. intros w Hok. by apply watch_keeps_refl. Qed.

Lemma op_keeps_gets {A} (f : SeatWatch -> A) : op_keeps (gets f).
Proof. intros w Hok. by apply watch_keeps_refl. Qed.

Lemma op_keeps_query {A} (f : Os -> result A OsError) : op_keeps (sw_query f).
Proof.
  intros w Hok. unfold sw_query, sw_syscall. destruct (sw_schedule w) as [|[actions [code|]] schedule]; cbn [fst];
    (apply moves_keep; [done|]); first [apply acts_move|apply moves_refl].
Qed.

Lemma op_keeps_now : op_keeps sw_now.
Proof.
  intros w Hok. unfold sw_now. pose proof (op_keeps_query (fun os => Ok (os_now os)) w Hok) as Hq.
  by destruct (sw_query _ w) as [w' []].
Qed.

Lemma op_keeps_is_dir : op_keeps sw_is_dir.
Proof.
  intros w Hok. unfold sw_is_dir. pose proof (op_keeps_query (fun os => Ok (os_dir os)) w Hok) as Hq.
  by destruct (sw_query _ w) as [w' []].
Qed.

Lemma op_keeps_attempt {A} (m : M SeatWatch A OsError) : op_keeps m -> op_keeps (attempt m).
Proof. intros Hm w Hok. unfold attempt. specialize (Hm w Hok). by destruct (m w). Qed.

Lemma op_keeps_modify (f : SeatWatch -> SeatWatch) : (forall w, watch_ok w -> watch_keeps w (f w)) -> op_keeps (modify f).
Proof. intros Hf w Hok. by apply Hf. Qed.

Create HintDb seat.
#[export] Hint Resolve op_keeps_bind op_keeps_ret op_keeps_gets op_keeps_query op_keeps_now op_keeps_is_dir
  op_keeps_attempt : seat.

(** A watch that is gone reports nothing, and promises nothing. *)
Lemma absent_keeps w since : watch_ok w -> watch_keeps w (sw_set_watch (WatchAbsent since) w).
Proof.
  intros Hok. split; [by split|]. intros l seat n. unfold watch_shown.
  assert (Hu : forall P, unless_reported (sw_set_watch (WatchAbsent since) w) seat P) by (intros P; by right).
  destruct (look_record l); [intros (? & ? & Hs)|intros [? Hs]]; split_and!; try done; intros Hm;
    specialize (Hs Hm); by split_and!; destruct_and?.
Qed.

Lemma move_keeps w seat : watch_ok w -> watch_keeps w (move_to seat w).
Proof.
  intros Hok. split; [by split|]. intros l name n. unfold watch_shown.
  destruct (look_record l) as [k|]; [intros (? & ? & _)|intros [? _]]; cbn [move_to sw_changes sw_moved].
  - split_and!; [lia|lia|done].
  - by split.
Qed.

Ltac keep :=
  repeat match goal with
  | |- op_keeps (mbind_st _ _) => apply op_keeps_bind; [|intros ?]
  | |- op_keeps (modify _) => apply op_keeps_modify; intros ??
  | |- watch_keeps ?w ?w => by apply watch_keeps_refl
  | |- watch_keeps _ (sw_set_watch (WatchAbsent _) _) => by apply absent_keeps
  | |- watch_keeps _ (move_to _ _) => by apply move_keeps
  | |- watch_keeps _ (sw_set_lookup _ _) => by apply same_keeps
  | |- op_keeps (match ?x with _ => _ end) => destruct x
  | |- op_keeps _ => progress auto with seat
  end.

Lemma op_keeps_look_up report : op_keeps (look_up_seat report).
Proof. unfold look_up_seat. keep. Qed.

#[export] Hint Resolve op_keeps_look_up : seat.

Lemma op_keeps_changed report : op_keeps (sw_changed report).
Proof. unfold sw_changed. keep. Qed.

Lemma op_keeps_wait : op_keeps sw_wait.
Proof. unfold sw_wait. keep. Qed.

Lemma plugged_keeps_watch w : watch_ok w -> watch_keeps w (sw_plugged w).
Proof.
  intros Hok. unfold sw_plugged. pose proof (op_keeps_now w Hok) as Hk. destruct (sw_now w) as [w1 [t|e]]; [|done].
  cbn [fst] in Hk. eapply watch_keeps_trans; [exact Hk|]. apply same_keeps; [apply Hk|done..].
Qed.

(** A false answer is certain while the directory is watched: the watch held no
    notification when it was asked, and nothing has moved. *)
Lemma changed_false report w w' : sw_changed report w = (w', Ok false) -> watch_told w' -> watch_quiet w'.
Proof.
  unfold sw_changed. intros Hr. peel Hr w1 u Hl. peel Hr w2 watch Hw. injection Hw as <- <-.
  peel Hr w3 b Hb. peel Hr w4 m Hm. injection Hm as <- <-. injection Hr as <- Hf. apply orb_false_iff in Hf as [-> Hmo].
  destruct (sw_watch w1) as [| |since] eqn:Ew.
  - intros _. unfold sw_query, sw_syscall in Hb. assert (E : sw_watch w3 = Notified /\ os_queue (sw_os w3) = []).
    { destruct (sw_schedule w1) as [|[actions [code|]] schedule]; [|done|]; injection Hb as <- Hb;
        apply negb_false_iff, bool_decide_eq_true in Hb; by split. }
    by destruct E.
  - by injection Hb.
  - intros Ht. exfalso. revert Ht. unfold watch_told.
    assert (Hno : exists s, sw_watch w3 = WatchAbsent s); [|by destruct Hno as [s ->]].
    assert (Hq : forall A (f : Os -> result A OsError) v, sw_watch (fst (sw_query f v)) = sw_watch v).
    { intros A f v. unfold sw_query, sw_syscall. by destruct (sw_schedule v) as [|[? [?|]] ?]. }
    assert (Hn : forall v, sw_watch (fst (sw_now v)) = sw_watch v).
    { intros v. unfold sw_now. specialize (Hq _ (fun os => Ok (os_now os)) v). by destruct (sw_query _ v) as [? []]. }
    assert (Hd : forall v, sw_watch (fst (sw_is_dir v)) = sw_watch v).
    { intros v. unfold sw_is_dir. specialize (Hq _ (fun os => Ok (os_dir os)) v). by destruct (sw_query _ v) as [? []]. }
    peel Hb v1 early He. assert (E1 : sw_watch v1 = sw_watch w1).
    { destruct since as [at_|]; [|by injection He as <- _]. peel He v0 t Ht. injection He as <- _.
      specialize (Hn w1). by rewrite Ht in Hn. }
    destruct early; [injection Hb as <-; by exists since; congruence|].
    peel Hb v2 dir Hdi. specialize (Hd v1). rewrite Hdi in Hd. cbn [fst] in Hd.
    destruct dir; [by injection Hb|]. peel Hb v3 t Ht. peel Hb v4 u' Hu. injection Hu as <- _. injection Hb as <-. by eexists.
Qed.

Lemma quiet_not_pending seat w : watch_told w -> watch_quiet w -> ~ pending seat (sw_os w).
Proof.
  intros Ht (Hn & Hq & _). unfold watch_told in Ht. rewrite Hn in Ht. destruct Ht as [_ Hf].
  unfold pending, signals. rewrite Hq, Hf. by intros Hx%Exists_nil.
Qed.

Lemma quiet_settles w seat P : watch_told w -> watch_quiet w -> unless_reported w seat P -> P.
Proof.
  intros Ht Hq [HP|Hp]; [done|]. exfalso. destruct (quiet_not_pending seat w Ht Hq). apply Hp; [apply Hq|].
  unfold watch_told in Ht. destruct Hq as [Hn _]. rewrite Hn in Ht. apply Ht.
Qed.

(** What was shown is so, once nothing more is to be reported. *)
Lemma shown_settled w l seat n : watch_shown w l seat n -> watch_told w -> watch_quiet w ->
  sw_seat w = seat /\ os_writes (sw_os w) seat = n /\ look_in_place (sw_os w) (sw_seat w) l.
Proof.
  intros Hs Ht Hq. pose proof Hq as (_ & _ & Hm). unfold watch_shown in Hs. unfold look_in_place.
  destruct (look_record l) as [k|dev ino].
  - destruct Hs as (_ & _ & Hs). destruct (Hs Hm) as (E & Hn & Hu). apply quiet_settles in Hu as [Hw Hr]; [|done..].
    by rewrite E.
  - destruct Hs as [[_ Hf] Hs]. destruct (Hs Hm) as [E Hu]. apply quiet_settles in Hu; [|done..].
    split; [done|]. rewrite E. split; [|done]. destruct Hu as (r & c & Hr & Hid & _). by apply (Hf seat r Hr Hid).
Qed.

(** ** A look, up to where it opens the record *)

(** Nothing is forgotten of the file that is open. *)
Record passes (w w' : SeatWatch) : Prop := {
  ps_advances : watch_advances w w';
  ps_changes : sw_changes w <= sw_changes w';
  ps_seat : sw_seat w' = sw_seat w;
  ps_read : sw_read w' = sw_read w;
  ps_held : forall id seat n, held_file w id seat n -> held_file w' id seat n
}.

(** Nor of an absence, unless the count of changes tells. *)
Definition stays_absent (w w' : SeatWatch) : Prop :=
  sw_changes w' = sw_changes w -> sw_moved w = false ->
  sw_moved w' = false /\
  forall l k seat n, look_record l = Absent k -> watch_shown w l seat n -> watch_shown w' l seat n.

Definition look_passes {A} (m : M SeatWatch A OsError) : Prop := forall w, watch_ok w ->
  passes w (fst (m w)) /\ (is_ok (snd (m w)) = true -> stays_absent w (fst (m w))).

Lemma passes_refl w : watch_ok w -> passes w w.
Proof. intros Hok. by split. Qed.

Lemma passes_trans a b c : passes a b -> passes b c -> passes a c.
Proof.
  intros [[A1 A2] A3 A4 A5 A6] [[B1 B2] B3 B4 B5 B6]. split; [split; [done|]|lia|congruence|congruence|auto].
  intros seat. specialize (A2 seat). specialize (B2 seat). lia.
Qed.

Lemma stays_trans a b c : passes a b -> passes b c -> stays_absent a b -> stays_absent b c -> stays_absent a c.
Proof.
  intros P1 P2 S1 S2 Hc Hm. pose proof (ps_changes _ _ P1). pose proof (ps_changes _ _ P2).
  destruct S1 as [M1 K1]; [lia|done|]. destruct S2 as [M2 K2]; [lia|done|]. split; [done|]. eauto.
Qed.

Lemma look_passes_bind {A B} (m : M SeatWatch A OsError) (k : A -> M SeatWatch B OsError) :
  look_passes m -> (forall x, look_passes (k x)) -> look_passes (mbind_st m k).
Proof.
  intros Hm Hk w Hok. unfold mbind_st. specialize (Hm w Hok). destruct (m w) as [w1 [x|e]]; cbn [fst snd] in *; [|done].
  destruct Hm as [P1 S1]. destruct (Hk x w1 (proj1 (ps_advances _ _ P1))) as [P2 S2].
  split; [by eapply passes_trans|]. intros Hr. eapply stays_trans; [exact P1|exact P2|by apply S1|by apply S2].
Qed.

Lemma look_passes_same {A} (m : M SeatWatch A OsError) : (forall w, fst (m w) = w) -> look_passes m.
Proof. intros Hm w Hok. rewrite Hm. split; [by apply passes_refl|done]. Qed.

Lemma moves_pass w os schedule : watch_ok w -> os_moves (sw_read w) (sw_os w) os ->
  passes w (sw_set_os os schedule w) /\ stays_absent w (sw_set_os os schedule w).
Proof.
  intros Hok Hm. destruct (moves_keep w os schedule Hok Hm) as [Ha Hk]. split.
  - split; [done|done|done|done|]. intros id seat n. by apply held_moves.
  - intros _ Hmo. split; [done|]. intros l k seat n _. apply Hk.
Qed.

Lemma look_passes_query {A} (f : Os -> result A OsError) : look_passes (sw_query f).
Proof.
  intros w Hok. unfold sw_query, sw_syscall.
  assert (Hp : forall os schedule (r : result A OsError), os_moves (sw_read w) (sw_os w) os ->
    passes w (fst (sw_set_os os schedule w, r)) /\
    (is_ok (snd (sw_set_os os schedule w, r)) = true -> stays_absent w (fst (sw_set_os os schedule w, r)))).
  { intros os schedule r Hm. cbn [fst]. by destruct (moves_pass w os schedule Hok Hm). }
  destruct (sw_schedule w) as [|[actions [code|]] schedule]; apply Hp; first [apply acts_move|apply moves_refl].
Qed.

Lemma look_passes_now : look_passes sw_now.
Proof.
  intros w Hok. unfold sw_now, sw_query, sw_syscall. destruct (sw_schedule w) as [|[actions [code|]] schedule]; cbn [fst snd];
    edestruct (moves_pass w) as [Hp Hs]; [done|apply moves_refl|by split|done|apply acts_move|by split|done|apply acts_move|by split].
Qed.

Lemma look_passes_is_dir : look_passes sw_is_dir.
Proof.
  intros w Hok. unfold sw_is_dir, sw_query, sw_syscall. destruct (sw_schedule w) as [|[actions [code|]] schedule]; cbn [fst snd];
    edestruct (moves_pass w) as [Hp Hs]; [done|apply moves_refl|by split|done|apply acts_move|by split|done|apply acts_move|by split].
Qed.

(** A step after which the count of changes tells. *)
Lemma look_passes_told {A} (m : M SeatWatch A OsError) :
  (forall w, watch_ok w -> passes w (fst (m w)) /\ sw_changes w < sw_changes (fst (m w))) -> look_passes m.
Proof. intros Hm w Hok. destruct (Hm w Hok) as [Hp Hc]. split; [done|]. intros _ He. lia. Qed.

Lemma bump_passes w : watch_ok w -> passes w (sw_bump w).
Proof. intros Hok. split; try done. cbn. lia. Qed.

Lemma set_watch_passes watch w : watch_ok w -> passes w (sw_set_watch watch w).
Proof. intros Hok. by split. Qed.

Definition op_passes {A} (m : M SeatWatch A OsError) : Prop := forall w, watch_ok w -> passes w (fst (m w)).

Lemma op_passes_bind {A B} (m : M SeatWatch A OsError) (k : A -> M SeatWatch B OsError) :
  op_passes m -> (forall x, op_passes (k x)) -> op_passes (mbind_st m k).
Proof.
  intros Hm Hk w Hok. unfold mbind_st. specialize (Hm w Hok). destruct (m w) as [w1 [x|e]]; cbn [fst] in *; [|done].
  eapply passes_trans; [exact Hm|]. apply Hk, Hm.
Qed.

Lemma op_passes_modify (f : SeatWatch -> SeatWatch) : (forall w, watch_ok w -> passes w (f w)) -> op_passes (modify f).
Proof. intros Hf w Hok. by apply Hf. Qed.

(** Same records, same history of them. *)
Lemma same_records_pass w os schedule : watch_ok w -> os_records os = os_records (sw_os w) ->
  os_writes os = os_writes (sw_os w) -> passes w (sw_set_os os schedule w).
Proof.
  intros Hok Er Ew. split; [split|done..|].
  - unfold watch_ok, files_apart. cbn [sw_os sw_set_os]. by rewrite Er.
  - cbn [sw_os sw_set_os]. by rewrite Ew.
  - unfold held_file. cbn [sw_read sw_os sw_set_os]. by rewrite Er, Ew.
Qed.

Lemma op_passes_add_watch : op_passes (sw_syscall add_watch).
Proof.
  intros w Hok. unfold sw_syscall.
  assert (Ha : forall v schedule, watch_ok v -> passes v (fst (let (os, r) := add_watch (sw_os v) in (sw_set_os os schedule v, r)))).
  { intros v schedule Hv. unfold add_watch. destruct (os_dir (sw_os v)); cbn [fst]; by apply same_records_pass. }
  destruct (sw_schedule w) as [|[actions fails] schedule]; [by apply Ha|].
  assert (Hm : os_moves (sw_read w) (sw_os w) (os_acts (sw_read w) actions (sw_os w))) by apply acts_move.
  destruct (moves_pass w _ schedule Hok Hm) as [Hp _]. destruct fails as [code|]; [done|].
  eapply passes_trans; [exact Hp|].
  exact (Ha (sw_set_os (os_acts (sw_read w) actions (sw_os w)) schedule w) schedule (proj1 (ps_advances _ _ Hp))).
Qed.

Lemma op_passes_start : op_passes sw_start.
Proof.
  unfold sw_start. apply op_passes_bind; [intros w Hok; by apply look_passes_is_dir|]. intros dir.
  destruct (negb dir).
  - apply op_passes_bind; [intros w Hok; by apply look_passes_now|]. intros now.
    apply op_passes_modify. intros w. apply set_watch_passes.
  - apply op_passes_bind; [|intros r; apply op_passes_modify; intros w; apply set_watch_passes].
    intros w Hok. unfold attempt. pose proof (op_passes_add_watch w Hok) as Hp. by destruct (sw_syscall add_watch w).
Qed.

Lemma absent_stays w since : watch_ok w -> stays_absent w (sw_set_watch (WatchAbsent since) w).
Proof. intros Hok _ Hm. split; [done|]. intros l k seat n _. by apply absent_keeps. Qed.

Lemma look_passes_rediscover : look_passes rediscover.
Proof.
  unfold rediscover. apply look_passes_bind; [by apply look_passes_same|]. intros watch.
  destruct watch as [| |since]; try by apply look_passes_same.
  apply look_passes_bind; [apply look_passes_is_dir|]. intros dir. destruct dir.
  - apply look_passes_told. intros w Hok. unfold mbind_st at 1, modify at 1. cbn [fst snd].
    pose proof (bump_passes w Hok) as Hb. pose proof (op_passes_start _ (proj1 (ps_advances _ _ Hb))) as Hs.
    unfold mbind_st, modify. split; [by eapply passes_trans|]. pose proof (ps_changes _ _ Hs) as Hc. cbn in Hc. lia.
  - apply look_passes_bind; [apply look_passes_now|]. intros now w Hok. cbn [fst snd modify].
    split; [by apply set_watch_passes|]. intros _. by apply absent_stays.
Qed.

Lemma moved_passes b : op_passes (modify (sw_set_moved b)).
Proof. intros w Hok. by split. Qed.

Lemma look_passes_unmoved : look_passes (modify (sw_set_moved false)).
Proof.
  intros w Hok. split; [by apply moved_passes|]. intros _ _ Hm. split; [done|]. intros l k seat n _.
  by apply same_keeps.
Qed.

(** *** Draining the watch *)

Lemma drained_quietly seat events d :
  let d' := fold_left (drain_event seat) events d in dr_named d' = false -> dr_lost d' = false ->
  dr_named d = false /\ dr_lost d = false /\ ~ Exists (relevant seat) events.
Proof.
  revert d. induction events as [|e events IH]; intros d; cbn [fold_left].
  - intros ? ?. split_and!; [done|done|]. by intros Hx%Exists_nil.
  - intros Hn Hl. destruct (IH (drain_event seat d e) Hn Hl) as (En & El & Hno).
    destruct e as [name| |]; cbn [drain_event dr_named dr_lost] in En, El; try done.
    + apply orb_false_iff in En as [En Hne]. apply bool_decide_eq_false in Hne. split_and!; [done|done|].
      intros Hx%Exists_cons. destruct Hx as [[Hx|Hx]|Hx]; [congruence|done|done].
    + split_and!; [done|done|]. intros Hx%Exists_cons. destruct Hx as [[Hx|Hx]|Hx]; done.
Qed.

(** Taking what the watch holds loses nothing that was to be reported of a seat
    none of it is about. *)
Lemma take_stays w schedule : watch_ok w -> ~ Exists (relevant (sw_seat w)) (os_queue (sw_os w)) ->
  stays_absent w (sw_set_os (os_set_events [] (os_flight (sw_os w)) (sw_os w)) schedule w).
Proof.
  intros Hok Hno _ Hm. split; [done|]. intros l k seat n Hl. unfold watch_shown. rewrite Hl.
  intros (Hc & Hmv & Hs). split; [done|]. split; [done|]. intros _. destruct (Hs Hm) as (E & Hn & Hu).
  split; [done|]. split; [done|]. destruct Hu as [Hu|Hp]; [by left|right]. intros Hw Hwd. specialize (Hp Hw Hwd).
  unfold pending, signals in *. apply Exists_app in Hp as [Hp|Hp]; [by rewrite E in Hno|].
  cbn [sw_os sw_set_os os_set_events os_set_dir os_queue os_flight]. by rewrite app_nil_l.
Qed.

Lemma drain_from_passes schedule w d os' schedule' r :
  watch_ok w -> drain_from schedule (sw_read w) (sw_seat w) (sw_os w) d = (os', schedule', r) ->
  passes w (sw_set_os os' schedule' w) /\
  forall d', r = Ok d' -> dr_named d' = false -> dr_lost d' = false ->
    dr_named d = false /\ dr_lost d = false /\ stays_absent w (sw_set_os os' schedule' w).
Proof.
  revert w d. induction schedule as [|[actions fails] schedule IH]; intros w d Hok; cbn [drain_from].
  - intros [= <- <- <-]. split; [by apply same_records_pass|]. intros d' [= <-] Hn Hl.
    destruct (drained_quietly _ _ _ Hn Hl) as (? & ? & Hno). split_and!; [done|done|by apply take_stays].
  - set (os := os_acts (sw_read w) actions (sw_os w)).
    assert (Hm : os_moves (sw_read w) (sw_os w) os) by apply acts_move.
    destruct (moves_pass w os schedule Hok Hm) as [Hp Hs]. destruct fails as [code|]; [by intros [= <- <- <-]|].
    destruct (os_queue os) as [|e events] eqn:Eq; [by intros [= <- <- <-]; split; [|intros d' [= <-]]|].
    intros Hr. set (w1 := sw_set_os os schedule w) in *. set (w2 := sw_set_os (os_set_events [] (os_flight os) os) schedule w).
    assert (Hok1 : watch_ok w1) by apply Hp.
    assert (Hp2 : passes w1 w2) by (by apply (same_records_pass w1)).
    destruct (IH w2 (fold_left (drain_event (sw_seat w)) (e :: events) d) (proj1 (ps_advances _ _ Hp2)) Hr) as [Hp3 Hst].
    assert (P12 : passes w w2) by (by eapply passes_trans).
    split; [by eapply (passes_trans _ w2)|]. intros d' Hd Hn Hl. destruct (Hst d' Hd Hn Hl) as (Hn1 & Hl1 & Hs3).
    destruct (drained_quietly _ _ _ Hn1 Hl1) as (? & ? & Hno). split_and!; [done|done|].
    assert (Hs2 : stays_absent w1 w2).
    { apply (take_stays w1 schedule); [done|]. cbn [w1 sw_os sw_set_os sw_seat]. by rewrite Eq. }
    assert (S12 : stays_absent w w2) by (by eapply (stays_trans _ w1)).
    by eapply (stays_trans _ w2).
Qed.

Lemma take_notice_passes d w : watch_ok w -> passes w (take_notice d w).
Proof.
  intros Hok. unfold take_notice. destruct (dr_named d), (dr_lost d), (dr_gone d); cbn [orb]; split; try done; cbn; lia.
Qed.

Lemma take_notice_tells d w : sw_changes (take_notice d w) = sw_changes w ->
  dr_named d = false /\ dr_lost d = false /\ take_notice d w = w.
Proof.
  unfold take_notice. destruct (dr_named d), (dr_lost d), (dr_gone d); cbn [orb]; cbn; intros Hc; try lia. done.
Qed.

Lemma look_passes_drain : look_passes drain_if_notified.
Proof.
  unfold drain_if_notified. apply look_passes_bind; [by apply look_passes_same|]. intros watch.
  destruct watch; [|by apply look_passes_same..]. intros w Hok. unfold mbind_st, drain, modify.
  destruct (drain_from _ _ _ _ _) as [[os schedule] r] eqn:Ed. apply drain_from_passes in Ed as [Hp Hst]; [|done].
  destruct r as [d|e]; cbn [fst snd]; [|by split].
  pose proof (take_notice_passes d _ (proj1 (ps_advances _ _ Hp))) as Hn. split; [by eapply passes_trans|].
  intros _ Hc Hm. pose proof (ps_changes _ _ Hp) as C1. pose proof (ps_changes _ _ Hn) as C2.
  destruct (take_notice_tells d (sw_set_os os schedule w)) as (En & El & E); [lia|]. rewrite E in *.
  destruct (Hst d eq_refl En El) as (_ & _ & Hs). by apply Hs.
Qed.

Lemma look_keeps_moved w : sw_moved (fst (drain_if_notified w)) = sw_moved w.
Proof.
  unfold drain_if_notified, mbind_st, gets, drain, modify. destruct (sw_watch w); try done.
  destruct (drain_from _ _ _ _ _) as [[os schedule] [d|e]]; [|done]. cbn [fst]. unfold take_notice.
  by destruct (dr_named d), (dr_lost d), (dr_gone d).
Qed.

Definition before_read : M SeatWatch unit OsError :=
  rediscover ;;* modify (sw_set_moved false) ;;* drain_if_notified.

Lemma look_passes_before : look_passes before_read.
Proof.
  apply look_passes_bind; [apply look_passes_rediscover|]. intros _.
  apply look_passes_bind; [apply look_passes_unmoved|]. intros _. apply look_passes_drain.
Qed.

Lemma before_unmoved w w' : before_read w = (w', Ok tt) -> sw_moved w' = false.
Proof.
  unfold before_read. intros Hr. peel Hr w1 u Hd. peel Hr w2 u' Hm. injection Hm as <- _.
  pose proof (look_keeps_moved (sw_set_moved false w1)) as Hk. rewrite Hr in Hk. done.
Qed.

Lemma look_split w : sw_look w = (before_read ;;* (
  let* changes := gets sw_changes in
  let* seat := gets sw_seat in
  let absent := {| look_active := Nobody; look_record := Absent changes |} in
  if negb (is_file_name seat) then modify (sw_set_read None) ;;* ret absent
  else
    let* seen := gets (fun w => bool_decide (seat ∈ sw_seen w)) in
    let* found := read_seat seen seat in
    match found with
    | Some (id, look) => modify (fun w => sw_set_read (Some id) (saw w)) ;;* ret look
    | None => modify (sw_set_read None) ;;* ret absent
    end)) w.
Proof.
  unfold sw_look, before_read, mbind_st. destruct (rediscover w) as [w1 [u|e]]; [|done].
  destruct (modify (sw_set_moved false) w1) as [w2 [u2|e]]; [|done]. by destruct (drain_if_notified w2) as [w3 [u3|e]].
Qed.

(** A look that succeeds ends where it opened the record, or found none. *)
Lemma look_found w w' l : watch_ok w -> sw_look w = (w', Ok l) -> exists w2,
  passes w w2 /\ stays_absent w w2 /\ sw_moved w2 = false /\
  ((exists dev ino, w' = sw_set_read (Some (dev, ino)) (saw w2) /\ look_record l = RecordFile dev ino /\
      file_in_place (sw_os w2) (sw_seat w2) (dev, ino) (look_active l)) \/
   (w' = sw_set_read None w2 /\ look_active l = Nobody /\ look_record l = Absent (sw_changes w2) /\
      no_record (sw_os w2) (sw_seat w2))).
Proof.
  intros Hok. rewrite look_split. intros Hr. peel Hr w1 u Hb. destruct u.
  pose proof (before_unmoved _ _ Hb) as Hm. destruct (look_passes_before w Hok) as [Hp Hs]. rewrite Hb in Hp, Hs.
  cbn [fst snd] in Hp, Hs. specialize (Hs eq_refl).
  peel Hr w2 changes Hc. injection Hc as <- <-. peel Hr w2 seat Hse. injection Hse as <- <-.
  destruct (is_file_name (sw_seat w1)) eqn:Ef; cbn [negb] in Hr.
  2:{ peel Hr w2 u Hu. injection Hu as <- _. injection Hr as <- <-. exists w1. split_and!; try done.
      right. split_and!; try done. by right. }
  peel Hr w2 seen Hsn. injection Hsn as <- <-. peel Hr w3 found Hf. unfold read_seat in Hf. peel Hf w4 fnd Hq.
  destruct (look_passes_query (fun os => read_record os (sw_seat w1)) w1 (proj1 (ps_advances _ _ Hp))) as [Hp2 Hs2].
  rewrite Hq in Hp2, Hs2. cbn [fst snd] in Hp2, Hs2. specialize (Hs2 eq_refl).
  assert (Hread : read_record (sw_os w4) (sw_seat w1) = Ok fnd /\ sw_moved w4 = false /\ sw_seat w4 = sw_seat w1 /\
      sw_changes w4 = sw_changes w1).
  { revert Hq. unfold sw_query, sw_syscall. destruct (sw_schedule w1) as [|[actions [code|]] schedule]; [|done|];
      by intros [= <- <-]. }
  destruct Hread as (Hrd & Hm4 & Hs4 & Hc4). exists w4. split; [by eapply passes_trans|].
  split; [by eapply stays_trans|]. split; [done|]. unfold read_record in Hrd.
  destruct fnd as [[[dev ino] look]|].
  - injection Hf as <- <-. peel Hr w5 u Hu. injection Hu as <- _. injection Hr as <- <-. left. exists dev, ino.
    destruct (os_records (sw_os w4) !! sw_seat w1) as [r|] eqn:Er; [|done]. destruct (rd_contents r) as [c|] eqn:Ec; [|done].
    unfold rd_id in Hrd. injection Hrd as <- <- <-. split_and!; [done|done|]. rewrite Hs4. by exists r, c.
  - destruct (bool_decide _); [done|]. injection Hf as <- <-. peel Hr w5 u Hu. injection Hu as <- _.
    injection Hr as <- <-. right. rewrite Hc4, Hs4. split_and!; try done. left.
    destruct (os_records (sw_os w4) !! sw_seat w1) as [r|]; [|done]. by destruct (rd_contents r).
Qed.

(** *** The promise *)

Lemma look_advances_watch w : watch_ok w -> watch_advances w (fst (sw_look w)).
Proof.
  intros Hok. rewrite look_split. unfold mbind_st at 1.
  destruct (look_passes_before w Hok) as [[Ha _ _ _ _] _]. destruct (before_read w) as [w1 [u|e]]; [|done]. cbn [fst] in Ha.
  unfold mbind_st, gets, modify, ret. destruct (negb _); [done|]. unfold read_seat, mbind_st.
  destruct (look_passes_query (fun os => read_record os (sw_seat w1)) w1 (proj1 Ha)) as [[Hq _ _ _ _] _].
  assert (Ht : forall w2, watch_advances w1 w2 -> watch_advances w w2).
  { intros w2 [Ho Hw]. split; [done|]. intros seat. destruct Ha as [_ Hw1]. specialize (Hw seat). specialize (Hw1 seat). lia. }
  destruct (sw_query _ w1) as [w2 [[[id look]|]|e]]; cbn [fst] in Hq; [by apply Ht| |by apply Ht].
  destruct (bool_decide _); by apply Ht.
Qed.

Lemma look_shows_watch w w' l : watch_ok w -> sw_look w = (w', Ok l) ->
  look_in_place (sw_os w') (sw_seat w') l /\
  exists n, (n <= os_writes (sw_os w') (sw_seat w'))%nat /\ watch_shown w' l (sw_seat w') n.
Proof.
  intros Hok Hl. apply look_found in Hl as (w2 & Hp & _ & Hm & Hcase); [|done].
  pose proof (proj1 (ps_advances _ _ Hp)) as Hok2. unfold look_in_place, watch_shown.
  destruct Hcase as [(dev & ino & -> & -> & Hf)|(-> & Hn & -> & Hr)].
  - split; [done|]. exists (os_writes (sw_os w2) (sw_seat w2)). split; [done|]. split; [|by intros _; split; [|left]].
    split; [done|]. intros name r Hnr Hid. destruct Hf as (r' & c & Hr' & Hid' & _). cbn [sw_os sw_set_read saw] in *.
    split; [|done]. eapply Hok2; [exact Hnr|exact Hr'|congruence].
  - split; [done|]. exists (os_writes (sw_os w2) (sw_seat w2)). split; [done|]. split; [done|]. split; [done|].
    intros _. split_and!; [done|done|]. by left.
Qed.

Lemma look_again_watch w w' l l' seat n : watch_ok w -> watch_shown w l seat n -> sw_look w = (w', Ok l') ->
  look_record l' = look_record l -> watch_shown w' l' seat n.
Proof.
  intros Hok Hs Hl He. apply look_found in Hl as (w2 & Hp & Hst & Hm & Hcase); [|done].
  destruct Hcase as [(dev & ino & -> & El & Hf)|(-> & Hn & El & Hr)]; rewrite El in He;
    unfold watch_shown in *; rewrite <- He in Hs; rewrite El.
  - destruct Hs as [Hh _]. destruct (ps_held _ _ Hp _ _ _ Hh) as [_ Hh2].
    pose proof Hf as (r & c & Hr & Hid & _). destruct (Hh2 _ _ Hr Hid) as [E1 E2].
    split; [by split|]. intros _. rewrite <- E1. split; [done|]. by left.
  - destruct Hs as (Hc & Hmv & Hs). pose proof (ps_changes _ _ Hp).
    destruct Hst as [_ Hk]; [lia|apply Hmv; lia|].
    specialize (Hk l (sw_changes w2) seat n (eq_sym He)). unfold watch_shown in Hk. rewrite <- He in Hk.
    destruct Hk as (Hc2 & _ & Hs2); [by split_and!|]. destruct (Hs2 Hm) as (E & _ & Hu). by split_and!.
Qed.

#[export] Instance SeatWatch_laws : SeatSourceLaws SeatWatch.
Proof.
  refine {|
    source_ok := watch_ok;
    writes := fun w => os_writes (sw_os w);
    in_place := fun w l => look_in_place (sw_os w) (sw_seat w) l;
    told := watch_told;
    quiet := watch_quiet;
    shown := watch_shown;
    changed_keeps := _; wait_keeps := _; plugged_keeps := _; look_advances := _; look_shows := _; look_again := _;
    changed_certain := _; shown_true := _
  |}.
  - intros report w Hok. cbn [source_changed SeatWatch_source]. unfold sw_source.
    pose proof (op_keeps_changed report w Hok) as Hk. by destruct (sw_changed report w).
  - intros t w Hok. cbn [source_wait SeatWatch_source]. unfold sw_source.
    pose proof (op_keeps_wait w Hok) as Hk. by destruct (sw_wait w).
  - apply plugged_keeps_watch.
  - intros w Hok. cbn [source_look SeatWatch_source]. unfold sw_source.
    pose proof (look_advances_watch w Hok) as Ha. by destruct (sw_look w).
  - intros w w' l Hok. cbn [source_look source_seat SeatWatch_source]. unfold sw_source.
    destruct (sw_look w) as [w1 [l'|e]] eqn:El; intros [= <- <-]. by apply look_shows_watch in El.
  - intros w w' l l' seat n Hok Hs. cbn [source_look SeatWatch_source]. unfold sw_source.
    destruct (sw_look w) as [w1 [l1|e]] eqn:El; intros [= <- <-]. by eapply look_again_watch.
  - intros report w w' l seat n Hok Hs. cbn [source_changed SeatWatch_source]. unfold sw_source.
    destruct (sw_changed report w) as [w1 [b|e]] eqn:Ec; intros [= <- ->] Ht.
    pose proof (changed_false _ _ _ Ec Ht) as Hq. split; [done|].
    pose proof (op_keeps_changed report w Hok) as [_ Hk]. rewrite Ec in Hk. by apply (shown_settled _ l seat n); [apply Hk| |].
  - intros w l seat n Hok Hs Ht Hq. destruct (shown_settled _ _ _ _ Hs Ht Hq) as (? & ? & _). done.
Defined.

(** * A device serves only while its seat is its user's

    The seat's guarantee over logind's records ([Seat.v], [SeatWatch.v]), runs
    of it, and where a missing directory leaves it open. *)



Lemma new_watch_ok uniq os schedule : files_apart os -> watch_ok (seat_watch_new uniq os schedule).
Proof. intros Ha. by apply op_passes_start. Qed.

(** What the record of [seat] may say for the device of [owner] to exist. *)
Definition owner_may_serve (os : Os) (seat : list Z) (owner : Z) : Prop :=
  match os_records os !! seat with
  | Some r =>
      is_file_name seat = false \/
      exists contents, rd_contents r = Some contents /\
        match parse_active contents with Nobody => True | ActiveSession _ uid => uid = owner | UnknownActive => False end
  | None => True
  end.

(** C12: a report is handled or sent only while the seat is free for the key's
    user, however logind's writes fall between the key's system calls: when a
    report got through, the record then in place names the user's own session
    or none, unless the directory is not watched or a notification is still
    under way; and if the watch holds none either, the record has not been
    written once since the device was created, not even to switch to another
    user and back. *)
Theorem device_serves_only_its_user {D : Type} `{HidDevice D} (uniq : list Z) (os : Os)
    (schedule : list (list OsAction * option Z)) (owner : Z) (shutdown : list bool) (on_hold : result unit SeatError)
    (s1 : Seat SeatWatch) (device : D) (ops : list ReportOp) (op : ReportOp) (s2 : SeatDevice D SeatWatch)
    (r : option bytes)
    (Happart : files_apart os)
    (Hturn : wait_for_turn shutdown on_hold (seat_new (seat_watch_new uniq os schedule) owner) = (s1, Ok tt))
    (Hreport : report_op op (report_ops ops {| sd_device := device; sd_seat := seat_plugged s1 |}) = (s2, Ok r))
    (Htold : watch_told (st_source (sd_seat s2))) :
  let w := st_source (sd_seat s2) in
  owner_may_serve (sw_os w) (sw_seat w) owner /\
  (watch_quiet w -> os_writes (sw_os w) (sw_seat w) = os_writes (sw_os (st_source (seat_plugged s1))) (sw_seat w)).
Proof.
  destruct (@report_vouched D SeatWatch _ _ SeatWatch_laws owner shutdown on_hold (seat_watch_new uniq os schedule) s1 device ops op s2 (Ok r) (new_watch_ok uniq os schedule Happart)
    Hturn Hreport eq_refl Htold) as (l & Ha & Hp & Hq).
  split; [|exact Hq]. cbn [in_place SeatWatch_laws] in Hp. unfold look_in_place in Hp. unfold owner_may_serve.
  destruct (look_record l) as [k|dev ino].
  - destruct Hp as [[Hn|Hn] _]; [by rewrite Hn|]. destruct (_ !! _); [by left|done].
  - destruct Hp as (rd & c & Hr & _ & Hc & Hpa). rewrite Hr. right. exists c. split; [done|]. by rewrite Hpa.
Qed.

(** ** Runs *)

Module SeatWitness.

(** A device that always has the same report and takes any. *)
#[local] Instance steady_device : HidDevice unit := {|
  try_read_frame := ret (Some (repeat 7 64));
  write_frame := fun _ => ret tt
|}.

Definition session_of (uid : string) : list Z :=
  ascii_bytes "ACTIVE=c1" ++ [10] ++ ascii_bytes "ACTIVE_UID=" ++ ascii_bytes uid ++ [10].

Definition record (ino : Z) (uid : string) : RecordOnDisk :=
  {| rd_dev := 1; rd_ino := ino; rd_contents := Some (session_of uid) |}.

Definition start : Os := {|
  os_dir := true; os_records := {[ DEFAULT_SEAT := record 10 "1000" ]}; os_writes := fun _ => 0%nat;
  os_watched := false; os_queue := []; os_flight := []; os_now := 0;
  os_udev := {| ud_hidraw := Err OsNotFound; ud_data := fun _ => Err OsNotFound |}
|}.

Lemma start_apart : files_apart start.
Proof.
  intros n1 n2 r1 r2 H1 H2 _. cbn [os_records start] in H1, H2.
  apply lookup_singleton_Some in H1 as [<- _]. by apply lookup_singleton_Some in H2 as [<- _].
Qed.

Definition calls (n : nat) : list (list OsAction * option Z) := repeat ([TimePasses 1], None) n.

(** The key's own session is active; another seat is written while it serves. *)
Definition peaceful : list (list OsAction * option Z) :=
  calls 7 ++ [([LogindSaves (ascii_bytes "seat1") (record 11 "1001"); EventArrives], None)] ++ calls 12.

(** Another user's session becomes active and the owner's again between two
    reports: inode 10 is free again, but the key holds it open. *)
Definition switched : list (list OsAction * option Z) :=
  calls 7 ++ [([LogindSaves DEFAULT_SEAT (record 12 "1001"); LogindSaves DEFAULT_SEAT (record 10 "1000");
                LogindSaves DEFAULT_SEAT (record 13 "1000"); EventArrives], None)].

Definition turn (schedule : list (list OsAction * option Z)) : Seat SeatWatch * result unit SeatError :=
  wait_for_turn [] (Ok tt) (seat_new (seat_watch_new [] start schedule) 1000).

Definition reported (schedule : list (list OsAction * option Z)) : SeatDevice unit SeatWatch * result (option bytes) SeatError :=
  report_op ReadReport (report_ops [ReadReport; WriteReport []]
    {| sd_device := tt; sd_seat := seat_plugged (fst (turn schedule)) |}).

Example switch_unplugs : snd (reported switched) = Err Unplugged.
Proof. vm_compute. reflexivity. Qed.

Definition plugged_in : Seat SeatWatch := fst (turn peaceful).

Definition final : SeatDevice unit SeatWatch := fst (reported peaceful).

Lemma turn_runs :
  wait_for_turn [] (Ok tt) (seat_new (seat_watch_new [] start peaceful) 1000) = (plugged_in, Ok tt).
Proof. vm_compute. reflexivity. Qed.

Lemma reported_runs :
  report_op ReadReport (report_ops [ReadReport; WriteReport []] {| sd_device := tt; sd_seat := seat_plugged plugged_in |}) =
  (final, Ok (Some (repeat 7 64))).
Proof. vm_compute. reflexivity. Qed.

Lemma final_watch : watch_told (st_source (sd_seat final)) /\ watch_quiet (st_source (sd_seat final)) /\
  os_writes (sw_os (st_source (seat_plugged plugged_in))) (sw_seat (st_source (sd_seat final))) = 0%nat.
Proof. vm_compute. repeat split. Qed.

#[local] Opaque plugged_in final.

Lemma device_serves_only_its_user_witness :
  owner_may_serve (sw_os (st_source (sd_seat final))) (sw_seat (st_source (sd_seat final))) 1000 /\
  os_writes (sw_os (st_source (sd_seat final))) (sw_seat (st_source (sd_seat final))) = 0%nat.
Proof.
  destruct final_watch as (Ht & Hq & Hz).
  destruct (device_serves_only_its_user [] start peaceful 1000 [] (Ok tt) plugged_in tt
    [ReadReport; WriteReport []] ReadReport final (Some (repeat 7 64)) start_apart turn_runs
    reported_runs Ht) as [Hs Hw].
  split; [exact Hs|]. exact (eq_trans (Hw Hq) Hz).
Defined.

(** Without the seats directory, a look holds for up to a second: logind starts
    and another user's session becomes active, and the key still serves. *)
Definition no_logind : Os := {|
  os_dir := false; os_records := ∅; os_writes := fun _ => 0%nat; os_watched := false; os_queue := []; os_flight := [];
  os_now := 0; os_udev := {| ud_hidraw := Err OsNotFound; ud_data := fun _ => Err OsNotFound |}
|}.

Definition logind_starts : list (list OsAction * option Z) :=
  calls 7 ++ [([DirAppears; LogindSaves DEFAULT_SEAT (record 12 "1001")], None)].

Definition served_on : SeatDevice unit SeatWatch * result (option bytes) SeatError :=
  report_op ReadReport (report_ops [ReadReport; WriteReport []]
    {| sd_device := tt;
       sd_seat := seat_plugged (fst (wait_for_turn [] (Ok tt) (seat_new (seat_watch_new [] no_logind logind_starts) 1000))) |}).

Example missing_directory_not_certain :
  is_ok (snd served_on) = true /\
  os_records (sw_os (st_source (sd_seat (fst served_on)))) !! DEFAULT_SEAT = Some (record 12 "1001") /\
  parse_active (session_of "1001") = ActiveSession (ascii_bytes "c1") 1001.
Proof. vm_compute. repeat split. Qed.

End SeatWitness.
