(* ===== verification/Notification.v ===== *)
(** * Asking with a desktop notification ([crates/pqkey/src/presence/notification.rs])

    One notification per presence request, over the class [NotificationServer]
    of the desktop's prompt providers.  Time and cancellation are streams of
    readings, in nanoseconds; [np_faults] says which operations on the prompt
    record fail, and what a failed write leaves.  The loop has fuel: a reading
    of the clock per turn (the last part of this file shows it answers).  Text is
    a list of characters; log lines are left out. *)

From Stdlib Require Import Strings.String.
From stdpp Require Import list.
From S2P Require Import Prelude Text Presence.

Definition APPROVE_ACTION : list Z := ascii_bytes "approve".

Definition DENY_ACTION : list Z := ascii_bytes "deny".

Definition MAX_RP_ID_CHARS : nat := 80.

Definition MAX_USER_CHARS : nat := 64.

(** 20 ms. *)
Definition CANCELLATION_POLL : Z := 20000000.

Record Notification : Type := { nt_summary : list Z; nt_body : list Z; nt_timeout : Z }.

Inductive NotificationEvent : Type :=
| ActionInvoked (id : Z) (key : list Z)
| NotificationClosed (id : Z) (expired : bool).

Record ServerInfo : Type := {
  supports_actions : bool;
  supports_body : bool;
  body_markup : bool;
  server_name : option (list Z);
  server_identity : option (list Z * list Z);
  refresh_interval : option Z
}.

Inductive ConnectError : Type :=
| NoSession (what : list Z)
| NoServer (what : list Z)
| ConnectFailed (what : list Z).

Class NotificationServer (S : Type) : Type := {
  server_connect : S -> S * result ServerInfo ConnectError;
  server_notify : Notification -> S -> S * result Z (list Z);
  server_next_event : Z -> S -> S * result (option NotificationEvent) (list Z);
  server_close : Z -> S -> S * result unit (list Z);
  server_nudge : S -> S * result Z (list Z);
  server_disconnect : S -> S
}.

(** ** What is shown *)

Inductive Keep : Type := KeepStart | KeepEnd.

Definition in_char_range (low high c : Z) : bool := (low <=? c) && (c <=? high).

Definition is_invisible_format (c : Z) : bool :=
  (c =? 0x00AD) || (c =? 0x034F) || in_char_range 0x0600 0x0605 c || (c =? 0x061C) || (c =? 0x06DD) || (c =? 0x070F)
  || in_char_range 0x0890 0x0891 c || (c =? 0x08E2) || in_char_range 0x115F 0x1160 c || in_char_range 0x17B4 0x17B5 c
  || in_char_range 0x180B 0x180F c || in_char_range 0x200B 0x200F c || in_char_range 0x202A 0x202E c
  || in_char_range 0x2060 0x206F c || (c =? 0x3164) || in_char_range 0xFE00 0xFE0F c || (c =? 0xFEFF) || (c =? 0xFFA0)
  || in_char_range 0xFFF0 0xFFFB c || (c =? 0x110BD) || (c =? 0x110CD) || in_char_range 0x13430 0x1343F c
  || in_char_range 0x1BCA0 0x1BCA3 c || in_char_range 0x1D173 0x1D17A c || in_char_range 0xE0000 0xE0FFF c.

(** The first loop of [sanitise]; [at_space] says that nothing, or a space, was
    pushed last. *)
Fixpoint clean (at_space : bool) (t : list Z) : list Z :=
  match t with
  | [] => []
  | c :: rest =>
      if is_invisible_format c then clean at_space rest
      else
        let c := if is_control c || is_whitespace c then 32 else c in
        if (c =? 32) && at_space then clean at_space rest
        else c :: clean (c =? 32) rest
  end.

Definition ELLIPSIS : Z := 0x2026.

Definition sanitise (t : list Z) (max_chars : nat) (keep : Keep) : option (list Z) :=
  let cleaned := trim_end (clean true t) in
  let count := length cleaned in
  if (count =? 0)%nat then None
  else if (count <=? max_chars)%nat then Some cleaned
  else
    let kept := (max_chars - 1)%nat in
    Some (match keep with
          | KeepStart => take kept cleaned ++ [ELLIPSIS]
          | KeepEnd => ELLIPSIS :: drop (count - kept) cleaned
          end).

Definition escape_char (c : Z) : list Z :=
  if c =? 38 then ascii_bytes "&amp;"
  else if c =? 60 then ascii_bytes "&lt;"
  else if c =? 62 then ascii_bytes "&gt;"
  else if c =? 34 then ascii_bytes "&quot;"
  else if c =? 39 then ascii_bytes "&apos;"
  else [c].

Definition escape_markup (t : list Z) : list Z := flat_map escape_char t.

Definition summary (request : PresenceRequest) : list Z :=
  ascii_bytes match pr_operation request with
              | Register => if pr_discoverable request then "Create a passkey" else "Register a security key"
              | Authenticate => "Sign in with a passkey"
              | U2fRegister => "Register a U2F security key"
              | U2fAuthenticate => "Sign in with a U2F security key"
              | Reset => "Reset the security key"
              | CredentialManagement => "Manage passkeys"
              | Select => "Select a security key"
              end.

Definition shown_field (field : option bytes) (max_chars : nat) (keep : Keep) : option (list Z) :=
  match field with Some b => sanitise (utf8_decode b) max_chars keep | None => None end.

(** How the user is named. *)
Definition shown_user (request : PresenceRequest) : option (list Z) :=
  let name := shown_field (pr_user_name request) MAX_USER_CHARS KeepStart in
  let display_name := shown_field (pr_user_display_name request) MAX_USER_CHARS KeepStart in
  match name, display_name with
  | Some name, Some display =>
      if bytes_eqb display name then Some name
      else Some (name ++ ascii_bytes " (" ++ display ++ ascii_bytes ")")
  | Some name, None => Some name
  | None, display => display
  end.

(** The name the relying party claims, left out where it repeats the ID. *)
Definition shown_rp_name (request : PresenceRequest) (rp : option (list Z)) : option (list Z) :=
  match shown_field (pr_rp_name request) MAX_USER_CHARS KeepStart with
  | Some name => if bool_decide (rp = Some name) then None else Some name
  | None => None
  end.

Definition LEFT_QUOTE : Z := 0x201C.

Definition RIGHT_QUOTE : Z := 0x201D.

Definition prompt_text (request : PresenceRequest) : list Z :=
  let rp := shown_field (pr_rp_id request) MAX_RP_ID_CHARS KeepEnd in
  let rp_name := match shown_rp_name request rp with
                 | Some name => ascii_bytes " (" ++ [LEFT_QUOTE] ++ name ++ [RIGHT_QUOTE] ++ ascii_bytes ")"
                 | None => []
                 end in
  let as_user := match shown_user request with Some user => ascii_bytes " as " ++ user | None => [] end in
  match pr_operation request, rp with
  | U2fRegister, _ =>
      ascii_bytes "Register this security key for a U2F request? The site cannot be identified."
  | U2fAuthenticate, _ =>
      ascii_bytes "Sign in with this security key for a U2F request? The site cannot be identified."
  | Register, Some rp =>
      ascii_bytes (if pr_discoverable request then "Create a passkey for " else "Register this security key with ")
      ++ rp ++ rp_name ++ as_user ++ ascii_bytes "?"
  | Authenticate, Some rp => ascii_bytes "Sign in to " ++ rp ++ as_user ++ ascii_bytes "?"
  | Select, _ => ascii_bytes "Select this security key?"
  | Register, None | Authenticate, None => ascii_bytes "Use this security key?"
  | Reset, _ =>
      ascii_bytes ("Reset the security key? Every passkey and every other sign-in made with it stops working, "
                   ++ "and its PIN is removed.")
  | CredentialManagement, _ => ascii_bytes "Allow access to the passkeys stored on the security key?"
  end.

Definition notification_for (request : PresenceRequest) (markup : bool) : Notification :=
  let text := prompt_text request in
  {| nt_summary := summary request; nt_body := if markup then escape_markup text else text;
     nt_timeout := pr_timeout request |}.

(** ** Asking *)

(** [np_file] is the prompt record: nothing, or a file with these characters
    ([None] when they are not UTF-8). *)
Record NotificationPresence (S : Type) : Type := {
  np_server : S;
  np_recorded : bool;
  np_file : option (option (list Z));
  np_faults : list (option (list Z));
  np_clock : nat -> Z;
  np_clock_reads : nat;
  np_cancelled : nat -> bool;
  np_checks : nat
}.

Arguments np_server {S} n.
Arguments np_recorded {S} n.
Arguments np_file {S} n.
Arguments np_faults {S} n.
Arguments np_clock {S} n.
Arguments np_clock_reads {S} n.
Arguments np_cancelled {S} n.
Arguments np_checks {S} n.

Section Asking.

Context {S : Type} `{NotificationServer S}.

Definition np_with_server (p : NotificationPresence S) (server : S) : NotificationPresence S := {|
  np_server := server; np_recorded := np_recorded p; np_file := np_file p; np_faults := np_faults p;
  np_clock := np_clock p; np_clock_reads := np_clock_reads p; np_cancelled := np_cancelled p; np_checks := np_checks p
|}.

Definition np_with_file (p : NotificationPresence S) (file : option (option (list Z))) (faults : list (option (list Z)))
    : NotificationPresence S := {|
  np_server := np_server p; np_recorded := np_recorded p; np_file := file; np_faults := faults;
  np_clock := np_clock p; np_clock_reads := np_clock_reads p; np_cancelled := np_cancelled p; np_checks := np_checks p
|}.

(** [Instant::now] and [is_cancelled]. *)
Definition np_now (p : NotificationPresence S) : NotificationPresence S * Z :=
  ({| np_server := np_server p; np_recorded := np_recorded p; np_file := np_file p; np_faults := np_faults p;
      np_clock := np_clock p; np_clock_reads := 1 + np_clock_reads p; np_cancelled := np_cancelled p;
      np_checks := np_checks p |}, np_clock p (np_clock_reads p)).

Definition np_is_cancelled (p : NotificationPresence S) : NotificationPresence S * bool :=
  ({| np_server := np_server p; np_recorded := np_recorded p; np_file := np_file p; np_faults := np_faults p;
      np_clock := np_clock p; np_clock_reads := np_clock_reads p; np_cancelled := np_cancelled p;
      np_checks := 1 + np_checks p |}, np_cancelled p (np_checks p)).

(** Whether the next operation on the record works, and what it leaves if not. *)
Definition np_fault (p : NotificationPresence S) : option (list Z) * list (option (list Z)) :=
  match np_faults p with [] => (None, []) | f :: faults => (f, faults) end.

Definition forget_prompt (p : NotificationPresence S) : NotificationPresence S :=
  if negb (np_recorded p) then p
  else match np_fault p with
       | (None, faults) => np_with_file p None faults
       | (Some _, faults) => np_with_file p (np_file p) faults
       end.

Definition record_prompt (info : ServerInfo) (id : Z) (p : NotificationPresence S) : NotificationPresence S :=
  match np_recorded p, server_identity info with
  | true, Some (scope, instance) =>
      match np_fault p with
      | (None, faults) => np_with_file p (Some (Some (scope ++ [10] ++ instance ++ [10] ++ digits_of id ++ [10]))) faults
      | (Some remains, faults) => np_with_file p (Some (Some remains)) faults
      end
  | _, _ => p
  end.

(** The prompt a record names, if it was shown by the server [info] describes. *)
Definition stale_prompt (info : ServerInfo) (recorded : list Z) : option Z :=
  match text_lines recorded, server_identity info with
  | scope :: instance :: id :: _, Some (known_scope, known_instance) =>
      match parse_u32 id with
      | Some id => if bytes_eqb scope known_scope && bytes_eqb instance known_instance then Some id else None
      | None => None
      end
  | _, _ => None
  end.

Definition close_stale_prompt (info : ServerInfo) (p : NotificationPresence S) : NotificationPresence S :=
  if negb (np_recorded p) then p
  else match np_fault p with
       | (Some _, faults) => np_with_file p (np_file p) faults
       | (None, faults) =>
           let p := np_with_file p (np_file p) faults in
           match np_file p with
           | Some (Some recorded) =>
               let p := match stale_prompt info recorded with
                        | Some id => np_with_server p (fst (server_close id (np_server p)))
                        | None => p
                        end in
               forget_prompt p
           | _ => p
           end
       end.

(** [path.exists()] does not fail. *)
Definition withdraw_stale_prompt (p : NotificationPresence S) : NotificationPresence S :=
  if negb (np_recorded p && is_some (np_file p)) then p
  else
    let (server, r) := server_connect (np_server p) in
    let p := np_with_server p server in
    let p := match r with Ok info => close_stale_prompt info p | Err _ => p end in
    np_with_server p (server_disconnect (np_server p)).

(** What the loop ends with: an outcome, and whether the prompt is gone. *)
Definition answer_of (id : Z) (event : option NotificationEvent) : option (PresenceOutcome * bool) :=
  match event with
  | Some (ActionInvoked event_id key) =>
      if event_id =? id then Some (if bytes_eqb key APPROVE_ACTION then Approved else Denied, false) else None
  | Some (NotificationClosed event_id expired) =>
      if event_id =? id then Some (if expired then TimedOut else Denied, true) else None
  | None => None
  end.

(** [saturating_duration_since]. *)
Definition until (deadline now : Z) : Z := Z.max 0 (deadline - now).

(** The nudge of one turn: the new time, whether to nudge on, and when. *)
Definition nudge_if_due (interval next_nudge now : Z) (nudging : bool) (p : NotificationPresence S)
    : NotificationPresence S * (Z * bool * Z) :=
  if nudging && (next_nudge <=? now) then
    let (server, r) := server_nudge (np_server p) in
    let (p, now) := np_now (np_with_server p server) in
    (p, (now, is_ok r, now + interval))
  else (p, (now, nudging, next_nudge)).

Fixpoint ask_loop (fuel : nat) (id deadline interval next_nudge : Z) (nudging : bool) (p : NotificationPresence S)
    : NotificationPresence S * option (PresenceOutcome * bool) :=
  match fuel with
  | O => (p, None)
  | Datatypes.S fuel =>
      let (p, cancelled) := np_is_cancelled p in
      if cancelled then (p, Some (Cancelled, false))
      else
        let (p, now) := np_now p in
        if deadline <=? now then (p, Some (TimedOut, false))
        else
          let '(p, (now, nudging, next_nudge)) := nudge_if_due interval next_nudge now nudging p in
          let wait := Z.min CANCELLATION_POLL (until deadline now) in
          let wait := if nudging : bool then Z.min wait (until next_nudge now) else wait in
          let (server, r) := server_next_event wait (np_server p) in
          let p := np_with_server p server in
          match r with
          | Err _ => (p, Some (Denied, false))
          | Ok event =>
              match answer_of id event with
              | Some outcome => (p, Some outcome)
              | None => ask_loop fuel id deadline interval next_nudge nudging p
              end
          end
  end.

(** [ask], from the prompt on the screen. *)
Definition await_answer (fuel : nat) (info : ServerInfo) (id deadline : Z) (p : NotificationPresence S)
    : NotificationPresence S * option PresenceOutcome :=
  let p := record_prompt info id p in
  let interval := default 0 (refresh_interval info) in
  let (p, now) := np_now p in
  match ask_loop fuel id deadline interval (now + interval) (is_some (refresh_interval info)) p with
  | (p, None) => (p, None)
  | (p, Some (outcome, true)) => (p, Some outcome)
  | (p, Some (outcome, false)) => (np_with_server p (fst (server_close id (np_server p))), Some outcome)
  end.

Definition ask (fuel : nat) (request : PresenceRequest) (p : NotificationPresence S)
    : NotificationPresence S * option PresenceOutcome :=
  let (p, start) := np_now p in
  let deadline := start + pr_timeout request in
  let (server, r) := server_connect (np_server p) in
  let p := np_with_server p server in
  match r with
  | Err _ => (p, Some Denied)
  | Ok info =>
      let p := close_stale_prompt info p in
      if negb (supports_actions info) then (p, Some Denied)
      else if negb (supports_body info) then (p, Some Denied)
      else
        let (p, cancelled) := np_is_cancelled p in
        if cancelled then (p, Some Cancelled)
        else
          let (server, r) := server_notify (notification_for request (body_markup info)) (np_server p) in
          let p := np_with_server p server in
          match r with
          | Err _ => (p, Some Denied)
          | Ok id => await_answer fuel info id deadline p
          end
  end.

(** [UserPresence::confirm]. *)
Definition confirm (fuel : nat) (request : PresenceRequest) (p : NotificationPresence S)
    : NotificationPresence S * option PresenceOutcome :=
  let (p, outcome) := ask fuel request p in
  let p := forget_prompt p in
  (np_with_server p (server_disconnect (np_server p)), outcome).

End Asking.

(** ** [Unanswered] ([presence/mod.rs]) *)

Fixpoint unanswered_from (fuel reads checks : nat) (clock : nat -> Z) (cancelled : nat -> bool) (deadline : Z)
    : option PresenceOutcome :=
  match fuel with
  | O => None
  | S fuel =>
      if cancelled checks then Some Cancelled
      else if deadline <=? clock reads then Some TimedOut
      else unanswered_from fuel (S reads) (S checks) clock cancelled deadline
  end.

Definition unanswered (fuel : nat) (clock : nat -> Z) (cancelled : nat -> bool) (request : PresenceRequest)
    : option PresenceOutcome :=
  unanswered_from fuel 1 0 clock cancelled (clock 0%nat + pr_timeout request).

(** * What the notification prompt guarantees

    Approval is an answer to the very prompt shown, nothing the relying party
    chose can disturb how the prompt is displayed, and the wait ends. *)



(** ** The text *)

(** A character that is displayed as itself: no control or invisible
    formatting character, and no white space but the space. *)
Definition displayed (c : Z) : bool :=
  negb (is_invisible_format c) && negb (is_control c) && (negb (is_whitespace c) || (c =? 32)).

Abbreviation all_displayed := (Forall (fun c => displayed c = true)).

Lemma literal_displayed t : forallb displayed t = true -> all_displayed t.
Proof. intros Hs. apply List.Forall_forall. by apply forallb_forall. Qed.

Ltac displays := repeat first
  [ assumption | apply List.Forall_nil | apply Forall_app; split | apply List.Forall_cons; [reflexivity|]
  | by apply literal_displayed ].

Lemma clean_displayed b t : all_displayed (clean b t).
Proof.
  revert b. induction t as [|c t IH]; intros b; cbn [clean]; [constructor|].
  destruct (is_invisible_format c) eqn:Ei; [apply IH|].
  destruct (is_control c || is_whitespace c) eqn:Ec.
  - cbn [andb Z.eqb Pos.eqb]. destruct b; [apply IH|]. constructor; [done|apply IH].
  - apply orb_false_iff in Ec as [Ec Ew]. destruct ((c =? 32) && b); [apply IH|]. constructor; [|apply IH].
    unfold displayed. by rewrite Ei, Ec, Ew.
Qed.

Lemma trim_start_suffix t : exists front, t = front ++ trim_start t.
Proof.
  induction t as [|c t [front IH]]; [by exists []|]. cbn [trim_start]. destruct (is_whitespace c); [|by exists []].
  exists (c :: front). cbn. congruence.
Qed.

Lemma trim_end_prefix t : exists back, t = trim_end t ++ back.
Proof.
  destruct (trim_start_suffix (rev t)) as [front E]. exists (rev front). unfold trim_end.
  rewrite <- rev_app_distr, <- E. symmetry. apply rev_involutive.
Qed.

Lemma sanitise_displayed t n k u : sanitise t n k = Some u -> (0 < n)%nat ->
  all_displayed u /\ (length u <= n)%nat /\ u <> [].
Proof.
  unfold sanitise. intros Hs Hn. destruct (trim_end_prefix (clean true t)) as [back E].
  assert (Hd : all_displayed (trim_end (clean true t))).
  { pose proof (clean_displayed true t) as Hc. rewrite E in Hc. by apply Forall_app in Hc as [Hc _]. }
  set (cleaned := trim_end (clean true t)) in *.
  destruct (Nat.eqb_spec (length cleaned) 0) as [|Hl]; [done|]. destruct (Nat.leb_spec (length cleaned) n).
  - injection Hs as <-. split_and!; [done|done|]. by destruct cleaned.
  - injection Hs as <-. destruct k.
    + split_and!.
      * apply Forall_app. split; [by apply Forall_take|by repeat constructor].
      * rewrite length_app, length_take. cbn [length]. lia.
      * by destruct (take (n - 1) cleaned).
    + split_and!; [|cbn [length]; rewrite length_drop; lia|done].
      constructor; [done|by apply Forall_drop].
Qed.

Lemma field_displayed f n k u : shown_field f n k = Some u -> (0 < n)%nat -> all_displayed u /\ (length u <= n)%nat.
Proof. unfold shown_field. destruct f; [|done]. intros Hs Hn. by destruct (sanitise_displayed _ _ _ _ Hs Hn) as (? & ? & _). Qed.

Lemma user_displayed request u : shown_user request = Some u -> all_displayed u /\ (length u <= 131)%nat.
Proof.
  unfold shown_user.
  destruct (shown_field (pr_user_name request) MAX_USER_CHARS KeepStart) as [name|] eqn:En;
    destruct (shown_field (pr_user_display_name request) MAX_USER_CHARS KeepStart) as [display|] eqn:Ed;
    try apply field_displayed in En as [Dn Ln]; try apply field_displayed in Ed as [Dd Ld];
    unfold MAX_USER_CHARS in *; try lia.
  - destruct (bytes_eqb display name); intros [= <-]; [split; [done|lia]|]. split.
    + displays.
    + repeat (rewrite length_app || cbn [length]). lia.
  - intros [= <-]. split; [done|lia].
  - intros [= <-]. split; [done|lia].
  - done.
Qed.

Lemma rp_name_displayed request rp u : shown_rp_name request rp = Some u -> all_displayed u /\ (length u <= 64)%nat.
Proof.
  unfold shown_rp_name. destruct (shown_field (pr_rp_name request) MAX_USER_CHARS KeepStart) as [name|] eqn:En; [|done].
  destruct (bool_decide _); [done|]. intros [= <-]. apply field_displayed in En; [done|]. unfold MAX_USER_CHARS. lia.
Qed.

(** An optional part of the question. *)
Lemma optional_displayed {A} (o : option A) (f : A -> list Z) n :
  (forall x, o = Some x -> all_displayed (f x) /\ (length (f x) <= n)%nat) ->
  let t := match o with Some x => f x | None => [] end in all_displayed t /\ (length t <= n)%nat.
Proof. intros Hf. destruct o as [x|]; [by apply Hf|]. split; [constructor|cbn; lia]. Qed.

Lemma prompt_displayed request : all_displayed (prompt_text request) /\ (length (prompt_text request) <= 338)%nat.
Proof.
  assert (Hlit : forall t, forallb displayed t && (length t <=? 338)%nat = true ->
    all_displayed t /\ (length t <= 338)%nat).
  { intros t [Hd Hl]%andb_true_iff. split; [by apply literal_displayed|by apply Nat.leb_le]. }
  unfold prompt_text. cbv zeta.
  assert (Hu : let t := match shown_user request with Some user => ascii_bytes " as " ++ user | None => [] end in
    all_displayed t /\ (length t <= 135)%nat).
  { apply optional_displayed. intros u Hs. apply user_displayed in Hs as [Hd Hl].
    split; [displays|].
    rewrite length_app. change (length (ascii_bytes " as ")) with 4%nat. lia. }
  cbv zeta in Hu. destruct Hu as [Du Lu].
  destruct (pr_operation request); try (by apply Hlit);
    destruct (shown_field (pr_rp_id request) MAX_RP_ID_CHARS KeepEnd) as [rp|] eqn:Er; try (by apply Hlit);
    (apply field_displayed in Er as [Dr Lr]; [|unfold MAX_RP_ID_CHARS; lia]); unfold MAX_RP_ID_CHARS in Lr.
  - destruct (optional_displayed (shown_rp_name request (Some rp))
      (fun name => ascii_bytes " (" ++ [LEFT_QUOTE] ++ name ++ [RIGHT_QUOTE] ++ ascii_bytes ")") 69) as [Dn Ln].
    { intros u Hs. apply rp_name_displayed in Hs as [Hd Hl]. split.
      - displays.
      - rewrite !length_app. change (length (ascii_bytes " (")) with 2%nat. change (length (ascii_bytes ")")) with 1%nat.
        cbn [length]. lia. }
    split.
    + destruct (pr_discoverable request); displays.
    + rewrite !length_app. change (length (ascii_bytes "?")) with 1%nat.
      assert (length (ascii_bytes (if pr_discoverable request then "Create a passkey for " else "Register this security key with ")) <= 33)%nat
        by (destruct (pr_discoverable request); apply Nat.leb_le; reflexivity). lia.
  - split.
    + displays.
    + rewrite !length_app. change (length (ascii_bytes "?")) with 1%nat.
      change (length (ascii_bytes "Sign in to ")) with 11%nat. lia.
Qed.

(** What a server that interprets markup shows. *)
Fixpoint unescape (t : list Z) : list Z :=
  match t with
  | 38 :: 97 :: 109 :: 112 :: 59 :: rest => 38 :: unescape rest
  | 38 :: 108 :: 116 :: 59 :: rest => 60 :: unescape rest
  | 38 :: 103 :: 116 :: 59 :: rest => 62 :: unescape rest
  | 38 :: 113 :: 117 :: 111 :: 116 :: 59 :: rest => 34 :: unescape rest
  | 38 :: 97 :: 112 :: 111 :: 115 :: 59 :: rest => 39 :: unescape rest
  | c :: rest => c :: unescape rest
  | [] => []
  end.

Definition is_markup (c : Z) : bool := (c =? 60) || (c =? 62) || (c =? 34) || (c =? 39).

Lemma unescape_char c rest : unescape (escape_char c ++ rest) = c :: unescape rest.
Proof.
  unfold escape_char. destruct (Z.eqb_spec c 38) as [->|H1]; [done|]. destruct (Z.eqb_spec c 60) as [->|H2]; [done|].
  destruct (Z.eqb_spec c 62) as [->|H3]; [done|]. destruct (Z.eqb_spec c 34) as [->|H4]; [done|].
  destruct (Z.eqb_spec c 39) as [->|H5]; [done|]. cbn [app]. destruct c as [|q|q]; try done.
  do 6 (destruct q as [q|q|]; try done).
Qed.

Lemma escape_roundtrip t : unescape (escape_markup t) = t.
Proof.
  induction t as [|c t IH]; [done|]. unfold escape_markup in *. cbn [flat_map]. by rewrite unescape_char, IH.
Qed.

Lemma escape_plain t : forallb (fun c => negb (is_markup c)) (escape_markup t) = true.
Proof.
  induction t as [|c t IH]; [done|]. unfold escape_markup in *. cbn [flat_map]. rewrite forallb_app, IH, andb_true_r.
  unfold escape_char. destruct (Z.eqb_spec c 38); [done|]. destruct (Z.eqb_spec c 60) as [->|]; [done|].
  destruct (Z.eqb_spec c 62) as [->|]; [done|]. destruct (Z.eqb_spec c 34) as [->|]; [done|].
  destruct (Z.eqb_spec c 39) as [->|]; [done|]. cbn. rewrite andb_true_r. apply negb_true_iff. unfold is_markup. lia.
Qed.

Lemma escape_displayed t : all_displayed t -> all_displayed (escape_markup t).
Proof.
  induction 1 as [|c t Hc _ IH]; [constructor|]. unfold escape_markup in *. cbn [flat_map]. apply Forall_app. split; [|done].
  unfold escape_char. repeat case_match; try by apply literal_displayed. by constructor.
Qed.

(** ** The answer *)

Section Answers.

Context {S : Type} `{NotificationServer S}.

(** The server's calls from showing prompt [id] to its first event about it. *)
Inductive waits (id : Z) : S -> S -> Prop :=
| waits_end v : waits id v v
| waits_nudge v v' : waits id (fst (server_nudge v)) v' -> waits id v v'
| waits_event t v v1 event v' : server_next_event t v = (v1, Ok event) -> answer_of id event = None ->
    waits id v1 v' -> waits id v v'.

(** Same streams, read further: no cancellation was seen on the way. *)
Definition not_cancelled (p p' : NotificationPresence S) : Prop :=
  np_clock p' = np_clock p /\ np_cancelled p' = np_cancelled p /\ (np_clock_reads p <= np_clock_reads p')%nat /\
  (np_checks p <= np_checks p')%nat /\
  forall k, (np_checks p <= k < np_checks p')%nat -> np_cancelled p k = false.

Lemma not_cancelled_refl p : not_cancelled p p.
Proof. split_and!; try done. lia. Qed.

Lemma not_cancelled_same (p p' : NotificationPresence S) : np_clock p' = np_clock p -> np_cancelled p' = np_cancelled p ->
  np_clock_reads p' = np_clock_reads p -> np_checks p' = np_checks p -> not_cancelled p p'.
Proof. intros E1 E2 E3 E4. split_and!; try done; try lia. Qed.

Lemma not_cancelled_trans a b c : not_cancelled a b -> not_cancelled b c -> not_cancelled a c.
Proof.
  intros (A1 & A2 & A3 & A4 & A5) (B1 & B2 & B3 & B4 & B5). split_and!; try congruence; try lia.
  intros k Hk. destruct (decide (k < np_checks b)%nat); [apply A5; lia|]. rewrite <- A2. apply B5. lia.
Qed.

Lemma nudge_waits interval next now nudging (p : NotificationPresence S) p' x : 
  nudge_if_due interval next now nudging p = (p', x) -> not_cancelled p p' /\
  forall id v, waits id (np_server p') v -> waits id (np_server p) v.
Proof.
  unfold nudge_if_due. destruct (nudging && _); [|by intros [= <- _]; split; [apply not_cancelled_refl|]].
  destruct (server_nudge (np_server p)) as [server r] eqn:En. intros [= <- _]. split.
  - split_and!; try done; cbn; lia.
  - intros id v Hw. apply waits_nudge. by rewrite En.
Qed.

Lemma answer_approved id event gone : answer_of id event = Some (Approved, gone) ->
  event = Some (ActionInvoked id APPROVE_ACTION) /\ gone = false.
Proof.
  destruct event as [[i key|i expired]|]; [| |done]; cbn [answer_of]; (destruct (Z.eqb_spec i id) as [->|]; [|done]).
  - destruct (bytes_eqb key APPROVE_ACTION) eqn:Ek; [|done]. apply bytes_eqb_spec in Ek as ->. by intros [= <-].
  - by destruct expired.
Qed.

Lemma loop_approved fuel id deadline interval next nudging (p p' : NotificationPresence S) gone :
  ask_loop fuel id deadline interval next nudging p = (p', Some (Approved, gone)) ->
  gone = false /\ not_cancelled p p' /\
  (exists k, (np_clock_reads p <= k)%nat /\ np_clock p k < deadline) /\
  exists v wait, waits id (np_server p) v /\ wait <= CANCELLATION_POLL /\
    server_next_event wait v = (np_server p', Ok (Some (ActionInvoked id APPROVE_ACTION))).
Proof.
  revert next nudging p. induction fuel as [|fuel IH]; intros next nudging p; cbn [ask_loop]; [done|].
  cbn [np_is_cancelled]. destruct (np_cancelled p (np_checks p)) eqn:Ec; [done|]. cbn [np_now np_clock np_clock_reads].
  destruct (Z.leb_spec deadline (np_clock p (np_clock_reads p))) as [|Hd]; [done|].
  set (q := {| np_server := _ |}). assert (Hq : not_cancelled p q).
  { split_and!; cbn; try done; try lia. intros k Hk. by replace k with (np_checks p) by lia. }
  destruct (nudge_if_due _ _ _ _ _) as [p1 [[now nudging1] next1]] eqn:En. apply nudge_waits in En as [Hn Hw].
  set (wait := if nudging1 then _ else _).
  assert (Hwait : wait <= CANCELLATION_POLL) by (unfold wait; destruct nudging1; lia).
  destruct (server_next_event wait (np_server p1)) as [server [event|e]] eqn:Ee; [|done].
  assert (Hp1 : not_cancelled p (np_with_server p1 server)) by (by eapply not_cancelled_trans).
  assert (Hk : exists k, (np_clock_reads p <= k)%nat /\ np_clock p k < deadline) by (by exists (np_clock_reads p)).
  destruct (answer_of id event) as [[outcome g]|] eqn:Ea.
  - intros [= <- -> ->]. apply answer_approved in Ea as [-> ->]. split; [done|]. split; [done|]. split; [done|].
    exists (np_server p1), wait. split; [|done]. apply (Hw id (np_server p1)), waits_end.
  - intros Hl. apply IH in Hl as (-> & Hnc & _ & v & w & Hv & Hww & He). split; [done|].
    split; [by eapply not_cancelled_trans|]. split; [done|]. exists v, w. split; [|done].
    apply (Hw id v). by eapply waits_event.
Qed.

(** [record_prompt] and the clock reading before the loop. *)
Lemma record_frame info id (p : NotificationPresence S) :
  np_server (record_prompt info id p) = np_server p /\ not_cancelled p (record_prompt info id p).
Proof.
  unfold record_prompt. destruct (np_recorded p), (server_identity info) as [[scope instance]|];
    try (split; [done|by apply not_cancelled_same]).
  destruct (np_fault p) as [[remains|] faults]; (split; [done|by apply not_cancelled_same]).
Qed.

Lemma forget_frame (p : NotificationPresence S) :
  np_server (forget_prompt p) = np_server p /\ not_cancelled p (forget_prompt p).
Proof.
  unfold forget_prompt. destruct (negb _); [split; [done|by apply not_cancelled_same]|].
  destruct (np_fault p) as [[remains|] faults]; (split; [done|by apply not_cancelled_same]).
Qed.

Lemma stale_frame info (p : NotificationPresence S) : not_cancelled p (close_stale_prompt info p) /\
  (np_server (close_stale_prompt info p) = np_server p \/
   exists stale, np_server (close_stale_prompt info p) = fst (server_close stale (np_server p))).
Proof.
  unfold close_stale_prompt. destruct (negb _); [split; [by apply not_cancelled_same|by left]|].
  destruct (np_fault p) as [[remains|] faults]; [split; [by apply not_cancelled_same|by left]|]. cbn [np_file np_with_file].
  destruct (np_file p) as [[recorded|]|]; try (split; [by apply not_cancelled_same|by left]).
  destruct (stale_prompt info recorded) as [id|].
  - set (q := np_with_server _ _). destruct (forget_frame q) as [-> Hn]. split; [|right; by exists id].
    eapply not_cancelled_trans; [|exact Hn]. by apply not_cancelled_same.
  - set (q := np_with_file _ _ _). destruct (forget_frame q) as [-> Hn]. split; [|by left].
    eapply not_cancelled_trans; [|exact Hn]. by apply not_cancelled_same.
Qed.


End Answers.

(** ** Endings *)

Section Endings.

Context {S : Type} `{NotificationServer S}.

Lemma loop_ends fuel id deadline interval next nudging (p : NotificationPresence S) N :
  (forall k, (N <= k)%nat -> deadline <= np_clock p k) -> (N - np_clock_reads p < fuel)%nat ->
  snd (ask_loop fuel id deadline interval next nudging p) <> None.
Proof.
  revert next nudging p. induction fuel as [|fuel IH]; intros next nudging p Hc Hf; [lia|]. cbn [ask_loop np_is_cancelled].
  destruct (np_cancelled p (np_checks p)); [done|]. cbn [np_now np_clock np_clock_reads].
  destruct (Z.leb_spec deadline (np_clock p (np_clock_reads p))) as [|Hd]; [done|].
  destruct (decide (N <= np_clock_reads p)%nat) as [Hn|Hn]; [specialize (Hc _ Hn); lia|].
  set (q := {| np_server := _ |}). destruct (nudge_if_due _ _ _ _ q) as [p1 [[now nudging1] next1]] eqn:En.
  apply nudge_waits in En as [(Hcl & _ & Hre & _) _]. cbn [q np_clock np_clock_reads] in Hcl, Hre.
  destruct (server_next_event _ _) as [server [event|e]]; [|done]. destruct (answer_of id event) as [[o g]|]; [done|].
  apply IH; [intros k Hk; change (deadline <= np_clock p1 k); rewrite Hcl; by apply Hc|].
  change (N - np_clock_reads p1 < fuel)%nat. lia.
Qed.

(** A prompt is answered, withdrawn or denied at the latest when the clock is
    read past the deadline. *)
Theorem prompt_ends (fuel N : nat) (request : PresenceRequest) (p : NotificationPresence S) :
  (forall k, (N <= k)%nat -> np_clock p (np_clock_reads p) + pr_timeout request <= np_clock p k) -> (N < fuel)%nat ->
  snd (confirm fuel request p) <> None.
Proof.
  intros Hc Hf. unfold confirm. destruct (ask fuel request p) as [pa oa] eqn:Ea. cbn [snd].
  unfold ask in Ea. cbn [np_now np_server] in Ea.
  destruct (server_connect (np_server p)) as [v0 [info|e]]; [|by injection Ea as _ <-].
  set (p0 := np_with_server _ v0) in Ea. destruct (stale_frame info p0) as [Hsn _]. set (p1 := close_stale_prompt info p0) in *.
  destruct (supports_actions info); [|by injection Ea as _ <-]. destruct (supports_body info); [|by injection Ea as _ <-].
  cbn [negb np_is_cancelled] in Ea. destruct (np_cancelled p1 (np_checks p1)); [by injection Ea as _ <-|]. cbn [np_server] in Ea.
  destruct (server_notify _ _) as [v2 [id|e]]; [|by injection Ea as _ <-]. set (p2 := np_with_server _ v2) in Ea.
  unfold await_answer in Ea. destruct (record_frame info id p2) as [_ Hrn]. set (p3 := record_prompt info id p2) in *.
  cbn [np_now] in Ea. set (p4 := {| np_server := np_server p3 |}) in Ea.
  assert (Hcl : np_clock p4 = np_clock p).
  { destruct Hsn as (E1 & _), Hrn as (E2 & _). exact (eq_trans E2 E1). }
  pose proof (loop_ends fuel id (np_clock p (np_clock_reads p) + pr_timeout request)
    (default 0 (refresh_interval info)) (np_clock p3 (np_clock_reads p3) + default 0 (refresh_interval info))
    (is_some (refresh_interval info)) p4 N) as He. rewrite Hcl in He.
  specialize (He Hc ltac:(lia)). destruct (ask_loop _ _ _ _ _ _ p4) as [p5 [[o [|]]|]]; [by injection Ea as _ <-..|done].
Qed.

End Endings.

(** C11: whatever text the request carries, the prompt displays it inertly: the
    question has no control, invisible or line-breaking character and at most
    338 characters; where the server interprets markup, the body has no markup
    character and reads back as exactly the question; and the title is one of
    eight fixed ones. *)
Theorem prompt_text_inert (request : PresenceRequest) (markup : bool) :
  let n := notification_for request markup in
  all_displayed (nt_body n) /\ (length (prompt_text request) <= 338)%nat /\
  (if markup then forallb (fun c => negb (is_markup c)) (nt_body n) = true /\ unescape (nt_body n) = prompt_text request
   else nt_body n = prompt_text request) /\
  nt_summary n ∈ map ascii_bytes ["Create a passkey"; "Register a security key"; "Sign in with a passkey";
    "Register a U2F security key"; "Sign in with a U2F security key"; "Reset the security key"; "Manage passkeys";
    "Select a security key"]%string.
Proof.
  destruct (prompt_displayed request) as [Hd Hl]. cbn [notification_for nt_body nt_summary]. split_and!.
  - destruct markup; [by apply escape_displayed|done].
  - done.
  - destruct markup; [|done]. split; [apply escape_plain|apply escape_roundtrip].
  - unfold summary. destruct (pr_operation request), (pr_discoverable request); cbn [map]; repeat constructor.
Qed.

(** ** A run *)

Module NotificationWitness.

(** A server that shows every prompt as number 7 and reports what it was told to. *)
#[local] Instance scripted : NotificationServer (list (option NotificationEvent)) := {|
  server_connect := fun v => (v, Ok {| supports_actions := true; supports_body := true; body_markup := true;
                                       server_name := None; server_identity := Some ([58; 49], [97]);
                                       refresh_interval := Some 30000000 |});
  server_notify := fun _ v => (v, Ok 7);
  server_next_event := fun _ v => match v with e :: v => (v, Ok e) | [] => ([], Ok None) end;
  server_close := fun _ v => (v, Ok tt);
  server_nudge := fun v => (v, Ok 8);
  server_disconnect := fun v => v
|}.

Definition waiting : NotificationPresence (list (option NotificationEvent)) := {|
  np_server := [None; Some (NotificationClosed 8 true); None; Some (ActionInvoked 7 APPROVE_ACTION)];
  np_recorded := true; np_file := None; np_faults := []; np_clock := fun n => Z.of_nat n * 10000000;
  np_clock_reads := 0; np_cancelled := fun _ => false; np_checks := 0
|}.

Definition asked : PresenceRequest := {|
  pr_operation := Register; pr_rp_id := Some (ascii_bytes "example.com"); pr_rp_name := None;
  pr_user_name := Some [60; 98; 62; 0xE2; 0x80; 0xAE; 120]; pr_user_display_name := None; pr_discoverable := true;
  pr_timeout := 30000000000
|}.

Definition approved : NotificationPresence (list (option NotificationEvent)) := fst (confirm 10 asked waiting).

Example asked_text : prompt_text asked = ascii_bytes "Create a passkey for example.com as <b>x?".
Proof. vm_compute. reflexivity. Qed.

Lemma approved_runs : confirm 10 asked waiting = (approved, Some Approved).
Proof. vm_compute. reflexivity. Qed.


End NotificationWitness.
