(* ===== verification/PinInput.v ===== *)
(** * Reading PINs ([crates/pqkey/src/pin_input.rs])

    The rules for a PIN before the key sees it, and reading one: a line of
    standard input, or a line of a terminal with its echo off, where signals
    are caught until the terminal is as it was.  NFC normalization is a
    parameter.  A PIN is a list of characters; wiping memory is left out. *)

From stdpp Require Import list.
From S2P Require Import Prelude Text Crypto ClientPin ClientPinTheorems HidClient ManagementClient.

Definition MIN_PIN_CODE_POINTS : Z := 4.

Definition PIN_INPUT_MAX_BYTES : Z := 63.

Definition MAX_INPUT_BYTES : nat := 1024.

Inductive IoKind : Type :=
| KInvalidInput | KInvalidData | KUnexpectedEof | KInterrupted | KPermissionDenied | KUnsupportedIo | KNotFound
| KNotConnected | KResourceBusy | KOther.

#[export] Instance IoKind_eq_dec : EqDecision IoKind.
Proof. solve_decision. Defined.

(** The errors of this file; [PinIo] is one of the system's. *)
Inductive PinInputError : Type :=
| PinTooShort (minimum : Z)
| PinTooLong
| PinEndsInNul
| PinsDiffer
| NoPinOnInput
| NoPinEntered
| PinInputTooLong
| PinNotUtf8
| PinInterrupted
| PinIo (code : Z).

Definition pin_error_kind (e : PinInputError) : IoKind :=
  match e with
  | PinTooShort _ | PinTooLong | PinEndsInNul | PinsDiffer | PinInputTooLong => KInvalidInput
  | NoPinOnInput | NoPinEntered => KUnexpectedEof
  | PinNotUtf8 => KInvalidData
  | PinInterrupted => KInterrupted
  | PinIo _ => KOther
  end.

Class Normalization : Type := { nfc : list Z -> list Z }.

Definition validate_new_pin (pin : list Z) (minimum : Z) : result unit PinInputError :=
  if zlen pin <? minimum then Err (PinTooShort minimum)
  else if PIN_INPUT_MAX_BYTES <? utf8_len pin then Err PinTooLong
  else if bool_decide (last pin = Some 0) then Err PinEndsInNul
  else Ok tt.

Definition validate_pin (pin : list Z) : result unit PinInputError := validate_new_pin pin MIN_PIN_CODE_POINTS.

(** [PinSource]. *)
Class PinSource (P : Type) : Type := {
  source_pin : M P (list Z) PinInputError;
  source_current_pin : M P (list Z) PinInputError;
  source_new_pin : Z -> M P (list Z) PinInputError
}.

Definition read_new_pin {P} (confirm : bool) (minimum : Z) (read : M P (list Z) PinInputError)
    : M P (list Z) PinInputError :=
  let* pin := read in
  lift (validate_new_pin pin minimum) ;;*
  if confirm then
    let* again := read in
    if bytes_eqb again pin then ret pin else fail PinsDiffer
  else ret pin.

(** The line ending goes: [\n] or [\r\n]. *)
Definition strip_line_ending (line : bytes) : bytes :=
  match rev line with
  | 10 :: 13 :: rest => rev rest
  | 10 :: rest => rev rest
  | _ => line
  end.

Definition finish_line `{Normalization} (line : bytes) : result (list Z) PinInputError :=
  let line := strip_line_ending line in
  if (MAX_INPUT_BYTES <? length line)%nat then Err PinInputTooLong
  else if is_some (utf8_chars line) then Ok (nfc (utf8_decode line))
  else Err PinNotUtf8.

(** [take(limit).read_until(b'\n')]: what was read, and what is left. *)
Fixpoint read_until_newline (limit : nat) (input : bytes) : bytes * bytes :=
  match limit, input with
  | S limit, b :: input =>
      if b =? 10 then ([b], input)
      else let (line, rest) := read_until_newline limit input in (b :: line, rest)
  | _, _ => ([], input)
  end.

Definition read_line `{Normalization} : M bytes (list Z) PinInputError := fun input =>
  let (line, rest) := read_until_newline (MAX_INPUT_BYTES + 1) input in
  (rest, match line with [] => Err NoPinOnInput | _ => finish_line line end).

(** Standard input that is not a terminal. *)
#[export] Instance piped_pins `{Normalization} : PinSource bytes := {|
  source_pin := read_line;
  source_current_pin := read_line;
  source_new_pin := fun minimum => read_new_pin false minimum read_line
|}.

(** ** A terminal *)

Inductive Signal : Type := SIGINT | SIGTERM | SIGHUP | SIGQUIT.

#[export] Instance Signal_eq_dec : EqDecision Signal.
Proof. solve_decision. Defined.

Definition CAUGHT_SIGNALS : list Signal := [SIGINT; SIGTERM; SIGHUP; SIGQUIT].

(** [record_signal], or whatever was there. *)
Inductive SigAction : Type :=
| RecordSignal
| OtherAction (n : Z).

Record Termios : Type := { tio_echo : bool; tio_echonl : bool; tio_rest : Z }.

(** What happens at one system call: a signal may arrive before it, it may fail
    with this error number, and a read returns this input. *)
Record TtyStep : Type := { ts_signal : option Signal; ts_error : option Z; ts_input : bytes }.

(** [tty_raised]: the signals that took their other action. *)
Record Tty : Type := {
  tty_settings : Termios;
  tty_actions : Signal -> SigAction;
  tty_caught : option Signal;
  tty_raised : list Signal;
  tty_steps : list TtyStep
}.

Definition EINTR : Z := 4.

Definition tty_set_settings (settings : Termios) (t : Tty) : Tty := {|
  tty_settings := settings; tty_actions := tty_actions t; tty_caught := tty_caught t; tty_raised := tty_raised t;
  tty_steps := tty_steps t
|}.

Definition tty_set_action (s : Signal) (action : SigAction) (t : Tty) : Tty := {|
  tty_settings := tty_settings t;
  tty_actions := fun s' => if decide (s' = s) then action else tty_actions t s';
  tty_caught := tty_caught t; tty_raised := tty_raised t; tty_steps := tty_steps t
|}.

Definition tty_set_caught (caught : option Signal) (t : Tty) : Tty := {|
  tty_settings := tty_settings t; tty_actions := tty_actions t; tty_caught := caught; tty_raised := tty_raised t;
  tty_steps := tty_steps t
|}.

Definition tty_set_steps (steps : list TtyStep) (t : Tty) : Tty := {|
  tty_settings := tty_settings t; tty_actions := tty_actions t; tty_caught := tty_caught t; tty_raised := tty_raised t;
  tty_steps := steps
|}.

Definition tty_signal (s : Signal) (t : Tty) : Tty :=
  match tty_actions t s with
  | RecordSignal => tty_set_caught (Some s) t
  | OtherAction _ => {|
      tty_settings := tty_settings t; tty_actions := tty_actions t; tty_caught := tty_caught t;
      tty_raised := tty_raised t ++ [s]; tty_steps := tty_steps t |}
  end.

Definition deliver (step : TtyStep) (t : Tty) : Tty :=
  match ts_signal step with Some s => tty_signal s t | None => t end.

(** A system call that changes the terminal with [f]. *)
Definition tty_call {A} (f : Tty -> Tty * A) : M Tty A PinInputError := fun t =>
  match tty_steps t with
  | [] => let (t, x) := f t in (t, Ok x)
  | step :: steps =>
      let t := deliver step (tty_set_steps steps t) in
      match ts_error step with
      | Some e => (t, Err (PinIo e))
      | None => let (t, x) := f t in (t, Ok x)
      end
  end.

Definition ignored {A} (m : M Tty A PinInputError) (t : Tty) : Tty := fst (m t).

(** *** [SignalCatcher] *)

(** The actions that were there go back; putting back an action the system
    returned does not fail. *)
Definition reinstate (previous : list (Signal * SigAction)) (t : Tty) : Tty :=
  fold_left (fun t p => tty_set_action (fst p) (snd p) t) previous t.

Fixpoint install_from (signals : list Signal) (previous : list (Signal * SigAction))
    : M Tty (list (Signal * SigAction)) PinInputError := fun t =>
  match signals with
  | [] => (t, Ok previous)
  | s :: signals =>
      match tty_call (fun t => (tty_set_action s RecordSignal t, tty_actions t s)) t with
      | (t, Ok action) => install_from signals (previous ++ [(s, action)]) t
      | (t, Err e) => (reinstate previous t, Err e)
      end
  end.

Definition install_catcher : M Tty (list (Signal * SigAction)) PinInputError := fun t =>
  install_from CAUGHT_SIGNALS [] (tty_set_caught None t).

(** [SignalCatcher::restore]: the signal caught, if any. *)
Definition restore (previous : list (Signal * SigAction)) (t : Tty) : Tty * option Signal :=
  let t := reinstate previous t in (tty_set_caught None t, tty_caught t).

(** *** Reading *)

Definition line_ends (line : bytes) : bool :=
  bool_decide (last line = Some 10) || (MAX_INPUT_BYTES <? length line)%nat.

Section Reading.

Context `{Normalization}.

(** [read_tty_line] over the calls to come; without one a read finds the end. *)
Fixpoint read_tty_from (steps : list TtyStep) (line : bytes) : M Tty (list Z) PinInputError := fun t =>
  let ended := if bool_decide (line = []) then Err NoPinEntered else finish_line line in
  match tty_caught t with
  | Some _ => (tty_set_steps steps t, Err PinInterrupted)
  | None =>
      match steps with
      | [] => (tty_set_steps [] t, ended)
      | step :: steps =>
          let t := deliver step t in
          match ts_error step with
          | Some e =>
              if e =? EINTR then read_tty_from steps line t else (tty_set_steps steps t, Err (PinIo e))
          | None =>
              match take 128 (ts_input step) with
              | [] => (tty_set_steps steps t, ended)
              | chunk =>
                  let line := line ++ chunk in
                  if line_ends line then (tty_set_steps steps t, finish_line line) else read_tty_from steps line t
              end
          end
      end
  end.

Definition read_tty_line : M Tty (list Z) PinInputError := fun t => read_tty_from (tty_steps t) [] t.

Definition quiet_settings (saved : Termios) : Termios :=
  {| tio_echo := false; tio_echonl := true; tio_rest := tio_rest saved |}.

(** [EchoDisabled::new], then [inner], then its drop. *)
Definition with_echo_disabled {A} (inner : M Tty A PinInputError) : M Tty A PinInputError :=
  let* saved := tty_call (fun t => (t, tty_settings t)) in
  tty_call (fun t => (tty_set_settings (quiet_settings saved) t, tt)) ;;*
  fun t =>
    let (t, r) := inner t in
    (ignored (tty_call (fun t => (tty_set_settings saved t, tt))) t, r).

(** A write to the prompt's output, which shows nothing the model keeps. *)
Definition tty_write : M Tty unit PinInputError := tty_call (fun t => (t, tt)).

Definition read_hidden_line : M Tty (list Z) PinInputError :=
  let* previous := install_catcher in
  fun t =>
    let (t, r) := with_echo_disabled (tty_write ;;* tty_write ;;* read_tty_line) t in
    match restore previous t with
    | (t, Some s) =>
        let t := ignored tty_write (ignored tty_write t) in
        (tty_call (fun t => (tty_signal s t, tt)) ;;* fail PinInterrupted) t
    | (t, None) => (t, r)
    end.

#[export] Instance typed_pins : PinSource Tty := {|
  source_pin := read_hidden_line;
  source_current_pin := read_hidden_line;
  source_new_pin := fun minimum => read_new_pin true minimum read_hidden_line
|}.

End Reading.

(** * What reading a PIN guarantees

    A PIN the client's rules let through is one the engine decodes to the same
    characters, and reading one from a terminal leaves the terminal and its
    signal actions as they were. *)



(** ** From the client's rules to the engine's *)

(** What a Rust [char] is. *)
Definition is_char (c : Z) : Prop := 0 <= c < 0xD800 \/ 0xE000 <= c < 0x110000.

Lemma cont_true lo hi b : lo <= b <= hi -> cont lo hi b = true.
Proof. unfold cont. lia. Qed.

Lemma cont_false lo hi b : ~ (lo <= b <= hi) -> cont lo hi b = false.
Proof. unfold cont. lia. Qed.

Lemma utf8_char_counted c rest : is_char c -> utf8_chars (utf8_char c ++ rest) = option_map Z.succ (utf8_chars rest).
Proof.
  intros Hc. unfold is_char in Hc. unfold utf8_char.
  assert (Hm : forall x, 0 <= x mod 64 < 64) by (intros x; apply Z.mod_pos_bound; lia).
  destruct (Z.ltb_spec c 0x80) as [H1|H1].
  { cbn [app utf8_chars]. by rewrite (cont_true 0 0x7F) by lia. }
  destruct (Z.ltb_spec c 0x800) as [H2|H2].
  { pose proof (Z.div_le_lower_bound c 64 2 ltac:(lia) ltac:(lia)). pose proof (Z.div_lt_upper_bound c 64 32 ltac:(lia) ltac:(lia)).
    pose proof (Hm c). cbn [app utf8_chars]. rewrite (cont_false 0 0x7F) by lia. rewrite (cont_true 0xC2 0xDF) by lia.
    by rewrite (cont_true 0x80 0xBF) by lia. }
  destruct (Z.ltb_spec c 0x10000) as [H3|H3].
  { pose proof (Z.div_pos c 4096 ltac:(lia) ltac:(lia)). pose proof (Z.div_lt_upper_bound c 4096 16 ltac:(lia) ltac:(lia)).
    pose proof (Hm c). pose proof (Hm (c / 64)). pose proof (Z.div_mod c 64 ltac:(lia)).
    pose proof (Z.div_mod (c / 64) 64 ltac:(lia)) as Hd. rewrite Z.div_div in Hd by lia. change (64 * 64) with 4096 in Hd.
    cbn [app utf8_chars]. rewrite (cont_false 0 0x7F) by lia. rewrite (cont_false 0xC2 0xDF) by lia.
    rewrite (cont_true 0xE0 0xEF) by lia. rewrite (cont_true 0x80 0xBF (0x80 + c mod 64)) by lia. rewrite andb_true_r.
    rewrite cont_true; [done|]. destruct (Z.eqb_spec (0xE0 + c / 4096) 0xE0), (Z.eqb_spec (0xE0 + c / 4096) 0xED); lia. }
  pose proof (Z.div_le_lower_bound c 65536 1 ltac:(lia) ltac:(lia)).
  pose proof (Z.div_pos c 262144 ltac:(lia) ltac:(lia)). pose proof (Z.div_lt_upper_bound c 262144 5 ltac:(lia) ltac:(lia)).
  pose proof (Hm c). pose proof (Hm (c / 64)). pose proof (Hm (c / 4096)). pose proof (Z.div_mod c 64 ltac:(lia)).
  pose proof (Z.div_mod (c / 64) 64 ltac:(lia)) as Hd. rewrite Z.div_div in Hd by lia. change (64 * 64) with 4096 in Hd.
  pose proof (Z.div_mod (c / 4096) 64 ltac:(lia)) as Hd'. rewrite Z.div_div in Hd' by lia. change (4096 * 64) with 262144 in Hd'.
  cbn [app utf8_chars]. rewrite (cont_false 0 0x7F) by lia. rewrite (cont_false 0xC2 0xDF) by lia.
  rewrite (cont_false 0xE0 0xEF) by lia. rewrite (cont_true 0xF0 0xF4) by lia.
  rewrite (cont_true 0x80 0xBF (0x80 + c / 64 mod 64)) by lia. rewrite (cont_true 0x80 0xBF (0x80 + c mod 64)) by lia.
  rewrite !andb_true_r. rewrite cont_true; [done|].
  destruct (Z.eqb_spec (0xF0 + c / 262144) 0xF0), (Z.eqb_spec (0xF0 + c / 262144) 0xF4); lia.
Qed.

Lemma utf8_counted t : Forall is_char t -> utf8_chars (utf8_encode t) = Some (zlen t).
Proof.
  induction 1 as [|c t Hc _ IH]; [done|]. unfold utf8_encode in *. cbn [flat_map]. rewrite utf8_char_counted, IH by done.
  cbn. f_equal. unfold zlen. cbn [length]. lia.
Qed.

Lemma utf8_char_length c : 0 <= c -> zlen (utf8_char c) = utf8_size c.
Proof. intros Hc. unfold utf8_char, utf8_size. by repeat case_match. Qed.

Lemma utf8_encode_length t : Forall is_char t -> zlen (utf8_encode t) = utf8_len t.
Proof.
  induction 1 as [|c t Hc _ IH]; [done|]. unfold utf8_encode, utf8_len, zlen in *. cbn [flat_map fold_right].
  rewrite length_app, Nat2Z.inj_add, IH. f_equal. apply utf8_char_length. unfold is_char in Hc. lia.
Qed.

Lemma utf8_last_nonzero t c : last t = Some c -> c <> 0 -> is_char c -> exists b, last (utf8_encode t) = Some b /\ b <> 0.
Proof.
  intros Hl Hc Hch. apply last_Some in Hl as [t' ->]. unfold utf8_encode. rewrite flat_map_app. cbn [flat_map].
  rewrite app_nil_r.
  assert (Hm : 0 <= c mod 64 < 64) by (apply Z.mod_pos_bound; lia). unfold is_char in Hch. unfold utf8_char.
  repeat case_match; rewrite last_app; cbn [last]; eexists; (split; [done|lia]).
Qed.

Lemma trim_padded b n : last b <> Some 0 -> trim_zeros (b ++ repeat 0 n) = b.
Proof.
  intros Hl. assert (H0 : trim_zeros (repeat 0 n) = []).
  { clear. induction n as [|n IH]; [done|]. cbn [repeat trim_zeros]. by rewrite IH. }
  induction b as [|x b IH]; [done|]. cbn [app trim_zeros]. destruct b as [|y b].
  - cbn [app]. rewrite H0. destruct (Z.eqb_spec x 0) as [->|]; [by destruct Hl|done].
  - rewrite IH; [done|]. by intros Hx.
Qed.

(** A new PIN that passes the client's rules reaches the engine as typed: it
    fits the padded block, and the engine decodes it to the same bytes and the
    same number of characters, and finds it no shorter than the minimum both
    sides go by. *)
Theorem validated_pin_reaches_engine (pin : list Z) (minimum : Z) :
  Forall is_char pin -> validate_new_pin pin minimum = Ok tt -> 0 < minimum ->
  exists block, padded_pin (utf8_encode pin) = Some block /\
    decode_new_pin block minimum false = Ok (utf8_encode pin, zlen pin).
Proof.
  intros Hch Hv Hmin. unfold validate_new_pin in Hv. destruct (Z.ltb_spec (zlen pin) minimum) as [|Hl]; [done|].
  destruct (Z.ltb_spec PIN_INPUT_MAX_BYTES (utf8_len pin)) as [|Hu]; [done|]. case_bool_decide as Hnul; [done|].
  unfold PIN_INPUT_MAX_BYTES in Hu. rewrite <- utf8_encode_length in Hu by done. unfold zlen in Hu.
  unfold padded_pin. destruct (Nat.ltb_spec 63 (length (utf8_encode pin))); [lia|]. eexists. split; [done|].
  unfold decode_new_pin. unfold zlen at 1. rewrite length_app, repeat_length.
  replace (length (utf8_encode pin) + (64 - length (utf8_encode pin)))%nat with 64%nat by lia. cbn [negb Z.eqb Z.of_nat].
  change (negb (Z.of_nat 64 =? PADDED_PIN_LENGTH)) with false. cbv iota.
  assert (Hlast : last (utf8_encode pin) <> Some 0).
  { destruct (last pin) as [c|] eqn:El; [|by apply last_None in El; subst pin].
    destruct (utf8_last_nonzero pin c El) as (b & -> & Hb); [congruence| |congruence].
    apply last_Some in El as [t ->]. apply Forall_app in Hch as [_ Hch]. by inversion Hch. }
  rewrite trim_padded by done. unfold MAX_PIN_BYTES, zlen at 1. rewrite (proj2 (Z.ltb_ge _ _)) by lia.
  rewrite utf8_counted by done. cbn [ok_or bind]. rewrite (proj2 (Z.ltb_ge _ _)) by lia. cbn [orb andb].
  pose proof (utf8_chars_le _ _ (utf8_counted pin Hch)) as Hle. rewrite Z.mod_small; [done|]. unfold zlen in *. lia.
Qed.

(** ** The terminal *)

Definition same_actions (t t' : Tty) : Prop := forall s, tty_actions t' s = tty_actions t s.

Lemma deliver_actions step t : same_actions t (deliver step t).
Proof. intros s. unfold deliver, tty_signal. destruct (ts_signal step) as [x|]; [|done]. by destruct (tty_actions t x). Qed.

Lemma call_actions {A} (f : Tty -> Tty * A) t :
  (forall u, same_actions u (fst (f u))) -> same_actions t (fst (tty_call f t)).
Proof.
  intros Hf s. unfold tty_call. destruct (tty_steps t) as [|step steps].
  - specialize (Hf t s). by destruct (f t).
  - pose proof (deliver_actions step (tty_set_steps steps t) s) as Hd. cbn [tty_actions tty_set_steps] in Hd.
    destruct (ts_error step); [done|]. set (u := deliver step (tty_set_steps steps t)) in *.
    specialize (Hf u s). destruct (f u) as [v x]. cbn [fst] in *. by rewrite Hf.
Qed.

Lemma reinstate_same previous t t' : same_actions t t' -> same_actions (reinstate previous t) (reinstate previous t').
Proof.
  unfold reinstate. revert t t'. induction previous as [|p previous IH]; intros t t' Hs; [done|]. cbn [fold_left].
  apply IH. intros s. cbn [tty_actions tty_set_action]. by case_decide.
Qed.

Lemma reinstate_other previous t s : ~ (s ∈ map fst previous) -> tty_actions (reinstate previous t) s = tty_actions t s.
Proof.
  unfold reinstate. revert t. induction previous as [|p previous IH]; intros t Hs; [done|]. cbn [fold_left].
  cbn [map] in Hs. apply not_elem_of_cons in Hs as [Hne Hs]. rewrite IH by done. cbn [tty_actions tty_set_action].
  by rewrite decide_False.
Qed.

(** What was installed can be undone, at whatever point it stopped. *)
Lemma install_undone signals previous t t' r a0 :
  NoDup (map fst previous ++ signals) -> (forall s, tty_actions (reinstate previous t) s = a0 s) ->
  install_from signals previous t = (t', r) ->
  match r with
  | Ok previous' => forall s, tty_actions (reinstate previous' t') s = a0 s
  | Err _ => forall s, tty_actions t' s = a0 s
  end.
Proof.
  revert previous t. induction signals as [|x signals IH]; intros previous t Hnd Ha; cbn [install_from]; [by intros [= <- <-]|].
  assert (Hx : ~ (x ∈ map fst previous)).
  { apply NoDup_app in Hnd as (_ & Hd & _). intros Hx. apply (Hd x Hx). constructor. }
  assert (Hset : forall u, same_actions t u -> forall s,
    tty_actions (reinstate (previous ++ [(x, tty_actions u x)]) (tty_set_action x RecordSignal u)) s = a0 s).
  { intros u Hu s. unfold reinstate. rewrite fold_left_app. cbn [fold_left fst snd tty_actions tty_set_action].
    case_decide as Hs; [subst s|].
    - rewrite Hu, <- Ha. symmetry. by apply reinstate_other.
    - rewrite <- Ha.
      assert (Hp : forall l v, tty_actions (fold_left (fun t p => tty_set_action (fst p) (snd p) t) l (tty_set_action x RecordSignal v)) s =
        tty_actions (fold_left (fun t p => tty_set_action (fst p) (snd p) t) l v) s).
      { clear -Hs. intros l v. assert (Hg : forall u w : Tty, tty_actions u s = tty_actions w s ->
          tty_actions (fold_left (fun t p => tty_set_action (fst p) (snd p) t) l u) s =
          tty_actions (fold_left (fun t p => tty_set_action (fst p) (snd p) t) l w) s).
        { induction l as [|p l IHl]; intros u w E; [done|]. cbn [fold_left]. apply IHl. cbn [tty_actions tty_set_action].
          by case_decide. }
        apply Hg. cbn [tty_actions tty_set_action]. by rewrite decide_False. }
      rewrite Hp. apply (reinstate_same previous t u Hu s). }
  unfold tty_call. destruct (tty_steps t) as [|step steps].
  - intros Hr. eapply IH; [|apply (Hset t); by intros s|exact Hr]. rewrite map_app, <- app_assoc. exact Hnd.
  - pose proof (deliver_actions step (tty_set_steps steps t)) as Hd.
    destruct (ts_error step).
    + intros [= <- <-] s. rewrite <- Ha. by apply (reinstate_same previous t).
    + intros Hr. eapply IH; [|apply (Hset (deliver step (tty_set_steps steps t))); exact Hd|exact Hr].
      rewrite map_app, <- app_assoc. exact Hnd.
Qed.

(** *** Settings *)

Definition same_settings (t t' : Tty) : Prop := tty_settings t' = tty_settings t.

Lemma deliver_settings step t : same_settings t (deliver step t).
Proof.
  unfold same_settings, deliver, tty_signal. destruct (ts_signal step) as [x|]; [|done]. by destruct (tty_actions t x).
Qed.

Lemma call_settings {A} (f : Tty -> Tty * A) t :
  (forall u, same_settings u (fst (f u))) -> same_settings t (fst (tty_call f t)).
Proof.
  intros Hf. unfold same_settings, tty_call in *. destruct (tty_steps t) as [|step steps].
  - specialize (Hf t). by destruct (f t).
  - pose proof (deliver_settings step (tty_set_steps steps t)) as Hd. unfold same_settings in Hd.
    cbn [tty_settings tty_set_steps] in Hd.
    destruct (ts_error step); [done|]. set (u := deliver step (tty_set_steps steps t)) in *.
    specialize (Hf u). destruct (f u) as [v x]. cbn [fst] in *. by rewrite Hf.
Qed.

Lemma reinstate_settings previous t : same_settings t (reinstate previous t).
Proof.
  unfold same_settings, reinstate. revert t. induction previous as [|p previous IH]; intros t; [done|].
  cbn [fold_left]. by rewrite IH.
Qed.

Lemma install_settings signals previous t : same_settings t (fst (install_from signals previous t)).
Proof.
  revert previous t. induction signals as [|x signals IH]; intros previous t; [done|]. cbn [install_from].
  pose proof (call_settings (fun t => (tty_set_action x RecordSignal t, tty_actions t x)) t (fun u => eq_refl)) as Hc.
  destruct (tty_call _ t) as [u [action|e]]; unfold same_settings in *; cbn [fst] in *.
  - by rewrite IH.
  - by rewrite (reinstate_settings previous u).
Qed.

(** Reading a line changes neither the settings nor the actions. *)
Lemma read_tty_same `{Normalization} steps line t :
  same_actions t (fst (read_tty_from steps line t)) /\ same_settings t (fst (read_tty_from steps line t)).
Proof.
  revert line t. induction steps as [|step steps IH]; intros line t; cbn [read_tty_from];
    (destruct (tty_caught t); [done|]); [done|].
  pose proof (deliver_actions step t) as Ha. pose proof (deliver_settings step t) as Hs.
  assert (Hgo : forall l, same_actions t (fst (read_tty_from steps l (deliver step t))) /\
    same_settings t (fst (read_tty_from steps l (deliver step t)))).
  { intros l. destruct (IH l (deliver step t)) as [IHa IHs]. unfold same_actions, same_settings in *.
    split; [intros s; by rewrite IHa|by rewrite IHs]. }
  destruct (ts_error step) as [e|]; [case_match; [apply Hgo|by split]|].
  destruct (take 128 (ts_input step)) as [|b chunk]; [by split|]. case_match; [by split|apply Hgo].
Qed.

(** A terminal operation that leaves the actions and the settings alone. *)
Definition steady {A} (m : M Tty A PinInputError) : Prop :=
  forall t, same_actions t (fst (m t)) /\ same_settings t (fst (m t)).

Lemma steady_bind {A B} (m : M Tty A PinInputError) (k : A -> M Tty B PinInputError) :
  steady m -> (forall x, steady (k x)) -> steady (mbind_st m k).
Proof.
  intros Hm Hk t. unfold mbind_st. destruct (Hm t) as [Ha Hs]. destruct (m t) as [u [x|e]]; [|done].
  cbn [fst] in *. destruct (Hk x u) as [Ka Ks]. unfold same_actions, same_settings in *.
  split; [intros s; by rewrite Ka|by rewrite Ks].
Qed.

Lemma steady_call {A} (f : Tty -> Tty * A) :
  (forall u, same_actions u (fst (f u))) -> (forall u, same_settings u (fst (f u))) -> steady (tty_call f).
Proof. intros Ha Hs t. split; [by apply call_actions|by apply call_settings]. Qed.

Lemma steady_write : steady tty_write.
Proof. by apply steady_call. Qed.

Lemma steady_fail {A} e : steady (fail e : M Tty A PinInputError).
Proof. done. Qed.

Lemma steady_raise s : steady (tty_call (fun t => (tty_signal s t, tt))).
Proof. apply steady_call; intros u; unfold tty_signal; [intros s'|]; by destruct (tty_actions u s). Qed.

Lemma steady_prompted `{Normalization} : steady (tty_write ;;* tty_write ;;* read_tty_line).
Proof. do 2 (apply steady_bind; [apply steady_write|intros _]). intros t. apply read_tty_same. Qed.

(** A call that answers did its work on what the signals left. *)
Lemma call_done {A} (f : Tty -> Tty * A) t t' x :
  tty_call f t = (t', Ok x) -> exists u, same_actions t u /\ same_settings t u /\ f u = (t', x).
Proof.
  unfold tty_call. destruct (tty_steps t) as [|step steps].
  - destruct (f t) as [v y] eqn:Ef. intros [= <- <-]. by exists t.
  - destruct (ts_error step); [done|]. destruct (f _) as [v y] eqn:Ef. intros [= <- <-].
    exists (deliver step (tty_set_steps steps t)). split; [exact (deliver_actions step (tty_set_steps steps t))|].
    by split; [exact (deliver_settings step (tty_set_steps steps t))|].
Qed.

(** Setting the terminal: it has the new settings, or, if the call failed, the old ones. *)
Lemma set_settings_call new t t' r :
  tty_call (fun t => (tty_set_settings new t, tt)) t = (t', r) ->
  same_actions t t' /\ match r with Ok _ => tty_settings t' = new | Err _ => same_settings t t' end.
Proof.
  intros E. split.
  - change t' with (fst (t', r)). rewrite <- E. by apply call_actions.
  - destruct r as [x|e].
    + by apply call_done in E as (u & _ & _ & [= <- _]).
    + unfold tty_call in E. destruct (tty_steps t) as [|step steps]; [done|]. destruct (ts_error step); [|done].
      injection E as <- _. exact (deliver_settings step (tty_set_steps steps t)).
Qed.

(** The echo comes back on unless the call that turns it on fails. *)
Lemma with_echo_same {A} (inner : M Tty A PinInputError) t :
  steady inner ->
  same_actions t (fst (with_echo_disabled inner t)) /\
  (same_settings t (fst (with_echo_disabled inner t)) \/
   tty_settings (fst (with_echo_disabled inner t)) = quiet_settings (tty_settings t)).
Proof.
  intros Hin. unfold with_echo_disabled, mbind_st.
  assert (Hget : steady (tty_call (fun t => (t, tty_settings t)))) by by apply steady_call.
  destruct (Hget t) as [Ga Gs]. destruct (tty_call (fun t => (t, tty_settings t)) t) as [t1 [saved|e]] eqn:E1; [|auto].
  apply call_done in E1 as (u & _ & _ & [= -> <-]). cbn [fst] in *.
  destruct (tty_call _ t1) as [t2 [[]|e]] eqn:E2; apply set_settings_call in E2 as [Sa Ss];
    unfold same_actions, same_settings in *; cbn [fst].
  2: { split; [intros s; by rewrite Sa|]. left. by rewrite Ss. }
  destruct (Hin t2) as [Ia Is]. unfold same_actions, same_settings in *. destruct (inner t2) as [t3 r]. cbn [fst] in *.
  unfold ignored. destruct (tty_call _ t3) as [t4 [[]|e]] eqn:E4; apply set_settings_call in E4 as [Ra Rs];
    unfold same_actions, same_settings in *; cbn [fst]; (split; [intros s; by rewrite Ra, Ia, Sa|]).
  - left. by rewrite Rs.
  - right. by rewrite Rs, Is, Ss, Gs.
Qed.

Lemma caught_signals_distinct : NoDup CAUGHT_SIGNALS.
Proof. by apply (bool_decide_unpack (NoDup CAUGHT_SIGNALS)). Qed.

(** Reading a hidden line, whatever signals arrive and whatever calls fail,
    leaves every signal with the action it had, and the terminal with the
    settings it had, save when a call fails and leaves the echo off. *)
Theorem hidden_line_restores `{Normalization} t :
  let t' := fst (read_hidden_line t) in
  same_actions t t' /\
  (same_settings t t' \/ tty_settings t' = quiet_settings (tty_settings t)).
Proof.
  cbv zeta. unfold read_hidden_line, mbind_st, install_catcher.
  pose proof (install_settings CAUGHT_SIGNALS [] (tty_set_caught None t)) as Is.
  destruct (install_from _ _ _) as [t1 r] eqn:E1. cbn [fst] in Is.
  apply (install_undone _ _ _ _ _ (tty_actions t)) in E1; [|exact caught_signals_distinct|done].
  destruct r as [previous|e]; [|split; [exact E1|by left]].
  destruct (with_echo_same _ t1 steady_prompted) as [Wa Ws]. destruct (with_echo_disabled _ t1) as [t2 r]. cbn [fst] in Wa, Ws.
  assert (H2 : same_actions t (reinstate previous t2) /\
    (same_settings t (reinstate previous t2) \/ tty_settings (reinstate previous t2) = quiet_settings (tty_settings t))).
  { split; [intros s; by rewrite (reinstate_same previous t1 t2 Wa s), E1|].
    unfold same_settings. rewrite (reinstate_settings previous t2). unfold same_settings in *. cbn in Is.
    rewrite <- Is. destruct Ws as [Ws|Ws]; rewrite Ws; auto. }
  unfold restore. destruct (tty_caught (reinstate previous t2)) as [s|]; [|exact H2].
  set (u := tty_set_caught None (reinstate previous t2)).
  destruct (steady_write u) as [Ua Us]. destruct (steady_write (ignored tty_write u)) as [Va Vs].
  destruct (steady_raise s (ignored tty_write (ignored tty_write u))) as [Ra Rs].
  destruct (tty_call _ (ignored tty_write (ignored tty_write u))) as [v [[]|e]];
    unfold same_actions, same_settings, ignored in *; cbn [fst fail] in *; rewrite Rs, Vs, Us;
    (split; [intros s'; rewrite Ra, Va, Ua|]; apply H2).
Qed.

(** Once a signal was caught, nothing more is read. *)
Lemma read_after_signal `{Normalization} steps line t s :
  tty_caught t = Some s -> read_tty_from steps line t = (tty_set_steps steps t, Err PinInterrupted).
Proof. intros E. destruct steps; cbn [read_tty_from]; by rewrite E. Qed.
