(* ===== verification/KeyCommands.v ===== *)
(** * The commands that manage the key ([crates/pqkey/src/cli/key.rs])

    What [pqkey pin], [pqkey config], [pqkey passkeys], [pqkey status], the
    last step of [pqkey setup] and [pqkey reset] do with a key: which requests
    they send ([ManagementClient.v]), which PINs they ask for ([PinInput.v]),
    what they ask the user first, and what they report.  A command's state is
    its key and its console.  Reports and errors are data, not their English
    text, but for the table of passkeys, whose text sites choose in part.
    Finding the key's device and starting and stopping the daemon are a class.
    Lower-casing text is a parameter; writing to the terminal is left out. *)

From Stdlib Require Import Strings.String.
From stdpp Require Import list.
From S2P Require Import Prelude Constants Alg Crypto Text Cbor ClientPin HidClient ManagementClient FileSystem Presence Notification PinInput.

(** ** Errors *)

Inductive Refusal : Type :=
| ClientSays (e : ClientError)
| PinUnsupported
| CannotStorePin
| MustDiffer
| PinAtLeast (minimum : Z)
| NewPinTooShort (minimum : Z)
| LetterAndDigit (more : Refusal)
| ChangeRequiredFirst
| ImplausiblePin (e : PinInputError)
| WrongPin (left : option Z)
| ReplugNeeded
| PinBlocked
| NotAsNewPin
| NoPinSet
| ConfigUnsupported
| ComplexityUnsupported
| NoPinToChange
| ConfigTooLong (encoded_bytes limit : Z)
| CannotLower (minimum : Z)
| RpListTooLong (most : Z)
| AlwaysUvNeedsPin
| PasskeysNeedPin
| NameThePasskey
| NoPasskeyMatches (query : list Z)
| PasskeysMatch (query : list Z) (count : nat) (table : list (list Z))
| SetupNeedsTerminal
| SetupNeedsPinSupport
| SetupIncomplete
| ResetDenied
| ResetTimedOut
| ResetCancelled
| ResetTooLate.

(** Why an answer could not be read. *)
Inductive InputError : Type :=
| InputIo (code : Z)
| InputNotUtf8.

(** An [io::Error]: one of the system, or one a command makes. *)
Inductive CommandError : Type :=
| SystemError (code : Z)
| PinFailure (e : PinInputError)
| ReadFailure (e : InputError)
| Refused (kind : IoKind) (why : Refusal).

(** The kinds [std] gives to error numbers, those the commands tell apart. *)
Definition io_kind (code : Z) : IoKind :=
  if code =? 22 then KInvalidInput else if code =? 4 then KInterrupted else KOther.

Definition error_kind (e : CommandError) : IoKind :=
  match e with
  | SystemError code | PinFailure (PinIo code) => io_kind code
  | PinFailure e => pin_error_kind e
  | ReadFailure (InputIo code) => io_kind code
  | ReadFailure InputNotUtf8 => KInvalidData
  | Refused kind _ => kind
  end.

Definition client_error (e : ClientError) : CommandError :=
  match e with
  | ClientHid (Io code) => SystemError code
  | ClientHid Busy => Refused KResourceBusy (ClientSays e)
  | _ => Refused KOther (ClientSays e)
  end.

(** ** What a command works with *)

(** Standard input read for an answer: a line with its ending, or nothing at
    the end of the input. *)
Class Console (P : Type) : Type := {
  console_pins :: PinSource P;
  console_line : P -> P * result (list Z) InputError
}.

(** Standard input that is not a terminal, which PINs are read from too. *)
#[export] Instance piped_console `{Normalization} : Console bytes := {|
  console_pins := piped_pins;
  console_line := fun input =>
    let (line, rest) := read_until_newline (length input) input in
    (rest, if is_some (utf8_chars line) then Ok (utf8_decode line) else Err InputNotUtf8)
|}.

(** What a command asks before it goes on. *)
Inductive Question : Type :=
| AskMinimum (minimum : Z)
| AskComplexity
| AskDelete (user site : list Z)
| AskReset
| AskUnblocked (now : result bool ClientError).

(** [kr_asked]: the questions the user has seen, the last one first. *)
Record KeyRun (H P : Type) : Type := { kr_key : Authenticator H; kr_console : P; kr_asked : list Question }.

Arguments kr_key {H P} k.
Arguments kr_console {H P} k.
Arguments kr_asked {H P} k.

(** What a command reports. *)
Inductive PinLine : Type :=
| LineBlocked
| LineLocked
| LineRetries (left : Z).

Inductive OutLine : Type :=
| ShowsAlwaysUv (on : bool)
| ShowsMinimum (minimum : Z)
| ShowsComplexity (on : bool)
| ShowsChangeRequired (required : bool)
| NowAlwaysUv (on : bool)
| BrowsersNeedPin
| NowMinimum (minimum : Z)
| NowComplexity (on : bool)
| ChangeRequired
| NothingChanged
| LinePin (state : PinLine)
| LineNoPin
| LinePinUnsupported
| LineAlwaysUvOn
| LineChangeRequired
| LineRoom (remaining : option Z).

Inductive PinChange : Type := PinSet | PinChanged.

Inductive ConfigAction : Type :=
| AlwaysUvAction (enabled : bool)
| MinPinLengthAction (minimum : Z) (rp_ids : list bytes) (yes : bool)
| PinComplexityAction (yes : bool)
| ForcePinChangeAction.

Definition is_true_option (o : option bool) : bool := bool_decide (o = Some true).

Definition minimum_pin_length (info : Info) : Z := default MIN_PIN_CODE_POINTS (info_min_pin_length info).

(** ** Answers *)

Definition ascii_lower (c : Z) : Z := if (65 <=? c) && (c <=? 90) then c + 32 else c.

Definition is_yes (answer : list Z) (default_yes : bool) : bool :=
  let answer := map ascii_lower (trim answer) in
  if bool_decide (answer = []) then default_yes
  else bytes_eqb answer (ascii_bytes "y") || bytes_eqb answer (ascii_bytes "yes").

(** ** Passkeys as text *)

Class Lowercase : Type := { lowercase : list Z -> list Z }.

Definition HEADINGS : list (list Z) := map ascii_bytes ["SITE"; "USER"; "ALGORITHM"; "PAYMENT"; "ID"]%string.

Definition MAX_COLUMN_CHARS : nat := 40.

Definition SHORT_ID_DIGITS : nat := 16.

Definition shown_site (rp_id : bytes) : option (list Z) := sanitise (utf8_decode rp_id) MAX_COLUMN_CHARS KeepEnd.

Definition site (p : Passkey) : list Z := default (ascii_bytes "-") (shown_site (pk_rp_id p)).

Definition shown_name (name : option bytes) : option (list Z) :=
  match name with Some name => sanitise (utf8_decode name) MAX_COLUMN_CHARS KeepStart | None => None end.

Definition shown_names (name display : option bytes) : option (list Z) :=
  match shown_name name, shown_name display with
  | Some name, Some display =>
      if bytes_eqb name display then Some name
      else Some (name ++ ascii_bytes " (" ++ display ++ ascii_bytes ")")
  | Some name, None | None, Some name => Some name
  | None, None => None
  end.

Definition user (p : Passkey) : list Z :=
  default (ascii_bytes "-") (shown_names (pk_user_name p) (pk_user_display_name p)).

Definition alg_name (a : CoseAlg) : list Z :=
  ascii_bytes match a with
              | ES256 => "ES256" | MLDSA44 => "ML-DSA-44" | MLDSA65 => "ML-DSA-65" | MLDSA87 => "ML-DSA-87"
              | ESP256 => "ESP256" | ES384 => "ES384" | ESP384 => "ESP384" | ES512 => "ES512" | ESP512 => "ESP512"
              | ES256K => "ES256K" | EdDSA => "EdDSA" | Ed25519 => "Ed25519" | Ed448 => "Ed448" | RS256 => "RS256"
              | RS384 => "RS384" | RS512 => "RS512" | PS256 => "PS256" | PS384 => "PS384" | PS512 => "PS512"
              | ESB256 => "ESB256" | ESB384 => "ESB384"
              end.

Definition signed_digits (n : Z) : list Z := if n <? 0 then 45 :: digits_of (- n) else digits_of n.

Definition algorithm (alg : option Z) : list Z :=
  match alg with
  | None => ascii_bytes "-"
  | Some n =>
      if (- 2 ^ 31 <=? n) && (n <? 2 ^ 31) then
        match alg_try_from n with Ok a => alg_name a | Err _ => ascii_bytes "COSE " ++ signed_digits n end
      else ascii_bytes "COSE " ++ signed_digits n
  end.

(** A row as it is sorted, and whether payment is enabled. *)
Definition table_row (p : Passkey) : list (list Z) * bool :=
  ([site p; user p; algorithm (pk_alg p); take SHORT_ID_DIGITS (hex (pk_credential_id p))],
   is_true_option (pk_third_party_payment p)).

Fixpoint row_cmp (a b : list (list Z)) : comparison :=
  match a, b with
  | [], [] => Eq
  | [], _ => Lt
  | _, [] => Gt
  | x :: a, y :: b => match bytes_cmp x y with Eq => row_cmp a b | c => c end
  end.

(** [sort_by], which is stable. *)
Fixpoint insert_row (row : list (list Z) * bool) (rows : list (list (list Z) * bool)) : list (list (list Z) * bool) :=
  match rows with
  | [] => [row]
  | other :: rest => match row_cmp (fst row) (fst other) with
                     | Gt => other :: insert_row row rest
                     | _ => row :: rows
                     end
  end.

Definition sort_rows (rows : list (list (list Z) * bool)) : list (list (list Z) * bool) := fold_right insert_row [] rows.

Definition with_payment (row : list (list Z) * bool) : list (list Z) :=
  let payment := ascii_bytes (if snd row then "enabled" else "-") in
  match fst row with
  | [site; user; alg; id] => [site; user; alg; payment; id]
  | cells => cells
  end.

(** The width of a column. *)
Definition column_width (rows : list (list (list Z))) (column : nat) : nat :=
  fold_right Nat.max 0%nat (map (fun row => length (nth column row [])) rows).

Fixpoint table_line (column : nat) (rows : list (list (list Z))) (row : list (list Z)) : list Z :=
  match row with
  | [] => []
  | [cell] => cell
  | cell :: rest =>
      cell ++ repeat 32 (column_width rows column - length cell + 2) ++ table_line (column + 1) rows rest
  end.

Definition passkey_table (passkeys : list Passkey) : list (list Z) :=
  let rows := HEADINGS :: map with_payment (sort_rows (map table_row passkeys)) in
  map (table_line 0 rows) rows.

Definition is_prefix_of (needle t : list Z) : bool := is_some (strip_prefix needle t).

(** [str::contains]. *)
Fixpoint text_contains (needle t : list Z) : bool :=
  is_prefix_of needle t || match t with [] => false | _ :: t => text_contains needle t end.

Section Matching.

Context `{Lowercase}.

Definition named_by (needle : list Z) (p : Passkey) : bool :=
  let contains t := text_contains needle (lowercase t) in
  contains (utf8_decode (pk_rp_id p))
  || is_some_and (pk_user_name p) (fun name => contains (utf8_decode name))
  || is_some_and (pk_user_display_name p) (fun name => contains (utf8_decode name))
  || contains (hex (pk_credential_id p)).

Definition matching_passkey (passkeys : list Passkey) (query : list Z) : result Passkey CommandError :=
  let needle := lowercase query in
  if bool_decide (needle = []) then Err (Refused KInvalidInput NameThePasskey)
  else
    match List.filter (named_by needle) passkeys with
    | [p] => Ok p
    | [] => Err (Refused KNotFound (NoPasskeyMatches query))
    | matches => Err (Refused KInvalidInput (PasskeysMatch query (length matches) (passkey_table matches)))
    end.

End Matching.

(** ** The commands *)

Section Commands.

Context {H P : Type} `{Connection H} `{Crypto} `{Ciborium} `{Console P} `{Lowercase}.

#[local] Abbreviation CommandM A := (M (KeyRun H P) A CommandError).
#[local] Abbreviation Client A := (M (Authenticator H) A ClientError).

Definition kr_with_key (s : KeyRun H P) (key : Authenticator H) : KeyRun H P :=
  {| kr_key := key; kr_console := kr_console s; kr_asked := kr_asked s |}.

Definition kr_with_console (s : KeyRun H P) (console : P) : KeyRun H P :=
  {| kr_key := kr_key s; kr_console := console; kr_asked := kr_asked s |}.

(** A call on the key, whose failure the command looks at. *)
Definition try_key {A} (m : Client A) : CommandM (result A ClientError) := fun s =>
  let (key, r) := m (kr_key s) in (kr_with_key s key, Ok r).

(** [map_err]: the error may be made with the key's help. *)
Definition on_key_or {A} (m : Client A) (refusal : ClientError -> CommandM CommandError) : CommandM A :=
  let* r := try_key m in
  match r with
  | Ok x => ret x
  | Err e => let* error := refusal e in fail error
  end.

Definition on_key {A} (m : Client A) : CommandM A := on_key_or m (fun e => ret (client_error e)).

Definition on_pins {A} (m : M P A PinInputError) : CommandM A := fun s =>
  let (console, r) := m (kr_console s) in (kr_with_console s console, map_err PinFailure r).

(** [ask]. *)
Definition ask_on_terminal (default_yes : bool) (question : Question) : CommandM bool := fun s =>
  let (console, r) := console_line (kr_console s) in
  ({| kr_key := kr_key s; kr_console := console; kr_asked := question :: kr_asked s |},
   match r with
   | Ok [] => Ok false
   | Ok answer => Ok (is_yes answer default_yes)
   | Err e => Err (ReadFailure e)
   end).

Definition confirm_on_terminal (question : Question) : CommandM bool := ask_on_terminal false question.

(** *** PINs *)

Definition has_status (status : Z) (e : ClientError) : bool :=
  match e with ClientStatus s => s =? status | _ => false end.

Definition pin_error_message (e : ClientError) (retries : option PinRetries) : CommandError :=
  if has_status CTAP2_ERR_PIN_INVALID e then Refused KPermissionDenied (WrongPin (pr_retries <$> retries))
  else if has_status CTAP2_ERR_PIN_AUTH_BLOCKED e then Refused KPermissionDenied ReplugNeeded
  else if has_status CTAP2_ERR_PIN_BLOCKED e then Refused KPermissionDenied PinBlocked
  else if has_status CTAP2_ERR_PIN_POLICY_VIOLATION e then Refused KInvalidInput NotAsNewPin
  else if has_status CTAP2_ERR_PIN_NOT_SET e then Refused KInvalidInput NoPinSet
  else Refused KOther (ClientSays e).

Definition result_ok {A E} (r : result A E) : option A := match r with Ok x => Some x | Err _ => None end.

Definition pin_error (e : ClientError) : CommandM CommandError :=
  if has_status CTAP2_ERR_PIN_INVALID e then
    let* retries := try_key pin_retries in ret (pin_error_message e (result_ok retries))
  else ret (pin_error_message e None).

Definition policy_refusal (minimum : Z) (same_pin : bool) (updated : option Info) : Refusal :=
  let complexity := is_some_and updated (fun info => is_true_option (info_pin_complexity_policy info)) in
  let refusal :=
    if same_pin && is_some_and updated (fun info => is_true_option (info_force_pin_change info)) then MustDiffer
    else
      let minimum := match updated with Some info => minimum_pin_length info | None => minimum end in
      if complexity then PinAtLeast minimum else NewPinTooShort minimum in
  if complexity then LetterAndDigit refusal else refusal.

Definition new_pin_error (minimum : Z) (same_pin : bool) (e : ClientError) : CommandM CommandError :=
  if has_status CTAP2_ERR_PIN_POLICY_VIOLATION e then
    let* updated := try_key client_info in
    ret (Refused KInvalidInput (policy_refusal minimum same_pin (result_ok updated)))
  else pin_error e.

Definition token_error (e : ClientError) : CommandM CommandError :=
  if has_status CTAP2_ERR_PIN_POLICY_VIOLATION e then ret (Refused KPermissionDenied ChangeRequiredFirst)
  else pin_error e.

Definition check_pin_usable : CommandM unit :=
  let* retries := on_key pin_retries in
  if pr_retries retries =? 0 then fail (pin_error_message (ClientStatus CTAP2_ERR_PIN_BLOCKED) None)
  else if pr_power_cycle_needed retries then fail (pin_error_message (ClientStatus CTAP2_ERR_PIN_AUTH_BLOCKED) None)
  else ret tt.

Definition plausible_pin (pin : list Z) : result (list Z) CommandError :=
  match validate_pin pin with
  | Ok _ => Ok pin
  | Err e => Err (Refused KInvalidInput (ImplausiblePin e))
  end.

Definition set_pin_error (minimum : Z) (e : ClientError) : CommandM CommandError :=
  if has_status CTAP2_ERR_PROCESSING e then ret (Refused KOther CannotStorePin)
  else new_pin_error minimum false e.

Definition set_or_change_pin : CommandM PinChange :=
  let* info := on_key client_info in
  let minimum := minimum_pin_length info in
  match info_pin_set info with
  | Some false =>
      let* new := on_pins (source_new_pin minimum) in
      on_key_or (set_pin (utf8_encode new)) (set_pin_error minimum) ;;*
      ret PinSet
  | Some true =>
      check_pin_usable ;;*
      let* current := on_pins source_current_pin in
      let* current := lift (plausible_pin current) in
      let* new := on_pins (source_new_pin minimum) in
      on_key_or (change_pin (utf8_encode current) (utf8_encode new)) (new_pin_error minimum (bytes_eqb current new)) ;;*
      ret PinChanged
  | None => fail (Refused KUnsupportedIo PinUnsupported)
  end.

Definition PIN_ATTEMPTS : nat := 3.

(** [set_first_pin], which may try [again] times more. *)
Fixpoint set_first_pin_from (again : nat) : CommandM unit := fun s =>
  match set_or_change_pin s with
  | (s, Ok _) => (s, Ok tt)
  | (s, Err e) =>
      match again with
      | S again => if bool_decide (error_kind e = KInvalidInput) then set_first_pin_from again s else (s, Err e)
      | O => (s, Err e)
      end
  end.

Definition set_first_pin : CommandM unit := set_first_pin_from (PIN_ATTEMPTS - 1).

(** [ensure_pin_on]. *)
Definition ensure_pin_on (interactive : bool) : CommandM unit :=
  let* info := on_key client_info in
  if is_true_option (info_pin_set info) && negb (is_true_option (info_force_pin_change info)) then check_pin_usable
  else
    match info_pin_set info with
    | None => fail (Refused KOther SetupNeedsPinSupport)
    | Some set =>
        if negb interactive then fail (Refused KOther SetupNeedsTerminal)
        else
          (if (set : bool) then let* _ := set_or_change_pin in ret tt else set_first_pin) ;;*
          let* info := on_key client_info in
          if negb (is_true_option (info_pin_set info)) || is_true_option (info_force_pin_change info)
          then fail (Refused KOther SetupIncomplete)
          else check_pin_usable
    end.

(** *** Configuration *)

(** [acquire_pin_token]. *)
Definition acquire_pin_token (request : bytes -> Client ClientToken) : CommandM ClientToken :=
  check_pin_usable ;;*
  let* pin := on_pins source_pin in
  let* pin := lift (plausible_pin pin) in
  on_key_or (request (utf8_encode pin)) token_error.

Definition command_config_token (info : Info) : CommandM (option ClientToken) :=
  if negb (is_true_option (info_pin_set info)) then ret None
  else let* token := acquire_pin_token config_token in ret (Some token).

Definition config_lines (info : Info) : list OutLine :=
  [ShowsAlwaysUv (is_true_option (info_always_uv info)); ShowsMinimum (minimum_pin_length info);
   ShowsComplexity (is_true_option (info_pin_complexity_policy info));
   ShowsChangeRequired (is_true_option (info_force_pin_change info))].

Definition config_error (info : Info) (e : ClientError) : CommandM CommandError :=
  match e with
  | ClientRequestTooLarge encoded_bytes limit => ret (Refused KInvalidInput (ConfigTooLong encoded_bytes limit))
  | _ =>
      if has_status CTAP2_ERR_PIN_POLICY_VIOLATION e
      then ret (Refused KInvalidInput (CannotLower (minimum_pin_length info)))
      else if has_status CTAP2_ERR_KEY_STORE_FULL e
      then ret (Refused KInvalidInput (RpListTooLong (default 8 (info_max_rp_ids_for_min_pin_length info))))
      else if has_status CTAP2_ERR_PUAT_REQUIRED e && bool_decide (info_pin_set info = Some false)
      then ret (Refused KInvalidInput AlwaysUvNeedsPin)
      else pin_error e
  end.

Definition action_subcommand (action : ConfigAction) : Z :=
  match action with AlwaysUvAction _ => 2 | _ => 3 end.

Definition change_required_line (info : Info) : list OutLine :=
  if is_true_option (info_force_pin_change info) then [ChangeRequired] else [].

(** The question is not asked of who said yes beforehand. *)
Definition go_ahead (yes : bool) (question : Question) : CommandM bool :=
  if yes then ret true else confirm_on_terminal question.

Definition configure_always_uv (info : Info) (enabled : bool) : CommandM (list OutLine) :=
  (if negb (Bool.eqb (is_true_option (info_always_uv info)) enabled) then
     let* token := command_config_token info in
     on_key_or (client_toggle_always_uv token) (config_error info)
   else ret tt) ;;*
  let* updated := on_key client_info in
  ret (NowAlwaysUv (is_true_option (info_always_uv updated))
       :: if bool_decide (info_pin_set updated = Some false) then [BrowsersNeedPin] else []).

Definition configure_minimum (info : Info) (minimum : Z) (rp_ids : list bytes) (yes : bool) : CommandM (list OutLine) :=
  let* go := go_ahead yes (AskMinimum minimum) in
  if negb go then ret [NothingChanged]
  else
    let* token := command_config_token info in
    let rp_ids := match rp_ids with [] => None | _ => Some rp_ids end in
    on_key_or (client_set_min_pin_length token (Some minimum) rp_ids None None) (config_error info) ;;*
    let* updated := on_key client_info in
    ret (NowMinimum (minimum_pin_length updated) :: change_required_line updated).

(** What [PinComplexity] does once the change, if any, is made. *)
Definition report_complexity : CommandM (list OutLine) :=
  let* updated := on_key client_info in
  ret (NowComplexity (is_true_option (info_pin_complexity_policy updated)) :: change_required_line updated).

Definition configure_complexity (info : Info) (yes : bool) : CommandM (list OutLine) :=
  match info_pin_complexity_policy info with
  | None => fail (Refused KUnsupportedIo ComplexityUnsupported)
  | Some true => report_complexity
  | Some false =>
      let* go := go_ahead yes AskComplexity in
      if negb go then ret [NothingChanged]
      else
        let* token := command_config_token info in
        on_key_or (client_set_min_pin_length token None None None (Some true)) (config_error info) ;;*
        report_complexity
  end.

Definition configure_force_change (info : Info) : CommandM (list OutLine) :=
  if negb (is_true_option (info_pin_set info)) then fail (Refused KInvalidInput NoPinToChange)
  else
    let* token := command_config_token info in
    on_key_or (client_set_min_pin_length token None None (Some true) None) (config_error info) ;;*
    ret [ChangeRequired].

Definition configure (action : option ConfigAction) : CommandM (list OutLine) :=
  let* info := on_key client_info in
  match action with
  | None => ret (config_lines info)
  | Some action =>
      if negb (is_true_option (info_authenticator_config info))
         || negb (bool_decide (action_subcommand action ∈ info_config_commands info))
      then fail (Refused KUnsupportedIo ConfigUnsupported)
      else
        match action with
        | AlwaysUvAction enabled => configure_always_uv info enabled
        | MinPinLengthAction minimum rp_ids yes => configure_minimum info minimum rp_ids yes
        | PinComplexityAction yes => configure_complexity info yes
        | ForcePinChangeAction => configure_force_change info
        end
  end.

(** *** Passkeys *)

Definition require_pin : CommandM unit :=
  let* info := on_key client_info in
  guard (is_true_option (info_pin_set info)) (Refused KInvalidInput PasskeysNeedPin).

Definition command_management_token : CommandM ClientToken :=
  require_pin ;;* acquire_pin_token management_token.

(** [list_passkeys] on a connected key: the table, or nothing to show. *)
Definition list_passkeys : CommandM (option (list (list Z))) :=
  require_pin ;;*
  let* token := acquire_pin_token listing_token in
  let* found := on_key (passkeys token) in
  ret (match found with [] => None | _ => Some (passkey_table found) end).

(** [delete_passkey] on a connected key: whether it was deleted. *)
Definition delete_passkey (query : list Z) (yes : bool) : CommandM bool :=
  let* token := command_management_token in
  let* found := on_key (passkeys token) in
  let* passkey := lift (matching_passkey found query) in
  let* go := go_ahead yes (AskDelete (user passkey) (site passkey)) in
  if negb go then ret false
  else
    on_key (client_delete token (pk_credential_id passkey)) ;;*
    ret true.

(** *** Status *)

Definition pin_state (retries : PinRetries) : PinLine :=
  if pr_retries retries =? 0 then LineBlocked
  else if pr_power_cycle_needed retries then LineLocked
  else LineRetries (pr_retries retries).

Definition policy_status (info : Info) : list OutLine :=
  (if is_true_option (info_always_uv info) then [LineAlwaysUvOn] else [])
  ++ (if is_true_option (info_force_pin_change info) then [LineChangeRequired] else []).

(** [show_key] once the device is open. *)
Definition show_key : CommandM (list OutLine) :=
  let* info := on_key client_info in
  let* pin := match info_pin_set info with
              | Some true => let* retries := on_key pin_retries in ret (LinePin (pin_state retries))
              | Some false => ret LineNoPin
              | None => ret LinePinUnsupported
              end in
  ret (pin :: policy_status info ++ [LineRoom (info_remaining_discoverable info)]).

End Commands.

(** ** Reset *)

(** The daemon and its device.  [host_open] is the device of the key as it
    runs, within [STATUS_WAIT]; [host_replug] stops and starts the key, and
    [host_connect] opens what it left; [host_close] gives a link back. *)
Class KeyHost (E H : Type) : Type := {
  host_running : E -> E * result bool CommandError;
  host_open : E -> E * option (Authenticator H);
  host_close : Authenticator H -> E -> E;
  host_replug : E -> E * result unit CommandError;
  host_connect : E -> E * result (Authenticator H) CommandError;
  host_unplug : E -> E * result unit CommandError;
  host_line : E -> E * result (list Z) InputError
}.

Record ResetRun (E : Type) : Type := { rr_host : E; rr_restarted : bool; rr_asked : list Question }.

Arguments rr_host {E} r.
Arguments rr_restarted {E} r.
Arguments rr_asked {E} r.

Section Resets.

Context {E H : Type} `{Connection H} `{Crypto} `{Ciborium} `{KeyHost E H}.

#[local] Abbreviation ResetM A := (M (ResetRun E) A CommandError).

Definition rr_with_host (s : ResetRun E) (host : E) : ResetRun E :=
  {| rr_host := host; rr_restarted := rr_restarted s; rr_asked := rr_asked s |}.

Definition on_host {A} (m : E -> E * result A CommandError) : ResetM A := fun s =>
  let (host, r) := m (rr_host s) in (rr_with_host s host, r).

Definition ask_before_reset (question : Question) : ResetM bool := fun s =>
  let (host, r) := host_line (rr_host s) in
  ({| rr_host := host; rr_restarted := rr_restarted s; rr_asked := question :: rr_asked s |},
   match r with
   | Ok [] => Ok false
   | Ok answer => Ok (is_yes answer false)
   | Err e => Err (ReadFailure e)
   end).

(** [pin_blocked]. *)
Definition pin_blocked : M (Authenticator H) bool ClientError :=
  let* info := client_info in
  if negb (is_true_option (info_pin_set info)) then ret false
  else let* retries := pin_retries in ret (pr_retries retries =? 0).

Definition blocked_before (running yes : bool) : ResetM bool := fun s =>
  if yes || negb running then (s, Ok false)
  else
    match host_open (rr_host s) with
    | (host, None) => (rr_with_host s host, Ok false)
    | (host, Some key) =>
        let (key, r) := pin_blocked key in
        (rr_with_host s (host_close key host), Ok match r with Ok blocked => blocked | Err _ => false end)
    end.

(** [replug] of [reset]. *)
Definition replug_for_reset : ResetM (Authenticator H) :=
  on_host host_replug ;;*
  modify (fun s => {| rr_host := rr_host s; rr_restarted := true; rr_asked := rr_asked s |}) ;;*
  on_host host_connect.

Definition restarted_for_reset (running yes : bool) : ResetM (option (Authenticator H)) :=
  let* blocked := blocked_before running yes in
  let* key := replug_for_reset in
  if negb blocked then ret (Some key)
  else
    match pin_blocked key with
    | (key, Ok true) => ret (Some key)
    | (key, now) =>
        let* go := ask_before_reset (AskUnblocked now) in
        modify (fun s => rr_with_host s (host_close key (rr_host s))) ;;*
        if negb go then ret None else let* key := replug_for_reset in ret (Some key)
    end.

Definition reset_error (e : ClientError) : CommandError :=
  if has_status CTAP2_ERR_OPERATION_DENIED e then Refused KPermissionDenied ResetDenied
  else if has_status CTAP2_ERR_USER_ACTION_TIMEOUT e then Refused KPermissionDenied ResetTimedOut
  else if has_status CTAP2_ERR_KEEPALIVE_CANCEL e then Refused KPermissionDenied ResetCancelled
  else if has_status CTAP2_ERR_NOT_ALLOWED e then Refused KPermissionDenied ResetTooLate
  else client_error e.

(** [reset_key]; Ctrl-C sets the connection's cancel flag. *)
Definition reset_key (key : Authenticator H) : ResetM unit := fun s =>
  let (key, r) := client_reset key in
  (rr_with_host s (host_close key (rr_host s)), map_err reset_error r).

(** [restored] of [reset]: a key that was not running is stopped again. *)
Definition unplug_again (running : bool) : ResetM unit := fun s =>
  if running || negb (rr_restarted s) then (s, Ok tt) else on_host host_unplug s.

(** [pqkey reset]: whether the key was reset. *)
Definition reset_command (yes : bool) : ResetM bool :=
  let* running := on_host host_running in
  let* go := if yes then ret true else ask_before_reset AskReset in
  if negb go then ret false
  else fun s =>
    let (s, result) :=
      (let* key := restarted_for_reset running yes in
       match key with
       | Some key => reset_key key ;;* ret true
       | None => ret false
       end) s in
    let (s, restored) := unplug_again running s in
    (s, let? done := result in let? _ := restored in Ok done).

End Resets.
