(* ===== verification/KeyCommandsProofs.v ===== *)
(** * What the commands ask of the key

    Which requests a command sends, over any connection: a PIN that could not
    be the key's costs no retry, and [pqkey passkeys delete] deletes the one
    passkey the user named.  A reset is asked for again when a restart gave the
    PIN back, and no site's name reaches the terminal's controls. *)

From Stdlib Require Import Strings.String.
From stdpp Require Import list.
From S2P Require Import Prelude Constants Alg Crypto ConcreteCrypto Text Cbor ConcreteCbor Codec CborWire Store StoreProofs.
From S2P Require Import CredentialKey Signing Engine CredMgmtProofs ClientEngine ClientPin HidClient ManagementClient FileSystem.
From S2P Require Import Presence Notification PinInput KeyCommands.

(** ** Requests on record *)

(** A connection and the requests it has carried. *)
Record Recorded (H : Type) : Type := { rec_hid : H; rec_requests : list bytes }.

Arguments rec_hid {H} r.
Arguments rec_requests {H} r.

#[export] Instance recorded_connection {H} `{Connection H} : Connection (Recorded H) := {|
  conn_cbor := fun request c =>
    let (h, r) := conn_cbor request (rec_hid c) in
    ({| rec_hid := h; rec_requests := rec_requests c ++ [request] |}, r)
|}.

Section Requests.

Context {H : Type} `{Connection H} `{Crypto} `{Ciborium}.

#[local] Abbreviation Client A := (M (Authenticator (Recorded H)) A ClientError).

(** Whatever comes of [m], it only sends requests of the kind [Q]. *)
Definition sends (Q : bytes -> Prop) {A} (m : Client A) : Prop :=
  forall a, exists l, rec_requests (hid (fst (m a))) = rec_requests (hid a) ++ l /\ Forall Q l.

Lemma sends_mono (Q R : bytes -> Prop) {A} (m : Client A) : (forall r, Q r -> R r) -> sends Q m -> sends R m.
Proof. intros Hqr Hm a. destruct (Hm a) as (l & E & Hl). exists l. split; [done|]. by eapply Forall_impl. Qed.

Lemma sends_nothing Q {A} (m : Client A) : (forall a, hid (fst (m a)) = hid a) -> sends Q m.
Proof. intros Hm a. exists []. rewrite Hm, app_nil_r. done. Qed.

Lemma sends_bind Q {A B} (m : Client A) (k : A -> Client B) :
  sends Q m -> (forall x, sends Q (k x)) -> sends Q (mbind_st m k).
Proof.
  intros Hm Hk a. unfold mbind_st. destruct (Hm a) as (l & E & Hl). destruct (m a) as [a1 [x|e]]; [|by exists l].
  cbn [fst] in E. destruct (Hk x a1) as (l' & E' & Hl'). exists (l ++ l'). rewrite E', E, app_assoc.
  split; [done|]. by apply Forall_app.
Qed.

Lemma sends_ret Q {A} (x : A) : sends Q (ret x : Client A).
Proof. by apply sends_nothing. Qed.

Lemma sends_fail Q {A} e : sends Q (fail e : Client A).
Proof. by apply sends_nothing. Qed.

Lemma sends_lift Q {A} (r : result A ClientError) : sends Q (lift r : Client A).
Proof. by apply sends_nothing. Qed.

Lemma sends_crypto Q {A} (r : result A CryptoError) : sends Q (crypto r : Client A).
Proof. by apply sends_nothing. Qed.

Lemma sends_gets Q {A} (f : Authenticator (Recorded H) -> A) : sends Q (gets f : Client A).
Proof. by apply sends_nothing. Qed.

Lemma sends_limit Q limit : sends Q (modify (with_limit limit) : Client unit).
Proof. by apply sends_nothing. Qed.

Lemma sends_iv Q : sends Q (fresh_iv : Client bytes).
Proof. apply sends_nothing. intros a. unfold fresh_iv, getrandom. by destruct (os_random a) as [|[d|] rest]. Qed.

Lemma sends_key Q : sends Q (generate_key : Client bytes).
Proof. apply sends_nothing. intros a. unfold generate_key. by destruct (draw_platform_key _). Qed.

Lemma sends_exchange (Q : bytes -> Prop) request : Q request -> sends Q (exchange request : Client bytes).
Proof.
  intros Hq a. unfold exchange. cbn [conn_cbor recorded_connection].
  exists [request]. destruct (conn_cbor request (rec_hid (hid a))) as [h [b|e]]; cbn; split; try done; by constructor.
Qed.

Create HintDb sends.
#[local] Hint Resolve sends_ret sends_fail sends_lift sends_crypto sends_gets sends_limit sends_iv sends_key sends_exchange : sends.

Ltac sending := repeat first
  [ solve [eauto with sends nocore] | apply sends_bind; [|intros ?] | case_match ].

Lemma sends_within_limit (Q : bytes -> Prop) request : Q request -> sends Q (send_within_limit request : Client Value).
Proof. intros Hq. unfold send_within_limit. sending. Qed.

#[local] Hint Resolve sends_within_limit : sends.

Lemma sends_info (Q : bytes -> Prop) : Q [CLIENT_GET_INFO] -> sends Q (client_info : Client Info).
Proof. intros Hq. unfold client_info. sending. Qed.

#[local] Hint Resolve sends_info : sends.

Lemma sends_encoded (Q : bytes -> Prop) request :
  Q [CLIENT_GET_INFO] -> Q request -> sends Q (call_encoded request : Client Value).
Proof. intros Hi Hq. unfold call_encoded. sending. Qed.

Lemma sends_call (Q : bytes -> Prop) command parameters :
  Q [CLIENT_GET_INFO] -> (forall rest, Q (command :: rest)) -> sends Q (client_call command parameters : Client Value).
Proof. intros Hi Hq. by apply sends_encoded. Qed.

(** ** Which requests *)

(** The questions about the PIN that cost nothing: getInfo and pinRetries. *)
Definition asks_only (request : bytes) : Prop :=
  request = [CLIENT_GET_INFO] \/
  request = CLIENT_PIN :: into_writer (VMap [(int 1, protocol_value PROTOCOL); (int 2, int 1)]).

Lemma info_asks : sends asks_only (client_info : Client Info).
Proof. apply sends_info. by left. Qed.

Lemma retries_ask : sends asks_only (pin_retries : Client PinRetries).
Proof.
  unfold pin_retries. apply sends_bind; [apply sends_encoded; [by left|by right]|intros body]. sending.
Qed.

(** A credential is deleted by subcommand 6 of credential management alone. *)
Definition may_delete (request : bytes) : Prop :=
  exists head rest, request = [CREDENTIAL_MANAGEMENT; head; 0x01; 0x06] ++ rest.

Definition harmless (request : bytes) : Prop := ~ may_delete request.

Lemma other_command command rest : command <> CREDENTIAL_MANAGEMENT -> harmless (command :: rest).
Proof. intros Hc (h & l & E). by injection E as ->. Qed.

#[local] Hint Resolve other_command : sends.

Lemma pin_call_harmless parameters : sends harmless (client_call CLIENT_PIN parameters : Client Value).
Proof. apply sends_call; [by apply other_command|intros; by apply other_command]. Qed.

#[local] Hint Resolve pin_call_harmless : sends.

Lemma info_harmless : sends harmless (client_info : Client Info).
Proof. apply sends_info. by apply other_command. Qed.

Lemma retries_harmless : sends harmless (pin_retries : Client PinRetries).
Proof. unfold pin_retries. sending. Qed.

Lemma secret_harmless protocol : sends harmless (shared_secret protocol : Client (PlatformKeyAgreement * Value)).
Proof. unfold shared_secret. sending. Qed.

#[local] Hint Resolve info_harmless retries_harmless secret_harmless : sends.

Lemma token_harmless pin permission protocol : sends harmless (permission_token pin permission protocol : Client ClientToken).
Proof. unfold permission_token. sending. Qed.

#[local] Hint Resolve token_harmless : sends.

Lemma listing_harmless pin : sends harmless (listing_token pin : Client ClientToken).
Proof. unfold listing_token, read_only_management_token, read_only_management_token_with_protocol, management_token. sending. Qed.

Lemma subcommand_harmless head subcommand rest :
  subcommand <> 6 -> harmless ([CREDENTIAL_MANAGEMENT; head; 0x01; subcommand] ++ rest).
Proof. intros Hs (h & l & E). by injection E as _ ->. Qed.

Lemma management_harmless token subcommand parameters :
  subcommand <> 6 -> sends harmless (management token subcommand parameters : Client Value).
Proof.
  intros Hs. unfold management. case_match; [apply sends_fail|].
  apply sends_encoded; [by apply other_command|by apply subcommand_harmless].
Qed.

Context `{!CiboriumLaws}.

Lemma next_harmless subcommand :
  subcommand = 3 \/ subcommand = 5 -> sends harmless (management_next subcommand : Client Value).
Proof.
  intros Hs. unfold management_next. apply sends_encoded; [by apply other_command|].
  rewrite ciborium_writes by (destruct Hs as [->| ->]; done).
  destruct Hs as [->| ->]; intros (h & l & E); vm_compute in E; discriminate.
Qed.

Lemma nexts_harmless n subcommand :
  subcommand = 3 \/ subcommand = 5 -> sends harmless (next_times n subcommand : Client (list Value)).
Proof.
  intros Hs. induction n as [|n IH]; cbn [next_times]; [apply sends_ret|].
  apply sends_bind; [by apply next_harmless|intros v]. sending.
Qed.

Lemma enumerate_harmless first key subcommand :
  subcommand = 3 \/ subcommand = 5 -> sends harmless (enumerate first key subcommand : Client (list Value)).
Proof. intros Hs. unfold enumerate. apply sends_bind; [by apply nexts_harmless|intros v]. sending. Qed.

Lemma rps_harmless token rps : sends harmless (rps_passkeys token rps : Client (list Passkey)).
Proof.
  induction rps as [|rp rps IH]; cbn [rps_passkeys]; [apply sends_ret|].
  apply sends_bind; [apply sends_lift|intros hash]. apply sends_bind; [by apply management_harmless|intros first].
  apply sends_bind; [by apply enumerate_harmless; right|intros credentials].
  apply sends_bind; [apply sends_lift|intros found]. apply sends_bind; [exact IH|intros more]. apply sends_ret.
Qed.

Lemma passkeys_harmless token : sends harmless (passkeys token : Client (list Passkey)).
Proof.
  intros a. unfold passkeys.
  pose proof (management_harmless token 0x02 None ltac:(done) a) as Hm.
  assert (Hrest : forall first, sends harmless (let* rps := enumerate first 5 0x03 in rps_passkeys token rps)).
  { intros first. apply sends_bind; [by apply enumerate_harmless; left|intros rps]. apply rps_harmless. }
  destruct (management token 0x02 None a) as [a1 [first|e]]; cbn [fst] in Hm.
  - destruct Hm as (l & E & Hl), (Hrest first a1) as (l' & E' & Hl'). exists (l ++ l').
    rewrite E', E, app_assoc. split; [done|by apply Forall_app].
  - destruct e; try exact Hm. case_match; exact Hm.
Qed.

(** *** The deletion itself *)

(** The request that deletes the credential [id]. *)
Definition delete_request (token : ClientToken) (id : bytes) : bytes :=
  let parameters := into_writer (VMap [(int 2, public_key_descriptor id)]) in
  [CREDENTIAL_MANAGEMENT; 0xA4; 0x01; 0x06] ++ 0x02 :: parameters ++ token_fields token (0x06 :: parameters).

(** [call_encoded] sends its request once, after what it must know. *)
Lemma encoded_once (request : bytes) (a : Authenticator (Recorded H)) :
  exists l, Forall harmless l /\
    (rec_requests (hid (fst (call_encoded request a))) = rec_requests (hid a) ++ l \/
     rec_requests (hid (fst (call_encoded request a))) = rec_requests (hid a) ++ l ++ [request]).
Proof.
  destruct (call_encoded request a) as [b r] eqn:Er. cbn [fst]. unfold call_encoded in Er. unfold mbind_st at 1 in Er.
  cbn [gets] in Er. unfold mbind_st at 1 in Er.
  match type of Er with context [match ?f a with _ => _ end] =>
    set (first := f) in Er; assert (Hf : sends harmless first) by (subst first; sending) end.
  destruct (Hf a) as (l & E & Hl). exists l. split; [done|].
  destruct (first a) as [a1 [[]|e]]; cbn [fst] in E; [|injection Er as <- _; by left].
  unfold send_within_limit, mbind_st in Er. cbn [gets] in Er. case_match; [injection Er as <- _; by left|].
  unfold exchange in Er. cbn [conn_cbor recorded_connection] in Er. right. rewrite app_assoc, <- E.
  destruct (conn_cbor request _) as [h [v|e]]; injection Er as <- _; done.
Qed.

Lemma delete_once (token : ClientToken) (id : bytes) (a : Authenticator (Recorded H)) :
  exists l, Forall harmless l /\
    (rec_requests (hid (fst (client_delete token id a))) = rec_requests (hid a) ++ l \/
     rec_requests (hid (fst (client_delete token id a))) = rec_requests (hid a) ++ l ++ [delete_request token id]).
Proof.
  assert (Em : management token 0x06 (Some (VMap [(int 2, public_key_descriptor id)])) =
    if negb (ct_permission token =? PERMISSION_CM) then (fail (ClientStatus 0x33) : Client Value)
    else call_encoded (delete_request token id)) by reflexivity.
  unfold client_delete. rewrite Em. unfold mbind_st. destruct (negb _); [by exists []; split; [done|left; rewrite app_nil_r]|].
  destruct (encoded_once (delete_request token id) a) as (l & Hl & E). exists l. split; [done|].
  by destruct (call_encoded (delete_request token id) a) as [b [v|e]].
Qed.

End Requests.

(** ** Commands *)

Section Commands.

Context {H P : Type} `{Connection H} `{Crypto} `{Ciborium} `{Console P} `{Lowercase}.

#[local] Abbreviation Run := (KeyRun (Recorded H) P).
#[local] Abbreviation CommandM A := (M Run A CommandError).
#[local] Abbreviation Client A := (M (Authenticator (Recorded H)) A ClientError).

(** The requests a command has sent. *)
Definition sent (s : Run) : list bytes := rec_requests (hid (kr_key s)).

Definition command_sends (Q : bytes -> Prop) {A} (m : CommandM A) : Prop :=
  forall s, exists l, sent (fst (m s)) = sent s ++ l /\ Forall Q l.

Lemma command_nothing Q {A} (m : CommandM A) : (forall s, kr_key (fst (m s)) = kr_key s) -> command_sends Q m.
Proof. intros Hm s. exists []. unfold sent. by rewrite Hm, app_nil_r. Qed.

Lemma command_bind Q {A B} (m : CommandM A) (k : A -> CommandM B) :
  command_sends Q m -> (forall x, command_sends Q (k x)) -> command_sends Q (mbind_st m k).
Proof.
  intros Hm Hk s. unfold mbind_st. destruct (Hm s) as (l & E & Hl). destruct (m s) as [s1 [x|e]]; [|by exists l].
  cbn [fst] in E. destruct (Hk x s1) as (l' & E' & Hl'). exists (l ++ l'). rewrite E', E, app_assoc.
  split; [done|]. by apply Forall_app.
Qed.

Lemma command_ret Q {A} (x : A) : command_sends Q (ret x : CommandM A).
Proof. by apply command_nothing. Qed.

Lemma command_fail Q {A} e : command_sends Q (fail e : CommandM A).
Proof. by apply command_nothing. Qed.

Lemma command_lift Q {A} (r : result A CommandError) : command_sends Q (lift r : CommandM A).
Proof. by apply command_nothing. Qed.

Lemma command_guard Q b e : command_sends Q (guard b e : CommandM unit).
Proof. apply command_nothing. by destruct b. Qed.

Lemma command_pins Q {A} (m : M P A PinInputError) : command_sends Q (on_pins m : CommandM A).
Proof. apply command_nothing. intros s. unfold on_pins. by destruct (m _). Qed.

Lemma command_ask Q yes question : command_sends Q (ask_on_terminal yes question : CommandM bool).
Proof. apply command_nothing. intros s. unfold ask_on_terminal. by destruct (console_line _). Qed.

Lemma command_agreed Q yes question : command_sends Q (go_ahead yes question : CommandM bool).
Proof. unfold go_ahead. destruct yes; [apply command_ret|apply command_ask]. Qed.

Lemma command_try Q {A} (m : Client A) : sends Q m -> command_sends Q (try_key m : CommandM (result A ClientError)).
Proof.
  intros Hm s. unfold try_key, sent. specialize (Hm (kr_key s)). by destruct (m (kr_key s)).
Qed.

Lemma command_key_or Q {A} (m : Client A) (f : ClientError -> CommandM CommandError) :
  sends Q m -> (forall e, command_sends Q (f e)) -> command_sends Q (on_key_or m f : CommandM A).
Proof.
  intros Hm Hf. unfold on_key_or. apply command_bind; [by apply command_try|intros [x|e]]; [apply command_ret|].
  apply command_bind; [apply Hf|intros error; apply command_fail].
Qed.

Lemma command_key Q {A} (m : Client A) : sends Q m -> command_sends Q (on_key m : CommandM A).
Proof. intros Hm. apply command_key_or; [done|intros e; apply command_ret]. Qed.

Lemma usable_sends (Q : bytes -> Prop) : sends Q (pin_retries : Client PinRetries) -> command_sends Q (check_pin_usable : CommandM unit).
Proof.
  intros Hq. unfold check_pin_usable. apply command_bind; [by apply command_key|intros r].
  repeat case_match; first [apply command_fail|apply command_ret].
Qed.

Lemma require_sends (Q : bytes -> Prop) : sends Q (client_info : Client Info) -> command_sends Q (require_pin : CommandM unit).
Proof. intros Hq. unfold require_pin. apply command_bind; [by apply command_key|intros info; apply command_guard]. Qed.

(** *** A PIN that cannot be the key's *)

Definition implausible (e : PinInputError) : CommandError := Refused KInvalidInput (ImplausiblePin e).

(** A PIN turned down as implausible cost nothing. *)
Definition careful {A} (m : CommandM A) : Prop :=
  forall s s' e, m s = (s', Err (implausible e)) -> exists l, sent s' = sent s ++ l /\ Forall asks_only l.

Definition never_implausible {A} (m : CommandM A) : Prop := forall s s' e, m s <> (s', Err (implausible e)).

Lemma careful_asks {A} (m : CommandM A) : command_sends asks_only m -> careful m.
Proof. intros Hm s s' e E. specialize (Hm s). by rewrite E in Hm. Qed.

Lemma careful_never {A} (m : CommandM A) : never_implausible m -> careful m.
Proof. intros Hm s s' e E. by destruct (Hm s s' e). Qed.

Lemma careful_bind {A B} (m : CommandM A) (k : A -> CommandM B) :
  command_sends asks_only m -> (forall x, careful (k x)) -> careful (mbind_st m k).
Proof.
  intros Hm Hk s s' e. unfold mbind_st. specialize (Hm s). destruct (m s) as [s1 [x|e1]]; cbn [fst] in Hm.
  - destruct Hm as (l & E & Hl). intros Er. destruct (Hk x s1 s' e Er) as (l' & E' & Hl'). exists (l ++ l').
    rewrite E', E, app_assoc. split; [done|]. by apply Forall_app.
  - by intros [= <- _].
Qed.

Lemma careful_then {A B} (m : CommandM A) (k : A -> CommandM B) :
  careful m -> (forall x, never_implausible (k x)) -> careful (mbind_st m k).
Proof.
  intros Hm Hk s s' e. unfold mbind_st. specialize (Hm s). destruct (m s) as [s1 [x|e1]].
  - intros Er. by destruct (Hk x s1 s' e).
  - intros [= <- ->]. by apply (Hm s1 e).
Qed.

Lemma never_bind {A B} (m : CommandM A) (k : A -> CommandM B) :
  never_implausible m -> (forall x, never_implausible (k x)) -> never_implausible (mbind_st m k).
Proof.
  intros Hm Hk s s' e. unfold mbind_st. destruct (m s) as [s1 [x|e1]] eqn:E; [by apply Hk|].
  intros [= <- ->]. by destruct (Hm s s1 e).
Qed.

Lemma never_ret {A} (x : A) : never_implausible (ret x : CommandM A).
Proof. done. Qed.

Lemma never_pins {A} (m : M P A PinInputError) : never_implausible (on_pins m : CommandM A).
Proof. intros s s' e. unfold on_pins. by destruct (m _) as [c [x|e']]. Qed.

Lemma never_agreed yes question : never_implausible (go_ahead yes question : CommandM bool).
Proof.
  intros s s' e. unfold go_ahead, confirm_on_terminal, ask_on_terminal. destruct yes; [done|].
  by destruct (console_line _) as [c [[|b l]|code]].
Qed.

(** An error made of the key's answer is about the answer. *)
Definition about_answer (m : CommandM CommandError) : Prop :=
  forall s, match snd (m s) with Ok x | Err x => forall e, x <> implausible e end.

Lemma never_key_or {A} (m : Client A) (f : ClientError -> CommandM CommandError) :
  (forall e, about_answer (f e)) -> never_implausible (on_key_or m f : CommandM A).
Proof.
  intros Hf s s' e. unfold on_key_or, try_key, mbind_st. destruct (m (kr_key s)) as [key [x|er]]; [done|].
  specialize (Hf er (kr_with_key s key)). destruct (f er _) as [s1 [x|x]]; cbn [snd] in Hf; intros [= _ Ex]; by apply (Hf e).
Qed.

Lemma pin_message_answer er retries e : pin_error_message er retries <> implausible e.
Proof. unfold pin_error_message. by repeat case_match. Qed.

Lemma client_error_answer er e : client_error er <> implausible e.
Proof. unfold client_error. by repeat case_match. Qed.

Lemma never_key {A} (m : Client A) : never_implausible (on_key m : CommandM A).
Proof. apply never_key_or. intros er s e. apply client_error_answer. Qed.

Lemma pin_error_answer er : about_answer (pin_error er : CommandM CommandError).
Proof.
  intros s. unfold pin_error. destruct (has_status _ er); [|intros ?; apply pin_message_answer].
  unfold mbind_st, try_key. destruct (pin_retries (kr_key s)) as [key r]. intros ?. apply pin_message_answer.
Qed.

Lemma new_pin_answer minimum same er : about_answer (new_pin_error minimum same er : CommandM CommandError).
Proof.
  unfold new_pin_error. destruct (has_status _ er); [|apply pin_error_answer]. intros s. unfold mbind_st, try_key.
  destruct (client_info (kr_key s)) as [key r]. intros ?. unfold policy_refusal. cbn [snd ret].
  by repeat (case_match; try discriminate).
Qed.

Lemma token_answer er : about_answer (token_error er : CommandM CommandError).
Proof. unfold token_error. destruct (has_status _ er); [by intros ? ?|apply pin_error_answer]. Qed.

Lemma set_pin_answer minimum er : about_answer (set_pin_error minimum er : CommandM CommandError).
Proof. unfold set_pin_error. destruct (has_status _ er); [by intros ? ?|apply new_pin_answer]. Qed.

Lemma config_answer info er : about_answer (config_error info er : CommandM CommandError).
Proof.
  assert (Hrest : forall b c d : bool, about_answer
    (if b then (ret (Refused KInvalidInput (CannotLower (minimum_pin_length info))) : CommandM CommandError)
     else if c then ret (Refused KInvalidInput (RpListTooLong (default 8 (info_max_rp_ids_for_min_pin_length info))))
     else if d then ret (Refused KInvalidInput AlwaysUvNeedsPin) else pin_error er)).
  { intros [] [] []; first [by intros ? ?|apply pin_error_answer]. }
  unfold config_error. destruct er; first [by intros ? ?|apply Hrest].
Qed.

Create HintDb careful.
#[local] Hint Resolve never_ret never_pins never_agreed never_key pin_error_answer new_pin_answer token_answer set_pin_answer
  config_answer command_key command_pins command_lift command_agreed retries_ask info_asks command_ret command_fail
  usable_sends require_sends : careful.
#[local] Hint Extern 4 (never_implausible (on_key_or _ _)) => apply never_key_or; intros : careful.

Ltac nevers := repeat first [ solve [eauto with careful nocore] | apply never_bind; [|intros ?] | case_match ].

Lemma acquire_careful request : careful (acquire_pin_token request : CommandM ClientToken).
Proof.
  unfold acquire_pin_token. apply careful_bind; [eauto with careful nocore|intros _].
  apply careful_bind; [eauto with careful nocore|intros pin]. apply careful_bind; [eauto with careful nocore|intros pin'].
  apply careful_never. nevers.
Qed.

Lemma config_token_careful info : careful (command_config_token info : CommandM (option ClientToken)).
Proof.
  unfold command_config_token. case_match; [by apply careful_never|].
  apply careful_then; [apply acquire_careful|intros token; nevers].
Qed.

Lemma configure_careful action : careful (configure action : CommandM (list OutLine)).
Proof.
  unfold configure. apply careful_bind; [eauto with careful nocore|intros info]. destruct action as [action|]; [|by apply careful_never].
  case_match; [by apply careful_never|]. destruct action as [enabled|minimum rp_ids yes|yes|].
  - unfold configure_always_uv. case_match.
    + apply careful_then; [|intros _; nevers]. apply careful_then; [apply config_token_careful|intros token; nevers].
    + apply careful_never. nevers.
  - unfold configure_minimum. apply careful_bind; [eauto with careful nocore|intros go]. case_match; [by apply careful_never|].
    apply careful_then; [apply config_token_careful|intros token]. cbv zeta. nevers.
  - unfold configure_complexity, report_complexity. case_match; [|by apply careful_never]. case_match; [apply careful_never; nevers|].
    apply careful_bind; [eauto with careful nocore|intros go]. case_match; [by apply careful_never|].
    apply careful_then; [apply config_token_careful|intros token; nevers].
  - unfold configure_force_change. case_match; [by apply careful_never|].
    apply careful_then; [apply config_token_careful|intros token; nevers].
Qed.

Lemma set_or_change_careful : careful (set_or_change_pin : CommandM PinChange).
Proof.
  unfold set_or_change_pin. apply careful_bind; [eauto with careful nocore|intros info]. cbv zeta.
  destruct (info_pin_set info) as [[]|]; [|apply careful_never; nevers|by apply careful_never].
  do 3 (apply careful_bind; [eauto with careful nocore|intros ?]). apply careful_never. nevers.
Qed.

Lemma list_careful : careful (list_passkeys : CommandM (option (list (list Z)))).
Proof.
  unfold list_passkeys. apply careful_bind; [eauto with careful nocore|intros _].
  apply careful_then; [apply acquire_careful|intros token; nevers].
Qed.

Lemma matching_answer found query e : matching_passkey found query <> Err (implausible e).
Proof. unfold matching_passkey. by repeat case_match. Qed.

Lemma delete_careful query yes : careful (delete_passkey query yes : CommandM bool).
Proof.
  unfold delete_passkey, command_management_token. apply careful_then; [|intros token].
  - apply careful_bind; [eauto with careful nocore|intros _]. apply acquire_careful.
  - apply never_bind; [nevers|intros found]. apply never_bind; [|intros p; nevers].
    intros s s' e. unfold lift. intros [= _ E]. by destruct (matching_answer found query e).
Qed.

(** A PIN that could not be the key's costs no retry: a command that turned it
    down had sent nothing but questions. *)
Theorem implausible_pin_costs_nothing :
  careful (set_or_change_pin : CommandM PinChange) /\ (forall action, careful (configure action : CommandM (list OutLine))) /\
  careful (list_passkeys : CommandM (option (list (list Z)))) /\
  (forall query yes, careful (delete_passkey query yes : CommandM bool)).
Proof.
  split; [exact set_or_change_careful|]. split; [exact configure_careful|]. split; [exact list_careful|exact delete_careful].
Qed.

(** *** Deleting a passkey *)

(** The one passkey of [found] that [query] names. *)
Definition named_alone (query : list Z) (p : Passkey) (found : list Passkey) : Prop :=
  exists before after, found = before ++ p :: after /\ named_by (lowercase query) p = true /\
    Forall (fun q => named_by (lowercase query) q = false) (before ++ after).

Lemma filter_none {A} (f : A -> bool) l : List.filter f l = [] -> Forall (fun x => f x = false) l.
Proof.
  induction l as [|x l IH]; [constructor|]. cbn [List.filter]. destruct (f x) eqn:E; [done|]. constructor; [done|by apply IH].
Qed.

Lemma filter_one {A} (f : A -> bool) l x : List.filter f l = [x] ->
  exists before after, l = before ++ x :: after /\ f x = true /\ Forall (fun y => f y = false) (before ++ after).
Proof.
  induction l as [|y l IH]; [done|]. cbn [List.filter]. destruct (f y) eqn:E.
  - intros [= -> Hn]. exists [], l. split; [done|]. split; [done|]. by apply filter_none.
  - intros Hx. destruct (IH Hx) as (before & after & -> & Ht & Hf). exists (y :: before), after.
    split; [done|]. split; [done|]. by constructor.
Qed.

Lemma filter_others {A} (f : A -> bool) l : Forall (fun y => f y = false) l -> List.filter f l = [].
Proof. induction 1 as [|x l Hx _ IH]; [done|]. cbn [List.filter]. by rewrite Hx. Qed.

(** [matching_passkey] finds a passkey exactly when the query names it alone. *)
Theorem matching_passkey_spec found query p :
  matching_passkey found query = Ok p <-> lowercase query <> [] /\ named_alone query p found.
Proof.
  unfold matching_passkey. case_bool_decide as Hq; [by split; [|intros [? _]]|]. split.
  - destruct (List.filter _ found) as [|x [|y l]] eqn:E; [done| |done]. intros [= ->]. split; [done|]. by apply filter_one.
  - intros [_ (before & after & -> & Ht & Hf)]. rewrite List.filter_app. cbn [List.filter]. rewrite Ht.
    apply Forall_app in Hf as [Hb Ha]. by rewrite !filter_others.
Qed.

(** The user was asked [question] and said yes, or had said so beforehand. *)
Definition consented (yes : bool) (question : Question) (s s' : Run) : Prop :=
  yes = true \/
  kr_asked s' = question :: kr_asked s /\
  exists c answer, console_line c = (kr_console s', Ok answer) /\ is_yes answer false = true.

(** A command that puts no question to the user. *)
Definition unasked {A} (m : CommandM A) : Prop := forall s, kr_asked (fst (m s)) = kr_asked s.

Lemma unasked_bind {A B} (m : CommandM A) (k : A -> CommandM B) :
  unasked m -> (forall x, unasked (k x)) -> unasked (mbind_st m k).
Proof.
  intros Hm Hk s. unfold mbind_st. specialize (Hm s). destruct (m s) as [s1 [x|e]]; [|done].
  cbn [fst] in Hm. by rewrite Hk.
Qed.

Lemma unasked_ret {A} (x : A) : unasked (ret x : CommandM A).
Proof. done. Qed.

Lemma unasked_fail {A} e : unasked (fail e : CommandM A).
Proof. done. Qed.

Lemma unasked_lift {A} (r : result A CommandError) : unasked (lift r : CommandM A).
Proof. done. Qed.

Lemma unasked_guard b e : unasked (guard b e : CommandM unit).
Proof. by destruct b. Qed.

Lemma unasked_try {A} (m : Client A) : unasked (try_key m : CommandM (result A ClientError)).
Proof. intros s. unfold try_key. by destruct (m _). Qed.

Lemma unasked_pins {A} (m : M P A PinInputError) : unasked (on_pins m : CommandM A).
Proof. intros s. unfold on_pins. by destruct (m _). Qed.

Create HintDb unasked.
#[local] Hint Resolve unasked_ret unasked_fail unasked_lift unasked_guard unasked_try unasked_pins : unasked.

Ltac unasks := repeat first [ solve [eauto with unasked nocore] | apply unasked_bind; [|intros ?] | case_match ].

Lemma unasked_key_or {A} (m : Client A) (f : ClientError -> CommandM CommandError) :
  (forall e, unasked (f e)) -> unasked (on_key_or m f : CommandM A).
Proof. intros Hf. unfold on_key_or. unasks. Qed.

Lemma unasked_key {A} (m : Client A) : unasked (on_key m : CommandM A).
Proof. apply unasked_key_or. intros e. apply unasked_ret. Qed.

Lemma token_error_unasked e : unasked (token_error e : CommandM CommandError).
Proof. unfold token_error, pin_error. unasks. Qed.

#[local] Hint Resolve unasked_key token_error_unasked : unasked.

Lemma management_unasked : unasked (command_management_token : CommandM ClientToken).
Proof.
  unfold command_management_token, require_pin, acquire_pin_token, check_pin_usable. unasks.
Qed.

Lemma token_error_sends e : command_sends harmless (token_error e : CommandM CommandError).
Proof.
  unfold token_error, pin_error. repeat case_match; try apply command_ret.
  apply command_bind; [apply command_try, retries_harmless|intros r; apply command_ret].
Qed.

Lemma management_sends : command_sends harmless (command_management_token : CommandM ClientToken).
Proof.
  unfold command_management_token, acquire_pin_token. apply command_bind; [apply require_sends, info_harmless|intros _].
  apply command_bind; [apply usable_sends, retries_harmless|intros _]. apply command_bind; [apply command_pins|intros pin].
  apply command_bind; [apply command_lift|intros pin']. apply command_key_or; [apply token_harmless|exact token_error_sends].
Qed.

Lemma go_ahead_yes yes question (s s' : Run) :
  go_ahead yes question s = (s', Ok true) -> kr_key s' = kr_key s /\ consented yes question s s'.
Proof.
  unfold go_ahead, confirm_on_terminal, ask_on_terminal, consented. destruct yes; [intros [= <-]; by split; [|left]|].
  destruct (console_line _) as [c r] eqn:Ec. destruct r as [[|b l]|code]; intros [= <- E]; [].
  split; [done|]. right. split; [done|]. by exists (kr_console s), (b :: l).
Qed.

Lemma run_sends Q {A} (m : CommandM A) s s' r : command_sends Q m -> m s = (s', r) -> exists l, sent s' = sent s ++ l /\ Forall Q l.
Proof. intros Hm E. specialize (Hm s). by rewrite E in Hm. Qed.

Lemma key_keeps {A} (m : Client A) (s s' : Run) (r : result A CommandError) :
  on_key m s = (s', r) -> kr_asked s' = kr_asked s /\ kr_console s' = kr_console s /\ kr_key s' = fst (m (kr_key s)) /\
    forall x, r = Ok x -> snd (m (kr_key s)) = Ok x.
Proof.
  unfold on_key, on_key_or, try_key, mbind_st. destruct (m (kr_key s)) as [key [x|e]]; intros [= <- <-];
    (split; [done|]; split; [done|]; split; [done|]); [by intros y [= ->]|done].
Qed.

Lemma go_ahead_sent yes question (s s' : Run) r : go_ahead yes question s = (s', r) -> sent s' = sent s.
Proof.
  unfold go_ahead, confirm_on_terminal, ask_on_terminal, sent. destruct yes; [by intros [= <- _]|].
  destruct (console_line _) as [c x]. by intros [= <- _].
Qed.

Context `{!CiboriumLaws}.

(** C20: [pqkey passkeys delete] sends at most one request that deletes, its
    last, once the user consented; and it deletes the one passkey, of those the
    key listed, whose site, user name or ID contains the query. *)
Theorem deletes_only_the_named (query : list Z) (yes : bool) (s s' : Run) (r : result bool CommandError) :
  delete_passkey query yes s = (s', r) ->
  exists l, Forall harmless l /\
    (sent s' = sent s ++ l \/
     exists token found p (listing listed : Authenticator (Recorded H)) rest,
       sent s' = sent s ++ l ++ [delete_request token (pk_credential_id p)] /\
       passkeys token listing = (listed, Ok found) /\ sent s ++ l = rec_requests (hid listed) ++ rest /\ named_alone query p found /\
       consented yes (AskDelete (user p) (site p)) s s').
Proof.
  intros Hr. unfold delete_passkey in Hr. unfold mbind_st at 1 in Hr.
  destruct (command_management_token s) as [s1 [token|e]] eqn:E1; pose proof (run_sends harmless _ _ _ _ management_sends E1) as (l1 & S1 & Q1);
    [|injection Hr as <- _; exists l1; auto].
  pose proof (management_unasked s) as A1. rewrite E1 in A1. cbn [fst] in A1.
  unfold mbind_st at 1 in Hr. destruct (on_key (passkeys token) s1) as [s2 [found|e]] eqn:E2;
    pose proof (run_sends harmless _ _ _ _ (command_key _ _ (passkeys_harmless token)) E2) as (l2 & S2 & Q2);
    assert (Q12 : Forall harmless (l1 ++ l2)) by (by apply Forall_app);
    assert (S12 : sent s2 = sent s ++ l1 ++ l2) by (by rewrite S2, S1, app_assoc);
    [|injection Hr as <- _; exists (l1 ++ l2); auto].
  pose proof (unasked_key (passkeys token) s1) as A2. rewrite E2 in A2. cbn [fst] in A2.
  unfold mbind_st at 1, lift in Hr. destruct (matching_passkey found query) as [p|e] eqn:Em; [|injection Hr as <- _; exists (l1 ++ l2); auto].
  unfold mbind_st at 1 in Hr. destruct (go_ahead yes _ s2) as [s3 [[]|e]] eqn:E3; cbn [negb] in Hr.
  2: { apply go_ahead_sent in E3. injection Hr as <- _. exists (l1 ++ l2). split; [done|left]. by rewrite E3. }
  2: { apply go_ahead_sent in E3. injection Hr as <- _. exists (l1 ++ l2). split; [done|left]. by rewrite E3. }
  apply matching_passkey_spec in Em as [_ Hn]. apply key_keeps in E2 as (_ & _ & K2 & F2). specialize (F2 found eq_refl).
  pose proof (go_ahead_sent _ _ _ _ _ E3) as S3. apply go_ahead_yes in E3 as [_ Hc].
  unfold mbind_st in Hr. destruct (on_key (client_delete token (pk_credential_id p)) s3) as [s4 x] eqn:E4.
  apply key_keeps in E4 as (A4 & C4 & K4 & _).
  assert (s' = s4) as -> by (destruct x; by injection Hr).
  destruct (delete_once token (pk_credential_id p) (kr_key s3)) as (l4 & Q4 & S4). rewrite <- K4 in S4.
  fold (sent s4) (sent s3) in S4. rewrite S3, S12 in S4. exists ((l1 ++ l2) ++ l4).
  split; [by apply Forall_app|]. rewrite <- !app_assoc in S4. rewrite <- !app_assoc. destruct S4 as [S4|S4]; [by left|right].
  exists token, found, p, (kr_key s1), (kr_key s2), l4. split; [by rewrite S4, <- !app_assoc|].
  split; [rewrite K2, <- F2; by destruct (passkeys token (kr_key s1))|].
  split; [fold (sent s2); by rewrite S12, <- !app_assoc|]. split; [done|].
  destruct Hc as [Hy|(Ha & Hl)]; [by left|right]. rewrite C4, A4, Ha, A2, A1. done.
Qed.

End Commands.

(** ** Reset *)

Section Resets.

Context {E H : Type} `{Connection H} `{Crypto} `{Ciborium} `{KeyHost E H}.

#[local] Abbreviation ResetM A := (M (ResetRun E) A CommandError).

Lemma replug_asked (s s' : ResetRun E) (r : result (Authenticator H) CommandError) :
  replug_for_reset s = (s', r) -> rr_asked s' = rr_asked s.
Proof.
  unfold replug_for_reset, on_host, modify, mbind_st. destruct (host_replug _) as [h [[]|e]]; [|by intros [= <- _]].
  cbn [rr_host rr_with_host]. destruct (host_connect h) as [h' r']. by intros [= <- _].
Qed.

Lemma before_asked running yes (s s' : ResetRun E) r : blocked_before running yes s = (s', r) -> rr_asked s' = rr_asked s.
Proof.
  unfold blocked_before. destruct (_ || _); [by intros [= <- _]|].
  destruct (host_open _) as [h [key|]]; [|by intros [= <- _]]. destruct (pin_blocked key). by intros [= <- _].
Qed.

(** A reset goes ahead when the PIN was not found blocked before the restart,
    or is blocked after it; a key whose PIN the restart gave back, or that
    cannot say, is reset only after the user was told and said yes. *)
Theorem reset_asks_again (running : bool) (s s' : ResetRun E) (key : Authenticator H) :
  restarted_for_reset running false s = (s', Ok (Some key)) ->
  exists s1 blocked, blocked_before running false s = (s1, Ok blocked) /\
    ((rr_asked s' = rr_asked s /\
      (blocked = false \/ exists s2 k k', replug_for_reset s1 = (s2, Ok k) /\ pin_blocked k = (k', Ok true))) \/
     (exists now, now <> Ok true /\ rr_asked s' = AskUnblocked now :: rr_asked s /\
        exists e e' answer, host_line e = (e', Ok answer) /\ is_yes answer false = true)).
Proof.
  unfold restarted_for_reset. intros Hr. unfold mbind_st at 1 in Hr.
  destruct (blocked_before running false s) as [s1 [blocked|e]] eqn:E1; [|done]. exists s1, blocked. split; [done|].
  apply before_asked in E1. unfold mbind_st at 1 in Hr. destruct (replug_for_reset s1) as [s2 [k|e]] eqn:E2; [|done].
  pose proof (replug_asked _ _ _ E2) as A2. destruct blocked; cbn [negb] in Hr.
  2: { injection Hr as <- _. left. split; [congruence|by left]. }
  destruct (pin_blocked k) as [k' now] eqn:Ek.
  assert (Hask : (let* go := ask_before_reset (AskUnblocked now) in
      modify (fun s => rr_with_host s (host_close k' (rr_host s))) ;;*
      if negb go then ret None else let* key := replug_for_reset in ret (Some key)) s2 = (s', Ok (Some key)) ->
    now <> Ok true -> exists now, now <> Ok true /\ rr_asked s' = AskUnblocked now :: rr_asked s /\
        exists e e' answer, host_line e = (e', Ok answer) /\ is_yes answer false = true).
  { clear Hr. intros Hr Hn. exists now. split; [done|]. unfold ask_before_reset, modify, ret, mbind_st in Hr.
    destruct (host_line (rr_host s2)) as [h a] eqn:El. destruct a as [[|b l]|code]; [done| |done].
    destruct (is_yes (b :: l) false) eqn:Ey; [|done]. cbn [negb] in Hr.
    match type of Hr with context [replug_for_reset ?x] => destruct (replug_for_reset x) as [s3 [k3|e]] eqn:E3; [|done] end.
    injection Hr as <- _.
    apply replug_asked in E3. cbn in E3. split; [congruence|]. by exists (rr_host s2), h, (b :: l). }
  destruct now as [[]|e]; [|right; by apply Hask|right; by apply Hask].
  injection Hr as <- _. left. split; [congruence|]. right. by exists s2, k, k'.
Qed.

(** A key that was not running and was restarted is stopped again before
    [pqkey reset] reports anything but an error. *)
Lemma reset_stops_again (yes reset : bool) (s s' : ResetRun E) :
  snd (host_running (rr_host s)) = Ok false -> reset_command yes s = (s', Ok reset) ->
  rr_restarted s = false -> rr_restarted s' = true -> exists e, host_unplug e = (rr_host s', Ok tt).
Proof.
  unfold reset_command. intros Hf Hr Hs Hs'. unfold mbind_st at 1, on_host at 1 in Hr.
  destruct (host_running (rr_host s)) as [h r]. cbn [snd] in Hf. subst r.
  unfold mbind_st at 1 in Hr. destruct ((if yes then ret true else ask_before_reset AskReset) _) as [s1 [go|e]] eqn:E1; [|done].
  assert (R1 : rr_restarted s1 = false).
  { destruct yes; [by injection E1 as <- _|]. unfold ask_before_reset in E1.
    destruct (host_line _) as [c r]. injection E1 as <- _. done. }
  destruct go; cbn [negb] in Hr; [|injection Hr as <- _; congruence].
  match type of Hr with (let (_, _) := ?x in _) = _ => destruct x as [s2 r2] end.
  unfold unplug_again in Hr. cbn [orb] in Hr. destruct (rr_restarted s2) eqn:R2; cbn [negb] in Hr.
  - unfold on_host in Hr. destruct (host_unplug (rr_host s2)) as [h' [[]|e]] eqn:Eu; injection Hr as <- Hd.
    + by exists (rr_host s2).
    + by destruct r2.
  - injection Hr as <- _. congruence.
Qed.

End Resets.

(** ** What is printed *)

Lemma digit_displayed n : 0 <= n < 10 -> displayed (48 + n) = true.
Proof. intros Hn. unfold displayed, is_invisible_format, in_char_range, is_control, is_whitespace. lia. Qed.

Lemma digits_displayed fuel n after : 0 <= n -> all_displayed after -> all_displayed (digits_from fuel n after).
Proof.
  revert n after. induction fuel as [|fuel IH]; intros n after Hn Ha; [done|]. cbn [digits_from].
  assert (Ha' : all_displayed (48 + n mod 10 :: after)).
  { constructor; [|done]. apply digit_displayed. apply Z.mod_pos_bound. lia. }
  case_match; [done|]. apply IH; [|done]. apply Z.div_pos; lia.
Qed.

Lemma algorithm_displayed alg : all_displayed (algorithm alg).
Proof.
  assert (Hs : forall n, all_displayed (ascii_bytes "COSE " ++ signed_digits n)).
  { intros n. apply Forall_app. split; [by apply literal_displayed|]. unfold signed_digits, digits_of.
    destruct (Z.ltb_spec n 0); [constructor; [done|]|]; apply digits_displayed; (lia || constructor). }
  unfold algorithm. destruct alg as [n|]; [|by apply literal_displayed]. case_match; [|apply Hs].
  destruct (alg_try_from n) as [a|e]; [|apply Hs]. apply literal_displayed. by destruct a.
Qed.

Lemma hex_displayed id : bytes_ok id -> all_displayed (hex id).
Proof.
  assert (Hd : forall n, 0 <= n < 16 -> displayed (hex_digit n) = true).
  { intros n Hn. unfold hex_digit. destruct (Z.ltb_spec n 10); [apply digit_displayed; lia|]. unfold displayed, is_invisible_format, in_char_range, is_control, is_whitespace. lia. }
  unfold hex. induction 1 as [|b id Hb _ IH]; [constructor|]. cbn [flat_map app]. unfold is_byte in Hb. constructor; [|constructor; [|done]].
  - apply Hd. rewrite Z.shiftr_div_pow2 by lia. split; [apply Z.div_pos; lia|apply Z.div_lt_upper_bound; lia].
  - apply Hd. change 0x0f with (Z.ones 4). rewrite Z.land_ones by lia. apply Z.mod_pos_bound. lia.
Qed.

Lemma site_displayed p : all_displayed (site p).
Proof.
  unfold site, shown_site. destruct (sanitise _ _ _) as [u|] eqn:Es; [|by apply literal_displayed].
  by apply sanitise_displayed in Es as [? _]; [|unfold MAX_COLUMN_CHARS; lia].
Qed.

Lemma name_displayed name u : shown_name name = Some u -> all_displayed u.
Proof.
  unfold shown_name. destruct name; [|done]. intros Es. by apply sanitise_displayed in Es as [? _]; [|unfold MAX_COLUMN_CHARS; lia].
Qed.

Lemma user_column_displayed p : all_displayed (user p).
Proof.
  unfold user, shown_names. destruct (shown_name (pk_user_name p)) as [n|] eqn:En, (shown_name (pk_user_display_name p)) as [d|] eqn:Ed;
    try apply name_displayed in En; try apply name_displayed in Ed; cbn [default]; try done; [|by apply literal_displayed].
  case_match; cbn [default]; displays.
Qed.

(** Every cell of a row is displayed as itself. *)
Abbreviation cells_displayed := (Forall (fun cell => all_displayed cell)).

Lemma row_displayed p : bytes_ok (pk_credential_id p) -> cells_displayed (fst (table_row p)).
Proof.
  intros Hid. unfold table_row. cbn [fst]. repeat constructor.
  - apply site_displayed.
  - apply user_column_displayed.
  - apply algorithm_displayed.
  - by apply Forall_take, hex_displayed.
Qed.

Lemma insert_row_all (R : list (list Z) * bool -> Prop) row rows : R row -> Forall R rows -> Forall R (insert_row row rows).
Proof.
  intros Hr. induction 1 as [|other rows Ho Hrs IH]; cbn [insert_row]; [by repeat constructor|].
  destruct (row_cmp _ _); by repeat constructor.
Qed.

Lemma sort_rows_all (R : list (list Z) * bool -> Prop) rows : Forall R rows -> Forall R (sort_rows rows).
Proof. induction 1 as [|row rows Hr _ IH]; [constructor|]. by apply insert_row_all. Qed.

Lemma payment_displayed row : cells_displayed (fst row) -> cells_displayed (with_payment row).
Proof.
  unfold with_payment. destruct row as [cells payment]. cbn [fst snd]. intros Hc.
  assert (Hp : all_displayed (ascii_bytes (if payment then "enabled" else "-"))) by (apply literal_displayed; by destruct payment).
  destruct cells as [|a [|b [|c [|d [|e l]]]]]; try done.
  repeat match goal with Hx : cells_displayed (_ :: _) |- _ => apply Forall_cons in Hx as [? ?] end. by repeat constructor.
Qed.

Lemma line_displayed column rows row : cells_displayed row -> all_displayed (table_line column rows row).
Proof.
  revert column. induction row as [|cell row IH]; intros column Hr; [constructor|].
  apply Forall_cons in Hr as [Hc Hr]. cbn [table_line]. destruct row as [|next row]; [done|].
  apply Forall_app. split; [done|]. apply Forall_app. split; [|by apply IH].
  apply Forall_forall. intros c Hc'. apply list_elem_of_In, repeat_spec in Hc' as ->. done.
Qed.

(** Whatever sites put into their names, the table of passkeys holds only
    characters that display as themselves: no control character, no line
    break, no invisible or direction-changing character, so nothing a site
    chose can move the cursor or forge a row. *)
Theorem passkey_table_inert (found : list Passkey) :
  Forall (fun p => bytes_ok (pk_credential_id p)) found ->
  Forall (fun line => all_displayed line) (passkey_table found) /\ length (passkey_table found) = S (length found).
Proof.
  intros Hids. assert (Hrows : Forall (fun row => cells_displayed (fst row)) (sort_rows (map table_row found))).
  { apply sort_rows_all, Forall_fmap. by eapply Forall_impl; [exact Hids|exact row_displayed]. }
  unfold passkey_table. split.
  - apply Forall_fmap. constructor.
    + apply line_displayed. by repeat constructor; apply literal_displayed.
    + apply Forall_fmap. eapply Forall_impl; [exact Hrows|]. intros row Hr. by apply line_displayed, payment_displayed.
  - rewrite length_map. cbn [length]. f_equal. rewrite length_map.
    assert (Hl : forall rows, length (sort_rows rows) = length rows).
    { assert (Hi : forall row rows, length (insert_row row rows) = S (length rows)).
      { intros row rows. induction rows as [|other rows IH]; [done|]. cbn [insert_row]. destruct (row_cmp _ _); cbn [length]; by rewrite ?IH. }
      intros rows. induction rows as [|row rows IH]; [done|]. change (sort_rows (row :: rows)) with (insert_row row (sort_rows rows)). by rewrite Hi, IH. }
    by rewrite Hl, length_map.
Qed.

(** ** Runs *)

Module KeyCommandsWitness.

(** Text already normalized, in ASCII. *)
#[local] Instance ascii_normalization : Normalization := {| nfc := fun t => t |}.

#[local] Instance ascii_lowercase : Lowercase := {| lowercase := map ascii_lower |}.

(** A key with PIN "1234" and three passkeys, two of them of one site, and
    standard input. *)
Definition at_key (input : bytes) : KeyRun (Recorded (CtapApp MemoryStore)) bytes := {|
  kr_key := {| hid := {| rec_hid := CredMgmtWitness.managing_engine; rec_requests := [] |}; max_msg_size := None;
               os_random := repeat (Some (fun _ => 5)) 4 |};
  kr_console := input; kr_asked := []
|}.

(** Standard input, with [/] for the end of a line. *)
Definition typed (input : string) : bytes := map (fun c => if c =? 47 then 10 else c) (ascii_bytes input).

Definition query_one : list Z := ascii_bytes "C.D".

Definition query_two : list Z := ascii_bytes "a.b".

Definition start : KeyRun (Recorded (CtapApp MemoryStore)) bytes := at_key (typed "1234/y/").

Definition deleted : KeyRun (Recorded (CtapApp MemoryStore)) bytes * result bool CommandError :=
  delete_passkey query_one false start.

Lemma deleted_is : delete_passkey query_one false start = deleted.
Proof. unfold deleted. reflexivity. Qed.

(** The query names one passkey, the user says yes, and the last of ten
    requests deletes it. *)
Lemma deletion_runs :
  snd deleted = Ok true /\ length (rec_requests (hid (kr_key (fst deleted)))) = 10%nat /\
  List.map (firstn 4) (drop 9 (rec_requests (hid (kr_key (fst deleted))))) = [[0x0A; 0xA4; 0x01; 0x06]] /\
  kr_asked (fst deleted) = [AskDelete (ascii_bytes "-") (ascii_bytes "c.d")].
Proof. vm_compute. done. Qed.

(** A query that names two passkeys deletes none, and asks nothing. *)
Example ambiguous_query :
  match snd (delete_passkey query_two false start) with Err (Refused KInvalidInput (PasskeysMatch _ 2 _)) => true | _ => false end = true /\
  kr_asked (fst (delete_passkey query_two false start)) = [].
Proof. vm_compute. done. Qed.

(** A PIN too short to be the key's costs two questions and no retry. *)
Example short_pin :
  snd (delete_passkey query_two false (at_key (typed "123/y/"))) = Err (implausible (PinTooShort MIN_PIN_CODE_POINTS)) /\
  length (rec_requests (hid (kr_key (fst (delete_passkey query_two false (at_key (typed "123/y/"))))))) = 2%nat.
Proof. vm_compute. done. Qed.

#[local] Opaque deleted.

Lemma ends_harmful (l : list bytes) : List.map (firstn 4) (drop 9 l) = [[0x0A; 0xA4; 0x01; 0x06]] -> ~ Forall harmless l.
Proof.
  intros Hd Hh. apply (Forall_drop _ 9) in Hh. destruct (drop 9 l) as [|r [|r' l']]; [done| |done].
  apply Forall_cons in Hh as [Hh _]. destruct r as [|a [|b [|c [|d r]]]]; try done. injection Hd as -> -> -> ->.
  apply Hh. by exists 0xA4, r.
Qed.

Lemma deleted_harmful : ~ Forall harmless (sent (fst deleted)).
Proof. destruct deletion_runs as (_ & _ & Hd & _). exact (ends_harmful _ Hd). Qed.

Lemma deletes_only_the_named_witness :
  exists token found p (listing listed : Authenticator (Recorded (CtapApp MemoryStore))) l,
    sent (fst deleted) = l ++ [delete_request token (pk_credential_id p)] /\ Forall harmless l /\
    passkeys token listing = (listed, Ok found) /\ named_alone query_one p found.
Proof.
  pose proof deleted_is as E. pose proof deleted_harmful as Hh. destruct deleted as [s' r].
  destruct (deletes_only_the_named query_one false start s' r E)
    as (l & Hl & [Hs|(token & found & p & listing & listed & rest & Hs & Hp & _ & Hn & _)]).
  - exfalso. apply Hh. cbn [fst]. rewrite Hs. exact Hl.
  - exists token, found, p, listing, listed, l. exact (conj Hs (conj Hl (conj Hp Hn))).
Defined.

End KeyCommandsWitness.
