(* ===== verification/Daemon.v ===== *)
(** * The daemon around the engine ([crates/pqkey/src/service.rs],
    [crates/pqkey/src/attestation.rs])

    What the daemon does before and between devices: the attestation
    certificate it provisions, the options it is given, and the loop that
    creates a device whenever the seat lets one exist and serves it until it has
    to go.  [rcgen], which writes certificates, is a class; random draws and the
    clock are arguments.  Strings are their UTF-8 bytes; log lines are left
    out. *)

From Stdlib Require Import Strings.String.
From stdpp Require Import list.
From S2P Require Import Prelude Constants Alg Crypto ConcreteCrypto Records Presence Store Engine FileSystem Manifest.
From S2P Require Import Ctaphid HidHost HidHostInv HidHostProofs CodecProofs Seat Transport Uhid SeatWatch SeatWatchProofs.

(** ** Reading a certificate *)

Definition ID_FIDO_GEN_CE_AAGUID_DER : bytes := [0x2b; 0x06; 0x01; 0x04; 0x01; 0x82; 0xe5; 0x1c; 0x01; 0x01; 0x04].

Definition TAG_BOOLEAN : Z := 0x01.

Definition TAG_OCTET_STRING : Z := 0x04.

Definition TAG_OID : Z := 0x06.

Definition TAG_SEQUENCE : Z := 0x30.

Definition TAG_VERSION : Z := 0xa0.

Definition TAG_EXTENSIONS : Z := 0xa3.

(** The length of an element and what follows it. *)
Definition element_length (input : bytes) : option (Z * bytes) :=
  match input with
  | [] => None
  | first :: rest =>
      if first <? 0x80 then Some (first, rest)
      else
        let count := Z.to_nat (Z.land first 0x7f) in
        if (count =? 0)%nat || (4 <? count)%nat || (length rest <? count)%nat then None
        else Some (fold_left (fun length octet => Z.lor (Z.shiftl length 8) octet) (take count rest) 0, drop count rest)
  end.

(** [next_element]: the first element's tag and contents, and what follows. *)
Definition next_element (input : bytes) : option (Z * bytes * bytes) :=
  match input with
  | [] => None
  | tag :: rest =>
      '(length, rest) ← element_length rest;
      if zlen rest <? length then None
      else Some (tag, take (Z.to_nat length) rest, drop (Z.to_nat length) rest)
  end.

Definition expect_element (input : bytes) (tag : Z) : option (bytes * bytes) :=
  '(found, contents, rest) ← next_element input;
  if found =? tag then Some (contents, rest) else None.

Fixpoint skip_elements (n : nat) (input : bytes) : option bytes :=
  match n with
  | O => Some input
  | S n => '(_, _, rest) ← next_element input; skip_elements n rest
  end.

(** The extensions of a TBSCertificate, from behind the public key on.  Every
    element takes a byte, so the input's length is fuel enough. *)
Fixpoint find_extensions (fuel : nat) (tbs : bytes) : option bytes :=
  match fuel with
  | O => None
  | S fuel =>
      '(tag, contents, rest) ← next_element tbs;
      if tag =? TAG_EXTENSIONS then fst <$> expect_element contents TAG_SEQUENCE
      else find_extensions fuel rest
  end.

(** The value of the AAGUID extension, behind its OID. *)
Definition extension_aaguid (extension : bytes) : option bytes :=
  extension ←
    (if bool_decide (head extension = Some TAG_BOOLEAN) then
       '(critical, rest) ← expect_element extension TAG_BOOLEAN;
       if bool_decide (critical = [0]) then Some rest else None
     else Some extension);
  '(value, rest) ← expect_element extension TAG_OCTET_STRING;
  '(aaguid, more) ← expect_element value TAG_OCTET_STRING;
  if bool_decide (more = []) && bool_decide (rest = []) && (length aaguid =? 16)%nat then Some aaguid else None.

Fixpoint find_aaguid (fuel : nat) (extensions : bytes) : option bytes :=
  match fuel with
  | O => None
  | S fuel =>
      match extensions with
      | [] => None
      | _ =>
          '(extension, rest) ← expect_element extensions TAG_SEQUENCE;
          '(oid, value) ← expect_element extension TAG_OID;
          if bool_decide (oid = ID_FIDO_GEN_CE_AAGUID_DER) then extension_aaguid value else find_aaguid fuel rest
      end
  end.

Definition certificate_aaguid (certificate : bytes) : option bytes :=
  '(certificate, _) ← expect_element certificate TAG_SEQUENCE;
  '(tbs, _) ← expect_element certificate TAG_SEQUENCE;
  tbs ← (if bool_decide (head tbs = Some TAG_VERSION) then '(_, _, rest) ← next_element tbs; Some rest else Some tbs);
  tbs ← skip_elements 6 tbs;
  extensions ← find_extensions (length tbs) tbs;
  find_aaguid (length extensions) extensions.

(** ** Making one *)

Definition ISO_3166_ALPHA_2 : bytes := ascii_bytes
  ("AD AE AF AG AI AL AM AO AQ AR AS AT AU AW AX AZ BA BB BD BE BF BG BH BI BJ BL BM BN BO BQ "
   ++ "BR BS BT BV BW BY BZ CA CC CD CF CG CH CI CK CL CM CN CO CR CU CV CW CX CY CZ DE DJ DK DM "
   ++ "DO DZ EC EE EG EH ER ES ET FI FJ FK FM FO FR GA GB GD GE GF GG GH GI GL GM GN GP GQ GR GS "
   ++ "GT GU GW GY HK HM HN HR HT HU ID IE IL IM IN IO IQ IR IS IT JE JM JO JP KE KG KH KI KM KN "
   ++ "KP KR KW KY KZ LA LB LC LI LK LR LS LT LU LV LY MA MC MD ME MF MG MH MK ML MM MN MO MP MQ "
   ++ "MR MS MT MU MV MW MX MY MZ NA NC NE NF NG NI NL NO NP NR NU NZ OM PA PE PF PG PH PK PL PM "
   ++ "PN PR PS PT PW PY QA RE RO RS RU RW SA SB SC SD SE SG SH SI SJ SK SL SM SN SO SR SS ST SV "
   ++ "SX SY SZ TC TD TF TG TH TJ TK TL TM TN TO TR TT TV TW TZ UA UG UM US UY UZ VA VC VE VG VI "
   ++ "VN VU WF WS YE YT ZA ZM ZW")%string.

(** [split_ascii_whitespace] of a text whose only white space is spaces;
    [word] is the word so far, backwards. *)
Fixpoint split_words (word text : bytes) : list bytes :=
  match text with
  | [] => match word with [] => [] | _ => [rev word] end
  | c :: text =>
      if c =? 32 then match word with [] => split_words [] text | _ => rev word :: split_words [] text end
      else split_words (c :: word) text
  end.

Definition to_ascii_uppercase (text : bytes) : bytes := map (fun c => if (97 <=? c) && (c <=? 122) then c - 32 else c) text.

Definition is_ascii_uppercase (c : Z) : bool := (65 <=? c) && (c <=? 90).

(** [None]: not a country. *)
Definition parse_country (input : bytes) : option bytes :=
  let code := to_ascii_uppercase input in
  if (length code =? 2)%nat && forallb is_ascii_uppercase code
     && existsb (bytes_eqb code) (split_words [] ISO_3166_ALPHA_2)
  then Some code else None.

Record IdentityConfig : Type := {
  ic_manufacturer : bytes;
  ic_product : bytes;
  ic_country : bytes;
  ic_aaguid : bytes
}.

Definition ORGANIZATIONAL_UNIT : bytes := ascii_bytes "Authenticator Attestation".

Inductive DnType : Type := CountryName | OrganizationName | OrganizationalUnitName | CommonName.

Record AttestationParams : Type := {
  ap_subject : list (DnType * bytes);
  ap_serial_number : bytes;
  ap_not_before : Z;
  ap_not_after : Z;
  ap_custom_extensions : list (list Z * bool * bytes);
  ap_ca : bool;
  ap_key_identifier : bytes
}.

Definition ID_FIDO_GEN_CE_AAGUID : list Z := [1; 3; 6; 1; 4; 1; 45724; 1; 1; 4].

Definition DAY : Z := 24 * 60 * 60.

(** 9999-12-31, in seconds since 1970. *)
Definition LAST_DAY : Z := 253402214400.

Inductive ProvisionError : Type :=
| NotACountry (country : bytes)
| NoSerialNumber
| CertificateFails
| ProvisionStore (e : StoreError).

(** [rcgen]: a certificate of a P-256 key, its subject public key info, and
    which text a PrintableString takes. *)
Class Rcgen : Type := {
  attestation_self_signed : AttestationParams -> bytes -> option bytes;
  subject_public_key_info : bytes -> bytes;
  is_printable : bytes -> bool
}.

Section Provision.

Context `{Crypto} `{Rcgen}.

(** [random_serial_number]: 20 octets, the top bit clear and the next one set. *)
Definition random_serial_number (draw : option bytes) : option bytes :=
  match draw with
  | Some (first :: rest) => Some (Z.lor (Z.land first 0x7f) 0x40 :: rest)
  | Some [] | None => None
  end.

Definition attestation_params (identity : IdentityConfig) (country serial key : bytes) (now : option Z)
    : AttestationParams := {|
  ap_subject := [(CountryName, country); (OrganizationName, ic_manufacturer identity);
                 (OrganizationalUnitName, ORGANIZATIONAL_UNIT); (CommonName, ic_product identity)];
  ap_serial_number := serial;
  ap_not_before := saturating_sub (match now with Some seconds => seconds / DAY | None => 0 end) 1 * DAY;
  ap_not_after := LAST_DAY + (DAY - 1);
  ap_custom_extensions := [(ID_FIDO_GEN_CE_AAGUID, false, 0x04 :: 16 :: ic_aaguid identity)];
  ap_ca := false;
  ap_key_identifier := take 20 (sha256 (subject_public_key_info key))
|}.

(** [key] is the generated scalar, [draw] the serial number's octets if the
    system had them, [now] the time since 1970 if it is later. *)
Definition generate_attestation_certificate (identity : IdentityConfig) (key : bytes) (draw : option bytes)
    (now : option Z) : result (bytes * bytes) ProvisionError :=
  let? country := ok_or (parse_country (ic_country identity)) (NotACountry (ic_country identity)) in
  let? _ := (if is_printable country then Ok tt else Err CertificateFails) in
  let? serial := ok_or (random_serial_number draw) NoSerialNumber in
  let? certificate := ok_or (attestation_self_signed (attestation_params identity country serial key now) key)
                        CertificateFails in
  Ok (key, certificate).

Context {S : Type} `{CredentialStore S}.

(** [open_credential_store], over the open store. *)
Definition open_credential_store (identity : IdentityConfig) (key : bytes) (draw : option bytes) (now : option Z)
    : M S unit ProvisionError := fun s =>
  let (s, stored) := st_attestation s in
  let keep := match stored with
              | Ok None => false
              | Ok (Some record) =>
                  bool_decide ((head (at_certificate_chain record) ≫= certificate_aaguid) = Some (ic_aaguid identity))
              | Err _ => true
              end in
  if keep then (s, Ok tt)
  else
    match generate_attestation_certificate identity key draw now with
    | Err e => (s, Err e)
    | Ok (private, certificate) =>
        let (s, r) := st_set_attestation {| at_private_key := private; at_certificate_chain := [certificate] |} s in
        (s, map_err ProvisionStore r)
    end.

End Provision.

(** ** The daemon's options *)

Inductive AttestationConfig : Type :=
| ConfigSelf
| ConfigCertificate (manufacturer product country : bytes)
| ConfigNone.

(** [AttestationConfig::mode]. *)
Definition attestation_mode (c : AttestationConfig) : AttestationMode :=
  match c with ConfigSelf => SelfAttestation | ConfigCertificate _ _ _ => Certificate | ConfigNone => NoneMode end.

Definition reset_window (allow_late_reset : bool) : option Z :=
  if allow_late_reset then None else Some RESET_WINDOW_AFTER_POWER_UP.

(** What the CTAP app is built from. *)
Record AppData : Type := {
  ad_aaguid : bytes;
  ad_presence_timeout : option Z;
  ad_attestation : AttestationMode;
  ad_allow_late_reset : bool
}.

(** The app of [serve_plugged_with_presence], built once for every device. *)
Definition build_app {S : Type} `{Crypto} `{CredentialStore S} (store : S) (w : Engine.World) (data : AppData) : CtapApp S :=
  let a := set_attestation_mode (ctap_app_new store w (ad_aaguid data)) (ad_attestation data) in
  let a := match ad_presence_timeout data with Some timeout => set_presence_timeout a timeout | None => a end in
  set_reset_window a (reset_window (ad_allow_late_reset data)).

Inductive AaguidError : Type :=
| AaguidLength (length : Z)
| AaguidNotUtf8
| AaguidNotHex (byte : nat).

Definition hex_value (c : Z) : option Z :=
  if (48 <=? c) && (c <=? 57) then Some (c - 48)
  else if (97 <=? c) && (c <=? 102) then Some (c - 87)
  else if (65 <=? c) && (c <=? 70) then Some (c - 55)
  else None.

(** [u8::from_str_radix(hex, 16)] of two bytes: a plus sign may come first. *)
Definition hex_byte (a b : Z) : option Z :=
  if a =? 43 then hex_value b
  else x ← hex_value a; y ← hex_value b; Some (x * 16 + y).

(** Two bytes that are UTF-8: two of ASCII, or one character of two bytes. *)
Definition utf8_pair (a b : Z) : bool :=
  ((a <? 0x80) && (b <? 0x80)) || ((0xC2 <=? a) && (a <=? 0xDF) && (0x80 <=? b) && (b <=? 0xBF)).

Fixpoint parse_pairs (i : nat) (cleaned : bytes) : result bytes AaguidError :=
  match cleaned with
  | a :: b :: rest =>
      if negb (utf8_pair a b) then Err AaguidNotUtf8
      else
        match hex_byte a b with
        | None => Err (AaguidNotHex i)
        | Some v => let? rest := parse_pairs (S i) rest in Ok (v :: rest)
        end
  | _ => Ok []
  end.

Definition parse_aaguid (input : bytes) : result bytes AaguidError :=
  let cleaned := List.filter (fun c => negb (c =? 45)) input in
  if negb (length cleaned =? 32)%nat then Err (AaguidLength (zlen cleaned))
  else parse_pairs 0 cleaned.

(** ** What a certificate says is read from it

    DER, as certificates are written in it. *)

Definition der_length (n : Z) : bytes :=
  if n <? 0x80 then [n]
  else if n <? 2 ^ 8 then 0x81 :: be_bytes 1 n
  else if n <? 2 ^ 16 then 0x82 :: be_bytes 2 n
  else if n <? 2 ^ 24 then 0x83 :: be_bytes 3 n
  else 0x84 :: be_bytes 4 n.

Definition der (tag : Z) (contents : bytes) : bytes := tag :: der_length (zlen contents) ++ contents.

Definition fits (contents : bytes) : Prop := zlen contents < 2 ^ 32.

Fixpoint der_elements (l : list (Z * bytes)) : bytes :=
  match l with [] => [] | (tag, contents) :: l => der tag contents ++ der_elements l end.

Definition elements_fit (l : list (Z * bytes)) : Prop := Forall (fun e => fits (snd e)) l.

Lemma long_length k n rest : (1 <= k <= 4)%nat -> 0 <= n < 256 ^ Z.of_nat k ->
  element_length (0x80 + Z.of_nat k :: be_bytes k n ++ rest) = Some (n, rest).
Proof.
  intros Hk Hn. cbn [element_length]. rewrite (proj2 (Z.ltb_ge _ _)) by lia.
  replace (Z.to_nat (Z.land (0x80 + Z.of_nat k) 0x7f)) with k
    by (assert (k = 1 \/ k = 2 \/ k = 3 \/ k = 4)%nat as Hc by lia; by destruct Hc as [->|[->|[->| ->]]]).
  rewrite length_app, be_bytes_length.
  rewrite (proj2 (Nat.eqb_neq _ _)), (proj2 (Nat.ltb_ge _ _)), (proj2 (Nat.ltb_ge _ _)) by lia. cbn [orb].
  rewrite take_app_length', drop_app_length' by (by rewrite be_bytes_length).
  f_equal. f_equal. rewrite <- (be_value_bytes k n Hn) at 2. by apply (fold_argument_be (be_bytes k n)), be_bytes_ok.
Qed.

Lemma element_length_der n rest : 0 <= n < 2 ^ 32 -> element_length (der_length n ++ rest) = Some (n, rest).
Proof.
  intros Hn. unfold der_length.
  destruct (Z.ltb_spec n 0x80); [cbn [app element_length]; by rewrite (proj2 (Z.ltb_lt _ _))|].
  destruct (Z.ltb_spec n (2 ^ 8)); [apply (long_length 1 n rest); lia|].
  destruct (Z.ltb_spec n (2 ^ 16)); [apply (long_length 2 n rest); lia|].
  destruct (Z.ltb_spec n (2 ^ 24)); [apply (long_length 3 n rest); lia|].
  apply (long_length 4 n rest); lia.
Qed.

Lemma next_element_der tag contents rest : fits contents -> next_element (der tag contents ++ rest) = Some (tag, contents, rest).
Proof.
  intros Hf. unfold fits in Hf. unfold der. cbn [app next_element]. rewrite <- app_assoc, element_length_der
    by (unfold zlen in *; lia). cbn [mbind option_bind].
  rewrite (proj2 (Z.ltb_ge _ _)) by (unfold zlen; rewrite length_app; lia). unfold zlen. rewrite Nat2Z.id.
  by rewrite take_app_length, drop_app_length.
Qed.

Lemma expect_element_der tag contents rest : fits contents -> expect_element (der tag contents ++ rest) tag = Some (contents, rest).
Proof. intros Hf. unfold expect_element. rewrite next_element_der by done. cbn. by rewrite Z.eqb_refl. Qed.

Lemma skip_elements_der l rest : elements_fit l -> skip_elements (length l) (der_elements l ++ rest) = Some rest.
Proof.
  induction 1 as [|[t c] l Hf Hl IH]; [done|]. cbn [length skip_elements der_elements].
  rewrite <- app_assoc, next_element_der by done. cbn. apply IH.
Qed.

Lemma der_longer tag contents : (length contents < length (der tag contents))%nat.
Proof. unfold der. cbn [length]. rewrite length_app. lia. Qed.

Lemma elements_fit_in l n : zlen (der_elements l) <= n -> n < 2 ^ 32 -> elements_fit l.
Proof.
  intros Hl Hn. induction l as [|[t c] l IH]; [constructor|]. cbn [der_elements] in Hl. pose proof (der_longer t c).
  unfold fits, zlen in *. rewrite length_app in Hl. constructor; [cbn; unfold fits, zlen; lia|]. apply IH. lia.
Qed.

Lemma expect_element_all tag contents : fits contents -> expect_element (der tag contents) tag = Some (contents, []).
Proof. intros Hf. by rewrite <- (app_nil_r (der tag contents)), expect_element_der. Qed.

Lemma find_extensions_der fuel ids extensions rest :
  elements_fit ids -> Forall (fun e => fst e <> TAG_EXTENSIONS) ids -> fits (der TAG_SEQUENCE extensions) ->
  (length ids < fuel)%nat ->
  find_extensions fuel (der_elements ids ++ der TAG_EXTENSIONS (der TAG_SEQUENCE extensions) ++ rest) = Some extensions.
Proof.
  intros Hf Ht He. revert fuel. induction Hf as [|[t c] ids Hc Hf IH]; intros fuel Hl; (destruct fuel as [|fuel]; [cbn in Hl; lia|]).
  - cbn [der_elements app find_extensions]. rewrite next_element_der by done.
    cbn [mbind option_bind]. rewrite Z.eqb_refl, expect_element_all; [done|]. pose proof (der_longer TAG_SEQUENCE extensions).
    unfold fits, zlen in *. lia.
  - apply Forall_cons in Ht as [Hn Ht]. cbn [find_extensions der_elements].
    rewrite <- app_assoc, next_element_der by done. cbn [mbind option_bind fst].
    cbn [fst] in Hn. rewrite (proj2 (Z.eqb_neq _ _) Hn). apply IH; [done|]. cbn in Hl. lia.
Qed.

Definition extension (oid value : bytes) : bytes := der TAG_SEQUENCE (der TAG_OID oid ++ value).

(** The AAGUID extension, with what may come between its OID and its value. *)
Definition aaguid_value (aaguid : bytes) : bytes := der TAG_OCTET_STRING (der TAG_OCTET_STRING aaguid).

Lemma extension_fits oid value rest n : zlen (extension oid value ++ rest) <= n -> n < 2 ^ 32 ->
  fits (der TAG_OID oid ++ value) /\ fits oid /\ fits value /\ zlen rest <= n.
Proof.
  intros Hl Hn. pose proof (der_longer TAG_SEQUENCE (der TAG_OID oid ++ value)). pose proof (der_longer TAG_OID oid).
  unfold extension, fits, zlen in *. rewrite !length_app in *. lia.
Qed.

Lemma find_aaguid_step fuel oid value rest : zlen (extension oid value ++ rest) < 2 ^ 32 ->
  find_aaguid (S fuel) (extension oid value ++ rest) =
  if bool_decide (oid = ID_FIDO_GEN_CE_AAGUID_DER) then extension_aaguid value else find_aaguid fuel rest.
Proof.
  intros Hl. destruct (extension_fits oid value rest _ (Z.le_refl _) Hl) as (H1 & H2 & H3 & _).
  assert (extension oid value ++ rest <> []) as Hne by done.
  assert (expect_element (extension oid value ++ rest) TAG_SEQUENCE = Some (der TAG_OID oid ++ value, rest)) as He
    by by apply expect_element_der.
  cbn [find_aaguid]. destruct (extension oid value ++ rest) as [|x l]; [done|]. rewrite He. cbn [mbind option_bind].
  by rewrite expect_element_der.
Qed.

Fixpoint extensions (l : list (bytes * bytes)) : bytes :=
  match l with [] => [] | (oid, value) :: l => extension oid value ++ extensions l end.

Lemma find_aaguid_der fuel before value after :
  Forall (fun e => fst e <> ID_FIDO_GEN_CE_AAGUID_DER) before ->
  zlen (extensions before ++ extension ID_FIDO_GEN_CE_AAGUID_DER value ++ after) < 2 ^ 32 -> (length before < fuel)%nat ->
  find_aaguid fuel (extensions before ++ extension ID_FIDO_GEN_CE_AAGUID_DER value ++ after) = extension_aaguid value.
Proof.
  intros Hb. revert fuel. induction Hb as [|[oid v] before Ho Hb IH]; intros fuel Hl Hf; (destruct fuel as [|fuel]; [cbn in Hf; lia|]).
  - cbn [extensions app] in *. rewrite find_aaguid_step by done.
    by rewrite bool_decide_eq_true_2.
  - cbn [extensions] in *. rewrite <- app_assoc in *.
    rewrite find_aaguid_step, bool_decide_eq_false_2 by done. apply IH; [|cbn in Hf; lia].
    destruct (extension_fits oid v _ _ (Z.le_refl _) Hl) as (_ & _ & _ & H).
    exact (Z.le_lt_trans _ _ _ H Hl).
Qed.

Lemma extension_aaguid_der aaguid : length aaguid = 16%nat -> extension_aaguid (aaguid_value aaguid) = Some aaguid.
Proof.
  intros Hl. unfold extension_aaguid, aaguid_value.
  assert (fits aaguid) by (unfold fits, zlen; rewrite Hl; done).
  assert (fits (der TAG_OCTET_STRING aaguid)).
  { unfold fits, der, zlen. rewrite Hl. cbn [length]. rewrite length_app, Hl. done. }
  rewrite bool_decide_eq_false_2 by done. cbn [mbind option_bind]. rewrite expect_element_all by done.
  cbn [mbind option_bind]. rewrite expect_element_all by done. cbn [mbind option_bind].
  by rewrite !bool_decide_eq_true_2, Hl by done.
Qed.

Lemma elements_longer l : (length l <= length (der_elements l))%nat.
Proof.
  induction l as [|[t c] l IH]; [done|]. cbn [der_elements length].
  rewrite length_app. pose proof (der_longer t c). lia.
Qed.

Lemma extensions_longer l : (length l <= length (extensions l))%nat.
Proof.
  induction l as [|[o v] l IH]; [done|]. cbn [extensions length]. unfold extension.
  rewrite length_app. pose proof (der_longer TAG_SEQUENCE (der TAG_OID o ++ v)). lia.
Qed.

(** A certificate: the version if it has one, the fields up to the public key,
    the unique identifiers, and the extensions; then the signature. *)
Definition tbs_certificate (version : option bytes) (fields ids : list (Z * bytes)) (exts : bytes) : bytes :=
  from_option (der TAG_VERSION) [] version ++ der_elements fields ++ der_elements ids
  ++ der TAG_EXTENSIONS (der TAG_SEQUENCE exts).

Definition certificate (tbs signature : bytes) : bytes := der TAG_SEQUENCE (der TAG_SEQUENCE tbs ++ signature).

(** [certificate_aaguid] finds the AAGUID of any certificate that carries the
    extension once, not critical, wherever among the others it stands. *)
Theorem certificate_aaguid_read (version : option bytes) (fields ids : list (Z * bytes)) (before after : list (bytes * bytes))
    (aaguid signature : bytes) :
  length fields = 6%nat -> (version = None -> head (fst <$> fields) <> Some TAG_VERSION) ->
  Forall (fun e => fst e <> TAG_EXTENSIONS) ids -> Forall (fun e => fst e <> ID_FIDO_GEN_CE_AAGUID_DER) before ->
  length aaguid = 16%nat ->
  let cert := certificate (tbs_certificate version fields ids
    (extensions before ++ extension ID_FIDO_GEN_CE_AAGUID_DER (aaguid_value aaguid) ++ extensions after)) signature in
  zlen cert < 2 ^ 32 -> certificate_aaguid cert = Some aaguid.
Proof.
  intros H6 Hv Hids Hb Ha. cbn zeta. set (exts := extensions before ++ _).
  set (tbs := tbs_certificate _ _ _ _). intros Hl.
  assert (fits tbs /\ fits (der TAG_SEQUENCE tbs ++ signature)) as [Ht Hc].
  { pose proof (der_longer TAG_SEQUENCE (der TAG_SEQUENCE tbs ++ signature)). pose proof (der_longer TAG_SEQUENCE tbs).
    unfold certificate, fits, zlen in *. rewrite length_app in *. lia. }
  unfold certificate_aaguid, certificate. rewrite expect_element_all by done. cbn [mbind option_bind].
  rewrite expect_element_der by done. cbn [mbind option_bind].
  assert (fits (from_option id [] version) /\ zlen (der_elements fields) < 2 ^ 32 /\ zlen (der_elements ids) < 2 ^ 32 /\
    fits exts /\ fits (der TAG_SEQUENCE exts)) as (Hf1 & Hf2 & Hf3 & Hf4 & Hf5).
  { unfold tbs, tbs_certificate in Ht. unfold fits, zlen in *. rewrite !length_app in Ht.
    pose proof (der_longer TAG_SEQUENCE exts). pose proof (der_longer TAG_EXTENSIONS (der TAG_SEQUENCE exts)).
    destruct version as [v|]; cbn [from_option id length] in *; [pose proof (der_longer TAG_VERSION v)|]; lia. }
  assert ((if bool_decide (head tbs = Some TAG_VERSION) then '(_, _, rest) ← next_element tbs; Some rest else Some tbs) =
    Some (der_elements fields ++ der_elements ids ++ der TAG_EXTENSIONS (der TAG_SEQUENCE exts))) as Hver.
  { unfold tbs, tbs_certificate. destruct version as [v|]; cbn [from_option id] in *.
    - rewrite bool_decide_eq_true_2 by done. by rewrite next_element_der.
    - rewrite bool_decide_eq_false_2; [done|]. specialize (Hv eq_refl). by destruct fields as [|[t c] fields]. }
  rewrite Hver. cbn [mbind option_bind]. rewrite <- H6, skip_elements_der by (by eapply elements_fit_in; [|exact Hf2]).
  cbn [mbind option_bind]. rewrite <- (app_nil_r (der TAG_EXTENSIONS _)), find_extensions_der; try done.
  - cbn [mbind option_bind]. rewrite <- (extension_aaguid_der aaguid Ha). apply find_aaguid_der; [done|exact Hf4|].
    unfold exts. rewrite !length_app. pose proof (extensions_longer before).
    pose proof (der_longer TAG_SEQUENCE (der TAG_OID ID_FIDO_GEN_CE_AAGUID_DER ++ aaguid_value aaguid)). unfold extension. lia.
  - by eapply elements_fit_in; [|exact Hf3].
  - rewrite !length_app. pose proof (elements_longer ids). pose proof (der_longer TAG_EXTENSIONS (der TAG_SEQUENCE exts)). lia.
Qed.

(** ** Provisioning *)

(** An arc of an object identifier in base 128, and an identifier, as DER
    writes them. *)
Fixpoint base128 (fuel : nat) (last : bool) (n : Z) : bytes :=
  match fuel with
  | O => []
  | S fuel => (if n <? 128 then [] else base128 fuel false (n / 128)) ++ [n mod 128 + (if last then 0 else 128)]
  end.

Definition der_oid (arcs : list Z) : bytes :=
  match arcs with
  | a :: b :: arcs => base128 5 true (40 * a + b) ++ mjoin (base128 5 true <$> arcs)
  | _ => []
  end.

Definition extension_value (critical : bool) (content : bytes) : bytes :=
  (if critical then der TAG_BOOLEAN [0xff] else []) ++ der TAG_OCTET_STRING content.

(** What [rcgen] documents: a certificate in DER, with the custom extension it
    was given, once. *)
Class RcgenLaws `{Rcgen} : Prop := {
  certificate_written p key cert oid critical content :
    attestation_self_signed p key = Some cert -> ap_custom_extensions p = [(oid, critical, content)] ->
    exists version fields ids before after signature,
      length fields = 6%nat /\ (version = None -> head (fst <$> fields) <> Some TAG_VERSION) /\
      Forall (fun e => fst e <> TAG_EXTENSIONS) ids /\ Forall (fun e => fst e <> der_oid oid) before /\
      cert = certificate (tbs_certificate version fields ids
        (extensions before ++ extension (der_oid oid) (extension_value critical content) ++ extensions after)) signature /\
      zlen cert < 2 ^ 32
}.

(** The attestation a store reports is the one set last. *)
Class AttestationStoreLaws (S : Type) `{CredentialStore S} : Prop := {
  attestation_kept record s s' s'' o :
    st_set_attestation record s = (s', Ok tt) -> st_attestation s' = (s'', Ok o) -> o = Some record
}.

#[export] Instance memory_keeps_attestation `{Crypto} : AttestationStoreLaws MemoryStore.
Proof.
  split. intros record s s' s'' o. cbn [st_set_attestation st_attestation MemoryCredentialStore]. unfold ms_set_attestation.
  destruct (validate_attestation record); [|done]. intros [= <-] [= <- <-]. done.
Qed.

Section Provisioned.

Context `{Crypto} `{RcgenLaws} {S : Type} `{AttestationStoreLaws S}.

Lemma generated_names_aaguid identity key draw now private cert : length (ic_aaguid identity) = 16%nat ->
  generate_attestation_certificate identity key draw now = Ok (private, cert) ->
  private = key /\ certificate_aaguid cert = Some (ic_aaguid identity).
Proof.
  intros Hl. unfold generate_attestation_certificate. destruct (parse_country _) as [country|]; [|done].
  cbn [ok_or bind]. destruct (is_printable country); [|done]. cbn [bind]. destruct (random_serial_number draw) as [serial|]; [|done].
  cbn [ok_or bind]. destruct (attestation_self_signed _ key) as [c|] eqn:Es; [|done]. intros [= <- <-]. split; [done|].
  destruct (certificate_written _ _ _ _ _ _ Es eq_refl) as (version & fields & ids & before & after & signature & H6 & Hv & Hi & Hb & -> & Hs).
  replace (extension_value false (4 :: 16 :: ic_aaguid identity)) with (aaguid_value (ic_aaguid identity)) in *.
  - by apply certificate_aaguid_read.
  - unfold aaguid_value, extension_value. cbn [app]. f_equal. unfold der, zlen. by rewrite Hl.
Qed.

(** When provisioning ends well, the store's attestation could not be read and
    was left alone; or its certificate names the authenticator's own AAGUID,
    and it is the one that was there, or a new one with the generated key. *)
Theorem provisioned (identity : IdentityConfig) (key : bytes) (draw : option bytes) (now : option Z) (s s' : S) :
  length (ic_aaguid identity) = 16%nat -> open_credential_store identity key draw now s = (s', Ok tt) ->
  (exists e, st_attestation s = (s', Err e)) \/
  exists record, (head (at_certificate_chain record) ≫= certificate_aaguid) = Some (ic_aaguid identity) /\
    (st_attestation s = (s', Ok (Some record)) \/
     at_private_key record = key /\ forall s'' o, st_attestation s' = (s'', Ok o) -> o = Some record).
Proof.
  intros Hl. unfold open_credential_store. destruct (st_attestation s) as [s1 stored] eqn:Ea.
  destruct (match stored with Ok None => false | Ok (Some _) => _ | Err _ => true end) eqn:Ek.
  - intros [= <-]. destruct stored as [[record|]|e]; [|done|left; by eexists].
    right. exists record. apply bool_decide_eq_true in Ek. auto.
  - clear Ek Ea. destruct (generate_attestation_certificate _ _ _ _) as [[private cert]|e] eqn:Eg; [|done].
    destruct (st_set_attestation _ s1) as [s2 [[]|e]] eqn:Es; [|done]. intros [= <-].
    apply generated_names_aaguid in Eg as [-> Hc]; [|done]. right. exists {| at_private_key := key; at_certificate_chain := [cert] |}. split; [exact Hc|]. right. split; [done|].
    intros s'' o Ho. exact (attestation_kept _ _ _ _ _ Es Ho).
Qed.

End Provisioned.

(** ** AAGUIDs *)

Lemma hex_value_digit n : 0 <= n < 16 -> hex_value (hex_digit n) = Some n.
Proof.
  intros Hn. unfold hex_value, hex_digit. destruct (Z.ltb_spec n 10).
  - by rewrite !(proj2 (Z.leb_le _ _)) by lia; cbn [andb]; f_equal; lia.
  - rewrite (proj2 (Z.leb_gt (87 + n) 57)), andb_false_r by lia. rewrite !(proj2 (Z.leb_le _ _)) by lia. cbn [andb]. f_equal. lia.
Qed.

(** An AAGUID is read back from its hexadecimal digits, with hyphens anywhere
    among them. *)
Theorem aaguid_parsed (aaguid text : bytes) :
  length aaguid = 16%nat -> bytes_ok aaguid -> List.filter (fun c => negb (c =? 45)) text = hex aaguid ->
  parse_aaguid text = Ok aaguid.
Proof.
  intros Hl Hb Ht. unfold parse_aaguid. rewrite Ht.
  rewrite hex_length, Hl. change (negb (2 * 16 =? 32)%nat) with false. cbn iota. clear Ht Hl text. generalize 0%nat as i.
  induction Hb as [|x l Hx Hl IH]; intros i; [done|]. unfold is_byte in Hx.
  cbn [hex flat_map app parse_pairs]. fold (hex l).
  assert (0 <= Z.shiftr x 4 < 16) as H1 by (rewrite Z.shiftr_div_pow2 by lia; split; [apply Z.div_pos; lia|apply Z.div_lt_upper_bound; lia]).
  assert (0 <= Z.land x 0x0f < 16) as H2 by (change 0x0f with (Z.ones 4); rewrite Z.land_ones by lia; apply Z.mod_pos_bound; lia).
  assert (forall n, 0 <= n < 16 -> 48 <= hex_digit n < 0x80) as Hd by (intros n Hn; unfold hex_digit; destruct (n <? 10); lia).
  pose proof (Hd _ H1). pose proof (Hd _ H2). unfold utf8_pair. rewrite !(proj2 (Z.ltb_lt _ 0x80)) by lia. cbn [andb orb negb].
  unfold hex_byte. rewrite (proj2 (Z.eqb_neq _ 43)) by lia. rewrite !hex_value_digit by done. cbn [mbind option_bind].
  rewrite IH. cbn [bind]. do 2 f_equal. rewrite Z.shiftr_div_pow2 by lia. change 0x0f with (Z.ones 4).
  rewrite Z.land_ones by lia. pose proof (Z.div_mod x (2 ^ 4)). lia.
Qed.

(** A plus sign passes for a hexadecimal digit. *)
Example plus_signs_accepted : parse_aaguid (mjoin (repeat (ascii_bytes "+1") 16)) = Ok (repeat 1 16).
Proof. reflexivity. Qed.

(** ** The transport and its device

    What holds of a device however it is read and written holds of the
    transport's device throughout. *)

Section Keeps.

Context {D : Type} `{HidDevice D} (I : D -> Prop).
Context (Hread : forall d, I d -> I (fst (try_read_frame d))).
Context (Hwrite : forall frame d, I d -> I (fst (write_frame frame d))).

#[local] Abbreviation Tr A := (M (Transport D) A PollError).

Definition keeps_device {A} (m : Tr A) : Prop := forall t, I (tr_device t) -> I (tr_device (fst (m t))).

Lemma dev_bind {A B} (m : Tr A) (k : A -> Tr B) :
  keeps_device m -> (forall x, keeps_device (k x)) -> keeps_device (mbind_st m k).
Proof.
  intros Hm Hk t Ht. unfold mbind_st. specialize (Hm t Ht). destruct (m t) as [t1 [x|e]]; [by apply Hk|done].
Qed.

Lemma keeps_same {A} (m : Tr A) : (forall t, tr_device (fst (m t)) = tr_device t) -> keeps_device m.
Proof. intros Hm t Ht. by rewrite Hm. Qed.

Lemma keeps_turn : keeps_device (next_turn : Tr Turn).
Proof. apply keeps_same. intros t. unfold next_turn. by destruct (tr_schedule t). Qed.

Lemma dev_call {A} (f : CtaphidHost -> CtaphidHost * A) e : keeps_device (host_call f e : Tr A).
Proof. apply keeps_same. intros t. unfold host_call. by destruct (f (tr_host t)). Qed.

Lemma keeps_do e : keeps_device (host_do e : Tr unit).
Proof. apply dev_call. Qed.

Lemma keeps_ret {A} (x : A) : keeps_device (ret x : Tr A).
Proof. by apply keeps_same. Qed.

Lemma keeps_fail {A} e : keeps_device (fail e : Tr A).
Proof. by apply keeps_same. Qed.

Lemma keeps_gets {A} (f : Transport D -> A) : keeps_device (gets f : Tr A).
Proof. by apply keeps_same. Qed.

Lemma keeps_shared {A} (f : Shared -> Shared * A) : keeps_device (on_shared f : Tr A).
Proof. apply dev_bind; [apply keeps_turn|intros ?]. apply keeps_same. intros t. by destruct (f (tr_shared t)). Qed.

Lemma keeps_with {A} (m : M D A SeatError) : (forall d, I d -> I (fst (m d))) -> keeps_device (with_device m : Tr A).
Proof.
  intros Hm. apply dev_bind; [apply keeps_turn|]. intros ? t Ht. specialize (Hm _ Ht). by destruct (m (tr_device t)).
Qed.

Lemma keeps_guard b e : keeps_device (guard b e : Tr unit).
Proof. destruct b; by intros t Ht. Qed.

Lemma keeps_if {A} (b : bool) (m n : Tr A) : keeps_device m -> keeps_device n -> keeps_device (if b then m else n).
Proof. by destruct b. Qed.

Create HintDb keeps.
#[local] Hint Resolve keeps_turn dev_call keeps_do keeps_ret keeps_fail keeps_gets keeps_shared keeps_guard : keeps.

Ltac keeps := repeat first [ solve [eauto 2 with keeps nocore] | apply dev_bind; [|intros ?] | apply keeps_if | case_match ].

Lemma keeps_now : keeps_device (tr_now : Tr Z).
Proof. unfold tr_now. keeps. Qed.

Lemma keeps_shutdown : keeps_device (check_shutdown : Tr unit).
Proof. unfold check_shutdown. keeps. Qed.

#[local] Hint Resolve keeps_now keeps_shutdown : keeps.

Lemma keeps_pass : keeps_device (pass_interrupt : Tr unit).
Proof. unfold pass_interrupt, interrupt_app. keeps. Qed.

Lemma keeps_take response : keeps_device (take_response response : Tr unit).
Proof. unfold take_response. keeps. Qed.

Lemma dev_observe : keeps_device (observe_presence : Tr unit).
Proof. unfold observe_presence. keeps. Qed.

#[local] Hint Resolve keeps_pass keeps_take dev_observe : keeps.

Lemma keeps_collect_app n received : keeps_device (collect_app n received : Tr bool).
Proof. revert received. induction n as [|n IH]; intros received; cbn [collect_app]; unfold try_response; keeps. Qed.

Lemma keeps_collect_identification n received : keeps_device (collect_identification n received : Tr bool).
Proof. revert received. induction n as [|n IH]; intros received; cbn [collect_identification]; unfold try_identification; keeps. Qed.

#[local] Hint Resolve keeps_collect_app keeps_collect_identification : keeps.

Lemma keeps_collect n : keeps_device (collect_responses n : Tr bool).
Proof. unfold collect_responses. keeps. Qed.

#[local] Hint Resolve keeps_collect : keeps.

Lemma keeps_read n read : keeps_device (read_frames n read : Tr bool).
Proof.
  revert read. induction n as [|n IH]; intros read; cbn [read_frames]; [keeps|].
  apply dev_bind; [by apply keeps_with|intros frame]. keeps.
Qed.

#[local] Hint Resolve keeps_read : keeps.

Lemma keeps_flush n wrote : keeps_device (flush_pending n wrote : Tr bool).
Proof.
  revert wrote. induction n as [|n IH]; intros wrote; cbn [flush_pending]; [keeps|]. unfold pause_between.
  assert (forall frame, keeps_device (with_device (write_frame frame) : Tr unit)) by (intros frame; by apply keeps_with, Hwrite).
  keeps.
Qed.

#[local] Hint Resolve keeps_flush : keeps.

Lemma keeps_hand_over : keeps_device (hand_over : Tr bool).
Proof.
  unfold hand_over, submit_request. keeps. by apply keeps_same.
Qed.

Lemma keeps_identification : keeps_device (hand_over_identification : Tr bool).
Proof. unfold hand_over_identification, submit_identification. keeps. Qed.

#[local] Hint Resolve keeps_hand_over keeps_identification : keeps.

Lemma keeps_poll n : keeps_device (poll n : Tr bool).
Proof. unfold poll. keeps. Qed.

Lemma keeps_wait : keeps_device (wait : Tr unit).
Proof. unfold wait. keeps. Qed.

#[local] Hint Resolve keeps_poll keeps_wait : keeps.

Lemma keeps_serve passes fuel : keeps_device (serve passes fuel : Tr unit).
Proof. induction passes as [|passes IH]; cbn [serve]; keeps. Qed.

End Keeps.

(** ** One device after another *)

Section Plugged.

Context {D S : Type} `{HidDevice D} `{SeatSource S}.

(** A device behind its seat is a device. *)
#[export] Instance seat_device_hid : HidDevice (SeatDevice D S) := {|
  try_read_frame := seat_read_frame;
  write_frame := seat_write_frame
|}.

(** What a time round the loop finds: the shutdown flag while waiting for the
    seat, the device, the state machine, what the app last said of the user, and
    what happens while the device is served. *)
Record Round : Type := {
  rd_shutdown : list bool;
  rd_device : result D SeatError;
  rd_host : CtaphidHost;
  rd_waiting : bool;
  rd_times : option Z * option Z;
  rd_schedule : list Turn
}.

(** A device that was served, with the state machine it started with. *)
Record Served : Type := {
  sv_host : CtaphidHost;
  sv_start : SeatDevice D S;
  sv_end : Transport (SeatDevice D S);
  sv_result : result unit PollError
}.

(** [exec_with_identifier]: [ready] is what [on_ready] gives.  The schedule is
    fuel enough ([serve_fuel]). *)
Definition exec_with_identifier (ready : result unit SeatError) (r : Round) (device : SeatDevice D S) : Served :=
  let t := new_transport device (rd_host r) (rd_waiting r) (rd_times r) (rd_schedule r) in
  let fuel := Datatypes.S (length (rd_schedule r)) in
  let (t, result) := match ready with
                     | Ok _ => serve fuel fuel t
                     | Err e => (t, Err (PollFailed e))
                     end in
  {| sv_host := rd_host r; sv_start := device; sv_end := stop_app t; sv_result := result |}.

(** Whether waiting for the seat puts the key on hold, which counts as ready. *)
Definition holds_first (s : Seat S) : bool :=
  negb (seat_allowed (match st_active s with None => seat_look s | Some _ => look_if_changed false s end)).

(** [is_unplugged] of how serving ended. *)
Definition is_unplugged (r : result unit PollError) : bool :=
  match r with Err (PollFailed Unplugged) => true | _ => false end.

(** The loop of [serve_plugged_with_presence]: [ready] is what [on_ready] would
    give, until it has run. *)
Fixpoint serve_plugged (rounds : list Round) (ready : option (result unit SeatError)) (s : Seat S)
    : list Served * Seat S * result unit PollError :=
  match rounds with
  | [] => ([], s, Err ScheduleEnds)
  | r :: rounds =>
      let on_hold := default (Ok tt) ready in
      match wait_for_turn (rd_shutdown r) on_hold s with
      | (s', Err e) => ([], s', Err (PollFailed e))
      | (s', Ok _) =>
          let ready := if holds_first s then None else ready in
          match rd_device r with
          | Err e => ([], s', Err (PollFailed e))
          | Ok device =>
              let served := exec_with_identifier (default (Ok tt) ready) r
                              {| sd_device := device; sd_seat := seat_plugged s' |} in
              let s' := sd_seat (tr_device (sv_end served)) in
              if is_unplugged (sv_result served) then
                let '(rest, s', result) := serve_plugged rounds None s' in (served :: rest, s', result)
              else ([served], s', sv_result served)
          end
      end
  end.

End Plugged.

(** ** What holds of every device *)

Section Served.

Context {D S : Type} `{ReportDevice D} `{SeatSourceLaws S}.

#[export] Instance seat_device_reports : ReportDevice (SeatDevice D S).
Proof.
  split. intros s s' frame. cbn [try_read_frame seat_device_hid]. unfold seat_read_frame, mbind_st, on_device, on_seat.
  destruct (try_read_frame (sd_device s)) as [d [o|e]] eqn:Er; [|done]. cbn [sd_seat sd_device].
  destruct (seat_check _ (sd_seat s)) as [t [[]|e]]; [|done]. intros [= _ ->]. by eapply reports_whole.
Qed.

Lemma looked_judge s : looked s -> looked (judge s).
Proof. intros Hl. unfold judge. repeat case_match; done. Qed.

Lemma looked_check report s : looked s -> looked (fst (seat_check report s)).
Proof.
  intros Hl. unfold seat_check. destruct (st_retired s) eqn:Hr; [done|].
  destruct (seat_changed report s) as [s1 b] eqn:Ec. apply changed_moves in Ec as (source & -> & Hk & _); [|apply Hl].
  pose proof (looked_moved _ _ Hl Hk) as Hm. destruct b; [|done]. by apply looked_judge, looked_look.
Qed.

(** In service: the seat was looked at, and lets the device serve or had it
    retired. *)
Definition in_service (owner : Z) (seat : list Z) (n : nat) (d : SeatDevice D S) : Prop :=
  looked (sd_seat d) /\ serves seat n (sd_seat d) /\ st_owner (sd_seat d) = owner.

Lemma service_op owner seat n op d : in_service owner seat n d -> in_service owner seat n (fst (report_op op d)).
Proof.
  intros (Hl & Hs & Ho). destruct (report_op op d) as [d' r] eqn:Er.
  pose proof (report_checked op seat n d d' r Hs Er) as (Hs' & Ho' & _). cbn [fst]. split; [|split; [done|congruence]].
  revert Er. destruct op as [|frame]; cbn [report_op]; unfold seat_read_frame, seat_write_frame, mbind_st, on_device, on_seat, ret.
  - destruct (try_read_frame (sd_device d)) as [x [f|e]]; [|by intros [= <- <-]]. cbn [sd_device sd_seat].
    pose proof (looked_check (is_some f) _ Hl) as Hc. destruct (seat_check _ (sd_seat d)) as [t [[]|e]]; by intros [= <- <-].
  - pose proof (looked_check false _ Hl) as Hc. destruct (seat_check _ (sd_seat d)) as [t [[]|e]]; [|by intros [= <- <-]].
    cbn [sd_device sd_seat]. destruct (write_frame frame (sd_device d)) as [x [u|e]]; by intros [= <- <-].
Qed.

Lemma service_kept owner seat n passes fuel (t : Transport (SeatDevice D S)) :
  in_service owner seat n (tr_device t) -> in_service owner seat n (tr_device (fst (serve passes fuel t))).
Proof.
  apply keeps_serve.
  - intros d Hd. exact (service_op owner seat n ReadReport d Hd).
  - intros frame d Hd. pose proof (service_op owner seat n (WriteReport frame) d Hd) as Hw. cbn [report_op] in Hw.
    unfold mbind_st in Hw. cbn [write_frame seat_device_hid]. by destruct (seat_write_frame frame d) as [d' [u|e]].
Qed.

(** A served device: it was created under the record last looked at, which lets
    [owner] have it, and the seat's promise was kept to its end; the answers
    given the state machine were in turn; and in the end the app was not left
    working undisturbed. *)
Definition served_well (owner : Z) (v : Served) : Prop :=
  (exists seat n, in_service owner seat n (sv_start v) /\ in_service owner seat n (tr_device (sv_end v))) /\
  seat_allowed (sd_seat (sv_start v)) = true /\ st_retired (sd_seat (sv_start v)) = false /\
  in_turn (sv_host v) (tr_trace (sv_end v)) /\ host_ok (tr_host (sv_end v)) /\ sh_flag (tr_shared (sv_end v)) <> WORKING.

Lemma stop_not_working (t : Transport (SeatDevice D S)) : sh_flag (tr_shared (stop_app t)) <> WORKING.
Proof. unfold stop_app. cbn. by destruct (sh_flag (tr_shared t)). Qed.

Lemma exec_served owner ready (r : @Round D) device s :
  looked s -> seat_allowed s = true -> st_owner s = owner -> host_ok (rd_host r) -> ch_app_busy (rd_host r) = false ->
  served_well owner (exec_with_identifier ready r {| sd_device := device; sd_seat := seat_plugged s |}).
Proof.
  intros Hl Ha Ho Hh Hb. destruct (plugged_serves s Hl Ha) as (seat & n & Hs & _).
  set (d := {| sd_device := device; sd_seat := seat_plugged s |}).
  assert (in_service owner seat n d) as Hd.
  { split; [|split; [exact Hs|done]]. destruct Hl as [Hok Hl]. destruct (plugged_keeps _ Hok) as [[Hp Hw] Hsh]. split; [exact Hp|].
    intros a Hx. destruct (Hl a Hx) as [->|(l & st & m & -> & Hr & Hm & Hshown)]; [by left|]. right. exists l, st, m.
    split_and!; [done|exact Hr| |by apply Hsh]. cbn [sd_seat d seat_plugged st_source]. specialize (Hw st). lia. }
  set (fuel := Datatypes.S (length (rd_schedule r))).
  set (t0 := new_transport d (rd_host r) (rd_waiting r) (rd_times r) (rd_schedule r)).
  assert (forall t res, (match ready with Ok _ => serve fuel fuel t0 | Err e => (t0, Err (PollFailed e)) end) = (t, res) ->
    in_service owner seat n (tr_device t) /\ in_turn (rd_host r) (tr_trace t) /\ host_ok (tr_host t)) as Hrun.
  { intros t res Hr. destruct ready as [u|e].
    - destruct (serve_consistent (rd_host r) fuel fuel d _ _ _ t res Hh Hb Hr) as (ph & Hok & (_ & Hi) & _).
      pose proof (service_kept owner seat n fuel fuel t0 Hd) as Hk. by rewrite Hr in Hk.
    - injection Hr as <- <-. split; [done|]. split; [constructor|done]. }
  unfold exec_with_identifier. fold t0 fuel. destruct (match ready with Ok _ => _ | Err _ => _ end) as [t res] eqn:E.
  destruct (Hrun t res eq_refl) as (Hx1 & Hx2 & Hx3). unfold served_well. cbn [sv_host sv_start sv_end].
  split_and!; [by exists seat, n|done|done|done|done|apply stop_not_working].
Qed.


End Served.

(** ** Runs *)

Module DaemonWitness.

Import TransportWitness SeatWitness.

Definition file : UhidFile := MkUhidFile [] [] [] [] 0 [] [].

(** The first device is there when another user's session becomes active; the
    second time round shutdown is asked for. *)
Definition plan : list Round := [
  {| rd_shutdown := []; rd_device := Ok (MkUhid file None false false); rd_host := idle_host; rd_waiting := false;
     rd_times := (None, None); rd_schedule := turns |};
  {| rd_shutdown := [true]; rd_device := Ok (MkUhid file None false false); rd_host := idle_host; rd_waiting := false;
     rd_times := (None, None); rd_schedule := turns |}].

Definition seat : Seat SeatWatch := seat_new (seat_watch_new [] start switched) 1000.

Definition run : list Served * Seat SeatWatch * result unit PollError := serve_plugged plan (Some (Ok tt)) seat.

Lemma run_is : serve_plugged plan (Some (Ok tt)) seat = run.
Proof. unfold run. reflexivity. Qed.

Lemma run_unplugged : is_unplugged <$> (sv_result <$> fst (fst run)) = [true; false].
Proof. vm_compute. reflexivity. Qed.

Lemma plan_hosts : Forall (fun round => host_ok (rd_host round) /\ ch_app_busy (rd_host round) = false) plan.
Proof. unfold plan. repeat (apply Forall_cons; split; [split; [exact idle_host_ok|reflexivity]|]). by apply Forall_nil. Qed.

Lemma seat_looked : looked seat.
Proof. apply looked_new. apply new_watch_ok. exact start_apart. Qed.

#[local] Opaque run plan seat.


(** A certificate backend that writes the one extension it is given. *)
#[local] Instance plain_rcgen : Rcgen := {|
  attestation_self_signed := fun p key =>
    match ap_custom_extensions p with
    | [(oid, critical, content)] =>
        let cert := certificate (tbs_certificate None (repeat (2, [1]) 6) []
          (extension (der_oid oid) (extension_value critical content))) key in
        if zlen cert <? 2 ^ 32 then Some cert else None
    | _ => None
    end;
  subject_public_key_info := fun key => key;
  is_printable := fun _ => true
|}.

#[local] Instance plain_rcgen_laws : RcgenLaws.
Proof.
  split. intros p key cert oid critical content. cbn [attestation_self_signed plain_rcgen]. intros Hs Hp. revert Hs. rewrite Hp.
  destruct (_ <? _) eqn:El; [|done]. apply Z.ltb_lt in El. intros [= <-].
  exists None, (repeat (2, [1]) 6), [], [], [], key. cbn [extensions app]. rewrite app_nil_r.
  split_and!; [done|done|constructor|constructor|done|done].
Qed.

Definition identity : IdentityConfig := {|
  ic_manufacturer := ascii_bytes "Example"; ic_product := ascii_bytes "Key"; ic_country := ascii_bytes "us";
  ic_aaguid := repeat 7 16
|}.

Definition provision (s : MemoryStore) : MemoryStore * result unit ProvisionError :=
  open_credential_store identity (repeat 1 32) (Some (repeat 9 20)) (Some 86400) s.

(** A new store gets a certificate; the next start keeps it. *)
Example provisioned_once :
  let (s, r) := provision (ms_new []) in
  r = Ok tt /\ is_some (ms_attestation s) = true /\ snd (provision s) = Ok tt /\
  ms_attestation (fst (provision s)) = ms_attestation s.
Proof. vm_compute. repeat split. Qed.

End DaemonWitness.
